(* ===== verification/_CoqProject ===== *)
-Q . S2P
Prelude.v
Text.v
Address.v
Streams.v
Vless.v
Mux.v
MuxTasks.v
Trojan.v
TrojanProxy.v
Socks.v
Router.v
Sniff.v
Dns.v
Dispatcher.v
Hysteria.v
Kcp.v
TunPacket.v
TunFlows.v
TunTcp.v
TunRoute.v
SplitHttp.v
SplitHttpAccept.v
Chunks.v
Crypto.v
Ss2022.v
Ss2022Udp.v
Vmess.v
VmessStream.v
VmessProxy.v
RecordIo.v
ShadowTls.v
ShadowStream.v
ShadowRelay.v
Balancer.v
HttpConnect.v
HttpUpgrade.v
Vision.v
Boxed.v
VlessProxy.v
Relay.v
Splice.v
SpliceTcp.v
RelayPolicy.v
ClientHello.v
Reality.v
RealityCert.v
Tls13.v
Tls13Stream.v
FreedomPool.v
PoolSettings.v
Grpc.v
Ws.v
Reload.v
