(* ===== verification/Prelude.v ===== *)
(** * Verification of the Blackwire proxy

    Blackwire is a proxy server and client written in Rust ([src/crates]).  A connection
    enters through an inbound protocol handler ([blackwire-protocol]: SOCKS5, VLESS, VMess,
    Trojan, Shadowsocks 2022, ...), possibly over a transport of its own
    ([blackwire-transport]: mKCP, SplitHTTP, REALITY, ShadowTLS, gRPC, ...), or as packets of a TUN
    device ([blackwire-transport/src/tun]) that are answered and bridged to a local SOCKS5
    inbound.  The handler decodes the request to a destination [Address] ([blackwire-common])
    and gives it to the dispatcher ([blackwire-app/src/dispatcher.rs]), which sniffs the
    first bytes ([sniff.rs]), restores the name behind a FakeIP address ([dns.rs],
    [dns/fakeip.rs]), asks the router for an outbound tag ([router.rs], [geo/]) under the
    configured domain strategy, resolving names through the DNS module when the strategy
    wants addresses, and relays the stream to the chosen outbound ([relay.rs], copying or
    splicing in the kernel).  Rules and users can be exchanged while it runs ([reload.rs]).

    This library models the parts that decide what is read, written, remembered and chosen.

    ** Files

    - [Prelude]: byte buffers as lists of integers with [bytes_ok], machine widths with
      [wrap], byte images of integers, the outcome type [res] (success, error value, panic,
      out of fuel), slicing with Rust's panics, the reader monad [parser], the state-and-error
      monad [stE], UTF-8 validity, text helpers; the hint databases [wire], [zlen], [ends]
      and the tactics the other files use.
    - [Text]: what the code uses of Rust's text functions: lines, splitting, trimming,
      decimal and hexadecimal numbers.
    - [Address]: [address.rs], [error.rs], [socks5_address.rs] of [blackwire-common].
      [write_socks5_address], [decode_socks5_address] (slice) and [read_socks5_address]
      (stream) are inverse to each other and agree.
    - [Streams]: streams that are polled.  What the polls of the stream underneath give is a
      list of events (data, wait, error); [AsyncReader] and [ReaderSpec] are the interface of
      a reader that decodes such a stream, and [reads_all] what its users rely on.
    - [Vless]: [vless/codec.rs], [vless/udp.rs], [vless/registry.rs].  Header and packet
      round trips; termination of the addons parser and the inputs on which it fails to
      return; the registry as a map.
    - [Mux]: [vless/mux.rs].  Frames and metadata; [relay_mux_cool] as a state machine over
      [MuxState] (three session tables and the running reader tasks), one definition per kind
      of frame ([mux_new], [mux_new_xudp], [mux_keep], [mux_end]); the ways tasks are leaked.
      [MuxTasks]: the demultiplexer together with the bodies of its reader tasks, the mutex of
      each upstream and that of the writer to the client, in every interleaving.
    - [Trojan]: [trojan/codec.rs] and the accumulator of [trojan/udp.rs].  Independence of
      the reassembly from read boundaries.  [TrojanProxy]: [trojan/inbound.rs],
      [trojan/outbound.rs], the two composed, and who is let in.
    - [Socks]: [socks.rs] and [socks5_udp.rs].  The handshake on every command, the UDP
      relay.
    - [Router]: [router.rs], [geo/geoip.rs], [geo/geosite.rs].  Matchers against their
      specifications, first match wins, hot swap.
    - [Sniff]: [sniff.rs].  Transparency for the stream; what is found and what is missed.
    - [Dns]: [dns/cache.rs], [dns/fakeip.rs], [dns.rs].  The cache as a refinement of a map
      with expiry; the invariant of the FakeIP pool over all reachable states.
    - [Dispatcher]: the decisions of [dispatcher.rs], composed with [Router], [Sniff] and
      [Dns].  A declarative reading of the rules and of the three domain strategies, which the
      code refines; where a connection goes and what its outbound is given.
    - [Hysteria]: [hysteria2/varint.rs], [hysteria2/proto.rs], [hysteria2/udp.rs].  Round
      trips, canonical encodings, absence of panics.
    - [Kcp]: [mkcp/segment.rs], [mkcp/header.rs], [mkcp/kcp.rs] and the draining of the
      engine in [mkcp.rs].  A step relation of two engines and an unreliable network:
      delivery is reliable and in order; bounds of one engine against any peer; the state in
      which a session stops for good.
    - [TunPacket]: [tun/packet.rs].  Parser and builders of IPv4 and IPv6 packets with TCP
      and UDP; round trips, checksums, safety of the parser.
    - [TunFlows]: [tun/nat.rs], [tun/session.rs].  The UDP NAT table with its sockets and
      response readers as a transition system, and the session table.
    - [TunTcp]: [tun/tcp.rs], [tun/runtime.rs].  The TCP bridge: table, flow tasks, SOCKS5
      client; the packet loop with its channel.
    - [TunRoute]: [tun/route.rs].  Set-up, rollback and clean-up of routes over an interface
      of commands and files.
    - [SplitHttp]: the chunked stream of [splithttp.rs] and the upload queue of
      [splithttp_packet_up.rs].  [SplitHttpAccept]: settings, requests, the handshake of both
      sides and the packet-up sessions of [splithttp.rs].
    - [Chunks]: the [poll_read], [poll_write] and [poll_flush] that [ss2022/stream.rs] and
      [vmess/stream.rs] share, over a decoder and a framer, and the interface of writers
      ([AsyncWriter], [WriterSpec]).
    - [Crypto]: the ciphers the protocols call, as records of operations with laws.
    - [Ss2022]: [ss2022/stream.rs], [ss2022/subkey.rs], [ss2022/variable_header.rs],
      [ss2022/replay.rs], [ss2022/inbound.rs], [ss2022/outbound.rs].  [Ss2022Udp]:
      [ss2022/udp.rs], with the relay and its reply tasks.
    - [Vmess]: [vmess/kdf.rs], [vmess/auth.rs], [vmess/codec.rs].  [VmessStream]:
      [vmess/stream.rs].  [VmessProxy]: [vmess/inbound.rs], [vmess/outbound.rs], and the two
      composed with the stream.
    - [RecordIo]: the loops that read and write whole TLS records, shared by the next files
      and [Tls13Stream].  [ShadowTls]: tags and records of [shadowtls/v3.rs],
      [shadowtls/marker.rs].  [ShadowStream]: its [V3Stream].  [ShadowRelay]:
      [shadowtls/handshake.rs], [shadowtls/client.rs], [shadowtls/server.rs], with the race of
      the two directions.
    - [Balancer]: [health.rs], [balancer.rs].  The strategies against the picks they describe.
    - [HttpConnect]: [http_connect.rs].  [HttpUpgrade]: [httpupgrade.rs].
    - [Vision], [Boxed]: [stream.rs] of [blackwire-common], XTLS Vision padding and the other
      wrappers.  [VlessProxy]: [vless/inbound.rs], [vless/outbound.rs].
    - [Relay]: [relay.rs] and [buf.rs] of [blackwire-common].  [RelayPolicy]: [relay.rs] of
      [blackwire-app].  [Splice]: [splice.rs], the io_uring state machine and the epoll loop.
      [SpliceTcp]: [splice_bidirectional] on two sockets, which [RelayPolicy] calls.
    - [ClientHello]: the builder of [blackwire-tls] and [reality/parser.rs].  [Reality]:
      authentication in [reality/client.rs] and [reality/server.rs].  [RealityCert]:
      [reality/cert.rs].  [Tls13]: the handshakes of [reality/tls13.rs] and
      [reality/tls13_server.rs].  [Tls13Stream]: the stream after them, and the whole tunnel.
    - [FreedomPool]: [freedom.rs], the pool of warm connections with its threads.
      [PoolSettings]: its configuration in [instance/mod.rs].
    - [Grpc]: [grpc.rs].  [Ws]: [ws.rs].
    - [Reload]: [reload.rs] and the parts of [instance/helpers.rs] it uses.

    ** Conventions

    A read from a stream is a function of the bytes still to come, so a theorem about a
    decoder holds for every way the transport cuts the stream.  Errors are values of
    [ProxyError] or message strings; a panic is a separate outcome.  The release profile
    leaves overflow checks off, so unchecked arithmetic wraps at its width.

    Loops that are not structural take fuel.  A decoder of a buffer gets its length (or one
    more), since each turn consumes at least a byte; the theorems that a function returns
    exclude the outcome [NoFuel] ([parse_flow_total], [mux_tasks_safe],
    [sniff_stream_transparent], [kcp_engine_bounds]).  [parse_flow_diverges] shows [NoFuel]
    for every fuel, which is a loop that never ends.  A turn of the demultiplexer of [Mux] is
    [NoFuel] when it awaits a lock that is not given back.  A polled reader gets the size of the
    events underneath and a small constant ([poll_fuel], [chunk_poll_read]), which
    [ReaderSpec] shows to be enough; the folding of a 32-bit sum gets four turns; the walk
    over IPv6 extension headers the length of the packet.

    Code outside the repository is an interface: a class with the operations and a class with
    the documented laws, and an instance that shows the laws can hold ([ipnet],
    [aho-corasick], [regex] in [Router]; [lru] in [Dns]; [http] in [Hysteria]; the ciphers and
    hash functions in [Crypto], [Vmess], [ShadowTls], [Reality], [RealityCert], [Tls13];
    commands and files in [TunRoute]).  The instances of ciphers and hashes are small functions
    with the laws and without any strength.  What the kernel does during a splice is a value
    ([Kernel] of [SpliceTcp]): that the relay makes nothing up holds for every one of them, that
    everything arrives for those that let a splice go through or refuse it at once.
    [ReaderSpec] and [WriterSpec] are the promises of streams to their users.  Sockets, name
    resolution, clocks, random bytes and outbound connectors are environments of a step.

    An await is a poll that may find nothing yet; where only the bytes matter it does not show
    ([hio], the monad of the TLS handshakes).  Threads and tasks that share state are steps of
    one machine taken in any order ([FreedomPool], [MuxTasks], [TunFlows], [TunTcp], [Splice]); a step is
    what the code does under one lock or in one atomic operation, but the scan of
    [evict_lru] over the pools is taken as one step.  The kernel under io_uring is a step relation.
    Floating-point numbers are those of [SpecFloat], at double precision.  An authentication of
    REALITY and of the Shadowsocks 2022 inbound reads the clock once, where the code reads it
    again a few instructions later.  When gRPC's [poll_flush] has emptied its own buffer, the
    flush of the stream underneath is taken to succeed.  The text of an error may be shorter than in the code.

    ** The theorems

    What one side writes the other reads, through codecs, streams and handshakes: C1, C2, C4,
    C6, C14, C15, C16, C19, C26, C27, C32, C33, C35.  Refinement of an abstract contract: C3,
    C5, C17, C21, C25, C34.  Agreement with a reference definition: C23, C29.  Invariants and bounds
    over all runs: C8, C9, C22, C24, C30.  Functional behaviour on every branch: C11, C18.
    Safety, types, errors and termination: C7, C10, C12, C13, C20, C28, C31, C36, C37, C38.  The
    theorems C39 and C40 describe inputs and states from which the code does not recover.  The
    files hold more theorems without a number: further round trips of the codecs, and inputs
    on which the code departs from what it means to do.

    ** Not modelled

    What third-party libraries carry: rustls and kernel TLS, QUIC, HTTP/3 and the sessions of
    Hysteria2 with their congestion control, HTTP/2 handshakes and bodies, the handshake and
    frames of WebSocket.  What is mostly I/O or glue: outbound sockets and their options, the
    opening of TUN devices, batched receiving through recvmmsg, the assembly of the core
    instance, configuration parsing, the management API, the command line, statistics and
    metrics, the server of Black UI.  Of the components above: the
    listener of mKCP and its select loops, the relay loop of XTLS Vision inbounds, the
    bound of the queue of a TUN flow task. *)

From stdpp Require Import base list gmap strings numbers.
From Stdlib Require Import Ascii.

#[global] Open Scope Z_scope.
#[export] Set Warnings "-clear-no-such-hyp".

(** * Bytes and machine integers *)

(** A byte buffer ([&[u8]], [Vec<u8>], [Bytes]) is a list of integers; the
    predicate [bytes_ok] says that each of them fits in eight bits. *)
Abbreviation bytes := (list Z).

(** [is_u w z]: [z] is a value of the unsigned machine type of [w] bits. *)
Definition is_u (w : Z) (z : Z) : Prop := 0 <= z < 2 ^ w.

#[global] Instance is_u_dec w z : Decision (is_u w z).
Proof. unfold is_u. apply _. Defined.

Definition bytes_ok (bs : bytes) : Prop := Forall (is_u 8) bs.

#[global] Instance bytes_ok_dec bs : Decision (bytes_ok bs).
Proof. unfold bytes_ok. apply _. Defined.

(** [wrap w z]: the value kept by a [w]-bit unsigned register ([as uN] casts
    and wrapping arithmetic). *)
Definition wrap (w : Z) (z : Z) : Z := z mod 2 ^ w.

(** Length of a buffer as a [usize]. *)
Definition zlen {A} (l : list A) : Z := Z.of_nat (length l).

(** Big-endian and little-endian byte images of an unsigned integer. *)
Fixpoint le_bytes (n : nat) (z : Z) : bytes :=
  match n with
  | O => []
  | S n' => z mod 256 :: le_bytes n' (z / 256)
  end.

Definition be_bytes (n : nat) (z : Z) : bytes := reverse (le_bytes n z).

Fixpoint le_val (bs : bytes) : Z :=
  match bs with
  | [] => 0
  | b :: bs' => b + 256 * le_val bs'
  end.

Definition be_val (bs : bytes) : Z := le_val (reverse bs).

Arguments zlen : simpl never.
Arguments wrap : simpl never.

(** The bytes of a string literal. *)
Definition lit (s : string) : bytes :=
  (fun a => Z.of_N (N_of_ascii a)) <$> String.list_ascii_of_string s.

(** Test of equality of two buffers. *)
Definition bytes_eqb (a b : bytes) : bool := bool_decide (a = b).

(** * Outcomes: Rust's [Result] plus panics *)

(** [Panic] is a thread panic: an index or slice out of range, an arithmetic
    overflow where the code asks for a check, [unwrap]/[expect] on an absent
    value.  [NoFuel] is a loop that did not finish within the iterations it was
    given; it never stands for an outcome of the program, so a theorem that a
    function returns excludes it. *)
Inductive res (E A : Type) : Type :=
| Ok (a : A)
| Err (e : E)
| Panic
| NoFuel.
Arguments Ok {E A} a.
Arguments Err {E A} e.
Arguments Panic {E A}.
Arguments NoFuel {E A}.

#[global] Instance res_ret E : MRet (res E) := fun A a => Ok a.
#[global] Instance res_bind E : MBind (res E) := fun A B f m =>
  match m with
  | Ok a => f a
  | Err e => Err e
  | Panic => Panic
  | NoFuel => NoFuel
  end.

#[global] Instance res_eq_dec {E A} `{EqDecision E, EqDecision A} : EqDecision (res E A).
Proof. solve_decision. Defined.

(** [map_err] of the source: the error is replaced, success kept. *)
Definition map_err {E E' A} (f : E -> E') (m : res E A) : res E' A :=
  match m with
  | Ok a => Ok a
  | Err e => Err (f e)
  | Panic => Panic
  | NoFuel => NoFuel
  end.

Definition is_panic {E A} (m : res E A) : bool :=
  match m with Panic => true | _ => false end.

Definition is_ok {E A} (m : res E A) : bool :=
  match m with Ok _ => true | _ => false end.

(** [ok_or] / [ok_or_else]. *)
Definition ok_or {E A} (o : option A) (e : E) : res E A :=
  match o with Some a => Ok a | None => Err e end.

(** [data[i]]: panics when the index is out of range. *)
Definition idx {E} (l : bytes) (i : Z) : res E Z :=
  if bool_decide (0 <= i) then
    match l !! Z.to_nat i with Some b => Ok b | None => Panic end
  else Panic.

(** [&data[i..j]]: panics unless [0 <= i <= j <= len]. *)
Definition slice {E} (l : bytes) (i j : Z) : res E bytes :=
  if bool_decide (0 <= i) && bool_decide (i <= j) && bool_decide (j <= zlen l)
  then Ok (take (Z.to_nat (j - i)) (drop (Z.to_nat i) l))
  else Panic.

(** [&data[i..]]. *)
Definition slice_from {E} (l : bytes) (i : Z) : res E bytes := slice l i (zlen l).

(** [buf[i..i+data.len()].copy_from_slice(data)], panicking outside the buffer. *)
Definition put_at {E} (buf : bytes) (i : Z) (data : bytes) : res E bytes :=
  if (0 <=? i) && (i + zlen data <=? zlen buf) then
    Ok (take (Z.to_nat i) buf ++ data ++ drop (Z.to_nat (i + zlen data)) buf)
  else Panic.

(** * Readers: asynchronous byte streams as parsers *)

(** Reading from an [AsyncRead] is a function of the bytes still to come; the
    chunk boundaries of the transport are not visible to [read_exact]. *)
Definition parser (E A : Type) : Type := bytes -> res E (A * bytes).

#[global] Instance parser_ret E : MRet (parser E) := fun A a s => Ok (a, s).
#[global] Instance parser_bind E : MBind (parser E) := fun A B f p s =>
  match p s with
  | Ok (a, s') => f a s'
  | Err e => Err e
  | Panic => Panic
  | NoFuel => NoFuel
  end.

Definition pfail {E A} (e : E) : parser E A := fun _ => Err e.

(** A pure step ([decode_x(&buf)?]) inside a reader. *)
Definition plift {E A} (m : res E A) : parser E A := fun s =>
  match m with Ok a => Ok (a, s) | Err e => Err e | Panic => Panic | NoFuel => NoFuel end.

(** The error [?] makes of an unexpected end of the stream. *)
Class EofError (E : Type) := eof_error : E.

(** [read_exact(&mut buf[..n])]. *)
Definition read_exact {E} `{EofError E} (n : Z) : parser E bytes := fun s =>
  if bool_decide (n <= zlen s)
  then Ok (take (Z.to_nat n) s, drop (Z.to_nat n) s)
  else Err eof_error.

Definition read_u8 {E} `{EofError E} : parser E Z := fun s =>
  match s with b :: s' => Ok (b, s') | [] => Err eof_error end.

Definition read_u16 {E} `{EofError E} : parser E Z :=
  bs ← read_exact 2; mret (be_val bs).

(** * Mutable state with errors *)

(** Code that updates a structure and may stop with [?]: the updates made
    before the error stay. *)
Definition stE (S E A : Type) : Type := S -> S * res E A.

#[global] Instance stE_ret S E : MRet (stE S E) := fun A a s => (s, Ok a).
#[global] Instance stE_bind S E : MBind (stE S E) := fun A B f m s =>
  match m s with
  | (s', Ok a) => f a s'
  | (s', Err e) => (s', Err e)
  | (s', Panic) => (s', Panic)
  | (s', NoFuel) => (s', NoFuel)
  end.

Definition st_get {S E A} (f : S -> A) : stE S E A := fun s => (s, Ok (f s)).
Definition st_modify {S E} (f : S -> S) : stE S E unit := fun s => (f s, Ok tt).
Definition st_lift {S E A} (m : res E A) : stE S E A := fun s => (s, m).
Definition st_fail {S E A} (e : E) : stE S E A := fun s => (s, Err e).

(** * UTF-8 *)

Definition in_range (b lo hi : Z) : bool := (lo <=? b) && (b <=? hi).

(** [std::str::from_utf8] succeeds exactly on the well-formed byte sequences
    of the Unicode standard (table 3-7). *)
Fixpoint utf8_valid (l : bytes) : bool :=
  match l with
  | [] => true
  | b0 :: r0 =>
      if in_range b0 0 0x7F then utf8_valid r0
      else
        match r0 with
        | [] => false
        | b1 :: r1 =>
            if in_range b0 0xC2 0xDF then in_range b1 0x80 0xBF && utf8_valid r1
            else
              match r1 with
              | [] => false
              | b2 :: r2 =>
                  if in_range b0 0xE0 0xEF then
                    (if b0 =? 0xE0 then in_range b1 0xA0 0xBF
                     else if b0 =? 0xED then in_range b1 0x80 0x9F
                     else in_range b1 0x80 0xBF)
                    && in_range b2 0x80 0xBF && utf8_valid r2
                  else
                    match r2 with
                    | [] => false
                    | b3 :: r3 =>
                        in_range b0 0xF0 0xF4
                        && (if b0 =? 0xF0 then in_range b1 0x90 0xBF
                            else if b0 =? 0xF4 then in_range b1 0x80 0x8F
                            else in_range b1 0x80 0xBF)
                        && in_range b2 0x80 0xBF && in_range b3 0x80 0xBF
                        && utf8_valid r3
                    end
              end
        end
  end.

(** U+FFFD, the replacement character. *)
Definition utf8_replacement : bytes := [0xEF; 0xBF; 0xBD].

Definition utf8_cont (b : Z) : bool := in_range b 0x80 0xBF.

(** The second byte of a character of three or four bytes. *)
Definition utf8_second (b0 b1 : Z) : bool :=
  if b0 =? 0xE0 then in_range b1 0xA0 0xBF
  else if b0 =? 0xED then in_range b1 0x80 0x9F
  else if b0 =? 0xF0 then in_range b1 0x90 0xBF
  else if b0 =? 0xF4 then in_range b1 0x80 0x8F
  else utf8_cont b1.

(** [String::from_utf8_lossy]: each longest start of a character that is cut short or broken
    off, and each other byte that starts none, becomes one replacement character. *)
Fixpoint utf8_lossy (l : bytes) : bytes :=
  match l with
  | [] => []
  | b0 :: r0 =>
      if in_range b0 0 0x7F then b0 :: utf8_lossy r0
      else if in_range b0 0xC2 0xDF then
        match r0 with
        | b1 :: r1 => if utf8_cont b1 then b0 :: b1 :: utf8_lossy r1 else utf8_replacement ++ utf8_lossy r0
        | [] => utf8_replacement
        end
      else if in_range b0 0xE0 0xF4 then
        match r0 with
        | b1 :: r1 =>
            if utf8_second b0 b1 then
              match r1 with
              | b2 :: r2 =>
                  if utf8_cont b2 then
                    if in_range b0 0xE0 0xEF then b0 :: b1 :: b2 :: utf8_lossy r2
                    else
                      match r2 with
                      | b3 :: r3 =>
                          if utf8_cont b3 then b0 :: b1 :: b2 :: b3 :: utf8_lossy r3
                          else utf8_replacement ++ utf8_lossy r2
                      | [] => utf8_replacement
                      end
                  else utf8_replacement ++ utf8_lossy r1
              | [] => utf8_replacement
              end
            else utf8_replacement ++ utf8_lossy r0
        | [] => utf8_replacement
        end
      else utf8_replacement ++ utf8_lossy r0
  end.

(** * Text *)

Definition is_ascii_uppercase (b : Z) : bool := (65 <=? b) && (b <=? 90).
Definition ascii_lower (b : Z) : Z := if is_ascii_uppercase b then b + 32 else b.
Definition to_ascii_lowercase (s : bytes) : bytes := ascii_lower <$> s.

(** [char::is_whitespace]: the UTF-8 images of the Unicode White_Space
    characters; the argument is the rest of the text, the result the length of
    the white-space character it starts with. *)
Definition ws_chars : list bytes :=
  [[9]; [10]; [11]; [12]; [13]; [32]; [0xC2; 0x85]; [0xC2; 0xA0]; [0xE1; 0x9A; 0x80];
   [0xE2; 0x80; 0x80]; [0xE2; 0x80; 0x81]; [0xE2; 0x80; 0x82]; [0xE2; 0x80; 0x83];
   [0xE2; 0x80; 0x84]; [0xE2; 0x80; 0x85]; [0xE2; 0x80; 0x86]; [0xE2; 0x80; 0x87];
   [0xE2; 0x80; 0x88]; [0xE2; 0x80; 0x89]; [0xE2; 0x80; 0x8A]; [0xE2; 0x80; 0xA8];
   [0xE2; 0x80; 0xA9]; [0xE2; 0x80; 0xAF]; [0xE2; 0x81; 0x9F]; [0xE3; 0x80; 0x80]].

Fixpoint is_prefix (k s : bytes) : bool :=
  match k, s with
  | [], _ => true
  | _, [] => false
  | a :: k, b :: s => (a =? b) && is_prefix k s
  end.

Definition ws_len (chars : list bytes) (s : bytes) : option nat :=
  length <$> List.find (fun c => is_prefix c s) chars.

(** Drops leading characters of the given set; each step drops at least a byte. *)
Fixpoint trim_with (chars : list bytes) (fuel : nat) (s : bytes) : bytes :=
  match fuel with
  | O => s
  | S fuel =>
      match ws_len chars s with
      | Some n => trim_with chars fuel (drop n s)
      | None => s
      end
  end.

(** [str::trim]; the end is trimmed on the reversed text. *)
Definition trim_start (s : bytes) : bytes := trim_with ws_chars (length s) s.
Definition trim_end (s : bytes) : bytes :=
  reverse (trim_with (reverse <$> ws_chars) (length s) (reverse s)).
Definition trim (s : bytes) : bytes := trim_end (trim_start s).

(** [str::strip_prefix] and [str::starts_with]. *)
Definition strip_prefix (k s : bytes) : option bytes :=
  if is_prefix k s then Some (drop (length k) s) else None.

(** * Shared lemmas and automation *)

(** A closed decidable fact. *)
Ltac decided := apply (bool_decide_unpack _); vm_compute; exact I.

(** [lia] for goals with division and remainder by constants. *)
Ltac zdiv := Z.to_euclidean_division_equations; lia.

Create HintDb wire.

Lemma is_u8_of_mod z : is_u 8 (z mod 256).
Proof. unfold is_u. change (2 ^ 8) with 256. apply Z.mod_pos_bound. lia. Qed.

Lemma length_le_bytes n z : length (le_bytes n z) = n.
Proof. revert z. induction n; intros; simpl; [done | by rewrite IHn]. Qed.

Lemma length_be_bytes n z : length (be_bytes n z) = n.
Proof. unfold be_bytes. by rewrite length_reverse, length_le_bytes. Qed.

Lemma le_bytes_ok n z : bytes_ok (le_bytes n z).
Proof.
  revert z. induction n; intros; cbn [le_bytes]; [constructor |].
  constructor; [apply is_u8_of_mod | apply IHn].
Qed.

Lemma be_bytes_ok n z : bytes_ok (be_bytes n z).
Proof. apply Forall_reverse, le_bytes_ok. Qed.

Lemma le_val_le_bytes n z :
  0 <= z < 256 ^ Z.of_nat n -> le_val (le_bytes n z) = z.
Proof.
  revert z. induction n as [| n IH]; intros z Hz; cbn [le_bytes le_val].
  - simpl in Hz. lia.
  - rewrite IH; [pose proof (Z.div_mod z 256); lia |].
    rewrite Nat2Z.inj_succ, Z.pow_succ_r in Hz by lia.
    split; [apply Z.div_pos; lia | apply Z.div_lt_upper_bound; lia].
Qed.

Lemma be_val_be_bytes n z :
  0 <= z < 256 ^ Z.of_nat n -> be_val (be_bytes n z) = z.
Proof.
  intros. unfold be_val, be_bytes. rewrite reverse_involutive. by apply le_val_le_bytes.
Qed.

Lemma le_val_bound bs : bytes_ok bs -> 0 <= le_val bs < 256 ^ zlen bs.
Proof.
  unfold zlen. induction 1 as [| b bs Hb Hbs IH]; simpl le_val; [simpl; lia |].
  rewrite length_cons, Nat2Z.inj_succ, Z.pow_succ_r by lia.
  unfold is_u in Hb. change (2 ^ 8) with 256 in Hb. nia.
Qed.

Lemma be_val_bound bs : bytes_ok bs -> 0 <= be_val bs < 256 ^ zlen bs.
Proof.
  intros H. unfold be_val, zlen. rewrite <- length_reverse.
  apply le_val_bound. by apply Forall_reverse.
Qed.

Lemma le_bytes_le_val bs : bytes_ok bs -> le_bytes (length bs) (le_val bs) = bs.
Proof.
  induction 1 as [| b bs Hb Hbs IH]; simpl; [done |].
  unfold is_u in Hb. change (2 ^ 8) with 256 in Hb. f_equal.
  - rewrite Z.add_mod, (Z.mul_comm 256), Z.mod_mul, Z.add_0_r, Z.mod_mod, Z.mod_small; lia.
  - rewrite (Z.mul_comm 256), Z.div_add, Z.div_small, Z.add_0_l; [done | lia | lia].
Qed.

Lemma be_bytes_be_val bs : bytes_ok bs -> be_bytes (length bs) (be_val bs) = bs.
Proof.
  intros H. unfold be_bytes, be_val. rewrite <- (length_reverse bs).
  rewrite le_bytes_le_val by (by apply Forall_reverse). apply reverse_involutive.
Qed.

Lemma is_u16_be_val a b : is_u 8 a -> is_u 8 b -> is_u 16 (be_val [a; b]).
Proof. unfold is_u, be_val. cbn. lia. Qed.

Lemma le_val_app l k : le_val (l ++ k) = le_val l + 256 ^ Z.of_nat (length l) * le_val k.
Proof.
  induction l as [| b l IH]; simpl le_val; [simpl; lia |]. rewrite IH, length_cons.
  rewrite Nat2Z.inj_succ, Z.pow_succ_r by lia. lia.
Qed.

Lemma be_val_cons b l : be_val (b :: l) = b * 256 ^ zlen l + be_val l.
Proof.
  unfold be_val. rewrite reverse_cons, le_val_app, length_reverse. unfold zlen. simpl. lia.
Qed.

Lemma le_bytes_snoc n z :
  le_bytes (S n) z = le_bytes n z ++ [z / 256 ^ Z.of_nat n mod 256].
Proof.
  revert z. induction n as [| n IH]; intros z.
  - simpl. by rewrite Z.div_1_r.
  - change (le_bytes (S (S n)) z) with (z mod 256 :: le_bytes (S n) (z / 256)).
    rewrite IH, Z.div_div, <- Z.pow_succ_r, <- Nat2Z.inj_succ by lia. done.
Qed.

Lemma be_bytes_cons n z :
  be_bytes (S n) z = (z / 256 ^ Z.of_nat n mod 256) :: be_bytes n z.
Proof. unfold be_bytes. rewrite le_bytes_snoc. by rewrite reverse_app. Qed.

Lemma le_val_le_bytes_mod n : forall z, le_val (le_bytes n z) = z mod 256 ^ Z.of_nat n.
Proof.
  induction n as [| n IH]; intros z; cbn [le_bytes le_val]; [by rewrite Z.mod_1_r |].
  rewrite IH, Nat2Z.inj_succ, Z.pow_succ_r, Z.rem_mul_r by lia. done.
Qed.

Lemma be_val_be_bytes_mod n z : be_val (be_bytes n z) = z mod 256 ^ Z.of_nat n.
Proof. unfold be_val, be_bytes. rewrite reverse_involutive. apply le_val_le_bytes_mod. Qed.

Lemma be_val_nil : be_val [] = 0.
Proof. done. Qed.

Lemma be_bytes_0 z : be_bytes 0 z = [].
Proof. done. Qed.

Lemma be_bytes_2 z : be_bytes 2 z = [z / 256 mod 256; z mod 256].
Proof. done. Qed.

Lemma be_bytes_3 z : be_bytes 3 z = [z / 256 / 256 mod 256; z / 256 mod 256; z mod 256].
Proof. done. Qed.

#[global] Opaque be_bytes le_bytes be_val.

Lemma zlen_nonneg {A} (l : list A) : 0 <= zlen l.
Proof. unfold zlen. lia. Qed.

Lemma zlen_cons {A} (x : A) l : zlen (x :: l) = 1 + zlen l.
Proof. unfold zlen. rewrite length_cons. lia. Qed.

Lemma zlen_0_nil {A} (l : list A) : zlen l = 0 -> l = [].
Proof. unfold zlen. destruct l; [done | simpl; lia]. Qed.

Lemma zlen_nil {A} : zlen ([] : list A) = 0.
Proof. done. Qed.

Lemma zlen_app {A} (l k : list A) : zlen (l ++ k) = zlen l + zlen k.
Proof. unfold zlen. rewrite length_app. lia. Qed.

Lemma zlen_be_bytes n z : zlen (be_bytes n z) = Z.of_nat n.
Proof. unfold zlen. by rewrite length_be_bytes. Qed.

Lemma zlen_le_bytes n z : zlen (le_bytes n z) = Z.of_nat n.
Proof. unfold zlen. by rewrite length_le_bytes. Qed.

Create Rewrite HintDb zlen.
#[export] Hint Rewrite @zlen_cons @zlen_nil @zlen_app zlen_be_bytes zlen_le_bytes : zlen.

(** Arithmetic on buffer lengths. *)
Ltac len_pose l :=
  lazymatch goal with
  | _ : 0 <= zlen l |- _ => fail
  | _ => pose proof (zlen_nonneg l)
  end.

Ltac len_solve :=
  autorewrite with zlen in *;
  repeat match goal with
  | |- context [zlen ?l] => len_pose l
  | _ : context [zlen ?l] |- _ => len_pose l
  end;
  unfold is_u in *; try lia.

Lemma take_drop_bytes_ok n bs : bytes_ok bs -> bytes_ok (take n bs) /\ bytes_ok (drop n bs).
Proof. intros. split; [by apply Forall_take | by apply Forall_drop]. Qed.

Lemma split_at (l : bytes) n :
  0 <= n <= zlen l -> exists d r, l = d ++ r /\ zlen d = n.
Proof.
  intros. exists (take (Z.to_nat n) l), (drop (Z.to_nat n) l).
  split; [by rewrite take_drop |]. unfold zlen in *. rewrite length_take. lia.
Qed.

Lemma drop_app_zlen (d r : bytes) n : n = zlen d -> drop (Z.to_nat n) (d ++ r) = r.
Proof. intros ->. unfold zlen. rewrite Nat2Z.id. apply drop_app_length. Qed.

Lemma take_app_zlen (d r : bytes) n : n = zlen d -> take (Z.to_nat n) (d ++ r) = d.
Proof. intros ->. unfold zlen. rewrite Nat2Z.id. apply take_app_length. Qed.

Lemma bytes_ok_app l k : bytes_ok (l ++ k) <-> bytes_ok l /\ bytes_ok k.
Proof. apply Forall_app. Qed.

Lemma bytes_ok_cons b k : bytes_ok (b :: k) <-> is_u 8 b /\ bytes_ok k.
Proof. apply Forall_cons_iff. Qed.

(** Proves that a literal list of known bytes is a byte buffer. *)
Ltac bok :=
  repeat first
    [ assumption
    | apply be_bytes_ok
    | apply bytes_ok_cons; split
    | apply bytes_ok_app; split
    | apply Forall_nil_2
    | apply is_u8_of_mod
    | solve [unfold is_u; lia] ].

(** ** Indexing and slicing *)

Lemma idx_lookup {E} (l : bytes) i b :
  idx (E:=E) l i = Ok b <-> 0 <= i /\ l !! Z.to_nat i = Some b.
Proof.
  unfold idx. case_bool_decide; [| split; [discriminate | lia]].
  destruct (l !! Z.to_nat i); split; intros; destruct_and?; simplify_eq; auto.
Qed.

Lemma idx_in_range {E} (l : bytes) i :
  0 <= i < zlen l -> exists b, idx (E:=E) l i = Ok b /\ b ∈ l.
Proof.
  intros Hi. unfold zlen in Hi.
  destruct (lookup_lt_is_Some_2 l (Z.to_nat i)) as [b Hb]; [lia |].
  exists b. split; [apply idx_lookup; split; [lia | done] |].
  by eapply list_elem_of_lookup_2.
Qed.

Lemma idx_app_mid {E} (l k : bytes) b i :
  i = zlen l -> idx (E:=E) (l ++ b :: k) i = Ok b.
Proof.
  intros ->. apply idx_lookup. split; [apply zlen_nonneg |].
  unfold zlen. rewrite Nat2Z.id. by apply list_lookup_middle.
Qed.

Lemma slice_in_range {E} (l : bytes) i j :
  0 <= i <= j -> j <= zlen l ->
  slice (E:=E) l i j = Ok (take (Z.to_nat (j - i)) (drop (Z.to_nat i) l)).
Proof. intros. unfold slice. rewrite !bool_decide_eq_true_2 by lia. done. Qed.

Lemma slice_app3 {E} (l m k : bytes) i j :
  i = zlen l -> j = zlen l + zlen m -> slice (E:=E) (l ++ m ++ k) i j = Ok m.
Proof.
  intros -> ->. rewrite slice_in_range; [| len_solve..].
  f_equal. unfold zlen. rewrite Nat2Z.id, drop_app_length.
  apply take_app_length'. lia.
Qed.

Lemma slice_split {E} (l a m k : bytes) i j :
  l = a ++ m ++ k -> i = zlen a -> j = zlen a + zlen m -> slice (E:=E) l i j = Ok m.
Proof. intros ->. apply slice_app3. Qed.

Lemma slice_from_app {E} (l k : bytes) i :
  i = zlen l -> slice_from (E:=E) (l ++ k) i = Ok k.
Proof.
  intros ->. unfold slice_from.
  rewrite <- (app_nil_r k) at 1. rewrite slice_app3; [done | done |]. len_solve.
Qed.

Lemma slice_ok {E} (l : bytes) i j s :
  slice (E:=E) l i j = Ok s ->
  0 <= i <= j /\ j <= zlen l /\ s = take (Z.to_nat (j - i)) (drop (Z.to_nat i) l).
Proof. unfold slice. repeat case_bool_decide; simpl; intros; simplify_eq; auto. Qed.

Lemma slice_len {E} (l : bytes) i j s :
  slice (E:=E) l i j = Ok s -> zlen s = j - i.
Proof.
  intros (?&?&->)%slice_ok. unfold zlen in *. rewrite length_take, length_drop. lia.
Qed.

Lemma slice_bytes_ok {E} (l : bytes) i j s :
  slice (E:=E) l i j = Ok s -> bytes_ok l -> bytes_ok s.
Proof. intros (?&?&->)%slice_ok ?. by apply Forall_take, Forall_drop. Qed.

Lemma idx_bytes_ok {E} (l : bytes) i b :
  idx (E:=E) l i = Ok b -> bytes_ok l -> is_u 8 b.
Proof. intros [_ Hb]%idx_lookup H. by eapply Forall_lookup_1. Qed.

Lemma put_at_ok {E} l a old b data i :
  l = a ++ old ++ b -> i = zlen a -> length data = length old -> put_at (E:=E) l i data = Ok (a ++ data ++ b).
Proof.
  intros -> -> Hl. unfold put_at. pose proof (zlen_nonneg a). unfold zlen in *. rewrite !length_app.
  rewrite (proj2 (Z.leb_le _ _)), (proj2 (Z.leb_le _ _)) by lia. cbn [andb]. rewrite Nat2Z.id, take_app_length.
  do 3 f_equal. rewrite app_assoc. apply drop_app_length'. rewrite length_app. lia.
Qed.

(** ** Readers *)

Lemma pbind_ok {E A B} (p : parser E A) (f : A -> parser E B) s a s' :
  p s = Ok (a, s') -> (p ≫= f) s = f a s'.
Proof. intros H. unfold mbind, parser_bind. by rewrite H. Qed.

Lemma pbind_inv {E A B} (p : parser E A) (f : A -> parser E B) s b s'' :
  (p ≫= f) s = Ok (b, s'') -> exists a s', p s = Ok (a, s') /\ f a s' = Ok (b, s'').
Proof. unfold mbind, parser_bind. destruct (p s) as [[a s'] | | |]; naive_solver. Qed.

Lemma rbind_inv {E A B} (m : res E A) (f : A -> res E B) b :
  (m ≫= f) = Ok b -> exists a, m = Ok a /\ f a = Ok b.
Proof. unfold mbind, res_bind. destruct m; naive_solver. Qed.

Lemma rbind_ok {E A B} (m : res E A) (f : A -> res E B) a :
  m = Ok a -> (m ≫= f) = f a.
Proof. by intros ->. Qed.

Section readers.
Context {E : Type} `{EofError E}.

Lemma read_exact_app n (a s : bytes) :
  n = zlen a -> read_exact (E:=E) n (a ++ s) = Ok (a, s).
Proof.
  intros ->. unfold read_exact. rewrite bool_decide_eq_true_2; [| len_solve].
  unfold zlen. by rewrite Nat2Z.id, take_app_length, drop_app_length.
Qed.

Lemma read_exact_nil n (a : bytes) : n = zlen a -> read_exact (E:=E) n a = Ok (a, []).
Proof. intros. rewrite <- (app_nil_r a) at 1. by apply read_exact_app. Qed.

Lemma read_u8_cons b s : read_u8 (E:=E) (b :: s) = Ok (b, s).
Proof. done. Qed.

Lemma read_u16_app z s :
  is_u 16 z -> read_u16 (E:=E) (be_bytes 2 z ++ s) = Ok (z, s).
Proof.
  intros Hz. unfold read_u16. erewrite pbind_ok; [| by apply read_exact_app].
  unfold mret, parser_ret. by rewrite be_val_be_bytes.
Qed.

Lemma read_exact_inv n s a s' :
  0 <= n -> read_exact (E:=E) n s = Ok (a, s') -> s = a ++ s' /\ zlen a = n.
Proof.
  intros Hn. unfold read_exact. case_bool_decide; [| discriminate].
  intros [= <- <-]. split; [by rewrite take_drop |].
  unfold zlen in *. rewrite length_take. lia.
Qed.

Lemma read_u8_inv s b s' : read_u8 (E:=E) s = Ok (b, s') -> s = b :: s'.
Proof. destruct s; simpl; intros; by simplify_eq. Qed.

Lemma read_u16_inv s z s' :
  read_u16 (E:=E) s = Ok (z, s') -> exists a b, s = a :: b :: s' /\ z = be_val [a; b].
Proof.
  intros (bs & s1 & Hr & Hm)%pbind_inv. apply read_exact_inv in Hr as [-> Hl]; [| lia].
  destruct bs as [| a [| b [|]]]; try (unfold zlen in Hl; simpl in Hl; lia).
  injection Hm as <- <-. by exists a, b.
Qed.

End readers.

#[export] Hint Resolve read_exact_app read_u8_cons read_u16_app : wire.
#[export] Hint Extern 1 (_ = zlen _) => solve [len_solve] : wire.
#[export] Hint Extern 1 (is_u _ _) => solve [unfold is_u; len_solve] : wire.

(** One step of a reader whose next bytes are known. *)
Ltac pstep := erewrite pbind_ok; [| solve [eauto with wire]].

(** ** State with errors *)

Lemma sbind_ok {S E A B} (m : stE S E A) (f : A -> stE S E B) s s' a :
  m s = (s', Ok a) -> (m ≫= f) s = f a s'.
Proof. intros H. unfold mbind, stE_bind. by rewrite H. Qed.

Lemma sbind_inv {S E A B} (m : stE S E A) (f : A -> stE S E B) s s'' b :
  (m ≫= f) s = (s'', Ok b) -> exists a s', m s = (s', Ok a) /\ f a s' = (s'', Ok b).
Proof. unfold mbind, stE_bind. destruct (m s) as [s' []]; naive_solver. Qed.

(** Inverts a chain of steps that all succeeded. *)
Ltac sinv H :=
  repeat match type of H with
  | (_ ≫= _) _ = (_, Ok _) =>
      let a := fresh "v" in let s := fresh "st" in let H1 := fresh "Hv" in
      apply sbind_inv in H as (a & s & H1 & H);
      try match type of a with unit => destruct a end
  end.

(** ** UTF-8 *)

Definition is_ascii (bs : bytes) : Prop := Forall (fun b => 0 <= b < 128) bs.

#[global] Instance is_ascii_dec bs : Decision (is_ascii bs).
Proof. unfold is_ascii. apply _. Defined.

Lemma utf8_valid_ascii bs : is_ascii bs -> utf8_valid bs = true.
Proof.
  induction 1 as [| b bs Hb Hbs IH]; simpl; [done |].
  unfold in_range. replace ((0 <=? b) && (b <=? 127)) with true by lia. done.
Qed.

(** Text stays as it is. *)
Lemma utf8_lossy_valid n : forall s, (length s <= n)%nat -> utf8_valid s = true -> utf8_lossy s = s.
Proof.
  induction n as [| n IH]; intros s Hn; [by destruct s; [| simpl in Hn; lia] |].
  destruct s as [| b0 r0]; [done |]. cbn [utf8_valid utf8_lossy length] in *.
  destruct (in_range b0 0 127) eqn:E0; [intros H; by rewrite IH by (done || lia) |].
  destruct r0 as [| b1 r1]; [done |]. cbn [length] in *. unfold utf8_cont.
  destruct (in_range b0 194 223) eqn:E1; [by intros [-> H]%andb_true_iff; rewrite IH by (done || lia) |].
  destruct r1 as [| b2 r2]; [done |]. cbn [length] in *. unfold utf8_second, utf8_cont.
  destruct (in_range b0 224 239) eqn:E2.
  - assert (in_range b0 224 244 = true) as -> by (unfold in_range in *; lia).
    assert ((b0 =? 240) = false) as -> by (unfold in_range in *; lia). assert ((b0 =? 244) = false) as -> by (unfold in_range in *; lia).
    intros [[H1 ->]%andb_true_iff H]%andb_true_iff. rewrite IH by (done || lia). by destruct (b0 =? 224), (b0 =? 237); rewrite H1.
  - destruct r2 as [| b3 r3]; [done |]. cbn [length] in *. intros [[[[H0 H1]%andb_true_iff ->]%andb_true_iff ->]%andb_true_iff H]%andb_true_iff.
    assert (in_range b0 224 244 = true) as -> by (unfold in_range in *; lia).
    assert ((b0 =? 224) = false) as -> by (unfold in_range in *; lia). assert ((b0 =? 237) = false) as -> by (unfold in_range in *; lia).
    rewrite IH by (done || lia). by destruct (b0 =? 240), (b0 =? 244); rewrite H1.
Qed.

(** Case analysis on a boolean comparison of the code, closing the branch
    that the lengths in the context rule out. *)
Ltac zdestruct b :=
  lazymatch b with
  | ?x || _ => zdestruct x; cbn [orb]
  | ?x && _ => zdestruct x; cbn [andb]
  | negb ?x => zdestruct x; cbn [negb]
  | ?x <? ?y => destruct (Z.ltb_spec x y)
  | ?x <=? ?y => destruct (Z.leb_spec x y)
  | ?x >? ?y => destruct (Z.gtb_spec x y)
  | ?x >=? ?y => destruct (Z.geb_spec x y)
  | ?x =? ?y => destruct (Z.eqb_spec x y)
  end.

Ltac zcase :=
  match goal with
  | |- (if ?b then _ else _) = _ => zdestruct b
  | |- (if ?b then _ else _) _ = _ => zdestruct b
  | |- context [if ?b then _ else _] => zdestruct b
  end; try (exfalso; len_solve; fail).

Ltac zcase_in H :=
  match type of H with
  | (if ?b then _ else _) = _ => zdestruct b
  | (if ?b then _ else _) _ = _ => zdestruct b
  | context [if ?b then _ else _] => zdestruct b
  end; try discriminate H; try (exfalso; len_solve; fail).

(** Inverts a chain of [?]-steps that succeeded. *)
Ltac rinv H :=
  repeat match type of H with
  | (_ ≫= _) = Ok _ =>
      let a := fresh "v" in let H1 := fresh "Hv" in
      apply rbind_inv in H as (a & H1 & H)
  end.

Ltac pinv H :=
  repeat match type of H with
  | (_ ≫= _) _ = Ok _ =>
      let a := fresh "v" in let s := fresh "s" in let H1 := fresh "Hv" in
      apply pbind_inv in H as (a & s & H1 & H)
  end.

(** ** Bits *)

(** Exclusive or keeps the width. *)
Lemma lxor_is_u w a b : 0 < w -> is_u w a -> is_u w b -> is_u w (Z.lxor a b).
Proof.
  unfold is_u. intros Hw Ha Hb. assert (H0 : 0 <= Z.lxor a b) by (apply Z.lxor_nonneg; lia). split; [done |].
  destruct (Z.eq_dec (Z.lxor a b) 0) as [-> | Hz]; [lia |].
  assert (Hlog : forall x, 0 <= x < 2 ^ w -> Z.log2 x < w).
  { intros x Hx. destruct (Z.eq_dec x 0) as [-> |]; [done | apply Z.log2_lt_pow2; lia]. }
  apply Z.log2_lt_pow2; [lia |]. eapply Z.le_lt_trans; [apply Z.log2_lxor; lia |].
  pose proof (Hlog a Ha). pose proof (Hlog b Hb). lia.
Qed.

(** Or-ing a value into free high bits is addition. *)
Lemma lor_shiftl_add r x s :
  0 <= s -> 0 <= r < 2 ^ s -> 0 <= x -> Z.lor r (Z.shiftl x s) = r + x * 2 ^ s.
Proof.
  intros Hs Hr Hx. rewrite <- Z.shiftl_mul_pow2 by done.
  symmetry. apply Z.add_nocarry_lor.
  apply Z.bits_inj'. intros i Hi. rewrite Z.land_spec, Z.bits_0.
  destruct (Z.ltb_spec i s).
  - rewrite Z.shiftl_spec_low by lia. apply andb_false_r.
  - destruct (Z.eq_dec r 0) as [-> | Hr0]; [by rewrite Z.bits_0 |].
    rewrite (Z.bits_above_log2 r); [done | lia |].
    apply Z.lt_le_trans with s; [apply Z.log2_lt_pow2; lia | done].
Qed.

(** ** Termination of loop-free code *)

(** Code without a loop of its own always comes to an end. *)
Definition returns {S E A} (m : stE S E A) : Prop := forall s, snd (m s) <> NoFuel.
Definition rreturns {E A} (m : res E A) : Prop := m <> NoFuel.
Definition preturns {E A} (p : parser E A) : Prop := forall s, p s <> NoFuel.

Lemma returns_bind {S E A B} (m : stE S E A) (f : A -> stE S E B) :
  returns m -> (forall a, returns (f a)) -> returns (m ≫= f).
Proof.
  intros Hm Hf s. unfold mbind, stE_bind. specialize (Hm s). destruct (m s) as [s' [a | | |]]; try done.
  apply Hf.
Qed.

Lemma rreturns_bind {E A B} (m : res E A) (f : A -> res E B) :
  rreturns m -> (forall a, rreturns (f a)) -> rreturns (m ≫= f).
Proof. intros Hm Hf. destruct m; try done. apply Hf. Qed.

Lemma preturns_bind {E A B} (p : parser E A) (f : A -> parser E B) :
  preturns p -> (forall a, preturns (f a)) -> preturns (p ≫= f).
Proof.
  intros Hm Hf s. unfold mbind, parser_bind. specialize (Hm s). destruct (p s) as [[a s'] | | |]; try done.
  apply Hf.
Qed.

Lemma rreturns_idx {E} l i : rreturns (idx (E:=E) l i).
Proof. unfold idx. case_bool_decide; [| done]. by destruct (_ !! _). Qed.

Lemma rreturns_slice {E} l i j : rreturns (slice (E:=E) l i j).
Proof. unfold slice. by destruct (_ && _). Qed.

Lemma preturns_read_exact {E} `{EofError E} n : preturns (read_exact (E:=E) n).
Proof. intros s. unfold read_exact. by case_bool_decide. Qed.

Lemma preturns_plift {E A} (m : res E A) : rreturns m -> preturns (plift m).
Proof. intros Hm s. by destruct m. Qed.

Create HintDb ends.
#[export] Hint Resolve rreturns_idx rreturns_slice preturns_read_exact preturns_plift : ends.

Ltac ends_tac :=
  repeat first
    [ done
    | solve [eauto with ends]
    | apply returns_bind; [| intros ?]
    | apply rreturns_bind; [| intros ?]
    | apply preturns_bind; [| intros ?]
    | match goal with
      | |- returns (match ?b with _ => _ end) => destruct b
      | |- rreturns (match ?b with _ => _ end) => destruct b
      | |- preturns (match ?b with _ => _ end) => destruct b
      | p : (_ * _)%type |- _ => destruct p
      end ].

Lemma read_u16_returns {E} `{EofError E} : preturns (E:=E) read_u16.
Proof. unfold read_u16. ends_tac. Qed.
#[export] Hint Resolve read_u16_returns : ends.

Lemma map_err_returns {E E' A} (f : E -> E') (m : res E A) : rreturns m -> rreturns (map_err f m).
Proof. by destruct m. Qed.

Lemma read_exact_returns {E} `{EofError E} n s : rreturns (read_exact (E:=E) n s).
Proof. apply preturns_read_exact. Qed.
#[export] Hint Resolve map_err_returns read_exact_returns : ends.

(** ** Readers without panics *)

(** A reader that ends on every input, and leaves a tail of it. *)
Class Reads {E A} (p : parser E A) : Prop :=
  reads : forall s, match p s with Ok (_, r) => exists q, s = q ++ r | Err _ => True | Panic | NoFuel => False end.

#[export] Instance reads_ret {E A} (a : A) : Reads (mret a : parser E A).
Proof. intros s. by exists []. Qed.

#[export] Instance reads_fail {E A} (e : E) : Reads (pfail e : parser E A).
Proof. done. Qed.

#[export] Instance reads_u8 {E} `{EofError E} : Reads (read_u8 (E := E)).
Proof. intros [| b s]; [done |]. by exists [b]. Qed.

#[export] Instance reads_exact {E} `{EofError E} n : Reads (read_exact (E := E) n).
Proof. intros s. unfold read_exact. case_bool_decide; [| done]. exists (take (Z.to_nat n) s). by rewrite take_drop. Qed.

#[export] Instance reads_bind {E A B} (p : parser E A) (f : A -> parser E B) : Reads p -> (forall a, Reads (f a)) -> Reads (p ≫= f).
Proof.
  intros Hp Hf s. unfold mbind, parser_bind. specialize (Hp s). destruct (p s) as [[a r] | | |]; try done. destruct Hp as [q ->].
  specialize (Hf a r). destruct (f a r) as [[b r'] | | |]; try done. destruct Hf as [q' ->]. exists (q ++ q'). by rewrite app_assoc.
Qed.

#[export] Instance reads_if {E A} (b : bool) (p q : parser E A) : Reads p -> Reads q -> Reads (if b then p else q).
Proof. by destruct b. Qed.
