(* ===== verification/Text.v ===== *)
(** * Numbers as text

    The parts of Rust's formatting and parsing of integers the components share:
    [to_string] and [format!] in decimal and hexadecimal, [str::parse] for the unsigned
    types, with the round trip between them, and splitting of text. *)

From stdpp Require Import base list sets strings numbers.
From S2P Require Import Prelude.

(** ** Formatting *)

(** Decimal digits; twenty are enough for 64 bits. *)
Fixpoint digits (fuel : nat) (n : Z) (acc : bytes) : bytes :=
  match fuel with
  | O => acc
  | S fuel =>
      let acc := (48 + n mod 10) :: acc in
      if n <? 10 then acc else digits fuel (n / 10) acc
  end.

(** [to_string] of an unsigned integer of at most 64 bits. *)
Definition u64_to_string (n : Z) : bytes := digits 20 n [].

Definition hex_digit (d : Z) : Z := if d <? 10 then 48 + d else 87 + d.

Fixpoint hex_digits (fuel : nat) (n : Z) (acc : bytes) : bytes :=
  match fuel with
  | O => acc
  | S fuel =>
      let acc := hex_digit (n mod 16) :: acc in
      if n <? 16 then acc else hex_digits fuel (n / 16) acc
  end.

(** [format!("{n:x}")] of an unsigned integer of at most 64 bits. *)
Definition u64_to_hex (n : Z) : bytes := hex_digits 16 n [].

(** ** Parsing *)

Fixpoint parse_digits (w : Z) (s : bytes) (acc : Z) : option Z :=
  match s with
  | [] => Some acc
  | b :: s =>
      if (48 <=? b) && (b <=? 57) then
        let acc := acc * 10 + (b - 48) in
        if acc <? 2 ^ w then parse_digits w s acc else None
      else None
  end.

(** [str::parse] for the unsigned type of [w] bits: an optional plus sign, at least one
    digit, no overflow. *)
Definition parse_uint (w : Z) (s : bytes) : option Z :=
  match s with
  | [] => None
  | b :: s' => if b =? 43 then (match s' with [] => None | _ => parse_digits w s' 0 end)
               else parse_digits w s 0
  end.

Definition parse_u64 (s : bytes) : option Z := parse_uint 64 s.
Definition parse_u16 (s : bytes) : option Z := parse_uint 16 s.

(** [bool::to_string] and [str::parse::<bool>]. *)
Definition bool_to_string (b : bool) : bytes := if b then lit "true" else lit "false".
Definition parse_bool (s : bytes) : option bool :=
  if bytes_eqb s (lit "true") then Some true
  else if bytes_eqb s (lit "false") then Some false
  else None.

(** [str::split(c)] for a one-byte separator: always at least one part. *)
Fixpoint split_on (c : Z) (s : bytes) : list bytes :=
  match s with
  | [] => [[]]
  | b :: s =>
      let parts := split_on c s in
      if b =? c then [] :: parts
      else match parts with p :: ps => (b :: p) :: ps | [] => [[b]] end
  end.

(** [str::split_once(c)]. *)
Fixpoint split_once (c : Z) (s : bytes) : option (bytes * bytes) :=
  match s with
  | [] => None
  | b :: s => if b =? c then Some ([], s)
              else match split_once c s with Some (l, r) => Some (b :: l, r) | None => None end
  end.

(** [str::rsplit_once(c)]. *)
Definition rsplit_once (c : Z) (s : bytes) : option (bytes * bytes) :=
  match split_once c (reverse s) with
  | Some (r, l) => Some (reverse l, reverse r)
  | None => None
  end.

Definition is_ascii_digit (b : Z) : bool := (48 <=? b) && (b <=? 57).
Definition is_ascii_alphabetic (b : Z) : bool :=
  ((65 <=? b) && (b <=? 90)) || ((97 <=? b) && (b <=? 122)).
Definition is_ascii_alphanumeric (b : Z) : bool := is_ascii_digit b || is_ascii_alphabetic b.

(** ** Lemmas *)

Lemma digits_app fuel : forall n acc, digits fuel n acc = digits fuel n [] ++ acc.
Proof.
  induction fuel as [| fuel IH]; intros n acc; cbn [digits]; [done |].
  destruct (n <? 10); [done |]. rewrite IH, (IH _ [_]), <- app_assoc. done.
Qed.

Lemma digits_visible fuel : forall n, 0 <= n -> Forall (fun b => 48 <= b <= 57) (digits fuel n []).
Proof.
  induction fuel as [| fuel IH]; intros n Hn; cbn [digits]; [constructor |].
  assert (Hd : Forall (fun b => 48 <= b <= 57) [48 + n mod 10]).
  { constructor; [| constructor]. pose proof (Z.mod_pos_bound n 10). lia. }
  destruct (n <? 10); [done |]. rewrite digits_app. apply Forall_app. split; [| done].
  apply IH. zdiv.
Qed.

Lemma parse_digits_app w l : forall k acc,
  parse_digits w (l ++ k) acc
  = match parse_digits w l acc with Some a => parse_digits w k a | None => None end.
Proof.
  induction l as [| b l IH]; intros k acc; simpl; [done |].
  destruct (_ && _); [| done]. destruct (_ <? _); [apply IH | done].
Qed.

Lemma parse_digits_digits w fuel : forall n,
  0 <= n < 2 ^ w -> n < 10 ^ Z.of_nat fuel -> parse_digits w (digits fuel n []) 0 = Some n.
Proof.
  induction fuel as [| fuel IH]; intros n Hn Hf; cbn [digits].
  - change (10 ^ Z.of_nat 0) with 1 in Hf. simpl. f_equal. lia.
  - assert (Hone : forall a, 0 <= a -> a * 10 + n mod 10 = n -> parse_digits w [48 + n mod 10] a = Some n).
    { intros a Ha E. pose proof (Z.mod_pos_bound n 10 ltac:(lia)). cbn [parse_digits].
      replace ((48 <=? 48 + n mod 10) && (48 + n mod 10 <=? 57)) with true by lia.
      replace (a * 10 + (48 + n mod 10 - 48)) with n by lia.
      destruct (Z.ltb_spec n (2 ^ w)); [done | lia]. }
    destruct (Z.ltb_spec n 10).
    + apply Hone; [lia |]. rewrite Z.mod_small; lia.
    + rewrite digits_app, parse_digits_app, IH; [apply Hone; [zdiv | zdiv] | zdiv |].
      rewrite Nat2Z.inj_succ, Z.pow_succ_r in Hf by lia. apply Z.div_lt_upper_bound; lia.
Qed.

Lemma digits_nonempty fuel n : digits (S fuel) n [] <> [].
Proof. cbn [digits]. destruct (n <? 10); [done |]. rewrite digits_app. by destruct (digits _ _ _). Qed.

Lemma u64_to_string_chars n : 0 <= n -> Forall (fun b => 48 <= b <= 57) (u64_to_string n).
Proof. apply digits_visible. Qed.

Lemma parse_uint_to_string w n : 0 <= w <= 64 -> is_u w n -> parse_uint w (u64_to_string n) = Some n.
Proof.
  intros Hw Hn. unfold is_u in Hn.
  assert (H64 : 2 ^ w <= 2 ^ 64) by (apply Z.pow_le_mono_r; lia).
  assert (Hp : parse_digits w (u64_to_string n) 0 = Some n) by (apply parse_digits_digits; lia).
  pose proof (u64_to_string_chars n) as Hc. pose proof (digits_nonempty 19 n) as Hne.
  unfold parse_uint. unfold u64_to_string in *. destruct (digits 20 n []) as [| b s]; [done |].
  specialize (Hc ltac:(lia)). apply Forall_cons_iff in Hc as [Hb _].
  destruct (Z.eqb_spec b 43); [lia | done].
Qed.

Lemma parse_u64_to_string n : is_u 64 n -> parse_u64 (u64_to_string n) = Some n.
Proof. by apply parse_uint_to_string. Qed.

Lemma parse_digits_range w s : forall acc n, 0 <= acc < 2 ^ w -> parse_digits w s acc = Some n -> is_u w n.
Proof.
  induction s as [| b s IH]; intros acc n Ha; cbn [parse_digits]; [by intros [= <-] |].
  destruct ((48 <=? b) && (b <=? 57)) eqn:E; [| done]. cbv zeta.
  destruct (Z.ltb_spec (acc * 10 + (b - 48)) (2 ^ w)); [| done]. apply IH. lia.
Qed.

Lemma parse_uint_range w s n : 0 <= w -> parse_uint w s = Some n -> is_u w n.
Proof.
  intros Hw. pose proof (Z.pow_pos_nonneg 2 w ltac:(lia) Hw).
  destruct s as [| b s]; [done |]. cbn [parse_uint].
  destruct (b =? 43); [destruct s; [done |] |]; apply parse_digits_range; lia.
Qed.

(** The parts of a split, joined by the separator, are the text. *)
Lemma split_once_spec c s :
  match split_once c s with
  | Some (l, r) => s = l ++ c :: r /\ c ∉ l
  | None => c ∉ s
  end.
Proof.
  induction s as [| b s IH]; cbn [split_once]; [apply not_elem_of_nil |].
  destruct (Z.eqb_spec b c) as [-> |]; [split; [done | apply not_elem_of_nil] |].
  destruct (split_once c s) as [[l r] |].
  - destruct IH as [-> Hl]. split; [done |]. set_solver.
  - set_solver.
Qed.

Lemma split_once_app c l r : c ∉ l -> split_once c (l ++ c :: r) = Some (l, r).
Proof.
  induction l as [| b l IH]; intros Hl; cbn [split_once app]; [by rewrite Z.eqb_refl |].
  destruct (Z.eqb_spec b c); [set_solver |]. rewrite IH; set_solver.
Qed.

Lemma split_once_none c s : c ∉ s -> split_once c s = None.
Proof.
  intros Hs. pose proof (split_once_spec c s) as H. destruct (split_once c s) as [[l r] |]; [| done].
  destruct H as [-> _]. set_solver.
Qed.

Lemma rsplit_once_app c l r : c ∉ r -> rsplit_once c (l ++ c :: r) = Some (l, r).
Proof.
  intros Hr. unfold rsplit_once. rewrite reverse_app, reverse_cons, <- app_assoc. cbn [app].
  rewrite split_once_app; [by rewrite !reverse_involutive |]. by rewrite elem_of_reverse.
Qed.

(** ** White space *)

(** [str::split_whitespace]: the maximal parts without white space; every turn drops a
    character. *)
Fixpoint split_ws (fuel : nat) (cur : bytes) (s : bytes) : list bytes :=
  let flush (rest : list bytes) := match cur with [] => rest | _ => reverse cur :: rest end in
  match fuel, s with
  | O, _ | _, [] => flush []
  | S fuel, b :: s' =>
      match ws_len ws_chars s with
      | Some n => flush (split_ws fuel [] (drop n s))
      | None => split_ws fuel (b :: cur) s'
      end
  end.

Definition split_whitespace (s : bytes) : list bytes := split_ws (S (length s)) [] s.

(** ** Lines *)

Definition CR : Z := 13.
Definition LF : Z := 10.

(** [str::lines]: pieces ended by a line feed, without it and without a
    carriage return before it; the text after the last line feed is a line
    unless it is empty. *)
Fixpoint lines_from (cur text : bytes) : list bytes :=
  match text with
  | [] => match cur with [] => [] | _ => [reverse cur] end
  | b :: text =>
      if b =? LF then
        (match cur with
         | c :: cur' => if c =? CR then reverse cur' else reverse cur
         | [] => []
         end) :: lines_from [] text
      else lines_from (b :: cur) text
  end.

Definition lines (text : bytes) : list bytes := lines_from [] text.

(** [s.split(sep).next()]. *)
Fixpoint before_sep (sep : Z) (s : bytes) : bytes :=
  match s with
  | [] => []
  | b :: s => if b =? sep then [] else b :: before_sep sep s
  end.

Lemma lines_from_crlf l cur rest :
  LF ∉ l -> lines_from cur (l ++ CR :: LF :: rest) = (reverse cur ++ l) :: lines rest.
Proof.
  revert cur. induction l as [| b l IH]; intros cur Hl; simpl.
  - by rewrite app_nil_r.
  - rewrite (proj2 (Z.eqb_neq b LF)) by set_solver. rewrite IH by set_solver.
    by rewrite reverse_cons, <- app_assoc.
Qed.

Lemma lines_crlf l rest : LF ∉ l -> lines (l ++ CR :: LF :: rest) = l :: lines rest.
Proof. apply (lines_from_crlf l []). Qed.

(** Printable ASCII without the space. *)
Definition graphic (s : bytes) : Prop := Forall (fun b => 33 <= b <= 126) s.

#[global] Instance graphic_dec s : Decision (graphic s).
Proof. unfold graphic. apply _. Defined.

Ltac neq_byte := rewrite ?(proj2 (Z.eqb_neq _ _)) by lia; cbn [andb].

Lemma ws_len_graphic b s : 33 <= b <= 126 -> ws_len ws_chars (b :: s) = None.
Proof. intros Hb. unfold ws_len, ws_chars. cbn [List.find is_prefix]. neq_byte. done. Qed.

Lemma ws_len_graphic_rev b s : 33 <= b <= 126 -> ws_len (reverse <$> ws_chars) (b :: s) = None.
Proof.
  intros Hb. unfold ws_len.
  change (reverse <$> ws_chars) with
    [[9]; [10]; [11]; [12]; [13]; [32]; [0x85; 0xC2]; [0xA0; 0xC2]; [0x80; 0x9A; 0xE1];
     [0x80; 0x80; 0xE2]; [0x81; 0x80; 0xE2]; [0x82; 0x80; 0xE2]; [0x83; 0x80; 0xE2];
     [0x84; 0x80; 0xE2]; [0x85; 0x80; 0xE2]; [0x86; 0x80; 0xE2]; [0x87; 0x80; 0xE2];
     [0x88; 0x80; 0xE2]; [0x89; 0x80; 0xE2]; [0x8A; 0x80; 0xE2]; [0xA8; 0x80; 0xE2];
     [0xA9; 0x80; 0xE2]; [0xAF; 0x80; 0xE2]; [0x9F; 0x81; 0xE2]; [0x80; 0x80; 0xE3]].
  cbn [List.find is_prefix]. neq_byte. done.
Qed.

Lemma trim_end_graphic s : graphic s -> trim_end s = s.
Proof.
  intros Hs. unfold trim_end. destruct s as [| b s] using rev_ind; [done |].
  apply Forall_app in Hs as [_ Hb]. apply Forall_cons_iff in Hb as [Hb _].
  rewrite reverse_app, length_app, Nat.add_comm. simpl.
  rewrite ws_len_graphic_rev by done. rewrite reverse_cons, reverse_involutive. done.
Qed.

Lemma trim_start_graphic s : graphic s -> trim_start s = s.
Proof.
  intros Hs. unfold trim_start. destruct s as [| b s]; [done |]. apply Forall_cons_iff in Hs as [Hb _].
  simpl. by rewrite ws_len_graphic.
Qed.

(** Text of visible characters has nothing to trim. *)
Lemma trim_visible s : graphic s -> trim s = s.
Proof. intros Hs. unfold trim. by rewrite trim_start_graphic, trim_end_graphic. Qed.

Lemma trim_graphic s : graphic s -> trim (32 :: s) = s.
Proof.
  intros Hs. unfold trim.
  assert (H1 : trim_start (32 :: s) = s).
  { unfold trim_start. simpl. destruct s as [| b s]; [done |]. apply Forall_cons_iff in Hs as [Hb _].
    simpl. by rewrite ws_len_graphic. }
  by rewrite H1, trim_end_graphic.
Qed.

Lemma before_sep_app sep l r : sep ∉ l -> before_sep sep (l ++ sep :: r) = l.
Proof.
  induction l as [| b l IH]; intros Hl; simpl; [by rewrite Z.eqb_refl |].
  rewrite (proj2 (Z.eqb_neq b sep)) by set_solver. rewrite IH by set_solver. done.
Qed.

Lemma before_sep_none sep l : sep ∉ l -> before_sep sep l = l.
Proof.
  induction l as [| b l IH]; intros Hl; simpl; [done |].
  rewrite (proj2 (Z.eqb_neq b sep)) by set_solver. rewrite IH by set_solver. done.
Qed.

Definition crlf_line (l : bytes) : bytes := l ++ [CR; LF].

Lemma crlf_line_app l r : crlf_line l ++ r = l ++ CR :: LF :: r.
Proof. unfold crlf_line. by rewrite <- app_assoc. Qed.

(** ** Hexadecimal *)

Definition hex_upper (d : Z) : Z := if d <? 10 then 48 + d else 55 + d.

Fixpoint hex_upper_digits (fuel : nat) (n : Z) (acc : bytes) : bytes :=
  match fuel with
  | O => acc
  | S fuel =>
      let acc := hex_upper (n mod 16) :: acc in
      if n <? 16 then acc else hex_upper_digits fuel (n / 16) acc
  end.

(** [format!("{n:X}")] of an unsigned integer of at most 64 bits. *)
Definition u64_to_upper_hex (n : Z) : bytes := hex_upper_digits 16 n [].

(** [char::to_digit(16)]. *)
Definition hex_value (b : Z) : option Z :=
  if (48 <=? b) && (b <=? 57) then Some (b - 48)
  else if (97 <=? b) && (b <=? 102) then Some (b - 87)
  else if (65 <=? b) && (b <=? 70) then Some (b - 55)
  else None.

Fixpoint parse_hex_digits (w : Z) (s : bytes) (acc : Z) : option Z :=
  match s with
  | [] => Some acc
  | b :: s =>
      match hex_value b with
      | Some d => let acc := acc * 16 + d in
                  if acc <? 2 ^ w then parse_hex_digits w s acc else None
      | None => None
      end
  end.

(** [from_str_radix(s, 16)] for the unsigned type of [w] bits. *)
Definition parse_hex (w : Z) (s : bytes) : option Z :=
  match s with
  | [] => None
  | b :: s' => if b =? 43 then (match s' with [] => None | _ => parse_hex_digits w s' 0 end)
               else parse_hex_digits w s 0
  end.

Lemma hex_upper_digits_app fuel : forall n acc,
  hex_upper_digits fuel n acc = hex_upper_digits fuel n [] ++ acc.
Proof.
  induction fuel as [| fuel IH]; intros n acc; cbn [hex_upper_digits]; [done |].
  destruct (n <? 16); [done |]. rewrite IH, (IH _ [_]), <- app_assoc. done.
Qed.

Lemma hex_value_upper d : 0 <= d < 16 -> hex_value (hex_upper d) = Some d.
Proof.
  intros Hd. unfold hex_value, hex_upper.
  destruct (Z.ltb_spec d 10); repeat (zcase; cbn [andb]); f_equal; lia.
Qed.

Lemma hex_upper_chars fuel : forall n, 0 <= n ->
  Forall (fun b => 48 <= b <= 57 \/ 65 <= b <= 70) (hex_upper_digits fuel n []).
Proof.
  induction fuel as [| fuel IH]; intros n Hn; cbn [hex_upper_digits]; [constructor |].
  assert (Hd : Forall (fun b => 48 <= b <= 57 \/ 65 <= b <= 70) [hex_upper (n mod 16)]).
  { constructor; [| constructor]. pose proof (Z.mod_pos_bound n 16). unfold hex_upper.
    destruct (Z.ltb_spec (n mod 16) 10); lia. }
  destruct (n <? 16); [done |]. rewrite hex_upper_digits_app. apply Forall_app. split; [| done].
  apply IH. zdiv.
Qed.

Lemma parse_hex_digits_app w l : forall k acc,
  parse_hex_digits w (l ++ k) acc
  = match parse_hex_digits w l acc with Some a => parse_hex_digits w k a | None => None end.
Proof.
  induction l as [| b l IH]; intros k acc; simpl; [done |].
  destruct (hex_value b); [| done]. destruct (_ <? _); [apply IH | done].
Qed.

Lemma parse_hex_digits_upper w fuel : forall n,
  0 <= n < 2 ^ w -> n < 16 ^ Z.of_nat fuel -> parse_hex_digits w (hex_upper_digits fuel n []) 0 = Some n.
Proof.
  induction fuel as [| fuel IH]; intros n Hn Hf; cbn [hex_upper_digits].
  - change (16 ^ Z.of_nat 0) with 1 in Hf. simpl. f_equal. lia.
  - assert (Hone : forall a, a * 16 + n mod 16 = n -> parse_hex_digits w [hex_upper (n mod 16)] a = Some n).
    { intros a E. pose proof (Z.mod_pos_bound n 16 ltac:(lia)). cbn [parse_hex_digits].
      rewrite hex_value_upper by lia. rewrite E.
      destruct (Z.ltb_spec n (2 ^ w)); [done | lia]. }
    destruct (Z.ltb_spec n 16).
    + apply Hone. rewrite Z.mod_small; lia.
    + rewrite hex_upper_digits_app, parse_hex_digits_app, IH; [apply Hone; zdiv | zdiv |].
      rewrite Nat2Z.inj_succ, Z.pow_succ_r in Hf by lia. apply Z.div_lt_upper_bound; lia.
Qed.

Lemma hex_upper_digits_nonempty fuel n : hex_upper_digits (S fuel) n [] <> [].
Proof.
  cbn [hex_upper_digits]. destruct (n <? 16); [done |]. rewrite hex_upper_digits_app.
  by destruct (hex_upper_digits _ _ _).
Qed.

Lemma parse_hex_to_upper n : is_u 64 n -> parse_hex 64 (u64_to_upper_hex n) = Some n.
Proof.
  intros Hn. unfold is_u in Hn.
  assert (Hp : parse_hex_digits 64 (u64_to_upper_hex n) 0 = Some n) by (apply parse_hex_digits_upper; lia).
  pose proof (hex_upper_chars 16 n ltac:(lia)) as Hc. pose proof (hex_upper_digits_nonempty 15 n) as Hne.
  unfold parse_hex. unfold u64_to_upper_hex in *. destruct (hex_upper_digits 16 n []) as [| b s]; [done |].
  apply Forall_cons_iff in Hc as [Hb _]. destruct (Z.eqb_spec b 43); [lia | done].
Qed.
