(* ===== verification/Address.v ===== *)
(** The shared vocabulary of the proxy, crate [blackwire-common]: error values
    ([error.rs]), destination addresses ([address.rs]) and the SOCKS5-style
    address codec ([socks5_address.rs]) that SOCKS5, Trojan and SS-2022 share.
    Theorems: the codec round trip with any trailing bytes, agreement of the
    streaming and the slice decoder, absence of panics and well-formedness of
    everything decoded, and unambiguity of the encoding. *)

From stdpp Require Import base list strings numbers.
From S2P Require Import Prelude.

(** * Errors *)

(** The [io::ErrorKind]s the code distinguishes. *)
Inductive IoKind : Type :=
| ConnectionReset
| ConnectionAborted
| BrokenPipe
| UnexpectedEof
| InvalidInput
| InvalidData
| OtherIo.

(** Messages keep the fixed text of the source's format strings; interpolated
    numbers, which only serve the logs, are left out. *)
Inductive ProxyError : Type :=
| AuthFailed
| Protocol (msg : string)
| Transport (msg : string)
| Tls (msg : string)
| Timeout
| UnsupportedNetwork
| DnsResolutionFailed (msg : string)
| RoutingFailed
| FallbackRequired
| Io (k : IoKind).

#[global] Instance IoKind_eq_dec : EqDecision IoKind.
Proof. solve_decision. Defined.
#[global] Instance ProxyError_eq_dec : EqDecision ProxyError.
Proof. solve_decision. Defined.

(** [?] turns the end of a stream into [ProxyError::Io]. *)
#[global] Instance ProxyError_eof : EofError ProxyError := Io UnexpectedEof.

Definition is_benign (e : ProxyError) : bool :=
  match e with
  | Timeout => true
  | FallbackRequired => true
  | Io k =>
      match k with
      | ConnectionReset | ConnectionAborted | BrokenPipe | UnexpectedEof => true
      | _ => false
      end
  | _ => false
  end.

(** * Addresses *)

(** [std::net::IpAddr] and [SocketAddr]: octets in network order. *)
Inductive IpAddr : Type :=
| V4 (octets : bytes)
| V6 (octets : bytes).

#[global] Instance IpAddr_eq_dec : EqDecision IpAddr.
Proof. solve_decision. Defined.

Record SocketAddr : Type := mkSocketAddr { sa_ip : IpAddr; sa_port : Z }.

#[global] Instance SocketAddr_eq_dec : EqDecision SocketAddr.
Proof. solve_decision. Defined.

Inductive Address : Type :=
| Ipv4 (ip : bytes) (port : Z)
| Ipv6 (ip : bytes) (port : Z)
| Domain (name : bytes) (port : Z).

#[global] Instance Address_eq_dec : EqDecision Address.
Proof. solve_decision. Defined.

Inductive Network : Type := Tcp | Udp.

#[global] Instance Network_eq_dec : EqDecision Network.
Proof. solve_decision. Defined.

(** The invariant Rust's types give every [Address]: octet counts, port width
    and UTF-8 names. *)
Definition wf_address (a : Address) : Prop :=
  match a with
  | Ipv4 ip p => zlen ip = 4 /\ bytes_ok ip /\ is_u 16 p
  | Ipv6 ip p => zlen ip = 16 /\ bytes_ok ip /\ is_u 16 p
  | Domain n p => utf8_valid n = true /\ bytes_ok n /\ is_u 16 p
  end.

#[global] Instance wf_address_dec a : Decision (wf_address a).
Proof. destruct a; simpl; apply _. Defined.

Definition port (a : Address) : Z :=
  match a with Ipv4 _ p => p | Ipv6 _ p => p | Domain _ p => p end.

Definition is_domain (a : Address) : bool :=
  match a with Domain _ _ => true | _ => false end.

Definition domain (a : Address) : option bytes :=
  match a with Domain d _ => Some d | _ => None end.

Definition ip (a : Address) : option IpAddr :=
  match a with
  | Ipv4 o _ => Some (V4 o)
  | Ipv6 o _ => Some (V6 o)
  | Domain _ _ => None
  end.

Definition to_socket_addr (a : Address) : option SocketAddr :=
  match a with
  | Ipv4 o p => Some (mkSocketAddr (V4 o) p)
  | Ipv6 o p => Some (mkSocketAddr (V6 o) p)
  | Domain _ _ => None
  end.

Definition from_socket_addr (s : SocketAddr) : Address :=
  match sa_ip s with
  | V4 o => Ipv4 o (sa_port s)
  | V6 o => Ipv6 o (sa_port s)
  end.

(** [relay.rs]: a name must fit the one-byte length field. *)
Definition domain_wire_len (name : bytes) : res ProxyError Z :=
  if zlen name >? 255 then Err (Protocol "domain too long") else Ok (zlen name).

(** * SOCKS5 address codec *)

Definition ATYP_IPV4 : Z := 0x01.
Definition ATYP_DOMAIN : Z := 0x03.
Definition ATYP_IPV6 : Z := 0x04.

Definition read_socks5_address (atyp : Z) (protocol : string) : parser ProxyError Address :=
  if atyp =? ATYP_IPV4 then
    buf ← read_exact 4;
    port ← read_u16;
    mret (Ipv4 buf port)
  else if atyp =? ATYP_IPV6 then
    buf ← read_exact 16;
    port ← read_u16;
    mret (Ipv6 buf port)
  else if atyp =? ATYP_DOMAIN then
    len ← read_u8;
    name ← read_exact len;
    port ← read_u16;
    if utf8_valid name then mret (Domain name port)
    else pfail (Protocol (protocol +:+ ": domain name is not valid UTF-8"))
  else pfail (Protocol (protocol +:+ ": unknown ATYP")).

Definition decode_socks5_address (data : bytes) (atyp : Z) (protocol : string)
  : res ProxyError (Address * Z) :=
  if atyp =? ATYP_IPV4 then
    if zlen data <? 6 then Err (Protocol (protocol +:+ ": truncated IPv4 address"))
    else
      b0 ← idx data 0; b1 ← idx data 1; b2 ← idx data 2; b3 ← idx data 3;
      p0 ← idx data 4; p1 ← idx data 5;
      Ok (Ipv4 [b0; b1; b2; b3] (be_val [p0; p1]), 6)
  else if atyp =? ATYP_IPV6 then
    if zlen data <? 18 then Err (Protocol (protocol +:+ ": truncated IPv6 address"))
    else
      ip ← slice data 0 16;
      p0 ← idx data 16; p1 ← idx data 17;
      Ok (Ipv6 ip (be_val [p0; p1]), 18)
  else if atyp =? ATYP_DOMAIN then
    if zlen data =? 0 then Err (Protocol (protocol +:+ ": truncated domain length"))
    else
      n ← idx data 0;
      if zlen data <? 1 + n + 2 then
        Err (Protocol (protocol +:+ ": truncated domain address"))
      else
        name ← slice data 1 (1 + n);
        if utf8_valid name then
          p0 ← idx data (1 + n); p1 ← idx data (1 + n + 1);
          Ok (Domain name (be_val [p0; p1]), 1 + n + 2)
        else Err (Protocol (protocol +:+ ": invalid domain UTF-8"))
  else Err (Protocol (protocol +:+ ": unknown ATYP")).

(** The bytes appended to the caller's buffer. *)
Definition write_socks5_address (dest : Address) : res ProxyError bytes :=
  match dest with
  | Ipv4 ip port => Ok ([ATYP_IPV4] ++ ip ++ be_bytes 2 port)
  | Ipv6 ip port => Ok ([ATYP_IPV6] ++ ip ++ be_bytes 2 port)
  | Domain name port =>
      n ← domain_wire_len name;
      Ok ([ATYP_DOMAIN; n] ++ name ++ be_bytes 2 port)
  end.

(** * Theorems *)

(** The addresses a one-byte name length can carry. *)
Definition wire_encodable (a : Address) : Prop :=
  match a with Domain n _ => zlen n <= 255 | _ => True end.

#[global] Instance wire_encodable_dec a : Decision (wire_encodable a).
Proof. destruct a; simpl; apply _. Defined.

(** Splits a buffer of known small length into its elements. *)
Ltac explode l :=
  repeat (destruct l as [| ? l]; [try (exfalso; len_solve; fail) |]; simpl in *);
  try (destruct l; [| exfalso; len_solve]).

Lemma list_len_4 (l : bytes) : zlen l = 4 -> exists a b c d, l = [a; b; c; d].
Proof. intros. do 4 (destruct l as [| ? l]; [len_solve |]). destruct l; [eauto | len_solve]. Qed.

Lemma domain_wire_len_ok name : zlen name <= 255 -> domain_wire_len name = Ok (zlen name).
Proof. intros. unfold domain_wire_len. destruct (Z.gtb_spec (zlen name) 255); [lia | done]. Qed.

Lemma be_val_2_port p : is_u 16 p -> be_val [p / 256 mod 256; p mod 256] = p.
Proof. intros. rewrite <- be_bytes_2. by apply be_val_be_bytes. Qed.

Lemma write_socks5_shape a :
  wf_address a -> wire_encodable a ->
  exists body, write_socks5_address a =
    Ok ((match a with Ipv4 _ _ => ATYP_IPV4 | Ipv6 _ _ => ATYP_IPV6 | Domain _ _ => ATYP_DOMAIN end)
        :: body)
    /\ body = match a with
              | Ipv4 i p | Ipv6 i p => i ++ be_bytes 2 p
              | Domain n p => zlen n :: n ++ be_bytes 2 p
              end.
Proof.
  destruct a as [i p | i p | n p]; intros Hw He; simpl in *; eauto.
  rewrite domain_wire_len_ok by done. simpl. eauto.
Qed.

(** Reads the next concrete element of a buffer. *)
Ltac istep := erewrite rbind_ok; [| solve [eauto using idx_app_mid, slice_app3 with wire]].

Lemma idx_shift {E} (l k : bytes) i j b :
  idx (E:=E) k j = Ok b -> i = zlen l + j -> idx (E:=E) (l ++ k) i = Ok b.
Proof.
  intros [Hj Hb]%idx_lookup ->. apply idx_lookup. pose proof (zlen_nonneg l).
  split; [lia |]. unfold zlen in *. rewrite lookup_app_r by lia.
  rewrite <- Hb. f_equal. lia.
Qed.

Lemma decode_socks5_body a rest protocol t body :
  wf_address a -> write_socks5_address a = Ok (t :: body) ->
  decode_socks5_address (body ++ rest) t protocol = Ok (a, zlen body).
Proof.
  intros Hw Henc. destruct a as [i p | i p | n p]; simpl in Hw, Henc.
  - destruct Hw as (Hl & _ & Hp). injection Henc as <- <-.
    destruct (list_len_4 i Hl) as (a & b & c & d & ->).
    rewrite be_bytes_2. unfold decode_socks5_address. simpl. zcase.
    by rewrite be_val_2_port.
  - destruct Hw as (Hl & _ & Hp). injection Henc as <- <-.
    rewrite <- app_assoc, be_bytes_2. unfold decode_socks5_address. simpl. zcase.
    erewrite rbind_ok; [| apply (slice_app3 [] i); [done | len_solve]].
    erewrite rbind_ok; [| eapply (idx_shift _ _ _ 0); [done | len_solve]].
    erewrite rbind_ok; [| eapply (idx_shift _ _ _ 1); [done | len_solve]].
    rewrite be_val_2_port by done. do 2 f_equal. len_solve.
  - destruct Hw as (Hu & _ & Hp).
    apply rbind_inv in Henc as (m & Hm & [= <- <-]).
    unfold domain_wire_len in Hm. zcase_in Hm.
    injection Hm as <-. rewrite be_bytes_2. unfold decode_socks5_address. simpl.
    rewrite <- app_assoc. simpl. repeat zcase.
    erewrite rbind_ok; [| apply (slice_app3 [zlen n] n); [done | len_solve]].
    rewrite Hu.
    erewrite rbind_ok; [| apply (idx_app_mid (zlen n :: n)); len_solve].
    erewrite rbind_ok; [| apply (idx_shift (zlen n :: n) _ _ 1); [done | len_solve]].
    rewrite be_val_2_port by done. do 2 f_equal. len_solve.
Qed.

Lemma read_socks5_body a rest protocol t body :
  wf_address a -> write_socks5_address a = Ok (t :: body) ->
  read_socks5_address t protocol (body ++ rest) = Ok (a, rest).
Proof.
  intros Hw Henc. destruct a as [i p | i p | n p]; simpl in Hw, Henc.
  - destruct Hw as (Hl & _ & Hp). injection Henc as <- <-.
    rewrite <- app_assoc. unfold read_socks5_address. simpl. by do 2 pstep.
  - destruct Hw as (Hl & _ & Hp). injection Henc as <- <-.
    rewrite <- app_assoc. unfold read_socks5_address. simpl. by do 2 pstep.
  - destruct Hw as (Hu & _ & Hp).
    apply rbind_inv in Henc as (m & Hm & [= <- <-]).
    unfold domain_wire_len in Hm. zcase_in Hm.
    injection Hm as <-. unfold read_socks5_address. simpl.
    rewrite <- app_assoc. do 3 pstep. by rewrite Hu.
Qed.

#[export] Hint Resolve read_socks5_body : wire.

(** SOCKS5 address round trip.  Every well-formed address whose name fits
    the one-byte length field is encoded, and both decoders (the one over a
    stream and the one over a slice) give it back from the bytes after the
    ATYP byte, whatever follows; the slice decoder reports exactly the number
    of bytes of the encoding and the stream decoder leaves what follows. *)
Theorem socks5_address_roundtrip (a : Address) (rest : bytes) (protocol : string) :
  wf_address a -> wire_encodable a ->
  exists t body,
    write_socks5_address a = Ok (t :: body)
    /\ decode_socks5_address (body ++ rest) t protocol = Ok (a, zlen body)
    /\ read_socks5_address t protocol (body ++ rest) = Ok (a, rest).
Proof.
  intros Hw He. destruct (write_socks5_shape a Hw He) as (body & Henc & _).
  eexists _, body. split; [exact Henc |]. split.
  - by apply decode_socks5_body.
  - by apply read_socks5_body.
Qed.

Lemma socks5_address_roundtrip_witness :
  exists t body,
    write_socks5_address (Domain (lit "example.com") 443) = Ok (t :: body)
    /\ decode_socks5_address (body ++ [1; 2]) t "X" = Ok (Domain (lit "example.com") 443, zlen body)
    /\ read_socks5_address t "X" (body ++ [1; 2]) = Ok (Domain (lit "example.com") 443, [1; 2]).
Proof.
  apply (socks5_address_roundtrip (Domain (lit "example.com") 443) [1; 2] "X").
  - apply (bool_decide_unpack _). vm_compute. exact I.
  - apply (bool_decide_unpack _). vm_compute. exact I.
Defined.

(** ** Decoded addresses *)

Lemma decode_socks5_inv data atyp protocol a n :
  bytes_ok data -> decode_socks5_address data atyp protocol = Ok (a, n) ->
  wf_address a
  /\ exists body rest, write_socks5_address a = Ok (atyp :: body)
     /\ data = body ++ rest /\ zlen body = n.
Proof.
  intros Hok Hd. unfold decode_socks5_address in Hd. repeat zcase_in Hd; subst.
  - do 6 (destruct data as [| ? data]; [len_solve |]). unfold idx in Hd. simpl in Hd.
    injection Hd as <- <-. rewrite !bytes_ok_cons in Hok. destruct_and!.
    split; [split; [done |]; split; [bok | by apply is_u16_be_val] |].
    eexists _, data. split; [done |]. rewrite (be_bytes_be_val [_; _]); [done |].
    bok.
  - destruct (split_at data 16) as (d & r & -> & Hdl); [len_solve |].
    do 2 (destruct r as [| ? r]; [len_solve |]).
    rewrite !bytes_ok_app, !bytes_ok_cons in Hok. destruct_and!.
    erewrite rbind_ok in Hd by (apply (slice_app3 [] d); [done | len_solve]).
    erewrite rbind_ok in Hd by (apply idx_app_mid; len_solve).
    erewrite rbind_ok in Hd by (eapply (idx_shift _ _ _ 1); [done | len_solve]).
    injection Hd as <- <-.
    split; [split; [done |]; split; [done | by apply is_u16_be_val] |].
    eexists _, r. split; [done |]. rewrite (be_bytes_be_val [_; _]); [| bok].
    split; [by rewrite <- app_assoc | len_solve].
  - destruct data as [| b data]; [len_solve |].
    erewrite rbind_ok in Hd by done. zcase_in Hd.
    rewrite bytes_ok_cons in Hok. destruct Hok as [Hb Hok].
    destruct (split_at data b) as (d & r & -> & Hdl); [len_solve |].
    do 2 (destruct r as [| ? r]; [len_solve |]).
    rewrite !bytes_ok_app, !bytes_ok_cons in Hok. destruct_and!.
    erewrite rbind_ok in Hd by (apply (slice_app3 [b] d); [done | len_solve]).
    destruct (utf8_valid d) eqn:Hu; [| done].
    erewrite rbind_ok in Hd by (apply (idx_app_mid (b :: d)); len_solve).
    erewrite rbind_ok in Hd by (eapply (idx_shift (b :: d) _ _ 1); [done | len_solve]).
    injection Hd as <- <-.
    split; [split; [done |]; split; [done | by apply is_u16_be_val] |].
    eexists _, r. simpl. rewrite domain_wire_len_ok by len_solve. simpl. split; [done |].
    rewrite (be_bytes_be_val [_; _]); [| bok]. subst b.
    split; [simpl; by rewrite <- app_assoc | len_solve].
Qed.

(** Soundness and canonicity of the slice decoder.  Whatever bytes arrive,
    an accepted address is well formed, fits the wire format, and the bytes
    consumed are exactly its encoding: the decoder accepts no other spelling
    and never reads past the slice. *)
Theorem decode_socks5_canonical (data : bytes) (atyp : Z) (protocol : string) (a : Address) (n : Z) :
  bytes_ok data -> decode_socks5_address data atyp protocol = Ok (a, n) ->
  wf_address a /\ wire_encodable a /\ n <= zlen data
  /\ write_socks5_address a = Ok (atyp :: take (Z.to_nat n) data).
Proof.
  intros Hok Hd. destruct (decode_socks5_inv _ _ _ _ _ Hok Hd) as (Hw & body & rest & He & -> & <-).
  split; [done |]. split.
  - destruct a as [| | nm p]; simpl; [done.. |]. simpl in He.
    apply rbind_inv in He as (m & Hm & _). unfold domain_wire_len in Hm. zcase_in Hm. lia.
  - rewrite take_app_zlen by done. split; [len_solve | done].
Qed.

Lemma decode_socks5_canonical_witness :
  wf_address (Ipv4 [10; 0; 0; 1] 80) /\ wire_encodable (Ipv4 [10; 0; 0; 1] 80) /\ 6 <= 7
  /\ write_socks5_address (Ipv4 [10; 0; 0; 1] 80) = Ok (1 :: [10; 0; 0; 1; 0; 80]).
Proof.
  apply (decode_socks5_canonical [10; 0; 0; 1; 0; 80; 9] 1 "X" (Ipv4 [10; 0; 0; 1] 80) 6).
  - apply (bool_decide_unpack _). vm_compute. exact I.
  - vm_compute. reflexivity.
Defined.

Lemma idx_no_panic {E} (l : bytes) i : 0 <= i < zlen l -> is_panic (idx (E:=E) l i) = false.
Proof. intros Hi. by destruct (idx_in_range (E:=E) l i Hi) as (b & -> & _). Qed.

Lemma rbind_no_panic {E A B} (m : res E A) (f : A -> res E B) :
  is_panic m = false -> (forall a, m = Ok a -> is_panic (f a) = false) ->
  is_panic (m ≫= f) = false.
Proof. destruct m; simpl; auto. Qed.

Lemma slice_no_panic {E} (l : bytes) i j :
  0 <= i <= j -> j <= zlen l -> is_panic (slice (E:=E) l i j) = false.
Proof. intros. by rewrite slice_in_range. Qed.

Lemma slice_from_no_panic {E} (l : bytes) i : 0 <= i <= zlen l -> is_panic (slice_from (E:=E) l i) = false.
Proof. intros. unfold slice_from. apply slice_no_panic; lia. Qed.

(** Discharges the range conditions of a sequence of indexing steps. *)
Ltac no_panic :=
  repeat first
    [ done
    | apply idx_no_panic; len_solve; fail
    | apply slice_no_panic; len_solve; fail
    | apply rbind_no_panic; [| intros ? ?]
    | zcase
    | match goal with |- context [if ?b then _ else _] => destruct b end ].

Lemma decode_socks5_no_panic data atyp protocol :
  bytes_ok data -> is_panic (decode_socks5_address data atyp protocol) = false.
Proof.
  intros Hok. unfold decode_socks5_address.
  repeat zcase; try done; try (no_panic; fail).
  apply rbind_no_panic; [apply idx_no_panic; len_solve |]. intros m Hm.
  apply idx_bytes_ok in Hm; [| done]. no_panic.
Qed.

Lemma read_socks5_inv data atyp protocol a rest :
  bytes_ok data -> read_socks5_address atyp protocol data = Ok (a, rest) ->
  exists body, data = body ++ rest /\ wf_address a /\ write_socks5_address a = Ok (atyp :: body).
Proof.
  intros Hok Hr. unfold read_socks5_address in Hr. repeat zcase_in Hr; subst; pinv Hr.
  - apply read_exact_inv in Hv as [-> ?]; [| lia].
    apply read_u16_inv in Hv0 as (x & y & -> & ->). injection Hr as <- <-.
    rewrite !bytes_ok_app, !bytes_ok_cons in Hok. destruct_and!.
    exists (v ++ [x; y]). split; [by rewrite <- app_assoc |].
    split; [split; [done |]; split; [done | by apply is_u16_be_val] |].
    simpl. rewrite (be_bytes_be_val [_; _]); [done | bok].
  - apply read_exact_inv in Hv as [-> ?]; [| lia].
    apply read_u16_inv in Hv0 as (x & y & -> & ->). injection Hr as <- <-.
    rewrite !bytes_ok_app, !bytes_ok_cons in Hok. destruct_and!.
    exists (v ++ [x; y]). split; [by rewrite <- app_assoc |].
    split; [split; [done |]; split; [done | by apply is_u16_be_val] |].
    simpl. rewrite (be_bytes_be_val [_; _]); [done | bok].
  - apply read_u8_inv in Hv as ->. rewrite bytes_ok_cons in Hok. destruct Hok as [Hb Hok].
    apply read_exact_inv in Hv0 as [-> ?]; [| len_solve].
    apply read_u16_inv in Hv1 as (x & y & -> & ->).
    destruct (utf8_valid v0) eqn:Hu; [| done]. injection Hr as <- <-.
    rewrite !bytes_ok_app, !bytes_ok_cons in Hok. destruct_and!.
    exists (v :: v0 ++ [x; y]). split; [simpl; by rewrite <- app_assoc |].
    split; [split; [done |]; split; [done | by apply is_u16_be_val] |].
    simpl. rewrite domain_wire_len_ok by len_solve. simpl. subst v.
    rewrite (be_bytes_be_val [_; _]); [done | bok].
Qed.

(** The streaming and the slice decoder accept the same inputs: the stream
    decoder returns an address and the remaining bytes exactly when the slice
    decoder returns that address with the number of bytes before them. *)
Theorem read_decode_socks5_equiv (data : bytes) (atyp : Z) (protocol : string) (a : Address) (rest : bytes) :
  bytes_ok data ->
  read_socks5_address atyp protocol data = Ok (a, rest)
  <-> exists n, decode_socks5_address data atyp protocol = Ok (a, n) /\ rest = drop (Z.to_nat n) data.
Proof.
  intros Hok. split.
  - intros Hr. exists (zlen data - zlen rest).
    destruct (read_socks5_inv _ _ _ _ _ Hok Hr) as (body & -> & Hw & He).
    autorewrite with zlen. replace (zlen body + zlen rest - zlen rest) with (zlen body) by lia.
    split; [by apply decode_socks5_body | by rewrite drop_app_zlen].
  - intros (n & Hd & ->).
    destruct (decode_socks5_inv _ _ _ _ _ Hok Hd) as (Hw & body & r & He & -> & <-).
    rewrite drop_app_zlen by done. by apply read_socks5_body.
Qed.

Lemma read_decode_socks5_equiv_witness :
  read_socks5_address 1 "X" [10; 0; 0; 1; 0; 80; 9] = Ok (Ipv4 [10; 0; 0; 1] 80, [9])
  <-> exists n, decode_socks5_address [10; 0; 0; 1; 0; 80; 9] 1 "X" = Ok (Ipv4 [10; 0; 0; 1] 80, n)
                /\ [9] = drop (Z.to_nat n) [10; 0; 0; 1; 0; 80; 9].
Proof.
  apply (read_decode_socks5_equiv [10; 0; 0; 1; 0; 80; 9] 1 "X").
  apply (bool_decide_unpack _). vm_compute. exact I.
Defined.

(** ** Malformed input is a protocol error *)

(** The outcome is a value or [ProxyError::Protocol]: no panic, no other error. *)
Definition proto_only {A} (m : res ProxyError A) : Prop :=
  match m with Ok _ => True | Err (Protocol _) => True | _ => False end.

Lemma proto_only_bind {A B} (m : res ProxyError A) (f : A -> res ProxyError B) :
  proto_only m -> (forall a, m = Ok a -> proto_only (f a)) -> proto_only (m ≫= f).
Proof. destruct m as [a | e | |]; simpl; auto; by destruct e. Qed.

Lemma proto_only_idx l i : 0 <= i < zlen l -> proto_only (idx l i).
Proof. intros Hi. by destruct (idx_in_range (E:=ProxyError) l i Hi) as (b & -> & _). Qed.

Lemma proto_only_slice l i j : 0 <= i <= j -> j <= zlen l -> proto_only (slice l i j).
Proof. intros. by rewrite slice_in_range. Qed.

Lemma proto_only_cases {A} (m : res ProxyError A) :
  proto_only m -> (exists a, m = Ok a) \/ (exists s, m = Err (Protocol s)).
Proof. destruct m as [a | [] | |]; simpl; try done; eauto. Qed.

Ltac proto_tac :=
  repeat first
    [ exact I
    | apply proto_only_idx; len_solve; fail
    | apply proto_only_slice; len_solve; fail
    | apply proto_only_bind; [| intros ? ?]
    | match goal with
      | |- proto_only (if ?b then _ else _) => zdestruct b; try (exfalso; len_solve; fail)
      | |- proto_only (if ?b then _ else _) => destruct b
      end ].

Lemma decode_socks5_proto_only data atyp protocol :
  bytes_ok data -> proto_only (decode_socks5_address data atyp protocol).
Proof.
  intros Hok. unfold decode_socks5_address.
  repeat match goal with
  | |- proto_only (if ?b then _ else _) => zdestruct b; try (exfalso; len_solve; fail)
  end; try exact I; try (proto_tac; fail).
  apply proto_only_bind; [apply proto_only_idx; len_solve |]. intros m Hm.
  apply idx_bytes_ok in Hm; [| done]. proto_tac.
Qed.

Lemma decode_socks5_ext data ext atyp protocol a n :
  bytes_ok data -> decode_socks5_address data atyp protocol = Ok (a, n) ->
  decode_socks5_address (data ++ ext) atyp protocol = Ok (a, n) /\ 3 <= n <= zlen data.
Proof.
  intros Hok Hd. destruct (decode_socks5_inv _ _ _ _ _ Hok Hd) as (Hw & body & r & He & -> & <-).
  split; [rewrite <- app_assoc; by apply decode_socks5_body |].
  assert (3 <= zlen body); [| len_solve].
  destruct a; simpl in He, Hw; [| | apply rbind_inv in He as (m & _ & He)];
    injection He as _ <-; destruct_and!; len_solve.
Qed.
