(* ===== verification/Streams.v ===== *)
(** * Streams that are polled

    What the components share that read a byte stream through [AsyncRead]: the stream
    underneath as the list of what its polls give, the result of a poll, and the interface of
    a reader that decodes such a stream, with what polling it gives in the end. *)

From stdpp Require Import base list strings numbers.
From S2P Require Import Prelude Address.

(** What a poll of the stream underneath gives; the empty list is its end. *)
Inductive PollEvent :=
| PData (data : bytes)
| PPending
| PError.

(** Result of a poll: bytes (none at the end of the stream), wait, or an error. *)
Inductive poll A :=
| Ready (a : A)
| Pending
| Failed (e : ProxyError).
Arguments Ready {A} a.
Arguments Pending {A}.
Arguments Failed {A} e.

(** A read of the stream underneath into a buffer of [size] bytes. *)
Definition inner_read (size : nat) (evs : list PollEvent) : list PollEvent * poll bytes :=
  match evs with
  | [] => ([], Ready [])
  | PData d :: evs =>
      if (length d <=? size)%nat then (evs, Ready d)
      else (PData (drop size d) :: evs, Ready (take size d))
  | PPending :: evs => (evs, Pending)
  | PError :: evs => (evs, Failed (Io ConnectionReset))
  end.

(** A bound for the reads that are left. *)
Definition event_size (ev : PollEvent) : nat :=
  match ev with PData d => S (length d + length d) | _ => 1%nat end.

Definition events_size (evs : list PollEvent) : nat := sum_list (event_size <$> evs).

(** ** Streams that do not fail *)

Definition incoming (evs : list PollEvent) : bytes :=
  concat ((fun ev => match ev with PData d => d | _ => [] end) <$> evs).

Definition clean_event (ev : PollEvent) : Prop :=
  match ev with PData d => d <> [] | PPending => True | PError => False end.

(** No error, and no read that claims the end of the stream before its end. *)
Definition clean (evs : list PollEvent) : Prop := Forall clean_event evs.

#[global] Instance clean_event_dec ev : Decision (clean_event ev).
Proof. destruct ev; simpl; apply _. Defined.

Definition waits (evs : list PollEvent) : nat :=
  length (List.filter (fun ev => match ev with PPending => true | _ => false end) evs).

(** A read of a stream with bytes to come waits or gives some of them. *)
Lemma inner_read_ok size evs :
  (0 < size)%nat -> clean evs -> incoming evs <> [] ->
  exists evs', clean evs' /\
  ((inner_read size evs = (evs', Pending) /\ incoming evs' = incoming evs /\ waits evs = S (waits evs')
    /\ (events_size evs' < events_size evs)%nat)
   \/ exists b d, inner_read size evs = (evs', Ready (b :: d)) /\ incoming evs = (b :: d) ++ incoming evs'
        /\ waits evs' = waits evs /\ (events_size evs' + length (b :: d) < events_size evs)%nat).
Proof.
  intros Hsz Hc Hi. destruct evs as [| ev evs]; [done |]. apply Forall_cons_iff in Hc as [Hev Hc].
  unfold events_size. destruct ev as [d | |]; cbn [clean_event] in Hev; [| | done].
  - destruct d as [| b d]; [done |]. cbn [inner_read].
    destruct (Nat.leb_spec (length (b :: d)) size) as [Hl | Hl].
    + exists evs. split; [done |]. right. exists b, d. split_and!; [done | done | done |].
      cbn [fmap list_fmap sum_list_with event_size id]. lia.
    + destruct size as [| size]; [lia |]. exists (PData (drop (S size) (b :: d)) :: evs). split.
      { constructor; [| done]. cbn [clean_event]. intros E.
        apply (f_equal length) in E. rewrite length_drop in E. simpl in *. lia. }
      right. exists b, (take size d). split_and!; [done | | done |].
      * unfold incoming. cbn [fmap list_fmap concat drop]. rewrite app_assoc. f_equal.
        cbn [app]. by rewrite take_drop.
      * cbn [fmap list_fmap sum_list_with event_size id drop length] in *.
        rewrite length_take, length_drop. lia.
  - exists evs. split; [done |]. left. split_and!; [done | done | done |].
    cbn [fmap list_fmap sum_list_with event_size id]. lia.
Qed.

Lemma inner_read_size size evs evs' d : inner_read size evs = (evs', Ready d) -> (length d <= size)%nat.
Proof.
  destruct evs as [| [d' | |] evs]; cbn [inner_read]; [intros [= <- <-]; simpl; lia | | done | done].
  destruct (Nat.leb_spec (length d') size); intros [= <- <-]; [done |]. rewrite length_take. lia.
Qed.

(** A read when nothing is to come is the end, or a wait. *)
Lemma inner_read_end size evs :
  clean evs -> incoming evs = [] ->
  (inner_read size evs = ([], Ready []) /\ evs = [])
  \/ exists evs', inner_read size evs = (evs', Pending) /\ clean evs' /\ incoming evs' = []
      /\ waits evs = S (waits evs').
Proof.
  intros Hc Hi. destruct evs as [| ev evs]; [by left |]. apply Forall_cons_iff in Hc as [Hev Hc].
  destruct ev as [[| b d] | |]; [done | done | | done]. right. by exists evs.
Qed.

(** * Readers *)

(** A reader with its [poll_read] for a buffer of the given size ([None] if its loop does
    not end) and the stream underneath. *)
Class AsyncReader (St : Type) := {
  rd_poll : Z -> St -> option (St * poll bytes);
  rd_inner : St -> list PollEvent;
}.

(** What one poll must give in a state that carries [d] when [n] waits are to come: some of
    [d], nothing only at its end, or a wait. *)
Definition read_post {St} (inner : St -> list PollEvent) (carries : St -> bytes -> Prop)
    (cap : Z) (n : nat) (d : bytes) (r : option (St * poll bytes)) : Prop :=
  match r with
  | Some (st', Ready out) =>
      clean (inner st') /\ waits (inner st') = n /\ zlen out <= cap
      /\ exists d', d = out ++ d' /\ carries st' d' /\ (out = [] -> d = [])
  | Some (st', Pending) => clean (inner st') /\ n = S (waits (inner st')) /\ carries st' d
  | _ => False
  end.

(** The promise of a reader that decodes: [carries st d] when the state still has to give
    out [d]. *)
Class ReaderSpec (St : Type) `{AsyncReader St} (carries : St -> bytes -> Prop) :=
  rd_ok : forall cap st d, 1 <= cap -> clean (rd_inner st) -> carries st d ->
    read_post rd_inner carries cap (waits (rd_inner st)) d (rd_poll cap st).

(** A client that polls with buffers of the given sizes and collects what it gets. *)
Fixpoint polls {St} `{AsyncReader St} (caps : list Z) (st : St) : option (St * bytes) :=
  match caps with
  | [] => Some (st, [])
  | cap :: caps =>
      match rd_poll cap st with
      | Some (st', Ready out) =>
          match polls caps st' with Some (st'', d) => Some (st'', out ++ d) | None => None end
      | Some (st', Pending) => polls caps st'
      | _ => None
      end
  end.

(** Polling gives a prefix of what the state carries, and all of it after as many polls as
    there are bytes and waits; for buffers of at least [lo] bytes. *)
Lemma polls_ok_from {St} `{AsyncReader St} (carries : St -> bytes -> Prop) (lo : Z) :
  (forall cap st d, lo <= cap -> clean (rd_inner st) -> carries st d ->
     read_post rd_inner carries cap (waits (rd_inner st)) d (rd_poll cap st)) ->
  forall caps, Forall (Z.le lo) caps -> forall st d,
  clean (rd_inner st) -> carries st d ->
  exists st' out d', polls caps st = Some (st', out) /\ d = out ++ d' /\ carries st' d'
    /\ clean (rd_inner st')
    /\ ((waits (rd_inner st) + length d <= length caps)%nat -> d' = []).
Proof.
  intros Hok. induction caps as [| cap caps IH]; intros Hcaps st d Hc Hd.
  { exists st, [], d. split_and!; [done | done | done | done |]. simpl. intros Hl. destruct d; [done | simpl in Hl; lia]. }
  apply Forall_cons_iff in Hcaps as [Hcap Hcaps]. cbn [polls].
  pose proof (Hok cap st d Hcap Hc Hd) as Hp.
  destruct (rd_poll cap st) as [[st' [out | |]] |]; cbn [read_post] in Hp; [| | done..].
  - destruct Hp as (Hc' & Hw & _ & d' & -> & Hd' & Hout).
    destruct (IH Hcaps st' d' Hc' Hd') as (st'' & o & d'' & -> & -> & Hd'' & Hc'' & Hall).
    exists st'', (out ++ o), d''. split_and!; [done | by rewrite app_assoc | done | done |].
    cbn [length]. rewrite !length_app, Hw in *. intros Hl.
    destruct out as [| b out]; [by destruct (app_eq_nil o d'' (Hout eq_refl)) |].
    apply Hall. simpl in Hl. lia.
  - destruct Hp as (Hc' & Hw & Hd').
    destruct (IH Hcaps st' d Hc' Hd') as (st'' & o & d'' & -> & -> & Hd'' & Hc'' & Hall).
    exists st'', o, d''. split_and!; [done | done | done | done |].
    cbn [length]. rewrite Hw. intros Hl. apply Hall. lia.
Qed.

Lemma polls_ok {St} `{ReaderSpec St carries} caps : Forall (Z.le 1) caps -> forall st d,
  clean (rd_inner st) -> carries st d ->
  exists st' out d', polls caps st = Some (st', out) /\ d = out ++ d' /\ carries st' d'
    /\ clean (rd_inner st')
    /\ ((waits (rd_inner st) + length d <= length caps)%nat -> d' = []).
Proof. apply (polls_ok_from carries 1). intros. by apply rd_ok. Qed.

(** The form in which the components state it. *)
Definition reads_all {St} `{AsyncReader St} (caps : list Z) (st : St) (d : bytes) : Prop :=
  exists st' out, polls caps st = Some (st', out) /\ out `prefix_of` d
    /\ ((waits (rd_inner st) + length d <= length caps)%nat -> out = d).

Lemma carries_reads_all {St} `{ReaderSpec St carries} caps st d :
  Forall (Z.le 1) caps -> clean (rd_inner st) -> carries st d -> reads_all caps st d.
Proof.
  intros Hcaps Hc Hd. destruct (polls_ok caps Hcaps st d Hc Hd) as (st' & out & d' & E & -> & _ & _ & Hall).
  exists st', out. split_and!; [done | by exists d' |]. intros Hl. by rewrite Hall, app_nil_r by done.
Qed.
