(* ===== verification/Vless.v ===== *)
(** VLESS ([crates/blackwire-protocol/src/vless]): the request and response
    headers and the port-first address section ([codec.rs]), and the user
    registry ([registry.rs]).  Arithmetic on [usize] wraps at 64 bits, as in the
    release profile, which leaves overflow checks off. *)

From stdpp Require Import base list gmap strings numbers.
From S2P Require Import Prelude Address.

(** * Codec *)

Definition CMD_TCP : Z := 0x01.
Definition CMD_UDP : Z := 0x02.
Definition CMD_MUX : Z := 0x03.
Definition MUX_COOL_DOMAIN : bytes := lit "v1.mux.cool".
Definition ATYP_IPV4 : Z := 0x01.
Definition ATYP_DOMAIN : Z := 0x02.
Definition ATYP_IPV6 : Z := 0x03.
Definition VLESS_VERSION : Z := 0x00.

Inductive Command : Type := CTcp | CUdp | CMux.

#[global] Instance Command_eq_dec : EqDecision Command.
Proof. solve_decision. Defined.

Record VlessRequest : Type := mkVlessRequest {
  uuid : bytes;
  command : Command;
  dest : Address;
  flow : bytes;
}.

(** The bytes of [data] from the cursor on; [result |= (byte & 0x7f) << shift]. *)
Fixpoint read_varint_loop (rest : bytes) (cursor result shift : Z) : option (Z * Z) :=
  match rest with
  | [] => None
  | byte :: rest' =>
      let result := Z.lor result (wrap 64 (Z.shiftl (Z.land byte 0x7f) shift)) in
      if Z.land byte 0x80 =? 0 then Some (result, cursor + 1)
      else
        let shift := shift + 7 in
        if shift >=? 64 then None
        else read_varint_loop rest' (cursor + 1) result shift
  end.

Definition read_varint (data : bytes) (cursor : Z) : option (Z * Z) :=
  read_varint_loop (drop (Z.to_nat cursor) data) cursor 0 0.

(** A 64-bit value is written in at most ten groups of seven bits. *)
Fixpoint put_varint_loop (fuel : nat) (value : Z) : res ProxyError bytes :=
  match fuel with
  | O => NoFuel
  | S fuel =>
      if value >=? 0x80 then
        bs ← put_varint_loop fuel (Z.shiftr value 7);
        Ok (Z.lor (wrap 8 value) 0x80 :: bs)
      else Ok [wrap 8 value]
  end.

Definition put_varint (value : Z) : res ProxyError bytes := put_varint_loop 10 value.

Definition usize_max : Z := 2 ^ 64 - 1.

Fixpoint parse_flow_loop (fuel : nat) (data : bytes) (cursor : Z) : res ProxyError bytes :=
  match fuel with
  | O => NoFuel
  | S fuel =>
      if cursor <? zlen data then
        match read_varint data cursor with
        | None => Ok []
        | Some (tag, cursor) =>
            let field_number := wrap 32 (Z.shiftr tag 3) in
            let wire_type := wrap 8 (Z.land tag 0x07) in
            if wire_type =? 2 then
              match read_varint data cursor with
              | None => Ok []
              | Some (len, cursor) =>
                  let stop := wrap 64 (cursor + len) in
                  if stop >? zlen data then Ok []
                  else if field_number =? 1 then
                    s ← slice data cursor stop;
                    if utf8_valid s then Ok s else parse_flow_loop fuel data stop
                  else parse_flow_loop fuel data stop
              end
            else if wire_type =? 0 then
              match read_varint data cursor with
              | None => Ok []
              | Some (_, cursor) => parse_flow_loop fuel data cursor
              end
            else if wire_type =? 1 then
              parse_flow_loop fuel data (Z.min (cursor + 8) usize_max)
            else if wire_type =? 5 then
              parse_flow_loop fuel data (Z.min (cursor + 4) usize_max)
            else Ok []
        end
      else Ok []
  end.

Definition parse_flow_from_addons (fuel : nat) (data : bytes) : res ProxyError bytes :=
  parse_flow_loop fuel data 0.

Definition read_address (atyp port : Z) : parser ProxyError Address :=
  if atyp =? ATYP_IPV4 then
    buf ← read_exact 4;
    mret (Ipv4 buf port)
  else if atyp =? ATYP_IPV6 then
    buf ← read_exact 16;
    mret (Ipv6 buf port)
  else if atyp =? ATYP_DOMAIN then
    len ← read_u8;
    name ← read_exact len;
    if utf8_valid name then mret (Domain name port)
    else pfail (Protocol "domain name is not valid UTF-8")
  else pfail (Protocol "unknown VLESS ATYP").

(** [fuel] bounds the iterations of the addons loop. *)
Definition decode_request (fuel : nat) : parser ProxyError VlessRequest :=
  ver ← read_u8;
  if negb (ver =? VLESS_VERSION) then pfail (Protocol "VLESS version not supported")
  else
    uuid ← read_exact 16;
    addons_len ← read_u8;
    flow ← (if addons_len >? 0 then
              addons_buf ← read_exact addons_len;
              plift (parse_flow_from_addons fuel addons_buf)
            else mret []);
    cmd_byte ← read_u8;
    command ← (if cmd_byte =? CMD_TCP then mret CTcp
               else if cmd_byte =? CMD_UDP then mret CUdp
               else if cmd_byte =? CMD_MUX then mret CMux
               else pfail (Protocol "unknown VLESS CMD"));
    dest ← (if bool_decide (command = CMux) then mret (Domain MUX_COOL_DOMAIN 0)
            else
              port ← read_u16;
              atyp ← read_u8;
              read_address atyp port);
    mret (mkVlessRequest uuid command dest flow).

Definition cmd_to_byte (c : Command) : Z :=
  match c with CTcp => CMD_TCP | CUdp => CMD_UDP | CMux => CMD_MUX end.

Definition encode_address_port (dest : Address) : res ProxyError bytes :=
  match dest with
  | Ipv4 ip port => Ok (be_bytes 2 port ++ [ATYP_IPV4] ++ ip)
  | Ipv6 ip port => Ok (be_bytes 2 port ++ [ATYP_IPV6] ++ ip)
  | Domain name port =>
      n ← domain_wire_len name;
      Ok (be_bytes 2 port ++ [ATYP_DOMAIN; n] ++ name)
  end.

Definition encode_request (uuid flow : bytes) (command : Command) (dest : Address)
  : res ProxyError bytes :=
  addons ← (if zlen flow =? 0 then Ok [0]
            else
              len ← put_varint (zlen flow);
              let addons := [0x0A] ++ len ++ flow in
              if zlen addons >? 255 then Err (Protocol "VLESS addons too long")
              else Ok ([zlen addons] ++ addons));
  addr ← (if bool_decide (command = CMux) then Ok []
          else
            match dest with
            | Ipv4 ip p => Ok (be_bytes 2 (port dest) ++ [ATYP_IPV4] ++ ip)
            | Ipv6 ip p => Ok (be_bytes 2 (port dest) ++ [ATYP_IPV6] ++ ip)
            | Domain name p =>
                n ← domain_wire_len name;
                Ok (be_bytes 2 (port dest) ++ [ATYP_DOMAIN; n] ++ name)
            end);
  Ok ([VLESS_VERSION] ++ uuid ++ addons ++ [cmd_to_byte command] ++ addr).

Definition address_port_wire_len (data : bytes) : res ProxyError Z :=
  if zlen data <? 4 then Err (Protocol "VLESS UDP address too short")
  else
    atyp ← idx data 2;
    addr_len ← (if atyp =? ATYP_IPV4 then Ok 4
                else if atyp =? ATYP_IPV6 then Ok 16
                else if atyp =? ATYP_DOMAIN then
                  name_len ← idx data 3;
                  if zlen data <? 4 + name_len then
                    Err (Protocol "VLESS UDP address truncated")
                  else
                    name ← slice data 4 (4 + name_len);
                    if utf8_valid name then
                      _ ← domain_wire_len name;
                      Ok (1 + name_len)
                    else Err (Protocol "domain name is not valid UTF-8")
                else Err (Protocol "VLESS UDP: unsupported address type"));
    Ok (2 + 1 + addr_len).

(** [Cursor::read_exact] on a slice; its error is turned into [Protocol]. *)
Definition decode_address_sync (atyp port : Z) (cursor : bytes) : res ProxyError Address :=
  let read (n : Z) (s : bytes) : res ProxyError (bytes * bytes) :=
    map_err (fun _ => Protocol "failed to fill whole buffer")
            (read_exact (E:=ProxyError) n s) in
  if atyp =? ATYP_IPV4 then
    '(buf, _) ← read 4 cursor; Ok (Ipv4 buf port)
  else if atyp =? ATYP_IPV6 then
    '(buf, _) ← read 16 cursor; Ok (Ipv6 buf port)
  else if atyp =? ATYP_DOMAIN then
    '(len, cursor) ← read 1 cursor;
    n ← idx len 0;
    '(name, _) ← read n cursor;
    if utf8_valid name then Ok (Domain name port)
    else Err (Protocol "domain name is not valid UTF-8")
  else Err (Protocol "unknown VLESS ATYP").

Definition decode_address_port_with_len (data : bytes) : res ProxyError (Address * Z) :=
  if zlen data <? 4 then Err (Protocol "VLESS UDP address too short")
  else
    p0 ← idx data 0; p1 ← idx data 1;
    atyp ← idx data 2;
    consumed ← address_port_wire_len data;
    if zlen data <? consumed then Err (Protocol "VLESS UDP address truncated")
    else
      cursor ← slice_from data 3;
      addr ← decode_address_sync atyp (be_val [p0; p1]) cursor;
      Ok (addr, consumed).

Definition decode_address_port (data : bytes) : res ProxyError Address :=
  '(addr, _) ← decode_address_port_with_len data; Ok addr.

Definition encode_response : bytes := [VLESS_VERSION; 0x00].

(** ** UDP packets ([udp.rs]) *)

Definition read_udp_header : parser ProxyError Address :=
  addr_len ← read_u16;
  if (addr_len =? 0) || (addr_len >? 512) then
    pfail (Protocol "invalid VLESS UDP address length")
  else
    addr_buf ← read_exact addr_len;
    plift (decode_address_port addr_buf).

(** The bytes one call puts on the stream. *)
Definition write_udp_packet (dest : Address) (payload : bytes) : res ProxyError bytes :=
  addr_bytes ← encode_address_port dest;
  if zlen addr_bytes >? 65535 then Err (Protocol "VLESS UDP address too long")
  else Ok (be_bytes 2 (zlen addr_bytes) ++ addr_bytes ++ payload).

(** ** Varints *)

Lemma land_7f_of_group v : Z.land (Z.lor (wrap 8 v) 0x80) 0x7f = v mod 128.
Proof.
  unfold wrap. rewrite Z.land_lor_distr_l. change (Z.land 128 127) with 0. rewrite Z.lor_0_r.
  change 127 with (Z.ones 7). rewrite Z.land_ones by lia.
  change (2 ^ 7) with 128. change (2 ^ 8) with (128 * 2).
  rewrite Z.rem_mul_r by lia. rewrite Z.mul_comm, Z.mod_add by lia. by rewrite Z.mod_mod.
Qed.

Lemma land_80_of_group v : (Z.land (Z.lor (wrap 8 v) 0x80) 0x80 =? 0) = false.
Proof.
  apply Z.eqb_neq. rewrite Z.land_lor_distr_l. change (Z.land 128 128) with 128.
  intros H%(f_equal (fun z => Z.testbit z 7)). rewrite Z.lor_spec in H. simpl in H.
  by rewrite orb_true_r in H.
Qed.

Lemma small_group v : 0 <= v < 128 ->
  Z.land (wrap 8 v) 0x7f = v /\ (Z.land (wrap 8 v) 0x80 =? 0) = true.
Proof.
  intros Hv. unfold wrap. rewrite Z.mod_small by lia. split.
  - change 127 with (Z.ones 7). rewrite Z.land_ones by lia. by rewrite Z.mod_small.
  - apply Z.eqb_eq. change 128 with (2 ^ 7). rewrite <- Z.shiftl_1_l.
    apply Z.bits_inj'. intros i Hi. rewrite Z.land_spec, Z.bits_0, Z.shiftl_1_l, Z.pow2_bits_eqb by lia.
    destruct (Z.eqb_spec 7 i) as [<- |]; [| apply andb_false_r].
    rewrite Z.bits_above_log2; [done | lia |].
    destruct (Z.eq_dec v 0) as [-> |]; [done |]. apply Z.log2_lt_pow2; lia.
Qed.

Lemma group_is_u8 v : is_u 8 (Z.lor (wrap 8 v) 0x80).
Proof.
  unfold is_u, wrap. assert (Hm := Z.mod_pos_bound v (2 ^ 8) eq_refl).
  assert (Hn : 0 <= Z.lor (v mod 2 ^ 8) 128) by (apply Z.lor_nonneg; lia). split; [done |].
  destruct (Z.eq_dec (Z.lor (v mod 2 ^ 8) 128) 0) as [-> | Hz]; [lia |].
  apply Z.log2_lt_pow2; [lia |]. rewrite Z.log2_lor by lia.
  apply Z.max_lub_lt; [| simpl; lia].
  destruct (Z.eq_dec (v mod 2 ^ 8) 0) as [-> |]; [simpl; lia | apply Z.log2_lt_pow2; lia].
Qed.

(** Powers of two around one group of seven bits. *)
Lemma varint_powers shift v :
  0 <= shift < 64 -> 128 <= v < 2 ^ (64 - shift) ->
  shift + 7 < 64 /\ 2 ^ (64 - shift) = 128 * 2 ^ (64 - (shift + 7))
  /\ 2 ^ (shift + 7) = 128 * 2 ^ shift /\ v mod 128 * 2 ^ shift < 2 ^ 64.
Proof.
  intros Hs Hv.
  assert (Hshift : shift + 7 < 64).
  { destruct (Z.lt_ge_cases (shift + 7) 64); [done |].
    assert (2 ^ (64 - shift) <= 2 ^ 7) by (apply Z.pow_le_mono_r; lia). lia. }
  split; [done |]. split; [| split].
  - change 128 with (2 ^ 7). rewrite <- Z.pow_add_r by lia. f_equal. lia.
  - rewrite Z.pow_add_r by lia. lia.
  - assert (0 < 2 ^ shift) by (apply Z.pow_pos_nonneg; lia).
    assert (0 <= v mod 128 < 128) by (apply Z.mod_pos_bound; lia).
    replace (2 ^ 64) with (2 ^ (64 - shift) * 2 ^ shift)
      by (rewrite <- Z.pow_add_r by lia; f_equal; lia).
    apply Z.mul_lt_mono_pos_r; lia.
Qed.

Lemma varint_loop_roundtrip fuel v shift result cursor rest :
  0 <= v -> v < 2 ^ (7 * Z.of_nat fuel) -> v < 2 ^ (64 - shift) ->
  0 <= shift < 64 -> 0 <= result < 2 ^ shift -> (0 < fuel)%nat ->
  exists bs, put_varint_loop fuel v = Ok bs
    /\ read_varint_loop (bs ++ rest) cursor result shift
       = Some (result + v * 2 ^ shift, cursor + zlen bs)
    /\ 0 < zlen bs <= Z.of_nat fuel /\ bytes_ok bs.
Proof.
  revert v shift result cursor. induction fuel as [| fuel IH];
    intros v shift result cursor Hv Hv1 Hv2 Hs Hr Hf; [lia |]. clear Hf.
  assert (0 < 2 ^ shift) by (apply Z.pow_pos_nonneg; lia).
  cbn [put_varint_loop]. zcase.
  - destruct (varint_powers shift v) as (Hshift & H27 & Hsh & Hfit); [lia | lia |].
    rewrite Z.shiftr_div_pow2 by lia. change (2 ^ 7) with 128.
    assert (0 <= v mod 128 < 128) by (apply Z.mod_pos_bound; lia).
    assert (Hvm : v = 128 * (v / 128) + v mod 128) by (apply Z.div_mod; lia).
    destruct (IH (v / 128) (shift + 7) (result + v mod 128 * 2 ^ shift) (cursor + 1))
      as (bs & Hbs & Hrd & Hlen & Hok);
      [apply Z.div_pos; lia | | apply Z.div_lt_upper_bound; lia | lia | rewrite Hsh; nia | |].
    + apply Z.div_lt_upper_bound; [lia |]. change 128 with (2 ^ 7).
      rewrite <- Z.pow_add_r by lia.
      by replace (7 + 7 * Z.of_nat fuel) with (7 * Z.of_nat (S fuel)) by lia.
    + destruct fuel; [simpl in Hv1; lia | lia].
    + exists (Z.lor (wrap 8 v) 128 :: bs). rewrite Hbs. split; [done |].
      split; [| split; [len_solve | apply bytes_ok_cons; auto using group_is_u8]].
      simpl. rewrite land_80_of_group, land_7f_of_group.
      unfold wrap. rewrite Z.shiftl_mul_pow2, Z.mod_small by (try lia; nia).
      rewrite <- Z.shiftl_mul_pow2, lor_shiftl_add by lia.
      zcase. rewrite Hrd. f_equal. f_equal; [| len_solve]. rewrite Hsh. rewrite Hvm at 3. lia.
  - destruct (small_group v) as [H7 H8]; [lia |].
    exists [wrap 8 v]. split; [done |]. simpl. rewrite H8, H7.
    unfold wrap. rewrite Z.shiftl_mul_pow2 by lia.
    assert (v * 2 ^ shift < 2 ^ 64).
    { replace (2 ^ 64) with (2 ^ (64 - shift) * 2 ^ shift)
        by (rewrite <- Z.pow_add_r by lia; f_equal; lia). nia. }
    rewrite (Z.mod_small (v * 2 ^ shift)) by lia.
    rewrite <- Z.shiftl_mul_pow2, lor_shiftl_add by lia.
    rewrite ?Z.shiftl_mul_pow2 by lia.
    split; [do 2 f_equal; len_solve |]. split; [len_solve |]. bok.
Qed.

Lemma varint_roundtrip v pre rest :
  is_u 64 v -> exists bs, put_varint v = Ok bs
    /\ read_varint (pre ++ bs ++ rest) (zlen pre) = Some (v, zlen pre + zlen bs)
    /\ 0 < zlen bs <= 10 /\ bytes_ok bs.
Proof.
  intros Hv. destruct (varint_loop_roundtrip 10 v 0 0 (zlen pre) rest)
    as (bs & Hp & Hr & Hl & Hok); [unfold is_u in Hv; simpl in *; lia.. |].
  exists bs. split; [done |]. split; [| done].
  unfold read_varint. rewrite drop_app_zlen by done. rewrite Hr. do 2 f_equal. lia.
Qed.

Lemma put_varint_len_small v bs :
  0 <= v < 128 -> put_varint v = Ok bs -> bs = [v].
Proof.
  intros Hv. unfold put_varint. cbn [put_varint_loop]. zcase. intros [= <-].
  unfold wrap. rewrite Z.mod_small; [done | lia].
Qed.

Lemma read_varint_loop_cursor rest cursor result shift v c :
  read_varint_loop rest cursor result shift = Some (v, c) ->
  cursor < c <= cursor + zlen rest.
Proof.
  revert cursor result shift. induction rest as [| b rest IH]; intros cursor result shift H;
    [done |]. simpl in H. pose proof (zlen_nonneg rest). rewrite zlen_cons.
  zcase_in H; [injection H as _ <-; lia |]. zcase_in H. apply IH in H. lia.
Qed.

Lemma read_varint_cursor data cursor v c :
  0 <= cursor -> read_varint data cursor = Some (v, c) -> cursor < c <= zlen data.
Proof.
  intros Hc H%read_varint_loop_cursor. unfold zlen in *. rewrite length_drop in H. lia.
Qed.

Lemma read_varint_loop_nonneg rest cursor result shift v c :
  0 <= shift -> 0 <= result ->
  read_varint_loop rest cursor result shift = Some (v, c) -> 0 <= v.
Proof.
  revert cursor result shift. induction rest as [| b rest IH]; intros cursor result shift Hs Hr H;
    [done |]. simpl in H.
  assert (0 <= Z.lor result (wrap 64 (Z.land b 127 ≪ shift))).
  { apply Z.lor_nonneg. split; [done |]. apply Z.mod_pos_bound. lia. }
  zcase_in H; [injection H as <- _; done |]. zcase_in H. by apply IH in H; [| lia |].
Qed.

Lemma read_varint_nonneg data cursor v c : read_varint data cursor = Some (v, c) -> 0 <= v.
Proof. by apply read_varint_loop_nonneg. Qed.

(** ** The addons loop *)

(** Every varint of the block is small enough that the end of the field it
    announces is a [usize]. *)
Definition lengths_fit (data : bytes) : Prop :=
  forall c v c', 0 <= c -> read_varint data c = Some (v, c') -> c' + v < 2 ^ 64.

Lemma parse_flow_loop_total data cursor fuel :
  lengths_fit data -> 0 <= cursor -> zlen data - cursor < Z.of_nat fuel -> (0 < fuel)%nat ->
  exists s, parse_flow_loop fuel data cursor = Ok s.
Proof.
  intros Hfit. revert cursor. induction fuel as [| fuel IH]; intros cursor Hc Hf Hf0; [lia |].
  simpl. zcase; [| eauto].
  destruct (read_varint data cursor) as [[tag c1] |] eqn:H1; [| eauto].
  assert (Hfit1 := Hfit _ _ _ Hc H1). assert (Hn1 := read_varint_nonneg _ _ _ _ H1).
  apply read_varint_cursor in H1; [| done].
  assert (Hrec : forall c, c1 <= c -> exists s, parse_flow_loop fuel data c = Ok s).
  { intros c ?. apply IH; lia. }
  unfold usize_max. zcase; [| zcase; [| repeat (zcase; [apply Hrec; lia |]); eauto]].
  - destruct (read_varint data c1) as [[len c2] |] eqn:H2; [| eauto].
    assert (Hc1 : 0 <= c1) by lia. assert (Hfit2 := Hfit _ _ _ Hc1 H2). assert (Hn := read_varint_nonneg _ _ _ _ H2).
    apply read_varint_cursor in H2; [| lia].
    unfold wrap. rewrite Z.mod_small by lia. zcase; [eauto |]. zcase; [| apply Hrec; lia].
    rewrite slice_in_range by lia. simpl. destruct (utf8_valid _); [eauto | apply Hrec; lia].
  - destruct (read_varint data c1) as [[len c2] |] eqn:H2; [| eauto].
    apply read_varint_cursor in H2; [| lia]. apply Hrec. lia.
Qed.

(** The addons parser returns: when no length field of the block overflows
    a [usize], a number of iterations equal to its length plus one is enough
    and the parser yields a string, with no panic. *)
Theorem parse_flow_total (data : bytes) (fuel : nat) :
  lengths_fit data -> zlen data < Z.of_nat fuel ->
  exists s, parse_flow_from_addons fuel data = Ok s.
Proof. intros. apply parse_flow_loop_total; [done | lia | lia |]. len_solve. Qed.

(** A block of one byte cannot announce a length past the address space. *)
Lemma lengths_fit_unknown_field : lengths_fit [0x0B; 0x00].
Proof.
  intros c v c' Hc H. assert (Hb := read_varint_cursor _ _ _ _ Hc H).
  change (zlen [0x0B; 0x00]) with 2 in Hb.
  assert (c = 0 \/ c = 1) as [-> | ->] by lia; vm_compute in H; injection H as <- <-; done.
Qed.

Lemma parse_flow_total_witness : exists s, parse_flow_from_addons 3 [0x0B; 0x00] = Ok s.
Proof. apply (parse_flow_total [0x0B; 0x00] 3); [exact lengths_fit_unknown_field | vm_compute; reflexivity]. Defined.

(** A field whose announced length is [2^64 - 11]: the cursor after it is 0. *)
Definition looping_addons : bytes := [0x12; 0xF5] ++ repeat 0xFF 8 ++ [0x01].

(** C39. Without that condition the parser need not return: for the eleven
    bytes of [looping_addons] the end of the field wraps around to the start
    of the block, and no number of iterations finishes; with field number 1
    the same length makes the slice panic. *)
Theorem parse_flow_diverges (fuel : nat) :
  parse_flow_from_addons fuel looping_addons = NoFuel
  /\ parse_flow_from_addons (S fuel) (0x0A :: drop 1 looping_addons) = Panic.
Proof.
  split; [| done]. unfold parse_flow_from_addons. induction fuel as [| fuel IH]; [done |].
  etransitivity; [| exact IH]. done.
Qed.

(** ** Requests *)

Lemma read_address_body a rest enc :
  wf_address a -> encode_address_port a = Ok enc ->
  exists t body, enc = be_bytes 2 (port a) ++ t :: body
    /\ is_u 16 (port a) /\ read_address t (port a) (body ++ rest) = Ok (a, rest).
Proof.
  intros Hw He. destruct a as [i p | i p | n p]; simpl in *.
  - destruct Hw as (Hl & _ & Hp). injection He as <-. eexists _, i. split; [done |].
    split; [done |]. unfold read_address. simpl. by pstep.
  - destruct Hw as (Hl & _ & Hp). injection He as <-. eexists _, i. split; [done |].
    split; [done |]. unfold read_address. simpl. by pstep.
  - destruct Hw as (Hu & _ & Hp). apply rbind_inv in He as (m & Hm & [= <-]).
    unfold domain_wire_len in Hm. zcase_in Hm. injection Hm as <-.
    eexists _, (zlen n :: n). split; [done |]. split; [done |].
    unfold read_address. simpl. do 2 pstep. by rewrite Hu.
Qed.

Lemma parse_flow_encoded (flow lenb : bytes) fuel :
  utf8_valid flow = true -> zlen flow < 2 ^ 32 -> put_varint (zlen flow) = Ok lenb ->
  parse_flow_from_addons (S fuel) ([0x0A] ++ lenb ++ flow) = Ok flow.
Proof.
  intros Hu Hlt Hp. destruct (varint_roundtrip (zlen flow) [0x0A] flow) as (bs & Hp' & Hr & Hl & _).
  { len_solve. }
  rewrite Hp in Hp'. injection Hp' as <-. unfold parse_flow_from_addons. cbn [parse_flow_loop].
  zcase.
  assert (Hr1 : read_varint ([10] ++ lenb ++ flow) 0 = Some (10, 1)) by done.
  rewrite Hr1. change (wrap 8 (Z.land 10 7) =? 2) with true. cbn iota.
  change (zlen [10]) with 1 in Hr. rewrite Hr.
  unfold wrap. rewrite Z.mod_small by len_solve. zcase.
  change (Z.shiftr 10 3 mod 2 ^ 32 =? 1) with true. cbn iota.
  erewrite rbind_ok.
  2: { rewrite <- (app_nil_r flow) at 1. rewrite (app_assoc [10]).
       apply (slice_app3 ([10] ++ lenb) flow []); len_solve. }
  by rewrite Hu.
Qed.

(** The destination a request header conveys: a mux header has none. *)
Definition header_dest (command : Command) (dest : Address) : Address :=
  if bool_decide (command = CMux) then Domain MUX_COOL_DOMAIN 0 else dest.

Lemma encode_request_addr command dest :
  (if bool_decide (command = CMux) then Ok []
   else match dest with
        | Ipv4 ip p => Ok (be_bytes 2 (port dest) ++ [ATYP_IPV4] ++ ip)
        | Ipv6 ip p => Ok (be_bytes 2 (port dest) ++ [ATYP_IPV6] ++ ip)
        | Domain name p =>
            n ← domain_wire_len name;
            Ok (be_bytes 2 (port dest) ++ [ATYP_DOMAIN; n] ++ name)
        end)
  = if bool_decide (command = CMux) then Ok [] else encode_address_port dest.
Proof. by destruct dest. Qed.

(** The two length-prefixed parts of the header, read back. *)
Lemma decode_addons_part (flow addons : bytes) (fuel : nat) (rest : bytes) :
  utf8_valid flow = true ->
  (if zlen flow =? 0 then Ok [0]
   else len ← put_varint (zlen flow);
        let addons := [0x0A] ++ len ++ flow in
        if zlen addons >? 255 then Err (Protocol "VLESS addons too long")
        else Ok ([zlen addons] ++ addons)) = Ok addons ->
  exists n ab, addons = n :: ab
    /\ (if n >? 0 then
          addons_buf ← read_exact n;
          plift (parse_flow_from_addons (S fuel) addons_buf)
        else mret []) (ab ++ rest) = Ok (flow, rest).
Proof.
  intros Hu Ha. zcase_in Ha.
  - injection Ha as <-. exists 0, []. destruct flow; [| len_solve]. done.
  - apply rbind_inv in Ha as (lenb & Hlen & Ha). cbn zeta in Ha. zcase_in Ha.
    injection Ha as <-. eexists _, (10 :: lenb ++ flow). split; [done |].
    zcase. erewrite pbind_ok; [| by apply read_exact_app].
    unfold plift. rewrite (parse_flow_encoded flow lenb); [done | done | len_solve | done].
Qed.

(** VLESS request round trip.  A header the client encoder accepts is
    decoded by the server to the same identifier, command, flow and
    destination, and the bytes after the header are left for the payload;
    one iteration of the addons loop is enough for it. *)
Theorem vless_request_roundtrip (uuid flow hdr payload : bytes) (command : Command)
    (dest : Address) (fuel : nat) :
  zlen uuid = 16 -> utf8_valid flow = true -> wf_address dest ->
  encode_request uuid flow command dest = Ok hdr ->
  decode_request (S fuel) (hdr ++ payload)
  = Ok (mkVlessRequest uuid command (header_dest command dest) flow, payload).
Proof.
  intros Huu Hu Hw He. unfold encode_request in He. apply rbind_inv in He as (addons & Ha & He).
  apply rbind_inv in He as (addr & Haddr & [= <-]). rewrite encode_request_addr in Haddr.
  simpl. rewrite <- !app_assoc.
  destruct (decode_addons_part flow addons fuel (cmd_to_byte command :: addr ++ payload) Hu Ha)
    as (n & ab & -> & Hflow).
  unfold decode_request. pstep. simpl. pstep. pstep.
  erewrite pbind_ok; [| exact Hflow]. pstep. unfold header_dest.
  destruct command; simpl in *; [| | by injection Haddr as <-].
  all: destruct (read_address_body dest payload addr Hw Haddr) as (t & body & -> & Hp & Hr).
  all: rewrite <- app_assoc; erewrite pbind_ok; [| done].
  all: erewrite pbind_ok; [done |]; simpl; pstep; pstep; exact Hr.
Qed.

Lemma vless_request_roundtrip_witness :
  decode_request 1 (([0] ++ repeat 7 16 ++ [18; 0x0A; 16] ++ lit "xtls-rprx-vision"
                     ++ [1; 1; 187; 2; 11] ++ lit "example.com") ++ [9; 9])
  = Ok (mkVlessRequest (repeat 7 16) CTcp (header_dest CTcp (Domain (lit "example.com") 443))
          (lit "xtls-rprx-vision"), [9; 9]).
Proof.
  apply (vless_request_roundtrip (repeat 7 16) (lit "xtls-rprx-vision") _ [9; 9] CTcp
           (Domain (lit "example.com") 443) 0).
  - reflexivity.
  - vm_compute. reflexivity.
  - apply (bool_decide_unpack _). vm_compute. exact I.
  - vm_compute. reflexivity.
Defined.

(** ** UDP address section *)

Lemma address_port_wire_len_body a enc rest :
  wf_address a -> encode_address_port a = Ok enc ->
  address_port_wire_len (enc ++ rest) = Ok (zlen enc).
Proof.
  intros Hw He. destruct a as [i p | i p | n p]; simpl in *;
    unfold address_port_wire_len; rewrite ?be_bytes_2 in He; simpl in He.
  - destruct Hw as (Hl & _ & Hp). injection He as <-. simpl. zcase. f_equal. len_solve.
  - destruct Hw as (Hl & _ & Hp). injection He as <-. simpl. zcase. f_equal. len_solve.
  - destruct Hw as (Hu & _ & Hp). apply rbind_inv in He as (m & Hm & [= <-]).
    assert (Hm' := Hm). unfold domain_wire_len in Hm. zcase_in Hm. injection Hm as <-.
    simpl. zcase. zcase.
    erewrite rbind_ok; [| erewrite rbind_ok;
      [| apply (slice_app3 [p / 256 mod 256; p mod 256; ATYP_DOMAIN; zlen n] n); len_solve]].
    2: { rewrite Hu, Hm'. done. }
    f_equal. len_solve.
Qed.

Lemma decode_address_sync_body a t body rest :
  wf_address a -> read_address t (port a) (body ++ rest) = Ok (a, rest) ->
  decode_address_sync t (port a) (body ++ rest) = Ok a.
Proof.
  intros Hw Hr. unfold read_address, decode_address_sync in *. repeat zcase_in Hr; pinv Hr.
  - rewrite Hv. simpl. by injection Hr as -> _.
  - rewrite Hv. simpl. by injection Hr as -> _.
  - destruct (body ++ rest) as [| x l]; [done |]. injection Hv as <- <-.
    rewrite (read_exact_app 1 [x] l) by done. simpl. rewrite Hv0. simpl.
    destruct (utf8_valid v0); [| done]. by injection Hr as <- _.
Qed.

Lemma vless_address_port_body (a : Address) (enc payload : bytes) :
  wf_address a -> encode_address_port a = Ok enc ->
  decode_address_port_with_len (enc ++ payload) = Ok (a, zlen enc).
Proof.
  intros Hw He. assert (Hlen := address_port_wire_len_body a enc payload Hw He).
  destruct (read_address_body a payload enc Hw He) as (t & body & -> & Hp & Hr).
  apply decode_address_sync_body in Hr; [| done].
  unfold decode_address_port_with_len. rewrite Hlen. rewrite be_bytes_2. simpl.
  unfold address_port_wire_len in Hlen. zcase_in Hlen. rewrite be_bytes_2 in *. zcase.
  zcase.
  erewrite rbind_ok; [| apply (slice_from_app [port a / 256 mod 256; port a mod 256; t]); done].
  by rewrite be_val_2_port, Hr.
Qed.

Lemma encode_address_port_len a enc :
  wf_address a -> encode_address_port a = Ok enc -> 7 <= zlen enc + 3 <= 262.
Proof.
  destruct a; simpl; intros Hw H; [injection H as <-; destruct_and!; len_solve.. |].
  apply rbind_inv in H as (m & Hm & [= <-]). unfold domain_wire_len in Hm.
  zcase_in Hm. len_solve.
Qed.

(** VLESS UDP packets.  A packet written for a well-formed destination is
    read back: the header gives the destination, the payload is what remains,
    and the address section in isolation is decoded with its exact length,
    whatever follows. *)
Theorem vless_udp_packet_roundtrip (dest : Address) (payload pkt : bytes) :
  wf_address dest -> write_udp_packet dest payload = Ok pkt ->
  read_udp_header pkt = Ok (dest, payload)
  /\ exists n, decode_address_port_with_len (drop 2 pkt) = Ok (dest, n)
               /\ zlen pkt = 2 + n + zlen payload.
Proof.
  intros Hw Hp. apply rbind_inv in Hp as (enc & He & Hp). zcase_in Hp. injection Hp as <-.
  assert (Hl := encode_address_port_len _ _ Hw He).
  split.
  - unfold read_udp_header. pstep. repeat zcase. simpl. pstep.
    unfold plift, decode_address_port. rewrite <- (app_nil_r enc).
    by rewrite (vless_address_port_body dest enc []).
  - exists (zlen enc). change (be_bytes 2 (zlen enc)) with [zlen enc / 256 mod 256; zlen enc mod 256].
    simpl. split; [by apply vless_address_port_body | len_solve].
Qed.

Lemma vless_udp_packet_roundtrip_witness :
  read_udp_header [0; 7; 0; 53; 1; 8; 8; 8; 8; 1; 2; 3] = Ok (Ipv4 [8; 8; 8; 8] 53, [1; 2; 3])
  /\ exists n, decode_address_port_with_len (drop 2 [0; 7; 0; 53; 1; 8; 8; 8; 8; 1; 2; 3])
               = Ok (Ipv4 [8; 8; 8; 8] 53, n)
               /\ zlen [0; 7; 0; 53; 1; 8; 8; 8; 8; 1; 2; 3] = 2 + n + zlen [1; 2; 3].
Proof.
  apply (vless_udp_packet_roundtrip (Ipv4 [8; 8; 8; 8] 53) [1; 2; 3]).
  - apply (bool_decide_unpack _). vm_compute. exact I.
  - vm_compute. reflexivity.
Defined.

(** * User registry *)

Record VlessUser : Type := mkVlessUser {
  vu_email : bytes;
  vu_uuid : bytes;
  vu_flow : bytes;
}.

#[global] Instance VlessUser_eq_dec : EqDecision VlessUser.
Proof. solve_decision. Defined.

(** The concurrent map of the registry; every method is one or several atomic
    map operations. *)
Abbreviation VlessUserRegistry := (gmap bytes VlessUser).

Definition normalise_uuid (u : bytes) : bytes :=
  let u := alter (fun b => Z.lor (Z.land b 0x0F) 0x40) 6%nat u in
  alter (fun b => Z.lor (Z.land b 0x3F) 0x80) 8%nat u.

Definition registry_new : VlessUserRegistry := ∅.

Definition add_user (r : VlessUserRegistry) (user : VlessUser) : VlessUserRegistry :=
  <[normalise_uuid (vu_uuid user) := user]> r.

Definition validate (r : VlessUserRegistry) (u : bytes) : option VlessUser :=
  r !! normalise_uuid u.

Definition registry_clear (r : VlessUserRegistry) : VlessUserRegistry := ∅.

Definition registry_len (r : VlessUserRegistry) : Z := Z.of_nat (size r).

Definition list_users (r : VlessUserRegistry) (email : bytes) : list VlessUser :=
  filter (fun u => email = [] \/ vu_email u = email) (snd <$> map_to_list r).

(** The keys are collected first, then removed one at a time. *)
Definition remove_user_by_email (r : VlessUserRegistry) (email : bytes) : VlessUserRegistry * bool :=
  let keys := fst <$> filter (fun kv : bytes * VlessUser => vu_email kv.2 = email) (map_to_list r) in
  (foldl (fun r key => delete key r) r keys, negb (bool_decide (keys = []))).

(** ** Theorems *)

Lemma fold_delete_lookup (keys : list bytes) (r : VlessUserRegistry) k :
  foldl (fun r key => delete key r) r keys !! k
  = if bool_decide (k ∈ keys) then None else r !! k.
Proof.
  revert r. induction keys as [| k' keys IH]; intros r; cbn [foldl]; [done |].
  rewrite IH. destruct (decide (k = k')) as [-> | Hne].
  - rewrite lookup_delete_eq. case_bool_decide; by rewrite bool_decide_eq_true_2 by set_solver.
  - rewrite lookup_delete_ne by done.
    replace (bool_decide (k ∈ k' :: keys)) with (bool_decide (k ∈ keys)); [done |].
    apply bool_decide_ext. set_solver.
Qed.

Lemma remove_keys_spec (r : VlessUserRegistry) email k :
  k ∈ (fst <$> filter (fun kv : bytes * VlessUser => vu_email kv.2 = email) (map_to_list r))
  <-> exists u, r !! k = Some u /\ vu_email u = email.
Proof.
  rewrite list_elem_of_fmap. split.
  - intros ([k' u] & -> & [He Hin]%list_elem_of_filter). apply elem_of_map_to_list in Hin.
    simpl in *. eauto.
  - intros (u & Hk & He). exists (k, u). split; [done |].
    apply list_elem_of_filter. split; [done |]. by apply elem_of_map_to_list.
Qed.

(** Two identifiers the registry does not tell apart. *)
Definition same_user_id (u v : bytes) : Prop := normalise_uuid u = normalise_uuid v.

#[global] Instance same_user_id_dec u v : Decision (same_user_id u v).
Proof. unfold same_user_id. apply _. Defined.

#[global] Instance same_user_id_equivalence : Equivalence same_user_id.
Proof. split; [intros x | intros x y | intros x y z]; unfold same_user_id; congruence. Qed.

#[global] Instance validate_proper r : Proper (same_user_id ==> eq) (validate r).
Proof. intros u v Huv. unfold validate, same_user_id in *. by rewrite Huv. Qed.

(** Registry contract.  After [add_user] the user is found under every
    identifier equal to its own up to version and variant bits and every other
    lookup is unchanged; [remove_user_by_email] makes exactly the users of that
    email disappear and says whether there was one. *)
Theorem registry_refines_lookup (r : VlessUserRegistry) (user : VlessUser) (email u : bytes) :
  (validate (add_user r user) u
   = if bool_decide (same_user_id u (vu_uuid user)) then Some user else validate r u)
  /\ validate (remove_user_by_email r email).1 u
     = (x ← validate r u; if bool_decide (vu_email x = email) then None else Some x)
  /\ ((remove_user_by_email r email).2 = true
      <-> exists k x, r !! k = Some x /\ vu_email x = email).
Proof.
  split; [| split].
  - unfold validate, add_user, same_user_id. case_bool_decide as H; [by rewrite H, lookup_insert_eq |].
    by rewrite lookup_insert_ne.
  - unfold validate, remove_user_by_email. simpl. rewrite fold_delete_lookup.
    case_bool_decide as Hin; rewrite remove_keys_spec in Hin;
      destruct (r !! normalise_uuid u) as [x |] eqn:Hx; simpl; try case_bool_decide; naive_solver.
  - simpl. rewrite negb_true_iff, bool_decide_eq_false. setoid_rewrite <- remove_keys_spec.
    destruct (fst <$> _) as [| k l]; split; [done | set_solver | | done]. exists k. set_solver.
Qed.
