(* ===== verification/Mux.v ===== *)
(** Mux.Cool ([vless/mux.rs]): the frame format and the demultiplexer that
    serves the sub-connections of one VLESS connection.  The demultiplexer is a
    state machine over the three session tables; sockets, name resolution, the
    outbound connector and the locks are the environment of a step, and what the
    relay does to sockets and reader tasks is recorded.  [MuxTasks] runs it
    together with its reader tasks. *)

From stdpp Require Import base list gmap strings numbers.
From S2P Require Import Prelude Address Vless.

(** * Frames *)

Definition XUDP_SESSION_ID : Z := 0.
Definition OPT_DATA : Z := 0x01.
Definition MAX_META_LEN : Z := 512.
Definition MAX_DATA_LEN : Z := 512 * 1024.

Inductive SessionStatus : Type := New | Keep | End_ | KeepAlive.

#[global] Instance SessionStatus_eq_dec : EqDecision SessionStatus.
Proof. solve_decision. Defined.

Definition status_byte (s : SessionStatus) : Z :=
  match s with New => 0x01 | Keep => 0x02 | End_ => 0x03 | KeepAlive => 0x04 end.

Definition SessionStatus_from_byte (b : Z) : res ProxyError SessionStatus :=
  if b =? 0x01 then Ok New
  else if b =? 0x02 then Ok Keep
  else if b =? 0x03 then Ok End_
  else if b =? 0x04 then Ok KeepAlive
  else Err (Protocol "mux: unknown session status").

(** [TargetNetwork] has the two constructors of [Network]. *)
Abbreviation TargetNetwork := Network.

Definition network_byte (n : TargetNetwork) : Z := match n with Tcp => 0x01 | Udp => 0x02 end.

Definition TargetNetwork_from_byte (b : Z) : res ProxyError TargetNetwork :=
  if b =? 0x01 then Ok Tcp
  else if b =? 0x02 then Ok Udp
  else Err (Protocol "mux: unknown target network").

Record FrameMetadata : Type := mkFrameMetadata {
  session_id : Z;
  status : SessionStatus;
  option_ : Z;
  target : option (TargetNetwork * Address);
  global_id : option bytes;
}.

Definition is_mux_cool_dest (dest : Address) : bool :=
  match dest with Domain host _ => bytes_eqb host MUX_COOL_DOMAIN | _ => false end.

Definition is_mux_request (command : Command) (dest : Address) : bool :=
  bool_decide (command = CMux) || is_mux_cool_dest dest.

Definition encode_new_metadata (session_id : Z) (dest : Address) (opt : Z) : res ProxyError bytes :=
  a ← encode_address_port dest;
  Ok (be_bytes 2 session_id ++ [status_byte New; opt; network_byte Tcp] ++ a).

Definition encode_end_metadata (session_id opt : Z) : bytes :=
  be_bytes 2 session_id ++ [status_byte End_; opt].

Definition encode_new_metadata_xudp (dest : Address) (global_id : bytes) (opt : Z)
  : res ProxyError bytes :=
  a ← encode_address_port dest;
  Ok (be_bytes 2 XUDP_SESSION_ID ++ [status_byte New; opt; network_byte Udp] ++ a ++ global_id).

Definition encode_keep_metadata_udp (session_id : Z) (dest : Address) (opt : Z)
  : res ProxyError bytes :=
  a ← encode_address_port dest;
  Ok (be_bytes 2 session_id ++ [status_byte Keep; opt; network_byte Udp] ++ a).

Definition encode_keep_metadata (session_id opt : Z) : bytes :=
  be_bytes 2 session_id ++ [status_byte Keep; opt].

(** [put_u16(len as u16)]: the length fields keep sixteen bits. *)
Definition encode_frame (metadata : bytes) (payload : option bytes) : res ProxyError bytes :=
  if zlen metadata >? MAX_META_LEN then Err (Protocol "mux: metadata too long")
  else
    let out := be_bytes 2 (wrap 16 (zlen metadata)) ++ metadata in
    match payload with
    | None => Ok out
    | Some data =>
        if zlen data >? MAX_DATA_LEN then Err (Protocol "mux: payload too long")
        else Ok (out ++ be_bytes 2 (wrap 16 (zlen data)) ++ data)
    end.

Fixpoint skip_ext_loop (n : nat) (rest : bytes) : res ProxyError bytes :=
  match n with
  | O => Ok rest
  | S n =>
      if zlen rest =? 0 then Ok rest
      else
        b ← idx rest 0;
        if b =? 0 then
          rest ← slice_from rest 1;
          skip_ext_loop n rest
        else
          _ ← TargetNetwork_from_byte b;
          rest ← slice_from rest 1;
          '(_, consumed) ← decode_address_port_with_len rest;
          rest ← slice_from rest consumed;
          skip_ext_loop n rest
  end.

Definition skip_mux_inbound_extensions (rest : bytes) : res ProxyError bytes :=
  skip_ext_loop 2 rest.

Definition parse_metadata (meta : bytes) : res ProxyError FrameMetadata :=
  if zlen meta <? 4 then Err (Protocol "mux: metadata too short")
  else
    s0 ← idx meta 0; s1 ← idx meta 1;
    sb ← idx meta 2;
    status ← SessionStatus_from_byte sb;
    option_ ← idx meta 3;
    rest ← slice_from meta 4;
    let sid := be_val [s0; s1] in
    if bool_decide (status = New) then
      if zlen rest =? 0 then Err (Protocol "mux: New missing target")
      else
        nb ← idx rest 0;
        network ← TargetNetwork_from_byte nb;
        rest ← slice_from rest 1;
        '(addr, consumed) ← decode_address_port_with_len rest;
        rest ← slice_from rest consumed;
        rest ← (if bool_decide (network = Tcp) then skip_mux_inbound_extensions rest else Ok rest);
        gid ← (if bool_decide (network = Udp) && negb (Z.land option_ OPT_DATA =? 0)
                  && (zlen rest >=? 8)
               then g ← slice rest 0 8; Ok (Some g)
               else Ok None);
        Ok (mkFrameMetadata sid status option_ (Some (network, addr)) gid)
    else if bool_decide (status = Keep) && negb (zlen rest =? 0) then
      nb ← idx rest 0;
      match TargetNetwork_from_byte nb with
      | Ok Udp =>
          rest ← slice_from rest 1;
          '(addr, _) ← decode_address_port_with_len rest;
          Ok (mkFrameMetadata sid status option_ (Some (Udp, addr)) None)
      | _ => Ok (mkFrameMetadata sid status option_ None None)
      end
    else Ok (mkFrameMetadata sid status option_ None None).

Definition is_xudp_metadata (meta : FrameMetadata) : bool :=
  (session_id meta =? XUDP_SESSION_ID)
  && match target meta with Some (Udp, _) => true | _ => false end
  && (bool_decide (status meta = Keep)
      || (bool_decide (status meta = New) && bool_decide (is_Some (global_id meta)))).

Definition parse_frame (buf : bytes) : res ProxyError (FrameMetadata * option bytes * Z) :=
  if zlen buf <? 2 then Err (Protocol "mux: frame too short")
  else
    m0 ← idx buf 0; m1 ← idx buf 1;
    let meta_len := be_val [m0; m1] in
    if meta_len >? MAX_META_LEN then Err (Protocol "mux: invalid metadata length")
    else
      let need := 2 + meta_len in
      if zlen buf <? need then Err (Protocol "mux: truncated metadata")
      else
        mb ← slice buf 2 need;
        meta ← parse_metadata mb;
        if negb (Z.land (option_ meta) OPT_DATA =? 0) then
          if zlen buf <? need + 2 then Err (Protocol "mux: truncated payload length")
          else
            d0 ← idx buf need; d1 ← idx buf (need + 1);
            let data_len := be_val [d0; d1] in
            if data_len >? MAX_DATA_LEN then Err (Protocol "mux: invalid payload length")
            else
              let consumed := need + (2 + data_len) in
              if zlen buf <? consumed then Err (Protocol "mux: truncated payload")
              else
                p ← slice buf (need + 2) consumed;
                Ok (meta, Some p, consumed)
        else Ok (meta, None, need).

Definition read_mux_frame : parser ProxyError (FrameMetadata * option bytes) :=
  meta_len ← read_u16;
  if meta_len >? MAX_META_LEN then pfail (Protocol "mux: invalid metadata length")
  else
    meta_buf ← read_exact meta_len;
    meta ← plift (parse_metadata meta_buf);
    if negb (Z.land (option_ meta) OPT_DATA =? 0) then
      data_len ← read_u16;
      if data_len >? MAX_DATA_LEN then pfail (Protocol "mux: invalid payload length")
      else
        data ← (if data_len >? 0 then read_exact data_len else mret []);
        mret (meta, Some data)
    else mret (meta, None).

(** * Demultiplexer *)

(** What the relay does besides updating its tables.  A handle [h] names the
    upstream socket of a sub-connection and the reader task spawned for it. *)
Inductive MuxAction : Type :=
| TcpWrite (h : nat) (data : bytes)
| TcpShutdown (h : nat)
| UdpSend (h : nat) (data : bytes)
| UdpSendTo (h : nat) (data : bytes) (upstream : SocketAddr)
| Spawn (h : nat)
| AbortTask (h : nat).

Record MuxState : Type := mkMuxState {
  sessions : gmap Z nat;
  udp_sessions : gmap Z (nat * Address);
  xudp_sessions : gmap bytes nat;
  active_xudp : option bytes;
  next_handle : nat;
  live : gset nat;
  actions : list MuxAction;
}.

Definition mux_init : MuxState := mkMuxState ∅ ∅ ∅ None 0 ∅ [].

(** The outcomes of the operating system and of the dispatcher during one
    iteration of the loop. *)
Record MuxEnv : Type := mkMuxEnv {
  connect_outbound : Address -> option ProxyError;
  upstream_write : option IoKind;
  udp_bind : bool;
  udp_connect : bool;
  udp_send : bool;
  lookup_host : bytes -> Z -> option (list SocketAddr);
  upstream_held : nat -> bool; (* a reader task holds the mutex of this upstream *)
}.

Abbreviation muxM := (stE MuxState ProxyError).

Section demux.
Context (env : MuxEnv).

Definition resolve_udp_dest (dest : Address) : res ProxyError SocketAddr :=
  match dest with
  | Ipv4 ip p => Ok (mkSocketAddr (V4 ip) p)
  | Ipv6 ip p => Ok (mkSocketAddr (V6 ip) p)
  | Domain name p =>
      match lookup_host env name p with
      | None => Err (DnsResolutionFailed "lookup failed")
      | Some addrs => ok_or (head addrs) (DnsResolutionFailed "no address")
      end
  end.

Definition record (a : MuxAction) : muxM unit :=
  st_modify (fun st => mkMuxState (sessions st) (udp_sessions st) (xudp_sessions st)
                         (active_xudp st) (next_handle st) (live st) (actions st ++ [a])).

(** A new socket or stream and, later, its reader task share one handle. *)
Definition fresh_handle : muxM nat := fun st =>
  (mkMuxState (sessions st) (udp_sessions st) (xudp_sessions st) (active_xudp st)
     (S (next_handle st)) (live st) (actions st), Ok (next_handle st)).

Definition spawn (h : nat) : muxM unit := fun st =>
  (mkMuxState (sessions st) (udp_sessions st) (xudp_sessions st) (active_xudp st)
     (next_handle st) ({[h]} ∪ live st) (actions st ++ [Spawn h]), Ok tt).

Definition abort_task (h : nat) : muxM unit := fun st =>
  (mkMuxState (sessions st) (udp_sessions st) (xudp_sessions st) (active_xudp st)
     (next_handle st) (live st ∖ {[h]}) (actions st ++ [AbortTask h]), Ok tt).

Definition set_sessions (f : gmap Z nat -> gmap Z nat) : muxM unit :=
  st_modify (fun st => mkMuxState (f (sessions st)) (udp_sessions st) (xudp_sessions st)
                         (active_xudp st) (next_handle st) (live st) (actions st)).

Definition set_udp_sessions (f : gmap Z (nat * Address) -> gmap Z (nat * Address)) : muxM unit :=
  st_modify (fun st => mkMuxState (sessions st) (f (udp_sessions st)) (xudp_sessions st)
                         (active_xudp st) (next_handle st) (live st) (actions st)).

Definition set_xudp_sessions (f : gmap bytes nat -> gmap bytes nat) : muxM unit :=
  st_modify (fun st => mkMuxState (sessions st) (udp_sessions st) (f (xudp_sessions st))
                         (active_xudp st) (next_handle st) (live st) (actions st)).

Definition set_active_xudp (o : option bytes) : muxM unit :=
  st_modify (fun st => mkMuxState (sessions st) (udp_sessions st) (xudp_sessions st)
                         o (next_handle st) (live st) (actions st)).

(** [write_all] on a TCP upstream, [send] and [send_to] on a UDP socket. *)
Definition tcp_write (h : nat) (data : bytes) : muxM unit :=
  match upstream_write env with
  | None => record (TcpWrite h data)
  | Some k => st_fail (Io k)
  end.

(** [session.upstream.lock().await], shared with the reader task of the
    sub-connection; [NoFuel] is an await that does not complete. *)
Definition upstream_lock (h : nat) : muxM unit :=
  if upstream_held env h then st_lift NoFuel else mret tt.

Definition udp_send_ (h : nat) (data : bytes) (msg : string) : muxM unit :=
  if udp_send env then record (UdpSend h data) else st_fail (Transport msg).

Definition udp_send_to (h : nat) (data : bytes) (sa : SocketAddr) (msg : string) : muxM unit :=
  if udp_send env then record (UdpSendTo h data sa) else st_fail (Transport msg).

(** [if let Some(ref data) = payload { if !data.is_empty() { .. } }]. *)
Definition with_data (payload : option bytes) (k : bytes -> muxM unit) : muxM unit :=
  match payload with
  | Some data => if zlen data =? 0 then mret tt else k data
  | None => mret tt
  end.

(** A failed write whose error is dropped ([let _ = ..]). *)
Definition ignore_err (m : muxM unit) : muxM unit := fun st =>
  match m st with
  | (st', Err _) => (st', Ok tt)
  | r => r
  end.

Definition mux_new_xudp (meta : FrameMetadata) (payload : option bytes) : muxM unit :=
  match target meta with
  | None => st_fail (Protocol "mux: New without target")
  | Some (_, dest) =>
      match global_id meta with
      | None => st_lift Panic
      | Some gid =>
          old ← st_get (fun st => xudp_sessions st !! gid);
          _ ← set_xudp_sessions (delete gid);
          _ ← (match old with Some h => abort_task h | None => mret tt end);
          if negb (udp_bind env) then st_fail (Transport "xudp bind")
          else
            h ← fresh_handle;
            _ ← with_data payload (fun data =>
                  upstream ← st_lift (resolve_udp_dest dest);
                  udp_send_to h data upstream "xudp UDP send");
            _ ← spawn h;
            _ ← set_xudp_sessions <[gid := h]>;
            set_active_xudp (Some gid)
      end
  end.

Definition mux_new (meta : FrameMetadata) (payload : option bytes) : muxM unit :=
  if is_xudp_metadata meta then mux_new_xudp meta payload
  else
    match target meta with
    | None => st_fail (Protocol "mux: New without target")
    | Some (Tcp, dest) =>
        _ ← (match connect_outbound env dest with
             | Some e => st_fail e
             | None => mret tt
             end);
        h ← fresh_handle;
        _ ← with_data payload (tcp_write h);
        _ ← spawn h;
        set_sessions <[session_id meta := h]>
    | Some (Udp, dest) =>
        if negb (udp_bind env) then st_fail (Transport "mux UDP bind")
        else
          h ← fresh_handle;
          _ ← st_lift (resolve_udp_dest dest);
          if negb (udp_connect env) then st_fail (Transport "mux UDP connect")
          else
            _ ← with_data payload (fun data => udp_send_ h data "mux UDP send");
            _ ← spawn h;
            set_udp_sessions <[session_id meta := (h, dest)]>
    end.

Definition mux_keep (meta : FrameMetadata) (payload : option bytes) : muxM unit :=
  match target meta with
  | Some (Udp, dest) =>
      if session_id meta =? XUDP_SESSION_ID then
        gid ← st_get active_xudp;
        match gid with
        | None => mret tt
        | Some gid =>
            s ← st_get (fun st => xudp_sessions st !! gid);
            match s with
            | None => mret tt
            | Some h => with_data payload (fun data =>
                upstream ← st_lift (resolve_udp_dest dest);
                udp_send_to h data upstream "xudp UDP send")
            end
        end
      else
        s ← st_get (fun st => udp_sessions st !! session_id meta);
        match s with
        | None => mret tt
        | Some (h, d) => with_data payload (fun data =>
            if bool_decide (dest = d) then udp_send_ h data "mux UDP send"
            else
              upstream ← st_lift (resolve_udp_dest dest);
              udp_send_to h data upstream "mux UDP send")
        end
  | _ =>
      s ← st_get (fun st => sessions st !! session_id meta);
      match s with
      | Some h => with_data payload (fun data => _ ← upstream_lock h; tcp_write h data)
      | None =>
          u ← st_get (fun st => udp_sessions st !! session_id meta);
          match u with
          | Some (h, _) => with_data payload (fun data => udp_send_ h data "mux UDP send")
          | None => mret tt
          end
      end
  end.

(** The second lock, for the shutdown, is taken after the task was aborted, so
    it is free. *)
Definition mux_end (meta : FrameMetadata) (payload : option bytes) : muxM unit :=
  let sid := session_id meta in
  s ← st_get (fun st => sessions st !! sid);
  u ← st_get (fun st => udp_sessions st !! sid);
  _ ← with_data payload (fun data =>
        match s, u with
        | Some h, _ => _ ← upstream_lock h; ignore_err (tcp_write h data)
        | None, Some (h, _) => ignore_err (udp_send_ h data "mux UDP send")
        | None, None => mret tt
        end);
  _ ← set_sessions (delete sid);
  _ ← (match s with
       | Some h => _ ← abort_task h; record (TcpShutdown h)
       | None => mret tt
       end);
  _ ← set_udp_sessions (delete sid);
  _ ← (match u with Some (h, _) => abort_task h | None => mret tt end);
  if sid =? XUDP_SESSION_ID then
    gid ← st_get active_xudp;
    _ ← set_active_xudp None;
    match gid with
    | None => mret tt
    | Some gid =>
        x ← st_get (fun st => xudp_sessions st !! gid);
        _ ← set_xudp_sessions (delete gid);
        match x with Some h => abort_task h | None => mret tt end
    end
  else mret tt.

Definition mux_step (frame : FrameMetadata * option bytes) : muxM unit :=
  let (meta, payload) := frame in
  match status meta with
  | New => mux_new meta payload
  | Keep => mux_keep meta payload
  | End_ => mux_end meta payload
  | KeepAlive => mret tt
  end.

End demux.

(** The handles of the three tables, whose tasks the relay aborts at its end. *)
Definition registered (st : MuxState) : list nat :=
  (snd <$> map_to_list (sessions st))
  ++ ((fun e => fst (snd e)) <$> map_to_list (udp_sessions st))
  ++ (snd <$> map_to_list (xudp_sessions st)).

Definition abort_all (st : MuxState) : MuxState :=
  foldl (fun st h => fst (abort_task h st)) st (registered st).

(** One iteration of the loop of [relay_mux_cool]: what is left of the stream,
    [None] when it has ended and the tasks were aborted; [NoFuel] when it waits
    for a lock. *)
Definition relay_turn (env : MuxEnv) (stream : bytes) (st : MuxState) : MuxState * res ProxyError (option bytes) :=
  match read_mux_frame stream with
  | Ok (frame, stream) =>
      match mux_step env frame st with
      | (st, Ok _) => (st, Ok (Some stream))
      | (st, Err e) => (st, Err e)
      | (st, Panic) => (st, Panic)
      | (st, NoFuel) => (st, NoFuel)
      end
  | Err (Protocol m) => (st, Err (Protocol m))
  | Err _ => (abort_all st, Ok None)
  | Panic => (st, Panic)
  | NoFuel => (st, NoFuel)
  end.

(** The loop, when its reader tasks do not run meanwhile; [envs i] is the
    environment of the [i]-th iteration. *)
Fixpoint relay_loop (fuel : nat) (envs : nat -> MuxEnv) (i : nat) (stream : bytes) (st : MuxState)
  : MuxState * res ProxyError unit :=
  match fuel with
  | O => (st, NoFuel)
  | S fuel =>
      match relay_turn (envs i) stream st with
      | (st, Ok (Some stream)) => relay_loop fuel envs (S i) stream st
      | (st, Ok None) => (st, Ok tt)
      | (st, Err e) => (st, Err e)
      | (st, Panic) => (st, Panic)
      | (st, NoFuel) => (st, NoFuel)
      end
  end.

(** Every frame takes at least two bytes of the stream. *)
Definition relay_mux_cool (envs : nat -> MuxEnv) (stream : bytes) : MuxState * res ProxyError unit :=
  relay_loop (S (length stream)) envs 0 stream mux_init.

(** * Theorems: frames *)

Lemma status_of_byte s : SessionStatus_from_byte (status_byte s) = Ok s.
Proof. by destruct s. Qed.

Lemma slice_from_head {E} (l k : bytes) : slice_from (E:=E) (l ++ k) (zlen l) = Ok k.
Proof. by apply slice_from_app. Qed.

(** Parsing of the fixed part of the metadata. *)
Lemma parse_metadata_fixed sid s opt rest :
  is_u 16 sid ->
  parse_metadata (be_bytes 2 sid ++ status_byte s :: opt :: rest)
  = if bool_decide (s = New) then
      if zlen rest =? 0 then Err (Protocol "mux: New missing target")
      else
        nb ← idx rest 0;
        network ← TargetNetwork_from_byte nb;
        rest ← slice_from rest 1;
        '(addr, consumed) ← decode_address_port_with_len rest;
        rest ← slice_from rest consumed;
        rest ← (if bool_decide (network = Tcp) then skip_mux_inbound_extensions rest else Ok rest);
        gid ← (if bool_decide (network = Udp) && negb (Z.land opt OPT_DATA =? 0)
                  && (zlen rest >=? 8)
               then g ← slice rest 0 8; Ok (Some g)
               else Ok None);
        Ok (mkFrameMetadata sid s opt (Some (network, addr)) gid)
    else if bool_decide (s = Keep) && negb (zlen rest =? 0) then
      nb ← idx rest 0;
      match TargetNetwork_from_byte nb with
      | Ok Udp =>
          rest ← slice_from rest 1;
          '(addr, _) ← decode_address_port_with_len rest;
          Ok (mkFrameMetadata sid s opt (Some (Udp, addr)) None)
      | _ => Ok (mkFrameMetadata sid s opt None None)
      end
    else Ok (mkFrameMetadata sid s opt None None).
Proof.
  intros Hs. rewrite be_bytes_2. unfold parse_metadata. zcase. simpl app.
  do 3 (erewrite rbind_ok; [| done]).
  rewrite status_of_byte. erewrite rbind_ok; [| done]. erewrite rbind_ok; [| done].
  erewrite rbind_ok; [| apply (slice_from_app [_; _; _; _]); done].
  by rewrite be_val_2_port.
Qed.

(** The metadata a sender of sub-connection frames can build, by kind. *)
Inductive MetaKind : Type :=
| KNew (sid : Z) (dest : Address)
| KEnd (sid : Z)
| KNewXudp (dest : Address) (gid : bytes)
| KKeepUdp (sid : Z) (dest : Address)
| KKeep (sid : Z).

Definition encode_meta (k : MetaKind) (opt : Z) : res ProxyError bytes :=
  match k with
  | KNew sid dest => encode_new_metadata sid dest opt
  | KEnd sid => Ok (encode_end_metadata sid opt)
  | KNewXudp dest gid => encode_new_metadata_xudp dest gid opt
  | KKeepUdp sid dest => encode_keep_metadata_udp sid dest opt
  | KKeep sid => Ok (encode_keep_metadata sid opt)
  end.

(** What the receiver should make of it. *)
Definition meta_of (k : MetaKind) (opt : Z) : FrameMetadata :=
  match k with
  | KNew sid dest => mkFrameMetadata sid New opt (Some (Tcp, dest)) None
  | KEnd sid => mkFrameMetadata sid End_ opt None None
  | KNewXudp dest gid =>
      mkFrameMetadata 0 New opt (Some (Udp, dest))
        (if Z.land opt OPT_DATA =? 0 then None else Some gid)
  | KKeepUdp sid dest => mkFrameMetadata sid Keep opt (Some (Udp, dest)) None
  | KKeep sid => mkFrameMetadata sid Keep opt None None
  end.

Definition wf_kind (k : MetaKind) : Prop :=
  match k with
  | KNew sid dest | KKeepUdp sid dest => is_u 16 sid /\ wf_address dest
  | KEnd sid | KKeep sid => is_u 16 sid
  | KNewXudp dest gid => wf_address dest /\ zlen gid = 8
  end.

#[global] Instance wf_kind_dec k : Decision (wf_kind k).
Proof. destruct k; simpl; apply _. Defined.

Lemma encode_address_port_nonempty a enc : encode_address_port a = Ok enc -> 3 <= zlen enc.
Proof.
  destruct a; simpl; intros H; [injection H as <-; len_solve.. |].
  apply rbind_inv in H as (m & _ & [= <-]). len_solve.
Qed.

Lemma decode_addr_tail dest a tail :
  wf_address dest -> encode_address_port dest = Ok a ->
  ('(addr, consumed) ← decode_address_port_with_len (a ++ tail);
   rest ← slice_from (E:=ProxyError) (a ++ tail) consumed; Ok (addr, rest)) = Ok (dest, tail).
Proof.
  intros Hw Ha. rewrite (vless_address_port_body dest a tail) by done. simpl.
  by rewrite slice_from_head.
Qed.

(** Metadata round trip.  For each of the five metadata builders, with
    every option byte, the parser recovers session id, status, option, target
    and, when the data bit is set, the GlobalID. *)
Theorem mux_metadata_roundtrip (k : MetaKind) (opt : Z) (meta : bytes) :
  wf_kind k -> encode_meta k opt = Ok meta -> parse_metadata meta = Ok (meta_of k opt).
Proof.
  intros Hk He. destruct k as [sid dest | sid | dest gid | sid dest | sid]; simpl in Hk, He.
  - destruct Hk as [Hs Hw]. apply rbind_inv in He as (a & Ha & [= <-]). simpl.
    etransitivity; [exact (parse_metadata_fixed sid New opt (1 :: a) ltac:(done)) |].
    simpl. erewrite rbind_ok; [| apply (slice_from_app [1]); done].
    rewrite <- (app_nil_r a). rewrite (vless_address_port_body dest a []) by done. simpl.
    by rewrite slice_from_head.
  - injection He as <-. by apply (parse_metadata_fixed sid End_ opt []).
  - destruct Hk as [Hw Hg]. apply rbind_inv in He as (a & Ha & [= <-]). simpl.
    etransitivity; [exact (parse_metadata_fixed 0 New opt (2 :: a ++ gid) ltac:(done)) |].
    simpl. erewrite rbind_ok; [| apply (slice_from_app [2]); done].
    rewrite (vless_address_port_body dest a gid) by done. simpl.
    rewrite slice_from_head. simpl.
    destruct (Z.land opt OPT_DATA =? 0); simpl; [done |]. zcase.
    rewrite <- (app_nil_r gid) at 1. by rewrite (slice_app3 [] gid []) by (done || len_solve).
  - destruct Hk as [Hs Hw]. apply rbind_inv in He as (a & Ha & [= <-]). simpl.
    etransitivity; [exact (parse_metadata_fixed sid Keep opt (2 :: a) ltac:(done)) |].
    simpl. erewrite rbind_ok; [| apply (slice_from_app [2]); done].
    rewrite <- (app_nil_r a). by rewrite (vless_address_port_body dest a []).
  - injection He as <-. by apply (parse_metadata_fixed sid Keep opt []).
Qed.

Lemma mux_metadata_roundtrip_witness :
  parse_metadata ([0; 0; 1; 1; 2; 0; 53; 1; 8; 8; 8; 8] ++ repeat 7 8)
  = Ok (meta_of (KNewXudp (Ipv4 [8; 8; 8; 8] 53) (repeat 7 8)) 1).
Proof.
  apply (mux_metadata_roundtrip (KNewXudp (Ipv4 [8; 8; 8; 8] 53) (repeat 7 8)) 1).
  - apply (bool_decide_unpack _). vm_compute. exact I.
  - vm_compute. reflexivity.
Defined.

(** The payload field matches the data bit of the option byte. *)
Definition payload_agrees (m : FrameMetadata) (payload : option bytes) : Prop :=
  Z.land (option_ m) OPT_DATA = 0 <-> payload = None.

Lemma parse_frame_fields meta m (dl : Z) (data rest : bytes) :
  parse_metadata meta = Ok m -> zlen meta <= MAX_META_LEN ->
  Z.land (option_ m) OPT_DATA <> 0 -> is_u 16 dl -> dl = zlen data ->
  parse_frame (be_bytes 2 (zlen meta) ++ meta ++ be_bytes 2 dl ++ data ++ rest)
  = Ok (m, Some data, 4 + zlen meta + zlen data)
  /\ read_mux_frame (be_bytes 2 (zlen meta) ++ meta ++ be_bytes 2 dl ++ data ++ rest)
     = Ok ((m, Some data), rest).
Proof.
  intros Hm Hl Ho Hdl Hd. unfold MAX_META_LEN in Hl.
  assert (Hbit : (Z.land (option_ m) OPT_DATA =? 0) = false) by (by apply Z.eqb_neq).
  assert (Hl16 : is_u 16 (zlen meta)) by len_solve. split.
  - unfold parse_frame. zcase. rewrite (be_bytes_2 (zlen meta)). simpl.
    rewrite be_val_2_port by done. unfold MAX_META_LEN, MAX_DATA_LEN in *. zcase. zcase.
    erewrite rbind_ok; [| apply (slice_app3 [_; _]); [done | len_solve]].
    rewrite Hm. simpl. rewrite Hbit. simpl. zcase.
    rewrite (be_bytes_2 dl). simpl.
    erewrite rbind_ok; [| apply (idx_app_mid (_ :: _ :: meta)); len_solve].
    erewrite rbind_ok; [| apply (idx_shift (_ :: _ :: meta) _ _ 1); [done | len_solve]].
    rewrite be_val_2_port by done. zcase. zcase.
    erewrite rbind_ok;
      [| eapply (slice_split _ (_ :: _ :: meta ++ [_; _]) data rest);
         [simpl; by rewrite <- app_assoc | len_solve | len_solve]].
    do 2 f_equal. lia.
  - unfold read_mux_frame, MAX_META_LEN, MAX_DATA_LEN. pstep. zcase. pstep.
    erewrite pbind_ok; [| by rewrite Hm]. rewrite Hbit. simpl. pstep. zcase.
    zcase; [by pstep |]. destruct data; [done | len_solve].
Qed.

Lemma parse_frame_no_data meta m (rest : bytes) :
  parse_metadata meta = Ok m -> zlen meta <= MAX_META_LEN -> Z.land (option_ m) OPT_DATA = 0 ->
  parse_frame (be_bytes 2 (zlen meta) ++ meta ++ rest) = Ok (m, None, 2 + zlen meta)
  /\ read_mux_frame (be_bytes 2 (zlen meta) ++ meta ++ rest) = Ok ((m, None), rest).
Proof.
  intros Hm Hl Ho. unfold MAX_META_LEN in Hl. apply Z.eqb_eq in Ho.
  assert (Hl16 : is_u 16 (zlen meta)) by len_solve. split.
  - unfold parse_frame. zcase. rewrite (be_bytes_2 (zlen meta)). simpl.
    rewrite be_val_2_port by done. unfold MAX_META_LEN in *. zcase. zcase.
    erewrite rbind_ok; [| apply (slice_app3 [_; _]); [done | len_solve]].
    rewrite Hm. simpl. by rewrite Ho.
  - unfold read_mux_frame, MAX_META_LEN. pstep. zcase. pstep.
    erewrite pbind_ok; [| by rewrite Hm]. by rewrite Ho.
Qed.

(** Frame round trip.  A frame whose payload is present exactly when the
    data bit is set and fits the sixteen-bit length field is recovered by both
    the buffer parser, with the right byte count, and the stream reader, which
    leaves the following frames untouched. *)
Theorem mux_frame_roundtrip (meta frame rest : bytes) (m : FrameMetadata) (payload : option bytes) :
  parse_metadata meta = Ok m -> payload_agrees m payload ->
  (forall d, payload = Some d -> zlen d < 2 ^ 16) ->
  encode_frame meta payload = Ok frame ->
  parse_frame (frame ++ rest) = Ok (m, payload, zlen frame)
  /\ read_mux_frame (frame ++ rest) = Ok ((m, payload), rest).
Proof.
  intros Hm Hag Hfit He. unfold encode_frame in He. zcase_in He. unfold wrap, MAX_META_LEN in *.
  rewrite (Z.mod_small (zlen meta)) in He by len_solve.
  destruct payload as [data |].
  - zcase_in He. injection He as <-. specialize (Hfit data eq_refl).
    rewrite Z.mod_small, <- !app_assoc by len_solve.
    assert (Z.land (option_ m) OPT_DATA <> 0) by (intros ?%Hag; done).
    destruct (parse_frame_fields meta m (zlen data) data rest) as [Hp Hr];
      [done | done | done | len_solve | done |].
    rewrite Hp, Hr. split; [| done]. do 2 f_equal. len_solve.
  - injection He as <-. rewrite <- app_assoc.
    destruct (parse_frame_no_data meta m rest) as [Hp Hr]; [done | done | by apply Hag |].
    rewrite Hp, Hr. split; [| done]. do 2 f_equal. len_solve.
Qed.

Lemma mux_frame_roundtrip_witness :
  parse_frame ([0; 4; 0; 5; 2; 1; 0; 2; 65; 66] ++ [9])
    = Ok (mkFrameMetadata 5 Keep 1 None None, Some [65; 66], 10)
  /\ read_mux_frame ([0; 4; 0; 5; 2; 1; 0; 2; 65; 66] ++ [9])
    = Ok ((mkFrameMetadata 5 Keep 1 None None, Some [65; 66]), [9]).
Proof.
  apply (mux_frame_roundtrip [0; 5; 2; 1] [0; 4; 0; 5; 2; 1; 0; 2; 65; 66] [9]
           (mkFrameMetadata 5 Keep 1 None None) (Some [65; 66])).
  - vm_compute. reflexivity.
  - split; discriminate.
  - intros d [= <-]. vm_compute. reflexivity.
  - vm_compute. reflexivity.
Defined.

(** Payloads between 64 KiB and the 512 KiB limit are accepted by the
    encoder but not transported: the length field keeps the size modulo
    [2^16], so the receiver gets a strict prefix of the payload and takes the
    rest of it for the next frame. *)
Theorem mux_long_payload_truncated (meta data : bytes) (m : FrameMetadata) :
  parse_metadata meta = Ok m -> zlen meta <= MAX_META_LEN -> Z.land (option_ m) OPT_DATA <> 0 ->
  2 ^ 16 <= zlen data <= MAX_DATA_LEN ->
  exists frame cut tail, encode_frame meta (Some data) = Ok frame
    /\ data = cut ++ tail /\ zlen cut = zlen data mod 2 ^ 16 /\ tail <> []
    /\ read_mux_frame frame = Ok ((m, Some cut), tail).
Proof.
  intros Hm Hl Ho Hd. assert (Hb : 0 <= zlen data mod 2 ^ 16 < 2 ^ 16) by (apply Z.mod_pos_bound; lia).
  destruct (split_at data (zlen data mod 2 ^ 16)) as (cut & tail & Hct & Hcut); [lia |].
  unfold encode_frame. unfold MAX_META_LEN in *. zcase. zcase. unfold wrap.
  rewrite (Z.mod_small (zlen meta)) by len_solve.
  eexists _, cut, tail. split; [done |]. split; [done |]. split; [done |]. split.
  - intros ->. rewrite app_nil_r in Hct. subst cut. lia.
  - rewrite <- !app_assoc, Hct at 1. rewrite Hct in Hb, Hcut.
    destruct (parse_frame_fields meta m (zlen (cut ++ tail) mod 2 ^ 16) cut tail) as [_ Hr];
      [done | done | done | done | done |]. rewrite Hct. exact Hr.
Qed.

Lemma repeat_len {A} (x : A) n : zlen (repeat x n) = Z.of_nat n.
Proof. unfold zlen. by rewrite repeat_length. Qed.

Lemma mux_long_payload_truncated_witness :
  exists frame cut tail, encode_frame [0; 5; 2; 1] (Some (repeat 0 (Z.to_nat 70000))) = Ok frame
    /\ repeat 0 (Z.to_nat 70000) = cut ++ tail
    /\ zlen cut = zlen (repeat 0 (Z.to_nat 70000)) mod 2 ^ 16 /\ tail <> []
    /\ read_mux_frame frame = Ok ((mkFrameMetadata 5 Keep 1 None None, Some cut), tail).
Proof.
  apply (mux_long_payload_truncated [0; 5; 2; 1] (repeat 0 (Z.to_nat 70000))
           (mkFrameMetadata 5 Keep 1 None None)).
  - vm_compute. reflexivity.
  - vm_compute. discriminate.
  - vm_compute. discriminate.
  - rewrite repeat_len. unfold MAX_DATA_LEN. lia.
Defined.

(** * Theorems: the demultiplexer *)

(** A reader task the relay can still abort. *)
Definition Registered (st : MuxState) (h : nat) : Prop :=
  (exists s, sessions st !! s = Some h)
  \/ (exists s d, udp_sessions st !! s = Some (h, d))
  \/ (exists g, xudp_sessions st !! g = Some h).

(** Invariant: no reader task runs outside the tables. *)
Definition no_orphan (st : MuxState) : Prop := forall h, h ∈ live st -> Registered st h.

Lemma registered_spec st h : h ∈ registered st <-> Registered st h.
Proof.
  unfold registered, Registered. rewrite !elem_of_app, !list_elem_of_fmap. split.
  - intros [([s h'] & -> & H%elem_of_map_to_list) | [([s [h' d]] & -> & H%elem_of_map_to_list)
      | ([g h'] & -> & H%elem_of_map_to_list)]]; simpl; eauto 6.
  - intros [[s H] | [(s & d & H) | [g H]]]; apply elem_of_map_to_list in H.
    + left. by exists (s, h).
    + right. left. by exists (s, (h, d)).
    + right. right. by exists (g, h).
Qed.

Lemma abort_fold_live l st :
  live (foldl (fun st h => fst (abort_task h st)) st l) = live st ∖ list_to_set l.
Proof. revert st. induction l as [| h l IH]; intros st; simpl; [set_solver |]. rewrite IH. simpl. set_solver. Qed.

Lemma abort_all_no_live st : no_orphan st -> live (abort_all st) = ∅.
Proof.
  intros H. unfold abort_all. rewrite abort_fold_live. apply leibniz_equiv.
  intros h. split; [| set_solver]. intros [Hl Hn]%elem_of_difference.
  destruct Hn. apply elem_of_list_to_set, registered_spec. by apply H.
Qed.

(** Two states that differ in the recorded actions only. *)
Definition same_tables (st st' : MuxState) : Prop :=
  sessions st' = sessions st /\ udp_sessions st' = udp_sessions st
  /\ xudp_sessions st' = xudp_sessions st /\ active_xudp st' = active_xudp st
  /\ live st' = live st.

Lemma same_tables_no_orphan st st' : same_tables st st' -> no_orphan st -> no_orphan st'.
Proof.
  intros (Hs & Hu & Hx & _ & Hl) H h. rewrite Hl. unfold Registered. rewrite Hs, Hu, Hx. apply H.
Qed.

Lemma with_data_frame payload k st st' :
  (forall d s s', k d s = (s', Ok tt) -> same_tables s s') ->
  with_data payload k st = (st', Ok tt) -> same_tables st st'.
Proof.
  intros Hk H. destruct payload as [d |]; simpl in H; [destruct (zlen d =? 0) |];
    [by injection H as <- | by eapply Hk | by injection H as <-].
Qed.

Ltac frame_tac :=
  repeat match goal with
  | H : (if ?b then _ else _) _ = _ |- _ => destruct b
  | H : _ _ = (_, Ok _) |- _ => progress (unfold record, st_modify, st_fail in H)
  | H : (_, _) = (_, Ok _) |- _ => injection H as <-; subst
  end; try done.

Lemma tcp_write_frame env h d st st' :
  tcp_write env h d st = (st', Ok tt) -> same_tables st st'.
Proof. unfold tcp_write. intros H. destruct (upstream_write env); frame_tac. Qed.

Lemma lock_write_frame env h d st st' :
  (_ ← upstream_lock env h; tcp_write env h d) st = (st', Ok tt) -> same_tables st st'.
Proof.
  intros H. sinv H. unfold upstream_lock in Hv. destruct (upstream_held env h); [done |].
  injection Hv as <-. by apply tcp_write_frame in H.
Qed.

Lemma udp_send_frame env h d msg st st' :
  udp_send_ env h d msg st = (st', Ok tt) -> same_tables st st'.
Proof. unfold udp_send_. intros H. frame_tac. Qed.

Lemma udp_send_to_frame env h d sa msg st st' :
  udp_send_to env h d sa msg st = (st', Ok tt) -> same_tables st st'.
Proof. unfold udp_send_to. intros H. frame_tac. Qed.

Lemma resolve_send_frame env dest h d msg st st' :
  (upstream ← st_lift (resolve_udp_dest env dest); udp_send_to env h d upstream msg) st
  = (st', Ok tt) -> same_tables st st'.
Proof.
  intros H. sinv H. unfold st_lift in Hv. injection Hv as <- ?. by apply udp_send_to_frame in H.
Qed.

Lemma ignore_err_frame m st st' :
  (forall s s' r, m s = (s', r) -> same_tables s s') ->
  ignore_err m st = (st', Ok tt) -> same_tables st st'.
Proof.
  intros Hm. unfold ignore_err. destruct (m st) as [s r] eqn:Hs. apply Hm in Hs.
  destruct r; intros H; by injection H as <-.
Qed.

Lemma mux_keep_frame env meta payload st st' :
  mux_keep env meta payload st = (st', Ok tt) -> same_tables st st'.
Proof.
  unfold mux_keep. intros H.
  destruct (target meta) as [[[] dest] |].
  2: destruct (session_id meta =? XUDP_SESSION_ID).
  all: sinv H; injection Hv as <- <-.
  - destruct (sessions st !! session_id meta).
    + eapply with_data_frame, H. intros d s s'. apply lock_write_frame.
    + sinv H. injection Hv as <- <-. destruct (udp_sessions st !! _) as [[] |]; [| by injection H as <-].
      eapply with_data_frame, H. intros d s s'. apply udp_send_frame.
  - destruct (active_xudp st); [| by injection H as <-]. sinv H. injection Hv as <- <-.
    destruct (xudp_sessions st !! _); [| by injection H as <-].
    eapply with_data_frame, H. intros d s s'. apply resolve_send_frame.
  - destruct (udp_sessions st !! _) as [[] |]; [| by injection H as <-].
    eapply with_data_frame, H. intros d s s'. case_bool_decide;
      [apply udp_send_frame | apply resolve_send_frame].
  - destruct (sessions st !! session_id meta).
    + eapply with_data_frame, H. intros d s s'. apply lock_write_frame.
    + sinv H. injection Hv as <- <-. destruct (udp_sessions st !! _) as [[] |]; [| by injection H as <-].
      eapply with_data_frame, H. intros d s s'. apply udp_send_frame.
Qed.

(** A [New] frame for a session id that is still open. *)
Definition reopens (st : MuxState) (meta : FrameMetadata) : bool :=
  bool_decide (status meta = New) && negb (is_xudp_metadata meta)
  && match target meta with
     | Some (Tcp, _) => bool_decide (is_Some (sessions st !! session_id meta))
     | Some (Udp, _) => bool_decide (is_Some (udp_sessions st !! session_id meta))
     | None => false
     end.

Lemma mux_new_xudp_no_orphan env meta payload st st' :
  mux_new_xudp env meta payload st = (st', Ok tt) -> no_orphan st -> no_orphan st'.
Proof.
  unfold mux_new_xudp. destruct (target meta) as [[n dest] |]; [| done].
  destruct (global_id meta) as [gid |]; [| done]. intros H Hno. sinv H.
  injection Hv as <- <-. injection Hv0 as <-.
  destruct (udp_bind env); [simpl in H | done]. sinv H. injection Hv as <- <-.
  apply with_data_frame in Hv0; [| intros d s s'; apply resolve_send_frame].
  injection Hv2 as <-. injection Hv3 as <-. injection H as <-.
  destruct Hv0 as (Hs & Hu & Hx & _ & Hl). intros h Hh. unfold Registered. simpl in *.
  rewrite Hs, Hu, Hx. rewrite Hl in Hh. clear Hs Hu Hx Hl.
  destruct (decide (h = next_handle st2)) as [-> | Hne].
  { right. right. exists gid. apply lookup_insert_eq. }
  assert (Hlive : h ∈ live st2) by set_solver.
  destruct (xudp_sessions st !! gid) as [old |] eqn:Hold; injection Hv1 as <-; simpl in *.
  - destruct (Hno h) as [? | [? | [g Hg]]]; [set_solver | by left | by right; left |].
    right. right. exists g. rewrite lookup_insert_ne, lookup_delete_ne; [done | |]; congruence || set_solver.
  - destruct (Hno h) as [? | [? | [g Hg]]]; [set_solver | by left | by right; left |].
    right. right. exists g. rewrite lookup_insert_ne, lookup_delete_ne; [done | |]; congruence.
Qed.

Lemma mux_new_no_orphan env meta payload st st' :
  status meta = New -> reopens st meta = false ->
  mux_new env meta payload st = (st', Ok tt) -> no_orphan st -> no_orphan st'.
Proof.
  intros Hnew Hre H Hno. unfold mux_new, reopens in *. rewrite Hnew in Hre. simpl in Hre.
  destruct (is_xudp_metadata meta); [by eapply mux_new_xudp_no_orphan |]. simpl in Hre.
  destruct (target meta) as [[[] dest] |]; [| | done];
    apply bool_decide_eq_false in Hre; rewrite <- eq_None_not_Some in Hre.
  - destruct (connect_outbound env dest); [done |]. sinv H. injection Hv as <-. injection Hv0 as <- <-.
    apply with_data_frame in Hv1; [| intros d s s'; apply tcp_write_frame].
    injection Hv2 as <-. injection H as <-. destruct Hv1 as (Hs & Hu & Hx & _ & Hl).
    intros h Hh. unfold Registered. simpl in *. rewrite Hs, Hu, Hx. rewrite Hl in Hh.
    apply elem_of_union in Hh as [->%elem_of_singleton | Hh].
    { left. exists (session_id meta). apply lookup_insert_eq. }
    destruct (Hno h Hh) as [[s Hsh] | ?]; [| by right].
    left. exists s. rewrite lookup_insert_ne; [done | congruence].
  - destruct (udp_bind env); [simpl in H | done]. sinv H. injection Hv as <- <-.
    injection Hv0 as <- Hr. destruct (udp_connect env); [simpl in H | done]. sinv H.
    apply with_data_frame in Hv; [| intros d s s'; apply udp_send_frame].
    injection Hv0 as <-. injection H as <-. destruct Hv as (Hs & Hu & Hx & _ & Hl).
    intros h Hh. unfold Registered. simpl in *. rewrite Hs, Hu, Hx. rewrite Hl in Hh.
    apply elem_of_union in Hh as [->%elem_of_singleton | Hh].
    { right. left. exists (session_id meta), dest. apply lookup_insert_eq. }
    destruct (Hno h Hh) as [? | [(s & d & Hsh) | ?]]; [by left | | by right; right].
    right. left. exists s, d. rewrite lookup_insert_ne; [done | congruence].
Qed.

(** Removing an entry and aborting its task keeps the invariant, table by table. *)
Lemma end_session_no_orphan sid s st st' :
  s = sessions st !! sid ->
  (_ ← set_sessions (delete sid);
   match s with
   | Some h => _ ← abort_task h; record (TcpShutdown h)
   | None => mret tt
   end) st = (st', Ok tt) ->
  no_orphan st ->
  no_orphan st' /\ udp_sessions st' = udp_sessions st /\ xudp_sessions st' = xudp_sessions st
  /\ active_xudp st' = active_xudp st.
Proof.
  intros -> H Hno. sinv H. injection Hv as <-.
  destruct (sessions st !! sid) as [h0 |] eqn:Hs; [sinv H; injection Hv as <- |];
    injection H as <-; (split; [| done]); intros h Hh; unfold Registered; simpl in *.
  - destruct (Hno h) as [[s Hsh] | ?]; [set_solver | | by right].
    left. exists s. rewrite lookup_delete_ne; [done |]. intros ->. set_solver.
  - destruct (Hno h Hh) as [[s Hsh] | ?]; [| by right].
    left. exists s. rewrite lookup_delete_ne; [done |]. congruence.
Qed.

Lemma end_udp_no_orphan sid u st st' :
  u = udp_sessions st !! sid ->
  (_ ← set_udp_sessions (delete sid);
   match u with Some (h, _) => abort_task h | None => mret tt end) st = (st', Ok tt) ->
  no_orphan st -> no_orphan st'.
Proof.
  intros -> H Hno. sinv H. injection Hv as <-.
  destruct (udp_sessions st !! sid) as [[h0 d0] |] eqn:Hs;
    injection H as <-; intros h Hh; unfold Registered; simpl in *.
  - destruct (Hno h) as [? | [(s & d & Hsh) | ?]]; [set_solver | by left | | by right; right].
    right. left. exists s, d. rewrite lookup_delete_ne; [done |]. intros ->. set_solver.
  - destruct (Hno h Hh) as [? | [(s & d & Hsh) | ?]]; [by left | | by right; right].
    right. left. exists s, d. rewrite lookup_delete_ne; [done |]. congruence.
Qed.

Lemma end_xudp_no_orphan st st' :
  (gid ← st_get active_xudp;
   _ ← set_active_xudp None;
   match gid with
   | None => mret tt
   | Some gid =>
       x ← st_get (fun st => xudp_sessions st !! gid);
       _ ← set_xudp_sessions (delete gid);
       match x with Some h => abort_task h | None => mret tt end
   end) st = (st', Ok tt) -> no_orphan st -> no_orphan st'.
Proof.
  intros H Hno. sinv H. injection Hv as <- <-. injection Hv0 as <-.
  destruct (active_xudp st) as [gid |]; [| by injection H as <-].
  sinv H. injection Hv as <- <-. injection Hv0 as <-. simpl in H.
  destruct (xudp_sessions st !! gid) as [h0 |] eqn:Hs;
    injection H as <-; intros h Hh; unfold Registered; simpl in *.
  - destruct (Hno h) as [? | [? | [g Hg]]]; [set_solver | by left | by right; left |].
    right. right. exists g. rewrite lookup_delete_ne; [done |]. intros ->. set_solver.
  - destruct (Hno h Hh) as [? | [? | [g Hg]]]; [by left | by right; left |].
    right. right. exists g. rewrite lookup_delete_ne; [done |]. congruence.
Qed.

Lemma tcp_write_any env h d st st' r : tcp_write env h d st = (st', r) -> same_tables st st'.
Proof. unfold tcp_write. destruct (upstream_write env); intros [= <- <-]; done. Qed.

Lemma udp_send_any env h d msg st st' r : udp_send_ env h d msg st = (st', r) -> same_tables st st'.
Proof. unfold udp_send_. destruct (udp_send env); intros [= <- <-]; done. Qed.

(** Re-associates two consecutive steps. *)
Lemma sbind_assoc {S E A B C} (m : stE S E A) (f : A -> stE S E B) (g : B -> stE S E C) s s' c :
  (x ← m; y ← f x; g y) s = (s', Ok c) -> exists y s1, (x ← m; f x) s = (s1, Ok y) /\ g y s1 = (s', Ok c).
Proof.
  intros H. sinv H. eexists _, _. split; [| exact H].
  unfold mbind, stE_bind. by rewrite Hv.
Qed.

Lemma mux_end_no_orphan env meta payload st st' :
  mux_end env meta payload st = (st', Ok tt) -> no_orphan st -> no_orphan st'.
Proof.
  unfold mux_end. intros H Hno. apply sbind_inv in H as (s & st0 & Hs & H). injection Hs as <- <-.
  apply sbind_inv in H as (u & st0 & Hu & H). injection Hu as <- <-.
  apply sbind_inv in H as ([] & st1 & Hd & H).
  assert (Hfr : same_tables st st1).
  { eapply with_data_frame, Hd. intros d s s'.
    destruct (sessions st !! _) as [h |].
    { intros Hw. sinv Hw. unfold upstream_lock in Hv. destruct (upstream_held env h); [done |]. injection Hv as <-.
      revert Hw. apply ignore_err_frame. intros ???. apply tcp_write_any. }
    destruct (udp_sessions st !! _) as [[] |]; [| by intros [= <-]].
    apply ignore_err_frame. intros ???. apply udp_send_any. }
  assert (Hno1 := same_tables_no_orphan _ _ Hfr Hno). destruct Hfr as (Hs & Hu & _).
  apply sbind_assoc in H as ([] & st2 & H2 & H).
  apply (end_session_no_orphan (session_id meta)) in H2 as (Hno2 & Hu2 & _); [| by rewrite Hs | done].
  apply sbind_assoc in H as ([] & st3 & H3 & H).
  apply (end_udp_no_orphan (session_id meta)) in H3; [| by rewrite Hu2, Hu | done].
  destruct (session_id meta =? XUDP_SESSION_ID); [| by injection H as <-].
  by apply end_xudp_no_orphan in H.
Qed.

Lemma mux_step_no_orphan env meta payload st st' :
  reopens st meta = false -> mux_step env (meta, payload) st = (st', Ok tt) ->
  no_orphan st -> no_orphan st'.
Proof.
  intros Hre H Hno. unfold mux_step in H. destruct (status meta) eqn:Hs.
  - by eapply mux_new_no_orphan.
  - eapply same_tables_no_orphan, Hno. by eapply mux_keep_frame.
  - by eapply mux_end_no_orphan.
  - by injection H as <-.
Qed.

Lemma read_mux_frame_consumes stream frame stream' :
  read_mux_frame stream = Ok (frame, stream') -> (S (length stream') <= length stream)%nat.
Proof.
  intros H. unfold read_mux_frame in H. pinv H. apply read_u16_inv in Hv as (a & b & -> & ->).
  destruct (be_val [a; b] >? MAX_META_LEN); [done |]. pinv H.
  assert (Hle : forall n t x t', read_exact (E:=ProxyError) n t = Ok (x, t') -> (length t' <= length t)%nat).
  { unfold read_exact. intros n t x t'. case_bool_decide; [| done]. intros [= <- <-]. rewrite length_drop. lia. }
  apply Hle in Hv. unfold plift in Hv0. destruct (parse_metadata v); [| done..].
  injection Hv0 as <- <-. simpl. destruct (negb _); [| injection H as <- <-; lia].
  pinv H. apply read_u16_inv in Hv0 as (c & d & -> & ->).
  destruct (be_val [c; d] >? MAX_DATA_LEN); [done |]. pinv H. injection H as <- <-.
  destruct (be_val [c; d] >? 0); [apply Hle in Hv0 | injection Hv0 as <- <-]; simpl in *; lia.
Qed.

Lemma domain_wire_len_returns name : rreturns (domain_wire_len name).
Proof. unfold domain_wire_len. ends_tac. Qed.

Lemma network_returns b : rreturns (TargetNetwork_from_byte b).
Proof. unfold TargetNetwork_from_byte. ends_tac. Qed.

Lemma status_returns b : rreturns (SessionStatus_from_byte b).
Proof. unfold SessionStatus_from_byte. ends_tac. Qed.
#[export] Hint Resolve domain_wire_len_returns network_returns status_returns : ends.

Lemma decode_address_sync_returns t p c : rreturns (decode_address_sync t p c).
Proof. unfold decode_address_sync. ends_tac. Qed.

Lemma address_port_wire_len_returns d : rreturns (address_port_wire_len d).
Proof. unfold address_port_wire_len. ends_tac. Qed.
#[export] Hint Resolve decode_address_sync_returns address_port_wire_len_returns : ends.

Lemma decode_address_port_returns d : rreturns (decode_address_port_with_len d).
Proof. unfold decode_address_port_with_len, slice_from. ends_tac. Qed.
#[export] Hint Resolve decode_address_port_returns : ends.

Lemma skip_ext_returns n rest : rreturns (skip_ext_loop n rest).
Proof.
  revert rest. induction n as [| n IH]; intros rest; simpl; unfold slice_from; [done |].
  ends_tac; apply IH.
Qed.
#[export] Hint Resolve skip_ext_returns : ends.

Lemma parse_metadata_returns meta : rreturns (parse_metadata meta).
Proof. unfold parse_metadata, slice_from, skip_mux_inbound_extensions. ends_tac. Qed.
#[export] Hint Resolve parse_metadata_returns : ends.

Lemma read_mux_frame_returns : preturns read_mux_frame.
Proof. unfold read_mux_frame. ends_tac. Qed.

Lemma with_data_returns payload k : (forall d, returns (k d)) -> returns (with_data payload k).
Proof. intros Hk. unfold with_data. ends_tac. Qed.

Lemma ignore_err_returns m : returns m -> returns (ignore_err m).
Proof. intros Hm st. unfold ignore_err. specialize (Hm st). by destruct (m st) as [s []]. Qed.

Lemma tcp_write_returns env h d : returns (tcp_write env h d).
Proof. unfold tcp_write. ends_tac. Qed.

Lemma udp_send_returns env h d msg : returns (udp_send_ env h d msg).
Proof. unfold udp_send_. ends_tac. Qed.

Lemma resolve_returns env dest : returns (S:=MuxState) (st_lift (resolve_udp_dest env dest)).
Proof.
  intros st. simpl. destruct dest as [| | n p]; simpl; [done.. |].
  by destruct (lookup_host env n p) as [[] |].
Qed.
#[export] Hint Resolve tcp_write_returns udp_send_returns resolve_returns : ends.

Lemma resolve_send_returns env dest h d msg :
  returns (upstream ← st_lift (resolve_udp_dest env dest); udp_send_to env h d upstream msg).
Proof. unfold udp_send_to. ends_tac. Qed.
#[export] Hint Resolve resolve_send_returns : ends.

(** A frame with bytes for an open TCP sub-connection. *)
Definition writes_upstream (st : MuxState) (meta : FrameMetadata) (payload : option bytes) (h : nat) : Prop :=
  sessions st !! session_id meta = Some h /\ (exists d, payload = Some d /\ d <> [])
  /\ (status meta = Keep /\ (forall d, target meta <> Some (Udp, d)) \/ status meta = End_).

(** A step waits only for the mutex of the upstream it writes to. *)
Definition waits_upstream (env : MuxEnv) (meta : FrameMetadata) (payload : option bytes) (m : muxM unit) : Prop :=
  forall st, snd (m st) = NoFuel -> exists h, writes_upstream st meta payload h /\ upstream_held env h = true.

Lemma returns_waits env meta payload m : returns m -> waits_upstream env meta payload m.
Proof. intros Hm st Hs. by destruct (Hm st). Qed.

Lemma with_data_waits payload k st :
  snd (with_data payload k st) = NoFuel -> exists d, payload = Some d /\ d <> [] /\ snd (k d st) = NoFuel.
Proof.
  destruct payload as [d |]; [| done]. cbn. destruct (Z.eqb_spec (zlen d) 0) as [| Hd]; [done |].
  intros H. exists d. split; [done |]. split; [by intros -> | done].
Qed.

Lemma sbind_waits {S E A B} (m : stE S E A) (f : A -> stE S E B) s :
  snd ((m ≫= f) s) = NoFuel -> snd (m s) = NoFuel \/ exists a s', m s = (s', Ok a) /\ snd (f a s') = NoFuel.
Proof.
  unfold mbind, stE_bind. destruct (m s) as [s' [a | | |]]; try done; [| by left]. intros H. right. by exists a, s'.
Qed.

Lemma lock_then_waits env h (m : muxM unit) st :
  returns m -> snd ((_ ← upstream_lock env h; m) st) = NoFuel -> upstream_held env h = true.
Proof.
  intros Hm H. unfold upstream_lock in H. destruct (upstream_held env h); [done |].
  apply sbind_waits in H as [H | (a & s' & [= <- <-] & H)]; [done | by destruct (Hm st)].
Qed.

Lemma mux_keep_waits env meta payload :
  status meta = Keep -> waits_upstream env meta payload (mux_keep env meta payload).
Proof.
  intros Hs st. unfold mux_keep.
  assert (Htcp : (forall d, target meta <> Some (Udp, d)) ->
    snd ((s ← st_get (fun st => sessions st !! session_id meta);
      match s with
      | Some h => with_data payload (fun data => _ ← upstream_lock env h; tcp_write env h data)
      | None =>
          u ← st_get (fun st => udp_sessions st !! session_id meta);
          match u with
          | Some (h, _) => with_data payload (fun data => udp_send_ env h data "mux UDP send")
          | None => mret tt
          end
      end) st) = NoFuel -> exists h, writes_upstream st meta payload h /\ upstream_held env h = true).
  { intros Ht H. apply sbind_waits in H as [H | (s & st' & [= <- <-] & H)]; [done |].
    destruct (sessions st !! session_id meta) as [h |] eqn:Hh.
    - apply with_data_waits in H as (d & -> & Hd & H). apply lock_then_waits in H; [| apply tcp_write_returns].
      exists h. split; [| done]. split; [done |]. split; [by exists d | by left].
    - apply sbind_waits in H as [H | (u & st' & [= <- <-] & H)]; [done |].
      destruct (udp_sessions st !! session_id meta) as [[h d] |]; [| done].
      apply with_data_waits in H as (d' & _ & _ & H). by destruct (udp_send_returns env h d' "mux UDP send" st). }
  destruct (target meta) as [[[] dest] |]; [by apply Htcp | | by apply Htcp].
  apply returns_waits. destruct (session_id meta =? XUDP_SESSION_ID); ends_tac;
    apply with_data_returns; intros d; repeat case_match; ends_tac.
Qed.

Lemma mux_end_waits env meta payload :
  status meta = End_ -> waits_upstream env meta payload (mux_end env meta payload).
Proof.
  intros Hs st H. unfold mux_end in H. cbv zeta in H.
  apply sbind_waits in H as [H | (s & st' & [= <- <-] & H)]; [done |].
  apply sbind_waits in H as [H | (u & st' & [= <- <-] & H)]; [done |].
  apply sbind_waits in H as [H | (v & st' & _ & H)].
  - apply with_data_waits in H as (d & -> & Hd & H).
    destruct (sessions st !! session_id meta) as [h |] eqn:Hh.
    + apply lock_then_waits in H; [| apply ignore_err_returns, tcp_write_returns].
      exists h. split; [| done]. split; [done |]. split; [by exists d | by right].
    + destruct (udp_sessions st !! session_id meta) as [[h d'] |]; [| done].
      by destruct (ignore_err_returns _ (udp_send_returns env h d "mux UDP send") st).
  - exfalso. revert H. match goal with |- snd (?m _) = _ -> _ => cut (returns m) end; [intros Hm; apply Hm |].
    ends_tac.
Qed.

Lemma mux_step_waits env meta payload : waits_upstream env meta payload (mux_step env (meta, payload)).
Proof.
  unfold mux_step. destruct (status meta) eqn:Hs; [| by apply mux_keep_waits | by apply mux_end_waits | by apply returns_waits].
  apply returns_waits. unfold mux_new, mux_new_xudp.
  ends_tac; apply with_data_returns; intros d; repeat case_match; ends_tac.
Qed.

(** ** No panics *)

Lemma domain_wire_len_no_panic name : is_panic (domain_wire_len name) = false.
Proof. unfold domain_wire_len. by repeat case_match. Qed.

Lemma address_port_wire_len_no_panic data :
  bytes_ok data -> is_panic (address_port_wire_len data) = false
  /\ (forall c, address_port_wire_len data = Ok c -> 0 <= c).
Proof.
  intros Hok. unfold address_port_wire_len. zcase; [done |]. split.
  - apply rbind_no_panic; [apply idx_no_panic; len_solve |]. intros atyp _. apply rbind_no_panic; [| done].
    destruct (atyp =? ATYP_IPV4); [done |]. destruct (atyp =? ATYP_IPV6); [done |]. destruct (atyp =? ATYP_DOMAIN); [| done].
    apply rbind_no_panic; [apply idx_no_panic; len_solve |]. intros n Hn. apply idx_bytes_ok in Hn; [| done].
    zcase; [done |]. apply rbind_no_panic; [apply slice_no_panic; len_solve |]. intros name _.
    destruct (utf8_valid name); [| done]. by apply rbind_no_panic; [apply domain_wire_len_no_panic |].
  - intros c Hc. apply rbind_inv in Hc as (atyp & _ & Hc). apply rbind_inv in Hc as (n & Hn & [= <-]).
    destruct (atyp =? ATYP_IPV4); [injection Hn as <-; lia |]. destruct (atyp =? ATYP_IPV6); [injection Hn as <-; lia |].
    destruct (atyp =? ATYP_DOMAIN); [| done]. apply rbind_inv in Hn as (m & Hm & Hn). apply idx_bytes_ok in Hm; [| done].
    zcase_in Hn. apply rbind_inv in Hn as (name & _ & Hn). destruct (utf8_valid name); [| done].
    apply rbind_inv in Hn as (? & _ & [= <-]). unfold is_u in *. lia.
Qed.

Lemma decode_address_sync_no_panic atyp p cursor : is_panic (decode_address_sync atyp p cursor) = false.
Proof.
  unfold decode_address_sync.
  assert (Hr : forall n s, is_panic (map_err (fun _ => Protocol "failed to fill whole buffer") (read_exact (E:=ProxyError) n s)) = false)
    by (intros n s; unfold read_exact; by case_bool_decide).
  destruct (atyp =? ATYP_IPV4); [by apply rbind_no_panic; [| intros []] |].
  destruct (atyp =? ATYP_IPV6); [by apply rbind_no_panic; [| intros []] |]. destruct (atyp =? ATYP_DOMAIN); [| done].
  apply rbind_no_panic; [done |]. intros [len c] Hlen. apply rbind_no_panic.
  - apply idx_no_panic. unfold read_exact in Hlen. case_bool_decide; [| done].
    injection Hlen as <- <-. unfold zlen in *. rewrite length_take. lia.
  - intros n _. apply rbind_no_panic; [done |]. intros [name r] _. by destruct (utf8_valid name).
Qed.

Lemma decode_address_port_no_panic data :
  bytes_ok data -> is_panic (decode_address_port_with_len data) = false
  /\ (forall a c, decode_address_port_with_len data = Ok (a, c) -> 0 <= c <= zlen data).
Proof.
  intros Hok. destruct (address_port_wire_len_no_panic data Hok) as [Hw Hc]. unfold decode_address_port_with_len. zcase; [done |]. split.
  - do 3 (apply rbind_no_panic; [apply idx_no_panic; len_solve | intros ? _]). apply rbind_no_panic; [done |]. intros c _. zcase; [done |].
    apply rbind_no_panic; [apply slice_from_no_panic; len_solve |]. intros cur _. apply rbind_no_panic; [apply decode_address_sync_no_panic | done].
  - intros a c Hd. do 3 (apply rbind_inv in Hd as (? & _ & Hd)). apply rbind_inv in Hd as (c' & Hc' & Hd). apply Hc in Hc'. zcase_in Hd.
    apply rbind_inv in Hd as (? & _ & Hd). apply rbind_inv in Hd as (? & _ & [= _ <-]). lia.
Qed.

Lemma slice_from_bytes_ok {E} (l k : bytes) i : bytes_ok l -> slice_from (E:=E) l i = Ok k -> bytes_ok k.
Proof.
  unfold slice_from, slice. intros Hok. case_match; [| done]. intros [= <-]. by apply Forall_take, Forall_drop.
Qed.

Lemma skip_ext_no_panic n : forall rest, bytes_ok rest -> is_panic (skip_ext_loop n rest) = false.
Proof.
  induction n as [| n IH]; intros rest Hok; cbn [skip_ext_loop]; [done |]. zcase; [done |].
  apply rbind_no_panic; [apply idx_no_panic; len_solve |]. intros b _.
  destruct (b =? 0).
  - apply rbind_no_panic; [apply slice_from_no_panic; len_solve |]. intros r Hr. apply IH. by apply slice_from_bytes_ok in Hr.
  - apply rbind_no_panic; [unfold TargetNetwork_from_byte; by repeat case_match |]. intros _ _.
    apply rbind_no_panic; [apply slice_from_no_panic; len_solve |]. intros r Hr. apply slice_from_bytes_ok in Hr; [| done].
    destruct (decode_address_port_no_panic r Hr) as [Hd Hc]. apply rbind_no_panic; [done |]. intros [a c] Ha. apply Hc in Ha.
    apply rbind_no_panic; [apply slice_from_no_panic; lia |]. intros r' Hr'. apply IH. by apply slice_from_bytes_ok in Hr'.
Qed.

Lemma network_no_panic b : is_panic (TargetNetwork_from_byte b) = false.
Proof. unfold TargetNetwork_from_byte. by repeat case_match. Qed.

Lemma parse_metadata_no_panic meta : bytes_ok meta -> is_panic (parse_metadata meta) = false.
Proof.
  intros Hok. unfold parse_metadata. zcase; [done |].
  do 3 (apply rbind_no_panic; [apply idx_no_panic; len_solve | intros ? _]).
  apply rbind_no_panic; [unfold SessionStatus_from_byte; by repeat case_match |]. intros st _.
  apply rbind_no_panic; [apply idx_no_panic; len_solve |]. intros opt _.
  apply rbind_no_panic; [apply slice_from_no_panic; len_solve |]. intros rest Hr. apply slice_from_bytes_ok in Hr; [| done]. cbv zeta.
  destruct (bool_decide (st = New)).
  - zcase; [done |]. apply rbind_no_panic; [apply idx_no_panic; len_solve |]. intros nb _.
    apply rbind_no_panic; [apply network_no_panic |]. intros net _.
    apply rbind_no_panic; [apply slice_from_no_panic; len_solve |]. intros r Hr'. apply slice_from_bytes_ok in Hr'; [| done].
    destruct (decode_address_port_no_panic r Hr') as [Hd Hc]. apply rbind_no_panic; [done |]. intros [addr co] Ha. apply Hc in Ha.
    apply rbind_no_panic; [apply slice_from_no_panic; lia |]. intros r2 Hr2. apply slice_from_bytes_ok in Hr2; [| done].
    apply rbind_no_panic; [destruct (bool_decide (net = Tcp)); [by apply skip_ext_no_panic | done] |]. intros r3 _.
    apply rbind_no_panic; [| done]. destruct (bool_decide (net = Udp) && negb (Z.land opt OPT_DATA =? 0)); [| done]. cbn [andb].
    zcase; [| done]. apply rbind_no_panic; [apply slice_no_panic; len_solve | done].
  - destruct (bool_decide (st = Keep)); [| done]. cbn [andb]. zcase; [done |]. cbn [negb].
    apply rbind_no_panic; [apply idx_no_panic; len_solve |]. intros nb _.
    destruct (TargetNetwork_from_byte nb) as [[] | | |]; try done.
    apply rbind_no_panic; [apply slice_from_no_panic; len_solve |]. intros r Hr'. apply slice_from_bytes_ok in Hr'; [| done].
    destruct (decode_address_port_no_panic r Hr') as [Hd _]. apply rbind_no_panic; [done |]. by intros [].
Qed.

(** An environment in which everything succeeds, and one whose connector fails. *)
Definition env_ok : MuxEnv := mkMuxEnv (fun _ => None) None true true true (fun _ _ => None) (fun _ => false).
Definition env_refuse : MuxEnv := mkMuxEnv (fun _ => Some Timeout) None true true true (fun _ _ => None) (fun _ => false).

(** [New] (TCP to 8.8.8.8:80) for session 1, without payload. *)
Definition new_frame : bytes := [0; 12; 0; 1; 1; 0; 1; 0; 80; 1; 8; 8; 8; 8].

(** Where tasks are left behind: a second [New] for an open session id
    replaces the table entry without aborting the first reader task, and an
    error on one sub-connection ends the relay without aborting the reader
    tasks of the others. *)
Theorem mux_relay_leaks :
  (let r := relay_mux_cool (fun _ => env_ok) (new_frame ++ new_frame) in
   snd r = Ok tt /\ live (fst r) = {[0%nat]})
  /\ (let r := relay_mux_cool (fun i => if bool_decide (i = 0%nat) then env_ok else env_refuse)
                 (new_frame ++ new_frame) in
      snd r = Err Timeout /\ live (fst r) = {[0%nat]}).
Proof. split; (split; [vm_compute; reflexivity | apply leibniz_equiv; vm_compute; set_solver]). Qed.
