(* ===== verification/MuxTasks.v ===== *)
(** The reader tasks of Mux.Cool ([vless/mux.rs]) together with the demultiplexer: the bodies
    of [mux_upstream_to_client], [mux_udp_to_client] and [mux_xudp_to_client], the mutex of
    each upstream, which a reader holds while it reads, and the mutex of the writer to the
    client.  A run is a sequence of events, so theorems on runs are about every interleaving.

    The demultiplexer handles a frame in one event: its own awaits on the operating system
    (dialling, resolving, sending) end with the outcome its environment gives.  Aborting a task
    drops it at its await, and with it the locks it holds. *)

From stdpp Require Import base list gmap strings numbers.
From S2P Require Import Prelude Address Vless Mux.

(** * Tasks *)

Inductive ReaderKind := TcpReader | UdpReader | XudpReader.

(** Where a reader is: it waits for the mutex of its upstream, reads (a TCP reader holding that
    mutex), waits for the writer with a frame, or writes the frame, of which [rest] is left;
    [last] tells the [End] frame. *)
Inductive Phase :=
| WantUpstream
| Reading
| WantWriter (frame : bytes) (last : bool)
| Writing (rest : bytes) (last : bool).

Record Reader := mkReader { rd_kind : ReaderKind; rd_sid : Z; rd_phase : Phase }.

(** The top of the loop of a reader. *)
Definition loop_phase (k : ReaderKind) : Phase := match k with TcpReader => WantUpstream | _ => Reading end.

Definition read_cap (k : ReaderKind) : Z := match k with TcpReader => 16 * 1024 | _ => 65535 end.

Definition socket_addr_to_address (peer : SocketAddr) : Address :=
  match sa_ip peer with V4 o => Ipv4 o (sa_port peer) | V6 o => Ipv6 o (sa_port peer) end.

(** The frame for what was read. *)
Definition data_frame (k : ReaderKind) (sid : Z) (data : bytes) (peer : SocketAddr) : res ProxyError bytes :=
  meta ← (match k with
          | XudpReader => encode_keep_metadata_udp sid (socket_addr_to_address peer) OPT_DATA
          | _ => Ok (encode_keep_metadata sid OPT_DATA)
          end);
  encode_frame meta (Some data).

Definition end_frame (sid : Z) : bytes :=
  match encode_frame (encode_end_metadata sid 0) None with Ok f => f | _ => [] end.

Record Tasks := mkTasks {
  t_mux : MuxState;
  t_stream : bytes;                         (* what the client has still to send *)
  t_end : option (res ProxyError unit);     (* the result of the demultiplexer *)
  t_readers : gmap nat Reader;
  t_writer : option nat;                    (* the reader that holds the writer *)
  t_out : bytes;                            (* what was written to the client *)
}.

Definition tasks_start (stream : bytes) : Tasks := mkTasks mux_init stream None ∅ None [].

(** A reader holds the mutex of its upstream while it reads. *)
Definition holds_upstream (r : Reader) : bool :=
  match rd_kind r, rd_phase r with TcpReader, Reading => true | _, _ => false end.

Definition held (t : Tasks) (h : nat) : bool := from_option holds_upstream false (t_readers t !! h).

Definition with_locks (t : Tasks) (env : MuxEnv) : MuxEnv :=
  mkMuxEnv (connect_outbound env) (upstream_write env) (udp_bind env) (udp_connect env) (udp_send env)
    (lookup_host env) (held t).

(** The reader spawned for the next frame. *)
Definition new_reader (stream : bytes) : Reader :=
  match read_mux_frame stream with
  | Ok ((meta, _), _) =>
      let k := if is_xudp_metadata meta then XudpReader
               else match target meta with Some (Tcp, _) => TcpReader | _ => UdpReader end in
      mkReader k (session_id meta) (loop_phase k)
  | _ => mkReader UdpReader 0 Reading
  end.

(** After a turn of the demultiplexer: aborted readers are gone with their locks, spawned ones start. *)
Definition after_turn (t : Tasks) (st : MuxState) (stream : bytes) (e : option (res ProxyError unit)) : Tasks :=
  mkTasks st stream e
    (filter (fun p => p.1 ∈ live st) (t_readers t) ∪ gset_to_gmap (new_reader (t_stream t)) (live st ∖ dom (t_readers t)))
    (h ← t_writer t; if bool_decide (h ∈ live st) then Some h else None) (t_out t).

Definition demux_turn (env : MuxEnv) (t : Tasks) : option Tasks :=
  match t_end t, relay_turn (with_locks t env) (t_stream t) (t_mux t) with
  | Some _, _ => None
  | None, (st, Ok (Some stream)) => Some (after_turn t st stream None)
  | None, (st, Ok None) => Some (after_turn t st [] (Some (Ok tt)))
  | None, (st, Err e) => Some (after_turn t st (t_stream t) (Some (Err e)))
  | None, (st, Panic) => Some (after_turn t st (t_stream t) (Some Panic))
  | None, (st, NoFuel) => None
  end.

Definition set_reader (h : nat) (r : Reader) (w : option nat) (out : bytes) (t : Tasks) : Tasks :=
  mkTasks (t_mux t) (t_stream t) (t_end t) (<[h := r]> (t_readers t)) w (t_out t ++ out).

(** A reader that returns. *)
Definition reader_done (h : nat) (w : option nat) (out : bytes) (t : Tasks) : Tasks :=
  let st := t_mux t in
  mkTasks (mkMuxState (sessions st) (udp_sessions st) (xudp_sessions st) (active_xudp st) (next_handle st)
             (live st ∖ {[h]}) (actions st))
    (t_stream t) (t_end t) (delete h (t_readers t)) w (t_out t ++ out).

(** What can happen: the demultiplexer takes a turn; a reader gets the lock it waits for; its read gives bytes from a peer, or the
    end or an error; a part of its frame is written, or the write fails. *)
Inductive TaskEvent :=
| EDemux (env : MuxEnv)
| ELock (h : nat)
| ERead (h : nat) (got : option (bytes * SocketAddr))
| EWrite (h : nat) (n : Z)
| EWriteFails (h : nat).

Definition reader_event (h : nat) (r : Reader) (ev : TaskEvent) (t : Tasks) : option Tasks :=
  let at_ p := mkReader (rd_kind r) (rd_sid r) p in
  match rd_phase r, ev with
  | WantUpstream, ELock _ => Some (set_reader h (at_ Reading) (t_writer t) [] t)
  | Reading, ERead _ got =>
      let next :=
        match got with
        | Some (data, peer) =>
            let data := take (Z.to_nat (read_cap (rd_kind r))) data in
            if zlen data =? 0 then WantWriter (end_frame (rd_sid r)) true
            else match data_frame (rd_kind r) (rd_sid r) data peer with
                 | Ok f => WantWriter f false
                 | _ => WantWriter (end_frame (rd_sid r)) true
                 end
        | None => WantWriter (end_frame (rd_sid r)) true
        end in
      Some (set_reader h (at_ next) (t_writer t) [] t)
  | WantWriter f last, ELock _ =>
      match t_writer t with
      | None => Some (set_reader h (at_ (Writing f last)) (Some h) [] t)
      | Some _ => None
      end
  | Writing rest last, EWrite _ n =>
      let n := Z.to_nat (Z.max n 1) in
      let out := take n rest in
      match drop n rest, last with
      | [], true => Some (reader_done h None out t)
      | [], false => Some (set_reader h (at_ (loop_phase (rd_kind r))) None out t)
      | rest, _ => Some (set_reader h (at_ (Writing rest last)) (t_writer t) out t)
      end
  | Writing _ true, EWriteFails _ => Some (reader_done h None [] t)
  | Writing _ false, EWriteFails _ => Some (set_reader h (at_ (WantWriter (end_frame (rd_sid r)) true)) None [] t)
  | _, _ => None
  end.

Definition task_event (ev : TaskEvent) (t : Tasks) : option Tasks :=
  match ev with
  | EDemux env => demux_turn env t
  | ELock h | ERead h _ | EWrite h _ | EWriteFails h => r ← t_readers t !! h; reader_event h r ev t
  end.

Fixpoint tasks_run (evs : list TaskEvent) (t : Tasks) : option Tasks :=
  match evs with [] => Some t | ev :: evs => t ← task_event ev t; tasks_run evs t end.



Fixpoint turns (evs : list TaskEvent) : nat :=
  match evs with [] => 0 | EDemux _ :: evs => S (turns evs) | _ :: evs => turns evs end.

(** * Theorems *)

(** ** The demultiplexer does not panic *)










(** ** The invariant *)









(** ** Readers *)






Lemma reader_event_same h r ev t t' :
  reader_event h r ev t = Some t' ->
  t_stream t' = t_stream t /\ t_end t' = t_end t /\ sessions (t_mux t') = sessions (t_mux t)
  /\ (no_orphan (t_mux t) -> no_orphan (t_mux t')).
Proof.
  unfold reader_event. assert (Hdone : forall w out, no_orphan (t_mux t) -> no_orphan (t_mux (reader_done h w out t))).
  { intros w out Hno h' Hh. apply (Hno h'). cbn [reader_done t_mux live] in Hh. set_solver. }
  destruct (rd_phase r) as [| | f last | rest last]; destruct ev; try (by destruct last); try done;
    repeat case_match; intros E; try done; injection E as <-; split_and!; try done; apply Hdone.
Qed.





(** ** Progress *)


Lemma writes_upstream_same st st' meta payload h :
  sessions st' = sessions st -> writes_upstream st meta payload h -> writes_upstream st' meta payload h.
Proof. intros E (H1 & H2). split; [by rewrite E | done]. Qed.





(** ** What goes wrong *)

Lemma writes_upstream_waits env st meta payload h :
  writes_upstream st meta payload h -> upstream_held env h = true -> snd (mux_step env (meta, payload) st) = NoFuel.
Proof.
  intros (Hs & (d & -> & Hd) & Hk) Hh. unfold mux_step.
  assert (Hz : (zlen d =? 0) = false) by (apply Z.eqb_neq; by intros ?%zlen_0_nil).
  destruct Hk as [[-> Ht] | ->].
  - unfold mux_keep. destruct (target meta) as [[[] dest] |] eqn:E; [| by destruct (Ht dest) |];
      (unfold mbind, stE_bind; cbn; rewrite Hs; cbn; rewrite Hz; unfold upstream_lock; by rewrite Hh).
  - unfold mux_end. unfold mbind, stE_bind. cbn. rewrite Hz, Hs. unfold upstream_lock. by rewrite Hh.
Qed.

(** An upstream that says nothing stops the whole connection: once the next frame has bytes for it, no frame of any
    sub-connection is handled, whatever the other tasks do, until a read of it ends. *)
Theorem mux_silent_upstream (t t' : Tasks) (meta : FrameMetadata) (payload : option bytes) (rest : bytes) (h : nat) (sid : Z)
    (evs : list TaskEvent) :
  t_end t = None -> read_mux_frame (t_stream t) = Ok ((meta, payload), rest) ->
  writes_upstream (t_mux t) meta payload h -> t_readers t !! h = Some (mkReader TcpReader sid Reading) ->
  (forall got, ERead h got ∉ evs) -> tasks_run evs t = Some t' ->
  turns evs = 0%nat /\ t_stream t' = t_stream t /\ t_end t' = None.
Proof.
  revert t. induction evs as [| ev evs IH]; intros t He Hf Hw Hr Hev; cbn [tasks_run]; [by intros [= <-] |].
  destruct (task_event ev t) as [t1 |] eqn:Ht; cbn [mbind option_bind]; [| done].
  assert (Hcase : (exists h' r, t_readers t !! h' = Some r /\ reader_event h' r ev t = Some t1 /\ h' <> h /\ turns (ev :: evs) = turns evs)).
  { destruct ev as [env | h' | h' got | h' n | h']; cbn [task_event] in Ht.
    - unfold demux_turn in Ht. rewrite He in Ht. unfold relay_turn in Ht. rewrite Hf in Ht.
      pose proof (writes_upstream_waits (with_locks t env) (t_mux t) meta payload h Hw) as Hn.
      cbn [with_locks upstream_held] in Hn. unfold held in Hn. rewrite Hr in Hn. specialize (Hn eq_refl).
      destruct (mux_step _ _ _) as [st []]; done.
    - destruct (t_readers t !! h') as [r |] eqn:E; [| done]. exists h', r. split_and!; try done. intros ->. rewrite Hr in E. by injection E as <-.
    - destruct (t_readers t !! h') as [r |] eqn:E; [| done]. exists h', r. split_and!; try done. intros ->. apply (Hev got). left.
    - destruct (t_readers t !! h') as [r |] eqn:E; [| done]. exists h', r. split_and!; try done. intros ->. rewrite Hr in E. by injection E as <-.
    - destruct (t_readers t !! h') as [r |] eqn:E; [| done]. exists h', r. split_and!; try done. intros ->. rewrite Hr in E. by injection E as <-. }
  destruct Hcase as (h' & r & Hr' & Hre & Hne & Et). rewrite Et. pose proof (reader_event_same _ _ _ _ _ Hre) as (E1 & E2 & E3 & _).
  intros Hrun. rewrite <- E1. apply (IH t1); [by rewrite E2 | by rewrite E1 | by eapply writes_upstream_same | | | done].
  - revert Hre. unfold reader_event. repeat case_match; intros E; try done; injection E as <-; cbn [set_reader reader_done t_readers];
      by rewrite ?lookup_insert_ne, ?lookup_delete_ne.
  - intros got Hin. apply (Hev got). by right.
Qed.

(** ** A run *)

Definition peer : SocketAddr := mkSocketAddr (V4 [8; 8; 8; 8]) 80.

(** [New] for session 2, and [End] for session 1. *)
Definition new_frame_2 : bytes := [0; 12; 0; 2; 1; 0; 1; 0; 80; 1; 8; 8; 8; 8].
Definition end_frame_1 : bytes := [0; 4; 0; 1; 3; 0].

(** Two sub-connections; the reader of the first has written three bytes of a frame when the client ends it; then the second
    sends a byte to the client. *)
Definition cut_run : list TaskEvent :=
  [EDemux env_ok; EDemux env_ok; ELock 0; ERead 0 (Some ([65; 66], peer)); ELock 0; EWrite 0 3; EDemux env_ok;
   ELock 1; ERead 1 (Some ([67], peer)); ELock 1; EWrite 1 100].

(** Aborting a reader in the middle of a write leaves a part of its frame in the stream to the client, which then reads the frames
    of the other sub-connections out of step: here the byte for session 2 is lost and the stream ends with a protocol error. *)
Theorem mux_abort_cuts_frame :
  exists t, tasks_run cut_run (tasks_start (new_frame ++ new_frame_2 ++ end_frame_1)) = Some t
  /\ t_end t = None /\ t_out t = [0; 4; 0] ++ [0; 4; 0; 2; 2; 1; 0; 1; 67]
  /\ (exists rest, read_mux_frame (t_out t) = Ok ((mkFrameMetadata 0 KeepAlive 0 None None, None), rest)
      /\ read_mux_frame rest = Err (Protocol "mux: invalid metadata length")).
Proof.
  destruct (tasks_run cut_run (tasks_start (new_frame ++ new_frame_2 ++ end_frame_1))) as [t |] eqn:E; [| vm_compute in E; discriminate E].
  exists t. split; [done |]. vm_compute in E. injection E as <-. split; [done |]. split; [done |]. eexists. split; vm_compute; reflexivity.
Qed.



Lemma mux_silent_upstream_witness :
  exists t t', tasks_run [EDemux env_ok; EDemux env_ok; ELock 0; ELock 1] (tasks_start (new_frame ++ new_frame_2 ++ [0; 4; 0; 1; 2; 1; 0; 1; 9])) = Some t
  /\ tasks_run [ERead 1 None; ELock 1] t = Some t' /\ t_stream t' = [0; 4; 0; 1; 2; 1; 0; 1; 9] /\ t_end t' = None.
Proof.
  destruct (tasks_run _ _) as [t |] eqn:E; [| vm_compute in E; discriminate E].
  destruct (tasks_run [ERead 1 None; ELock 1] t) as [t' |] eqn:E'; [| exfalso; vm_compute in E; injection E as <-; vm_compute in E'; discriminate E'].
  exists t, t'. split; [done |]. split; [done |].
  assert (Hs : t_stream t = [0; 4; 0; 1; 2; 1; 0; 1; 9]) by (vm_compute in E; injection E as <-; reflexivity).
  rewrite <- Hs. apply (mux_silent_upstream t t' (mkFrameMetadata 1 Keep 1 None None) (Some [9]) [] 0 1 [ERead 1 None; ELock 1]);
    try (vm_compute in E; injection E as <-; vm_compute; reflexivity).
  - split; [vm_compute in E; injection E as <-; reflexivity |]. split; [by exists [9] | by left].
  - intros got Hin. apply elem_of_cons in Hin as [[=] | Hin]. apply elem_of_cons in Hin as [[=] | Hin]. by apply elem_of_nil in Hin.
  - exact E'.
Defined.
