(* ===== verification/Trojan.v ===== *)
(** Trojan ([crates/blackwire-protocol/src/trojan]): request header and UDP
    framing ([codec.rs]) and the UDP relay that reassembles datagrams from the
    control stream ([udp.rs]). *)

From stdpp Require Import base list strings numbers.
From S2P Require Import Prelude Address.

Definition TOKEN_LEN : Z := 56.
Definition CMD_CONNECT : Z := 0x01.
Definition CMD_UDP_ASSOCIATE : Z := 0x03.
Definition MAX_UDP_PAYLOAD_LEN : Z := 8192.
Definition CRLF : bytes := [0x0D; 0x0A].

(** * Codec *)

Record TrojanRequest : Type := mkTrojanRequest {
  token : bytes;
  command : Z;
  dest : Address;
}.

Definition expect_crlf (ctx : string) : parser ProxyError unit :=
  crlf ← read_exact 2;
  if bytes_eqb crlf CRLF then mret tt
  else pfail (Protocol ("Trojan: expected CRLF " +:+ ctx)).

Definition decode_request : parser ProxyError TrojanRequest :=
  token ← read_exact TOKEN_LEN;
  _ ← expect_crlf "after token";
  command ← read_u8;
  if negb (command =? CMD_CONNECT) && negb (command =? CMD_UDP_ASSOCIATE) then
    pfail (Protocol "Trojan: unsupported command")
  else
    atyp ← read_u8;
    dest ← read_socks5_address atyp "Trojan";
    _ ← expect_crlf "after address";
    mret (mkTrojanRequest token command dest).

Definition parse_udp_datagram (buf : bytes) : res ProxyError (Address * bytes * Z) :=
  if zlen buf <? 4 then Err (Protocol "Trojan UDP datagram too short")
  else
    atyp ← idx buf 0;
    body ← slice_from buf 1;
    '(dest, consumed) ← decode_socks5_address body atyp "Trojan UDP";
    let pos := 1 + consumed in
    if pos + 4 >? zlen buf then Err (Protocol "Trojan UDP truncated length")
    else
      l0 ← idx buf pos; l1 ← idx buf (pos + 1);
      let payload_len := be_val [l0; l1] in
      if payload_len >? MAX_UDP_PAYLOAD_LEN then
        Err (Protocol "Trojan UDP payload length exceeds Xray max")
      else
        c0 ← idx buf (pos + 2); c1 ← idx buf (pos + 3);
        if negb (c0 =? 0x0D) || negb (c1 =? 0x0A) then
          Err (Protocol "Trojan UDP missing CRLF after length")
        else
          let data_off := pos + 4 in
          if data_off + payload_len >? zlen buf then Err (Protocol "Trojan UDP truncated payload")
          else
            p ← slice buf data_off (data_off + payload_len);
            Ok (dest, p, data_off + payload_len).

Definition encode_udp_datagram (dest : Address) (payload : bytes) : res ProxyError bytes :=
  if zlen payload >? MAX_UDP_PAYLOAD_LEN then
    Err (Protocol "Trojan UDP payload length exceeds Xray max")
  else
    a ← write_socks5_address dest;
    Ok (a ++ be_bytes 2 (zlen payload) ++ CRLF ++ payload).

Definition encode_request (token : bytes) (command : Z) (dest : Address) : res ProxyError bytes :=
  a ← write_socks5_address dest;
  Ok (token ++ CRLF ++ [command] ++ a ++ CRLF).

(** * UDP relay *)

Inductive TrojanEvent : Type :=
| UdpOut (upstream : SocketAddr) (payload : bytes)
| Reply (pkt : bytes).

(** Name resolution, the exchange with the upstream socket (a reply, none, or
    an error) and whether the reply channel is open. *)
Record TrojanEnv : Type := mkTrojanEnv {
  resolve : Address -> res ProxyError SocketAddr;
  exchange : SocketAddr -> bytes -> res ProxyError (option bytes);
  reply_open : bool;
}.

Abbreviation trojanM := (stE (list TrojanEvent) ProxyError).

Section relay.
Context (env : TrojanEnv).

Definition emit (e : TrojanEvent) : trojanM unit := st_modify (fun l => l ++ [e]).

(** The body of the loop for one parsed datagram with a payload. *)
Definition handle_datagram (dest : Address) (payload : bytes) : trojanM unit :=
  if zlen payload =? 0 then mret tt
  else
    upstream ← st_lift (resolve env dest);
    _ ← emit (UdpOut upstream payload);
    r ← st_lift (exchange env upstream payload);
    match r with
    | None => mret tt
    | Some reply_payload =>
        reply ← st_lift (encode_udp_datagram dest reply_payload);
        if reply_open env then emit (Reply reply)
        else st_fail (Transport "Trojan UDP reply channel closed")
    end.

(** [while !acc.is_empty()]: consumes the complete datagrams of [acc] and
    returns how many bytes they took. *)
Fixpoint drain (fuel : nat) (acc : bytes) (consumed_total : Z) : trojanM Z :=
  match fuel with
  | O => st_lift NoFuel
  | S fuel =>
      if zlen acc =? 0 then mret consumed_total
      else
        rest ← st_lift (slice_from acc consumed_total);
        match parse_udp_datagram rest with
        | Ok (dest, payload, consumed) =>
            _ ← handle_datagram dest payload;
            drain fuel acc (consumed_total + consumed)
        | Err (Protocol _) =>
            if zlen acc >? 65507 then st_fail (Protocol "Trojan UDP datagram buffer overflow")
            else mret consumed_total
        | Err e => st_fail e
        | Panic => st_lift Panic
        | NoFuel => st_lift NoFuel
        end
  end.

(** One [read] of the control stream; a datagram takes at least one byte. *)
Definition on_chunk (acc chunk : bytes) : trojanM bytes :=
  let acc := acc ++ chunk in
  consumed_total ← drain (S (length acc)) acc 0;
  mret (drop (Z.to_nat consumed_total) acc).

(** The reads of the control stream until it closes. *)
Fixpoint relay_reads (chunks : list bytes) (acc : bytes) : trojanM bytes :=
  match chunks with
  | [] => mret acc
  | chunk :: chunks =>
      if zlen chunk =? 0 then mret acc
      else
        acc ← on_chunk acc chunk;
        relay_reads chunks acc
  end.

End relay.

(** * Theorems *)

Lemma expect_crlf_ok ctx s : expect_crlf ctx (CRLF ++ s) = Ok (tt, s).
Proof. unfold expect_crlf. by pstep. Qed.
Lemma expect_crlf_cons ctx s : expect_crlf ctx (0x0D :: 0x0A :: s) = Ok (tt, s).
Proof. apply expect_crlf_ok. Qed.
#[export] Hint Resolve expect_crlf_ok expect_crlf_cons : wire.

(** Trojan header round trip: a header built for a 56-byte token, one of
    the two commands and an encodable destination is decoded to the same
    request and the payload is left untouched. *)
Theorem trojan_request_roundtrip (tok hdr payload : bytes) (cmd : Z) (d : Address) :
  zlen tok = TOKEN_LEN -> cmd = CMD_CONNECT \/ cmd = CMD_UDP_ASSOCIATE -> wf_address d ->
  encode_request tok cmd d = Ok hdr ->
  decode_request (hdr ++ payload) = Ok (mkTrojanRequest tok cmd d, payload).
Proof.
  intros Ht Hc Hw He. apply rbind_inv in He as (a & Ha & [= <-]).
  assert (exists t body, a = t :: body) as (t & body & ->).
  { destruct d; simpl in Ha; [| | apply rbind_inv in Ha as (? & _ & Ha)]; injection Ha as <-; eauto. }
  unfold decode_request. rewrite <- !app_assoc. pstep. cbn [app]. rewrite <- app_assoc. do 2 pstep.
  replace (negb (cmd =? CMD_CONNECT) && negb (cmd =? CMD_UDP_ASSOCIATE)) with false
    by (destruct Hc as [-> | ->]; done).
  cbn iota. pstep. pstep. by pstep.
Qed.

Lemma trojan_request_roundtrip_witness :
  decode_request ((repeat 97 56 ++ [13; 10; 1; 1; 1; 2; 3; 4; 0; 80; 13; 10]) ++ [5])
  = Ok (mkTrojanRequest (repeat 97 56) 1 (Ipv4 [1; 2; 3; 4] 80), [5]).
Proof.
  apply (trojan_request_roundtrip (repeat 97 56) _ [5] 1 (Ipv4 [1; 2; 3; 4] 80)).
  - reflexivity.
  - left. reflexivity.
  - apply (bool_decide_unpack _). vm_compute. exact I.
  - vm_compute. reflexivity.
Defined.

(** ** Datagrams *)

Lemma parse_udp_proto_only buf : bytes_ok buf -> proto_only (parse_udp_datagram buf).
Proof.
  intros Hok. unfold parse_udp_datagram, MAX_UDP_PAYLOAD_LEN.
  destruct (Z.ltb_spec (zlen buf) 4); [exact I |].
  apply proto_only_bind; [apply proto_only_idx; lia | intros t Ht].
  apply proto_only_bind; [apply proto_only_slice; lia | intros body Hb].
  assert (Hbok := slice_bytes_ok _ _ _ _ Hb Hok). apply slice_len in Hb.
  apply proto_only_bind; [by apply decode_socks5_proto_only | intros [d n] Hd].
  apply (decode_socks5_ext _ []) in Hd as [_ Hn]; [| done]. simpl.
  destruct (Z.gtb_spec (1 + n + 4) (zlen buf)); [exact I |].
  apply proto_only_bind; [apply proto_only_idx; lia | intros l0 Hl0].
  apply proto_only_bind; [apply proto_only_idx; lia | intros l1 Hl1].
  apply idx_bytes_ok in Hl0, Hl1; [| done..]. assert (Hv := is_u16_be_val _ _ Hl0 Hl1).
  proto_tac.
Qed.

Lemma idx_ext {E} l k i b : idx (E:=E) l i = Ok b -> idx (E:=E) (l ++ k) i = Ok b.
Proof.
  rewrite !idx_lookup. intros [? Hb]. split; [done |]. by apply lookup_app_l_Some.
Qed.

Lemma slice_ext {E} l k i j s : slice (E:=E) l i j = Ok s -> slice (E:=E) (l ++ k) i j = Ok s.
Proof.
  intros (? & ? & ->)%slice_ok. rewrite slice_in_range by len_solve. f_equal.
  unfold zlen in *. rewrite drop_app_le, take_app_le; [done | rewrite length_drop | ]; lia.
Qed.

Lemma slice_from_ext {E} l k i s : slice_from (E:=E) l i = Ok s -> slice_from (E:=E) (l ++ k) i = Ok (s ++ k).
Proof.
  unfold slice_from. intros (? & ? & ->)%slice_ok. rewrite slice_in_range by len_solve. f_equal.
  unfold zlen in *. rewrite length_app, drop_app_le by lia.
  rewrite !take_ge; [done | rewrite length_drop; lia | rewrite length_app, length_drop; lia].
Qed.

(** A datagram that parses is not changed by the bytes that follow it. *)
Lemma parse_udp_ext buf ext r n :
  bytes_ok buf -> parse_udp_datagram buf = Ok (r, n) ->
  parse_udp_datagram (buf ++ ext) = Ok (r, n) /\ 0 < n <= zlen buf.
Proof.
  intros Hok H. unfold parse_udp_datagram in *. zcase_in H. zcase.
  rinv H. rewrite (idx_ext _ _ _ _ Hv). simpl.
  rewrite (slice_from_ext _ ext _ _ Hv0). simpl.
  assert (Hbok := slice_bytes_ok _ _ _ _ Hv0 Hok). destruct v1 as [d m]. rinv H.
  apply (decode_socks5_ext _ ext) in Hv1 as [Hd Hm]; [| done]. rewrite Hd. simpl.
  zcase_in H. zcase. rinv H.
  rewrite (idx_ext _ _ _ _ Hv1), (idx_ext _ _ _ _ Hv2). simpl.
  apply idx_bytes_ok in Hv1, Hv2; [| done..]. assert (Hu := is_u16_be_val _ _ Hv1 Hv2).
  unfold MAX_UDP_PAYLOAD_LEN in *. zcase_in H. rinv H.
  rewrite (idx_ext _ _ _ _ Hv3), (idx_ext _ _ _ _ Hv4). simpl.
  destruct (negb (v3 =? 13) || negb (v4 =? 10)); [done |]. zcase_in H. zcase. rinv H.
  rewrite (slice_ext _ _ _ _ _ Hv5). injection H as <- <-. simpl.
  split; [done |]. apply slice_len in Hv5. len_solve.
Qed.

Lemma parse_udp_encoded d payload enc rest :
  wf_address d -> encode_udp_datagram d payload = Ok enc ->
  parse_udp_datagram (enc ++ rest) = Ok (d, payload, zlen enc).
Proof.
  intros Hw He. unfold encode_udp_datagram, MAX_UDP_PAYLOAD_LEN in He. zcase_in He.
  apply rbind_inv in He as (a & Ha & [= <-]).
  assert (exists t body, a = t :: body) as (t & body & ->).
  { destruct d; simpl in Ha; [| | apply rbind_inv in Ha as (? & _ & Ha)]; injection Ha as <-; eauto. }
  unfold parse_udp_datagram, MAX_UDP_PAYLOAD_LEN. rewrite be_bytes_2. cbn [app]. zcase.
  erewrite rbind_ok; [| done]. rewrite <- !app_assoc.
  erewrite rbind_ok; [| apply (slice_from_app [t]); done].
  rewrite (decode_socks5_body d _ _ t body) by done. simpl. zcase.
  erewrite rbind_ok; [| apply (idx_app_mid (t :: body)); len_solve].
  erewrite rbind_ok; [| apply (idx_shift (t :: body) _ _ 1); [done | len_solve]].
  rewrite be_val_2_port by len_solve. zcase.
  erewrite rbind_ok; [| apply (idx_shift (t :: body) _ _ 2); [done | len_solve]].
  erewrite rbind_ok; [| apply (idx_shift (t :: body) _ _ 3); [done | len_solve]].
  simpl. zcase.
  erewrite rbind_ok;
    [| eapply (slice_split _ (t :: body ++ [_; _; 13; 10]) payload rest);
       [simpl; by rewrite <- app_assoc | len_solve | len_solve]].
  do 2 f_equal. len_solve.
Qed.

(** ** Reassembly *)

Section reassembly.
Context (env : TrojanEnv).

Abbreviation packet := (Address * bytes)%type.

(** Specification: the datagrams handled one after the other. *)
Fixpoint handle_all (ps : list packet) : trojanM unit :=
  match ps with
  | [] => mret tt
  | p :: ps => _ ← handle_datagram env p.1 p.2; handle_all ps
  end.

Definition encodes (p : packet) (e : bytes) : Prop :=
  wf_address p.1 /\ bytes_ok p.2 /\ encode_udp_datagram p.1 p.2 = Ok e.

Lemma write_socks5_bytes_ok a e : wf_address a -> write_socks5_address a = Ok e -> bytes_ok e.
Proof.
  intros Hw He. destruct a; simpl in *; destruct_and!; [| | apply rbind_inv in He as (m & Hm & He)];
    [injection He as <-; unfold ATYP_IPV4, ATYP_IPV6; bok.. |].
  unfold domain_wire_len in Hm. zcase_in Hm. injection Hm as <-. injection He as <-.
  unfold ATYP_DOMAIN. bok. len_solve.
Qed.

Lemma encodes_bytes_ok p e : encodes p e -> bytes_ok e.
Proof.
  intros (Hw & Hok & He). unfold encode_udp_datagram in He. zcase_in He.
  apply rbind_inv in He as (a & Ha & [= <-]). apply write_socks5_bytes_ok in Ha; [| done].
  unfold CRLF. bok.
Qed.

Lemma encodes_nonempty p e : encodes p e -> 0 < zlen e.
Proof.
  intros (Hw & Hok & He). destruct p as [d pl]. unfold encode_udp_datagram in He. zcase_in He.
  apply rbind_inv in He as (a & Ha & [= <-]). simpl. len_solve.
Qed.

(** Type, a name of 255 bytes with its length, port, length, CRLF and the payload. *)
Definition MAX_DATAGRAM : Z := 1 + 256 + 2 + 2 + 2 + MAX_UDP_PAYLOAD_LEN.

Lemma encodes_len p e : encodes p e -> zlen e <= MAX_DATAGRAM.
Proof.
  intros (Hw & _ & He). destruct p as [d pl]. cbn [fst snd] in *. unfold encode_udp_datagram in He. zcase_in He.
  apply rbind_inv in He as (a & Ha & [= <-]).
  assert (Hl : zlen a <= 1 + 256 + 2).
  { destruct d; simpl in *; destruct_and!; [| | apply rbind_inv in Ha as (m & Hm & Ha)]; [injection Ha as <-; len_solve.. |].
    unfold domain_wire_len in Hm. zcase_in Hm. injection Hm as <-. injection Ha as <-. len_solve. }
  unfold MAX_DATAGRAM, MAX_UDP_PAYLOAD_LEN, CRLF in *. len_solve.
Qed.

Lemma encodes_parse p e rest : encodes p e -> parse_udp_datagram (e ++ rest) = Ok (p.1, p.2, zlen e).
Proof. intros (Hw & _ & He). by apply parse_udp_encoded. Qed.

(** A strict prefix of a datagram is reported as incomplete. *)
Lemma strict_prefix_incomplete p d s :
  encodes p (d ++ s) -> s <> [] -> exists m, parse_udp_datagram d = Err (Protocol m).
Proof.
  intros Hp Hs. assert (Hok := encodes_bytes_ok _ _ Hp). apply bytes_ok_app in Hok as [Hok _].
  destruct (proto_only_cases _ (parse_udp_proto_only d Hok)) as [[[r n] Hr] | ?]; [| done].
  exfalso. apply (parse_udp_ext _ s) in Hr as [Hr Hn]; [| done].
  assert (He := encodes_parse _ _ [] Hp). rewrite app_nil_r, Hr in He. injection He as _ Hlen.
  destruct s; [done |]. len_solve.
Qed.

Lemma prefix_split ps encs d tail :
  Forall2 encodes ps encs -> d ++ tail = concat encs ->
  exists ps1 ps2 e1 e2 partial,
    ps = ps1 ++ ps2 /\ Forall2 encodes ps1 e1 /\ Forall2 encodes ps2 e2
    /\ d = concat e1 ++ partial /\ partial ++ tail = concat e2 /\ zlen partial < MAX_DATAGRAM
    /\ exists m, parse_udp_datagram partial = Err (Protocol m).
Proof.
  intros HF. revert d. induction HF as [| p e ps encs Hp HF IH]; intros d Hd.
  - simpl in Hd. apply app_nil in Hd as [-> ->]. exists [], [], [], [], []. split_and!; try done. by eexists.
  - simpl in Hd. destruct (Z.le_gt_cases (zlen e) (zlen d)) as [Hle | Hlt].
    + assert (exists d', d = e ++ d') as [d' ->].
      { exists (drop (length e) d). rewrite <- (take_drop (length e) d) at 1. f_equal.
        apply (f_equal (take (length e))) in Hd. unfold zlen in Hle.
        rewrite take_app_le, take_app_length in Hd by lia. done. }
      rewrite <- app_assoc in Hd. apply app_inv_head in Hd.
      destruct (IH d' Hd) as (ps1 & ps2 & e1 & e2 & partial & -> & H1 & H2 & -> & Ht & Hb & Hm).
      exists (p :: ps1), ps2, (e :: e1), e2, partial. simpl. rewrite <- app_assoc. eauto 10.
    + exists [], (p :: ps), [], (e :: encs), d. split; [done |]. split; [done |].
      split; [by constructor |]. split; [done |]. split; [done |].
      split; [apply encodes_len in Hp; lia |].
      assert (exists s, e = d ++ s /\ s <> []) as (s & -> & Hs).
      { exists (drop (length d) e). split.
        - rewrite <- (take_drop (length d) e) at 1. f_equal.
          apply (f_equal (take (length d))) in Hd. unfold zlen in Hlt.
          rewrite take_app_length, take_app_le in Hd by lia. done.
        - intros Hn%(f_equal length). rewrite length_drop in Hn. unfold zlen in Hlt. simpl in Hn. lia. }
      by eapply strict_prefix_incomplete.
Qed.

(** The outcome once the complete datagrams of [acc] are handled. *)
Definition drained (acc : bytes) (n : Z) : res ProxyError Z :=
  if zlen acc >? 65507 then Err (Protocol "Trojan UDP datagram buffer overflow") else Ok n.

Lemma drain_complete ps encs partial done fuel log log' m :
  Forall2 encodes ps encs -> parse_udp_datagram partial = Err (Protocol m) ->
  handle_all ps log = (log', Ok tt) -> (length ps < fuel)%nat ->
  drain env fuel (done ++ concat encs ++ partial) (zlen done) log
  = (log', drained (done ++ concat encs ++ partial) (zlen done + zlen (concat encs))).
Proof.
  intros HF Hpart. revert done fuel log. induction HF as [| p e ps encs Hp HF IH];
    intros done fuel log Hh Hf; destruct fuel as [| fuel]; simpl in Hf; [lia | | lia |].
  - injection Hh as <-. cbn [drain concat app] in *. unfold drained.
    replace (zlen done + zlen []) with (zlen done) by len_solve.
    zcase; [by replace (zlen (done ++ partial) >? 65507) with false by lia |].
    unfold mbind, stE_bind, st_lift. rewrite slice_from_app by done. rewrite Hpart.
    by destruct (zlen (done ++ partial) >? 65507).
  - cbn [handle_all] in Hh. apply sbind_inv in Hh as ([] & log1 & H1 & Hh).
    cbn [drain concat] in *. assert (Hpos := encodes_nonempty _ _ Hp).
    rewrite <- !app_assoc in *. zcase.
    unfold mbind, stE_bind, st_lift. rewrite slice_from_app by done.
    rewrite (encodes_parse p e) by done. rewrite H1.
    specialize (IH (done ++ e) fuel log1 Hh). rewrite <- !app_assoc in IH.
    replace (zlen done + zlen e) with (zlen (done ++ e)) by len_solve.
    rewrite IH by lia. do 2 f_equal. len_solve.
Qed.

Lemma encodes_count ps encs : Forall2 encodes ps encs -> Z.of_nat (length ps) <= zlen (concat encs).
Proof.
  induction 1 as [| p e ps encs Hp HF IH]; simpl; [done |]. apply encodes_nonempty in Hp. len_solve.
Qed.

Lemma handle_all_app ps1 ps2 log log' :
  handle_all (ps1 ++ ps2) log = (log', Ok tt) ->
  exists log1, handle_all ps1 log = (log1, Ok tt) /\ handle_all ps2 log1 = (log', Ok tt).
Proof.
  revert log. induction ps1 as [| p ps1 IH]; intros log H; simpl in *; [eauto |].
  apply sbind_inv in H as ([] & l & H1 & H). apply IH in H as (log1 & Ha & Hb).
  exists log1. split; [| done]. unfold mbind, stE_bind. by rewrite H1.
Qed.

Lemma handle_all_join ps1 ps2 log log1 log2 :
  handle_all ps1 log = (log1, Ok tt) -> handle_all ps2 log1 = (log2, Ok tt) -> handle_all (ps1 ++ ps2) log = (log2, Ok tt).
Proof.
  revert log. induction ps1 as [| p ps1 IH]; intros log H1 H2; cbn [handle_all app] in *; [by injection H1 as <- |].
  apply sbind_inv in H1 as ([] & l & Ha & H1). unfold mbind, stE_bind. rewrite Ha. by apply IH.
Qed.

(** Reads of any sizes: the relay handles the datagrams one after the other to the last, or ends with the overflow error after some
    of them, which takes a read of more than [MAX_READ] bytes. *)
Definition MAX_READ : Z := 65507 - (MAX_DATAGRAM - 1).

Lemma relay_reads_any chunks : forall ps encs acc log log' m,
  Forall2 encodes ps encs -> parse_udp_datagram acc = Err (Protocol m) -> zlen acc < MAX_DATAGRAM ->
  acc ++ concat chunks = concat encs -> Forall (fun c => c <> []) chunks -> handle_all ps log = (log', Ok tt) ->
  relay_reads env chunks acc log = (log', Ok [])
  \/ exists ps1 ps2 log1, ps = ps1 ++ ps2 /\ handle_all ps1 log = (log1, Ok tt)
       /\ relay_reads env chunks acc log = (log1, Err (Protocol "Trojan UDP datagram buffer overflow"))
       /\ Exists (fun c => MAX_READ < zlen c) chunks.
Proof.
  induction chunks as [| chunk chunks IH]; intros ps encs acc log log' m HF Hacc Hsmall Heq Hne Hh.
  - left. simpl in Heq. rewrite app_nil_r in Heq. subst acc. destruct HF as [| p e ps encs Hp HF].
    + by injection Hh as <-.
    + simpl in Hacc. by rewrite (encodes_parse p e) in Hacc.
  - apply Forall_cons_iff in Hne as [Hc Hne]. cbn [relay_reads]. zcase; [destruct chunk; [done | len_solve] |].
    cbn [concat] in Heq. rewrite app_assoc in Heq.
    destruct (prefix_split ps encs (acc ++ chunk) (concat chunks) HF Heq)
      as (ps1 & ps2 & e1 & e2 & partial & -> & H1 & H2 & Hd & Ht & Hb & [m' Hm']).
    apply handle_all_app in Hh as (log1 & Hh1 & Hh2).
    unfold on_chunk. unfold mbind at 1 3, stE_bind at 1 3. unfold mbind at 1 2, stE_bind at 1 2. rewrite Hd.
    rewrite (drain_complete ps1 e1 partial [] _ log log1 m'); [| done | done | done |].
    2: { assert (Hn := encodes_count _ _ H1). rewrite length_app. unfold zlen in Hn. lia. }
    unfold drained. cbn [app]. destruct (Z.gtb_spec (zlen (concat e1 ++ partial)) 65507) as [Hbig | Hfit].
    + right. exists ps1, ps2, log1. split_and!; [done | done | done |]. left. rewrite <- Hd, zlen_app in Hbig. unfold MAX_READ. lia.
    + cbn [mret stE_ret]. change (zlen []) with 0. rewrite Z.add_0_l. unfold mret, stE_ret. rewrite drop_app_zlen by done.
      destruct (IH ps2 e2 partial log1 log' m') as [H | (qs1 & qs2 & log2 & -> & Hq & Hr & Hx)]; try done.
      * by left.
      * right. exists (ps1 ++ qs1), qs2, log2. split_and!; [by rewrite app_assoc | | done | by right]. by eapply handle_all_join.
Qed.

Lemma on_chunk_overflow ps encs log log' :
  Forall2 encodes ps encs -> 65507 < zlen (concat encs) -> handle_all ps log = (log', Ok tt) ->
  on_chunk env [] (concat encs) log = (log', Err (Protocol "Trojan UDP datagram buffer overflow")).
Proof.
  intros HF Hlen Hh. unfold on_chunk. unfold mbind, stE_bind. simpl app.
  assert (Hd := drain_complete ps encs [] [] (S (length (concat encs))) log log' _ HF eq_refl Hh).
  simpl app in Hd. rewrite app_nil_r in Hd. change (zlen []) with 0 in Hd. rewrite Hd.
  - unfold drained. by zcase.
  - assert (Hn := encodes_count _ _ HF). unfold zlen in Hn. lia.
Qed.

End reassembly.

(** Reassembly does not depend on read boundaries.  However the bytes of
    a sequence of datagrams are cut into reads of at most [MAX_READ] bytes, the relay
    handles exactly those datagrams, in order and each once, and keeps nothing back. *)
Theorem trojan_udp_reassembly (env : TrojanEnv) (ps : list (Address * bytes)) (encs chunks : list bytes)
    (log log' : list TrojanEvent) :
  Forall2 encodes ps encs -> concat chunks = concat encs -> Forall (fun c => c <> []) chunks ->
  Forall (fun c => zlen c <= MAX_READ) chunks -> handle_all env ps log = (log', Ok tt) ->
  relay_reads env chunks [] log = (log', Ok []).
Proof.
  intros HF Hc Hn Hm Hh. destruct (relay_reads_any env chunks ps encs [] log log' _ HF eq_refl ltac:(done) Hc Hn Hh) as [H | H]; [done |].
  destruct H as (_ & _ & _ & _ & _ & _ & (c & Hin & Hx)%Exists_exists). rewrite Forall_forall in Hm. specialize (Hm c Hin). lia.
Qed.

(** Two one-byte datagrams to 1.2.3.4:53 and an upstream that never answers. *)
Definition quiet_env : TrojanEnv :=
  mkTrojanEnv (fun d => ok_or (to_socket_addr d) Timeout) (fun _ _ => Ok None) true.
Definition dgram : bytes := [1; 1; 2; 3; 4; 0; 53; 0; 1; 13; 10; 65].

#[global] Instance encodes_dec p e : Decision (encodes p e).
Proof. unfold encodes. apply _. Defined.

Lemma dgram_encodes : encodes (Ipv4 [1; 2; 3; 4] 53, [65]) dgram.
Proof. apply (bool_decide_unpack _). vm_compute. exact I. Qed.

Lemma trojan_udp_reassembly_witness :
  relay_reads quiet_env [take 5 dgram; drop 5 dgram ++ take 3 dgram; drop 3 dgram] [] []
  = ([UdpOut (mkSocketAddr (V4 [1; 2; 3; 4]) 53) [65]; UdpOut (mkSocketAddr (V4 [1; 2; 3; 4]) 53) [65]], Ok []).
Proof.
  apply (trojan_udp_reassembly quiet_env
           [(Ipv4 [1; 2; 3; 4] 53, [65]); (Ipv4 [1; 2; 3; 4] 53, [65])] [dgram; dgram]).
  - constructor; [exact dgram_encodes |]. constructor; [exact dgram_encodes | constructor].
  - vm_compute. reflexivity.
  - repeat constructor; discriminate.
  - apply (bool_decide_unpack _). vm_compute. exact I.
  - vm_compute. reflexivity.
Defined.

(** The size limit counts bytes that were already consumed: a read that
    brings more than 65507 bytes of complete datagrams is handled in full and
    then reported as an overflow, which ends the association. *)
Theorem trojan_udp_spurious_overflow (env : TrojanEnv) (ps : list (Address * bytes)) (encs : list bytes)
    (log log' : list TrojanEvent) :
  Forall2 encodes ps encs -> 65507 < zlen (concat encs) -> handle_all env ps log = (log', Ok tt) ->
  relay_reads env [concat encs] [] log
  = (log', Err (Protocol "Trojan UDP datagram buffer overflow")).
Proof.
  intros HF Hlen Hh. cbn [relay_reads]. zcase. unfold mbind, stE_bind.
  by rewrite (on_chunk_overflow env ps encs log log').
Qed.

(** The largest datagram, with the payload limit of 8192 bytes. *)
Definition big_payload : bytes := repeat 65 (Z.to_nat 8192).
Definition big_dgram : bytes := [1; 1; 2; 3; 4; 0; 53; 32; 0; 13; 10] ++ big_payload.

Lemma big_dgram_encodes : encodes (Ipv4 [1; 2; 3; 4] 53, big_payload) big_dgram.
Proof. apply (bool_decide_unpack _). vm_compute. exact I. Qed.

Lemma trojan_udp_spurious_overflow_witness :
  relay_reads quiet_env [concat (repeat big_dgram 8)] [] []
  = (repeat (UdpOut (mkSocketAddr (V4 [1; 2; 3; 4]) 53) big_payload) 8,
     Err (Protocol "Trojan UDP datagram buffer overflow")).
Proof.
  apply (trojan_udp_spurious_overflow quiet_env
           (repeat (Ipv4 [1; 2; 3; 4] 53, big_payload) 8) (repeat big_dgram 8)).
  - cbn [repeat]. do 8 (constructor; [exact big_dgram_encodes |]). constructor.
  - vm_compute. reflexivity.
  - vm_compute. reflexivity.
Defined.
