(* ===== verification/TrojanProxy.v ===== *)
(** The Trojan handlers: [trojan/inbound.rs] and [trojan/outbound.rs] over the codec and the UDP relay of [Trojan.v].

    SHA-224 and the hexadecimal encoder are libraries and parameters here; the code relies on the lengths of what they give. *)

From stdpp Require Import base list strings numbers.
From S2P Require Import Prelude Address Trojan.

Class TokenHash := mkTokenHash { sha224 : bytes -> bytes; hex_encode : bytes -> bytes }.


Section handlers.
Context `{TokenHash}.

Definition compute_token (password : bytes) : bytes := hex_encode (sha224 password).

Record TrojanInbound := mkTrojanInbound { ti_tag : bytes; ti_tokens : list bytes }.

(** [copy_from_slice] panics for slices of different lengths. *)
Fixpoint tokens_of (passwords : list bytes) : res ProxyError (list bytes) :=
  match passwords with
  | [] => Ok []
  | p :: passwords =>
      let hex := compute_token p in
      if zlen hex =? TOKEN_LEN then tokens ← tokens_of passwords; Ok (hex :: tokens) else Panic
  end.

Definition trojan_inbound_new (tag : bytes) (passwords : list bytes) : res ProxyError TrojanInbound :=
  tokens ← tokens_of passwords;
  Ok (mkTrojanInbound tag tokens).

(** [ct_eq] of two arrays of the same length is their equality. *)
Definition validate_token (v : TrojanInbound) (token : bytes) : bool := existsb (fun expected => bytes_eqb expected token) (ti_tokens v).

Definition ip_unspecified (ip : bytes) : bool := forallb (fun b => b =? 0) ip.

Definition is_unspecified_associate_dest (dest : Address) : bool :=
  match dest with
  | Ipv4 ip port => ip_unspecified ip && (port =? 0)
  | Ipv6 ip port => ip_unspecified ip && (port =? 0)
  | Domain _ _ => false
  end.

Definition is_trojan_udp_associate (request : TrojanRequest) : bool :=
  if command request =? CMD_UDP_ASSOCIATE then true
  else (command request =? CMD_CONNECT) && is_unspecified_associate_dest (dest request).

(** What the rest of the stream is handed to. *)
Inductive TrojanHanded :=
| ToTrojanUdp
| ToTrojanDispatcher (inbound : bytes) (dest : Address).

(** [handle], up to the relay; nothing is written to the client before. *)
Definition trojan_handle (v : TrojanInbound) : parser ProxyError TrojanHanded :=
  request ← decode_request;
  if negb (validate_token v (token request)) then pfail AuthFailed
  else if is_trojan_udp_associate request then mret ToTrojanUdp
  else mret (ToTrojanDispatcher (ti_tag v) (dest request)).

Record TrojanOutbound := mkTrojanOutbound { to_tag : bytes; to_token : bytes; to_server : SocketAddr }.

Definition trojan_outbound_new (tag password : bytes) (server : SocketAddr) : TrojanOutbound := mkTrojanOutbound tag (compute_token password) server.



(** * The tunnel *)

Lemma tokens_of_spec passwords tokens : tokens_of passwords = Ok tokens -> tokens = compute_token <$> passwords.
Proof.
  revert tokens. induction passwords as [| p passwords IH]; cbn [tokens_of]; intros tokens; [by intros [= <-] |].
  destruct (_ =? _); [| done]. intros (ts & Ht & [= <-])%rbind_inv. by rewrite (IH ts Ht).
Qed.

Lemma validate_spec v tok : validate_token v tok = true <-> tok ∈ ti_tokens v.
Proof.
  unfold validate_token. rewrite existsb_exists. split.
  - intros (e & He & Hb). unfold bytes_eqb in Hb. apply bool_decide_eq_true_1 in Hb as <-. by apply list_elem_of_In.
  - intros He. exists tok. split; [by apply list_elem_of_In |]. unfold bytes_eqb. by apply bool_decide_eq_true_2.
Qed.


Context `{!TokenHashOk H}.





End handlers.

(** * Strangers *)

Section strangers.
Context `{TokenHash}.

Lemma handle_reads v : Reads (trojan_handle v).
Proof. unfold trojan_handle, decode_request, expect_crlf, read_socks5_address, read_u16. apply _. Qed.

Lemma decode_starts s req r : decode_request s = Ok (req, r) -> exists q, s = token req ++ q ++ r.
Proof.
  unfold decode_request. intros (tok & s1 & [-> Hl]%read_exact_inv & Hd)%pbind_inv; [| done].
  match type of Hd with ?p s1 = _ => assert (Hr : Reads p) by (unfold expect_crlf, read_socks5_address, read_u16; apply _); specialize (Hr s1); rewrite Hd in Hr; destruct Hr as [q ->] end.
  exists q. enough (token req = tok) as -> by done. apply pbind_inv in Hd as (? & ? & _ & Hd). apply pbind_inv in Hd as (cmd & ? & _ & Hd).
  destruct (negb (cmd =? CMD_CONNECT) && _); [done |]. apply pbind_inv in Hd as (? & ? & _ & Hd). apply pbind_inv in Hd as (? & ? & _ & Hd).
  apply pbind_inv in Hd as (? & ? & _ & Hd). by injection Hd as <- _.
Qed.

(** C20. Nobody is served without a password.  On every input the inbound ends, without a panic and without a word to the client: with an error, or with
    the rest of the input handed on; and then the input starts with the token of one of the passwords. *)
Theorem trojan_authenticated (tag : bytes) (passwords : list bytes) (v : TrojanInbound) (input : bytes) :
  trojan_inbound_new tag passwords = Ok v ->
  match trojan_handle v input with
  | Ok (_, rest) => exists pw header, pw ∈ passwords /\ input = compute_token pw ++ header ++ rest
  | Err _ => True
  | Panic | NoFuel => False
  end.
Proof.
  intros (tokens & ->%tokens_of_spec & [= <-])%rbind_inv. set (v := mkTrojanInbound tag (compute_token <$> passwords)).
  pose proof (handle_reads v input) as Hr. destruct (trojan_handle v input) as [[h rest] | | |] eqn:E; try done.
  apply pbind_inv in E as (req & r & (q & ->)%decode_starts & E). destruct (validate_token v (token req)) eqn:Ev; [| done].
  apply validate_spec, list_elem_of_fmap_1 in Ev as (pw & Hpw & Hin). exists pw, q. split; [done |]. rewrite Hpw.
  cbn [negb] in E. by destruct (is_trojan_udp_associate req); injection E as _ <-.
Qed.

End strangers.

(** * Witnesses *)

(** A hash that keeps the first 28 bytes, and an encoder that repeats each. *)
Definition toy_hash : TokenHash := {|
  sha224 m := take 28 (m ++ replicate 28 0);
  hex_encode b := b ++ b;
|}.



Lemma trojan_authenticated_witness :
  match trojan_handle (mkTrojanInbound (lit "in") [compute_token (H := toy_hash) (lit "pw")]) (replicate 80 13) with Ok _ => False | _ => True end.
Proof.
  assert (Hn : trojan_inbound_new (H := toy_hash) (lit "in") [lit "pw"] = Ok (mkTrojanInbound (lit "in") [compute_token (H := toy_hash) (lit "pw")])) by (vm_compute; reflexivity).
  pose proof (@trojan_authenticated toy_hash (lit "in") [lit "pw"] _ (replicate 80 13) Hn) as Ha.
  destruct (trojan_handle _ _) as [[h rest] | | |]; try done. destruct Ha as (pw & header & ->%list_elem_of_singleton & Hi). vm_compute in Hi. discriminate.
Defined.
