(* ===== verification/Socks.v ===== *)
(** SOCKS5 inbound ([socks.rs]) and its UDP framing and relay
    ([socks5_udp.rs]).  The control connection is a duplex byte stream: bytes
    still to be read and bytes written so far. *)

From stdpp Require Import base list strings numbers.
From S2P Require Import Prelude Address.

Definition SOCKS_VERSION : Z := 5.
Definition METHOD_NO_AUTH : Z := 0x00.
Definition METHOD_NO_ACCEPTABLE : Z := 0xFF.
Definition CMD_CONNECT : Z := 0x01.
Definition CMD_UDP_ASSOCIATE : Z := 0x03.
Definition RSV : Z := 0x00.
Definition REP_SUCCESS : Z := 0x00.
Definition REP_CMD_NOT_SUPPORTED : Z := 0x07.

(** * Handshake *)

Record Duplex : Type := mkDuplex { input : bytes; output : bytes }.

Abbreviation duplexM := (stE Duplex ProxyError).

(** A reader over the input half; a failed read leaves the rest unspecified,
    here as it was. *)
Definition recv {A} (p : parser ProxyError A) : duplexM A := fun d =>
  match p (input d) with
  | Ok (a, rest) => (mkDuplex rest (output d), Ok a)
  | Err e => (d, Err e)
  | Panic => (d, Panic)
  | NoFuel => (d, NoFuel)
  end.

Definition write_all (bs : bytes) : duplexM unit :=
  st_modify (fun d => mkDuplex (input d) (output d ++ bs)).

Inductive Socks5Request : Type :=
| Connect (dest : Address)
| UdpAssociate.

Definition send_bind_reply (rep : Z) (bind : SocketAddr) : duplexM unit :=
  let addr := match sa_ip bind with
              | V4 o => Ipv4 o (sa_port bind)
              | V6 o => Ipv6 o (sa_port bind)
              end in
  body ← st_lift (write_socks5_address addr);
  write_all ([SOCKS_VERSION; rep; RSV] ++ body).

Definition send_reply (rep : Z) : duplexM unit :=
  send_bind_reply rep (mkSocketAddr (V4 [0; 0; 0; 0]) 0).

Definition socks5_handshake : duplexM Socks5Request :=
  ver ← recv read_u8;
  if negb (ver =? SOCKS_VERSION) then st_fail (Protocol "SOCKS version not supported (expected 5)")
  else
    nmethods ← recv read_u8;
    if nmethods =? 0 then st_fail (Protocol "no auth methods offered")
    else
      offered ← recv (read_exact nmethods);
      if negb (bool_decide (METHOD_NO_AUTH ∈ offered)) then
        _ ← write_all [SOCKS_VERSION; METHOD_NO_ACCEPTABLE];
        st_fail AuthFailed
      else
        _ ← write_all [SOCKS_VERSION; METHOD_NO_AUTH];
        ver ← recv read_u8;
        if negb (ver =? SOCKS_VERSION) then st_fail (Protocol "bad version in request")
        else
          cmd ← recv read_u8;
          _ ← recv read_u8;
          atyp ← recv read_u8;
          dest ← recv (read_socks5_address atyp "SOCKS5");
          if cmd =? CMD_CONNECT then
            _ ← send_reply REP_SUCCESS;
            mret (Connect dest)
          else if cmd =? CMD_UDP_ASSOCIATE then mret UdpAssociate
          else
            _ ← send_reply REP_CMD_NOT_SUPPORTED;
            st_fail (Protocol "SOCKS5 CMD not supported").

(** What [handle] does after the handshake: the destination goes to the
    dispatcher, or the address of the bound UDP socket to the client. *)
Inductive SocksOutcome : Type :=
| Dispatch (dest : Address)
| RelayUdp.

Definition handle (udp_bind : option SocketAddr) : duplexM SocksOutcome :=
  request ← socks5_handshake;
  match request with
  | Connect dest => mret (Dispatch dest)
  | UdpAssociate =>
      match udp_bind with
      | None => st_fail (Transport "SOCKS5 UDP bind")
      | Some bind_addr =>
          _ ← send_bind_reply REP_SUCCESS bind_addr;
          mret RelayUdp
      end
  end.

(** * UDP *)

Definition SOCKS_UDP_HEADER : Z := 3.

Definition parse_udp_datagram (buf : bytes) : res ProxyError (Address * bytes) :=
  if zlen buf <? SOCKS_UDP_HEADER then Err (Protocol "SOCKS5 UDP datagram too short")
  else
    b0 ← idx buf 0; b1 ← idx buf 1;
    if negb (b0 =? 0) || negb (b1 =? 0) then Err (Protocol "SOCKS5 UDP RSV must be zero")
    else
      b2 ← idx buf 2;
      if negb (b2 =? 0) then Err (Protocol "SOCKS5 UDP fragment not supported")
      else
        atyp ← idx buf 3;
        body ← slice_from buf 4;
        '(dest, consumed) ← decode_socks5_address body atyp "SOCKS5 UDP";
        let off := 4 + consumed in
        if off >? zlen buf then Err (Protocol "SOCKS5 UDP truncated payload")
        else
          payload ← slice_from buf off;
          Ok (dest, payload).

Definition encode_udp_datagram (dest : Address) (payload : bytes) : res ProxyError bytes :=
  a ← write_socks5_address dest;
  Ok ([0; 0; 0] ++ a ++ payload).

(** One datagram of the relay: what is sent upstream and what goes back to the
    client.  [resolve] is the name lookup, [send_ok] and [reply] the outcome of
    the upstream socket (no reply within five seconds is [None]). *)
Definition relay_datagram (client_ip : IpAddr) (resolve : Address -> option SocketAddr)
    (send_ok : bool) (reply : option bytes) (peer : SocketAddr) (buf : bytes)
  : res ProxyError (option (SocketAddr * bytes) * option (SocketAddr * bytes)) :=
  if negb (bool_decide (sa_ip peer = client_ip)) then Ok (None, None)
  else if zlen buf <? SOCKS_UDP_HEADER + 4 then Ok (None, None)
  else
    match parse_udp_datagram buf with
    | Panic => Panic
    | NoFuel => NoFuel
    | Err _ => Ok (None, None)
    | Ok (dest, payload) =>
        if zlen payload =? 0 then Ok (None, None)
        else
          match resolve dest with
          | None => Ok (None, None)
          | Some upstream =>
              if negb send_ok then Ok (None, None)
              else
                match reply with
                | None => Ok (Some (upstream, payload), None)
                | Some m =>
                    if zlen m >? 0 then
                      match encode_udp_datagram dest m with
                      | Ok pkt => Ok (Some (upstream, payload), Some (peer, pkt))
                      | _ => Ok (Some (upstream, payload), None)
                      end
                    else Ok (Some (upstream, payload), None)
                end
          end
    end.

(** * Theorems *)

(** A client's greeting and request. *)
Definition greeting (methods : bytes) : bytes := [SOCKS_VERSION; zlen methods] ++ methods.
Definition request (cmd : Z) (addr : bytes) : bytes := [SOCKS_VERSION; cmd; RSV] ++ addr.

Lemma recv_app {A} (p : parser ProxyError A) s rest out a :
  p s = Ok (a, rest) -> recv p (mkDuplex s out) = (mkDuplex rest out, Ok a).
Proof. intros H. unfold recv. cbn [input output]. by rewrite H. Qed.

Lemma recv_ok {A} (p : parser ProxyError A) (f : A -> duplexM Socks5Request) a s s' o :
  p s = Ok (a, s') -> (recv p ≫= f) (mkDuplex s o) = f a (mkDuplex s' o).
Proof. intros H. unfold mbind, stE_bind, recv. simpl. by rewrite H. Qed.

Ltac rstep := erewrite recv_ok; [| solve [eauto with wire]].

Lemma handshake_prefix methods cmd t body d rest o :
  0 < zlen methods -> METHOD_NO_AUTH ∈ methods -> wf_address d ->
  write_socks5_address d = Ok (t :: body) ->
  socks5_handshake (mkDuplex (greeting methods ++ request cmd (t :: body) ++ rest) o)
  = (if cmd =? CMD_CONNECT then _ ← send_reply REP_SUCCESS; mret (Connect d)
     else if cmd =? CMD_UDP_ASSOCIATE then mret UdpAssociate
     else _ ← send_reply REP_CMD_NOT_SUPPORTED;
          st_fail (Protocol "SOCKS5 CMD not supported"))
    (mkDuplex rest (o ++ [SOCKS_VERSION; METHOD_NO_AUTH])).
Proof.
  intros Hm Hin Hw Hd. unfold socks5_handshake, greeting, request. rewrite <- !app_assoc. cbn [app].
  rstep. simpl. rstep. zcase. rstep. rewrite bool_decide_eq_true_2 by done. simpl.
  unfold write_all, st_modify. unfold mbind at 1, stE_bind at 1. simpl.
  rstep. simpl. rstep. rstep. rstep. by rstep.
Qed.

(** SOCKS5 handshake.  For a client that offers "no authentication" and
    sends a well-formed request, the server reads exactly the handshake bytes
    and leaves the payload; CONNECT yields the destination after the method
    choice and a success reply have been written, UDP ASSOCIATE writes the
    method choice only, and any other command is refused with reply code 7. *)
Theorem socks5_handshake_ok (methods addr rest o : bytes) (cmd : Z) (d : Address) :
  0 < zlen methods <= 255 -> METHOD_NO_AUTH ∈ methods -> wf_address d ->
  write_socks5_address d = Ok addr ->
  let choice := [SOCKS_VERSION; METHOD_NO_AUTH] in
  let reply rep := [SOCKS_VERSION; rep; RSV; 1; 0; 0; 0; 0; 0; 0] in
  socks5_handshake (mkDuplex (greeting methods ++ request cmd addr ++ rest) o)
  = if cmd =? CMD_CONNECT
    then (mkDuplex rest ((o ++ choice) ++ reply REP_SUCCESS), Ok (Connect d))
    else if cmd =? CMD_UDP_ASSOCIATE then (mkDuplex rest (o ++ choice), Ok UdpAssociate)
    else (mkDuplex rest ((o ++ choice) ++ reply REP_CMD_NOT_SUPPORTED),
          Err (Protocol "SOCKS5 CMD not supported")).
Proof.
  intros Hm Hin Hw Ha. assert (exists t body, addr = t :: body) as (t & body & ->).
  { destruct d; simpl in Ha; [| | apply rbind_inv in Ha as (? & _ & Ha)]; injection Ha as <-; eauto. }
  intros choice reply. rewrite handshake_prefix with (d := d) by (done || lia).
  by destruct (cmd =? CMD_CONNECT), (cmd =? CMD_UDP_ASSOCIATE).
Qed.

Lemma socks5_handshake_ok_witness :
  socks5_handshake (mkDuplex (greeting [0; 2] ++ request 1 [1; 1; 2; 3; 4; 0; 80] ++ [7; 7]) [])
  = (mkDuplex [7; 7] ([5; 0] ++ [5; 0; 0; 1; 0; 0; 0; 0; 0; 0]), Ok (Connect (Ipv4 [1; 2; 3; 4] 80))).
Proof.
  apply (socks5_handshake_ok [0; 2] [1; 1; 2; 3; 4; 0; 80] [7; 7] [] 1 (Ipv4 [1; 2; 3; 4] 80)).
  - vm_compute. split; congruence.
  - apply (bool_decide_unpack _). vm_compute. exact I.
  - apply (bool_decide_unpack _). vm_compute. exact I.
  - vm_compute. reflexivity.
Defined.

(** ** UDP *)

Lemma socks_udp_proto_only buf : bytes_ok buf -> 4 <= zlen buf -> proto_only (parse_udp_datagram buf).
Proof.
  intros Hok Hl. unfold parse_udp_datagram, SOCKS_UDP_HEADER.
  destruct (Z.ltb_spec (zlen buf) 3); [exact I |].
  apply proto_only_bind; [apply proto_only_idx; lia | intros b0 _].
  apply proto_only_bind; [apply proto_only_idx; lia | intros b1 _].
  destruct (negb (b0 =? 0) || negb (b1 =? 0)); [exact I |].
  apply proto_only_bind; [apply proto_only_idx; lia | intros b2 _].
  destruct (negb (b2 =? 0)); [exact I |].
  apply proto_only_bind; [apply proto_only_idx; lia | intros t _].
  apply proto_only_bind; [apply proto_only_slice; lia | intros body Hb].
  assert (Hbok := slice_bytes_ok _ _ _ _ Hb Hok).
  apply proto_only_bind; [by apply decode_socks5_proto_only | intros [d n] Hd].
  apply (decode_socks5_ext _ []) in Hd as [_ Hn]; [| done]. simpl.
  destruct (Z.gtb_spec (4 + n) (zlen buf)); [exact I |].
  apply proto_only_bind; [apply proto_only_slice; lia | done].
Qed.

(** SOCKS5 UDP framing: an encoded datagram is parsed back to its
    destination and payload, and the relay, which drops datagrams below seven
    bytes, never panics on what a client sends and forwards nothing for a peer
    that is not the owner of the association. *)
Theorem socks5_udp_relay_safe (d : Address) (payload pkt : bytes) (client_ip : IpAddr)
    (resolve : Address -> option SocketAddr) (send_ok : bool) (reply : option bytes)
    (peer : SocketAddr) (buf : bytes) :
  wf_address d -> encode_udp_datagram d payload = Ok pkt -> bytes_ok buf ->
  parse_udp_datagram pkt = Ok (d, payload)
  /\ is_ok (relay_datagram client_ip resolve send_ok reply peer buf) = true
  /\ (sa_ip peer <> client_ip ->
      relay_datagram client_ip resolve send_ok reply peer buf = Ok (None, None)).
Proof.
  intros Hw He Hok. split; [| split].
  - apply rbind_inv in He as (a & Ha & [= <-]).
    assert (exists t body, a = t :: body) as (t & body & ->).
    { destruct d; simpl in Ha; [| | apply rbind_inv in Ha as (? & _ & Ha)]; injection Ha as <-; eauto. }
    unfold parse_udp_datagram, SOCKS_UDP_HEADER. cbn [app]. zcase. simpl.
    erewrite rbind_ok; [| apply (slice_from_app [0; 0; 0; t]); done].
    rewrite (decode_socks5_body d payload "SOCKS5 UDP" t body) by done. simpl. zcase.
    by erewrite rbind_ok; [| apply (slice_from_app (0 :: 0 :: 0 :: t :: body)); len_solve].
  - unfold relay_datagram, SOCKS_UDP_HEADER. case_bool_decide; [simpl | done]. zcase; [done |].
    destruct (proto_only_cases _ (socks_udp_proto_only buf Hok ltac:(lia))) as [[[d' p] ->] | [m ->]];
      [| done].
    destruct (zlen p =? 0), (resolve d'), send_ok, reply as [m |]; try done; simpl.
    destruct (zlen m >? 0); [| done]. by destruct (encode_udp_datagram d' m).
  - intros Hp. unfold relay_datagram. by rewrite bool_decide_eq_false_2.
Qed.

Lemma socks5_udp_relay_safe_witness :
  parse_udp_datagram [0; 0; 0; 1; 1; 2; 3; 4; 0; 53; 65] = Ok (Ipv4 [1; 2; 3; 4] 53, [65])
  /\ is_ok (relay_datagram (V4 [9; 9; 9; 9]) (fun _ => None) true None
              (mkSocketAddr (V4 [9; 9; 9; 8]) 7) [0; 0; 0]) = true
  /\ (V4 [9; 9; 9; 8] <> V4 [9; 9; 9; 9] ->
      relay_datagram (V4 [9; 9; 9; 9]) (fun _ => None) true None
        (mkSocketAddr (V4 [9; 9; 9; 8]) 7) [0; 0; 0] = Ok (None, None)).
Proof.
  apply (socks5_udp_relay_safe (Ipv4 [1; 2; 3; 4] 53) [65]).
  - apply (bool_decide_unpack _). vm_compute. exact I.
  - vm_compute. reflexivity.
  - apply (bool_decide_unpack _). vm_compute. exact I.
Defined.

(** The public parser checks for three bytes and then reads the fourth:
    it panics on every three-byte datagram with a zero header, and on nothing
    longer. *)
Theorem socks5_udp_parse_panics (buf : bytes) :
  bytes_ok buf -> parse_udp_datagram buf = Panic <-> buf = [0; 0; 0].
Proof.
  intros Hok. split; [| by intros ->]. intros Hp.
  destruct (Z.le_gt_cases 4 (zlen buf)) as [Hl | Hl].
  - assert (H := socks_udp_proto_only buf Hok Hl). by rewrite Hp in H.
  - do 3 (destruct buf as [| ? buf]; [done |]). destruct buf; [| len_solve].
    unfold parse_udp_datagram in Hp. simpl in Hp.
    destruct (Z.eqb_spec z 0), (Z.eqb_spec z0 0), (Z.eqb_spec z1 0); simpl in Hp; try done. by subst.
Qed.

Lemma socks5_udp_parse_panics_witness : parse_udp_datagram [0; 0; 0] = Panic <-> [0; 0; 0] = [0; 0; 0].
Proof. apply (socks5_udp_parse_panics [0; 0; 0]). apply (bool_decide_unpack _). vm_compute. exact I. Defined.
