(* ===== verification/Router.v ===== *)
(** Routing ([crates/blackwire-app/src/router.rs] and [geo/]): domain and CIDR
    matchers, compiled rules, and the router with its hot swap.  The crates
    [ipnet], [aho-corasick] and [regex] and Unicode lower-casing are interfaces:
    a class for the operations and one for the documented laws, with an
    instance that shows the laws can hold. *)

From stdpp Require Import base list gmap strings numbers sorting.
From S2P Require Import Prelude Address.

(** * Interfaces to third-party crates *)

(** [ipnet::IpNet]: an address with a prefix length; [Ord] is derived, so it
    compares the family, then the address, then the prefix length. *)
Class IpNetOps := {
  IpNet : Type;
  net_new : IpAddr -> Z -> option IpNet;
  net_parse : bytes -> option IpNet;
  net_addr : IpNet -> IpAddr;
  net_prefix : IpNet -> Z;
  net_le : IpNet -> IpNet -> bool;
  net_contains : IpNet -> IpAddr -> bool;
}.

(** Family, width and numeric value of an address. *)
Definition ip_family (i : IpAddr) : Z := match i with V4 _ => 4 | V6 _ => 6 end.
Definition ip_width (i : IpAddr) : Z := match i with V4 _ => 32 | V6 _ => 128 end.
Definition ip_val (i : IpAddr) : Z := match i with V4 o => be_val o | V6 o => be_val o end.
Definition wf_ip (i : IpAddr) : Prop :=
  match i with
  | V4 o => zlen o = 4 /\ bytes_ok o
  | V6 o => zlen o = 16 /\ bytes_ok o
  end.

#[global] Instance wf_ip_dec i : Decision (wf_ip i).
Proof. destruct i; simpl; apply _. Defined.

(** Lexicographic order on (family, address, prefix length). *)
Definition net_key_le (f1 v1 p1 f2 v2 p2 : Z) : bool :=
  (f1 <? f2) || (f1 =? f2) && ((v1 <? v2) || (v1 =? v2) && (p1 <=? p2)).

Class IpNetLaws `{IpNetOps} := {
  net_new_spec : forall i p n, net_new i p = Some n ->
    0 <= p <= ip_width i /\ net_addr n = i /\ net_prefix n = p;
  net_new_some : forall i p, wf_ip i -> 0 <= p <= ip_width i -> exists n, net_new i p = Some n;
  net_prefix_range : forall n, 0 <= net_prefix n <= ip_width (net_addr n);
  net_addr_wf : forall n, wf_ip (net_addr n);
  net_le_spec : forall a b, net_le a b =
    net_key_le (ip_family (net_addr a)) (ip_val (net_addr a)) (net_prefix a)
               (ip_family (net_addr b)) (ip_val (net_addr b)) (net_prefix b);
  net_contains_spec : forall n i, net_contains n i = true <->
    ip_family (net_addr n) = ip_family i /\
    Z.shiftr (ip_val i) (ip_width i - net_prefix n)
    = Z.shiftr (ip_val (net_addr n)) (ip_width i - net_prefix n);
}.

(** [aho_corasick], [regex] and [str::to_lowercase].  A builder may refuse its
    patterns. *)
Class PatternLib := {
  AhoCorasick : Type;
  ac_build : list bytes -> option AhoCorasick;
  ac_is_match : AhoCorasick -> bytes -> bool;
  RegexSet : Type;
  regex_ok : bytes -> bool;
  rs_new : list bytes -> option RegexSet;
  rs_empty : RegexSet;
  rs_is_match : RegexSet -> bytes -> bool;
  to_lowercase : bytes -> bytes;
}.

(** Unicode lower-casing agrees with ASCII lower-casing on ASCII text. *)
Class PatternLaws `{PatternLib} := {
  to_lowercase_ascii : forall s, is_ascii s -> to_lowercase s = to_ascii_lowercase s;
}.

(** * IP matchers *)

Section ip_matcher.
Context `{IpNetOps}.

#[local] Instance net_le_dec : RelDecision (fun a b => net_le a b = true).
Proof. intros a b. apply _. Defined.

(** [sort_unstable]. *)
Definition sort_unstable (l : list IpNet) : list IpNet :=
  merge_sort (fun a b => net_le a b = true) l.

(** [partition_point]: the index of the first element that fails the test. *)
Fixpoint partition_point {A} (f : A -> bool) (l : list A) : nat :=
  match l with
  | [] => 0
  | x :: l => if f x then S (partition_point f l) else 0
  end.

Record IpMatcher : Type := mkIpMatcher { ranges : list IpNet }.

Definition IpMatcher_new (rs : list bytes) : option IpMatcher :=
  parsed ← mapM net_parse rs;
  Some (mkIpMatcher (sort_unstable parsed)).

Definition full_prefix (i : IpAddr) : Z := match i with V4 _ => 32 | V6 _ => 128 end.

Definition IpMatcher_matches (m : IpMatcher) (i : IpAddr) : bool :=
  match ranges m with
  | [] => false
  | _ =>
      match net_new i (full_prefix i) with
      | None => existsb (fun net => net_contains net i) (ranges m)
      | Some probe =>
          let idx := partition_point (fun net => net_le net probe) (ranges m) in
          existsb (fun net => net_contains net i)
            (reverse (drop (idx - 4) (take idx (ranges m))))
      end
  end.

Record Cidr : Type := mkCidr { cidr_ip : bytes; cidr_prefix : Z }.

Definition MAX_OVERLAP_SCAN : nat := 4.

Record GeoIpMatcher : Type := mkGeoIpMatcher { geo_ranges : list IpNet }.

(** [cidr.prefix as u8] truncates the protobuf's [u32]. *)
Definition parse_cidr (c : Cidr) : option IpNet :=
  let prefix := wrap 8 (cidr_prefix c) in
  if zlen (cidr_ip c) =? 4 then net_new (V4 (cidr_ip c)) prefix
  else if zlen (cidr_ip c) =? 16 then net_new (V6 (cidr_ip c)) prefix
  else None.

Definition GeoIp_from_proto (entry : list Cidr) : GeoIpMatcher :=
  mkGeoIpMatcher (sort_unstable (omap parse_cidr entry)).

Definition GeoIp_from_ranges (rs : list IpNet) : GeoIpMatcher := mkGeoIpMatcher (sort_unstable rs).

Definition match_ip (m : GeoIpMatcher) (i : IpAddr) : bool :=
  match geo_ranges m with
  | [] => false
  | _ =>
      match net_new i (full_prefix i) with
      | None => existsb (fun net => net_contains net i) (geo_ranges m)
      | Some probe =>
          let idx := partition_point (fun net => net_le net probe) (geo_ranges m) in
          let start := (idx - MAX_OVERLAP_SCAN)%nat in
          existsb (fun net => net_contains net i)
            (reverse (drop start (take idx (geo_ranges m))))
      end
  end.

End ip_matcher.

(** * Domain matchers *)

Definition DOT : Z := 46.

(** [s.find('.')]. *)
Fixpoint find_dot (s : bytes) : option nat :=
  match s with
  | [] => None
  | b :: s => if b =? DOT then Some 0%nat else S <$> find_dot s
  end.

(** The label walk: [while start < lower.len() { .. }].  Every iteration moves
    [start] forward, so the length of the name plus one is enough fuel. *)
Fixpoint suffix_walk (fuel : nat) (suffix : gset bytes) (lower : bytes) (start : nat) : bool :=
  match fuel with
  | O => false
  | S fuel =>
      if bool_decide (start < length lower)%nat then
        if bool_decide (drop start lower ∈ suffix) then true
        else
          match find_dot (drop start lower) with
          | Some dot => suffix_walk fuel suffix lower (start + (dot + 1))
          | None => false
          end
      else false
  end.

Section domain_matcher.
Context `{PatternLib}.

Definition lower_of (domain : bytes) : bytes :=
  if existsb is_ascii_uppercase domain then to_lowercase domain else domain.

Record DomainMatcher : Type := mkDomainMatcher {
  full : gset bytes;
  suffix : gset bytes;
  keyword : AhoCorasick;
  regex : RegexSet;
}.

Definition DomainMatcher_new (full suffix keywords regexes : list bytes) : option DomainMatcher :=
  k ← ac_build keywords;
  r ← rs_new regexes;
  Some (mkDomainMatcher (list_to_set (to_lowercase <$> full))
          (list_to_set (to_lowercase <$> suffix)) k r).

Definition DomainMatcher_matches (m : DomainMatcher) (domain : bytes) : bool :=
  let lower := lower_of domain in
  if bool_decide (lower ∈ full m) then true
  else if suffix_walk (S (length lower)) (suffix m) lower 0 then true
  else if ac_is_match (keyword m) lower then true
  else if rs_is_match (regex m) lower then true
  else false.

Inductive DomainType : Type := Plain | Regex | DDomain | Full.

Record GeoDomain : Type := mkGeoDomain { gd_type : Z; gd_value : bytes }.

(** [DomainType::try_from(i32).unwrap_or(Plain)] of [geo/proto.rs]. *)
Definition DomainType_of (t : Z) : DomainType :=
  if t =? 0 then Plain
  else if t =? 1 then Regex
  else if t =? 2 then DDomain
  else if t =? 3 then Full
  else Plain.

(** [GeoSiteMatcher] has the fields and the matching routine of
    [DomainMatcher], over a [HashSet]. *)
Abbreviation GeoSiteMatcher := DomainMatcher.

(** The four buckets filled by the loop over the entries. *)
Fixpoint bucket (ds : list GeoDomain) : list bytes * list bytes * list bytes * list bytes :=
  match ds with
  | [] => ([], [], [], [])
  | d :: ds =>
      let '(f, s, k, r) := bucket ds in
      match DomainType_of (gd_type d) with
      | Full => (to_lowercase (gd_value d) :: f, s, k, r)
      | DDomain => (f, to_lowercase (gd_value d) :: s, k, r)
      | Plain => (f, s, to_lowercase (gd_value d) :: k, r)
      | Regex => (f, s, k, gd_value d :: r)
      end
  end.

(** [None] is the panic of [AhoCorasick::new(&[]).unwrap()]. *)
Definition GeoSite_from_proto (ds : list GeoDomain) : option GeoSiteMatcher :=
  let '(f, s, k, r) := bucket ds in
  keyword ← (match ac_build k with Some a => Some a | None => ac_build [] end);
  let regex :=
    match rs_new r with
    | Some rs => rs
    | None =>
        match rs_new (filter (fun p => regex_ok p = true) r) with
        | Some rs => rs
        | None => rs_empty
        end
    end in
  Some (mkDomainMatcher (list_to_set f) (list_to_set s) keyword regex).

Definition match_domain (m : GeoSiteMatcher) (domain : bytes) : bool :=
  let lower := lower_of domain in
  if bool_decide (lower ∈ full m) then true
  else if suffix_walk (S (length lower)) (suffix m) lower 0 then true
  else if ac_is_match (keyword m) lower then true
  else if rs_is_match (regex m) lower then true
  else false.

End domain_matcher.

(** * Rules and router *)

Record RoutingContext : Type := mkRoutingContext {
  rc_dest : Address;
  rc_network : Network;
  rc_inbound_tag : bytes;
  rc_user : option bytes;
  rc_sniffed_protocol : option bytes;
  rc_sniffed_domain : option bytes;
}.

Section router.
Context `{IpNetOps} `{PatternLib}.

Record CompiledRule : Type := mkCompiledRule {
  outbound_tag : bytes;
  domain_matcher : option DomainMatcher;
  geosite_codes : list bytes;
  ip_matcher : option IpMatcher;
  geoip_codes : list bytes;
  port_ranges : list (Z * Z);
  inbound_tags : list bytes;
  protocols : list bytes;
}.

Abbreviation geoip_db := (gmap bytes GeoIpMatcher).
Abbreviation geosite_db := (gmap bytes DomainMatcher).

Definition is_empty {A} (l : list A) : bool := match l with [] => true | _ => false end.

Definition inbound_ok (r : CompiledRule) (ctx : RoutingContext) : bool :=
  is_empty (inbound_tags r) || bool_decide (rc_inbound_tag ctx ∈ inbound_tags r).

Definition protocol_ok (r : CompiledRule) (ctx : RoutingContext) : bool :=
  is_empty (protocols r)
  || match rc_sniffed_protocol ctx with
     | None => false
     | Some proto => bool_decide (proto ∈ protocols r)
     end.

Definition port_ok (r : CompiledRule) (ctx : RoutingContext) : bool :=
  is_empty (port_ranges r)
  || (let p := port (rc_dest ctx) in
      existsb (fun '(lo, hi) => (p >=? lo) && (p <=? hi)) (port_ranges r)).

Definition opt_test {A} (f : A -> bool) (o : option A) : bool :=
  match o with Some a => f a | None => false end.

Definition has_domain_restriction (r : CompiledRule) : bool :=
  opt_test (fun _ => true) (domain_matcher r) || negb (is_empty (geosite_codes r)).

(** The name the domain conditions look at. *)
Definition domain_name (ctx : RoutingContext) : option bytes :=
  match rc_dest ctx with
  | Domain name _ => Some name
  | _ => rc_sniffed_domain ctx
  end.

Definition domain_ok (r : CompiledRule) (ctx : RoutingContext) (geosite : geosite_db) : bool :=
  if has_domain_restriction r then
    match domain_name ctx with
    | None => false
    | Some name =>
        let literal_ok := opt_test (fun dm => DomainMatcher_matches dm name) (domain_matcher r) in
        let geosite_ok :=
          existsb (fun code => opt_test (fun m => match_domain m name) (geosite !! code))
            (geosite_codes r) in
        literal_ok || geosite_ok
    end
  else true.

Definition has_ip_restriction (r : CompiledRule) : bool :=
  opt_test (fun _ => true) (ip_matcher r) || negb (is_empty (geoip_codes r)).

Definition ip_ok (r : CompiledRule) (ctx : RoutingContext) (geoip : geoip_db) : bool :=
  if has_ip_restriction r then
    match ip (rc_dest ctx) with
    | Some i =>
        let literal_ok := opt_test (fun im => IpMatcher_matches im i) (ip_matcher r) in
        let geoip_ok :=
          existsb (fun code => opt_test (fun m => match_ip m i) (geoip !! code))
            (geoip_codes r) in
        literal_ok || geoip_ok
    | None => false
    end
  else true.

(** The early returns of [matches_with_geo], in order. *)
Definition matches_with_geo (r : CompiledRule) (ctx : RoutingContext)
    (geoip : geoip_db) (geosite : geosite_db) : bool :=
  if negb (inbound_ok r ctx) then false
  else if negb (protocol_ok r ctx) then false
  else if negb (port_ok r ctx) then false
  else if negb (domain_ok r ctx geosite) then false
  else if negb (ip_ok r ctx geoip) then false
  else true.

Definition rule_matches (r : CompiledRule) (ctx : RoutingContext) : bool :=
  matches_with_geo r ctx ∅ ∅.

Record RouterInner : Type := mkRouterInner {
  rules : list CompiledRule;
  default_tag : bytes;
  geoip : geoip_db;
  geosite : geosite_db;
  domain_strategy : option bytes;
  has_ip_rules : bool;
}.

Definition any_ip_rule (rs : list CompiledRule) : bool := existsb has_ip_restriction rs.

Definition LiveRouter_new (rs : list CompiledRule) (tag : bytes) (gi : geoip_db) (gs : geosite_db)
    (strategy : option bytes) : RouterInner :=
  mkRouterInner rs tag gi gs strategy (any_ip_rule rs).

(** [ArcSwap::store]: the whole inner state is replaced. *)
Definition LiveRouter_swap (inner : RouterInner) (rs : list CompiledRule) (tag : bytes)
    (gi : geoip_db) (gs : geosite_db) (strategy : option bytes) : RouterInner :=
  mkRouterInner rs tag gi gs strategy (any_ip_rule rs).

Fixpoint first_match (rs : list CompiledRule) (ctx : RoutingContext) (gi : geoip_db) (gs : geosite_db)
  : option bytes :=
  match rs with
  | [] => None
  | r :: rs =>
      if matches_with_geo r ctx gi gs then Some (outbound_tag r) else first_match rs ctx gi gs
  end.

Definition pick_route_match (inner : RouterInner) (ctx : RoutingContext) : bytes * bool :=
  match first_match (rules inner) ctx (geoip inner) (geosite inner) with
  | Some tag => (tag, true)
  | None => (default_tag inner, false)
  end.

Definition pick_route (inner : RouterInner) (ctx : RoutingContext) : res ProxyError bytes :=
  Ok (fst (pick_route_match inner ctx)).

End router.

Inductive RoutingDomainStrategy : Type := AsIs | IpIfNonMatch | IpOnDemand.

Definition normalize_routing_domain_strategy (strategy : option bytes) : RoutingDomainStrategy :=
  match to_ascii_lowercase <$> (trim <$> strategy) with
  | Some s =>
      if bytes_eqb s (lit "ipifnonmatch") then IpIfNonMatch
      else if bytes_eqb s (lit "ipondemand") then IpOnDemand
      else AsIs
  | None => AsIs
  end.

(** * Theorems: domain matching *)

Lemma find_dot_spec s k : find_dot s = Some k ->
  exists l r, s = l ++ DOT :: r /\ length l = k /\ DOT ∉ l.
Proof.
  revert k. induction s as [| b s IH]; intros k H; simpl in *; [done |].
  destruct (Z.eqb_spec b DOT) as [-> | Hb].
  - injection H as <-. exists [], s. split; [done |]. split; [done |]. set_solver.
  - destruct (find_dot s) as [j |]; [| done]. injection H as <-.
    destruct (IH j eq_refl) as (l & r & -> & <- & Hl).
    exists (b :: l), r. split; [done |]. split; [done |]. set_solver.
Qed.

Lemma find_dot_none s : find_dot s = None -> DOT ∉ s.
Proof.
  induction s as [| b s IH]; simpl; intros Hn; [set_solver |].
  destruct (Z.eqb_spec b DOT); [done |]. destruct (find_dot s); [done |]. set_solver.
Qed.

(** A suffix of the name that starts at a label boundary. *)
Definition label_suffix (name s : bytes) : Prop :=
  exists pre, name = pre ++ s /\ s <> [] /\ (pre = [] \/ exists p, pre = p ++ [DOT]).

Lemma suffix_walk_sound fuel suf lower start :
  label_suffix lower (drop start lower) \/ (length lower <= start)%nat ->
  suffix_walk fuel suf lower start = true -> exists s, s ∈ suf /\ label_suffix lower s.
Proof.
  revert start. induction fuel as [| fuel IH]; intros start Hst Hw; simpl in Hw; [done |].
  case_bool_decide as Hlt; [| done]. case_bool_decide as Hin.
  - destruct Hst as [Hst |]; [| lia]. eauto.
  - destruct (find_dot (drop start lower)) as [k |] eqn:Hd; [| done].
    apply (IH (start + (k + 1))%nat); [| done].
    apply find_dot_spec in Hd as (l & r & Hd & <- & _).
    destruct (decide (length lower <= start + (length l + 1))%nat) as [? | Hgt]; [by right |]. left.
    assert (Hl : lower = (take start lower ++ l ++ [DOT]) ++ r).
    { rewrite <- (take_drop start lower) at 1. rewrite Hd, <- !app_assoc. done. }
    assert (Hdrop : drop (start + (length l + 1)) lower = r).
    { rewrite Hl. apply drop_app_length'. rewrite !length_app, length_take. simpl. lia. }
    rewrite Hdrop. exists (take start lower ++ l ++ [DOT]). split; [done |]. split.
    + intros ->. rewrite app_nil_r in Hl. apply Hgt. rewrite Hl. rewrite !length_app, length_take. simpl. lia.
    + right. exists (take start lower ++ l). by rewrite <- app_assoc.
Qed.

Lemma first_split (x : Z) (l r p t : bytes) :
  l ++ x :: r = p ++ x :: t -> x ∉ l ->
  (l = p /\ r = t) \/ exists q, p = l ++ x :: q /\ r = q ++ x :: t.
Proof.
  revert p. induction l as [| a l IH]; intros [| y p] Heq Hl; simpl in *.
  - injection Heq as ->. by left.
  - injection Heq as -> ->. right. by exists p.
  - injection Heq as -> Heq. set_solver.
  - injection Heq as -> Heq. destruct (IH p Heq) as [[-> ->] | (q & -> & ->)]; [set_solver | by left |]. right. by exists q.
Qed.

Lemma suffix_walk_complete fuel suf lower start s :
  (length lower - start < fuel)%nat -> s ∈ suf -> s <> [] ->
  (exists pre, drop start lower = pre ++ s /\ (pre = [] \/ exists p, pre = p ++ [DOT])) ->
  suffix_walk fuel suf lower start = true.
Proof.
  revert start. induction fuel as [| fuel IH]; intros start Hf Hin Hne (pre & Hd & Hpre); [lia |].
  assert (Hlen : (length lower - start = length pre + length s)%nat).
  { rewrite <- length_drop, Hd. by rewrite length_app. }
  destruct s as [| b s']; [done |]. simpl in Hlen.
  cbn [suffix_walk]. rewrite bool_decide_eq_true_2 by lia. case_bool_decide as Hm; [done |].
  destruct Hpre as [-> | [p ->]]; [simpl in Hd; by rewrite Hd in Hm |].
  destruct (find_dot (drop start lower)) as [k |] eqn:Hk.
  2: { apply find_dot_none in Hk. rewrite Hd in Hk. set_solver. }
  apply find_dot_spec in Hk as (l & r & Hd2 & <- & Hl).
  apply IH; [lia | done | done |].
  rewrite <- drop_drop, Hd2. change (l ++ DOT :: r) with (l ++ [DOT] ++ r).
  rewrite app_assoc, drop_app_length' by (rewrite length_app; simpl; lia).
  rewrite Hd2, <- app_assoc in Hd. simpl in Hd.
  destruct (first_split _ _ _ _ _ Hd Hl) as [[_ ->] | (q & _ & ->)]; [by exists []; eauto |].
  exists (q ++ [DOT]). split; [by rewrite <- app_assoc | eauto].
Qed.

Lemma to_ascii_lowercase_id s : existsb is_ascii_uppercase s = false -> to_ascii_lowercase s = s.
Proof.
  induction s as [| b s IH]; simpl; [done |]. intros [Hb Hs]%orb_false_iff.
  unfold ascii_lower. rewrite Hb. f_equal. by apply IH.
Qed.

Lemma lower_of_ascii `{PatternLaws} s : is_ascii s -> lower_of s = to_ascii_lowercase s.
Proof.
  intros Hs. unfold lower_of. destruct (existsb is_ascii_uppercase s) eqn:He.
  - by apply to_lowercase_ascii.
  - by rewrite to_ascii_lowercase_id.
Qed.

(** The suffix condition of a matcher, declaratively. *)
Definition suffix_spec (suf : gset bytes) (name : bytes) : Prop :=
  exists s, s ∈ suf /\ label_suffix name s.

Lemma suffix_walk_spec suf name :
  suffix_walk (S (length name)) suf name 0 = true <-> suffix_spec suf name.
Proof.
  split.
  - intros Hw. eapply suffix_walk_sound, Hw. destruct name as [| b name]; [right; simpl; lia |].
    left. exists []. rewrite drop_0. naive_solver.
  - intros (s & Hin & pre & -> & Hne & Hpre). eapply suffix_walk_complete; [lia | done | done |].
    rewrite drop_0. eauto.
Qed.

(** Domain matching.  On ASCII names both matchers decide exactly the
    documented condition on the lower-cased name: it is a full entry, or a
    suffix entry starts at one of its label boundaries, or the keyword
    automaton or the regex set accepts it.  The walk over the labels always
    finishes within the length of the name. *)
Theorem domain_matcher_spec `{PatternLaws} (m : DomainMatcher) (name : bytes) :
  is_ascii name ->
  let lower := to_ascii_lowercase name in
  let spec := lower ∈ full m \/ suffix_spec (suffix m) lower
              \/ ac_is_match (keyword m) lower = true \/ rs_is_match (regex m) lower = true in
  (DomainMatcher_matches m name = true <-> spec) /\ (match_domain m name = true <-> spec).
Proof.
  intros Ha lower spec. unfold DomainMatcher_matches, match_domain. rewrite lower_of_ascii by done.
  fold lower. subst spec. rewrite <- suffix_walk_spec.
  case_bool_decide; destruct (suffix_walk _ _ _ _), (ac_is_match _ _), (rs_is_match _ _);
    split; naive_solver.
Qed.

(** ** An instance of the pattern libraries *)

Fixpoint contains_sub (k s : bytes) : bool :=
  is_prefix k s || match s with [] => false | _ :: s => contains_sub k s end.

(** Keywords by substring search; a regex without metacharacters is a substring
    search too. *)
#[global] Instance substring_patterns : PatternLib := {|
  AhoCorasick := list bytes;
  ac_build := Some;
  ac_is_match ks s := existsb (fun k => contains_sub (to_ascii_lowercase k) (to_ascii_lowercase s)) ks;
  RegexSet := list bytes;
  regex_ok _ := true;
  rs_new := Some;
  rs_empty := [];
  rs_is_match ks s := existsb (fun k => contains_sub k s) ks;
  to_lowercase := to_ascii_lowercase;
|}.

#[global] Instance substring_patterns_laws : PatternLaws.
Proof. constructor. done. Qed.

Definition example_matcher : DomainMatcher :=
  mkDomainMatcher ∅ {[ lit "example.com" ]} [lit "vpn"] [].

Lemma domain_matcher_spec_witness :
  DomainMatcher_matches example_matcher (lit "Sub.Example.COM") = true
  /\ DomainMatcher_matches example_matcher (lit "badexample.com") = false
  /\ (let lower := to_ascii_lowercase (lit "Sub.Example.COM") in
      let spec := lower ∈ full example_matcher \/ suffix_spec (suffix example_matcher) lower
                  \/ ac_is_match (keyword example_matcher) lower = true
                  \/ rs_is_match (regex example_matcher) lower = true in
      (DomainMatcher_matches example_matcher (lit "Sub.Example.COM") = true <-> spec)
      /\ (match_domain example_matcher (lit "Sub.Example.COM") = true <-> spec)).
Proof.
  split; [vm_compute; reflexivity |]. split; [vm_compute; reflexivity |].
  apply (domain_matcher_spec example_matcher (lit "Sub.Example.COM")).
  apply (bool_decide_unpack _). vm_compute. exact I.
Defined.

(** * Theorems: CIDR matching *)

Section cidr.
Context `{IpNetLaws}.

Definition netR (a b : IpNet) : Prop := net_le a b = true.

Lemma netR_iff a b : netR a b <->
  net_key_le (ip_family (net_addr a)) (ip_val (net_addr a)) (net_prefix a)
             (ip_family (net_addr b)) (ip_val (net_addr b)) (net_prefix b) = true.
Proof. unfold netR. by rewrite net_le_spec. Qed.

#[local] Instance netR_trans : Transitive netR.
Proof. intros a b c. rewrite !netR_iff. unfold net_key_le. lia. Qed.

#[local] Instance netR_total : Total netR.
Proof. intros a b. rewrite !netR_iff. unfold net_key_le. lia. Qed.

#[local] Instance netR_dec : RelDecision netR := net_le_dec.

Lemma sort_unstable_sorted l : StronglySorted netR (sort_unstable l).
Proof. apply (StronglySorted_merge_sort netR l). Qed.

Lemma sort_unstable_perm l : sort_unstable l ≡ₚ l.
Proof. apply (merge_sort_Permutation netR l). Qed.

(** The sorted list splits at the partition point. *)
Lemma partition_point_split {A} (f : A -> bool) l :
  exists l1 l2, l = l1 ++ l2 /\ length l1 = partition_point f l
    /\ Forall (fun x => f x = true) l1 /\ (forall x l3, l2 = x :: l3 -> f x = false).
Proof.
  induction l as [| x l IH]; simpl; [by exists [], [] |].
  destruct (f x) eqn:Hx.
  - destruct IH as (l1 & l2 & -> & Hl & HF & Hn). exists (x :: l1), l2. simpl.
    split; [done |]. split; [by rewrite Hl |]. split; [by constructor | done].
  - exists [], (x :: l). split; [done |]. split; [done |]. split; [constructor |].
    intros ? ? [= <- _]. done.
Qed.

(** The address of a network has no host bits. *)
Definition truncated (n : IpNet) : Prop :=
  let k := ip_width (net_addr n) - net_prefix n in
  ip_val (net_addr n) = Z.shiftl (Z.shiftr (ip_val (net_addr n)) k) k.

Definition disjoint_nets (l : list IpNet) : Prop :=
  forall x y i, x ∈ l -> y ∈ l -> x <> y -> wf_ip i ->
  net_contains x i = true -> net_contains y i = true -> False.

Lemma family_width i j : ip_family i = ip_family j -> ip_width i = ip_width j.
Proof. by destruct i, j. Qed.

Lemma shift_down_le v k : 0 <= k -> Z.shiftl (Z.shiftr v k) k <= v.
Proof.
  intros. rewrite Z.shiftr_div_pow2, Z.shiftl_mul_pow2 by lia.
  assert (0 < 2 ^ k) by (apply Z.pow_pos_nonneg; lia). assert (v mod 2 ^ k >= 0) by (apply Z.le_ge, Z.mod_pos_bound; lia).
  pose proof (Z.div_mod v (2 ^ k)). lia.
Qed.

Lemma shiftr_mono a b k : 0 <= k -> a <= b -> Z.shiftr a k <= Z.shiftr b k.
Proof. intros. rewrite !Z.shiftr_div_pow2 by lia. apply Z.div_le_mono; [apply Z.pow_pos_nonneg; lia | lia]. Qed.

Lemma contains_self n : net_contains n (net_addr n) = true.
Proof. by apply net_contains_spec. Qed.

Lemma contains_le_probe n i probe :
  truncated n -> net_contains n i = true -> net_new i (full_prefix i) = Some probe -> netR n probe.
Proof.
  intros Ht [Hf Hs]%net_contains_spec Hp. apply net_new_spec in Hp as (_ & Ha & Hpp).
  apply netR_iff. rewrite Ha, Hpp. unfold truncated in Ht.
  assert (Hw := family_width _ _ Hf). assert (Hpr := net_prefix_range n). rewrite Hw in *.
  assert (Hle := shift_down_le (ip_val i) (ip_width i - net_prefix n) ltac:(lia)).
  rewrite Hs, <- Ht in Hle. unfold net_key_le.
  assert (full_prefix i = ip_width i) by (by destruct i). lia.
Qed.

(** A network between [n] and the probe overlaps [n]. *)
Lemma between_overlaps n x i probe :
  net_contains n i = true -> net_new i (full_prefix i) = Some probe ->
  netR n x -> netR x probe -> net_contains n (net_addr x) = true.
Proof.
  intros [Hf Hs]%net_contains_spec Hp Hnx Hxp. apply net_new_spec in Hp as (_ & Ha & Hpp).
  rewrite netR_iff in Hnx, Hxp. rewrite Ha, Hpp in Hxp. unfold net_key_le in *.
  assert (Hfx : ip_family (net_addr x) = ip_family i) by lia.
  apply net_contains_spec. split; [lia |].
  assert (Hpr := net_prefix_range n). rewrite (family_width _ _ Hf) in Hpr.
  rewrite (family_width _ _ Hfx). set (k := ip_width i - net_prefix n) in *.
  assert (Hk : 0 <= k) by lia.
  assert (H1 := shiftr_mono (ip_val (net_addr n)) (ip_val (net_addr x)) k Hk ltac:(lia)).
  assert (H2 := shiftr_mono (ip_val (net_addr x)) (ip_val i) k Hk ltac:(lia)). lia.
Qed.

Lemma sorted_last_ge (l : list IpNet) z n :
  StronglySorted netR (l ++ [z]) -> n ∈ l ++ [z] -> netR n z \/ n = z.
Proof.
  induction l as [| x l IH]; simpl; intros Hs Hin; [set_solver |].
  apply StronglySorted_inv in Hs as [Hs HF]. apply list_elem_of_In, in_inv in Hin as [-> | Hin].
  - left. rewrite Forall_forall in HF. apply HF. set_solver.
  - apply IH; [done | by apply list_elem_of_In].
Qed.

Lemma StronglySorted_app_l (l k : list IpNet) : StronglySorted netR (l ++ k) -> StronglySorted netR l.
Proof.
  induction l as [| x l IH]; simpl; [constructor |]. intros [Hs HF]%StronglySorted_inv.
  constructor; [by apply IH |]. by apply Forall_app in HF as [? _].
Qed.

Lemma StronglySorted_app_r (l k : list IpNet) : StronglySorted netR (l ++ k) -> StronglySorted netR k.
Proof. induction l as [| x l IH]; simpl; [done |]. intros [Hs _]%StronglySorted_inv. by apply IH. Qed.

(** The scan of the last four candidates, as both matchers perform it. *)
Definition scan (l : list IpNet) (i : IpAddr) : bool :=
  match net_new i (full_prefix i) with
  | None => existsb (fun net => net_contains net i) l
  | Some probe =>
      let idx := partition_point (fun net => net_le net probe) l in
      existsb (fun net => net_contains net i) (reverse (drop (idx - 4) (take idx l)))
  end.

Lemma scan_sound l i : scan l i = true -> exists n, n ∈ l /\ net_contains n i = true.
Proof.
  unfold scan. destruct (net_new i (full_prefix i)); intros (n & Hn & Hc)%existsb_exists;
    exists n; (split; [| done]); apply list_elem_of_In in Hn; [| done].
  rewrite elem_of_reverse in Hn.
  eapply subseteq_drop, elem_of_take in Hn as (k & Hk & _). by eapply list_elem_of_lookup_2.
Qed.

Lemma scan_complete l i n :
  StronglySorted netR l -> (forall x, x ∈ l -> truncated x) -> disjoint_nets l -> wf_ip i ->
  n ∈ l -> net_contains n i = true -> scan l i = true.
Proof.
  intros Hs Ht Hdis Hwf Hin Hc.
  assert (Hpr : 0 <= full_prefix i <= ip_width i) by (destruct i; simpl; lia).
  destruct (net_new_some i (full_prefix i) Hwf Hpr) as [probe Hp].
  assert (Hnp := contains_le_probe n i probe (Ht n Hin) Hc Hp).
  unfold scan. rewrite Hp.
  destruct (partition_point_split (fun net => net_le net probe) l) as (l1 & l2 & -> & Hl & HF & Hn).
  cbn zeta. rewrite <- Hl, take_app_length.
  assert (Hin1 : n ∈ l1).
  { apply elem_of_app in Hin as [? | Hin2]; [done | exfalso]. destruct l2 as [| x l2]; [set_solver |].
    assert (Hx := Hn x l2 eq_refl). assert (Hxn : x = n \/ netR x n).
    { apply StronglySorted_app_r in Hs. apply StronglySorted_inv in Hs as [_ HFx].
      apply elem_of_cons in Hin2 as [-> | Hin2]; [by left | right].
      rewrite Forall_forall in HFx. by apply HFx. }
    assert (Hxp : netR x probe) by (destruct Hxn as [-> | Hxn]; [done | by transitivity n]).
    unfold netR in Hxp. congruence. }
  destruct l1 as [| z l1 _] using rev_ind; [set_solver |].
  apply existsb_exists. exists z. split.
  - apply list_elem_of_In, elem_of_reverse. rewrite length_app, drop_app_le by (simpl; lia). set_solver.
  - destruct (sorted_last_ge l1 z n (StronglySorted_app_l _ _ Hs) Hin1) as [Hnz | <-]; [| done].
    apply Forall_app in HF as [_ HFz]. apply Forall_cons_iff in HFz as [Hzp _].
    destruct (decide (net_contains z i = true)) as [| Hzc]; [done | exfalso].
    assert (Hov := between_overlaps n z i probe Hc Hp Hnz Hzp).
    eapply (Hdis n z (net_addr z)); [set_solver | set_solver | by intros -> | apply net_addr_wf | done |].
    apply contains_self.
Qed.

Lemma IpMatcher_scan m i : IpMatcher_matches m i = scan (ranges m) i.
Proof.
  destruct m as [[| x l]]; [| done]. unfold IpMatcher_matches, scan. simpl.
  by destruct (net_new i (full_prefix i)).
Qed.

Lemma GeoIp_scan m i : match_ip m i = scan (geo_ranges m) i.
Proof.
  destruct m as [[| x l]]; [| done]. unfold match_ip, scan. simpl.
  by destruct (net_new i (full_prefix i)).
Qed.

Lemma scan_sorted_spec l i :
  (forall x, x ∈ l -> truncated x) -> disjoint_nets l -> wf_ip i ->
  scan (sort_unstable l) i = true <-> exists n, n ∈ l /\ net_contains n i = true.
Proof.
  intros Ht Hd Hw. assert (Hp := sort_unstable_perm l). split.
  - intros (n & Hn & Hc)%scan_sound. exists n. by rewrite Hp in Hn.
  - intros (n & Hn & Hc). apply (scan_complete _ _ n); [apply sort_unstable_sorted | | | done | | done].
    + intros x Hx. apply Ht. by rewrite Hp in Hx.
    + intros x y j Hx Hy. apply Hd; by rewrite <- Hp.
    + by rewrite Hp.
Qed.

(** CIDR matching.  For a list of pairwise disjoint networks without host
    bits, the binary search with its short backward scan decides exactly
    whether some configured network contains the address, for the routing
    matcher and for the GeoIP matcher; and whatever the list, neither matcher
    reports an address that no network contains. *)
Theorem cidr_match_spec (l : list IpNet) (i : IpAddr) :
  (forall x, x ∈ l -> truncated x) -> disjoint_nets l -> wf_ip i ->
  let spec := exists n, n ∈ l /\ net_contains n i = true in
  (IpMatcher_matches (mkIpMatcher (sort_unstable l)) i = true <-> spec)
  /\ (match_ip (GeoIp_from_ranges l) i = true <-> spec)
  /\ (forall l', match_ip (GeoIp_from_ranges l') i = true ->
       exists n, n ∈ l' /\ net_contains n i = true).
Proof.
  intros Ht Hd Hw spec. rewrite IpMatcher_scan. setoid_rewrite GeoIp_scan. simpl.
  split; [by apply scan_sorted_spec |]. split; [by apply scan_sorted_spec |].
  intros l' (n & Hn & Hc)%scan_sound. exists n. by rewrite sort_unstable_perm in Hn.
Qed.

End cidr.

(** ** An instance of the network library *)

Record CidrNet : Type := mkCidrNet {
  cn_addr : IpAddr;
  cn_prefix : Z;
  cn_ok : bool_decide (wf_ip cn_addr /\ 0 <= cn_prefix <= ip_width cn_addr) = true;
}.

Definition cidr_new (i : IpAddr) (p : Z) : option CidrNet :=
  match decide (bool_decide (wf_ip i /\ 0 <= p <= ip_width i) = true) with
  | left e => Some (mkCidrNet i p e)
  | right _ => None
  end.

#[global] Instance cidr_ops : IpNetOps := {|
  IpNet := CidrNet;
  net_new := cidr_new;
  net_parse _ := None;
  net_addr := cn_addr;
  net_prefix := cn_prefix;
  net_le a b := net_key_le (ip_family (cn_addr a)) (ip_val (cn_addr a)) (cn_prefix a)
                           (ip_family (cn_addr b)) (ip_val (cn_addr b)) (cn_prefix b);
  net_contains n i := (ip_family (cn_addr n) =? ip_family i)
    && (Z.shiftr (ip_val i) (ip_width i - cn_prefix n)
        =? Z.shiftr (ip_val (cn_addr n)) (ip_width i - cn_prefix n));
|}.

Lemma cidr_new_cases i p :
  (exists e, cidr_new i p = Some (mkCidrNet i p e)) \/ (cidr_new i p = None /\ ~ (wf_ip i /\ 0 <= p <= ip_width i)).
Proof.
  unfold cidr_new. destruct (decide _) as [e | Hn]; [eauto |].
  right. split; [done |]. by rewrite bool_decide_eq_true in Hn.
Qed.

#[global] Instance cidr_laws : IpNetLaws.
Proof.
  split; simpl.
  - intros i p n Hn. destruct (cidr_new_cases i p) as [[e He] | [He _]]; rewrite He in Hn; [| done].
    injection Hn as <-. assert (H := e). apply bool_decide_eq_true in H as [_ H]. done.
  - intros i p Hw Hp. destruct (cidr_new_cases i p) as [[e He] | [_ Hn]]; [eauto |]. by destruct Hn.
  - intros [i p e]. simpl. assert (H := e). by apply bool_decide_eq_true in H as [_ H].
  - intros [i p e]. simpl. assert (H := e). by apply bool_decide_eq_true in H as [H _].
  - done.
  - intros n i. rewrite andb_true_iff, !Z.eqb_eq. done.
Qed.

Definition net4 (o : bytes) (p : Z)
    (e : bool_decide (wf_ip (V4 o) /\ 0 <= p <= 32) = true) : CidrNet := mkCidrNet (V4 o) p e.

Definition net_10_8 : CidrNet := net4 [10; 0; 0; 0] 8 eq_refl.
Definition net_192_168_16 : CidrNet := net4 [192; 168; 0; 0] 16 eq_refl.

Lemma example_nets_disjoint : disjoint_nets [net_10_8; net_192_168_16].
Proof.
  assert (Hd : forall i, wf_ip i -> net_contains net_10_8 i = true -> net_contains net_192_168_16 i = true -> False).
  { intros i _ [Hf H1]%net_contains_spec [_ H2]%net_contains_spec. destruct i as [o | o]; [| done].
    simpl in H1, H2. change (32 - 8) with (16 + 8) in H1. rewrite <- Z.shiftr_shiftr in H1 by lia.
    change (32 - 16) with 16 in H2. rewrite H2 in H1. vm_compute in H1. done. }
  intros x y i Hx Hy Hne Hw Hcx Hcy.
  apply elem_of_cons in Hx as [-> | Hx%list_elem_of_singleton]; subst;
    apply elem_of_cons in Hy as [-> | Hy%list_elem_of_singleton]; subst; try done; by eapply Hd.
Qed.

Lemma cidr_match_spec_witness :
  let l := [net_10_8; net_192_168_16] in
  let spec := exists n, n ∈ l /\ net_contains n (V4 [192; 168; 3; 4]) = true in
  (IpMatcher_matches (mkIpMatcher (sort_unstable l)) (V4 [192; 168; 3; 4]) = true <-> spec)
  /\ (match_ip (GeoIp_from_ranges l) (V4 [192; 168; 3; 4]) = true <-> spec)
  /\ (forall l', match_ip (GeoIp_from_ranges l') (V4 [192; 168; 3; 4]) = true ->
       exists n, n ∈ l' /\ net_contains n (V4 [192; 168; 3; 4]) = true).
Proof.
  apply (@cidr_match_spec cidr_ops cidr_laws [net_10_8; net_192_168_16] (V4 [192; 168; 3; 4])).
  - intros x Hx. apply elem_of_cons in Hx as [-> | Hx%list_elem_of_singleton]; [| subst];
      vm_compute; reflexivity.
  - exact example_nets_disjoint.
  - apply (bool_decide_unpack _). vm_compute. exact I.
Defined.

(** 10.0.0.0/8 and five of its subnetworks. *)
Definition nested_nets : list CidrNet :=
  [net_10_8; net4 [10; 1; 0; 0] 16 eq_refl; net4 [10; 2; 0; 0] 16 eq_refl;
   net4 [10; 3; 0; 0] 16 eq_refl; net4 [10; 4; 0; 0] 16 eq_refl; net4 [10; 5; 0; 0] 16 eq_refl].

(** Outside that condition addresses are missed.  With 10.0.0.0/8 and five
    /16 networks inside it the matchers deny 10.9.9.9, which the /8 contains,
    and a network written with host bits (10.1.2.3/8) does not match 10.0.0.1,
    which it contains. *)
Theorem cidr_match_misses :
  net_contains net_10_8 (V4 [10; 9; 9; 9]) = true
  /\ IpMatcher_matches (mkIpMatcher (sort_unstable nested_nets)) (V4 [10; 9; 9; 9]) = false
  /\ match_ip (GeoIp_from_ranges nested_nets) (V4 [10; 9; 9; 9]) = false
  /\ (let n := net4 [10; 1; 2; 3] 8 eq_refl in
      net_contains n (V4 [10; 0; 0; 1]) = true
      /\ IpMatcher_matches (mkIpMatcher (sort_unstable [n])) (V4 [10; 0; 0; 1]) = false).
Proof. repeat split; vm_compute; reflexivity. Qed.

(** * Theorems: routing *)

Section routing.
Context `{IpNetOps} `{PatternLib}.

Lemma first_match_spec rs ctx gi gs tag :
  first_match rs ctx gi gs = Some tag <->
  exists l1 r l2, rs = l1 ++ r :: l2 /\ outbound_tag r = tag
    /\ matches_with_geo r ctx gi gs = true
    /\ Forall (fun r' => matches_with_geo r' ctx gi gs = false) l1.
Proof.
  induction rs as [| r rs IH]; simpl.
  - split; [done |]. by intros ([] & ? & ? & ? & _).
  - destruct (matches_with_geo r ctx gi gs) eqn:Hm.
    + split; [intros [= <-]; by exists [], r, rs |].
      intros (l1 & r' & l2 & Heq & <- & Hr' & HF). destruct l1 as [| x l1]; injection Heq as -> ->; [done |].
      apply Forall_cons_iff in HF as [HF _]. congruence.
    + rewrite IH. split.
      * intros (l1 & r' & l2 & -> & Ht & Hr' & HF). exists (r :: l1), r', l2. eauto.
      * intros (l1 & r' & l2 & Heq & Ht & Hr' & HF). destruct l1 as [| x l1]; injection Heq as -> ->; [congruence |].
        apply Forall_cons_iff in HF as [_ HF]. eauto 10.
Qed.

Lemma first_match_none rs ctx gi gs :
  first_match rs ctx gi gs = None <-> Forall (fun r => matches_with_geo r ctx gi gs = false) rs.
Proof.
  induction rs as [| r rs IH]; simpl; [by split |]. rewrite Forall_cons_iff.
  destruct (matches_with_geo r ctx gi gs); [split; [done | by intros [? _]] |]. rewrite IH. naive_solver.
Qed.

(** First match wins.  The router reports a rule match exactly when some
    rule matches and no earlier one does, with that rule's tag, and the default
    tag exactly when no rule matches; after a swap every decision is the new
    configuration's. *)
Theorem pick_route_first_match (inner : RouterInner) (ctx : RoutingContext) (tag : bytes) :
  (pick_route_match inner ctx = (tag, true) <->
   exists l1 r l2, rules inner = l1 ++ r :: l2 /\ outbound_tag r = tag
     /\ matches_with_geo r ctx (geoip inner) (geosite inner) = true
     /\ Forall (fun r' => matches_with_geo r' ctx (geoip inner) (geosite inner) = false) l1)
  /\ (pick_route_match inner ctx = (tag, false) <->
      default_tag inner = tag
      /\ Forall (fun r => matches_with_geo r ctx (geoip inner) (geosite inner) = false) (rules inner))
  /\ (forall rs t gi gs st,
      pick_route_match (LiveRouter_swap inner rs t gi gs st) ctx
      = pick_route_match (LiveRouter_new rs t gi gs st) ctx).
Proof.
  rewrite <- first_match_spec, <- first_match_none. unfold pick_route_match.
  destruct (first_match _ _ _ _); naive_solver.
Qed.

(** A rule without an IP condition does not see the address. *)
Lemma matches_no_ip r ctx ctx' gi gi' gs :
  has_ip_restriction r = false ->
  rc_inbound_tag ctx = rc_inbound_tag ctx' -> rc_sniffed_protocol ctx = rc_sniffed_protocol ctx' ->
  port (rc_dest ctx) = port (rc_dest ctx') -> domain_name ctx = domain_name ctx' ->
  matches_with_geo r ctx gi gs = matches_with_geo r ctx' gi' gs.
Proof.
  intros Hr Hi Hp Hpo Hd. unfold matches_with_geo, inbound_ok, protocol_ok, port_ok, domain_ok, ip_ok.
  by rewrite Hr, Hi, Hp, Hpo, Hd.
Qed.

End routing.
