(* ===== verification/Sniff.v ===== *)
(** Traffic sniffing ([crates/blackwire-app/src/sniff.rs]): the server name of a
    TLS ClientHello, the Host header of a plain HTTP request, and the rewriting
    of destinations. *)

From stdpp Require Import base list sets strings numbers.
From S2P Require Import Prelude Text Address.

Record SniffResult : Type := mkSniffResult {
  sr_protocol : option bytes;
  sr_domain : option bytes;
}.

Definition SniffResult_default : SniffResult := mkSniffResult None None.

Record SniffingConfig : Type := mkSniffingConfig {
  enabled : bool;
  metadata_only : bool;
  route_only : bool;
  dest_override : list bytes;
}.

Definition wants (config : SniffingConfig) (p : string) : bool :=
  bool_decide (lit p ∈ dest_override config).

(** * TLS *)

Abbreviation parse := (res Empty_set).

(** [u16::from_be_bytes([data[i], data[i + 1]])]. *)
Definition be16_at (data : bytes) (i : Z) : parse Z :=
  a ← idx data i; b ← idx data (i + 1); Ok (be_val [a; b]).

(** The walk over the extensions; each takes at least four bytes. *)
Fixpoint sni_walk (fuel : nat) (data : bytes) (pos stop : Z) : parse (option bytes) :=
  match fuel with
  | O => NoFuel
  | S fuel =>
      if pos + 4 <=? Z.min stop (zlen data) then
        etype ← be16_at data pos;
        elen ← be16_at data (pos + 2);
        let pos := pos + 4 in
        if pos + elen >? zlen data then Ok None
        else
          hit ← (if (etype =? 0) && (elen >? 5) then
                   t ← idx data (pos + 2); Ok (t =? 0)
                 else Ok false);
          if hit : bool then
            name_len ← be16_at data (pos + 3);
            if pos + 5 + name_len <=? zlen data then
              name ← slice data (pos + 5) (pos + 5 + name_len);
              Ok (if utf8_valid name then Some name else None)
            else sni_walk fuel data (pos + elen) stop
          else sni_walk fuel data (pos + elen) stop
      else Ok None
  end.

(** [tls_sni] from the session id on. *)
Definition tls_sni_body (data : bytes) : parse (option bytes) :=
  let pos := 5 + 4 + (2 + 32 + 1) in
  if pos + 2 >? zlen data then Ok None
  else
    sess_len ← be16_at data pos;
    let pos := pos + (2 + sess_len) in
    if pos + 2 >? zlen data then Ok None
    else
      suites_len ← be16_at data pos;
      let pos := pos + (2 + suites_len) in
      if pos >=? zlen data then Ok None
      else
        comp_len ← idx data pos;
        let pos := pos + (1 + comp_len) in
        if pos + 2 >? zlen data then Ok None
        else
          ext_len ← be16_at data pos;
          let pos := pos + 2 in
          sni_walk (length data) data pos (pos + ext_len).

Definition tls_sni (data : bytes) : parse (option bytes) :=
  if zlen data <? 5 then Ok None
  else
    b0 ← idx data 0;
    if negb (b0 =? 0x16) then Ok None
    else
      let pos := 5 in
      if pos >=? zlen data then Ok None
      else
        ht ← idx data pos;
        if negb (ht =? 0x01) then Ok None
        else tls_sni_body data.

(** * HTTP *)

Definition METHODS : list bytes := lit <$> ["GET "; "POST "; "PUT "; "HEAD "; "CONNECT "].

Fixpoint host_header (hs : list bytes) : option bytes :=
  match hs with
  | [] => None
  | line :: hs =>
      if zlen line =? 0 then None
      else
        match strip_prefix (lit "host:") (to_ascii_lowercase line) with
        | Some rest =>
            let host := before_sep 58 (trim rest) in
            if zlen host =? 0 then host_header hs else Some host
        | None => host_header hs
        end
  end.

Definition http_host (data : bytes) : option bytes :=
  if utf8_valid data then
    match lines data with
    | [] => None
    | first :: rest =>
        if existsb (fun m => is_prefix m first) METHODS then host_header rest else None
    end
  else None.

(** * Decisions *)

Definition analyze_peek (peek : bytes) (config : SniffingConfig) : parse SniffResult :=
  tls ← (if wants config "tls" then tls_sni peek else Ok None);
  match tls with
  | Some domain => Ok (mkSniffResult (Some (lit "tls")) (Some domain))
  | None =>
      match (if wants config "http" then http_host peek else None) with
      | Some host => Ok (mkSniffResult (Some (lit "http")) (Some host))
      | None => Ok SniffResult_default
      end
  end.

Definition apply_dest_override (dest : Address) (sniff : SniffResult) (config : SniffingConfig)
  : Address :=
  if negb (enabled config) || route_only config then dest
  else
    match sr_domain sniff with
    | None => dest
    | Some domain =>
        match dest with
        | Ipv4 _ p | Ipv6 _ p =>
            if wants config "http" || wants config "tls" || wants config "fakedns"
            then Domain domain p else dest
        | other => other
        end
    end.

(** [reverse_fake] of the DNS module is an argument. *)
Definition sniff_fakedns (dest : Address) (reverse_fake : bytes -> option bytes) : SniffResult :=
  match dest with
  | Ipv4 ip _ =>
      match reverse_fake ip with
      | Some domain => mkSniffResult (Some (lit "fakedns")) (Some domain)
      | None => SniffResult_default
      end
  | _ => SniffResult_default
  end.

(** The first read of the connection within the timeout. *)
Inductive FirstRead : Type :=
| ReadBytes (b : bytes)
| ReadTimeout
| ReadError (k : IoKind).

Definition read_bytes (r : FirstRead) : bytes := match r with ReadBytes b => b | _ => [] end.

Definition MAX_SNIFF : Z := 8192.

(** What follows the read: the bytes are put back in front of the stream; when
    nothing was read the stream is handed on as it came. *)
Definition sniff_bytes (config : SniffingConfig) (got rest : bytes) : res ProxyError (bytes * SniffResult) :=
  let peek := take (Z.to_nat MAX_SNIFF) got in
  let rest := drop (Z.to_nat MAX_SNIFF) got ++ rest in
  if zlen peek =? 0 then Ok (rest, SniffResult_default)
  else
    result ← map_err (fun e : Empty_set => match e with end) (analyze_peek peek config);
    Ok (peek ++ rest, result).

Definition sniff_stream (config : SniffingConfig) (read : FirstRead) (rest : bytes)
  : res ProxyError (bytes * SniffResult) :=
  if negb (enabled config) || metadata_only config
  then Ok (read_bytes read ++ rest, SniffResult_default)
  else
    match read with
    | ReadBytes got => sniff_bytes config got rest
    | ReadError k => Err (Io k)
    | ReadTimeout => sniff_bytes config [] rest
    end.

(** * Theorems *)

(** A computation that yields a value: no panic and no missing fuel. *)
Definition yields {E A} (m : res E A) : Prop := exists a, m = Ok a.

Lemma yields_bind {E A B} (m : res E A) (f : A -> res E B) :
  yields m -> (forall a, m = Ok a -> yields (f a)) -> yields (m ≫= f).
Proof. intros [a ->] Hf. by apply Hf. Qed.

Lemma be16_at_yields data i :
  bytes_ok data -> 0 <= i -> i + 2 <= zlen data -> exists v, be16_at data i = Ok v /\ is_u 16 v.
Proof.
  intros Hok Hi Hl. unfold be16_at.
  destruct (idx_in_range (E:=Empty_set) data i ltac:(lia)) as (a & Ha & _).
  destruct (idx_in_range (E:=Empty_set) data (i + 1) ltac:(lia)) as (b & Hb & _).
  rewrite Ha. simpl. rewrite Hb. simpl. eexists. split; [done |].
  apply is_u16_be_val; by eapply idx_bytes_ok.
Qed.

Ltac yields_step :=
  match goal with
  | |- yields (if ?b then _ else _) => zdestruct b; [by eexists |]
  | |- yields (be16_at ?d ?i ≫= _) =>
      let v := fresh "v" in let Hv := fresh "Hv" in let Hu := fresh "Hu" in
      destruct (be16_at_yields d i) as (v & Hv & Hu); [assumption | len_solve | len_solve |];
      rewrite Hv; cbn [mbind res_bind]; cbv beta zeta
  | |- yields (idx ?d ?i ≫= _) =>
      let v := fresh "b" in let Hv := fresh "Hv" in
      destruct (idx_in_range (E:=Empty_set) d i) as (v & Hv & _); [len_solve |];
      rewrite Hv; cbn [mbind res_bind]; apply idx_bytes_ok in Hv; [| assumption]; cbv beta zeta
  end.

Lemma sni_walk_yields fuel data pos stop :
  bytes_ok data -> 0 <= pos -> (0 < fuel)%nat -> zlen data - pos < Z.of_nat fuel ->
  yields (sni_walk fuel data pos stop).
Proof.
  intros Hok. revert pos. induction fuel as [| fuel IH]; intros pos Hp Hf Hl; [lia |].
  cbn [sni_walk]. zdestruct (pos + 4 <=? Z.min stop (zlen data)); [| by eexists].
  do 2 yields_step. yields_step.
  assert (Hrec : yields (sni_walk fuel data (pos + 4 + v0) stop)) by (apply IH; len_solve).
  destruct ((v =? 0) && (v0 >? 5)) eqn:He; [| exact Hrec].
  apply andb_true_iff in He as [_ He%Z.gtb_lt].
  destruct (idx_in_range (E:=Empty_set) data (pos + 4 + 2)) as (b & Hb & _); [len_solve |].
  rewrite Hb. simpl. destruct (b =? 0); [| exact Hrec].
  yields_step. zdestruct (pos + 4 + 5 + v1 <=? zlen data); [| exact Hrec].
  rewrite slice_in_range by len_solve. by eexists.
Qed.

Lemma tls_sni_yields data : bytes_ok data -> yields (tls_sni data).
Proof.
  intros Hok. unfold tls_sni. do 2 yields_step.
  destruct (negb (b =? 22)); [by eexists |]. do 2 yields_step.
  destruct (negb (b0 =? 1)); [by eexists |]. unfold tls_sni_body. cbv zeta. do 8 yields_step.
  apply sni_walk_yields; [done | len_solve | unfold zlen in *; lia |].
  change (Z.of_nat (length data)) with (zlen data). len_solve.
Qed.

Lemma analyze_peek_yields peek config : bytes_ok peek -> yields (analyze_peek peek config).
Proof.
  intros Hok. unfold analyze_peek. apply yields_bind.
  - destruct (wants config "tls"); [by apply tls_sni_yields | by eexists].
  - intros [d |] _; [by eexists |].
    destruct (if wants config "http" then http_host _ else None); by eexists.
Qed.

(** Whether the sniffer reads at all. *)
Definition sniffs (config : SniffingConfig) : bool := enabled config && negb (metadata_only config).

Lemma sniff_bytes_same config got rest :
  bytes_ok got -> exists r, sniff_bytes config got rest = Ok (got ++ rest, r).
Proof.
  intros Hok. unfold sniff_bytes. destruct (Z.eqb_spec (zlen (take (Z.to_nat MAX_SNIFF) got)) 0) as [E |].
  - eexists. destruct (take (Z.to_nat MAX_SNIFF) got) eqn:Ht; [| len_solve].
    rewrite <- (take_drop (Z.to_nat MAX_SNIFF) got) at 2. by rewrite Ht.
  - destruct (analyze_peek_yields (take (Z.to_nat MAX_SNIFF) got) config) as [r ->];
      [by apply Forall_take |].
    eexists. simpl. by rewrite app_assoc, take_drop.
Qed.

Lemma sniff_stream_same (config : SniffingConfig) (read : FirstRead) (rest : bytes) :
  bytes_ok (read_bytes read) ->
  (exists r, sniff_stream config read rest = Ok (read_bytes read ++ rest, r)
             /\ (sniffs config = false -> r = SniffResult_default))
  \/ (sniffs config = true /\ exists k, read = ReadError k /\ sniff_stream config read rest = Err (Io k)).
Proof.
  intros Hok. unfold sniff_stream, sniffs.
  destruct (enabled config); [| left; by eexists]. destruct (metadata_only config); [left; by eexists |].
  cbn [negb orb andb]. destruct read as [b | | k]; [left | left | right; eauto];
    (edestruct sniff_bytes_same as [r Hr]; [exact Hok |]; exists r; split; [exact Hr | done]).
Qed.

(** C37. Sniffing is transparent and total: for every outcome of the first read
    and every configuration a result is produced, without a panic, and the
    stream handed on carries exactly the bytes that were received; with sniffing
    off or restricted to metadata nothing is reported.  The only error is that
    of the read itself, and only when the sniffer reads. *)
Theorem sniff_stream_transparent (config : SniffingConfig) (read : FirstRead) (rest : bytes) :
  bytes_ok (read_bytes read) ->
  (exists r, sniff_stream config read rest = Ok (read_bytes read ++ rest, r)
             /\ (sniffs config = false -> r = SniffResult_default))
  \/ (sniffs config = true /\ exists k, read = ReadError k /\ sniff_stream config read rest = Err (Io k)).
Proof. apply sniff_stream_same. Qed.

Lemma sniff_stream_transparent_witness :
  exists r, sniff_stream (mkSniffingConfig true false false [lit "tls"; lit "http"])
              (ReadBytes (lit "GET / HTTP/1.1")) [1]
            = Ok (lit "GET / HTTP/1.1" ++ [1], r).
Proof.
  destruct (sniff_stream_transparent (mkSniffingConfig true false false [lit "tls"; lit "http"])
           (ReadBytes (lit "GET / HTTP/1.1")) [1]) as [(r & Hr & _) | (_ & k & Hk & _)].
  - apply (bool_decide_unpack _). vm_compute. exact I.
  - exists r. exact Hr.
  - discriminate Hk.
Defined.

(** ** ClientHello layouts *)

(** A ClientHello as the TLS standard and the comment above [tls_sni] lay it
    out, with a one-byte session-id length. *)
Definition client_hello (version random session suites comps exts : bytes) : bytes :=
  let body := version ++ random ++ [zlen session] ++ session
              ++ be_bytes 2 (zlen suites) ++ suites ++ [zlen comps] ++ comps
              ++ be_bytes 2 (zlen exts) ++ exts in
  [0x16; 3; 1] ++ be_bytes 2 (4 + zlen body) ++ [1] ++ be_bytes 3 (zlen body) ++ body.

(** An extension, and the server_name extension for a host name. *)
Definition extension (etype : Z) (data : bytes) : bytes :=
  be_bytes 2 etype ++ be_bytes 2 (zlen data) ++ data.
Definition sni_data (name : bytes) : bytes :=
  be_bytes 2 (3 + zlen name) ++ [0] ++ be_bytes 2 (zlen name) ++ name.

Lemma be16_at_app (l r : bytes) v i :
  is_u 16 v -> i = zlen l -> be16_at (l ++ be_bytes 2 v ++ r) i = Ok v.
Proof.
  intros Hv ->. unfold be16_at. rewrite be_bytes_2. cbn [app].
  erewrite rbind_ok; [| by apply idx_app_mid].
  erewrite rbind_ok; [| by apply (idx_shift l _ _ 1)].
  by rewrite be_val_2_port.
Qed.

Lemma be16_at_split (data l r : bytes) v i :
  data = l ++ be_bytes 2 v ++ r -> is_u 16 v -> i = zlen l -> be16_at data i = Ok v.
Proof. intros ->. apply be16_at_app. Qed.

(** The nine bytes before the ClientHello fields. *)
Definition hello_hdr (hdr : bytes) : Prop :=
  exists a b c d e f g, hdr = [0x16; a; b; c; d; 1; e; f; g].

Lemma hello_hdr_len hdr : hello_hdr hdr -> zlen hdr = 9.
Proof. intros (a & b & c & d & e & f & g & ->). done. Qed.

Lemma hello_header body :
  exists hdr, hello_hdr hdr
    /\ [0x16; 3; 1] ++ be_bytes 2 (4 + zlen body) ++ [1] ++ be_bytes 3 (zlen body) ++ body = hdr ++ body.
Proof.
  eexists ([0x16; 3; 1] ++ be_bytes 2 (4 + zlen body) ++ [1] ++ be_bytes 3 (zlen body)).
  split; [| by rewrite <- !app_assoc]. rewrite be_bytes_2, be_bytes_3. by repeat eexists.
Qed.

Lemma tls_sni_header hdr body :
  hello_hdr hdr -> tls_sni (hdr ++ body) = tls_sni_body (hdr ++ body).
Proof.
  intros (a & b & c & d & e & f & g & ->). unfold tls_sni. zcase.
  erewrite rbind_ok; [| done]. simpl negb. cbn iota. zcase. reflexivity.
Qed.

(** The session-id field is misread.  For every ClientHello of that layout
    with an empty session id, the single null compression method and at most
    254 bytes of extensions, no server name is found, whatever the extensions
    say: the parser takes the length of the cipher suites for the length of the
    session id. *)
Theorem tls_sni_misses_standard_hello (version random suites exts : bytes) :
  zlen version = 2 -> zlen random = 32 -> zlen suites < 2 ^ 16 -> zlen exts <= 254 ->
  tls_sni (client_hello version random [] suites [0] exts) = Ok None.
Proof.
  intros Hv Hr Hs He. unfold client_hello. cbv zeta.
  destruct (hello_header (version ++ random ++ [zlen ([] : bytes)] ++ [] ++ be_bytes 2 (zlen suites) ++ suites
                          ++ [zlen [0]] ++ [0] ++ be_bytes 2 (zlen exts) ++ exts)) as (hdr & Hh & ->).
  assert (Hl := hello_hdr_len _ Hh). rewrite tls_sni_header by done. unfold tls_sni_body. repeat zcase.
  erewrite rbind_ok;
    [| eapply (be16_at_split _ (hdr ++ version ++ random ++ [0]));
       [by rewrite <- !app_assoc | len_solve | len_solve]].
  zcase. erewrite rbind_ok;
    [| eapply (be16_at_split _ (hdr ++ version ++ random ++ [0] ++ be_bytes 2 (zlen suites) ++ suites) _ 256);
       [rewrite <- !app_assoc; do 6 f_equal; done | done | len_solve]].
  zcase. done.
Qed.

Lemma tls_sni_misses_standard_hello_witness :
  tls_sni (client_hello [3; 3] (repeat 7 32) [] [0x13; 0x01] [0]
             (extension 0 (sni_data (lit "example.com")))) = Ok None.
Proof.
  apply (tls_sni_misses_standard_hello [3; 3] (repeat 7 32) [0x13; 0x01]
           (extension 0 (sni_data (lit "example.com")))); vm_compute; congruence.
Defined.

(** The layout the parser does read: a byte, then a two-byte session-id length. *)
Definition code_hello (version random session suites comps exts : bytes) (x : Z) : bytes :=
  let body := version ++ random ++ [x] ++ be_bytes 2 (zlen session) ++ session
              ++ be_bytes 2 (zlen suites) ++ suites ++ [zlen comps] ++ comps
              ++ be_bytes 2 (zlen exts) ++ exts in
  [0x16; 3; 1] ++ be_bytes 2 (4 + zlen body) ++ [1] ++ be_bytes 3 (zlen body) ++ body.

Lemma sni_walk_skip fuel l t d r stop :
  is_u 16 t -> t <> 0 -> zlen d < 2 ^ 16 -> zlen l + 4 <= stop ->
  sni_walk (S fuel) (l ++ extension t d ++ r) (zlen l) stop
  = sni_walk fuel ((l ++ extension t d) ++ r) (zlen (l ++ extension t d)) stop.
Proof.
  intros Ht Hnz Hd Hs. rewrite <- app_assoc. cbn [sni_walk]. unfold extension.
  set (data := l ++ (be_bytes 2 t ++ be_bytes 2 (zlen d) ++ d) ++ r).
  assert (Hlen : zlen data = zlen l + 4 + zlen d + zlen r) by (subst data; len_solve).
  rewrite Hlen. zdestruct (zlen l + 4 <=? Z.min stop (zlen l + 4 + zlen d + zlen r)); [| len_solve].
  erewrite rbind_ok; [| eapply (be16_at_split data l (be_bytes 2 (zlen d) ++ d ++ r) t);
                        [subst data; by rewrite <- !app_assoc | done | done]].
  erewrite rbind_ok; [| eapply (be16_at_split data (l ++ be_bytes 2 t) (d ++ r) (zlen d));
                        [subst data; by rewrite <- !app_assoc | len_solve | len_solve]].
  zcase. rewrite (proj2 (Z.eqb_neq t 0)) by done. simpl. f_equal. len_solve.
Qed.

Lemma sni_walk_hit fuel l name r stop :
  utf8_valid name = true -> 0 < zlen name < 2 ^ 15 -> zlen l + 4 <= stop ->
  sni_walk (S fuel) (l ++ extension 0 (sni_data name) ++ r) (zlen l) stop = Ok (Some name).
Proof.
  intros Hu Hn Hs. cbn [sni_walk]. unfold extension.
  assert (Hsd : zlen (sni_data name) = 5 + zlen name) by (unfold sni_data; len_solve).
  set (data := l ++ (be_bytes 2 0 ++ be_bytes 2 (zlen (sni_data name)) ++ sni_data name) ++ r).
  assert (Hlen : zlen data = zlen l + 9 + zlen name + zlen r) by (subst data; len_solve).
  rewrite Hlen. zdestruct (zlen l + 4 <=? Z.min stop (zlen l + 9 + zlen name + zlen r)); [| len_solve].
  erewrite rbind_ok; [| eapply (be16_at_split data l (be_bytes 2 (zlen (sni_data name)) ++ sni_data name ++ r) 0);
                        [subst data; by rewrite <- !app_assoc | done | done]].
  erewrite rbind_ok; [| eapply (be16_at_split data (l ++ be_bytes 2 0) (sni_data name ++ r) (zlen (sni_data name)));
                        [subst data; by rewrite <- !app_assoc | len_solve | len_solve]].
  rewrite Hsd. zcase. simpl andb. zcase.
  set (p := l ++ be_bytes 2 0 ++ be_bytes 2 (zlen (sni_data name)) ++ be_bytes 2 (3 + zlen name)).
  assert (Hp : zlen p = zlen l + 6) by (subst p; len_solve).
  assert (Hd : data = p ++ 0 :: be_bytes 2 (zlen name) ++ name ++ r).
  { subst data p. unfold sni_data. by rewrite <- !app_assoc. }
  erewrite rbind_ok; [| rewrite Hd, idx_app_mid by lia; done]. simpl.
  erewrite rbind_ok; [| eapply (be16_at_split data (p ++ [0]) (name ++ r) (zlen name));
                        [rewrite Hd; by rewrite <- !app_assoc | len_solve | len_solve]].
  zcase.
  erewrite rbind_ok; [| eapply (slice_split _ (p ++ [0] ++ be_bytes 2 (zlen name)) name r);
                        [rewrite Hd; by rewrite <- !app_assoc | len_solve | len_solve]].
  by rewrite Hu.
Qed.

Lemma sni_walk_finds exts : forall fuel l name r stop,
  Forall (fun e => is_u 16 e.1 /\ e.1 <> 0 /\ zlen e.2 < 2 ^ 16) exts ->
  utf8_valid name = true -> 0 < zlen name < 2 ^ 15 -> (length exts < fuel)%nat ->
  let block := concat ((fun e : Z * bytes => extension e.1 e.2) <$> exts) in
  zlen l + zlen block + 4 <= stop ->
  sni_walk fuel (l ++ block ++ extension 0 (sni_data name) ++ r) (zlen l) stop = Ok (Some name).
Proof.
  induction exts as [| [t d] exts IH]; intros fuel l name r stop HF Hu Hn Hf block Hs;
    destruct fuel as [| fuel]; simpl in Hf; try lia.
  - subst block. simpl in *. apply sni_walk_hit; [done | done | len_solve].
  - apply Forall_cons_iff in HF as [(Ht & Hnz & Hd) HF]. simpl in Ht, Hnz, Hd.
    subst block. cbn [concat fmap list_fmap fst snd] in *. rewrite <- app_assoc.
    assert (Hb := zlen_nonneg (concat ((fun e : Z * bytes => extension e.1 e.2) <$> exts))).
    assert (Hx : zlen (extension t d) = 4 + zlen d) by (unfold extension; len_solve).
    rewrite zlen_app in Hs.
    rewrite sni_walk_skip; [| done | done | done | len_solve].
    rewrite (IH fuel (l ++ extension t d)); [done | done | done | done | lia |]. len_solve.
Qed.

Lemma zlen_extension t d : zlen (extension t d) = 4 + zlen d.
Proof. unfold extension. len_solve. Qed.

Lemma concat_ext_len (exts : list (Z * bytes)) :
  Z.of_nat (length exts) <= zlen (concat ((fun e : Z * bytes => extension e.1 e.2) <$> exts)).
Proof.
  induction exts as [| [t d] exts IH]; [done |]. cbn [concat fmap list_fmap length fst snd].
  rewrite zlen_app, zlen_extension. pose proof (zlen_nonneg d). lia.
Qed.

(** The parser arrives at the extensions block of that layout. *)
Lemma tls_sni_reaches_extensions version random session suites comps block x :
  zlen version = 2 -> zlen random = 32 -> zlen session < 2 ^ 16 -> zlen suites < 2 ^ 16 ->
  zlen block < 2 ^ 16 ->
  exists q, tls_sni (code_hello version random session suites comps block x)
            = sni_walk (length (q ++ block)) (q ++ block) (zlen q) (zlen q + zlen block).
Proof.
  intros Hv Hr Hse Hsu Hb. unfold code_hello. cbv zeta.
  destruct (hello_header (version ++ random ++ [x] ++ be_bytes 2 (zlen session) ++ session
              ++ be_bytes 2 (zlen suites) ++ suites ++ [zlen comps] ++ comps
              ++ be_bytes 2 (zlen block) ++ block)) as (hdr & Hh & ->).
  assert (Hl := hello_hdr_len _ Hh). rewrite tls_sni_header by done.
  set (p1 := hdr ++ version ++ random ++ [x]).
  set (p2 := p1 ++ be_bytes 2 (zlen session) ++ session).
  set (p3 := p2 ++ be_bytes 2 (zlen suites) ++ suites).
  set (p4 := p3 ++ [zlen comps] ++ comps).
  assert (Hp1 : zlen p1 = 44) by (subst p1; len_solve).
  assert (Hp2 : zlen p2 = 46 + zlen session) by (subst p2; len_solve).
  assert (Hp3 : zlen p3 = 48 + zlen session + zlen suites) by (subst p3; len_solve).
  assert (Hp4 : zlen p4 = 49 + zlen session + zlen suites + zlen comps) by (subst p4; len_solve).
  set (data := hdr ++ _). assert (Hd4 : data = p4 ++ be_bytes 2 (zlen block) ++ block).
  { subst data p4 p3 p2 p1. by rewrite <- !app_assoc. }
  assert (Hlen : zlen data = 51 + zlen session + zlen suites + zlen comps + zlen block)
    by (rewrite Hd4; len_solve).
  unfold tls_sni_body. rewrite Hlen. pose proof (zlen_nonneg session). pose proof (zlen_nonneg suites).
  pose proof (zlen_nonneg comps). pose proof (zlen_nonneg block).
  zcase. erewrite rbind_ok; [| eapply (be16_at_split data p1 _ (zlen session));
    [subst data p1; by rewrite <- !app_assoc | split; lia | by rewrite Hp1]].
  zcase. erewrite rbind_ok; [| eapply (be16_at_split data p2 _ (zlen suites));
    [subst data p2 p1; by rewrite <- !app_assoc | split; lia | lia]].
  zcase. erewrite rbind_ok;
    [| rewrite Hd4; subst p4; rewrite <- !app_assoc; apply (idx_app_mid p3); lia].
  zcase. erewrite rbind_ok; [| eapply (be16_at_split data p4 _ (zlen block));
    [done | split; lia | lia]].
  exists (p4 ++ be_bytes 2 (zlen block)). rewrite Hd4, <- app_assoc. f_equal; len_solve.
Qed.

(** In the layout the parser reads, the server name is found behind any
    number of other extensions, with arbitrary session id, cipher suites and
    compression methods. *)
Theorem tls_sni_finds (version random session suites comps tail name : bytes) (x : Z)
    (exts : list (Z * bytes)) :
  zlen version = 2 -> zlen random = 32 -> zlen session < 2 ^ 16 -> zlen suites < 2 ^ 16 ->
  zlen comps < 2 ^ 8 -> Forall (fun e => is_u 16 e.1 /\ e.1 <> 0 /\ zlen e.2 < 2 ^ 16) exts ->
  utf8_valid name = true -> 0 < zlen name < 2 ^ 15 ->
  let block := concat ((fun e : Z * bytes => extension e.1 e.2) <$> exts)
               ++ extension 0 (sni_data name) ++ tail in
  zlen block < 2 ^ 16 ->
  tls_sni (code_hello version random session suites comps block x) = Ok (Some name).
Proof.
  intros Hv Hr Hse Hsu _ HF Hu Hn block Hb.
  destruct (tls_sni_reaches_extensions version random session suites comps block x) as [q ->]; [done.. |].
  unfold block at 1 2. apply sni_walk_finds; [done | done | done | |].
  - assert (Hc := concat_ext_len exts). apply Nat2Z.inj_lt. fold block.
    change (Z.of_nat (length (q ++ block))) with (zlen (q ++ block)). rewrite zlen_app.
    assert (Hcb : zlen (concat ((fun e : Z * bytes => extension e.1 e.2) <$> exts)) + 4 <= zlen block).
    { unfold block. rewrite !zlen_app, zlen_extension. len_solve. }
    pose proof (zlen_nonneg q). lia.
  - unfold block. rewrite !zlen_app, zlen_extension. len_solve.
Qed.

Lemma tls_sni_finds_witness :
  tls_sni (code_hello [3; 3] (repeat 7 32) [] [0x13; 0x01] [0]
             (concat ((fun e : Z * bytes => extension e.1 e.2) <$> [(43, [2; 3; 4])])
              ++ extension 0 (sni_data (lit "example.com")) ++ []) 0)
  = Ok (Some (lit "example.com")).
Proof.
  apply (tls_sni_finds [3; 3] (repeat 7 32) [] [0x13; 0x01] [0] [] (lit "example.com") 0
           [(43, [2; 3; 4])]).
  1-5: vm_compute; reflexivity.
  - constructor; [| constructor]. apply (bool_decide_unpack _). vm_compute. exact I.
  - vm_compute. reflexivity.
  - vm_compute. split; reflexivity.
  - vm_compute. reflexivity.
Defined.

(** ** HTTP *)

(** A header line that is not a Host header. *)
Definition other_header (l : bytes) : Prop :=
  (LF ∉ l) /\ l <> [] /\ strip_prefix (lit "host:") (to_ascii_lowercase l) = None.

Lemma lines_headers hs rest :
  Forall (fun l => LF ∉ l) hs -> lines (concat (crlf_line <$> hs) ++ rest) = hs ++ lines rest.
Proof.
  induction 1 as [| h hs Hh Hhs IH]; [done |]. rewrite fmap_cons. cbn [concat].
  rewrite <- !app_assoc, crlf_line_app, lines_crlf by done. by rewrite IH.
Qed.

Lemma host_header_skip hs rest :
  Forall other_header hs -> host_header (hs ++ rest) = host_header rest.
Proof.
  induction 1 as [| h hs (Hlf & Hne & Hs) Hhs IH]; simpl; [done |].
  zcase; [destruct h; [done | len_solve] |]. by rewrite Hs.
Qed.

Lemma lower_graphic s : graphic s -> graphic (to_ascii_lowercase s).
Proof.
  intros Hs. apply Forall_fmap. eapply Forall_impl; [| exact Hs]. intros b Hb. simpl in *.
  unfold ascii_lower, is_ascii_uppercase. destruct (_ && _) eqn:He; lia.
Qed.

Lemma lower_colon s : 58 ∉ s -> 58 ∉ to_ascii_lowercase s.
Proof.
  intros Hs (b & Hb & Hin)%list_elem_of_fmap. apply Hs.
  unfold ascii_lower, is_ascii_uppercase in Hb. destruct (_ && _) eqn:He in Hb; [lia |]. by subst.
Qed.

(** Host detection.  In an HTTP request of any of the known methods, with
    the Host header in any letter case and behind any other headers, the
    sniffer returns the lower-cased host name, without the port if there is one. *)
Theorem http_host_finds (first name port_ rest hkey : bytes) (hs : list bytes) :
  existsb (fun m => is_prefix m first) METHODS = true -> LF ∉ first -> Forall other_header hs ->
  to_ascii_lowercase hkey = lit "host:" -> graphic name -> graphic port_ -> 58 ∉ name -> name <> [] ->
  (port_ = [] \/ exists p, port_ = 58 :: p) ->
  let req := crlf_line first ++ concat (crlf_line <$> hs)
             ++ crlf_line (hkey ++ [32] ++ name ++ port_) ++ rest in
  utf8_valid req = true ->
  http_host req = Some (to_ascii_lowercase name).
Proof.
  intros Hm Hlf Hhs Hk Hn Hp Hcol Hne Hport req Hu. unfold http_host. rewrite Hu. subst req.
  rewrite crlf_line_app, lines_crlf by done. rewrite Hm.
  rewrite lines_headers by (eapply Forall_impl; [| exact Hhs]; by intros ? (? & _)).
  rewrite host_header_skip by done. rewrite crlf_line_app.
  assert (Hg : graphic (name ++ port_)) by (by apply Forall_app).
  rewrite lines_crlf.
  2: { intros [Hin | Hin]%elem_of_app.
       - assert (Hx : ascii_lower LF ∈ lit "host:") by (rewrite <- Hk; by apply list_elem_of_fmap_2).
         revert Hx. apply (bool_decide_unpack _). vm_compute. exact I.
       - apply elem_of_cons in Hin as [? | Hin]; [done |].
         unfold graphic in Hg. rewrite Forall_forall in Hg. apply list_elem_of_In, Hg in Hin. unfold LF in Hin. lia. }
  cbn [host_header]. zcase.
  unfold to_ascii_lowercase. rewrite fmap_app. fold (to_ascii_lowercase hkey). rewrite Hk.
  assert (Hsp : forall s, strip_prefix (lit "host:") (lit "host:" ++ s) = Some s) by done.
  rewrite Hsp. change (ascii_lower <$> [32] ++ name ++ port_)
    with (32 :: to_ascii_lowercase (name ++ port_)). fold (to_ascii_lowercase name).
  rewrite trim_graphic by (by apply lower_graphic).
  assert (Hb : before_sep 58 (to_ascii_lowercase (name ++ port_)) = to_ascii_lowercase name).
  { unfold to_ascii_lowercase. rewrite fmap_app. fold (to_ascii_lowercase name).
    destruct Hport as [-> | [p ->]].
    - simpl. rewrite app_nil_r. apply before_sep_none. by apply lower_colon.
    - simpl. apply before_sep_app. by apply lower_colon. }
  rewrite Hb. zcase; [| done]. destruct name; [done |]. unfold to_ascii_lowercase in *. simpl in *. len_solve.
Qed.

Lemma http_host_finds_witness :
  http_host (crlf_line (lit "GET / HTTP/1.1") ++ concat (crlf_line <$> [lit "Accept: x"])
             ++ crlf_line (lit "HoSt:" ++ [32] ++ lit "Example.com" ++ lit ":8080") ++ [CR; LF])
  = Some (to_ascii_lowercase (lit "Example.com")).
Proof.
  apply (http_host_finds (lit "GET / HTTP/1.1") (lit "Example.com") (lit ":8080") [CR; LF]
           (lit "HoSt:") [lit "Accept: x"]).
  - vm_compute. reflexivity.
  - apply (bool_decide_unpack _). vm_compute. exact I.
  - constructor; [| constructor]. split; [apply (bool_decide_unpack _); vm_compute; exact I |].
    split; [discriminate | vm_compute; reflexivity].
  - vm_compute. reflexivity.
  - apply (bool_decide_unpack _). vm_compute. exact I.
  - apply (bool_decide_unpack _). vm_compute. exact I.
  - apply (bool_decide_unpack _). vm_compute. exact I.
  - discriminate.
  - right. exists (lit "8080"). vm_compute. reflexivity.
  - vm_compute. reflexivity.
Defined.

(** The Host header of a request to an IPv6 literal is cut at its first colon. *)
Example http_host_ipv6_literal :
  http_host (crlf_line (lit "GET / HTTP/1.1") ++ crlf_line (lit "Host: [2001:db8::1]:80"))
  = Some (lit "[2001").
Proof. vm_compute. reflexivity. Qed.
