(* ===== verification/Dns.v ===== *)
(** DNS ([crates/blackwire-app/src/dns.rs] and [dns/]): the TTL cache, the
    FakeIP pool and the module that combines them.  [lru::LruCache] is an
    interface, described by its entries in order of use; time is the
    [Instant] of each call, in nanoseconds. *)

From stdpp Require Import base list gmap sets strings numbers.
From S2P Require Import Prelude Address.

(** * The LRU interface *)

Section assoc.
Context {K V : Type} `{EqDecision K}.

Fixpoint assoc (k : K) (l : list (K * V)) : option V :=
  match l with
  | [] => None
  | (k', v) :: l => if bool_decide (k = k') then Some v else assoc k l
  end.

Definition without (k : K) (l : list (K * V)) : list (K * V) := filter (fun e => e.1 <> k) l.

(** Moving an entry to the front. *)
Definition promote (k : K) (l : list (K * V)) : list (K * V) :=
  match assoc k l with
  | Some v => (k, v) :: without k l
  | None => l
  end.

End assoc.

(** The operations of the crate the program uses. *)
Class LruOps (K V : Type) := {
  LruCache : Type;
  lru_new : nat -> LruCache;
  lru_get : K -> LruCache -> option V * LruCache;
  lru_put : K -> V -> LruCache -> LruCache;
  lru_pop : K -> LruCache -> option V * LruCache;
  lru_pop_lru : LruCache -> option (K * V) * LruCache;
  lru_iter : LruCache -> list (K * V);
  lru_cap : LruCache -> nat;
}.

(** Their documented effect; [lru_iter] yields the most recently used entry
    first. *)
Class LruLaws (K V : Type) `{EqDecision K} `{LruOps K V} := {
  lru_new_view : forall c, lru_iter (lru_new c) = [] /\ lru_cap (lru_new c) = c;
  lru_get_view : forall k l, (lru_get k l).1 = assoc k (lru_iter l)
    /\ lru_iter (lru_get k l).2 = promote k (lru_iter l) /\ lru_cap (lru_get k l).2 = lru_cap l;
  lru_put_view : forall k v l,
    lru_iter (lru_put k v l) = take (lru_cap l) ((k, v) :: without k (lru_iter l))
    /\ lru_cap (lru_put k v l) = lru_cap l;
  lru_pop_view : forall k l, (lru_pop k l).1 = assoc k (lru_iter l)
    /\ lru_iter (lru_pop k l).2 = without k (lru_iter l) /\ lru_cap (lru_pop k l).2 = lru_cap l;
  lru_pop_lru_view : forall l, (lru_pop_lru l).1 = list.last (lru_iter l)
    /\ lru_iter (lru_pop_lru l).2 = removelast (lru_iter l)
    /\ lru_cap (lru_pop_lru l).2 = lru_cap l;
  lru_keys_nodup : forall l, NoDup (lru_iter l).*1;
}.

(** * Cache *)

Definition NANOS_PER_SEC : Z := 1000000000.

Record CacheEntry : Type := mkCacheEntry { ips : list IpAddr; expires : Z }.

Section cache.
Context `{LruOps bytes CacheEntry}.

Abbreviation DnsCache := (LruCache (K:=bytes) (V:=CacheEntry)).

Definition cache_new (capacity : nat) : DnsCache := lru_new (Nat.max capacity 1).

Definition cache_get (now : Z) (domain : bytes) (c : DnsCache) : option (list IpAddr) * DnsCache :=
  let (e, c) := lru_get domain c in
  match e with
  | Some e =>
      if expires e >=? now then (Some (ips e), c)
      else (None, (lru_pop domain c).2)
  | None => (None, c)
  end.

Definition cache_insert (now : Z) (domain : bytes) (addrs : list IpAddr) (ttl_secs : Z) (c : DnsCache)
  : DnsCache :=
  lru_put domain (mkCacheEntry addrs (now + ttl_secs * NANOS_PER_SEC)) c.

Definition evict_expired (now : Z) (c : DnsCache) : DnsCache :=
  let expired := fst <$> filter (fun kv => expires kv.2 < now) (lru_iter c) in
  foldl (fun c key => (lru_pop key c).2) c expired.

Definition cache_len (c : DnsCache) : nat := length (lru_iter c).

End cache.

(** * FakeIP pool *)

Section fakeip.
Context `{LruOps bytes unit}.

(** [network] and [broadcast] are the bounds [ipnet] computes for the CIDR. *)
Record FakeIpPool : Type := mkFakeIpPool {
  network : Z;
  broadcast : Z;
  next : Z;
  pool_size : nat;
  forward : gmap bytes Z;
  rev_map : gmap Z bytes;
  lru : LruCache (K:=bytes) (V:=unit);
}.

(** [u32] arithmetic: [network_u32 + 1] wraps. *)
Definition pool_new (network broadcast : Z) : FakeIpPool :=
  let size := Z.to_nat (Z.max (broadcast - network - 1) 0) in
  let cap := Nat.max size 1 in
  mkFakeIpPool network broadcast (wrap 32 (network + 1)) (Nat.max size 1) ∅ ∅ (lru_new cap).

(** The tail of [claim_ip]: the next address of the range. *)
Definition claim_next (p : FakeIpPool) : Z * FakeIpPool :=
  let raw := next p in
  let nxt := if raw >=? broadcast p then wrap 32 (network p + 1) else raw + 1 in
  let candidate :=
    if (raw <? wrap 32 (network p + 1)) || (raw >=? broadcast p)
    then wrap 32 (network p + 1) else raw in
  match rev_map p !! candidate with
  | Some old_domain =>
      (candidate, mkFakeIpPool (network p) (broadcast p) nxt (pool_size p)
                    (delete old_domain (forward p)) (delete candidate (rev_map p))
                    (lru_pop old_domain (lru p)).2)
  | None =>
      (candidate, mkFakeIpPool (network p) (broadcast p) nxt (pool_size p)
                    (forward p) (delete candidate (rev_map p)) (lru p))
  end.

Definition claim_ip (p : FakeIpPool) : Z * FakeIpPool :=
  if bool_decide (pool_size p <= size (forward p))%nat then
    let (evicted, l) := lru_pop_lru (lru p) in
    let p := mkFakeIpPool (network p) (broadcast p) (next p) (pool_size p) (forward p) (rev_map p) l in
    match evicted with
    | Some (evicted, _) =>
        match forward p !! evicted with
        | Some ip =>
            (ip, mkFakeIpPool (network p) (broadcast p) (next p) (pool_size p)
                   (delete evicted (forward p)) (delete ip (rev_map p)) (lru p))
        | None => claim_next p
        end
    | None => claim_next p
    end
  else claim_next p.

Definition touch (domain : bytes) (p : FakeIpPool) : FakeIpPool :=
  mkFakeIpPool (network p) (broadcast p) (next p) (pool_size p) (forward p) (rev_map p)
    (lru_get domain (lru p)).2.

(** The lookup before and after taking the allocation lock is the same for one
    caller. *)
Definition allocate (domain : bytes) (p : FakeIpPool) : Z * FakeIpPool :=
  match forward p !! domain with
  | Some ip => (ip, touch domain p)
  | None =>
      let (ip, p) := claim_ip p in
      (ip, mkFakeIpPool (network p) (broadcast p) (next p) (pool_size p)
             (<[domain := ip]> (forward p)) (<[ip := domain]> (rev_map p))
             (lru_put domain tt (lru p)))
  end.

Definition reverse_ (ip : Z) (p : FakeIpPool) : option bytes := rev_map p !! ip.

Definition is_fake (ip : Z) (p : FakeIpPool) : bool := (network p <=? ip) && (ip <=? broadcast p).

End fakeip.
Arguments FakeIpPool {H}.

(** * Module *)

Section module.
Context `{LruOps bytes CacheEntry} `{LruOps bytes unit}.

Record DnsModule : Type := mkDnsModule {
  cache : LruCache (K:=bytes) (V:=CacheEntry);
  fakeip : option FakeIpPool;
  dns_filter : list bytes;
}.

(** [answer] is the upstream resolver's result for the name. *)
Definition resolver_resolve (answer : option (list IpAddr)) : res ProxyError (list IpAddr) :=
  match answer with
  | None => Err (DnsResolutionFailed "lookup failed")
  | Some [] => Err (DnsResolutionFailed "no records returned")
  | Some addrs => Ok addrs
  end.

Definition dns_resolve (now now' : Z) (answer : option (list IpAddr)) (domain : bytes)
  : stE DnsModule ProxyError (list IpAddr) := fun m =>
  let (cached, c) := cache_get now domain (cache m) in
  let m := mkDnsModule c (fakeip m) (dns_filter m) in
  match cached with
  | Some addrs => (m, Ok addrs)
  | None =>
      match resolver_resolve answer with
      | Ok addrs => (mkDnsModule (cache_insert now' domain addrs 300 (cache m)) (fakeip m) (dns_filter m), Ok addrs)
      | Err e => (m, Err e)
      | Panic => (m, Panic)
      | NoFuel => (m, NoFuel)
      end
  end.

Definition resolve_fake (domain : bytes) (m : DnsModule) : option Z * DnsModule :=
  match fakeip m with
  | None => (None, m)
  | Some pool =>
      let (ip, pool) := allocate domain pool in
      (Some ip, mkDnsModule (cache m) (Some pool) (dns_filter m))
  end.

Definition reverse_fake (m : DnsModule) (ip : Z) : option bytes :=
  pool ← fakeip m; reverse_ ip pool.

Definition is_fake_ip (m : DnsModule) (i : IpAddr) : bool :=
  match i with
  | V4 o => match fakeip m with Some pool => is_fake (be_val o) pool | None => false end
  | V6 _ => false
  end.

Definition ends_with (s t : bytes) : bool := is_prefix (reverse t) (reverse s).

Definition is_filtered (m : DnsModule) (domain : bytes) : bool :=
  existsb (fun f => bytes_eqb domain f || ends_with domain (46 :: f)) (dns_filter m).

End module.

(** * Theorems: association lists *)

Section assoc_lemmas.
Context {K V : Type} `{EqDecision K}.
Implicit Types l : list (K * V).

Lemma assoc_without k k' l : assoc k (without k' l) = if bool_decide (k = k') then None else assoc k l.
Proof.
  unfold without. induction l as [| [x v] l IH]; simpl; [by case_bool_decide |].
  destruct (decide (x = k')) as [-> | Hx].
  - rewrite filter_cons_False by (simpl; tauto). rewrite IH. repeat case_bool_decide; congruence.
  - rewrite filter_cons_True by done. simpl. rewrite IH. repeat case_bool_decide; congruence.
Qed.

Lemma assoc_promote k k' l : assoc k (promote k' l) = assoc k l.
Proof.
  unfold promote. destruct (assoc k' l) eqn:Hk; [| done]. simpl. rewrite assoc_without.
  case_bool_decide; congruence.
Qed.

Lemma assoc_take k n l v : assoc k (take n l) = Some v -> assoc k l = Some v.
Proof.
  revert n. induction l as [| [x w] l IH]; intros [| n]; simpl; try done.
  case_bool_decide; [done |]. apply IH.
Qed.

Lemma assoc_elem k l : is_Some (assoc k l) <-> k ∈ l.*1.
Proof.
  induction l as [| [x v] l IH]; simpl.
  - split; [by intros [] | set_solver].
  - rewrite elem_of_cons. case_bool_decide; [naive_solver |]. rewrite IH. naive_solver.
Qed.

Lemma length_without k l : (length (without k l) <= length l)%nat.
Proof. apply length_filter. Qed.

Lemma length_without_some k l : is_Some (assoc k l) -> (S (length (without k l)) <= length l)%nat.
Proof.
  unfold without. induction l as [| [x v] l IH]; simpl; [by intros [] |].
  case_bool_decide as Hk.
  - intros _. subst x. rewrite filter_cons_False by (simpl; tauto). apply le_n_S, length_without.
  - intros Hs. rewrite filter_cons_True by (simpl; congruence). simpl. apply le_n_S. by apply IH.
Qed.

Lemma length_promote k l : (length (promote k l) <= length l)%nat.
Proof.
  unfold promote. destruct (assoc k l) eqn:Hk; [| done]. simpl.
  apply length_without_some. by rewrite Hk.
Qed.

Lemma keys_without k l x : x ∈ (without k l).*1 <-> x ∈ l.*1 /\ x <> k.
Proof.
  rewrite <- !assoc_elem, assoc_without. case_bool_decide; [| naive_solver].
  split; [by intros [] | naive_solver].
Qed.

Lemma keys_promote k l x : x ∈ (promote k l).*1 <-> x ∈ l.*1.
Proof. by rewrite <- !assoc_elem, assoc_promote. Qed.

End assoc_lemmas.

(** * Theorems: cache *)

Section cache_theorems.
Context {HO : LruOps bytes CacheEntry} {HL : LruLaws bytes CacheEntry}.

Inductive CacheOp : Type :=
| OpGet (now : Z) (domain : bytes)
| OpInsert (now : Z) (domain : bytes) (addrs : list IpAddr) (ttl : Z)
| OpEvict (now : Z).

Definition cache_step (c : LruCache (K:=bytes) (V:=CacheEntry)) (op : CacheOp) :=
  match op with
  | OpGet now d => (cache_get now d c).2
  | OpInsert now d a ttl => cache_insert now d a ttl c
  | OpEvict now => evict_expired now c
  end.

(** Specification: an unbounded map that remembers the last insertion. *)
Definition spec_step (m : gmap bytes CacheEntry) (op : CacheOp) : gmap bytes CacheEntry :=
  match op with
  | OpInsert now d a ttl => <[d := mkCacheEntry a (now + ttl * NANOS_PER_SEC)]> m
  | _ => m
  end.

(** Simulation: what the cache holds is what was inserted last, within the
    capacity. *)
Definition cache_sim (cap : nat) (c : LruCache (K:=bytes) (V:=CacheEntry)) (m : gmap bytes CacheEntry) : Prop :=
  (forall k e, assoc k (lru_iter c) = Some e -> m !! k = Some e)
  /\ lru_cap c = cap /\ (length (lru_iter c) <= cap)%nat.

Lemma sim_pop cap c m k : cache_sim cap c m -> cache_sim cap (lru_pop k c).2 m.
Proof.
  intros (Ha & Hc & Hl). destruct (lru_pop_view k c) as (_ & Hv & Hcap). split; [| split].
  - intros k' e. rewrite Hv, assoc_without. case_bool_decide; [done |]. apply Ha.
  - congruence.
  - rewrite Hv. etransitivity; [apply length_without | done].
Qed.

Lemma sim_get cap c m k : cache_sim cap c m -> cache_sim cap (lru_get k c).2 m.
Proof.
  intros (Ha & Hc & Hl). destruct (lru_get_view k c) as (_ & Hv & Hcap). split; [| split].
  - intros k' e. rewrite Hv, assoc_promote. apply Ha.
  - congruence.
  - rewrite Hv. etransitivity; [apply length_promote | done].
Qed.

Lemma sim_put cap c m k e : cache_sim cap c m -> cache_sim cap (lru_put k e c) (<[k := e]> m).
Proof.
  intros (Ha & Hc & Hl). destruct (lru_put_view k e c) as (Hv & Hcap). split; [| split].
  - intros k' e' He. rewrite Hv in He. apply assoc_take in He. simpl in He.
    case_bool_decide as Hk; [subst; rewrite lookup_insert_eq; congruence |].
    rewrite lookup_insert_ne by congruence. rewrite assoc_without in He.
    case_bool_decide; [done |]. by apply Ha.
  - congruence.
  - rewrite Hv, length_take. lia.
Qed.

Lemma sim_step cap c m op : cache_sim cap c m -> cache_sim cap (cache_step c op) (spec_step m op).
Proof.
  intros Hs. destruct op as [now d | now d a ttl | now]; simpl.
  - unfold cache_get. assert (Hg := sim_get cap c m d Hs). destruct (lru_get d c) as [[e |] c'];
      simpl in *; [| done]. destruct (expires e >=? now); [done | by apply sim_pop].
  - by apply sim_put.
  - unfold evict_expired. generalize (fst <$> filter (fun kv => expires kv.2 < now) (lru_iter c)) as ks.
    intros ks. revert c Hs. induction ks as [| k ks IH]; intros c Hs; simpl; [done |].
    apply IH. by apply sim_pop.
Qed.

Lemma sim_run cap ops c m :
  cache_sim cap c m -> cache_sim cap (foldl cache_step c ops) (foldl spec_step m ops).
Proof. revert c m. induction ops as [| op ops IH]; intros c m Hs; simpl; [done |]. by apply IH, sim_step. Qed.

Lemma sim_new cap : cache_sim (Nat.max cap 1) (cache_new cap) ∅.
Proof.
  unfold cache_new. destruct (lru_new_view (Nat.max cap 1)) as [Hv Hc]. unfold cache_sim.
  rewrite Hv, Hc. split; [done |]. split; [done |]. simpl. lia.
Qed.

(** C25. The cache refines a map with expiry.  After any sequence of lookups,
    insertions and sweeps, a hit is the last insertion for that name and has
    not expired; the number of entries never exceeds the capacity; and a lookup
    right after an insertion, before its expiry, is a hit. *)
Theorem dns_cache_refines (cap : nat) (ops : list CacheOp) (now : Z) (d : bytes) :
  let c := foldl cache_step (cache_new cap) ops in
  let m := foldl spec_step ∅ ops in
  (forall a, (cache_get now d c).1 = Some a ->
     exists e, m !! d = Some e /\ ips e = a /\ now <= expires e)
  /\ (cache_len c <= Nat.max cap 1)%nat
  /\ (forall t a ttl, now <= t + ttl * NANOS_PER_SEC ->
      (cache_get now d (cache_insert t d a ttl c)).1 = Some a).
Proof.
  intros c m. assert (Hs : cache_sim (Nat.max cap 1) c m) by (apply sim_run, sim_new).
  destruct Hs as (Ha & Hc & Hl). split; [| split].
  - intros a. unfold cache_get. destruct (lru_get_view d c) as (Hg & _ & _).
    destruct (lru_get d c) as [[e |] c']; simpl in *; [| done].
    zdestruct (expires e >=? now); intros [= <-]. exists e. split; [by apply Ha |]. done.
  - exact Hl.
  - intros t a ttl Ht. unfold cache_get, cache_insert. set (e := mkCacheEntry a _).
    destruct (lru_put_view d e c) as (Hv & _). destruct (lru_get_view d (lru_put d e c)) as (Hg & _ & _).
    rewrite Hv, Hc in Hg. destruct (Nat.max cap 1) as [| k] eqn:Hk; [lia |]. simpl in Hg.
    rewrite bool_decide_eq_true_2 in Hg by done.
    destruct (lru_get d (lru_put d e c)) as [o c']. simpl in Hg. subst o. simpl.
    by zdestruct (t + ttl * NANOS_PER_SEC >=? now); [| lia].
Qed.

End cache_theorems.

(** * Theorems: FakeIP *)

Section fakeip_theorems.
Context {HO : LruOps bytes unit} {HL : LruLaws bytes unit}.

(** The states a pool goes through. *)
Inductive pool_reachable (lo hi : Z) : FakeIpPool -> Prop :=
| reach_new : pool_reachable lo hi (pool_new lo hi)
| reach_alloc p d : pool_reachable lo hi p -> pool_reachable lo hi (allocate d p).2.

(** A range with at least one usable address, inside [u32]. *)
Definition usable_range (lo hi : Z) : Prop := 0 <= lo /\ lo + 2 <= hi < 2 ^ 32.

Record pool_ok (lo hi : Z) (p : FakeIpPool) : Prop := {
  ok_net : network p = lo;
  ok_bcast : broadcast p = hi;
  ok_size : Z.of_nat (pool_size p) = hi - lo - 1;
  ok_next : lo + 1 <= next p <= hi;
  ok_bij : forall d ip, forward p !! d = Some ip <-> rev_map p !! ip = Some d;
  ok_range : forall ip d, rev_map p !! ip = Some d -> lo < ip < next p;
  ok_count : Z.of_nat (size (forward p)) = next p - (lo + 1);
  ok_keys : forall d, d ∈ (lru_iter (lru p)).*1 <-> is_Some (forward p !! d);
  ok_cap : lru_cap (lru p) = pool_size p;
}.

Lemma view_length lo hi p : pool_ok lo hi p -> length (lru_iter (lru p)) = size (forward p).
Proof.
  intros Hp. rewrite <- (length_fmap fst (lru_iter (lru p))).
  rewrite <- (size_dom (forward p)).
  rewrite <- (size_list_to_set (C:=gset bytes) (lru_iter (lru p)).*1) by apply lru_keys_nodup.
  f_equal. apply leibniz_equiv. intros d. rewrite elem_of_list_to_set, elem_of_dom.
  by apply (ok_keys lo hi p).
Qed.

Lemma pool_new_ok lo hi : usable_range lo hi -> pool_ok lo hi (pool_new lo hi).
Proof.
  intros (Hlo & Hhi). unfold pool_new, wrap. rewrite Z.mod_small by lia.
  destruct (lru_new_view (Nat.max (Z.to_nat (Z.max (hi - lo - 1) 0)) 1)) as [Hv Hc].
  split; simpl; try done; try lia.
  - rewrite map_size_empty. lia.
  - intros d. rewrite Hv. simpl. split; [set_solver | by intros [? ?]].
Qed.

Lemma touch_ok lo hi d p : pool_ok lo hi p -> pool_ok lo hi (touch d p).
Proof.
  intros []. destruct (lru_get_view d (lru p)) as (_ & Hv & Hc).
  split; simpl; try done; [| congruence].
  intros d'. rewrite Hv, keys_promote. apply ok_keys0.
Qed.

(** Entering a fresh pair into a pool from which a slot was claimed. *)
Lemma lru_put_keys (d : bytes) l d' :
  (length (lru_iter l) < lru_cap l)%nat ->
  d' ∈ (lru_iter (lru_put d tt l)).*1 <-> d' = d \/ d' ∈ (lru_iter l).*1.
Proof.
  intros Hlt. destruct (lru_put_view d tt l) as [Hv _]. rewrite Hv.
  rewrite take_ge by (simpl; pose proof (length_without d (lru_iter l)); lia).
  simpl. rewrite elem_of_cons, keys_without. destruct (decide (d' = d)); naive_solver.
Qed.

(** The three ways [claim_ip] can go, on a pool in order. *)
Lemma claim_next_ok lo hi p :
  usable_range lo hi -> pool_ok lo hi p -> (size (forward p) < pool_size p)%nat ->
  claim_ip p = (next p, mkFakeIpPool lo hi (next p + 1) (pool_size p) (forward p) (rev_map p) (lru p))
  /\ rev_map p !! next p = None /\ next p < hi.
Proof.
  intros (Hlo & Hhi) Hp Hlt. destruct Hp. unfold claim_ip.
  rewrite bool_decide_eq_false_2 by lia. unfold claim_next, wrap.
  rewrite ok_net0, ok_bcast0, (Z.mod_small (lo + 1)) by lia.
  assert (Hn : rev_map p !! next p = None).
  { destruct (rev_map p !! next p) as [d |] eqn:Hd; [| done]. apply ok_range0 in Hd. lia. }
  assert (Hnext : next p < hi) by lia.
  replace ((next p <? lo + 1) || (next p >=? hi)) with false by lia.
  replace (next p >=? hi) with false by lia. rewrite Hn. split; [| done].
  by rewrite delete_id.
Qed.

Lemma last_split {A} (l : list A) x : list.last l = Some x -> l = removelast l ++ [x].
Proof.
  intros Hl. apply last_Some in Hl as [l' ->]. by rewrite removelast_last.
Qed.

Lemma claim_evict_ok lo hi p :
  pool_ok lo hi p -> (pool_size p <= size (forward p))%nat -> (0 < pool_size p)%nat ->
  exists d0 ip, list.last (lru_iter (lru p)) = Some (d0, tt) /\ forward p !! d0 = Some ip
    /\ claim_ip p = (ip, mkFakeIpPool (network p) (broadcast p) (next p) (pool_size p)
                           (delete d0 (forward p)) (delete ip (rev_map p)) (lru_pop_lru (lru p)).2).
Proof.
  intros Hp Hfull Hpos. assert (Hlen := view_length _ _ _ Hp). unfold claim_ip.
  rewrite bool_decide_eq_true_2 by done.
  destruct (lru_pop_lru_view (lru p)) as (Hl & _ & _).
  destruct (list.last (lru_iter (lru p))) as [[d0 []] |] eqn:Hlast.
  2: { apply last_None in Hlast. rewrite Hlast in Hlen. simpl in Hlen. lia. }
  assert (Hin : d0 ∈ (lru_iter (lru p)).*1).
  { apply last_split in Hlast. rewrite Hlast, fmap_app. set_solver. }
  apply (ok_keys _ _ _ Hp) in Hin as [ip Hip].
  exists d0, ip. split; [done |]. split; [done |].
  destruct (lru_pop_lru (lru p)) as [o l]. simpl in *. subst o. by rewrite Hip.
Qed.

(** Adding the binding [d -> ip] for a free name and a free address. *)
Definition bind_ (d : bytes) (ip : Z) (p : FakeIpPool) : FakeIpPool :=
  mkFakeIpPool (network p) (broadcast p) (next p) (pool_size p)
    (<[d := ip]> (forward p)) (<[ip := d]> (rev_map p)) (lru_put d tt (lru p)).

Lemma allocate_fresh d p :
  forward p !! d = None -> allocate d p = ((claim_ip p).1, bind_ d (claim_ip p).1 (claim_ip p).2).
Proof. intros Hd. unfold allocate. rewrite Hd. by destruct (claim_ip p). Qed.

Lemma bind_bij (fw : gmap bytes Z) (rv : gmap Z bytes) d ip :
  (forall d' i, fw !! d' = Some i <-> rv !! i = Some d') -> fw !! d = None -> rv !! ip = None ->
  forall d' i, <[d := ip]> fw !! d' = Some i <-> <[ip := d]> rv !! i = Some d'.
Proof.
  intros Hb Hd Hi d' i. rewrite !lookup_insert_Some.
  split; intros [[-> ->] | [Hne Hx]]; [by left | right | by left | right].
  - split; [| by apply Hb]. intros <-. apply Hb in Hx. congruence.
  - split; [| by apply Hb]. intros <-. apply Hb in Hx. congruence.
Qed.

Lemma bind_fresh_ok lo hi d p :
  usable_range lo hi -> pool_ok lo hi p -> (size (forward p) < pool_size p)%nat ->
  forward p !! d = None ->
  pool_ok lo hi (bind_ d (next p) (mkFakeIpPool lo hi (next p + 1) (pool_size p)
                                     (forward p) (rev_map p) (lru p))).
Proof.
  intros Hu Hp Hlt Hd. destruct (claim_next_ok _ _ _ Hu Hp Hlt) as (_ & Hn & Hnext).
  assert (Hlen := view_length _ _ _ Hp). destruct Hp. split; simpl; try done; try lia.
  - by apply bind_bij.
  - intros ip d' [[<- _] | [_ Hr]]%lookup_insert_Some; [lia |]. apply ok_range0 in Hr. lia.
  - rewrite map_size_insert_None by done. lia.
  - intros d'. rewrite lru_put_keys by lia. rewrite ok_keys0, lookup_insert_is_Some.
    destruct (decide (d = d')); naive_solver.
  - destruct (lru_put_view d tt (lru p)) as [_ Hc]. congruence.
Qed.

Lemma bind_evict_ok lo hi d d0 ip p :
  pool_ok lo hi p -> (pool_size p <= size (forward p))%nat -> (0 < pool_size p)%nat ->
  forward p !! d = None -> list.last (lru_iter (lru p)) = Some (d0, tt) ->
  forward p !! d0 = Some ip ->
  pool_ok lo hi (bind_ d ip (mkFakeIpPool (network p) (broadcast p) (next p) (pool_size p)
                               (delete d0 (forward p)) (delete ip (rev_map p)) (lru_pop_lru (lru p)).2)).
Proof.
  intros Hp Hfull Hpos Hd Hlast Hip. assert (Hlen := view_length _ _ _ Hp).
  destruct (lru_pop_lru_view (lru p)) as (_ & Hv & Hc). destruct Hp.
  assert (Hrl := last_split _ _ Hlast). assert (Hnd := lru_keys_nodup (lru p)).
  assert (Hsz : size (delete d0 (forward p)) = pred (size (forward p)))
    by (apply map_size_delete_Some; eauto).
  assert (Hkeys : forall d', d' ∈ (removelast (lru_iter (lru p))).*1 <-> is_Some (delete d0 (forward p) !! d')).
  { intros d'. rewrite lookup_delete_is_Some, <- ok_keys0. rewrite Hrl in Hnd |- *.
    rewrite fmap_app in Hnd |- *. apply list.NoDup_app in Hnd as (_ & Hnd & _).
    rewrite removelast_last. rewrite elem_of_app. simpl in *. specialize (Hnd d'). set_solver. }
  assert (Hll : (length (removelast (lru_iter (lru p))) < pool_size p)%nat).
  { apply (f_equal length) in Hrl. rewrite length_app in Hrl. simpl in Hrl. lia. }
  split; simpl; try done.
  - apply bind_bij; [| rewrite lookup_delete_ne by congruence; done | apply lookup_delete_eq].
    intros d' i. rewrite !lookup_delete_Some, ok_bij0.
    split; intros [Hne Hr]; (split; [| done]); intros <-; apply Hne; [| apply ok_bij0 in Hr; congruence].
    apply ok_bij0 in Hip. congruence.
  - intros i d' [[<- _] | [_ [_ Hr]%lookup_delete_Some]]%lookup_insert_Some;
      [apply ok_bij0 in Hip; eauto | eauto].
  - rewrite map_size_insert_None by (rewrite lookup_delete_ne by congruence; done). lia.
  - intros d'. rewrite lru_put_keys by (rewrite Hv, Hc; lia). rewrite Hv, Hkeys, lookup_insert_is_Some.
    destruct (decide (d = d')); naive_solver.
  - destruct (lru_put_view d tt (lru_pop_lru (lru p)).2) as [_ Hc']. congruence.
Qed.

Lemma allocate_ok lo hi d p :
  usable_range lo hi -> pool_ok lo hi p -> pool_ok lo hi (allocate d p).2.
Proof.
  intros Hu Hp. unfold allocate. destruct (forward p !! d) as [ip |] eqn:Hd; [by apply touch_ok |].
  destruct (decide (size (forward p) < pool_size p)%nat) as [Hlt | Hge].
  - destruct (claim_next_ok _ _ _ Hu Hp Hlt) as (-> & _). by apply bind_fresh_ok.
  - assert (0 < pool_size p)%nat by (destruct Hu, Hp; lia).
    destruct (claim_evict_ok lo hi p Hp ltac:(lia) ltac:(lia)) as (d0 & ip & Hl & Hip & ->).
    eapply bind_evict_ok; [done | lia | lia | done | done | done].
Qed.

Lemma reachable_ok lo hi p : usable_range lo hi -> pool_reachable lo hi p -> pool_ok lo hi p.
Proof. intros Hu. induction 1; [by apply pool_new_ok | by apply allocate_ok]. Qed.

(** What one allocation does to the name table. *)
Lemma allocate_forward lo hi d p :
  usable_range lo hi -> pool_ok lo hi p ->
  let '(ip, p') := allocate d p in
  forward p' !! d = Some ip
  /\ (forall d' i, d' <> d -> forward p !! d' = Some i ->
      forward p' !! d' = Some i
      \/ (forward p !! d = None /\ size (forward p) = pool_size p
          /\ list.last (lru_iter (lru p)) = Some (d', tt))).
Proof.
  intros Hu Hp. unfold allocate. destruct (forward p !! d) as [ip |] eqn:Hd; [by eauto |].
  destruct (decide (size (forward p) < pool_size p)%nat) as [Hlt | Hge].
  - destruct (claim_next_ok _ _ _ Hu Hp Hlt) as (-> & _). simpl. rewrite lookup_insert_eq.
    split; [done |]. intros d' i Hne Hf. left. by rewrite lookup_insert_ne.
  - assert (0 < pool_size p)%nat by (destruct Hu, Hp; lia).
    assert (Hfull : size (forward p) = pool_size p) by (destruct Hu, Hp; lia).
    destruct (claim_evict_ok lo hi p Hp ltac:(lia) ltac:(lia)) as (d0 & ip & Hl & Hip & ->).
    simpl. rewrite lookup_insert_eq. split; [done |]. intros d' i Hne Hf.
    destruct (decide (d' = d0)) as [-> | Hne0]; [by right |]. left.
    by rewrite lookup_insert_ne, lookup_delete_ne.
Qed.

(** C24. FakeIP pool.  In every reachable state of a pool over a range with a
    usable address: an allocation returns an address strictly between network
    and broadcast, the address and the name map to each other afterwards,
    allocating the same name again returns the same address, no two names share
    an address, and the only binding an allocation may drop is that of the
    least recently used name, when the pool is full. *)
Theorem fakeip_pool_correct (lo hi : Z) (p : FakeIpPool) (d : bytes) :
  usable_range lo hi -> pool_reachable lo hi p ->
  let '(ip, p') := allocate d p in
  lo < ip < hi /\ is_fake ip p' = true
  /\ forward p' !! d = Some ip /\ reverse_ ip p' = Some d /\ (allocate d p').1 = ip
  /\ (forall d1 d2 i, forward p' !! d1 = Some i -> forward p' !! d2 = Some i -> d1 = d2)
  /\ (forall d' i, d' <> d -> forward p !! d' = Some i ->
      forward p' !! d' = Some i
      \/ (forward p !! d = None /\ size (forward p) = pool_size p
          /\ list.last (lru_iter (lru p)) = Some (d', tt))).
Proof.
  intros Hu Hr. assert (Hp := reachable_ok _ _ _ Hu Hr).
  assert (Hf := allocate_forward lo hi d p Hu Hp). assert (Hp' := allocate_ok lo hi d p Hu Hp).
  destruct (allocate d p) as [ip p']. simpl in Hp'. destruct Hf as [Hfd Hkeep]. destruct Hp'.
  assert (Hrv := proj1 (ok_bij0 _ _) Hfd). assert (Hrange := ok_range0 _ _ Hrv).
  split; [lia |]. split; [unfold is_fake; lia |]. split; [done |]. split; [done |].
  split; [unfold allocate; by rewrite Hfd |]. split; [| done].
  intros d1 d2 i H1%ok_bij0 H2%ok_bij0. congruence.
Qed.

End fakeip_theorems.

(** * An instance of the LRU interface *)

Section list_lru.
Context {K V : Type} `{EqDecision K}.

Record ListLru : Type := mkListLru {
  ll_entries : list (K * V);
  ll_cap : nat;
  ll_nodup : NoDup ll_entries.*1;
}.

Lemma nodup_without k (l : list (K * V)) : NoDup l.*1 -> NoDup (without k l).*1.
Proof.
  unfold without. induction l as [| [x v] l IH]; simpl; [done |]. intros [Hx Hl]%list.NoDup_cons.
  destruct (decide (x = k)) as [-> | Hne].
  - rewrite filter_cons_False by (simpl; tauto). by apply IH.
  - rewrite filter_cons_True by done. simpl. apply list.NoDup_cons. split; [| by apply IH].
    intros [Hin _]%keys_without. done.
Qed.

Lemma nodup_front k v (l : list (K * V)) : NoDup l.*1 -> NoDup ((k, v) :: without k l).*1.
Proof.
  intros Hl. simpl. apply list.NoDup_cons. split; [| by apply nodup_without].
  intros [_ Hne]%keys_without. done.
Qed.

Lemma nodup_promote k (l : list (K * V)) : NoDup l.*1 -> NoDup (promote k l).*1.
Proof. unfold promote. destruct (assoc k l); [apply nodup_front | done]. Qed.

Lemma nodup_take n (l : list (K * V)) : NoDup l.*1 -> NoDup (take n l).*1.
Proof.
  intros Hl. rewrite fmap_take. rewrite <- (take_drop n l.*1) in Hl.
  by apply list.NoDup_app in Hl as [? _].
Qed.

Lemma nodup_removelast (l : list (K * V)) : NoDup l.*1 -> NoDup (removelast l).*1.
Proof.
  destruct l as [| x l] using rev_ind; [done |]. rewrite removelast_last, fmap_app.
  by intros [? _]%list.NoDup_app.
Qed.

#[global] Instance list_lru_ops : LruOps K V := {|
  LruCache := ListLru;
  lru_new c := mkListLru [] c NoDup_nil_2;
  lru_get k l := (assoc k (ll_entries l),
                  mkListLru (promote k (ll_entries l)) (ll_cap l) (nodup_promote k _ (ll_nodup l)));
  lru_put k v l := mkListLru (take (ll_cap l) ((k, v) :: without k (ll_entries l))) (ll_cap l)
                     (nodup_take _ _ (nodup_front k v _ (ll_nodup l)));
  lru_pop k l := (assoc k (ll_entries l),
                  mkListLru (without k (ll_entries l)) (ll_cap l) (nodup_without k _ (ll_nodup l)));
  lru_pop_lru l := (list.last (ll_entries l),
                    mkListLru (removelast (ll_entries l)) (ll_cap l) (nodup_removelast _ (ll_nodup l)));
  lru_iter := ll_entries;
  lru_cap := ll_cap;
|}.

#[global] Instance list_lru_laws : LruLaws K V.
Proof. split; simpl; try done. intros l. apply ll_nodup. Qed.

End list_lru.

(** 198.18.0.0/15. *)
Definition fake_lo : Z := be_val [198; 18; 0; 0].
Definition fake_hi : Z := be_val [198; 19; 255; 255].

Lemma fakeip_pool_correct_witness :
  let p : FakeIpPool := pool_new fake_lo fake_hi in
  let '(ip, p') := allocate (lit "example.com") p in
  fake_lo < ip < fake_hi /\ is_fake ip p' = true
  /\ forward p' !! lit "example.com" = Some ip /\ reverse_ ip p' = Some (lit "example.com")
  /\ (allocate (lit "example.com") p').1 = ip
  /\ (forall d1 d2 i, forward p' !! d1 = Some i -> forward p' !! d2 = Some i -> d1 = d2)
  /\ (forall d' i, d' <> lit "example.com" -> forward p !! d' = Some i ->
      forward p' !! d' = Some i
      \/ (forward p !! lit "example.com" = None /\ size (forward p) = pool_size p
          /\ list.last (lru_iter (lru p)) = Some (d', tt))).
Proof.
  apply (fakeip_pool_correct fake_lo fake_hi (pool_new fake_lo fake_hi) (lit "example.com")).
  - vm_compute. repeat split; congruence.
  - apply reach_new.
Defined.

(** A pool over a single address hands out the address after it. *)
Example fakeip_single_address :
  let '(ip, p') := allocate (lit "a") (pool_new 100 100) in ip = 101 /\ is_fake ip p' = false.
Proof. vm_compute. done. Qed.

(** With a pool of two addresses the third name evicts the first, which gets
    another address when it comes back. *)
Example fakeip_address_changes :
  let p := pool_new 100 103 in
  let '(ip1, p) := allocate (lit "a") p in
  let '(_, p) := allocate (lit "b") p in
  let '(_, p) := allocate (lit "c") p in
  let '(ip2, p) := allocate (lit "a") p in
  (ip1, ip2) = (101, 102).
Proof. vm_compute. reflexivity. Qed.

Definition cache_example : list CacheOp :=
  [OpInsert 0 (lit "a") [V4 [1; 2; 3; 4]] 300; OpGet 5 (lit "b"); OpEvict 6].

Lemma dns_cache_refines_witness :
  let c := foldl cache_step (cache_new 512) cache_example in
  let m := foldl spec_step ∅ cache_example in
  (forall a, (cache_get 7 (lit "a") c).1 = Some a ->
     exists e, m !! lit "a" = Some e /\ ips e = a /\ 7 <= expires e)
  /\ (cache_len c <= Nat.max 512 1)%nat
  /\ (forall t a ttl, 7 <= t + ttl * NANOS_PER_SEC ->
      (cache_get 7 (lit "a") (cache_insert t (lit "a") a ttl c)).1 = Some a).
Proof. exact (dns_cache_refines 512 cache_example 7 (lit "a")). Defined.
