(* ===== verification/Dispatcher.v ===== *)
(** Dispatching ([crates/blackwire-app/src/dispatcher.rs]): sniffing, FakeIP
    restoration, the Xray domain strategies and the choice of the outbound.
    The router is used through an interface; name resolution and the outbound
    connectors are the environment. *)

From stdpp Require Import base list gmap sets strings numbers.
From S2P Require Import Prelude Address Router Sniff Dns.

(** * The router interface *)

(** [trait Router]: a decision with a flag that tells whether a rule matched. *)
Class RouterIface (R : Type) := {
  ri_pick : R -> RoutingContext -> bytes * bool;
  ri_has_ip_rules : R -> bool;
  ri_domain_strategy : R -> option bytes;
}.

#[global] Instance live_router `{IpNetOps} `{PatternLib} : RouterIface RouterInner := {
  ri_pick := pick_route_match;
  ri_has_ip_rules := has_ip_rules;
  ri_domain_strategy := domain_strategy;
}.

(** * Dispatcher *)

Record Ctx : Type := mkCtx {
  cx_inbound_tag : bytes;
  cx_user : option bytes;
  cx_sniffed_protocol : option bytes;
  cx_sniffed_domain : option bytes;
}.

(** Name resolution as the dispatcher sees it: [env_dns] is the answer of the
    DNS module within its timeout ([None] also when there is no module),
    [env_lookup] that of the operating system. *)
Record ResolveEnv : Type := mkResolveEnv {
  env_dns : bytes -> option (list IpAddr);
  env_lookup : bytes -> Z -> option (list SocketAddr);
}.

(** The name lookups performed, for the record. *)
Abbreviation dispM := (stE (list bytes) ProxyError).

Section dispatcher.
Context {R : Type} `{RouterIface R}.
Context (router : R) (env : ResolveEnv) (has_dns : bool).

Definition routing_ctx (dest : Address) (inbound_tag : bytes) (user sp sd : option bytes)
  : RoutingContext := mkRoutingContext dest Tcp inbound_tag user sp sd.

Definition ip_address (i : IpAddr) (p : Z) : Address :=
  match i with V4 o => Ipv4 o p | V6 o => Ipv6 o p end.

(** The addresses of a name: the DNS module first, the system otherwise. *)
Definition lookup_name (name : bytes) (p : Z) : option (list Address) :=
  let found := match (if has_dns then env_dns env name else None) with
               | Some l => (fun i => ip_address i p) <$> l
               | None => []
               end in
  let found := match found with
               | [] => match env_lookup env name p with
                       | Some l => (fun a => ip_address (sa_ip a) p) <$> l
                       | None => []
                       end
               | l => l
               end in
  match found with [] => None | l => Some l end.

Definition resolve_domain_ips (dest : Address) : dispM (option (list Address)) :=
  match dest with
  | Domain name p => fun log => (log ++ [name], Ok (lookup_name name p))
  | _ => mret None
  end.

(** [prefetch_dns]: a task that performs the same lookup, when there is a DNS
    module. *)
Definition prefetch_dns (dest : Address) : dispM (option (option (list Address))) :=
  match dest with
  | Domain name p =>
      if has_dns then fun log => (log ++ [name], Ok (Some (lookup_name name p))) else mret None
  | _ => mret None
  end.

(** [for ip_dest in &ips { .. if matched { return Ok(route) } }]. *)
Fixpoint first_matched (inbound_tag : bytes) (user sp sd : option bytes) (ds : list Address)
  : option bytes :=
  match ds with
  | [] => None
  | d :: ds =>
      let (route, matched) := ri_pick router (routing_ctx d inbound_tag user sp sd) in
      if matched then Some route else first_matched inbound_tag user sp sd ds
  end.

Definition is_domain_dest (dest : Address) : bool :=
  match dest with Domain _ _ => true | _ => false end.

Definition strategy : RoutingDomainStrategy :=
  normalize_routing_domain_strategy (ri_domain_strategy router).

#[global] Instance strategy_eq_dec : EqDecision RoutingDomainStrategy.
Proof. solve_decision. Defined.

(** The first phase: IPOnDemand resolves before any rule is looked at. *)
Definition on_demand (inbound_tag : bytes) (dest : Address) (user sp sd : option bytes)
  : dispM (option bytes) :=
  if bool_decide (strategy = IpOnDemand) && is_domain_dest dest && ri_has_ip_rules router then
    found ← resolve_domain_ips dest;
    mret (match found with Some l => first_matched inbound_tag user sp sd l | None => None end)
  else mret None.

Definition pick_route_xray (inbound_tag : bytes) (dest : Address) (user sp sd : option bytes)
  : dispM bytes :=
  early ← on_demand inbound_tag dest user sp sd;
  match early with
  | Some route => mret route
  | None =>
      prefetch ← (if bool_decide (strategy = IpIfNonMatch) && is_domain_dest dest
                     && ri_has_ip_rules router
                  then prefetch_dns dest else mret None);
      let (route, matched) := ri_pick router (routing_ctx dest inbound_tag user sp sd) in
      if matched || bool_decide (strategy = AsIs) then mret route
      else if bool_decide (strategy = IpIfNonMatch) && is_domain_dest dest then
        found ← (match prefetch with
                 | Some r => mret r
                 | None => resolve_domain_ips dest
                 end);
        mret (match found with
              | Some l => default route (first_matched inbound_tag user sp sd l)
              | None => route
              end)
      else mret route
  end.

End dispatcher.

Section connect.
Context {R : Type} `{RouterIface R}.
Context `{LruOps bytes CacheEntry} `{LruOps bytes unit}.

Record DefaultDispatcher : Type := mkDispatcher {
  d_router : R;
  d_outbounds : gset bytes;
  d_dns : option DnsModule;
  d_sniffing : gmap bytes SniffingConfig;
}.

Definition restore_fakeip_destination (dns : option DnsModule) (dest : Address) : Address :=
  match dns with
  | None => dest
  | Some dns =>
      match dest with
      | Ipv4 i p =>
          if is_fake_ip dns (V4 i) then
            match reverse_fake dns (be_val i) with
            | Some domain => Domain domain p
            | None => Ipv4 i p
            end
          else dest
      | _ => dest
      end
  end.

(** [outbound.connect(ctx, &dest)] is the last step; the model returns the
    outbound and the destination it is called with. *)
Definition connect_outbound (self : DefaultDispatcher) (env : ResolveEnv) (ctx : Ctx) (dest : Address)
  : dispM (bytes * Address) :=
  let dest := restore_fakeip_destination (d_dns self) dest in
  route ← pick_route_xray (d_router self) env (bool_decide (is_Some (d_dns self)))
            (cx_inbound_tag ctx) dest (cx_user ctx) (cx_sniffed_protocol ctx) (cx_sniffed_domain ctx);
  if bool_decide (route ∈ d_outbounds self) then mret (route, dest)
  else st_fail (Protocol "outbound not found").

(** The part of [dispatch] that decides where the connection goes: the first
    read of the client and what follows it, and the destination the inbound
    decoded.  The result is the outbound, its destination and the bytes to
    relay. *)
Definition dispatch_target (self : DefaultDispatcher) (env : ResolveEnv) (ctx : Ctx) (dest : Address)
    (read : FirstRead) (rest : bytes) : dispM (bytes * Address * bytes) :=
  let received := read_bytes read ++ rest in
  match d_sniffing self !! cx_inbound_tag ctx with
  | Some cfg =>
      if enabled cfg then
        match sniff_stream cfg read rest with
        | Ok (stream, sniff) =>
            let sniff :=
              if bool_decide (sr_domain sniff = None) && wants cfg "fakedns" then
                match d_dns self with
                | Some dns => sniff_fakedns dest (fun i => reverse_fake dns (be_val i))
                | None => sniff
                end
              else sniff in
            let dest := apply_dest_override dest sniff cfg in
            let ctx := mkCtx (cx_inbound_tag ctx) (cx_user ctx) (sr_protocol sniff) (sr_domain sniff) in
            '(route, dest) ← connect_outbound self env ctx dest;
            mret (route, dest, stream)
        | Err e => st_fail e
        | Panic => st_lift Panic
        | NoFuel => st_lift NoFuel
        end
      else
        '(route, dest) ← connect_outbound self env ctx dest;
        mret (route, dest, received)
  | None =>
      '(route, dest) ← connect_outbound self env ctx dest;
      mret (route, dest, received)
  end.

End connect.

(** * Theorems *)

Section strategies.
Context {R : Type} `{RouterIface R}.
Context (router : R) (env : ResolveEnv) (has_dns : bool).

(** The three strategies as one expression over the router. *)
Definition strategy_route (tag : bytes) (dest : Address) (user sp sd : option bytes) : bytes :=
  let (route, matched) := ri_pick router (routing_ctx dest tag user sp sd) in
  match strategy router, dest with
  | IpIfNonMatch, Domain name p =>
      if matched then route
      else default route (l ← lookup_name env has_dns name p; first_matched router tag user sp sd l)
  | IpOnDemand, Domain name p =>
      if ri_has_ip_rules router
      then default route (l ← lookup_name env has_dns name p; first_matched router tag user sp sd l)
      else route
  | _, _ => route
  end.

(** When a name is looked up at all. *)
Definition looks_up (tag : bytes) (dest : Address) (user sp sd : option bytes) : bool :=
  match strategy router, dest with
  | IpIfNonMatch, Domain _ _ =>
      negb (snd (ri_pick router (routing_ctx dest tag user sp sd)))
      || ri_has_ip_rules router && has_dns
  | IpOnDemand, Domain _ _ => ri_has_ip_rules router
  | _, _ => false
  end.

(** The decision, in terms of the router's own answers. *)
Lemma pick_route_xray_eq (tag : bytes) (dest : Address) (user sp sd : option bytes) (log : list bytes) :
  pick_route_xray router env has_dns tag dest user sp sd log
  = (log ++ (if looks_up tag dest user sp sd then option_list (domain dest) else []),
     Ok (strategy_route tag dest user sp sd)).
Proof.
  unfold pick_route_xray, on_demand, strategy_route, looks_up, resolve_domain_ips, prefetch_dns.
  destruct (ri_pick router _) as [route matched]. cbn [snd].
  destruct dest as [i p | i p | name p]; destruct (strategy router);
    cbn [is_domain_dest domain option_list];
    rewrite ?andb_false_r, ?andb_true_r, ?andb_false_l, ?andb_true_l;
    unfold mbind, stE_bind, mret, stE_ret; simpl;
    rewrite ?app_nil_r, ?orb_false_r, ?orb_true_r; try done.
  all: destruct (ri_has_ip_rules router), has_dns, matched; simpl; rewrite ?app_nil_r; try done;
    destruct (lookup_name _ _ _ _) as [l |]; simpl; try done.
  all: by destruct (first_matched router tag user sp sd l).
Qed.

End strategies.

(** ** What the rules decide *)

(** What a connection shows to the rules: the inbound it came from, the sniffed
    protocol, its name (that of the destination, or the sniffed one), its
    address and its port. *)
Record Shown : Type := mkShown {
  sh_inbound : bytes;
  sh_protocol : option bytes;
  sh_name : option bytes;
  sh_ip : option IpAddr;
  sh_port : Z;
}.

Definition shown (tag : bytes) (sp sd : option bytes) (d : Address) : Shown :=
  match d with
  | Domain n p => mkShown tag sp (Some n) None p
  | Ipv4 o p => mkShown tag sp sd (Some (V4 o)) p
  | Ipv6 o p => mkShown tag sp sd (Some (V6 o)) p
  end.

Section decisions.
Context `{IpNetOps} `{PatternLib}.
Context (gi : gmap bytes GeoIpMatcher) (gs : gmap bytes DomainMatcher).

Inductive covers_name (r : CompiledRule) (n : bytes) : Prop :=
  | name_by_matcher m : domain_matcher r = Some m -> DomainMatcher_matches m n = true -> covers_name r n
  | name_by_geosite c m : c ∈ geosite_codes r -> gs !! c = Some m -> match_domain m n = true ->
      covers_name r n.

Inductive covers_ip (r : CompiledRule) (i : IpAddr) : Prop :=
  | ip_by_matcher m : ip_matcher r = Some m -> IpMatcher_matches m i = true -> covers_ip r i
  | ip_by_geoip c m : c ∈ geoip_codes r -> gi !! c = Some m -> match_ip m i = true -> covers_ip r i.

(** A rule names a domain, or an address, when the configuration does. *)
Definition names_domain (r : CompiledRule) : Prop := domain_matcher r <> None \/ geosite_codes r <> [].
Definition names_ip (r : CompiledRule) : Prop := ip_matcher r <> None \/ geoip_codes r <> [].

(** A rule applies when each condition it has holds. *)
Record applies (s : Shown) (r : CompiledRule) : Prop := mkApplies {
  ap_inbound : inbound_tags r <> [] -> sh_inbound s ∈ inbound_tags r;
  ap_protocol : protocols r <> [] -> exists p, sh_protocol s = Some p /\ p ∈ protocols r;
  ap_port : port_ranges r <> [] -> exists lo hi, (lo, hi) ∈ port_ranges r /\ lo <= sh_port s <= hi;
  ap_domain : names_domain r -> exists n, sh_name s = Some n /\ covers_name r n;
  ap_ip : names_ip r -> exists i, sh_ip s = Some i /\ covers_ip r i;
}.

(** The first rule that applies has this outbound; or none applies. *)
Definition hit (rs : list CompiledRule) (s : Shown) (route : bytes) : Prop :=
  exists l1 r l2, rs = l1 ++ r :: l2 /\ outbound_tag r = route /\ applies s r
    /\ Forall (fun r' => ~ applies s r') l1.

Definition miss (rs : list CompiledRule) (s : Shown) : Prop := Forall (fun r => ~ applies s r) rs.

(** The same over a list of addresses, tried in order. *)
Definition hits_any (rs : list CompiledRule) (sees : Address -> Shown) (ds : list Address) (route : bytes)
  : Prop :=
  exists ds1 d ds2, ds = ds1 ++ d :: ds2 /\ hit rs (sees d) route
    /\ Forall (fun d' => miss rs (sees d')) ds1.

(** The addresses of a name, with the port of the destination: those of the
    DNS module when it has any, those of the system otherwise. *)
Inductive resolves (env : ResolveEnv) (has_dns : bool) (name : bytes) (p : Z) : list Address -> Prop :=
  | by_module l : has_dns = true -> env_dns env name = Some l -> l <> [] ->
      resolves env has_dns name p ((fun i => ip_address i p) <$> l)
  | by_system l : (has_dns = true -> env_dns env name = None \/ env_dns env name = Some []) ->
      env_lookup env name p = Some l ->
      resolves env has_dns name p ((fun a => ip_address (sa_ip a) p) <$> l)
  | by_nobody : (has_dns = true -> env_dns env name = None \/ env_dns env name = Some []) ->
      env_lookup env name p = None -> resolves env has_dns name p [].

(** The configured [domainStrategy], read without case and spaces around it. *)
Definition says (text : option bytes) (s : string) : Prop :=
  exists t, text = Some t /\ to_ascii_lowercase (trim t) = lit s.

Section decided.
Context (rs : list CompiledRule) (dflt : bytes) (text : option bytes).
Context (env : ResolveEnv) (has_dns : bool).
Context (tag : bytes) (sp sd : option bytes) (dest : Address).

Definition by_addresses (route : bytes) : Prop :=
  exists name p ds, dest = Domain name p /\ resolves env has_dns name p ds
    /\ hits_any rs (shown tag sp sd) ds route.

(** IPOnDemand with an IP rule: the addresses of the name come before the name. *)
Definition before_name (route : bytes) : Prop :=
  says text "ipondemand" /\ Exists names_ip rs /\ by_addresses route.

(** IPIfNonMatch: the addresses of the name come after the name. *)
Definition after_name (route : bytes) : Prop := says text "ipifnonmatch" /\ by_addresses route.

Inductive decided : bytes -> Prop :=
  | dec_before route : before_name route -> decided route
  | dec_rule route : (forall t, ~ before_name t) -> hit rs (shown tag sp sd dest) route -> decided route
  | dec_after route : miss rs (shown tag sp sd dest) -> after_name route -> decided route
  | dec_default : (forall t, ~ before_name t) -> miss rs (shown tag sp sd dest) ->
      (forall t, ~ after_name t) -> decided dflt.

(** When the name of the destination is looked up. *)
Definition asks (name : bytes) : Prop :=
  (exists p, dest = Domain name p)
  /\ (says text "ipondemand" /\ Exists names_ip rs
      \/ says text "ipifnonmatch"
         /\ (miss rs (shown tag sp sd dest) \/ has_dns = true /\ Exists names_ip rs)).

End decided.

(** *** The router computes them *)

Lemma is_empty_false {A} (l : list A) : is_empty l = false <-> l <> [].
Proof. by destruct l. Qed.

Lemma guard_iff (b : bool) (P Q : Prop) (t : bool) :
  (b = false <-> P) -> (t = true <-> Q) -> b || t = true <-> (P -> Q).
Proof.
  intros HP HQ. rewrite orb_true_iff, HQ, <- HP. destruct b; naive_solver.
Qed.

Lemma opt_test_iff {A} (f : A -> bool) o : opt_test f o = true <-> exists a, o = Some a /\ f a = true.
Proof. destruct o; simpl; naive_solver. Qed.

Lemma existsb_code {A} (db : gmap bytes A) (f : A -> bool) codes :
  existsb (fun c => opt_test f (db !! c)) codes = true <->
  exists c m, c ∈ codes /\ db !! c = Some m /\ f m = true.
Proof.
  rewrite existsb_exists. setoid_rewrite opt_test_iff. setoid_rewrite <- list_elem_of_In. naive_solver.
Qed.

Lemma has_domain_restriction_iff r : has_domain_restriction r = true <-> names_domain r.
Proof.
  unfold has_domain_restriction, names_domain. rewrite orb_true_iff, negb_true_iff, is_empty_false.
  destruct (domain_matcher r); cbn; naive_solver.
Qed.

Lemma has_ip_restriction_iff r : has_ip_restriction r = true <-> names_ip r.
Proof.
  unfold has_ip_restriction, names_ip. rewrite orb_true_iff, negb_true_iff, is_empty_false.
  destruct (ip_matcher r); cbn; naive_solver.
Qed.

Lemma covers_name_iff r n :
  opt_test (fun dm => DomainMatcher_matches dm n) (domain_matcher r)
  || existsb (fun code => opt_test (fun m => match_domain m n) (gs !! code)) (geosite_codes r) = true
  <-> covers_name r n.
Proof.
  rewrite orb_true_iff, opt_test_iff, existsb_code. split.
  - intros [(m & ? & ?) | (c & m & ? & ? & ?)]; [by eapply name_by_matcher | by eapply name_by_geosite].
  - intros [m ?? | c m ???]; eauto 10.
Qed.

Lemma covers_ip_iff r i :
  opt_test (fun im => IpMatcher_matches im i) (ip_matcher r)
  || existsb (fun code => opt_test (fun m => match_ip m i) (gi !! code)) (geoip_codes r) = true
  <-> covers_ip r i.
Proof.
  rewrite orb_true_iff, opt_test_iff, existsb_code. split.
  - intros [(m & ? & ?) | (c & m & ? & ? & ?)]; [by eapply ip_by_matcher | by eapply ip_by_geoip].
  - intros [m ?? | c m ???]; eauto 10.
Qed.

Section conditions.
Context (tag : bytes) (user sp sd : option bytes) (d : Address) (r : CompiledRule).

Let ctx := routing_ctx d tag user sp sd.
Let s := shown tag sp sd d.

Lemma inbound_ok_iff : inbound_ok r ctx = true <-> (inbound_tags r <> [] -> sh_inbound s ∈ inbound_tags r).
Proof.
  apply guard_iff; [apply is_empty_false |]. rewrite bool_decide_eq_true. by destruct d.
Qed.

Lemma protocol_ok_iff :
  protocol_ok r ctx = true <-> (protocols r <> [] -> exists p, sh_protocol s = Some p /\ p ∈ protocols r).
Proof.
  apply guard_iff; [apply is_empty_false |]. assert (sh_protocol s = sp) as -> by (by destruct d).
  simpl. destruct sp; [rewrite bool_decide_eq_true |]; naive_solver.
Qed.

Lemma port_ok_iff :
  port_ok r ctx = true
  <-> (port_ranges r <> [] -> exists lo hi, (lo, hi) ∈ port_ranges r /\ lo <= sh_port s <= hi).
Proof.
  apply guard_iff; [apply is_empty_false |]. assert (sh_port s = port d) as -> by (by destruct d).
  simpl. rewrite existsb_exists. setoid_rewrite <- list_elem_of_In. split.
  - intros ([lo hi] & ? & ?). exists lo, hi. split; [done | lia].
  - intros (lo & hi & ? & ?). exists (lo, hi). split; [done | lia].
Qed.

Lemma domain_ok_iff :
  domain_ok r ctx gs = true <-> (names_domain r -> exists n, sh_name s = Some n /\ covers_name r n).
Proof.
  unfold domain_ok. rewrite <- has_domain_restriction_iff.
  assert (domain_name ctx = sh_name s) as -> by (by destruct d).
  destruct (has_domain_restriction r); [| naive_solver].
  destruct (sh_name s) as [n |]; [cbv zeta; rewrite covers_name_iff |]; naive_solver.
Qed.

Lemma ip_ok_iff :
  ip_ok r ctx gi = true <-> (names_ip r -> exists i, sh_ip s = Some i /\ covers_ip r i).
Proof.
  unfold ip_ok. rewrite <- has_ip_restriction_iff.
  assert (ip (rc_dest ctx) = sh_ip s) as -> by (by destruct d).
  destruct (has_ip_restriction r); [| naive_solver].
  destruct (sh_ip s) as [i |]; [cbv zeta; rewrite covers_ip_iff |]; naive_solver.
Qed.

Lemma matches_with_geo_iff : matches_with_geo r ctx gi gs = true <-> applies s r.
Proof.
  transitivity (inbound_ok r ctx = true /\ protocol_ok r ctx = true /\ port_ok r ctx = true
                /\ domain_ok r ctx gs = true /\ ip_ok r ctx gi = true).
  - unfold matches_with_geo.
    destruct (inbound_ok r ctx), (protocol_ok r ctx), (port_ok r ctx), (domain_ok r ctx gs), (ip_ok r ctx gi);
      cbn; intuition congruence.
  - rewrite inbound_ok_iff, protocol_ok_iff, port_ok_iff, domain_ok_iff, ip_ok_iff.
    split; [by intros (?&?&?&?&?); split | by intros []].
Qed.

Lemma matches_with_geo_not : matches_with_geo r ctx gi gs = false <-> ~ applies s r.
Proof. rewrite <- matches_with_geo_iff. by rewrite not_true_iff_false. Qed.

End conditions.

Section router_decides.
Context (rs : list CompiledRule) (dflt : bytes) (text : option bytes).
Context (tag : bytes) (user sp sd : option bytes).

Let sees := shown tag sp sd.
Let router := LiveRouter_new rs dflt gi gs text.

Lemma first_match_hit d route :
  first_match rs (routing_ctx d tag user sp sd) gi gs = Some route <-> hit rs (sees d) route.
Proof.
  rewrite first_match_spec. unfold hit. setoid_rewrite matches_with_geo_iff.
  setoid_rewrite matches_with_geo_not. done.
Qed.

Lemma first_match_miss d :
  first_match rs (routing_ctx d tag user sp sd) gi gs = None <-> miss rs (sees d).
Proof. rewrite first_match_none. unfold miss. by setoid_rewrite matches_with_geo_not. Qed.

Lemma ri_pick_first_match d :
  ri_pick router (routing_ctx d tag user sp sd)
  = match first_match rs (routing_ctx d tag user sp sd) gi gs with
    | Some route => (route, true)
    | None => (dflt, false)
    end.
Proof. done. Qed.

Lemma first_matched_hits ds route :
  first_matched router tag user sp sd ds = Some route <-> hits_any rs sees ds route.
Proof.
  induction ds as [| d ds IH].
  - split; [done |]. by intros ([] & ? & ? & ? & _).
  - cbn [first_matched]. rewrite ri_pick_first_match.
    destruct (first_match _ _ _ _) as [t |] eqn:Hm; cbn.
    + apply first_match_hit in Hm as Hh. split.
      * intros [= <-]. by exists [], d, ds.
      * intros (ds1 & d' & ds2 & Heq & Hd' & Hmiss). destruct ds1 as [| x ds1]; injection Heq as -> ->.
        -- apply first_match_hit in Hd'. congruence.
        -- apply Forall_cons_iff in Hmiss as [Hx _]. apply first_match_miss in Hx. congruence.
    + apply first_match_miss in Hm as Hx. rewrite IH. split.
      * intros (ds1 & d' & ds2 & -> & Hd' & Hmiss). exists (d :: ds1), d', ds2. auto.
      * intros (ds1 & d' & ds2 & Heq & Hd' & Hmiss). destruct ds1 as [| x ds1]; injection Heq as -> ->.
        -- apply first_match_hit in Hd'. congruence.
        -- apply Forall_cons_iff in Hmiss as [_ Hmiss]. by exists ds1, d', ds2.
Qed.

Lemma any_ip_rule_iff : any_ip_rule rs = true <-> Exists names_ip rs.
Proof.
  unfold any_ip_rule. rewrite existsb_exists, List.Exists_exists. by setoid_rewrite has_ip_restriction_iff.
Qed.

End router_decides.

Lemma resolves_iff env has_dns name p ds :
  resolves env has_dns name p ds <-> ds = default [] (lookup_name env has_dns name p).
Proof.
  unfold lookup_name. split.
  - intros [l -> -> Hl | l Hno -> | Hno ->].
    + by destruct l.
    + destruct has_dns; [destruct (Hno eq_refl) as [-> | ->] |]; by destruct l.
    + destruct has_dns; [by destruct (Hno eq_refl) as [-> | ->] |]; done.
  - intros ->. destruct has_dns.
    + destruct (env_dns env name) as [[| i l] |] eqn:Hd; cbn.
      * destruct (env_lookup env name p) as [l |] eqn:Hl; [| by apply by_nobody; eauto].
        assert (Hr := by_system env true name p l ltac:(eauto) Hl). by destruct l.
      * by apply (by_module env true name p (i :: l)).
      * destruct (env_lookup env name p) as [l |] eqn:Hl; [| by apply by_nobody; eauto].
        assert (Hr := by_system env true name p l ltac:(eauto) Hl). by destruct l.
    + cbn. destruct (env_lookup env name p) as [l |] eqn:Hl; [| by apply by_nobody].
      assert (Hr := by_system env false name p l ltac:(done) Hl). by destruct l.
Qed.

Lemma says_strategy text :
  match normalize_routing_domain_strategy text with
  | AsIs => ~ says text "ipifnonmatch" /\ ~ says text "ipondemand"
  | IpIfNonMatch => says text "ipifnonmatch" /\ ~ says text "ipondemand"
  | IpOnDemand => ~ says text "ipifnonmatch" /\ says text "ipondemand"
  end.
Proof.
  unfold normalize_routing_domain_strategy, says, bytes_eqb. destruct text as [t |]; cbn; [| naive_solver].
  repeat case_bool_decide; split; try (intros (t' & [= <-] & Ht); congruence); eauto.
Qed.

(** *** The decision of the dispatcher *)

Section picked.
Context (rs : list CompiledRule) (dflt : bytes) (text : option bytes).
Context (env : ResolveEnv) (has_dns : bool).
Context (tag : bytes) (user sp sd : option bytes) (dest : Address).

Let router := LiveRouter_new rs dflt gi gs text.
Let decides := decided rs dflt text env has_dns tag sp sd dest.
Let asking := asks rs text has_dns tag sp sd dest.

(** The rules on the addresses of the name. *)
Definition tried : option bytes :=
  match dest with
  | Domain name p => first_matched router tag user sp sd (default [] (lookup_name env has_dns name p))
  | _ => None
  end.

Lemma by_addresses_iff route : by_addresses rs env has_dns tag sp sd dest route <-> tried = Some route.
Proof.
  unfold by_addresses, tried. split.
  - intros (name & p & ds & -> & Hr & Hh). apply resolves_iff in Hr as ->. by apply first_matched_hits.
  - destruct dest as [| | name p]; [done | done |]. intros Hh%first_matched_hits.
    exists name, p, (default [] (lookup_name env has_dns name p)). split; [done |].
    split; [by apply resolves_iff | done].
Qed.

(** The decision of the specification, computed. *)
Definition settled : bytes :=
  let by_rule := first_match rs (routing_ctx dest tag user sp sd) gi gs in
  match normalize_routing_domain_strategy text with
  | AsIs => default dflt by_rule
  | IpIfNonMatch => match by_rule with Some route => route | None => default dflt tried end
  | IpOnDemand =>
      if any_ip_rule rs then match tried with Some route => route | None => default dflt by_rule end
      else default dflt by_rule
  end.

Lemma before_name_iff route :
  before_name rs text env has_dns tag sp sd dest route
  <-> normalize_routing_domain_strategy text = IpOnDemand /\ any_ip_rule rs = true /\ tried = Some route.
Proof.
  unfold before_name. rewrite by_addresses_iff, <- any_ip_rule_iff.
  assert (Hs := says_strategy text). destruct (normalize_routing_domain_strategy text); naive_solver.
Qed.

Lemma after_name_iff route :
  after_name rs text env has_dns tag sp sd dest route
  <-> normalize_routing_domain_strategy text = IpIfNonMatch /\ tried = Some route.
Proof.
  unfold after_name. rewrite by_addresses_iff.
  assert (Hs := says_strategy text). destruct (normalize_routing_domain_strategy text); naive_solver.
Qed.

Lemma decided_iff route : decides route <-> route = settled.
Proof.
  unfold decides, settled. split.
  - intros [t Hb | t Hb Hh | t Hm Ha | Hb Hm Ha].
    + apply before_name_iff in Hb as (-> & -> & ->). done.
    + apply (first_match_hit _ _ user) in Hh as ->.
      destruct (normalize_routing_domain_strategy text) eqn:Hs; [done | done |].
      destruct (any_ip_rule rs) eqn:Hi; [| done]. destruct tried as [t' |] eqn:Ht; [| done].
      destruct (Hb t'). by apply before_name_iff.
    + apply (first_match_miss _ _ user) in Hm as ->. by apply after_name_iff in Ha as [-> ->].
    + apply (first_match_miss _ _ user) in Hm as ->.
      destruct (normalize_routing_domain_strategy text) eqn:Hs; [done | |].
      * destruct tried as [t' |] eqn:Ht; [| done]. destruct (Ha t'). by apply after_name_iff.
      * destruct (any_ip_rule rs) eqn:Hi; [| done]. destruct tried as [t' |] eqn:Ht; [| done].
        destruct (Hb t'). by apply before_name_iff.
  - intros ->. cbv zeta.
    destruct (decide (normalize_routing_domain_strategy text = IpOnDemand /\ any_ip_rule rs = true
                      /\ is_Some tried)) as [(Hs & Hi & t & Ht) | Hb].
    { rewrite Hs, Hi, Ht. apply dec_before. by apply before_name_iff. }
    assert (Hb' : forall t, ~ before_name rs text env has_dns tag sp sd dest t).
    { intros t Ht%before_name_iff. naive_solver. }
    destruct (first_match rs (routing_ctx dest tag user sp sd) gi gs) as [t |] eqn:Hf; cbn.
    + apply first_match_hit in Hf. apply dec_rule; [done |].
      destruct (normalize_routing_domain_strategy text) eqn:Hs; [done | done |].
      destruct (any_ip_rule rs), tried; naive_solver.
    + apply first_match_miss in Hf.
      destruct (normalize_routing_domain_strategy text) eqn:Hs.
      * apply dec_default; [done | done |]. intros t [Ht _]%after_name_iff. congruence.
      * destruct tried as [t |] eqn:Ht; cbn.
        -- apply dec_after; [done |]. by apply after_name_iff.
        -- apply dec_default; [done | done |]. intros t [Ht' Ht'']%after_name_iff. congruence.
      * assert (dflt = if any_ip_rule rs then match tried with Some t => t | None => dflt end else dflt) as <-
          by (destruct (any_ip_rule rs), tried; naive_solver).
        apply dec_default; [done | done |]. intros t [Ht' Ht'']%after_name_iff. congruence.
Qed.

Lemma strategy_route_settled : strategy_route router env has_dns tag dest user sp sd = settled.
Proof.
  unfold strategy_route, settled, tried, strategy, router. rewrite ri_pick_first_match. cbn.
  destruct (first_match _ _ _ _), (normalize_routing_domain_strategy text), dest as [| | name p]; cbn;
    try done; try (by destruct (any_ip_rule rs));
    destruct (lookup_name env has_dns name p), (any_ip_rule rs); cbn; try done;
    by destruct (first_matched _ _ _ _ _ _).
Qed.

Lemma asks_iff name :
  asking name <->
  looks_up router has_dns tag dest user sp sd = true /\ domain dest = Some name.
Proof.
  unfold asking, asks, looks_up, strategy, router. rewrite ri_pick_first_match. cbn.
  assert (Hs := says_strategy text). rewrite <- any_ip_rule_iff, <- (first_match_miss _ _ user).
  destruct (first_match _ _ _ _), (normalize_routing_domain_strategy text), dest as [| | n p],
    (any_ip_rule rs), has_dns; cbn; naive_solver.
Qed.

Lemma pick_route_xray_decides log :
  exists l, pick_route_xray router env has_dns tag dest user sp sd log = (log ++ l, Ok settled)
    /\ (forall name, l = [name] <-> asking name) /\ (length l <= 1)%nat.
Proof.
  rewrite pick_route_xray_eq, strategy_route_settled. eexists. split; [done |]. setoid_rewrite asks_iff.
  destruct (looks_up _ _ _ _ _ _ _), (domain dest); cbn; (split; [naive_solver | lia]).
Qed.

End picked.


End decisions.

(** Rule 1 sends example.com to "proxy"; rule 2 sends 10.0.0.0/8 to "direct". *)
Definition order_rules : list CompiledRule :=
  [mkCompiledRule (lit "proxy") (Some example_matcher) [] None [] [] [] [];
   mkCompiledRule (lit "direct") None [] (Some (mkIpMatcher (sort_unstable [net_10_8]))) [] [] [] []].

Definition order_env : ResolveEnv := mkResolveEnv (fun _ => Some [V4 [10; 0; 0; 1]]) (fun _ _ => None).

Definition order_router (strategy : string) : RouterInner :=
  LiveRouter_new order_rules (lit "default") ∅ ∅ (Some (lit strategy)).

(** Under IPOnDemand the order of the rules does not decide: the resolved
    addresses are tried against all rules before the name is, so a later IP
    rule overrides an earlier domain rule that matches the destination, which
    wins under the other two strategies. *)
Theorem ip_on_demand_ignores_rule_order :
  let dest := Domain (lit "www.example.com") 443 in
  let pick s := snd (pick_route_xray (order_router s) order_env true (lit "in") dest None None None []) in
  pick "AsIs" = Ok (lit "proxy") /\ pick "IPIfNonMatch" = Ok (lit "proxy")
  /\ pick "IPOnDemand" = Ok (lit "direct").
Proof. vm_compute. done. Qed.

(** * Where a connection goes *)

Section targets.
Context `{IpNetOps} `{PatternLib}.
Context {HOc : LruOps bytes CacheEntry} {HO : LruOps bytes unit} {HL : LruLaws bytes unit}.

(** ** The specification *)

(** The name a FakeIP address was handed out for. *)
Definition name_of (dns : option DnsModule) (i : bytes) (n : bytes) : Prop :=
  exists m pool, dns = Some m /\ fakeip m = Some pool /\ rev_map pool !! be_val i = Some n.

(** An address of the FakeIP range, with its name. *)
Definition fake_address (dns : option DnsModule) (i : bytes) (n : bytes) : Prop :=
  exists m pool, dns = Some m /\ fakeip m = Some pool
    /\ network pool <= be_val i <= broadcast pool /\ rev_map pool !! be_val i = Some n.

Inductive real_dest (dns : option DnsModule) : Address -> Address -> Prop :=
  | real_name i p n : fake_address dns i n -> real_dest dns (Ipv4 i p) (Domain n p)
  | real_same d : (forall i p n, d = Ipv4 i p -> ~ fake_address dns i n) -> real_dest dns d d.

(** What the sniffer finds in the first bytes and the destination. *)
Section learns.
Context (cfg : SniffingConfig) (dns : option DnsModule) (dest : Address) (peek : bytes).

Definition no_tls : Prop := wants cfg "tls" = true -> tls_sni peek = Ok None.
Definition no_http : Prop := wants cfg "http" = true -> http_host peek = None.

Inductive learns : SniffResult -> Prop :=
  | learn_tls n : wants cfg "tls" = true -> tls_sni peek = Ok (Some n) ->
      learns (mkSniffResult (Some (lit "tls")) (Some n))
  | learn_http n : no_tls -> wants cfg "http" = true -> http_host peek = Some n ->
      learns (mkSniffResult (Some (lit "http")) (Some n))
  | learn_fakedns i p n : no_tls -> no_http -> wants cfg "fakedns" = true -> dest = Ipv4 i p ->
      name_of dns i n -> learns (mkSniffResult (Some (lit "fakedns")) (Some n))
  | learn_nothing : no_tls -> no_http ->
      (wants cfg "fakedns" = true -> forall i p n, dest = Ipv4 i p -> ~ name_of dns i n) ->
      learns SniffResult_default.

End learns.

(** A name that was found replaces an address, unless it is for routing only. *)
Inductive renamed (cfg : SniffingConfig) (sr : SniffResult) (dest : Address) : Address -> Prop :=
  | to_name n : route_only cfg = false -> sr_domain sr = Some n -> is_domain_dest dest = false ->
      renamed cfg sr dest (Domain n (port dest))
  | kept : (route_only cfg = true \/ sr_domain sr = None \/ is_domain_dest dest = true) ->
      renamed cfg sr dest dest.

(** What the routing sees of a connection: its destination and what was
    sniffed. *)
Inductive sees (self : DefaultDispatcher (R:=RouterInner)) (ctx : Ctx) (dest : Address) (read : FirstRead)
  : Address -> option bytes -> option bytes -> Prop :=
  | sees_plain :
      (forall cfg, d_sniffing self !! cx_inbound_tag ctx = Some cfg -> enabled cfg = false) ->
      sees self ctx dest read dest (cx_sniffed_protocol ctx) (cx_sniffed_domain ctx)
  | sees_sniffed cfg sr dest' :
      d_sniffing self !! cx_inbound_tag ctx = Some cfg -> enabled cfg = true ->
      learns cfg (d_dns self) dest
        (if metadata_only cfg then [] else take (Z.to_nat MAX_SNIFF) (read_bytes read)) sr ->
      renamed cfg sr dest dest' ->
      sees self ctx dest read dest' (sr_protocol sr) (sr_domain sr).

(** The sniffer's own read failed. *)
Definition read_fails (self : DefaultDispatcher (R:=RouterInner)) (ctx : Ctx) (read : FirstRead) (k : IoKind)
  : Prop :=
  exists cfg, d_sniffing self !! cx_inbound_tag ctx = Some cfg /\ enabled cfg = true
    /\ metadata_only cfg = false /\ read = ReadError k.

(** The outbound and the destination of a connection. *)
Definition placed (self : DefaultDispatcher (R:=RouterInner)) (env : ResolveEnv) (ctx : Ctx) (dest : Address)
    (read : FirstRead) (route : bytes) (d : Address) : Prop :=
  exists dest' sp sd, sees self ctx dest read dest' sp sd /\ real_dest (d_dns self) dest' d
    /\ decided (geoip (d_router self)) (geosite (d_router self)) (rules (d_router self))
         (default_tag (d_router self)) (domain_strategy (d_router self)) env
         (bool_decide (is_Some (d_dns self))) (cx_inbound_tag ctx) sp sd d route.

(** ** The code computes it *)

Lemma reverse_fake_iff dns i n :
  (m ← dns; reverse_fake m (be_val i)) = Some n <-> name_of dns i n.
Proof.
  unfold name_of, reverse_fake, reverse_. destruct dns as [m |]; cbn; [| naive_solver].
  destruct (fakeip m) as [pool |] eqn:Hp; cbn; split; try done.
  - intros Hn. by exists m, pool.
  - intros (m' & pool' & [= <-] & Hp' & Hn). congruence.
  - intros (m' & pool' & [= <-] & Hp' & Hn). congruence.
Qed.

Lemma restore_iff dns dest d : real_dest dns dest d <-> d = restore_fakeip_destination dns dest.
Proof.
  unfold restore_fakeip_destination, is_fake_ip, reverse_fake, reverse_, is_fake. split.
  - intros [i p n (m & pool & -> & Hp & Hr & Hn) | d' Hd].
    + rewrite Hp. cbn. rewrite Hn. by replace ((network pool <=? be_val i) && (be_val i <=? broadcast pool)) with true by lia.
    + destruct dns as [m |]; [| done]. destruct d' as [i p | |]; [| done | done].
      destruct (fakeip m) as [pool |] eqn:Hp; [| done]. cbn.
      destruct ((network pool <=? be_val i) && (be_val i <=? broadcast pool)) eqn:Hr; [| done].
      destruct (rev_map pool !! be_val i) as [n |] eqn:Hn; [| done].
      destruct (Hd i p n eq_refl). exists m, pool. repeat split; try done; lia.
  - intros ->. destruct dns as [m |]; [| by apply real_same; intros ??? _ (? & ? & ? & _)].
    destruct dest as [i p | |]; [| by apply real_same | by apply real_same].
    destruct (fakeip m) as [pool |] eqn:Hp.
    + cbn. destruct ((network pool <=? be_val i) && (be_val i <=? broadcast pool)) eqn:Hr.
      * destruct (rev_map pool !! be_val i) as [n |] eqn:Hn.
        -- apply real_name. exists m, pool. repeat split; try done; lia.
        -- apply real_same. intros i' p' n [= <- <-] (m' & pool' & [= <-] & Hp' & _ & Hn').
           rewrite Hp in Hp'. injection Hp' as <-. congruence.
      * apply real_same. intros i' p' n [= <- <-] (m' & pool' & [= <-] & Hp' & Hr' & _).
        rewrite Hp in Hp'. injection Hp' as <-. lia.
    + apply real_same. intros i' p' n [= <- <-] (m' & pool' & [= <-] & Hp' & _). congruence.
Qed.

(** The sniffer's result with the FakeDNS step of [dispatch]. *)
Definition with_fakedns (self : DefaultDispatcher (R:=RouterInner)) (cfg : SniffingConfig) (dest : Address)
    (sniff : SniffResult) : SniffResult :=
  if bool_decide (sr_domain sniff = None) && wants cfg "fakedns" then
    match d_dns self with
    | Some dns => sniff_fakedns dest (fun i => reverse_fake dns (be_val i))
    | None => sniff
    end
  else sniff.

Lemma analyze_learns self cfg dest peek r sr :
  analyze_peek peek cfg = Ok r ->
  learns cfg (d_dns self) dest peek sr <-> sr = with_fakedns self cfg dest r.
Proof.
  unfold analyze_peek, with_fakedns. intros Hr. apply rbind_inv in Hr as (tls & Htls & Hr).
  assert (Hnt : no_tls cfg peek <-> tls = None).
  { unfold no_tls. destruct (wants cfg "tls"); [| by injection Htls as <-].
    rewrite Htls. split; [intros Hn; by specialize (Hn eq_refl) as [= ->] | by intros ->]. }
  destruct tls as [n |].
  { injection Hr as <-. cbn. split; [| intros ->].
    - intros [n' Hw Hn' | ? Hn | ? ? ? Hn | Hn]; [| by apply Hnt in Hn..].
      rewrite Hw in Htls. rewrite Htls in Hn'. by simplify_eq.
    - destruct (wants cfg "tls") eqn:Hw; [by apply learn_tls | done]. }
  assert (Hnh : no_http cfg peek <-> (if wants cfg "http" then http_host peek else None) = None).
  { unfold no_http. destruct (wants cfg "http"); [| done]. split; [intros Hn; by apply Hn | by intros]. }
  destruct (if wants cfg "http" then http_host peek else None) as [n |] eqn:Hh.
  { injection Hr as <-. cbn. split; [| intros ->].
    - intros [n' Hw Hn' | n' ? Hw Hn' | ? ? ? ? Hn | ? Hn]; [| | by apply Hnh in Hn..].
      + rewrite Hw in Htls. rewrite Htls in Hn'. by simplify_eq.
      + rewrite Hw in Hh. rewrite Hh in Hn'. by simplify_eq.
    - destruct (wants cfg "http") eqn:Hw; [| done]. apply learn_http; [by apply Hnt | done | done]. }
  injection Hr as <-. cbn.
  assert (Hno : forall i n, (match d_dns self with Some m => reverse_fake m (be_val i) | None => None end) = Some n
                <-> name_of (d_dns self) i n) by (intros; apply reverse_fake_iff).
  split.
  - intros [n' Hw Hn' | n' ? Hw Hn' | i p n ? ? -> -> Hn | ? ? Hn].
    + rewrite Hw in Htls. rewrite Htls in Hn'. by simplify_eq.
    + rewrite Hw in Hh. rewrite Hh in Hn'. by simplify_eq.
    + apply Hno in Hn. destruct (d_dns self); [| done]. cbn. by rewrite Hn.
    + destruct (wants cfg "fakedns"); [| done]. specialize (Hn eq_refl).
      destruct (d_dns self) as [m |]; [| done]. destruct dest as [i p | |]; [| done | done]. cbn.
      destruct (reverse_fake m (be_val i)) as [n |] eqn:Hf; [| done].
      by destruct (Hn i p n eq_refl); apply Hno.
  - intros ->. assert (Hnt' := proj2 Hnt eq_refl). assert (Hnh' := proj2 Hnh eq_refl).
    destruct (wants cfg "fakedns") eqn:Hw; [| apply learn_nothing; [done | done | by rewrite Hw]].
    destruct (d_dns self) as [m |] eqn:Hd.
    + destruct dest as [i p | |]; [| by apply learn_nothing | by apply learn_nothing]. cbn.
      destruct (reverse_fake m (be_val i)) as [n |] eqn:Hf.
      * eapply learn_fakedns; [done.. |]. by apply Hno.
      * apply learn_nothing; [done | done |]. intros _ i' p' n [= <- <-] Hn%Hno. congruence.
    + apply learn_nothing; [done | done |]. by intros _ ? ? ? _ (? & ? & ? & _).
Qed.

(** A name is only found for a protocol that was asked for. *)
Lemma learns_wanted cfg dns dest peek sr n :
  learns cfg dns dest peek sr -> sr_domain sr = Some n ->
  wants cfg "http" || wants cfg "tls" || wants cfg "fakedns" = true.
Proof. intros [n' -> _ | n' _ -> _ | i p n' _ _ -> _ _ |] Hn; rewrite ?orb_true_r; done. Qed.

Lemma renamed_iff cfg dns dest peek sr d :
  enabled cfg = true -> learns cfg dns dest peek sr ->
  renamed cfg sr dest d <-> d = apply_dest_override dest sr cfg.
Proof.
  intros He Hl. unfold apply_dest_override. rewrite He. cbn. split.
  - intros [n Hr Hn Hd | [-> | [-> | Hd]]].
    + rewrite Hr, Hn. rewrite (learns_wanted _ _ _ _ _ _ Hl Hn). by destruct dest.
    + done.
    + by destruct (route_only cfg).
    + destruct (route_only cfg), (sr_domain sr); by destruct dest.
  - intros ->. destruct (route_only cfg) eqn:Hr; [by apply kept; left |].
    destruct (sr_domain sr) as [n |] eqn:Hn; [| by apply kept; right; left].
    rewrite (learns_wanted _ _ _ _ _ _ Hl Hn).
    destruct dest as [i p | i p | n' p].
    + by apply (to_name cfg sr (Ipv4 i p) n).
    + by apply (to_name cfg sr (Ipv6 i p) n).
    + by apply kept; right; right.
Qed.

Lemma analyze_peek_nil cfg : analyze_peek [] cfg = Ok SniffResult_default.
Proof. unfold analyze_peek. by destruct (wants cfg "tls"), (wants cfg "http"). Qed.

Lemma sniff_bytes_analyzes cfg got rest :
  bytes_ok got ->
  exists r, sniff_bytes cfg got rest = Ok (got ++ rest, r)
    /\ analyze_peek (take (Z.to_nat MAX_SNIFF) got) cfg = Ok r.
Proof.
  intros Hok. destruct (sniff_bytes_same cfg got rest Hok) as [r Hr]. exists r. split; [done |].
  revert Hr. unfold sniff_bytes. destruct (Z.eqb_spec (zlen (take (Z.to_nat MAX_SNIFF) got)) 0) as [E |].
  - destruct (take (Z.to_nat MAX_SNIFF) got); [| len_solve]. intros [= _ <-]. apply analyze_peek_nil.
  - destruct (analyze_peek (take (Z.to_nat MAX_SNIFF) got) cfg); try done. by intros [= _ <-].
Qed.

Lemma sniff_stream_analyzes self ctx cfg read rest :
  bytes_ok (read_bytes read) -> d_sniffing self !! cx_inbound_tag ctx = Some cfg -> enabled cfg = true ->
  (exists k, read_fails self ctx read k /\ sniff_stream cfg read rest = Err (Io k))
  \/ ((forall k, ~ read_fails self ctx read k)
      /\ exists r, sniff_stream cfg read rest = Ok (read_bytes read ++ rest, r)
         /\ analyze_peek (if metadata_only cfg then [] else take (Z.to_nat MAX_SNIFF) (read_bytes read)) cfg = Ok r).
Proof.
  intros Hok Hc He. unfold sniff_stream. rewrite He. cbn.
  assert (Hrf : forall k, read_fails self ctx read k <-> metadata_only cfg = false /\ read = ReadError k).
  { intros k. split; [intros (c & Hc' & _ & ? & ?); by simplify_eq | intros [? ?]; by exists cfg]. }
  setoid_rewrite Hrf. destruct (metadata_only cfg).
  - right. split; [by intros k [? _] |]. eexists. split; [done | apply analyze_peek_nil].
  - destruct read as [b | | k].
    + right. split; [by intros k [_ ?] |]. by apply sniff_bytes_analyzes.
    + right. split; [by intros k [_ ?] |]. by apply (sniff_bytes_analyzes cfg []).
    + left. by exists k.
Qed.

Section target.
Context (self : DefaultDispatcher (R:=RouterInner)) (env : ResolveEnv) (ctx : Ctx) (dest : Address).
Context (read : FirstRead) (rest : bytes).
Context (rs : list CompiledRule) (dflt : bytes) (gi : gmap bytes GeoIpMatcher) (gs : gmap bytes DomainMatcher)
  (text : option bytes).
Context (Hrouter : d_router self = LiveRouter_new rs dflt gi gs text).

Let decides sp sd d := decided gi gs rs dflt text env (bool_decide (is_Some (d_dns self)))
                         (cx_inbound_tag ctx) sp sd d.

(** Where the connection goes once sniffing is over. *)
Lemma connect_outbound_decides c dst log :
  cx_inbound_tag c = cx_inbound_tag ctx ->
  let d := restore_fakeip_destination (d_dns self) dst in
  exists route, (forall r', decides (cx_sniffed_protocol c) (cx_sniffed_domain c) d r' <-> r' = route)
    /\ snd (connect_outbound self env c dst log)
       = if bool_decide (route ∈ d_outbounds self) then Ok (route, d) else Err (Protocol "outbound not found").
Proof.
  intros Hi d. unfold connect_outbound. rewrite Hrouter, Hi. fold d.
  destruct (pick_route_xray_decides gi gs rs dflt text env (bool_decide (is_Some (d_dns self)))
    (cx_inbound_tag ctx) (cx_user c) (cx_sniffed_protocol c) (cx_sniffed_domain c) d log) as (l & Hl & _).
  eexists. split; [intros r'; apply (decided_iff _ _ _ _ _ _ _ _ (cx_user c)) |].
  erewrite sbind_ok by exact Hl.
  by destruct (bool_decide (_ ∈ d_outbounds self)).
Qed.

(** [placed] for what is known to be seen. *)
Lemma placed_iff dst sp sd c log (stream : bytes) :
  cx_inbound_tag c = cx_inbound_tag ctx -> cx_sniffed_protocol c = sp -> cx_sniffed_domain c = sd ->
  (forall dst' sp' sd', sees self ctx dest read dst' sp' sd' <-> dst' = dst /\ sp' = sp /\ sd' = sd) ->
  exists route d, (forall r' d', placed self env ctx dest read r' d' <-> r' = route /\ d' = d)
    /\ d = restore_fakeip_destination (d_dns self) dst
    /\ snd (('(route, d) ← connect_outbound self env c dst; mret (route, d, stream)) log)
       = if bool_decide (route ∈ d_outbounds self) then Ok (route, d, stream)
         else Err (Protocol "outbound not found").
Proof.
  intros Hi <- <- Hsees. destruct (connect_outbound_decides c dst log Hi) as (route & Hd & Hc).
  exists route, (restore_fakeip_destination (d_dns self) dst). split; [| split; [done |]].
  - intros r' d'. unfold placed. rewrite Hrouter. cbn. split.
    + intros (dst' & sp' & sd' & (-> & -> & ->)%Hsees & ->%restore_iff & Hr). split; [by apply Hd | done].
    + intros [-> ->]. eexists _, _, _. split; [by apply Hsees |]. split; [by apply restore_iff | by apply Hd].
  - unfold mbind, stE_bind. destruct (connect_outbound self env c dst log) as [log' r]. cbn in Hc. subst r.
    by case_bool_decide.
Qed.

Lemma dispatch_target_places log :
  bytes_ok (read_bytes read) ->
  (exists k, read_fails self ctx read k /\ snd (dispatch_target self env ctx dest read rest log) = Err (Io k))
  \/ ((forall k, ~ read_fails self ctx read k)
      /\ exists route d, (forall r' d', placed self env ctx dest read r' d' <-> r' = route /\ d' = d)
         /\ snd (dispatch_target self env ctx dest read rest log)
            = if bool_decide (route ∈ d_outbounds self) then Ok (route, d, read_bytes read ++ rest)
              else Err (Protocol "outbound not found")).
Proof.
  intros Hok. unfold dispatch_target. destruct (d_sniffing self !! cx_inbound_tag ctx) as [cfg |] eqn:Hc.
  - destruct (enabled cfg) eqn:He.
    + destruct (sniff_stream_analyzes self ctx cfg read rest Hok Hc He) as [(k & Hk & ->) | (Hk & r & -> & Hr)].
      { left. by exists k. }
      right. split; [done |].
      destruct (placed_iff (apply_dest_override dest (with_fakedns self cfg dest r) cfg)
                  (sr_protocol (with_fakedns self cfg dest r)) (sr_domain (with_fakedns self cfg dest r))
                  (mkCtx (cx_inbound_tag ctx) (cx_user ctx) (sr_protocol (with_fakedns self cfg dest r))
                     (sr_domain (with_fakedns self cfg dest r))) log (read_bytes read ++ rest))
        as (route & d & Hp & _ & Hd); [done | done | done | | by exists route, d].
      intros dst' sp' sd'. assert (Hl := fun sr => analyze_learns self cfg dest _ r sr Hr). split.
      * intros [Hoff | cfg' sr dst Hc' _ Hsr Hdst]; [specialize (Hoff _ Hc); congruence |].
        rewrite Hc in Hc'. injection Hc' as <-. assert (Hsr' := proj1 (Hl _) Hsr).
        apply (renamed_iff _ _ _ _ _ _ He Hsr) in Hdst. by subst.
      * intros (-> & -> & ->). assert (Hsr := proj2 (Hl _) eq_refl).
        eapply sees_sniffed; [done | done | exact Hsr |]. by eapply renamed_iff.
    + right. split; [intros k (c & Hc' & Hx & _); congruence |].
      destruct (placed_iff dest (cx_sniffed_protocol ctx) (cx_sniffed_domain ctx) ctx log (read_bytes read ++ rest))
        as (route & d & Hp & _ & Hd); [done | done | done | | by exists route, d].
      intros dst' sp' sd'. split; [intros [| cfg' sr dst Hc' Hx]; [done | congruence] |].
      intros (-> & -> & ->). apply sees_plain. intros c Hc'. congruence.
  - right. split; [intros k (c & Hc' & Hx & _); congruence |].
    destruct (placed_iff dest (cx_sniffed_protocol ctx) (cx_sniffed_domain ctx) ctx log (read_bytes read ++ rest))
      as (route & d & Hp & _ & Hd); [done | done | done | | by exists route, d].
    intros dst' sp' sd'. split; [intros [| cfg' sr dst Hc' Hx]; [done | congruence] |].
    intros (-> & -> & ->). apply sees_plain. intros c Hc'. congruence.
Qed.

End target.

Lemma be_val_be_bytes_4 z : is_u 32 z -> be_val (be_bytes 4 z) = z.
Proof. intros Hz. apply be_val_be_bytes. exact Hz. Qed.

Lemma fake_address_bound lo hi q m name ip :
  usable_range lo hi -> pool_reachable lo hi q -> fakeip m = Some q -> forward q !! name = Some ip ->
  fake_address (Some m) (be_bytes 4 ip) name.
Proof.
  intros Hu Hr Hm Hf. destruct (reachable_ok _ _ _ Hu Hr) as [Hn Hb _ Hnx Hbij Hrg _ _ _].
  apply Hbij in Hf. assert (Hip := Hrg _ _ Hf). destruct Hu as [Hlo Hhi].
  exists m, q. rewrite be_val_be_bytes_4 by (unfold is_u; lia). repeat split; [done | lia | lia | done].
Qed.

(** C34. Where a connection goes.  Unless the sniffer's own read fails, every
    connection is placed in exactly one way: the sniffed name (of the TLS hello,
    of the HTTP request, or of a FakeIP address, in that order and only for the
    protocols asked for) replaces an address destination unless it is for
    routing only; an address of the FakeIP range that is bound to a name is
    turned back into the name; and the rules decide the outbound for that
    destination.  The connection is handed to that outbound, with that
    destination and exactly the bytes received from the client, when the
    outbound is configured, and is refused when it is not; nothing panics.  In
    particular, without sniffing, a connection to an address the FakeIP pool
    has bound to a name leaves for that name, in every reachable state of the
    pool. *)
Theorem dispatch_target_correct (self : DefaultDispatcher (R:=RouterInner)) (env : ResolveEnv) (ctx : Ctx)
    (dest : Address) (read : FirstRead) (rest : bytes) (log : list bytes)
    (rs : list CompiledRule) (dflt : bytes) (gi : gmap bytes GeoIpMatcher) (gs : gmap bytes DomainMatcher)
    (text : option bytes) (lo hi : Z) (q : FakeIpPool) (m : DnsModule) (name : bytes) (i pt : Z) :
  bytes_ok (read_bytes read) -> d_router self = LiveRouter_new rs dflt gi gs text ->
  usable_range lo hi -> pool_reachable lo hi q ->
  let outcome dest := snd (dispatch_target self env ctx dest read rest log) in
  let received := read_bytes read ++ rest in
  ((exists k, read_fails self ctx read k /\ outcome dest = Err (Io k))
   \/ ((forall k, ~ read_fails self ctx read k)
       /\ exists route d, (forall r' d', placed self env ctx dest read r' d' <-> r' = route /\ d' = d)
          /\ outcome dest = if bool_decide (route ∈ d_outbounds self) then Ok (route, d, received)
                            else Err (Protocol "outbound not found")))
  /\ (d_dns self = Some m -> fakeip m = Some q -> forward q !! name = Some i ->
      d_sniffing self !! cx_inbound_tag ctx = None ->
      forall route d stream, outcome (Ipv4 (be_bytes 4 i) pt) = Ok (route, d, stream) -> d = Domain name pt).
Proof.
  intros Hok Hr Hu Hq outcome received. split; [by eapply dispatch_target_places |].
  intros Hm Hf Hn Hs route d stream Ho.
  destruct (dispatch_target_places self env ctx (Ipv4 (be_bytes 4 i) pt) read rest _ _ _ _ _ Hr log Hok)
    as [(k & (c & Hc & _) & _) | (_ & route' & d' & Hp & Ho')]; [congruence |].
  unfold outcome in Ho. rewrite Ho' in Ho. case_bool_decide; [| done]. injection Ho as -> -> _.
  destruct (proj2 (Hp route d) (conj eq_refl eq_refl)) as (dst & sp & sd & Hsees & Hreal & _).
  destruct Hsees as [_ | c sr dst Hc _ _ _]; [| congruence].
  assert (Hfake := fake_address_bound _ _ _ _ _ _ Hu Hq Hf Hn). rewrite Hm in Hreal.
  apply restore_iff in Hreal. rewrite Hreal. symmetry. apply restore_iff. by apply real_name.
Qed.

End targets.


(** A dispatcher with a FakeIP pool that has bound one name. *)
Definition example_pool : FakeIpPool := (allocate (lit "www.example.com") (pool_new fake_lo fake_hi)).2.
Definition example_dns : DnsModule := mkDnsModule (cache_new 512) (Some example_pool) [].
Definition example_dispatcher : DefaultDispatcher (R:=RouterInner) :=
  mkDispatcher (order_router "AsIs") {[ lit "proxy" ]} (Some example_dns) ∅.
Definition example_ctx : Ctx := mkCtx (lit "in") None None None.

Lemma dispatch_target_correct_witness :
  let outcome dest := snd (dispatch_target example_dispatcher order_env example_ctx dest (ReadBytes [1; 2]) [3] []) in
  let fake := Ipv4 (be_bytes 4 (fake_lo + 1)) 443 in
  outcome fake = Ok (lit "proxy", Domain (lit "www.example.com") 443, [1; 2; 3])
  /\ (exists route d,
        (forall r' d', placed example_dispatcher order_env example_ctx fake (ReadBytes [1; 2]) r' d'
                       <-> r' = route /\ d' = d)
        /\ outcome fake = if bool_decide (route ∈ d_outbounds example_dispatcher)
                          then Ok (route, d, read_bytes (ReadBytes [1; 2]) ++ [3])
                          else Err (Protocol "outbound not found"))
  /\ (forall route d stream, outcome fake = Ok (route, d, stream) -> d = Domain (lit "www.example.com") 443).
Proof.
  split; [vm_compute; reflexivity |].
  destruct (dispatch_target_correct example_dispatcher order_env example_ctx
    (Ipv4 (be_bytes 4 (fake_lo + 1)) 443) (ReadBytes [1; 2]) [3] [] order_rules (lit "default") ∅ ∅
    (Some (lit "AsIs")) fake_lo fake_hi example_pool example_dns (lit "www.example.com") (fake_lo + 1) 443)
    as [[(k & (c & Hc & _) & _) | (_ & Hp)] Hd].
  - apply (bool_decide_unpack _). vm_compute. exact I.
  - reflexivity.
  - vm_compute. repeat split; congruence.
  - apply reach_alloc, reach_new.
  - vm_compute in Hc. discriminate Hc.
  - split; [exact Hp |]. apply Hd; [reflexivity | reflexivity | vm_compute; reflexivity | reflexivity].
Defined.
