(* ===== verification/Hysteria.v ===== *)
(** Hysteria2 framing ([crates/blackwire-transport/src/hysteria2]): QUIC varints
    ([varint.rs]), the TCP request and response frames and the authentication
    headers ([proto.rs]), and the UDP datagrams ([udp.rs]). *)

From stdpp Require Import base list gmap sets strings numbers.
From S2P Require Import Prelude Text Address.

(** [anyhow::Error]: the outermost message. *)
Abbreviation AnyError := string.

(** A short read of a stream; the context message the caller adds is in
    [with_context]. *)
#[global] Instance AnyError_eof : EofError AnyError := "unexpected end of file"%string.

Definition with_context {A} (msg : string) (p : parser AnyError A) : parser AnyError A := fun s =>
  match p s with Err _ => Err msg | r => r end.

(** * Varints *)

Definition MAX_VARINT : Z := 4611686018427387903.

Definition write_varint (value : Z) : res AnyError bytes :=
  if value >? MAX_VARINT then Err "varint value out of range"%string
  else if value <=? 63 then Ok [wrap 8 value]
  else if value <=? 16383 then
    let value := Z.lor value 0x4000 in
    Ok [wrap 8 (Z.shiftr value 8); wrap 8 value]
  else if value <=? 1073741823 then
    let value := Z.lor value 0x80000000 in
    Ok [wrap 8 (Z.shiftr value 24); wrap 8 (Z.shiftr value 16); wrap 8 (Z.shiftr value 8); wrap 8 value]
  else if value <=? MAX_VARINT then
    let value := Z.lor value 0xC000000000000000 in
    Ok [wrap 8 (Z.shiftr value 56); wrap 8 (Z.shiftr value 48); wrap 8 (Z.shiftr value 40);
        wrap 8 (Z.shiftr value 32); wrap 8 (Z.shiftr value 24); wrap 8 (Z.shiftr value 16);
        wrap 8 (Z.shiftr value 8); wrap 8 value]
  else Ok [].

(** [value = (value << 8) | b] over the bytes after the first. *)
Definition varint_fold (value : Z) (bs : bytes) : Z :=
  foldl (fun value b => Z.lor (wrap 64 (Z.shiftl value 8)) b) value bs.

Definition read_varint : parser AnyError Z :=
  first ← read_u8;
  let len := Z.shiftl 1 (Z.shiftr first 6) in
  if len =? 1 then mret (Z.land first 0x3f)
  else
    buf ← read_exact (len - 1);
    mret (varint_fold (Z.land first 0x3f) buf).

(** * TCP frames *)

Definition FRAME_TYPE_TCP_REQUEST : Z := 0x401.
Definition MAX_ADDRESS_LENGTH : Z := 2048.
Definition MAX_MESSAGE_LENGTH : Z := 2048.
Definition MAX_PADDING_LENGTH : Z := 4096.

Record TcpResponse : Type := mkTcpResponse { tr_ok : bool; tr_message : bytes }.

Definition encode_tcp_request (addr : bytes) : res AnyError bytes :=
  ty ← write_varint FRAME_TYPE_TCP_REQUEST;
  len ← write_varint (zlen addr);
  pad ← write_varint 0;
  Ok (ty ++ len ++ addr ++ pad).

Definition skip_padding : parser AnyError unit :=
  padding_len ← with_context "reading padding length" read_varint;
  if negb (padding_len <=? MAX_PADDING_LENGTH) then pfail "invalid padding length"%string
  else if padding_len >? 0 then
    _ ← with_context "reading padding" (read_exact padding_len);
    mret tt
  else mret tt.

Definition decode_tcp_request : parser AnyError bytes :=
  first ← with_context "reading tcp frame" read_varint;
  addr_len ← (if first =? FRAME_TYPE_TCP_REQUEST
              then with_context "reading address length" read_varint
              else mret first);
  if negb ((addr_len >? 0) && (addr_len <=? MAX_ADDRESS_LENGTH))
  then pfail "invalid address length"%string
  else
    addr_bytes ← with_context "reading address" (read_exact addr_len);
    if utf8_valid addr_bytes then
      _ ← skip_padding;
      mret addr_bytes
    else pfail "address is not valid UTF-8"%string.

Definition encode_tcp_response (resp : TcpResponse) : res AnyError bytes :=
  let status := if tr_ok resp then 0x00 else 0x01 in
  len ← write_varint (zlen (tr_message resp));
  pad ← write_varint 0;
  Ok ([status] ++ len ++ tr_message resp ++ pad).

Definition decode_tcp_response : parser AnyError TcpResponse :=
  status ← with_context "reading tcp status" read_u8;
  msg_len ← with_context "reading message length" read_varint;
  if negb (msg_len <=? MAX_MESSAGE_LENGTH) then pfail "invalid message length"%string
  else
    msg_bytes ← (if msg_len >? 0 then with_context "reading message" (read_exact msg_len) else mret []);
    if utf8_valid msg_bytes then
      _ ← skip_padding;
      mret (mkTcpResponse (status =? 0x00) msg_bytes)
    else pfail "message is not valid UTF-8"%string.

(** * UDP datagrams *)

Inductive Destination : Type :=
| DV4 (ip : bytes) (port : Z)
| DV6 (ip : bytes) (port : Z)
| DDomain (name : bytes) (port : Z).

Record UdpDatagram : Type := mkUdpDatagram {
  session_id : Z;
  packet_id : Z;
  frag_id : Z;
  frag_num : Z;
  dg_dest : Destination;
  dg_data : bytes;
}.

(** The destination part of a datagram. *)
Definition encode_dest (d : Destination) : bytes :=
  match d with
  | DV4 ip port => [0x01] ++ ip ++ be_bytes 2 port
  | DV6 ip port => [0x02] ++ ip ++ be_bytes 2 port
  | DDomain name port => [0x03; wrap 8 (zlen name)] ++ name ++ be_bytes 2 port
  end.

Definition encode_udp_datagram (dg : UdpDatagram) : bytes :=
  be_bytes 4 (session_id dg) ++ be_bytes 2 (packet_id dg) ++ [frag_id dg; frag_num dg]
  ++ encode_dest (dg_dest dg) ++ dg_data dg.

(** [Buf::get_*] and [advance]: panic when bytes are missing. *)
Definition buf_get (n : Z) : parser AnyError bytes := fun s =>
  if bool_decide (n <= zlen s) then Ok (take (Z.to_nat n) s, drop (Z.to_nat n) s) else Panic.

Definition buf_uint (n : Z) : parser AnyError Z := bs ← buf_get n; mret (be_val bs).

(** [anyhow::ensure!(data.len() >= n, msg)]. *)
Definition ensure_len (n : Z) (msg : string) : parser AnyError unit := fun s =>
  if zlen s >=? n then Ok (tt, s) else Err msg.

Definition decode_dest : parser AnyError Destination :=
  addr_type ← buf_uint 1;
  if addr_type =? 0x01 then
    _ ← ensure_len 6 "truncated IPv4 address";
    octets ← buf_get 4;
    port ← buf_uint 2;
    mret (DV4 octets port)
  else if addr_type =? 0x02 then
    _ ← ensure_len 18 "truncated IPv6 address";
    octets ← buf_get 16;
    port ← buf_uint 2;
    mret (DV6 octets port)
  else if addr_type =? 0x03 then
    _ ← ensure_len 1 "missing domain name length";
    name_len ← buf_uint 1;
    _ ← ensure_len (name_len + 2) "truncated domain name";
    name ← buf_get name_len;
    if utf8_valid name then
      port ← buf_uint 2;
      mret (DDomain name port)
    else pfail "domain name is not valid UTF-8"%string
  else pfail "unknown UDP address type"%string.

Definition buf_rest : parser AnyError bytes := fun s => Ok (s, []).

Definition udp_datagram_parser : parser AnyError UdpDatagram :=
  _ ← ensure_len 9 "datagram too short (< 9 bytes)";
  session_id ← buf_uint 4;
  packet_id ← buf_uint 2;
  frag_id ← buf_uint 1;
  frag_num ← buf_uint 1;
  dest ← decode_dest;
  payload ← buf_rest;
  mret (mkUdpDatagram session_id packet_id frag_id frag_num dest payload).

Definition decode_udp_datagram (data : bytes) : res AnyError UdpDatagram :=
  '(dg, _) ← udp_datagram_parser data; Ok dg.

(** * Authentication headers *)

(** The [http] crate: names, values and maps of headers.  [HeaderName::from_bytes],
    [HeaderValue::from_str], [HeaderValue::to_str], [HeaderMap::insert] and
    [HeaderMap::get]. *)
Class HeaderOps := {
  HeaderName : Type;
  HeaderValue : Type;
  HeaderMap : Type;
  hn_from_bytes : bytes -> option HeaderName;
  hv_from_str : bytes -> option HeaderValue;
  hv_to_str : HeaderValue -> option bytes;
  hm_insert : HeaderName -> HeaderValue -> HeaderMap -> HeaderMap;
  hm_get : bytes -> HeaderMap -> option HeaderValue;
}.

(** Lower-case header names and visible ASCII texts. *)
Definition plain_name (k : bytes) : Prop :=
  k <> [] /\ Forall (fun b => 97 <= b <= 122 \/ b = 45) k.
Definition visible (v : bytes) : Prop := Forall (fun b => 32 <= b < 127) v.

#[global] Instance plain_name_dec k : Decision (plain_name k).
Proof. unfold plain_name. apply _. Defined.
#[global] Instance visible_dec v : Decision (visible v).
Proof. unfold visible. apply _. Defined.

Class HeaderLaws `{HeaderOps} := {
  hn_plain : forall k, plain_name k -> is_Some (hn_from_bytes k);
  hv_visible : forall v, visible v -> exists hv, hv_from_str v = Some hv /\ hv_to_str hv = Some v;
  hm_get_insert : forall k k' n hv m,
    plain_name k -> plain_name k' -> hn_from_bytes k' = Some n ->
    hm_get k (hm_insert n hv m) = if bool_decide (k = k') then Some hv else hm_get k m;
}.

Definition HEADER_AUTH : bytes := lit "hysteria-auth".
Definition HEADER_UDP : bytes := lit "hysteria-udp".
Definition HEADER_CC_RX : bytes := lit "hysteria-cc-rx".
Definition HEADER_PADDING : bytes := lit "hysteria-padding".
Definition STATUS_AUTH_OK : Z := 233.
Definition AUTH_PATH : bytes := lit "/auth".

Record AuthRequest : Type := mkAuthRequest { ar_auth : bytes; ar_rx_bps : Z }.

Record AuthResponse : Type := mkAuthResponse {
  as_ok : bool;
  as_udp_enabled : bool;
  as_rx_bps : Z;
  as_rx_auto : bool;
}.

Section headers.
Context `{HeaderOps}.

Definition header_name (name : bytes) : res AnyError HeaderName :=
  match hn_from_bytes name with Some n => Ok n | None => Panic end.

(** [HeaderValue::from_str(v).expect(..)]. *)
Definition header_value (v : bytes) : res AnyError HeaderValue :=
  match hv_from_str v with Some hv => Ok hv | None => Panic end.

Definition header_string (headers : HeaderMap) (name : bytes) : option bytes :=
  v ← hm_get name headers; hv_to_str v.

Definition auth_request_from_headers (headers : HeaderMap) : res AnyError AuthRequest :=
  auth ← ok_or (header_string headers HEADER_AUTH) "missing hysteria-auth header"%string;
  Ok (mkAuthRequest auth (default 0 (v ← header_string headers HEADER_CC_RX; parse_u64 v))).

Definition auth_response_to_headers (headers : HeaderMap) (resp : AuthResponse) : res AnyError HeaderMap :=
  n ← header_name HEADER_UDP;
  v ← header_value (bool_to_string (as_udp_enabled resp));
  let headers := hm_insert n v headers in
  let cc := if as_rx_auto resp then lit "auto" else u64_to_string (as_rx_bps resp) in
  n ← header_name HEADER_CC_RX;
  v ← header_value cc;
  let headers := hm_insert n v headers in
  n ← header_name HEADER_PADDING;
  v ← header_value [];
  Ok (hm_insert n v headers).

Definition auth_response_from_headers (headers : HeaderMap) (status : Z) : AuthResponse :=
  let ok := status =? STATUS_AUTH_OK in
  let udp_enabled := default false (v ← header_string headers HEADER_UDP; parse_bool v) in
  let cc_rx := header_string headers HEADER_CC_RX in
  let rx_auto := bool_decide (cc_rx = Some (lit "auto")) in
  let rx_bps := if rx_auto then 0 else default 0 (v ← cc_rx; parse_u64 v) in
  mkAuthResponse ok udp_enabled rx_bps rx_auto.

Definition is_auth_request (method path : bytes) : bool :=
  bytes_eqb (to_ascii_lowercase method) (lit "post") && bytes_eqb path AUTH_PATH.

End headers.

(** * Theorems: varints *)

Lemma shl8_or a b :
  0 <= a < 2 ^ 56 -> 0 <= b < 256 -> Z.lor (wrap 64 (Z.shiftl a 8)) b = a * 256 + b.
Proof.
  intros Ha Hb. unfold wrap. rewrite Z.mod_small by (rewrite Z.shiftl_mul_pow2 by lia; lia).
  rewrite Z.lor_comm, lor_shiftl_add; lia.
Qed.

Lemma varint_fold_val bs : forall a,
  bytes_ok bs -> 0 <= a -> (a + 1) * 256 ^ zlen bs <= 2 ^ 64 ->
  varint_fold a bs = a * 256 ^ zlen bs + be_val bs.
Proof.
  induction bs as [| b bs IH]; intros a Hok Ha Hlt.
  - unfold zlen. simpl. change (be_val []) with 0. lia.
  - apply bytes_ok_cons in Hok as [Hb Hok]. unfold is_u in Hb.
    rewrite zlen_cons, Z.pow_add_r in * by (pose proof (zlen_nonneg bs); lia).
    assert (Hp : 0 < 256 ^ zlen bs) by (apply Z.pow_pos_nonneg; [lia | apply zlen_nonneg]).
    change (varint_fold (Z.lor (wrap 64 (Z.shiftl a 8)) b) bs
            = a * (256 ^ 1 * 256 ^ zlen bs) + be_val (b :: bs)).
    rewrite shl8_or by nia. rewrite IH; [| done | nia | nia].
    rewrite be_val_cons. lia.
Qed.

(** The length of the encoding and its tag, by the size of the value. *)
Definition varint_class (v : Z) : Z * nat :=
  if v <=? 63 then (0, 0%nat)
  else if v <=? 16383 then (1, 1%nat)
  else if v <=? 1073741823 then (2, 3%nat)
  else (3, 7%nat).

Definition varint_bytes (v : Z) : bytes :=
  let '(tag, n) := varint_class v in
  (tag * 64 + v / 256 ^ Z.of_nat n) :: be_bytes n v.

(** One byte of a value with a tag above it. *)
Lemma tagged_byte v t k i :
  0 <= i -> i + 8 <= k -> 0 <= t -> 0 <= v < 2 ^ k ->
  wrap 8 (Z.shiftr (Z.lor v (Z.shiftl t k)) i) = v / 2 ^ i mod 256.
Proof.
  intros Hi Hk Ht Hv. rewrite lor_shiftl_add by lia. unfold wrap.
  rewrite Z.shiftr_div_pow2 by lia. change (2 ^ 8) with 256.
  replace k with (i + (8 + (k - i - 8))) by lia.
  rewrite (Z.pow_add_r 2 i) by lia. rewrite (Z.pow_add_r 2 8) by lia. change (2 ^ 8) with 256.
  replace (v + t * (2 ^ i * (256 * 2 ^ (k - i - 8))))
    with (v + t * 2 ^ (k - i - 8) * 256 * 2 ^ i) by lia.
  rewrite Z.div_add by (apply Z.pow_nonzero; lia). apply Z_mod_plus_full.
Qed.

(** The first byte, which holds the tag. *)
Lemma tagged_head v t k j :
  0 <= j -> k = j + 6 -> 0 <= t < 4 -> 0 <= v < 2 ^ k ->
  wrap 8 (Z.shiftr (Z.lor v (Z.shiftl t k)) j) = t * 64 + v / 2 ^ j.
Proof.
  intros Hj -> Ht Hv. rewrite lor_shiftl_add by lia. unfold wrap.
  rewrite Z.shiftr_div_pow2 by lia. rewrite (Z.pow_add_r 2 j 6) in * by lia.
  assert (0 < 2 ^ j) by (apply Z.pow_pos_nonneg; lia). change (2 ^ 6) with 64 in *.
  replace (v + t * (2 ^ j * 64)) with (v + t * 64 * 2 ^ j) by lia.
  rewrite Z.div_add by lia. rewrite Z.mod_small; [lia |].
  assert (0 <= v / 2 ^ j < 64); [| lia].
  split; [apply Z.div_pos; lia | apply Z.div_lt_upper_bound; lia].
Qed.

Lemma write_varint_shape v :
  0 <= v <= MAX_VARINT -> write_varint v = Ok (varint_bytes v).
Proof.
  intros Hv. unfold write_varint, varint_bytes, varint_class, MAX_VARINT in *.
  destruct (Z.gtb_spec v 4611686018427387903); [lia |].
  destruct (Z.leb_spec v 63).
  { unfold wrap. rewrite Z.mod_small by lia. change (256 ^ Z.of_nat 0) with 1.
    by rewrite Z.div_1_r, Z.add_0_l. }
  assert (H8 : forall z, wrap 8 z = wrap 8 (Z.shiftr z 0)) by (intros; by rewrite Z.shiftr_0_r).
  destruct (Z.leb_spec v 16383).
  { change 0x4000 with (Z.shiftl 1 14). rewrite (H8 (Z.lor _ _)).
    rewrite (tagged_head v 1 14 8), tagged_byte by lia.
    by rewrite !be_bytes_cons, be_bytes_0. }
  destruct (Z.leb_spec v 1073741823).
  { change 0x80000000 with (Z.shiftl 2 30). rewrite (H8 (Z.lor _ _)).
    rewrite (tagged_head v 2 30 24), !tagged_byte by lia.
    by rewrite !be_bytes_cons, be_bytes_0. }
  destruct (Z.leb_spec v 4611686018427387903); [| lia].
  change 0xC000000000000000 with (Z.shiftl 3 62). rewrite (H8 (Z.lor _ _)).
  rewrite (tagged_head v 3 62 56), !tagged_byte by lia.
  by rewrite !be_bytes_cons, be_bytes_0.
Qed.

Lemma varint_first a b r : 0 <= r < 64 -> a = b * 64 + r -> 0 <= b < 4 ->
  Z.shiftr a 6 = b /\ Z.land a 0x3f = r.
Proof.
  intros Hr -> Hb. split.
  - rewrite Z.shiftr_div_pow2 by lia. change (2 ^ 6) with 64. zdiv.
  - change 0x3f with (Z.ones 6). rewrite Z.land_ones by lia. change (2 ^ 6) with 64. zdiv.
Qed.

Lemma varint_class_spec v : 0 <= v <= MAX_VARINT ->
  let '(tag, n) := varint_class v in
  0 <= tag < 4 /\ Z.shiftl 1 tag = 1 + Z.of_nat n /\ 0 <= v < 64 * 256 ^ Z.of_nat n.
Proof.
  unfold varint_class, MAX_VARINT. intros.
  destruct (Z.leb_spec v 63);
    [change (64 * 256 ^ Z.of_nat 0) with 64; split_and!; [lia.. | done | lia | lia] |].
  destruct (Z.leb_spec v 16383);
    [change (64 * 256 ^ Z.of_nat 1) with 16384; split_and!; [lia.. | done | lia | lia] |].
  destruct (Z.leb_spec v 1073741823);
    [change (64 * 256 ^ Z.of_nat 3) with 1073741824; split_and!; [lia.. | done | lia | lia] |].
  change (64 * 256 ^ Z.of_nat 7) with 4611686018427387904; split_and!; [lia.. | done | lia | lia].
Qed.

Lemma read_varint_bytes v s :
  0 <= v <= MAX_VARINT -> read_varint (varint_bytes v ++ s) = Ok (v, s).
Proof.
  intros Hv. pose proof (varint_class_spec v Hv) as Hc.
  unfold varint_bytes. destruct (varint_class v) as [tag n]. destruct Hc as (Ht & Hl & Hn).
  set (m := 256 ^ Z.of_nat n) in *.
  assert (Hm : 0 < m) by (apply Z.pow_pos_nonneg; lia).
  assert (Hq : 0 <= v / m < 64) by (split; [apply Z.div_pos; lia | apply Z.div_lt_upper_bound; lia]).
  destruct (varint_first (tag * 64 + v / m) tag (v / m) Hq eq_refl Ht) as [Hs Hf].
  unfold read_varint. rewrite <- app_comm_cons. erewrite pbind_ok; [| apply read_u8_cons].
  cbv zeta. rewrite Hs, Hl, Hf. destruct (Z.eqb_spec (1 + Z.of_nat n) 1) as [E |].
  - assert (n = 0%nat) as -> by lia. unfold m. change (256 ^ Z.of_nat 0) with 1.
    by rewrite Z.div_1_r, be_bytes_0.
  - erewrite pbind_ok; [| apply read_exact_app; len_solve].
    unfold mret, parser_ret. rewrite varint_fold_val; [| bok | lia |].
    + rewrite zlen_be_bytes. fold m. rewrite be_val_be_bytes_mod. fold m.
      rewrite (Z.mul_comm (v / m)), <- Z.div_mod by lia. done.
    + rewrite zlen_be_bytes. fold m.
      assert (m <= 256 ^ 7); [| change (256 ^ 7) with (2 ^ 56) in *; nia].
      apply Z.pow_le_mono_r; [lia |].
      assert (tag = 0 \/ tag = 1 \/ tag = 2 \/ tag = 3) as [-> | [-> | [-> | ->]]] by lia;
        rewrite Z.shiftl_1_l in Hl; lia.
Qed.

(** What an accepted encoding says of its value: the tag bounds it. *)
Lemma read_varint_inv v bs s :
  bytes_ok bs -> read_varint bs = Ok (v, s) ->
  exists tag, 0 <= tag < 4 /\ zlen bs = 2 ^ tag + zlen s /\ 0 <= v < 64 * 256 ^ (2 ^ tag - 1).
Proof.
  intros Hok H. unfold read_varint in H. pinv H. apply read_u8_inv in Hv as ->.
  apply bytes_ok_cons in Hok as [Hb Hok]. unfold is_u in Hb.
  set (r := v0 mod 64). set (tag := v0 / 64).
  assert (Hr : 0 <= r < 64) by (apply Z.mod_pos_bound; lia).
  assert (Ht : 0 <= tag < 4) by (unfold tag; zdiv).
  destruct (varint_first v0 tag r Hr) as [Hs Hf]; [unfold r, tag; zdiv | done |].
  rewrite Hs, Hf, Z.shiftl_1_l in H. exists tag. split; [done |].
  assert (0 < 2 ^ tag) by (apply Z.pow_pos_nonneg; lia).
  destruct (Z.eqb_spec (2 ^ tag) 1) as [E |].
  - injection H as <- <-. rewrite E. change (256 ^ (1 - 1)) with 1. len_solve.
  - pinv H. apply read_exact_inv in Hv as [-> Hl]; [| lia]. injection H as <- <-.
    apply bytes_ok_app in Hok as [Hok _]. split; [len_solve |].
    pose proof (be_val_bound _ Hok) as Hbv.
    rewrite Hl in Hbv. rewrite varint_fold_val, Hl; [nia | done | lia |].
    rewrite Hl. assert (256 ^ (2 ^ tag - 1) <= 256 ^ 7); [| nia].
    apply Z.pow_le_mono_r; [lia |].
    assert (2 ^ tag <= 2 ^ 3) by (apply Z.pow_le_mono_r; lia). lia.
Qed.

Lemma varint_bytes_min v tag :
  0 <= v -> 0 <= tag < 4 -> v < 64 * 256 ^ (2 ^ tag - 1) -> zlen (varint_bytes v) <= 2 ^ tag.
Proof.
  intros Hv Ht H. unfold varint_bytes, varint_class.
  assert (tag = 0 \/ tag = 1 \/ tag = 2 \/ tag = 3) as [-> | [-> | [-> | ->]]] by lia; cbn in H;
    destruct (Z.leb_spec v 63); [| destruct (Z.leb_spec v 16383); [| destruct (Z.leb_spec v 1073741823)]..];
    len_solve.
Qed.

(** QUIC varints.  A value of at most 62 bits is written as bytes that [read_varint]
    reads back, whatever follows them in the stream, and no shorter encoding of the value is
    accepted; a larger value is refused and nothing is written. *)
Theorem quic_varint_roundtrip v :
  is_u 64 v ->
  (v <= MAX_VARINT /\ exists bs, write_varint v = Ok bs /\
     (forall s, read_varint (bs ++ s) = Ok (v, s)) /\
     (forall bs', bytes_ok bs' -> read_varint bs' = Ok (v, []) -> zlen bs <= zlen bs')) \/
  (MAX_VARINT < v /\ write_varint v = Err "varint value out of range"%string).
Proof.
  intros Hv. unfold is_u in Hv. destruct (Z.le_gt_cases v MAX_VARINT) as [Hle | Hgt].
  - left. split; [done |]. exists (varint_bytes v). split_and!.
    + apply write_varint_shape. lia.
    + intros s. apply read_varint_bytes. lia.
    + intros bs' Hok (tag & Ht & Hl & Hb)%read_varint_inv; [| done].
      rewrite Hl, zlen_nil, Z.add_0_r. apply varint_bytes_min; lia.
  - right. split; [done |]. unfold write_varint.
    destruct (Z.gtb_spec v MAX_VARINT); [done | lia].
Qed.

Lemma quic_varint_roundtrip_witness :
  exists bs, write_varint 494878333 = Ok bs /\ forall s, read_varint (bs ++ s) = Ok (494878333, s).
Proof.
  destruct (quic_varint_roundtrip 494878333) as [(_ & bs & Hw & Hr & _) | [Hgt _]].
  - apply (bool_decide_unpack _). vm_compute. exact I.
  - exists bs. split; [exact Hw | exact Hr].
  - exfalso. vm_compute in Hgt. discriminate Hgt.
Defined.

(** * Theorems: TCP frames *)

Lemma with_context_ok {A} msg (p : parser AnyError A) s a s' :
  p s = Ok (a, s') -> with_context msg p s = Ok (a, s').
Proof. unfold with_context. by intros ->. Qed.

#[export] Hint Resolve with_context_ok read_varint_bytes : wire.

Lemma skip_padding_bytes pad s :
  zlen pad <= MAX_PADDING_LENGTH ->
  skip_padding (varint_bytes (zlen pad) ++ pad ++ s) = Ok (tt, s).
Proof.
  intros Hp. unfold skip_padding, MAX_PADDING_LENGTH in *.
  erewrite pbind_ok; [| apply with_context_ok, read_varint_bytes; unfold MAX_VARINT; len_solve].
  destruct (Z.leb_spec (zlen pad) 4096); [| lia]. cbn [negb].
  destruct (Z.gtb_spec (zlen pad) 0).
  - erewrite pbind_ok; [| apply with_context_ok, read_exact_app; done]. done.
  - destruct pad; [done | len_solve].
Qed.

(** The bytes of a TCP request, with the optional frame type and padding. *)
Definition tcp_request_wire (typed : bool) (addr pad : bytes) : bytes :=
  (if typed then varint_bytes FRAME_TYPE_TCP_REQUEST else [])
  ++ varint_bytes (zlen addr) ++ addr ++ varint_bytes (zlen pad) ++ pad.

Lemma decode_tcp_request_len typed addr pad s :
  (typed = true \/ zlen addr <> FRAME_TYPE_TCP_REQUEST) -> zlen addr <= MAX_VARINT ->
  decode_tcp_request (tcp_request_wire typed addr pad ++ s) =
    if negb ((zlen addr >? 0) && (zlen addr <=? MAX_ADDRESS_LENGTH))
    then Err "invalid address length"%string
    else (addr_bytes ← with_context "reading address" (read_exact (zlen addr));
          if utf8_valid addr_bytes then _ ← skip_padding; mret addr_bytes
          else pfail "address is not valid UTF-8"%string)
         (addr ++ varint_bytes (zlen pad) ++ pad ++ s).
Proof.
  intros Ht Hl. unfold decode_tcp_request, tcp_request_wire. rewrite <- !app_assoc.
  assert (Hv : 0 <= zlen addr <= MAX_VARINT) by len_solve.
  destruct typed; [| rewrite app_nil_l]; (erewrite pbind_ok;
    [| apply with_context_ok, read_varint_bytes; try done; unfold FRAME_TYPE_TCP_REQUEST, MAX_VARINT; lia]).
  - rewrite Z.eqb_refl. erewrite pbind_ok; [| apply with_context_ok, read_varint_bytes; done].
    by destruct (negb _).
  - destruct (Z.eqb_spec (zlen addr) FRAME_TYPE_TCP_REQUEST); [naive_solver |].
    erewrite pbind_ok; [| done]. by destruct (negb _).
Qed.

(** Hysteria2 TCP requests.  [encode_tcp_request] writes the frame type, the address
    and no padding.  The decoder accepts a request with or without the frame type (an
    address as long as the type's code needs it) and with any padding of at most 4096
    bytes, and leaves the stream at the first byte of the payload; an address that is empty
    or longer than 2048 bytes is refused. *)
Theorem hysteria_tcp_request addr pad typed s :
  utf8_valid addr = true -> zlen addr <= MAX_VARINT -> zlen pad <= MAX_PADDING_LENGTH ->
  (typed = true \/ zlen addr <> FRAME_TYPE_TCP_REQUEST) ->
  encode_tcp_request addr = Ok (tcp_request_wire true addr []) /\
  decode_tcp_request (tcp_request_wire typed addr pad ++ s) =
    if decide (0 < zlen addr <= MAX_ADDRESS_LENGTH) then Ok (addr, s)
    else Err "invalid address length"%string.
Proof.
  intros Hu Hl Hp Ht. split.
  - unfold encode_tcp_request. rewrite !write_varint_shape; [done |..];
      unfold FRAME_TYPE_TCP_REQUEST, MAX_VARINT in *; len_solve.
  - rewrite decode_tcp_request_len by done.
    destruct (Z.gtb_spec (zlen addr) 0); destruct (Z.leb_spec (zlen addr) MAX_ADDRESS_LENGTH); cbn [negb andb];
      destruct (decide _) as [Hd | Hd]; try lia; try done.
    erewrite pbind_ok; [| apply with_context_ok, read_exact_app; done]. rewrite Hu.
    erewrite pbind_ok; [| by apply skip_padding_bytes]. done.
Qed.

Lemma hysteria_tcp_request_witness :
  decode_tcp_request (tcp_request_wire false (lit "a.io:80") [7; 7] ++ [1; 2]) = Ok (lit "a.io:80", [1; 2]).
Proof.
  destruct (hysteria_tcp_request (lit "a.io:80") [7; 7] false [1; 2]) as [_ H];
    [by vm_compute.. | right; by vm_compute |].
  exact H.
Defined.

(** Hysteria2 TCP responses.  A response whose message is UTF-8 text of at most 2048
    bytes is read back as it was written, with any padding the peer may add; a longer
    message is refused. *)
Theorem hysteria_tcp_response resp pad s :
  utf8_valid (tr_message resp) = true -> zlen (tr_message resp) <= MAX_VARINT ->
  zlen pad <= MAX_PADDING_LENGTH ->
  exists head, encode_tcp_response resp = Ok (head ++ varint_bytes 0) /\
    decode_tcp_response (head ++ varint_bytes (zlen pad) ++ pad ++ s) =
      if decide (zlen (tr_message resp) <= MAX_MESSAGE_LENGTH) then Ok (resp, s)
      else Err "invalid message length"%string.
Proof.
  destruct resp as [ok msg]. cbn [tr_ok tr_message]. intros Hu Hl Hp.
  exists ([if ok then 0x00 else 0x01] ++ varint_bytes (zlen msg) ++ msg). split.
  - unfold encode_tcp_response. cbn [tr_ok tr_message].
    rewrite !write_varint_shape; [| unfold MAX_VARINT in *; len_solve..].
    unfold mbind, res_bind. by rewrite <- !app_assoc.
  - rewrite <- !app_assoc. unfold decode_tcp_response.
    erewrite pbind_ok; [| apply with_context_ok; done].
    erewrite pbind_ok; [| apply with_context_ok, read_varint_bytes; len_solve].
    destruct (Z.leb_spec (zlen msg) MAX_MESSAGE_LENGTH); destruct (decide _) as [Hd | Hd]; try lia; try done.
    cbn [negb]. rewrite (pbind_ok _ _ _ msg (varint_bytes (zlen pad) ++ pad ++ s)).
    + rewrite Hu. erewrite pbind_ok; [| by apply skip_padding_bytes]. by destruct ok.
    + destruct (Z.gtb_spec (zlen msg) 0); [by apply with_context_ok, read_exact_app |].
      destruct msg; [done | len_solve].
Qed.

Lemma hysteria_tcp_response_witness :
  exists head, encode_tcp_response (mkTcpResponse false (lit "refused")) = Ok (head ++ varint_bytes 0) /\
    decode_tcp_response (head ++ varint_bytes 3 ++ [1; 2; 3] ++ [9])
    = Ok (mkTcpResponse false (lit "refused"), [9]).
Proof.
  destruct (hysteria_tcp_response (mkTcpResponse false (lit "refused")) [1; 2; 3] [9]) as (head & He & Hd);
    [by vm_compute.. |].
  exists head. split; [exact He | exact Hd].
Defined.

(** * Theorems: UDP datagrams *)

Definition dest_ok (d : Destination) : Prop :=
  match d with
  | DV4 ip port => zlen ip = 4 /\ bytes_ok ip /\ is_u 16 port
  | DV6 ip port => zlen ip = 16 /\ bytes_ok ip /\ is_u 16 port
  | DDomain name port => bytes_ok name /\ utf8_valid name = true /\ is_u 16 port
  end.

(** The values the field types admit. *)
Definition datagram_ok (dg : UdpDatagram) : Prop :=
  is_u 32 (session_id dg) /\ is_u 16 (packet_id dg) /\ is_u 8 (frag_id dg) /\ is_u 8 (frag_num dg)
  /\ dest_ok (dg_dest dg).

(** The destinations whose length fits in its byte. *)
Definition dest_short (d : Destination) : Prop :=
  match d with DDomain name _ => zlen name <= 255 | _ => True end.

#[global] Instance datagram_ok_dec dg : Decision (datagram_ok dg).
Proof. unfold datagram_ok, dest_ok. destruct (dg_dest dg); apply _. Defined.

Lemma buf_get_app n (a s : bytes) : n = zlen a -> buf_get n (a ++ s) = Ok (a, s).
Proof.
  intros ->. unfold buf_get. rewrite bool_decide_eq_true_2 by len_solve.
  unfold zlen. by rewrite Nat2Z.id, take_app_length, drop_app_length.
Qed.

Lemma buf_uint_app n z s :
  0 <= z < 256 ^ Z.of_nat n -> buf_uint (Z.of_nat n) (be_bytes n z ++ s) = Ok (z, s).
Proof.
  intros Hz. unfold buf_uint. erewrite pbind_ok; [| apply buf_get_app; len_solve].
  unfold mret, parser_ret. by rewrite be_val_be_bytes.
Qed.

Lemma buf_uint_byte b s : buf_uint 1 (b :: s) = Ok (b, s).
Proof.
  change (b :: s) with ([b] ++ s). unfold buf_uint. erewrite pbind_ok; [| by apply buf_get_app].
  unfold mret, parser_ret. rewrite be_val_cons, zlen_nil, be_val_nil. f_equal. f_equal. lia.
Qed.

Lemma ensure_len_ok n msg s : n <= zlen s -> ensure_len n msg s = Ok (tt, s).
Proof. intros. unfold ensure_len. destruct (Z.geb_spec (zlen s) n); [done | lia]. Qed.

Lemma buf_get_inv n s a s' : 0 <= n -> buf_get n s = Ok (a, s') -> s = a ++ s' /\ zlen a = n.
Proof.
  intros Hn. unfold buf_get. case_bool_decide; [| discriminate]. intros [= <- <-].
  split; [by rewrite take_drop |]. unfold zlen in *. rewrite length_take. lia.
Qed.

Lemma buf_uint_inv n s z s' : bytes_ok s -> buf_uint (Z.of_nat n) s = Ok (z, s') ->
  s = be_bytes n z ++ s' /\ 0 <= z < 256 ^ Z.of_nat n /\ bytes_ok s'.
Proof.
  intros Hok H. unfold buf_uint in H. pinv H. apply buf_get_inv in Hv as [-> Hl]; [| lia].
  apply bytes_ok_app in Hok as [Ha Hs]. injection H as <- <-.
  assert (length v = n) as <- by (unfold zlen in Hl; lia).
  rewrite be_bytes_be_val by done. pose proof (be_val_bound _ Ha). done.
Qed.

Lemma ensure_len_inv n msg s u s' : ensure_len n msg s = Ok (u, s') -> s' = s /\ n <= zlen s.
Proof. unfold ensure_len. destruct (Z.geb_spec (zlen s) n); [| discriminate]. by intros [= _ <-]. Qed.

(** One step over bytes that are known. *)
Ltac ustep := erewrite pbind_ok; [| first
  [ apply buf_uint_byte
  | apply (buf_uint_app 2); unfold is_u in *; cbn; lia
  | apply (buf_uint_app 4); unfold is_u in *; cbn; lia
  | apply buf_get_app; len_solve
  | apply ensure_len_ok; len_solve ]].

Lemma decode_dest_wire d s : dest_ok d -> dest_short d -> decode_dest (encode_dest d ++ s) = Ok (d, s).
Proof.
  destruct d as [ip port | ip port | name port]; cbn [dest_ok dest_short encode_dest app];
    rewrite <- ?app_assoc; intros (Hl & Hok & Hp) Hs; unfold decode_dest; ustep; cbn [Z.eqb Pos.eqb].
  - do 3 ustep. done.
  - do 3 ustep. done.
  - unfold wrap. rewrite Z.mod_small by len_solve. do 4 ustep. rewrite Hok. ustep. done.
Qed.

(** Inverts one step that succeeded, on a buffer known to hold bytes. *)
Ltac uinv H Hok :=
  let Hz := fresh "Hz" in let Hk := fresh "Hk" in
  first
  [ apply (buf_uint_inv 1 _ _ _ Hok) in H as (-> & Hz & Hk); clear Hok; rename Hk into Hok
  | apply (buf_uint_inv 2 _ _ _ Hok) in H as (-> & Hz & Hk); clear Hok; rename Hk into Hok
  | apply (buf_uint_inv 4 _ _ _ Hok) in H as (-> & Hz & Hk); clear Hok; rename Hk into Hok
  | apply ensure_len_inv in H as (-> & Hz) ].

Lemma be_bytes_1 z : is_u 8 z -> be_bytes 1 z = [z].
Proof.
  intros Hz. rewrite be_bytes_cons, be_bytes_0. change (256 ^ Z.of_nat 0) with 1.
  unfold is_u in Hz. by rewrite Z.div_1_r, Z.mod_small.
Qed.

Lemma decode_dest_inv s d s' :
  bytes_ok s -> decode_dest s = Ok (d, s') ->
  s = encode_dest d ++ s' /\ dest_ok d /\ dest_short d /\ bytes_ok s'.
Proof.
  intros Hok H. unfold decode_dest in H. pinv H. uinv Hv Hok.
  rewrite be_bytes_1 by done.
  destruct (Z.eqb_spec v 1) as [-> |]; [| destruct (Z.eqb_spec v 2) as [-> |];
    [| destruct (Z.eqb_spec v 3) as [-> |]; [| discriminate H]]].
  - pinv H. uinv Hv Hok. apply buf_get_inv in Hv0 as [-> Hl]; [| lia].
    apply bytes_ok_app in Hok as [Ha Hok]. uinv Hv1 Hok. injection H as <- <-.
    cbn [encode_dest dest_ok app]. by rewrite <- app_assoc.
  - pinv H. uinv Hv Hok. apply buf_get_inv in Hv0 as [-> Hl]; [| lia].
    apply bytes_ok_app in Hok as [Ha Hok]. uinv Hv1 Hok. injection H as <- <-.
    cbn [encode_dest dest_ok app]. by rewrite <- app_assoc.
  - pinv H. uinv Hv Hok. uinv Hv0 Hok. uinv Hv1 Hok. apply buf_get_inv in Hv2 as [-> Hl]; [| lia].
    apply bytes_ok_app in Hok as [Ha Hok]. destruct (utf8_valid v2) eqn:Hu; [| discriminate H].
    pinv H. uinv Hv Hok. injection H as <- <-. rewrite be_bytes_1 by done.
    cbn [encode_dest dest_ok dest_short app]. rewrite Hl. unfold wrap. rewrite Z.mod_small by done.
    rewrite <- app_assoc. split_and!; try done. change (256 ^ Z.of_nat 1) with 256 in *. lia.
Qed.

(** What a step must leave to the next one so that no step panics. *)
Definition never_panics {A} (p : parser AnyError A) (s : bytes) : Prop := bytes_ok s -> p s <> Panic.

Lemma buf_bind_safe {B} n (f : bytes -> parser AnyError B) s :
  0 <= n <= zlen s ->
  (forall a s', zlen a = n -> bytes_ok a -> zlen s' = zlen s - n -> never_panics (f a) s') ->
  never_panics (buf_get n ≫= f) s.
Proof.
  intros Hn Hf Hok. destruct (split_at s n Hn) as (a & r & -> & Hl).
  apply bytes_ok_app in Hok as [Ha Hr]. erewrite pbind_ok; [| by apply buf_get_app].
  apply Hf; [done | done | len_solve | done].
Qed.

Lemma buf_uint_bind_safe {B} n (f : Z -> parser AnyError B) s :
  0 <= n <= zlen s ->
  (forall z s', 0 <= z -> zlen s' = zlen s - n -> never_panics (f z) s') ->
  never_panics (buf_uint n ≫= f) s.
Proof.
  intros Hn Hf Hok. destruct (split_at s n Hn) as (a & r & -> & Hl).
  apply bytes_ok_app in Hok as [Ha Hr].
  rewrite (pbind_ok _ _ _ (be_val a) r); [apply Hf; [| len_solve | done] |].
  - pose proof (be_val_bound a Ha). lia.
  - unfold buf_uint. by erewrite pbind_ok by (by apply buf_get_app).
Qed.

Lemma ensure_len_bind_safe {B} n msg (f : unit -> parser AnyError B) s :
  (n <= zlen s -> never_panics (f tt) s) -> never_panics (ensure_len n msg ≫= f) s.
Proof.
  intros Hf Hok. unfold mbind, parser_bind, ensure_len.
  destruct (Z.geb_spec (zlen s) n); [by apply Hf | done].
Qed.

Ltac usafe :=
  first
  [ apply ensure_len_bind_safe; intros ?
  | apply buf_bind_safe; [lia | intros ? ? ? ? ?]
  | apply buf_uint_bind_safe; [lia | intros ? ? ? ?] ].

Lemma decode_dest_bind_safe {B} (f : Destination -> parser AnyError B) s :
  1 <= zlen s -> (forall d s', f d s' <> Panic) -> never_panics (decode_dest ≫= f) s.
Proof.
  intros Hs Hf Hok. unfold mbind at 1, parser_bind at 1.
  enough (Hd : decode_dest s <> Panic) by (destruct (decode_dest s) as [[??] | | |]; try done; apply Hf).
  revert Hok. change (never_panics decode_dest s). unfold decode_dest. usafe.
  destruct (_ =? 1); [repeat usafe; done |].
  destruct (_ =? 2); [repeat usafe; done |]. destruct (_ =? 3); [| done].
  do 4 usafe. destruct (utf8_valid _); [usafe |]; done.
Qed.

Lemma decode_udp_datagram_safe data : bytes_ok data -> decode_udp_datagram data <> Panic.
Proof.
  intros Hok. unfold decode_udp_datagram.
  enough (Hp : udp_datagram_parser data <> Panic)
    by (destruct (udp_datagram_parser data) as [[??] | | |]; done).
  revert Hok. change (never_panics udp_datagram_parser data). unfold udp_datagram_parser.
  do 5 usafe. apply decode_dest_bind_safe; [lia | done].
Qed.

Lemma decode_udp_datagram_inv data dg :
  bytes_ok data -> decode_udp_datagram data = Ok dg ->
  data = encode_udp_datagram dg /\ datagram_ok dg /\ dest_short (dg_dest dg).
Proof.
  intros Hok H. unfold decode_udp_datagram in H. rinv H. destruct v as [dg' r]. injection H as ->.
  unfold udp_datagram_parser in Hv. pinv Hv. uinv Hv0 Hok.
  apply (buf_uint_inv 4 _ _ _ Hok) in Hv1 as (-> & Hz1 & Hk1).
  apply (buf_uint_inv 2 _ _ _ Hk1) in Hv2 as (-> & Hz2 & Hk2).
  apply (buf_uint_inv 1 _ _ _ Hk2) in Hv3 as (-> & Hz3 & Hk3).
  apply (buf_uint_inv 1 _ _ _ Hk3) in Hv4 as (-> & Hz4 & Hk4).
  apply decode_dest_inv in Hv5 as (-> & Hd & Hs & _); [| done].
  injection Hv6 as <- <-. injection Hv as <- _. cbn.
  unfold encode_udp_datagram, datagram_ok. cbn. by rewrite !be_bytes_1.
Qed.

Lemma decode_encode_udp_datagram dg :
  datagram_ok dg -> dest_short (dg_dest dg) -> decode_udp_datagram (encode_udp_datagram dg) = Ok dg.
Proof.
  destruct dg as [sid pid fid fnum d data]. unfold datagram_ok, encode_udp_datagram. cbn.
  intros (Hs & Hp & Hf & Hn & Hd) Hsh. unfold decode_udp_datagram, udp_datagram_parser.
  assert (1 <= zlen (encode_dest d)) by (destruct d; cbn; len_solve).
  erewrite rbind_ok; [| do 5 ustep; erewrite pbind_ok by (by apply decode_dest_wire); done].
  done.
Qed.

(** Hysteria2 UDP datagrams.  [decode_udp_datagram] never panics on received bytes;
    what it accepts is the encoding of the datagram it returns, byte for byte; and a
    datagram survives encoding and decoding exactly when its domain name is of at most 255
    bytes, since the encoder keeps only the low byte of the length. *)
Theorem hysteria_udp_codec dg data :
  datagram_ok dg -> bytes_ok (dg_data dg) -> bytes_ok data ->
  decode_udp_datagram data <> Panic /\
  (decode_udp_datagram data = Ok dg -> data = encode_udp_datagram dg) /\
  (decode_udp_datagram (encode_udp_datagram dg) = Ok dg <-> dest_short (dg_dest dg)).
Proof.
  intros Hdg Hd Hok. split_and!.
  - by apply decode_udp_datagram_safe.
  - intros H. by apply decode_udp_datagram_inv in H as [? _].
  - split; [| by apply decode_encode_udp_datagram].
    intros H. apply decode_udp_datagram_inv in H; [naive_solver |].
    unfold encode_udp_datagram. destruct Hdg as (? & ? & ? & ? & Hdest).
    unfold encode_dest, dest_ok in *. destruct (dg_dest dg); destruct_and!; bok.
Qed.

Lemma hysteria_udp_codec_witness :
  let dg := mkUdpDatagram 0x12345678 42 0 1 (DDomain (lit "example.com") 53) (lit "hello") in
  decode_udp_datagram (encode_udp_datagram dg) = Ok dg.
Proof.
  intros dg. apply (hysteria_udp_codec dg []); [| | | vm_compute; discriminate];
    apply (bool_decide_unpack _); vm_compute; exact I.
Defined.

(** * Theorems: authentication headers *)

Section auth.
Context `{HeaderLaws}.

Lemma header_name_ok k : plain_name k -> exists n, header_name k = Ok n /\ hn_from_bytes k = Some n.
Proof. intros Hk. unfold header_name. destruct (hn_plain k Hk) as [n ->]. eauto. Qed.

Lemma header_value_ok v : visible v -> exists hv, header_value v = Ok hv /\ hv_to_str hv = Some v.
Proof. intros Hv. unfold header_value. destruct (hv_visible v Hv) as (hv & -> & Ht). eauto. Qed.

(** Reading a header after an insertion. *)
Lemma header_string_insert k k' n hv v m :
  plain_name k -> plain_name k' -> hn_from_bytes k' = Some n -> hv_to_str hv = Some v ->
  header_string (hm_insert n hv m) k = if bool_decide (k = k') then Some v else header_string m k.
Proof.
  intros Hk Hk' Hn Hv. unfold header_string. rewrite (hm_get_insert k k') by done.
  by case_bool_decide.
Qed.

Definition cc_text (resp : AuthResponse) : bytes :=
  if as_rx_auto resp then lit "auto" else u64_to_string (as_rx_bps resp).

Lemma cc_text_visible resp : 0 <= as_rx_bps resp -> visible (cc_text resp).
Proof.
  intros Hr. unfold cc_text. destruct (as_rx_auto resp); [apply (bool_decide_unpack _); by vm_compute |].
  eapply Forall_impl; [| by apply u64_to_string_chars]. simpl. lia.
Qed.

Lemma auth_header_names :
  plain_name HEADER_UDP /\ plain_name HEADER_CC_RX /\ plain_name HEADER_PADDING.
Proof. apply (bool_decide_unpack _). by vm_compute. Qed.

Lemma auth_headers_written headers resp :
  0 <= as_rx_bps resp ->
  exists headers', auth_response_to_headers headers resp = Ok headers' /\
    header_string headers' HEADER_UDP = Some (bool_to_string (as_udp_enabled resp)) /\
    header_string headers' HEADER_CC_RX = Some (cc_text resp).
Proof.
  intros Hr. destruct auth_header_names as (Hn1 & Hn2 & Hn3).
  destruct (header_name_ok _ Hn1) as (n1 & E1 & N1). destruct (header_name_ok _ Hn2) as (n2 & E2 & N2).
  destruct (header_name_ok _ Hn3) as (n3 & E3 & N3).
  destruct (header_value_ok (bool_to_string (as_udp_enabled resp))) as (v1 & F1 & V1);
    [destruct (as_udp_enabled resp); apply (bool_decide_unpack _); by vm_compute |].
  destruct (header_value_ok _ (cc_text_visible resp Hr)) as (v2 & F2 & V2).
  destruct (header_value_ok []) as (v3 & F3 & V3); [constructor |].
  unfold auth_response_to_headers. fold (cc_text resp). rewrite E1, E2, E3, F1, F2, F3.
  eexists. split; [reflexivity |].
  split; rewrite (header_string_insert _ HEADER_PADDING n3 v3 []), (header_string_insert _ HEADER_CC_RX n2 v2 (cc_text resp)),
    ?(header_string_insert _ HEADER_UDP n1 v1 _ _ Hn1 Hn1 N1 V1) by done;
    repeat (rewrite bool_decide_eq_false_2 by (by vm_compute)); by rewrite bool_decide_eq_true_2.
Qed.

(** Hysteria2 authentication.  The response headers are written without a panic, and
    the client that reads them together with the status learns the same permissions: the
    UDP flag, the rate for every 64-bit rate, and whether the rate is automatic. *)
Theorem hysteria_auth_roundtrip headers resp status :
  is_u 64 (as_rx_bps resp) ->
  exists headers', auth_response_to_headers headers resp = Ok headers' /\
    auth_response_from_headers headers' status =
      mkAuthResponse (status =? 233) (as_udp_enabled resp)
        (if as_rx_auto resp then 0 else as_rx_bps resp) (as_rx_auto resp).
Proof.
  intros Hr. destruct (auth_headers_written headers resp) as (headers' & He & Hu & Hc);
    [unfold is_u in Hr; lia |].
  exists headers'. split; [done |]. unfold auth_response_from_headers. rewrite Hu, Hc. unfold cc_text.
  assert (Hb : parse_bool (bool_to_string (as_udp_enabled resp)) = Some (as_udp_enabled resp))
    by (by destruct (as_udp_enabled resp)).
  cbn [mbind option_bind default]. rewrite Hb. destruct (as_rx_auto resp).
  - by rewrite bool_decide_eq_true_2.
  - rewrite parse_u64_to_string by done. rewrite bool_decide_eq_false_2; [done |].
    intros [= E]. pose proof (u64_to_string_chars (as_rx_bps resp)) as Hch.
    rewrite E in Hch. specialize (Hch ltac:(unfold is_u in Hr; lia)).
    apply (bool_decide_pack _) in Hch. by vm_compute in Hch.
Qed.

End auth.

(** Header maps as finite maps, with names and values checked as the crate
    documents. *)
#[local] Instance gmap_headers : HeaderOps := {|
  HeaderName := bytes;
  HeaderValue := bytes;
  HeaderMap := gmap bytes bytes;
  hn_from_bytes := fun k => if bool_decide (plain_name k) then Some k else None;
  hv_from_str := fun v => if bool_decide (visible v) then Some v else None;
  hv_to_str := fun v => if bool_decide (visible v) then Some v else None;
  hm_insert := fun n v m => <[n := v]> m;
  hm_get := fun k m => m !! k;
|}.

#[local] Instance gmap_headers_laws : HeaderLaws.
Proof.
  constructor; cbn.
  - intros k Hk. rewrite bool_decide_eq_true_2 by done. eauto.
  - intros v Hv. exists v. by rewrite bool_decide_eq_true_2.
  - intros k k' n hv m _ Hk'. rewrite bool_decide_eq_true_2 by done. intros [= <-].
    case_bool_decide; simplify_map_eq; done.
Qed.

Lemma hysteria_auth_roundtrip_witness :
  exists headers', @auth_response_to_headers gmap_headers (∅ : gmap bytes bytes) (mkAuthResponse true true 125000000 false) = Ok headers' /\
    @auth_response_from_headers gmap_headers headers' 233 = mkAuthResponse true true 125000000 false.
Proof.
  apply (@hysteria_auth_roundtrip gmap_headers gmap_headers_laws (∅ : gmap bytes bytes) (mkAuthResponse true true 125000000 false) 233).
  apply (bool_decide_unpack _). vm_compute. exact I.
Defined.
