(* ===== verification/Kcp.v ===== *)
(** mKCP ([crates/blackwire-transport/src/mkcp]): the segment codec ([segment.rs]), the
    packet disguises ([header.rs]), the KCP engine ([kcp.rs]) with its sending and receiving
    halves, retransmission, window probing and congestion window, and the part of the driver
    that empties the engine ([mkcp.rs]).

    The fields of the engine are grouped by the operations that change them; all counters
    keep their machine width, with the wrap-around of unchecked arithmetic.  The fields [_mtu]
    and [_interval] and the local [latest_ts] of [input], which nothing reads, are left out.  The end-to-end
    theorem is about a sender, a receiver and a network that loses, repeats and reorders
    datagrams. *)

From stdpp Require Import relations base list strings numbers.
From Stdlib Require Import Sorted.
From S2P Require Import Prelude.

(** Arithmetic of [u8], [u16], [u32] registers and of [as i32]. *)
Definition u8 (z : Z) : Z := wrap 8 z.
Definition u16 (z : Z) : Z := wrap 16 z.
Definition u32 (z : Z) : Z := wrap 32 z.
Definition i32 (z : Z) : Z := (z + 2 ^ 31) mod 2 ^ 32 - 2 ^ 31.

(** * Segments *)

Definition OVERHEAD : Z := 24.
Definition CMD_PUSH : Z := 81.
Definition CMD_ACK : Z := 82.
Definition CMD_WASK : Z := 83.
Definition CMD_WINS : Z := 84.

Record Segment : Type := mkSegment {
  s_conv : Z;
  s_cmd : Z;
  s_frg : Z;
  s_wnd : Z;
  s_ts : Z;
  s_sn : Z;
  s_una : Z;
  s_data : bytes;
  s_resendts : Z;
  s_rto : Z;
  s_fastack : Z;
  s_xmit : Z;
}.

Definition Segment_new (conv cmd : Z) : Segment := mkSegment conv cmd 0 0 0 0 0 [] 0 200 0 0.

Definition encode (seg : Segment) : bytes :=
  le_bytes 4 (s_conv seg) ++ [s_cmd seg; s_frg seg] ++ le_bytes 2 (s_wnd seg) ++ le_bytes 4 (s_ts seg)
  ++ le_bytes 4 (s_sn seg) ++ le_bytes 4 (s_una seg) ++ le_bytes 4 (zlen (s_data seg)) ++ s_data seg.

(** [get_u8], [get_u16_le], [get_u32_le] after the length check: the little-endian value of
    the next bytes. *)
Definition get_le (n : nat) (src : bytes) : Z * bytes := (le_val (take n src), drop n src).

Definition decode (src : bytes) : option (Segment * bytes) :=
  if zlen src <? OVERHEAD then None
  else
    let '(conv, src) := get_le 4 src in
    let '(cmd, src) := get_le 1 src in
    let '(frg, src) := get_le 1 src in
    let '(wnd, src) := get_le 2 src in
    let '(ts, src) := get_le 4 src in
    let '(sn, src) := get_le 4 src in
    let '(una, src) := get_le 4 src in
    let '(len, src) := get_le 4 src in
    if zlen src <? len then None
    else Some (mkSegment conv cmd frg wnd ts sn una (take (Z.to_nat len) src) 0 200 0 0,
               drop (Z.to_nat len) src).

(** * Packet disguises *)

Inductive HeaderType : Type := HNone | Srtp | Utp | WechatVideo | Dtls | Wireguard.

Definition size (h : HeaderType) : Z :=
  match h with
  | HNone => 0
  | Srtp | Utp | WechatVideo | Wireguard => 4
  | Dtls => 13
  end.

(** [addr] is the address of the buffer, [c] the counter's value, the two sources of the
    varying bytes. *)
Definition write_header (h : HeaderType) (addr c : Z) : bytes :=
  let r := u32 (u32 addr * 0x9e3779b9) in
  match h with
  | HNone => []
  | Srtp => [0x80; 0x61; u8 (Z.shiftr r 8); u8 r]
  | Utp => [0x01; 0x00; u8 (Z.shiftr r 8); u8 r]
  | WechatVideo => [0xa1; 0x08; u8 (Z.shiftr c 8); u8 c]
  | Dtls => [0x16; 0xfe; 0xff; 0; 0; 0; 0; u8 (Z.shiftr c 24); u8 (Z.shiftr c 16); u8 (Z.shiftr c 8); u8 c; 0; 0]
  | Wireguard => [0x04; 0; 0; 0]
  end.

Definition header_encode (h : HeaderType) (addr c : Z) (payload : bytes) : bytes :=
  write_header h addr c ++ payload.

Definition strip (h : HeaderType) (packet : bytes) : option bytes :=
  let hdr := size h in
  if zlen packet <? hdr then None else Some (drop (Z.to_nat hdr) packet).

(** * The engine *)

Definition RTO_NDL : Z := 30.
Definition RTO_MIN : Z := 100.
Definition RTO_DEF : Z := 200.
Definition RTO_MAX : Z := 60000.
Definition WND_SND : Z := 32.
Definition WND_RCV : Z := 128.
Definition THRESH_MIN : Z := 2.
Definition THRESH_INIT : Z := 2.
Definition PROBE_INIT : Z := 7000.
Definition PROBE_LIMIT : Z := 120000.
Definition DEAD_LINK : Z := 20.

(** What is fixed when the session starts. *)
Record Config : Type := mkConfig {
  conv : Z;
  mss : Z;
  nodelay : bool;
  snd_wnd : Z;
  rcv_wnd : Z;
  dead_link : Z;
  fastresend : Z;
  nocwnd : bool;
}.

(** The sending half. *)
Record Snd : Type := mkSnd {
  snd_una : Z;
  snd_nxt : Z;
  snd_queue : list Segment;
  snd_buf : list Segment;
}.

(** The receiving half. *)
Record Rcv : Type := mkRcv {
  rcv_nxt : Z;
  rcv_queue : list Segment;
  rcv_buf : list Segment;
  acklist : list (Z * Z);
}.

(** Round-trip time estimate. *)
Record Rtt : Type := mkRtt { rx_rttval : Z; rx_srtt : Z; rx_rto : Z; rx_minrto : Z }.

(** Window probing. *)
Record Probe : Type := mkProbe { probe : Z; ts_probe : Z; probe_wait : Z }.

(** Congestion window. *)
Record Cong : Type := mkCong { cwnd : Z; ssthresh : Z; incr : Z; xmit : Z }.

Record Kcp : Type := mkKcp {
  cfg : Config;
  snd_half : Snd;
  rcv_half : Rcv;
  rtt : Rtt;
  prb : Probe;
  cong : Cong;
  state : Z;
  rmt_wnd : Z;
  current : Z;
  ts_flush : Z;
  updated : bool;
}.

Definition Kcp_new (conv : Z) : Kcp :=
  mkKcp (mkConfig conv (1400 - OVERHEAD) false WND_SND WND_RCV DEAD_LINK 0 false)
        (mkSnd 0 0 [] []) (mkRcv 0 [] [] []) (mkRtt 0 0 RTO_DEF RTO_MIN) (mkProbe 0 0 0)
        (mkCong 0 THRESH_INIT 0 0) 0 WND_RCV 0 100 false.

(** Updates of one group of fields. *)
Definition set_cfg (c : Config) (k : Kcp) : Kcp :=
  mkKcp c (snd_half k) (rcv_half k) (rtt k) (prb k) (cong k) (state k) (rmt_wnd k) (current k) (ts_flush k) (updated k).
Definition set_snd (s : Snd) (k : Kcp) : Kcp :=
  mkKcp (cfg k) s (rcv_half k) (rtt k) (prb k) (cong k) (state k) (rmt_wnd k) (current k) (ts_flush k) (updated k).
Definition set_rcv (r : Rcv) (k : Kcp) : Kcp :=
  mkKcp (cfg k) (snd_half k) r (rtt k) (prb k) (cong k) (state k) (rmt_wnd k) (current k) (ts_flush k) (updated k).
Definition set_rtt (r : Rtt) (k : Kcp) : Kcp :=
  mkKcp (cfg k) (snd_half k) (rcv_half k) r (prb k) (cong k) (state k) (rmt_wnd k) (current k) (ts_flush k) (updated k).
Definition set_prb (p : Probe) (k : Kcp) : Kcp :=
  mkKcp (cfg k) (snd_half k) (rcv_half k) (rtt k) p (cong k) (state k) (rmt_wnd k) (current k) (ts_flush k) (updated k).
Definition set_cong (c : Cong) (k : Kcp) : Kcp :=
  mkKcp (cfg k) (snd_half k) (rcv_half k) (rtt k) (prb k) c (state k) (rmt_wnd k) (current k) (ts_flush k) (updated k).
Definition set_state (z : Z) (k : Kcp) : Kcp :=
  mkKcp (cfg k) (snd_half k) (rcv_half k) (rtt k) (prb k) (cong k) z (rmt_wnd k) (current k) (ts_flush k) (updated k).
Definition set_rmt_wnd (z : Z) (k : Kcp) : Kcp :=
  mkKcp (cfg k) (snd_half k) (rcv_half k) (rtt k) (prb k) (cong k) (state k) z (current k) (ts_flush k) (updated k).
Definition set_probe (z : Z) (k : Kcp) : Kcp :=
  set_prb (mkProbe z (ts_probe (prb k)) (probe_wait (prb k))) k.

Definition set_nodelay (nd : bool) (k : Kcp) : Kcp :=
  let c := cfg k in
  let r := rtt k in
  set_rtt (mkRtt (rx_rttval r) (rx_srtt r) (rx_rto r) (if nd then RTO_NDL else RTO_MIN))
    (set_cfg (mkConfig (conv c) (mss c) nd (snd_wnd c) (rcv_wnd c) (dead_link c) (fastresend c) (nocwnd c)) k).

Definition set_wndsize (sw rw : Z) (k : Kcp) : Kcp :=
  let c := cfg k in
  set_cfg (mkConfig (conv c) (mss c) (nodelay c)
             (if sw >? 0 then sw else snd_wnd c) (if rw >? 0 then rw else rcv_wnd c)
             (dead_link c) (fastresend c) (nocwnd c)) k.

Definition is_dead (k : Kcp) : bool := state k =? -1.

(** ** Receiving half *)

(** [while let Some(seg) = self.rcv_buf.front()]: each turn takes one segment out of the
    buffer. *)
Fixpoint move_rcv_loop (wnd nxt : Z) (queue buf : list Segment) : Z * list Segment * list Segment :=
  match buf with
  | seg :: buf' =>
      if (s_sn seg =? nxt) && (zlen queue <? wnd)
      then move_rcv_loop wnd (u32 (nxt + 1)) (queue ++ [seg]) buf'
      else (nxt, queue, buf)
  | [] => (nxt, queue, buf)
  end.

Definition move_rcv_buf (wnd : Z) (r : Rcv) : Rcv :=
  let '(nxt, queue, buf) := move_rcv_loop wnd (rcv_nxt r) (rcv_queue r) (rcv_buf r) in
  mkRcv nxt queue buf (acklist r).

(** [rposition(|s| s.sn < sn).map(|i| i + 1).unwrap_or(0)]. *)
Fixpoint rposition (sn : Z) (l : list Segment) : nat :=
  match l with
  | [] => 0
  | s :: l' =>
      match rposition sn l' with
      | O => if s_sn s <? sn then 1%nat else 0%nat
      | S i => S (S i)
      end
  end.

Definition parse_data (wnd : Z) (seg : Segment) (r : Rcv) : Rcv :=
  let sn := s_sn seg in
  if (sn >=? u32 (rcv_nxt r + wnd)) || (sn <? rcv_nxt r) then r
  else if existsb (fun s => s_sn s =? sn) (rcv_buf r) then r
  else
    let pos := rposition sn (rcv_buf r) in
    move_rcv_buf wnd
      (mkRcv (rcv_nxt r) (rcv_queue r) (take pos (rcv_buf r) ++ seg :: drop pos (rcv_buf r)) (acklist r)).

Definition peeksize (queue : list Segment) : Z :=
  match queue with
  | [] => -1
  | seg :: _ =>
      if s_frg seg =? 0 then i32 (zlen (s_data seg))
      else if zlen queue <? u8 (s_frg seg + 1) then -1
      else foldl (fun acc s => i32 (acc + i32 (zlen (s_data s)))) 0 queue
  end.

(** The copy loop: pops up to and including the first segment with [frg = 0]; [buf] of
    [cap] bytes already holds [acc]. *)
Fixpoint recv_loop (cap : Z) (queue : list Segment) (acc : bytes) : res Z bytes * list Segment :=
  match queue with
  | [] => (Ok acc, [])
  | seg :: queue' =>
      if zlen acc + zlen (s_data seg) <=? cap then
        let acc := acc ++ s_data seg in
        if s_frg seg =? 0 then (Ok acc, queue') else recv_loop cap queue' acc
      else (Panic, queue')
  end.

(** [recv] into a buffer of [cap] bytes: the bytes written, or the code returned. *)
Definition recv (cap : Z) (k : Kcp) : Kcp * res Z bytes :=
  let r := rcv_half k in
  let wnd := rcv_wnd (cfg k) in
  match rcv_queue r with
  | [] => (k, Err (-1))
  | _ =>
      let peeksz := peeksize (rcv_queue r) in
      if peeksz <? 0 then (k, Err (-1))
      else if peeksz >? i32 cap then (k, Err (-2))
      else
        let recover := zlen (rcv_queue r) >=? wnd in
        match recv_loop cap (rcv_queue r) [] with
        | (Ok msg, queue) =>
            let r := move_rcv_buf wnd (mkRcv (rcv_nxt r) queue (rcv_buf r) (acklist r)) in
            let k := set_rcv r k in
            let k := if recover && (zlen (rcv_queue r) <? wnd)
                     then set_probe (Z.lor (probe (prb k)) 2) k else k in
            (k, Ok msg)
        | (e, queue) => (set_rcv (mkRcv (rcv_nxt r) queue (rcv_buf r) (acklist r)) k, e)
        end
  end.

(** ** Sending half *)

(** The fragments of one message, the last one first numbered zero; [n] of them remain. *)
Fixpoint send_loop (cv ms : Z) (n : nat) (buf : bytes) (offset : Z) : res Z (list Segment) :=
  match n with
  | O => Ok []
  | S n' =>
      let size := Z.min (zlen buf - offset) ms in
      d ← slice buf offset (offset + size);
      rest ← send_loop cv ms n' buf (offset + size);
      Ok (mkSegment cv CMD_PUSH (u8 (Z.of_nat n')) 0 0 0 0 d 0 200 0 0 :: rest)
  end.

(** [usize::div_ceil]. *)
Definition div_ceil (a b : Z) : Z := a / b + (if a mod b >? 0 then 1 else 0).

Definition send (buf : bytes) (k : Kcp) : Kcp * res Z unit :=
  if bool_decide (buf = []) then (k, Err (-1))
  else
    let count := div_ceil (zlen buf) (mss (cfg k)) in
    if count >=? 256 then (k, Err (-2))
    else
      match send_loop (conv (cfg k)) (mss (cfg k)) (Z.to_nat count) buf 0 with
      | Ok segs =>
          let s := snd_half k in
          (set_snd (mkSnd (snd_una s) (snd_nxt s) (snd_queue s ++ segs) (snd_buf s)) k, Ok tt)
      | Err e => (k, Err e)
      | Panic => (k, Panic)
      | NoFuel => (k, NoFuel)
      end.

Definition parse_una (una : Z) (s : Snd) : Snd :=
  mkSnd (snd_una s) (snd_nxt s) (snd_queue s) (List.filter (fun x => s_sn x >=? una) (snd_buf s)).

Definition shrink_buf (s : Snd) : Snd :=
  mkSnd (match snd_buf s with x :: _ => s_sn x | [] => snd_nxt s end)
        (snd_nxt s) (snd_queue s) (snd_buf s).

Definition parse_ack (sn : Z) (s : Snd) : Snd :=
  if (sn <? snd_una s) || (sn >=? snd_nxt s) then s
  else mkSnd (snd_una s) (snd_nxt s) (snd_queue s) (List.filter (fun x => negb (s_sn x =? sn)) (snd_buf s)).

Definition bump_fastack (x : Segment) : Segment :=
  mkSegment (s_conv x) (s_cmd x) (s_frg x) (s_wnd x) (s_ts x) (s_sn x) (s_una x) (s_data x)
            (s_resendts x) (s_rto x) (u32 (s_fastack x + 1)) (s_xmit x).

(** The loop over [snd_buf] that stops at the first segment not below [sn]. *)
Fixpoint fastack_loop (sn : Z) (l : list Segment) : list Segment :=
  match l with
  | [] => []
  | x :: l' => if s_sn x <? sn then bump_fastack x :: fastack_loop sn l' else l
  end.

Definition parse_fastack (sn : Z) (s : Snd) : Snd :=
  if (sn <? snd_una s) || (sn >=? snd_nxt s) then s
  else mkSnd (snd_una s) (snd_nxt s) (snd_queue s) (fastack_loop sn (snd_buf s)).

Definition update_ack (t : Z) (r : Rtt) : Rtt :=
  let '(rttval, srtt) :=
    if rx_srtt r =? 0 then (t / 2, t)
    else
      let delta := Z.abs (t - rx_srtt r) in
      let rttval := u32 (u32 (3 * rx_rttval r) + delta) / 4 in
      let srtt := u32 (u32 (7 * rx_srtt r) + t) / 8 in
      (rttval, if srtt <? 1 then 1 else srtt) in
  mkRtt rttval srtt (Z.min (Z.max (u32 (srtt + u32 (4 * rttval))) (rx_minrto r)) RTO_MAX) (rx_minrto r).

(** ** Input *)

(** One segment of a datagram: [flag] and [maxack] are the locals of the loop; an error
    value is the code returned. *)
Definition input_seg (seg : Segment) (k : Kcp) (flag : bool) (maxack : Z) : Kcp * res Z (bool * Z) :=
  if negb (s_conv seg =? conv (cfg k)) then (k, Err (-1))
  else
    let k := set_rmt_wnd (s_wnd seg) k in
    let k := set_snd (shrink_buf (parse_una (s_una seg) (snd_half k))) k in
    if s_cmd seg =? CMD_ACK then
      let k := set_rtt (update_ack (u32 (current k - s_ts seg)) (rtt k)) k in
      let k := set_snd (shrink_buf (parse_ack (s_sn seg) (snd_half k))) k in
      if negb flag || (s_sn seg >? maxack) then (k, Ok (true, s_sn seg)) else (k, Ok (flag, maxack))
    else if s_cmd seg =? CMD_PUSH then
      let r := rcv_half k in
      let wnd := rcv_wnd (cfg k) in
      if s_sn seg <? u32 (rcv_nxt r + wnd) then
        let r := mkRcv (rcv_nxt r) (rcv_queue r) (rcv_buf r) (acklist r ++ [(s_sn seg, s_ts seg)]) in
        let r := if s_sn seg >=? rcv_nxt r then parse_data wnd seg r else r in
        (set_rcv r k, Ok (flag, maxack))
      else (k, Ok (flag, maxack))
    else if s_cmd seg =? CMD_WASK then (set_probe (Z.lor (probe (prb k)) 2) k, Ok (flag, maxack))
    else if s_cmd seg =? CMD_WINS then (k, Ok (flag, maxack))
    else (k, Err (-3)).

(** [while !cursor.is_empty()]: every turn consumes at least the segment header. *)
Fixpoint input_loop (fuel : nat) (cursor : bytes) (k : Kcp) (flag : bool) (maxack : Z)
  : Kcp * res Z (bool * Z) :=
  match cursor with
  | [] => (k, Ok (flag, maxack))
  | _ =>
      match fuel with
      | O => (k, NoFuel)
      | S fuel =>
          match decode cursor with
          | None => (k, Err (-1))
          | Some (seg, cursor) =>
              match input_seg seg k flag maxack with
              | (k, Ok (flag, maxack)) => input_loop fuel cursor k flag maxack
              | (k, Err e) => (k, Err e)
              | (k, Panic) => (k, Panic)
              | (k, NoFuel) => (k, NoFuel)
              end
          end
      end
  end.

(** Congestion window growth when new data was acknowledged. *)
Definition grow_cwnd (ms rmt : Z) (c : Cong) : Cong :=
  let '(w, inc) :=
    if cwnd c <? ssthresh c then (u16 (cwnd c + 1), u32 (incr c + ms))
    else
      let inc := if incr c <? ms then ms else incr c in
      let inc := u32 (inc + u32 (u32 (ms * ms) / inc + ms / 16)) in
      (if u32 ((cwnd c + 1) * ms) <=? inc then u16 (cwnd c + 1) else cwnd c, inc) in
  if w >? rmt then mkCong rmt (ssthresh c) (u32 (rmt * ms)) (xmit c)
  else mkCong w (ssthresh c) inc (xmit c).

Definition input (data : bytes) (k : Kcp) : Kcp * res Z unit :=
  let prev_una := snd_una (snd_half k) in
  match input_loop (length data) data k false 0 with
  | (k, Ok (flag, maxack)) =>
      let k := if flag : bool then set_snd (parse_fastack maxack (snd_half k)) k else k in
      let k := if (snd_una (snd_half k) >? prev_una) && (cwnd (cong k) <? rmt_wnd k)
               then set_cong (grow_cwnd (mss (cfg k)) (rmt_wnd k) (cong k)) k else k in
      (k, Ok tt)
  | (k, Err e) => (k, Err e)
  | (k, Panic) => (k, Panic)
  | (k, NoFuel) => (k, NoFuel)
  end.

(** ** Clock and output *)

Definition update (now : Z) (k : Kcp) : Kcp :=
  mkKcp (cfg k) (snd_half k) (rcv_half k) (rtt k) (prb k) (cong k) (state k) (rmt_wnd k) now
        (if updated k then ts_flush k else now) true.

Definition wnd_unused (k : Kcp) : Z :=
  Z.max 0 (rcv_wnd (cfg k) - u16 (zlen (rcv_queue (rcv_half k)))).

Definition make_ctrl (k : Kcp) (cmd : Z) : Segment :=
  mkSegment (conv (cfg k)) cmd 0 (wnd_unused k) 0 0 (rcv_nxt (rcv_half k)) [] 0 200 0 0.

Definition encode_seg (seg : Segment) : bytes := encode seg.

(** The acknowledgements of the segments received since the last flush. *)
Definition ack_segs (k : Kcp) : list Segment :=
  (fun '(sn, ts) =>
     mkSegment (conv (cfg k)) CMD_ACK 0 (wnd_unused k) ts sn (rcv_nxt (rcv_half k)) [] 0 200 0 0)
  <$> acklist (rcv_half k).

Definition probe_window (rmt now : Z) (p : Probe) : Probe :=
  if rmt =? 0 then
    if probe_wait p =? 0 then mkProbe (probe p) (u32 (now + PROBE_INIT)) PROBE_INIT
    else if now >=? ts_probe p then
      let w := if probe_wait p <? PROBE_INIT then PROBE_INIT else probe_wait p in
      let w := u32 (w + w / 2) in
      let w := if w >? PROBE_LIMIT then PROBE_LIMIT else w in
      mkProbe (Z.lor (probe p) 1) (u32 (now + w)) w
    else p
  else mkProbe (probe p) 0 0.

(** The window the flush may fill. *)
Definition flush_cwnd (k : Kcp) : Z :=
  let c := Z.min (snd_wnd (cfg k)) (rmt_wnd k) in
  if nocwnd (cfg k) then c else Z.min c (cwnd (cong k)).

(** A queued segment enters the send buffer under the next number. *)
Definition stamp (k : Kcp) (sn : Z) (seg : Segment) : Segment :=
  mkSegment (conv (cfg k)) CMD_PUSH (s_frg seg) (wnd_unused k) (current k) sn (rcv_nxt (rcv_half k))
            (s_data seg) (current k) (rx_rto (rtt k)) (s_fastack seg) 0.

(** [while self.snd_nxt < self.snd_una + cwnd]: each turn takes a segment off the queue. *)
Fixpoint fill_loop (k : Kcp) (limit nxt : Z) (queue buf : list Segment) : Z * list Segment * list Segment :=
  if nxt <? limit then
    match queue with
    | [] => (nxt, queue, buf)
    | seg :: queue' => fill_loop k limit (u32 (nxt + 1)) queue' (buf ++ [stamp k nxt seg])
    end
  else (nxt, queue, buf).

(** The decision for one segment of the send buffer: whether it goes out, and its
    bookkeeping fields. *)
Inductive Resend : Type := First | Timeout | Fast | Wait.

Definition resend_case (k : Kcp) (resent : Z) (seg : Segment) : Resend :=
  if s_xmit seg =? 0 then First
  else if current k >=? s_resendts seg then Timeout
  else if (s_fastack seg >=? resent) && (s_xmit seg <=? fastresend (cfg k)) then Fast
  else Wait.

(** [seg] with the fields a transmission changes. *)
Definition resent_seg (k : Kcp) (seg : Segment) (resendts rto fastack xm : Z) : Segment :=
  mkSegment (s_conv seg) (s_cmd seg) (s_frg seg) (wnd_unused k) (current k) (s_sn seg)
            (rcv_nxt (rcv_half k)) (s_data seg) resendts rto fastack xm.

Definition resend_seg (k : Kcp) (resent rtomin : Z) (seg : Segment) : Segment :=
  let x := u32 (s_xmit seg + 1) in
  match resend_case k resent seg with
  | First =>
      let rto := rx_rto (rtt k) in
      resent_seg k seg (u32 (u32 (current k + rto) + rtomin)) rto (s_fastack seg) x
  | Timeout =>
      let rto := u32 (s_rto seg + (if negb (nodelay (cfg k)) then Z.max (rx_rto (rtt k)) (s_rto seg)
                                   else rx_rto (rtt k) / 2)) in
      resent_seg k seg (u32 (current k + rto)) rto (s_fastack seg) x
  | Fast => resent_seg k seg (u32 (current k + s_rto seg)) (s_rto seg) 0 x
  | Wait => seg
  end.

Definition is_sent (c : Resend) : bool := match c with Wait => false | _ => true end.
Definition is_timeout (c : Resend) : bool := match c with Timeout => true | _ => false end.
Definition is_fast (c : Resend) : bool := match c with Fast => true | _ => false end.

(** The acknowledgements go out first and the list is emptied. *)
Definition flush_acks (k : Kcp) : Kcp * list bytes :=
  let r := rcv_half k in
  (set_rcv (mkRcv (rcv_nxt r) (rcv_queue r) (rcv_buf r) []) k, encode_seg <$> ack_segs k).

(** Window probing and the control segments. *)
Definition flush_probe (k : Kcp) : Kcp * list bytes :=
  let k := set_prb (probe_window (rmt_wnd k) (current k) (prb k)) k in
  let p := probe (prb k) in
  let wask := if negb (Z.land p 1 =? 0) then [encode_seg (make_ctrl k CMD_WASK)] else [] in
  let wins := if negb (Z.land p 2 =? 0) then [encode_seg (make_ctrl k CMD_WINS)] else [] in
  (set_probe 0 k, wask ++ wins).

(** Queued segments enter the send buffer as far as the window allows. *)
Definition flush_fill (cw : Z) (k : Kcp) : Kcp :=
  let s := snd_half k in
  let '(nxt, queue, buf) := fill_loop k (u32 (snd_una s + cw)) (snd_nxt s) (snd_queue s) (snd_buf s) in
  set_snd (mkSnd (snd_una s) nxt queue buf) k.

(** The congestion window after a flush. *)
Definition flush_cong (k : Kcp) (cw resent timeouts : Z) (change : bool) : Cong :=
  let s := snd_half k in
  let c := cong k in
  let c := mkCong (cwnd c) (ssthresh c) (incr c) (u32 (xmit c + timeouts)) in
  let c := if change then
             let inflight := u32 (snd_nxt s - snd_una s) in
             let th := Z.max (u16 (inflight / 2)) THRESH_MIN in
             let w := u16 (th + u16 resent) in
             mkCong w th (u32 (w * mss (cfg k))) (xmit c)
           else c in
  let c := if timeouts >? 0 then mkCong 1 (Z.max (cw / 2) THRESH_MIN) (mss (cfg k)) (xmit c) else c in
  if cwnd c <? 1 then mkCong 1 (ssthresh c) (mss (cfg k)) (xmit c) else c.

(** The loop over the send buffer: which segments go out, and the flags it leaves. *)
Definition flush_resend (cw : Z) (k : Kcp) : Kcp * list bytes :=
  let s := snd_half k in
  let resent := if fastresend (cfg k) >? 0 then fastresend (cfg k) else 2 ^ 32 - 1 in
  let rtomin := if negb (nodelay (cfg k)) then Z.shiftr (rx_rto (rtt k)) 3 else 0 in
  let sent := resend_seg k resent rtomin <$> List.filter (fun x => is_sent (resend_case k resent x)) (snd_buf s) in
  let timeouts := List.filter (fun x => is_timeout (resend_case k resent x)) (snd_buf s) in
  let change := existsb (fun x => is_fast (resend_case k resent x)) (snd_buf s) in
  let c := flush_cong k cw resent (zlen timeouts) change in
  let k := set_snd (mkSnd (snd_una s) (snd_nxt s) (snd_queue s) (resend_seg k resent rtomin <$> snd_buf s)) k in
  let k := if existsb (fun x => s_xmit x >=? dead_link (cfg k)) sent then set_state (-1) k else k in
  (set_cong c k, encode <$> sent).

Definition flush (k : Kcp) : Kcp * list bytes :=
  if negb (updated k) then (k, [])
  else
    let '(k, acks) := flush_acks k in
    let '(k, ctrl) := flush_probe k in
    let cw := flush_cwnd k in
    let k := flush_fill cw k in
    let '(k, pushes) := flush_resend cw k in
    (k, acks ++ ctrl ++ pushes).

(** * The driver *)

(** [drain_kcp_recv_into]: the loop stops when [max] messages wait, so it makes at most
    [max - pending.len()] calls that push and one more. *)
Fixpoint drain_loop (fuel : nat) (k : Kcp) (pending : list bytes) (max : Z) : Kcp * res Z (list bytes) :=
  if zlen pending >=? max then (k, Ok pending)
  else
    match fuel with
    | O => (k, NoFuel)
    | S fuel =>
        match recv 65535 k with
        | (k, Ok msg) =>
            if i32 (zlen msg) <=? 0 then (k, Ok pending) else drain_loop fuel k (pending ++ [msg]) max
        | (k, Err _) => (k, Ok pending)
        | (k, Panic) => (k, Panic)
        | (k, NoFuel) => (k, NoFuel)
        end
    end.

Definition drain_kcp_recv_into (k : Kcp) (pending : list bytes) (max : Z) : Kcp * res Z (list bytes) :=
  drain_loop (Z.to_nat (max - zlen pending)) k pending max.

Definition peek_conv (payload : bytes) : option Z :=
  if zlen payload <? 4 then None else Some (le_val (take 4 payload)).

(** * Theorems: segments *)

Lemma get_le_app n z s : get_le n (le_bytes n z ++ s) = (z mod 256 ^ Z.of_nat n, s).
Proof.
  unfold get_le. rewrite take_app_length', drop_app_length' by (by rewrite length_le_bytes).
  by rewrite le_val_le_bytes_mod.
Qed.

Lemma get_le_byte b s : get_le 1 (b :: s) = (b, s).
Proof. unfold get_le. rewrite !firstn_cons, skipn_cons. cbn. rewrite take_0, drop_0. cbn. f_equal. lia. Qed.

(** What a peer sees of a segment: the fields on the wire at their width. *)
Definition wire_seg (seg : Segment) : Segment :=
  mkSegment (u32 (s_conv seg)) (s_cmd seg) (s_frg seg) (u16 (s_wnd seg)) (u32 (s_ts seg))
            (u32 (s_sn seg)) (u32 (s_una seg)) (s_data seg) 0 200 0 0.

Lemma zlen_encode seg : zlen (encode seg) = OVERHEAD + zlen (s_data seg).
Proof. unfold encode, OVERHEAD. len_solve. Qed.

Lemma decode_encode seg rest :
  zlen (s_data seg) < 2 ^ 32 -> decode (encode seg ++ rest) = Some (wire_seg seg, rest).
Proof.
  intros Hl. unfold decode. destruct (Z.ltb_spec (zlen (encode seg ++ rest)) OVERHEAD) as [H | _].
  { rewrite zlen_app, zlen_encode in H. pose proof (zlen_nonneg (s_data seg)).
    pose proof (zlen_nonneg rest). lia. }
  unfold encode. cbn [app]. rewrite <- !app_assoc. cbn [app].
  rewrite get_le_app, !get_le_byte, <- ?app_assoc. rewrite !get_le_app.
  change (256 ^ Z.of_nat 4) with (2 ^ 32). change (256 ^ Z.of_nat 2) with (2 ^ 16).
  rewrite (Z.mod_small (zlen (s_data seg))) by (pose proof (zlen_nonneg (s_data seg)); lia).
  destruct (Z.ltb_spec (zlen (s_data seg ++ rest)) (zlen (s_data seg))); [len_solve |].
  by rewrite take_app_zlen, drop_app_zlen.
Qed.

Lemma decode_shorter cursor seg cursor' :
  bytes_ok cursor -> decode cursor = Some (seg, cursor') ->
  bytes_ok cursor' /\ (length cursor' + 24 <= length cursor)%nat.
Proof.
  intros Hok. unfold decode, get_le, OVERHEAD.
  destruct (Z.ltb_spec (zlen cursor) 24); [discriminate |].
  destruct (_ <? _); [discriminate |]. intros [= <- <-].
  rewrite !drop_drop. split; [by apply Forall_drop |].
  rewrite length_drop. unfold zlen in *. lia.
Qed.

(** * Theorems: the receiving half *)

(** What a segment carries of the message stream. *)
Definition item (seg : Segment) : Z * bytes := (s_frg seg, s_data seg).

(** A segment that agrees with the numbered stream [sent]. *)
Definition agrees (sent : list (Z * bytes)) (seg : Segment) : Prop :=
  0 <= s_sn seg /\ sent !! Z.to_nat (s_sn seg) = Some (item seg).

(** Receiver invariant: what was popped and what waits in the queue is the stream up to
    [rcv_nxt], and the buffer holds segments of the stream. *)
Definition rcv_inv (sent popped : list (Z * bytes)) (r : Rcv) : Prop :=
  0 <= rcv_nxt r <= zlen sent
  /\ popped ++ (item <$> rcv_queue r) = take (Z.to_nat (rcv_nxt r)) sent
  /\ Forall (agrees sent) (rcv_buf r).

Lemma move_rcv_loop_inv sent popped wnd buf : forall nxt queue nxt' queue' buf',
  zlen sent < 2 ^ 32 -> 0 <= nxt <= zlen sent ->
  popped ++ (item <$> queue) = take (Z.to_nat nxt) sent -> Forall (agrees sent) buf ->
  move_rcv_loop wnd nxt queue buf = (nxt', queue', buf') ->
  0 <= nxt' <= zlen sent /\ popped ++ (item <$> queue') = take (Z.to_nat nxt') sent
  /\ Forall (agrees sent) buf'.
Proof.
  induction buf as [| seg buf IH]; intros nxt queue nxt' queue' buf' Hs Hn Hq Hb; cbn [move_rcv_loop].
  { by intros [= <- <- <-]. }
  destruct (Z.eqb_spec (s_sn seg) nxt) as [<- |]; cbn [andb]; [| by intros [= <- <- <-]].
  destruct (zlen queue <? wnd); [| by intros [= <- <- <-]].
  apply Forall_cons_iff in Hb as [[_ Hseg] Hb].
  assert (Hlt : s_sn seg < zlen sent) by (apply lookup_lt_Some in Hseg; unfold zlen; lia).
  unfold u32, wrap. rewrite Z.mod_small by lia. apply IH; [done | lia | | done].
  rewrite fmap_app, app_assoc, Hq. replace (Z.to_nat (s_sn seg + 1)) with (S (Z.to_nat (s_sn seg))) by lia.
  by rewrite (take_S_r _ _ _ Hseg).
Qed.

Lemma move_rcv_buf_inv sent popped wnd r :
  zlen sent < 2 ^ 32 -> rcv_inv sent popped r -> rcv_inv sent popped (move_rcv_buf wnd r).
Proof.
  intros Hs (Hn & Hq & Hb). unfold move_rcv_buf.
  destruct (move_rcv_loop wnd (rcv_nxt r) (rcv_queue r) (rcv_buf r)) as [[nxt queue] buf] eqn:E.
  by apply (move_rcv_loop_inv sent popped) in E.
Qed.

Lemma parse_data_inv sent popped wnd seg r :
  zlen sent < 2 ^ 32 -> agrees sent seg -> rcv_inv sent popped r ->
  rcv_inv sent popped (parse_data wnd seg r).
Proof.
  intros Hs Ha Hr. unfold parse_data. destruct (_ || _); [done |]. destruct (existsb _ _); [done |].
  apply move_rcv_buf_inv; [done |]. destruct Hr as (Hn & Hq & Hb).
  split; [exact Hn | split; [exact Hq | cbn]].
  apply Forall_app; split; [by apply Forall_take |].
  constructor; [done | by apply Forall_drop].
Qed.

(** ** Messages *)

(** The numbered fragments a message is cut into, [n] of them remaining. *)
Fixpoint fragments (ms : Z) (n : nat) (m : bytes) : list (Z * bytes) :=
  match n with
  | O => []
  | S n' => (Z.of_nat n', take (Z.to_nat ms) m) :: fragments ms n' (drop (Z.to_nat ms) m)
  end.

Definition message_items (ms : Z) (m : bytes) : list (Z * bytes) :=
  fragments ms (Z.to_nat (div_ceil (zlen m) ms)) m.

Definition stream_items (ms : Z) (msgs : list bytes) : list (Z * bytes) :=
  concat (message_items ms <$> msgs).

Lemma length_fragments ms n : forall m, length (fragments ms n m) = n.
Proof. induction n; intros; simpl; [done | by rewrite IHn]. Qed.

(** The messages [send] accepts. *)
Definition wf_msg (ms : Z) (m : bytes) : Prop := m <> [] /\ div_ceil (zlen m) ms < 256.

Lemma div_ceil_spec a b : 0 < b -> 0 <= a -> a <= div_ceil a b * b < a + b.
Proof.
  intros Hb Ha. unfold div_ceil. pose proof (Z.div_mod a b). pose proof (Z.mod_pos_bound a b Hb).
  destruct (Z.gtb_spec (a mod b) 0); nia.
Qed.

Lemma message_items_S ms m :
  0 < ms -> wf_msg ms m ->
  exists n, (n < 255)%nat /\ message_items ms m = fragments ms (S n) m /\ zlen m <= Z.of_nat (S n) * ms.
Proof.
  intros Hms [Hne Hc]. pose proof (div_ceil_spec (zlen m) ms Hms (zlen_nonneg m)) as Hd.
  assert (Hpos : 0 < zlen m) by (destruct m; [done | len_solve]).
  assert (Hge : 1 <= div_ceil (zlen m) ms) by nia.
  exists (Z.to_nat (div_ceil (zlen m) ms - 1)). unfold message_items.
  replace (Z.to_nat (div_ceil (zlen m) ms)) with (S (Z.to_nat (div_ceil (zlen m) ms - 1))) by lia.
  split_and!; [lia | done | nia].
Qed.

(** ** Reading a message out of the queue *)

Lemma recv_loop_fragments cap ms n : forall m queue rest acc msg queue',
  0 < ms -> zlen m <= Z.of_nat (S n) * ms ->
  item <$> queue = fragments ms (S n) m ++ rest ->
  recv_loop cap queue acc = (Ok msg, queue') -> msg = acc ++ m /\ item <$> queue' = rest.
Proof.
  induction n as [| n IH]; intros m queue rest acc msg queue' Hms Hl Hq; destruct queue as [| seg queue];
    try discriminate Hq; cbn [fragments app recv_loop] in *; rewrite fmap_cons in Hq;
    injection Hq as Hf Hd Hq; rewrite Hf.
  - cbn. destruct (_ <=? cap); [| discriminate]. intros [= <- <-]. split; [| done].
    f_equal. rewrite Hd. apply take_ge. unfold zlen in Hl. lia.
  - destruct (_ <=? cap); [| discriminate].
    destruct (Z.eqb_spec (Z.of_nat (S n)) 0); [lia |]. intros E.
    apply (IH (drop (Z.to_nat ms) m) _ rest) in E as [-> Hq']; [| done | | done].
    + split; [| done]. by rewrite Hd, <- app_assoc, take_drop.
    + unfold zlen in *. rewrite length_drop. lia.
Qed.

(** A nonempty queue in front of the next message, seen through [peeksize]: the whole
    message is there. *)
Lemma peeksize_complete ms n m queue tail :
  0 < ms -> (n < 255)%nat -> 0 <= peeksize queue -> queue <> [] ->
  (item <$> queue) `prefix_of` (fragments ms (S n) m ++ tail) ->
  exists rest, item <$> queue = fragments ms (S n) m ++ rest.
Proof.
  intros Hms Hn Hp Hne Hpre.
  assert (Hlen : (S n <= length queue)%nat).
  { destruct queue as [| seg queue]; [done |]. destruct Hpre as [z Hz].
    rewrite fmap_cons in Hz. cbn [fragments app] in Hz. injection Hz as Hf _ _.
    unfold peeksize in Hp. rewrite <- Hf in Hp. destruct (Z.eqb_spec (Z.of_nat n) 0); [simpl; lia |].
    destruct (Z.ltb_spec (zlen (seg :: queue)) (u8 (Z.of_nat n + 1))); [lia |].
    unfold u8, wrap in *. rewrite Z.mod_small in * by lia. unfold zlen in *. lia. }
  destruct Hpre as [z Hz]. exists (drop (S n) (item <$> queue)).
  rewrite <- (take_drop (S n) (item <$> queue)) at 1. f_equal.
  rewrite <- (take_app_le (item <$> queue) z), <- Hz by (by rewrite length_fmap).
  by rewrite take_app_length' by (by rewrite length_fragments).
Qed.

Lemma stream_items_app ms l k : stream_items ms (l ++ k) = stream_items ms l ++ stream_items ms k.
Proof. unfold stream_items. by rewrite fmap_app, concat_app. Qed.

Lemma stream_items_cons ms m k : stream_items ms (m :: k) = message_items ms m ++ stream_items ms k.
Proof. done. Qed.

(** What waits in the queue continues what was delivered. *)
Lemma rcv_inv_prefix ms got more r :
  rcv_inv (stream_items ms (got ++ more)) (stream_items ms got) r ->
  (item <$> rcv_queue r) `prefix_of` stream_items ms more.
Proof.
  intros (_ & Hq & _). rewrite stream_items_app in Hq.
  apply (prefix_app_inv (stream_items ms got)). rewrite Hq. apply prefix_take.
Qed.

Lemma recv_message ms got more cap k k' msg :
  0 < ms -> Forall (wf_msg ms) more -> zlen (stream_items ms (got ++ more)) < 2 ^ 32 ->
  rcv_inv (stream_items ms (got ++ more)) (stream_items ms got) (rcv_half k) ->
  recv cap k = (k', Ok msg) ->
  exists more', more = msg :: more'
    /\ rcv_inv (stream_items ms (got ++ more)) (stream_items ms (got ++ [msg])) (rcv_half k').
Proof.
  intros Hms Hwf Hlt Hinv Hr. pose proof (rcv_inv_prefix _ _ _ _ Hinv) as Hpre.
  destruct Hinv as (Hn & Hq & Hb). unfold recv in Hr.
  destruct (rcv_queue (rcv_half k)) as [| seg queue] eqn:Eq; [discriminate |].
  rewrite <- Eq in *. destruct (Z.ltb_spec (peeksize (rcv_queue (rcv_half k))) 0) as [| Hp]; [discriminate |].
  destruct (_ >? i32 cap); [discriminate |].
  destruct (recv_loop cap (rcv_queue (rcv_half k)) []) as [[msg' | | |] queue'] eqn:El; try discriminate.
  destruct more as [| m more].
  { apply prefix_nil_inv in Hpre. rewrite Eq in Hpre. discriminate. }
  apply Forall_cons_iff in Hwf as [Hm Hwf].
  destruct (message_items_S ms m Hms Hm) as (n & Hn' & Hmi & Hml).
  rewrite stream_items_cons, Hmi in Hpre.
  destruct (peeksize_complete ms n m (rcv_queue (rcv_half k)) (stream_items ms more)) as [rest Hrest];
    try done; [by rewrite Eq |].
  apply (recv_loop_fragments cap ms n m _ rest) in El as [-> Hq']; [| done..].
  injection Hr as Hk <-. exists more. split; [done |].
  assert (Hinv' : rcv_inv (stream_items ms (got ++ m :: more)) (stream_items ms (got ++ [m]))
            (mkRcv (rcv_nxt (rcv_half k)) queue' (rcv_buf (rcv_half k)) (acklist (rcv_half k)))).
  { split; [exact Hn | split; [| exact Hb]]. cbn.
    rewrite Hq', stream_items_app, <- app_assoc, <- Hq, Hrest. f_equal. f_equal.
    rewrite stream_items_cons. unfold stream_items at 1. simpl. by rewrite app_nil_r, Hmi. }
  apply (move_rcv_buf_inv _ _ (rcv_wnd (cfg k))) in Hinv'; [| done].
  rewrite <- Hk. by destruct (_ && _).
Qed.

(** Any call of [recv] leaves the sending half alone, and a call that returns a code
    leaves the receiving half as it was. *)
Lemma recv_frame cap k k' res :
  recv cap k = (k', res) ->
  snd_half k' = snd_half k /\ cfg k' = cfg k /\ (forall e, res = Err e -> k' = k).
Proof.
  unfold recv. destruct (rcv_queue _) as [| s q] eqn:E; [by intros [= <- <-] |].
  destruct (_ <? 0); [by intros [= <- <-] |]. destruct (_ >? _); [by intros [= <- <-] |].
  destruct (recv_loop _ _ _) as [[msg | e | |] queue] eqn:El.
  - intros [= <- <-]. by destruct (_ && _).
  - exfalso. revert El. generalize (@nil Z). generalize (s :: q). clear.
    intros l. induction l as [| x l IH]; intros acc; simpl; [done |].
    destruct (_ <=? _); [| done]. destruct (_ =? _); [done | apply IH].
  - by intros [= <- <-].
  - by intros [= <- <-].
Qed.

(** * Theorems: the sending half *)

Lemma send_loop_items cv ms n : forall buf off,
  0 < ms -> 0 <= off -> (n <= 256)%nat ->
  (Z.of_nat n - 1) * ms <= zlen buf - off -> off <= zlen buf ->
  exists segs, send_loop cv ms n buf off = Ok segs
    /\ item <$> segs = fragments ms n (drop (Z.to_nat off) buf).
Proof.
  induction n as [| n IH]; intros buf off Hms Ho Hn Hl Hb; cbn [send_loop fragments]; [by exists [] |].
  rewrite slice_in_range by lia. cbn [mbind res_bind].
  set (sz := Z.min (zlen buf - off) ms).
  assert (Hsz : 0 <= sz) by (unfold sz; lia).
  destruct (IH buf (off + sz)) as (segs & -> & Hs); [done | lia | lia | unfold sz in *; lia | unfold sz; lia |].
  eexists. split; [reflexivity |]. rewrite fmap_cons, Hs.
  f_equal.
  - unfold item. cbn. unfold u8, wrap. rewrite Z.mod_small by lia. f_equal.
    replace (off + sz - off) with sz by lia. unfold sz.
    destruct (Z.le_gt_cases (zlen buf - off) ms); [| by rewrite Z.min_r by lia].
    rewrite Z.min_l, !take_ge; [done | ..]; rewrite ?length_drop; unfold zlen in *; lia.
  - rewrite drop_drop. destruct (Z.le_gt_cases (zlen buf - off) ms).
    + rewrite !drop_ge; [done | ..]; unfold sz, zlen in *; lia.
    + unfold sz. rewrite Z.min_r by lia. f_equal. f_equal. lia.
Qed.

Lemma send_ok m k k' :
  mss (cfg k) = 1376 -> send m k = (k', Ok tt) ->
  wf_msg 1376 m /\ exists segs, item <$> segs = message_items 1376 m
    /\ k' = set_snd (mkSnd (snd_una (snd_half k)) (snd_nxt (snd_half k))
                     (snd_queue (snd_half k) ++ segs) (snd_buf (snd_half k))) k.
Proof.
  intros Hm. unfold send. rewrite Hm. case_bool_decide as He; [discriminate |].
  destruct (Z.geb_spec (div_ceil (zlen m) 1376) 256) as [| Hc]; [discriminate |].
  pose proof (div_ceil_spec (zlen m) 1376 ltac:(lia) (zlen_nonneg m)) as Hd.
  pose proof (zlen_nonneg m).
  destruct (send_loop_items (conv (cfg k)) 1376 (Z.to_nat (div_ceil (zlen m) 1376)) m 0)
    as (segs & -> & Hs); [lia | lia | lia | nia | lia |].
  intros [= <-]. split; [done |]. exists segs. by rewrite Hs, drop_0.
Qed.

Lemma send_never_stuck m k : mss (cfg k) = 1376 -> snd (send m k) <> Panic /\ snd (send m k) <> NoFuel.
Proof.
  intros Hm. unfold send. rewrite Hm. case_bool_decide; [done |].
  destruct (Z.geb_spec (div_ceil (zlen m) 1376) 256) as [| Hc]; [done |].
  pose proof (div_ceil_spec (zlen m) 1376 ltac:(lia) (zlen_nonneg m)) as Hd.
  pose proof (zlen_nonneg m).
  destruct (send_loop_items (conv (cfg k)) 1376 (Z.to_nat (div_ceil (zlen m) 1376)) m 0)
    as (segs & -> & Hs); [lia | lia | lia | nia | lia |]. done.
Qed.

(** Sender invariant: the queue is the part of the stream not numbered yet, and the send
    buffer holds segments of the stream. *)
Definition snd_inv (sent : list (Z * bytes)) (s : Snd) : Prop :=
  0 <= snd_nxt s <= zlen sent /\ item <$> snd_queue s = drop (Z.to_nat (snd_nxt s)) sent
  /\ Forall (agrees sent) (snd_buf s).

Lemma agrees_app sent more seg : agrees sent seg -> agrees (sent ++ more) seg.
Proof. intros [? H]. split; [done |]. by apply lookup_app_l_Some. Qed.

Lemma snd_inv_send sent items segs s :
  snd_inv sent s -> item <$> segs = items ->
  snd_inv (sent ++ items) (mkSnd (snd_una s) (snd_nxt s) (snd_queue s ++ segs) (snd_buf s)).
Proof.
  intros (Hn & Hq & Hb) Hi. split; [cbn; len_solve |]. split; cbn.
  - rewrite fmap_app, Hq, Hi, drop_app_le; [done |]. unfold zlen in Hn. lia.
  - eapply Forall_impl; [| exact Hb]. intros. by apply agrees_app.
Qed.

Lemma rcv_inv_app sent more popped r : rcv_inv sent popped r -> rcv_inv (sent ++ more) popped r.
Proof.
  intros (Hn & Hq & Hb). split; [len_solve |]. split.
  - rewrite Hq, take_app_le; [done |]. unfold zlen in Hn. lia.
  - eapply Forall_impl; [| exact Hb]. intros. by apply agrees_app.
Qed.

(** *** Acknowledgements only remove segments or touch their counters *)

Lemma Forall_filter_list {A} (P : A -> Prop) f (l : list A) : Forall P l -> Forall P (List.filter f l).
Proof. induction 1; simpl; [constructor |]. destruct (f x); [by constructor | done]. Qed.

Lemma snd_inv_parse_una sent una s : snd_inv sent s -> snd_inv sent (parse_una una s).
Proof. intros (Hn & Hq & Hb). split; [done | split; [done | by apply Forall_filter_list]]. Qed.

Lemma snd_inv_shrink sent s : snd_inv sent s -> snd_inv sent (shrink_buf s).
Proof. done. Qed.

Lemma snd_inv_parse_ack sent sn s : snd_inv sent s -> snd_inv sent (parse_ack sn s).
Proof.
  intros H. unfold parse_ack. destruct (_ || _); [done |]. destruct H as (Hn & Hq & Hb).
  split; [done | split; [done | by apply Forall_filter_list]].
Qed.

Lemma snd_inv_parse_fastack sent sn s : snd_inv sent s -> snd_inv sent (parse_fastack sn s).
Proof.
  intros H. unfold parse_fastack. destruct (_ || _); [done |]. destruct H as (Hn & Hq & Hb).
  split; [done | split; [done |]]. cbn. clear Hn Hq. induction Hb as [| x l Hx Hl IH]; simpl; [constructor |].
  destruct (_ <? _); by constructor.
Qed.

(** ** Input *)

Lemma input_seg_cfg seg k flag maxack : cfg (input_seg seg k flag maxack).1 = cfg k.
Proof.
  unfold input_seg. destruct (negb _); [done |].
  destruct (s_cmd seg =? CMD_ACK); [by destruct (_ || _) |].
  destruct (s_cmd seg =? CMD_PUSH); [by destruct (_ <? _) |].
  destruct (s_cmd seg =? CMD_WASK); [done |]. by destruct (s_cmd seg =? CMD_WINS).
Qed.

Lemma input_loop_cfg fuel : forall cursor k flag maxack,
  cfg (input_loop fuel cursor k flag maxack).1 = cfg k.
Proof.
  induction fuel as [| fuel IH]; intros cursor k flag maxack; destruct cursor as [| b cursor];
    cbn [input_loop]; try done.
  destruct (decode _) as [[seg cursor'] |]; [| done].
  pose proof (input_seg_cfg seg k flag maxack) as Hc.
  destruct (input_seg seg k flag maxack) as [k1 [[f m] | | |]]; try done. rewrite IH. done.
Qed.

Lemma input_cfg data k : cfg (input data k).1 = cfg k.
Proof.
  unfold input. pose proof (input_loop_cfg (length data) data k false 0) as Hc.
  destruct (input_loop _ _ _ _ _) as [k1 [[f m] | | |]]; try done.
  destruct f; by destruct (_ && _).
Qed.

Lemma input_seg_snd sent seg k flag maxack k' r :
  snd_inv sent (snd_half k) -> input_seg seg k flag maxack = (k', r) ->
  snd_inv sent (snd_half k') /\ cfg k' = cfg k.
Proof.
  intros H. unfold input_seg. destruct (negb _); [by intros [= <- <-] |].
  pose proof (snd_inv_parse_una sent (s_una seg) _ H) as Hu.
  destruct (s_cmd seg =? CMD_ACK).
  { pose proof (snd_inv_parse_ack sent (s_sn seg) _ (snd_inv_shrink _ _ Hu)) as Ha.
    destruct (_ || _); by intros [= <- <-]. }
  destruct (s_cmd seg =? CMD_PUSH); [destruct (_ <? _); by intros [= <- <-] |].
  destruct (s_cmd seg =? CMD_WASK); [by intros [= <- <-] |].
  destruct (s_cmd seg =? CMD_WINS); by intros [= <- <-].
Qed.

Lemma input_loop_snd sent fuel : forall cursor k flag maxack k' r,
  snd_inv sent (snd_half k) -> input_loop fuel cursor k flag maxack = (k', r) ->
  snd_inv sent (snd_half k') /\ cfg k' = cfg k.
Proof.
  induction fuel as [| fuel IH]; intros cursor k flag maxack k' r H; destruct cursor as [| b cursor];
    cbn [input_loop]; try (by intros [= <- <-]).
  destruct (decode _) as [[seg cursor'] |]; [| by intros [= <- <-]].
  destruct (input_seg seg k flag maxack) as [k1 r1] eqn:E.
  apply (input_seg_snd sent) in E as [H1 Hc]; [| done].
  destruct r1 as [[f m] | | |]; intros E; try (by injection E as <- <-).
  apply IH in E as [? ->]; done.
Qed.

Lemma input_snd sent data k k' r :
  snd_inv sent (snd_half k) -> input data k = (k', r) -> snd_inv sent (snd_half k') /\ cfg k' = cfg k.
Proof.
  intros H. unfold input. destruct (input_loop _ _ _ _ _) as [k1 r1] eqn:E.
  apply (input_loop_snd sent) in E as [H1 Hc]; [| done].
  destruct r1 as [[f m] | | |]; intros [= <- <-]; try done.
  destruct f; destruct (_ && _); split; try done; by apply snd_inv_parse_fastack.
Qed.

Lemma input_seg_rcv sent popped seg k flag maxack k' r :
  zlen sent < 2 ^ 32 -> (s_cmd seg = CMD_PUSH -> agrees sent seg) ->
  rcv_inv sent popped (rcv_half k) -> input_seg seg k flag maxack = (k', r) ->
  rcv_inv sent popped (rcv_half k').
Proof.
  intros Hs Ha H. unfold input_seg. destruct (negb _); [by intros [= <- <-] |].
  destruct (s_cmd seg =? CMD_ACK); [destruct (_ || _); by intros [= <- <-] |].
  destruct (Z.eqb_spec (s_cmd seg) CMD_PUSH) as [Hp |].
  { destruct (s_sn seg <? _); [| by intros [= <- <-]]. intros [= <- <-]. cbn.
    destruct (s_sn seg >=? _); [apply parse_data_inv; auto |]; exact H. }
  destruct (s_cmd seg =? CMD_WASK); [by intros [= <- <-] |].
  destruct (s_cmd seg =? CMD_WINS); by intros [= <- <-].
Qed.

(** A datagram of one segment, as [flush] makes them. *)
Lemma input_rcv sent popped seg k k' r :
  zlen sent < 2 ^ 32 -> zlen (s_data seg) < 2 ^ 32 ->
  (s_cmd seg = CMD_PUSH -> agrees sent (wire_seg seg)) ->
  rcv_inv sent popped (rcv_half k) -> input (encode seg) k = (k', r) ->
  rcv_inv sent popped (rcv_half k').
Proof.
  intros Hs Hd Ha H. unfold input.
  assert (Hne : exists b l, encode seg = b :: l).
  { pose proof (zlen_encode seg) as Hl. pose proof (zlen_nonneg (s_data seg)). unfold OVERHEAD in Hl.
    destruct (encode seg); [unfold zlen in Hl; simpl in Hl; unfold zlen in *; lia | eauto]. }
  pose proof (decode_encode seg [] Hd) as Hde. rewrite app_nil_r in Hde.
  destruct Hne as (b & l & El). rewrite El in *. cbn [length input_loop]. rewrite Hde.
  destruct (input_seg (wire_seg seg) k false 0) as [k1 r1] eqn:E.
  apply (input_seg_rcv sent popped) in E; [| done | done | done].
  destruct r1 as [[f m] | | |]; try (by intros [= <- <-]).
  assert (Hnil : forall fuel, input_loop fuel [] k1 f m = (k1, Ok (f, m))) by (by intros []).
  rewrite Hnil. intros [= <- <-]. destruct f; by destruct (_ && _).
Qed.

(** ** Output *)

(** What is on the network: encodings of segments, the data ones in agreement with the
    stream. *)
Definition on_wire (sent : list (Z * bytes)) (d : bytes) : Prop :=
  exists seg, d = encode seg /\ zlen (s_data seg) < 2 ^ 32
    /\ (s_cmd seg = CMD_PUSH -> agrees sent (wire_seg seg)).

Lemma on_wire_app sent more d : on_wire sent d -> on_wire (sent ++ more) d.
Proof. intros (seg & -> & Hd & Ha). exists seg. split_and!; auto using agrees_app. Qed.

Lemma fill_loop_inv sent k limit queue : forall nxt buf nxt' queue' buf',
  zlen sent < 2 ^ 32 -> 0 <= nxt <= zlen sent -> item <$> queue = drop (Z.to_nat nxt) sent ->
  Forall (agrees sent) buf -> fill_loop k limit nxt queue buf = (nxt', queue', buf') ->
  0 <= nxt' <= zlen sent /\ item <$> queue' = drop (Z.to_nat nxt') sent /\ Forall (agrees sent) buf'.
Proof.
  induction queue as [| seg queue IH]; intros nxt buf nxt' queue' buf' Hs Hn Hq Hb; cbn [fill_loop];
    (destruct (nxt <? limit); [| by intros [= <- <- <-]]); [by intros [= <- <- <-] |].
  rewrite fmap_cons in Hq.
  assert (Hsn : sent !! Z.to_nat nxt = Some (item seg)).
  { rewrite <- (Nat.add_0_r (Z.to_nat nxt)), <- lookup_drop, <- Hq. done. }
  assert (Hlt : nxt < zlen sent) by (apply lookup_lt_Some in Hsn; unfold zlen; lia).
  unfold u32, wrap. rewrite Z.mod_small by lia. apply IH; [done | lia | |].
  - replace (Z.to_nat (nxt + 1)) with (Z.to_nat nxt + 1)%nat by lia. by rewrite <- drop_drop, <- Hq.
  - apply Forall_app. split; [done |]. constructor; [| constructor]. split; [cbn; lia | exact Hsn].
Qed.

Lemma resend_seg_agrees sent k resent rtomin seg :
  agrees sent seg -> agrees sent (resend_seg k resent rtomin seg).
Proof. intros H. unfold resend_seg. by destruct (resend_case _ _ _). Qed.

Lemma agrees_wire sent seg : zlen sent < 2 ^ 32 -> agrees sent seg -> agrees sent (wire_seg seg).
Proof.
  intros Hs [Hn H]. assert (Hlt : s_sn seg < zlen sent) by (apply lookup_lt_Some in H; unfold zlen; lia).
  unfold agrees, wire_seg. cbn. unfold u32, wrap. by rewrite Z.mod_small by lia.
Qed.

(** The data of every item fits the length field. *)
Definition items_fit (sent : list (Z * bytes)) : Prop := Forall (fun it => zlen it.2 < 2 ^ 32) sent.

Lemma agrees_fits sent seg : items_fit sent -> agrees sent seg -> zlen (s_data seg) < 2 ^ 32.
Proof. intros Hf [_ H]. by apply (Forall_lookup_1 _ _ _ _ Hf) in H. Qed.

(** Control segments carry no data of the stream. *)
Lemma ctrl_on_wire sent seg : s_cmd seg <> CMD_PUSH -> s_data seg = [] -> on_wire sent (encode seg).
Proof. intros Hc Hd. exists seg. rewrite Hd. split_and!; [done | done |]. by intros. Qed.

Lemma push_on_wire sent seg :
  zlen sent < 2 ^ 32 -> items_fit sent -> agrees sent seg -> on_wire sent (encode seg).
Proof.
  intros Hs Hf Ha. exists seg. split_and!; [done | by eapply agrees_fits |].
  intros _. by apply agrees_wire.
Qed.

Lemma flush_acks_wire sent k : Forall (on_wire sent) (flush_acks k).2.
Proof.
  cbn. unfold ack_segs. induction (acklist (rcv_half k)) as [| [sn ts] l IH]; [constructor |].
  rewrite !fmap_cons. constructor; [by apply ctrl_on_wire | exact IH].
Qed.

Lemma flush_probe_wire sent k : Forall (on_wire sent) (flush_probe k).2.
Proof.
  unfold flush_probe. cbn [snd]. apply Forall_app.
  split; destruct (negb _); repeat constructor; by apply ctrl_on_wire.
Qed.

Lemma flush_fill_inv sent cw k :
  zlen sent < 2 ^ 32 -> snd_inv sent (snd_half k) ->
  snd_inv sent (snd_half (flush_fill cw k)) /\ cfg (flush_fill cw k) = cfg k.
Proof.
  intros Hs (Hn & Hq & Hb). unfold flush_fill. destruct (fill_loop _ _ _ _ _) as [[nxt queue] buf] eqn:E.
  by apply (fill_loop_inv sent) in E.
Qed.

Lemma flush_resend_inv sent cw k k' out :
  zlen sent < 2 ^ 32 -> items_fit sent -> snd_inv sent (snd_half k) -> flush_resend cw k = (k', out) ->
  snd_inv sent (snd_half k') /\ cfg k' = cfg k /\ Forall (on_wire sent) out.
Proof.
  intros Hs Hf (Hn & Hq & Hb). unfold flush_resend. cbv zeta. intros [= <- <-]. split_and!.
  - assert (Hb' : forall a b, Forall (agrees sent) (resend_seg k a b <$> snd_buf (snd_half k))).
    { intros a b. apply Forall_fmap. eapply Forall_impl; [| exact Hb]. intros. by apply resend_seg_agrees. }
    cbn [set_cong snd_half]. destruct (existsb _ _); (split; [exact Hn | split; [exact Hq | apply Hb']]).
  - cbn [set_cong cfg]. by destruct (existsb _ _).
  - rewrite Forall_fmap. apply Forall_fmap, Forall_filter_list.
    eapply Forall_impl; [| exact Hb]. intros x Hx. cbn. by apply push_on_wire, resend_seg_agrees.
Qed.

Lemma flush_inv sent k k' out :
  zlen sent < 2 ^ 32 -> items_fit sent -> snd_inv sent (snd_half k) -> flush k = (k', out) ->
  snd_inv sent (snd_half k') /\ cfg k' = cfg k /\ Forall (on_wire sent) out.
Proof.
  intros Hs Hf H. unfold flush. destruct (negb (updated k)).
  { intros [= <- <-]. split; [exact H | split; [done | constructor]]. }
  destruct (flush_acks k) as [k1 acks] eqn:E1. destruct (flush_probe k1) as [k2 ctrl] eqn:E2.
  destruct (flush_resend _ _) as [k4 pushes] eqn:E4. intros [= <- <-].
  pose proof (flush_acks_wire sent k) as W1. pose proof (flush_probe_wire sent k1) as W2.
  rewrite E1 in W1. rewrite E2 in W2.
  assert (H2 : snd_inv sent (snd_half k2) /\ cfg k2 = cfg k)
    by (injection E1 as <- _; injection E2 as <- _; done).
  destruct H2 as [H2 C2].
  destruct (flush_fill_inv sent (flush_cwnd k2) k2 Hs H2) as [H3 C3].
  apply (flush_resend_inv sent) in E4 as (H4 & C4 & W4); [| done..].
  split_and!; [done | congruence |]. rewrite !Forall_app. auto.
Qed.

Lemma flush_rcv k k' out :
  flush k = (k', out) ->
  rcv_nxt (rcv_half k') = rcv_nxt (rcv_half k) /\ rcv_queue (rcv_half k') = rcv_queue (rcv_half k)
  /\ rcv_buf (rcv_half k') = rcv_buf (rcv_half k) /\ cfg k' = cfg k.
Proof.
  unfold flush. destruct (negb (updated k)); [by intros [= <- <-] |].
  destruct (flush_acks k) as [k1 acks] eqn:E1. destruct (flush_probe k1) as [k2 ctrl] eqn:E2.
  destruct (flush_resend _ _) as [k4 pushes] eqn:E4. intros [= <- <-].
  assert (H3 : forall cw, rcv_half (flush_fill cw k2) = rcv_half k2 /\ cfg (flush_fill cw k2) = cfg k2).
  { intros cw. unfold flush_fill. by destruct (fill_loop _ _ _ _ _) as [[??]?]. }
  assert (H4 : rcv_half k4 = rcv_half k2 /\ cfg k4 = cfg k2).
  { unfold flush_resend in E4. cbv zeta in E4. injection E4 as <- _. cbn [set_cong rcv_half cfg].
    destruct (existsb _ _); apply H3. }
  destruct H4 as [-> ->]. injection E1 as <- _. injection E2 as <- _. done.
Qed.

Lemma send_rcv m k : rcv_half (send m k).1 = rcv_half k /\ cfg (send m k).1 = cfg k.
Proof.
  unfold send. case_bool_decide; [done |]. destruct (_ >=? _); [done |].
  by destruct (send_loop _ _ _ _ _).
Qed.

(** * A sender, a receiver and a network *)

(** The network keeps every datagram the sender emitted: it may lose, repeat and reorder
    them.  [accepted] are the messages [send] took, [received] those [recv] returned. *)
Record Sys : Type := mkSys {
  sender : Kcp;
  receiver : Kcp;
  net : list bytes;
  accepted : list bytes;
  received : list bytes;
}.

(** The sides tick, take messages of their applications and datagrams in any order.  The
    sender may be given any bytes at all (its peer's acknowledgements, forged ones too);
    the receiver gets what the sender emitted. *)
Inductive sys_step : Sys -> Sys -> Prop :=
| step_send s r n a d m s' :
    send m s = (s', Ok tt) -> sys_step (mkSys s r n a d) (mkSys s' r n (a ++ [m]) d)
| step_sender_tick s r n a d now s' out :
    flush (update now s) = (s', out) -> sys_step (mkSys s r n a d) (mkSys s' r (n ++ out) a d)
| step_sender_input s r n a d data s' e :
    input data s = (s', e) -> sys_step (mkSys s r n a d) (mkSys s' r n a d)
| step_sender_recv s r n a d cap s' e :
    recv cap s = (s', e) -> sys_step (mkSys s r n a d) (mkSys s' r n a d)
| step_receiver_input s r n a d data r' e :
    data ∈ n -> input data r = (r', e) -> sys_step (mkSys s r n a d) (mkSys s r' n a d)
| step_receiver_tick s r n a d now r' out :
    flush (update now r) = (r', out) -> sys_step (mkSys s r n a d) (mkSys s r' n a d)
| step_receiver_send s r n a d m r' e :
    send m r = (r', e) -> sys_step (mkSys s r n a d) (mkSys s r' n a d)
| step_recv s r n a d cap r' msg :
    recv cap r = (r', Ok msg) -> sys_step (mkSys s r n a d) (mkSys s r' n a (d ++ [msg]))
| step_recv_code s r n a d cap r' e :
    recv cap r = (r', Err e) -> sys_step (mkSys s r n a d) (mkSys s r' n a d).

(** An engine as [mkcp_connect] and [start_server_session] set it up. *)
Definition session (conv : Z) (nd : bool) (sw rw : Z) : Kcp :=
  set_wndsize sw rw (set_nodelay nd (Kcp_new conv)).

Definition sys_init (conv : Z) (nd nd' : bool) (sw rw sw' rw' : Z) : Sys :=
  mkSys (session conv nd sw rw) (session conv nd' sw' rw') [] [] [].

(** The invariant: the stream is the fragments of the accepted messages. *)
Definition sys_inv (σ : Sys) : Prop :=
  let sent := stream_items 1376 (accepted σ) in
  mss (cfg (sender σ)) = 1376 /\ Forall (wf_msg 1376) (accepted σ)
  /\ (zlen sent < 2 ^ 32 ->
      snd_inv sent (snd_half (sender σ)) /\ Forall (on_wire sent) (net σ)
      /\ exists more, accepted σ = received σ ++ more
           /\ rcv_inv sent (stream_items 1376 (received σ)) (rcv_half (receiver σ))).

Lemma items_fit_stream ms msgs : 0 < ms < 2 ^ 32 -> items_fit (stream_items ms msgs).
Proof.
  intros Hms. unfold items_fit, stream_items, message_items. induction msgs as [| m msgs IH]; [constructor |].
  rewrite fmap_cons. cbn [concat]. apply Forall_app. split; [| exact IH].
  generalize (Z.to_nat (div_ceil (zlen m) ms)). intros n. revert m.
  induction n as [| n IHn]; intros m; cbn [fragments]; constructor; [| apply IHn].
  unfold zlen. cbn. rewrite length_take. lia.
Qed.

Lemma rcv_inv_ext sent popped r r' :
  rcv_nxt r' = rcv_nxt r -> rcv_queue r' = rcv_queue r -> rcv_buf r' = rcv_buf r ->
  rcv_inv sent popped r -> rcv_inv sent popped r'.
Proof. unfold rcv_inv. by intros -> -> ->. Qed.

Lemma sys_init_inv conv nd nd' sw rw sw' rw' : sys_inv (sys_init conv nd nd' sw rw sw' rw').
Proof.
  split; [done |]. split; [constructor |]. intros _. cbn. split_and!.
  - split; [cbn; len_solve | done].
  - constructor.
  - exists []. split; [done |]. split; [cbn; len_solve | done].
Qed.

(** A step of the sender that leaves the accepted messages alone. *)
Lemma sys_inv_sender s r n a d s' out :
  cfg s' = cfg s ->
  (let sent := stream_items 1376 a in
   zlen sent < 2 ^ 32 -> snd_inv sent (snd_half s) ->
   snd_inv sent (snd_half s') /\ Forall (on_wire sent) out) ->
  sys_inv (mkSys s r n a d) -> sys_inv (mkSys s' r (n ++ out) a d).
Proof.
  intros Hc Hs (Hm & Hw & H). unfold sys_inv. cbn [sender receiver net accepted received] in *.
  rewrite Hc. split; [done |]. split; [done |]. intros Hlt. destruct (H Hlt) as (H1 & H2 & H3).
  destruct (Hs Hlt H1) as [H4 H5]. split; [done |]. split; [by apply Forall_app | done].
Qed.

(** A step of the receiver that returns no message. *)
Lemma sys_inv_receiver s r n a d r' :
  (let sent := stream_items 1376 a in forall popped,
   zlen sent < 2 ^ 32 -> Forall (on_wire sent) n -> rcv_inv sent popped (rcv_half r) ->
   rcv_inv sent popped (rcv_half r')) ->
  sys_inv (mkSys s r n a d) -> sys_inv (mkSys s r' n a d).
Proof.
  intros Hr (Hm & Hw & H). unfold sys_inv. cbn [sender receiver net accepted received] in *.
  split; [done |]. split; [done |]. intros Hlt. destruct (H Hlt) as (H1 & H2 & more & H3 & H4).
  split; [done |]. split; [done |]. exists more. split; [done |]. by apply Hr.
Qed.

Lemma sys_inv_send s r n a d m s' :
  send m s = (s', Ok tt) -> sys_inv (mkSys s r n a d) -> sys_inv (mkSys s' r n (a ++ [m]) d).
Proof.
  intros E (Hm & Hw & H). unfold sys_inv. cbn [sender receiver net accepted received] in *.
  apply send_ok in E as (Hwf & segs & Hi & ->); [| done]. split; [done |]. split; [by apply Forall_app; auto |].
  rewrite stream_items_app. intros Hs. destruct H as (H1 & H2 & more & -> & H3); [len_solve |].
  assert (Hone : stream_items 1376 [m] = message_items 1376 m)
    by (unfold stream_items; simpl; by rewrite app_nil_r).
  rewrite Hone. split_and!.
  - by apply snd_inv_send.
  - eapply Forall_impl; [| exact H2]. intros. by apply on_wire_app.
  - exists (more ++ [m]). split; [by rewrite app_assoc | by apply rcv_inv_app].
Qed.

Lemma sys_inv_recv s r n a d cap r' msg :
  recv cap r = (r', Ok msg) -> sys_inv (mkSys s r n a d) -> sys_inv (mkSys s r' n a (d ++ [msg])).
Proof.
  intros E (Hm & Hw & H). unfold sys_inv. cbn [sender receiver net accepted received] in *.
  split; [done |]. split; [done |]. intros Hlt. destruct (H Hlt) as (H1 & H2 & more & -> & H3).
  apply Forall_app in Hw as [_ Hw].
  apply (recv_message 1376 d more) in E as (more' & -> & H4); [| lia | done..].
  split; [done |]. split; [done |]. exists more'. split; [by rewrite <- app_assoc | done].
Qed.

Lemma sys_step_inv σ σ' : sys_inv σ -> sys_step σ σ' -> sys_inv σ'.
Proof.
  intros H Hst. destruct Hst as [s r n a d m s' E | s r n a d now s' out E | s r n a d data s' e E
    | s r n a d cap s' e E | s r n a d data r' e Hin E | s r n a d now r' out E | s r n a d m r' e E
    | s r n a d cap r' msg E | s r n a d cap r' e E].
  - by eapply sys_inv_send.
  - apply (sys_inv_sender s); [| | done].
    + apply flush_rcv in E as (_ & _ & _ & ->). done.
    + intros sent Hlt Hs. apply (flush_inv sent) in E; [tauto | done | by apply items_fit_stream | done].
  - rewrite <- (app_nil_r n). apply (sys_inv_sender s); [| | done].
    + pose proof (input_cfg data s) as Hc. by rewrite E in Hc.
    + intros sent _ Hs. destruct (input_snd sent data s s' e Hs E) as [Hs' _]. by split; [| constructor].
  - apply recv_frame in E as (Hs & Hc & _). rewrite <- (app_nil_r n). apply (sys_inv_sender s); [done | | done].
    intros sent _ Hsn. rewrite Hs. by split; [| constructor].
  - apply (sys_inv_receiver _ r); [| done]. intros sent popped Hlt Hw Hr.
    pose proof (proj1 (List.Forall_forall _ _) Hw data) as Hon.
    destruct Hon as (seg & -> & Hd & Ha); [by apply list_elem_of_In |].
    by eapply input_rcv.
  - apply (sys_inv_receiver _ r); [| done]. intros sent popped _ _.
    apply flush_rcv in E as (E1 & E2 & E3 & _). by apply rcv_inv_ext.
  - apply (sys_inv_receiver _ r); [| done]. intros sent popped _ _.
    pose proof (send_rcv m r) as [Hr _]. rewrite E in Hr. cbn in Hr. by rewrite Hr.
  - by eapply sys_inv_recv.
  - apply recv_frame in E as (_ & _ & Hk). by rewrite (Hk e eq_refl).
Qed.

(** C3. mKCP delivers reliably and in order.  Whatever the network does with the sender's
    datagrams (loss, repetition, reordering), whatever bytes reach the sender, and however
    ticks, messages and reads interleave, the messages [recv] has returned are a prefix of
    the messages [send] accepted, each whole and once; this for sessions of less than 2^32
    segments, the range of the sequence numbers. *)
Theorem kcp_reliable_delivery conv nd nd' sw rw sw' rw' σ :
  rtc sys_step (sys_init conv nd nd' sw rw sw' rw') σ ->
  zlen (stream_items 1376 (accepted σ)) < 2 ^ 32 ->
  received σ `prefix_of` accepted σ.
Proof.
  intros Hr Hlt. assert (Hinv : sys_inv σ).
  { pose proof (sys_init_inv conv nd nd' sw rw sw' rw') as H0. revert H0 Hlt.
    induction Hr as [| x y z Hxy Hyz IH]; [done |]. intros Hx Hlt. apply IH; [| done].
    by eapply sys_step_inv. }
  destruct Hinv as (_ & _ & H). destruct (H Hlt) as (_ & _ & more & -> & _). by exists more.
Qed.

(** A short run: the message goes out with the second flush, is lost once, sent again,
    delivered twice and read once. *)
Lemma kcp_reliable_delivery_witness :
  exists σ, accepted σ = [lit "hello"] /\ received σ = [lit "hello"] /\
    received σ `prefix_of` accepted σ.
Proof.
  eexists. split; [| split]; cycle 2.
  - apply (kcp_reliable_delivery 7 true true 128 128 128 128).
    + eapply rtc_l; [eapply (step_send _ _ _ _ _ (lit "hello")); vm_compute; reflexivity |].
      eapply rtc_l; [eapply (step_sender_tick _ _ _ _ _ 100); vm_compute; reflexivity |].
      eapply rtc_l; [eapply (step_sender_tick _ _ _ _ _ 200); vm_compute; reflexivity |].
      eapply rtc_l; [eapply (step_sender_tick _ _ _ _ _ 5000); vm_compute; reflexivity |].
      eapply rtc_l; [eapply step_receiver_input;
        [cbn [app]; apply list_elem_of_further, list_elem_of_here | vm_compute; reflexivity] |].
      eapply rtc_l; [eapply step_receiver_input;
        [cbn [app]; apply list_elem_of_here | vm_compute; reflexivity] |].
      eapply rtc_l; [eapply (step_recv _ _ _ _ _ 65535); vm_compute; reflexivity |].
      apply rtc_refl.
    + vm_compute. reflexivity.
  - reflexivity.
  - reflexivity.
Defined.

(** * Theorems: one engine against any peer *)

(** The size of a UDP payload bounds the data of a segment. *)
Definition MAX_UDP : Z := 65535.

Definition sn_lt (a b : Segment) : Prop := s_sn a < s_sn b.

(** Receiver bounds: the queue fits the window, the buffer is sorted and lies inside it. *)
Definition rcv_ok (wnd : Z) (r : Rcv) : Prop :=
  0 <= rcv_nxt r < 2 ^ 32 /\ zlen (rcv_queue r) <= wnd
  /\ StronglySorted sn_lt (rcv_buf r)
  /\ Forall (fun s => rcv_nxt r <= s_sn s < rcv_nxt r + wnd /\ s_sn s < 2 ^ 32 - 1) (rcv_buf r)
  /\ Forall (fun s => zlen (s_data s) <= MAX_UDP) (rcv_queue r)
  /\ Forall (fun s => zlen (s_data s) <= MAX_UDP) (rcv_buf r).

Lemma move_rcv_loop_ok wnd ack buf : forall nxt queue nxt' queue' buf',
  rcv_ok wnd (mkRcv nxt queue buf ack) -> move_rcv_loop wnd nxt queue buf = (nxt', queue', buf') ->
  rcv_ok wnd (mkRcv nxt' queue' buf' ack).
Proof.
  induction buf as [| seg buf IH]; intros nxt queue nxt' queue' buf' H; cbn [move_rcv_loop];
    [by intros [= <- <- <-] |].
  destruct (Z.eqb_spec (s_sn seg) nxt) as [<- |]; cbn [andb]; [| by intros [= <- <- <-]].
  destruct (Z.ltb_spec (zlen queue) wnd); [| by intros [= <- <- <-]].
  destruct H as (Hn & Hq & Hs & Hw & Hd & Hb). cbn in Hn, Hq, Hs, Hw, Hd, Hb.
  apply Forall_cons_iff in Hw as [Hw1 Hw]. apply Forall_cons_iff in Hb as [Hb1 Hb].
  apply StronglySorted_inv in Hs as [Hs Hlt].
  unfold u32, wrap. rewrite Z.mod_small by lia. apply IH. unfold rcv_ok. cbn.
  split_and!; [lia | lia | len_solve | done | | by apply Forall_app; auto | done].
  rewrite List.Forall_forall in *. intros x Hx. specialize (Hlt x Hx). specialize (Hw x Hx).
  unfold sn_lt in Hlt. lia.
Qed.

Lemma move_rcv_buf_ok wnd r : rcv_ok wnd r -> rcv_ok wnd (move_rcv_buf wnd r).
Proof.
  intros H. unfold move_rcv_buf. destruct (move_rcv_loop _ _ _ _) as [[nxt queue] buf] eqn:E.
  destruct r. by eapply move_rcv_loop_ok.
Qed.

(** The insertion point splits a sorted buffer around the number. *)
Lemma rposition_split sn l :
  StronglySorted sn_lt l ->
  Forall (fun s => s_sn s < sn) (take (rposition sn l) l)
  /\ Forall (fun s => sn <= s_sn s) (drop (rposition sn l) l).
Proof.
  induction 1 as [| x l Hs [IH1 IH2] Hx]; cbn [rposition]; [split; constructor |].
  destruct (rposition sn l) as [| i] eqn:E.
  - destruct (Z.ltb_spec (s_sn x) sn); cbn; [split; [by repeat constructor | done] |].
    split; [constructor |]. constructor; [lia |]. rewrite drop_0 in IH2. done.
  - cbn [take drop]. split; [| done]. constructor; [| done].
    destruct l as [| y l]; [done |]. cbn [take] in IH1.
    apply Forall_cons_iff in IH1 as [Hy _]. apply Forall_cons_iff in Hx as [Hx _].
    unfold sn_lt in Hx. lia.
Qed.

Lemma insert_sorted l1 l2 x :
  StronglySorted sn_lt (l1 ++ l2) -> Forall (fun s => s_sn s < s_sn x) l1 ->
  Forall (fun s => s_sn x < s_sn s) l2 -> StronglySorted sn_lt (l1 ++ x :: l2).
Proof.
  induction l1 as [| y l1 IH]; intros Hs H1 H2; cbn [app] in *.
  - by constructor.
  - apply StronglySorted_inv in Hs as [Hs Hy]. apply Forall_cons_iff in H1 as [Hyx H1].
    constructor; [by apply IH |]. apply Forall_app in Hy as [Hy1 Hy2].
    apply Forall_app. split; [done |]. by constructor.
Qed.

Lemma parse_data_ok wnd seg r :
  0 <= wnd < 2 ^ 16 -> zlen (s_data seg) <= MAX_UDP -> rcv_ok wnd r -> rcv_ok wnd (parse_data wnd seg r).
Proof.
  intros Hwn Hl H. unfold parse_data.
  destruct (Z.geb_spec (s_sn seg) (u32 (rcv_nxt r + wnd))) as [| Hlt]; [done |].
  destruct (Z.ltb_spec (s_sn seg) (rcv_nxt r)) as [| Hge]; [done |]. cbn [orb].
  destruct (existsb _ _) eqn:He; [done |]. apply move_rcv_buf_ok.
  destruct H as (Hn & Hq & Hs & Hw & Hd & Hb).
  assert (Hin : s_sn seg < rcv_nxt r + wnd /\ s_sn seg < 2 ^ 32 - 1).
  { unfold u32, wrap in Hlt. pose proof (Z.mod_pos_bound (rcv_nxt r + wnd) (2 ^ 32) ltac:(lia)).
    destruct (Z.le_gt_cases (2 ^ 32) (rcv_nxt r + wnd)); [| rewrite Z.mod_small in Hlt; lia].
    rewrite <- (Z_mod_plus_full _ (-1)), Z.mod_small in Hlt; lia. }
  destruct (rposition_split (s_sn seg) (rcv_buf r) Hs) as [H1 H2].
  assert (H3 : Forall (fun s => s_sn seg < s_sn s) (drop (rposition (s_sn seg) (rcv_buf r)) (rcv_buf r))).
  { rewrite List.Forall_forall in *. intros x Hx. specialize (H2 x Hx). cbn in H2.
    assert (s_sn x <> s_sn seg); [| lia]. intros Heq.
    assert (existsb (fun s => s_sn s =? s_sn seg) (rcv_buf r) = true); [| congruence].
    apply existsb_exists. exists x. split; [| by apply Z.eqb_eq].
    rewrite <- (take_drop (rposition (s_sn seg) (rcv_buf r)) (rcv_buf r)). apply in_or_app. by right. }
  unfold rcv_ok. cbn. split_and!; [lia | lia | done | | | done |].
  - apply insert_sorted; [by rewrite take_drop | done | done].
  - apply Forall_app. split; [by apply Forall_take |]. constructor; [lia | by apply Forall_drop].
  - apply Forall_app. split; [by apply Forall_take |]. constructor; [done | by apply Forall_drop].
Qed.

(** A buffer inside the window is no larger than it. *)
Lemma sorted_bound l : forall lo n,
  StronglySorted sn_lt l -> Forall (fun s => lo <= s_sn s < lo + n) l -> 0 <= n -> zlen l <= n.
Proof.
  induction l as [| x l IH]; intros lo n Hs Hl Hn; [done |].
  apply StronglySorted_inv in Hs as [Hs Hx]. apply Forall_cons_iff in Hl as [Hb Hl].
  rewrite zlen_cons. enough (zlen l <= n - 1) by lia.
  apply (IH (lo + 1)); [done | | lia].
  rewrite List.Forall_forall in *. intros y Hy. specialize (Hx y Hy). specialize (Hl y Hy).
  unfold sn_lt in Hx. lia.
Qed.

Definition rtt_ok (r : Rtt) : Prop := rx_minrto r <= rx_rto r <= RTO_MAX.

Lemma update_ack_ok t r : rtt_ok r -> rtt_ok (update_ack t r).
Proof. intros H. unfold rtt_ok, update_ack in *. destruct (if _ =? _ then _ else _) as [a b]. cbn. lia. Qed.

(** The bounds of an engine. *)
Definition engine_ok (k : Kcp) : Prop :=
  mss (cfg k) = 1376 /\ 0 < rcv_wnd (cfg k) <= 2 ^ 15 /\ rcv_ok (rcv_wnd (cfg k)) (rcv_half k) /\ rtt_ok (rtt k).

Lemma decode_data_len cursor seg cursor' :
  decode cursor = Some (seg, cursor') ->
  zlen (s_data seg) <= zlen cursor /\ (length cursor' + 24 <= length cursor)%nat.
Proof.
  unfold decode, get_le, OVERHEAD. destruct (Z.ltb_spec (zlen cursor) 24); [discriminate |].
  destruct (_ <? _); [discriminate |]. intros [= <- <-]. cbn [s_data]. rewrite !drop_drop.
  unfold zlen in *. rewrite length_take, !length_drop. lia.
Qed.

Lemma input_seg_ok seg k flag maxack k' r :
  zlen (s_data seg) <= MAX_UDP -> engine_ok k -> input_seg seg k flag maxack = (k', r) ->
  engine_ok k' /\ r <> Panic /\ r <> NoFuel.
Proof.
  intros Hl (Hm & Hw & Hr & Ht) E.
  pose proof (input_seg_cfg seg k flag maxack) as Hc. rewrite E in Hc. cbn in Hc.
  revert E. unfold input_seg. destruct (negb _); [by intros [= <- <-] |].
  destruct (s_cmd seg =? CMD_ACK).
  { pose proof (update_ack_ok (u32 (current k - s_ts seg)) (rtt k) Ht).
    destruct (_ || _); by intros [= <- <-]. }
  destruct (s_cmd seg =? CMD_PUSH).
  { destruct (_ <? _); [| by intros [= <- <-]]. intros [= <- <-]. split; [| done].
    split; [done |]. split; [done |]. split; [| done]. cbn.
    destruct (_ >=? _); [apply parse_data_ok; [lia | done |] |]; exact Hr. }
  destruct (s_cmd seg =? CMD_WASK); [by intros [= <- <-] |].
  destruct (s_cmd seg =? CMD_WINS); by intros [= <- <-].
Qed.

Lemma input_loop_ok fuel : forall cursor k flag maxack k' r,
  (length cursor <= fuel)%nat -> zlen cursor <= MAX_UDP -> engine_ok k ->
  input_loop fuel cursor k flag maxack = (k', r) -> engine_ok k' /\ r <> Panic /\ r <> NoFuel.
Proof.
  induction fuel as [| fuel IH]; intros cursor k flag maxack k' r Hf Hl H; destruct cursor as [| b cursor];
    cbn [input_loop]; try (by intros [= <- <-]); [simpl in Hf; lia |].
  destruct (decode _) as [[seg cursor'] |] eqn:Ed; [| by intros [= <- <-]].
  apply decode_data_len in Ed as [Hd Hc].
  destruct (input_seg seg k flag maxack) as [k1 r1] eqn:E.
  apply input_seg_ok in E as (H1 & Hp & Hn); [| lia | done].
  destruct r1 as [[f m] | | |]; intros E; try (injection E as <- <-; done).
  apply IH in E; [done | lia | unfold zlen in *; lia | done].
Qed.

Lemma input_ok data k k' r :
  zlen data <= MAX_UDP -> engine_ok k -> input data k = (k', r) -> engine_ok k' /\ r <> Panic /\ r <> NoFuel.
Proof.
  intros Hl H. unfold input. destruct (input_loop _ _ _ _ _) as [k1 r1] eqn:E.
  apply input_loop_ok in E as (H1 & Hp & Hn); [| done | done | done].
  destruct r1 as [[f m] | | |]; intros [= <- <-]; try done.
  split; [| done]. destruct f; destruct (_ && _); exact H1.
Qed.

(** The bytes waiting in a queue. *)
Definition total (q : list Segment) : Z := foldr (fun s acc => zlen (s_data s) + acc) 0 q.

Lemma total_nonneg q : 0 <= total q.
Proof.
  induction q as [| s q IH]; [done |]. cbn [total foldr]. fold (total q).
  pose proof (zlen_nonneg (s_data s)). lia.
Qed.

Lemma total_bound q : Forall (fun s => zlen (s_data s) <= MAX_UDP) q -> 0 <= total q <= MAX_UDP * zlen q.
Proof.
  unfold MAX_UDP. induction 1 as [| s q Hs Hq IH]; [done |]. cbn [total foldr]. fold (total q).
  rewrite zlen_cons. pose proof (zlen_nonneg (s_data s)). lia.
Qed.

Lemma total_app q q' : total (q ++ q') = total q + total q'.
Proof. induction q as [| s q IH]; [done |]. cbn [app total foldr]. fold (total q) (total (q ++ q')). lia. Qed.

Lemma i32_small z : 0 <= z < 2 ^ 31 -> i32 z = z.
Proof. intros. unfold i32. rewrite Z.mod_small; lia. Qed.

Lemma sum_i32 q : forall a,
  0 <= a -> a + total q < 2 ^ 31 ->
  foldl (fun acc s => i32 (acc + i32 (zlen (s_data s)))) a q = a + total q.
Proof.
  induction q as [| s q IH]; intros a Ha Hlt; [cbn; lia |].
  cbn [foldl total foldr] in *. fold (total q) in *. pose proof (zlen_nonneg (s_data s)).
  pose proof (total_nonneg q).
  rewrite (i32_small (zlen (s_data s))), (i32_small (a + _)) by lia. rewrite IH; lia.
Qed.

(** Under the bounds [peeksize] has no overflow. *)
Lemma peeksize_ok wnd q :
  0 < wnd <= 2 ^ 15 -> zlen q <= wnd -> Forall (fun s => zlen (s_data s) <= MAX_UDP) q ->
  peeksize q = match q with
               | [] => -1
               | seg :: _ => if s_frg seg =? 0 then zlen (s_data seg)
                             else if zlen q <? u8 (s_frg seg + 1) then -1 else total q
               end.
Proof.
  intros Hw Hq Hf. destruct q as [| seg q]; [done |]. unfold peeksize.
  pose proof (total_bound _ Hf) as Ht. unfold MAX_UDP in *.
  destruct (_ =? 0).
  - apply i32_small. apply Forall_cons_iff in Hf as [Hs _]. pose proof (zlen_nonneg (s_data seg)). lia.
  - destruct (_ <? _); [done |]. rewrite sum_i32; lia.
Qed.

(** The copy loop stays inside the buffer when the whole queue fits in it. *)
Lemma recv_loop_fits cap q : forall acc,
  zlen acc + total q <= cap -> exists msg q', recv_loop cap q acc = (Ok msg, q') /\ q' `suffix_of` q.
Proof.
  induction q as [| s q IH]; intros acc Hl; cbn [recv_loop]; [by exists acc, [] |].
  cbn [total foldr] in Hl. fold (total q) in Hl.
  pose proof (total_nonneg q).
  destruct (Z.leb_spec (zlen acc + zlen (s_data s)) cap); [| lia].
  destruct (s_frg s =? 0).
  - exists (acc ++ s_data s), q. split; [done | by apply suffix_cons_r].
  - destruct (IH (acc ++ s_data s)) as (msg & q' & -> & Hs); [len_solve |].
    exists msg, q'. split; [done | by apply suffix_cons_r].
Qed.

Lemma recv_loop_ok wnd cap q :
  0 < wnd <= 2 ^ 15 -> zlen q <= wnd -> Forall (fun s => zlen (s_data s) <= MAX_UDP) q -> q <> [] ->
  0 <= peeksize q <= cap -> exists msg q', recv_loop cap q [] = (Ok msg, q') /\ q' `suffix_of` q.
Proof.
  intros Hw Hq Hf Hne Hp. rewrite (peeksize_ok wnd) in Hp by done.
  destruct q as [| s q]; [done |]. destruct (s_frg s =? 0) eqn:E.
  - cbn [recv_loop]. rewrite zlen_nil, E. destruct (Z.leb_spec (0 + zlen (s_data s)) cap); [| lia].
    exists (s_data s), q. split; [done | by apply suffix_cons_r].
  - apply recv_loop_fits. rewrite zlen_nil. destruct (_ <? _); lia.
Qed.

Lemma rcv_ok_suffix wnd nxt q q' buf ack :
  q' `suffix_of` q -> rcv_ok wnd (mkRcv nxt q buf ack) -> rcv_ok wnd (mkRcv nxt q' buf ack).
Proof.
  intros [l ->] (Hn & Hq & Hs & Hw & Hd & Hb). cbn in *. apply Forall_app in Hd as [_ Hd].
  unfold rcv_ok. cbn. split_and!; try done; [lia | lia | len_solve].
Qed.

Lemma kcp_recv_ok cap k k' r :
  0 <= cap < 2 ^ 31 -> engine_ok k -> recv cap k = (k', r) -> engine_ok k' /\ r <> Panic /\ r <> NoFuel.
Proof.
  intros Hcap H. pose proof H as (Hm & Hw & Hr & Ht). unfold recv.
  destruct (rcv_queue (rcv_half k)) as [| s q] eqn:Eq; [by intros [= <- <-] |]. rewrite <- Eq.
  destruct (Z.ltb_spec (peeksize (rcv_queue (rcv_half k))) 0); [by intros [= <- <-] |].
  rewrite (i32_small cap) by done.
  destruct (Z.gtb_spec (peeksize (rcv_queue (rcv_half k))) cap); [by intros [= <- <-] |].
  destruct (recv_loop_ok (rcv_wnd (cfg k)) cap (rcv_queue (rcv_half k))) as (msg & q' & -> & Hsuf);
    [done | apply Hr | apply Hr | by rewrite Eq | lia |].
  intros [= <- <-]. split; [| done].
  assert (Hr' : rcv_ok (rcv_wnd (cfg k)) (mkRcv (rcv_nxt (rcv_half k)) q' (rcv_buf (rcv_half k)) (acklist (rcv_half k)))).
  { apply (rcv_ok_suffix _ _ (rcv_queue (rcv_half k))); [done |]. by destruct (rcv_half k). }
  apply move_rcv_buf_ok in Hr'. destruct (_ && _); (split; [done |]; split; [done |]; split; done).
Qed.

(** ** Operations of a driver *)

Inductive KcpOp : Type :=
| OpInput (data : bytes)
| OpSend (m : bytes)
| OpTick (now : Z)
| OpRecv (cap : Z).

(** What a driver may do: datagrams of at most 65535 bytes, buffers a [i32] can measure. *)
Definition op_ok (op : KcpOp) : Prop :=
  match op with
  | OpInput data => zlen data <= MAX_UDP
  | OpRecv cap => 0 <= cap < 2 ^ 31
  | _ => True
  end.

Definition run_op (k : Kcp) (op : KcpOp) : Kcp * res Z unit :=
  match op with
  | OpInput data => input data k
  | OpSend m => send m k
  | OpTick now => ((flush (update now k)).1, Ok tt)
  | OpRecv cap => let '(k', r) := recv cap k in
                  (k', match r with Ok _ => Ok tt | Err e => Err e | Panic => Panic | NoFuel => NoFuel end)
  end.

Definition run_ops (ops : list KcpOp) (k : Kcp) : Kcp := foldl (fun k op => (run_op k op).1) k ops.

Lemma flush_rtt k k' out : flush k = (k', out) -> rtt k' = rtt k.
Proof.
  unfold flush. destruct (negb (updated k)); [by intros [= <- <-] |].
  destruct (flush_acks k) as [k1 acks] eqn:E1. destruct (flush_probe k1) as [k2 ctrl] eqn:E2.
  destruct (flush_resend _ _) as [k4 pushes] eqn:E4. intros [= <- <-].
  unfold flush_resend in E4. cbv zeta in E4. injection E4 as <- _. cbn [set_cong rtt].
  injection E1 as <- _. injection E2 as <- _. unfold flush_fill.
  destruct (fill_loop _ _ _ _ _) as [[??]?]. by destruct (existsb _ _).
Qed.

Lemma rcv_ok_ext wnd r r' :
  rcv_nxt r' = rcv_nxt r -> rcv_queue r' = rcv_queue r -> rcv_buf r' = rcv_buf r ->
  rcv_ok wnd r -> rcv_ok wnd r'.
Proof. unfold rcv_ok. by intros -> -> ->. Qed.

Lemma run_op_ok k op :
  op_ok op -> engine_ok k ->
  engine_ok (run_op k op).1 /\ (run_op k op).2 <> Panic /\ (run_op k op).2 <> NoFuel.
Proof.
  intros Ho H. destruct op as [data | m | now | cap]; cbn [run_op op_ok fst snd] in *.
  - destruct (input data k) as [k' r] eqn:E. by eapply input_ok.
  - destruct H as (Hm & Hw & Hr & Ht). split; [| by apply send_never_stuck].
    unfold send. case_bool_decide; [done |]. destruct (_ >=? _); [done |]. by destruct (send_loop _ _ _ _ _).
  - split; [| done]. destruct (flush (update now k)) as [k' out] eqn:E. cbn [fst].
    pose proof (flush_rtt _ _ _ E) as Et. apply flush_rcv in E as (E1 & E2 & E3 & E4).
    destruct H as (Hm & Hw & Hr & Ht). unfold engine_ok. rewrite Et, E4. split; [done |]. split; [done |].
    split; [by eapply rcv_ok_ext | done].
  - destruct (recv cap k) as [k' r] eqn:E. apply kcp_recv_ok in E as (H1 & H2 & H3); [| done | done].
    split; [done |]. by destruct r.
Qed.

Lemma run_op_cfg k op : cfg (run_op k op).1 = cfg k.
Proof.
  destruct op as [data | m | now | cap]; cbn [run_op fst].
  - apply input_cfg.
  - apply send_rcv.
  - destruct (flush (update now k)) as [k' out] eqn:E. apply flush_rcv in E as (_ & _ & _ & E). exact E.
  - destruct (recv cap k) as [k' r] eqn:E. by apply recv_frame in E as (_ & E & _).
Qed.

Lemma run_ops_cfg ops : forall k, cfg (run_ops ops k) = cfg k.
Proof.
  induction ops as [| op ops IH]; intros k; [done |]. unfold run_ops in *. cbn [foldl].
  by rewrite IH, run_op_cfg.
Qed.

Lemma run_ops_ok ops : forall k, Forall op_ok ops -> engine_ok k -> engine_ok (run_ops ops k).
Proof.
  induction ops as [| op ops IH]; intros k Ho H; [done |]. apply Forall_cons_iff in Ho as [Ho Hops].
  apply IH; [done |]. by apply run_op_ok.
Qed.

Lemma session_ok conv nd sw rw : 0 < rw <= 2 ^ 15 -> engine_ok (session conv nd sw rw).
Proof.
  intros Hrw. unfold engine_ok, session. cbn. destruct (Z.gtb_spec rw 0); [| lia].
  split; [done |]. split; [done |]. split.
  - split; [cbn; lia |]. split; [cbn; rewrite zlen_nil; lia |].
    split; [apply SSorted_nil |]. repeat split; apply Forall_nil.
  - unfold rtt_ok, RTO_MAX, RTO_DEF. destruct nd; unfold RTO_NDL, RTO_MIN; cbn; lia.
Qed.

(** C30. One engine against any peer.  Whatever datagrams arrive (of up to 65535 bytes) and
    however the driver interleaves sending, ticking and reading, no operation panics or
    fails to return; the receive queue and the reassembly buffer never exceed the receive
    window, the buffer stays sorted without repetitions inside the window, and the
    retransmission timeout stays between its minimum and 60 seconds. *)
Theorem kcp_engine_bounds conv nd sw rw ops op :
  0 < rw <= 2 ^ 15 -> Forall op_ok ops -> op_ok op ->
  let k := run_ops ops (session conv nd sw rw) in
  let r := rcv_half k in
  (run_op k op).2 <> Panic /\ (run_op k op).2 <> NoFuel
  /\ zlen (rcv_queue r) <= rw /\ zlen (rcv_buf r) <= rw /\ StronglySorted sn_lt (rcv_buf r)
  /\ rx_minrto (rtt k) <= rx_rto (rtt k) <= RTO_MAX.
Proof.
  intros Hrw Hops Hop k r.
  assert (Hk : engine_ok k) by (apply run_ops_ok; [done | by apply session_ok]).
  destruct (run_op_ok k op Hop Hk) as (_ & Hp & Hf).
  assert (Hc : rcv_wnd (cfg k) = rw).
  { unfold k. rewrite run_ops_cfg. unfold session. cbn. destruct (Z.gtb_spec rw 0); [done | lia]. }
  destruct Hk as (_ & _ & Hr & Ht). rewrite Hc in Hr. destruct Hr as (Hn & Hq & Hs & Hw & _).
  split_and!; try done; try apply Ht. apply (sorted_bound _ (rcv_nxt r)); [done | | lia].
  eapply Forall_impl; [| exact Hw]. intros x Hx. subst r. cbn in Hx. lia.
Qed.

Lemma kcp_engine_bounds_witness :
  let ops := [OpInput (encode (mkSegment 7 CMD_PUSH 0 1 0 3 0 [1; 2] 0 0 0 0)); OpTick 5] in
  zlen (rcv_buf (rcv_half (run_ops ops (session 7 true 128 128)))) <= 128.
Proof.
  intros ops. apply (kcp_engine_bounds 7 true 128 128 ops (OpRecv 10)); [lia | | cbn; lia].
  repeat constructor. vm_compute. discriminate.
Defined.

(** * A queue that cannot be read any more *)

(** The queue starts with a fragmented message and holds more than [cap] bytes in all. *)
Definition stalled (cap : Z) (k : Kcp) : Prop :=
  match rcv_queue (rcv_half k) with
  | [] => False
  | seg :: _ => s_frg seg <> 0 /\ u8 (s_frg seg + 1) <= zlen (rcv_queue (rcv_half k))
                /\ cap < total (rcv_queue (rcv_half k))
  end.

#[global] Instance stalled_dec cap k : Decision (stalled cap k).
Proof. unfold stalled. destruct (rcv_queue (rcv_half k)); apply _. Defined.

Lemma stalled_recv cap k :
  0 <= cap < 2 ^ 31 -> engine_ok k -> stalled cap k -> recv cap k = (k, Err (-2)).
Proof.
  intros Hc (_ & Hw & (_ & Hq & _ & _ & Hd & _) & _) Hs. unfold recv, stalled in *.
  pose proof (peeksize_ok _ _ Hw Hq Hd) as Hp.
  destruct (rcv_queue (rcv_half k)) as [| seg q]; [done |]. rewrite Hp. destruct Hs as (Hf & Hl & Ht).
  destruct (Z.eqb_spec (s_frg seg) 0); [done |]. destruct (Z.ltb_spec (zlen (seg :: q)) (u8 (s_frg seg + 1))); [lia |].
  rewrite i32_small by done. pose proof (total_nonneg (seg :: q)).
  destruct (Z.ltb_spec (total (seg :: q)) 0); [lia |]. destruct (Z.gtb_spec (total (seg :: q)) cap); [done | lia].
Qed.

Lemma move_rcv_loop_grows wnd buf : forall nxt queue nxt' queue' buf',
  move_rcv_loop wnd nxt queue buf = (nxt', queue', buf') -> queue `prefix_of` queue'.
Proof.
  induction buf as [| seg buf IH]; intros nxt queue nxt' queue' buf'; cbn [move_rcv_loop]; [by intros [= <- <- <-] |].
  destruct (_ && _); [| by intros [= <- <- <-]]. intros E%IH. etrans; [| exact E]. by apply prefix_app_r.
Qed.

Lemma parse_data_grows wnd seg r : rcv_queue r `prefix_of` rcv_queue (parse_data wnd seg r).
Proof.
  unfold parse_data. destruct (_ || _); [done |]. destruct (existsb _ _); [done |].
  unfold move_rcv_buf. destruct (move_rcv_loop _ _ _ _) as [[nxt queue] buf] eqn:E.
  by apply move_rcv_loop_grows in E.
Qed.

Lemma input_seg_grows seg k flag maxack :
  rcv_queue (rcv_half k) `prefix_of` rcv_queue (rcv_half (input_seg seg k flag maxack).1).
Proof.
  unfold input_seg. destruct (negb _); [done |].
  destruct (s_cmd seg =? CMD_ACK); [by destruct (_ || _) |].
  destruct (s_cmd seg =? CMD_PUSH).
  { destruct (_ <? _); [| done]. cbn [fst set_rcv rcv_half]. destruct (_ >=? _); [| done].
    etrans; [| apply parse_data_grows]. done. }
  destruct (s_cmd seg =? CMD_WASK); [done |]. by destruct (s_cmd seg =? CMD_WINS).
Qed.

Lemma input_loop_grows fuel : forall cursor k flag maxack,
  rcv_queue (rcv_half k) `prefix_of` rcv_queue (rcv_half (input_loop fuel cursor k flag maxack).1).
Proof.
  induction fuel as [| fuel IH]; intros cursor k flag maxack; destruct cursor as [| b cursor];
    cbn [input_loop]; try done.
  destruct (decode _) as [[seg cursor'] |]; [| done].
  pose proof (input_seg_grows seg k flag maxack) as Hc.
  destruct (input_seg seg k flag maxack) as [k1 [[f m] | | |]]; try done. etrans; [exact Hc | apply IH].
Qed.

Lemma input_grows data k : rcv_queue (rcv_half k) `prefix_of` rcv_queue (rcv_half (input data k).1).
Proof.
  unfold input. pose proof (input_loop_grows (length data) data k false 0) as Hc.
  destruct (input_loop _ _ _ _ _) as [k1 [[f m] | | |]]; try done. destruct f; by destruct (_ && _).
Qed.

Lemma stalled_prefix cap k k' :
  rcv_queue (rcv_half k) `prefix_of` rcv_queue (rcv_half k') -> stalled cap k -> stalled cap k'.
Proof.
  unfold stalled. intros [z ->]. destruct (rcv_queue (rcv_half k)) as [| seg q]; [done |].
  intros (Hf & Hl & Ht). cbn [app]. rewrite !app_comm_cons, zlen_app, total_app.
  pose proof (total_nonneg z). pose proof (zlen_nonneg z). split_and!; [done | lia | lia].
Qed.

(** What the driver does besides reading with other buffers. *)
Definition driver_op (op : KcpOp) : Prop :=
  match op with OpRecv cap => cap = 65535 | _ => op_ok op end.

Lemma stalled_op k op :
  driver_op op -> engine_ok k -> stalled 65535 k -> stalled 65535 (run_op k op).1.
Proof.
  intros Ho Hk Hs. destruct op as [data | m | now | cap]; cbn [run_op fst driver_op] in *.
  - eapply stalled_prefix; [apply input_grows | done].
  - eapply stalled_prefix; [| done]. by rewrite (proj1 (send_rcv m k)).
  - destruct (flush (update now k)) as [k' out] eqn:E. apply flush_rcv in E as (_ & E & _).
    eapply stalled_prefix; [| done]. cbn [fst]. by rewrite E.
  - subst cap. by rewrite stalled_recv by done.
Qed.

(** C40. A session can stop delivering for good.  [peeksize] adds up the whole receive
    queue, not the first message.  Once the queue starts with a fragmented message and
    holds more than the driver's 65535 bytes, every later read is refused with [-2],
    whatever arrives afterwards; the queue is emptied only by reads, so nothing is ever
    delivered again. *)
Theorem kcp_recv_stalls k ops :
  engine_ok k -> stalled 65535 k -> Forall driver_op ops ->
  let k' := run_ops ops k in
  recv 65535 k' = (k', Err (-2)) /\ drain_kcp_recv_into k' [] 128 = (k', Ok []).
Proof.
  intros Hk Hs Hops k'.
  assert (H : engine_ok k' /\ stalled 65535 k').
  { unfold k'. revert k Hk Hs k'. induction Hops as [| op ops Ho Hops IH]; intros k Hk Hs; [done |].
    intros _. apply IH; [| by apply stalled_op]. apply run_op_ok; [| done].
    destruct op; cbn in *; try done. subst. lia. }
  destruct H as [Hk' Hs']. pose proof (stalled_recv 65535 k' ltac:(lia) Hk' Hs') as Hr. split; [done |].
  unfold drain_kcp_recv_into. change (Z.to_nat (128 - zlen [])) with 128%nat. cbn [drain_loop].
  rewrite zlen_nil. cbn [Z.geb Z.compare]. by rewrite Hr.
Qed.

(** Twenty-four messages of two full fragments each, as a sender cuts them. *)
Definition two_fragment_stream : list KcpOp :=
  (fun i => OpInput (encode (mkSegment 7 CMD_PUSH (Z.of_nat (1 - i mod 2)) 128 0 (Z.of_nat i) 0
                               (replicate 1376 7) 0 0 0 0))) <$> seq 0 48.

Lemma two_fragment_stream_ok : Forall op_ok two_fragment_stream.
Proof.
  apply Forall_fmap, List.Forall_forall. intros i _. unfold compose, op_ok, MAX_UDP.
  rewrite zlen_encode. vm_compute. discriminate.
Qed.

Lemma kcp_recv_stalls_witness :
  let k := run_ops two_fragment_stream (session 7 true 128 128) in
  recv 65535 (run_ops [OpTick 100; OpRecv 65535] k) = (run_ops [OpTick 100; OpRecv 65535] k, Err (-2)).
Proof.
  intros k. apply (kcp_recv_stalls k [OpTick 100; OpRecv 65535]).
  - apply run_ops_ok; [apply two_fragment_stream_ok | apply session_ok; lia].
  - apply (bool_decide_unpack _). vm_compute. exact I.
  - repeat constructor.
Defined.

(** The disguise of a packet is removed by the peer that expects it. *)
Lemma strip_header_encode h addr c payload : strip h (header_encode h addr c payload) = Some payload.
Proof.
  unfold strip, header_encode. assert (Hs : zlen (write_header h addr c) = size h) by (by destruct h).
  destruct (Z.ltb_spec (zlen (write_header h addr c ++ payload)) (size h)); [len_solve |].
  by rewrite drop_app_zlen.
Qed.
