(* ===== verification/TunPacket.v ===== *)
(** * Packets of the TUN device

    [blackwire-transport/src/tun/packet.rs]: the parser of IPv4 and IPv6 packets with their
    TCP and UDP headers, the builders of the TCP and UDP packets that are written back to
    the device, and the Internet checksum.

    A function that returns [Option] is a computation in [res unit]: [Err tt] is [None],
    [Panic] an index or range out of bounds.  The packets built are lists of fields, and the
    lemma [copy_field] describes [copy_from_slice] into one of them. *)

From stdpp Require Import base list strings numbers.
From S2P Require Import Prelude Address.

(** [Option] with [?]. *)
Abbreviation opt A := (res unit A).
Abbreviation none := (Err tt).

(** * Data *)

Inductive TransportProtocol := Tcp | Udp | Other (p : Z).

#[global] Instance TransportProtocol_eq_dec : EqDecision TransportProtocol.
Proof. solve_decision. Defined.

Record IpPacket := mkIpPacket {
  src : IpAddr;
  dst : IpAddr;
  src_port : Z;
  dst_port : Z;
  protocol : TransportProtocol;
  header_len : Z;
  payload_offset : Z;
  transport_offset : Z;
  payload_len : Z;
  tcp_seq : option Z;
  tcp_ack : option Z;
  tcp_flags : option Z;
}.

#[global] Instance IpPacket_eq_dec : EqDecision IpPacket.
Proof. solve_decision. Defined.

(** [packet.get(a..b)]. *)
Definition get_range (l : bytes) (i j : Z) : option bytes :=
  match slice (E:=unit) l i j with Ok s => Some s | _ => None end.

Definition payload (p : IpPacket) (packet : bytes) : option bytes :=
  get_range packet (payload_offset p) (payload_offset p + payload_len p).

(** [u16::from_be_bytes([buf[i], buf[i + 1]])] and its 32-bit companion. *)
Definition be16 {E} (buf : bytes) (i : Z) : res E Z :=
  a ← idx buf i; b ← idx buf (i + 1); mret (be_val [a; b]).

Definition be32 {E} (buf : bytes) (i : Z) : res E Z :=
  a ← idx buf i; b ← idx buf (i + 1); c ← idx buf (i + 2); d ← idx buf (i + 3);
  mret (be_val [a; b; c; d]).

Definition saturating_sub (a b : Z) : Z := Z.max 0 (a - b).

(** The match on the protocol number that ends both parsers. *)
Definition protocol_of (proto : Z) : TransportProtocol :=
  if proto =? 6 then Tcp else if proto =? 17 then Udp else Other proto.

(** * Parsing *)

(** Offset of the payload with the three TCP fields; [at_] is where the transport
    header starts. *)
Definition ipv4_transport (buf : bytes) (proto ihl transport_len : Z)
  : opt (Z * option Z * option Z * option Z) :=
  if proto =? 6 then
    if transport_len <? 20 then none
    else
      seq ← be32 buf (ihl + 4);
      ack ← be32 buf (ihl + 8);
      flags ← idx buf (ihl + 13);
      b ← idx buf (ihl + 12);
      let data_offset := Z.shiftr b 4 * 4 in
      if (data_offset <? 20) || (transport_len <? data_offset) then none
      else mret (ihl + data_offset, Some seq, Some ack, Some flags)
  else if proto =? 17 then
    if transport_len <? 8 then none
    else
      udp_len ← be16 buf (ihl + 4);
      if (udp_len <? 8) || (udp_len >? transport_len) then none
      else mret (ihl + 8, None, None, None)
  else mret (ihl + 4, None, None, None).

Definition parse_ipv4 (buf : bytes) : opt IpPacket :=
  if zlen buf <? 20 then none
  else
    b0 ← idx buf 0;
    let ihl := Z.land b0 0x0F * 4 in
    if ihl <? 20 then none
    else
      total_length ← be16 buf 2;
      if (total_length <? ihl) || (zlen buf <? total_length) then none
      else if zlen buf <? ihl + 4 then none
      else
        proto ← idx buf 9;
        let transport_len := total_length - ihl in
        tr ← ipv4_transport buf proto ihl transport_len;
        let '(payload_offset, tcp_seq, tcp_ack, tcp_flags) := tr in
        src ← slice buf 12 16;
        dst ← slice buf 16 20;
        src_port ← be16 buf ihl;
        dst_port ← be16 buf (ihl + 2);
        mret (mkIpPacket (V4 src) (V4 dst) src_port dst_port (protocol_of proto) ihl
                payload_offset ihl (saturating_sub total_length payload_offset)
                tcp_seq tcp_ack tcp_flags).

(** The walk over the extension headers: the protocol and offset at which it stops. *)
Definition ext_header (n : Z) : bool :=
  existsb (Z.eqb n) [0; 43; 60; 135; 139; 140; 253; 254].

Fixpoint ext_walk (fuel : nat) (buf : bytes) (total_length next_hdr offset : Z) : opt (Z * Z) :=
  match fuel with
  | O => NoFuel
  | S fuel =>
      if (next_hdr =? 6) || (next_hdr =? 17) || (next_hdr =? 58) then mret (next_hdr, offset)
      else if ext_header next_hdr then
        if offset + 2 >? total_length then none
        else
          n ← idx buf offset;
          e ← idx buf (offset + 1);
          ext_walk fuel buf total_length n (offset + (e + 1) * 8)
      else if next_hdr =? 44 then
        if offset + 8 >? total_length then none
        else
          n ← idx buf offset;
          ext_walk fuel buf total_length n (offset + 8)
      else mret (next_hdr, offset)
  end.

Definition ipv6_transport (buf : bytes) (next_hdr offset transport_len : Z)
  : opt (Z * option Z * option Z * option Z) :=
  if next_hdr =? 6 then
    if (transport_len <? 20) || (offset + 13 >? zlen buf) then none
    else
      seq ← be32 buf (offset + 4);
      ack ← be32 buf (offset + 8);
      flags ← idx buf (offset + 13);
      b ← idx buf (offset + 12);
      let data_offset := Z.shiftr b 4 * 4 in
      if (data_offset <? 20) || (transport_len <? data_offset) then none
      else mret (offset + data_offset, Some seq, Some ack, Some flags)
  else if next_hdr =? 17 then
    if (transport_len <? 8) || (offset + 6 >? zlen buf) then none
    else
      udp_len ← be16 buf (offset + 4);
      if (udp_len <? 8) || (udp_len >? transport_len) then none
      else mret (offset + 8, None, None, None)
  else mret (offset + 4, None, None, None).

Definition parse_ipv6 (buf : bytes) : opt IpPacket :=
  if zlen buf <? 40 then none
  else
    payload_len ← be16 buf 4;
    let total_length := 40 + payload_len in
    if zlen buf <? total_length then none
    else
      src ← slice buf 8 24;
      dst ← slice buf 24 40;
      first ← idx buf 6;
      hd ← ext_walk (S (Z.to_nat total_length)) buf total_length first 40;
      let '(next_hdr, offset) := hd in
      if negb ((next_hdr =? 6) || (next_hdr =? 17) || (next_hdr =? 58)) then
        mret (mkIpPacket (V6 src) (V6 dst) 0 0 (Other next_hdr) 40 offset offset
                (saturating_sub total_length offset) None None None)
      else
        let transport_len := saturating_sub total_length offset in
        tr ← ipv6_transport buf next_hdr offset transport_len;
        let '(payload_offset, tcp_seq, tcp_ack, tcp_flags) := tr in
        if offset + 4 >? zlen buf then none
        else
          src_port ← be16 buf offset;
          dst_port ← be16 buf (offset + 2);
          mret (mkIpPacket (V6 src) (V6 dst) src_port dst_port (protocol_of next_hdr) 40
                  payload_offset offset (saturating_sub total_length payload_offset)
                  tcp_seq tcp_ack tcp_flags).

Definition parse_ip_packet (buf : bytes) : opt IpPacket :=
  match buf with
  | [] => none
  | b0 :: _ =>
      if Z.shiftr b0 4 =? 4 then parse_ipv4 buf
      else if Z.shiftr b0 4 =? 6 then parse_ipv6 buf
      else none
  end.

(** * The Internet checksum *)

Fixpoint word_sum (sum : Z) (data : bytes) : Z :=
  match data with
  | [] => sum
  | [last] => wrap 32 (sum + Z.shiftl last 8)
  | a :: b :: rest => word_sum (wrap 32 (sum + be_val [a; b])) rest
  end.

(** [while (sum >> 16) != 0]; three turns are enough for 32 bits. *)
Fixpoint fold_sum (fuel : nat) (sum : Z) : opt Z :=
  match fuel with
  | O => NoFuel
  | S fuel =>
      if Z.shiftr sum 16 =? 0 then mret sum
      else fold_sum fuel (wrap 32 (Z.land sum 0xffff + Z.shiftr sum 16))
  end.

Definition internet_checksum (data : bytes) : opt Z :=
  sum ← fold_sum 4 (word_sum 0 data);
  let checksum := 65535 - wrap 16 sum in
  mret (if checksum =? 0 then 0xffff else checksum).

Definition tcp_checksum_ipv4 (src dst tcp_segment : bytes) : opt Z :=
  internet_checksum (src ++ dst ++ [0; 6] ++ be_bytes 2 (zlen tcp_segment) ++ tcp_segment).

Definition tcp_checksum_ipv6 (src dst tcp_segment : bytes) : opt Z :=
  internet_checksum (src ++ dst ++ be_bytes 4 (zlen tcp_segment) ++ [0; 0; 0; 6] ++ tcp_segment).

Definition udp_checksum_ipv4 (src dst udp_packet : bytes) : opt Z :=
  internet_checksum (src ++ dst ++ [0; 17] ++ be_bytes 2 (zlen udp_packet) ++ udp_packet).

Definition udp_checksum_ipv6 (src dst udp_packet : bytes) : opt Z :=
  internet_checksum (src ++ dst ++ be_bytes 4 (zlen udp_packet) ++ [0; 0; 0; 17] ++ udp_packet).

(** * Building *)

(** [out[i..j].copy_from_slice(new)] and [out[i] = b]. *)
Definition copy_at {E} (i j : Z) (new out : bytes) : res E bytes :=
  if bool_decide (0 <= i) && bool_decide (i <= j) && bool_decide (j <= zlen out)
     && (zlen new =? j - i)
  then Ok (take (Z.to_nat i) out ++ new ++ drop (Z.to_nat j) out)
  else Panic.

Definition set_at {E} (i b : Z) (out : bytes) : res E bytes := copy_at i (i + 1) [b] out.

Definition zeroes (n : Z) : bytes := replicate (Z.to_nat n) 0.

Definition build_ipv4_tcp_rst (src dst : bytes) (src_port dst_port : Z) : opt bytes :=
  out ← set_at 0 0x45 (zeroes 40);
  out ← copy_at 2 4 (be_bytes 2 40) out;
  out ← set_at 8 64 out;
  out ← set_at 9 6 out;
  out ← copy_at 12 16 src out;
  out ← copy_at 16 20 dst out;
  hdr ← slice out 0 20;
  ip_csum ← internet_checksum hdr;
  out ← copy_at 10 12 (be_bytes 2 ip_csum) out;
  out ← copy_at 20 22 (be_bytes 2 src_port) out;
  out ← copy_at 22 24 (be_bytes 2 dst_port) out;
  out ← set_at 32 0x50 out;
  out ← set_at 33 0x04 out;
  seg ← slice_from out 20;
  tcp_csum ← tcp_checksum_ipv4 src dst seg;
  copy_at 36 38 (be_bytes 2 tcp_csum) out.

Definition build_ipv6_tcp_rst (src dst : bytes) (src_port dst_port : Z) : opt bytes :=
  let tcp_len := 20 in
  out ← set_at 0 0x60 (zeroes (40 + tcp_len));
  out ← copy_at 4 6 (be_bytes 2 tcp_len) out;
  out ← set_at 6 6 out;
  out ← set_at 7 64 out;
  out ← copy_at 8 24 src out;
  out ← copy_at 24 40 dst out;
  out ← copy_at 40 42 (be_bytes 2 src_port) out;
  out ← copy_at 42 44 (be_bytes 2 dst_port) out;
  out ← set_at 52 0x50 out;
  out ← set_at 53 0x04 out;
  seg ← slice_from out 40;
  tcp_csum ← tcp_checksum_ipv6 src dst seg;
  copy_at 56 58 (be_bytes 2 tcp_csum) out.

Definition build_tcp_rst (request : IpPacket) : opt bytes :=
  if bool_decide (protocol request <> Tcp) then none
  else
    match src request, dst request with
    | V4 src, V4 dst => build_ipv4_tcp_rst dst src (dst_port request) (src_port request)
    | V6 src, V6 dst => build_ipv6_tcp_rst dst src (dst_port request) (src_port request)
    | _, _ => none
    end.

Definition build_ipv4_tcp_packet (src dst : bytes) (src_port dst_port seq ack flags : Z)
    (payload : bytes) : opt bytes :=
  let tcp_len := 20 + zlen payload in
  let total_len := 20 + tcp_len in
  if (total_len >? 65535) || (tcp_len >? 65535) then none
  else
    out ← set_at 0 0x45 (zeroes total_len);
    out ← copy_at 2 4 (be_bytes 2 total_len) out;
    out ← set_at 8 64 out;
    out ← set_at 9 6 out;
    out ← copy_at 12 16 src out;
    out ← copy_at 16 20 dst out;
    hdr ← slice out 0 20;
    ip_csum ← internet_checksum hdr;
    out ← copy_at 10 12 (be_bytes 2 ip_csum) out;
    let tcp := 20 in
    out ← copy_at tcp (tcp + 2) (be_bytes 2 src_port) out;
    out ← copy_at (tcp + 2) (tcp + 4) (be_bytes 2 dst_port) out;
    out ← copy_at (tcp + 4) (tcp + 8) (be_bytes 4 seq) out;
    out ← copy_at (tcp + 8) (tcp + 12) (be_bytes 4 ack) out;
    out ← set_at (tcp + 12) 0x50 out;
    out ← set_at (tcp + 13) flags out;
    out ← copy_at (tcp + 14) (tcp + 16) (be_bytes 2 65535) out;
    out ← copy_at (tcp + 20) (zlen out) payload out;
    seg ← slice_from out tcp;
    tcp_csum ← tcp_checksum_ipv4 src dst seg;
    copy_at (tcp + 16) (tcp + 18) (be_bytes 2 tcp_csum) out.

Definition build_ipv6_tcp_packet (src dst : bytes) (src_port dst_port seq ack flags : Z)
    (payload : bytes) : opt bytes :=
  let tcp_len := 20 + zlen payload in
  if tcp_len >? 65535 then none
  else
    out ← set_at 0 0x60 (zeroes (40 + tcp_len));
    out ← copy_at 4 6 (be_bytes 2 tcp_len) out;
    out ← set_at 6 6 out;
    out ← set_at 7 64 out;
    out ← copy_at 8 24 src out;
    out ← copy_at 24 40 dst out;
    let tcp := 40 in
    out ← copy_at tcp (tcp + 2) (be_bytes 2 src_port) out;
    out ← copy_at (tcp + 2) (tcp + 4) (be_bytes 2 dst_port) out;
    out ← copy_at (tcp + 4) (tcp + 8) (be_bytes 4 seq) out;
    out ← copy_at (tcp + 8) (tcp + 12) (be_bytes 4 ack) out;
    out ← set_at (tcp + 12) 0x50 out;
    out ← set_at (tcp + 13) flags out;
    out ← copy_at (tcp + 14) (tcp + 16) (be_bytes 2 65535) out;
    out ← copy_at (tcp + 20) (zlen out) payload out;
    seg ← slice_from out tcp;
    tcp_csum ← tcp_checksum_ipv6 src dst seg;
    copy_at (tcp + 16) (tcp + 18) (be_bytes 2 tcp_csum) out.

Definition build_tcp_packet (src dst : SocketAddr) (seq ack flags : Z) (payload : bytes)
  : opt bytes :=
  match sa_ip src, sa_ip dst with
  | V4 s, V4 d => build_ipv4_tcp_packet s d (sa_port src) (sa_port dst) seq ack flags payload
  | V6 s, V6 d => build_ipv6_tcp_packet s d (sa_port src) (sa_port dst) seq ack flags payload
  | _, _ => none
  end.

Definition build_ipv4_udp_packet (src dst : bytes) (src_port dst_port : Z) (payload : bytes)
  : opt bytes :=
  let udp_len := 8 + zlen payload in
  let total_len := 20 + udp_len in
  if (udp_len >? 65535) || (total_len >? 65535) then none
  else
    out ← set_at 0 0x45 (zeroes total_len);
    out ← copy_at 2 4 (be_bytes 2 total_len) out;
    out ← set_at 8 64 out;
    out ← set_at 9 17 out;
    out ← copy_at 12 16 src out;
    out ← copy_at 16 20 dst out;
    hdr ← slice out 0 20;
    ip_csum ← internet_checksum hdr;
    out ← copy_at 10 12 (be_bytes 2 ip_csum) out;
    let udp := 20 in
    out ← copy_at udp (udp + 2) (be_bytes 2 src_port) out;
    out ← copy_at (udp + 2) (udp + 4) (be_bytes 2 dst_port) out;
    out ← copy_at (udp + 4) (udp + 6) (be_bytes 2 udp_len) out;
    out ← copy_at (udp + 8) (zlen out) payload out;
    seg ← slice_from out udp;
    checksum ← udp_checksum_ipv4 src dst seg;
    copy_at (udp + 6) (udp + 8) (be_bytes 2 checksum) out.

Definition build_ipv6_udp_packet (src dst : bytes) (src_port dst_port : Z) (payload : bytes)
  : opt bytes :=
  let udp_len := 8 + zlen payload in
  let total_len := 40 + udp_len in
  if udp_len >? 65535 then none
  else
    out ← set_at 0 0x60 (zeroes total_len);
    out ← copy_at 4 6 (be_bytes 2 udp_len) out;
    out ← set_at 6 17 out;
    out ← set_at 7 64 out;
    out ← copy_at 8 24 src out;
    out ← copy_at 24 40 dst out;
    let udp := 40 in
    out ← copy_at udp (udp + 2) (be_bytes 2 src_port) out;
    out ← copy_at (udp + 2) (udp + 4) (be_bytes 2 dst_port) out;
    out ← copy_at (udp + 4) (udp + 6) (be_bytes 2 udp_len) out;
    out ← copy_at (udp + 8) (zlen out) payload out;
    seg ← slice_from out udp;
    checksum ← udp_checksum_ipv6 src dst seg;
    copy_at (udp + 6) (udp + 8) (be_bytes 2 checksum) out.

Definition build_udp_response_packet (request : IpPacket) (payload : bytes) : opt bytes :=
  if bool_decide (protocol request <> Udp) then none
  else
    match src request, dst request with
    | V4 src, V4 dst => build_ipv4_udp_packet dst src (dst_port request) (src_port request) payload
    | V6 src, V6 dst => build_ipv6_udp_packet dst src (dst_port request) (src_port request) payload
    | _, _ => none
    end.

(** * Lemmas: buffers made of fields *)

Lemma copy_at_split {E} (a m k new : bytes) i j :
  i = zlen a -> j = i + zlen m -> zlen new = zlen m ->
  copy_at (E:=E) i j new (a ++ m ++ k) = Ok (a ++ new ++ k).
Proof.
  intros Hi Hj Hn. unfold copy_at.
  rewrite !bool_decide_eq_true_2 by len_solve.
  replace (zlen new =? j - i) with true by lia. cbn [andb].
  rewrite (take_app_zlen a) by done.
  replace (drop (Z.to_nat j) (a ++ m ++ k)) with k; [done |].
  rewrite app_assoc. symmetry. apply drop_app_zlen. len_solve.
Qed.

Lemma copy_field {E} (n : nat) (f : bytes) (fs : list bytes) (i j : Z) (new : bytes) :
  fs !! n = Some f -> zlen (concat (take n fs)) = i -> i + zlen f = j -> zlen new = zlen f ->
  copy_at (E:=E) i j new (concat fs) = Ok (concat (<[n := new]> fs)).
Proof.
  intros Hf Hi Hj Hn. rewrite <- (take_drop_middle fs n f Hf) at 1.
  rewrite concat_app, concat_cons, copy_at_split by len_solve.
  rewrite insert_take_drop by (by eapply lookup_lt_Some). by rewrite concat_app, concat_cons.
Qed.

Lemma slice_fields {E} (n : nat) (fs : list bytes) (j : Z) :
  j = zlen (concat (take n fs)) -> slice (E:=E) (concat fs) 0 j = Ok (concat (take n fs)).
Proof.
  intros ->. rewrite <- (take_drop n fs) at 1. rewrite concat_app.
  by apply (slice_app3 [] (concat (take n fs))).
Qed.

Lemma slice_from_fields {E} (n : nat) (fs : list bytes) (i : Z) :
  i = zlen (concat (take n fs)) -> slice_from (E:=E) (concat fs) i = Ok (concat (drop n fs)).
Proof. intros ->. rewrite <- (take_drop n fs) at 1. rewrite concat_app. by apply slice_from_app. Qed.

Lemma zeroes_add n m : 0 <= n -> 0 <= m -> zeroes (n + m) = zeroes n ++ zeroes m.
Proof. intros. unfold zeroes. by rewrite Z2Nat.inj_add, replicate_add. Qed.

Lemma zlen_zeroes n : 0 <= n -> zlen (zeroes n) = n.
Proof. intros. unfold zlen, zeroes. rewrite length_replicate. lia. Qed.

(** The layout of the packets the builders fill in. *)
Definition ipv4_fields (total proto : Z) (csum src dst : bytes) : list bytes :=
  [[0x45]; [0]; be_bytes 2 total; [0; 0; 0; 0]; [64]; [proto]; csum; src; dst].

Definition ipv6_fields (len proto : Z) (src dst : bytes) : list bytes :=
  [[0x60]; [0; 0; 0]; be_bytes 2 len; [proto]; [64]; src; dst].

Definition tcp_fields (sp dp seq ack flags win : Z) (csum payload : bytes) : list bytes :=
  [be_bytes 2 sp; be_bytes 2 dp; be_bytes 4 seq; be_bytes 4 ack; [0x50]; [flags];
   be_bytes 2 win; csum; [0; 0]; payload].

Definition udp_fields (sp dp len : Z) (csum payload : bytes) : list bytes :=
  [be_bytes 2 sp; be_bytes 2 dp; be_bytes 2 len; csum; payload].

(** The same layouts before anything is written. *)
Definition blank_ipv4 : list bytes :=
  [[0]; [0]; [0; 0]; [0; 0; 0; 0]; [0]; [0]; [0; 0]; zeroes 4; zeroes 4].
Definition blank_ipv6 : list bytes :=
  [[0]; [0; 0; 0]; [0; 0]; [0]; [0]; zeroes 16; zeroes 16].
Definition blank_tcp (n : Z) : list bytes :=
  [[0; 0]; [0; 0]; zeroes 4; zeroes 4; [0]; [0]; [0; 0]; [0; 0]; [0; 0]; zeroes n].
Definition blank_udp (n : Z) : list bytes := [[0; 0]; [0; 0]; [0; 0]; [0; 0]; zeroes n].

Lemma zeroes_fields (fs : list bytes) (k n : Z) :
  0 <= n -> 0 <= k -> concat fs = zeroes k -> zeroes (k + n) = concat (fs ++ [zeroes n]).
Proof. intros Hn Hk H. rewrite concat_app, H, zeroes_add by done. cbn [concat]. by rewrite app_nil_r. Qed.

Lemma zlen_zeroes_4 : zlen (zeroes 4) = 4.
Proof. done. Qed.
Lemma zlen_zeroes_16 : zlen (zeroes 16) = 16.
Proof. done. Qed.
#[local] Hint Rewrite zlen_zeroes_4 zlen_zeroes_16 : zlen.

(** One line of a builder: field [n] is overwritten, or the buffer is cut before it. *)
Ltac fill n :=
  unfold set_at;
  erewrite rbind_ok;
    [| eapply (copy_field n); [reflexivity | cbn [take concat]; len_solve ..]];
  cbn [insert list_insert].

Ltac fill_last n :=
  erewrite (copy_field n); [| reflexivity | cbn [take concat]; len_solve ..];
  cbn [insert list_insert].

Ltac cut_before n :=
  erewrite rbind_ok; [| apply (slice_fields n); cbn [take concat]; len_solve]; cbn [take].

Ltac cut_from n :=
  erewrite rbind_ok; [| apply (slice_from_fields n); cbn [take concat]; len_solve]; cbn [drop].

(** Splits the blank buffer of a packet with a payload of [n] bytes into its fields. *)
Ltac blank fs n :=
  match goal with
  | |- context [zeroes ?t] =>
      replace (zeroes t) with (concat (fs ++ [zeroes n]));
      [| symmetry; replace t with (zlen (concat fs) + n) by (cbn; len_solve);
         apply zeroes_fields; [len_solve | apply zlen_nonneg | reflexivity]]
  end; cbn [app];
  pose proof (zlen_zeroes n).

(** * Lemmas: the checksum *)

(** Sum of the 16-bit words, an odd byte standing for the high half of a word. *)
Fixpoint words_total (data : bytes) : Z :=
  match data with
  | [] => 0
  | [last] => 256 * last
  | a :: b :: rest => be_val [a; b] + words_total rest
  end.

(** The ones' complement sum of RFC 1071: addition with end-around carry.  A receiver
    accepts a datagram when the sum over it, checksum included, is [0xffff]. *)
Definition end_around_add (a b : Z) : Z := let s := a + b in if s >? 65535 then s - 65535 else s.

Fixpoint ones_complement_sum (data : bytes) : Z :=
  match data with
  | [] => 0
  | [last] => 256 * last
  | a :: b :: rest => end_around_add (be_val [a; b]) (ones_complement_sum rest)
  end.

(** Induction two bytes at a time. *)
Lemma bytes_pair_ind (P : bytes -> Prop) :
  P [] -> (forall a, P [a]) -> (forall a b l, P l -> P (a :: b :: l)) -> forall l, P l.
Proof.
  intros H0 H1 H2 l. enough (P l /\ forall a, P (a :: l)) as [? _] by done.
  induction l as [| b l [IH1 IH2]]; split; auto.
Qed.

Lemma be_val_pair a b : be_val [a; b] = 256 * a + b.
Proof. rewrite !be_val_cons, be_val_nil. unfold zlen. cbn. lia. Qed.

Lemma word_sum_range data : forall s, is_u 32 s -> is_u 32 (word_sum s data).
Proof.
  assert (W : forall z, is_u 32 (wrap 32 z)) by (intros z; apply Z.mod_pos_bound; lia).
  induction data as [| a | a b l IH] using bytes_pair_ind; intros s Hs; cbn [word_sum]; auto.
Qed.

Lemma words_total_bound data :
  bytes_ok data -> 0 <= words_total data <= 65535 * ((zlen data + 1) / 2).
Proof.
  induction data as [| a | a b l IH] using bytes_pair_ind; intros Hok; cbn [words_total].
  - unfold zlen. cbn [length Z.of_nat]. zdiv.
  - apply bytes_ok_cons in Hok as [Ha _]. unfold zlen. cbn [length Z.of_nat Pos.of_succ_nat]. unfold is_u in Ha. zdiv.
  - apply bytes_ok_cons in Hok as [Ha [Hb Hl]%bytes_ok_cons]. specialize (IH Hl).
    rewrite be_val_pair, !zlen_cons.
    replace (1 + (1 + zlen l) + 1) with (zlen l + 1 + 1 * 2) by lia.
    rewrite Z.div_add by lia. unfold is_u in *. lia.
Qed.

Lemma word_sum_total data : forall s, bytes_ok data ->
  0 <= s -> s + words_total data < 2 ^ 32 -> word_sum s data = s + words_total data.
Proof.
  induction data as [| a | a b l IH] using bytes_pair_ind; intros s Hok Hs Hb;
    cbn [word_sum words_total] in *.
  - lia.
  - apply bytes_ok_cons in Hok as [Ha _]. rewrite Z.shiftl_mul_pow2 by lia.
    unfold wrap, is_u in *. rewrite Z.mod_small; lia.
  - apply bytes_ok_cons in Hok as [Ha [Hb' Hl]%bytes_ok_cons].
    pose proof (words_total_bound l Hl). rewrite be_val_pair in *. unfold is_u in Ha, Hb'.
    unfold wrap. rewrite Z.mod_small by lia. rewrite IH by (done || lia). lia.
Qed.

Lemma fold_step s : is_u 32 s ->
  wrap 32 (Z.land s 0xffff + Z.shiftr s 16) = s mod 65536 + s / 65536.
Proof.
  intros Hs. change 0xffff with (Z.ones 16). rewrite Z.land_ones, Z.shiftr_div_pow2 by lia.
  unfold wrap, is_u in *. rewrite Z.mod_small; zdiv.
Qed.

(** One turn of the fold keeps the residue modulo [0xffff] and shrinks the sum. *)
Lemma fold_sum_S fuel s : is_u 32 s ->
  fold_sum (S fuel) s = if s <? 65536 then Ok s else fold_sum fuel (s mod 65536 + s / 65536).
Proof.
  intros Hs. cbn [fold_sum]. rewrite fold_step by done. rewrite Z.shiftr_div_pow2 by lia.
  change (2 ^ 16) with 65536. unfold is_u in Hs.
  destruct (Z.ltb_spec s 65536), (Z.eqb_spec (s / 65536) 0); done || zdiv.
Qed.

Lemma fold_sum_spec s : is_u 32 s ->
  exists r, fold_sum 4 s = Ok r /\ 0 <= r <= 65535 /\ r mod 65535 = s mod 65535
            /\ (r = 0 <-> s = 0).
Proof.
  intros Hs. unfold is_u in Hs. change (2 ^ 32) with 4294967296 in Hs.
  rewrite fold_sum_S by (unfold is_u; lia). destruct (Z.ltb_spec s 65536); [exists s; split; [done | lia] |].
  rewrite fold_sum_S by (unfold is_u; zdiv).
  destruct (Z.ltb_spec (s mod 65536 + s / 65536) 65536) as [H1 | H1].
  - eexists. split; [done |]. zdiv.
  - assert (H2 : s mod 65536 + s / 65536 <= 131070) by zdiv.
    set (t := s mod 65536 + s / 65536) in *.
    assert (Ht : t mod 65535 = s mod 65535) by (subst t; zdiv).
    rewrite fold_sum_S by (unfold is_u; zdiv).
    replace (t mod 65536 + t / 65536 <? 65536) with true by zdiv.
    eexists. split; [done |]. zdiv.
Qed.

(** The checksum is always computed and is a non-zero 16-bit number. *)
Lemma internet_checksum_spec data :
  exists c, internet_checksum data = Ok c /\ 1 <= c <= 65535 /\
    (bytes_ok data -> zlen data <= 131074 -> (words_total data + c) mod 65535 = 0).
Proof.
  destruct (fold_sum_spec (word_sum 0 data)) as (r & Hr & Hb & Hm & _).
  { apply word_sum_range. unfold is_u. lia. }
  unfold internet_checksum. rewrite Hr. cbn [mbind res_bind].
  unfold wrap. rewrite Z.mod_small by lia. eexists. split; [done |].
  split; [destruct (Z.eqb_spec (65535 - r) 0); lia |].
  intros Hok Hl. pose proof (words_total_bound data Hok).
  assert ((zlen data + 1) / 2 <= 65537) by zdiv.
  rewrite word_sum_total in Hm by (done || lia).
  destruct (Z.eqb_spec (65535 - r) 0); zdiv.
Qed.

Lemma ones_complement_sum_spec data :
  bytes_ok data ->
  0 <= ones_complement_sum data <= 65535
  /\ ones_complement_sum data mod 65535 = words_total data mod 65535
  /\ (ones_complement_sum data = 0 <-> words_total data = 0) /\ 0 <= words_total data.
Proof.
  induction data as [| a | a b l IH] using bytes_pair_ind; intros Hok;
    cbn [ones_complement_sum words_total].
  - done.
  - apply bytes_ok_cons in Hok as [Ha _]. unfold is_u in Ha. lia.
  - apply bytes_ok_cons in Hok as [Ha [Hb Hl]%bytes_ok_cons].
    destruct (IH Hl) as (? & ? & ? & ?). unfold is_u in *. rewrite be_val_pair.
    unfold end_around_add. cbv zeta. destruct (Z.gtb_spec (256 * a + b + ones_complement_sum l) 65535).
    all: split_and!; zdiv.
Qed.

Lemma words_total_app a b :
  Z.even (zlen a) = true -> words_total (a ++ b) = words_total a + words_total b.
Proof.
  induction a as [| x | x y l IH] using bytes_pair_ind; intros He; cbn [words_total app].
  - done.
  - done.
  - rewrite IH; [lia |]. rewrite !zlen_cons in He.
    by replace (1 + (1 + zlen l)) with (zlen l + 2) in He by lia; rewrite Z.even_add in He;
      destruct (Z.even (zlen l)).
Qed.

(** Writing the checksum into the zero field at an even offset makes the data valid. *)
Lemma checksum_valid (a b : bytes) (c : Z) :
  bytes_ok a -> bytes_ok b -> Z.even (zlen a) = true -> zlen a + 2 + zlen b <= 131074 ->
  internet_checksum (a ++ [0; 0] ++ b) = Ok c ->
  ones_complement_sum (a ++ be_bytes 2 c ++ b) = 0xffff.
Proof.
  intros Ha Hb He Hl Hc.
  destruct (internet_checksum_spec (a ++ [0; 0] ++ b)) as (c' & Hc' & Hr & Hm).
  rewrite Hc in Hc'. injection Hc' as <-.
  assert (Hok : bytes_ok (a ++ be_bytes 2 c ++ b)) by bok.
  destruct (ones_complement_sum_spec _ Hok) as (H1 & H2 & H3 & H4).
  assert (Hz : bytes_ok (a ++ [0; 0] ++ b)) by bok.
  pose proof (words_total_bound _ Hz) as [Hp _].
  specialize (Hm Hz ltac:(len_solve)).
  rewrite !words_total_app in * by done.
  assert (E : words_total (be_bytes 2 c) = c).
  { rewrite be_bytes_2. cbn [words_total]. rewrite be_val_pair. zdiv. }
  assert (words_total [0; 0] = 0) by done.
  rewrite E in *. zdiv.
Qed.

(** * Lemmas: what the builders write *)

Lemma checksum_total data : exists c, internet_checksum data = Ok c /\ 1 <= c <= 65535.
Proof. destruct (internet_checksum_spec data) as (c & ? & ? & _). eauto. Qed.

(** A builder's checksum steps. *)
Ltac checksum_step c H :=
  match goal with
  | |- context [internet_checksum ?d] => destruct (checksum_total d) as (c & H & ?)
  end; rewrite H; cbn [mbind res_bind].

Section images.
Context (src dst : bytes) (src_port dst_port : Z).

Definition ip4_tcp_image (seq ack flags win : Z) (payload out : bytes) : Prop :=
  exists c1 c2,
    let total := 40 + zlen payload in
    let seg csum := concat (tcp_fields src_port dst_port seq ack flags win csum payload) in
    internet_checksum (concat (ipv4_fields total 6 [0; 0] src dst)) = Ok c1
    /\ tcp_checksum_ipv4 src dst (seg [0; 0]) = Ok c2
    /\ out = concat (ipv4_fields total 6 (be_bytes 2 c1) src dst) ++ seg (be_bytes 2 c2).

Definition ip6_tcp_image (seq ack flags win : Z) (payload out : bytes) : Prop :=
  exists c,
    let len := 20 + zlen payload in
    let seg csum := concat (tcp_fields src_port dst_port seq ack flags win csum payload) in
    tcp_checksum_ipv6 src dst (seg [0; 0]) = Ok c
    /\ out = concat (ipv6_fields len 6 src dst) ++ seg (be_bytes 2 c).

Definition ip4_udp_image (payload out : bytes) : Prop :=
  exists c1 c2,
    let total := 28 + zlen payload in
    let seg csum := concat (udp_fields src_port dst_port (8 + zlen payload) csum payload) in
    internet_checksum (concat (ipv4_fields total 17 [0; 0] src dst)) = Ok c1
    /\ udp_checksum_ipv4 src dst (seg [0; 0]) = Ok c2
    /\ out = concat (ipv4_fields total 17 (be_bytes 2 c1) src dst) ++ seg (be_bytes 2 c2).

Definition ip6_udp_image (payload out : bytes) : Prop :=
  exists c,
    let len := 8 + zlen payload in
    let seg csum := concat (udp_fields src_port dst_port len csum payload) in
    udp_checksum_ipv6 src dst (seg [0; 0]) = Ok c
    /\ out = concat (ipv6_fields len 17 src dst) ++ seg (be_bytes 2 c).

Lemma ipv4_tcp_packet_image seq ack flags payload :
  zlen src = 4 -> zlen dst = 4 -> 40 + zlen payload <= 65535 ->
  exists out, build_ipv4_tcp_packet src dst src_port dst_port seq ack flags payload = Ok out
              /\ ip4_tcp_image seq ack flags 65535 payload out.
Proof.
  intros Hs Hd Hp. unfold build_ipv4_tcp_packet. zcase. zcase.
  blank (blank_ipv4 ++ removelast (blank_tcp 0)) (zlen payload).
  unfold blank_ipv4, blank_tcp. cbn [removelast app].
  fill 0%nat. fill 2%nat. fill 4%nat. fill 5%nat. fill 7%nat. fill 8%nat.
  cut_before 9%nat. checksum_step c1 Hc1. fill 6%nat.
  fill 9%nat. fill 10%nat. fill 11%nat. fill 12%nat. fill 13%nat. fill 14%nat. fill 15%nat. fill 18%nat.
  cut_from 9%nat. unfold tcp_checksum_ipv4. checksum_step c2 Hc2. fill_last 16%nat.
  eexists. split; [done |]. exists c1, c2.
  replace (20 + (20 + zlen payload)) with (40 + zlen payload) in * by lia.
  split_and!; [exact Hc1 | exact Hc2 | by rewrite <- concat_app].
Qed.

Lemma ipv6_tcp_packet_image seq ack flags payload :
  zlen src = 16 -> zlen dst = 16 -> 20 + zlen payload <= 65535 ->
  exists out, build_ipv6_tcp_packet src dst src_port dst_port seq ack flags payload = Ok out
              /\ ip6_tcp_image seq ack flags 65535 payload out.
Proof.
  intros Hs Hd Hp. unfold build_ipv6_tcp_packet. zcase.
  blank (blank_ipv6 ++ removelast (blank_tcp 0)) (zlen payload).
  unfold blank_ipv6, blank_tcp. cbn [removelast app].
  fill 0%nat. fill 2%nat. fill 3%nat. fill 4%nat. fill 5%nat. fill 6%nat.
  fill 7%nat. fill 8%nat. fill 9%nat. fill 10%nat. fill 11%nat. fill 12%nat. fill 13%nat. fill 16%nat.
  cut_from 7%nat. unfold tcp_checksum_ipv6. checksum_step c Hc. fill_last 14%nat.
  eexists. split; [done |]. exists c. split; [exact Hc | by rewrite <- concat_app].
Qed.

Lemma ipv4_udp_packet_image payload :
  zlen src = 4 -> zlen dst = 4 -> 28 + zlen payload <= 65535 ->
  exists out, build_ipv4_udp_packet src dst src_port dst_port payload = Ok out
              /\ ip4_udp_image payload out.
Proof.
  intros Hs Hd Hp. unfold build_ipv4_udp_packet. zcase. zcase.
  blank (blank_ipv4 ++ removelast (blank_udp 0)) (zlen payload).
  unfold blank_ipv4, blank_udp. cbn [removelast app].
  fill 0%nat. fill 2%nat. fill 4%nat. fill 5%nat. fill 7%nat. fill 8%nat.
  cut_before 9%nat. checksum_step c1 Hc1. fill 6%nat.
  fill 9%nat. fill 10%nat. fill 11%nat. fill 13%nat.
  cut_from 9%nat. unfold udp_checksum_ipv4. checksum_step c2 Hc2. fill_last 12%nat.
  eexists. split; [done |]. exists c1, c2.
  replace (20 + (8 + zlen payload)) with (28 + zlen payload) in * by lia.
  split_and!; [exact Hc1 | exact Hc2 | by rewrite <- concat_app].
Qed.

Lemma ipv6_udp_packet_image payload :
  zlen src = 16 -> zlen dst = 16 -> 8 + zlen payload <= 65535 ->
  exists out, build_ipv6_udp_packet src dst src_port dst_port payload = Ok out
              /\ ip6_udp_image payload out.
Proof.
  intros Hs Hd Hp. unfold build_ipv6_udp_packet. zcase.
  blank (blank_ipv6 ++ removelast (blank_udp 0)) (zlen payload).
  unfold blank_ipv6, blank_udp. cbn [removelast app].
  fill 0%nat. fill 2%nat. fill 3%nat. fill 4%nat. fill 5%nat. fill 6%nat.
  fill 7%nat. fill 8%nat. fill 9%nat. fill 11%nat.
  cut_from 7%nat. unfold udp_checksum_ipv6. checksum_step c Hc. fill_last 10%nat.
  eexists. split; [done |]. exists c. split; [exact Hc | by rewrite <- concat_app].
Qed.

Lemma be_bytes_zero : be_bytes 4 0 = zeroes 4 /\ be_bytes 2 0 = [0; 0].
Proof. by vm_compute. Qed.

Lemma ipv4_tcp_rst_image :
  zlen src = 4 -> zlen dst = 4 ->
  exists out, build_ipv4_tcp_rst src dst src_port dst_port = Ok out
              /\ ip4_tcp_image 0 0 4 0 [] out.
Proof.
  intros Hs Hd. unfold build_ipv4_tcp_rst.
  blank (blank_ipv4 ++ removelast (blank_tcp 0)) 0.
  unfold blank_ipv4, blank_tcp. cbn [removelast app].
  fill 0%nat. fill 2%nat. fill 4%nat. fill 5%nat. fill 7%nat. fill 8%nat.
  cut_before 9%nat. checksum_step c1 Hc1. fill 6%nat.
  fill 9%nat. fill 10%nat. fill 13%nat. fill 14%nat.
  cut_from 9%nat. unfold tcp_checksum_ipv4. checksum_step c2 Hc2. fill_last 16%nat.
  eexists. split; [done |]. exists c1, c2. destruct be_bytes_zero as [Z4 Z2].
  unfold tcp_fields. rewrite Z4, Z2.
  split_and!; [exact Hc1 | exact Hc2 | by rewrite <- concat_app].
Qed.

Lemma ipv6_tcp_rst_image :
  zlen src = 16 -> zlen dst = 16 ->
  exists out, build_ipv6_tcp_rst src dst src_port dst_port = Ok out
              /\ ip6_tcp_image 0 0 4 0 [] out.
Proof.
  intros Hs Hd. unfold build_ipv6_tcp_rst. cbv zeta.
  blank (blank_ipv6 ++ removelast (blank_tcp 0)) 0.
  unfold blank_ipv6, blank_tcp. cbn [removelast app].
  fill 0%nat. fill 2%nat. fill 3%nat. fill 4%nat. fill 5%nat. fill 6%nat.
  fill 7%nat. fill 8%nat. fill 11%nat. fill 12%nat.
  cut_from 7%nat. unfold tcp_checksum_ipv6. checksum_step c Hc. fill_last 14%nat.
  eexists. split; [done |]. exists c. destruct be_bytes_zero as [Z4 Z2].
  unfold tcp_fields. rewrite Z4, Z2. split; [exact Hc | by rewrite <- concat_app].
Qed.

End images.

(** * Lemmas: reading fields back *)

Section fields.
Context {E : Type} (n : nat) (fs : list bytes) (i : Z).

Lemma slice_field (f : bytes) j :
  fs !! n = Some f -> zlen (concat (take n fs)) = i -> j = i + zlen f ->
  slice (E:=E) (concat fs) i j = Ok f.
Proof.
  intros Hf Hi Hj. apply (slice_split _ (concat (take n fs)) f (concat (drop (S n) fs))); [| done | lia].
  rewrite <- (take_drop_middle fs n f Hf) at 1. by rewrite concat_app, concat_cons.
Qed.

Lemma idx_in_field (a : bytes) (b : Z) (r : bytes) :
  fs !! n = Some (a ++ b :: r) -> zlen (concat (take n fs)) + zlen a = i ->
  idx (E:=E) (concat fs) i = Ok b.
Proof.
  intros Hf Hi. rewrite <- (take_drop_middle fs n _ Hf). rewrite concat_app, concat_cons.
  rewrite <- app_assoc, app_assoc. apply idx_app_mid. len_solve.
Qed.

Lemma be16_field (z : Z) :
  fs !! n = Some (be_bytes 2 z) -> zlen (concat (take n fs)) = i -> is_u 16 z ->
  be16 (E:=E) (concat fs) i = Ok z.
Proof.
  intros Hf Hi Hz. pose proof (be_val_be_bytes 2 z Hz) as Hv. rewrite be_bytes_2 in *.
  set (x := z / 256 mod 256) in *. set (y := z mod 256) in *. unfold be16.
  rewrite (idx_in_field [] x [y]) by (done || len_solve). cbn [mbind res_bind].
  rewrite <- Hv. pose proof (zlen_cons x ([] : bytes)).
  erewrite rbind_ok; [done |].
  assert (Hi' : zlen (concat (take n fs)) + zlen [x] = i + 1) by len_solve.
  clear Hi. revert Hi'. generalize (i + 1). intros i' Hi'.
  rewrite <- (take_drop_middle fs n _ Hf), concat_app, concat_cons.
  change ([x; y] ++ concat (drop (S n) fs)) with ([x] ++ y :: concat (drop (S n) fs)).
  rewrite app_assoc. apply idx_app_mid. len_solve.
Qed.

End fields.

Lemma be_bytes_4 z : be_bytes 4 z =
  [z / 16777216 mod 256; z / 65536 mod 256; z / 256 mod 256; z mod 256].
Proof.
  rewrite 4!be_bytes_cons, be_bytes_0. change (z / 256 ^ Z.of_nat 0) with (z / 1).
  by rewrite Z.div_1_r.
Qed.

Lemma be32_field {E} (n : nat) (fs : list bytes) (i z : Z) :
  fs !! n = Some (be_bytes 4 z) -> zlen (concat (take n fs)) = i -> is_u 32 z ->
  be32 (E:=E) (concat fs) i = Ok z.
Proof.
  intros Hf Hi Hz. rewrite <- (be_val_be_bytes 4 z Hz). rewrite be_bytes_4 in *.
  revert Hf. generalize (z / 16777216 mod 256) (z / 65536 mod 256) (z / 256 mod 256) (z mod 256).
  intros a b c d Hf. unfold be32.
  rewrite (idx_in_field n fs i [] a [b; c; d]) by (done || len_solve). cbn [mbind res_bind].
  rewrite (idx_in_field n fs (i + 1) [a] b [c; d]) by (done || len_solve). cbn [mbind res_bind].
  rewrite (idx_in_field n fs (i + 2) [a; b] c [d]) by (done || len_solve). cbn [mbind res_bind].
  rewrite (idx_in_field n fs (i + 3) [a; b; c] d []) by (done || len_solve). done.
Qed.

Ltac fld := first [reflexivity | cbn [take concat]; len_solve].
Ltac field16 n := erewrite rbind_ok; [| eapply (be16_field n); fld].
Ltac field32 n := erewrite rbind_ok; [| eapply (be32_field n); fld].
Ltac field8 n := erewrite rbind_ok; [| eapply (idx_in_field n _ _ []); fld].
Ltac field_slice n := erewrite rbind_ok; [| eapply (slice_field n); fld].

(** Makes the length of the buffer known to the comparisons of the code. *)
Ltac known_len n :=
  match goal with
  | |- context [zlen (concat ?fs)] =>
      let H := fresh "Hlen" in
      assert (H : zlen (concat fs) = n) by (cbn [concat]; len_solve); rewrite !H
  end.

(** Decides the comparisons of the code whose outcome the lengths determine. *)
Ltac known_if :=
  repeat match goal with
  | |- context [?x <? ?y] => first [replace (x <? y) with false by lia | replace (x <? y) with true by lia]
  | |- context [?x >? ?y] => first [replace (x >? y) with false by lia | replace (x >? y) with true by lia]
  end; cbn [orb negb].

(** What the parser says of a packet with the given headers and payload. *)
Definition tcp_meta (src dst : IpAddr) (sp dp ip_len seq ack flags : Z) (payload : bytes) : IpPacket :=
  mkIpPacket src dst sp dp Tcp ip_len (ip_len + 20) ip_len (zlen payload)
    (Some seq) (Some ack) (Some flags).

Definition udp_meta (src dst : IpAddr) (sp dp ip_len : Z) (payload : bytes) : IpPacket :=
  mkIpPacket src dst sp dp Udp ip_len (ip_len + 8) ip_len (zlen payload) None None None.

(** Identifies the length of the payload. *)
Ltac same_len :=
  match goal with
  | |- context [mkIpPacket _ _ _ _ _ _ _ _ (?a - ?b)] =>
      match goal with |- context [tcp_meta _ _ _ _ _ _ _ _ ?p] => replace (a - b) with (zlen p) by lia
                 | |- context [udp_meta _ _ _ _ _ ?p] => replace (a - b) with (zlen p) by lia end
  end; done.

Section parse_images.
Context (src dst : bytes) (sp dp : Z) (payload_ : bytes).
Context (Hsp : is_u 16 sp) (Hdp : is_u 16 dp).

Lemma parse_ip4_tcp seq ack flags win out :
  zlen src = 4 -> zlen dst = 4 -> 40 + zlen payload_ <= 65535 -> is_u 32 seq -> is_u 32 ack ->
  ip4_tcp_image src dst sp dp seq ack flags win payload_ out ->
  parse_ip_packet out = Ok (tcp_meta (V4 src) (V4 dst) sp dp 20 seq ack flags payload_)
  /\ payload (tcp_meta (V4 src) (V4 dst) sp dp 20 seq ack flags payload_) out = Some payload_.
Proof.
  pose proof (zlen_nonneg payload_).
  intros Hs Hd Hp Hseq Hack (c1 & c2 & _ & _ & ->). rewrite <- concat_app.
  unfold ipv4_fields, tcp_fields. cbn [app]. split.
  - change (parse_ip_packet (concat ?fs)) with (parse_ipv4 (concat fs)). unfold parse_ipv4.
    known_len (40 + zlen payload_). known_if. field8 0%nat. change (Z.land 69 15 * 4) with 20. known_if.
    field16 2%nat. known_if. field8 5%nat.
    erewrite rbind_ok; [| unfold ipv4_transport; change (6 =? 6) with true; cbn iota; known_if;
      field32 11%nat; field32 12%nat; field8 14%nat; field8 13%nat;
      change (Z.shiftr 80 4 * 4) with 20; known_if; reflexivity].
    cbn beta iota. field_slice 7%nat. field_slice 8%nat. field16 9%nat. field16 10%nat. cbn [mret res_ret].
    unfold saturating_sub. rewrite Z.max_r by lia. same_len.
  - unfold payload, get_range, tcp_meta. cbn [payload_offset payload_len].
    rewrite (slice_field 18%nat _ (20 + 20) payload_); fld.
Qed.

Lemma parse_ip4_udp out :
  zlen src = 4 -> zlen dst = 4 -> 28 + zlen payload_ <= 65535 ->
  ip4_udp_image src dst sp dp payload_ out ->
  parse_ip_packet out = Ok (udp_meta (V4 src) (V4 dst) sp dp 20 payload_)
  /\ payload (udp_meta (V4 src) (V4 dst) sp dp 20 payload_) out = Some payload_.
Proof.
  pose proof (zlen_nonneg payload_).
  intros Hs Hd Hp (c1 & c2 & _ & _ & ->). rewrite <- concat_app.
  unfold ipv4_fields, udp_fields. cbn [app]. split.
  - change (parse_ip_packet (concat ?fs)) with (parse_ipv4 (concat fs)). unfold parse_ipv4.
    known_len (28 + zlen payload_). known_if. field8 0%nat. change (Z.land 69 15 * 4) with 20. known_if.
    field16 2%nat. known_if. field8 5%nat.
    erewrite rbind_ok; [| unfold ipv4_transport; change (17 =? 6) with false;
      change (17 =? 17) with true; cbn iota; known_if; field16 11%nat; known_if; reflexivity].
    cbn beta iota. field_slice 7%nat. field_slice 8%nat. field16 9%nat. field16 10%nat. cbn [mret res_ret].
    unfold saturating_sub. rewrite Z.max_r by lia. same_len.
  - unfold payload, get_range, udp_meta. cbn [payload_offset payload_len].
    rewrite (slice_field 13%nat _ (20 + 8) payload_); fld.
Qed.

Lemma ext_walk_stop fuel buf total n off :
  ((n =? 6) || (n =? 17) || (n =? 58)) = true -> ext_walk (S fuel) buf total n off = Ok (n, off).
Proof. intros H. cbn [ext_walk]. by rewrite H. Qed.

Lemma parse_ip6_tcp seq ack flags win out :
  zlen src = 16 -> zlen dst = 16 -> 20 + zlen payload_ <= 65535 -> is_u 32 seq -> is_u 32 ack ->
  ip6_tcp_image src dst sp dp seq ack flags win payload_ out ->
  parse_ip_packet out = Ok (tcp_meta (V6 src) (V6 dst) sp dp 40 seq ack flags payload_)
  /\ payload (tcp_meta (V6 src) (V6 dst) sp dp 40 seq ack flags payload_) out = Some payload_.
Proof.
  pose proof (zlen_nonneg payload_).
  intros Hs Hd Hp Hseq Hack (c & _ & ->). rewrite <- concat_app.
  unfold ipv6_fields, tcp_fields. cbn [app]. split.
  - change (parse_ip_packet (concat ?fs)) with (parse_ipv6 (concat fs)). unfold parse_ipv6.
    known_len (60 + zlen payload_). known_if. field16 2%nat. known_if.
    field_slice 5%nat. field_slice 6%nat. field8 3%nat. rewrite ext_walk_stop by done.
    cbn [mbind res_bind]. change (negb _) with false. cbn iota.
    unfold saturating_sub. rewrite !Z.max_r by lia.
    erewrite rbind_ok; [| unfold ipv6_transport; change (6 =? 6) with true; cbn iota;
      known_len (60 + zlen payload_); known_if;
      field32 9%nat; field32 10%nat; field8 12%nat; field8 11%nat;
      change (Z.shiftr 80 4 * 4) with 20; known_if; reflexivity].
    cbn beta iota. known_if. field16 7%nat. field16 8%nat. cbn [mret res_ret]. rewrite Z.max_r by lia. same_len.
  - unfold payload, get_range, tcp_meta. cbn [payload_offset payload_len].
    rewrite (slice_field 16%nat _ (40 + 20) payload_); fld.
Qed.

Lemma parse_ip6_udp out :
  zlen src = 16 -> zlen dst = 16 -> 8 + zlen payload_ <= 65535 ->
  ip6_udp_image src dst sp dp payload_ out ->
  parse_ip_packet out = Ok (udp_meta (V6 src) (V6 dst) sp dp 40 payload_)
  /\ payload (udp_meta (V6 src) (V6 dst) sp dp 40 payload_) out = Some payload_.
Proof.
  pose proof (zlen_nonneg payload_).
  intros Hs Hd Hp (c & _ & ->). rewrite <- concat_app.
  unfold ipv6_fields, udp_fields. cbn [app]. split.
  - change (parse_ip_packet (concat ?fs)) with (parse_ipv6 (concat fs)). unfold parse_ipv6.
    known_len (48 + zlen payload_). known_if. field16 2%nat. known_if.
    field_slice 5%nat. field_slice 6%nat. field8 3%nat. rewrite ext_walk_stop by done.
    cbn [mbind res_bind]. change (negb _) with false. cbn iota.
    unfold saturating_sub. rewrite !Z.max_r by lia.
    erewrite rbind_ok; [| unfold ipv6_transport; change (17 =? 6) with false;
      change (17 =? 17) with true; cbn iota; known_len (48 + zlen payload_); known_if;
      field16 9%nat; known_if; reflexivity].
    cbn beta iota. known_if. field16 7%nat. field16 8%nat. cbn [mret res_ret]. rewrite Z.max_r by lia. same_len.
  - unfold payload, get_range, udp_meta. cbn [payload_offset payload_len].
    rewrite (slice_field 11%nat _ (40 + 8) payload_); fld.
Qed.

End parse_images.

(** * Theorems: building and parsing *)

(** Octets and port of a socket address are those of Rust's types. *)
Definition wf_ip (a : IpAddr) : Prop :=
  match a with V4 o => zlen o = 4 /\ bytes_ok o | V6 o => zlen o = 16 /\ bytes_ok o end.

Definition ip_header_len (a : IpAddr) : Z := match a with V4 _ => 20 | V6 _ => 40 end.

Definition same_family (a b : IpAddr) : bool :=
  match a, b with V4 _, V4 _ | V6 _, V6 _ => true | _, _ => false end.

(** Largest payload behind a transport header of [h] bytes: an IPv4 packet counts its own
    header in its 16-bit length, an IPv6 packet does not. *)
Definition max_payload (a : IpAddr) (h : Z) : Z :=
  match a with V4 _ => 65535 - 20 - h | V6 _ => 65535 - h end.

#[global] Instance wf_ip_dec a : Decision (wf_ip a).
Proof. destruct a; simpl; apply _. Defined.

(** A built TCP packet is the image of its fields. *)
Definition tcp_image (s d : IpAddr) (sp dp seq ack flags win : Z) (payload out : bytes) : Prop :=
  match s, d with
  | V4 s, V4 d => ip4_tcp_image s d sp dp seq ack flags win payload out
  | V6 s, V6 d => ip6_tcp_image s d sp dp seq ack flags win payload out
  | _, _ => False
  end.

Definition udp_image (s d : IpAddr) (sp dp : Z) (payload out : bytes) : Prop :=
  match s, d with
  | V4 s, V4 d => ip4_udp_image s d sp dp payload out
  | V6 s, V6 d => ip6_udp_image s d sp dp payload out
  | _, _ => False
  end.

Lemma parse_tcp_image s d sp dp seq ack flags win pl out :
  wf_ip s -> wf_ip d -> is_u 16 sp -> is_u 16 dp -> is_u 32 seq -> is_u 32 ack ->
  zlen pl <= max_payload s 20 ->
  tcp_image s d sp dp seq ack flags win pl out ->
  parse_ip_packet out = Ok (tcp_meta s d sp dp (ip_header_len s) seq ack flags pl)
  /\ payload (tcp_meta s d sp dp (ip_header_len s) seq ack flags pl) out = Some pl.
Proof.
  intros Hs Hd ? ? ? ? Hp H. destruct s as [s | s], d as [d | d]; simpl in *; try done.
  - eapply parse_ip4_tcp; eauto; tauto || lia.
  - eapply parse_ip6_tcp; eauto; tauto || lia.
Qed.

Lemma parse_udp_image s d sp dp pl out :
  wf_ip s -> wf_ip d -> is_u 16 sp -> is_u 16 dp -> zlen pl <= max_payload s 8 ->
  udp_image s d sp dp pl out ->
  parse_ip_packet out = Ok (udp_meta s d sp dp (ip_header_len s) pl)
  /\ payload (udp_meta s d sp dp (ip_header_len s) pl) out = Some pl.
Proof.
  intros Hs Hd ? ? Hp H. destruct s as [s | s], d as [d | d]; simpl in *; try done.
  - eapply parse_ip4_udp; eauto; tauto || lia.
  - eapply parse_ip6_udp; eauto; tauto || lia.
Qed.

Lemma build_tcp_packet_image (s d : SocketAddr) seq ack flags pl :
  wf_ip (sa_ip s) -> wf_ip (sa_ip d) ->
  if same_family (sa_ip s) (sa_ip d) && (zlen pl <=? max_payload (sa_ip s) 20) then
    exists out, build_tcp_packet s d seq ack flags pl = Ok out
      /\ tcp_image (sa_ip s) (sa_ip d) (sa_port s) (sa_port d) seq ack flags 65535 pl out
  else build_tcp_packet s d seq ack flags pl = none.
Proof.
  intros Hs Hd. unfold build_tcp_packet.
  destruct s as [[s | s] sp], d as [[d | d] dp]; simpl in *; try done.
  - destruct (Z.leb_spec (zlen pl) (65535 - 20 - 20)).
    + apply ipv4_tcp_packet_image; tauto || lia.
    + unfold build_ipv4_tcp_packet. by repeat zcase.
  - destruct (Z.leb_spec (zlen pl) (65535 - 20)).
    + apply ipv6_tcp_packet_image; tauto || lia.
    + unfold build_ipv6_tcp_packet. by zcase.
Qed.

Lemma build_udp_response_image (r : IpPacket) pl :
  wf_ip (src r) -> wf_ip (dst r) ->
  if bool_decide (protocol r = Udp) && same_family (src r) (dst r)
     && (zlen pl <=? max_payload (dst r) 8) then
    exists out, build_udp_response_packet r pl = Ok out
      /\ udp_image (dst r) (src r) (dst_port r) (src_port r) pl out
  else build_udp_response_packet r pl = none.
Proof.
  intros Hs Hd. unfold build_udp_response_packet. repeat case_bool_decide; try done.
  destruct (src r) as [s | s], (dst r) as [d | d]; simpl in *; try done.
  - destruct (Z.leb_spec (zlen pl) (65535 - 20 - 8)).
    + apply ipv4_udp_packet_image; tauto || lia.
    + unfold build_ipv4_udp_packet. by repeat zcase.
  - destruct (Z.leb_spec (zlen pl) (65535 - 8)).
    + apply ipv6_udp_packet_image; tauto || lia.
    + unfold build_ipv6_udp_packet. by zcase.
Qed.

Lemma build_tcp_rst_image (r : IpPacket) :
  wf_ip (src r) -> wf_ip (dst r) ->
  if bool_decide (protocol r = Tcp) && same_family (src r) (dst r) then
    exists out, build_tcp_rst r = Ok out
      /\ tcp_image (dst r) (src r) (dst_port r) (src_port r) 0 0 4 0 [] out
  else build_tcp_rst r = none.
Proof.
  intros Hs Hd. unfold build_tcp_rst. repeat case_bool_decide; try done.
  destruct (src r) as [s | s], (dst r) as [d | d]; simpl in *; try done.
  - apply ipv4_tcp_rst_image; tauto.
  - apply ipv6_tcp_rst_image; tauto.
Qed.

(** The packets written to the device are read back exactly: a TCP packet is built
    exactly when both addresses are of one family and the payload fits the 16-bit length
    fields, and then parses to the addresses, ports, sequence and acknowledgement numbers,
    flags and payload it was built from; an UDP response and a reset parse to a packet with
    source and destination of the request exchanged, and are refused for any other protocol. *)
Theorem tun_packet_roundtrip (s d : SocketAddr) (seq ack flags : Z) (pl : bytes) (r : IpPacket) :
  wf_ip (sa_ip s) -> wf_ip (sa_ip d) -> is_u 16 (sa_port s) -> is_u 16 (sa_port d) ->
  is_u 32 seq -> is_u 32 ack ->
  wf_ip (src r) -> wf_ip (dst r) -> is_u 16 (src_port r) -> is_u 16 (dst_port r) ->
  (if same_family (sa_ip s) (sa_ip d) && (zlen pl <=? max_payload (sa_ip s) 20) then
     exists out p, build_tcp_packet s d seq ack flags pl = Ok out /\ parse_ip_packet out = Ok p
       /\ p = tcp_meta (sa_ip s) (sa_ip d) (sa_port s) (sa_port d) (ip_header_len (sa_ip s))
                seq ack flags pl
       /\ payload p out = Some pl
   else build_tcp_packet s d seq ack flags pl = none)
  /\ (if bool_decide (protocol r = Udp) && same_family (src r) (dst r)
         && (zlen pl <=? max_payload (dst r) 8) then
        exists out p, build_udp_response_packet r pl = Ok out /\ parse_ip_packet out = Ok p
          /\ p = udp_meta (dst r) (src r) (dst_port r) (src_port r) (ip_header_len (dst r)) pl
          /\ payload p out = Some pl
      else build_udp_response_packet r pl = none)
  /\ (if bool_decide (protocol r = Tcp) && same_family (src r) (dst r) then
        exists out p, build_tcp_rst r = Ok out /\ parse_ip_packet out = Ok p
          /\ p = tcp_meta (dst r) (src r) (dst_port r) (src_port r) (ip_header_len (dst r)) 0 0 4 []
      else build_tcp_rst r = none).
Proof.
  intros Hs Hd ? ? ? ? Hrs Hrd ? ?. split_and!.
  - pose proof (build_tcp_packet_image s d seq ack flags pl Hs Hd) as H'. destruct (_ && _) eqn:Hc; [| done].
    apply andb_prop in Hc as [_ Hle%Z.leb_le]. destruct H' as (out & Hb & Hi).
    apply parse_tcp_image in Hi as []; eauto 10.
  - pose proof (build_udp_response_image r pl Hrs Hrd) as H'. destruct (_ && _) eqn:Hc; [| done].
    apply andb_prop in Hc as [_ Hle%Z.leb_le]. destruct H' as (out & Hb & Hi).
    apply parse_udp_image in Hi as []; eauto 10.
  - pose proof (build_tcp_rst_image r Hrs Hrd) as H'. destruct (_ && _) eqn:Hc; [| done].
    destruct H' as (out & Hb & Hi).
    apply parse_tcp_image in Hi as []; eauto 10; [done | done | destruct (dst r); cbn; done].
Qed.

Definition example_request : IpPacket :=
  mkIpPacket (V4 [10; 0; 0; 2]) (V4 [8; 8; 8; 8]) 40000 53 Udp 20 28 20 4 None None None.

Lemma tun_packet_roundtrip_witness :
  exists out, build_tcp_packet (mkSocketAddr (V4 [8; 8; 8; 8]) 443) (mkSocketAddr (V4 [10; 0; 0; 2]) 40000)
                7 9 0x18 (lit "hello") = Ok out
              /\ parse_ip_packet out
                 = Ok (tcp_meta (V4 [8; 8; 8; 8]) (V4 [10; 0; 0; 2]) 443 40000 20 7 9 0x18 (lit "hello")).
Proof.
  destruct (tun_packet_roundtrip (mkSocketAddr (V4 [8; 8; 8; 8]) 443)
              (mkSocketAddr (V4 [10; 0; 0; 2]) 40000) 7 9 0x18 (lit "hello") example_request)
    as [(out & p & Hb & Hp & -> & _) _];
    [apply (bool_decide_unpack _); vm_compute; exact I .. |].
  exists out. split; [exact Hb | exact Hp].
Defined.

(** ** Checksums *)

(** The pseudo header of RFC 768 and 793 (IPv4) and RFC 8200 (IPv6). *)
Definition pseudo_header (s d : IpAddr) (proto len : Z) : bytes :=
  match s, d with
  | V4 s, V4 d => s ++ d ++ [0; proto] ++ be_bytes 2 len
  | V6 s, V6 d => s ++ d ++ be_bytes 4 len ++ [0; 0; 0; proto]
  | _, _ => []
  end.

(** A receiver's checks: the header sum of IPv4 and the transport sum. *)
Definition checksums_accepted (s d : IpAddr) (proto : Z) (out : bytes) : Prop :=
  let seg := drop (Z.to_nat (ip_header_len s)) out in
  match s with
  | V4 _ => ones_complement_sum (take (Z.to_nat (ip_header_len s)) out) = 0xffff
  | V6 _ => True
  end
  /\ ones_complement_sum (pseudo_header s d proto (zlen seg) ++ seg) = 0xffff.

(** Data made of fields with the checksum in one of them, behind an even number of bytes. *)
Lemma fields_valid (a b : list bytes) (c : Z) :
  bytes_ok (concat a) -> bytes_ok (concat b) -> Z.even (zlen (concat a)) = true ->
  zlen (concat a) + 2 + zlen (concat b) <= 131074 ->
  internet_checksum (concat (a ++ [0; 0] :: b)) = Ok c ->
  ones_complement_sum (concat (a ++ be_bytes 2 c :: b)) = 0xffff.
Proof. rewrite !concat_app, !concat_cons. apply checksum_valid. Qed.

Lemma ipv4_header_valid total proto s d c :
  is_u 8 proto -> zlen s = 4 -> zlen d = 4 -> bytes_ok s -> bytes_ok d ->
  internet_checksum (concat (ipv4_fields total proto [0; 0] s d)) = Ok c ->
  ones_complement_sum (concat (ipv4_fields total proto (be_bytes 2 c) s d)) = 0xffff.
Proof.
  intros Hp Hs Hd ? ? Hc.
  apply (fields_valid [[0x45]; [0]; be_bytes 2 total; [0; 0; 0; 0]; [64]; [proto]] [s; d] c);
    [cbn [concat]; bok .. | | | exact Hc]; cbn [concat]; autorewrite with zlen; [done | len_solve].
Qed.

Lemma tcp_segment_valid ph sp dp seq ack flags win pl c :
  bytes_ok (concat ph) -> Z.even (zlen (concat ph)) = true -> zlen (concat ph) <= 40 ->
  is_u 8 flags -> bytes_ok pl -> zlen pl <= 65515 ->
  internet_checksum (concat (ph ++ tcp_fields sp dp seq ack flags win [0; 0] pl)) = Ok c ->
  ones_complement_sum (concat (ph ++ tcp_fields sp dp seq ack flags win (be_bytes 2 c) pl)) = 0xffff.
Proof.
  intros Hok He Hl ? ? ? Hc. unfold tcp_fields in *.
  change (?a1 :: ?a2 :: ?a3 :: ?a4 :: ?a5 :: ?a6 :: ?a7 :: ?t) with ([a1; a2; a3; a4; a5; a6; a7] ++ t) in *.
  rewrite app_assoc in *. apply fields_valid; [| | | | exact Hc]; rewrite ?concat_app; cbn [concat].
  - bok.
  - bok.
  - rewrite zlen_app, Z.even_add, He. autorewrite with zlen. done.
  - len_solve.
Qed.

Lemma udp_segment_valid ph sp dp len pl c :
  bytes_ok (concat ph) -> Z.even (zlen (concat ph)) = true -> zlen (concat ph) <= 40 ->
  bytes_ok pl -> zlen pl <= 65527 ->
  internet_checksum (concat (ph ++ udp_fields sp dp len [0; 0] pl)) = Ok c ->
  ones_complement_sum (concat (ph ++ udp_fields sp dp len (be_bytes 2 c) pl)) = 0xffff.
Proof.
  intros Hok He Hl ? ? Hc. unfold udp_fields in *.
  change (?a1 :: ?a2 :: ?a3 :: ?t) with ([a1; a2; a3] ++ t) in *.
  rewrite app_assoc in *. apply fields_valid; [| | | | exact Hc]; rewrite ?concat_app; cbn [concat].
  - bok.
  - bok.
  - rewrite zlen_app, Z.even_add, He. autorewrite with zlen. done.
  - len_solve.
Qed.

(** The pseudo header as fields. *)
Definition pseudo4 (s d : bytes) (proto len : Z) : list bytes := [s; d; [0; proto]; be_bytes 2 len].
Definition pseudo6 (s d : bytes) (proto len : Z) : list bytes :=
  [s; d; be_bytes 4 len; [0; 0; 0; proto]].

Lemma pseudo_fields4 s d proto len fs :
  s ++ d ++ [0; proto] ++ be_bytes 2 len ++ concat fs = concat (pseudo4 s d proto len ++ fs).
Proof. unfold pseudo4. cbn [concat app]. done. Qed.

Lemma pseudo_fields6 s d proto len fs :
  s ++ d ++ be_bytes 4 len ++ [0; 0; 0; proto] ++ concat fs = concat (pseudo6 s d proto len ++ fs).
Proof. unfold pseudo6. cbn [concat app]. done. Qed.

Lemma zlen_tcp_fields sp dp seq ack flags win cs pl :
  zlen cs = 2 -> zlen (concat (tcp_fields sp dp seq ack flags win cs pl)) = 20 + zlen pl.
Proof. intros. unfold tcp_fields. cbn [concat]. len_solve. Qed.

Lemma zlen_udp_fields sp dp len cs pl :
  zlen cs = 2 -> zlen (concat (udp_fields sp dp len cs pl)) = 8 + zlen pl.
Proof. intros. unfold udp_fields. cbn [concat]. len_solve. Qed.

(** Closes the side conditions of the segment lemmas for a pseudo header. *)
Ltac pseudo_side :=
  unfold pseudo4, pseudo6; cbn [concat];
  first [assumption | bok; fail | len_solve; fail
        | autorewrite with zlen; repeat match goal with H : zlen _ = _ |- _ => rewrite H end; reflexivity].

(** A packet with a known header length, cut at the transport header. *)
Lemma header_cut (h seg : bytes) n :
  n = zlen h -> drop (Z.to_nat n) (h ++ seg) = seg /\ take (Z.to_nat n) (h ++ seg) = h.
Proof. intros. split; [by apply drop_app_zlen | by apply take_app_zlen]. Qed.

Lemma zlen_ipv4_fields total proto cs s d :
  zlen cs = 2 -> zlen s = 4 -> zlen d = 4 -> 20 = zlen (concat (ipv4_fields total proto cs s d)).
Proof. intros. unfold ipv4_fields. cbn [concat]. len_solve. Qed.

Lemma zlen_ipv6_fields len proto s d :
  zlen s = 16 -> zlen d = 16 -> 40 = zlen (concat (ipv6_fields len proto s d)).
Proof. intros. unfold ipv6_fields. cbn [concat]. len_solve. Qed.

Lemma tcp_accepted s d sp dp seq ack flags win pl out :
  wf_ip s -> wf_ip d -> is_u 8 flags -> bytes_ok pl -> zlen pl <= max_payload s 20 ->
  tcp_image s d sp dp seq ack flags win pl out -> checksums_accepted s d 6 out.
Proof.
  intros Hs Hd Hf Hok Hpl H. unfold checksums_accepted, pseudo_header.
  destruct s as [s | s], d as [d | d]; try done;
    cbn [wf_ip max_payload tcp_image udp_image ip_header_len] in *;
    destruct Hs as [Hs Hsok], Hd as [Hd Hdok].
  - destruct H as (c1 & c2 & H1 & H2 & ->).
    destruct (header_cut _ (concat (tcp_fields sp dp seq ack flags win (be_bytes 2 c2) pl)) _
                (zlen_ipv4_fields (40 + zlen pl) 6 (be_bytes 2 c1) s d eq_refl Hs Hd)) as [Ed Et].
    rewrite Ed, Et. split; [apply ipv4_header_valid; done || (unfold is_u; lia) |].
    unfold tcp_checksum_ipv4 in H2. rewrite <- !app_assoc.
    rewrite pseudo_fields4 in *. rewrite zlen_tcp_fields in * by done.
    apply tcp_segment_valid; try pseudo_side.
  - destruct H as (c & H2 & ->).
    destruct (header_cut _ (concat (tcp_fields sp dp seq ack flags win (be_bytes 2 c) pl)) _
                (zlen_ipv6_fields (20 + zlen pl) 6 s d Hs Hd)) as [Ed _].
    rewrite Ed. split; [done |].
    unfold tcp_checksum_ipv6 in H2. rewrite <- !app_assoc.
    rewrite pseudo_fields6 in *. rewrite zlen_tcp_fields in * by done.
    apply tcp_segment_valid; try pseudo_side.
Qed.

Lemma udp_accepted s d sp dp pl out :
  wf_ip s -> wf_ip d -> bytes_ok pl -> zlen pl <= max_payload s 8 ->
  udp_image s d sp dp pl out -> checksums_accepted s d 17 out.
Proof.
  intros Hs Hd Hok Hpl H. unfold checksums_accepted, pseudo_header.
  destruct s as [s | s], d as [d | d]; try done;
    cbn [wf_ip max_payload tcp_image udp_image ip_header_len] in *;
    destruct Hs as [Hs Hsok], Hd as [Hd Hdok].
  - destruct H as (c1 & c2 & H1 & H2 & ->).
    destruct (header_cut _ (concat (udp_fields sp dp (8 + zlen pl) (be_bytes 2 c2) pl)) _
                (zlen_ipv4_fields (28 + zlen pl) 17 (be_bytes 2 c1) s d eq_refl Hs Hd)) as [Ed Et].
    rewrite Ed, Et. split; [apply ipv4_header_valid; done || (unfold is_u; lia) |].
    unfold udp_checksum_ipv4 in H2. rewrite <- !app_assoc.
    rewrite pseudo_fields4 in *. rewrite zlen_udp_fields in * by done.
    apply udp_segment_valid; try pseudo_side.
  - destruct H as (c & H2 & ->).
    destruct (header_cut _ (concat (udp_fields sp dp (8 + zlen pl) (be_bytes 2 c) pl)) _
                (zlen_ipv6_fields (8 + zlen pl) 17 s d Hs Hd)) as [Ed _].
    rewrite Ed. split; [done |].
    unfold udp_checksum_ipv6 in H2. rewrite <- !app_assoc.
    rewrite pseudo_fields6 in *. rewrite zlen_udp_fields in * by done.
    apply udp_segment_valid; try pseudo_side.
Qed.

(** Every packet that is built carries checksums a receiver accepts: over the header of
    an IPv4 packet, and over the segment with its pseudo header, the ones' complement sum of
    RFC 1071 is [0xffff]. *)
Theorem tun_packet_checksums (s d : SocketAddr) (seq ack flags : Z) (pl : bytes) (r : IpPacket) :
  wf_ip (sa_ip s) -> wf_ip (sa_ip d) -> is_u 8 flags -> bytes_ok pl ->
  wf_ip (src r) -> wf_ip (dst r) ->
  (forall out, build_tcp_packet s d seq ack flags pl = Ok out ->
     checksums_accepted (sa_ip s) (sa_ip d) 6 out)
  /\ (forall out, build_udp_response_packet r pl = Ok out ->
     checksums_accepted (dst r) (src r) 17 out)
  /\ (forall out, build_tcp_rst r = Ok out -> checksums_accepted (dst r) (src r) 6 out).
Proof.
  intros Hs Hd ? ? Hrs Hrd. split_and!; intros out Hb.
  - pose proof (build_tcp_packet_image s d seq ack flags pl Hs Hd) as Hi.
    destruct (_ && _) eqn:Hc in Hi; [| congruence]. apply andb_prop in Hc as [_ Hle%Z.leb_le].
    destruct Hi as (o & Ho & Hi). rewrite Hb in Ho. injection Ho as <-. by refine (tcp_accepted _ _ _ _ _ _ _ _ _ _ Hs Hd _ _ Hle Hi).
  - pose proof (build_udp_response_image r pl Hrs Hrd) as Hi.
    destruct (_ && _) eqn:Hc in Hi; [| congruence]. apply andb_prop in Hc as [_ Hle%Z.leb_le].
    destruct Hi as (o & Ho & Hi). rewrite Hb in Ho. injection Ho as <-. by refine (udp_accepted _ _ _ _ _ _ Hrd Hrs _ Hle Hi).
  - pose proof (build_tcp_rst_image r Hrs Hrd) as Hi.
    destruct (_ && _) eqn:Hc in Hi; [| congruence].
    destruct Hi as (o & Ho & Hi). rewrite Hb in Ho. injection Ho as <-.
    refine (tcp_accepted _ _ _ _ _ _ _ _ _ _ Hrd Hrs _ _ _ Hi); [done | bok | by destruct (dst r)].
Qed.

Lemma tun_packet_checksums_witness :
  exists out, build_udp_response_packet example_request (lit "odd") = Ok out
              /\ checksums_accepted (V4 [8; 8; 8; 8]) (V4 [10; 0; 0; 2]) 17 out.
Proof.
  eexists. split; [vm_compute; reflexivity |].
  apply (tun_packet_checksums (mkSocketAddr (V4 [8; 8; 8; 8]) 443)
           (mkSocketAddr (V4 [10; 0; 0; 2]) 40000) 7 9 0x18 (lit "odd") example_request);
    try (apply (bool_decide_unpack _); vm_compute; exact I).
Defined.

(** ** Safety of the parser *)

(** What the types of the fields of [IpPacket] and the layout of the buffer promise. *)
Definition wf_packet (buf : bytes) (p : IpPacket) : Prop :=
  wf_ip (src p) /\ wf_ip (dst p) /\ same_family (src p) (dst p) = true
  /\ is_u 16 (src_port p) /\ is_u 16 (dst_port p)
  /\ ip_header_len (src p) <= header_len p <= transport_offset p
  /\ transport_offset p <= payload_offset p
  /\ 0 <= payload_len p <= zlen buf
  /\ match protocol p with
     | Tcp =>
         (exists seq ack flags, tcp_seq p = Some seq /\ is_u 32 seq /\ tcp_ack p = Some ack
            /\ is_u 32 ack /\ tcp_flags p = Some flags /\ is_u 8 flags)
         /\ transport_offset p + 20 <= payload_offset p
         /\ payload_offset p + payload_len p <= zlen buf
     | Udp => payload_offset p = transport_offset p + 8
              /\ payload_offset p + payload_len p <= zlen buf
     | Other n => is_u 8 n /\ n <> 6 /\ n <> 17
     end
  /\ (protocol p <> Tcp -> tcp_seq p = None /\ tcp_ack p = None /\ tcp_flags p = None).

Lemma idx_ok {E} (buf : bytes) i :
  bytes_ok buf -> 0 <= i < zlen buf -> exists b, idx (E:=E) buf i = Ok b /\ is_u 8 b.
Proof.
  intros Hok Hi. destruct (idx_in_range (E:=E) buf i Hi) as (b & Hb & _).
  exists b. split; [done | by eapply idx_bytes_ok].
Qed.

Lemma be16_ok {E} (buf : bytes) i :
  bytes_ok buf -> 0 <= i -> i + 1 < zlen buf -> exists z, be16 (E:=E) buf i = Ok z /\ is_u 16 z.
Proof.
  intros Hok ? ?. unfold be16.
  destruct (idx_ok (E:=E) buf i) as (a & -> & ?); [done | lia |].
  destruct (idx_ok (E:=E) buf (i + 1)) as (b & -> & ?); [done | lia |].
  eexists. split; [done |]. by apply is_u16_be_val.
Qed.

Lemma be32_ok {E} (buf : bytes) i :
  bytes_ok buf -> 0 <= i -> i + 3 < zlen buf -> exists z, be32 (E:=E) buf i = Ok z /\ is_u 32 z.
Proof.
  intros Hok ? ?. unfold be32.
  destruct (idx_ok (E:=E) buf i) as (a & -> & ?); [done | lia |].
  destruct (idx_ok (E:=E) buf (i + 1)) as (b & -> & ?); [done | lia |].
  destruct (idx_ok (E:=E) buf (i + 2)) as (c & -> & ?); [done | lia |].
  destruct (idx_ok (E:=E) buf (i + 3)) as (d & -> & ?); [done | lia |].
  eexists. split; [done |]. apply (be_val_bound [a; b; c; d]). bok.
Qed.

Lemma slice_ok_in {E} (buf : bytes) i j :
  bytes_ok buf -> 0 <= i <= j -> j <= zlen buf ->
  exists s, slice (E:=E) buf i j = Ok s /\ zlen s = j - i /\ bytes_ok s.
Proof.
  intros Hok ? ?. rewrite slice_in_range by done. eexists. split; [done |].
  split; [| by apply Forall_take, Forall_drop].
  unfold zlen in *. rewrite length_take, length_drop. lia.
Qed.

(** The outcome of a parser that neither panics nor runs out of fuel. *)
Definition yields {A} (m : opt A) (P : A -> Prop) : Prop :=
  match m with Ok a => P a | Err _ => True | Panic | NoFuel => False end.

Lemma yields_seq {A B} (m : opt A) (f : A -> opt B) P Q :
  yields m P -> (forall a, P a -> yields (f a) Q) -> yields (m ≫= f) Q.
Proof. intros Hm Hf. destruct m; try done. by apply Hf. Qed.

(** One read of the parser that the lengths in the context allow. *)
Ltac read_step :=
  let z := fresh "z" in let H := fresh "Hz" in let E := fresh "E" in
  lazymatch goal with
  | |- yields (be32 ?b ?i ≫= _) _ => destruct (be32_ok (E:=unit) b i) as (z & E & H)
  | |- yields (be16 ?b ?i ≫= _) _ => destruct (be16_ok (E:=unit) b i) as (z & E & H)
  | |- yields (idx ?b ?i ≫= _) _ => destruct (idx_ok (E:=unit) b i) as (z & E & H)
  | |- yields (slice ?b ?i ?j ≫= _) _ => destruct (slice_ok_in (E:=unit) b i j) as (z & E & ? & H)
  end; [done | lia .. |]; rewrite E; clear E; cbn [mbind res_bind].

(** Offset and TCP fields by protocol, for a transport header at [at_] with [len] bytes. *)
Definition wf_transport (proto at_ len : Z) (r : Z * option Z * option Z * option Z) : Prop :=
  let '(po, s, a, f) := r in
  (proto = 6 /\ at_ + 20 <= po <= at_ + len
     /\ exists seq ack flags, s = Some seq /\ is_u 32 seq /\ a = Some ack
          /\ is_u 32 ack /\ f = Some flags /\ is_u 8 flags)
  \/ (proto = 17 /\ po = at_ + 8 /\ 8 <= len /\ s = None /\ a = None /\ f = None)
  \/ (proto <> 6 /\ proto <> 17 /\ po = at_ + 4 /\ s = None /\ a = None /\ f = None).

Lemma ipv4_transport_ok buf proto ihl len :
  bytes_ok buf -> 0 <= ihl -> ihl + len <= zlen buf ->
  yields (ipv4_transport buf proto ihl len) (wf_transport proto ihl len).
Proof.
  intros Hok ? ?. unfold ipv4_transport. zdestruct (proto =? 6).
  - zcase; [done |]. do 4 read_step. zcase; [done |]. zcase; [done |]. left.
    split_and!; [done | lia | lia |]. eauto 10.
  - zdestruct (proto =? 17); [| right; right; by split_and!].
    zcase; [done |]. read_step. zcase; [done |]. zcase; [done |]. right; left. split_and!; done || lia.
Qed.

Lemma ipv6_transport_ok buf proto off len :
  bytes_ok buf -> 0 <= off -> (len = 0 \/ off + len <= zlen buf) ->
  yields (ipv6_transport buf proto off len) (wf_transport proto off len).
Proof.
  intros Hok ? ?. unfold ipv6_transport. zdestruct (proto =? 6).
  - zcase; try done. zcase; try done. do 4 read_step. zcase; try done. zcase; try done. left.
    split_and!; [done | lia | lia |]. eauto 10.
  - zdestruct (proto =? 17); [| right; right; by split_and!].
    zcase; try done. zcase; try done. read_step. zcase; try done. zcase; try done.
    right; left. split_and!; done || lia.
Qed.

(** The walk ends: each turn moves at least eight bytes forward. *)
Lemma ext_walk_ok buf total : bytes_ok buf -> total <= zlen buf ->
  forall fuel n off, (0 < fuel)%nat -> total - off < Z.of_nat fuel -> 0 <= off -> is_u 8 n ->
  yields (ext_walk fuel buf total n off) (fun r => is_u 8 r.1 /\ off <= r.2).
Proof.
  intros Hok Hl fuel. induction fuel as [| fuel IH]; intros n off Hf Hm Ho Hn; [lia |].
  cbn [ext_walk]. destruct (_ || _); [cbn; auto with lia |].
  destruct (ext_header n).
  - zcase; [done |]. do 2 read_step. specialize (IH z (off + (z0 + 1) * 8)).
    unfold is_u in Hz0. destruct (ext_walk _ _ _ _ _); try (by apply IH; lia || done).
    cbn in *. destruct IH; lia || done || auto with lia.
  - zcase; [| cbn; auto with lia]. zcase; [done |]. read_step. specialize (IH z (off + 8)).
    destruct (ext_walk _ _ _ _ _); try (by apply IH; lia || done).
    cbn in *. destruct IH; lia || done || auto with lia.
Qed.

Lemma wf_transport_packet (buf : bytes) proto at_ len total po s a f :
  is_u 8 proto -> total <= zlen buf -> len = Z.max 0 (total - at_) ->
  wf_transport proto at_ len (po, s, a, f) ->
  match protocol_of proto with
  | Tcp =>
      (exists seq ack flags, s = Some seq /\ is_u 32 seq /\ a = Some ack
         /\ is_u 32 ack /\ f = Some flags /\ is_u 8 flags)
      /\ at_ + 20 <= po /\ po + Z.max 0 (total - po) <= zlen buf
  | Udp => po = at_ + 8 /\ po + Z.max 0 (total - po) <= zlen buf
  | Other n => is_u 8 n /\ n <> 6 /\ n <> 17
  end
  /\ (protocol_of proto <> Tcp -> s = None /\ a = None /\ f = None)
  /\ at_ <= po.
Proof.
  intros Hp Ht Hl [(-> & ? & ?) | [(-> & -> & ? & -> & -> & ->) | (H6 & H17 & -> & -> & -> & ->)]].
  - cbn. split_and!; done || lia.
  - cbn. split_and!; done || lia.
  - unfold protocol_of. rewrite (proj2 (Z.eqb_neq _ _) H6), (proj2 (Z.eqb_neq _ _) H17).
    split_and!; done || lia.
Qed.

Lemma parse_ipv4_ok buf : bytes_ok buf -> yields (parse_ipv4 buf) (wf_packet buf).
Proof.
  intros Hok. unfold parse_ipv4. cbv zeta. zcase; [done |]. read_step.
  assert (0 <= Z.land z 15 <= 15).
  { pose proof (Z.land_ones z 4 ltac:(lia)) as Hl. change (Z.ones 4) with 15 in Hl.
    rewrite Hl. zdiv. }
  set (ihl := Z.land z 15 * 4) in *. zcase; [done |]. read_step.
  zcase; [done |]. zcase; [done |]. zcase; [done |]. read_step.
  eapply yields_seq; [apply ipv4_transport_ok; done || lia |].
  intros [[[po s] a] f] Ht. do 4 read_step.
  eapply (wf_transport_packet buf) in Ht as (? & ? & ?); [| done | exact H3 | lia].
  unfold saturating_sub. split_and!; done || (cbn; lia).
Qed.

Lemma parse_ipv6_ok buf : bytes_ok buf -> yields (parse_ipv6 buf) (wf_packet buf).
Proof.
  intros Hok. unfold parse_ipv6. zcase; [done |]. read_step. cbv zeta.
  zcase; [done |]. do 3 read_step. unfold is_u in Hz.
  eapply yields_seq; [apply ext_walk_ok; done || lia |].
  intros [n off] [Hn Hoff]. cbn [fst snd] in *. unfold saturating_sub.
  destruct (negb _) eqn:Hk.
  - split_and!; try done; cbn; try lia; try (unfold is_u; lia).
    split_and!; [done | intros -> | intros ->]; done.
  - eapply yields_seq; [apply ipv6_transport_ok; done || lia |].
    intros [[[po s] a] f] Ht. zcase; [done |]. do 2 read_step.
    eapply (wf_transport_packet buf _ _ _ (40 + z)) in Ht as (? & ? & ?); [| done | lia | lia].
    split_and!; done || (cbn; lia).
Qed.

Lemma parse_ip_packet_ok buf : bytes_ok buf -> yields (parse_ip_packet buf) (wf_packet buf).
Proof.
  intros Hok. destruct buf as [| b0 buf]; [done |]. cbn [parse_ip_packet].
  repeat case_match; [by apply parse_ipv4_ok | by apply parse_ipv6_ok | done].
Qed.

(** C38. The packet parser is safe on every buffer a device can deliver: it never indexes
    outside the buffer and the walk over the IPv6 extension headers ends; a parsed packet
    has addresses of one family, ports, sequence numbers and flags within their types,
    offsets in order and, for TCP and UDP, a payload inside the buffer, so that [payload]
    returns exactly [payload_len] bytes; TCP fields are present for TCP only. *)
Theorem tun_parse_safe (buf : bytes) :
  bytes_ok buf ->
  (exists p, parse_ip_packet buf = Ok p /\ wf_packet buf p
     /\ (protocol p = Tcp \/ protocol p = Udp ->
         exists pl, payload p buf = Some pl /\ zlen pl = payload_len p /\ bytes_ok pl))
  \/ parse_ip_packet buf = none.
Proof.
  intros Hok. pose proof (parse_ip_packet_ok buf Hok) as H.
  destruct (parse_ip_packet buf) as [p | [] | |]; try done; [left | by right].
  exists p. split_and!; [done | exact H |].
  destruct H as (_ & _ & _ & _ & _ & Hh & Ho & Hl & Hm & _). intros Hp.
  assert (Hin : 0 <= payload_offset p /\ payload_offset p + payload_len p <= zlen buf).
  { destruct (src p); cbn in Hh; destruct Hp as [Hp | Hp]; rewrite Hp in Hm; lia. }
  destruct (slice_ok_in (E:=unit) buf (payload_offset p) (payload_offset p + payload_len p))
    as (pl & Hs & ? & ?); [done | lia | lia |].
  exists pl. unfold payload, get_range. rewrite Hs. split_and!; done || lia.
Qed.

Lemma tun_parse_safe_witness :
  exists p, parse_ip_packet ([0x45; 0; 0; 32; 0; 0; 0; 0; 64; 17; 0; 0; 10; 0; 0; 2; 8; 8; 8; 8]
                             ++ [156; 64; 0; 53; 0; 12; 0; 0; 1; 2; 3; 4]) = Ok p
            /\ src p = V4 [10; 0; 0; 2].
Proof.
  edestruct (tun_parse_safe ([0x45; 0; 0; 32; 0; 0; 0; 0; 64; 17; 0; 0; 10; 0; 0; 2; 8; 8; 8; 8]
                             ++ [156; 64; 0; 53; 0; 12; 0; 0; 1; 2; 3; 4])) as [(p & Hp & _) | Hn].
  - apply (bool_decide_unpack _). vm_compute. exact I.
  - exists p. split; [exact Hp |]. vm_compute in Hp. injection Hp as <-. reflexivity.
  - vm_compute in Hn. discriminate.
Defined.
