(* ===== verification/TunFlows.v ===== *)
(** * Flow tables of the TUN runtime

    [tun/session.rs] (observed flows) and [tun/nat.rs] (the UDP NAT table with its bypass
    sockets and response readers).  The eviction code that the NAT table shares with the
    TCP bridge is the section [table].

    Rust's [HashMap] iterates in an unspecified order: [iter] is that order, an arbitrary
    enumeration of the map, and the theorems hold for every one. *)

From stdpp Require Import base list gmap strings numbers.
From S2P Require Import Prelude Address TunPacket.

#[global] Program Instance IpAddr_countable : Countable IpAddr :=
  inj_countable' (fun a => match a with V4 o => (true, o) | V6 o => (false, o) end)
    (fun p => if p.1 then V4 p.2 else V6 p.2) _.
Next Obligation. by intros []. Qed.

#[global] Program Instance SocketAddr_countable : Countable SocketAddr :=
  inj_countable' (fun a => (sa_ip a, sa_port a)) (fun p => mkSocketAddr p.1 p.2) _.
Next Obligation. by intros []. Qed.

#[global] Program Instance TransportProtocol_countable : Countable TransportProtocol :=
  inj_countable' (fun a => match a with Tcp => inl true | Udp => inl false | Other p => inr p end)
    (fun p => match p with inl true => Tcp | inl false => Udp | inr p => Other p end) _.
Next Obligation. by intros []. Qed.

(** * Eviction *)

Section table.
Context {K V : Type} `{Countable K} (seen : V -> Z).
Context (iter : gmap K V -> list (K * V)).

(** [retain(|_, e| now.duration_since(e.last_seen) <= timeout)]; [duration_since]
    saturates at zero. *)
Definition retain_recent (now timeout : Z) (m : gmap K V) : gmap K V :=
  filter (fun kv => saturating_sub now (seen kv.2) <= timeout) m.

(** [iter().min_by_key(|(_, e)| e.last_seen)]: the first of the least elements. *)
Definition min_by_seen (l : list (K * V)) : option (K * V) :=
  match l with
  | [] => None
  | x :: l => Some (fold_left (fun best y => if seen y.2 <? seen best.2 then y else best) l x)
  end.

Definition remove_oldest (m : gmap K V) : gmap K V :=
  match min_by_seen (iter m) with
  | Some (k, _) => delete k m
  | None => m
  end.

(** Room for a new flow: the idle entries go, then the oldest one if the table is full. *)
Definition make_room (now timeout cap : Z) (m : gmap K V) : gmap K V :=
  let m := retain_recent now timeout m in
  if Z.of_nat (size m) >=? cap then remove_oldest m else m.

(** ** Lemmas *)

Context (iter_perm : forall m, iter m ≡ₚ map_to_list m).

Lemma min_by_seen_spec l x :
  min_by_seen l = Some x -> x ∈ l /\ forall y, y ∈ l -> seen x.2 <= seen y.2.
Proof.
  destruct l as [| a l]; [done |]. cbn [min_by_seen]. intros [= <-]. revert a.
  induction l as [| b l IH]; intros a; cbn [fold_left].
  - split; [apply list_elem_of_here |]. intros y Hy. apply list_elem_of_singleton in Hy as ->. lia.
  - destruct (Z.ltb_spec (seen b.2) (seen a.2));
      [destruct (IH b) as [Hin Hle] | destruct (IH a) as [Hin Hle]]; (split; [set_solver |]);
      intros y Hy; pose proof (Hle _ (list_elem_of_here _ _)); rewrite !elem_of_cons in Hy;
      destruct Hy as [-> | [-> | Hy]]; try lia; apply Hle; set_solver.
Qed.

Lemma remove_oldest_spec m :
  m <> ∅ -> exists k v, m !! k = Some v /\ remove_oldest m = delete k m
    /\ forall k' v', m !! k' = Some v' -> seen v <= seen v'.
Proof.
  intros Hne. unfold remove_oldest. destruct (min_by_seen (iter m)) as [[k v] |] eqn:Hm.
  - apply min_by_seen_spec in Hm as [Hin Hle]. rewrite iter_perm in Hin.
    exists k, v. split_and!; [by apply elem_of_map_to_list | done |].
    intros k' v' Hk'. apply (Hle (k', v')). rewrite iter_perm. by apply elem_of_map_to_list.
  - destruct (iter m) as [| ? ?] eqn:Hi; [| done]. pose proof (iter_perm m) as Hp.
    rewrite Hi in Hp. apply Permutation_nil_l in Hp. symmetry in Hp.
    by apply map_to_list_empty_iff in Hp.
Qed.

Lemma retain_recent_lookup now timeout m k v :
  retain_recent now timeout m !! k = Some v <->
  m !! k = Some v /\ saturating_sub now (seen v) <= timeout.
Proof. unfold retain_recent. by rewrite map_lookup_filter_Some. Qed.

Lemma make_room_subseteq now timeout cap m : make_room now timeout cap m ⊆ m.
Proof.
  unfold make_room, remove_oldest, retain_recent.
  assert (Hf : filter (fun kv => saturating_sub now (seen kv.2) <= timeout) m ⊆ m)
    by apply map_filter_subseteq.
  destruct (_ >=? _); [| done]. destruct (min_by_seen _) as [[k v] |]; [| done].
  etrans; [apply delete_subseteq | done].
Qed.

(** There is room afterwards, so that the second test of the code never succeeds. *)
Lemma make_room_size now timeout cap m :
  1 <= cap -> Z.of_nat (size m) <= cap -> Z.of_nat (size (make_room now timeout cap m)) < cap.
Proof.
  intros Hc Hs. unfold make_room. set (r := retain_recent now timeout m).
  assert (Hr : (size r <= size m)%nat) by apply map_subseteq_size, map_filter_subseteq.
  destruct (Z.geb_spec (Z.of_nat (size r)) cap); [| lia].
  assert (r <> ∅) as Hne by (intros E; apply map_size_empty_iff in E; lia).
  destruct (remove_oldest_spec r Hne) as (k & v & Hk & -> & _).
  rewrite map_size_delete, Hk. cbn. lia.
Qed.

(** What is lost: idle entries, and one least recently seen entry of a full table. *)
Lemma make_room_lost now timeout cap m k v :
  m !! k = Some v -> make_room now timeout cap m !! k = None ->
  timeout < saturating_sub now (seen v)
  \/ (cap <= Z.of_nat (size m) /\ forall k' v',
        m !! k' = Some v' -> saturating_sub now (seen v') <= timeout -> seen v <= seen v').
Proof.
  intros Hk Hn. unfold make_room in Hn. set (r := retain_recent now timeout m) in *.
  destruct (Z.leb_spec (saturating_sub now (seen v)) timeout) as [Hle | Hgt]; [right | by left].
  assert (Hr : r !! k = Some v) by (by apply retain_recent_lookup).
  destruct (Z.geb_spec (Z.of_nat (size r)) cap); [| congruence].
  split. { assert ((size r <= size m)%nat) by apply map_subseteq_size, map_filter_subseteq. lia. }
  assert (r <> ∅) as Hne by (intros E; rewrite E in Hr; done).
  destruct (remove_oldest_spec r Hne) as (k0 & v0 & Hk0 & Hd & Hmin). rewrite Hd in Hn.
  apply lookup_delete_None in Hn as [-> | ?]; [| congruence]. simplify_eq.
  intros k' v' Hk' Hrec. apply (Hmin k'). by apply retain_recent_lookup.
Qed.

End table.

(** * Observed flows *)

Record FlowKey := mkFlowKey {
  fk_client : SocketAddr;
  fk_remote : SocketAddr;
  fk_protocol : TransportProtocol;
}.

#[global] Instance FlowKey_eq_dec : EqDecision FlowKey.
Proof. solve_decision. Defined.

#[global] Program Instance FlowKey_countable : Countable FlowKey :=
  inj_countable' (fun f => (fk_client f, fk_remote f, fk_protocol f))
    (fun p => mkFlowKey p.1.1 p.1.2 p.2) _.
Next Obligation. by intros []. Qed.

Definition from_packet (p : IpPacket) : option FlowKey :=
  match protocol p with
  | Tcp | Udp =>
      Some (mkFlowKey (mkSocketAddr (src p) (src_port p)) (mkSocketAddr (dst p) (dst_port p))
              (protocol p))
  | Other _ => None
  end.

Definition matches_response (f : FlowKey) (p : IpPacket) : bool :=
  bool_decide (protocol p = fk_protocol f) && bool_decide (src p = sa_ip (fk_remote f))
  && (src_port p =? sa_port (fk_remote f)) && bool_decide (dst p = sa_ip (fk_client f))
  && (dst_port p =? sa_port (fk_client f)).

Record TunSession := mkTunSession { ts_flow : FlowKey; ts_last_seen : Z }.

Abbreviation TunSessionTable := (gmap FlowKey TunSession).

(** [entry(flow).or_insert(..)] followed by the refresh of the time. *)
Definition observe_packet (t : TunSessionTable) (p : IpPacket) (now : Z)
  : TunSessionTable * option TunSession :=
  match from_packet p with
  | None => (t, None)
  | Some flow =>
      let session := default (mkTunSession flow now) (t !! flow) in
      let session := mkTunSession (ts_flow session) now in
      (<[flow := session]> t, Some session)
  end.

Definition find_response_flow (keys : TunSessionTable -> list FlowKey) (t : TunSessionTable)
    (p : IpPacket) : option FlowKey :=
  List.find (fun f => matches_response f p) (keys t).

Definition remove_expired (t : TunSessionTable) (now idle_timeout : Z) : TunSessionTable * Z :=
  let t' := retain_recent ts_last_seen now idle_timeout t in
  (t', Z.of_nat (size t) - Z.of_nat (size t')).

(** * The UDP NAT table *)

Abbreviation flow := (SocketAddr * SocketAddr)%type.

Record NatEntry := mkNatEntry { ne_socket : Z; ne_last_seen : Z }.

Record UdpNatTable := mkUdpNatTable {
  nat_entries : gmap flow NatEntry;
  bypass_mark : Z;
  idle_timeout : Z;
  max_entries : Z;
}.

Definition DEFAULT_MAX_UDP_NAT_ENTRIES : Z := 4096.

Definition nat_new (bypass_mark idle_timeout max_entries : Z) : UdpNatTable :=
  mkUdpNatTable ∅ bypass_mark idle_timeout (Z.max max_entries 1).

Definition nat_with_defaults (bypass_mark idle_timeout : Z) : UdpNatTable :=
  nat_new bypass_mark idle_timeout DEFAULT_MAX_UDP_NAT_ENTRIES.

Definition with_entries (t : UdpNatTable) (m : gmap flow NatEntry) : UdpNatTable :=
  mkUdpNatTable m (bypass_mark t) (idle_timeout t) (max_entries t).

(** The table with what it started: the running response readers by socket, the sockets
    opened so far with the flow they are connected for, the datagrams sent on sockets and
    the packets handed to the TUN device. *)
Record NatWorld := mkNatWorld {
  table : UdpNatTable;
  readers : gmap Z flow;
  opened : gmap Z flow;
  sent : list (Z * bytes);
  to_tun : list bytes;
}.

Inductive NatError := TableFull | OpenFailed | EntryDisappeared | PayloadBounds | SendFailed.

(** What the operating system answers to one call of [forward]: the time on entry and at
    the eviction, the socket opened if one is needed, the outcome of the send. *)
Record NatEnv := mkNatEnv {
  env_now : Z;
  env_now_evict : Z;
  env_open : option Z;
  env_send_ok : bool;
}.

Abbreviation natM := (stE NatWorld NatError).

(** Replacing the entries drops the [oneshot::Sender]s of the removed ones, which ends
    their readers. *)
Definition drop_entries (dropped : gmap flow NatEntry) (rs : gmap Z flow) : gmap Z flow :=
  map_fold (fun _ e rs => delete (ne_socket e) rs) rs dropped.

Definition set_entries (m : gmap flow NatEntry) (w : NatWorld) : NatWorld :=
  mkNatWorld (with_entries (table w) m) (drop_entries (nat_entries (table w) ∖ m) (readers w))
    (opened w) (sent w) (to_tun w).

(** [create_bypass_socket] and the reader it gets, then the new entry. *)
Definition open_flow (key : flow) (s now : Z) (w : NatWorld) : NatWorld :=
  mkNatWorld (with_entries (table w) (<[key := mkNatEntry s now]> (nat_entries (table w))))
    (<[s := key]> (readers w)) (<[s := key]> (opened w)) (sent w) (to_tun w).

Definition refresh (key : flow) (entry : NatEntry) (now : Z) (w : NatWorld) : NatWorld :=
  mkNatWorld
    (with_entries (table w) (<[key := mkNatEntry (ne_socket entry) now]> (nat_entries (table w))))
    (readers w) (opened w) (sent w) (to_tun w).

Definition send_on (s : Z) (pl : bytes) (w : NatWorld) : NatWorld :=
  mkNatWorld (table w) (readers w) (opened w) (sent w ++ [(s, pl)]) (to_tun w).

Definition flow_of (p : IpPacket) : flow :=
  (mkSocketAddr (src p) (src_port p), mkSocketAddr (dst p) (dst_port p)).

Section nat.
Context (iter : gmap flow NatEntry -> list (flow * NatEntry)).

Definition nat_evict_idle (now : Z) (w : NatWorld) : NatWorld :=
  set_entries (retain_recent ne_last_seen now (idle_timeout (table w)) (nat_entries (table w))) w.

Definition nat_evict_oldest (w : NatWorld) : NatWorld :=
  set_entries (remove_oldest ne_last_seen iter (nat_entries (table w))) w.

Definition nat_len (w : NatWorld) : Z := Z.of_nat (size (nat_entries (table w))).

(** The first packet of a flow. *)
Definition new_flow (env : NatEnv) (key : flow) : natM unit :=
  _ ← st_modify (nat_evict_idle (env_now_evict env));
  full ← st_get (fun w => nat_len w >=? max_entries (table w));
  _ ← st_modify (fun w => if (full : bool) then nat_evict_oldest w else w);
  full ← st_get (fun w => nat_len w >=? max_entries (table w));
  if (full : bool) then st_fail TableFull
  else
    match env_open env with
    | None => st_fail OpenFailed
    | Some s => st_modify (open_flow key s (env_now env))
    end.

(** The rest of [forward]: refresh of the entry and send on its socket. *)
Definition send_packet (env : NatEnv) (packet : IpPacket) (raw : bytes) (key : flow) : natM unit :=
  entry ← st_get (fun w => nat_entries (table w) !! key);
  match entry with
  | None => st_fail EntryDisappeared
  | Some entry =>
      _ ← st_modify (refresh key entry (env_now env));
      match payload packet raw with
      | None => st_fail PayloadBounds
      | Some pl =>
          if env_send_ok env then st_modify (send_on (ne_socket entry) pl)
          else st_fail SendFailed
      end
  end.

Definition forward (env : NatEnv) (packet : IpPacket) (raw : bytes) : natM unit :=
  let key := flow_of packet in
  known ← st_get (fun w => nat_entries (table w) !! key);
  _ ← (match known with Some _ => st_modify id | None => new_flow env key end);
  send_packet env packet raw key.

(** ** The response reader *)

Definition build_response_packet (client remote : SocketAddr) (pl : bytes) : opt bytes :=
  build_udp_response_packet
    (mkIpPacket (sa_ip client) (sa_ip remote) (sa_port client) (sa_port remote) Udp 0 0 0 0
       None None None) pl.

Inductive ReaderEvent := Received (pl : bytes) | RecvError | TunClosed.

(** One turn of the loop of [response_reader] for the task of socket [s]. *)
Definition reader_turn (s : Z) (ev : ReaderEvent) (w : NatWorld) : NatWorld :=
  match readers w !! s with
  | None => w
  | Some (client, remote) =>
      match ev with
      | Received pl =>
          match build_response_packet client remote pl with
          | Ok pkt => mkNatWorld (table w) (readers w) (opened w) (sent w) (to_tun w ++ [pkt])
          | _ => w
          end
      | RecvError | TunClosed =>
          mkNatWorld (table w) (delete s (readers w)) (opened w) (sent w) (to_tun w)
      end
  end.

(** ** All runs *)

(** A packet handed to [forward] was parsed from the device and is UDP; a new socket is not
    one that was opened before. *)
Definition udp_input (packet : IpPacket) (raw : bytes) : Prop :=
  bytes_ok raw /\ parse_ip_packet raw = Ok packet /\ protocol packet = Udp.

Definition fresh_socket (env : NatEnv) (w : NatWorld) : Prop :=
  match env_open env with Some s => opened w !! s = None | None => True end.

Inductive nat_step : NatWorld -> NatWorld -> Prop :=
| step_forward env packet raw w :
    udp_input packet raw -> fresh_socket env w ->
    nat_step w (forward env packet raw w).1
| step_evict now w : nat_step w (nat_evict_idle now w)
| step_reader s ev w : nat_step w (reader_turn s ev w).

Inductive nat_reachable (t : UdpNatTable) : NatWorld -> Prop :=
| reach_init : nat_reachable t (mkNatWorld t ∅ ∅ [] [])
| reach_step w w' : nat_reachable t w -> nat_step w w' -> nat_reachable t w'.

End nat.

(** * Lemmas *)

Definition wf_flow (k : flow) : Prop :=
  wf_ip (sa_ip k.1) /\ wf_ip (sa_ip k.2) /\ is_u 16 (sa_port k.1) /\ is_u 16 (sa_port k.2).

(** A packet to the client of flow [k] from its remote end. *)
Definition reply_of (k : flow) (pkt : bytes) : Prop :=
  exists p pl, parse_ip_packet pkt = Ok p /\ payload p pkt = Some pl
    /\ p = udp_meta (sa_ip k.2) (sa_ip k.1) (sa_port k.2) (sa_port k.1)
             (ip_header_len (sa_ip k.2)) pl.

Record nat_inv (cap : Z) (w : NatWorld) : Prop := {
  inv_cap : max_entries (table w) = cap;
  inv_size : nat_len w <= cap;
  inv_socket : forall k e, nat_entries (table w) !! k = Some e -> opened w !! ne_socket e = Some k;
  inv_reader : forall s k, readers w !! s = Some k ->
    exists e, nat_entries (table w) !! k = Some e /\ ne_socket e = s;
  inv_wf : forall s k, opened w !! s = Some k -> wf_flow k;
  inv_tun : Forall (fun pkt => exists s k, opened w !! s = Some k /\ reply_of k pkt) (to_tun w);
}.

Lemma drop_entries_lookup dropped rs s k :
  drop_entries dropped rs !! s = Some k <->
  rs !! s = Some k /\ forall f e, dropped !! f = Some e -> ne_socket e <> s.
Proof.
  unfold drop_entries. revert s k.
  apply (map_fold_weak_ind (fun r d => forall s k, r !! s = Some k <->
           rs !! s = Some k /\ forall f e, d !! f = Some e -> ne_socket e <> s)).
  - intros s k. split; [intros; split; [done |]; intros f e; by rewrite lookup_empty | tauto].
  - intros f e d r Hf IH s k. rewrite lookup_delete_Some, IH. split.
    + intros [Hne [Hs Hd]]. split; [done |]. intros f' e' [[-> ->] | [_ H]]%lookup_insert_Some; eauto.
    + intros [Hs Hd]. split_and!; [by apply (Hd f), lookup_insert_eq | done |].
      intros f' e' H. apply (Hd f'). rewrite lookup_insert_ne; [done |]. intros ->. congruence.
Qed.

(** Removing entries removes exactly their readers. *)
Lemma set_entries_inv cap m w :
  nat_inv cap w -> m ⊆ nat_entries (table w) -> nat_inv cap (set_entries m w).
Proof.
  intros I Hsub. split; cbn.
  - apply (inv_cap _ _ I).
  - pose proof (inv_size _ _ I). unfold nat_len in *. cbn. apply map_subseteq_size in Hsub. lia.
  - intros k e Hk. eapply inv_socket; [done |]. by eapply lookup_weaken.
  - intros s k [Hs Hd]%drop_entries_lookup. destruct (inv_reader _ _ I s k Hs) as (e & He & <-).
    exists e. split; [| done]. destruct (m !! k) as [e' |] eqn:Hm.
    + rewrite <- He. f_equal. symmetry. by eapply lookup_weaken.
    + exfalso. eapply (Hd k e); [| done]. by apply lookup_difference_Some.
  - apply (inv_wf _ _ I).
  - apply (inv_tun _ _ I).
Qed.

Section nat_lemmas.
Context (iter : gmap flow NatEntry -> list (flow * NatEntry)).
Context (iter_perm : forall m, iter m ≡ₚ map_to_list m).

(** The eviction steps of a new flow, as one update of the entries. *)
Lemma new_flow_spec env key w cap :
  nat_inv cap w -> 1 <= cap ->
  exists w1, nat_inv cap w1 /\ opened w1 = opened w /\ sent w1 = sent w /\ to_tun w1 = to_tun w
    /\ nat_entries (table w1) = make_room ne_last_seen iter (env_now_evict env)
                                  (idle_timeout (table w)) cap (nat_entries (table w))
    /\ nat_len w1 < cap
    /\ new_flow iter env key w =
         match env_open env with
         | None => (w1, Err OpenFailed)
         | Some s => (open_flow key s (env_now env) w1, Ok tt)
         end.
Proof.
  intros I Hc. unfold new_flow, nat_evict_idle, nat_evict_oldest.
  set (m1 := retain_recent ne_last_seen (env_now_evict env) (idle_timeout (table w))
               (nat_entries (table w))).
  assert (I1 : nat_inv cap (set_entries m1 w)) by (apply set_entries_inv; [done | apply map_filter_subseteq]).
  set (w1 := set_entries m1 w) in *.
  set (w2 := if nat_len w1 >=? cap then set_entries (remove_oldest ne_last_seen iter m1) w1 else w1).
  assert (Hm : nat_entries (table w2) = make_room ne_last_seen iter (env_now_evict env)
                                  (idle_timeout (table w)) cap (nat_entries (table w))).
  { unfold make_room, w2. change (Z.of_nat (size (retain_recent _ _ _ _))) with (nat_len w1).
    by destruct (_ >=? _). }
  assert (I2 : nat_inv cap w2).
  { unfold w2. destruct (_ >=? _); [| done]. apply set_entries_inv; [done |]. cbn.
    unfold remove_oldest. destruct (min_by_seen _ _) as [[]|]; [apply delete_subseteq | done]. }
  assert (Hl : nat_len w2 < cap).
  { unfold nat_len. rewrite Hm. apply make_room_size; [done | done |]. apply (inv_size _ _ I). }
  exists w2. split_and!; try done; try (unfold w2; by destruct (_ >=? _)).
  unfold mbind, stE_bind, st_modify, st_get, st_fail. cbn [fst snd].
  fold m1. fold w1. rewrite (inv_cap _ _ I1).
  change (nat_entries (table w1)) with m1. fold w2.
  rewrite (inv_cap _ _ I2). replace (nat_len w2 >=? cap) with false by lia.
  by destruct (env_open env).
Qed.

Lemma open_flow_inv cap key s now w :
  nat_inv cap w -> nat_len w < cap -> wf_flow key -> opened w !! s = None ->
  nat_entries (table w) !! key = None -> nat_inv cap (open_flow key s now w).
Proof.
  intros I Hl Hwf Hs Hk. split; cbn.
  - apply (inv_cap _ _ I).
  - unfold nat_len in *. cbn. rewrite map_size_insert, Hk. cbn. lia.
  - intros k e [[<- <-] | [Hne He]]%lookup_insert_Some; [apply lookup_insert_eq |].
    cbn. pose proof (inv_socket _ _ I k e He). rewrite lookup_insert_ne; congruence.
  - intros s' k [[<- <-] | [Hne Hr]]%lookup_insert_Some.
    + eexists. by rewrite lookup_insert_eq.
    + destruct (inv_reader _ _ I s' k Hr) as (e & He & ?). exists e.
      rewrite lookup_insert_ne by congruence. done.
  - intros s' k [[<- <-] | [Hne Ho]]%lookup_insert_Some; [done | by eapply inv_wf].
  - eapply Forall_impl; [| apply (inv_tun _ _ I)]. intros pkt (s' & k & Ho & Hr).
    exists s', k. rewrite lookup_insert_ne by congruence. done.
Qed.

Lemma refresh_inv cap key entry now w :
  nat_inv cap w -> nat_entries (table w) !! key = Some entry -> nat_inv cap (refresh key entry now w).
Proof.
  intros I Hk. split; cbn; try apply I.
  - unfold nat_len in *. cbn. rewrite map_size_insert, Hk. apply (inv_size _ _ I).
  - intros k e [[<- <-] | [Hne He]]%lookup_insert_Some;
      [exact (inv_socket _ _ I _ _ Hk) | exact (inv_socket _ _ I _ _ He)].
  - intros s k Hr. destruct (inv_reader _ _ I s k Hr) as (e & He & <-).
    destruct (decide (k = key)) as [-> |].
    + simplify_eq. eexists. by rewrite lookup_insert_eq.
    + exists e. by rewrite lookup_insert_ne.
Qed.

Lemma send_on_inv cap s pl w : nat_inv cap w -> nat_inv cap (send_on s pl w).
Proof. by intros []. Qed.

(** Everything [forward] does once the flow has an entry. *)
Lemma send_packet_spec cap env packet raw key entry pl w :
  nat_inv cap w -> nat_entries (table w) !! key = Some entry -> payload packet raw = Some pl ->
  exists w' r, send_packet env packet raw key w = (w', r) /\ nat_inv cap w'
    /\ opened w' = opened w /\ readers w' = readers w /\ to_tun w' = to_tun w
    /\ nat_entries (table w') = <[key := mkNatEntry (ne_socket entry) (env_now env)]> (nat_entries (table w))
    /\ (if env_send_ok env then r = Ok tt /\ sent w' = sent w ++ [(ne_socket entry, pl)]
        else r = Err SendFailed /\ sent w' = sent w).
Proof.
  intros I Hk Hp. unfold send_packet, mbind, stE_bind, st_modify, st_get, st_fail.
  cbn [fst snd]. rewrite Hk, Hp. destruct (env_send_ok env).
  - eexists _, _. split; [done |]. split; [by apply send_on_inv, refresh_inv |]. done.
  - eexists _, _. split; [done |]. split; [by apply refresh_inv |]. done.
Qed.

Lemma udp_input_wf packet raw :
  udp_input packet raw -> wf_flow (flow_of packet) /\ exists pl, payload packet raw = Some pl.
Proof.
  intros (Hok & Hp & Hu). pose proof (parse_ip_packet_ok raw Hok) as Hy. rewrite Hp in Hy.
  destruct Hy as (? & ? & ? & ? & ? & Hh & Ho & Hl & Hm & _). rewrite Hu in Hm. split; [done |].
  unfold payload, get_range. edestruct (slice_ok_in (E:=unit) raw) as (pl & -> & _); [done | | | eauto].
  - destruct (src packet); cbn in Hh; lia.
  - lia.
Qed.

(** One call of [forward], with the flow's own packet and all other flows. *)
Definition forward_post (env : NatEnv) (packet : IpPacket) (raw : bytes) (cap : Z)
    (w w' : NatWorld) (r : res NatError unit) : Prop :=
  let key := flow_of packet in
  let m := nat_entries (table w) in
  nat_inv cap w'
  /\ (r = Ok tt \/ r = Err OpenFailed \/ r = Err SendFailed)
  /\ (r = Err OpenFailed -> env_open env = None /\ m !! key = None)
  /\ (r = Ok tt -> exists s pl, payload packet raw = Some pl /\ sent w' = sent w ++ [(s, pl)]
        /\ opened w' !! s = Some key
        /\ nat_entries (table w') !! key = Some (mkNatEntry s (env_now env))
        /\ (forall e, m !! key = Some e -> s = ne_socket e)
        /\ (m !! key = None -> readers w' !! s = Some key))
  /\ (r <> Ok tt -> sent w' = sent w)
  /\ (forall k e, k <> key -> m !! k = Some e -> nat_entries (table w') !! k <> Some e ->
        m !! key = None
        /\ (idle_timeout (table w) < saturating_sub (env_now_evict env) (ne_last_seen e)
            \/ (cap <= Z.of_nat (size m) /\ forall k' e', m !! k' = Some e' ->
                  saturating_sub (env_now_evict env) (ne_last_seen e') <= idle_timeout (table w) ->
                  ne_last_seen e <= ne_last_seen e'))).

Lemma forward_known env packet raw cap w e :
  nat_inv cap w -> udp_input packet raw -> nat_entries (table w) !! flow_of packet = Some e ->
  exists w' r, forward iter env packet raw w = (w', r) /\ forward_post env packet raw cap w w' r.
Proof.
  intros I Hin Hk. destruct (udp_input_wf _ _ Hin) as [Hwf [pl Hp]].
  destruct (send_packet_spec cap env packet raw _ e pl w I Hk Hp)
    as (w' & r & Hs & I' & Ho & Hr & _ & Hm & Hout).
  exists w', r. split.
  { unfold forward, mbind, stE_bind, st_get. rewrite Hk. cbn [st_modify]. unfold st_modify. cbn. done. }
  unfold forward_post. rewrite Hm, Ho, Hk.
  assert (Hc : r = Ok tt /\ sent w' = sent w ++ [(ne_socket e, pl)]
               \/ r = Err SendFailed /\ sent w' = sent w) by (destruct (env_send_ok env); auto).
  split_and!; [done | | | | |].
  - destruct Hc as [[-> _] | [-> _]]; auto.
  - by destruct Hc as [[-> _] | [-> _]].
  - intros ->. destruct Hc as [[_ ->] | [? _]]; [| done]. exists (ne_socket e), pl.
    rewrite lookup_insert_eq. split_and!; try done; [by eapply inv_socket | naive_solver].
  - by destruct Hc as [[-> _] | [_ ->]].
  - intros k e' Hne He Hn. rewrite lookup_insert_ne in Hn by done. congruence.
Qed.

Lemma forward_new env packet raw cap w :
  nat_inv cap w -> 1 <= cap -> udp_input packet raw -> fresh_socket env w ->
  nat_entries (table w) !! flow_of packet = None ->
  exists w' r, forward iter env packet raw w = (w', r) /\ forward_post env packet raw cap w w' r.
Proof.
  intros I Hc Hin Hfr Hk. destruct (udp_input_wf _ _ Hin) as [Hwf [pl Hp]].
  destruct (new_flow_spec env (flow_of packet) w cap I Hc)
    as (w1 & I1 & Ho1 & Hs1 & _ & Hm1 & Hl1 & Hnew).
  assert (Hlost : forall k e, nat_entries (table w) !! k = Some e ->
            nat_entries (table w1) !! k <> Some e -> nat_entries (table w1) !! k = None).
  { intros k e He Hn. destruct (nat_entries (table w1) !! k) as [e' |] eqn:E; [| done].
    rewrite Hm1 in E. apply lookup_weaken with (m2 := nat_entries (table w)) in E;
      [congruence | apply make_room_subseteq]. }
  assert (Hrun : forward iter env packet raw w =
    match env_open env with
    | None => (w1, Err OpenFailed)
    | Some s => send_packet env packet raw (flow_of packet) (open_flow (flow_of packet) s (env_now env) w1)
    end).
  { unfold forward, mbind, stE_bind, st_get. cbn zeta. rewrite Hk, Hnew. by destruct (env_open env). }
  unfold fresh_socket in Hfr. destruct (env_open env) as [s |] eqn:Eo; [| ]; rewrite Hrun.
  - assert (Hk1 : nat_entries (table w1) !! flow_of packet = None).
    { rewrite Hm1. eapply lookup_weaken_None; [exact Hk | apply make_room_subseteq]. }
    assert (I2 : nat_inv cap (open_flow (flow_of packet) s (env_now env) w1))
      by (apply open_flow_inv; congruence).
    destruct (send_packet_spec cap env packet raw (flow_of packet) (mkNatEntry s (env_now env)) pl _ I2
                ltac:(apply lookup_insert_eq) Hp) as (w' & r & Hs & I' & Ho & Hr & _ & Hm & Hout).
    exists w', r. split; [exact Hs |]. unfold forward_post. rewrite Hm, Ho, Hr, Hk. cbn in *.
    assert (Hcase : r = Ok tt /\ sent w' = sent w ++ [(s, pl)] \/ r = Err SendFailed /\ sent w' = sent w)
      by (rewrite <- Hs1; destruct (env_send_ok env); auto).
    split_and!; [done | naive_solver | naive_solver | | naive_solver |].
    + intros ->. destruct Hcase as [[_ ->] | [? _]]; [| done]. exists s, pl.
      rewrite !lookup_insert_eq. naive_solver.
    + intros k e Hne He Hn. rewrite !lookup_insert_ne in Hn by done. split; [done |].
      eapply make_room_lost; [done | done |]. rewrite <- Hm1. by apply (Hlost k e).
  - exists w1, (Err OpenFailed). split; [done |]. unfold forward_post.
    split_and!; [done | auto | done | done | done |].
    intros k e Hne He Hn. split; [done |].
    eapply make_room_lost; [done | done |]. rewrite <- Hm1. by apply (Hlost k e).
Qed.

Lemma forward_spec env packet raw cap w :
  nat_inv cap w -> 1 <= cap -> udp_input packet raw -> fresh_socket env w ->
  exists w' r, forward iter env packet raw w = (w', r) /\ forward_post env packet raw cap w w' r.
Proof.
  intros. destruct (nat_entries (table w) !! flow_of packet) as [e |] eqn:Hk.
  - by eapply forward_known.
  - by apply forward_new.
Qed.

(** A reader's packet is the reply of its flow, with the payload received. *)
Lemma build_response_packet_reply k pl pkt :
  wf_flow k -> build_response_packet k.1 k.2 pl = Ok pkt ->
  reply_of k pkt /\ exists p, parse_ip_packet pkt = Ok p /\ payload p pkt = Some pl.
Proof.
  intros (Hc & Hr & Pc & Pr) Hb. unfold build_response_packet in Hb.
  match type of Hb with build_udp_response_packet ?r _ = _ =>
    pose proof (build_udp_response_image r pl Hc Hr) as Hi end.
  destruct (_ && _) eqn:E in Hi; [| congruence]. apply andb_prop in E as [_ Hle%Z.leb_le].
  destruct Hi as (out & Ho & Hi). rewrite Hb in Ho. injection Ho as <-.
  destruct (parse_udp_image _ _ _ _ _ _ Hr Hc Pr Pc Hle Hi) as [Hparse Hpl].
  split; [eexists _, pl |]; eauto.
Qed.

Lemma reader_turn_inv cap s ev w : nat_inv cap w -> nat_inv cap (reader_turn s ev w).
Proof.
  intros I. unfold reader_turn. destruct (readers w !! s) as [[c r] |] eqn:Hr; [| done].
  assert (Hd : nat_inv cap (mkNatWorld (table w) (delete s (readers w)) (opened w) (sent w) (to_tun w))).
  { split; cbn; try apply I. intros s' k [_ H]%lookup_delete_Some. by eapply inv_reader. }
  destruct ev as [pl | |]; [| done | done].
  destruct (build_response_packet c r pl) as [pkt | | |] eqn:Hb; try done.
  split; cbn; try apply I. apply Forall_app. split; [apply I |]. apply Forall_singleton.
  destruct (inv_reader _ _ I _ _ Hr) as (e & He & <-). pose proof (inv_socket _ _ I _ _ He) as Ho.
  exists (ne_socket e), (c, r). split; [done |].
  apply (build_response_packet_reply (c, r) pl); [by eapply inv_wf | done].
Qed.

Lemma nat_step_inv cap w w' : 1 <= cap -> nat_inv cap w -> nat_step iter w w' -> nat_inv cap w'.
Proof.
  intros Hc I Hs. destruct Hs as [env packet raw w Hin Hfr | now w | s ev w].
  - destruct (forward_spec env packet raw cap w I Hc Hin Hfr) as (w' & r & -> & Hp & _). done.
  - apply set_entries_inv; [done | apply map_filter_subseteq].
  - by apply reader_turn_inv.
Qed.

Lemma nat_reachable_inv mark timeout cap w :
  nat_reachable iter (nat_new mark timeout cap) w -> nat_inv (Z.max cap 1) w.
Proof.
  induction 1 as [| w w' _ IH Hs].
  - split; cbn; try done. unfold nat_len. cbn. rewrite map_size_empty. lia.
  - eapply nat_step_inv; [lia | exact IH | exact Hs].
Qed.

End nat_lemmas.

(** * Theorems *)

(** C22. In every state the UDP NAT table can reach, whatever packets, timeouts, socket
    failures and replies occur: it holds at most its capacity of flows; every entry's socket
    was opened for its own flow, so that no two flows share a socket; every running response
    reader belongs to a live entry, so that eviction leaves no task behind; and every packet
    handed to the TUN device parses as a UDP packet from the remote end to the client of a
    flow that was opened. *)
Theorem nat_table_invariant (iter : gmap flow NatEntry -> list (flow * NatEntry))
    (mark timeout cap : Z) (w : NatWorld) :
  (forall m, iter m ≡ₚ map_to_list m) ->
  nat_reachable iter (nat_new mark timeout cap) w ->
  nat_len w <= Z.max cap 1
  /\ (forall k e, nat_entries (table w) !! k = Some e -> opened w !! ne_socket e = Some k)
  /\ (forall k k' e e', nat_entries (table w) !! k = Some e ->
        nat_entries (table w) !! k' = Some e' -> ne_socket e = ne_socket e' -> k = k')
  /\ (forall s k, readers w !! s = Some k ->
        exists e, nat_entries (table w) !! k = Some e /\ ne_socket e = s)
  /\ Forall (fun pkt => exists s k, opened w !! s = Some k /\ reply_of k pkt) (to_tun w).
Proof.
  intros Hi Hr. pose proof (nat_reachable_inv iter Hi _ _ _ _ Hr) as I.
  split_and!; try apply I.
  intros k k' e e' He He' Hs. apply (inv_socket _ _ I) in He, He'. congruence.
Qed.

(** One forwarded UDP packet, in any reachable state: the call fails only when the
    operating system refuses the socket or the send; on success exactly the payload of the
    packet goes out, on the socket opened for the packet's own flow, which is reused when
    the flow is known and has a running reader when it is new; the flow's entry carries the
    time of the packet; and another flow is lost only to make room for a new one, because it
    was idle longer than the timeout or because the table was full and it was seen least
    recently. *)
Theorem nat_forward_correct (iter : gmap flow NatEntry -> list (flow * NatEntry))
    (mark timeout cap : Z) (w : NatWorld) (env : NatEnv) (packet : IpPacket) (raw : bytes) :
  (forall m, iter m ≡ₚ map_to_list m) ->
  nat_reachable iter (nat_new mark timeout cap) w ->
  udp_input packet raw -> fresh_socket env w ->
  exists w' r, forward iter env packet raw w = (w', r)
    /\ forward_post env packet raw (Z.max cap 1) w w' r.
Proof.
  intros Hi Hr Hin Hfr. apply forward_spec; [done | | lia | done | done].
  by eapply nat_reachable_inv.
Qed.

Definition example_udp : bytes :=
  [0x45; 0; 0; 32; 0; 0; 0; 0; 64; 17; 0; 0; 10; 0; 0; 2; 8; 8; 8; 8]
  ++ [156; 64; 1; 187; 0; 12; 0; 0; 1; 2; 3; 4].

Definition example_flow : flow :=
  (mkSocketAddr (V4 [10; 0; 0; 2]) 40000, mkSocketAddr (V4 [8; 8; 8; 8]) 443).

Definition example_udp_packet : IpPacket :=
  mkIpPacket (V4 [10; 0; 0; 2]) (V4 [8; 8; 8; 8]) 40000 443 Udp 20 28 20 4 None None None.

Lemma example_udp_input : udp_input example_udp_packet example_udp.
Proof. split_and!; [apply (bool_decide_unpack _) |..]; vm_compute; done. Qed.

(** The empty table, and the table after the example packet. *)
Definition example_world (cap : Z) : NatWorld := mkNatWorld (nat_new 0 60 cap) ∅ ∅ [] [].
Definition example_env : NatEnv := mkNatEnv 5 5 (Some 1) true.
Definition example_world1 (cap : Z) : NatWorld :=
  (forward map_to_list example_env example_udp_packet example_udp (example_world cap)).1.

Lemma nat_table_invariant_witness :
  nat_len (example_world1 2) <= 2 /\ nat_len (example_world1 2) = 1.
Proof.
  split; [| vm_compute; reflexivity].
  apply (nat_table_invariant map_to_list 0 60 2 (example_world1 2)); [reflexivity |].
  eapply reach_step; [apply reach_init |].
  apply step_forward; [exact example_udp_input | vm_compute; reflexivity].
Defined.

Lemma nat_forward_correct_witness :
  exists w' r, forward map_to_list example_env example_udp_packet example_udp (example_world 2) = (w', r)
               /\ r = Ok tt /\ sent w' = [(1, [1; 2; 3; 4])].
Proof.
  destruct (nat_forward_correct map_to_list 0 60 2 (example_world 2) example_env example_udp_packet
              example_udp) as (w' & r & Hf & _);
    [reflexivity | apply reach_init | exact example_udp_input | vm_compute; reflexivity |].
  exists w', r. split; [exact Hf |]. vm_compute in Hf. injection Hf as <- <-. split; reflexivity.
Defined.

(** The reader of a known flow is not started again: once the reader has ended with a
    socket error, as it does when the remote port is reported unreachable, packets of the
    flow are still sent and keep its entry fresh, but no reply of the flow reaches the TUN
    device any more. *)
Theorem nat_reader_not_restarted (iter : gmap flow NatEntry -> list (flow * NatEntry))
    (mark timeout cap : Z) (w w1 : NatWorld) (env : NatEnv) (packet : IpPacket) (raw : bytes)
    (e : NatEntry) (pl : bytes) :
  (forall m, iter m ≡ₚ map_to_list m) ->
  nat_reachable iter (nat_new mark timeout cap) w ->
  nat_entries (table w) !! flow_of packet = Some e ->
  w1 = reader_turn (ne_socket e) RecvError w ->
  udp_input packet raw -> env_send_ok env = true ->
  exists w2, forward iter env packet raw w1 = (w2, Ok tt)
    /\ nat_entries (table w2) !! flow_of packet = Some (mkNatEntry (ne_socket e) (env_now env))
    /\ readers w2 !! ne_socket e = None
    /\ reader_turn (ne_socket e) (Received pl) w2 = w2.
Proof.
  intros Hi Hr He -> Hin Hs. pose proof (nat_reachable_inv iter Hi _ _ _ _ Hr) as I.
  set (w1 := reader_turn (ne_socket e) RecvError w).
  assert (I1 : nat_inv (Z.max cap 1) w1) by (by apply reader_turn_inv).
  assert (H1 : readers w1 !! ne_socket e = None /\ table w1 = table w).
  { unfold w1, reader_turn. destruct (readers w !! ne_socket e) as [[] |] eqn:E; [| done].
    cbn. by rewrite lookup_delete_eq. }
  destruct H1 as [H1 Ht]. rewrite <- Ht in He. destruct (udp_input_wf _ _ Hin) as [_ [pl' Hp]].
  destruct (send_packet_spec _ env packet raw _ e pl' w1 I1 He Hp)
    as (w2 & r & Hsp & _ & _ & Hrd & _ & Hm & Hout).
  rewrite Hs in Hout. destruct Hout as [-> _]. exists w2. rewrite Hm, Hrd, lookup_insert_eq.
  split_and!; try done.
  - unfold forward, mbind, stE_bind, st_get, st_modify. by rewrite He.
  - unfold reader_turn. by rewrite Hrd, H1.
Qed.

Lemma nat_reader_not_restarted_witness :
  exists w2, forward map_to_list (mkNatEnv 6 6 None true) example_udp_packet example_udp
               (reader_turn 1 RecvError (example_world1 2)) = (w2, Ok tt)
             /\ readers w2 !! 1 = None.
Proof.
  destruct (nat_reader_not_restarted map_to_list 0 60 2 (example_world1 2)
              (reader_turn 1 RecvError (example_world1 2)) (mkNatEnv 6 6 None true)
              example_udp_packet example_udp (mkNatEntry 1 5) [])
    as (w2 & H & _ & Hn & _); [reflexivity | | vm_compute; reflexivity | reflexivity |
      exact example_udp_input | reflexivity | exists w2; split; [exact H | exact Hn]].
  eapply reach_step; [apply reach_init |].
  apply step_forward; [exact example_udp_input | vm_compute; reflexivity].
Defined.

(** ** Observed flows *)

(** Sessions are stored under their own key. *)
Definition sessions_ok (t : TunSessionTable) : Prop := map_Forall (fun k s => ts_flow s = k) t.

Lemma matches_response_iff f p :
  matches_response f p = true <->
  fk_protocol f = protocol p /\ fk_remote f = mkSocketAddr (src p) (src_port p)
  /\ fk_client f = mkSocketAddr (dst p) (dst_port p).
Proof.
  unfold matches_response. rewrite !andb_true_iff, !bool_decide_eq_true, !Z.eqb_eq.
  destruct f as [[] [] ?]. cbn. naive_solver.
Qed.

(** The session table is a map from flows to the time they were last seen: an observed
    TCP or UDP packet stores or refreshes its own flow and no other; the answer to a flow is
    found exactly when the flow is tracked, whatever the order of the keys, and names that
    flow; expiry removes exactly the flows idle longer than the timeout and returns their
    number. *)
Theorem tun_sessions_correct (keys : TunSessionTable -> list FlowKey) (t : TunSessionTable)
    (p r : IpPacket) (now timeout : Z) :
  (forall m k, k ∈ keys m <-> is_Some (m !! k)) -> sessions_ok t ->
  let '(t1, s) := observe_packet t p now in
  let '(t2, n) := remove_expired t now timeout in
  sessions_ok t1 /\ sessions_ok t2
  /\ (forall f, t1 !! f = if bool_decide (from_packet p = Some f) then Some (mkTunSession f now)
                          else t !! f)
  /\ s = (fun f => mkTunSession f now) <$> from_packet p
  /\ (forall f, find_response_flow keys t r = Some f <->
        is_Some (t !! f) /\ matches_response f r = true)
  /\ (forall f s, t2 !! f = Some s <->
        t !! f = Some s /\ saturating_sub now (ts_last_seen s) <= timeout)
  /\ n = Z.of_nat (size (filter (fun kv => ~ saturating_sub now (ts_last_seen kv.2) <= timeout) t)).
Proof.
  intros Hk Hok. destruct (observe_packet t p now) as [t1 s] eqn:Ho. unfold remove_expired.
  unfold observe_packet in Ho. split_and!.
  - destruct (from_packet p) as [f |]; simplify_eq; [| done].
    apply map_Forall_insert_2; [| done]. cbn.
    destruct (t !! f) as [s' |] eqn:E; [| done]. by apply (Hok f).
  - intros f s' [H _]%retain_recent_lookup. by apply Hok.
  - intros f. destruct (from_packet p) as [g |] eqn:E; simplify_eq.
    + case_bool_decide; simplify_eq; [| by rewrite lookup_insert_ne by congruence].
      rewrite lookup_insert_eq. f_equal. f_equal.
      destruct (t !! f) as [s' |] eqn:E'; [| done]. by apply (Hok f).
    + by case_bool_decide.
  - destruct (from_packet p) as [f |]; simplify_eq; [| done]. cbn. f_equal. f_equal.
    destruct (t !! f) as [s' |] eqn:E; [| done]. by apply (Hok f).
  - intros f. unfold find_response_flow. split.
    + intros H. apply List.find_some in H as [Hin Hm]. apply list_elem_of_In, Hk in Hin. done.
    + intros [Hin Hm]. destruct (List.find _ _) as [g |] eqn:E.
      * apply List.find_some in E as [_ Hg]. apply matches_response_iff in Hm, Hg.
        destruct f, g. cbn in *. naive_solver.
      * eapply List.find_none in E; [| by apply list_elem_of_In, Hk]. congruence.
  - intros f s'. apply retain_recent_lookup.
  - rewrite <- (map_filter_union_complement
                  (fun kv => saturating_sub now (ts_last_seen kv.2) <= timeout) t) at 1.
    rewrite map_size_disj_union by apply map_disjoint_filter_complement. unfold retain_recent. lia.
Qed.

Lemma tun_sessions_correct_witness :
  find_response_flow (fun m => (map_to_list m).*1)
    (observe_packet ∅ example_udp_packet 3).1
    (mkIpPacket (V4 [8; 8; 8; 8]) (V4 [10; 0; 0; 2]) 443 40000 Udp 20 28 20 0 None None None)
  = Some (mkFlowKey (mkSocketAddr (V4 [10; 0; 0; 2]) 40000) (mkSocketAddr (V4 [8; 8; 8; 8]) 443) Udp).
Proof.
  apply (tun_sessions_correct (fun m => (map_to_list m).*1)
           (observe_packet ∅ example_udp_packet 3).1 example_udp_packet
           (mkIpPacket (V4 [8; 8; 8; 8]) (V4 [10; 0; 0; 2]) 443 40000 Udp 20 28 20 0 None None None) 4 60).
  - intros m k. rewrite list_elem_of_fmap. split.
    + intros ([k' v] & -> & H%elem_of_map_to_list). by exists v.
    + intros [v H]. exists (k, v). split; [done |]. by apply elem_of_map_to_list.
  - apply (bool_decide_unpack _). vm_compute. exact I.
  - split; vm_compute; [eexists |]; reflexivity.
Defined.
