(* ===== verification/TunTcp.v ===== *)
(** * The TCP bridge and the packet loop of the TUN runtime

    [tun/tcp.rs]: the table of bridged TCP flows, the task of a flow that copies between the
    TUN side and a SOCKS5 connection to the local proxy, and the SOCKS5 client it uses;
    [tun/runtime.rs]: dispatching of packets and the loop around it.

    A flow's channel, its cancellation sender and the shared counter [server_seq] live in a
    store of flows, [flows], under the identity of the flow; the table entry refers to it.
    A send on a full channel waits, which the loop model at the end shows for the channel to
    the device; the channel to a flow task is a queue. *)

From stdpp Require Import base list gmap strings numbers.
From S2P Require Import Prelude Address Socks TunPacket TunFlows.

Definition TCP_FIN : Z := 0x01.
Definition TCP_SYN : Z := 0x02.
Definition TCP_RST : Z := 0x04.
Definition TCP_PSH : Z := 0x08.
Definition TCP_ACK : Z := 0x10.
Definition DEFAULT_MAX_TCP_ENTRIES : Z := 4096.
Definition SERVER_ISN : Z := 0x42570001.

(** * State *)

Record TcpEntry := mkTcpEntry {
  te_flow : Z;
  te_last_seen : Z;
  te_client_next_seq : Z;
}.

Inductive FlowPhase := Connecting | Running | Ended.

#[global] Instance FlowPhase_eq_dec : EqDecision FlowPhase.
Proof. solve_decision. Defined.

(** A spawned [flow_task]: its captured endpoints, the shared sequence counter, its own
    acknowledgement counter, the payloads queued for it, what it wrote upstream, and whether
    its cancellation sender was dropped. *)
Record Flow := mkFlow {
  fl_client : SocketAddr;
  fl_remote : SocketAddr;
  fl_server_seq : Z;
  fl_client_ack : Z;
  fl_queue : list bytes;
  fl_upstream : bytes;
  fl_phase : FlowPhase;
  fl_cancelled : bool;
}.

Record TcpWorld := mkTcpWorld {
  tcp_entries : gmap flow TcpEntry;
  redirect_port : Z;
  tcp_idle_timeout : Z;
  tcp_max_entries : Z;
  flows : gmap Z Flow;
  tun_tx : list bytes;
}.

Definition tcp_new (redirect_port idle_timeout max_entries : Z) : TcpWorld :=
  mkTcpWorld ∅ redirect_port idle_timeout (Z.max max_entries 1) ∅ [].

Definition tcp_with_defaults (redirect_port idle_timeout : Z) : TcpWorld :=
  tcp_new redirect_port idle_timeout DEFAULT_MAX_TCP_ENTRIES.

Inductive TcpError := MissingMetadata | FlowTableFull.

Abbreviation tcpM := (stE TcpWorld TcpError).

Record TcpEnv := mkTcpEnv { tcp_now : Z; tcp_now_evict : Z; tcp_fresh : Z }.

(** ** Updates *)

Definition cancel_flow (f : Flow) : Flow :=
  mkFlow (fl_client f) (fl_remote f) (fl_server_seq f) (fl_client_ack f) (fl_queue f)
    (fl_upstream f) (fl_phase f) true.

Definition push_payload (pl : bytes) (f : Flow) : Flow :=
  mkFlow (fl_client f) (fl_remote f) (fl_server_seq f) (fl_client_ack f) (fl_queue f ++ [pl])
    (fl_upstream f) (fl_phase f) (fl_cancelled f).

Definition with_flows (w : TcpWorld) (fs : gmap Z Flow) : TcpWorld :=
  mkTcpWorld (tcp_entries w) (redirect_port w) (tcp_idle_timeout w) (tcp_max_entries w) fs (tun_tx w).

Definition with_tcp_entries (w : TcpWorld) (m : gmap flow TcpEntry) : TcpWorld :=
  mkTcpWorld m (redirect_port w) (tcp_idle_timeout w) (tcp_max_entries w) (flows w) (tun_tx w).

(** Replacing the table drops the senders of the entries that are gone. *)
Definition cancel_entries (dropped : gmap flow TcpEntry) (fs : gmap Z Flow) : gmap Z Flow :=
  map_fold (fun _ e fs => alter cancel_flow (te_flow e) fs) fs dropped.

Definition set_tcp_entries (m : gmap flow TcpEntry) (w : TcpWorld) : TcpWorld :=
  with_flows (with_tcp_entries w m) (cancel_entries (tcp_entries w ∖ m) (flows w)).

Definition tcp_remove (key : flow) (w : TcpWorld) : TcpWorld :=
  set_tcp_entries (delete key (tcp_entries w)) w.

Definition push_tun (pkt : bytes) (w : TcpWorld) : TcpWorld :=
  mkTcpWorld (tcp_entries w) (redirect_port w) (tcp_idle_timeout w) (tcp_max_entries w) (flows w)
    (tun_tx w ++ [pkt]).

(** [send_tcp], and [send_control] without a payload. *)
Definition send_tcp (src dst : SocketAddr) (seq ack flags : Z) (pl : bytes) (w : TcpWorld) : TcpWorld :=
  match build_tcp_packet src dst seq ack flags pl with
  | Ok pkt => push_tun pkt w
  | _ => w
  end.

Definition send_control (src dst : SocketAddr) (seq ack flags : Z) (w : TcpWorld) : TcpWorld :=
  send_tcp src dst seq ack flags [] w.

Section bridge.
Context (iter : gmap flow TcpEntry -> list (flow * TcpEntry)).

Definition tcp_evict_idle (now : Z) (w : TcpWorld) : TcpWorld :=
  set_tcp_entries (retain_recent te_last_seen now (tcp_idle_timeout w) (tcp_entries w)) w.

Definition tcp_evict_oldest (w : TcpWorld) : TcpWorld :=
  set_tcp_entries (remove_oldest te_last_seen iter (tcp_entries w)) w.

Definition tcp_len (w : TcpWorld) : Z := Z.of_nat (size (tcp_entries w)).

(** [TcpHeader::from_packet]. *)
Definition tcp_header (p : IpPacket) : option (Z * Z) :=
  seq ← tcp_seq p; flags ← tcp_flags p; Some (seq, flags).

(** The first SYN of a flow: spawn, insert, answer. *)
Definition accept_syn (env : TcpEnv) (key : flow) (seq : Z) : tcpM unit :=
  let '(client, remote) := key in
  _ ← st_modify (tcp_evict_idle (tcp_now_evict env));
  full ← st_get (fun w => tcp_len w >=? tcp_max_entries w);
  _ ← st_modify (fun w => if (full : bool) then tcp_evict_oldest w else w);
  full ← st_get (fun w => tcp_len w >=? tcp_max_entries w);
  if (full : bool) then st_fail FlowTableFull
  else
    let client_next_seq := wrap 32 (seq + 1) in
    let server_seq := Z.lxor SERVER_ISN (sa_port client) in
    let server_next_seq := wrap 32 (server_seq + 1) in
    _ ← st_modify (fun w => with_flows w
          (<[tcp_fresh env := mkFlow client remote server_next_seq client_next_seq [] [] Connecting false]>
             (flows w)));
    _ ← st_modify (fun w => with_tcp_entries w
          (<[key := mkTcpEntry (tcp_fresh env) (tcp_now env) client_next_seq]> (tcp_entries w)));
    st_modify (send_control remote client server_seq client_next_seq (Z.lor TCP_SYN TCP_ACK)).

(** [entry.server_seq.load]. *)
Definition load_server_seq (e : TcpEntry) (w : TcpWorld) : Z :=
  default 0 (fl_server_seq <$> flows w !! te_flow e).

Definition put_entry (key : flow) (e : TcpEntry) (w : TcpWorld) : TcpWorld :=
  with_tcp_entries w (<[key := e]> (tcp_entries w)).

(** [entry.tx.send(..)]: an error when the task has ended and dropped its receiver. *)
Definition send_payload (key : flow) (e : TcpEntry) (pl : bytes) (w : TcpWorld) : TcpWorld :=
  match flows w !! te_flow e with
  | Some f =>
      if bool_decide (fl_phase f = Ended) then tcp_remove key w
      else with_flows w (<[te_flow e := push_payload pl f]> (flows w))
  | None => tcp_remove key w
  end.

(** A packet of a known flow. *)
Definition known_packet (env : TcpEnv) (packet : IpPacket) (raw : bytes) (key : flow) (seq flags : Z)
    (entry : TcpEntry) : tcpM unit :=
  let '(client, remote) := key in
  let entry := mkTcpEntry (te_flow entry) (tcp_now env) (te_client_next_seq entry) in
  _ ← st_modify (put_entry key entry);
  if negb (Z.land flags TCP_FIN =? 0) then
    let entry := mkTcpEntry (te_flow entry) (te_last_seen entry) (wrap 32 (seq + 1)) in
    _ ← st_modify (put_entry key entry);
    _ ← st_modify (fun w => send_control remote client (load_server_seq entry w)
                              (te_client_next_seq entry) TCP_ACK w);
    st_modify (tcp_remove key)
  else
    match payload packet raw with
    | None => mret tt
    | Some pl =>
        if zlen pl =? 0 then mret tt
        else
          let entry := mkTcpEntry (te_flow entry) (te_last_seen entry) (wrap 32 (seq + zlen pl)) in
          _ ← st_modify (put_entry key entry);
          _ ← st_modify (fun w => send_control remote client (load_server_seq entry w)
                                    (te_client_next_seq entry) TCP_ACK w);
          st_modify (send_payload key entry pl)
    end.

Definition tcp_forward (env : TcpEnv) (packet : IpPacket) (raw : bytes) : tcpM unit :=
  if bool_decide (protocol packet <> Tcp) then mret tt
  else
    match tcp_header packet with
    | None => st_fail MissingMetadata
    | Some (seq, flags) =>
        let key := flow_of packet in
        known ← st_get (fun w => tcp_entries w !! key);
        if negb (Z.land flags TCP_RST =? 0) then st_modify (tcp_remove key)
        else
          match known with
          | None => if negb (Z.land flags TCP_SYN =? 0) then accept_syn env key seq else mret tt
          | Some entry => known_packet env packet raw key seq flags entry
          end
    end.

End bridge.

(** * The flow task *)

(** ** Its SOCKS5 client *)

Definition socks_greeting : bytes := [0x05; 0x01; 0x00].

Definition socks_connect_request (remote : SocketAddr) : bytes :=
  [0x05; 0x01; 0x00]
  ++ match sa_ip remote with
     | V4 o => [0x01] ++ o ++ be_bytes 2 (sa_port remote)
     | V6 o => [0x04] ++ o ++ be_bytes 2 (sa_port remote)
     end.

Definition read_socks_reply : duplexM unit :=
  head ← recv (read_exact 4);
  b0 ← st_lift (idx head 0);
  b1 ← st_lift (idx head 1);
  if negb (b0 =? 0x05) || negb (b1 =? 0x00) then st_fail (Protocol "SOCKS CONNECT failed")
  else
    b3 ← st_lift (idx head 3);
    addr_len ← (if b3 =? 0x01 then st_lift (Ok 4)
                else if b3 =? 0x03 then recv read_u8
                else if b3 =? 0x04 then st_lift (Ok 16)
                else st_fail (Protocol "SOCKS CONNECT reply used unsupported ATYP"));
    _ ← recv (read_exact (addr_len + 2));
    st_modify id.

(** After the connection is open. *)
Definition connect_local_socks (remote : SocketAddr) : duplexM unit :=
  _ ← write_all socks_greeting;
  greeting ← recv (read_exact 2);
  if negb (bytes_eqb greeting [0x05; 0x00]) then
    st_fail (Protocol "SOCKS listener rejected no-auth greeting")
  else
    _ ← write_all (socks_connect_request remote);
    read_socks_reply.

(** ** Its loop *)

Inductive FlowEvent :=
| Connected (reply : bytes)
| ConnectFailed
| PayloadReady
| PayloadWriteFailed
| UpstreamRead (data : bytes)
| UpstreamReadFailed
| CancelSeen.

Definition flow_with (f : Flow) (seq ack : Z) (q : list bytes) (up : bytes) (ph : FlowPhase) : Flow :=
  mkFlow (fl_client f) (fl_remote f) seq ack q up ph (fl_cancelled f).

(** What one turn of [flow_task] does to the flow and the packet it sends, [None] when the
    turn is not possible in this state. *)
Definition flow_turn (f : Flow) (ev : FlowEvent) : option (Flow * list (Z * Z * Z * bytes)) :=
  let seq := fl_server_seq f in
  let ack := fl_client_ack f in
  let ended := flow_with f seq ack (fl_queue f) (fl_upstream f) Ended in
  let failed := (ended, [(seq, ack, Z.lor TCP_RST TCP_ACK, [])]) in
  match fl_phase f, ev with
  | Connecting, Connected reply =>
      match connect_local_socks (fl_remote f) (mkDuplex reply []) with
      | (_, Ok _) => Some (flow_with f seq ack (fl_queue f) [] Running, [])
      | _ => Some failed
      end
  | Connecting, ConnectFailed => Some failed
  | Running, PayloadReady =>
      match fl_queue f with
      | pl :: q => Some (flow_with f seq (wrap 32 (ack + zlen pl)) q (fl_upstream f ++ pl) Running, [])
      | [] => None
      end
  | Running, PayloadWriteFailed =>
      match fl_queue f with
      | pl :: q =>
          let ack := wrap 32 (ack + zlen pl) in
          Some (flow_with f seq ack q (fl_upstream f) Ended, [(seq, ack, Z.lor TCP_RST TCP_ACK, [])])
      | [] => None
      end
  | Running, UpstreamRead [] =>
      Some (flow_with f (wrap 32 (seq + 1)) ack (fl_queue f) (fl_upstream f) Ended,
            [(seq, ack, Z.lor TCP_FIN TCP_ACK, [])])
  | Running, UpstreamRead data =>
      Some (flow_with f (wrap 32 (seq + zlen data)) ack (fl_queue f) (fl_upstream f) Running,
            [(seq, ack, Z.lor TCP_PSH TCP_ACK, data)])
  | Running, UpstreamReadFailed => Some failed
  | Running, CancelSeen => if fl_cancelled f then Some (ended, []) else None
  | _, _ => None
  end.

(** The turn inside the world: the segments go to the device. *)
Definition send_segments (f : Flow) (segs : list (Z * Z * Z * bytes)) (w : TcpWorld) : TcpWorld :=
  fold_left (fun w '(seq, ack, flags, pl) => send_tcp (fl_remote f) (fl_client f) seq ack flags pl w) segs w.

Definition flow_task_turn (id : Z) (ev : FlowEvent) (w : TcpWorld) : TcpWorld :=
  match flows w !! id with
  | None => w
  | Some f =>
      match flow_turn f ev with
      | Some (f', segs) => send_segments f segs (with_flows w (<[id := f']> (flows w)))
      | None => w
      end
  end.

(** * The packet loop *)

(** Depth of the channel of packets to the device. *)
Definition WRITE_CHAN_CAP : Z := 1024.
Definition UDP_IDLE_TIMEOUT : Z := 60.
Definition TCP_IDLE_TIMEOUT : Z := 120.

(** The loop owns both tables and is the only reader of the channel.  [rt_pending] holds
    the packets its current call of [dispatch] still has to send: until they are sent the
    loop is inside that call. *)
Record Runtime := mkRuntime {
  rt_nat : NatWorld;
  rt_tcp : TcpWorld;
  rt_chan : list bytes;
  rt_pending : list bytes;
  rt_written : list bytes;
}.

Definition runtime_start (mark redirect_port : Z) : Runtime :=
  mkRuntime (mkNatWorld (nat_with_defaults mark UDP_IDLE_TIMEOUT) ∅ ∅ [] [])
    (tcp_with_defaults redirect_port TCP_IDLE_TIMEOUT) [] [] [].

Section runtime.
Context (nat_iter : gmap flow NatEntry -> list (flow * NatEntry)).
Context (tcp_iter : gmap flow TcpEntry -> list (flow * TcpEntry)).
(** [cfg(target_os = windows)]: only there packets of TCP are bridged. *)
Context (windows : bool).

Definition dispatch (nenv : NatEnv) (tenv : TcpEnv) (raw : bytes) (nat : NatWorld) (tcp : TcpWorld)
  : NatWorld * TcpWorld :=
  match parse_ip_packet raw with
  | Ok packet =>
      match protocol packet with
      | Udp => if dst_port packet =? 53 then (nat, tcp)
               else ((forward nat_iter nenv packet raw nat).1, tcp)
      | Tcp => if windows then (nat, (tcp_forward tcp_iter tenv packet raw tcp).1) else (nat, tcp)
      | Other _ => (nat, tcp)
      end
  | _ => (nat, tcp)
  end.

(** The packets sent to the channel between two states of a table. *)
Definition sent_between (a b : list bytes) : list bytes := drop (length a) b.

Inductive LoopAction :=
| ReadPacket (raw : bytes) (nenv : NatEnv) (tenv : TcpEnv)
| SendPending
| WritePacket
| EvictTick (now : Z)
| ReaderTurn (s : Z) (ev : ReaderEvent)
| FlowTurn (id : Z) (ev : FlowEvent).

(** A task that sends waits until the channel has room. *)
Definition chan_send (rt : Runtime) (nat : NatWorld) (tcp : TcpWorld) (out : list bytes) : option Runtime :=
  if zlen (rt_chan rt) + zlen out <=? WRITE_CHAN_CAP
  then Some (mkRuntime nat tcp (rt_chan rt ++ out) (rt_pending rt) (rt_written rt))
  else None.

Definition loop_do (act : LoopAction) (rt : Runtime) : option Runtime :=
  match act with
  | ReadPacket raw nenv tenv =>
      if zlen (rt_pending rt) =? 0 then
        let '(nat, tcp) := dispatch nenv tenv raw (rt_nat rt) (rt_tcp rt) in
        Some (mkRuntime nat tcp (rt_chan rt)
                (sent_between (to_tun (rt_nat rt)) (to_tun nat)
                 ++ sent_between (tun_tx (rt_tcp rt)) (tun_tx tcp)) (rt_written rt))
      else None
  | SendPending =>
      match rt_pending rt with
      | pkt :: rest =>
          if zlen (rt_chan rt) <? WRITE_CHAN_CAP
          then Some (mkRuntime (rt_nat rt) (rt_tcp rt) (rt_chan rt ++ [pkt]) rest (rt_written rt))
          else None
      | [] => None
      end
  | WritePacket =>
      match rt_pending rt, rt_chan rt with
      | [], pkt :: rest =>
          Some (mkRuntime (rt_nat rt) (rt_tcp rt) rest [] (rt_written rt ++ [pkt]))
      | _, _ => None
      end
  | EvictTick now =>
      if zlen (rt_pending rt) =? 0 then
        Some (mkRuntime (nat_evict_idle now (rt_nat rt))
                (if windows then tcp_evict_idle now (rt_tcp rt) else rt_tcp rt)
                (rt_chan rt) [] (rt_written rt))
      else None
  | ReaderTurn s ev =>
      let nat := reader_turn s ev (rt_nat rt) in
      chan_send rt nat (rt_tcp rt) (sent_between (to_tun (rt_nat rt)) (to_tun nat))
  | FlowTurn id ev =>
      let tcp := flow_task_turn id ev (rt_tcp rt) in
      chan_send rt (rt_nat rt) tcp (sent_between (tun_tx (rt_tcp rt)) (tun_tx tcp))
  end.

Inductive loop_reachable (rt0 : Runtime) : Runtime -> Prop :=
| loop_start : loop_reachable rt0 rt0
| loop_next rt act rt' :
    loop_reachable rt0 rt -> loop_do act rt = Some rt' -> loop_reachable rt0 rt'.

Fixpoint loop_run (acts : list LoopAction) (rt : Runtime) : option Runtime :=
  match acts with
  | [] => Some rt
  | act :: acts => match loop_do act rt with Some rt' => loop_run acts rt' | None => None end
  end.

Lemma loop_run_reachable rt0 acts : forall rt rt',
  loop_reachable rt0 rt -> loop_run acts rt = Some rt' -> loop_reachable rt0 rt'.
Proof.
  induction acts as [| act acts IH]; intros rt rt' Hr; cbn [loop_run]; [by intros [= <-] |].
  destruct (loop_do act rt) as [rt1 |] eqn:E; [| done]. apply IH. by eapply loop_next.
Qed.

End runtime.

(** ** Example runs *)

Definition example_client (port : Z) : SocketAddr := mkSocketAddr (V4 [10; 0; 0; 2]) port.
Definition example_remote : SocketAddr := mkSocketAddr (V4 [8; 8; 8; 8]) 443.

Definition example_segment (port seq flags : Z) (pl : bytes) : bytes :=
  match build_tcp_packet (example_client port) example_remote seq 0 flags pl with Ok p => p | _ => [] end.

Definition example_nenv : NatEnv := mkNatEnv 0 0 None true.

(** A flow is accepted and connected, its upstream fills the channel, and then another
    client opens a connection. *)
Definition deadlock_run : list LoopAction :=
  [ReadPacket (example_segment 40000 7 TCP_SYN []) example_nenv (mkTcpEnv 0 0 1); SendPending;
   FlowTurn 1 (Connected [5; 0; 5; 0; 0; 1; 0; 0; 0; 0; 0; 0])]
  ++ replicate 1023 (FlowTurn 1 (UpstreamRead [65]))
  ++ [ReadPacket (example_segment 40001 7 TCP_SYN []) example_nenv (mkTcpEnv 0 0 2)].

Definition deadlock_state : option Runtime :=
  loop_run map_to_list map_to_list true deadlock_run (runtime_start 0 1080).

(** * Lemmas *)

Lemma forward_to_tun iter env packet raw w : to_tun (forward iter env packet raw w).1 = to_tun w.
Proof.
  unfold forward, send_packet, new_flow, mbind, stE_bind, st_get, st_modify, st_fail. cbn zeta.
  destruct (nat_entries (table w) !! flow_of packet).
  - cbn [fst snd id]. destruct (_ !! _); [| done]. cbn [fst snd].
    destruct (payload packet raw); [| done]. by destruct (env_send_ok env).
  - cbn [fst snd]. 
    assert (Hif : forall b w', to_tun (if (b : bool) then nat_evict_oldest iter w' else w') = to_tun w')
      by (by intros []).
    set (w1 := if (_ : bool) then nat_evict_oldest iter _ else _).
    assert (Hw1 : to_tun w1 = to_tun w) by (unfold w1; by rewrite Hif).
    destruct (nat_len w1 >=? max_entries (table w1)); [done |].
    destruct (env_open env); [| done]. cbn [fst snd]. destruct (_ !! _); [| done]. cbn [fst snd].
    destruct (payload packet raw); [| done]. by destruct (env_send_ok env).
Qed.

(** ** Segments on the wire *)

Definition segment_of (pkt : bytes) : option (flow * Z * Z * bytes) :=
  match parse_ip_packet pkt with
  | Ok p =>
      pl ← payload p pkt; seq ← tcp_seq p; flags ← tcp_flags p;
      Some (flow_of p, seq, flags, pl)
  | _ => None
  end.

(** A TCP receiver for the flow, given the segments in the order in which they are sent. *)
Fixpoint receive (key : flow) (expected : Z) (pkts : list bytes) : option bytes :=
  match pkts with
  | [] => Some []
  | pkt :: pkts =>
      '(k, seq, flags, pl) ← segment_of pkt;
      if bool_decide (k = (key.2, key.1)) && (seq =? expected) then
        let fin := if Z.land flags TCP_FIN =? 0 then 0 else 1 in
        rest ← receive key (wrap 32 (expected + zlen pl + fin)) pkts;
        Some (pl ++ rest)
      else None
  end.

Definition wf_endpoints (f : Flow) : Prop :=
  wf_flow (fl_client f, fl_remote f)
  /\ same_family (sa_ip (fl_remote f)) (sa_ip (fl_client f)) = true
  /\ is_u 32 (fl_server_seq f) /\ is_u 32 (fl_client_ack f).

Lemma is_u_wrap n z : 0 <= n -> is_u n (wrap n z).
Proof. intros. apply Z.mod_pos_bound. lia. Qed.

Lemma build_segment f seq ack flags pl :
  wf_endpoints f -> is_u 32 seq -> is_u 32 ack -> zlen pl <= 16384 ->
  exists pkt, build_tcp_packet (fl_remote f) (fl_client f) seq ack flags pl = Ok pkt
    /\ segment_of pkt = Some (((fl_remote f, fl_client f) : flow), seq, flags, pl).
Proof.
  intros ((Hc & Hr & Pc & Pr) & Hf & _) Hs Ha Hpl. cbn in *.
  pose proof (build_tcp_packet_image (fl_remote f) (fl_client f) seq ack flags pl Hr Hc) as Hi.
  assert (Hm : zlen pl <= max_payload (sa_ip (fl_remote f)) 20)
    by (destruct (sa_ip (fl_remote f)); cbn; lia).
  rewrite Hf, (proj2 (Z.leb_le _ _) Hm) in Hi. destruct Hi as (pkt & Hb & Hi).
  destruct (parse_tcp_image _ _ _ _ _ _ _ _ _ _ Hr Hc Pr Pc Hs Ha Hm Hi) as [Hp Hpay].
  exists pkt. split; [done |]. unfold segment_of. rewrite Hp, Hpay. cbn.
  by destruct (fl_remote f), (fl_client f).
Qed.

Lemma send_tcp_segment f seq ack flags pl w :
  wf_endpoints f -> is_u 32 seq -> is_u 32 ack -> zlen pl <= 16384 ->
  exists pkt, send_tcp (fl_remote f) (fl_client f) seq ack flags pl w = push_tun pkt w
    /\ segment_of pkt = Some (((fl_remote f, fl_client f) : flow), seq, flags, pl).
Proof.
  intros. destruct (build_segment f seq ack flags pl) as (pkt & Hb & Hs); try done.
  exists pkt. unfold send_tcp. by rewrite Hb.
Qed.

(** ** The flow task *)

(** Upstream reads fill a buffer of 16 KiB. *)
Definition event_ok (ev : FlowEvent) : Prop :=
  match ev with UpstreamRead d => zlen d <= 16384 | _ => True end.

(** The upstream bytes the task reads during a list of turns. *)
Fixpoint read_bytes (f : Flow) (evs : list FlowEvent) : bytes :=
  match evs with
  | [] => []
  | ev :: evs =>
      match flow_turn f ev with
      | Some (f', _) => match ev with UpstreamRead d => d | _ => [] end ++ read_bytes f' evs
      | None => read_bytes f evs
      end
  end.

Definition flow_run (id : Z) (evs : list FlowEvent) (w : TcpWorld) : TcpWorld :=
  fold_left (fun w ev => flow_task_turn id ev w) evs w.

Definition data_of (ev : FlowEvent) : bytes := match ev with UpstreamRead d => d | _ => [] end.
Definition fin_of (flags : Z) : Z := if Z.land flags TCP_FIN =? 0 then 0 else 1.

Lemma wrap_small n z : is_u n z -> wrap n z = z.
Proof. intros. by apply Z.mod_small. Qed.

Lemma flow_with_wf f seq ack q up ph :
  wf_endpoints f -> is_u 32 seq -> is_u 32 ack -> wf_endpoints (flow_with f seq ack q up ph).
Proof. by intros (? & ? & _ & _) ? ?. Qed.

Ltac turn_wf :=
  refine (conj _ (conj eq_refl (conj eq_refl _)));
  [apply flow_with_wf; [done | first [assumption | by apply is_u_wrap] ..] |].

(** One turn sends at most one segment, the next in sequence, with the bytes just read. *)
Lemma flow_turn_spec f ev f' segs :
  wf_endpoints f -> event_ok ev -> flow_turn f ev = Some (f', segs) ->
  wf_endpoints f' /\ fl_client f' = fl_client f /\ fl_remote f' = fl_remote f
  /\ ((segs = [] /\ data_of ev = [] /\ fl_server_seq f' = fl_server_seq f)
      \/ exists ack flags, segs = [(fl_server_seq f, ack, flags, data_of ev)] /\ is_u 32 ack
           /\ zlen (data_of ev) <= 16384
           /\ fl_server_seq f' = wrap 32 (fl_server_seq f + zlen (data_of ev) + fin_of flags)).
Proof.
  intros Hwf Hev Ht. pose proof Hwf as (Hw & Hfam & Hs & Ha).
  assert (Hr : forall ack, is_u 32 ack ->
     exists a flags, [(fl_server_seq f, ack, Z.lor TCP_RST TCP_ACK, [] : bytes)]
                       = [(fl_server_seq f, a, flags, [])]
       /\ is_u 32 a /\ zlen ([] : bytes) <= 16384
       /\ fl_server_seq f = wrap 32 (fl_server_seq f + zlen ([] : bytes) + fin_of flags)).
  { intros ack Hack. eexists ack, _. split_and!; [done | done | done |].
    change (zlen ([] : bytes)) with 0. change (fin_of _) with 0. rewrite !Z.add_0_r. by rewrite wrap_small. }
  unfold flow_turn in Ht. cbv zeta in Ht.
  destruct (fl_phase f) eqn:Ph, ev as [reply | | | | [| b d] | |]; try done; cbn [data_of] in *.
  - destruct (connect_local_socks _ _) as [? []]; simplify_eq; turn_wf; first [left; done | right; apply Hr; first [assumption | by apply is_u_wrap]].
  - simplify_eq. turn_wf; first [left; done | right; apply Hr; first [assumption | by apply is_u_wrap]].
  - destruct (fl_queue f) as [| pl q]; simplify_eq. turn_wf; first [left; done | right; apply Hr; first [assumption | by apply is_u_wrap]].
  - destruct (fl_queue f) as [| pl q]; simplify_eq. turn_wf; first [left; done | right; apply Hr; first [assumption | by apply is_u_wrap]].
  - simplify_eq. turn_wf. right.
    eexists _, _. split_and!; [done | done | done |]. cbn [fl_server_seq flow_with].
    change (zlen ([] : bytes)) with 0. change (fin_of _) with 1. f_equal. lia.
  - simplify_eq. turn_wf. right.
    eexists _, _. split_and!; [done | done | done |]. cbn [fl_server_seq flow_with].
    change (fin_of _) with 0. f_equal. lia.
  - simplify_eq. turn_wf; first [left; done | right; apply Hr; first [assumption | by apply is_u_wrap]].
  - destruct (fl_cancelled f); simplify_eq. turn_wf; first [left; done | right; apply Hr; first [assumption | by apply is_u_wrap]].
Qed.

(** The turns of one task, seen from the device. *)
Lemma flow_run_received id evs : forall w f,
  flows w !! id = Some f -> wf_endpoints f -> Forall event_ok evs ->
  exists pkts, tun_tx (flow_run id evs w) = tun_tx w ++ pkts
    /\ receive (fl_client f, fl_remote f) (fl_server_seq f) pkts = Some (read_bytes f evs).
Proof.
  induction evs as [| ev evs IH]; intros w f Hf Hw Hev; cbn [flow_run fold_left read_bytes].
  - exists []. by rewrite app_nil_r.
  - apply Forall_cons_1 in Hev as [Hev Hevs]. fold (flow_run id evs (flow_task_turn id ev w)).
    assert (Ht : flow_task_turn id ev w = match flow_turn f ev with
              | Some (f', segs) => send_segments f segs (with_flows w (<[id := f']> (flows w)))
              | None => w end) by (unfold flow_task_turn; by rewrite Hf).
    rewrite Ht. destruct (flow_turn f ev) as [[f' segs] |] eqn:E; [| by apply IH].
    destruct (flow_turn_spec f ev f' segs Hw Hev E) as (Hw' & Hc & Hr & Hs). fold (data_of ev).
    destruct Hs as [(-> & -> & Hseq) | (ack & flags & -> & Ha & Hl & Hseq)].
    + destruct (IH (with_flows w (<[id := f']> (flows w))) f') as (pkts & Hp & Hrec);
        [apply lookup_insert_eq | done | done |].
      exists pkts. split; [exact Hp |]. by rewrite Hc, Hr, Hseq in Hrec.
    + cbn [send_segments fold_left].
      destruct (send_tcp_segment f (fl_server_seq f) ack flags (data_of ev)
                  (with_flows w (<[id := f']> (flows w)))) as (pkt & -> & Hseg);
        [done | apply Hw | done | done |].
      destruct (IH (push_tun pkt (with_flows w (<[id := f']> (flows w)))) f') as (pkts & Hp & Hrec);
        [apply lookup_insert_eq | done | done |].
      exists (pkt :: pkts). rewrite Hp. cbn [tun_tx push_tun with_flows].
      split; [by rewrite <- app_assoc |]. cbn [receive]. rewrite Hseg.
      rewrite Hc, Hr, Hseq in Hrec. cbn [fst snd mbind option_bind].
      rewrite bool_decide_eq_true_2, Z.eqb_refl by done. unfold fin_of in Hrec.
      cbn [andb]. rewrite Hrec. done.
Qed.

(** What is written upstream comes from the queue, in order. *)
Lemma flow_turn_upstream f ev f' segs :
  flow_turn f ev = Some (f', segs) -> fl_phase f = Running ->
  (fl_phase f' = Running /\ fl_upstream f' ++ concat (fl_queue f') = fl_upstream f ++ concat (fl_queue f))
  \/ (fl_phase f' = Ended /\ fl_upstream f' = fl_upstream f).
Proof.
  intros Ht Hp. unfold flow_turn in Ht. rewrite Hp in Ht. cbv zeta in Ht.
  destruct ev as [reply | | | | [| b d] | |]; try done; try (simplify_eq; auto; fail).
  - destruct (fl_queue f) as [| pl q] eqn:Hq; simplify_eq. left. cbn. by rewrite <- app_assoc.
  - destruct (fl_queue f) as [| pl q] eqn:Hq; simplify_eq. auto.
  - destruct (fl_cancelled f); simplify_eq; auto.
Qed.

(** ** Packets of a known flow *)

(** A data segment of the flow [key]. *)
Definition data_segment (key : flow) (packet : IpPacket) (raw : bytes) (seq : Z) (pl : bytes) : Prop :=
  protocol packet = Tcp /\ flow_of packet = key /\ tcp_seq packet = Some seq
  /\ (exists flags, tcp_flags packet = Some flags /\ Z.land flags TCP_RST = 0 /\ Z.land flags TCP_FIN = 0)
  /\ payload packet raw = Some pl /\ pl <> [].

Definition tcp_run (iter : gmap flow TcpEntry -> list (flow * TcpEntry))
    (l : list (TcpEnv * IpPacket * bytes)) (w : TcpWorld) : TcpWorld :=
  fold_left (fun w '(env, packet, raw) => (tcp_forward iter env packet raw w).1) l w.

(** The flow [key] is in the table and its task has not ended. *)
Definition flow_alive (key : flow) (w : TcpWorld) (e : TcpEntry) (f : Flow) : Prop :=
  tcp_entries w !! key = Some e /\ flows w !! te_flow e = Some f /\ fl_phase f <> Ended.

Lemma send_tcp_frame s d seq ack flags pl w :
  tcp_entries (send_tcp s d seq ack flags pl w) = tcp_entries w
  /\ flows (send_tcp s d seq ack flags pl w) = flows w.
Proof. unfold send_tcp. by destruct (build_tcp_packet _ _ _ _ _ _). Qed.

(** A data segment is queued whatever its sequence number, and acknowledged up to its end. *)
Lemma forward_data iter env packet raw key seq pl w e f :
  data_segment key packet raw seq pl -> flow_alive key w e f ->
  exists w', tcp_forward iter env packet raw w = (w', Ok tt)
    /\ flow_alive key w' (mkTcpEntry (te_flow e) (tcp_now env) (wrap 32 (seq + zlen pl)))
         (push_payload pl f)
    /\ tun_tx w' = tun_tx (send_control key.2 key.1 (fl_server_seq f) (wrap 32 (seq + zlen pl)) TCP_ACK w).
Proof.
  intros (Hp & Hk & Hs & (flags & Hf & Hr & Hn) & Hpl & Hne) (He & Hfl & Hph).
  unfold tcp_forward, tcp_header. rewrite bool_decide_eq_false_2 by (intros H; by apply H).
  rewrite Hs, Hf. cbn [mbind option_bind]. rewrite Hk, Hr.
  unfold mbind at 1, stE_bind at 1, st_get at 1. rewrite He. cbn [Z.eqb negb].
  unfold known_packet. destruct key as [client remote]. rewrite Hn, Hpl. cbn [Z.eqb negb].
  destruct (Z.eqb_spec (zlen pl) 0) as [E |]; [by destruct pl; [| len_solve] |].
  unfold mbind, stE_bind, st_modify. cbn [fst snd te_flow te_last_seen te_client_next_seq].
  unfold load_server_seq. cbn [put_entry with_tcp_entries flows te_flow]. rewrite Hfl. cbn [fmap option_fmap option_map default].
  set (w2 := send_control _ _ _ _ _ _). unfold send_payload. cbn [te_flow].
  destruct (send_tcp_frame remote client (fl_server_seq f) (wrap 32 (seq + zlen pl)) TCP_ACK []
     (put_entry (client, remote) (mkTcpEntry (te_flow e) (tcp_now env) (wrap 32 (seq + zlen pl)))
        (put_entry (client, remote) (mkTcpEntry (te_flow e) (tcp_now env) (te_client_next_seq e)) w))) as [Hm Hfs].
  assert (Hw2 : flows w2 = flows w /\ tcp_entries w2 !! (client, remote)
     = Some (mkTcpEntry (te_flow e) (tcp_now env) (wrap 32 (seq + zlen pl)))).
  { split; [exact Hfs |]. etrans; [exact (f_equal (lookup (client, remote)) Hm) |]. apply lookup_insert_eq. }
  destruct Hw2 as [Hf2 Hm2]. rewrite Hf2, Hfl, bool_decide_eq_false_2 by done.
  eexists. split; [done |]. split; [split_and!; [exact Hm2 | apply lookup_insert_eq | done] |].
  unfold w2, send_control, send_tcp. by destruct (build_tcp_packet _ _ _ _ _ _).
Qed.

(** Segments one after the other, each starting where the previous one ended. *)
Fixpoint tiles (next : Z) (segs : list (Z * bytes)) : Prop :=
  match segs with
  | [] => True
  | (seq, pl) :: segs => seq = next /\ tiles (wrap 32 (seq + zlen pl)) segs
  end.

Lemma wrap_add n a b : wrap n (wrap n a + b) = wrap n (a + b).
Proof. unfold wrap. by rewrite Zplus_mod_idemp_l. Qed.

Lemma tcp_run_data iter key (l : list (TcpEnv * IpPacket * bytes)) (segs : list (Z * bytes)) : forall w e f,
  flow_alive key w e f ->
  Forall2 (fun '(env, packet, raw) '(seq, pl) => data_segment key packet raw seq pl) l segs ->
  exists e' f', flow_alive key (tcp_run iter l w) e' f' /\ te_flow e' = te_flow e
    /\ fl_queue f' = fl_queue f ++ segs.*2 /\ fl_upstream f' = fl_upstream f
    /\ (is_u 32 (te_client_next_seq e) -> tiles (te_client_next_seq e) segs ->
        te_client_next_seq e' = wrap 32 (te_client_next_seq e + zlen (concat (segs.*2)))).
Proof.
  revert segs. induction l as [| [[env packet] raw] l IH]; intros segs w e f Ha Hl.
  - apply Forall2_nil_inv_l in Hl as ->. exists e, f. cbn. rewrite app_nil_r.
    split_and!; try done. intros Hu _. change (zlen (A:=Z) []) with 0. by rewrite Z.add_0_r, wrap_small.
  - apply Forall2_cons_inv_l in Hl as ([seq pl] & segs' & Hd & Hl & ->).
    destruct (forward_data iter env packet raw key seq pl w e f Hd Ha) as (w1 & Hw1 & Ha1 & _).
    destruct (IH segs' w1 _ _ Ha1 Hl) as (e' & f' & Ha' & Hfl & Hq & Hup & Hnext).
    exists e', f'. cbn [tcp_run fold_left]. rewrite Hw1. cbn [fst].
    split_and!; [done | done | | done |].
    + rewrite Hq. cbn. by rewrite <- app_assoc.
    + intros Hu [-> Ht]. rewrite Hnext; [| by apply is_u_wrap | done].
      cbn [te_client_next_seq fmap list_fmap snd concat]. rewrite wrap_add, zlen_app. f_equal. lia.
Qed.

(** ** The table *)

Definition key_of (f : Flow) : flow := (fl_client f, fl_remote f).

Record tcp_inv (cap : Z) (w : TcpWorld) : Prop := {
  tinv_cap : tcp_max_entries w = cap;
  tinv_size : tcp_len w <= cap;
  tinv_entry : forall k e, tcp_entries w !! k = Some e ->
    exists f, flows w !! te_flow e = Some f /\ key_of f = k;
  tinv_live : forall id f, flows w !! id = Some f -> fl_cancelled f = false ->
    exists e, tcp_entries w !! key_of f = Some e /\ te_flow e = id;
}.

(** The flows after entries were dropped: those of the dropped entries are cancelled. *)
Lemma cancel_entries_lookup d fs id :
  match fs !! id with
  | None => cancel_entries d fs !! id = None
  | Some f => exists f', cancel_entries d fs !! id = Some f' /\ key_of f' = key_of f
      /\ (f' = f \/ fl_cancelled f' = true)
      /\ ((exists k e, d !! k = Some e /\ te_flow e = id) -> fl_cancelled f' = true)
  end.
Proof.
  unfold cancel_entries. revert id.
  apply (map_fold_weak_ind (fun r d => forall id,
    match fs !! id with
    | None => r !! id = None
    | Some f => exists f', r !! id = Some f' /\ key_of f' = key_of f
        /\ (f' = f \/ fl_cancelled f' = true)
        /\ ((exists k e, d !! k = Some e /\ te_flow e = id) -> fl_cancelled f' = true)
    end)).
  - intros id. destruct (fs !! id) as [f |]; [| done]. exists f. split_and!; auto.
    intros (k & e & H & _). by rewrite lookup_empty in H.
  - intros k e m r Hk IH id. specialize (IH id). destruct (decide (te_flow e = id)) as [<- | Hne].
    + rewrite lookup_alter_eq. destruct (fs !! te_flow e) as [f |]; [| by rewrite IH].
      destruct IH as (f' & -> & Hkey & _). exists (cancel_flow f'). split_and!; auto.
    + rewrite lookup_alter_ne by done. destruct (fs !! id) as [f |]; [| done].
      destruct IH as (f' & -> & Hkey & Hor & Hd). exists f'. split_and!; auto.
      intros (k' & e' & [[<- <-] | [_ H]]%lookup_insert_Some & Hid); [done |]. apply Hd. eauto.
Qed.

Lemma set_tcp_entries_inv cap m w :
  tcp_inv cap w -> m ⊆ tcp_entries w -> tcp_inv cap (set_tcp_entries m w).
Proof.
  intros I Hsub. split.
  - apply (tinv_cap _ _ I).
  - pose proof (tinv_size _ _ I). unfold tcp_len in *. cbn. apply map_subseteq_size in Hsub. lia.
  - intros k e Hk. cbn in *. apply (lookup_weaken _ (tcp_entries w)) in Hk as Hk'; [| done].
    destruct (tinv_entry _ _ I k e Hk') as (f & Hf & Hkey).
    pose proof (cancel_entries_lookup (tcp_entries w ∖ m) (flows w) (te_flow e)) as H.
    rewrite Hf in H. destruct H as (f' & Hf' & Hkey' & _). exists f'. split; [done | congruence].
  - intros id f' Hf' Hc. cbn in *.
    pose proof (cancel_entries_lookup (tcp_entries w ∖ m) (flows w) id) as H.
    destruct (flows w !! id) as [f |] eqn:Hf; [| congruence].
    destruct H as (f0 & E & Hkey & Hor & Hd). rewrite Hf' in E. injection E as <-.
    destruct Hor as [-> | ?]; [| congruence].
    destruct (tinv_live _ _ I id f Hf Hc) as (e & He & Hid). exists e. split; [| done].
    destruct (m !! key_of f) as [e' |] eqn:Hm.
    + rewrite <- He. f_equal. symmetry. by eapply lookup_weaken.
    + exfalso. rewrite Hd in Hc; [done |]. exists (key_of f), e. split; [| done].
      by apply lookup_difference_Some.
Qed.

Lemma tcp_remove_inv cap key w : tcp_inv cap w -> tcp_inv cap (tcp_remove key w).
Proof. intros. apply set_tcp_entries_inv; [done | apply delete_subseteq]. Qed.

Lemma tcp_inv_frame cap w w' :
  tcp_inv cap w -> tcp_entries w' = tcp_entries w -> flows w' = flows w ->
  tcp_max_entries w' = tcp_max_entries w -> tcp_inv cap w'.
Proof.
  intros [H1 H2 H3 H4] Hm Hf Hc. split; unfold tcp_len in *; rewrite ?Hm, ?Hf, ?Hc; done.
Qed.

Lemma send_tcp_inv cap s d seq ack flags pl w :
  tcp_inv cap w -> tcp_inv cap (send_tcp s d seq ack flags pl w).
Proof.
  intros I. eapply tcp_inv_frame; [exact I | apply send_tcp_frame .. |].
  unfold send_tcp. by destruct (build_tcp_packet _ _ _ _ _ _).
Qed.

Lemma put_entry_inv cap key e e' w :
  tcp_inv cap w -> tcp_entries w !! key = Some e -> te_flow e' = te_flow e ->
  tcp_inv cap (put_entry key e' w).
Proof.
  intros I He Hid. split; cbn.
  - apply (tinv_cap _ _ I).
  - unfold tcp_len in *. cbn. rewrite map_size_insert, He. apply (tinv_size _ _ I).
  - intros k x [[<- <-] | [_ Hx]]%lookup_insert_Some; [rewrite Hid |]; by eapply tinv_entry.
  - intros id f Hf Hc. destruct (tinv_live _ _ I id f Hf Hc) as (x & Hx & Hxid).
    destruct (decide (key_of f = key)) as [E |].
    + rewrite E in *. exists e'. rewrite lookup_insert_eq. split; [done | congruence].
    + exists x. by rewrite lookup_insert_ne.
Qed.

(** A flow is replaced by one with the same endpoints and cancellation. *)
Lemma put_flow_inv cap id f f' w :
  tcp_inv cap w -> flows w !! id = Some f -> key_of f' = key_of f ->
  fl_cancelled f' = fl_cancelled f -> tcp_inv cap (with_flows w (<[id := f']> (flows w))).
Proof.
  intros I Hf Hk Hc. split; cbn; try apply I.
  - intros k e He. destruct (tinv_entry _ _ I k e He) as (g & Hg & Hgk).
    destruct (decide (te_flow e = id)) as [E |].
    + rewrite E in *. exists f'. rewrite lookup_insert_eq. split; [done | congruence].
    + exists g. by rewrite lookup_insert_ne.
  - intros i g [[<- <-] | [_ Hg]]%lookup_insert_Some Hgc; [| by eapply tinv_live].
    rewrite Hk. eapply tinv_live; [exact I | exact Hf | congruence].
Qed.

Lemma send_payload_inv cap key e pl w : tcp_inv cap w -> tcp_inv cap (send_payload key e pl w).
Proof.
  intros I. unfold send_payload. destruct (flows w !! te_flow e) as [f |] eqn:Hf;
    [| by apply tcp_remove_inv].
  case_bool_decide; [by apply tcp_remove_inv | by eapply put_flow_inv].
Qed.

Lemma known_packet_inv cap env packet raw key seq flags e w :
  tcp_inv cap w -> tcp_entries w !! key = Some e ->
  tcp_inv cap (known_packet env packet raw key seq flags e w).1.
Proof.
  intros I He. unfold known_packet. destruct key as [c r].
  unfold mbind, stE_bind, st_modify, mret, stE_ret. cbn [fst snd te_flow te_last_seen te_client_next_seq].
  set (w1 := put_entry (c, r) (mkTcpEntry (te_flow e) (tcp_now env) (te_client_next_seq e)) w).
  assert (I1 : tcp_inv cap w1) by (by eapply put_entry_inv).
  assert (I2 : forall n, tcp_inv cap (put_entry (c, r) (mkTcpEntry (te_flow e) (tcp_now env) n) w1)).
  { intros n. eapply put_entry_inv; [exact I1 | apply lookup_insert_eq | done]. }
  destruct (negb _); cbn [fst].
  - by apply tcp_remove_inv, send_tcp_inv.
  - destruct (payload packet raw) as [pl |]; [| done]. destruct (_ =? 0); [done |]. cbn [fst].
    by apply send_payload_inv, send_tcp_inv.
Qed.

Section tcp_lemmas.
Context (iter : gmap flow TcpEntry -> list (flow * TcpEntry)).
Context (iter_perm : forall m, iter m ≡ₚ map_to_list m).

Lemma accept_syn_inv cap env key seq w :
  tcp_inv cap w -> 1 <= cap -> flows w !! tcp_fresh env = None -> tcp_entries w !! key = None ->
  tcp_inv cap (accept_syn iter env key seq w).1 /\ (accept_syn iter env key seq w).2 = Ok tt.
Proof.
  intros I Hc Hfr Hk. unfold accept_syn. destruct key as [c r].
  unfold mbind, stE_bind, st_modify, st_get, st_fail. cbn [fst snd].
  unfold tcp_evict_idle, tcp_evict_oldest.
  set (m1 := retain_recent te_last_seen (tcp_now_evict env) (tcp_idle_timeout w) (tcp_entries w)).
  set (w1 := set_tcp_entries m1 w).
  assert (I1 : tcp_inv cap w1) by (apply set_tcp_entries_inv; [done | apply map_filter_subseteq]).
  rewrite (tinv_cap _ _ I1). change (tcp_entries w1) with m1.
  set (w2 := if tcp_len w1 >=? cap then set_tcp_entries (remove_oldest te_last_seen iter m1) w1 else w1).
  assert (I2 : tcp_inv cap w2).
  { unfold w2. destruct (_ >=? _); [| done]. apply set_tcp_entries_inv; [done |].
    unfold remove_oldest. destruct (min_by_seen _ _) as [[]|]; [apply delete_subseteq | done]. }
  assert (Hm : tcp_entries w2 = make_room te_last_seen iter (tcp_now_evict env)
                                  (tcp_idle_timeout w) cap (tcp_entries w)).
  { unfold make_room, w2. change (Z.of_nat (size (retain_recent _ _ _ _))) with (tcp_len w1).
    by destruct (_ >=? _). }
  assert (Hl : tcp_len w2 < cap).
  { unfold tcp_len. rewrite Hm. apply make_room_size; [done | done |]. apply (tinv_size _ _ I). }
  assert (Hk2 : tcp_entries w2 !! (c, r) = None).
  { rewrite Hm. eapply lookup_weaken_None; [exact Hk | apply make_room_subseteq]. }
  assert (Hf2 : flows w2 !! tcp_fresh env = None).
  { pose proof (cancel_entries_lookup (tcp_entries w ∖ m1) (flows w) (tcp_fresh env)) as H1.
    rewrite Hfr in H1. unfold w2. destruct (_ >=? _); [| exact H1]. cbn.
    pose proof (cancel_entries_lookup (m1 ∖ remove_oldest te_last_seen iter m1) (flows w1) (tcp_fresh env)) as H2.
    unfold w1 in H2 at 1. cbn in H2. rewrite H1 in H2. exact H2. }
  rewrite (tinv_cap _ _ I2). replace (tcp_len w2 >=? cap) with false by lia. cbn [fst snd].
  split; [| done]. apply send_tcp_inv. clearbody w2. clear - I2 Hl Hk2 Hf2. split; cbn.
  - apply (tinv_cap _ _ I2).
  - unfold tcp_len in *. cbn. rewrite map_size_insert, Hk2. cbn. lia.
  - intros k e [[<- <-] | [_ He]]%lookup_insert_Some; [eexists; by rewrite lookup_insert_eq |].
    destruct (tinv_entry _ _ I2 k e He) as (f & Hf & Hkey). exists f.
    rewrite lookup_insert_ne by congruence. done.
  - intros id f [[<- <-] | [_ Hf]]%lookup_insert_Some Hc0; [eexists; by rewrite lookup_insert_eq |].
    destruct (tinv_live _ _ I2 id f Hf Hc0) as (e & He & Hid). exists e.
    rewrite lookup_insert_ne by congruence. done.
Qed.

Lemma tcp_forward_eq env packet raw w :
  tcp_forward iter env packet raw w =
  if bool_decide (protocol packet <> Tcp) then (w, Ok tt)
  else
    match tcp_header packet with
    | None => (w, Err MissingMetadata)
    | Some (seq, flags) =>
        if negb (Z.land flags TCP_RST =? 0) then (tcp_remove (flow_of packet) w, Ok tt)
        else
          match tcp_entries w !! flow_of packet with
          | None => if negb (Z.land flags TCP_SYN =? 0) then accept_syn iter env (flow_of packet) seq w
                    else (w, Ok tt)
          | Some entry => known_packet env packet raw (flow_of packet) seq flags entry w
          end
    end.
Proof.
  unfold tcp_forward. case_bool_decide; [done |]. destruct (tcp_header packet) as [[seq flags] |]; [| done].
  unfold mbind at 1, stE_bind at 1, st_get at 1. destruct (negb _); [done |].
  destruct (_ !! _); [done |]. by destruct (negb _).
Qed.

Lemma known_packet_ok env packet raw key seq flags e w :
  (known_packet env packet raw key seq flags e w).2 = Ok tt.
Proof.
  unfold known_packet. destruct key. unfold mbind, stE_bind, st_modify. cbn [fst snd].
  destruct (negb _); [done |]. destruct (payload packet raw); [| done]. by destruct (_ =? 0).
Qed.

Lemma tcp_forward_inv cap env packet raw w :
  tcp_inv cap w -> 1 <= cap -> flows w !! tcp_fresh env = None ->
  tcp_inv cap (tcp_forward iter env packet raw w).1
  /\ (tcp_forward iter env packet raw w).2 =
       if bool_decide (protocol packet = Tcp /\ tcp_header packet = None)
       then Err MissingMetadata else Ok tt.
Proof.
  intros I Hc Hfr. rewrite tcp_forward_eq. case_bool_decide as Hp.
  { rewrite bool_decide_eq_false_2 by naive_solver. done. }
  destruct (tcp_header packet) as [[seq flags] |] eqn:Hh.
  2: { rewrite bool_decide_eq_true_2; [done |]. split; [| done]. by destruct (decide (protocol packet = Tcp)). }
  rewrite bool_decide_eq_false_2 by naive_solver.
  destruct (negb _); [split; [by apply tcp_remove_inv | done] |].
  destruct (tcp_entries w !! flow_of packet) as [e |] eqn:He.
  - split; [by apply known_packet_inv | apply known_packet_ok].
  - destruct (negb _); [| done]. by apply accept_syn_inv.
Qed.

Lemma flow_turn_frame f ev f' segs :
  flow_turn f ev = Some (f', segs) -> key_of f' = key_of f /\ fl_cancelled f' = fl_cancelled f.
Proof.
  unfold flow_turn. cbv zeta. intros H.
  destruct (fl_phase f), ev as [reply | | | | [| b d] | |]; try done; try (simplify_eq; done).
  - destruct (connect_local_socks _ _) as [? []]; simplify_eq; done.
  - destruct (fl_queue f); simplify_eq; done.
  - destruct (fl_queue f); simplify_eq; done.
  - destruct (fl_cancelled f) eqn:E; simplify_eq; done.
Qed.

Lemma flow_task_turn_inv cap id ev w : tcp_inv cap w -> tcp_inv cap (flow_task_turn id ev w).
Proof.
  intros I. unfold flow_task_turn. destruct (flows w !! id) as [f |] eqn:Hf; [| done].
  destruct (flow_turn f ev) as [[f' segs] |] eqn:Ht; [| done].
  apply flow_turn_frame in Ht as [Hk Hc].
  assert (I' : tcp_inv cap (with_flows w (<[id := f']> (flows w)))) by (by eapply put_flow_inv).
  revert I'. generalize (with_flows w (<[id := f']> (flows w))). unfold send_segments.
  induction segs as [| [[[seq ack] flags] pl] segs IH]; intros w' I'; [done |].
  cbn [fold_left]. by apply IH, send_tcp_inv.
Qed.

Inductive tcp_step : TcpWorld -> TcpWorld -> Prop :=
| tcp_step_forward env packet raw w :
    flows w !! tcp_fresh env = None -> tcp_step w (tcp_forward iter env packet raw w).1
| tcp_step_evict now w : tcp_step w (tcp_evict_idle now w)
| tcp_step_flow id ev w : tcp_step w (flow_task_turn id ev w).

Inductive tcp_reachable (w0 : TcpWorld) : TcpWorld -> Prop :=
| tcp_reach_init : tcp_reachable w0 w0
| tcp_reach_step w w' : tcp_reachable w0 w -> tcp_step w w' -> tcp_reachable w0 w'.

Lemma tcp_reachable_inv port timeout cap w :
  tcp_reachable (tcp_new port timeout cap) w -> tcp_inv (Z.max cap 1) w.
Proof.
  induction 1 as [| w w' _ I Hs].
  { split; cbn; try done. unfold tcp_len. cbn. rewrite map_size_empty. lia. }
  destruct Hs as [env packet raw w Hfr | now w | id ev w].
  - apply tcp_forward_inv; [done | lia | done].
  - apply set_tcp_entries_inv; [done | apply map_filter_subseteq].
  - by apply flow_task_turn_inv.
Qed.

End tcp_lemmas.

(** * Theorems *)

(** In every state the TCP bridge can reach, it holds at most its capacity of flows,
    every entry has a task for its own endpoints, and every task that was not told to stop
    belongs to an entry: no task outlives its flow unnoticed.  A forwarded packet is refused
    only for lack of TCP metadata, never because the table is full. *)
Theorem tcp_bridge_invariant (iter : gmap flow TcpEntry -> list (flow * TcpEntry))
    (port timeout cap : Z) (w : TcpWorld) (env : TcpEnv) (packet : IpPacket) (raw : bytes) :
  (forall m, iter m ≡ₚ map_to_list m) ->
  tcp_reachable iter (tcp_new port timeout cap) w ->
  tcp_len w <= Z.max cap 1
  /\ (forall k e, tcp_entries w !! k = Some e ->
        exists f, flows w !! te_flow e = Some f /\ key_of f = k)
  /\ (forall id f, flows w !! id = Some f -> fl_cancelled f = false ->
        exists e, tcp_entries w !! key_of f = Some e /\ te_flow e = id)
  /\ (flows w !! tcp_fresh env = None ->
        (tcp_forward iter env packet raw w).2 =
          if bool_decide (protocol packet = Tcp /\ tcp_header packet = None)
          then Err MissingMetadata else Ok tt).
Proof.
  intros Hi Hr. pose proof (tcp_reachable_inv iter Hi _ _ _ _ Hr) as I.
  split_and!; try apply I. intros Hf. apply (tcp_forward_inv iter Hi (Z.max cap 1)); [done | lia | done].
Qed.

Definition example_syn : IpPacket :=
  mkIpPacket (V4 [10; 0; 0; 2]) (V4 [8; 8; 8; 8]) 40000 443 Tcp 20 40 20 0 (Some 7) (Some 0) (Some TCP_SYN).

Definition example_tcp_world1 : TcpWorld :=
  (tcp_forward map_to_list (mkTcpEnv 0 0 1) example_syn (example_segment 40000 7 TCP_SYN [])
     (tcp_new 1080 120 1)).1.

Lemma tcp_bridge_invariant_witness : tcp_len example_tcp_world1 <= 1 /\ tcp_len example_tcp_world1 = 1.
Proof.
  split; [| vm_compute; reflexivity].
  apply (tcp_bridge_invariant map_to_list 1080 120 1 example_tcp_world1 (mkTcpEnv 0 0 2) example_syn []).
  - reflexivity.
  - eapply tcp_reach_step; [apply tcp_reach_init |]. apply tcp_step_forward. reflexivity.
Defined.

(** C5. From the proxy to the client: whatever the turns of a flow task, the packets it
    hands to the TUN device are segments of its own flow, and a TCP receiver that takes them
    in order finds each one where it expects it and gets exactly the bytes the task has read
    from upstream.  What the task writes upstream is a prefix of what was queued for it. *)
Theorem tcp_bridge_downstream (id : Z) (evs : list FlowEvent) (w : TcpWorld) (f : Flow)
    (ev : FlowEvent) :
  flows w !! id = Some f -> wf_endpoints f -> Forall event_ok evs ->
  (exists pkts, tun_tx (flow_run id evs w) = tun_tx w ++ pkts
     /\ receive (fl_client f, fl_remote f) (fl_server_seq f) pkts = Some (read_bytes f evs))
  /\ (forall f' segs, flow_turn f ev = Some (f', segs) -> fl_phase f = Running ->
        fl_upstream f' `prefix_of` fl_upstream f ++ concat (fl_queue f)).
Proof.
  intros Hf Hw Hev. split; [by apply flow_run_received |].
  intros f' segs Ht Hp. destruct (flow_turn_upstream _ _ _ _ Ht Hp) as [[_ <-] | [_ ->]];
    by apply prefix_app_r.
Qed.

Definition example_flow_state : Flow :=
  mkFlow (example_client 40000) example_remote 4294967295 8 [lit "GET"] [] Running false.

Definition example_tcp_world (f : Flow) : TcpWorld :=
  mkTcpWorld {[(example_client 40000, example_remote) := mkTcpEntry 1 0 8]} 1080 120 4096 {[1 := f]} [].

Definition example_events : list FlowEvent :=
  [UpstreamRead (lit "ab"); PayloadReady; UpstreamRead (lit "cde"); UpstreamRead []].

Lemma tcp_bridge_downstream_witness :
  exists pkts, tun_tx (flow_run 1 example_events (example_tcp_world example_flow_state)) = [] ++ pkts
    /\ receive (example_client 40000, example_remote) 4294967295 pkts = Some (lit "abcde").
Proof.
  apply (tcp_bridge_downstream 1 example_events (example_tcp_world example_flow_state)
           example_flow_state PayloadReady).
  - reflexivity.
  - split_and!; (apply (bool_decide_unpack _); vm_compute; exact I) || vm_compute; done.
  - repeat constructor; vm_compute; congruence.
Defined.

(** From the client to the proxy: data segments of an open flow are all queued for its
    task in the order of their arrival; when the client sends its stream in sequence, the
    queue receives exactly the stream and the last acknowledgement is the end of it. *)
Theorem tcp_bridge_upstream (iter : gmap flow TcpEntry -> list (flow * TcpEntry)) (key : flow)
    (l : list (TcpEnv * IpPacket * bytes)) (segs : list (Z * bytes)) (w : TcpWorld)
    (e : TcpEntry) (f : Flow) :
  flow_alive key w e f -> is_u 32 (te_client_next_seq e) ->
  Forall2 (fun '(env, packet, raw) '(seq, pl) => data_segment key packet raw seq pl) l segs ->
  tiles (te_client_next_seq e) segs ->
  exists e' f', flow_alive key (tcp_run iter l w) e' f'
    /\ concat (fl_queue f') = concat (fl_queue f) ++ concat (segs.*2)
    /\ te_client_next_seq e' = wrap 32 (te_client_next_seq e + zlen (concat (segs.*2))).
Proof.
  intros Ha Hu Hl Ht. destruct (tcp_run_data iter key l segs w e f Ha Hl) as (e' & f' & Ha' & _ & Hq & _ & Hn).
  exists e', f'. split_and!; [done | | by apply Hn]. by rewrite Hq, concat_app.
Qed.

Definition example_data (seq : Z) (pl : bytes) : TcpEnv * IpPacket * bytes :=
  let raw := example_segment 40000 seq (Z.lor TCP_PSH TCP_ACK) pl in
  (mkTcpEnv 1 1 2, match parse_ip_packet raw with Ok p => p | _ => example_udp_packet end, raw).

Lemma tcp_bridge_upstream_witness :
  exists e' f', flow_alive (example_client 40000, example_remote)
      (tcp_run map_to_list [example_data 8 (lit "hel"); example_data 11 (lit "lo")]
         (example_tcp_world example_flow_state)) e' f'
    /\ concat (fl_queue f') = lit "GEThello" /\ te_client_next_seq e' = 13.
Proof.
  edestruct (tcp_bridge_upstream map_to_list (example_client 40000, example_remote)
            [example_data 8 (lit "hel"); example_data 11 (lit "lo")]
            [(8, lit "hel"); (11, lit "lo")] (example_tcp_world example_flow_state)
            (mkTcpEntry 1 0 8) example_flow_state) as (e' & f' & Ha & Hq & Hn).
  - split_and!; [reflexivity | reflexivity | discriminate].
  - apply (bool_decide_unpack _). vm_compute. exact I.
  - constructor; [| constructor; [| constructor]]; (split_and!; [| | | eexists | |]);
      vm_compute; (reflexivity || discriminate || (repeat split; reflexivity)).
  - vm_compute. done.
  - exists e', f'. split; [exact Ha |]. split; [exact Hq | exact Hn].
Defined.

(** The bridge does not look at the sequence number of a data segment: a segment that
    arrives twice, as after a retransmission, is handed to the proxy twice. *)
Theorem tcp_bridge_duplicates (iter : gmap flow TcpEntry -> list (flow * TcpEntry)) (key : flow)
    (env : TcpEnv) (packet : IpPacket) (raw : bytes) (seq : Z) (pl : bytes) (w : TcpWorld)
    (e : TcpEntry) (f : Flow) :
  flow_alive key w e f -> data_segment key packet raw seq pl ->
  exists e' f', flow_alive key (tcp_run iter [(env, packet, raw); (env, packet, raw)] w) e' f'
    /\ fl_queue f' = fl_queue f ++ [pl; pl].
Proof.
  intros Ha Hd.
  destruct (tcp_run_data iter key [(env, packet, raw); (env, packet, raw)] [(seq, pl); (seq, pl)] w e f Ha)
    as (e' & f' & Ha' & _ & Hq & _); [do 2 (apply Forall2_cons; [exact Hd |]); constructor | eauto].
Qed.

Lemma tcp_bridge_duplicates_witness :
  exists e' f', flow_alive (example_client 40000, example_remote)
      (tcp_run map_to_list [example_data 8 (lit "hel"); example_data 8 (lit "hel")]
         (example_tcp_world example_flow_state)) e' f'
    /\ fl_queue f' = [lit "GET"; lit "hel"; lit "hel"].
Proof.
  apply (tcp_bridge_duplicates map_to_list (example_client 40000, example_remote)
           (example_data 8 (lit "hel")).1.1 (example_data 8 (lit "hel")).1.2 (example_data 8 (lit "hel")).2
           8 (lit "hel") (example_tcp_world example_flow_state) (mkTcpEntry 1 0 8) example_flow_state).
  - split_and!; [reflexivity | reflexivity | discriminate].
  - split_and!; [| | | eexists | |];
      vm_compute; (reflexivity || discriminate || (repeat split; reflexivity)).
Defined.

(** ** The SOCKS5 connection to the local proxy *)

Definition addr_of (sa : SocketAddr) : Address :=
  match sa_ip sa with V4 o => Ipv4 o (sa_port sa) | V6 o => Ipv6 o (sa_port sa) end.

Lemma socks_connect_request_server sa addr :
  write_socks5_address (addr_of sa) = Ok addr -> socks_connect_request sa = request CMD_CONNECT addr.
Proof.
  unfold socks_connect_request, addr_of. destruct (sa_ip sa); cbn; intros [= <-]; done.
Qed.

(** The flow task and the SOCKS5 server of the same program understand each other: from
    the bytes the client writes the server reads a CONNECT request for exactly the remote
    address of the flow, and what the server writes makes the client succeed, with nothing
    left over on either side. *)
Theorem tun_socks_composition (remote : SocketAddr) (rest : bytes) :
  wf_ip (sa_ip remote) -> is_u 16 (sa_port remote) ->
  let client := socks_greeting ++ socks_connect_request remote in
  exists server,
    socks5_handshake (mkDuplex (client ++ rest) []) = (mkDuplex rest server, Ok (Connect (addr_of remote)))
    /\ connect_local_socks remote (mkDuplex server []) = (mkDuplex [] client, Ok tt).
Proof.
  intros Hw Hp client.
  assert (Hwf : wf_address (addr_of remote) /\ wire_encodable (addr_of remote)).
  { unfold addr_of. destruct (sa_ip remote); cbn in *; intuition. }
  destruct (write_socks5_shape _ (proj1 Hwf) (proj2 Hwf)) as (body & Henc & _).
  pose proof (socks_connect_request_server _ _ Henc) as Hreq.
  eexists. split.
  - unfold client. rewrite Hreq, <- app_assoc.
    change socks_greeting with (greeting [METHOD_NO_AUTH]).
    rewrite handshake_prefix with (d := addr_of remote); [reflexivity | done | | apply Hwf | exact Henc].
    apply list_elem_of_here.
  - reflexivity.
Qed.

Lemma tun_socks_composition_witness :
  connect_local_socks example_remote (mkDuplex ([5; 0] ++ [5; 0; 0; 1; 0; 0; 0; 0; 0; 0]) [])
  = (mkDuplex [] (socks_greeting ++ socks_connect_request example_remote), Ok tt).
Proof.
  destruct (tun_socks_composition example_remote []) as (server & Hs & Hc);
    [apply (bool_decide_unpack _); vm_compute; exact I ..|].
  vm_compute in Hs. injection Hs as <-. exact Hc.
Defined.

(** ** The packet loop *)

(** A loop that is inside [dispatch] while the channel is full. *)
Definition blocked (rt : Runtime) : Prop :=
  rt_pending rt <> [] /\ zlen (rt_chan rt) = WRITE_CHAN_CAP.

Lemma blocked_step ni ti win act rt rt' :
  blocked rt -> loop_do ni ti win act rt = Some rt' ->
  rt_pending rt' = rt_pending rt /\ rt_chan rt' = rt_chan rt /\ rt_written rt' = rt_written rt.
Proof.
  intros [Hp Hc] H. destruct (rt_pending rt) as [| p ps] eqn:Ep; [done |].
  assert (Hz : (zlen (p :: ps) =? 0) = false) by (apply Z.eqb_neq; len_solve).
  assert (Hsend : forall n t out, chan_send rt n t out = Some rt' ->
     rt_pending rt' = p :: ps /\ rt_chan rt' = rt_chan rt /\ rt_written rt' = rt_written rt).
  { intros n t out. unfold chan_send. zcase; [| done]. intros [= <-]. cbn.
    destruct out; [| exfalso; len_solve]. by rewrite app_nil_r. }
  destruct act; cbn [loop_do] in H; rewrite ?Ep, ?Hz in H; try done.
  - rewrite Hc in H. done.
  - by eapply Hsend.
  - by eapply Hsend.
Qed.

Lemma linux_step ni ti act rt rt' :
  rt_pending rt = [] -> loop_do ni ti false act rt = Some rt' -> rt_pending rt' = [].
Proof.
  intros Hp H. destruct act; cbn [loop_do] in H; rewrite ?Hp in H; cbn [zlen] in H.
  - change (zlen (A:=bytes) [] =? 0) with true in H. cbn iota in H.
    destruct (dispatch _ _ _ _ _ _ _ _) as [nat tcp] eqn:E. injection H as <-. cbn.
    assert (to_tun nat = to_tun (rt_nat rt) /\ tcp = rt_tcp rt) as [-> ->].
    { unfold dispatch in E. destruct (parse_ip_packet raw) as [p | | |]; try (by simplify_eq).
      destruct (protocol p); try (by simplify_eq).
      destruct (_ =? 53); simplify_eq; [done |]. by rewrite forward_to_tun. }
    unfold sent_between. by rewrite !drop_all.
  - done.
  - destruct (rt_chan rt); [done |]. by injection H as <-.
  - change (zlen (A:=bytes) [] =? 0) with true in H. by injection H as <-.
  - unfold chan_send in H. destruct (_ <=? _); [| done]. injection H as <-. done.
  - unfold chan_send in H. destruct (_ <=? _); [| done]. injection H as <-. done.
Qed.

Lemma deadlock_state_reachable rt :
  deadlock_state = Some rt -> loop_reachable map_to_list map_to_list true (runtime_start 0 1080) rt.
Proof.
  unfold deadlock_state. intros E. eapply loop_run_reachable; [apply loop_start | eassumption].
Qed.

Lemma deadlock_state_blocked :
  match deadlock_state with
  | Some rt => negb (zlen (rt_pending rt) =? 0) && (zlen (rt_chan rt) =? WRITE_CHAN_CAP)
  | None => false
  end = true.
Proof. vm_compute. reflexivity. Qed.

(** On Windows the packet loop can stop for good: it sends the control packets of the
    TCP bridge into the channel that only the loop itself empties.  A state in which the
    channel is full and a SYN is being answered is reachable, and from any such state
    nothing is ever read from, sent to or written to the device again, whatever the tasks
    do.  Without the bridge the loop is never inside such a send. *)
Theorem tun_loop_deadlock :
  (exists rt, loop_reachable map_to_list map_to_list true (runtime_start 0 1080) rt /\ blocked rt)
  /\ (forall ni ti win rt rt', blocked rt -> loop_reachable ni ti win rt rt' ->
        blocked rt' /\ rt_pending rt' = rt_pending rt /\ rt_chan rt' = rt_chan rt
        /\ rt_written rt' = rt_written rt)
  /\ (forall ni ti mark port rt,
        loop_reachable ni ti false (runtime_start mark port) rt -> rt_pending rt = []).
Proof.
  split_and!.
  - pose proof deadlock_state_blocked as H. pose proof deadlock_state_reachable as Hr. revert H Hr.
    generalize deadlock_state. intros [rt |] H Hr; [| done]. exists rt.
    apply andb_prop in H as [H1%negb_true_iff%Z.eqb_neq H2%Z.eqb_eq].
    split; [by apply Hr |]. split; [| exact H2]. intros Hn. by rewrite Hn in H1.
  - intros ni ti win rt rt' Hb Hr. induction Hr as [| rt1 act rt2 _ IH Hd]; [done |].
    destruct IH as (Hb1 & E1 & E2 & E3). destruct (blocked_step _ _ _ _ _ _ Hb1 Hd) as (F1 & F2 & F3).
    split; [| split_and!; congruence]. unfold blocked in *. by rewrite F1, F2.
  - intros ni ti mark port rt Hr. induction Hr as [| rt1 act rt2 _ IH Hd]; [done |].
    by eapply linux_step.
Qed.
