(* ===== verification/TunRoute.v ===== *)
(** * Routes and redirection rules of the TUN runtime

    [tun/route.rs]: the commands that route traffic into the TUN device and redirect TCP and
    DNS to the proxy, on Linux (policy routing and iptables), Windows (split default routes)
    and macOS (split default routes and a PF anchor), with the rollback of a failed set-up
    and the clean-up at the end.

    The commands are run by the operating system, an interface: [RouteOs] runs a command on
    the state of the system, [RouteOsLaws] states what the manuals of the commands say, in
    terms of the multiset of installed rules, a rule being named by the command that deletes
    it. *)

From stdpp Require Import base list gmap gmultiset strings numbers.
From S2P Require Import Prelude Text.

Abbreviation cmd := (list bytes).

(** * The operating system *)

Class RouteOs (S : Type) := {
  os_run : cmd -> S -> S * bool;
  os_output : cmd -> S -> S * option bytes;
}.


(** * Commands *)






Section route.
Context {S : Type} `{RouteOs S}.

(** The system and the undo commands collected so far. *)
Abbreviation routeM := (stE (S * list cmd) unit).

(** [run]: an error when the command cannot be started or fails. *)
Definition run (c : cmd) (s : S) : S * res unit unit :=
  match c with
  | [] => (s, Panic)
  | _ => let '(s', ok) := os_run c s in (s', if ok then Ok tt else Err tt)
  end.

(** The undo commands in reverse order; their errors are ignored. *)
Definition rollback (undos : list cmd) (s : S) : S :=
  fold_left (fun s undo => (run undo s).1) (reverse undos) s.

Definition must (setup undo : cmd) : routeM unit := fun st =>
  let '(s, undos) := st in
  match run setup s with
  | (s', Ok _) => ((s', undos ++ [undo]), Ok tt)
  | (s', Err e) => ((rollback undos s', []), Err e)
  | (s', Panic) => ((s', undos), Panic)
  | (s', NoFuel) => ((s', undos), NoFuel)
  end.


(** ** Linux *)



(** Every command is tried, whatever the others do. *)
Definition run_all (cmds : list cmd) (s : S) : S := fold_left (fun s c => (run c s).1) cmds s.


(** ** Windows *)







Record TunConfig := mkTunConfig {
  tc_name : bytes;
  tc_bypass_mark : Z;
  tc_outbound_interface : option bytes;
  tc_redirect_port : Z;
  tc_dns_port : Z;
}.


(** The loop of [must] over the pairs. *)
Fixpoint must_all (pairs : list (cmd * cmd)) : routeM unit :=
  match pairs with
  | [] => st_modify id
  | (setup, undo) :: pairs => _ ← must setup undo; must_all pairs
  end.



(** ** macOS *)

(** The system and the files in the directory for temporary files, by name. *)
Record MacWorld := mkMacWorld { mw_os : S; mw_files : gmap bytes bytes }.

Definition MACOS_PF_ANCHOR : bytes := lit "blackwire".

Definition is_safe_interface_name (name : bytes) : bool :=
  negb (zlen name =? 0)
  && forallb (fun b => is_ascii_alphanumeric b || (b =? 46) || (b =? 45) || (b =? 95)) name.

Definition validate_macos_runtime_config (config : TunConfig) : res unit unit :=
  if negb (is_safe_interface_name (tc_name config)) then Err tt
  else if negb (is_prefix (lit "utun") (tc_name config)) then Err tt
  else
    match tc_outbound_interface config with
    | None => Err tt
    | Some outbound => if negb (is_safe_interface_name outbound) then Err tt else Ok tt
    end.

Definition build_macos_pf_rules (tun_name : bytes) (dns_port redirect_port : Z) : res unit bytes :=
  if negb (is_safe_interface_name tun_name) then Err tt
  else
    Ok (lit "set skip on lo0" ++ [10]
        ++ lit "rdr pass on " ++ tun_name ++ lit " inet proto tcp from any to any -> 127.0.0.1 port "
        ++ u64_to_string redirect_port ++ [10]
        ++ lit "rdr pass on " ++ tun_name
        ++ lit " inet proto udp from any to any port 53 -> 127.0.0.1 port "
        ++ u64_to_string dns_port ++ [10]).

Definition macos_pf_rules (config : TunConfig) : res unit bytes :=
  build_macos_pf_rules (tc_name config) (tc_dns_port config) (tc_redirect_port config).

Definition macos_pf_rules_path (tun_name : bytes) : bytes := lit "blackwire-pf-" ++ tun_name ++ lit ".conf".
Definition macos_pf_token_path (tun_name : bytes) : bytes := lit "blackwire-pf-" ++ tun_name ++ lit ".token".

Definition parse_macos_pf_token (output : bytes) : option bytes :=
  List.find (fun part => forallb is_ascii_digit part) (split_whitespace output).

(** [fs::write] and [fs::remove_file]; [ok] says whether the write succeeds. *)
Definition fs_write (ok : bool) (path data : bytes) (w : MacWorld) : MacWorld * res unit unit :=
  if ok then (mkMacWorld (mw_os w) (<[path := data]> (mw_files w)), Ok tt) else (w, Err tt).

Definition remove_file (path : bytes) (w : MacWorld) : MacWorld :=
  mkMacWorld (mw_os w) (delete path (mw_files w)).

Definition enable_macos_pf (write_ok : bool) (tun_name : bytes) : stE MacWorld unit unit := fun w =>
  match os_output [lit "pfctl"; lit "-E"] (mw_os w) with
  | (s', None) => (mkMacWorld s' (mw_files w), Err tt)
  | (s', Some output) =>
      let w := mkMacWorld s' (mw_files w) in
      match parse_macos_pf_token output with
      | Some token => fs_write write_ok (macos_pf_token_path tun_name) token w
      | None => (w, Ok tt)
      end
  end.

Definition disable_macos_pf (tun_name : bytes) (w : MacWorld) : MacWorld :=
  match mw_files w !! macos_pf_token_path tun_name with
  | None => w
  | Some text =>
      let token := trim text in
      if zlen token =? 0 then w
      else
        remove_file (macos_pf_token_path tun_name)
          (mkMacWorld (run [lit "pfctl"; lit "-X"; token] (mw_os w)).1 (mw_files w))
  end.

Definition macos_route (verb prefix tun_name : bytes) : cmd :=
  [lit "route"; lit "-n"; verb; lit "-net"; prefix; lit "-interface"; tun_name].

Definition pf_load (path : bytes) : cmd := [lit "pfctl"; lit "-a"; MACOS_PF_ANCHOR; lit "-f"; path].
Definition pf_flush : cmd := [lit "pfctl"; lit "-a"; MACOS_PF_ANCHOR; lit "-F"; lit "all"].

(** The three mandatory steps. *)
Definition macos_pairs (tun_name : bytes) : list (cmd * cmd) :=
  [(macos_route (lit "add") (lit "0.0.0.0/1") tun_name, macos_route (lit "delete") (lit "0.0.0.0/1") tun_name);
   (macos_route (lit "add") (lit "128.0.0.0/1") tun_name, macos_route (lit "delete") (lit "128.0.0.0/1") tun_name);
   (pf_load (macos_pf_rules_path tun_name), pf_flush)].

Definition setup_macos_routes (rules_ok token_ok : bool) (config : TunConfig) : stE MacWorld unit unit :=
  _ ← st_lift (validate_macos_runtime_config config);
  pf_rules ← st_lift (macos_pf_rules config);
  let path := macos_pf_rules_path (tc_name config) in
  _ ← fs_write rules_ok path pf_rules;
  _ ← enable_macos_pf token_ok (tc_name config);
  _ ← (fun w => match must_all (macos_pairs (tc_name config)) (mw_os w, []) with
                | ((s', _), r) => (mkMacWorld s' (mw_files w), r)
                end);
  st_modify (remove_file path).

Definition cleanup_macos_routes (config : TunConfig) (w : MacWorld) : MacWorld :=
  let s := run_all [pf_flush; macos_route (lit "delete") (lit "0.0.0.0/1") (tc_name config);
                    macos_route (lit "delete") (lit "128.0.0.0/1") (tc_name config)] (mw_os w) in
  let w := disable_macos_pf (tc_name config) (mkMacWorld s (mw_files w)) in
  remove_file (macos_pf_rules_path (tc_name config)) w.

End route.

(** * Lemmas *)

Section laws.
Context {S : Type} `{RouteOs S} (rules : S -> gmultiset cmd) (pairs : list (cmd * cmd)).
Context `{!RouteOsLaws S rules pairs}.

(** Commands are never empty, so [run] never panics. *)
Definition non_empty (c : cmd) : Prop := c <> [].

Lemma run_eq c s : c <> [] -> run c s = ((os_run c s).1, if (os_run c s).2 then Ok tt else Err tt).
Proof. intros Hc. destruct c; [done |]. unfold run. by destruct (os_run _ s). Qed.








End laws.

(** * Linux *)











Section transactions.
Context {S : Type} `{RouteOs S} (rules : S -> gmultiset cmd) (pairs : list (cmd * cmd)).
Context `{!RouteOsLaws S rules pairs}.




End transactions.

(** * Theorems *)







(** ** macOS *)

(** References that keep PF enabled, each released by its token. *)
Class PfLaws (S : Type) `{RouteOs S} (tokens : S -> gset bytes) (pairs : list (cmd * cmd)) := {
  pf_enable : forall s s' out t,
    os_output [lit "pfctl"; lit "-E"] s = (s', Some out) -> parse_macos_pf_token out = Some t ->
    tokens s' = {[t]} ∪ tokens s;
  pf_release : forall s t, tokens (os_run [lit "pfctl"; lit "-X"; t] s).1 = tokens s ∖ {[t]};
  pf_frame : forall a d s, (a, d) ∈ pairs ->
    tokens (os_run a s).1 = tokens s /\ tokens (os_run d s).1 = tokens s;
}.

Section macos.
Context {S : Type} `{RouteOs S} (tokens : S -> gset bytes) (pairs : list (cmd * cmd)).
Context `{!PfLaws S tokens pairs}.

Lemma run_frame c s :
  (exists a d, (a, d) ∈ pairs /\ (c = a \/ c = d)) -> c <> [] -> tokens (run c s).1 = tokens s.
Proof.
  intros (a & d & Hp & Hc) Hne. rewrite run_eq by done. cbn.
  destruct (pf_frame a d s Hp) as [Ha Hd]. by destruct Hc as [-> | ->].
Qed.

Lemma run_all_frame ds : forall s,
  Forall (fun d => d <> [] /\ exists a, (a, d) ∈ pairs) ds -> tokens (run_all ds s) = tokens s.
Proof.
  induction ds as [| d ds IH]; intros s Hds; cbn [run_all fold_left]; [done |].
  apply Forall_cons_1 in Hds as [[Hd [a Ha]] Hds]. fold (run_all ds (run d s).1).
  rewrite IH by done. apply run_frame; [| done]. exists a, d. auto.
Qed.

Lemma must_all_frame ps : forall st,
  ps ⊆ pairs -> Forall (fun p => p.1 <> [] /\ p.2 <> []) ps ->
  Forall (fun d => d <> [] /\ exists a, (a, d) ∈ pairs) st.2 ->
  tokens (must_all ps st).1.1 = tokens st.1
  /\ ((must_all ps st).2 = Ok tt \/ (must_all ps st).2 = Err tt).
Proof.
  induction ps as [| [a d] ps IH]; intros [s undos] Hsub Hne Hu; cbn [must_all fst snd] in *; [auto |].
  apply Forall_cons_1 in Hne as [[Ha Hd] Hne]. cbn [fst snd] in *.
  unfold mbind, stE_bind, must. rewrite run_eq by done.
  assert (Hp : (a, d) ∈ pairs) by set_solver.
  destruct (pf_frame a d s Hp) as [Hfa _]. destruct (os_run a s) as [s1 ok]. cbn [fst snd] in *.
  destruct ok.
  - destruct (IH (s1, undos ++ [d])) as [IH1 IH2]; [set_solver | done | | cbn in IH1; split; [congruence | done]].
    apply Forall_app. split; [done |]. apply Forall_singleton. eauto.
  - cbn [fst snd]. split; [| auto]. rewrite <- Hfa.
    apply (run_all_frame (reverse undos)). by apply Forall_reverse.
Qed.

End macos.

(** Digits are not white space. *)
Lemma ws_len_digit (chars : list bytes) (b : Z) (s : bytes) :
  48 <= b <= 57 -> Forall (fun c => match c with x :: _ => x < 48 \/ 57 < x | [] => False end) chars ->
  ws_len chars (b :: s) = None.
Proof.
  intros Hb. unfold ws_len. induction 1 as [| c chars Hc _ IH]; [done |]. cbn [List.find].
  destruct c as [| x c]; [done |]. cbn [is_prefix]. destruct (Z.eqb_spec x b); [lia |]. exact IH.
Qed.

Lemma trim_digits (t : bytes) : Forall (fun b => 48 <= b <= 57) t -> trim t = t.
Proof.
  intros Ht.
  assert (Hw : forall chars n s,
    Forall (fun c => match c with x :: _ => x < 48 \/ 57 < x | [] => False end) chars ->
    Forall (fun b => 48 <= b <= 57) s -> trim_with chars n s = s).
  { intros chars n s Hc Hs. destruct n; [done |]. cbn [trim_with]. destruct s as [| b s].
    - replace (ws_len chars []) with (@None nat); [done |]. unfold ws_len.
      clear -Hc. induction Hc as [| c chars H _ IH]; [done |]. cbn [List.find]. by destruct c.
    - rewrite ws_len_digit; [done | | done]. by apply Forall_cons_1 in Hs as [? _]. }
  assert (Hc1 : Forall (fun c => match c with x :: _ => x < 48 \/ 57 < x | [] => False end) ws_chars).
  { unfold ws_chars. repeat (constructor; [lia |]). constructor. }
  assert (Hc2 : Forall (fun c => match c with x :: _ => x < 48 \/ 57 < x | [] => False end) (reverse <$> ws_chars)).
  { unfold ws_chars. cbn [fmap list_fmap reverse]. repeat (constructor; [cbn; lia |]). constructor. }
  unfold trim, trim_start, trim_end. rewrite (Hw ws_chars _ t Hc1 Ht).
  rewrite (Hw _ _ (reverse t) Hc2); [apply reverse_involutive | by apply Forall_reverse].
Qed.

Lemma split_ws_nonempty fuel : forall cur s, Forall (fun p => p <> []) (split_ws fuel cur s).
Proof.
  assert (Hf : forall cur rest, Forall (fun p : bytes => p <> []) rest ->
     Forall (fun p => p <> []) (match cur with [] => rest | _ => reverse cur :: rest end)).
  { intros [| b cur] rest Hr; [done |]. constructor; [| done]. rewrite reverse_cons. by destruct (reverse cur). }
  induction fuel as [| fuel IH]; intros cur s; cbn [split_ws]; [by apply Hf |].
  destruct s as [| b s]; [by apply Hf |]. destruct (ws_len ws_chars (b :: s)); [by apply Hf | done].
Qed.

Lemma parse_token_digits out t :
  parse_macos_pf_token out = Some t -> t <> [] /\ Forall (fun b => 48 <= b <= 57) t.
Proof.
  intros H. unfold parse_macos_pf_token in H. apply List.find_some in H as [Hin Hd]. split.
  - pose proof (split_ws_nonempty (S (length out)) [] out) as Hn. rewrite Forall_forall in Hn. by apply Hn.
  - apply Forall_forall. intros b Hb. rewrite forallb_forall in Hd. apply Hd in Hb.
    unfold is_ascii_digit in Hb. lia.
Qed.

(** On macOS the set-up enables PF before the steps that are rolled back.  When it
    succeeds, the clean-up releases the reference and removes both files.  When one of the
    steps fails, the reference stays: the set-up reports an error, the caller has no guard
    to clean up with, and PF remains enabled, with the rules and the token left in the
    directory for temporary files. *)
Theorem macos_setup_leaks_pf {S : Type} `{RouteOs S} (tokens : S -> gset bytes) (config : TunConfig)
    `{L : !PfLaws S tokens (macos_pairs (tc_name config))} (w : MacWorld (S := S)) (s1 : S) (out t : bytes) :
  validate_macos_runtime_config config = Ok tt ->
  os_output [lit "pfctl"; lit "-E"] (mw_os w) = (s1, Some out) ->
  parse_macos_pf_token out = Some t -> t ∉ tokens (mw_os w) ->
  let '(w', r) := setup_macos_routes true true config w in
  let rules_path := macos_pf_rules_path (tc_name config) in
  let token_path := macos_pf_token_path (tc_name config) in
  (r = Ok tt
     /\ tokens (mw_os (cleanup_macos_routes config w')) = tokens (mw_os w)
     /\ mw_files (cleanup_macos_routes config w') !! token_path = None
     /\ mw_files (cleanup_macos_routes config w') !! rules_path = None)
  \/ (r = Err tt /\ t ∈ tokens (mw_os w') /\ is_Some (mw_files w' !! rules_path)
      /\ mw_files w' !! token_path = Some t).
Proof.
  intros Hv Hout Ht Hnew.
  assert (Hpf : exists text, macos_pf_rules config = Ok text).
  { unfold macos_pf_rules, build_macos_pf_rules, validate_macos_runtime_config in *.
    destruct (negb (is_safe_interface_name (tc_name config))); [done | eauto]. }
  destruct Hpf as [text Hpf].
  set (rp := macos_pf_rules_path (tc_name config)). set (tp := macos_pf_token_path (tc_name config)).
  assert (Hne : rp <> tp).
  { unfold rp, tp, macos_pf_rules_path, macos_pf_token_path. intros E%app_inv_head%app_inv_head. done. }
  pose proof (pf_enable _ _ _ _ Hout Ht) as Htok.
  destruct (must_all_frame tokens _ (macos_pairs (tc_name config)) (s1, [])) as [Hfr Hres];
    [done | by repeat constructor | constructor |]. cbn [fst snd] in Hfr.
  unfold setup_macos_routes, mbind, stE_bind, st_lift, fs_write, st_modify, enable_macos_pf.
  rewrite Hv, Hpf. cbn [mw_os mw_files]. rewrite Hout, Ht. cbn [mw_os mw_files fs_write].
  destruct (must_all (macos_pairs (tc_name config)) (s1, [])) as [[s2 undos] r]. cbn [fst snd] in *.
  fold rp tp. destruct Hres as [-> | ->]; [left | right].
  - destruct (parse_token_digits _ _ Ht) as [Hnil Hdig].
    assert (Hdis : disable_macos_pf (tc_name config)
        (mkMacWorld (run_all [pf_flush; macos_route (lit "delete") (lit "0.0.0.0/1") (tc_name config);
                    macos_route (lit "delete") (lit "128.0.0.0/1") (tc_name config)] s2)
           (delete rp (<[tp := t]> (<[rp := text]> (mw_files w)))))
        = remove_file tp (mkMacWorld (os_run [lit "pfctl"; lit "-X"; t]
             (run_all [pf_flush; macos_route (lit "delete") (lit "0.0.0.0/1") (tc_name config);
                    macos_route (lit "delete") (lit "128.0.0.0/1") (tc_name config)] s2)).1
             (delete rp (<[tp := t]> (<[rp := text]> (mw_files w)))))).
    { unfold disable_macos_pf. cbn [mw_files mw_os]. fold tp.
      rewrite lookup_delete_ne, lookup_insert_eq, trim_digits by done.
      destruct (Z.eqb_spec (zlen t) 0) as [E |]; [destruct t; [done | len_solve] |].
      by rewrite run_eq. }
    split; [done |]. unfold cleanup_macos_routes, remove_file in *. cbn [mw_os mw_files].
    rewrite Hdis. cbn [mw_os mw_files]. fold rp.
    split_and!; [| by rewrite lookup_delete_ne, lookup_delete_eq | by rewrite lookup_delete_eq].
    rewrite pf_release, (run_all_frame tokens _), Hfr, Htok; [set_solver |].
    unfold macos_pairs.
    repeat (constructor; [split; [done |]; eexists;
      repeat first [apply list_elem_of_here | apply list_elem_of_further] |]). constructor.
  - cbn [mw_os mw_files]. split_and!; [done | rewrite Hfr, Htok; set_solver | |].
    + rewrite lookup_insert_ne, lookup_insert_eq by done. eauto.
    + by rewrite lookup_insert_eq.
Qed.

(** A system that refuses the second route. *)
Definition example_mac_os : RouteOs (gset bytes) := {|
  os_run c s :=
    match c with
    | [a; x; t] => if bytes_eqb x (lit "-X") then (s ∖ {[t]}, true) else (s, true)
    | _ => (s, negb (bool_decide (c = macos_route (lit "add") (lit "128.0.0.0/1") (lit "utun5"))))
    end;
  os_output c s := ({[lit "42"]} ∪ s, Some (lit "Token : 42"));
|}.

Definition example_mac_config : TunConfig :=
  mkTunConfig (lit "utun5") 0x1234 (Some (lit "en0")) 7890 5300.

Lemma example_mac_laws : @PfLaws _ example_mac_os id (macos_pairs (lit "utun5")).
Proof.
  split.
  - intros s s' out t E Ht. cbn [os_output example_mac_os] in E. injection E as <- <-.
    assert (Hp : parse_macos_pf_token (lit "Token : 42") = Some (lit "42")) by (vm_compute; reflexivity).
    rewrite Hp in Ht. by injection Ht as <-.
  - done.
  - intros a d s Hin. apply list_elem_of_In in Hin. destruct Hin as [E | [E | [E | []]]]; by injection E as <- <-.
Qed.

Lemma macos_setup_leaks_pf_witness :
  let '(w', r) := @setup_macos_routes _ example_mac_os true true example_mac_config (mkMacWorld ∅ ∅) in
  r = Err tt /\ lit "42" ∈ mw_os w'.
Proof.
  pose proof (@macos_setup_leaks_pf _ example_mac_os id example_mac_config example_mac_laws
                (mkMacWorld ∅ ∅) ({[lit "42"]} ∪ ∅) (lit "Token : 42") (lit "42")
                ltac:(vm_compute; reflexivity) eq_refl ltac:(vm_compute; reflexivity) ltac:(cbn; set_solver)) as H.
  assert (E : (@setup_macos_routes _ example_mac_os true true example_mac_config (mkMacWorld ∅ ∅)).2 = Err tt)
    by (vm_compute; reflexivity).
  destruct (setup_macos_routes _ _ _ _) as [w' r]. cbn in E. subst r.
  destruct H as [[H _] | (_ & H & _)]; [discriminate | split; [reflexivity | exact H]].
Defined.
