(* ===== verification/SplitHttp.v ===== *)
(** SplitHTTP ([splithttp.rs], [splithttp_packet_up.rs]): the chunked stream of the
    stream-one mode, the upload queue that reorders the requests of the packet-up mode, the
    text of its requests, the table of sessions and the accept functions for HTTP/1.1 and
    for a request of an HTTP/2 connection.

    A stream underneath is the list of what its polls give, until its end; the queue of a
    session is in a store, since the table, the requests and the reader share it. *)

From stdpp Require Import base list sets strings numbers gmap sorting.
From S2P Require Import Prelude Text Address Streams.

(** * The chunked stream *)

Record SplitHttpStream := mkStream {
  inner : list PollEvent;
  read_buf : bytes;
  chunk_remaining : Z;
  need_chunk_crlf : bool;
  eof : bool;
}.

Definition stream_new (inner : list PollEvent) : SplitHttpStream := mkStream inner [] 0 false false.

(** [windows(2).position(|w| w == b"\r\n")]. *)
Fixpoint crlf_position (s : bytes) : option Z :=
  match s with
  | a :: ((b :: _) as s') =>
      if (a =? CR) && (b =? LF) then Some 0
      else match crlf_position s' with Some i => Some (i + 1) | None => None end
  | _ => None
  end.

Definition with_buf (st : SplitHttpStream) (evs : list PollEvent) (buf : bytes) : SplitHttpStream :=
  mkStream evs buf (chunk_remaining st) (need_chunk_crlf st) (eof st).

(** More input into [read_buf], with the result that ends the call if there is one. *)
Definition fill (st : SplitHttpStream) : SplitHttpStream * option (poll bytes) :=
  match inner_read 4096 (inner st) with
  | (evs, Ready []) => (with_buf st evs (read_buf st), Some (Ready []))
  | (evs, Ready d) => (with_buf st evs (read_buf st ++ d), None)
  | (evs, Pending) => (with_buf st evs (read_buf st), Some Pending)
  | (evs, Failed e) => (with_buf st evs (read_buf st), Some (Failed e))
  end.

(** The line break after a chunk, when it is due and buffered. *)
Definition skip_crlf (st : SplitHttpStream) : SplitHttpStream :=
  if need_chunk_crlf st
  then mkStream (inner st) (drop 2 (read_buf st)) (chunk_remaining st) false (eof st)
  else st.

(** [poll_read] with room for [cap] bytes; [None] when the fuel does not last. *)
Fixpoint poll_read_loop (fuel : nat) (cap : Z) (st : SplitHttpStream)
  : option (SplitHttpStream * poll bytes) :=
  match fuel with
  | O => None
  | S fuel =>
      let more st :=
        match fill st with
        | (st', Some p) => Some (st', p)
        | (st', None) => poll_read_loop fuel cap st'
        end in
      if eof st then Some (st, Ready [])
      else if need_chunk_crlf st && (zlen (read_buf st) <? 2) then more st
      else
        let st := skip_crlf st in
        if chunk_remaining st =? 0 then
          match crlf_position (read_buf st) with
          | Some line_end =>
              match parse_hex 64 (trim (take (Z.to_nat line_end) (read_buf st))) with
              | None => Some (st, Failed (Io InvalidData))
              | Some size =>
                  let buf := drop (Z.to_nat (line_end + 2)) (read_buf st) in
                  if size =? 0 then Some (mkStream (inner st) buf 0 (need_chunk_crlf st) true, Ready [])
                  else poll_read_loop fuel cap (mkStream (inner st) buf size (need_chunk_crlf st) (eof st))
              end
          | None => more st
          end
        else if negb (zlen (read_buf st) =? 0) then
          let n := Z.min (Z.min cap (chunk_remaining st)) (zlen (read_buf st)) in
          let left := chunk_remaining st - n in
          Some (mkStream (inner st) (drop (Z.to_nat n) (read_buf st)) left
                  (if left =? 0 then true else need_chunk_crlf st) (eof st),
                Ready (take (Z.to_nat n) (read_buf st)))
        else more st
  end.

(** Every turn of the loop consumes buffered or incoming bytes. *)
Definition poll_fuel (st : SplitHttpStream) : nat :=
  S (events_size (inner st) + length (read_buf st)).

Definition poll_read (cap : Z) (st : SplitHttpStream) : option (SplitHttpStream * poll bytes) :=
  poll_read_loop (poll_fuel st) cap st.

(** ** Writing *)

Definition chunk_frame (buf : bytes) : bytes := u64_to_upper_hex (zlen buf) ++ [CR; LF] ++ buf ++ [CR; LF].

(** [poll_write] when the stream underneath takes [accepted] bytes of what it is offered:
    the bytes on the wire and the count reported to the caller. *)
Definition poll_write (buf : bytes) (accepted : Z) : bytes * Z :=
  if zlen buf =? 0 then ([], 0)
  else (take (Z.to_nat accepted) (chunk_frame buf), zlen buf).

Definition last_chunk : bytes := [48; CR; LF; CR; LF].

(** [poll_shutdown]. *)
Definition poll_shutdown (accepted : Z) : bytes := take (Z.to_nat accepted) last_chunk.

(** [read_to_end] on the stream: the bytes up to the first read that gives none.  A wait
    is polled again. *)
Fixpoint read_to_end (fuel : nat) (st : SplitHttpStream) (body : bytes)
  : res ProxyError (bytes * SplitHttpStream) :=
  match fuel with
  | O => NoFuel
  | S fuel =>
      match poll_read 4096 st with
      | Some (st', Ready []) => Ok (body, st')
      | Some (st', Ready d) => read_to_end fuel st' (body ++ d)
      | Some (st', Pending) => read_to_end fuel st' body
      | Some (_, Failed e) => Err e
      | None => NoFuel
      end
  end.

(** ** Chunked coding *)

(** The coding a sender may use: a size line in hexadecimal, the data and a line break for
    each chunk, up to a chunk of size zero.  [chunked w d]: the wire [w] carries [d]. *)
Inductive chunked : bytes -> bytes -> Prop :=
| chunked_end line rest :
    CR ∉ line -> parse_hex 64 (trim line) = Some 0 -> chunked (line ++ CR :: LF :: rest) []
| chunked_next line p w d :
    CR ∉ line -> parse_hex 64 (trim line) = Some (zlen p) -> p <> [] -> chunked w d ->
    chunked (line ++ CR :: LF :: p ++ CR :: LF :: w) (p ++ d).

(** Bytes buffered and to come. *)
Definition rest_of (st : SplitHttpStream) : bytes := read_buf st ++ incoming (inner st).

(** What the state still has to give out. *)
Definition decodes (st : SplitHttpStream) (d : bytes) : Prop :=
  if eof st then d = []
  else if need_chunk_crlf st then
    chunk_remaining st = 0 /\ exists a b w, rest_of st = a :: b :: w /\ chunked w d
  else if chunk_remaining st =? 0 then chunked (rest_of st) d
  else exists p w d', rest_of st = p ++ CR :: LF :: w /\ zlen p = chunk_remaining st
                      /\ d = p ++ d' /\ chunked w d'.

Lemma decodes_ext st st' d :
  rest_of st' = rest_of st -> chunk_remaining st' = chunk_remaining st ->
  need_chunk_crlf st' = need_chunk_crlf st -> eof st' = eof st -> decodes st d -> decodes st' d.
Proof. unfold decodes. by intros -> -> -> ->. Qed.

Lemma crlf_position_cons a b s :
  crlf_position (a :: b :: s)
  = if (a =? CR) && (b =? LF) then Some 0
    else match crlf_position (b :: s) with Some i => Some (i + 1) | None => None end.
Proof. done. Qed.

Lemma crlf_position_app line r : CR ∉ line -> crlf_position (line ++ CR :: LF :: r) = Some (zlen line).
Proof.
  induction line as [| b line IH]; intros Hl; [done |].
  apply not_elem_of_cons in Hl as [Hb Hl]. specialize (IH Hl). rewrite zlen_cons.
  assert (H : forall c s, crlf_position (c :: s) = Some (zlen line) ->
                          crlf_position (b :: c :: s) = Some (1 + zlen line)).
  { intros c s E. rewrite crlf_position_cons, E, (proj2 (Z.eqb_neq b CR)) by congruence.
    cbn [andb]. f_equal. lia. }
  destruct line as [| c line]; by apply H.
Qed.

Lemma crlf_position_prefix s x : forall i,
  crlf_position s = Some i -> crlf_position (s ++ x) = Some i /\ 0 <= i /\ i + 2 <= zlen s.
Proof.
  induction s as [| a s IH]; intros i; [done |].
  destruct s as [| b s]; [done |]. cbn [app]. rewrite !crlf_position_cons.
  destruct ((a =? CR) && (b =? LF)); [intros [= <-]; split_and!; [done | lia | len_solve] |].
  destruct (crlf_position (b :: s)) as [j |]; [| done].
  intros [= <-]. destruct (IH j eq_refl) as (E & H0 & H1). cbn [app] in E. rewrite E.
  split_and!; [done | lia | len_solve].
Qed.

Definition load (st : SplitHttpStream) : nat :=
  (events_size (inner st) + length (read_buf st))%nat.

Abbreviation stream_post := (read_post inner decodes).

(** Filling the buffer either waits or goes on with a smaller load. *)
Lemma fill_ok cap st d (k : SplitHttpStream -> option (SplitHttpStream * poll bytes)) :
  clean (inner st) -> incoming (inner st) <> [] -> decodes st d ->
  (forall st', clean (inner st') -> waits (inner st') = waits (inner st) -> (load st' < load st)%nat ->
     decodes st' d -> stream_post cap (waits (inner st)) d (k st')) ->
  stream_post cap (waits (inner st)) d
    (match fill st with (st', Some p) => Some (st', p) | (st', None) => k st' end).
Proof.
  intros Hc Hi Hd Hk. unfold fill.
  destruct (inner_read_ok 4096 _ ltac:(lia) Hc Hi) as (evs' & Hc' & [(E & Hinc & Hw & Hl) | (b & x & E & Hinc & Hw & Hl)]);
    rewrite E; cbn [read_post].
  - split_and!; [done | done |]. eapply decodes_ext, Hd; [| done..].
    unfold rest_of. cbn [with_buf read_buf inner]. by rewrite Hinc.
  - apply Hk; [done | done | |].
    + unfold load. cbn [with_buf read_buf inner]. rewrite length_app. lia.
    + eapply decodes_ext, Hd; [| done..].
      unfold rest_of. cbn [with_buf read_buf inner]. by rewrite Hinc, app_assoc.
Qed.

(** The due line break, once it is buffered, leads to a state between chunks. *)
Lemma skip_crlf_ok st d :
  eof st = false -> decodes st d -> need_chunk_crlf st && (zlen (read_buf st) <? 2) = false ->
  let st' := skip_crlf st in
  inner st' = inner st /\ eof st' = false /\ need_chunk_crlf st' = false /\ (load st' <= load st)%nat
  /\ decodes st' d.
Proof.
  intros He Hd Hn. unfold skip_crlf, decodes, load in *. rewrite He in *.
  destruct (need_chunk_crlf st) eqn:En; cbn [andb inner read_buf eof need_chunk_crlf chunk_remaining] in *.
  - destruct Hd as (Hr & a & b & w & Hs & Hw). rewrite Hr. cbn [Z.eqb]. apply Z.ltb_ge in Hn.
    unfold rest_of in *. destruct (read_buf st) as [| a' [| b' buf]]; [done | done |].
    cbn [drop read_buf inner app] in *. injection Hs as -> -> <-.
    rewrite drop_0. cbn [length]. split_and!; [done | done | done | lia | done].
  - rewrite He. split_and!; [done | done | done | lia | by rewrite En].
Qed.

(** Between chunks: the size line. *)
Lemma size_line_ok st d i :
  chunked (rest_of st) d -> crlf_position (read_buf st) = Some i ->
  let buf := drop (Z.to_nat (i + 2)) (read_buf st) in
  (length buf < length (read_buf st))%nat
  /\ exists size, parse_hex 64 (trim (take (Z.to_nat i) (read_buf st))) = Some size
     /\ if size =? 0 then d = []
        else exists p w d', buf ++ incoming (inner st) = p ++ CR :: LF :: w /\ zlen p = size
                            /\ d = p ++ d' /\ chunked w d'.
Proof.
  intros Hch Hp buf. subst buf.
  destruct (crlf_position_prefix _ (incoming (inner st)) _ Hp) as (Hpos & H0 & H2).
  assert (Hbuf : (length (drop (Z.to_nat (i + 2)) (read_buf st)) < length (read_buf st))%nat).
  { rewrite length_drop. unfold zlen in H2. lia. }
  split; [done |]. unfold rest_of in Hch.
  assert (Hcut : forall line r, CR ∉ line -> read_buf st ++ incoming (inner st) = line ++ CR :: LF :: r ->
    take (Z.to_nat i) (read_buf st) = line
    /\ drop (Z.to_nat (i + 2)) (read_buf st) ++ incoming (inner st) = r).
  { intros line r Hl E. rewrite E in Hpos. rewrite crlf_position_app in Hpos by done.
    injection Hpos as Hi. unfold zlen in *. split.
    - rewrite <- (take_app_le (read_buf st) (incoming (inner st))) by lia.
      rewrite E. rewrite take_app_le by lia. rewrite firstn_all2 by lia. done.
    - rewrite <- drop_app_le by lia. rewrite E.
      replace (Z.to_nat (i + 2)) with (length line + 2)%nat by lia.
      rewrite <- drop_drop. by rewrite drop_app_length. }
  inversion Hch as [line rest Hl Hx E Ed | line p w d' Hl Hx Hne Hw E Ed].
  - destruct (Hcut line rest Hl (eq_sym E)) as [-> ->]. exists 0. done.
  - destruct (Hcut line _ Hl (eq_sym E)) as [-> ->]. exists (zlen p). split; [done |].
    destruct p as [| b p]; [done |]. rewrite zlen_cons. pose proof (zlen_nonneg p).
    destruct (Z.eqb_spec (1 + zlen p) 0); [lia |]. exists (b :: p), w, d'. by rewrite zlen_cons.
Qed.

Lemma chunked_incoming st d : chunked (rest_of st) d -> crlf_position (read_buf st) = None -> incoming (inner st) <> [].
Proof.
  intros Hch Hp E. unfold rest_of in Hch. rewrite E, app_nil_r in Hch.
  inversion Hch as [line rest Hl Hx E' | line p w d' Hl Hx Hne Hw E']; rewrite <- E' in Hp;
    by rewrite crlf_position_app in Hp.
Qed.

(** Inside a chunk, with something buffered. *)
Lemma give_out_ok cap st p w d' :
  1 <= cap -> clean (inner st) -> eof st = false -> need_chunk_crlf st = false ->
  chunk_remaining st <> 0 -> zlen (read_buf st) <> 0 ->
  rest_of st = p ++ CR :: LF :: w -> zlen p = chunk_remaining st -> chunked w d' ->
  let n := Z.min (Z.min cap (chunk_remaining st)) (zlen (read_buf st)) in
  let left := chunk_remaining st - n in
  stream_post cap (waits (inner st)) (p ++ d')
    (Some (mkStream (inner st) (drop (Z.to_nat n) (read_buf st)) left
             (if left =? 0 then true else need_chunk_crlf st) (eof st),
           Ready (take (Z.to_nat n) (read_buf st)))).
Proof.
  intros Hcap Hc He En Hz Hb Hs Hp Hw n left. cbn [read_post inner].
  pose proof (zlen_nonneg p). pose proof (zlen_nonneg (read_buf st)). unfold rest_of in Hs.
  assert (Hn : 1 <= n <= zlen p /\ n <= zlen (read_buf st) /\ n <= cap) by lia.
  assert (Ht : take (Z.to_nat n) (read_buf st) = take (Z.to_nat n) p).
  { unfold zlen in *. rewrite <- (take_app_le (read_buf st) (incoming (inner st))) by lia.
    rewrite Hs. by rewrite take_app_le by lia. }
  assert (Hd : drop (Z.to_nat n) (read_buf st) ++ incoming (inner st)
               = drop (Z.to_nat n) p ++ CR :: LF :: w).
  { unfold zlen in *. rewrite <- drop_app_le by lia. rewrite Hs. by rewrite drop_app_le by lia. }
  rewrite Ht. split_and!; [done | done | unfold zlen in *; rewrite length_take; lia |].
  exists (drop (Z.to_nat n) p ++ d'). split_and!.
  - by rewrite app_assoc, take_drop.
  - unfold decodes. cbn [eof need_chunk_crlf chunk_remaining]. rewrite He.
    unfold rest_of. cbn [read_buf inner]. rewrite Hd.
    destruct (Z.eqb_spec left 0) as [Hl | Hl].
    + split; [done |]. rewrite drop_ge by (unfold zlen in *; lia). by exists CR, LF, w.
    + rewrite En. exists (drop (Z.to_nat n) p), w, d'.
      split_and!; [done | unfold zlen in *; rewrite length_drop; lia | done | done].
  - intros E. apply (f_equal length) in E. rewrite length_take in E. unfold zlen in *. simpl in E. lia.
Qed.

Lemma poll_read_loop_ok cap fuel : 1 <= cap -> forall st d,
  clean (inner st) -> decodes st d -> (load st < fuel)%nat ->
  stream_post cap (waits (inner st)) d (poll_read_loop fuel cap st).
Proof.
  intros Hcap. induction fuel as [| fuel IH]; intros st d Hc Hd Hf; [lia |].
  cbn [poll_read_loop].
  assert (Hmore : forall st0, inner st0 = inner st -> (load st0 <= load st)%nat -> decodes st0 d ->
            incoming (inner st) <> [] -> stream_post cap (waits (inner st)) d
            (match fill st0 with (st', Some p) => Some (st', p) | (st', None) => poll_read_loop fuel cap st' end)).
  { intros st0 E0 Hl Hd0 Hinc. rewrite <- E0. apply fill_ok; [congruence.. | done |].
    intros st' Hc' Hw Hl' Hd'. rewrite <- Hw. apply IH; [done | done | lia]. }
  destruct (eof st) eqn:He.
  { unfold decodes in Hd. rewrite He in Hd. subst d. cbn [read_post]. split_and!; [done | done | len_solve |].
    exists []. split_and!; [done | | done]. unfold decodes. by rewrite He. }
  destruct (need_chunk_crlf st && (zlen (read_buf st) <? 2)) eqn:En.
  { apply Hmore; [done | lia | done |]. apply andb_true_iff in En as [En Hl]. apply Z.ltb_lt in Hl.
    unfold decodes in Hd. rewrite He, En in Hd. destruct Hd as (_ & a & b & w & Hs & _). intros E.
    unfold rest_of in Hs. rewrite E, app_nil_r in Hs. rewrite Hs in Hl. rewrite !zlen_cons in Hl.
    pose proof (zlen_nonneg w). lia. }
  destruct (skip_crlf_ok st d He Hd En) as (Ei & He' & En' & Hl & Hd'). clear Hd En.
  specialize (Hmore (skip_crlf st) Ei Hl Hd'). rewrite <- Ei in Hc, Hmore |- *.
  revert Hc Hmore He' En' Hl Hd'. generalize (skip_crlf st). clear He Ei. intros st1 Hc Hmore He' En' Hl Hd'.
  unfold decodes in Hd'. rewrite He', En' in Hd'.
  destruct (Z.eqb_spec (chunk_remaining st1) 0) as [Hz | Hz].
  - destruct (crlf_position (read_buf st1)) as [i |] eqn:Ep; [| by eapply Hmore, chunked_incoming].
    destruct (size_line_ok st1 d i Hd' Ep) as (Hlen & size & -> & Hsz).
    destruct (Z.eqb_spec size 0) as [Hz0 | Hnz].
    + cbn [read_post inner]. split_and!; [done | done | len_solve |]. exists []. by split_and!.
    + apply (IH (mkStream (inner st1) _ _ _ _)); [done | | unfold load in *; cbn [inner read_buf]; lia].
      unfold decodes. cbn [eof need_chunk_crlf chunk_remaining]. rewrite He', En'.
      destruct (Z.eqb_spec size 0); [done | exact Hsz].
  - destruct Hd' as (p & w & d' & Hs & Hp & -> & Hw). pose proof (zlen_nonneg p).
    destruct (Z.eqb_spec (zlen (read_buf st1)) 0) as [Hb | Hb]; cbn [negb].
    + apply Hmore. intros E. unfold rest_of in Hs. rewrite E, app_nil_r in Hs.
      rewrite Hs, zlen_app, !zlen_cons in Hb. pose proof (zlen_nonneg w). lia.
    + by apply (give_out_ok cap st1 p w d').
Qed.

#[global] Instance SplitHttpStream_reader : AsyncReader SplitHttpStream :=
  { rd_poll := poll_read; rd_inner := inner }.

#[global] Instance SplitHttpStream_spec : ReaderSpec SplitHttpStream decodes.
Proof. intros cap st d Hcap Hc Hd. apply poll_read_loop_ok; [done.. |]. unfold poll_fuel, load. lia. Qed.

Lemma hex_line n : is_u 64 n -> (CR ∉ u64_to_upper_hex n) /\ parse_hex 64 (trim (u64_to_upper_hex n)) = Some n.
Proof.
  intros Hn. pose proof (hex_upper_chars 16 n ltac:(unfold is_u in Hn; lia)) as Hc. split.
  - intros Hin. eapply Forall_forall in Hc; [| exact Hin]. cbv beta in Hc. unfold CR in Hc. lia.
  - rewrite trim_visible; [by apply parse_hex_to_upper |].
    unfold graphic, u64_to_upper_hex. eapply Forall_impl; [exact Hc |]. cbv beta. lia.
Qed.

Lemma frames_chunked bufs :
  Forall (fun b => 0 < zlen b < 2 ^ 64) bufs ->
  chunked (concat (chunk_frame <$> bufs) ++ last_chunk) (concat bufs).
Proof.
  induction bufs as [| b bufs IH]; intros Hb; cbn [fmap list_fmap concat].
  - apply (chunked_end [48] [CR; LF]); [by apply (bool_decide_unpack _) | done].
  - apply Forall_cons_iff in Hb as [Hb Hbs]. unfold chunk_frame at 1. rewrite <- !app_assoc. cbn [app].
    destruct (hex_line (zlen b) ltac:(unfold is_u; lia)) as [Hcr Hp].
    apply chunked_next; [done | done | intros ->; unfold zlen in Hb; simpl in Hb; lia | by apply IH].
Qed.

(** The chunked stream decodes every legal chunked coding of data [d] to [d]: however
    the bytes are cut into reads of the stream underneath, however often it has to wait and
    whatever buffers the caller reads with, what the reads give is always a part of [d] from
    its start, never an error, and after as many reads as there are bytes and waits it is all
    of [d].  The frames the writer produces, when the stream underneath takes them whole, are
    such a coding of what was written. *)
Theorem splithttp_stream_correct (evs : list PollEvent) (caps : list Z) (bufs : list bytes) (w d : bytes) :
  clean evs -> incoming evs = w -> Forall (Z.le 1) caps -> Forall (fun b => 0 < zlen b < 2 ^ 64) bufs ->
  chunked w d ->
  reads_all caps (stream_new evs) d
  /\ chunked (concat ((fun b => (poll_write b (zlen (chunk_frame b))).1) <$> bufs)
              ++ poll_shutdown (zlen last_chunk)) (concat bufs).
Proof.
  intros Hc Hi Hcaps Hb Hch. split.
  - apply carries_reads_all; [done | done |]. unfold decodes, rest_of.
    cbn [stream_new eof need_chunk_crlf chunk_remaining read_buf inner app]. by rewrite Hi.
  - pose proof (frames_chunked bufs Hb) as Hf.
    assert (E : (fun b => (poll_write b (zlen (chunk_frame b))).1) <$> bufs = chunk_frame <$> bufs).
    { apply list_fmap_ext. intros i b Hl. eapply Forall_lookup_1 in Hb; [| exact Hl]. cbv beta in Hb.
      unfold poll_write. rewrite (proj2 (Z.eqb_neq (zlen b) 0)) by lia. cbn [fst].
      unfold zlen. by rewrite Nat2Z.id, take_ge. }
    by rewrite E.
Qed.

Lemma splithttp_stream_correct_witness :
  let evs := [PData (lit "3"); PPending; PData ([CR; LF] ++ lit "ab"); PData (lit "c" ++ [CR]);
              PData ([LF; 48; CR; LF; CR; LF])] in
  reads_all (replicate 4 2) (stream_new evs) (lit "abc")
  /\ chunked (concat ((fun b => (poll_write b (zlen (chunk_frame b))).1) <$> [lit "abc"])
              ++ poll_shutdown (zlen last_chunk)) (concat [lit "abc"]).
Proof.
  cbv zeta. apply (splithttp_stream_correct _ (replicate 4 2) [lit "abc"] (chunk_frame (lit "abc") ++ last_chunk)).
  - decided.
  - reflexivity.
  - decided.
  - repeat constructor.
  - apply (chunked_next (lit "3") (lit "abc") last_chunk []); [decided | reflexivity | discriminate |].
    apply (chunked_end [48] [CR; LF]); [decided | reflexivity].
Defined.

(** A write of which the stream underneath takes only the first five bytes is reported as
    complete; the reader then takes the next frame for the rest of the chunk. *)
Lemma short_write_corrupts :
  let '(w1, n1) := poll_write (lit "hello") 5 in
  let '(w2, n2) := poll_write (lit "again") (zlen (chunk_frame (lit "again"))) in
  n1 = 5 /\ n2 = 5
  /\ snd <$> polls (replicate 3 4096) (stream_new [PData (w1 ++ w2 ++ last_chunk)])
     = None
  /\ snd <$> polls [4096] (stream_new [PData (w1 ++ w2 ++ last_chunk)]) = Some (lit "he5" ++ [CR; LF]).
Proof. by vm_compute. Qed.

(** A connection that ends inside a chunk looks like the orderly end of the stream. *)
Lemma truncation_is_end :
  let w := take 6 (chunk_frame (lit "hello")) in
  snd <$> polls (replicate 9 4096) (stream_new [PData w]) = Some (lit "hel").
Proof. by vm_compute. Qed.

(** * The upload queue *)

Definition DEFAULT_MAX_BUFFERED : Z := 64.

Record UploadPacket := mkPacket { up_seq : Z; up_payload : bytes }.

(** [Ord] of [Vec<u8>] and of the pairs on the heap. *)
Fixpoint lex_le (a b : bytes) : bool :=
  match a, b with
  | [], _ => true
  | _ :: _, [] => false
  | x :: a, y :: b => (x <? y) || ((x =? y) && lex_le a b)
  end.

Definition heap_le (p q : Z * bytes) : bool :=
  (p.1 <? q.1) || ((p.1 =? q.1) && lex_le p.2 q.2).

(** The binary heap as the list of its elements in the order they are popped. *)
Fixpoint heap_push (p : Z * bytes) (h : list (Z * bytes)) : list (Z * bytes) :=
  match h with
  | [] => [p]
  | q :: h => if heap_le p q then p :: q :: h else q :: heap_push p h
  end.

Record QueueState := mkQueue {
  next_seq : Z;
  heap : list (Z * bytes);
  pending : bytes;
  closed : bool;
  max_buffered : Z;
  (** whether the receiver of wake-ups was taken by a reader *)
  reader_taken : bool;
}.

Definition queue_new (max_buffered : Z) : QueueState :=
  mkQueue 0 [] [] false (if max_buffered =? 0 then DEFAULT_MAX_BUFFERED else max_buffered) false.

Definition saturating_succ (n : Z) : Z := Z.min (n + 1) (2 ^ 64 - 1).

Inductive QueueError := ReorderExceeded | QueueEof | QueueClosed.

(** The loop of [fill_pending] over the heap. *)
Fixpoint fill_loop (closed : bool) (max_buffered next_seq : Z) (pending : bytes) (h : list (Z * bytes))
  : Z * bytes * list (Z * bytes) * res QueueError unit :=
  match h with
  | [] => (next_seq, pending, [],
           if closed && (zlen pending =? 0) then Err QueueEof else Ok tt)
  | (seq, payload) :: h' =>
      if seq =? next_seq then
        fill_loop closed max_buffered (saturating_succ next_seq) (pending ++ payload) h'
      else if seq >? next_seq then
        if zlen h' >=? max_buffered then (next_seq, pending, h', Err ReorderExceeded)
        else (next_seq, pending, heap_push (seq, payload) h', Ok tt)
      else fill_loop closed max_buffered next_seq pending h'
  end.

Definition fill_pending : stE QueueState QueueError unit := fun q =>
  let '(n, p, h, r) := fill_loop (closed q) (max_buffered q) (next_seq q) (pending q) (heap q) in
  (mkQueue n h p (closed q) (max_buffered q) (reader_taken q), r).

Definition push (packet : UploadPacket) : stE QueueState QueueError unit := fun q =>
  if closed q then (q, Err QueueClosed)
  else (mkQueue (next_seq q) (heap_push (up_seq packet, up_payload packet) (heap q)) (pending q)
          (closed q) (max_buffered q) (reader_taken q), Ok tt).

Definition close (q : QueueState) : QueueState :=
  mkQueue (next_seq q) (heap q) (pending q) true (max_buffered q) (reader_taken q).

(** [take_reader]: [expect] panics when the receiver is gone. *)
Definition take_reader : stE QueueState QueueError unit := fun q =>
  if reader_taken q then (q, Panic)
  else (mkQueue (next_seq q) (heap q) (pending q) (closed q) (max_buffered q) true, Ok tt).

(** [poll_read] of the reader with room for [cap] bytes while the lock is free: with
    nothing to give it waits for a wake-up, which every push sends. *)
Definition queue_poll_read (cap : Z) (q : QueueState) : QueueState * poll bytes :=
  if cap =? 0 then (q, Ready [])
  else
    match fill_pending q with
    | (q', Err QueueEof) => (q', Ready [])
    | (q', Err _) => (q', Failed (Io OtherIo))
    | (q', _) =>
        if negb (zlen (pending q') =? 0) then
          let n := Z.min cap (zlen (pending q')) in
          (mkQueue (next_seq q') (heap q') (drop (Z.to_nat n) (pending q')) (closed q') (max_buffered q')
             (reader_taken q'), Ready (take (Z.to_nat n) (pending q')))
        else if closed q' then (q', Ready [])
        else (q', Pending)
    end.

(** The same with other tasks that hold the lock: [views] says for each turn of the loop whether the lock is held at its first
    [try_lock], and at the second, which is expected to succeed; [wakes] is the number of wake-ups that are waiting. *)
Fixpoint queue_poll_read_shared (views : list (bool * bool)) (wakes : nat) (cap : Z) (q : QueueState) : QueueState * res QueueError (poll bytes) :=
  match views with
  | [] => (q, NoFuel)
  | (busy, taken) :: views =>
      if cap =? 0 then (q, Ok (Ready []))
      else if busy then
        match wakes with O => (q, Ok Pending) | S wakes => queue_poll_read_shared views wakes cap q end
      else if taken then (q, Panic)
      else
        match queue_poll_read cap q with
        | (q', Pending) => match wakes with O => (q', Ok Pending) | S wakes => queue_poll_read_shared views wakes cap q' end
        | (q', r) => (q', Ok r)
        end
  end.

(** ** Order *)

(** Runs of the queue for the upload [f], the payload of each sequence number: requests
    that arrive in any order, also repeated, and reads.  The result has what was read and
    whether some read failed. *)
Inductive QueueOp := QPush (seq : Z) | QRead (cap : Z).

#[global] Instance QueueOp_eq_dec : EqDecision QueueOp.
Proof. solve_decision. Defined.

Definition queue_do (f : Z -> bytes) (op : QueueOp) (st : QueueState * bytes * bool)
  : QueueState * bytes * bool :=
  let '(q, got, failed) := st in
  match op with
  | QPush seq => ((push (mkPacket seq (f seq)) q).1, got, failed)
  | QRead cap =>
      match queue_poll_read cap q with
      | (q', Ready out) => (q', got ++ out, failed)
      | (q', Pending) => (q', got, failed)
      | (q', Failed _) => (q', got, true)
      end
  end.

Definition run_queue (f : Z -> bytes) (ops : list QueueOp) (q : QueueState) : QueueState * bytes * bool :=
  fold_left (fun st op => queue_do f op st) ops (q, [], false).

Definition op_ok (op : QueueOp) : Prop :=
  match op with QPush seq => 0 <= seq < 2 ^ 64 - 1 | QRead cap => 0 <= cap end.

#[global] Instance op_ok_dec op : Decision (op_ok op).
Proof. destruct op; simpl; apply _. Defined.

Definition is_push (op : QueueOp) : bool := match op with QPush _ => true | _ => false end.
Definition pushes (ops : list QueueOp) : Z := zlen (List.filter is_push ops).

(** The sequence numbers of the requests that have arrived, and how many of them are beyond [n]. *)
Definition pushed (ops : list QueueOp) : list Z := omap (fun op => match op with QPush s => Some s | QRead _ => None end) ops.

Definition ahead (n : Z) (ops : list QueueOp) : Z := zlen (filter (fun s => n < s) (pushed ops)).

(** The first [n] payloads in order. *)
Definition upload (f : Z -> bytes) (n : Z) : bytes := concat (f <$> seqZ 0 n).

Definition of_upload (f : Z -> bytes) (p : Z * bytes) : Prop := p.2 = f p.1 /\ 0 <= p.1 < 2 ^ 64 - 1.

Definition seq_le (p q : Z * bytes) : Prop := p.1 <= q.1.

Lemma lex_le_refl a : lex_le a a = true.
Proof. induction a as [| x a IH]; [done |]. cbn [lex_le]. by rewrite Z.eqb_refl, IH, orb_true_r. Qed.

Lemma heap_push_front f p h :
  of_upload f p -> Forall (of_upload f) h -> Forall (seq_le p) h -> heap_push p h = p :: h.
Proof.
  intros [Hp _] Hh Hs. destruct h as [| q h]; [done |]. apply Forall_cons_iff in Hh as [[Hq _] _].
  apply Forall_cons_iff in Hs as [Hs _]. cbn [heap_push].
  assert (E : heap_le p q = true); [| by rewrite E].
  unfold heap_le, seq_le in *. destruct (Z.ltb_spec p.1 q.1); [done |].
  assert (E : p.1 = q.1) by lia. rewrite Hp, Hq, E, Z.eqb_refl. cbn [orb andb]. apply lex_le_refl.
Qed.

Lemma heap_push_perm p h : heap_push p h ≡ₚ p :: h.
Proof.
  induction h as [| q h IH]; cbn [heap_push]; [done |].
  destruct (heap_le p q); [done |]. rewrite IH. by rewrite Permutation_swap.
Qed.

Lemma heap_push_sorted p h : StronglySorted seq_le h -> StronglySorted seq_le (heap_push p h).
Proof.
  induction 1 as [| q h Hs IH Hq]; cbn [heap_push]; [repeat constructor |].
  unfold heap_le. destruct ((p.1 <? q.1) || _) eqn:E.
  - constructor; [by constructor |].
    assert (Hpq : seq_le p q).
    { unfold seq_le. apply orb_true_iff in E as [E | E]; [| apply andb_true_iff in E as [E _]]; lia. }
    constructor; [done |]. eapply Forall_impl; [exact Hq |]. unfold seq_le in *. intros; lia.
  - constructor; [done |]. rewrite heap_push_perm. constructor; [| done].
    unfold seq_le. apply orb_false_iff in E as [E _]. lia.
Qed.

Lemma upload_succ f n : 0 <= n -> upload f (n + 1) = upload f n ++ f n.
Proof.
  intros Hn. unfold upload. rewrite seqZ_app by lia. rewrite fmap_app, concat_app. f_equal.
  rewrite seqZ_cons by lia. cbn [fmap list_fmap concat]. by rewrite app_nil_r, Z.add_0_l.
Qed.

(** What the loop of [fill_pending] does to a sorted heap of the upload. *)
Lemma fill_loop_ok f mx h : forall n p n' p' h' r,
  Forall (of_upload f) h -> StronglySorted seq_le h -> 0 <= n <= 2 ^ 64 - 1 ->
  fill_loop false mx n p h = (n', p', h', r) ->
  n <= n' <= 2 ^ 64 - 1 /\ Forall (of_upload f) h' /\ StronglySorted seq_le h' /\ zlen h' <= zlen h
  /\ (forall x, x ∈ h' -> x ∈ h)
  /\ (forall s, n <= s < n' -> (s, f s) ∈ h)
  /\ (forall got, got ++ p = upload f n -> got ++ p' = upload f n')
  /\ (zlen h <= mx -> r = Ok tt)
  /\ (r = Ok tt -> (forall x, x ∈ h -> x.1 < n' \/ x ∈ h') /\ (forall x, x ∈ h' -> n' < x.1)).
Proof.
  induction h as [| [s b] h IH]; intros n p n' p' h' r Hf Hs Hn; cbn [fill_loop].
  { cbn [andb]. intros [= <- <- <- <-].
    split_and!; try done; try lia. intros _. split; by intros x ?%elem_of_nil. }
  apply Forall_cons_iff in Hf as [[Hb Hr] Hf]. cbn [fst snd] in Hb, Hr.
  apply StronglySorted_inv in Hs as [Hs Hle]. pose proof (zlen_nonneg h) as Hl.
  destruct (Z.eqb_spec s n) as [-> | Hne].
  - intros E. assert (En : saturating_succ n = n + 1) by (unfold saturating_succ; lia). rewrite En in E.
    destruct (IH (n + 1) _ _ _ _ _ Hf Hs ltac:(lia) E) as (Hn' & Hf' & Hs' & Hl' & Hin & Hcov & Hgot & Hok & Hall).
    rewrite zlen_cons. split_and!; [lia | lia | done | done | lia | | | | intros; apply Hok; lia |].
    + intros x Hx. right. by apply Hin.
    + intros s0 Hs0. destruct (decide (s0 = n)) as [-> |]; [subst b; apply list_elem_of_here | apply list_elem_of_further, Hcov; lia].
    + intros got Hg. apply Hgot. rewrite app_assoc, Hg, Hb. symmetry. apply upload_succ. lia.
    + intros Hr'. destruct (Hall Hr') as [H1 H2]. split; [| done].
      intros x [-> | Hx]%elem_of_cons; [left; simpl; lia | by apply H1].
  - destruct (Z.gtb_spec s n) as [Hgt | Hlt].
    + assert (Hfront : heap_push (s, b) h = (s, b) :: h) by (by apply (heap_push_front f)).
      destruct (Z.geb_spec (zlen h) mx) as [Hfull | Hroom]; intros [= <- <- <- <-]; rewrite zlen_cons.
      * split_and!; [lia | lia | done | done | lia | intros; by right | lia | done | lia | done].
      * rewrite Hfront. split_and!; [lia | lia | | | rewrite zlen_cons; lia | done | lia | done | done |].
        { by constructor. } { by constructor. }
        intros _. split; [intros; by right |]. intros x [-> | Hx]%elem_of_cons; [simpl; lia |].
        eapply Forall_forall in Hle; [| exact Hx]. unfold seq_le in Hle. simpl in Hle. lia.
    + intros E.
      destruct (IH _ _ _ _ _ _ Hf Hs Hn E) as (Hn' & Hf' & Hs' & Hl' & Hin & Hcov & Hgot & Hok & Hall).
      rewrite zlen_cons. split_and!; [lia | lia | done | done | lia | | | done | intros; apply Hok; lia |].
      * intros x Hx. right. by apply Hin.
      * intros s0 Hs0. right. by apply Hcov.
      * intros Hr'. destruct (Hall Hr') as [H1 H2]. split; [| done].
        intros x [-> | Hx]%elem_of_cons; [left; simpl; lia | by apply H1].
Qed.

(** Numbers of the heap, and those from [n] on. *)
Definition numbers (h : list (Z * bytes)) : list Z := fst <$> h.
Definition from (n : Z) (l : list Z) : list Z := filter (fun s => n <= s) l.

Lemma from_all n l : Forall (fun s => n <= s) l -> from n l = l.
Proof. unfold from. induction 1 as [| x l Hx Hl IH]; [done |]. by rewrite filter_cons_True, IH. Qed.

Lemma from_from n m l : n <= m -> from m (from n l) = from m l.
Proof. intros H. unfold from. rewrite list_filter_filter. apply list_filter_iff. intros x. lia. Qed.

(** What is left on the heap, and when it is too much. *)
Lemma fill_loop_left f mx h : forall n p n' p' h' r,
  Forall (of_upload f) h -> StronglySorted seq_le h -> 0 <= n <= 2 ^ 64 - 1 -> 0 <= mx ->
  fill_loop false mx n p h = (n', p', h', r) ->
  exists w, from (n' + 1) (numbers h) = w /\ (n' ∉ numbers h) /\ Forall (fun s => n' < s) w
    /\ ((r = Ok tt /\ zlen w <= mx /\ numbers h' = w)
        \/ (r = Err ReorderExceeded /\ mx < zlen w /\ exists s, w = s :: numbers h')).
Proof.
  induction h as [| [s b] h IH]; intros n p n' p' h' r Hf Hs Hn Hmx; cbn [fill_loop].
  { cbn [andb]. intros [= <- <- <- <-]. exists []. split_and!; [done | by intros ?%elem_of_nil | done | by left]. }
  assert (Hcons : forall m, m <> s -> m ∉ numbers h -> m ∉ numbers ((s, b) :: h)).
  { intros m Hm Hnin [? | ?]%elem_of_cons; done. }
  apply Forall_cons_iff in Hf as [[Hb Hr] Hf]. cbn [fst snd] in Hb, Hr. apply StronglySorted_inv in Hs as [Hs Hle].
  assert (Hskip : forall m, n <= m -> s <= n -> from (m + 1) (numbers ((s, b) :: h)) = from (m + 1) (numbers h)).
  { intros m Hm Hsn. unfold numbers, from. cbn [fmap list_fmap fst]. rewrite filter_cons_False by lia. done. }
  destruct (Z.eqb_spec s n) as [-> | Hne].
  - intros E. assert (En : saturating_succ n = n + 1) by (unfold saturating_succ; lia). rewrite En in E.
    destruct (fill_loop_ok f _ _ (n + 1) _ _ _ _ _ Hf Hs ltac:(lia) E) as (Hn' & _).
    destruct (IH (n + 1) _ _ _ _ _ Hf Hs ltac:(lia) Hmx E) as (w & Hw & Hnin & H). exists w. rewrite Hskip by lia. split_and!; [done | apply Hcons; [lia | done] | apply H | apply H].
  - destruct (Z.gtb_spec s n) as [Hgt | Hlt].
    + assert (Hall : Forall (fun x => n < x) (numbers ((s, b) :: h))).
      { unfold numbers. apply Forall_fmap. constructor; [done |]. eapply Forall_impl; [exact Hle |]. unfold seq_le. cbn. intros; lia. }
      assert (Hw : from (n + 1) (numbers ((s, b) :: h)) = numbers ((s, b) :: h)).
      { apply from_all. eapply Forall_impl; [exact Hall |]. cbn. intros; lia. }
      assert (Hno : n ∉ numbers ((s, b) :: h)) by (intros Hin; rewrite Forall_forall in Hall; apply Hall in Hin; lia).
      assert (Hfront : heap_push (s, b) h = (s, b) :: h) by (by apply (heap_push_front f)).
      destruct (Z.geb_spec (zlen h) mx) as [Hfull | Hroom]; intros [= <- <- <- <-]; exists (numbers ((s, b) :: h)).
      * split_and!; [done | done | done |].
        right. split_and!; [done | unfold numbers, zlen in *; rewrite length_fmap; simpl; lia | by exists s].
      * rewrite Hfront. split_and!; [done | done | done |].
        left. split_and!; [done | unfold numbers, zlen in *; rewrite length_fmap; simpl; lia | done].
    + intros E. destruct (fill_loop_ok f _ _ _ _ _ _ _ _ Hf Hs Hn E) as (Hn' & _).
      destruct (IH _ _ _ _ _ _ Hf Hs Hn Hmx E) as (w & Hw & Hnin & H). exists w. rewrite Hskip by lia. split_and!; [done | apply Hcons; [lia | done] | apply H | apply H].
Qed.

(** The invariant of a run: what was read and what waits is the start of the upload, and
    without a failure no arrived payload is missing. *)
Record queue_inv (f : Z -> bytes) (mx : Z) (ops : list QueueOp) (st : QueueState * bytes * bool) : Prop := {
  qi_open : closed st.1.1 = false;
  qi_max : max_buffered st.1.1 = mx;
  qi_next : 0 <= next_seq st.1.1 <= 2 ^ 64 - 1;
  qi_heap : Forall (of_upload f) (heap st.1.1);
  qi_sorted : StronglySorted seq_le (heap st.1.1);
  qi_size : zlen (heap st.1.1) <= pushes ops;
  qi_pushed : forall x, x ∈ heap st.1.1 -> QPush x.1 ∈ ops;
  qi_arrived : forall s, 0 <= s < next_seq st.1.1 -> QPush s ∈ ops;
  qi_got : st.1.2 ++ pending st.1.1 = upload f (next_seq st.1.1);
  qi_room : pushes ops <= mx -> st.2 = false;
  qi_none_lost : st.2 = false -> forall s, QPush s ∈ ops -> s < next_seq st.1.1 \/ (s, f s) ∈ heap st.1.1;
  qi_limit : 0 <= mx;
  qi_count : st.2 = false -> from (next_seq st.1.1) (numbers (heap st.1.1)) ≡ₚ from (next_seq st.1.1) (pushed ops);
}.

Lemma pushes_snoc ops op : pushes (ops ++ [op]) = pushes ops + (if is_push op then 1 else 0).
Proof. unfold pushes. rewrite List.filter_app, zlen_app. by destruct op. Qed.

Lemma queue_inv_push f mx ops st s :
  queue_inv f mx ops st -> op_ok (QPush s) -> queue_inv f mx (ops ++ [QPush s]) (queue_do f (QPush s) st).
Proof.
  destruct st as [[q got] failed]. intros [Ho Hm Hn Hh Hs Hz Hp Ha Hg Hr Hl Hmx Hct] Hok. cbn [fst snd] in *.
  unfold queue_do, push. rewrite Ho. cbn [fst].
  pose proof (heap_push_perm (s, f s) (heap q)) as Hperm.
  assert (Hz' : zlen (heap_push (s, f s) (heap q)) = 1 + zlen (heap q)).
  { unfold zlen. rewrite Hperm. simpl. lia. }
  split; cbn [fst snd closed max_buffered next_seq heap pending up_seq up_payload]; try done.
  - rewrite Hperm. by constructor.
  - by apply heap_push_sorted.
  - rewrite Hz', pushes_snoc. cbn [is_push]. lia.
  - intros x Hx. rewrite Hperm in Hx. apply elem_of_app. apply elem_of_cons in Hx as [-> | Hx].
    + right. apply list_elem_of_here.
    + left. by apply Hp.
  - intros s0 Hs0. apply elem_of_app. left. by apply Ha.
  - rewrite pushes_snoc. cbn [is_push]. intros. apply Hr. lia.
  - intros Hf s0 Hs0. rewrite Hperm. apply elem_of_app in Hs0 as [Hs0 | Hs0].
    + destruct (Hl Hf s0 Hs0) as [? | ?]; [by left | right; by apply list_elem_of_further].
    + apply list_elem_of_singleton in Hs0. injection Hs0 as ->. right. apply list_elem_of_here.
  - intros Hf. unfold numbers, from, pushed in *. rewrite Hperm, omap_app. cbn [fmap list_fmap fst omap list_omap].
    rewrite filter_app, <- (Hct Hf), Permutation_app_comm. cbn. by destruct (decide (next_seq q <= s)); cbn.
Qed.

(** The part of a read that refills [pending], and that nothing it could give is left. *)
Lemma fill_pending_inv f mx ops q got failed q' r :
  queue_inv f mx ops (q, got, failed) -> fill_pending q = (q', r) ->
  queue_inv f mx ops (q', got, if is_ok r then failed else true)
  /\ closed q' = false /\ (r = Ok tt \/ exists e, r = Err e /\ e <> QueueEof)
  /\ (r = Ok tt -> forall x, x ∈ heap q' -> next_seq q' < x.1).
Proof.
  intros [Ho Hm Hn Hh Hs Hz Hp Ha Hg Hr Hl Hmx Hct] E. cbn [fst snd] in *. unfold fill_pending in E. rewrite Ho in E.
  destruct (fill_loop false (max_buffered q) (next_seq q) (pending q) (heap q)) as [[[n' p'] h'] r'] eqn:El.
  injection E as <- <-.
  destruct (fill_loop_ok f _ _ _ _ _ _ _ _ Hh Hs Hn El) as (Hn' & Hf' & Hs' & Hl' & Hin & Hcov & Hgot & Hok & Hall).
  assert (Hres : r' = Ok tt \/ exists e, r' = Err e /\ e <> QueueEof).
  { clear - El. revert n' p' h' r' El. generalize (next_seq q), (pending q).
    induction (heap q) as [| [s b] h IH]; intros n p n' p' h' r'; cbn [fill_loop andb]; [intros [= <- <- <- <-]; by left |].
    destruct (s =? n); [apply IH |]. destruct (s >? n); [| apply IH].
    destruct (_ >=? _); intros [= <- <- <- <-]; [right; by exists ReorderExceeded | by left]. }
  split; [| split_and!; [done | done | intros Hr' x Hx; by apply (Hall Hr')]].
  split; cbn [fst snd closed max_buffered next_seq heap pending]; try done; try lia.
  - intros x Hx. by apply Hp, Hin.
  - intros s Hs0. destruct (decide (s < next_seq q)); [by apply Ha; lia |].
    apply (Hp (s, f s)). apply Hcov. lia.
  - by apply Hgot.
  - intros Hpu. rewrite Hok by lia. cbn [is_ok]. by apply Hr.
  - destruct r' as [[] | e | |]; cbn [is_ok]; try done. intros Hf s Hs0.
    destruct (Hall eq_refl) as [H1 _]. destruct (Hl Hf s Hs0) as [? | Hin']; [left; lia |].
    apply (H1 _ Hin').
  - destruct r' as [[] | e | |]; cbn [is_ok]; try done. intros Hf. rewrite Hm in El.
    destruct (fill_loop_left f _ _ _ _ _ _ _ _ Hh Hs Hn Hmx El) as (w & Hw & Hno & Hgt & [(_ & _ & E) | (? & _)]); [| done].
    assert (Hcov' : forall l l', from (next_seq q) l ≡ₚ from (next_seq q) l' -> from n' l ≡ₚ from n' l')
      by (intros l l' H; rewrite <- (from_from (next_seq q) n' l), <- (from_from (next_seq q) n' l') by lia; unfold from in *; by rewrite H).
    rewrite E, from_all by (eapply Forall_impl; [exact Hgt |]; cbn; intros; lia).
    rewrite <- (Hcov' _ _ (Hct Hf)), <- Hw, <- (from_from n' (n' + 1)) by lia.
    rewrite from_all; [done |]. apply Forall_forall. intros x Hx.
    apply list_elem_of_filter in Hx as [Hge Hxin]. destruct (decide (x = n')) as [-> |]; [done | lia].
Qed.

Lemma queue_inv_read f mx ops st cap :
  queue_inv f mx ops st -> op_ok (QRead cap) -> queue_inv f mx (ops ++ [QRead cap]) (queue_do f (QRead cap) st).
Proof.
  destruct st as [[q got] failed]. intros Hinv Hok. cbn [op_ok] in Hok.
  assert (Hgrow : forall st, queue_inv f mx ops st -> queue_inv f mx (ops ++ [QRead cap]) st).
  { intros st [Ho Hm Hn Hh Hs Hz Hp Ha Hg Hr Hl Hmx Hct].
    assert (Epush : pushed (ops ++ [QRead cap]) = pushed ops) by (unfold pushed; rewrite omap_app; apply app_nil_r).
    split; try done; rewrite ?pushes_snoc; cbn [is_push]; rewrite ?Z.add_0_r, ?Epush; try done.
    - intros x Hx. apply elem_of_app. left. by apply Hp.
    - intros s Hs0. apply elem_of_app. left. by apply Ha.
    - intros Hf s [Hs0 | Hs0%list_elem_of_singleton]%elem_of_app; [by apply Hl | done]. }
  apply Hgrow. unfold queue_do, queue_poll_read.
  destruct (cap =? 0); [by rewrite app_nil_r |].
  destruct (fill_pending q) as [q' r] eqn:Ef.
  destruct (fill_pending_inv _ _ _ _ _ _ _ _ Hinv Ef) as (Hinv' & Hcl & Hres & _).
  destruct Hres as [-> | (e & -> & He)]; cbn [is_ok] in Hinv'; [| by destruct e].
  rewrite Hcl. destruct (Z.eqb_spec (zlen (pending q')) 0); cbn [negb]; [done |].
  destruct Hinv' as [Ho Hm Hn Hh Hs Hz Hp Ha Hg Hr Hl Hmx Hct]. cbn [fst snd] in *.
  split; cbn [fst snd closed max_buffered next_seq heap pending]; try done.
  by rewrite <- app_assoc, take_drop.
Qed.

Lemma run_queue_snoc f ops op q : run_queue f (ops ++ [op]) q = queue_do f op (run_queue f ops q).
Proof. unfold run_queue. by rewrite fold_left_app. Qed.

Lemma run_queue_inv f mx ops :
  0 <= mx -> Forall op_ok ops -> queue_inv f (max_buffered (queue_new mx)) ops (run_queue f ops (queue_new mx)).
Proof.
  intros Hmx. induction ops as [| op ops IH] using rev_ind; intros Hok.
  { split; cbn; try done; try lia; try (by constructor); try (by intros ? ?%elem_of_nil).
    - by intros _ ? ?%elem_of_nil.
    - destruct (mx =? 0); unfold DEFAULT_MAX_BUFFERED; lia. }
  apply Forall_app in Hok as [Hok [Hop _]%Forall_cons_iff]. specialize (IH Hok).
  rewrite run_queue_snoc. destruct op; [by apply queue_inv_push | by apply queue_inv_read].
Qed.

Lemma pushed_elem s ops : s ∈ pushed ops <-> QPush s ∈ ops.
Proof.
  unfold pushed. rewrite list_elem_of_omap. split.
  - intros (op & Hin & Hop). destruct op; [by injection Hop as -> | done].
  - intros H. by exists (QPush s).
Qed.

(** A refill stops at the first number that has not arrived, and fails when too many are waiting behind it. *)
Lemma fill_to_gap f mx ops q got n q' r :
  queue_inv f mx ops (q, got, false) -> (forall s, 0 <= s < n -> QPush s ∈ ops) -> QPush n ∉ ops -> 0 <= n ->
  fill_pending q = (q', r) ->
  next_seq q' = n
  /\ ((r = Ok tt /\ ahead n ops <= mx)
      \/ (r = Err ReorderExceeded /\ mx < ahead n ops /\ exists s, n < s /\ QPush s ∈ ops /\ s :: numbers (heap q') ≡ₚ filter (fun x => n < x) (pushed ops))).
Proof.
  intros [Ho Hm Hn Hh Hs _ Hp Ha _ _ Hl Hmx Hct] Hall Hgap Hn0 E. cbn [fst snd] in *. unfold fill_pending in E. rewrite Ho, Hm in E.
  destruct (fill_loop false mx (next_seq q) (pending q) (heap q)) as [[[n' p'] h'] r'] eqn:El. injection E as <- <-. cbn [next_seq heap].
  destruct (fill_loop_ok f _ _ _ _ _ _ _ _ Hh Hs Hn El) as (Hn' & _ & _ & _ & _ & Hcov & _).
  destruct (fill_loop_left f _ _ _ _ _ _ _ _ Hh Hs Hn Hmx El) as (w & Hw & Hno & Hgt & Hres).
  assert (n' = n) as ->.
  { destruct (Z.lt_trichotomy n' n) as [Hlt | [? | Hlt]]; [| done |]; exfalso.
    - destruct (Hl eq_refl n') as [H | H]; [apply Hall; lia | lia |]. apply Hno, list_elem_of_fmap. by exists (n', f n').
    - apply Hgap. destruct (decide (n < next_seq q)); [apply Ha; lia |]. apply (Hp (n, f n)), Hcov. lia. }
  assert (Hw' : w ≡ₚ filter (fun x => n < x) (pushed ops)).
  { rewrite <- Hw, <- (from_from (next_seq q) (n + 1)) by lia. unfold from at 1. rewrite (Hct eq_refl). fold (from (n + 1) (from (next_seq q) (pushed ops))).
    rewrite from_from by lia. unfold from. rewrite (list_filter_iff (fun x => n + 1 <= x) (fun x => n < x)); [done |]. intros x. lia. }
  assert (Ha' : ahead n ops = zlen w) by (unfold ahead, zlen; by rewrite Hw'). split; [done |]. rewrite Ha'.
  destruct Hres as [(-> & Hle & _) | (-> & Hlt & s & ->)]; [by left | right]. split_and!; [done | done |]. exists s.
  apply Forall_cons_iff in Hgt as [Hgt _]. split_and!; [done | | done].
  assert (Hin : s ∈ filter (fun x => n < x) (pushed ops)) by (rewrite <- Hw'; apply list_elem_of_here).
  apply list_elem_of_filter in Hin as [_ Hin]. by apply pushed_elem.
Qed.

(** Unless too many requests are waiting, a read gives everything up to the first missing one. *)
Lemma read_to_gap f mx ops q got n cap :
  queue_inv f mx ops (q, got, false) -> ahead n ops <= mx -> 0 <= n ->
  (forall s, 0 <= s < n -> QPush s ∈ ops) -> QPush n ∉ ops -> 1 <= cap -> zlen (upload f n) <= cap ->
  exists q' out, queue_poll_read cap q = (q', if zlen out =? 0 then Pending else Ready out)
    /\ got ++ out = upload f n.
Proof.
  intros Hinv Hroom Hn Hall Hgap Hcap Hlen. unfold queue_poll_read. rewrite (proj2 (Z.eqb_neq cap 0)) by lia.
  destruct (fill_pending q) as [q' r] eqn:Ef.
  destruct (fill_pending_inv _ _ _ _ _ _ _ _ Hinv Ef) as (Hinv' & Hcl & _ & _).
  destruct (fill_to_gap _ _ _ _ _ _ _ _ Hinv Hall Hgap Hn Ef) as [Hnext [[-> _] | (_ & Hx & _)]]; [| lia].
  cbn [is_ok] in Hinv'. rewrite Hcl.
  pose proof (qi_got _ _ _ _ Hinv') as Hg. cbn [fst snd] in Hg. rewrite Hnext in Hg.
  assert (Hp : zlen (pending q') <= cap) by (rewrite <- Hg, zlen_app in Hlen; pose proof (zlen_nonneg got); lia).
  destruct (Z.eqb_spec (zlen (pending q')) 0) as [Hz | Hz]; cbn [negb].
  - exists q', (pending q'). by rewrite Hz.
  - eexists _, (pending q'). rewrite Z.min_r by done. rewrite (proj2 (Z.eqb_neq _ 0)) by done.
    unfold zlen. by rewrite Nat2Z.id, firstn_all.
Qed.

Lemma ahead_pushes n ops : ahead n ops <= pushes ops.
Proof.
  unfold ahead, pushes, zlen. induction ops as [| op ops IH]; [done |].
  unfold pushed in *. destruct op as [s |]; cbn [omap list_omap List.filter is_push]; [| done].
  rewrite filter_cons. destruct (decide (n < s)); cbn [length]; lia.
Qed.

(** ** The lock *)

(** With the lock free a poll is the one above; but the lock is asked for twice, and when another task takes it in between the
    second attempt panics. *)
Theorem queue_lock_race (views : list (bool * bool)) (wakes : nat) (cap : Z) (q : QueueState) :
  cap <> 0 ->
  queue_poll_read_shared ((false, false) :: views) 0 cap q = ((queue_poll_read cap q).1, Ok (queue_poll_read cap q).2)
  /\ queue_poll_read_shared ((false, true) :: views) wakes cap q = (q, Panic).
Proof.
  intros Hc. cbn [queue_poll_read_shared]. rewrite (proj2 (Z.eqb_neq _ _)) by done. split; [| done].
  by destruct (queue_poll_read cap q) as [q' []].
Qed.

Lemma queue_lock_race_witness : queue_poll_read_shared [(false, true)] 0 9 (queue_new 0) = (queue_new 0, Panic).
Proof. apply (queue_lock_race [] 0 9 (queue_new 0)). done. Defined.

(** ** A request that was dropped *)

(** The queue waits for the number [s], which is not on the heap. *)
Definition misses (s : Z) (st : QueueState * bytes * bool) : Prop := next_seq st.1.1 <= s /\ s ∉ numbers (heap st.1.1).

Lemma misses_step f mx s ops op st :
  queue_inv f mx ops st -> op_ok op -> op <> QPush s -> misses s st -> misses s (queue_do f op st).
Proof.
  destruct st as [[q got] failed]. intros Hinv Hok Hop [Hle Hno]. unfold misses in *. cbn [fst] in *. destruct op as [x | cap]; cbn [queue_do].
  - unfold push. pose proof (qi_open _ _ _ _ Hinv) as Ho. cbn [fst] in Ho. rewrite Ho. cbn [fst next_seq heap up_seq up_payload]. split; [done |]. unfold numbers. rewrite heap_push_perm.
    intros [E | Hin]%elem_of_cons; [cbn in E; congruence | done].
  - unfold queue_poll_read. destruct (cap =? 0); [done |]. destruct (fill_pending q) as [q' r] eqn:Ef.
    assert (Hq : next_seq q' <= s /\ s ∉ numbers (heap q')).
    { destruct Hinv as [Ho Hm Hn Hh Hs _ _ _ _ _ _ _ _]. cbn [fst snd] in *. unfold fill_pending in Ef. rewrite Ho in Ef.
      destruct (fill_loop _ _ _ _ _) as [[[n' p'] h'] r'] eqn:El. injection Ef as <- <-. cbn [next_seq heap].
      destruct (fill_loop_ok f _ _ _ _ _ _ _ _ Hh Hs Hn El) as (Hn' & _ & _ & _ & Hin & Hcov & _). split.
      - destruct (Z.le_gt_cases n' s) as [| Hgt]; [done | exfalso]. apply Hno, list_elem_of_fmap. exists (s, f s). split; [done |]. apply Hcov. lia.
      - intros (x & -> & Hx)%list_elem_of_fmap. apply Hno, list_elem_of_fmap. exists x. split; [done |]. by apply Hin. }
    destruct r as [[] | [] | |]; repeat case_match; simplify_eq; exact Hq.
Qed.

Lemma misses_run f mx s ops more :
  0 <= mx -> Forall op_ok (ops ++ more) -> QPush s ∉ more -> misses s (run_queue f ops (queue_new mx)) ->
  misses s (run_queue f (ops ++ more) (queue_new mx)).
Proof.
  intros Hmx. induction more as [| op more IH] using rev_ind; intros Hok Hno Hm; [by rewrite app_nil_r |].
  rewrite app_assoc in Hok |- *. apply Forall_app in Hok as [Hok [Hop _]%Forall_cons_iff]. rewrite run_queue_snoc.
  apply (misses_step f (max_buffered (queue_new mx)) s (ops ++ more)); [by apply run_queue_inv | done | |].
  - intros ->. apply Hno, elem_of_app. right. apply list_elem_of_here.
  - apply IH; [done | | done]. intros Hin. apply Hno, elem_of_app. by left.
Qed.

Lemma upload_prefix f n m : 0 <= n <= m -> upload f n `prefix_of` upload f m.
Proof.
  intros H. unfold upload. replace m with (n + (m - n)) by lia. rewrite seqZ_app by lia. rewrite fmap_app, concat_app. by apply prefix_app_r.
Qed.

(** C17. The upload queue puts the requests of a session in order.  Whatever the order in
    which they arrive, repeated ones included, and whatever reads happen in between: what is
    read is always the start of the payloads put together by sequence number, taken only from
    requests that have arrived.  While no read has failed, one more read gives everything up
    to the first missing request if no more requests than the limit are waiting behind it; if
    more are waiting the read fails, and drops one of them: without repeated requests, nothing
    from that one on is ever read, unless it arrives again.  No read fails while no more
    requests have arrived than the limit. *)
Theorem upload_queue_in_order (f : Z -> bytes) (mx n cap : Z) (ops : list QueueOp) :
  0 <= mx -> Forall op_ok ops ->
  let '(q, got, failed) := run_queue f ops (queue_new mx) in
  let limit := max_buffered (queue_new mx) in
  (exists m, 0 <= m /\ got `prefix_of` upload f m /\ forall s, 0 <= s < m -> QPush s ∈ ops)
  /\ (pushes ops <= limit -> failed = false)
  /\ (failed = false -> 0 <= n -> (forall s, 0 <= s < n -> QPush s ∈ ops) -> QPush n ∉ ops -> 1 <= cap -> zlen (upload f n) <= cap ->
      if ahead n ops <=? limit
      then exists q', run_queue f (ops ++ [QRead cap]) (queue_new mx) = (q', upload f n, false)
      else exists q' s, run_queue f (ops ++ [QRead cap]) (queue_new mx) = (q', got, true) /\ n < s /\ QPush s ∈ ops
           /\ (NoDup (pushed ops) -> forall more, Forall op_ok more -> QPush s ∉ more ->
                (run_queue f ((ops ++ [QRead cap]) ++ more) (queue_new mx)).1.2 `prefix_of` upload f s)).
Proof.
  intros Hmx Hok. pose proof (run_queue_inv f mx ops Hmx Hok) as Hinv.
  assert (Hok' : op_ok (QRead cap) \/ cap < 0) by (cbn; lia).
  pose proof (run_queue_snoc f ops (QRead cap) (queue_new mx)) as Esnoc.
  destruct (run_queue f ops (queue_new mx)) as [[q got] failed]. split; [| split].
  { destruct Hinv as [_ _ Hn _ _ _ _ Ha Hg _ _]. cbn [fst snd] in *.
    exists (next_seq q). split_and!; [lia | | done]. exists (pending q). by rewrite Hg. }
  { apply Hinv. }
  intros -> Hn Hall Hgap Hcap Hlen. destruct (Z.leb_spec (ahead n ops) (max_buffered (queue_new mx))) as [Hroom | Hfull].
  - destruct (read_to_gap _ _ _ _ _ n cap Hinv Hroom Hn Hall Hgap Hcap Hlen) as (q' & out & E & Hg).
    exists q'. rewrite Esnoc. cbn [queue_do]. rewrite E, <- Hg.
    destruct (Z.eqb_spec (zlen out) 0) as [Hz | _]; [| done].
    rewrite (nil_length_inv out) by (unfold zlen in Hz; lia). by rewrite app_nil_r.
  - destruct (fill_pending q) as [q' r] eqn:Ef.
    destruct (fill_to_gap _ _ _ _ _ _ _ _ Hinv Hall Hgap Hn Ef) as [Hnext [[_ Hx] | (-> & _ & s & Hs & Hin & Hperm)]]; [lia |].
    assert (E : run_queue f (ops ++ [QRead cap]) (queue_new mx) = (q', got, true)).
    { rewrite Esnoc. cbn [queue_do]. unfold queue_poll_read. by rewrite (proj2 (Z.eqb_neq cap 0)), Ef by lia. }
    exists q', s. split_and!; [done | done | done |]. intros Hnd more Hmore Hnot.
    assert (Hall' : Forall op_ok ((ops ++ [QRead cap]) ++ more)) by (rewrite !Forall_app; split_and!; [done | repeat constructor; cbn; lia | done]).
    destruct (misses_run f mx s (ops ++ [QRead cap]) more Hmx Hall' Hnot) as [Hle _].
    { rewrite E. split; cbn [fst]; [lia |]. apply (NoDup_filter (fun x => n < x)) in Hnd. rewrite <- Hperm in Hnd. by apply NoDup_cons in Hnd as [? _]. }
    pose proof (run_queue_inv f mx _ Hmx Hall') as Hinv2. destruct (run_queue f (_ ++ more) (queue_new mx)) as [[q2 got2] failed2]. cbn [fst snd] in *.
    destruct Hinv2 as [_ _ Hn2 _ _ _ _ _ Hg2 _ _]. cbn [fst snd] in *.
    transitivity (upload f (next_seq q2)); [exists (pending q2); by rewrite Hg2 | apply upload_prefix; lia].
Qed.

(** Requests out of order within the limit, and one more than a limit of one. *)
Lemma upload_queue_in_order_witness :
  let f := fun s => [65 + s] in
  (exists q', run_queue f ([QPush 2; QRead 9; QPush 0; QPush 0; QRead 9; QPush 1] ++ [QRead 9]) (queue_new 0) = (q', upload f 3, false))
  /\ exists q' s, run_queue f ([QPush 0; QPush 2; QPush 3] ++ [QRead 9]) (queue_new 1) = (q', [], true) /\ 1 < s.
Proof.
  intros f. split.
  - pose proof (upload_queue_in_order f 0 3 9 [QPush 2; QRead 9; QPush 0; QPush 0; QRead 9; QPush 1] ltac:(lia) ltac:(by decided)) as H.
    destruct (run_queue f _ (queue_new 0)) as [[q got] failed] eqn:E. destruct H as (_ & Hfail & H). apply H; [apply Hfail; decided | lia | | decided | lia | decided].
    intros s Hs. assert (s = 0 \/ s = 1 \/ s = 2) as [-> | [-> | ->]] by lia; decided.
  - pose proof (upload_queue_in_order f 1 1 9 [QPush 0; QPush 2; QPush 3] ltac:(lia) ltac:(by decided)) as H.
    destruct (run_queue f _ (queue_new 1)) as [[q got] failed] eqn:E. vm_compute in E. injection E as <- <- <-.
    destruct H as (_ & _ & H). destruct H as (q' & s & H & Hs & _); [done | lia | | decided | lia | decided | by exists q', s].
    intros s Hs. assert (s = 0) as -> by lia. decided.
Defined.
