(* ===== verification/SplitHttpAccept.v ===== *)
(** The HTTP requests of SplitHTTP ([splithttp.rs], [splithttp_packet_up.rs]): settings,
    paths and headers, the client handshake, the server handshake over HTTP/1.1, the table
    of packet-up sessions and the handling of one request of an HTTP/2 connection.

    A connection is a duplex byte stream; the queues of the sessions are in a store, because
    the table and the readers share them. *)

From stdpp Require Import base list sets strings numbers gmap.
From S2P Require Import Prelude Text Address Streams Socks SplitHttp.

(** * Settings *)

(** What [x_padding_bytes], a JSON value, can be for the code. *)
Inductive PaddingValue :=
| PadNumber (n : Z)
| PadText (s : bytes)
| PadObject (fields : gmap bytes Z)
| PadOther.

(** The settings the transport reads; the iteration order of the map of headers is that of
    the list. *)
Record SplitHttpConfig := mkConfig {
  cfg_path : bytes;
  cfg_host : list bytes;
  cfg_method : bytes;
  cfg_mode : bytes;
  uplink_http_method : bytes;
  cfg_headers : list (bytes * bytes);
  x_padding_bytes : option PaddingValue;
  x_padding_method : bytes;
  x_padding_header_name : bytes;
}.

Inductive SplitHttpMode := StreamOne | PacketUp | OtherMode.

#[global] Instance SplitHttpMode_eq_dec : EqDecision SplitHttpMode.
Proof. solve_decision. Defined.

Definition normalize_splithttp_mode (mode : bytes) : SplitHttpMode :=
  let m := to_ascii_lowercase (trim mode) in
  if bytes_eqb m [] || bytes_eqb m (lit "stream-one") then StreamOne
  else if bytes_eqb m (lit "packet-up") then PacketUp
  else OtherMode.

Definition uplink_method (cfg : SplitHttpConfig) (mode : SplitHttpMode) : bytes :=
  if negb (zlen (uplink_http_method cfg) =? 0) then uplink_http_method cfg
  else if negb (zlen (cfg_method cfg) =? 0) then cfg_method cfg
  else if bool_decide (mode = StreamOne) then lit "POST"
  else lit "PUT".

(** The settings when none are configured; [ws_path] is the path of the WebSocket
    settings, if there are any. *)
Definition split_http_config (splithttp_settings : option SplitHttpConfig) (ws_path : option bytes)
  : SplitHttpConfig :=
  match splithttp_settings with
  | Some cfg => cfg
  | None => mkConfig (default (lit "/") ws_path) [] (lit "PUT") [] [] [] None [] []
  end.

Definition splithttp_listen_params (splithttp_settings : option SplitHttpConfig) (ws_path : option bytes)
  : option bytes * option bytes * SplitHttpMode :=
  let cfg := split_http_config splithttp_settings ws_path in
  let mode := normalize_splithttp_mode (cfg_mode cfg) in
  let method := if zlen (cfg_method cfg) =? 0 then None else Some (cfg_method cfg) in
  (Some (cfg_path cfg), method, mode).

(** [split(['-', ','])], the first piece. *)
Fixpoint before_dash (s : bytes) : bytes :=
  match s with
  | [] => []
  | b :: s => if (b =? 45) || (b =? 44) then [] else b :: before_dash s
  end.

Definition x_padding_len (value : option PaddingValue) : option Z :=
  match value with
  | None => None
  | Some (PadNumber n) => Some (Z.min n 4096)
  | Some (PadText s) =>
      match parse_u64 (trim (before_dash s)) with
      | Some first => Some (Z.min first 4096)
      | None => None
      end
  | Some (PadObject fields) =>
      match List.find (fun k => match fields !! k with Some _ => true | None => false end)
              (lit <$> ["from"; "min"; "Min"; "minLength"]) with
      | Some k => (fun n => Z.min n 4096) <$> fields !! k
      | None => None
      end
  | Some PadOther => None
  end.

Definition x_padding_header (cfg : SplitHttpConfig) : option (bytes * bytes) :=
  match x_padding_len (x_padding_bytes cfg) with
  | None => None
  | Some len =>
      if len =? 0 then None
      else
        let key := if zlen (x_padding_header_name cfg) =? 0 then lit "X-Padding" else x_padding_header_name cfg in
        let c := if bytes_eqb (x_padding_method cfg) (lit "tokenish") then 65 else 88 in
        Some (key, replicate (Z.to_nat len) c)
  end.

(** * Paths *)

(** [trim_end_matches('/')] and [trim_start_matches('/')]. *)
Fixpoint trim_start_slash (s : bytes) : bytes :=
  match s with
  | b :: s' => if b =? 47 then trim_start_slash s' else s
  | [] => []
  end.

Definition trim_end_slash (s : bytes) : bytes := reverse (trim_start_slash (reverse s)).

Definition starts_with (s : bytes) (k : bytes) : bool := is_prefix k s.

Definition ends_with_slash (s : bytes) : bool := match reverse s with b :: _ => b =? 47 | [] => false end.

Definition normalized_path_prefix (path : bytes) : bytes :=
  let path := before_sep 63 path in
  let p := if starts_with path (lit "/") then path else lit "/" ++ path in
  if ends_with_slash p then p else p ++ lit "/".

(** The pairs of the query can only fill in what the path does not give. *)
Definition query_pair (acc : bytes * bytes) (pair : bytes) : bytes * bytes :=
  let '(session, seq) := acc in
  match split_once 61 pair with
  | None => acc
  | Some (k, v) =>
      let session := if bytes_eqb k (lit "x_session") && (zlen session =? 0) then v else session in
      let seq := if bytes_eqb k (lit "x_seq") && (zlen seq =? 0) then v else seq in
      (session, seq)
  end.

Definition non_empty_parts (c : Z) (s : bytes) : list bytes :=
  List.filter (fun p => negb (zlen p =? 0)) (split_on c s).

Definition extract_session_seq (path_and_query base_path : bytes) : bytes * bytes :=
  let '(path_only, query) := default (path_and_query, []) (split_once 63 path_and_query) in
  let prefix := normalized_path_prefix base_path in
  let rest := trim_start_slash (default path_only (strip_prefix (trim_end_slash prefix) path_only)) in
  let parts := non_empty_parts 47 rest in
  let session := default [] (parts !! 0%nat) in
  let seq := default [] (parts !! 1%nat) in
  fold_left query_pair (non_empty_parts 38 query) (session, seq).

(** * Headers *)

Definition MAX_HEADER_BYTES : Z := 16384.

(** Byte by byte up to the empty line; [acc] is [buf] reversed. *)
Fixpoint read_headers_loop (fuel : nat) (acc : bytes) : parser ProxyError bytes := fun s =>
  match fuel with
  | O => Err (Protocol "SplitHTTP headers too large")
  | S fuel =>
      match s with
      | [] => Err (Protocol "SplitHTTP unexpected EOF while reading headers")
      | b :: s =>
          let acc := b :: acc in
          if is_prefix [LF; CR; LF; CR] acc then
            if utf8_valid (reverse acc) then Ok (reverse acc, s)
            else Err (Protocol "SplitHTTP headers not valid UTF-8")
          else read_headers_loop fuel acc s
      end
  end.

Definition read_headers : parser ProxyError bytes := read_headers_loop (Z.to_nat MAX_HEADER_BYTES) [].

(** The header lines up to the first empty one; a later header replaces an earlier one. *)
Fixpoint header_map (ls : list bytes) (m : gmap bytes bytes) : gmap bytes bytes :=
  match ls with
  | [] => m
  | line :: ls =>
      if zlen line =? 0 then m
      else
        match split_once 58 line with
        | Some (k, v) => header_map ls (<[to_ascii_lowercase (trim k) := trim v]> m)
        | None => header_map ls m
        end
  end.

Definition parse_http_headers (request : bytes) : gmap bytes bytes := header_map (drop 1 (lines request)) ∅.

Definition eq_ignore_ascii_case (a b : bytes) : bool :=
  bytes_eqb (to_ascii_lowercase a) (to_ascii_lowercase b).

(** The rest of the stream seen by the chunked reader. *)
Definition as_events (s : bytes) : list PollEvent := match s with [] => [] | _ => [PData s] end.

Definition read_request_body (request : bytes) : parser ProxyError bytes := fun s =>
  let headers := parse_http_headers request in
  if match headers !! lit "transfer-encoding" with
     | Some v => eq_ignore_ascii_case v (lit "chunked")
     | None => false
     end
  then
    '(body, st) ← read_to_end (S (length s)) (stream_new (as_events s)) [];
    Ok (body, incoming (inner st))
  else
    match headers !! lit "content-length" with
    | Some clen =>
        match parse_u64 clen with
        | None => Err (Protocol "SplitHTTP invalid Content-Length")
        | Some n => read_exact n s
        end
    | None => Ok ([], s)
    end.

(** * The client handshake *)

Definition header_line (kv : bytes * bytes) : bytes := kv.1 ++ lit ": " ++ kv.2 ++ [CR; LF].

Definition connect_request (authority : bytes) (cfg : SplitHttpConfig) : bytes :=
  let mode := normalize_splithttp_mode (cfg_mode cfg) in
  let method := uplink_method cfg mode in
  let host := default authority (head (cfg_host cfg)) in
  method ++ [32] ++ cfg_path cfg ++ lit " HTTP/1.1" ++ [CR; LF] ++ lit "Host: " ++ host
  ++ [CR; LF] ++ lit "Connection: keep-alive" ++ [CR; LF] ++ lit "Transfer-Encoding: chunked" ++ [CR; LF]
  ++ concat (header_line <$> cfg_headers cfg)
  ++ match x_padding_header cfg with Some kv => header_line kv | None => [] end
  ++ [CR; LF].

Definition splithttp_connect (authority : bytes) (settings : option SplitHttpConfig) (ws_path : option bytes)
  : duplexM unit :=
  let cfg := split_http_config settings ws_path in
  _ ← write_all (connect_request authority cfg);
  response ← recv read_headers;
  let status := default [] (head (lines response)) in
  if negb (starts_with status (lit "HTTP/1.1 200")) && negb (starts_with status (lit "HTTP/1.0 200"))
  then st_fail (Protocol "SplitHTTP expected 200 response")
  else mret tt.

(** * Sessions *)

(** [PACKET_UP_SESSIONS] with the queues behind its [Arc]s. *)
Record Sessions := mkSessions {
  session_table : gmap bytes Z;
  queues : gmap Z QueueState;
  next_queue : Z;
}.

Definition sessions_empty : Sessions := mkSessions ∅ ∅ 0.

Definition upsert_packet_up_session (session_id : bytes) (w : Sessions) : Sessions * Z :=
  match session_table w !! session_id with
  | Some q => (w, q)
  | None =>
      (mkSessions (<[session_id := next_queue w]> (session_table w))
         (<[next_queue w := queue_new 64]> (queues w)) (next_queue w + 1), next_queue w)
  end.

Definition remove_packet_up_session (session_id : bytes) (w : Sessions) : Sessions :=
  mkSessions (delete session_id (session_table w)) (queues w) (next_queue w).

(** An operation on the queue with the given handle. *)
Definition on_queue (id : Z) (m : stE QueueState QueueError unit) (w : Sessions)
  : Sessions * res QueueError unit :=
  match queues w !! id with
  | Some q => let '(q', r) := m q in
              (mkSessions (session_table w) (<[id := q']> (queues w)) (next_queue w), r)
  | None => (w, Panic)
  end.

(** * The server handshake over HTTP/1.1 *)

Inductive SplitHttpAcceptResult :=
| TunnelChunked
| TunnelQueue (queue : Z)
| UploadOnly
| Preflight
| ToHttp2 (managed : bool).

(** The connection and the sessions of the process. *)
Abbreviation acceptM := (stE (Duplex * Sessions) ProxyError).

Definition on_conn {A} (m : duplexM A) : acceptM A := fun st =>
  let '(d, r) := m st.1 in ((d, st.2), r).

Definition on_sessions {A} (f : Sessions -> Sessions * A) : acceptM A := fun st =>
  let '(w, a) := f st.2 in ((st.1, w), Ok a).

Definition queue_op (id : Z) (m : stE QueueState QueueError unit) (msg : string) : acceptM unit := fun st =>
  let '(w, r) := on_queue id m st.2 in ((st.1, w), map_err (fun _ => Protocol msg) r).

Definition crlfs (ls : list string) : bytes := concat ((fun l => lit l ++ [CR; LF]) <$> ls).

Definition preflight_response : bytes :=
  crlfs ["HTTP/1.1 200 OK"; "Connection: keep-alive"; "Content-Length: 0"; EmptyString].
Definition packet_up_preflight : bytes :=
  crlfs ["HTTP/1.1 200 OK"; "Connection: keep-alive"; "Access-Control-Allow-Origin: *";
         "Content-Length: 0"; EmptyString].
Definition upload_response : bytes :=
  crlfs ["HTTP/1.1 200 OK"; "Connection: keep-alive"; "Cache-Control: no-store"; "Content-Length: 0"; EmptyString].
Definition download_response : bytes :=
  crlfs ["HTTP/1.1 200 OK"; "Connection: keep-alive"; "Cache-Control: no-store"; "X-Accel-Buffering: no";
         "Content-Type: text/event-stream"; "Transfer-Encoding: chunked"; EmptyString].
Definition stream_one_response : bytes :=
  crlfs ["HTTP/1.1 200 OK"; "Connection: keep-alive"; "X-Accel-Buffering: no"; "Cache-Control: no-store";
         "Content-Type: text/event-stream"; "Transfer-Encoding: chunked"; EmptyString].

Definition packet_up_accept (expected_path : option bytes) (method request : bytes)
  : acceptM SplitHttpAcceptResult :=
  let base := default (lit "/") expected_path in
  let path_and_query :=
    default (lit "/") (match lines request with
                       | l :: _ => split_whitespace l !! 1%nat
                       | [] => None
                       end) in
  let prefix := normalized_path_prefix base in
  if negb (starts_with path_and_query (trim_end_slash prefix)) then st_fail (Protocol "SplitHTTP path mismatch")
  else
    let '(session, seq) := extract_session_seq path_and_query base in
    if eq_ignore_ascii_case method (lit "OPTIONS") then
      _ ← on_conn (write_all packet_up_preflight);
      mret Preflight
    else if eq_ignore_ascii_case method (lit "POST") then
      if zlen session =? 0 then st_fail (Protocol "packet-up POST requires session id in path")
      else
        match parse_u64 seq with
        | None => st_fail (Protocol "packet-up invalid seq")
        | Some seq_num =>
            body ← on_conn (recv (read_request_body request));
            queue ← on_sessions (upsert_packet_up_session session);
            _ ← queue_op queue (push (mkPacket seq_num body)) "packet-up push";
            _ ← on_conn (write_all upload_response);
            mret UploadOnly
        end
    else if eq_ignore_ascii_case method (lit "GET") then
      if zlen session =? 0 then st_fail (Protocol "packet-up GET requires session id in path")
      else
        queue ← on_sessions (upsert_packet_up_session session);
        _ ← on_conn (write_all download_response);
        _ ← queue_op queue take_reader "packet-up reader";
        mret (TunnelQueue queue)
    else st_fail (Protocol "SplitHTTP packet-up: unsupported method").

(** [PrependStream]: the peeked bytes in front of the rest of the stream. *)
Definition prepend (bs : bytes) : duplexM unit :=
  st_modify (fun d => mkDuplex (bs ++ input d) (output d)).

Definition method_allowed (expected_method : option bytes) (method : bytes) : bool :=
  match expected_method with
  | Some m => eq_ignore_ascii_case method m
  | None => eq_ignore_ascii_case method (lit "POST") || eq_ignore_ascii_case method (lit "GET")
            || eq_ignore_ascii_case method (lit "PUT")
  end.

(** The path of the request, up to its query, is the configured one or a star. *)
Definition path_matches (expected_path : option bytes) (path : bytes) : bool :=
  match expected_path with
  | Some expected => let got := before_sep 63 path in bytes_eqb got expected || bytes_eqb got (lit "*")
  | None => true
  end.

(** [has_tunnel_handler]: whether the caller gave the callback for HTTP/2 sessions.  In
    packet-up mode the branch after the path test is not reached, so a request there is
    always one of stream-one. *)
Definition splithttp_accept (expected_path expected_method : option bytes) (mode : SplitHttpMode)
    (has_tunnel_handler : bool) : acceptM SplitHttpAcceptResult :=
  peek ← on_conn (recv (read_exact 3));
  _ ← on_conn (prepend peek);
  if bytes_eqb peek (lit "PRI") then
    if bool_decide (mode = PacketUp) then
      if has_tunnel_handler then mret (ToHttp2 true)
      else st_fail (Protocol "xHTTP h2 packet-up requires a per-session tunnel handler")
    else mret (ToHttp2 false)
  else
    request ← on_conn (recv read_headers);
    match lines request with
    | [] => st_fail (Protocol "SplitHTTP missing request line")
    | first :: _ =>
        let parts := split_whitespace first in
        let method := default [] (parts !! 0%nat) in
        let path := default [] (parts !! 1%nat) in
        if eq_ignore_ascii_case method (lit "OPTIONS") then
          _ ← on_conn (write_all preflight_response);
          mret Preflight
        else if bool_decide (mode = PacketUp) then packet_up_accept expected_path method request
        else if negb (path_matches expected_path path) then st_fail (Protocol "SplitHTTP path mismatch")
        else if negb (method_allowed expected_method method) then
          st_fail (Protocol "SplitHTTP stream-one method not allowed")
        else
          _ ← on_conn (write_all stream_one_response);
          mret TunnelChunked
    end.

(** * A request of an HTTP/2 connection in packet-up mode *)

(** One turn of the loop of [splithttp_accept_h2_packet_up]: the sessions this connection
    serves downloads for, the response status and, for a download, the queue of the tunnel.
    [body] is the whole body of the request, none when reading it failed. *)
Definition h2_packet_up_request (base : bytes) (method path : bytes) (body : option bytes)
    (downloads : gset bytes) (w : Sessions) : Sessions * gset bytes * res QueueError (Z * option Z) :=
  let prefix := trim_end_slash (normalized_path_prefix base) in
  let answer w status := (w, downloads, Ok (status, None)) in
  if negb (starts_with path prefix) then answer w 404
  else
    let '(session, seq) := extract_session_seq path base in
    if eq_ignore_ascii_case method (lit "OPTIONS") then answer w 200
    else if eq_ignore_ascii_case method (lit "POST") then
      if zlen session =? 0 then answer w 400
      else
        match parse_u64 seq with
        | None => answer w 400
        | Some seq_num =>
            let '(w, queue) := upsert_packet_up_session session w in
            match body with
            | None => answer w 502
            | Some payload =>
                match on_queue queue (push (mkPacket seq_num payload)) w with
                | (w, Ok _) => answer w 200
                | (w, Err _) => answer w 503
                | (w, Panic) => (w, downloads, Panic)
                | (w, NoFuel) => (w, downloads, NoFuel)
                end
            end
        end
    else if eq_ignore_ascii_case method (lit "GET") then
      if zlen session =? 0 then answer w 400
      else if bool_decide (session ∈ downloads) then answer w 409
      else
        let downloads := {[session]} ∪ downloads in
        let '(w, queue) := upsert_packet_up_session session w in
        match on_queue queue take_reader w with
        | (w, Ok _) => (w, downloads, Ok (200, Some queue))
        | (w, Err e) => (w, downloads, Err e)
        | (w, Panic) => (w, downloads, Panic)
        | (w, NoFuel) => (w, downloads, NoFuel)
        end
    else answer w 405.

(** The end of a download over HTTP/2 takes the session off the table. *)
Definition h2_download_end (session : bytes) (w : Sessions) : Sessions := remove_packet_up_session session w.

(** * Text of the requests *)

(** Printable text: no control characters. *)
Definition printable (s : bytes) : Prop := Forall (fun b => 32 <= b <= 126) s.

#[global] Instance printable_dec s : Decision (printable s).
Proof. unfold printable. apply _. Defined.

Lemma graphic_printable s : graphic s -> printable s.
Proof. intros Hs. eapply Forall_impl; [exact Hs |]. cbv beta. lia. Qed.

Lemma printable_app a b : printable a -> printable b -> printable (a ++ b).
Proof. intros. by apply Forall_app. Qed.

Lemma printable_cons b s : 32 <= b <= 126 -> printable s -> printable (b :: s).
Proof. by constructor. Qed.

Lemma graphic_app a b : graphic a -> graphic b -> graphic (a ++ b).
Proof. intros. by apply Forall_app. Qed.

Lemma number_graphic n : 0 <= n -> graphic (u64_to_string n).
Proof. intros Hn. eapply Forall_impl; [by apply u64_to_string_chars |]. cbv beta. lia. Qed.

(** Membership of a text in a class of characters, part by part. *)
Ltac chars :=
  lazymatch goal with
  | |- graphic (lit _) => decided
  | |- printable (lit _) => decided
  | |- graphic (_ ++ _) => apply graphic_app; chars
  | |- printable (_ ++ _) => apply printable_app; chars
  | |- printable (_ :: _) => apply printable_cons; [lia | chars]
  | |- graphic (u64_to_string _) => apply number_graphic; lia
  | |- graphic _ => assumption
  | |- printable _ => first [assumption | apply graphic_printable; chars]
  end.

Lemma not_in_class {P : Z -> Prop} s c : Forall P s -> ~ P c -> c ∉ s.
Proof. intros Hs Hc Hin. eapply Forall_forall in Hs; [| exact Hin]. done. Qed.

Lemma printable_no_lf s : printable s -> LF ∉ s.
Proof. intros Hs. apply (not_in_class _ _ Hs). unfold LF. lia. Qed.

Lemma graphic_not c s : graphic s -> ~ (33 <= c <= 126) -> c ∉ s.
Proof. intros Hs Hc. by apply (not_in_class _ _ Hs). Qed.

(** ** Reading a block of header lines *)

Lemma read_headers_text l : forall fuel acc r,
  printable l -> read_headers_loop (length l + fuel) acc (l ++ r) = read_headers_loop fuel (reverse l ++ acc) r.
Proof.
  induction l as [| b l IH]; intros fuel acc r Hl; [done |]. apply Forall_cons_iff in Hl as [Hb Hl].
  cbn [length Nat.add app read_headers_loop is_prefix].
  rewrite (proj2 (Z.eqb_neq LF b)) by (unfold LF; lia). cbn [andb].
  rewrite IH by done. by rewrite reverse_cons, <- app_assoc.
Qed.

(** A header line leads to the next one. *)
Lemma read_headers_line l fuel acc r :
  printable l -> l <> [] ->
  read_headers_loop (length (crlf_line l) + fuel) acc (crlf_line l ++ r)
  = read_headers_loop fuel (reverse (crlf_line l) ++ acc) r.
Proof.
  intros Hl Hne. unfold crlf_line. rewrite length_app, <- Nat.add_assoc, <- app_assoc.
  rewrite read_headers_text by done. rewrite reverse_app, <- app_assoc. cbn [length Nat.add app].
  destruct l as [| b l _] using rev_ind; [done |]. apply Forall_app in Hl as [_ [Hb _]%Forall_cons_iff].
  rewrite reverse_app. change (reverse [b]) with [b]. change (reverse [CR; LF]) with [LF; CR].
  cbn [app read_headers_loop is_prefix].
  rewrite (proj2 (Z.eqb_neq LF b)) by (unfold LF; lia). by rewrite andb_false_r.
Qed.

Definition header_block (ls : list bytes) : bytes := concat (crlf_line <$> ls) ++ [CR; LF].

Lemma read_headers_lines ls : forall fuel acc r,
  Forall (fun l => printable l /\ l <> []) ls ->
  read_headers_loop (length (concat (crlf_line <$> ls)) + fuel) acc (concat (crlf_line <$> ls) ++ r)
  = read_headers_loop fuel (reverse (concat (crlf_line <$> ls)) ++ acc) r.
Proof.
  induction ls as [| l ls IH]; intros fuel acc r Hls; cbn [fmap list_fmap concat]; [done |].
  apply Forall_cons_iff in Hls as [[Hl Hne] Hls]. rewrite length_app, <- Nat.add_assoc, <- app_assoc.
  rewrite read_headers_line by done. rewrite IH by done. by rewrite reverse_app, app_assoc.
Qed.

Lemma header_lines_ascii ls : Forall printable ls -> is_ascii (concat (crlf_line <$> ls)).
Proof.
  induction 1 as [| l ls Hl _ IH]; cbn [fmap list_fmap concat]; [constructor |].
  apply Forall_app. split; [| done]. apply Forall_app. split; [| repeat constructor; unfold CR, LF; lia].
  eapply Forall_impl; [exact Hl |]. cbv beta. lia.
Qed.

Lemma read_headers_block ls rest :
  ls <> [] -> Forall (fun l => printable l /\ l <> []) ls -> zlen (header_block ls) <= MAX_HEADER_BYTES ->
  read_headers (header_block ls ++ rest) = Ok (header_block ls, rest).
Proof.
  intros Hne Hls Hlen. unfold read_headers, header_block in *. rewrite zlen_app in Hlen. unfold zlen at 1 in Hlen.
  assert (Ef : exists k, Z.to_nat MAX_HEADER_BYTES = (length (concat (crlf_line <$> ls)) + S (S k))%nat).
  { exists (Z.to_nat MAX_HEADER_BYTES - length (concat (crlf_line <$> ls)) - 2)%nat.
    change (zlen [CR; LF]) with 2 in Hlen. lia. }
  destruct Ef as [k ->]. rewrite <- app_assoc, read_headers_lines by done. rewrite app_nil_r.
  destruct ls as [| l ls _] using rev_ind; [done |]. rewrite fmap_app, concat_app, reverse_app. cbn [fmap list_fmap concat].
  rewrite app_nil_r. unfold crlf_line at 1. rewrite reverse_app. change (reverse [CR; LF]) with [LF; CR].
  cbn [app read_headers_loop is_prefix]. rewrite Z.eqb_refl. cbn [andb].
  change (LF =? CR) with false. cbn [andb]. rewrite !Z.eqb_refl. cbn [andb].
  replace (reverse (LF :: CR :: LF :: CR :: reverse l ++ reverse (concat (crlf_line <$> ls))))
    with ((concat (crlf_line <$> ls) ++ crlf_line l) ++ [CR; LF]).
  2: { rewrite !reverse_cons, reverse_app, !reverse_involutive. unfold crlf_line. by rewrite <- !app_assoc. }
  rewrite utf8_valid_ascii; [done |]. apply Forall_app. split; [| repeat constructor; unfold CR, LF; lia].
  replace (concat (crlf_line <$> ls) ++ crlf_line l) with (concat (crlf_line <$> ls ++ [l]))
    by (rewrite fmap_app, concat_app; cbn; by rewrite app_nil_r).
  apply header_lines_ascii. eapply Forall_impl; [exact Hls |]. by intros x [].
Qed.

Lemma lines_block ls : Forall printable ls -> lines (header_block ls) = ls ++ [[]].
Proof.
  induction 1 as [| l ls Hl _ IH]; [done |]. unfold header_block in *. cbn [fmap list_fmap concat app].
  rewrite <- app_assoc, crlf_line_app, lines_crlf by (by apply printable_no_lf). by rewrite IH.
Qed.

(** ** Words and paths *)

Lemma split_ws_graphic w : forall fuel cur r,
  graphic w -> split_ws (length w + fuel) cur (w ++ r) = split_ws fuel (reverse w ++ cur) r.
Proof.
  induction w as [| b w IH]; intros fuel cur r Hw; [done |]. apply Forall_cons_iff in Hw as [Hb Hw].
  cbn [length Nat.add app split_ws]. rewrite ws_len_graphic by done. rewrite IH by done.
  by rewrite reverse_cons, <- app_assoc.
Qed.

Lemma split_whitespace_word w r :
  graphic w -> w <> [] -> split_whitespace (w ++ 32 :: r) = w :: split_whitespace r.
Proof.
  intros Hw Hne. unfold split_whitespace. rewrite length_app. cbn [length].
  replace (S (length w + S (length r))) with (length w + S (S (length r)))%nat by lia.
  rewrite split_ws_graphic by done. rewrite app_nil_r. cbn [split_ws].
  change (ws_len ws_chars (32 :: r)) with (Some 1%nat). cbn [drop].
  destruct (reverse w) as [| b v] eqn:E; [by apply (f_equal reverse) in E; rewrite reverse_involutive in E |].
  rewrite drop_0, <- E. by rewrite reverse_involutive.
Qed.

Lemma split_whitespace_last w : graphic w -> w <> [] -> split_whitespace w = [w].
Proof.
  intros Hw Hne. unfold split_whitespace. rewrite <- (app_nil_r w) at 2.
  replace (S (length w)) with (length w + 1)%nat by lia. rewrite split_ws_graphic by done. rewrite app_nil_r.
  cbn [split_ws].
  destruct (reverse w) as [| b v] eqn:E; [by apply (f_equal reverse) in E; rewrite reverse_involutive in E |].
  rewrite <- E. by rewrite reverse_involutive.
Qed.

Lemma split_on_none c s : c ∉ s -> split_on c s = [s].
Proof.
  induction s as [| b s IH]; intros Hs; cbn [split_on]; [done |].
  rewrite (proj2 (Z.eqb_neq b c)) by set_solver. by rewrite IH by set_solver.
Qed.

Lemma split_on_app c l r : c ∉ l -> split_on c (l ++ c :: r) = l :: split_on c r.
Proof.
  induction l as [| b l IH]; intros Hl; cbn [split_on app]; [by rewrite Z.eqb_refl |].
  rewrite (proj2 (Z.eqb_neq b c)) by set_solver. by rewrite IH by set_solver.
Qed.

Lemma is_prefix_app k s : is_prefix k (k ++ s) = true.
Proof. induction k as [| a k IH]; [by destruct s |]. cbn [app is_prefix]. by rewrite Z.eqb_refl, IH. Qed.

(** The path of a packet-up request as a client builds it. *)
Definition session_path (base session seq : bytes) : bytes :=
  trim_end_slash (normalized_path_prefix base) ++ lit "/" ++ session ++ lit "/" ++ seq.

(** A segment of a path. *)
Definition segment (s : bytes) : Prop := graphic s /\ s <> [] /\ (47 ∉ s) /\ (63 ∉ s).

#[global] Instance segment_dec s : Decision (segment s).
Proof. unfold segment. apply _. Defined.

Lemma number_segment n : 0 <= n -> segment (u64_to_string n).
Proof.
  intros Hn. pose proof (u64_to_string_chars n Hn) as Hc. split_and!.
  - by apply number_graphic.
  - apply (digits_nonempty 19).
  - apply (not_in_class _ _ Hc). lia.
  - apply (not_in_class _ _ Hc). lia.
Qed.

Lemma path_parts session seq :
  session <> [] -> 47 ∉ session -> 47 ∉ seq ->
  non_empty_parts 47 (trim_start_slash (47 :: session ++ 47 :: seq))
  = session :: (if zlen seq =? 0 then [] else [seq]).
Proof.
  intros Hs Hs47 Hq47. destruct session as [| b session]; [done |].
  cbn [app trim_start_slash]. change (47 =? 47) with true. cbn match.
  rewrite (proj2 (Z.eqb_neq b 47)) by set_solver. unfold non_empty_parts.
  change (b :: session ++ 47 :: seq) with ((b :: session) ++ 47 :: seq).
  rewrite split_on_app, split_on_none by done. by destruct seq.
Qed.

Lemma extract_session_path base session seq :
  63 ∉ trim_end_slash (normalized_path_prefix base) -> segment session -> segment seq ->
  extract_session_seq (session_path base session seq) base = (session, seq).
Proof.
  intros Hb (_ & Hs & Hs47 & Hs63) (_ & Hq & Hq47 & Hq63). unfold extract_session_seq, session_path.
  rewrite split_once_none
    by (rewrite !not_elem_of_app; split_and!; try done; decided).
  cbn [default from_option id]. unfold strip_prefix. rewrite is_prefix_app. cbn [default from_option id].
  rewrite drop_app_length. change (lit "/") with [47]. cbn [app].
  rewrite path_parts by done. destruct seq; [done |]. done.
Qed.

(** ** The body of a request *)

Lemma content_length_body ls len body rest first :
  0 <= len -> is_u 64 len -> ls = [first; lit "Content-Length: " ++ u64_to_string len] ->
  Forall printable ls -> zlen body = len ->
  read_request_body (header_block ls) (body ++ rest) = Ok (body, rest).
Proof.
  intros H0 Hu -> Hp Hb. unfold read_request_body, parse_http_headers. rewrite lines_block by done.
  cbn [app drop header_map].
  replace (zlen (lit "Content-Length: " ++ u64_to_string len) =? 0) with false
    by (symmetry; apply Z.eqb_neq; rewrite zlen_app; change (zlen (lit "Content-Length: ")) with 16; len_solve).
  change (lit "Content-Length: ") with (lit "Content-Length" ++ 58 :: [32]). rewrite <- app_assoc. cbn [app].
  rewrite split_once_app by (decided).
  rewrite trim_graphic by (by apply number_graphic).
  change (to_ascii_lowercase (trim (lit "Content-Length"))) with (lit "content-length").
  change (zlen [] =? 0) with true. cbn match.
  rewrite lookup_insert_ne by discriminate. rewrite lookup_empty. cbn match.
  rewrite lookup_insert_eq. rewrite parse_u64_to_string by done. by apply read_exact_app.
Qed.

(** ** The handshake on a well-formed request *)

Definition request_line (method path : bytes) : bytes := method ++ 32 :: path ++ 32 :: lit "HTTP/1.1".

Definition word (s : bytes) : Prop := graphic s /\ s <> [].

#[global] Instance word_dec s : Decision (word s).
Proof. unfold word. apply _. Defined.

Definition text_line (l : bytes) : Prop := printable l /\ l <> [].

#[global] Instance text_line_dec l : Decision (text_line l).
Proof. unfold text_line. apply _. Defined.

Lemma request_words m p : word m -> word p ->
  split_whitespace (request_line m p) = [m; p; lit "HTTP/1.1"].
Proof.
  intros [Hm Hm0] [Hp Hp0]. unfold request_line. rewrite !split_whitespace_word by done.
  rewrite split_whitespace_last; [done | chars | done].
Qed.

Lemma request_line_text m p : word m -> word p -> text_line (request_line m p).
Proof.
  intros [Hm Hm0] [Hp Hp0]. split; [| unfold request_line; by destruct m].
  unfold request_line. chars.
Qed.

(** What is decided once the head of the request is read. *)
Definition dispatch_request (expected_path expected_method : option bytes) (mode : SplitHttpMode)
    (method path request : bytes) : acceptM SplitHttpAcceptResult :=
  if eq_ignore_ascii_case method (lit "OPTIONS") then
    _ ← on_conn (write_all preflight_response); mret Preflight
  else if bool_decide (mode = PacketUp) then packet_up_accept expected_path method request
  else if negb (path_matches expected_path path) then st_fail (Protocol "SplitHTTP path mismatch")
  else if negb (method_allowed expected_method method) then
    st_fail (Protocol "SplitHTTP stream-one method not allowed")
  else _ ← on_conn (write_all stream_one_response); mret TunnelChunked.

Lemma conn_recv {A} (p : parser ProxyError A) s rest out w a :
  p s = Ok (a, rest) -> on_conn (recv p) (mkDuplex s out, w) = ((mkDuplex rest out, w), Ok a).
Proof. intros H. unfold on_conn, recv. cbn [fst snd input output]. by rewrite H. Qed.

Lemma not_http2 m p0 r :
  m <> [] -> is_prefix (lit "PRI") (m ++ [32]) = false ->
  exists a b c t, m ++ 32 :: p0 :: r = a :: b :: c :: t /\ bytes_eqb [a; b; c] (lit "PRI") = false.
Proof.
  intros Hm Hpri. change (lit "PRI") with [80; 82; 73] in *.
  destruct m as [| a [| b [| c m]]]; [done | ..]; cbn [app is_prefix] in *; eexists _, _, _, _; (split; [reflexivity |]);
    apply bool_decide_eq_false; intros [=]; subst; by rewrite ?Z.eqb_refl in Hpri.
Qed.

Lemma accept_head ep em mode h m p hs rest out w :
  word m -> word p -> Forall text_line hs -> is_prefix (lit "PRI") (m ++ [32]) = false ->
  zlen (header_block (request_line m p :: hs)) <= MAX_HEADER_BYTES ->
  splithttp_accept ep em mode h (mkDuplex (header_block (request_line m p :: hs) ++ rest) out, w)
  = dispatch_request ep em mode m p (header_block (request_line m p :: hs)) (mkDuplex rest out, w).
Proof.
  intros Hm Hp Hhs Hpri Hlen.
  assert (Hls : Forall text_line (request_line m p :: hs)) by (constructor; [by apply request_line_text | done]).
  assert (Hpl : Forall printable (request_line m p :: hs)) by (eapply Forall_impl; [exact Hls | by intros ? []]).
  pose proof (read_headers_block (request_line m p :: hs) rest (fun E => nil_cons (eq_sym E)) Hls Hlen) as Hread.
  pose proof (lines_block _ Hpl) as Hlines. pose proof (request_words m p Hm Hp) as Hwords.
  assert (Hpeek : exists a b c t, header_block (request_line m p :: hs) = a :: b :: c :: t
                    /\ bytes_eqb [a; b; c] (lit "PRI") = false).
  { destruct Hm as [_ Hm0], Hp as [_ Hp0]. destruct p as [| p0 p]; [done |].
    unfold header_block, request_line, crlf_line. cbn [fmap list_fmap concat]. rewrite <- !app_assoc. cbn [app].
    by apply not_http2. }
  revert Hread Hlines Hpeek. generalize (header_block (request_line m p :: hs)). intros hb Hread Hlines Hpeek.
  destruct Hpeek as (a & b & c & t & -> & Hne). unfold splithttp_accept.
  erewrite sbind_ok by (apply conn_recv; cbn [app]; by apply (read_exact_app 3 [a; b; c])).
  erewrite sbind_ok by reflexivity. cbv beta. rewrite Hne. cbn [input output app] in *.
  erewrite sbind_ok by (by apply conn_recv). rewrite Hlines. cbn [app]. rewrite Hwords. done.
Qed.

(** * Sessions end to end *)

(** A base path made of printable characters without blanks and query. *)
Definition base_ok (base : bytes) : Prop :=
  graphic (trim_end_slash (normalized_path_prefix base))
  /\ (63 ∉ trim_end_slash (normalized_path_prefix base)).

#[global] Instance base_ok_dec base : Decision (base_ok base).
Proof. unfold base_ok. apply _. Defined.

Definition post_lines (base session : bytes) (seq len : Z) : list bytes :=
  [request_line (lit "POST") (session_path base session (u64_to_string seq));
   lit "Content-Length: " ++ u64_to_string len].

(** The request that uploads [body] as number [seq] of a session. *)
Definition post_wire (base session : bytes) (seq : Z) (body : bytes) : bytes :=
  header_block (post_lines base session seq (zlen body)) ++ body.

Definition get_lines (base session : bytes) : list bytes :=
  [request_line (lit "GET") (trim_end_slash (normalized_path_prefix base) ++ lit "/" ++ session)].

(** The request for the download of a session. *)
Definition get_wire (base session : bytes) : bytes := header_block (get_lines base session).

Lemma session_path_word base session seq :
  base_ok base -> segment session -> graphic seq -> word (session_path base session seq).
Proof.
  intros [Hb _] (Hs & _) Hq. unfold session_path. split; [chars |].
  intros E. apply (f_equal length) in E. rewrite !length_app in E. simpl in E. lia.
Qed.

Lemma path_prefix_ok base r : starts_with (trim_end_slash (normalized_path_prefix base) ++ r)
                                (trim_end_slash (normalized_path_prefix base)) = true.
Proof. apply is_prefix_app. Qed.

(** A request to upload ends in a push on the queue of its session. *)
Lemma post_accept base em h session seq body rest w :
  base_ok base -> segment session -> is_u 64 seq -> is_u 64 (zlen body) ->
  zlen (header_block (post_lines base session seq (zlen body))) <= MAX_HEADER_BYTES ->
  let '(w1, q) := upsert_packet_up_session session w in
  forall w2, on_queue q (push (mkPacket seq body)) w1 = (w2, Ok tt) ->
  splithttp_accept (Some base) em PacketUp h (mkDuplex (post_wire base session seq body ++ rest) [], w)
  = ((mkDuplex rest upload_response, w2), Ok UploadOnly).
Proof.
  intros Hbase Hsess Hseq Hlen Hhdr. destruct (upsert_packet_up_session session w) as [w1 q] eqn:Eu. intros w2 Hpush.
  pose proof (number_segment seq ltac:(unfold is_u in Hseq; lia)) as Hn.
  assert (Hcl : text_line (lit "Content-Length: " ++ u64_to_string (zlen body))).
  { split; [| done]. pose proof (zlen_nonneg body). chars. }
  pose proof (session_path_word base session _ Hbase Hsess (proj1 Hn)) as Hw.
  unfold post_wire, post_lines in *. rewrite <- app_assoc.
  rewrite accept_head; [| decided | done | by constructor | done | done].
  assert (Hpl : Forall printable (post_lines base session seq (zlen body))).
  { constructor; [by apply request_line_text; [decided |] |]. constructor; [apply Hcl | constructor]. }
  unfold dispatch_request. change (eq_ignore_ascii_case (lit "POST") (lit "OPTIONS")) with false. cbn match.
  rewrite bool_decide_true by done. unfold packet_up_accept. cbn [default from_option id].
  unfold post_lines in Hpl. rewrite (lines_block _ Hpl). cbn [app].
  rewrite request_words; [| decided | done]. cbn [default from_option id lookup list_lookup].
  unfold session_path at 1. rewrite path_prefix_ok. cbn [negb].
  rewrite extract_session_path by (done || apply Hbase).
  change (eq_ignore_ascii_case (lit "POST") (lit "OPTIONS")) with false.
  change (eq_ignore_ascii_case (lit "POST") (lit "POST")) with true. cbn match.
  replace (zlen session =? 0) with false.
  2: { symmetry. apply Z.eqb_neq. destruct Hsess as (_ & Hs & _). destruct session; [done | len_solve]. }
  rewrite parse_u64_to_string by done.
  erewrite sbind_ok by (apply conn_recv; eapply (content_length_body _ (zlen body) body rest);
                        [apply zlen_nonneg | done | reflexivity | done | done]).
  erewrite sbind_ok by (unfold on_sessions; cbn [fst snd]; rewrite Eu; reflexivity).
  erewrite sbind_ok by (unfold queue_op; cbn [fst snd]; rewrite Hpush; reflexivity).
  erewrite sbind_ok by reflexivity. done.
Qed.

Lemma extract_session_only base session :
  base_ok base -> segment session ->
  extract_session_seq (trim_end_slash (normalized_path_prefix base) ++ lit "/" ++ session) base = (session, []).
Proof.
  intros [_ Hb] (_ & Hs & Hs47 & Hs63). unfold extract_session_seq.
  rewrite split_once_none by (rewrite !not_elem_of_app; split_and!; try done; decided).
  cbn [default from_option id]. unfold strip_prefix. rewrite is_prefix_app. cbn [default from_option id].
  rewrite drop_app_length. change (lit "/") with [47]. cbn [app trim_start_slash]. change (47 =? 47) with true.
  destruct session as [| b session]; [done |]. cbn [trim_start_slash].
  rewrite (proj2 (Z.eqb_neq b 47)) by set_solver. unfold non_empty_parts.
  rewrite (split_on_none 47 (b :: session)) by done. done.
Qed.

Lemma get_accept base em h session rest w :
  base_ok base -> segment session -> zlen (get_wire base session) <= MAX_HEADER_BYTES ->
  let '(w1, q) := upsert_packet_up_session session w in
  let '(w2, r) := on_queue q take_reader w1 in
  splithttp_accept (Some base) em PacketUp h (mkDuplex (get_wire base session ++ rest) [], w)
  = ((mkDuplex rest download_response, w2),
     match r with
     | Ok _ => Ok (TunnelQueue q)
     | Err _ => Err (Protocol "packet-up reader")
     | Panic => Panic
     | NoFuel => NoFuel
     end).
Proof.
  intros Hbase Hsess Hhdr. destruct (upsert_packet_up_session session w) as [w1 q] eqn:Eu.
  destruct (on_queue q take_reader w1) as [w2 r] eqn:Eq.
  pose proof (extract_session_only base session Hbase Hsess) as Hex.
  assert (Hw : word (trim_end_slash (normalized_path_prefix base) ++ lit "/" ++ session)).
  { destruct Hbase as [Hb _], Hsess as (Hs & _). split; [chars |].
    intros E. apply (f_equal length) in E. rewrite !length_app in E. simpl in E. lia. }
  unfold get_wire, get_lines in *.
  rewrite accept_head; [| decided | done | constructor | done | done].
  assert (Hpl : Forall printable (get_lines base session)).
  { constructor; [by apply request_line_text; [decided |] | constructor]. }
  unfold dispatch_request. change (eq_ignore_ascii_case (lit "GET") (lit "OPTIONS")) with false. cbn match.
  rewrite bool_decide_true by done. unfold packet_up_accept. cbn [default from_option id].
  unfold get_lines in Hpl. rewrite (lines_block _ Hpl). cbn [app].
  rewrite request_words; [| decided | done]. cbn [default from_option id lookup list_lookup].
  rewrite path_prefix_ok. cbn [negb]. rewrite Hex.
  change (eq_ignore_ascii_case (lit "GET") (lit "OPTIONS")) with false.
  change (eq_ignore_ascii_case (lit "GET") (lit "POST")) with false.
  change (eq_ignore_ascii_case (lit "GET") (lit "GET")) with true. cbn match.
  replace (zlen session =? 0) with false.
  2: { symmetry. apply Z.eqb_neq. destruct Hsess as (_ & Hs & _). destruct session; [done | len_solve]. }
  erewrite sbind_ok by (unfold on_sessions; cbn [fst snd]; rewrite Eu; reflexivity).
  erewrite sbind_ok by reflexivity. unfold mbind, stE_bind, queue_op. cbn [fst snd]. rewrite Eq.
  by destruct r.
Qed.

(** The requests of one session, each on a connection of its own. *)
Definition accept_posts (base session : bytes) (f : Z -> bytes) (seqs : list Z) (w : Sessions)
  : Sessions * list (res ProxyError SplitHttpAcceptResult) :=
  fold_left (fun '(w, rs) s =>
    let '((_, w'), r) := splithttp_accept (Some base) None PacketUp false
                           (mkDuplex (post_wire base session s (f s)) [], w) in
    (w', rs ++ [r])) seqs (w, []).

(** Numbers and bodies a client may send, with a head of at most the size read. *)
Definition post_ok (base session : bytes) (f : Z -> bytes) (s : Z) : Prop :=
  0 <= s < 2 ^ 64 - 1 /\ is_u 64 (zlen (f s))
  /\ zlen (header_block (post_lines base session s (zlen (f s)))) <= MAX_HEADER_BYTES.

#[global] Instance post_ok_dec base session f s : Decision (post_ok base session f s).
Proof. unfold post_ok. apply _. Defined.

Lemma upsert_found session w w1 q :
  upsert_packet_up_session session w = (w1, q) -> session_table w1 !! session = Some q.
Proof.
  unfold upsert_packet_up_session.
  destruct (session_table w !! session) eqn:Et; intros [= <- <-]; [done |]. cbn. by rewrite lookup_insert_eq.
Qed.

Lemma accept_posts_queue base session f seqs w0 q0 :
  base_ok base -> segment session -> Forall (post_ok base session f) seqs ->
  upsert_packet_up_session session sessions_empty = (w0, q0) ->
  exists w, accept_posts base session f seqs sessions_empty = (w, replicate (length seqs) (Ok UploadOnly))
  /\ exists w1, upsert_packet_up_session session w = (w1, q0)
  /\ queues w1 !! q0 = Some (run_queue f (QPush <$> seqs) (queue_new 64)).1.1.
Proof.
  intros Hb Hs Hposts E0. induction seqs as [| s seqs IH] using rev_ind.
  { exists sessions_empty. split; [done |]. exists w0. split; [done |].
    unfold upsert_packet_up_session in E0. cbn in E0. injection E0 as <- <-. by cbn. }
  apply Forall_app in Hposts as [Hposts [(Hs1 & Hs2 & Hs3) _]%Forall_cons_iff].
  destruct (IH Hposts) as (w & Ew & w1 & Ew1 & Hq). unfold accept_posts in *.
  rewrite fold_left_app, Ew. cbn [fold_left].
  pose proof (post_accept base None false session s (f s) [] w Hb Hs ltac:(unfold is_u; lia) Hs2 Hs3) as Hpost.
  rewrite Ew1 in Hpost.
  pose proof (run_queue_inv f 64 (QPush <$> seqs)) as Hinv.
  assert (Hops : Forall op_ok (QPush <$> seqs)).
  { apply Forall_fmap. eapply Forall_impl; [exact Hposts |]. intros x (Hx & _). exact Hx. }
  specialize (Hinv ltac:(lia) Hops). pose proof (qi_open _ _ _ _ Hinv) as Hopen.
  revert Hq Hopen. rewrite fmap_app. cbn [fmap list_fmap]. rewrite run_queue_snoc.
  destruct (run_queue f (QPush <$> seqs) (queue_new 64)) as [[q got] failed]. cbn [fst]. intros Hq Hopen.
  destruct (on_queue q0 (push (mkPacket s (f s))) w1) as [w2 r] eqn:Ep. unfold on_queue in Ep. rewrite Hq in Ep.
  unfold push in Ep. rewrite Hopen in Ep. injection Ep as <- <-.
  specialize (Hpost _ eq_refl). rewrite app_nil_r in Hpost. rewrite Hpost.
  eexists. split.
  { f_equal. rewrite length_app, replicate_add. done. }
  unfold upsert_packet_up_session. cbn [session_table]. rewrite (upsert_found _ _ _ _ Ew1). eexists. split; [done |]. cbn [queues]. rewrite lookup_insert_eq. unfold queue_do, push. by rewrite Hopen.
Qed.

Lemma pushes_give_nothing f seqs q : (run_queue f (QPush <$> seqs) q).1.2 = [] /\ (run_queue f (QPush <$> seqs) q).2 = false.
Proof.
  induction seqs as [| s seqs IH] using rev_ind; [done |]. rewrite fmap_app. cbn [fmap list_fmap].
  rewrite run_queue_snoc. destruct (run_queue f (QPush <$> seqs) q) as [[q1 got] failed]. exact IH.
Qed.

Lemma pushes_fmap seqs : pushes (QPush <$> seqs) = zlen seqs.
Proof.
  unfold pushes, zlen. induction seqs as [| s seqs IH]; [done |].
  cbn [fmap list_fmap List.filter is_push length]. lia.
Qed.

Lemma queue_inv_taken f mx ops q got failed :
  queue_inv f mx ops (q, got, failed) -> reader_taken q = false ->
  exists q', take_reader q = (q', Ok tt) /\ queue_inv f mx ops (q', got, failed) /\ reader_taken q' = true.
Proof. intros [] Ht. unfold take_reader. rewrite Ht. eexists. split; [done |]. by split. Qed.

Lemma pushes_reader f seqs q : reader_taken (run_queue f (QPush <$> seqs) q).1.1 = reader_taken q.
Proof.
  induction seqs as [| s seqs IH] using rev_ind; [done |]. rewrite fmap_app. cbn [fmap list_fmap].
  rewrite run_queue_snoc. destruct (run_queue f (QPush <$> seqs) q) as [[q1 got] failed]. cbn [queue_do fst].
  rewrite <- IH. unfold push. by destruct (closed q1).
Qed.

(** C33. A packet-up session over HTTP/1.1, from the bytes of the requests to the tunnel.
    The uploads of one session arrive on connections of their own, in any order and possibly
    repeated, at most as many as the queue holds: each is answered with 200.  The request for
    the download then opens the tunnel, and a read of it gives the bodies put together by
    sequence number, up to the first that is missing, or waits when there is none.  A second
    request for the download of the same session panics. *)
Theorem packet_up_session_correct (base session : bytes) (f : Z -> bytes) (seqs : list Z) (n cap : Z) :
  base_ok base -> segment session -> Forall (post_ok base session f) seqs -> zlen seqs <= 64 ->
  zlen (get_wire base session) <= MAX_HEADER_BYTES ->
  0 <= n -> (forall s, 0 <= s < n -> s ∈ seqs) -> n ∉ seqs -> 1 <= cap -> zlen (upload f n) <= cap ->
  exists w w' q qs qs',
    accept_posts base session f seqs sessions_empty = (w, replicate (length seqs) (Ok UploadOnly))
    /\ splithttp_accept (Some base) None PacketUp false (mkDuplex (get_wire base session) [], w)
       = ((mkDuplex [] download_response, w'), Ok (TunnelQueue q))
    /\ queues w' !! q = Some qs
    /\ queue_poll_read cap qs = (qs', if zlen (upload f n) =? 0 then Pending else Ready (upload f n))
    /\ (splithttp_accept (Some base) None PacketUp false (mkDuplex (get_wire base session) [], w')).2 = Panic.
Proof.
  intros Hb Hs Hposts Hmax Hget Hn Hall Hgap Hcap Hlen.
  destruct (upsert_packet_up_session session sessions_empty) as [w0 q0] eqn:E0.
  destruct (accept_posts_queue base session f seqs w0 q0 Hb Hs Hposts E0) as (w & Ew & w1 & Ew1 & Hq).
  assert (Hops : Forall op_ok (QPush <$> seqs)).
  { apply Forall_fmap. eapply Forall_impl; [exact Hposts |]. intros x (Hx & _). exact Hx. }
  pose proof (run_queue_inv f 64 _ ltac:(lia) Hops) as Hinv.
  destruct (pushes_give_nothing f seqs (queue_new 64)) as [Hgot Hfail].
  pose proof (pushes_reader f seqs (queue_new 64)) as Hrt.
  destruct (run_queue f (QPush <$> seqs) (queue_new 64)) as [[qs0 got] failed]. cbn [fst snd] in *. subst got failed.
  destruct (queue_inv_taken _ _ _ _ _ _ Hinv Hrt) as (qs & Et & Hinv' & Hrt').
  destruct (read_to_gap f 64 _ qs [] n cap Hinv') as (qs' & out & Er & Hout); try done.
  { etrans; [apply ahead_pushes | by rewrite pushes_fmap]. }
  { intros s Hs0. apply list_elem_of_fmap_2. by apply Hall. }
  { intros (x & [= <-] & Hx)%list_elem_of_fmap. done. }
  cbn [app] in Hout. subst out.
  pose proof (get_accept base None false session [] w Hb Hs Hget) as Hacc. rewrite Ew1 in Hacc.
  unfold on_queue in Hacc. rewrite Hq, Et, app_nil_r in Hacc.
  exists w. eexists _, q0, qs, qs'. split; [done |]. split; [exact Hacc |]. cbn [queues].
  split; [by rewrite lookup_insert_eq |]. split; [done |].
  match goal with |- (splithttp_accept _ _ _ _ (_, ?v)).2 = _ =>
    pose proof (get_accept base None false session [] v Hb Hs Hget) as Hacc2 end.
  unfold upsert_packet_up_session in Hacc2. cbn [session_table] in Hacc2. rewrite (upsert_found _ _ _ _ Ew1) in Hacc2.
  unfold on_queue in Hacc2. cbn [queues] in Hacc2. rewrite lookup_insert_eq in Hacc2.
  unfold take_reader in Hacc2. rewrite Hrt', app_nil_r in Hacc2. by rewrite Hacc2.
Qed.

Lemma packet_up_session_correct_witness :
  let f := fun s => [65 + s] in
  exists w w' q qs qs',
    accept_posts (lit "/up") (lit "abc") f [1; 0; 1; 3] sessions_empty = (w, replicate 4 (Ok UploadOnly))
    /\ splithttp_accept (Some (lit "/up")) None PacketUp false (mkDuplex (get_wire (lit "/up") (lit "abc")) [], w)
       = ((mkDuplex [] download_response, w'), Ok (TunnelQueue q))
    /\ queues w' !! q = Some qs
    /\ queue_poll_read 9 qs = (qs', if zlen (upload f 2) =? 0 then Pending else Ready (upload f 2))
    /\ (splithttp_accept (Some (lit "/up")) None PacketUp false (mkDuplex (get_wire (lit "/up") (lit "abc")) [], w')).2
       = Panic.
Proof.
  apply (packet_up_session_correct (lit "/up") (lit "abc") (fun s => [65 + s]) [1; 0; 1; 3] 2 9);
    [decided | decided | decided | decided | decided | lia | | decided | lia | decided].
  intros s Hs. destruct (decide (s = 0)) as [-> |]; [decided |]. assert (s = 1) as -> by lia. decided.
Defined.

(** * The handshake of both sides *)

(** Settings whose text fits into a request: words, printable header lines, a head of at
    most the size the server reads; and a method on which both sides agree, as the server
    looks only at [method] and the client prefers [uplink_http_method]. *)
Definition config_ok (authority : bytes) (cfg : SplitHttpConfig) : Prop :=
  word (uplink_method cfg (normalize_splithttp_mode (cfg_mode cfg))) /\ word (cfg_path cfg)
  /\ (63 ∉ cfg_path cfg)
  /\ printable (default authority (head (cfg_host cfg)))
  /\ Forall (fun kv => printable kv.1 /\ printable kv.2) (cfg_headers cfg)
  /\ printable (x_padding_header_name cfg)
  /\ eq_ignore_ascii_case (uplink_method cfg (normalize_splithttp_mode (cfg_mode cfg))) (lit "OPTIONS") = false
  /\ is_prefix (lit "PRI") (uplink_method cfg (normalize_splithttp_mode (cfg_mode cfg)) ++ [32]) = false
  /\ (uplink_http_method cfg = [] \/ (cfg_method cfg <> [] /\ eq_ignore_ascii_case (uplink_http_method cfg) (cfg_method cfg) = true))
  /\ normalize_splithttp_mode (cfg_mode cfg) <> PacketUp
  /\ zlen (connect_request authority cfg) <= MAX_HEADER_BYTES.

#[global] Instance config_ok_dec authority cfg : Decision (config_ok authority cfg).
Proof. unfold config_ok. apply _. Defined.

Definition config_lines (authority : bytes) (cfg : SplitHttpConfig) : list bytes :=
  [lit "Host: " ++ default authority (head (cfg_host cfg)); lit "Connection: keep-alive";
   lit "Transfer-Encoding: chunked"]
  ++ ((fun kv => kv.1 ++ lit ": " ++ kv.2) <$> cfg_headers cfg)
  ++ match x_padding_header cfg with Some kv => [kv.1 ++ lit ": " ++ kv.2] | None => [] end.

Lemma header_lines_eq hs :
  concat (header_line <$> hs) = concat (crlf_line <$> ((fun kv => kv.1 ++ lit ": " ++ kv.2) <$> hs)).
Proof.
  induction hs as [| kv hs IH]; [done |]. cbn [fmap list_fmap concat]. rewrite IH. f_equal.
  unfold header_line, crlf_line. by rewrite <- !app_assoc.
Qed.

Lemma connect_request_block authority cfg :
  connect_request authority cfg
  = header_block (request_line (uplink_method cfg (normalize_splithttp_mode (cfg_mode cfg))) (cfg_path cfg)
                    :: config_lines authority cfg).
Proof.
  unfold connect_request, header_block, config_lines. cbn [fmap list_fmap concat app].
  rewrite fmap_app, concat_app, <- header_lines_eq.
  assert (Ex : concat (crlf_line <$> match x_padding_header cfg with Some kv => [kv.1 ++ lit ": " ++ kv.2] | None => [] end)
               = match x_padding_header cfg with Some kv => header_line kv | None => [] end).
  { destruct (x_padding_header cfg) as [kv |]; [| done]. cbn. rewrite app_nil_r. unfold crlf_line, header_line.
    by rewrite <- !app_assoc. }
  rewrite Ex. unfold request_line, crlf_line. change (lit " HTTP/1.1") with (32 :: lit "HTTP/1.1").
  repeat (progress (rewrite <- ?app_assoc; cbn [app])). done.
Qed.

Lemma config_lines_text authority cfg : config_ok authority cfg -> Forall text_line (config_lines authority cfg).
Proof.
  intros (_ & _ & _ & Hhost & Hhs & Hpad & _). unfold config_lines.
  assert (Hkv : forall kv : bytes * bytes, printable kv.1 -> printable kv.2 -> text_line (kv.1 ++ lit ": " ++ kv.2)).
  { intros [k v] Hk Hv. cbn [fst snd] in *. split; [chars |]. intros E. apply (f_equal length) in E.
    rewrite !length_app in E. simpl in E. lia. }
  apply Forall_app. split; [| apply Forall_app; split].
  - constructor; [split; [chars | done] |]. repeat constructor; decided.
  - apply Forall_fmap. eapply Forall_impl; [exact Hhs |]. intros kv [Hk Hv]. by apply Hkv.
  - unfold x_padding_header. destruct (x_padding_len _) as [len |]; [| constructor].
    destruct (len =? 0); [constructor |]. constructor; [| constructor]. apply Hkv; cbn [fst snd].
    + destruct (_ =? 0); [decided | done].
    + apply Forall_replicate. destruct (bytes_eqb _ _); lia.
Qed.

(** The method the client sends is one the server allows. *)
Lemma method_agreed authority cfg :
  config_ok authority cfg ->
  method_allowed (if zlen (cfg_method cfg) =? 0 then None else Some (cfg_method cfg))
    (uplink_method cfg (normalize_splithttp_mode (cfg_mode cfg))) = true.
Proof.
  intros (_ & _ & _ & _ & _ & _ & _ & _ & Hm & _). unfold uplink_method.
  assert (Hrefl : forall s, eq_ignore_ascii_case s s = true).
  { intros s. unfold eq_ignore_ascii_case, bytes_eqb. by apply bool_decide_true. }
  destruct Hm as [-> | [Hne He]].
  - change (zlen [] =? 0) with true. cbn [negb]. destruct (zlen (cfg_method cfg) =? 0); cbn [negb]; [| apply Hrefl].
    by destruct (bool_decide _).
  - destruct (cfg_method cfg) as [| b m]; [done |].
    replace (zlen (b :: m) =? 0) with false by (symmetry; apply Z.eqb_neq; len_solve). cbn [negb].
    destruct (zlen (uplink_http_method cfg) =? 0); cbn [negb method_allowed]; [apply Hrefl | done].
Qed.

(** The two sides of the stream-one handshake agree.  For settings shared by client and
    server, the server accepts the request the client writes as a chunked tunnel, answers, and
    leaves what follows the request for the tunnel; the client accepts that answer and leaves
    what follows it.  With the settings of the packet-up mode, or with an uplink method other
    than the method, this does not hold and is not claimed. *)
Theorem splithttp_handshake_agrees (authority : bytes) (cfg : SplitHttpConfig) (ws_path : option bytes)
    (up down : bytes) (h : bool) (w : Sessions) :
  config_ok authority cfg ->
  let '(path, method, mode) := splithttp_listen_params (Some cfg) ws_path in
  exists response,
    splithttp_accept path method mode h (mkDuplex (connect_request authority cfg ++ up) [], w)
    = ((mkDuplex up response, w), Ok TunnelChunked)
    /\ splithttp_connect authority (Some cfg) ws_path (mkDuplex (response ++ down) [])
       = (mkDuplex down (connect_request authority cfg), Ok tt).
Proof.
  intros Hok. pose proof (config_lines_text _ _ Hok) as Hls. pose proof (method_agreed _ _ Hok) as Hm.
  destruct Hok as (Hmeth & Hpath & Hq & _ & _ & _ & Hopt & Hpri & _ & Hmode & Hlen).
  unfold splithttp_listen_params. cbn [split_http_config]. exists stream_one_response. split.
  - rewrite connect_request_block in Hlen |- *. rewrite accept_head by done. unfold dispatch_request. rewrite Hopt.
    rewrite bool_decide_false by done. unfold path_matches. rewrite before_sep_none by done.
    unfold bytes_eqb at 1. rewrite bool_decide_true by done. cbn [orb negb]. rewrite Hm. done.
  - unfold splithttp_connect. erewrite sbind_ok by reflexivity. cbn [split_http_config app].
    change stream_one_response with (header_block (lit <$> ["HTTP/1.1 200 OK"; "Connection: keep-alive";
      "X-Accel-Buffering: no"; "Cache-Control: no-store"; "Content-Type: text/event-stream";
      "Transfer-Encoding: chunked"])).
    erewrite sbind_ok; cycle 1.
    { unfold recv. cbn [input output]. rewrite read_headers_block; [reflexivity | done | decided | decided]. }
    done.
Qed.

Definition example_config : SplitHttpConfig :=
  mkConfig (lit "/split") [lit "example.com"] (lit "PUT") (lit "stream-one") [] [(lit "X-A", lit "b c")]
    (Some (PadText (lit "4-9"))) [] [].

Lemma splithttp_handshake_agrees_witness :
  let '(path, method, mode) := splithttp_listen_params (Some example_config) None in
  exists response,
    splithttp_accept path method mode false
      (mkDuplex (connect_request (lit "h") example_config ++ chunk_frame (lit "hi")) [], sessions_empty)
    = ((mkDuplex (chunk_frame (lit "hi")) response, sessions_empty), Ok TunnelChunked)
    /\ splithttp_connect (lit "h") (Some example_config) None (mkDuplex (response ++ last_chunk) [])
       = (mkDuplex last_chunk (connect_request (lit "h") example_config), Ok tt).
Proof.
  apply (splithttp_handshake_agrees (lit "h") example_config None (chunk_frame (lit "hi")) last_chunk false sessions_empty).
  decided.
Defined.

(** ** What the handshake does not do *)

(** The answer to a download announces a chunked body, but the tunnel of the session writes
    its bytes to the connection as they are: a reader of chunks cannot decode them. *)
Definition packet_up_conn_write (buf : bytes) (d : Duplex) : Duplex := mkDuplex (input d) (output d ++ buf).

Lemma packet_up_download_unframed :
  let w := sessions_empty in
  let '((d, _), r) := splithttp_accept (Some (lit "/")) None PacketUp false (mkDuplex (get_wire (lit "/") (lit "s")) [], w) in
  let d := packet_up_conn_write (lit "hello" ++ [CR; LF]) d in
  r = Ok (TunnelQueue 0)
  /\ (splithttp_connect [] None None (mkDuplex (output d) [])).2 = Ok tt
  /\ exists st, poll_read 4096 (stream_new (as_events (lit "hello" ++ [CR; LF]))) = Some (st, Failed (Io InvalidData)).
Proof. vm_compute. by eauto. Qed.

(** With an uplink method in the settings the client uses it, while the server with the same
    settings insists on the method. *)
Lemma uplink_method_mismatch :
  let cfg := mkConfig (lit "/") [] (lit "PUT") [] (lit "POST") [] None [] [] in
  let '(path, method, mode) := splithttp_listen_params (Some cfg) None in
  (splithttp_accept path method mode false (mkDuplex (connect_request (lit "h") cfg) [], sessions_empty)).2
  = Err (Protocol "SplitHTTP stream-one method not allowed").
Proof. by vm_compute. Qed.

(** A configured path with a query is never matched. *)
Lemma query_path_rejected :
  let cfg := mkConfig (lit "/a?b") [] (lit "PUT") [] [] [] None [] [] in
  let '(path, method, mode) := splithttp_listen_params (Some cfg) None in
  (splithttp_accept path method mode false (mkDuplex (connect_request (lit "h") cfg) [], sessions_empty)).2
  = Err (Protocol "SplitHTTP path mismatch").
Proof. by vm_compute. Qed.
