(* ===== verification/Chunks.v ===== *)
(** * Streams of encrypted chunks

    [ss2022/stream.rs] and [vmess/stream.rs] wrap a stream in chunks with the same
    [poll_read], [poll_write] and [poll_flush]; what differs is how a chunk is decrypted and
    framed.  The loops are here, over a decoder and a framer that the protocols supply, with
    the interface of the write side. *)

From stdpp Require Import base list strings numbers.
From S2P Require Import Prelude Address Streams.

(** * The read side *)

(** [None], [Some(Ok(plaintext))] and [Some(Err(_))] of [try_decrypt_chunk]. *)
Inductive Decrypted := NeedMore | Plain (p : bytes) | Bad.

(** The stream underneath, the state of the decoder, decrypted bytes not yet given out
    ([read_buf]) and ciphertext not yet decrypted ([read_raw_buf]). *)
Record ChunkReader (D : Type) := mkReader {
  cr_inner : list PollEvent;
  cr_dec : D;
  cr_buf : bytes;
  cr_raw : bytes;
}.
Arguments mkReader {D} _ _ _ _.
Arguments cr_inner {D} _.
Arguments cr_dec {D} _.
Arguments cr_buf {D} _.
Arguments cr_raw {D} _.

Section reader.
Context {D : Type} (size : nat) (decrypt : D -> bytes -> D * bytes * Decrypted).

Fixpoint chunk_poll_loop (fuel : nat) (cap : Z) (r : ChunkReader D) : option (ChunkReader D * poll bytes) :=
  match fuel with
  | O => None
  | S fuel =>
      if negb (zlen (cr_buf r) =? 0) then
        let n := Z.to_nat (Z.min (zlen (cr_buf r)) cap) in
        Some (mkReader (cr_inner r) (cr_dec r) (drop n (cr_buf r)) (cr_raw r), Ready (take n (cr_buf r)))
      else
        match decrypt (cr_dec r) (cr_raw r) with
        | (d, raw, Plain []) => Some (mkReader (cr_inner r) d [] raw, Ready [])
        | (d, raw, Plain p) => chunk_poll_loop fuel cap (mkReader (cr_inner r) d p raw)
        | (d, raw, Bad) => Some (mkReader (cr_inner r) d [] raw, Failed (Io InvalidData))
        | (d, raw, NeedMore) =>
            match inner_read size (cr_inner r) with
            | (evs, Pending) => Some (mkReader evs d [] raw, Pending)
            | (evs, Failed e) => Some (mkReader evs d [] raw, Failed e)
            | (evs, Ready []) => Some (mkReader evs d [] raw, Ready [])
            | (evs, Ready x) =>
                match decrypt d (raw ++ x) with
                | (d, raw, Plain []) => Some (mkReader evs d [] raw, Ready [])
                | (d, raw, Plain p) => chunk_poll_loop fuel cap (mkReader evs d p raw)
                | (d, raw, Bad) => Some (mkReader evs d [] raw, Failed (Io InvalidData))
                | (d, raw, NeedMore) => chunk_poll_loop fuel cap (mkReader evs d [] raw)
                end
            end
        end
  end.

(** Each turn reads from below, or decrypts a chunk that the next turn gives out. *)
Definition chunk_poll_read (cap : Z) (r : ChunkReader D) : option (ChunkReader D * poll bytes) :=
  chunk_poll_loop (events_size (cr_inner r) + 3) cap r.

(** ** What it reads *)

(** [frames d w ps]: in state [d] the decoder finds in [w] the payloads [ps]. *)
Context (frames : D -> bytes -> list bytes -> Prop).

(** The decoder on a stream of which [raw] has arrived. *)
Definition decrypts : Prop := forall d raw inc ps,
  frames d (raw ++ inc) ps ->
  match decrypt d raw with
  | (d', raw', NeedMore) => frames d' (raw' ++ inc) ps /\ (inc = [] -> ps = [])
  | (d', raw', Plain p) => p <> [] /\ exists ps', ps = p :: ps' /\ frames d' (raw' ++ inc) ps'
  | (_, _, Bad) => False
  end.

Definition chunk_carries (r : ChunkReader D) (data : bytes) : Prop :=
  exists ps, frames (cr_dec r) (cr_raw r ++ incoming (cr_inner r)) ps /\ data = cr_buf r ++ concat ps.

Abbreviation chunk_post := (read_post cr_inner chunk_carries).

Context (Hsize : (0 < size)%nat) (Hdec : decrypts).

(** Giving out of the decrypted bytes. *)
Lemma chunk_give_ok cap r d :
  1 <= cap -> clean (cr_inner r) -> chunk_carries r d -> zlen (cr_buf r) <> 0 ->
  let n := Z.to_nat (Z.min (zlen (cr_buf r)) cap) in
  chunk_post cap (waits (cr_inner r)) d
    (Some (mkReader (cr_inner r) (cr_dec r) (drop n (cr_buf r)) (cr_raw r), Ready (take n (cr_buf r)))).
Proof.
  intros Hcap Hc (ps & Hw & ->) Hne n. cbn [read_post cr_inner].
  split_and!; [done | done | unfold zlen in *; rewrite length_take; lia |].
  exists (drop n (cr_buf r) ++ concat ps). split_and!.
  - by rewrite app_assoc, take_drop.
  - by exists ps.
  - intros E. apply (f_equal length) in E. rewrite length_take in E. unfold zlen in *. simpl in E. lia.
Qed.

(** Turns of the loop that read nothing from below. *)
Definition turns_left (r : ChunkReader D) : nat := if zlen (cr_buf r) =? 0 then 2%nat else 0%nat.

Lemma turns_full evs d p raw : p <> [] -> turns_left (mkReader evs d p raw) = 0%nat.
Proof. intros Hp. unfold turns_left. cbn [cr_buf]. destruct p; [done |]. by rewrite (proj2 (Z.eqb_neq _ 0)) by len_solve. Qed.

Lemma chunk_poll_loop_ok cap fuel : 1 <= cap -> forall r d,
  clean (cr_inner r) -> chunk_carries r d ->
  (events_size (cr_inner r) + turns_left r < fuel)%nat ->
  chunk_post cap (waits (cr_inner r)) d (chunk_poll_loop fuel cap r).
Proof.
  intros Hcap. induction fuel as [| fuel IH]; intros r d Hc Hd Hf; [lia |]. cbn [chunk_poll_loop].
  destruct (Z.eqb_spec (zlen (cr_buf r)) 0) as [Hz | Hz]; cbn [negb]; [| by apply chunk_give_ok].
  unfold turns_left in Hf. rewrite Hz in Hf. cbn [Z.eqb] in Hf.
  destruct Hd as (ps & Hw & ->). rewrite (nil_length_inv (cr_buf r)) by (unfold zlen in Hz; lia). cbn [app].
  pose proof (Hdec _ _ _ _ Hw) as H1. destruct (decrypt (cr_dec r) (cr_raw r)) as [[d raw] [| p |]]; [| | done].
  - destruct H1 as (Hw1 & Hend). destruct (decide (incoming (cr_inner r) = [])) as [Hi | Hi].
    + rewrite (Hend Hi), Hi in *. cbn [concat].
      destruct (inner_read_end size (cr_inner r) Hc Hi)
        as [[E Hnil] | (evs & E & Hc' & Hinc & Hwt)]; rewrite E; cbn [read_post cr_inner].
      * rewrite Hnil. split_and!; [constructor | done | len_solve |]. exists []. split_and!; [done | | done].
        by exists [].
      * split_and!; [done | done |]. exists []. cbn [cr_dec cr_raw cr_inner cr_buf]. by rewrite Hinc.
    + destruct (inner_read_ok size (cr_inner r) Hsize Hc Hi)
        as (evs' & Hc' & [(E & Hinc & Hwt & Hl) | (b & x & E & Hinc & Hwt & Hl)]); rewrite E.
      * cbn [read_post cr_inner]. split_and!; [done | done |]. exists ps. cbn [cr_dec cr_raw cr_inner cr_buf].
        by rewrite Hinc.
      * rewrite Hinc, app_assoc in Hw1. pose proof (Hdec _ _ _ _ Hw1) as H2. rewrite <- Hwt.
        destruct (decrypt d (raw ++ b :: x)) as [[d' raw'] [| p |]]; [| | done].
        -- destruct H2 as (Hw2 & _). apply (IH (mkReader evs' d' [] raw')); [done | by exists ps |].
           unfold turns_left. cbn [cr_inner cr_buf]. change (zlen [] =? 0) with true. cbn match. lia.
        -- destruct H2 as (Hne & ps' & -> & Hw2). destruct p as [| b' p]; [done |].
           apply (IH (mkReader evs' d' (b' :: p) raw')); [done | by exists ps' |]. rewrite turns_full by done. simpl. lia.
  - destruct H1 as (Hne & ps' & -> & Hw1). destruct p as [| b p]; [done |].
    apply (IH (mkReader (cr_inner r) d (b :: p) raw)); [done | by exists ps' |]. rewrite turns_full by done. simpl. lia.
Qed.

Lemma chunk_poll_read_ok cap r d :
  1 <= cap -> clean (cr_inner r) -> chunk_carries r d ->
  chunk_post cap (waits (cr_inner r)) d (chunk_poll_read cap r).
Proof. intros Hcap Hc Hd. apply chunk_poll_loop_ok; [done.. |]. unfold turns_left. destruct (_ =? 0); lia. Qed.

End reader.

(** A reader that is a part of a larger state. *)
Definition read_part {St R} (put : St -> R -> St) (st : St) (o : option (R * poll bytes)) : option (St * poll bytes) :=
  match o with Some (r, p) => Some (put st r, p) | None => None end.

Lemma read_part_post {St R} (put : St -> R -> St) inner carries inner' carries' (st : St) cap n d (o : option (R * poll bytes)) :
  (forall r, inner' (put st r) = inner r) -> (forall r d, carries r d -> carries' (put st r) d) ->
  read_post inner carries cap n d o -> read_post inner' carries' cap n d (read_part put st o).
Proof.
  intros Hi Hc. destruct o as [[r [out | |]] |]; cbn [read_part read_post]; rewrite ?Hi; [| naive_solver | done | done].
  intros (H1 & H2 & H3 & d' & H4 & H5 & H6). split_and!; [done.. |]. exists d'. split_and!; auto.
Qed.

(** * The write side *)

(** What the stream underneath answers to a write: it takes some bytes, makes the writer
    wait, or fails.  The end of the list waits. *)
Inductive WriteEvent := WAccept (n : Z) | WPending | WFail.

Inductive Drained := Empty | Waiting | Broken (e : ProxyError).

(** [while !write_buf.is_empty() { poll_write }]: the answers left, the bytes left, the
    bytes written and why the loop ended. *)
Fixpoint drain (evs : list WriteEvent) (buf sent : bytes) : list WriteEvent * bytes * bytes * Drained :=
  match buf with
  | [] => (evs, [], sent, Empty)
  | _ =>
      match evs with
      | [] => ([], buf, sent, Waiting)
      | WPending :: evs => (evs, buf, sent, Waiting)
      | WFail :: evs => (evs, buf, sent, Broken (Io ConnectionReset))
      | WAccept n :: evs =>
          if n <=? 0 then (evs, buf, sent, Broken (Io OtherIo))
          else drain evs (drop (Z.to_nat n) buf) (sent ++ take (Z.to_nat n) buf)
      end
  end.

Lemma drain_ok evs : forall buf sent evs' buf' sent' r,
  drain evs buf sent = (evs', buf', sent', r) -> sent' ++ buf' = sent ++ buf.
Proof.
  induction evs as [| ev evs IH]; intros [| b buf] sent evs' buf' sent' r; cbn [drain];
    try (intros [= <- <- <- <-]; done).
  destruct ev as [n | |]; try (intros [= <- <- <- <-]; done).
  destruct (n <=? 0); [by intros [= <- <- <- <-] |]. intros H. rewrite (IH _ _ _ _ _ _ H).
  by rewrite <- app_assoc, take_drop.
Qed.

Lemma drain_empty evs : forall buf sent evs' buf' sent',
  drain evs buf sent = (evs', buf', sent', Empty) -> buf' = [].
Proof.
  induction evs as [| ev evs IH]; intros [| b buf] sent evs' buf' sent'; cbn [drain]; try (by intros [=]).
  destruct ev as [n | |]; try (by intros [=]). destruct (n <=? 0); [by intros [=] | apply IH].
Qed.

(** Answers that take at least a byte or make the writer wait. *)
Definition willing (ev : WriteEvent) : Prop := match ev with WAccept n => 1 <= n | WPending => True | WFail => False end.

#[export] Instance willing_dec ev : Decision (willing ev).
Proof. destruct ev; simpl; apply _. Defined.

Definition accepts (evs : list WriteEvent) : nat :=
  length (List.filter (fun ev => match ev with WAccept _ => true | _ => false end) evs).

Lemma drain_live evs : Forall willing evs -> forall buf sent,
  (length buf <= accepts evs)%nat ->
  exists evs' buf' sent' r, drain evs buf sent = (evs', buf', sent', r) /\ Forall willing evs'
    /\ (accepts evs + length buf' <= accepts evs' + length buf)%nat
    /\ (r = Empty /\ (length evs' <= length evs)%nat \/ r = Waiting /\ (length evs' < length evs)%nat).
Proof.
  induction 1 as [| ev evs Hev Hevs IH]; intros [| b buf] sent Hl.
  1: exists [], [], sent, Empty; by split_and!; auto.
  1: unfold accepts in Hl; simpl in Hl; lia.
  1: exists (ev :: evs), [], sent, Empty; split_and!; [done | by constructor | simpl; lia | by left].
  destruct ev as [n | |]; cbn [willing] in Hev; [| | done]; cbn [drain].
  - rewrite (proj2 (Z.leb_gt _ _)) by lia. unfold accepts in *. cbn [List.filter length] in *.
    destruct (IH (drop (Z.to_nat n) (b :: buf)) (sent ++ take (Z.to_nat n) (b :: buf)))
      as (evs' & buf' & sent' & r & E & H1 & H2 & H3); [rewrite length_drop; simpl; lia |].
    exists evs', buf', sent', r. rewrite length_drop in H2. cbn [length] in *.
    split_and!; [done | done | lia |]. destruct H3 as [[-> ?] | [-> ?]]; [left | right]; split; auto; lia.
  - exists evs, (b :: buf), sent, Waiting. unfold accepts in *. cbn [List.filter] in *.
    split_and!; [done | done | simpl; lia |]. right. split; [done | simpl; lia].
Qed.

(** What the stream underneath answers and has taken, the state of the framer, and
    ciphertext not yet taken ([write_buf]). *)
Record ChunkWriter (W : Type) := mkWriter {
  cw_sink : list WriteEvent;
  cw_sent : bytes;
  cw_state : W;
  cw_buf : bytes;
}.
Arguments mkWriter {W} _ _ _ _.
Arguments cw_sink {W} _.
Arguments cw_sent {W} _.
Arguments cw_state {W} _.
Arguments cw_buf {W} _.

(** A writer with its [poll_write] and [poll_flush]. *)
Class AsyncWriter (St : Type) := {
  wr_write : bytes -> St -> St * poll Z;
  wr_flush : St -> St * poll unit;
}.

(** The promise of a writer that frames chunks of at most [mx] bytes: [wrote st ps] when it
    has framed [ps]. *)
Class WriterSpec (St : Type) `{AsyncWriter St} (mx : Z) (wrote : St -> list bytes -> Prop) := {
  wr_write_ok : forall buf st ps, buf <> [] -> wrote st ps ->
    match wr_write buf st with
    | (st', Ready n) => exists p, wrote st' (ps ++ [p]) /\ 1 <= zlen p <= mx /\ p = take (Z.to_nat n) buf
    | (st', Pending) => wrote st' ps
    | (_, Failed _) => True
    end;
  wr_flush_ok : forall st ps, wrote st ps ->
    match wr_flush st with (_, Failed _) => True | (st', _) => wrote st' ps end;
}.

Inductive WriteOp := WWrite (buf : bytes) | WFlush.

(** A caller of the write side that stops at an error; [accepted] is what it was told is
    written. *)
Fixpoint write_run {St} `{AsyncWriter St} (ops : list WriteOp) (st : St) (accepted : bytes) : option (St * bytes) :=
  match ops with
  | [] => Some (st, accepted)
  | WWrite buf :: ops =>
      match wr_write buf st with
      | (st', Ready n) => write_run ops st' (accepted ++ take (Z.to_nat n) buf)
      | (st', Pending) => write_run ops st' accepted
      | (_, Failed _) => None
      end
  | WFlush :: ops =>
      match wr_flush st with
      | (_, Failed _) => None
      | (st', _) => write_run ops st' accepted
      end
  end.

Definition write_op_ok (op : WriteOp) : Prop := match op with WWrite buf => buf <> [] | WFlush => True end.

#[global] Instance write_op_ok_dec op : Decision (write_op_ok op).
Proof. destruct op; simpl; apply _. Defined.

Lemma write_run_ok {St} `{WriterSpec St mx wrote} ops : Forall write_op_ok ops -> forall st ps accepted st' accepted',
  wrote st ps -> Forall (fun p => 1 <= zlen p <= mx) ps -> accepted = concat ps ->
  write_run ops st accepted = Some (st', accepted') ->
  exists ps', wrote st' ps' /\ Forall (fun p => 1 <= zlen p <= mx) ps' /\ accepted' = concat ps'.
Proof.
  induction ops as [| op ops IH]; intros Hops st ps accepted st' accepted' Hf Hps Ha; cbn [write_run].
  { intros [= <- <-]. by exists ps. }
  apply Forall_cons_iff in Hops as [Hop Hops]. destruct op as [buf |].
  - pose proof (wr_write_ok buf st ps Hop Hf) as Hw. destruct (wr_write buf st) as [st1 [n | |]]; [| | done].
    + destruct Hw as (p & Hf' & Hp & Hn). apply (IH Hops _ (ps ++ [p])); [done | |].
      * apply Forall_app. by split; [| constructor].
      * rewrite concat_app, <- Ha, <- Hn. cbn. by rewrite app_nil_r.
    + by apply (IH Hops _ ps).
  - pose proof (wr_flush_ok st ps Hf) as Hw. destruct (wr_flush st) as [st1 [[] | |]]; [| | done]; by apply (IH Hops _ ps).
Qed.

Section writer.
Context {W : Type} (append : W -> bytes -> W * bytes) (mx : Z).

(** [poll_flush], up to the flush of the stream underneath. *)
Definition chunk_flush (w : ChunkWriter W) : ChunkWriter W * poll unit :=
  let '(sink, buf, sent, r) := drain (cw_sink w) (cw_buf w) (cw_sent w) in
  let w' := mkWriter sink sent (cw_state w) buf in
  match r with
  | Empty => (w', Ready tt)
  | Waiting => (w', Pending)
  | Broken e => (w', Failed e)
  end.

(** [append_encrypted_chunk] to the write buffer. *)
Definition chunk_append (w : ChunkWriter W) (data : bytes) : ChunkWriter W :=
  let '(s, wire) := append (cw_state w) data in mkWriter (cw_sink w) (cw_sent w) s (cw_buf w ++ wire).

Definition chunk_write (buf : bytes) (w : ChunkWriter W) : ChunkWriter W * poll Z :=
  match chunk_flush w with
  | (w, Pending) => (w, Pending)
  | (w, Failed e) => (w, Failed e)
  | (w, Ready _) =>
      let chunk := take (Z.to_nat (Z.min (zlen buf) mx)) buf in
      match chunk_flush (chunk_append w chunk) with
      | (w, Failed e) => (w, Failed e)
      | (w, _) => (w, Ready (zlen chunk))
      end
  end.

(** The chunks on the wire, from a state of the framer. *)
Fixpoint wire_of (s : W) (ps : list bytes) : bytes :=
  match ps with [] => [] | p :: ps => (append s p).2 ++ wire_of (append s p).1 ps end.

Definition state_after (s : W) (ps : list bytes) : W := foldl (fun s p => (append s p).1) s ps.

Definition chunk_wrote (s0 : W) (w : ChunkWriter W) (ps : list bytes) : Prop :=
  cw_sent w ++ cw_buf w = wire_of s0 ps /\ cw_state w = state_after s0 ps.

Lemma wire_of_snoc ps : forall s p, wire_of s (ps ++ [p]) = wire_of s ps ++ (append (state_after s ps) p).2.
Proof.
  induction ps as [| q ps IH]; intros s p; cbn [wire_of app]; [by rewrite app_nil_r |].
  by rewrite IH, app_assoc.
Qed.

Lemma chunk_flush_ok s0 w ps : chunk_wrote s0 w ps -> chunk_wrote s0 (chunk_flush w).1 ps.
Proof.
  intros [Hw Hs]. unfold chunk_flush. destruct (drain _ _ _) as [[[sink buf] sent] r] eqn:E.
  assert (H : chunk_wrote s0 (mkWriter sink sent (cw_state w) buf) ps).
  { split; [| done]. cbn [cw_sent cw_buf]. by rewrite (drain_ok _ _ _ _ _ _ _ E). }
  by destruct r.
Qed.

Lemma chunk_append_ok s0 w ps p : chunk_wrote s0 w ps -> chunk_wrote s0 (chunk_append w p) (ps ++ [p]).
Proof.
  intros [Hw Hs]. unfold chunk_append. rewrite (surjective_pairing (append (cw_state w) p)).
  split; cbn [cw_sent cw_buf cw_state].
  - by rewrite wire_of_snoc, app_assoc, Hw, Hs.
  - unfold state_after in *. rewrite foldl_app. cbn [foldl]. by rewrite Hs.
Qed.

Lemma chunk_write_ok s0 w ps buf :
  1 <= mx -> buf <> [] -> chunk_wrote s0 w ps ->
  match chunk_write buf w with
  | (w', Ready n) => exists p, chunk_wrote s0 w' (ps ++ [p]) /\ 1 <= zlen p <= mx /\ p = take (Z.to_nat n) buf
  | (w', Pending) => chunk_wrote s0 w' ps
  | (_, Failed _) => True
  end.
Proof.
  intros Hmx Hne Hw. apply chunk_flush_ok in Hw. unfold chunk_write.
  destruct (chunk_flush w) as [w1 [[] | |]]; [| done | done]. cbn [fst] in Hw.
  set (p := take _ buf). apply (chunk_append_ok _ _ _ p), chunk_flush_ok in Hw.
  assert (Hp : 1 <= zlen p <= mx).
  { unfold p, zlen. rewrite length_take. destruct buf; [done |]. simpl length. lia. }
  assert (Hn : p = take (Z.to_nat (zlen p)) buf).
  { unfold p at 2. unfold zlen at 1. rewrite Nat2Z.id, length_take. unfold p. f_equal. unfold zlen. lia. }
  destruct (chunk_flush (chunk_append w1 p)) as [w2 []]; [by exists p | by exists p | done].
Qed.

End writer.
