(* ===== verification/Crypto.v ===== *)
(** * Interfaces of the cryptographic libraries

    The ciphers and hash functions the protocols call are not part of the sources; they are
    records of operations with the laws the code relies on: an authenticated cipher opens what
    it sealed and adds a tag of sixteen bytes, a block cipher undoes its own encryption.  The
    instances at the end satisfy the laws without any secrecy. *)

From stdpp Require Import base list strings numbers.
From S2P Require Import Prelude.

(** [Aes256Gcm], [Aes128Gcm] and [ChaCha20Poly1305] of the [aead] traits: key, nonce,
    associated data and message; the tag follows the ciphertext.  Encryption fails only for
    messages of many gigabytes, longer than any the code builds. *)
Record Aead := mkAead {
  seal : bytes -> bytes -> bytes -> bytes -> bytes;
  open : bytes -> bytes -> bytes -> bytes -> option bytes;
}.

Definition TAG_LEN : Z := 16.

Class AeadLaws (a : Aead) := {
  open_seal : forall k n ad m, open a k n ad (seal a k n ad m) = Some m;
  seal_len : forall k n ad m, zlen (seal a k n ad m) = zlen m + TAG_LEN;
  open_len : forall k n ad c m, open a k n ad c = Some m -> zlen c = zlen m + TAG_LEN;
  seal_bytes : forall k n ad m, bytes_ok m -> bytes_ok (seal a k n ad m);
  open_bytes : forall k n ad c m, bytes_ok c -> open a k n ad c = Some m -> bytes_ok m;
}.

(** A block cipher on blocks of sixteen bytes. *)
Record BlockCipher := mkBlock {
  encrypt_block : bytes -> bytes -> bytes;
  decrypt_block : bytes -> bytes -> bytes;
}.

Class BlockLaws (b : BlockCipher) := {
  decrypt_encrypt : forall k m, zlen m = 16 -> decrypt_block b k (encrypt_block b k m) = m;
  encrypt_len : forall k m, zlen m = 16 -> zlen (encrypt_block b k m) = 16;
  decrypt_len : forall k m, zlen m = 16 -> zlen (decrypt_block b k m) = 16;
  decrypt_bytes : forall k m, bytes_ok m -> bytes_ok (decrypt_block b k m);
}.

(** A function that derives keys of [n] bytes. *)
Class KeyLen (derive : bytes -> bytes -> bytes) (n : Z) := key_len : forall c m, zlen (derive c m) = n.

(** ** Concrete instances *)

Definition byte_sum (l : bytes) : Z := foldr (fun b s => (b + 7 * s) mod 256) 0 l.

(** Sixteen bytes that depend on everything. *)
Definition toy_tag (k n ad m : bytes) : bytes := replicate 16 ((byte_sum k + byte_sum n + byte_sum ad + byte_sum m) mod 256).

Definition toy_aead : Aead := {|
  seal k n ad m := m ++ toy_tag k n ad m;
  open k n ad c :=
    if zlen c <? TAG_LEN then None
    else
      let m := take (Z.to_nat (zlen c - TAG_LEN)) c in
      if bytes_eqb (drop (Z.to_nat (zlen c - TAG_LEN)) c) (toy_tag k n ad m) then Some m else None;
|}.

#[global] Instance toy_aead_laws : AeadLaws toy_aead.
Proof.
  split; cbn [toy_aead seal open]; intros k n ad m.
  - assert (Hl : zlen (m ++ toy_tag k n ad m) = zlen m + TAG_LEN) by (by rewrite zlen_app).
    rewrite Hl. pose proof (zlen_nonneg m). unfold TAG_LEN in *. zcase.
    replace (Z.to_nat (zlen m + 16 - 16)) with (length m) by (unfold zlen; lia).
    rewrite take_app_length, drop_app_length. unfold bytes_eqb. by rewrite bool_decide_true.
  - by rewrite zlen_app.
  - intros m'. unfold TAG_LEN. destruct (Z.ltb_spec (zlen m) 16); [done |].
    destruct (bytes_eqb _ _); [| done]. intros [= <-]. unfold zlen in *. rewrite length_take. lia.
  - intros Hm. apply bytes_ok_app. split; [done |]. apply Forall_replicate. apply is_u8_of_mod.
  - intros m' Hm. destruct (_ <? _); [done |]. destruct (bytes_eqb _ _); [| done]. intros [= <-].
    by apply take_drop_bytes_ok.
Qed.

Definition toy_block : BlockCipher := {|
  encrypt_block k m := Z.lxor (byte_sum k) <$> reverse m;
  decrypt_block k m := reverse (Z.lxor (byte_sum k) <$> m);
|}.

Lemma byte_sum_u8 m : is_u 8 (byte_sum m).
Proof. destruct m; cbn [byte_sum foldr]; [by split | apply is_u8_of_mod]. Qed.

#[global] Instance toy_block_laws : BlockLaws toy_block.
Proof.
  split; cbn [toy_block encrypt_block decrypt_block]; intros k m.
  - intros _. rewrite <- list_fmap_compose, (list_fmap_ext _ id); [by rewrite list_fmap_id, reverse_involutive |].
    intros i x _. cbn. by rewrite <- Z.lxor_assoc, Z.lxor_nilpotent, Z.lxor_0_l.
  - unfold zlen. by rewrite length_fmap, length_reverse.
  - unfold zlen. by rewrite length_reverse, length_fmap.
  - intros Hm. unfold bytes_ok. apply Forall_reverse, Forall_fmap. revert Hm. apply Forall_impl.
    intros x Hx. cbn. apply (lxor_is_u 8); [lia | apply byte_sum_u8 | done].
Qed.

Definition toy_kdf (context material : bytes) : bytes := byte_sum (context ++ material) :: replicate 31 0.

#[global] Instance toy_kdf_len : KeyLen toy_kdf 32.
Proof. done. Qed.
