(* ===== verification/Ss2022.v ===== *)
(** Shadowsocks 2022 over TCP ([ss2022.rs], [ss2022/stream.rs], [ss2022/subkey.rs],
    [ss2022/variable_header.rs], [ss2022/replay.rs], [ss2022/inbound.rs],
    [ss2022/outbound.rs]): the stream of encrypted chunks with its read and write sides, the
    handshake of both ends, and the filter against replayed salts.

    The cipher and the key derivation are parameters; random salts and the clock are
    arguments of the operations that take them. *)

From stdpp Require Import base list strings numbers gmap sorting.
From S2P Require Import Prelude Address Streams Socks Chunks Crypto.

Definition MAX_CHUNK_SIZE : Z := 16384.
Definition READ_CHUNK_SIZE : nat := Z.to_nat 65536.

Definition make_nonce (counter : Z) : bytes := le_bytes 8 counter ++ [0; 0; 0; 0].

(** * The stream *)

Record Ss2022Stream := mkSs {
  ss_inner : list PollEvent;
  ss_sink : list WriteEvent;
  ss_sent : bytes;
  read_key : bytes;
  write_key : bytes;
  read_counter : Z;
  ss_read_buf : bytes;
  read_raw : bytes;
  write_counter : Z;
  write_buf : bytes;
  response_header : option bytes;
}.

Definition new_bidir (inner : list PollEvent) (sink : list WriteEvent) (read_subkey : bytes) (read_start_nonce : Z)
    (write_subkey : bytes) (write_start_nonce : Z) (initial_read : bytes) (response_header : option bytes)
  : Ss2022Stream :=
  mkSs inner sink [] read_subkey write_subkey read_start_nonce initial_read [] write_start_nonce [] response_header.

(** The two halves of the state: the decoder is the counter, the framer the counter and the
    header that the first chunk of a response carries. *)
Definition ss_reader (st : Ss2022Stream) : ChunkReader Z :=
  mkReader (ss_inner st) (read_counter st) (ss_read_buf st) (read_raw st).

Definition put_reader (st : Ss2022Stream) (r : ChunkReader Z) : Ss2022Stream :=
  mkSs (cr_inner r) (ss_sink st) (ss_sent st) (read_key st) (write_key st) (cr_dec r) (cr_buf r) (cr_raw r)
    (write_counter st) (write_buf st) (response_header st).

Definition ss_writer (st : Ss2022Stream) : ChunkWriter (Z * option bytes) :=
  mkWriter (ss_sink st) (ss_sent st) (write_counter st, response_header st) (write_buf st).

Definition put_writer (st : Ss2022Stream) (w : ChunkWriter (Z * option bytes)) : Ss2022Stream :=
  mkSs (ss_inner st) (cw_sink w) (cw_sent w) (read_key st) (write_key st) (read_counter st) (ss_read_buf st)
    (read_raw st) (cw_state w).1 (cw_buf w) (cw_state w).2.

Section ss2022.
Context (gcm : Aead).

(** ** Reading *)

(** The counter and the ciphertext left, and the chunk if there is a whole one. *)
Definition try_decrypt_chunk (key : bytes) (counter : Z) (src : bytes) : Z * bytes * Decrypted :=
  if zlen src <? 18 then (counter, src, NeedMore)
  else
    match open gcm key (make_nonce counter) [] (take 18 src) with
    | None => (counter, src, Bad)
    | Some len_plain =>
        let data_len := be_val len_plain in
        let next := wrap 64 (counter + 1) in
        if data_len =? 0 then (next, drop 18 src, Plain [])
        else
          let total := 18 + data_len + 16 in
          if zlen src <? total then (counter, src, NeedMore)
          else
            let rest := drop (Z.to_nat total) src in
            let data_ct := take (Z.to_nat (data_len + 16)) (drop 18 src) in
            match open gcm key (make_nonce next) [] data_ct with
            | None => (next, rest, Bad)
            | Some plain => (wrap 64 (next + 1), rest, Plain plain)
            end
    end.

Definition ss_poll_read (cap : Z) (st : Ss2022Stream) : option (Ss2022Stream * poll bytes) :=
  read_part put_reader st (chunk_poll_read READ_CHUNK_SIZE (try_decrypt_chunk (read_key st)) cap (ss_reader st)).

(** ** Writing *)

(** What is appended to the write buffer: first field, data, each under its own nonce; the
    first chunk of a response carries the fixed header in place of the length. *)
Definition append_encrypted_chunk (key : bytes) (st : Z * option bytes) (data : bytes) : (Z * option bytes) * bytes :=
  let '(counter, header) := st in
  let first := match header with
               | Some fixed_header => take 41 fixed_header ++ be_bytes 2 (zlen data)
               | None => be_bytes 2 (zlen data)
               end in
  let next := wrap 64 (counter + 1) in
  let wire := seal gcm key (make_nonce counter) [] first ++ seal gcm key (make_nonce next) [] data in
  ((wrap 64 (next + 1), None), wire).

Definition ss_poll_flush (st : Ss2022Stream) : Ss2022Stream * poll unit :=
  let '(w, r) := chunk_flush (ss_writer st) in (put_writer st w, r).

Definition ss_poll_write (buf : bytes) (st : Ss2022Stream) : Ss2022Stream * poll Z :=
  let '(w, r) := chunk_write (append_encrypted_chunk (write_key st)) MAX_CHUNK_SIZE buf (ss_writer st) in
  (put_writer st w, r).

#[global] Instance Ss2022Stream_reader : AsyncReader Ss2022Stream :=
  { rd_poll := ss_poll_read; rd_inner := ss_inner }.

#[global] Instance Ss2022Stream_writer : AsyncWriter Ss2022Stream :=
  { wr_write := ss_poll_write; wr_flush := ss_poll_flush }.

(** ** The chunks on the wire *)

(** Payloads a chunk can carry: not empty, which would end the stream, and of 16-bit length. *)
Definition chunk_ok (p : bytes) : Prop := 1 <= zlen p <= 65535.

Definition stream_wire (key : bytes) (c : Z) (ps : list bytes) : bytes :=
  wire_of (append_encrypted_chunk key) (c, None) ps.

Definition ss_frames (key : bytes) (c : Z) (w : bytes) (ps : list bytes) : Prop :=
  Forall chunk_ok ps /\ w = stream_wire key c ps.

Context `{!AeadLaws gcm}.

Lemma seal_length k n ad m : length (seal gcm k n ad m) = (length m + 16)%nat.
Proof. pose proof (seal_len k n ad m) as H. unfold zlen, TAG_LEN in H. lia. Qed.

Lemma try_decrypt_ok key : decrypts (try_decrypt_chunk key) (ss_frames key).
Proof.
  intros c raw inc ps Hfr. pose proof Hfr as [Hps Hw]. unfold try_decrypt_chunk. destruct ps as [| p ps]; cbn in Hw.
  { apply app_eq_nil in Hw as [-> ->]. done. }
  rewrite <- app_assoc in Hw. apply Forall_cons_iff in Hps as [Hp Hps]. unfold chunk_ok in Hp.
  assert (Hall : inc = [] -> (34 + length p <= length raw)%nat).
  { intros ->. rewrite app_nil_r in Hw. rewrite Hw, !length_app, !seal_length, length_be_bytes. lia. }
  destruct (Z.ltb_spec (zlen raw) 18) as [Hs | Hs].
  { split; [done |]. intros E. specialize (Hall E). unfold zlen in Hs. lia. }
  assert (H18 : take 18 raw = seal gcm key (make_nonce c) [] (be_bytes 2 (zlen p))).
  { rewrite <- (take_app_le raw inc) by (unfold zlen in Hs; lia). rewrite Hw.
    apply take_app_length'. by rewrite seal_length, length_be_bytes. }
  rewrite H18, open_seal, be_val_be_bytes by (change (256 ^ Z.of_nat 2) with 65536; lia).
  rewrite (proj2 (Z.eqb_neq (zlen p) 0)) by lia.
  destruct (Z.ltb_spec (zlen raw) (18 + zlen p + 16)) as [Ht | Ht].
  { split; [done |]. intros E. specialize (Hall E). unfold zlen in Ht. lia. }
  assert (Hd : take (Z.to_nat (zlen p + 16)) (drop 18 raw) = seal gcm key (make_nonce (wrap 64 (c + 1))) [] p).
  { unfold zlen in *. rewrite <- (take_app_le (drop 18 raw) inc) by (rewrite length_drop; lia).
    rewrite <- drop_app_le by lia. rewrite Hw.
    rewrite drop_app_length' by (by rewrite seal_length, length_be_bytes).
    apply take_app_length'. rewrite seal_length. lia. }
  rewrite Hd, open_seal. split; [intros ->; unfold zlen in Hp; simpl in Hp; lia |]. exists ps. split; [done |].
  split; [done |]. unfold zlen in *. rewrite <- drop_app_le by lia. rewrite Hw, app_assoc.
  apply drop_app_length'. rewrite length_app, !seal_length, length_be_bytes. lia.
Qed.

(** What a reading state still carries. *)
Definition ss_carries (st : Ss2022Stream) (d : bytes) : Prop := chunk_carries (ss_frames (read_key st)) (ss_reader st) d.

#[global] Instance Ss2022Stream_spec : ReaderSpec Ss2022Stream ss_carries.
Proof.
  intros cap st d Hcap Hc Hd.
  apply (read_part_post put_reader cr_inner (chunk_carries (ss_frames (read_key st)))); [done | by intros [] ? |].
  apply chunk_poll_read_ok; [unfold READ_CHUNK_SIZE; lia | apply try_decrypt_ok | done..].
Qed.

(** The chunks a writer has framed: on the wire and in the buffer. *)
Definition ss_wrote (key : bytes) (c0 : Z) (st : Ss2022Stream) (ps : list bytes) : Prop :=
  write_key st = key /\ chunk_wrote (append_encrypted_chunk key) (c0, None) (ss_writer st) ps.

Lemma put_writer_wrote key c0 st w ps :
  write_key st = key -> chunk_wrote (append_encrypted_chunk key) (c0, None) w ps -> ss_wrote key c0 (put_writer st w) ps.
Proof. intros Hk [Hw Hs]. split; [done |]. split; [done |]. cbn. by rewrite <- surjective_pairing. Qed.

#[global] Instance Ss2022Stream_write_spec key c0 : WriterSpec Ss2022Stream MAX_CHUNK_SIZE (ss_wrote key c0).
Proof.
  split.
  - intros buf st ps Hne [Hk Hw]. cbn [wr_write Ss2022Stream_writer]. unfold ss_poll_write. rewrite Hk.
    pose proof (chunk_write_ok (append_encrypted_chunk key) MAX_CHUNK_SIZE (c0, None) (ss_writer st) ps buf) as H.
    specialize (H ltac:(done) Hne Hw). destruct (chunk_write _ _ _ _) as [w [n | |]]; [| by apply put_writer_wrote | done].
    destruct H as (p & H & Hp). exists p. split; [by apply put_writer_wrote | done].
  - intros st ps [Hk Hw]. cbn [wr_flush Ss2022Stream_writer]. unfold ss_poll_flush.
    apply chunk_flush_ok in Hw. destruct (chunk_flush _) as [w [| |]]; by try apply put_writer_wrote.
Qed.

(** C6. Bytes written to one end of a Shadowsocks 2022 stream are read at the other.  Let a
    caller write any non-empty buffers and flush, in any order, over a stream that takes the
    ciphertext in pieces and makes it wait; [accepted] is what the writes reported as written.
    When the ciphertext framed so far arrives, cut into reads in any way, a reader with the
    same key and nonce counter gets exactly [accepted]: a prefix after any number of reads,
    all of it after as many as there are bytes and waits, and no error. *)
Theorem ss2022_stream_roundtrip (ops : list WriteOp) (sink sink' : list WriteEvent) (key other : bytes) (c0 c1 : Z)
    (st : Ss2022Stream) (accepted : bytes) (evs : list PollEvent) (caps : list Z) :
  Forall write_op_ok ops ->
  write_run ops (new_bidir [] sink other c1 key c0 [] None) [] = Some (st, accepted) ->
  clean evs -> incoming evs = ss_sent st ++ write_buf st -> Forall (Z.le 1) caps ->
  reads_all caps (new_bidir evs sink' key c0 other c1 [] None) accepted.
Proof.
  intros Hops Hrun Hc Hi Hcaps.
  destruct (write_run_ok (wrote := ss_wrote key c0) ops Hops (new_bidir [] sink other c1 key c0 [] None) [] [] st accepted)
    as (ps & [_ [Hw _]] & Hps & ->); [done | constructor | done | done |].
  apply carries_reads_all; [done | done |]. exists ps. split; [split |]; [| exact (eq_trans Hi Hw) | done].
  eapply Forall_impl; [exact Hps |]. unfold chunk_ok, MAX_CHUNK_SIZE. lia.
Qed.

End ss2022.

(** The writes of two buffers over a stream that takes ten bytes, then waits, then takes the
    rest. *)
Lemma ss2022_stream_roundtrip_witness :
  let ops := [WWrite (lit "hello"); WWrite (lit "no"); WWrite (lit "world"); WFlush] in
  let sink := [WAccept 10; WPending; WPending; WAccept 99; WAccept 99; WAccept 99] in
  let st0 := new_bidir [] sink [1] 2 [9] 2 [] None in
  exists st, @write_run _ (Ss2022Stream_writer toy_aead) ops st0 [] = Some (st, lit "helloworld")
  /\ (let wire := ss_sent st ++ write_buf st in
      let rd := new_bidir [PData (take 20 wire); PPending; PData (drop 20 wire)] [] [9] 2 [1] 2 [] None in
      @reads_all _ (Ss2022Stream_reader toy_aead) (replicate 11 3) rd (lit "helloworld")).
Proof.
  eexists. split; [vm_compute; reflexivity |]. cbv zeta.
  eapply (ss2022_stream_roundtrip toy_aead [WWrite (lit "hello"); WWrite (lit "no"); WWrite (lit "world"); WFlush]
            [WAccept 10; WPending; WPending; WAccept 99; WAccept 99; WAccept 99]).
  - decided.
  - vm_compute. reflexivity.
  - decided.
  - vm_compute. reflexivity.
  - decided.
Defined.

(** A write of no bytes sends a chunk of length zero, which is the end of the stream for the
    reader: what is written after it is not read. *)
Lemma empty_write_ends_stream :
  exists st, @write_run _ (Ss2022Stream_writer toy_aead) [WWrite (lit "a"); WWrite []; WWrite (lit "b"); WFlush]
               (new_bidir [] (replicate 9 (WAccept 99)) [1] 2 [9] 2 [] None) [] = Some (st, lit "ab")
  /\ snd <$> @polls _ (Ss2022Stream_reader toy_aead) [9; 9; 9]
       (new_bidir [PData (ss_sent st)] [] [9] 2 [1] 2 [] None) = None
  /\ snd <$> @polls _ (Ss2022Stream_reader toy_aead) [9; 9]
       (new_bidir [PData (ss_sent st)] [] [9] 2 [1] 2 [] None) = Some (lit "a").
Proof. eexists. split; [vm_compute; reflexivity |]. by vm_compute. Qed.

(** * The replay filter *)

(** Times of the monotonic clock, in milliseconds. *)
Definition TTL_MILLIS : Z := 60 * 1000.

(** The salts with the time they were seen first. *)
Abbreviation SaltReplay := (gmap bytes Z).

Definition check_and_insert (salt : bytes) (now : Z) (f : SaltReplay) : SaltReplay * bool :=
  match f !! salt with
  | Some _ => (f, false)
  | None => (<[salt := now]> f, true)
  end.

(** A turn of the background task. *)
Definition reap (now : Z) (f : SaltReplay) : SaltReplay := filter (fun p => now - p.2 < TTL_MILLIS) f.

(** * The handshake *)

Definition SUBKEY_CONTEXT : bytes := lit "shadowsocks 2022 session subkey".
Definition MAX_TIME_DIFF : Z := 30.
Definition TYPE_TCP : Z := 0x00.
Definition TYPE_SERVER : Z := 0x01.

Definition abs_diff (a b : Z) : Z := Z.abs (a - b).

Definition u64_from_be8 (bs : bytes) : res ProxyError Z :=
  if zlen bs =? 8 then Ok (be_val bs) else Err (Protocol "SS-2022: timestamp field must be 8 bytes").

Definition build_request_variable_header (dest : Address) : res ProxyError bytes :=
  buf ← write_socks5_address dest;
  Ok (buf ++ be_bytes 2 0).

Definition parse_variable_header (data : bytes) : res ProxyError (Address * bytes) :=
  if zlen data =? 0 then Err (Protocol "SS-2022: empty variable header")
  else
    atyp ← idx data 0;
    tail ← slice_from data 1;
    '(dest, consumed) ← decode_socks5_address tail atyp "SS-2022";
    let pos := 1 + consumed in
    if pos + 2 >? zlen data then Err (Protocol "SS-2022: truncated padding length")
    else
      p0 ← idx data pos;
      p1 ← idx data (pos + 1);
      let pad_len := be_val [p0; p1] in
      let pos := pos + 2 in
      if pos + pad_len >? zlen data then Err (Protocol "SS-2022: truncated padding")
      else
        rest ← slice_from data (pos + pad_len);
        Ok (dest, rest).

Definition build_response_fixed_header (req_salt : bytes) (ts : Z) : bytes :=
  [TYPE_SERVER] ++ be_bytes 8 ts ++ req_salt ++ [0; 0].

(** The end of a handshake: destination (of the server), keys for reading and writing, and
    the payload that came with it.  Both counters go on from 2. *)
Record Session := mkSession {
  s_dest : option Address;
  s_read_key : bytes;
  s_write_key : bytes;
  s_initial : bytes;
}.

Definition session_stream (s : Session) (evs : list PollEvent) (sink : list WriteEvent) : Ss2022Stream :=
  new_bidir evs sink (s_read_key s) 2 (s_write_key s) 2 (s_initial s) None.

Section handshake.
Context (gcm : Aead) (derive : bytes -> bytes -> bytes).

Definition derive_subkey (psk salt : bytes) : bytes := derive SUBKEY_CONTEXT (psk ++ salt).

Definition open_or (m : option bytes) (msg : string) : res ProxyError bytes := ok_or m (Protocol msg).

(** The connection and the filter the handler shares between its connections. *)
Abbreviation serverM := (stE (Duplex * SaltReplay) ProxyError).

Definition on_stream {A} (m : duplexM A) : serverM A := fun st =>
  let '(d, r) := m st.1 in ((d, st.2), r).

(** [Ss2022Inbound::handle] up to the dispatch: [instant] and [now] are the monotonic clock
    and the time in seconds, [resp_salt] the random salt. *)
Definition ss2022_handle (psk : bytes) (instant now : Z) (resp_salt : bytes) : serverM Session :=
  req_salt ← on_stream (recv (read_exact 32));
  fresh ← (fun st => let '(f, b) := check_and_insert req_salt instant st.2 in ((st.1, f), Ok b));
  if negb (fresh : bool) then st_fail AuthFailed
  else
    let req_subkey := derive_subkey psk req_salt in
    fixed_ct ← on_stream (recv (read_exact 27));
    fixed ← st_lift (open_or (open gcm req_subkey (make_nonce 0) [] fixed_ct) "SS-2022: fixed header decrypt failed");
    kind ← st_lift (if zlen fixed =? 11 then idx fixed 0 else Ok 0xFF);
    if negb (zlen fixed =? 11) || negb (kind =? TYPE_TCP) then st_fail (Protocol "SS-2022: invalid request fixed header")
    else
      ts_bytes ← st_lift (slice fixed 1 9);
      ts ← st_lift (u64_from_be8 ts_bytes);
      if abs_diff ts now >? MAX_TIME_DIFF then st_fail AuthFailed
      else
        l0 ← st_lift (idx fixed 9);
        l1 ← st_lift (idx fixed 10);
        let variable_len := be_val [l0; l1] in
        var_ct ← on_stream (recv (read_exact (variable_len + 16)));
        variable ← st_lift (open_or (open gcm req_subkey (make_nonce 1) [] var_ct)
                              "SS-2022: variable header decrypt failed");
        '(dest, initial_payload) ← st_lift (parse_variable_header variable);
        _ ← on_stream (write_all resp_salt);
        let resp_subkey := derive_subkey psk resp_salt in
        _ ← on_stream (write_all (seal gcm resp_subkey (make_nonce 0) [] (build_response_fixed_header req_salt now)));
        _ ← on_stream (write_all (seal gcm resp_subkey (make_nonce 1) [] []));
        mret (mkSession (Some dest) req_subkey resp_subkey initial_payload).

(** [open_ss2022_stream]: [ts] and [now] are the times in seconds when the request is sent
    and when the response is read. *)
Definition open_ss2022_stream (psk : bytes) (dest : Address) (req_salt : bytes) (ts now : Z) : duplexM Session :=
  _ ← write_all req_salt;
  let req_subkey := derive_subkey psk req_salt in
  variable ← st_lift (build_request_variable_header dest);
  let fixed := [TYPE_TCP] ++ be_bytes 8 ts ++ be_bytes 2 (zlen variable) in
  _ ← write_all (seal gcm req_subkey (make_nonce 0) [] fixed);
  _ ← write_all (seal gcm req_subkey (make_nonce 1) [] variable);
  resp_salt ← recv (read_exact 32);
  let resp_subkey := derive_subkey psk resp_salt in
  resp_hdr_ct ← recv (read_exact 59);
  resp_hdr ← st_lift (open_or (open gcm resp_subkey (make_nonce 0) [] resp_hdr_ct)
                        "SS-2022: response header decrypt failed");
  kind ← st_lift (if zlen resp_hdr =? 43 then idx resp_hdr 0 else Ok 0xFF);
  if negb (zlen resp_hdr =? 43) || negb (kind =? TYPE_SERVER) then
    st_fail (Protocol "SS-2022: invalid response header type")
  else
    ts_bytes ← st_lift (slice resp_hdr 1 9);
    resp_ts ← st_lift (u64_from_be8 ts_bytes);
    if abs_diff resp_ts now >? MAX_TIME_DIFF then st_fail AuthFailed
    else
      l0 ← st_lift (idx resp_hdr 41);
      l1 ← st_lift (idx resp_hdr 42);
      let initial_len := be_val [l0; l1] in
      initial_ct ← recv (read_exact (initial_len + 16));
      initial_pt ← st_lift (open_or (open gcm resp_subkey (make_nonce 1) [] initial_ct)
                              "SS-2022: initial payload decrypt failed");
      mret (mkSession None resp_subkey req_subkey initial_pt).

(** ** Agreement *)

Context `{!AeadLaws gcm}.

Lemma parse_variable_ok dest t body pad initial :
  wf_address dest -> write_socks5_address dest = Ok (t :: body) -> zlen pad < 65536 ->
  parse_variable_header ((t :: body) ++ be_bytes 2 (zlen pad) ++ pad ++ initial) = Ok (dest, initial).
Proof.
  intros Hwf Hw Hpad. unfold parse_variable_header. cbn [app]. pose proof (zlen_nonneg body).
  rewrite (proj2 (Z.eqb_neq _ 0)) by len_solve.
  erewrite rbind_ok by reflexivity.
  erewrite rbind_ok by (apply (slice_from_app [t]); reflexivity).
  erewrite rbind_ok by (by apply decode_socks5_body). cbv beta iota.
  pose proof (zlen_nonneg pad). pose proof (zlen_nonneg initial).
  assert (Hl : zlen (t :: body ++ be_bytes 2 (zlen pad) ++ pad ++ initial)
               = 1 + zlen body + 2 + zlen pad + zlen initial) by len_solve.
  rewrite Hl. zcase. rewrite be_bytes_2.
  erewrite rbind_ok by (apply (idx_app_mid (t :: body)); len_solve).
  erewrite rbind_ok by (apply (idx_shift (t :: body) _ _ 1); [reflexivity | len_solve]). cbv zeta.
  rewrite <- be_bytes_2, be_val_be_bytes by (change (256 ^ Z.of_nat 2) with 65536; lia). zcase.
  rewrite !app_assoc. change (t :: ?x) with ([t] ++ x). rewrite !app_assoc.
  erewrite rbind_ok by (apply slice_from_app; len_solve). done.
Qed.

(** The request of a client and the response of a server as bytes. *)
Definition request_wire (psk req_salt : bytes) (ts : Z) (variable : bytes) : bytes :=
  let key := derive_subkey psk req_salt in
  req_salt ++ seal gcm key (make_nonce 0) [] ([TYPE_TCP] ++ be_bytes 8 ts ++ be_bytes 2 (zlen variable))
  ++ seal gcm key (make_nonce 1) [] variable.

Definition response_wire (psk resp_salt req_salt : bytes) (ts : Z) : bytes :=
  let key := derive_subkey psk resp_salt in
  resp_salt ++ seal gcm key (make_nonce 0) [] (build_response_fixed_header req_salt ts)
  ++ seal gcm key (make_nonce 1) [] [].

Lemma on_stream_ok {A} (m : duplexM A) d d' f a :
  m d = (d', Ok a) -> on_stream m (d, f) = ((d', f), Ok a).
Proof. intros H. unfold on_stream. cbn [fst snd]. by rewrite H. Qed.

(** The eight bytes of a time after the type byte. *)
Lemma time_field (b ts : Z) r :
  0 <= ts < 2 ^ 64 -> slice (E:=ProxyError) ([b] ++ be_bytes 8 ts ++ r) 1 9 = Ok (be_bytes 8 ts)
                      /\ u64_from_be8 (be_bytes 8 ts) = Ok ts.
Proof.
  intros Hts. split; [apply (slice_app3 [b]); [done | len_solve] |].
  unfold u64_from_be8. rewrite zlen_be_bytes. change (Z.of_nat 8 =? 8) with true. cbn match.
  rewrite be_val_be_bytes; [done |]. change (256 ^ Z.of_nat 8) with (2 ^ 64). lia.
Qed.

(** The two bytes of a length behind a prefix. *)
Lemma length_field (l : bytes) n r i :
  i = zlen l -> 0 <= n < 65536 ->
  exists a b, idx (E:=ProxyError) (l ++ be_bytes 2 n ++ r) i = Ok a
    /\ idx (E:=ProxyError) (l ++ be_bytes 2 n ++ r) (i + 1) = Ok b /\ be_val [a; b] = n.
Proof.
  intros -> Hn. rewrite be_bytes_2. eexists _, _. split; [by apply (idx_app_mid l) |].
  split; [by apply (idx_shift l _ _ 1) |]. apply be_val_2_port. unfold is_u. lia.
Qed.

Lemma handle_ok psk instant now resp_salt req_salt ts variable dest initial up out f :
  zlen req_salt = 32 -> f !! req_salt = None -> 0 <= ts < 2 ^ 64 -> abs_diff ts now <= MAX_TIME_DIFF ->
  zlen variable < 65536 -> parse_variable_header variable = Ok (dest, initial) ->
  ss2022_handle psk instant now resp_salt (mkDuplex (request_wire psk req_salt ts variable ++ up) out, f)
  = ((mkDuplex up (out ++ response_wire psk resp_salt req_salt now), <[req_salt := instant]> f),
     Ok (mkSession (Some dest) (derive_subkey psk req_salt) (derive_subkey psk resp_salt) initial)).
Proof.
  intros Hsalt Hfresh Hts Hdrift Hvl Hparse. unfold ss2022_handle, request_wire. rewrite <- !app_assoc.
  set (fixed := [TYPE_TCP] ++ be_bytes 8 ts ++ be_bytes 2 (zlen variable)).
  assert (Hfl : zlen fixed = 11) by (unfold fixed; len_solve).
  destruct (time_field TYPE_TCP ts (be_bytes 2 (zlen variable)) Hts) as [Hslice Hu64]. fold fixed in Hslice.
  pose proof (zlen_nonneg variable).
  destruct (length_field ([TYPE_TCP] ++ be_bytes 8 ts) (zlen variable) [] 9) as (l0 & l1 & H0 & H1 & Hlen); [done | lia |].
  rewrite app_nil_r, <- app_assoc in H0, H1. fold fixed in H0, H1.
  erewrite sbind_ok by (apply on_stream_ok, recv_app; by apply read_exact_app).
  erewrite sbind_ok by (unfold check_and_insert; cbn [fst snd]; rewrite Hfresh; reflexivity).
  cbn [negb]. cbv zeta.
  erewrite sbind_ok by (apply on_stream_ok, recv_app, read_exact_app; rewrite seal_len, Hfl; reflexivity).
  rewrite open_seal.
  erewrite sbind_ok by reflexivity. rewrite Hfl. change (11 =? 11) with true. cbn match.
  erewrite sbind_ok by reflexivity. change (negb true || negb (TYPE_TCP =? TYPE_TCP)) with false. cbn match.
  erewrite sbind_ok by (unfold st_lift; rewrite Hslice; reflexivity).
  erewrite sbind_ok by (unfold st_lift; rewrite Hu64; reflexivity).
  zcase. erewrite sbind_ok by (unfold st_lift; rewrite H0; reflexivity).
  erewrite sbind_ok by (unfold st_lift; change 10 with (9 + 1); rewrite H1; reflexivity). cbv zeta. rewrite Hlen.
  erewrite sbind_ok by (apply on_stream_ok, recv_app, read_exact_app; by rewrite seal_len).
  rewrite open_seal. erewrite sbind_ok by reflexivity.
  erewrite sbind_ok by (unfold st_lift; rewrite Hparse; reflexivity). cbv beta iota.
  do 3 erewrite sbind_ok by reflexivity. unfold response_wire. by rewrite !app_assoc.
Qed.

Lemma open_ok psk dest req_salt resp_salt other ts now srv_now variable down :
  zlen resp_salt = 32 -> zlen other = 32 -> 0 <= srv_now < 2 ^ 64 -> abs_diff srv_now now <= MAX_TIME_DIFF ->
  build_request_variable_header dest = Ok variable ->
  open_ss2022_stream psk dest req_salt ts now (mkDuplex (response_wire psk resp_salt other srv_now ++ down) [])
  = (mkDuplex down (request_wire psk req_salt ts variable),
     Ok (mkSession None (derive_subkey psk resp_salt) (derive_subkey psk req_salt) [])).
Proof.
  intros Hsalt Hother Hts Hdrift Hvar. unfold open_ss2022_stream, response_wire. rewrite <- !app_assoc.
  set (hdr := build_response_fixed_header other srv_now).
  assert (Hhl : zlen hdr = 43) by (unfold hdr, build_response_fixed_header; len_solve).
  destruct (time_field TYPE_SERVER srv_now (other ++ [0; 0]) Hts) as [Hslice Hu64].
  destruct (length_field ([TYPE_SERVER] ++ be_bytes 8 srv_now ++ other) 0 [] 41) as (l0 & l1 & H0 & H1 & Hlen);
    [len_solve | lia |].
  rewrite app_nil_r, <- !app_assoc in H0, H1. change (be_bytes 2 0) with [0; 0] in H0, H1.
  fold (build_response_fixed_header other srv_now) in Hslice, H0, H1. fold hdr in Hslice, H0, H1.
  erewrite sbind_ok by reflexivity. cbv zeta.
  erewrite sbind_ok by (unfold st_lift; rewrite Hvar; reflexivity). cbv zeta.
  do 2 erewrite sbind_ok by reflexivity. cbn [input output app].
  erewrite sbind_ok by (apply recv_app; by apply read_exact_app). cbv zeta.
  erewrite sbind_ok by (apply recv_app, read_exact_app; rewrite seal_len, Hhl; reflexivity).
  rewrite open_seal. erewrite sbind_ok by reflexivity. rewrite Hhl. change (43 =? 43) with true. cbn match.
  erewrite sbind_ok by reflexivity. change (negb true || negb (TYPE_SERVER =? TYPE_SERVER)) with false. cbn match.
  erewrite sbind_ok by (unfold st_lift; rewrite Hslice; reflexivity).
  erewrite sbind_ok by (unfold st_lift; rewrite Hu64; reflexivity).
  zcase. erewrite sbind_ok by (unfold st_lift; rewrite H0; reflexivity).
  erewrite sbind_ok by (unfold st_lift; change 42 with (41 + 1); rewrite H1; reflexivity). cbv zeta. rewrite Hlen.
  erewrite sbind_ok by (apply recv_app, read_exact_app; by rewrite seal_len).
  rewrite open_seal. erewrite sbind_ok by reflexivity. unfold request_wire. by rewrite !app_assoc.
Qed.

(** C32. The two sides of the Shadowsocks 2022 handshake agree.  With the same pre-shared key,
    a salt the server has not seen and clocks at most thirty seconds apart, the server
    authenticates the request of the client, learns its destination and leaves what follows
    for the stream; the client accepts the response; each side reads with the key the other
    writes with.  The server refuses the same request when it comes again. *)
Theorem ss2022_handshake_agrees (psk req_salt resp_salt : bytes) (dest : Address) (ts now now' instant instant' : Z)
    (up down : bytes) (f : SaltReplay) :
  wf_address dest -> wire_encodable dest -> zlen req_salt = 32 -> zlen resp_salt = 32 -> f !! req_salt = None ->
  0 <= ts < 2 ^ 64 -> 0 <= now < 2 ^ 64 -> abs_diff ts now <= MAX_TIME_DIFF -> abs_diff now now' <= MAX_TIME_DIFF ->
  exists req resp f' c s,
    open_ss2022_stream psk dest req_salt ts now' (mkDuplex (resp ++ down) []) = (mkDuplex down req, Ok c)
    /\ ss2022_handle psk instant now resp_salt (mkDuplex (req ++ up) [], f) = ((mkDuplex up resp, f'), Ok s)
    /\ s_dest s = Some dest /\ s_initial s = [] /\ s_initial c = []
    /\ s_read_key s = s_write_key c /\ s_write_key s = s_read_key c
    /\ (ss2022_handle psk instant' now resp_salt (mkDuplex (req ++ up) [], f')).2 = Err AuthFailed.
Proof.
  intros Hwf Henc Hs Hr Hfresh Hts Hnow Hd1 Hd2.
  destruct (write_socks5_shape dest Hwf Henc) as (body & Hw & Hbody).
  set (t := match dest with Ipv4 _ _ => ATYP_IPV4 | Ipv6 _ _ => ATYP_IPV6 | Domain _ _ => ATYP_DOMAIN end) in *.
  set (variable := (t :: body) ++ be_bytes 2 0).
  assert (Hvar : build_request_variable_header dest = Ok variable).
  { unfold build_request_variable_header. by rewrite Hw. }
  assert (Hvl : zlen variable < 65536).
  { unfold variable. subst body. destruct dest; simpl in Hwf, Henc; destruct Hwf as (? & _); len_solve. }
  assert (Hparse : parse_variable_header variable = Ok (dest, [])).
  { pose proof (parse_variable_ok dest t body [] [] Hwf Hw ltac:(done)) as Hp. by rewrite !app_nil_r in Hp. }
  exists (request_wire psk req_salt ts variable), (response_wire psk resp_salt req_salt now),
    (<[req_salt := instant]> f). do 2 eexists.
  split; [by apply open_ok |]. split; [by apply handle_ok |].
  do 5 (split; [done |]). unfold ss2022_handle, request_wire. rewrite <- !app_assoc.
  erewrite sbind_ok by (apply on_stream_ok, recv_app; by apply read_exact_app).
  erewrite sbind_ok by (unfold check_and_insert; cbn [fst snd]; rewrite lookup_insert_eq; reflexivity). done.
Qed.

End handshake.

Lemma ss2022_handshake_agrees_witness :
  exists req resp f' c s,
    open_ss2022_stream toy_aead toy_kdf [7] (Domain (lit "example.com") 443) (replicate 32 1) 1000 1012
      (mkDuplex (resp ++ [5]) []) = (mkDuplex [5] req, Ok c)
    /\ ss2022_handle toy_aead toy_kdf [7] 0 1030 (replicate 32 2) (mkDuplex (req ++ [6]) [], ∅)
       = ((mkDuplex [6] resp, f'), Ok s)
    /\ s_dest s = Some (Domain (lit "example.com") 443) /\ s_initial s = [] /\ s_initial c = []
    /\ s_read_key s = s_write_key c /\ s_write_key s = s_read_key c
    /\ (ss2022_handle toy_aead toy_kdf [7] 5 1030 (replicate 32 2) (mkDuplex (req ++ [6]) [], f')).2 = Err AuthFailed.
Proof.
  apply (ss2022_handshake_agrees toy_aead toy_kdf); [decided | decided | done | done | done | lia | lia | done | done].
Defined.

(** The response names the salt of the request it answers, but the client does not look at
    it: a response to any other request is accepted as well. *)
Lemma response_not_bound (gcm : Aead) (derive : bytes -> bytes -> bytes) `{!AeadLaws gcm} psk dest req_salt resp_salt other
    ts now variable :
  zlen resp_salt = 32 -> zlen other = 32 -> 0 <= now < 2 ^ 64 -> build_request_variable_header dest = Ok variable ->
  is_ok (open_ss2022_stream gcm derive psk dest req_salt ts now
           (mkDuplex (response_wire gcm derive psk resp_salt other now) [])).2 = true.
Proof.
  intros Hr Ho Hn Hv. rewrite <- (app_nil_r (response_wire _ _ _ _ _ _)). erewrite open_ok; try done.
  unfold abs_diff, MAX_TIME_DIFF. lia.
Qed.

(** ** Replays *)

(** Attempts with a salt, and turns of the background task, at times of the monotonic
    clock. *)
Inductive ReplayEvent := Attempt (salt : bytes) (t : Z) | Reap (t : Z).

Definition event_time (e : ReplayEvent) : Z := match e with Attempt _ t => t | Reap t => t end.

(** The times at which the filter lets a salt pass. *)
Fixpoint passes (salt : bytes) (evs : list ReplayEvent) (f : SaltReplay) : list Z :=
  match evs with
  | [] => []
  | Attempt s t :: evs =>
      let '(f', fresh) := check_and_insert s t f in
      if fresh && bytes_eqb s salt then t :: passes salt evs f' else passes salt evs f'
  | Reap t :: evs => passes salt evs (reap t f)
  end.

(** Time does not go back from [t]. *)
Fixpoint ordered (t : Z) (evs : list ReplayEvent) : Prop :=
  match evs with [] => True | e :: evs => t <= event_time e /\ ordered (event_time e) evs end.

#[global] Instance ordered_dec evs : forall t, Decision (ordered t evs).
Proof. induction evs; intros t; simpl; apply _. Defined.

(** Either the salt is remembered since [last], or its time is over. *)
Definition remembered (salt : bytes) (last now : Z) (f : SaltReplay) : Prop :=
  f !! salt = Some last \/ (f !! salt = None /\ last + TTL_MILLIS <= now).

Lemma passes_apart salt evs : forall f last now,
  remembered salt last now f -> ordered now evs -> Forall (fun t => last + TTL_MILLIS <= t) (passes salt evs f)
    /\ StronglySorted (fun a b => a + TTL_MILLIS <= b) (passes salt evs f).
Proof.
  induction evs as [| e evs IH]; intros f last now Hr Ho; cbn [passes]; [by repeat constructor |].
  destruct e as [s t | t]; cbn [ordered event_time] in Ho; destruct Ho as [Ht Ho].
  - unfold check_and_insert. destruct (f !! s) eqn:Es.
    { cbn [andb]. apply (IH _ _ t); [| done]. destruct Hr as [Hr | [Hr Hl]]; [by left | right; split; [done | lia]]. }
    cbn [andb]. unfold bytes_eqb. destruct (bool_decide_reflect (s = salt)) as [-> | Hne].
    + destruct Hr as [Hr | [_ Hl]]; [congruence |].
      destruct (IH (<[salt := t]> f) t t) as [HF HS]; [left; apply lookup_insert_eq | done |].
      split.
      * constructor; [lia |]. eapply Forall_impl; [exact HF |]. cbv beta. unfold TTL_MILLIS in *. lia.
      * by constructor.
    + apply (IH _ _ t); [| done]. unfold remembered in *. rewrite lookup_insert_ne by done.
      destruct Hr as [Hr | [Hr Hl]]; [by left | right; split; [done | lia]].
  - apply (IH _ _ t); [| done]. unfold remembered, reap in *.
    destruct (decide (t - last < TTL_MILLIS)) as [Hy | Hn].
    + destruct Hr as [Hr | [_ Hl]]; [| lia]. left. apply map_lookup_filter_Some. by split.
    + right. split; [| lia]. apply map_lookup_filter_None. right. intros x Hx. cbn [snd].
      destruct Hr as [Hr | [Hr _]]; [| congruence]. rewrite Hr in Hx. by injection Hx as <-.
Qed.

(** The time in seconds at an instant of the monotonic clock. *)
Definition wall (offset t : Z) : Z := (t + offset) / 1000.

(** What the replay filter and the timestamp check exclude together.  If one request,
    with its salt and timestamp, passes both checks at two times, in any run of attempts and
    clean-ups and with a clock that runs evenly, then its timestamp was exactly thirty
    seconds ahead of the server at the first time and exactly thirty behind at the second,
    sixty seconds later.  In every other case the second attempt is refused.  The excepted
    case happens, as the witness shows: salts are dropped at sixty seconds, when such a
    timestamp is still accepted. *)
Theorem ss2022_replay_window (salt : bytes) (ts offset t0 t1 t2 : Z) (evs : list ReplayEvent) (f : SaltReplay) (i j : nat) :
  f !! salt = None -> ordered t0 evs ->
  passes salt evs f !! i = Some t1 -> passes salt evs f !! j = Some t2 -> (i < j)%nat ->
  abs_diff ts (wall offset t1) <= MAX_TIME_DIFF -> abs_diff ts (wall offset t2) <= MAX_TIME_DIFF ->
  t1 + TTL_MILLIS <= t2 /\ ts = wall offset t1 + 30 /\ wall offset t2 = wall offset t1 + 60.
Proof.
  intros Hf Ho H1 H2 Hij Hd1 Hd2.
  destruct (passes_apart salt evs f (t0 - TTL_MILLIS) t0) as [_ Hs]; [right; split; [done | lia] | done |].
  assert (Ht : t1 + TTL_MILLIS <= t2).
  { clear - Hs H1 H2 Hij. revert i j H1 H2 Hij. induction Hs as [| x l Hs IH Hx]; intros i j; [done |].
    destruct i as [| i], j as [| j]; cbn; intros H1 H2 Hij; [lia | | lia | apply (IH i j); [done | done | lia]].
    injection H1 as <-. by eapply Forall_lookup_1 in Hx. }
  unfold abs_diff, MAX_TIME_DIFF, TTL_MILLIS, wall in *.
  assert ((t2 + offset) / 1000 >= (t1 + offset) / 1000 + 60) by zdiv. lia.
Qed.

Lemma ss2022_replay_window_witness :
  500 + TTL_MILLIS <= 60900 /\ 30 = wall 0 500 + 30 /\ wall 0 60900 = wall 0 500 + 60.
Proof.
  apply (ss2022_replay_window [1] 30 0 0 500 60900 [Attempt [1] 500; Reap 60500; Attempt [1] 60900] ∅ 0 1);
    [done | decided | reflexivity | reflexivity | lia | decided | decided].
Defined.
