(* ===== verification/Ss2022Udp.v ===== *)
(** Shadowsocks 2022 over UDP ([ss2022/udp.rs]): the packets of both directions and the relay
    with its table of sessions, their upstream sockets and the tasks that send replies back.

    Ciphers and key derivation are parameters; sockets, random session ids, name resolution
    and the clock are given with each step. *)

From stdpp Require Import base list strings numbers gmap.
From S2P Require Import Prelude Address Crypto Ss2022.

Definition TYPE_CLIENT : Z := 0x00.
Definition MAX_SESSIONS : Z := 4096.
Definition AEAD_TAG_LEN : Z := 16.
Definition SEPARATE_HEADER_LEN : Z := 16.

Section packets.
Context (gcm : Aead) (aes : BlockCipher) (derive : bytes -> bytes -> bytes).

Definition derive_session_key (psk session_id : bytes) : bytes :=
  derive (lit "shadowsocks 2022 session subkey") (psk ++ session_id).

Definition decrypt_separate_header (psk wire : bytes) : res ProxyError bytes :=
  if zlen wire <? SEPARATE_HEADER_LEN then Err (Protocol "SS2022 UDP packet too short")
  else
    block ← slice wire 0 SEPARATE_HEADER_LEN;
    Ok (decrypt_block aes psk block).

Definition encrypt_separate_header (psk plain : bytes) : bytes := encrypt_block aes psk plain.

Definition aead_nonce (header : bytes) : res ProxyError bytes := slice header 4 16.

(** The checks on the decrypted body, with the destination and payload it carries. *)
Definition parse_client_body (now : Z) (plaintext : bytes) : res ProxyError (Address * bytes) :=
  kind ← (if zlen plaintext =? 0 then Ok 0xFF else idx plaintext 0);
  if (zlen plaintext =? 0) || negb (kind =? TYPE_CLIENT) then Err (Protocol "SS2022 UDP unexpected type")
  else if zlen plaintext <? 11 then Err (Protocol "SS2022 UDP plaintext too short")
  else
    ts_bytes ← slice plaintext 1 9;
    if abs_diff (be_val ts_bytes) now >? MAX_TIME_DIFF then Err AuthFailed
    else
      p0 ← idx plaintext 9;
      p1 ← idx plaintext 10;
      let pad_len := be_val [p0; p1] in
      let pos := 11 + pad_len in
      if pos >=? zlen plaintext then Err (Protocol "SS2022 UDP truncated after padding")
      else
        atyp ← idx plaintext pos;
        tail ← slice_from plaintext (pos + 1);
        '(dest, consumed) ← decode_socks5_address tail atyp "SS2022 UDP";
        payload ← slice_from plaintext (pos + 1 + consumed);
        Ok (dest, payload).

Definition decode_client_packet (now : Z) (buf psk : bytes) : res ProxyError (Z * Z * Address * bytes) :=
  header ← decrypt_separate_header psk buf;
  sid ← slice header 0 8;
  pid ← slice header 8 16;
  if zlen buf <? SEPARATE_HEADER_LEN + AEAD_TAG_LEN + 1 then Err (Protocol "SS2022 UDP ciphertext too short")
  else
    ciphertext ← slice_from buf SEPARATE_HEADER_LEN;
    nonce ← aead_nonce header;
    plaintext ← ok_or (open gcm (derive_session_key psk sid) nonce [] ciphertext)
                  (Protocol "SS2022 UDP decrypt failed");
    '(dest, payload) ← parse_client_body now plaintext;
    Ok (be_val sid, be_val pid, dest, payload).

Definition encode_client_packet (ts : Z) (psk : bytes) (client_session_id packet_id : Z) (dest : Address)
    (payload : bytes) : res ProxyError bytes :=
  addr ← write_socks5_address dest;
  let plain := [TYPE_CLIENT] ++ be_bytes 8 ts ++ be_bytes 2 0 ++ addr ++ payload in
  let sep_plain := be_bytes 8 client_session_id ++ be_bytes 8 packet_id in
  sid ← slice sep_plain 0 8;
  nonce ← aead_nonce sep_plain;
  let ciphertext := seal gcm (derive_session_key psk sid) nonce [] plain in
  Ok (encrypt_separate_header psk sep_plain ++ ciphertext).

Record ServerUdpSession := mkUdpSession {
  server_session_id : Z;
  client_session_id : Z;
  session_key : bytes;
}.

(** [ServerUdpSession::new] with the random id. *)
Definition udp_session_new (psk : bytes) (client_session_id random_id : Z) : ServerUdpSession :=
  mkUdpSession random_id client_session_id (derive_session_key psk (be_bytes 8 random_id)).

Definition encode_server_packet (ts : Z) (psk : bytes) (session : ServerUdpSession) (server_packet_id : Z)
    (dest : Address) (payload : bytes) : res ProxyError bytes :=
  addr ← write_socks5_address dest;
  let plain := [TYPE_SERVER] ++ be_bytes 8 ts ++ be_bytes 8 (client_session_id session) ++ be_bytes 2 0
               ++ addr ++ payload in
  let sep_plain := be_bytes 8 (server_session_id session) ++ be_bytes 8 server_packet_id in
  nonce ← aead_nonce sep_plain;
  let ciphertext := seal gcm (session_key session) nonce [] plain in
  Ok (encrypt_separate_header psk sep_plain ++ ciphertext).

Definition decode_server_packet (buf psk : bytes) : res ProxyError bytes :=
  header ← decrypt_separate_header psk buf;
  if zlen buf <? SEPARATE_HEADER_LEN + AEAD_TAG_LEN then Err (Protocol "SS2022 UDP server packet too short")
  else
    sid ← slice header 0 8;
    nonce ← aead_nonce header;
    ciphertext ← slice_from buf SEPARATE_HEADER_LEN;
    ok_or (open gcm (derive_session_key psk sid) nonce [] ciphertext) (Protocol "SS2022 UDP server decrypt failed").

(** ** Packets are read back *)

Context `{!AeadLaws gcm} `{!BlockLaws aes}.

Lemma sep_header_len a b : zlen (be_bytes 8 a ++ be_bytes 8 b) = 16.
Proof. len_solve. Qed.

Lemma sep_header_back psk a b ct :
  decrypt_separate_header psk (encrypt_separate_header psk (be_bytes 8 a ++ be_bytes 8 b) ++ ct)
  = Ok (be_bytes 8 a ++ be_bytes 8 b).
Proof.
  unfold decrypt_separate_header, encrypt_separate_header, SEPARATE_HEADER_LEN.
  pose proof (encrypt_len psk _ (sep_header_len a b)) as Hl. pose proof (zlen_nonneg ct). rewrite zlen_app.
  zcase. erewrite rbind_ok by (apply (slice_app3 [] _ ct); [done | by rewrite Hl]).
  by rewrite decrypt_encrypt by apply sep_header_len.
Qed.

Lemma sep_header_fields a b :
  slice (E:=ProxyError) (be_bytes 8 a ++ be_bytes 8 b) 0 8 = Ok (be_bytes 8 a)
  /\ slice (E:=ProxyError) (be_bytes 8 a ++ be_bytes 8 b) 8 16 = Ok (be_bytes 8 b)
  /\ exists nonce, aead_nonce (be_bytes 8 a ++ be_bytes 8 b) = Ok nonce.
Proof.
  split_and!.
  - apply (slice_app3 [] (be_bytes 8 a)); [done | len_solve].
  - rewrite <- (app_nil_r (be_bytes 8 b)) at 1. apply (slice_app3 (be_bytes 8 a)); len_solve.
  - unfold aead_nonce. rewrite slice_in_range; [eauto | lia | rewrite sep_header_len; lia].
Qed.

Lemma be_val_u64 n : 0 <= n < 2 ^ 64 -> be_val (be_bytes 8 n) = n.
Proof. intros. apply be_val_be_bytes. change (256 ^ Z.of_nat 8) with (2 ^ 64). lia. Qed.

Lemma ciphertext_back psk a b ct :
  slice_from (E:=ProxyError) (encrypt_separate_header psk (be_bytes 8 a ++ be_bytes 8 b) ++ ct) SEPARATE_HEADER_LEN = Ok ct.
Proof. apply slice_from_app. symmetry. apply encrypt_len, sep_header_len. Qed.

(** The body after decryption, as any client may pad it. *)
Lemma client_body_ok ts now dest t addr pad payload :
  wf_address dest -> write_socks5_address dest = Ok (t :: addr) -> 0 <= ts < 2 ^ 64 ->
  abs_diff ts now <= MAX_TIME_DIFF -> zlen pad < 65536 ->
  parse_client_body now ([TYPE_CLIENT] ++ be_bytes 8 ts ++ be_bytes 2 (zlen pad) ++ pad ++ (t :: addr) ++ payload)
  = Ok (dest, payload).
Proof.
  intros Hwf Hw Hts Hd Hpad. unfold parse_client_body. pose proof (zlen_nonneg pad). pose proof (zlen_nonneg addr).
  pose proof (zlen_nonneg payload).
  set (pt := [TYPE_CLIENT] ++ be_bytes 8 ts ++ be_bytes 2 (zlen pad) ++ pad ++ (t :: addr) ++ payload).
  assert (Hl : zlen pt = 11 + zlen pad + 1 + zlen addr + zlen payload) by (unfold pt; len_solve).
  rewrite Hl. rewrite (proj2 (Z.eqb_neq _ 0)) by lia.
  erewrite rbind_ok by reflexivity. change (negb (TYPE_CLIENT =? TYPE_CLIENT)) with false. cbn [orb]. zcase.
  erewrite rbind_ok by (apply (slice_app3 [TYPE_CLIENT]); [done | len_solve]). rewrite be_val_u64 by done. zcase.
  destruct (length_field ([TYPE_CLIENT] ++ be_bytes 8 ts) (zlen pad) (pad ++ (t :: addr) ++ payload) 9)
    as (p0 & p1 & E0 & E1 & Ep); [done | lia |]. rewrite <- app_assoc in E0, E1. fold pt in E0, E1.
  rewrite E0. erewrite rbind_ok by reflexivity. change 10 with (9 + 1). rewrite E1.
  erewrite rbind_ok by reflexivity. cbv zeta. rewrite Ep. zcase.
  assert (Hpt : pt = ([TYPE_CLIENT] ++ be_bytes 8 ts ++ be_bytes 2 (zlen pad) ++ pad) ++ t :: addr ++ payload).
  { unfold pt. by rewrite <- !app_assoc. }
  rewrite Hpt. erewrite rbind_ok by (apply idx_app_mid; len_solve).
  change (t :: addr ++ payload) with ([t] ++ addr ++ payload). rewrite app_assoc.
  erewrite rbind_ok by (apply slice_from_app; len_solve).
  erewrite rbind_ok by (by apply decode_socks5_body). cbv beta iota. rewrite app_assoc.
  erewrite rbind_ok by (apply slice_from_app; len_solve). done.
Qed.

(** ** Any datagram *)

Lemma parse_client_body_safe now plaintext : bytes_ok plaintext -> is_panic (parse_client_body now plaintext) = false.
Proof.
  intros Hok. unfold parse_client_body. pose proof (zlen_nonneg plaintext).
  apply rbind_no_panic; [destruct (Z.eqb_spec (zlen plaintext) 0); [done | apply idx_no_panic; lia] |]. intros kind _.
  destruct (_ || _); [done |]. zcase; [done |].
  apply rbind_no_panic; [apply slice_no_panic; lia |]. intros ts _. zcase; [done |].
  apply rbind_no_panic; [apply idx_no_panic; lia |]. intros p0 Hp0.
  apply rbind_no_panic; [apply idx_no_panic; lia |]. intros p1 Hp1. cbv zeta.
  pose proof (is_u16_be_val p0 p1 (idx_bytes_ok _ _ _ Hp0 Hok) (idx_bytes_ok _ _ _ Hp1 Hok)) as [Hp _].
  zcase; [done |]. apply rbind_no_panic; [apply idx_no_panic; lia |]. intros atyp _.
  apply rbind_no_panic; [apply slice_from_no_panic; lia |]. intros tail Ht.
  pose proof (slice_bytes_ok _ _ _ _ Ht Hok) as Htok. pose proof (slice_len _ _ _ _ Ht) as Htl.
  apply rbind_no_panic; [by apply decode_socks5_no_panic |]. intros [dest consumed] Hdec.
  destruct (decode_socks5_ext _ [] _ _ _ _ Htok Hdec) as [_ Hc].
  apply rbind_no_panic; [apply slice_from_no_panic; lia | done].
Qed.

Lemma decrypt_header_len psk buf h : decrypt_separate_header psk buf = Ok h -> zlen h = 16.
Proof.
  unfold decrypt_separate_header, SEPARATE_HEADER_LEN. intros H. zcase_in H. rinv H. injection H as <-.
  apply decrypt_len. by erewrite slice_len by eassumption.
Qed.

Lemma decode_client_safe now buf psk : bytes_ok buf -> is_panic (decode_client_packet now buf psk) = false.
Proof.
  intros Hok. unfold decode_client_packet, aead_nonce. pose proof (zlen_nonneg buf).
  apply rbind_no_panic.
  { unfold decrypt_separate_header, SEPARATE_HEADER_LEN. zcase; [done |].
    apply rbind_no_panic; [apply slice_no_panic; lia | done]. }
  intros h Hh. apply decrypt_header_len in Hh.
  apply rbind_no_panic; [apply slice_no_panic; lia |]. intros sid _.
  apply rbind_no_panic; [apply slice_no_panic; lia |]. intros pid _.
  unfold SEPARATE_HEADER_LEN, AEAD_TAG_LEN. zcase; [done |].
  apply rbind_no_panic; [apply slice_from_no_panic; lia |]. intros ct Hct.
  apply rbind_no_panic; [apply slice_no_panic; lia |]. intros nonce _.
  apply rbind_no_panic; [by destruct (open _ _ _ _ _) |]. intros pt Hpt.
  apply rbind_no_panic; [| by intros []]. apply parse_client_body_safe.
  destruct (open gcm (derive_session_key psk sid) nonce [] ct) as [m |] eqn:E; [| done]. injection Hpt as <-.
  eapply open_bytes; [| exact E]. by eapply slice_bytes_ok.
Qed.

(** The length of a packet with sealed body. *)
Lemma sealed_len psk a b k n ad m :
  zlen (encrypt_separate_header psk (be_bytes 8 a ++ be_bytes 8 b) ++ seal gcm k n ad m) = 32 + zlen m.
Proof.
  rewrite zlen_app, seal_len. unfold encrypt_separate_header, TAG_LEN.
  rewrite encrypt_len by apply sep_header_len. lia.
Qed.

Lemma client_packet_back psk ts now csid pid dest t addr payload :
  wf_address dest -> write_socks5_address dest = Ok (t :: addr) -> 0 <= ts < 2 ^ 64 -> abs_diff ts now <= MAX_TIME_DIFF ->
  0 <= csid < 2 ^ 64 -> 0 <= pid < 2 ^ 64 ->
  exists pkt, encode_client_packet ts psk csid pid dest payload = Ok pkt
    /\ decode_client_packet now pkt psk = Ok (csid, pid, dest, payload).
Proof.
  intros Hwf Hw Hts Hd Hc Hp. destruct (sep_header_fields csid pid) as (Hs1 & Hs2 & nonce & Hn).
  eexists. split; [unfold encode_client_packet; rewrite Hw; cbn [mbind res_bind]; rewrite Hs1; cbn [mbind res_bind];
                   rewrite Hn; reflexivity |].
  unfold decode_client_packet. rewrite sep_header_back. erewrite rbind_ok by reflexivity.
  rewrite Hs1, Hs2. do 2 erewrite rbind_ok by reflexivity.
  rewrite ciphertext_back, Hn, sealed_len. unfold SEPARATE_HEADER_LEN, AEAD_TAG_LEN.
  zcase. do 2 erewrite rbind_ok by reflexivity. rewrite open_seal. erewrite rbind_ok by reflexivity.
  pose proof (client_body_ok ts now dest t addr [] payload Hwf Hw Hts Hd ltac:(done)) as Hb.
  cbn [app] in Hb. change (zlen []) with 0 in Hb. cbn [app]. rewrite Hb. cbn. by rewrite !be_val_u64.
Qed.

Lemma server_packet_back psk ts csid ssid pid dest addr payload :
  write_socks5_address dest = Ok addr ->
  exists pkt, encode_server_packet ts psk (udp_session_new psk csid ssid) pid dest payload = Ok pkt
    /\ decrypt_separate_header psk pkt = Ok (be_bytes 8 ssid ++ be_bytes 8 pid)
    /\ decode_server_packet pkt psk
       = Ok ([TYPE_SERVER] ++ be_bytes 8 ts ++ be_bytes 8 csid ++ be_bytes 2 0 ++ addr ++ payload).
Proof.
  intros Hw. destruct (sep_header_fields ssid pid) as (Hs1 & _ & nonce & Hn).
  eexists. split; [unfold encode_server_packet; rewrite Hw; cbn [mbind res_bind];
    cbn [server_session_id udp_session_new]; rewrite Hn; reflexivity |].
  cbn [server_session_id client_session_id session_key udp_session_new]. rewrite sep_header_back.
  split; [done |]. unfold decode_server_packet. rewrite sep_header_back. erewrite rbind_ok by reflexivity.
  rewrite ciphertext_back, Hs1, Hn, sealed_len. unfold SEPARATE_HEADER_LEN, AEAD_TAG_LEN.
  match goal with |- context [32 + zlen ?y <? _] => pose proof (zlen_nonneg y) end.
  zcase. do 3 erewrite rbind_ok by reflexivity. by rewrite open_seal.
Qed.

(** Shadowsocks 2022 datagrams.  A packet the client builds is decoded by the server to
    its session id, packet id, destination and payload when the clocks are at most thirty
    seconds apart; a packet the server builds for a session is opened by the client to the
    body that names the client session, the address and the payload; and no datagram of any
    content makes the server decoder panic. *)
Theorem ss2022_udp_packets (psk : bytes) (ts now csid ssid pid : Z) (dest : Address) (payload buf : bytes) :
  wf_address dest -> wire_encodable dest -> 0 <= ts < 2 ^ 64 -> abs_diff ts now <= MAX_TIME_DIFF ->
  0 <= csid < 2 ^ 64 -> 0 <= pid < 2 ^ 64 -> bytes_ok buf ->
  (exists pkt, encode_client_packet ts psk csid pid dest payload = Ok pkt
     /\ decode_client_packet now pkt psk = Ok (csid, pid, dest, payload))
  /\ (exists pkt addr, encode_server_packet ts psk (udp_session_new psk csid ssid) pid dest payload = Ok pkt
     /\ write_socks5_address dest = Ok addr
     /\ decode_server_packet pkt psk
        = Ok ([TYPE_SERVER] ++ be_bytes 8 ts ++ be_bytes 8 csid ++ be_bytes 2 0 ++ addr ++ payload))
  /\ is_panic (decode_client_packet now buf psk) = false.
Proof.
  intros Hwf Henc Hts Hd Hc Hp Hbuf. destruct (write_socks5_shape dest Hwf Henc) as (addr & Hw & _).
  split_and!; [by eapply client_packet_back | | by apply decode_client_safe].
  destruct (server_packet_back psk ts csid ssid pid dest _ payload Hw) as (pkt & E & _ & Hdec). eauto.
Qed.
End packets.

Lemma ss2022_udp_packets_witness :
  (exists pkt, encode_client_packet toy_aead toy_block toy_kdf 1000 [7] 5 6 (Ipv4 [1; 2; 3; 4] 53) (lit "q") = Ok pkt
     /\ decode_client_packet toy_aead toy_block toy_kdf 1010 pkt [7] = Ok (5, 6, Ipv4 [1; 2; 3; 4] 53, lit "q"))
  /\ (exists pkt addr, encode_server_packet toy_aead toy_block 1000 [7] (udp_session_new toy_kdf [7] 5 9) 6
                         (Ipv4 [1; 2; 3; 4] 53) (lit "q") = Ok pkt
     /\ write_socks5_address (Ipv4 [1; 2; 3; 4] 53) = Ok addr
     /\ decode_server_packet toy_aead toy_block toy_kdf pkt [7]
        = Ok ([TYPE_SERVER] ++ be_bytes 8 1000 ++ be_bytes 8 5 ++ be_bytes 2 0 ++ addr ++ lit "q"))
  /\ is_panic (decode_client_packet toy_aead toy_block toy_kdf 1010 [1; 2; 3] [7]) = false.
Proof.
  apply (ss2022_udp_packets toy_aead toy_block toy_kdf [7] 1000 1010 5 9 6 (Ipv4 [1; 2; 3; 4] 53) (lit "q") [1; 2; 3]);
    [decided | decided | lia | decided | lia | lia | decided].
Defined.

(** * The relay *)

(** A session: its upstream socket, by which the reply task is known too. *)
Record SessionEntry := mkEntry { upstream_sock : Z }.

(** A running reply task. *)
Record ReplyTask := mkReplyTask { rt_session : ServerUdpSession; rt_packet_id : Z }.

(** The table, the running tasks by socket, the address cell each session shares with its
    task, the datagrams sent upstream and the replies sent to clients. *)
Record UdpRelay := mkRelay {
  ur_sessions : gmap Z SessionEntry;
  ur_tasks : gmap Z ReplyTask;
  ur_client_addr : gmap Z SocketAddr;
  ur_upstream : list (Z * SocketAddr * bytes);
  ur_replies : list (Z * SocketAddr * bytes);
}.

Definition relay_start : UdpRelay := mkRelay ∅ ∅ ∅ [] [].

(** What the system gives to one packet: the time, the new socket, the random id, the
    address the destination resolves to. *)
Record PacketEnv := mkPacketEnv {
  pe_now : Z;
  pe_bind : option Z;
  pe_random : Z;
  pe_resolve : option SocketAddr;
}.

Section relay.
Context (gcm : Aead) (aes : BlockCipher) (derive : bytes -> bytes -> bytes) (psk : bytes).

(** [resolve_udp_dest]. *)
Definition resolve_udp_dest (env : PacketEnv) (dest : Address) : option SocketAddr :=
  match dest with
  | Ipv4 o p => Some (mkSocketAddr (V4 o) p)
  | Ipv6 o p => Some (mkSocketAddr (V6 o) p)
  | Domain _ _ => pe_resolve env
  end.

Definition clear_if_full (w : UdpRelay) : UdpRelay :=
  if Z.of_nat (size (ur_sessions w)) >=? MAX_SESSIONS
  then mkRelay ∅ (ur_tasks w) (ur_client_addr w) (ur_upstream w) (ur_replies w) else w.

(** The session of a packet: known, with its client address updated, or new with a socket
    and a reply task; none when no socket can be bound. *)
Definition session_for (env : PacketEnv) (csid : Z) (client : SocketAddr) (w : UdpRelay) : UdpRelay * option Z :=
  match ur_sessions w !! csid with
  | Some e =>
      (mkRelay (ur_sessions w) (ur_tasks w) (<[upstream_sock e := client]> (ur_client_addr w)) (ur_upstream w)
         (ur_replies w), Some (upstream_sock e))
  | None =>
      match pe_bind env with
      | None => (w, None)
      | Some s =>
          (mkRelay (<[csid := mkEntry s]> (ur_sessions w))
             (<[s := mkReplyTask (udp_session_new derive psk csid (pe_random env)) 0]> (ur_tasks w))
             (<[s := client]> (ur_client_addr w)) (ur_upstream w) (ur_replies w), Some s)
      end
  end.

Definition process_ss2022_packet (env : PacketEnv) (buf : bytes) (client : SocketAddr) (w : UdpRelay) : UdpRelay :=
  match decode_client_packet gcm aes derive (pe_now env) buf psk with
  | Ok (csid, _, dest, payload) =>
      if zlen payload =? 0 then w
      else
        match session_for env csid client (clear_if_full w) with
        | (w, None) => w
        | (w, Some s) =>
            match resolve_udp_dest env dest with
            | None => w
            | Some upstream =>
                mkRelay (ur_sessions w) (ur_tasks w) (ur_client_addr w) (ur_upstream w ++ [(s, upstream, payload)])
                  (ur_replies w)
            end
        end
  | _ => w
  end.

(** The address of a reply: IPv4-mapped sources as IPv4. *)
Definition reply_dest (src : SocketAddr) : Address :=
  match sa_ip src with
  | V4 o => Ipv4 o (sa_port src)
  | V6 o => if bytes_eqb (take 12 o) (replicate 10 0 ++ [255; 255]) then Ipv4 (drop 12 o) (sa_port src)
            else Ipv6 o (sa_port src)
  end.

(** One turn of the reply task of socket [s]: a datagram from upstream, or the idle timeout
    or an error, which ends it. *)
Inductive ReplyEvent := Datagram (now : Z) (src : SocketAddr) (data : bytes) | IdleOrError.

Definition reply_turn (s : Z) (ev : ReplyEvent) (w : UdpRelay) : UdpRelay :=
  match ur_tasks w !! s with
  | None => w
  | Some task =>
      match ev with
      | IdleOrError =>
          mkRelay (ur_sessions w) (delete s (ur_tasks w)) (ur_client_addr w) (ur_upstream w) (ur_replies w)
      | Datagram now src data =>
          if zlen data =? 0 then w
          else
            let tasks := <[s := mkReplyTask (rt_session task) (wrap 64 (rt_packet_id task + 1))]> (ur_tasks w) in
            match encode_server_packet gcm aes now psk (rt_session task) (rt_packet_id task) (reply_dest src) data,
                  ur_client_addr w !! s with
            | Ok reply, Some addr =>
                mkRelay (ur_sessions w) tasks (ur_client_addr w) (ur_upstream w) (ur_replies w ++ [(s, addr, reply)])
            | _, _ => mkRelay (ur_sessions w) tasks (ur_client_addr w) (ur_upstream w) (ur_replies w)
            end
      end
  end.

Inductive RelayOp :=
| RPacket (env : PacketEnv) (buf : bytes) (client : SocketAddr)
| RReply (s : Z) (ev : ReplyEvent).

Definition relay_do (op : RelayOp) (w : UdpRelay) : UdpRelay :=
  match op with
  | RPacket env buf client => process_ss2022_packet env buf client w
  | RReply s ev => reply_turn s ev w
  end.


(** ** Runs *)

(** Sockets that were ever used. *)
Definition used (w : UdpRelay) (s : Z) : Prop := is_Some (ur_client_addr w !! s).

Definition op_fresh (op : RelayOp) (w : UdpRelay) : Prop :=
  match op with
  | RPacket env _ _ => match pe_bind env with Some s => ~ used w s | None => True end
  | RReply _ _ => True
  end.

Inductive relay_reachable : UdpRelay -> Prop :=
| relay_init : relay_reachable relay_start
| relay_step w op : relay_reachable w -> op_fresh op w -> relay_reachable (relay_do op w).

Definition replies_of (s : Z) (w : UdpRelay) : list bytes := snd <$> List.filter (fun r => r.1.1 =? s) (ur_replies w).

Context `{!AeadLaws gcm} `{!BlockLaws aes}.

(** A reply: number [i] of the server session, for the client session [csid]. *)
Definition reply_of (ssid csid i : Z) (pkt : bytes) : Prop :=
  decrypt_separate_header aes psk pkt = Ok (be_bytes 8 ssid ++ be_bytes 8 i)
  /\ exists now addr data, decode_server_packet gcm aes derive pkt psk
       = Ok ([TYPE_SERVER] ++ be_bytes 8 now ++ be_bytes 8 csid ++ be_bytes 2 0 ++ addr ++ data).

Definition numbered (ssid csid : Z) (pkts : list bytes) : Prop :=
  forall i pkt, pkts !! i = Some pkt -> reply_of ssid csid (Z.of_nat i) pkt.

Record relay_inv (w : UdpRelay) : Prop := {
  ri_session : forall csid e, ur_sessions w !! csid = Some e -> used w (upstream_sock e);
  ri_task : forall s t, ur_tasks w !! s = Some t ->
    used w s /\ rt_packet_id t = wrap 64 (zlen (replies_of s w))
    /\ exists csid ssid, rt_session t = udp_session_new derive psk csid ssid
       /\ numbered ssid csid (replies_of s w);
  ri_unused : forall s, ~ used w s -> replies_of s w = [];
  ri_done : forall s, exists ssid csid, numbered ssid csid (replies_of s w);
}.

Lemma be_bytes_wrap n : be_bytes 8 (wrap 64 n) = be_bytes 8 n.
Proof.
  rewrite <- (be_bytes_be_val (be_bytes 8 n)) by apply be_bytes_ok. rewrite length_be_bytes, be_val_be_bytes_mod. done.
Qed.

Lemma reply_dest_encodes src : exists addr, write_socks5_address (reply_dest src) = Ok addr.
Proof. unfold reply_dest. destruct (sa_ip src); [eauto |]. destruct (bytes_eqb _ _); eauto. Qed.

Lemma replies_snoc s s' addr pkt w tasks :
  replies_of s (mkRelay (ur_sessions w) tasks (ur_client_addr w) (ur_upstream w) (ur_replies w ++ [(s', addr, pkt)]))
  = replies_of s w ++ (if s' =? s then [pkt] else []).
Proof.
  unfold replies_of. cbn [ur_replies]. rewrite List.filter_app, fmap_app. f_equal. cbn. by destruct (s' =? s).
Qed.

Lemma numbered_snoc ssid csid pkts pkt :
  numbered ssid csid pkts -> reply_of ssid csid (zlen pkts) pkt -> numbered ssid csid (pkts ++ [pkt]).
Proof.
  intros Hn Hr i p. rewrite lookup_app. destruct (pkts !! i) eqn:E; [by intros [= <-]; apply Hn |].
  apply lookup_ge_None in E. intros H. apply list_lookup_singleton_Some in H as [Hi <-].
  replace (Z.of_nat i) with (zlen pkts) by (unfold zlen; lia). done.
Qed.

Lemma same_replies w w' s : ur_replies w' = ur_replies w -> replies_of s w' = replies_of s w.
Proof. unfold replies_of. by intros ->. Qed.

(** Steps that send no reply and start no task. *)
Lemma inv_quiet w w' :
  relay_inv w -> ur_replies w' = ur_replies w ->
  (forall s, used w s -> used w' s) ->
  (forall csid e, ur_sessions w' !! csid = Some e -> ur_sessions w !! csid = Some e) ->
  (forall s t, ur_tasks w' !! s = Some t -> ur_tasks w !! s = Some t) -> relay_inv w'.
Proof.
  intros [Hs Ht Hu Hd] Hr Hused Hses Htask. split.
  - intros csid e He. eapply Hused, Hs, Hses, He.
  - intros s t H. rewrite (same_replies w w' s Hr). destruct (Ht s t (Htask _ _ H)) as (H1 & H2 & H3).
    split_and!; [by apply Hused | done | done].
  - intros s Hn. rewrite (same_replies w w' s Hr). apply Hu. intros ?. by apply Hn, Hused.
  - intros s. rewrite (same_replies w w' s Hr). apply Hd.
Qed.

Lemma session_for_inv env csid client w w' r :
  relay_inv w -> (match pe_bind env with Some s => ~ used w s | None => True end) ->
  session_for env csid client w = (w', r) -> relay_inv w'.
Proof.
  intros Hinv Hfresh. unfold session_for. destruct (ur_sessions w !! csid) as [e |] eqn:E.
  - intros [= <- <-]. eapply inv_quiet; [exact Hinv | done | | done | done].
    intros s. unfold used. cbn [ur_client_addr]. rewrite lookup_insert_is_Some. by destruct (decide (upstream_sock e = s)); [left | right].
  - destruct (pe_bind env) as [s |]; [| by intros [= <- <-]]. intros [= <- <-].
    assert (Hall : forall x, used w x -> is_Some (<[s := client]> (ur_client_addr w) !! x)).
    { intros x Hx. rewrite lookup_insert_is_Some. destruct (decide (s = x)); [by left | by right]. }
    destruct Hinv as [Hs Ht Hu Hd]. split; unfold used in *; cbn [ur_sessions ur_tasks ur_client_addr].
    + intros c e0. rewrite lookup_insert_Some. intros [[<- <-] | [_ H]]; [cbn; rewrite lookup_insert_eq; eauto |].
      by eapply Hall, Hs.
    + intros x t. rewrite lookup_insert_Some. intros [[<- <-] | [Hne H]].
      * rewrite (same_replies w _ s) by done. rewrite (Hu s Hfresh). split_and!; [rewrite lookup_insert_eq; eauto | done |].
        exists csid, (pe_random env). split; [done |]. by intros i pkt.
      * rewrite (same_replies w _ x) by done. destruct (Ht x t H) as (H1 & H2 & H3). split_and!; [by apply Hall | done | done].
    + intros x Hx. rewrite (same_replies w _ x) by done. apply Hu. intros H. by apply Hx, Hall.
    + intros x. rewrite (same_replies w _ x) by done. apply Hd.
Qed.

Lemma packet_inv env buf client w :
  relay_inv w -> (match pe_bind env with Some s => ~ used w s | None => True end) ->
  relay_inv (process_ss2022_packet env buf client w).
Proof.
  intros Hinv Hfresh. unfold process_ss2022_packet.
  destruct (decode_client_packet gcm aes derive (pe_now env) buf psk) as [[[[csid pid] dest] payload] | | |]; try done.
  destruct (zlen payload =? 0); [done |].
  assert (Hc : relay_inv (clear_if_full w) /\ (forall s, used (clear_if_full w) s <-> used w s)).
  { unfold clear_if_full. destruct (_ >=? _); [| done]. split; [| done].
    eapply inv_quiet; [exact Hinv | done | done | cbn; intros ? ? []%lookup_empty_Some | done]. }
  destruct Hc as [Hc Hcu]. destruct (session_for env csid client (clear_if_full w)) as [w1 [s |]] eqn:E.
  - apply session_for_inv in E; [| done | destruct (pe_bind env); [by rewrite Hcu | done]].
    destruct (resolve_udp_dest env dest); [| done]. by eapply inv_quiet.
  - apply session_for_inv in E; [done | done | destruct (pe_bind env); [by rewrite Hcu | done]].
Qed.

Lemma reply_inv s ev w : relay_inv w -> relay_inv (reply_turn s ev w).
Proof.
  intros Hinv. unfold reply_turn. destruct (ur_tasks w !! s) as [task |] eqn:Et; [| done].
  destruct ev as [now src data |].
  2: { eapply inv_quiet; [exact Hinv | done | done | done |]. cbn [ur_tasks]. intros x t. by rewrite lookup_delete_Some; intros []. }
  destruct (zlen data =? 0); [done |].
  destruct (ri_task _ Hinv s task Et) as ([addr Haddr] & Hid & csid & ssid & Hses & Hnum).
  destruct (reply_dest_encodes src) as [dst Hdst]. rewrite Hses, Haddr.
  destruct (server_packet_back gcm aes derive psk now csid ssid (rt_packet_id task) _ _ data Hdst) as (pkt & -> & Hh & Hb).
  assert (Hnum' : numbered ssid csid (replies_of s w ++ [pkt])).
  { apply numbered_snoc; [done |]. split; [by rewrite Hh, Hid, be_bytes_wrap | eauto]. }
  destruct Hinv as [Hs Ht Hu Hd]. split; unfold used in *; cbn [ur_sessions ur_tasks ur_client_addr].
  - done.
  - intros x t. rewrite lookup_insert_Some, replies_snoc. intros [[<- <-] | [Hne H]].
    + rewrite Z.eqb_refl, zlen_app. split_and!; [eauto | | by exists csid, ssid].
      cbn [rt_packet_id]. rewrite Hid. unfold wrap. change (zlen [pkt]) with 1. by rewrite Zplus_mod_idemp_l.
    + rewrite (proj2 (Z.eqb_neq s x)), app_nil_r by done. by apply Ht.
  - intros x Hx. rewrite replies_snoc. destruct (Z.eqb_spec s x) as [-> | _]; [by destruct Hx; eauto |].
    rewrite app_nil_r. by apply Hu.
  - intros x. rewrite replies_snoc. destruct (Z.eqb_spec s x) as [-> | _]; [eauto |]. rewrite app_nil_r. apply Hd.
Qed.

Lemma reachable_inv w : relay_reachable w -> relay_inv w.
Proof.
  induction 1 as [| w op _ IH Hf].
  - split; cbn; try done; [by intros ? ? ?%lookup_empty_Some.. | ]. intros s. exists 0, 0. by intros i pkt.
  - destruct op; [by apply packet_inv | by apply reply_inv].
Qed.

(** The nonce a packet was sealed with. *)
Definition nonce_of (pkt : bytes) : res ProxyError bytes := decrypt_separate_header aes psk pkt ≫= aead_nonce.

Lemma nonce_inj ssid i j n :
  aead_nonce (be_bytes 8 ssid ++ be_bytes 8 i) = Ok n -> aead_nonce (be_bytes 8 ssid ++ be_bytes 8 j) = Ok n ->
  0 <= i < 2 ^ 64 -> 0 <= j < 2 ^ 64 -> i = j.
Proof.
  intros Hi Hj Hri Hrj. unfold aead_nonce in *.
  assert (Hd : forall k, drop 4 (take 12 (drop 4 (be_bytes 8 ssid ++ be_bytes 8 k))) = be_bytes 8 k).
  { intros k. rewrite take_ge by (rewrite length_drop, length_app, !length_be_bytes; lia).
    rewrite drop_drop. apply drop_app_length'. by rewrite length_be_bytes. }
  apply slice_ok in Hi as (_ & _ & ->). apply slice_ok in Hj as (_ & _ & E).
  change (Z.to_nat (16 - 4)) with 12%nat in E. change (Z.to_nat 4) with 4%nat in E.
  apply (f_equal (drop 4)) in E. rewrite !Hd in E.
  rewrite <- (be_val_u64 i), <- (be_val_u64 j) by done. by rewrite E.
Qed.

(** The replies of the UDP relay.  In every reachable state the replies sent for one
    upstream socket, in order, are packets 0, 1, 2, ... of a single server session; each opens
    under the key of that session to a body that names one client session; and as long as
    their number fits 64 bits no two of them are sealed with the same nonce. *)
Theorem ss2022_udp_replies (w : UdpRelay) (s : Z) :
  relay_reachable w ->
  (exists ssid csid, numbered ssid csid (replies_of s w))
  /\ (zlen (replies_of s w) <= 2 ^ 64 ->
      forall i j p q n, replies_of s w !! i = Some p -> replies_of s w !! j = Some q ->
      nonce_of p = Ok n -> nonce_of q = Ok n -> i = j).
Proof.
  intros Hr. destruct (ri_done _ (reachable_inv w Hr) s) as (ssid & csid & Hnum). split; [eauto |].
  intros Hlen i j p q n Hp Hq Hnp Hnq. unfold nonce_of in *.
  destruct (Hnum i p Hp) as [Hhp _]. destruct (Hnum j q Hq) as [Hhq _].
  rewrite Hhp in Hnp. rewrite Hhq in Hnq. cbn in Hnp, Hnq.
  apply lookup_lt_Some in Hp, Hq. unfold zlen in Hlen.
  apply Nat2Z.inj. apply (nonce_inj ssid _ _ n Hnp Hnq); lia.
Qed.

(** ** Sessions that outlive their task *)

Fixpoint relay_run (ops : list RelayOp) (w : UdpRelay) : UdpRelay :=
  match ops with [] => w | op :: ops => relay_run ops (relay_do op w) end.

Definition binds (s : Z) (op : RelayOp) : Prop := match op with RPacket env _ _ => pe_bind env = Some s | _ => False end.

Lemma task_stays_gone s op w :
  ~ binds s op -> ur_tasks w !! s = None ->
  ur_tasks (relay_do op w) !! s = None /\ replies_of s (relay_do op w) = replies_of s w.
Proof.
  intros Hb Ht. destruct op as [env buf client | x ev]; cbn [relay_do binds] in *.
  - unfold process_ss2022_packet.
    destruct (decode_client_packet gcm aes derive (pe_now env) buf psk) as [[[[csid pid] dest] payload] | | |]; try done.
    destruct (zlen payload =? 0); [done |]. unfold session_for, clear_if_full.
    destruct (_ >=? _); cbn [ur_sessions ur_tasks]; [rewrite lookup_empty | destruct (ur_sessions w !! csid)];
      try (destruct (pe_bind env) as [x |] eqn:Eb; [| done]); destruct (resolve_udp_dest env dest); cbn [ur_tasks];
      try done; rewrite lookup_insert_ne by congruence; done.
  - unfold reply_turn. destruct (ur_tasks w !! x) as [task |] eqn:Ex; [| done].
    assert (Hne : x <> s) by congruence.
    destruct ev as [now src data |]; cbn [ur_tasks]; [| by rewrite lookup_delete_ne].
    destruct (zlen data =? 0); [done |].
    destruct (encode_server_packet _ _ _ _ _ _ _ _) as [pkt | | |]; [destruct (ur_client_addr w !! x) | ..]; cbn [ur_tasks];
      rewrite ?lookup_insert_ne by done; rewrite ?replies_snoc, ?(proj2 (Z.eqb_neq x s)), ?app_nil_r by done; done.
Qed.

(** A session whose reply task has ended stays in the table and is never served again.
    The task ends after thirty seconds without a datagram from upstream, or at an error, but
    nothing removes the session: packets of its client are still sent upstream on the same
    socket, and whatever happens later no reply is ever sent for it, unless the whole table is
    cleared and the session opened anew. *)
Theorem ss2022_udp_session_deaf (w : UdpRelay) (s csid pid : Z) (ops : list RelayOp) (env : PacketEnv)
    (buf payload : bytes) (dest : Address) (client up : SocketAddr) :
  ur_sessions w !! csid = Some (mkEntry s) -> ur_tasks w !! s = None ->
  Z.of_nat (size (ur_sessions w)) < MAX_SESSIONS ->
  decode_client_packet gcm aes derive (pe_now env) buf psk = Ok (csid, pid, dest, payload) -> payload <> [] ->
  resolve_udp_dest env dest = Some up -> Forall (fun op => ~ binds s op) ops ->
  (let w' := process_ss2022_packet env buf client w in
   ur_upstream w' = ur_upstream w ++ [(s, up, payload)] /\ ur_sessions w' = ur_sessions w /\ ur_tasks w' = ur_tasks w)
  /\ replies_of s (relay_run ops w) = replies_of s w.
Proof.
  intros Hs Ht Hsz Hdec Hne Hres Hops. split.
  - unfold process_ss2022_packet. rewrite Hdec. rewrite (proj2 (Z.eqb_neq _ 0)) by (destruct payload; [done | len_solve]).
    unfold clear_if_full. zcase. unfold session_for. rewrite Hs, Hres. done.
  - clear Hs Hsz. revert w Ht. induction Hops as [| op ops Hop _ IH]; intros w Ht; cbn [relay_run]; [done |].
    destruct (task_stays_gone s op w Hop Ht) as [Ht' Hr]. by rewrite IH, Hr.
Qed.
End relay.

Definition example_peer : SocketAddr := mkSocketAddr (V4 [10; 0; 0; 2]) 999.
Definition example_env (s : Z) : PacketEnv := mkPacketEnv 1000 (Some s) 77 None.
Definition example_packet : bytes :=
  match encode_client_packet toy_aead toy_block toy_kdf 1000 [7] 5 6 (Ipv4 [1; 2; 3; 4] 53) (lit "q") with
  | Ok p => p | _ => [] end.

(** A session, two replies, then the idle timeout. *)
Definition example_ops : list RelayOp :=
  [RPacket (example_env 1) example_packet example_peer;
   RReply 1 (Datagram 1001 (mkSocketAddr (V4 [1; 2; 3; 4]) 53) (lit "a"));
   RReply 1 (Datagram 1002 (mkSocketAddr (V4 [1; 2; 3; 4]) 53) (lit "b"))].

Definition example_relay : UdpRelay := relay_run toy_aead toy_block toy_kdf [7] example_ops relay_start.
Definition example_deaf : UdpRelay := relay_do toy_aead toy_block toy_kdf [7] (RReply 1 IdleOrError) example_relay.

Lemma ss2022_udp_replies_witness :
  relay_reachable toy_aead toy_block toy_kdf [7] example_relay /\ zlen (replies_of 1 example_relay) = 2
  /\ ((exists ssid csid, numbered toy_aead toy_block toy_kdf [7] ssid csid (replies_of 1 example_relay))
      /\ (zlen (replies_of 1 example_relay) <= 2 ^ 64 ->
          forall i j p q n, replies_of 1 example_relay !! i = Some p -> replies_of 1 example_relay !! j = Some q ->
          nonce_of toy_block [7] p = Ok n -> nonce_of toy_block [7] q = Ok n -> i = j)).
Proof.
  assert (H : relay_reachable toy_aead toy_block toy_kdf [7] example_relay).
  { unfold example_relay, example_ops. cbn [relay_run].
    apply relay_step; [| exact I]. apply relay_step; [| exact I]. apply relay_step; [apply relay_init |].
    intros [? ?]. discriminate. }
  split; [exact H |]. split; [vm_compute; reflexivity |].
  apply (ss2022_udp_replies toy_aead toy_block toy_kdf [7] example_relay 1 H).
Defined.

Lemma ss2022_udp_session_deaf_witness :
  (let w' := process_ss2022_packet toy_aead toy_block toy_kdf [7] (example_env 3) example_packet example_peer example_deaf in
   ur_upstream w' = ur_upstream example_deaf ++ [(1, mkSocketAddr (V4 [1; 2; 3; 4]) 53, lit "q")]
   /\ ur_sessions w' = ur_sessions example_deaf /\ ur_tasks w' = ur_tasks example_deaf)
  /\ replies_of 1 (relay_run toy_aead toy_block toy_kdf [7]
                     [RReply 1 (Datagram 1100 (mkSocketAddr (V4 [1; 2; 3; 4]) 53) (lit "c"))] example_deaf)
     = replies_of 1 example_deaf.
Proof.
  apply (ss2022_udp_session_deaf toy_aead toy_block toy_kdf [7] example_deaf 1 5 6
           [RReply 1 (Datagram 1100 (mkSocketAddr (V4 [1; 2; 3; 4]) 53) (lit "c"))] (example_env 3) example_packet (lit "q")
           (Ipv4 [1; 2; 3; 4] 53) example_peer (mkSocketAddr (V4 [1; 2; 3; 4]) 53));
    [vm_compute; reflexivity | vm_compute; reflexivity | vm_compute; reflexivity | vm_compute; reflexivity | discriminate
    | reflexivity | repeat constructor; auto].
Defined.
