(* ===== verification/Vmess.v ===== *)
(** VMess keys, authentication and headers ([vmess/kdf.rs], [vmess/auth.rs],
    [vmess/codec.rs]): the key derivation, the authentication identifier, the request header
    with its checksum, and the response header.

    The ciphers and hash functions are parameters; random bytes and the clock are arguments
    of the operations that take them. *)

From stdpp Require Import base list strings numbers.
From S2P Require Import Prelude Address Socks Crypto.

(** The primitives the protocol is built from. *)
Record Primitives := mkPrimitives {
  aes128_gcm : Aead;
  chacha20_poly1305 : Aead;
  aes128 : BlockCipher;
  hmac_sha256 : bytes -> bytes -> bytes;
  sha256 : bytes -> bytes;
  md5 : bytes -> bytes;
  crc32 : bytes -> Z;
  (** byte [n] of the output of SHAKE128 *)
  shake128 : bytes -> nat -> Z;
}.

Class PrimitiveLaws (p : Primitives) := {
  gcm_laws :: AeadLaws (aes128_gcm p);
  chacha_laws :: AeadLaws (chacha20_poly1305 p);
  aes_laws :: BlockLaws (aes128 p);
  crc32_range : forall m, 0 <= crc32 p m < 2 ^ 32;
  shake_range : forall iv n, 0 <= shake128 p iv n < 256;
}.

Section vmess.
Context (prim : Primitives).

(** * Key derivation *)

Definition VMESS_AEAD_KDF_SALT : bytes := lit "VMess AEAD KDF".
Definition HMAC_BLOCK_SIZE : nat := 64.

(** The bytes in a block of zeroes. *)
Definition block_of (l : bytes) : bytes := l ++ replicate (HMAC_BLOCK_SIZE - length l) 0.

(** HMAC with the given hash function in place of SHA-256. *)
Definition hmac_with_kdf_hash (hash : bytes -> bytes) (key msg : bytes) : bytes :=
  let block_key := block_of (if zlen key >? Z.of_nat HMAC_BLOCK_SIZE then hash key else key) in
  let ipad := Z.lxor 0x36 <$> block_key in
  let opad := Z.lxor 0x5c <$> block_key in
  hash (opad ++ hash (ipad ++ msg)).

(** The paths are taken from the last one to the first. *)
Fixpoint kdf_hash_rev (rpaths : list bytes) (msg : bytes) : bytes :=
  match rpaths with
  | [] => hmac_sha256 prim VMESS_AEAD_KDF_SALT msg
  | key :: hash_paths => hmac_with_kdf_hash (kdf_hash_rev hash_paths) key msg
  end.

Definition kdf_hash (paths : list bytes) (msg : bytes) : bytes := kdf_hash_rev (reverse paths) msg.

Definition kdf (n : nat) (key : bytes) (paths : list bytes) : bytes := take n (kdf_hash paths key).

(** * Authentication identifiers *)

Definition MAX_TIME_DIFF_SECS : Z := 120.
Definition CMD_KEY_SALT : bytes := lit "c48619fe-8f02-49e0-b9e9-edf763e17e21".
Definition KDF_AUTH_ID : bytes := lit "AES Auth ID Encryption".

Definition cmd_key (uuid : bytes) : bytes := md5 prim (uuid ++ CMD_KEY_SALT).

Definition generate_auth_id_at (cmd_key : bytes) (timestamp : Z) (random : bytes) : bytes :=
  let first := be_bytes 8 timestamp ++ random in
  encrypt_block (aes128 prim) (kdf 16 cmd_key [KDF_AUTH_ID]) (first ++ be_bytes 4 (crc32 prim first)).

Definition validate_auth_id (cmd_key auth_id : bytes) (max_diff_secs now : Z) : bool :=
  let block := decrypt_block (aes128 prim) (kdf 16 cmd_key [KDF_AUTH_ID]) auth_id in
  let expected_crc := crc32 prim (take 12 block) in
  let received_crc := be_val (take 4 (drop 12 block)) in
  if negb (expected_crc =? received_crc) then false
  else
    let timestamp := be_val (take 8 block) in
    Z.abs (now - timestamp) <=? max_diff_secs.

(** * Request headers *)

Inductive Security := Aes128Gcm | ChaCha20Poly1305 | NoSecurity.

#[global] Instance Security_eq_dec : EqDecision Security.
Proof. solve_decision. Defined.

Definition security_byte (s : Security) : Z :=
  match s with Aes128Gcm => 0x03 | ChaCha20Poly1305 => 0x04 | NoSecurity => 0x05 end.

Definition security_try_from (v : Z) : res ProxyError Security :=
  if v =? 0x03 then Ok Aes128Gcm
  else if v =? 0x04 then Ok ChaCha20Poly1305
  else if v =? 0x05 then Ok NoSecurity
  else Err (Protocol "VMess: unknown security byte").

Definition PATH_LEN_KEY : bytes := lit "VMess Header AEAD Key_Length".
Definition PATH_LEN_IV : bytes := lit "VMess Header AEAD Nonce_Length".
Definition PATH_HDR_KEY : bytes := lit "VMess Header AEAD Key".
Definition PATH_HDR_IV : bytes := lit "VMess Header AEAD Nonce".
Definition PATH_RESP_LEN_KEY : bytes := lit "AEAD Resp Header Len Key".
Definition PATH_RESP_LEN_IV : bytes := lit "AEAD Resp Header Len IV".
Definition PATH_RESP_HDR_KEY : bytes := lit "AEAD Resp Header Key".
Definition PATH_RESP_HDR_IV : bytes := lit "AEAD Resp Header IV".

Definition VM_ATYP_IPV4 : Z := 0x01.
Definition VM_ATYP_DOMAIN : Z := 0x02.
Definition VM_ATYP_IPV6 : Z := 0x03.
Definition VM_CMD_TCP : Z := 0x01.
Definition VM_CMD_UDP : Z := 0x02.
Definition VM_CMD_MUX : Z := 0x03.
Definition MUX_DOMAIN : bytes := lit "v1.mux.cool".

Record VmessRequest := mkRequest {
  r_iv : bytes;
  r_key : bytes;
  r_v : Z;
  r_options : Z;
  r_security : Security;
  r_dest : Address;
}.

Definition fnv_step (hash byte : Z) : Z := wrap 32 (Z.lxor hash byte * 0x01000193).

Definition fnv32a (data : bytes) : Z := foldl fnv_step 0x811c9dc5 data.

(** The port, the type and the address. *)
Definition vmess_address (dest : Address) : res ProxyError bytes :=
  match dest with
  | Ipv4 ip port => Ok (be_bytes 2 port ++ [VM_ATYP_IPV4] ++ ip)
  | Ipv6 ip port => Ok (be_bytes 2 port ++ [VM_ATYP_IPV6] ++ ip)
  | Domain name port =>
      len ← domain_wire_len name;
      Ok (be_bytes 2 port ++ [VM_ATYP_DOMAIN; len] ++ name)
  end.

(** [pad] are the random bytes of the padding. *)
Definition build_request_plaintext (iv key : bytes) (v : Z) (pad : bytes) (security : Security) (dest : Address)
  : res ProxyError bytes :=
  addr ← vmess_address dest;
  let buf := [0x01] ++ iv ++ key
             ++ [v; 0x01; Z.lor (wrap 8 (Z.shiftl (zlen pad) 4)) (security_byte security); 0x00; 0x01]
             ++ addr ++ pad in
  Ok (buf ++ be_bytes 4 (fnv32a buf)).

(** The address and the position behind it. *)
Definition read_vmess_address (data : bytes) (pos atyp port : Z) : res ProxyError (Address * Z) :=
  if atyp =? VM_ATYP_IPV4 then
    if pos + 4 >? zlen data then Err (Protocol "VMess: truncated IPv4")
    else
      ip ← slice data pos (pos + 4);
      Ok (Ipv4 ip port, pos + 4)
  else if atyp =? VM_ATYP_IPV6 then
    if pos + 16 >? zlen data then Err (Protocol "VMess: truncated IPv6")
    else
      ip6 ← slice data pos (pos + 16);
      Ok (Ipv6 ip6 port, pos + 16)
  else if atyp =? VM_ATYP_DOMAIN then
    if pos >=? zlen data then Err (Protocol "VMess: truncated domain len")
    else
      dlen ← idx data pos;
      let pos := pos + 1 in
      if pos + dlen >? zlen data then Err (Protocol "VMess: truncated domain")
      else
        name ← slice data pos (pos + dlen);
        if negb (utf8_valid name) then Err (Protocol "VMess: domain not UTF-8")
        else Ok (Domain name port, pos + dlen)
  else Err (Protocol "VMess: unknown ATYP").

(** The destination by the command. *)
Definition read_destination (data : bytes) (pos cmd port : Z) : res ProxyError (Address * Z) :=
  if (cmd =? VM_CMD_TCP) || (cmd =? VM_CMD_UDP) then
    if pos >=? zlen data then Err (Protocol "VMess: truncated at atyp")
    else
      atyp ← idx data pos;
      read_vmess_address data (pos + 1) atyp port
  else if cmd =? VM_CMD_MUX then
    if pos >=? zlen data then Err (Protocol "VMess: truncated at atyp")
    else
      atyp ← idx data pos;
      '(_, pos) ← read_vmess_address data (pos + 1) atyp port;
      Ok (Domain MUX_DOMAIN port, pos)
  else Err (Protocol "VMess: unknown command").

Definition read_u32_be (data : bytes) (pos : Z) : res ProxyError Z :=
  if pos + 4 >? zlen data then Err (Protocol "VMess: truncated u32 field")
  else
    bs ← slice data pos (pos + 4);
    Ok (be_val bs).

(** The checksum behind the padding. *)
Definition check_header (data : bytes) (pos : Z) : res ProxyError unit :=
  if pos + 4 >? zlen data then Err (Protocol "VMess: truncated checksum")
  else
    covered ← slice data 0 pos;
    received ← read_u32_be data pos;
    if negb (fnv32a covered =? received) then Err (Protocol "VMess: header checksum mismatch") else Ok tt.

Definition decode_plaintext (data : bytes) : res ProxyError VmessRequest :=
  if zlen data <? 38 then Err (Protocol "VMess: header too short")
  else
    ver ← idx data 0;
    if negb (ver =? 1) then Err (Protocol "VMess: unexpected version")
    else
      iv ← slice data 1 17;
      key ← slice data 17 33;
      v ← idx data 33;
      options ← idx data 34;
      pad_sec ← idx data 35;
      let pad_len := Z.shiftr pad_sec 4 in
      security ← security_try_from (Z.land pad_sec 0x0F);
      cmd ← idx data 37;
      if 38 + 2 >? zlen data then Err (Protocol "VMess: truncated at port")
      else
        p0 ← idx data 38;
        p1 ← idx data 39;
        '(dest, pos) ← read_destination data 40 cmd (be_val [p0; p1]);
        _ ← check_header data (pos + pad_len);
        Ok (mkRequest iv key v options security dest).

(** ** Encrypted headers *)

(** [vmess_aead_encrypt] and [vmess_aead_decrypt]. *)
Definition vmess_aead_encrypt (key nonce msg aad : bytes) : bytes := seal (aes128_gcm prim) key nonce aad msg.

Definition vmess_aead_decrypt (key nonce ciphertext aad : bytes) (err : string) : res ProxyError bytes :=
  ok_or (open (aes128_gcm prim) key nonce aad ciphertext) (Protocol err).

(** The length and the header, encrypted; [iv], [key], [v], [connection_nonce] and [pad] are
    random. *)
Definition encode_header (cmd_key auth_id : bytes) (dest : Address) (security : Security)
    (iv key : bytes) (v : Z) (connection_nonce pad : bytes) : res ProxyError (bytes * bytes) :=
  plaintext ← build_request_plaintext iv key v pad security dest;
  let hdr_key := kdf 16 cmd_key [PATH_HDR_KEY; auth_id; connection_nonce] in
  let hdr_nonce := kdf 12 cmd_key [PATH_HDR_IV; auth_id; connection_nonce] in
  let enc_header := vmess_aead_encrypt hdr_key hdr_nonce plaintext auth_id in
  let len_key := kdf 16 cmd_key [PATH_LEN_KEY; auth_id; connection_nonce] in
  let len_nonce := kdf 12 cmd_key [PATH_LEN_IV; auth_id; connection_nonce] in
  let enc_len := vmess_aead_encrypt len_key len_nonce (be_bytes 2 (wrap 16 (zlen plaintext))) auth_id in
  Ok (enc_len, enc_header).

Definition decrypt_length_field (cmd_key auth_id connection_nonce enc : bytes) : res ProxyError Z :=
  let key := kdf 16 cmd_key [PATH_LEN_KEY; auth_id; connection_nonce] in
  let nonce := kdf 12 cmd_key [PATH_LEN_IV; auth_id; connection_nonce] in
  plaintext ← vmess_aead_decrypt key nonce enc auth_id "VMess: length field decryption failed";
  if zlen plaintext <? 2 then Err (Protocol "VMess: length field too short")
  else
    a ← idx plaintext 0;
    b ← idx plaintext 1;
    Ok (be_val [a; b]).

Definition decode_header (cmd_key auth_id connection_nonce : bytes) (enc_len : Z) : parser ProxyError VmessRequest :=
  ciphertext ← read_exact (enc_len + 16);
  let key := kdf 16 cmd_key [PATH_HDR_KEY; auth_id; connection_nonce] in
  let nonce := kdf 12 cmd_key [PATH_HDR_IV; auth_id; connection_nonce] in
  plaintext ← plift (vmess_aead_decrypt key nonce ciphertext auth_id "VMess: AEAD header decryption failed");
  plift (decode_plaintext plaintext).

(** * Response headers *)

Definition response_body_key (request_key : bytes) : bytes := take 16 (sha256 prim request_key).
Definition response_body_iv (request_iv : bytes) : bytes := take 16 (sha256 prim request_iv).

Definition send_response_header (v : Z) (resp_body_key resp_body_iv : bytes) : duplexM unit :=
  let plaintext := [v; 0; 0; 0] in
  let enc_len := vmess_aead_encrypt (kdf 16 resp_body_key [PATH_RESP_LEN_KEY]) (kdf 12 resp_body_iv [PATH_RESP_LEN_IV])
                   (be_bytes 2 (zlen plaintext)) [] in
  let enc_hdr := vmess_aead_encrypt (kdf 16 resp_body_key [PATH_RESP_HDR_KEY]) (kdf 12 resp_body_iv [PATH_RESP_HDR_IV])
                   plaintext [] in
  _ ← write_all enc_len;
  write_all enc_hdr.

Definition read_response_header (expected_v : Z) (resp_body_key resp_body_iv : bytes) : duplexM unit :=
  enc_len ← recv (read_exact 18);
  len_pt ← st_lift (vmess_aead_decrypt (kdf 16 resp_body_key [PATH_RESP_LEN_KEY])
                      (kdf 12 resp_body_iv [PATH_RESP_LEN_IV]) enc_len [] "VMess: resp len decrypt failed");
  l0 ← st_lift (idx len_pt 0);
  l1 ← st_lift (idx len_pt 1);
  let payload_len := be_val [l0; l1] in
  enc_hdr ← recv (read_exact (payload_len + 16));
  hdr_pt ← st_lift (vmess_aead_decrypt (kdf 16 resp_body_key [PATH_RESP_HDR_KEY])
                      (kdf 12 resp_body_iv [PATH_RESP_HDR_IV]) enc_hdr [] "VMess: resp header decrypt failed");
  let got_v := default 0 (head hdr_pt) in
  if negb (got_v =? expected_v) then st_fail (Protocol "VMess: response V mismatch") else mret tt.

End vmess.

(** * Theorems about headers *)

(** ** Any plaintext *)

Lemma read_vmess_address_proto data pos atyp port :
  bytes_ok data -> 0 <= pos -> proto_only (read_vmess_address data pos atyp port).
Proof.
  intros Hok Hpos. unfold read_vmess_address.
  destruct (atyp =? _); [proto_tac |]. destruct (atyp =? _); [proto_tac |]. destruct (atyp =? _); [| done].
  zdestruct (pos >=? zlen data); [done |]. apply proto_only_bind; [apply proto_only_idx; lia |].
  intros m Hm. apply idx_bytes_ok in Hm; [| done]. unfold is_u in Hm. proto_tac.
Qed.

(** What the address reader gives is well-formed and ends inside the header. *)
Lemma read_vmess_address_ok data pos atyp port a pos' :
  bytes_ok data -> is_u 16 port -> 0 <= pos -> read_vmess_address data pos atyp port = Ok (a, pos') ->
  wf_address a /\ pos <= pos' <= zlen data.
Proof.
  intros Hok Hport Hpos. unfold read_vmess_address.
  repeat (destruct (atyp =? _)); [| | | done].
  1,2: intros H; zcase_in H; rinv H; injection H as <- <-; pose proof (slice_len _ _ _ _ Hv);
    apply slice_bytes_ok in Hv; [| done]; split; [refine (conj _ (conj _ _)); [lia | done | done] | lia].
  intros H. zcase_in H. apply rbind_inv in H as (m & Hm & H). apply idx_bytes_ok in Hm; [| done]. unfold is_u in Hm.
  zcase_in H. rinv H. destruct (utf8_valid v) eqn:Hu; [| done]. injection H as <- <-.
  apply slice_bytes_ok in Hv; [| done]. split; [by split_and! | lia].
Qed.

Lemma read_destination_ok data pos cmd port a pos' :
  bytes_ok data -> is_u 16 port -> 0 <= pos -> read_destination data pos cmd port = Ok (a, pos') ->
  wf_address a /\ pos <= pos' <= zlen data.
Proof.
  intros Hok Hport Hpos. unfold read_destination. destruct (_ || _); [| destruct (cmd =? _); [| done]]; intros H; zcase_in H; rinv H.
  - apply read_vmess_address_ok in H; [| done | done | lia]. destruct H. split; [done | lia].
  - destruct v0 as [a0 pos0]. apply read_vmess_address_ok in Hv0; [| done | done | lia].
    injection H as <- <-. split; [| lia]. by split_and!; [vm_compute | decided |].
Qed.

(** The fields of a header; [pos] is where its checksum is. *)
Record header_fields (data : bytes) (r : VmessRequest) (pos : Z) : Prop := {
  ac_len : 40 <= zlen data;
  ac_version : idx (E:=ProxyError) data 0 = Ok 1;
  ac_iv : slice (E:=ProxyError) data 1 17 = Ok (r_iv r);
  ac_key : slice (E:=ProxyError) data 17 33 = Ok (r_key r);
  ac_v : idx (E:=ProxyError) data 33 = Ok (r_v r);
  ac_options : idx (E:=ProxyError) data 34 = Ok (r_options r);
  ac_body : exists pad_sec cmd p0 p1 end_,
      idx (E:=ProxyError) data 35 = Ok pad_sec /\ security_try_from (Z.land pad_sec 0x0F) = Ok (r_security r)
      /\ idx (E:=ProxyError) data 37 = Ok cmd /\ idx (E:=ProxyError) data 38 = Ok p0 /\ idx (E:=ProxyError) data 39 = Ok p1
      /\ read_destination data 40 cmd (be_val [p0; p1]) = Ok (r_dest r, end_) /\ pos = end_ + Z.shiftr pad_sec 4;
}.

Lemma decode_plaintext_inv data r :
  decode_plaintext data = Ok r -> exists pos, header_fields data r pos /\ check_header data pos = Ok ().
Proof.
  unfold decode_plaintext. intros H. zcase_in H. apply rbind_inv in H as (ver & Hver & H).
  destruct (Z.eqb_spec ver 1) as [-> |]; [| done]. cbn [negb] in H. rinv H. zcase_in H. rinv H.
  destruct v8 as [dest pos]. rinv H. injection H as <-. destruct v8.
  exists (pos + Z.shiftr v3 4). split; [| done]. split; cbn [r_iv r_key r_v r_options r_security r_dest]; try done.
  by exists v3, v5, v6, v7, pos.
Qed.

Lemma decode_plaintext_eq data r pos :
  header_fields data r pos -> decode_plaintext data = (_ ← check_header data pos; Ok r).
Proof.
  intros [Hl Hver Hiv Hkey Hv Ho (pad_sec & cmd & p0 & p1 & end_ & H35 & Hsec & H37 & H38 & H39 & Hdest & ->)].
  unfold decode_plaintext. zcase. rewrite Hver. cbn [mbind res_bind]. change (negb (1 =? 1)) with false. cbn match.
  rewrite Hiv, Hkey, Hv, Ho, H35. cbn [mbind res_bind]. rewrite Hsec, H37. cbn [mbind res_bind]. zcase.
  rewrite H38, H39. cbn [mbind res_bind]. rewrite Hdest. cbn [mbind res_bind]. by destruct r.
Qed.

Lemma security_try_from_proto v : proto_only (security_try_from v).
Proof. unfold security_try_from. by repeat destruct (_ =? _). Qed.

Lemma read_destination_proto data cmd port : bytes_ok data -> proto_only (read_destination data 40 cmd port).
Proof.
  intros Hok. unfold read_destination.
  assert (H : forall f, (forall x, proto_only (f x)) ->
    proto_only (if 40 >=? zlen data then Err (Protocol "VMess: truncated at atyp")
                else atyp ← idx data 40; x ← read_vmess_address data (40 + 1) atyp port; f x : res _ (Address * Z))).
  { intros f Hf. zcase; [done |]. apply proto_only_bind; [apply proto_only_idx; lia |]. intros atyp _.
    apply proto_only_bind; [by apply read_vmess_address_proto |]. intros. apply Hf. }
  destruct (_ || _); [| destruct (cmd =? _); [| done]].
  - pose proof (H Ok (fun _ => I)) as H'. destruct (_ >=? _); [done |]. destruct (idx data 40); try done.
    cbn [mbind res_bind] in *. by destruct (read_vmess_address _ _ _ _).
  - apply (H (fun x => let '(_, pos) := x in Ok (Domain MUX_DOMAIN port, pos))). by intros [].
Qed.

Lemma check_header_proto data pos : 0 <= pos -> proto_only (check_header data pos).
Proof.
  intros Hpos. unfold check_header, read_u32_be. zcase; [done |]. proto_tac.
Qed.

Lemma land_low4 x : 0 <= x -> 0 <= Z.shiftr x 4.
Proof. intros. by apply Z.shiftr_nonneg. Qed.

Lemma decode_plaintext_proto data : bytes_ok data -> proto_only (decode_plaintext data).
Proof.
  intros Hok. unfold decode_plaintext. zcase; [done |]. apply proto_only_bind; [apply proto_only_idx; lia |].
  intros ver _. destruct (negb _); [done |].
  do 4 (apply proto_only_bind; [first [apply proto_only_slice; lia | apply proto_only_idx; lia] |]; intros ? _).
  apply proto_only_bind; [apply proto_only_idx; lia |]. intros pad_sec Hps.
  apply idx_bytes_ok in Hps; [| done]. unfold is_u in Hps.
  apply proto_only_bind; [apply security_try_from_proto |]. intros sec _.
  apply proto_only_bind; [apply proto_only_idx; lia |]. intros cmd _. zcase; [done |].
  apply proto_only_bind; [apply proto_only_idx; lia |]. intros p0 Hp0. apply idx_bytes_ok in Hp0; [| done].
  apply proto_only_bind; [apply proto_only_idx; lia |]. intros p1 Hp1. apply idx_bytes_ok in Hp1; [| done].
  apply proto_only_bind; [by apply read_destination_proto |]. intros [dest pos] Hd.
  apply read_destination_ok in Hd as [_ Hd]; [| done | by apply is_u16_be_val | lia].
  apply proto_only_bind; [| done]. apply check_header_proto. pose proof (land_low4 pad_sec). lia.
Qed.

(** The type of a decoded request. *)
Definition wf_request (r : VmessRequest) : Prop :=
  zlen (r_iv r) = 16 /\ bytes_ok (r_iv r) /\ zlen (r_key r) = 16 /\ bytes_ok (r_key r)
  /\ is_u 8 (r_v r) /\ is_u 8 (r_options r) /\ wf_address (r_dest r).

Lemma header_fields_wf data r pos : bytes_ok data -> header_fields data r pos -> wf_request r.
Proof.
  intros Hok [Hl Hver Hiv Hkey Hv Ho (pad_sec & cmd & p0 & p1 & end_ & _ & _ & _ & H38 & H39 & Hdest & _)].
  pose proof (slice_len _ _ _ _ Hiv). pose proof (slice_len _ _ _ _ Hkey).
  apply slice_bytes_ok in Hiv; [| done]. apply slice_bytes_ok in Hkey; [| done].
  apply idx_bytes_ok in Hv; [| done]. apply idx_bytes_ok in Ho; [| done].
  apply idx_bytes_ok in H38; [| done]. apply idx_bytes_ok in H39; [| done].
  apply read_destination_ok in Hdest as [Hd _]; [| done | by apply is_u16_be_val | lia].
  unfold wf_request. split_and!; try done.
Qed.

(** ** The checksum *)

Lemma lxor_u32 h b : is_u 32 h -> is_u 8 b -> is_u 32 (Z.lxor h b).
Proof. intros Hh Hb. apply lxor_is_u; [lia | done |]. unfold is_u in *. lia. Qed.

Lemma fnv_step_u32 h b : is_u 32 (fnv_step h b).
Proof. unfold fnv_step, wrap, is_u. apply Z.mod_pos_bound. lia. Qed.

(** The multiplier has an inverse. *)
Lemma fnv_mul_inj a b : is_u 32 a -> is_u 32 b -> wrap 32 (a * 0x01000193) = wrap 32 (b * 0x01000193) -> a = b.
Proof.
  unfold wrap, is_u. intros Ha Hb H. rewrite <- (Z.mod_small a (2 ^ 32)), <- (Z.mod_small b (2 ^ 32)) by lia.
  apply (f_equal (fun x => (x * 899433627) mod 2 ^ 32)) in H.
  rewrite !Z.mul_mod_idemp_l, <- !Z.mul_assoc in H by lia.
  assert (E : 0x01000193 * 899433627 = 1 + (0x01000193 * 899433627 / 2 ^ 32) * 2 ^ 32) by reflexivity.
  rewrite E, !Z.mul_add_distr_l, !Z.mul_1_r, !Z.mul_assoc, !Z.mod_add in H by lia. exact H.
Qed.

Lemma fnv_step_inj h b h' b' :
  is_u 32 h -> is_u 32 h' -> is_u 8 b -> is_u 8 b' -> fnv_step h b = fnv_step h' b' -> Z.lxor h b = Z.lxor h' b'.
Proof. intros. apply fnv_mul_inj; [by apply lxor_u32 | by apply lxor_u32 | done]. Qed.

Lemma fnv_fold_inj l : bytes_ok l -> forall h h', is_u 32 h -> is_u 32 h' ->
  foldl fnv_step h l = foldl fnv_step h' l -> h = h'.
Proof.
  induction l as [| b l IH]; intros Hl h h' Hh Hh' E; [done |]. apply Forall_cons_iff in Hl as [Hb Hl]. cbn [foldl] in E.
  apply IH in E; [| done | apply fnv_step_u32 | apply fnv_step_u32]. apply fnv_step_inj in E; [| done..].
  apply (f_equal (fun x => Z.lxor x b)) in E. by rewrite !Z.lxor_assoc, Z.lxor_nilpotent, !Z.lxor_0_r in E.
Qed.

(** Inputs that differ in one byte have different checksums. *)
Lemma fnv32a_one_byte a x y c :
  bytes_ok (a ++ x :: c) -> is_u 8 y -> x <> y -> fnv32a (a ++ x :: c) <> fnv32a (a ++ y :: c).
Proof.
  intros [Ha [Hx Hc]%bytes_ok_cons]%bytes_ok_app Hy Hne. unfold fnv32a. rewrite !foldl_app. cbn [foldl]. intros E.
  assert (Hh : is_u 32 (foldl fnv_step 2166136261 a)).
  { destruct a as [| b a _] using rev_ind; [by vm_compute |]. rewrite foldl_app. apply fnv_step_u32. }
  apply fnv_fold_inj in E; [| done | apply fnv_step_u32 | apply fnv_step_u32]. apply fnv_step_inj in E; [| done..].
  apply Hne. apply (f_equal (fun z => Z.lxor (foldl fnv_step 2166136261 a) z)) in E.
  by rewrite <- !Z.lxor_assoc, Z.lxor_nilpotent, !Z.lxor_0_l in E.
Qed.

(** Changing a byte before position 40 leaves what is read behind it. *)
Lemma idx_insert (data : bytes) (i : nat) b k :
  k <> Z.of_nat i -> idx (E:=ProxyError) (<[i := b]> data) k = idx data k.
Proof. intros H. unfold idx. case_bool_decide; [| done]. rewrite list_lookup_insert_ne by lia. done. Qed.

Lemma slice_insert (data : bytes) (i : nat) b x y :
  Z.of_nat i < x \/ y <= Z.of_nat i -> slice (E:=ProxyError) (<[i := b]> data) x y = slice data x y.
Proof.
  intros H. unfold slice, zlen. rewrite length_insert. repeat case_bool_decide; try done. cbn [andb]. f_equal.
  rewrite drop_insert. case_decide; [| done]. rewrite take_insert_ge by lia. done.
Qed.

Lemma read_vmess_address_insert data (i : nat) b pos atyp port :
  Z.of_nat i < pos -> bytes_ok data ->
  read_vmess_address (<[i := b]> data) pos atyp port = read_vmess_address data pos atyp port.
Proof.
  intros Hi Hok. unfold read_vmess_address, zlen. rewrite length_insert, !slice_insert, idx_insert by lia.
  destruct (idx data pos) as [dlen | | |] eqn:Hd; cbn [mbind res_bind]; [| done..].
  apply idx_bytes_ok in Hd; [| done]. unfold is_u in Hd. by rewrite slice_insert by lia.
Qed.

Lemma read_destination_insert data (i : nat) b pos cmd port :
  Z.of_nat i < pos -> bytes_ok data ->
  read_destination (<[i := b]> data) pos cmd port = read_destination data pos cmd port.
Proof.
  intros Hi Hok. unfold read_destination, zlen. rewrite length_insert, idx_insert by lia.
  destruct (idx data pos) as [atyp | | |]; cbn [mbind res_bind]; [| done..].
  by rewrite read_vmess_address_insert by (done || lia).
Qed.

(** The bytes of the IV, the key, the verification byte, the options and the reserved byte. *)
Definition checked_only (i : nat) : Prop := (1 <= i < 35)%nat \/ i = 36%nat.

Lemma header_fields_insert data r pos (i : nat) b :
  checked_only i -> bytes_ok data -> header_fields data r pos -> exists r', header_fields (<[i := b]> data) r' pos.
Proof.
  intros Hi Hok [Hl Hver Hiv Hkey Hv Ho (pad_sec & cmd & p0 & p1 & end_ & H35 & Hsec & H37 & H38 & H39 & Hdest & ->)].
  unfold checked_only in Hi. assert (Hl' : zlen (<[i := b]> data) = zlen data) by (unfold zlen; by rewrite length_insert).
  destruct (idx_in_range (E:=ProxyError) (<[i := b]> data) 33) as (v & Ev & _); [lia |].
  destruct (idx_in_range (E:=ProxyError) (<[i := b]> data) 34) as (o & Eo & _); [lia |].
  exists (mkRequest (take 16 (drop 1 (<[i := b]> data))) (take 16 (drop 17 (<[i := b]> data))) v o
            (r_security r) (r_dest r)).
  split; cbn [r_iv r_key r_v r_options r_security r_dest]; try done; [lia | | | |].
  - by rewrite idx_insert by lia.
  - rewrite slice_in_range by lia. done.
  - rewrite slice_in_range by lia. done.
  - exists pad_sec, cmd, p0, p1, end_. rewrite !idx_insert by lia. split_and!; try done.
    by rewrite read_destination_insert by (done || lia).
Qed.

Lemma check_header_insert data pos (i : nat) b :
  bytes_ok data -> is_u 8 b -> Z.of_nat i < pos -> data !! i <> Some b -> check_header data pos = Ok () ->
  check_header (<[i := b]> data) pos = Err (Protocol "VMess: header checksum mismatch").
Proof.
  intros Hok Hb Hi Hne. unfold check_header, read_u32_be.
  assert (Hl' : zlen (<[i := b]> data) = zlen data) by (unfold zlen; by rewrite length_insert). rewrite Hl'.
  destruct (Z.gtb_spec (pos + 4) (zlen data)) as [| Hpos]; [done |].
  rewrite slice_insert by lia. rewrite !(slice_in_range _ 0) by lia. cbn [mbind res_bind].
  rewrite slice_in_range by lia. cbn [mbind res_bind]. rewrite !drop_0.
  destruct (Z.eqb_spec (fnv32a (take (Z.to_nat (pos - 0)) data)) (be_val (take (Z.to_nat (pos + 4 - pos)) (drop (Z.to_nat pos) data))))
    as [E |]; [| done]. intros _.
  destruct (lookup_lt_is_Some_2 data i) as [x Hx]; [unfold zlen in *; lia |].
  rewrite take_insert_lt by lia. set (l := take (Z.to_nat (pos - 0)) data) in *.
  assert (Hxl : l !! i = Some x) by (unfold l; rewrite lookup_take_lt by lia; done).
  rewrite insert_take_drop by (by eapply lookup_lt_Some). rewrite <- E. rewrite (proj2 (Z.eqb_neq _ _)); [done |].
  rewrite <- (take_drop_middle l i x Hxl) at 3. apply not_eq_sym, fnv32a_one_byte; [| done | congruence].
  rewrite take_drop_middle by done. by apply take_drop_bytes_ok.
Qed.

(** Decoding of request headers is total and checks what it reads.  On any plaintext the
    decoder returns a request or a protocol error and never panics.  An accepted request is
    well-formed: IV and key of sixteen bytes and an address of the right shape.  And the
    checksum catches every change of one byte of the IV, the key, the verification byte, the
    options or the reserved byte: the changed header is refused. *)
Theorem vmess_header_checked (data : bytes) :
  bytes_ok data ->
  ((exists r, decode_plaintext data = Ok r) \/ (exists s, decode_plaintext data = Err (Protocol s)))
  /\ forall r, decode_plaintext data = Ok r ->
       wf_request r
       /\ forall i b, checked_only i -> is_u 8 b -> data !! i <> Some b ->
            decode_plaintext (<[i := b]> data) = Err (Protocol "VMess: header checksum mismatch").
Proof.
  intros Hok. split; [by apply proto_only_cases, decode_plaintext_proto |].
  intros r H. apply decode_plaintext_inv in H as (pos & Hf & Hc). split; [by eapply header_fields_wf |].
  intros i b Hi Hb Hne. destruct (header_fields_insert data r pos i b Hi Hok Hf) as (r' & Hf').
  rewrite (decode_plaintext_eq _ _ _ Hf'), check_header_insert; [done | done | done | | done | done].
  destruct Hf as [_ _ _ _ _ _ (pad_sec & cmd & p0 & p1 & end_ & H35 & _ & _ & H38 & H39 & Hdest & ->)].
  apply idx_bytes_ok in H35, H38, H39; [| done..]. pose proof (land_low4 pad_sec). unfold is_u in H35.
  apply read_destination_ok in Hdest as [_ Hd]; [| done | by apply is_u16_be_val | lia]. unfold checked_only in Hi. lia.
Qed.

(** ** Headers of the client *)

Lemma lor_pad_sec n s :
  0 <= n < 16 ->
  let b := Z.lor (wrap 8 (Z.shiftl n 4)) (security_byte s) in
  Z.shiftr b 4 = n /\ security_try_from (Z.land b 0x0F) = Ok s /\ is_u 8 b.
Proof.
  intros Hn. assert (H : n ∈ seqZ 0 16) by (apply elem_of_seqZ; lia). clear Hn.
  change (seqZ 0 16) with [0; 1; 2; 3; 4; 5; 6; 7; 8; 9; 10; 11; 12; 13; 14; 15] in H.
  repeat (apply elem_of_cons in H as [H | H]; [subst n; destruct s; vm_compute; (repeat split); discriminate |]). by apply elem_of_nil in H.
Qed.

(** The address section of a destination, read back with its length. *)
Lemma vmess_address_ok dest pre rest :
  wf_address dest -> wire_encodable dest -> zlen pre = 38 ->
  exists addr p0 p1 tail, vmess_address dest = Ok addr /\ addr = p0 :: p1 :: tail /\ zlen addr <= 259
    /\ be_val [p0; p1] = port dest
    /\ read_destination (pre ++ addr ++ rest) 40 VM_CMD_TCP (port dest) = Ok (dest, 38 + zlen addr).
Proof.
  intros Hwf Henc Hpre. unfold read_destination. rewrite Z.eqb_refl. cbn [orb].
  destruct dest as [i p | i p | n p]; cbn [vmess_address port wf_address wire_encodable] in *; destruct_and!;
    [| | rewrite domain_wire_len_ok by done]; rewrite be_bytes_2; cbn [mbind res_bind];
    eexists _, _, _, _; (split; [reflexivity |]); (split; [reflexivity |]);
    (split; [len_solve |]); (split; [by apply be_val_2_port |]); cbn [app].
  - zcase. erewrite rbind_ok by (apply (idx_shift _ _ _ 2); [reflexivity | lia]). unfold read_vmess_address. simpl. zcase.
    erewrite rbind_ok by (apply (slice_split _ (pre ++ [p / 256 mod 256; p mod 256; VM_ATYP_IPV4]) i rest);
                          [by rewrite <- app_assoc | len_solve | len_solve]). do 2 f_equal. len_solve.
  - zcase. erewrite rbind_ok by (apply (idx_shift _ _ _ 2); [reflexivity | lia]). unfold read_vmess_address. simpl. zcase.
    erewrite rbind_ok by (apply (slice_split _ (pre ++ [p / 256 mod 256; p mod 256; VM_ATYP_IPV6]) i rest);
                          [by rewrite <- app_assoc | len_solve | len_solve]). do 2 f_equal. len_solve.
  - zcase. erewrite rbind_ok by (apply (idx_shift _ _ _ 2); [reflexivity | lia]). unfold read_vmess_address. simpl. zcase.
    erewrite rbind_ok by (apply (idx_shift _ _ _ 3); [reflexivity | lia]). cbv zeta. zcase.
    erewrite rbind_ok by (apply (slice_split _ (pre ++ [p / 256 mod 256; p mod 256; VM_ATYP_DOMAIN; zlen n]) n rest);
                          [by rewrite <- app_assoc | len_solve | len_solve]).
    rewrite (ltac:(assumption) : utf8_valid n = true). cbn [negb]. do 2 f_equal. len_solve.
Qed.

Lemma fnv32a_u32 l : 0 <= fnv32a l < 2 ^ 32.
Proof. unfold fnv32a. destruct l as [| b l _] using rev_ind; [by vm_compute |]. rewrite foldl_app. apply fnv_step_u32. Qed.

Lemma check_header_ok buf : check_header (buf ++ be_bytes 4 (fnv32a buf)) (zlen buf) = Ok ().
Proof.
  unfold check_header, read_u32_be. assert (Hl : zlen (buf ++ be_bytes 4 (fnv32a buf)) = zlen buf + 4) by len_solve.
  rewrite Hl. zcase. erewrite rbind_ok by (by apply (slice_app3 [])).
  rewrite (slice_split _ buf (be_bytes 4 (fnv32a buf)) []) by (by rewrite ?app_nil_r, ?zlen_be_bytes). cbn [mbind res_bind].
  rewrite be_val_be_bytes by (pose proof (fnv32a_u32 buf); change (256 ^ Z.of_nat 4) with (2 ^ 32); lia).
  by rewrite Z.eqb_refl.
Qed.

Lemma request_plaintext_ok iv key v pad security dest :
  zlen iv = 16 -> zlen key = 16 -> zlen pad < 16 -> wf_address dest -> wire_encodable dest ->
  exists data, build_request_plaintext iv key v pad security dest = Ok data /\ zlen data < 65536
    /\ decode_plaintext data = Ok (mkRequest iv key v 1 security dest).
Proof.
  intros Hiv Hkey Hpad Hwf Henc. pose proof (zlen_nonneg pad). unfold build_request_plaintext.
  set (ps := Z.lor _ _). destruct (lor_pad_sec (zlen pad) security) as (Hs & Hsec & _); [lia |]. fold ps in Hs, Hsec.
  set (pre := [0x01] ++ iv ++ key ++ [v; 0x01; ps; 0x00; 0x01]).
  assert (Hpre : zlen pre = 38) by (unfold pre; len_solve).
  destruct (vmess_address_ok dest pre [] Hwf Henc Hpre) as (addr & p0 & p1 & tail & Ha & _ & Hal & _).
  rewrite Ha. cbn [mbind res_bind]. eexists. split; [reflexivity |].
  set (buf := [0x01] ++ _).
  assert (Hbuf : buf = pre ++ addr ++ pad) by (unfold buf, pre; by rewrite <- !app_assoc).
  rewrite Hbuf. split; [len_solve |].
  set (rest := pad ++ be_bytes 4 (fnv32a (pre ++ addr ++ pad))).
  destruct (vmess_address_ok dest pre rest Hwf Henc Hpre) as (addr' & q0 & q1 & tail' & Ha' & Eaddr & _ & Hport & Hdest).
  rewrite Ha in Ha'. injection Ha' as <-.
  rewrite (decode_plaintext_eq _ (mkRequest iv key v 1 security dest) (38 + zlen addr + zlen pad)).
  { replace (38 + zlen addr + zlen pad) with (zlen (pre ++ addr ++ pad)) by len_solve. by rewrite check_header_ok. }
  replace ((pre ++ addr ++ pad) ++ be_bytes 4 _) with (pre ++ addr ++ rest) by (unfold rest; by rewrite <- !app_assoc).
  assert (H2 : 2 <= zlen addr) by (rewrite Eaddr; len_solve). pose proof (zlen_nonneg rest).
  split; cbn [r_iv r_key r_v r_options r_security r_dest]; [len_solve | done | | | | |].
  - unfold pre. rewrite <- !app_assoc. apply (slice_app3 [1]); [done | len_solve].
  - apply (slice_split _ ([1] ++ iv) key ([v; 1; ps; 0; 1] ++ addr ++ rest)); [unfold pre; by rewrite <- !app_assoc | len_solve | len_solve].
  - unfold pre. rewrite !app_assoc, <- !(app_assoc (([1] ++ iv) ++ key)). apply (idx_shift _ _ _ 0); [done | len_solve].
  - unfold pre. rewrite !app_assoc, <- !(app_assoc (([1] ++ iv) ++ key)). apply (idx_shift _ _ _ 1); [done | len_solve].
  - exists ps, VM_CMD_TCP, q0, q1, (38 + zlen addr). rewrite Hport, Hs, Hdest.
    split_and!; [| done | | | | done | lia].
    1,2: unfold pre; rewrite !app_assoc, <- !(app_assoc (([1] ++ iv) ++ key)).
    + apply (idx_shift _ _ _ 2); [done | len_solve].
    + apply (idx_shift _ _ _ 4); [done | len_solve].
    + rewrite Eaddr. apply (idx_shift _ _ _ 0); [done | lia].
    + rewrite Eaddr. apply (idx_shift _ _ _ 1); [done | lia].
Qed.

(** ** Encrypted exchange *)

Section laws.
Context (prim : Primitives) `{!PrimitiveLaws prim}.

Lemma generate_len key ts random : zlen random = 4 -> zlen (generate_auth_id_at prim key ts random) = 16.
Proof. intros. unfold generate_auth_id_at. apply encrypt_len. len_solve. Qed.

(** An identifier is accepted as long as its time is. *)
Lemma validate_generated key ts random mx now :
  zlen random = 4 -> 0 <= ts < 2 ^ 64 ->
  validate_auth_id prim key (generate_auth_id_at prim key ts random) mx now = (Z.abs (now - ts) <=? mx).
Proof.
  intros Hr Hts. unfold validate_auth_id, generate_auth_id_at. rewrite decrypt_encrypt by len_solve. cbv zeta.
  set (first := be_bytes 8 ts ++ random). assert (Hf : length first = 12%nat).
  { unfold first. rewrite length_app, length_be_bytes. unfold zlen in Hr. lia. }
  rewrite take_app_length' by done. rewrite drop_app_length' by done.
  rewrite firstn_all2 by (by rewrite length_be_bytes).
  rewrite be_val_be_bytes by (pose proof (crc32_range first); change (256 ^ Z.of_nat 4) with (2 ^ 32); lia).
  rewrite Z.eqb_refl. cbn [negb]. unfold first. rewrite <- app_assoc, take_app_length' by (by rewrite length_be_bytes).
  by rewrite be_val_be_bytes.
Qed.

(** The header of the client, decrypted by the server. *)
Lemma header_ok cmd_key auth_id dest security iv key v nonce pad rest :
  zlen iv = 16 -> zlen key = 16 -> zlen pad < 16 -> wf_address dest -> wire_encodable dest ->
  exists enc_len enc_header n,
    encode_header prim cmd_key auth_id dest security iv key v nonce pad = Ok (enc_len, enc_header)
    /\ zlen enc_len = 18
    /\ decrypt_length_field prim cmd_key auth_id nonce enc_len = Ok n
    /\ decode_header prim cmd_key auth_id nonce n (enc_header ++ rest) = Ok (mkRequest iv key v 1 security dest, rest).
Proof.
  intros Hiv Hkey Hpad Hwf Henc.
  destruct (request_plaintext_ok iv key v pad security dest Hiv Hkey Hpad Hwf Henc) as (data & Hb & Hl & Hd).
  unfold encode_header. rewrite Hb. cbn [mbind res_bind]. eexists _, _, (zlen data). split; [reflexivity |].
  pose proof (zlen_nonneg data). unfold vmess_aead_encrypt.
  assert (Hw : wrap 16 (zlen data) = zlen data) by (unfold wrap; apply Z.mod_small; lia). rewrite Hw. split_and!.
  - by rewrite seal_len, zlen_be_bytes.
  - unfold decrypt_length_field, vmess_aead_decrypt. rewrite open_seal. cbn [ok_or mbind res_bind].
    rewrite zlen_be_bytes, be_bytes_2. zcase. do 2 erewrite rbind_ok by reflexivity.
    f_equal. apply be_val_2_port. unfold is_u. lia.
  - unfold decode_header. erewrite pbind_ok by (apply read_exact_app; by rewrite seal_len).
    unfold vmess_aead_decrypt. rewrite open_seal. erewrite pbind_ok by reflexivity. unfold plift. by rewrite Hd.
Qed.

(** The response of the server as bytes, and its acceptance by the client. *)
Definition response_wire (v : Z) (resp_key resp_iv : bytes) : bytes :=
  vmess_aead_encrypt prim (kdf prim 16 resp_key [PATH_RESP_LEN_KEY]) (kdf prim 12 resp_iv [PATH_RESP_LEN_IV]) [0; 4] []
  ++ vmess_aead_encrypt prim (kdf prim 16 resp_key [PATH_RESP_HDR_KEY]) (kdf prim 12 resp_iv [PATH_RESP_HDR_IV])
       [v; 0; 0; 0] [].

Lemma send_response_ok v k iv d :
  send_response_header prim v k iv d = (mkDuplex (input d) (output d ++ response_wire v k iv), Ok ()).
Proof.
  unfold response_wire, send_response_header. cbv zeta. erewrite sbind_ok by reflexivity.
  change (be_bytes 2 (zlen [v; 0; 0; 0])) with [0; 4]. unfold write_all, st_modify. cbn [input output]. by rewrite app_assoc.
Qed.

Lemma read_response_ok v k iv rest out :
  read_response_header prim v k iv (mkDuplex (response_wire v k iv ++ rest) out) = (mkDuplex rest out, Ok ()).
Proof.
  unfold response_wire, read_response_header, vmess_aead_encrypt, vmess_aead_decrypt. rewrite <- app_assoc.
  erewrite sbind_ok by (unfold recv; cbn [input output]; rewrite read_exact_app by (rewrite seal_len; reflexivity); reflexivity).
  rewrite open_seal. do 3 erewrite sbind_ok by reflexivity. cbv zeta.
  erewrite sbind_ok by (unfold recv; cbn [input output]; rewrite read_exact_app by (rewrite seal_len; reflexivity); reflexivity).
  rewrite open_seal. erewrite sbind_ok by reflexivity. cbn [head default]. by rewrite Z.eqb_refl.
Qed.

End laws.

Definition example_header : bytes :=
  match build_request_plaintext (replicate 16 1) (replicate 16 2) 7 [9; 9] Aes128Gcm (Domain (lit "a.example") 443) with
  | Ok data => data
  | _ => []
  end.

Lemma vmess_header_checked_witness :
  exists r, decode_plaintext example_header = Ok r /\ wf_request r
  /\ decode_plaintext (<[20%nat := 3]> example_header) = Err (Protocol "VMess: header checksum mismatch").
Proof.
  eexists. split; [vm_compute; reflexivity |].
  destruct (vmess_header_checked example_header) as [_ H]; [decided |].
  edestruct H as [Hwf Hc]; [vm_compute; reflexivity |]. split; [exact Hwf |].
  apply Hc; [left; lia | split; lia | by vm_compute].
Defined.

(** ** Concrete primitives *)

Definition toy_primitives : Primitives := {|
  aes128_gcm := toy_aead;
  chacha20_poly1305 := toy_aead;
  aes128 := toy_block;
  hmac_sha256 := toy_kdf;
  sha256 m := toy_kdf [] m;
  md5 m := take 16 (m ++ replicate 16 0);
  crc32 m := byte_sum m;
  shake128 iv n := (byte_sum iv + Z.of_nat n) mod 256;
|}.

#[global] Instance toy_primitive_laws : PrimitiveLaws toy_primitives.
Proof.
  split; try apply _; cbn [toy_primitives crc32 shake128]; intros.
  - pose proof (byte_sum_u8 m) as H. unfold is_u in H. lia.
  - apply Z.mod_pos_bound. lia.
Qed.

(** The documentation of [kdf] describes a chain of HMACs over the paths; the code nests the
    hash functions instead, which is something else. *)
Lemma kdf_is_no_chain :
  kdf toy_primitives 16 [1] [[2]; [3]] <> take 16 (hmac_sha256 toy_primitives (hmac_sha256 toy_primitives [1] [2]) [3]).
Proof. by vm_compute. Qed.
