(* ===== verification/VmessStream.v ===== *)
(** The VMess data stream ([vmess/stream.rs]): chunks with a two-byte size, masked with
    SHAKE128 when the request asks for it, an encrypted or plain payload, and random padding. *)

From stdpp Require Import base list strings numbers.
From S2P Require Import Prelude Address Streams Chunks Crypto Vmess.

Definition MAX_CHUNK_SIZE : Z := 16384.
Definition READ_CHUNK_SIZE : nat := Z.to_nat 65536.
Definition REQUEST_OPTION_CHUNK_MASKING : Z := 0x04.
Definition REQUEST_OPTION_GLOBAL_PADDING : Z := 0x08.

Definition chunk_nonce (counter : Z) (iv : bytes) : bytes := be_bytes 2 counter ++ take 10 (drop 2 iv).

(** Position in the output of SHAKE128 over an IV. *)
Record SizeMask := mkMask { mask_iv : bytes; mask_pos : nat }.

Definition SizeMask_new (iv : bytes) : SizeMask := mkMask iv 0.

(** A cipher with its key. *)
Inductive BodyCipher := CipherAes128Gcm (key : bytes) | CipherChaCha20Poly1305 (key : bytes) | CipherNone.

Definition overhead (c : BodyCipher) : Z :=
  match c with CipherAes128Gcm _ | CipherChaCha20Poly1305 _ => 16 | CipherNone => 0 end.

(** What a decoder keeps from chunk to chunk: the counter, the mask, and the size and padding
    of a chunk of which only the header was there. *)
Record ReadState := mkRead { rs_counter : Z; rs_mask : option SizeMask; rs_pending : option (Z * Z) }.

(** What a framer keeps: the counter, the mask, and the random bytes it will draw. *)
Record WriteState := mkWrite { ws_counter : Z; ws_mask : option SizeMask; ws_random : list bytes }.

(** What does not change in one direction: cipher, IV and the padding option. *)
Record Direction := mkDirection { d_cipher : BodyCipher; d_iv : bytes; d_padding : bool }.

Record VmessStream := mkVmess {
  vm_inner : list PollEvent;
  vm_read : Direction;
  vm_read_state : ReadState;
  vm_read_buf : bytes;
  vm_read_raw : bytes;
  vm_sink : list WriteEvent;
  vm_sent : bytes;
  vm_write : Direction;
  vm_write_state : WriteState;
  vm_write_buf : bytes;
}.

Section stream.
Context (prim : Primitives).

Definition chacha_key (key : bytes) : bytes :=
  let first := md5 prim key in
  let second := md5 prim first in
  first ++ second.

Definition BodyCipher_new (security : Security) (key : bytes) : BodyCipher :=
  match security with
  | Aes128Gcm => CipherAes128Gcm key
  | ChaCha20Poly1305 => CipherChaCha20Poly1305 (chacha_key key)
  | NoSecurity => CipherNone
  end.

Definition encrypt_append (c : BodyCipher) (nonce data : bytes) : bytes :=
  match c with
  | CipherAes128Gcm key => seal (aes128_gcm prim) key nonce [] data
  | CipherChaCha20Poly1305 key => seal (chacha20_poly1305 prim) key nonce [] data
  | CipherNone => data
  end.

Definition decrypt_in_place (c : BodyCipher) (nonce buf : bytes) : option bytes :=
  match c with
  | CipherAes128Gcm key => open (aes128_gcm prim) key nonce [] buf
  | CipherChaCha20Poly1305 key => open (chacha20_poly1305 prim) key nonce [] buf
  | CipherNone => Some buf
  end.

(** [SizeMask::next]. *)
Definition mask_next (m : SizeMask) : SizeMask * Z :=
  (mkMask (mask_iv m) (mask_pos m + 2),
   be_val [shake128 prim (mask_iv m) (mask_pos m); shake128 prim (mask_iv m) (mask_pos m + 1)]).

(** [next_read_padding_len] and [next_write_padding_len]. *)
Definition next_padding_len (global_padding : bool) (mask : option SizeMask) : option SizeMask * Z :=
  if negb global_padding then (mask, 0)
  else
    match mask with
    | Some m => let '(m, x) := mask_next m in (Some m, x mod 64)
    | None => (None, 0)
    end.

Definition decode_size (mask : option SizeMask) (bs : bytes) : option SizeMask * Z :=
  let encoded := be_val bs in
  match mask with
  | Some m => let '(m, x) := mask_next m in (Some m, Z.lxor encoded x)
  | None => (None, encoded)
  end.

Definition encode_size (mask : option SizeMask) (size : Z) : option SizeMask * bytes :=
  let encoded := wrap 16 size in
  match mask with
  | Some m => let '(m, x) := mask_next m in (Some m, be_bytes 2 (Z.lxor encoded x))
  | None => (None, be_bytes 2 encoded)
  end.

(** ** Reading *)

(** Size and padding of the next chunk: the ones kept from before, or from its first two
    bytes. *)
Definition chunk_header (dir : Direction) (st : ReadState) (src : bytes) : option (ReadState * Z * Z) :=
  match rs_pending st with
  | Some (size, padding_len) => Some (mkRead (rs_counter st) (rs_mask st) None, size, padding_len)
  | None =>
      if zlen src <? 2 then None
      else
        let '(mask, padding_len) := next_padding_len (d_padding dir) (rs_mask st) in
        let '(mask, size) := decode_size mask (take 2 src) in
        Some (mkRead (rs_counter st) mask None, size, padding_len)
  end.

Definition try_decrypt_chunk (dir : Direction) (st : ReadState) (src : bytes) : ReadState * bytes * Decrypted :=
  match chunk_header dir st src with
  | None => (st, src, NeedMore)
  | Some (st, size, padding_len) =>
      if size <? overhead (d_cipher dir) + padding_len then (st, src, Bad)
      else if zlen src <? 2 + size then
        (mkRead (rs_counter st) (rs_mask st) (Some (size, padding_len)), src, NeedMore)
      else
        let data_ct := take (Z.to_nat (size - padding_len)) (drop 2 src) in
        let rest := drop (Z.to_nat (2 + size)) src in
        match decrypt_in_place (d_cipher dir) (chunk_nonce (rs_counter st) (d_iv dir)) data_ct with
        | None => (st, rest, Bad)
        | Some plain => (mkRead (wrap 16 (rs_counter st + 1)) (rs_mask st) None, rest, Plain plain)
        end
  end.

Definition vm_reader (st : VmessStream) : ChunkReader ReadState :=
  mkReader (vm_inner st) (vm_read_state st) (vm_read_buf st) (vm_read_raw st).

Definition put_vm_reader (st : VmessStream) (r : ChunkReader ReadState) : VmessStream :=
  mkVmess (cr_inner r) (vm_read st) (cr_dec r) (cr_buf r) (cr_raw r) (vm_sink st) (vm_sent st) (vm_write st)
    (vm_write_state st) (vm_write_buf st).

Definition vm_poll_read (cap : Z) (st : VmessStream) : option (VmessStream * poll bytes) :=
  read_part put_vm_reader st (chunk_poll_read READ_CHUNK_SIZE (try_decrypt_chunk (vm_read st)) cap (vm_reader st)).

(** ** Writing *)

(** The next random bytes, as many as asked for. *)
Definition fill_random (n : nat) (random : list bytes) : list bytes * bytes :=
  (tail random, take n (default [] (head random) ++ replicate n 0)).

Definition append_encrypted_chunk (dir : Direction) (st : WriteState) (data : bytes) : WriteState * bytes :=
  let nonce := chunk_nonce (ws_counter st) (d_iv dir) in
  let '(mask, padding_len) := next_padding_len (d_padding dir) (ws_mask st) in
  let '(mask, size) := encode_size mask (zlen data + overhead (d_cipher dir) + padding_len) in
  let ct := encrypt_append (d_cipher dir) nonce data in
  let counter := wrap 16 (ws_counter st + 1) in
  if padding_len >? 0 then
    let '(random, pad) := fill_random (Z.to_nat padding_len) (ws_random st) in
    (mkWrite counter mask random, size ++ ct ++ pad)
  else (mkWrite counter mask (ws_random st), size ++ ct).

Definition vm_writer (st : VmessStream) : ChunkWriter WriteState :=
  mkWriter (vm_sink st) (vm_sent st) (vm_write_state st) (vm_write_buf st).

Definition put_vm_writer (st : VmessStream) (w : ChunkWriter WriteState) : VmessStream :=
  mkVmess (vm_inner st) (vm_read st) (vm_read_state st) (vm_read_buf st) (vm_read_raw st) (cw_sink w) (cw_sent w)
    (vm_write st) (cw_state w) (cw_buf w).

Definition vm_poll_flush (st : VmessStream) : VmessStream * poll unit :=
  let '(w, r) := chunk_flush (vm_writer st) in (put_vm_writer st w, r).

Definition vm_poll_write (buf : bytes) (st : VmessStream) : VmessStream * poll Z :=
  let '(w, r) := chunk_write (append_encrypted_chunk (vm_write st)) MAX_CHUNK_SIZE buf (vm_writer st) in
  (put_vm_writer st w, r).

#[global] Instance VmessStream_reader : AsyncReader VmessStream := { rd_poll := vm_poll_read; rd_inner := vm_inner }.
#[global] Instance VmessStream_writer : AsyncWriter VmessStream := { wr_write := vm_poll_write; wr_flush := vm_poll_flush }.

(** [VmessStream::new_bidir] over a stream underneath; [random] is what it will draw. *)
Definition vmess_new_bidir (inner : list PollEvent) (sink : list WriteEvent) (random : list bytes)
    (read_key read_iv write_key write_iv : bytes) (security : Security) (options : Z) : VmessStream :=
  let chunk_masking := negb (Z.land options REQUEST_OPTION_CHUNK_MASKING =? 0) in
  let padding := negb (Z.land options REQUEST_OPTION_GLOBAL_PADDING =? 0) in
  let mask iv := if chunk_masking then Some (SizeMask_new iv) else None in
  mkVmess inner (mkDirection (BodyCipher_new security read_key) read_iv padding) (mkRead 0 (mask read_iv) None) [] []
    sink [] (mkDirection (BodyCipher_new security write_key) write_iv padding) (mkWrite 0 (mask write_iv) random) [].

(** * Theorems *)

Context `{!PrimitiveLaws prim}.

Lemma mask_next_u16 m : is_u 16 (mask_next m).2.
Proof. apply is_u16_be_val; unfold is_u; apply shake_range. Qed.

Lemma size_roundtrip mask size :
  is_u 16 size -> zlen (encode_size mask size).2 = 2
  /\ decode_size mask (encode_size mask size).2 = ((encode_size mask size).1, size).
Proof.
  intros Hs. unfold encode_size, decode_size, wrap. rewrite Z.mod_small by done. destruct mask as [m |]; cbn [fst snd].
  - pose proof (mask_next_u16 m) as Hx. rewrite (surjective_pairing (mask_next m)). cbn [fst snd].
    split; [apply zlen_be_bytes |]. rewrite be_val_be_bytes.
    + by rewrite Z.lxor_assoc, Z.lxor_nilpotent, Z.lxor_0_r.
    + change (256 ^ Z.of_nat 2) with (2 ^ 16). apply (lxor_is_u 16); [lia | done | done].
  - split; [apply zlen_be_bytes |]. by rewrite be_val_be_bytes.
Qed.

Lemma padding_range gp mask : 0 <= (next_padding_len gp mask).2 < 64.
Proof.
  unfold next_padding_len. destruct gp; cbn [negb snd]; [| lia]. destruct mask as [m |]; [| simpl; lia].
  rewrite (surjective_pairing (mask_next m)). cbn [snd]. apply Z.mod_pos_bound. lia.
Qed.

Lemma encrypt_ok c nonce data :
  decrypt_in_place c nonce (encrypt_append c nonce data) = Some data
  /\ zlen (encrypt_append c nonce data) = zlen data + overhead c.
Proof. destruct c; cbn [decrypt_in_place encrypt_append overhead]; [| | split; [done | lia]]; by rewrite open_seal, seal_len. Qed.

Lemma fill_random_len n random : length (fill_random n random).2 = n.
Proof. unfold fill_random. cbn [snd]. rewrite length_take, length_app, length_replicate. lia. Qed.

(** Payloads of a chunk. *)
Definition vm_chunk_ok (p : bytes) : Prop := 1 <= zlen p <= MAX_CHUNK_SIZE.

(** The parts of a chunk on the wire. *)
Lemma append_shape dir ws p :
  let pl := next_padding_len (d_padding dir) (ws_mask ws) in
  let size := zlen p + overhead (d_cipher dir) + pl.2 in
  let sz := encode_size pl.1 size in
  exists pad random, zlen pad = pl.2 /\
    append_encrypted_chunk dir ws p
    = (mkWrite (wrap 16 (ws_counter ws + 1)) sz.1 random,
       sz.2 ++ encrypt_append (d_cipher dir) (chunk_nonce (ws_counter ws) (d_iv dir)) p ++ pad).
Proof.
  intros pl size sz. assert (Hp : 0 <= pl.2 < 64) by apply padding_range. unfold append_encrypted_chunk. fold pl. rewrite (surjective_pairing pl). fold size. fold sz. rewrite (surjective_pairing sz).
  destruct (Z.gtb_spec pl.2 0) as [Hpos | Hz].
  - rewrite (surjective_pairing (fill_random _ _)). eexists _, _. split; [| reflexivity].
    unfold zlen. rewrite fill_random_len. cbn [snd]. lia.
  - exists [], (ws_random ws). rewrite app_nil_r. split; [rewrite zlen_nil; cbn [snd]; lia | done].
Qed.

(** What the decoder finds: the chunks of a framer in the same state, of which it may have
    read the header of the first one. *)
Definition vm_frames (dir : Direction) (st : ReadState) (w : bytes) (ps : list bytes) : Prop :=
  Forall vm_chunk_ok ps /\ exists ws, w = wire_of (append_encrypted_chunk dir) ws ps /\ ws_counter ws = rs_counter st
    /\ match rs_pending st with
       | None => ws_mask ws = rs_mask st
       | Some (size, padding) =>
           exists p ps', ps = p :: ps' /\ (next_padding_len (d_padding dir) (ws_mask ws)).2 = padding
             /\ size = zlen p + overhead (d_cipher dir) + padding
             /\ (append_encrypted_chunk dir ws p).1.(ws_mask) = rs_mask st
       end.

(** The header of the first chunk, if it has arrived. *)
Lemma chunk_header_ok dir st raw inc p ps :
  vm_frames dir st (raw ++ inc) (p :: ps) ->
  match chunk_header dir st raw with
  | None => zlen raw < 2
  | Some (st', size, padding) =>
      rs_pending st' = None
      /\ vm_frames dir (mkRead (rs_counter st') (rs_mask st') (Some (size, padding))) (raw ++ inc) (p :: ps)
  end.
Proof.
  intros [Hps (ws & Hw & Hc & Hp)]. unfold chunk_header. destruct (rs_pending st) as [[size padding] |].
  { split; [done |]. split; [done |]. exists ws. cbn [rs_counter rs_mask rs_pending]. split_and!; [done | done |]. exact Hp. }
  destruct (Z.ltb_spec (zlen raw) 2) as [| H2]; [done |].
  destruct (append_shape dir ws p) as (pad & random & Hpad & Ha).
  set (pl := next_padding_len (d_padding dir) (ws_mask ws)) in *. rewrite <- Hp. fold pl.
  set (size := zlen p + overhead (d_cipher dir) + pl.2) in *.
  assert (Hsize : is_u 16 size).
  { pose proof Hps as [Hpo _]%Forall_cons_iff. unfold vm_chunk_ok, MAX_CHUNK_SIZE in Hpo.
    assert (0 <= pl.2 < 64) by apply padding_range. assert (0 <= overhead (d_cipher dir) <= 16) by (destruct (d_cipher dir); simpl; lia).
    unfold is_u, size. clearbody pl. lia. }
  destruct (size_roundtrip pl.1 size Hsize) as [Hl2 Hdec].
  assert (Ht : take 2 raw = (encode_size pl.1 size).2).
  { rewrite <- (take_app_le raw inc) by (unfold zlen in H2; lia). rewrite Hw. cbn [wire_of]. rewrite Ha. cbn [snd].
    rewrite <- !app_assoc. apply take_app_length'. unfold zlen in Hl2. lia. }
  rewrite (surjective_pairing pl), Ht, Hdec. split; [done |]. split; [done |]. exists ws.
  cbn [rs_counter rs_mask rs_pending]. split_and!; [done | done |]. exists p, ps. split_and!; [done | done | done |].
  by rewrite Ha.
Qed.

Lemma encode_size_len mask size : zlen (encode_size mask size).2 = 2.
Proof. unfold encode_size. destruct mask as [m |]; [rewrite (surjective_pairing (mask_next m)) |]; apply zlen_be_bytes. Qed.

(** The parts of the first chunk. *)
Lemma first_chunk dir ws p ps :
  exists sz pad, wire_of (append_encrypted_chunk dir) ws (p :: ps)
      = sz ++ encrypt_append (d_cipher dir) (chunk_nonce (ws_counter ws) (d_iv dir)) p ++ pad
        ++ wire_of (append_encrypted_chunk dir) (append_encrypted_chunk dir ws p).1 ps
    /\ zlen sz = 2 /\ zlen pad = (next_padding_len (d_padding dir) (ws_mask ws)).2
    /\ ws_counter (append_encrypted_chunk dir ws p).1 = wrap 16 (ws_counter ws + 1).
Proof.
  destruct (append_shape dir ws p) as (pad & random & Hpad & Ha).
  set (sz := encode_size _ _) in Ha. exists sz.2, pad. cbn [wire_of]. rewrite Ha. cbn [fst snd].
  rewrite <- !app_assoc. split_and!; [reflexivity | apply encode_size_len | done | done].
Qed.

Lemma vm_decrypts dir : decrypts (try_decrypt_chunk dir) (vm_frames dir).
Proof.
  intros st raw inc ps Hf. unfold try_decrypt_chunk. destruct ps as [| p ps].
  { destruct Hf as [Hps (ws & Hw & Hc & Hp)]. pose proof Hw as Hw0. cbn [wire_of] in Hw0.
    apply app_eq_nil in Hw0 as [-> ->]. unfold chunk_header.
    destruct (rs_pending st) as [[size padding] |] eqn:E; [naive_solver |]. change (zlen [] <? 2) with true. cbn match.
    split; [| done]. split; [done |]. exists ws. by rewrite E. }
  pose proof (chunk_header_ok dir st raw inc p ps Hf) as Hh.
  destruct (chunk_header dir st raw) as [[[st' size] padding] |].
  2: { split; [done |]. intros ->. destruct Hf as [_ (ws & Hw & _)]. rewrite app_nil_r in Hw.
       destruct (first_chunk dir ws p ps) as (sz & pad & E & Hsz & _). rewrite Hw, E in Hh. len_solve. }
  destruct Hh as [Hpend [Hps (ws & Hw & Hc & q & qs & [= <- <-] & Hpl & Hsize & Hmask)]].
  cbn [rs_counter rs_mask] in Hc, Hmask.
  destruct (first_chunk dir ws p ps) as (sz & pad & E & Hsz & Hpad & Hcnt). rewrite Hpl in Hpad. rewrite E in Hw.
  destruct (encrypt_ok (d_cipher dir) (chunk_nonce (ws_counter ws) (d_iv dir)) p) as [Hdec Hct].
  set (ct := encrypt_append _ _ _) in *. pose proof Hps as [Hp Hps']%Forall_cons_iff. unfold vm_chunk_ok in Hp.
  pose proof (padding_range (d_padding dir) (ws_mask ws)) as Hpr. rewrite Hpl in Hpr.
  destruct (Z.ltb_spec size (overhead (d_cipher dir) + padding)) as [Hlt |]; [lia |].
  destruct (Z.ltb_spec (zlen raw) (2 + size)) as [Hshort | Hlong].
  { split; [| intros ->; rewrite app_nil_r in Hw; rewrite Hw in Hshort; len_solve].
    split; [done |]. exists ws. rewrite Hw, <- E. cbn [rs_counter rs_mask rs_pending]. split_and!; [done | done |]. by exists p, ps. }
  assert (Hd : take (Z.to_nat (size - padding)) (drop 2 raw) = ct).
  { unfold zlen in *. rewrite <- (take_app_le (drop 2 raw) inc) by (rewrite length_drop; lia).
    rewrite <- drop_app_le by lia. rewrite Hw, drop_app_length' by lia. apply take_app_length'. lia. }
  rewrite Hd, <- Hc, Hdec. split; [intros ->; unfold zlen in Hp; simpl in Hp; lia |]. exists ps. split; [done |].
  split; [done |]. exists (append_encrypted_chunk dir ws p).1. cbn [rs_counter rs_mask rs_pending].
  split_and!; [| done | done]. unfold zlen in *. rewrite <- drop_app_le by lia. rewrite Hw, !app_assoc.
  apply drop_app_length'. rewrite !length_app. lia.
Qed.

(** ** The stream as a reader and a writer *)

Definition vm_carries (st : VmessStream) (d : bytes) : Prop := chunk_carries (vm_frames (vm_read st)) (vm_reader st) d.

#[global] Instance VmessStream_spec : ReaderSpec VmessStream vm_carries.
Proof.
  intros cap st d Hcap Hc Hd.
  apply (read_part_post put_vm_reader cr_inner (chunk_carries (vm_frames (vm_read st)))); [done | by intros [] ? |].
  apply chunk_poll_read_ok; [unfold READ_CHUNK_SIZE; lia | apply vm_decrypts | done..].
Qed.

Definition vm_wrote (dir : Direction) (ws : WriteState) (st : VmessStream) (ps : list bytes) : Prop :=
  vm_write st = dir /\ chunk_wrote (append_encrypted_chunk dir) ws (vm_writer st) ps.

Lemma put_vm_writer_wrote dir ws st w ps :
  vm_write st = dir -> chunk_wrote (append_encrypted_chunk dir) ws w ps -> vm_wrote dir ws (put_vm_writer st w) ps.
Proof. intros Hk [Hw Hs]. by split. Qed.

#[global] Instance VmessStream_write_spec dir ws : WriterSpec VmessStream MAX_CHUNK_SIZE (vm_wrote dir ws).
Proof.
  split.
  - intros buf st ps Hne [Hk Hw]. cbn [wr_write VmessStream_writer]. unfold vm_poll_write. rewrite Hk.
    pose proof (chunk_write_ok (append_encrypted_chunk dir) MAX_CHUNK_SIZE ws (vm_writer st) ps buf) as H.
    specialize (H ltac:(done) Hne Hw).
    destruct (chunk_write _ _ _ _) as [w [n | |]]; [| by apply put_vm_writer_wrote | done].
    destruct H as (p & H & Hp). exists p. split; [by apply put_vm_writer_wrote | done].
  - intros st ps [Hk Hw]. cbn [wr_flush VmessStream_writer]. unfold vm_poll_flush.
    apply chunk_flush_ok in Hw. destruct (chunk_flush _) as [w [| |]]; by try apply put_vm_writer_wrote.
Qed.

(** What one end writes the other reads, when the read key and IV of one are the write key
    and IV of the other. *)
Lemma vmess_stream_ok ops sink sink' random random' key iv other other_iv security options st accepted evs caps :
  Forall write_op_ok ops ->
  write_run ops (vmess_new_bidir [] sink random other other_iv key iv security options) [] = Some (st, accepted) ->
  clean evs -> incoming evs = vm_sent st ++ vm_write_buf st -> Forall (Z.le 1) caps ->
  reads_all caps (vmess_new_bidir evs sink' random' key iv other other_iv security options) accepted.
Proof.
  intros Hops Hrun Hc Hi Hcaps. set (st0 := vmess_new_bidir [] sink _ _ _ _ _ _ _) in Hrun.
  destruct (write_run_ok (wrote := vm_wrote (vm_write st0) (vm_write_state st0)) ops Hops st0 [] [] st accepted)
    as (ps & [_ [Hw _]] & Hps & ->); [done | constructor | done | done |].
  apply carries_reads_all; [done | done |]. exists ps. split; [split |]; [exact Hps | | done].
  exists (vm_write_state st0). split_and!; [exact (eq_trans Hi Hw) | done | done].
Qed.

(** Bytes written to one end of a VMess stream are read at the other, for every choice of
    cipher and every option byte: plain or masked sizes, with or without padding.  A caller
    writes any non-empty buffers and flushes, in any order, over a stream that takes the
    ciphertext in pieces and makes it wait; [accepted] is what the writes reported as
    written.  When the ciphertext framed so far arrives, cut into reads in any way, so that
    the header of a chunk may come before its body and the mask is drawn once, the other end
    reads exactly [accepted]: a prefix after any number of reads, all of it after as many as
    there are bytes and waits, and no error. *)
Theorem vmess_stream_roundtrip (ops : list WriteOp) (sink sink' : list WriteEvent) (random random' : list bytes)
    (key iv other other_iv : bytes) (security : Security) (options : Z) (st : VmessStream) (accepted : bytes)
    (evs : list PollEvent) (caps : list Z) :
  Forall write_op_ok ops ->
  write_run ops (vmess_new_bidir [] sink random other other_iv key iv security options) [] = Some (st, accepted) ->
  clean evs -> incoming evs = vm_sent st ++ vm_write_buf st -> Forall (Z.le 1) caps ->
  reads_all caps (vmess_new_bidir evs sink' random' key iv other other_iv security options) accepted.
Proof. apply vmess_stream_ok. Qed.

(** The nonce of chunk [n] of a direction. *)
Lemma nonce_of_chunk dir ws ps :
  is_u 16 (ws_counter ws) ->
  ws_counter (state_after (append_encrypted_chunk dir) ws ps) = wrap 16 (ws_counter ws + zlen ps).
Proof.
  revert ws. induction ps as [| p ps IH]; intros ws Hc.
  { cbn. unfold wrap, zlen. rewrite Z.mod_small; [cbn; lia | cbn; unfold is_u in Hc; lia]. }
  destruct (first_chunk dir ws p []) as (sz & pad & _ & _ & _ & Hcnt).
  change (state_after ?f ws (p :: ps)) with (state_after f (f ws p).1 ps). rewrite IH, Hcnt.
  - unfold wrap. rewrite Zplus_mod_idemp_l. f_equal. len_solve.
  - rewrite Hcnt. unfold wrap, is_u. apply Z.mod_pos_bound. lia.
Qed.

End stream.

(** Two buffers over a stream with masked sizes and padding, cut in the middle of a chunk. *)
Lemma vmess_stream_roundtrip_witness :
  let iv := replicate 16 5 in
  let st0 := vmess_new_bidir toy_primitives [] [WAccept 10; WPending; WPending; WAccept 99; WAccept 99; WAccept 99] [[1; 2; 3]]
               [1] [2] [9] iv Aes128Gcm 0x0D in
  exists st, @write_run _ (VmessStream_writer toy_primitives)
               [WWrite (lit "hello"); WWrite (lit "no"); WWrite (lit "world"); WFlush] st0 [] = Some (st, lit "helloworld")
  /\ (let wire := vm_sent st ++ vm_write_buf st in
      @reads_all _ (VmessStream_reader toy_primitives) (replicate 11 3)
        (vmess_new_bidir toy_primitives [PData (take 20 wire); PPending; PData (drop 20 wire)] [] [] [9] iv [1] [2] Aes128Gcm 0x0D)
        (lit "helloworld")).
Proof.
  eexists. split; [vm_compute; reflexivity |]. cbv zeta.
  eapply (vmess_stream_roundtrip toy_primitives [WWrite (lit "hello"); WWrite (lit "no"); WWrite (lit "world"); WFlush]
            [WAccept 10; WPending; WPending; WAccept 99; WAccept 99; WAccept 99] _ [[1; 2; 3]]).
  - decided.
  - vm_compute. reflexivity.
  - decided.
  - vm_compute. reflexivity.
  - decided.
Defined.
