(* ===== verification/VmessProxy.v ===== *)
(** The two ends of a VMess connection ([vmess/inbound.rs], [vmess/outbound.rs]): the users
    of the server, the handshake of both sides, and the streams they go on with. *)

From stdpp Require Import base list strings numbers gmap.
From S2P Require Import Prelude Address Streams Socks Chunks Crypto Vmess VmessStream.

Record VmessUser := mkUser { uuid : bytes; user_key : bytes; email : bytes }.

(** Users by command key. *)
Abbreviation VmessUserRegistry := (gmap bytes VmessUser).

(** What a handshake ends with: on the server, the user and the destination; the keys and
    IVs of the stream, the cipher and the options. *)
Record VmessSession := mkSession {
  vs_user : option bytes;
  vs_dest : option Address;
  vs_read_key : bytes;
  vs_read_iv : bytes;
  vs_write_key : bytes;
  vs_write_iv : bytes;
  vs_security : Security;
  vs_options : Z;
}.

Section proxy.
Context (prim : Primitives).

Definition add_user (uuid email : bytes) (users : VmessUserRegistry) : VmessUserRegistry :=
  let key := cmd_key prim uuid in <[key := mkUser uuid key email]> users.

(** The first user whose key validates the identifier; [entries] are the users in the order
    in which the table gives them. *)
Fixpoint find_by_auth (entries : list (bytes * VmessUser)) (auth_id : bytes) (now : Z) : option VmessUser :=
  match entries with
  | [] => None
  | (key, user) :: entries =>
      if validate_auth_id prim key auth_id MAX_TIME_DIFF_SECS now then Some user
      else find_by_auth entries auth_id now
  end.

(** [VmessInbound::handle] up to the dispatch. *)
Definition vmess_handle (entries : list (bytes * VmessUser)) (now : Z) : duplexM VmessSession :=
  auth_id ← recv (read_exact 16);
  match find_by_auth entries auth_id now with
  | None => st_fail AuthFailed
  | Some user =>
      enc_len ← recv (read_exact 18);
      connection_nonce ← recv (read_exact 8);
      header_len ← st_lift (decrypt_length_field prim (user_key user) auth_id connection_nonce enc_len);
      request ← recv (decode_header prim (user_key user) auth_id connection_nonce header_len);
      let resp_key := response_body_key prim (r_key request) in
      let resp_iv := response_body_iv prim (r_iv request) in
      _ ← send_response_header prim (r_v request) resp_key resp_iv;
      mret (mkSession (Some (email user)) (Some (r_dest request)) (r_key request) (r_iv request) resp_key resp_iv
              (r_security request) (r_options request))
  end.

(** The random values of a client. *)
Record ClientRandom := mkRandom {
  cr_auth : bytes;
  cr_iv : bytes;
  cr_key : bytes;
  cr_v : Z;
  cr_nonce : bytes;
  cr_pad : bytes;
}.

Definition random_ok (r : ClientRandom) : Prop :=
  zlen (cr_auth r) = 4 /\ zlen (cr_iv r) = 16 /\ zlen (cr_key r) = 16 /\ zlen (cr_nonce r) = 8 /\ zlen (cr_pad r) < 16.

#[global] Instance random_ok_dec r : Decision (random_ok r).
Proof. unfold random_ok. apply _. Defined.

Definition connect_vmess_on_stream (cmd_key : bytes) (dest : Address) (timestamp : Z) (r : ClientRandom)
  : duplexM VmessSession :=
  let auth_id := generate_auth_id_at prim cmd_key timestamp (cr_auth r) in
  '(encrypted_len, header_ct) ←
    st_lift (encode_header prim cmd_key auth_id dest Aes128Gcm (cr_iv r) (cr_key r) (cr_v r) (cr_nonce r) (cr_pad r));
  _ ← write_all auth_id;
  _ ← write_all encrypted_len;
  _ ← write_all (cr_nonce r);
  _ ← write_all header_ct;
  let resp_key := response_body_key prim (cr_key r) in
  let resp_iv := response_body_iv prim (cr_iv r) in
  _ ← read_response_header prim (cr_v r) resp_key resp_iv;
  mret (mkSession None None resp_key resp_iv (cr_key r) (cr_iv r) Aes128Gcm 0).

(** The stream a side goes on with. *)
Definition session_stream (s : VmessSession) (evs : list PollEvent) (sink : list WriteEvent) (random : list bytes) : VmessStream :=
  vmess_new_bidir prim evs sink random (vs_read_key s) (vs_read_iv s) (vs_write_key s) (vs_write_iv s)
    (vs_security s) (vs_options s).

(** * Users *)

Definition reg_of (us : list (bytes * bytes)) : VmessUserRegistry :=
  foldr (fun u reg => add_user u.1 u.2 reg) ∅ us.

(** Each user is filed under its key. *)
Definition filed (users : VmessUserRegistry) : Prop := map_Forall (fun key u => user_key u = key) users.

Lemma reg_of_filed us : filed (reg_of us).
Proof.
  induction us as [| [u e] us IH]; [apply map_Forall_empty |]. cbn [reg_of foldr fst snd]. unfold add_user.
  by apply map_Forall_insert_2.
Qed.

Lemma find_by_auth_some entries id now u :
  find_by_auth entries id now = Some u ->
  exists key, (key, u) ∈ entries /\ validate_auth_id prim key id MAX_TIME_DIFF_SECS now = true.
Proof.
  induction entries as [| [key v] entries IH]; cbn [find_by_auth]; [done |].
  destruct (validate_auth_id _ _ _ _ _) eqn:E; [intros [= <-]; exists key; split; [left | done] |].
  intros H. destruct (IH H) as (k & Hk & Hv). exists k. split; [by right | done].
Qed.

Lemma find_by_auth_only entries id now key u :
  (key, u) ∈ entries -> validate_auth_id prim key id MAX_TIME_DIFF_SECS now = true ->
  (forall k v, (k, v) ∈ entries -> validate_auth_id prim k id MAX_TIME_DIFF_SECS now = true -> v = u) ->
  find_by_auth entries id now = Some u.
Proof.
  intros Hin Hv Hall. induction entries as [| [k v] entries IH]; [by apply elem_of_nil in Hin |]. cbn [find_by_auth].
  destruct (validate_auth_id prim k id _ now) eqn:E.
  { f_equal. apply (Hall k); [left | done]. }
  apply elem_of_cons in Hin as [Heq | Hin]; [congruence |]. apply IH; [done |]. intros k' v' H'. apply Hall. by right.
Qed.

Lemma find_by_auth_none entries id now :
  find_by_auth entries id now = None <->
  forall k v, (k, v) ∈ entries -> validate_auth_id prim k id MAX_TIME_DIFF_SECS now = false.
Proof.
  induction entries as [| [k v] entries IH]; cbn [find_by_auth].
  { split; [intros _ k v H; by apply elem_of_nil in H | done]. }
  destruct (validate_auth_id prim k id _ now) eqn:E.
  - split; [done |]. intros H. specialize (H k v ltac:(left)). congruence.
  - rewrite IH. split; [| intros H k' v' H'; apply (H k' v'); by right].
    intros H k' v' H'. apply elem_of_cons in H' as [[= -> ->] | H']; [done | by apply (H k' v')].
Qed.

Context `{!PrimitiveLaws prim}.

(** No other key of the table takes the identifier for one of its own: a clash of
    checksums under a wrong key. *)
Definition no_clash (users : VmessUserRegistry) (key id : bytes) (now : Z) : Prop :=
  forall k v, users !! k = Some v -> k <> key -> validate_auth_id prim k id MAX_TIME_DIFF_SECS now = false.

Lemma find_generated users entries u e ts random now :
  entries ≡ₚ map_to_list (add_user u e users) -> zlen random = 4 -> 0 <= ts < 2 ^ 64 ->
  let id := generate_auth_id_at prim (cmd_key prim u) ts random in
  no_clash users (cmd_key prim u) id now ->
  find_by_auth entries id now
  = if Z.abs (now - ts) <=? MAX_TIME_DIFF_SECS then Some (mkUser u (cmd_key prim u) e) else None.
Proof.
  intros Hperm Hr Hts id Hclash.
  assert (Hin : forall k v, (k, v) ∈ entries <-> add_user u e users !! k = Some v).
  { intros. by rewrite Hperm, elem_of_map_to_list. }
  pose proof (validate_generated prim (cmd_key prim u) ts random MAX_TIME_DIFF_SECS now Hr Hts) as Hval. fold id in Hval.
  assert (Hother : forall k v, (k, v) ∈ entries -> k <> cmd_key prim u -> validate_auth_id prim k id MAX_TIME_DIFF_SECS now = false).
  { intros k v H Hk. apply Hin in H. unfold add_user in H. rewrite lookup_insert_ne in H by done. by apply (Hclash k v). }
  destruct (Z.leb_spec (Z.abs (now - ts)) MAX_TIME_DIFF_SECS) as [Hle | Hgt].
  - apply (find_by_auth_only _ _ _ (cmd_key prim u)); [| done |].
    + apply Hin. unfold add_user. apply lookup_insert_eq.
    + intros k v H Hv. destruct (decide (k = cmd_key prim u)) as [-> | Hne]; [| by rewrite (Hother k v H Hne) in Hv].
      apply Hin in H. unfold add_user in H. rewrite lookup_insert_eq in H. by injection H as <-.
  - apply find_by_auth_none. intros k v H. destruct (decide (k = cmd_key prim u)) as [-> | Hne]; [done | by apply (Hother k v)].
Qed.

(** Authentication of VMess requests.  Whoever is found for an identifier is a user of the
    table whose own key decrypts it to a block with the right checksum and a time at most two
    minutes from the clock.  An identifier that a registered user made is recognised as that
    user's while its time is within two minutes, and refused otherwise, in whatever order the
    table is searched, unless the identifier also passes under the key of another user. *)
Theorem vmess_auth_correct (us : list (bytes * bytes)) (u e : bytes) (entries : list (bytes * VmessUser))
    (ts now : Z) (random : bytes) :
  entries ≡ₚ map_to_list (add_user u e (reg_of us)) -> zlen random = 4 -> 0 <= ts < 2 ^ 64 ->
  (forall id w, find_by_auth entries id now = Some w ->
     add_user u e (reg_of us) !! user_key w = Some w
     /\ validate_auth_id prim (user_key w) id MAX_TIME_DIFF_SECS now = true)
  /\ (let id := generate_auth_id_at prim (cmd_key prim u) ts random in
      no_clash (reg_of us) (cmd_key prim u) id now ->
      find_by_auth entries id now
      = if Z.abs (now - ts) <=? MAX_TIME_DIFF_SECS then Some (mkUser u (cmd_key prim u) e) else None).
Proof.
  intros Hperm Hr Hts. split; [| by apply find_generated]. intros id w H.
  apply find_by_auth_some in H as (key & Hin & Hv). rewrite Hperm, elem_of_map_to_list in Hin.
  assert (Hk : user_key w = key) by (by apply (reg_of_filed ((u, e) :: us) key w)). by rewrite Hk.
Qed.

(** * The handshake *)

Lemma handshake_ok users entries u e dest ts now r up down :
  entries ≡ₚ map_to_list (add_user u e users) -> random_ok r -> 0 <= ts < 2 ^ 64 ->
  wf_address dest -> wire_encodable dest -> Z.abs (now - ts) <= MAX_TIME_DIFF_SECS ->
  no_clash users (cmd_key prim u) (generate_auth_id_at prim (cmd_key prim u) ts (cr_auth r)) now ->
  let resp_key := response_body_key prim (cr_key r) in
  let resp_iv := response_body_iv prim (cr_iv r) in
  exists req resp,
    connect_vmess_on_stream (cmd_key prim u) dest ts r (mkDuplex (resp ++ down) [])
    = (mkDuplex down req, Ok (mkSession None None resp_key resp_iv (cr_key r) (cr_iv r) Aes128Gcm 0))
    /\ vmess_handle entries now (mkDuplex (req ++ up) [])
       = (mkDuplex up resp, Ok (mkSession (Some e) (Some dest) (cr_key r) (cr_iv r) resp_key resp_iv Aes128Gcm 1)).
Proof.
  intros Hperm (Hauth & Hiv & Hkey & Hnonce & Hpad) Hts Hwf Henc Htime Hclash resp_key resp_iv.
  set (id := generate_auth_id_at prim (cmd_key prim u) ts (cr_auth r)) in *.
  assert (Hid : zlen id = 16) by (by apply generate_len).
  destruct (header_ok prim (cmd_key prim u) id dest Aes128Gcm (cr_iv r) (cr_key r) (cr_v r) (cr_nonce r) (cr_pad r) up)
    as (enc_len & header & n & Hencode & Hel & Hlen & Hdec); [done.. |].
  exists (id ++ enc_len ++ cr_nonce r ++ header), (response_wire prim (cr_v r) resp_key resp_iv). split.
  - unfold connect_vmess_on_stream. fold id. erewrite sbind_ok by (unfold st_lift; rewrite Hencode; reflexivity).
    cbv beta iota. do 4 erewrite sbind_ok by reflexivity. cbn [input output app].
    rewrite (sbind_ok _ _ _ _ () (read_response_ok prim _ _ _ _ _)). rewrite <- !app_assoc. reflexivity.
  - unfold vmess_handle. rewrite <- !app_assoc. erewrite sbind_ok by (by apply recv_app, read_exact_app).
    unfold id. rewrite (find_generated users entries u e ts (cr_auth r) now) by done. fold id. zcase. cbn [user_key email].
    erewrite sbind_ok by (by apply recv_app, read_exact_app).
    erewrite sbind_ok by (by apply recv_app, read_exact_app).
    erewrite sbind_ok by (unfold st_lift; rewrite Hlen; reflexivity).
    erewrite sbind_ok by (apply recv_app; exact Hdec). cbv zeta. cbn [r_key r_iv r_v r_dest r_security r_options].
    rewrite (sbind_ok _ _ _ _ () (send_response_ok prim _ _ _ _)). reflexivity.
Qed.

(** C4. A VMess connection from end to end.  The client of a registered user, with a clock at
    most two minutes off and an identifier no other user's key accepts, sends a request; the
    server recognises the user, learns the destination and answers; the client accepts the
    answer.  Both leave what follows on the connection.  From then on each side reads exactly
    what the other reported as written, however the writes are flushed and the reads are
    cut: the keys, IVs and counters of the two streams match in both directions. *)
Theorem vmess_tunnel (users : VmessUserRegistry) (entries : list (bytes * VmessUser)) (u e : bytes) (dest : Address)
    (ts now : Z) (r : ClientRandom) (up down : bytes) :
  entries ≡ₚ map_to_list (add_user u e users) -> random_ok r -> 0 <= ts < 2 ^ 64 ->
  wf_address dest -> wire_encodable dest -> Z.abs (now - ts) <= MAX_TIME_DIFF_SECS ->
  no_clash users (cmd_key prim u) (generate_auth_id_at prim (cmd_key prim u) ts (cr_auth r)) now ->
  exists req resp client server,
    connect_vmess_on_stream (cmd_key prim u) dest ts r (mkDuplex (resp ++ down) []) = (mkDuplex down req, Ok client)
    /\ vmess_handle entries now (mkDuplex (req ++ up) []) = (mkDuplex up resp, Ok server)
    /\ vs_user server = Some e /\ vs_dest server = Some dest
    /\ forall from to, (from, to) = (client, server) \/ (from, to) = (server, client) ->
       forall ops sink random st accepted evs sink' random' caps,
         Forall write_op_ok ops ->
         @write_run _ (VmessStream_writer prim) ops (session_stream from [] sink random) [] = Some (st, accepted) ->
         clean evs -> incoming evs = vm_sent st ++ vm_write_buf st -> Forall (Z.le 1) caps ->
         @reads_all _ (VmessStream_reader prim) caps (session_stream to evs sink' random') accepted.
Proof.
  intros Hperm Hr Hts Hwf Henc Htime Hclash.
  destruct (handshake_ok users entries u e dest ts now r up down Hperm Hr Hts Hwf Henc Htime Hclash) as (req & resp & Hc & Hs).
  exists req, resp. eexists _, _. split; [exact Hc |]. split; [exact Hs |]. split; [done |]. split; [done |].
  intros from to Hft ops sink random st accepted evs sink' random' caps Hops Hrun Hcl Hi Hcaps.
  destruct Hft as [[= -> ->] | [= -> ->]]; unfold session_stream in *;
    cbn [vs_read_key vs_read_iv vs_write_key vs_write_iv vs_security vs_options] in *.
  - exact (vmess_stream_ok prim ops sink sink' random random' (cr_key r) (cr_iv r) _ _ Aes128Gcm 0 st accepted evs caps
             Hops Hrun Hcl Hi Hcaps).
  - exact (vmess_stream_ok prim ops sink sink' random random' _ _ (cr_key r) (cr_iv r) Aes128Gcm 0 st accepted evs caps
             Hops Hrun Hcl Hi Hcaps).
Qed.

End proxy.

(** ** Witnesses *)

Definition example_random : ClientRandom :=
  mkRandom [1; 2; 3; 4] (replicate 16 5) (replicate 16 6) 7 (replicate 8 8) [9; 9; 9].

Definition example_users : VmessUserRegistry := add_user toy_primitives (2 :: replicate 15 1) (lit "bob") ∅.

Definition example_entries : list (bytes * VmessUser) :=
  map_to_list (add_user toy_primitives (replicate 16 1) (lit "alice") example_users).

Lemma example_no_clash now ts random :
  validate_auth_id toy_primitives (cmd_key toy_primitives (2 :: replicate 15 1))
    (generate_auth_id_at toy_primitives (cmd_key toy_primitives (replicate 16 1)) ts random) MAX_TIME_DIFF_SECS now = false ->
  no_clash toy_primitives example_users (cmd_key toy_primitives (replicate 16 1))
    (generate_auth_id_at toy_primitives (cmd_key toy_primitives (replicate 16 1)) ts random) now.
Proof.
  intros H k v Hk _. unfold example_users, add_user in Hk.
  apply lookup_insert_Some in Hk as [[<- _] | [_ Hk]]; [done | by rewrite lookup_empty in Hk].
Defined.

Lemma vmess_auth_correct_witness :
  let us := [(2 :: replicate 15 1, lit "bob")] in
  let alice := mkUser (replicate 16 1) (cmd_key toy_primitives (replicate 16 1)) (lit "alice") in
  let id ts := generate_auth_id_at toy_primitives (cmd_key toy_primitives (replicate 16 1)) ts [1; 2; 3; 4] in
  find_by_auth toy_primitives example_entries (id 1000) 1100 = Some alice
  /\ find_by_auth toy_primitives example_entries (id 1000) 1121 = None.
Proof.
  cbv zeta. split.
  - refine (proj2 (vmess_auth_correct toy_primitives [(2 :: replicate 15 1, lit "bob")] (replicate 16 1) (lit "alice")
              example_entries 1000 1100 [1; 2; 3; 4] _ _ _) _); [reflexivity | done | lia |]. apply example_no_clash; vm_compute; reflexivity.
  - refine (proj2 (vmess_auth_correct toy_primitives [(2 :: replicate 15 1, lit "bob")] (replicate 16 1) (lit "alice")
              example_entries 1000 1121 [1; 2; 3; 4] _ _ _) _); [reflexivity | done | lia |]. apply example_no_clash; vm_compute; reflexivity.
Defined.

Lemma vmess_tunnel_witness :
  exists req resp client server,
    connect_vmess_on_stream toy_primitives (cmd_key toy_primitives (replicate 16 1)) (Domain (lit "example.com") 443) 1000
      example_random (mkDuplex (resp ++ [5]) []) = (mkDuplex [5] req, Ok client)
    /\ vmess_handle toy_primitives example_entries 1030 (mkDuplex (req ++ [6]) []) = (mkDuplex [6] resp, Ok server)
    /\ vs_dest server = Some (Domain (lit "example.com") 443).
Proof.
  destruct (vmess_tunnel toy_primitives example_users example_entries (replicate 16 1) (lit "alice")
              (Domain (lit "example.com") 443) 1000 1030 example_random [6] [5])
    as (req & resp & c & s & H1 & H2 & _ & H3 & _);
    [reflexivity | decided | lia | decided | decided | decided | apply example_no_clash; vm_compute; reflexivity |].
  exists req, resp, c, s. split; [exact H1 |]. split; [exact H2 | exact H3].
Defined.
