(* ===== verification/RecordIo.v ===== *)
(** Streams of records: the loops that [V3Stream] ([shadowtls/v3.rs]) and [Tls13Stream] ([reality/tls13.rs]) share.
    [fill] reads until a header or a body is complete; the write side makes a record of a chunk, keeps
    what the stream underneath does not take, and tells the length of the chunk when all is taken. *)

From stdpp Require Import base list strings numbers.
From S2P Require Import Prelude Address Streams Chunks.

(** The phases of a reader: [READ_PHASE_PLAINTEXT], [READ_PHASE_HEADER], [READ_PHASE_BODY] of one, [RPHASE_*] of the other. *)
Inductive ReadPhase := PhPlaintext | PhHeader | PhBody.

(** [while pos < len]: reads of at most [chunk] bytes until [want] bytes have arrived. *)
Fixpoint fill (fuel want chunk : nat) (have : bytes) (evs : list PollEvent)
  : option (list PollEvent * bytes * poll unit) :=
  if (want <=? length have)%nat then Some (evs, have, Ready ())
  else
    match fuel with
    | O => None
    | S fuel =>
        match inner_read (Nat.min (want - length have) chunk) evs with
        | (evs, Pending) => Some (evs, have, Pending)
        | (evs, Failed e) => Some (evs, have, Failed e)
        | (evs, Ready []) => Some (evs, have, Failed (Io UnexpectedEof))
        | (evs, Ready d) => fill fuel want chunk (have ++ d) evs
        end
    end.

Lemma fill_reads want chunk : (0 < chunk)%nat -> forall fuel have evs,
  clean evs -> (length have <= want)%nat -> (want - length have <= fuel)%nat ->
  exists evs' have' r, fill fuel want chunk have evs = Some (evs', have', r)
    /\ clean evs' /\ have' ++ incoming evs' = have ++ incoming evs /\ (length have' <= want)%nat
    /\ (events_size evs' + (length have' - length have) <= events_size evs)%nat
    /\ match r with
       | Ready _ => length have' = want /\ waits evs' = waits evs
       | Pending => waits evs = S (waits evs')
       | Failed e => e = Io UnexpectedEof /\ incoming evs' = [] /\ (length have' < want)%nat
       end.
Proof.
  intros Hch. induction fuel as [| fuel IH]; intros have evs Hc Hl Hf; cbn [fill].
  all: destruct (Nat.leb_spec want (length have)) as [Hw | Hw];
    [exists evs, have, (Ready ()); split_and!; try done; lia |].
  { lia. }
  destruct (decide (incoming evs = [])) as [Hi | Hi].
  - destruct (inner_read_end (Nat.min (want - length have) chunk) evs Hc Hi)
      as [[E Hn] | (evs' & E & Hc' & Hi' & Hwt)]; rewrite E.
    + subst evs. eexists [], have, _. split_and!; try done; lia.
    + eexists evs', have, _. split_and!; try done; [by rewrite Hi, Hi' |].
      destruct evs as [| [] ?]; cbn [inner_read] in E; try done; [by destruct (_ <=? _)%nat |].
      injection E as <-. unfold events_size. cbn. lia.
  - destruct (inner_read_ok (Nat.min (want - length have) chunk) evs ltac:(lia) Hc Hi)
      as (evs' & Hc' & [(E & Hinc & Hwt & Hs) | (b & d & E & Hinc & Hwt & Hs)]); rewrite E.
    + eexists evs', have, _. split_and!; try done; [by rewrite Hinc | lia].
    + apply inner_read_size in E as Hsz.
      destruct (IH (have ++ b :: d) evs' Hc') as (evs'' & have' & r & Ef & Hc'' & Hi'' & Hl'' & Hs'' & Hr);
        rewrite ?length_app; [lia | cbn [length] in *; lia |].
      exists evs'', have', r. rewrite length_app in Hs''. cbn [length] in *.
      split_and!; [done | done | by rewrite Hi'', Hinc, <- app_assoc | done | lia |].
      destruct r; [by rewrite <- Hwt | by rewrite <- Hwt | done].
Qed.

(** * Writing *)

(** What the stream underneath answers and has taken, the state of the encoder, and the record that is
    not yet taken ([write_buf[write_pos..]]) with [write_chunk_len]. *)
Record RecWriter (S : Type) := mkRecWriter {
  rw_sink : list WriteEvent;
  rw_sent : bytes;
  rw_enc : S;
  rw_pending : option (bytes * Z);
}.
Arguments mkRecWriter {S} _ _ _ _.
Arguments rw_sink {S} _.
Arguments rw_sent {S} _.
Arguments rw_enc {S} _.
Arguments rw_pending {S} _.

Definition rw_new {S} (sink : list WriteEvent) (s : S) : RecWriter S := mkRecWriter sink [] s None.

Definition chunk_len (limit : Z) (buf : bytes) : Z := Z.min (zlen buf) limit.

(** Writes the record; [Ready] when the stream underneath has taken all of it. *)
Definition rw_drain {S} (w : RecWriter S) (record : bytes) (n : Z) : RecWriter S * poll Z :=
  let '(sink, buf, sent, r) := drain (rw_sink w) record (rw_sent w) in
  match r with
  | Empty => (mkRecWriter sink sent (rw_enc w) None, Ready n)
  | Waiting => (mkRecWriter sink sent (rw_enc w) (Some (buf, n)), Pending)
  | Broken e => (mkRecWriter sink sent (rw_enc w) (Some (buf, n)), Failed e)
  end.

Section writer.
Context {S : Type} (encode : S -> bytes -> option (S * bytes)) (limit : Z).

Definition rw_poll_write (buf : bytes) (w : RecWriter S) : RecWriter S * poll Z :=
  match rw_pending w with
  | Some (record, n) => rw_drain w record n
  | None =>
      match buf with
      | [] => (w, Ready 0)
      | _ =>
          let n := chunk_len limit buf in
          match encode (rw_enc w) (take (Z.to_nat n) buf) with
          | Some (s, record) => rw_drain (mkRecWriter (rw_sink w) (rw_sent w) s None) record n
          | None => (w, Failed (Io InvalidData))
          end
      end
  end.

(** [write_all]: the same bytes are offered until they are taken. *)
Fixpoint rw_write_all (fuel : nat) (buf : bytes) (w : RecWriter S) : RecWriter S * res ProxyError unit :=
  match buf with
  | [] => (w, Ok ())
  | _ =>
      match fuel with
      | O => (w, NoFuel)
      | Datatypes.S fuel =>
          match rw_poll_write buf w with
          | (w, Ready n) => if n <=? 0 then (w, Err (Io OtherIo)) else rw_write_all fuel (drop (Z.to_nat n) buf) w
          | (w, Pending) => rw_write_all fuel buf w
          | (w, Failed e) => (w, Err e)
          end
      end
  end.

End writer.

(** An encoder that makes a record of every chunk up to the limit, with a constant number of bytes more, in the states [I]. *)
Class EncoderOk {S} (encode : S -> bytes -> option (S * bytes)) (append : S -> bytes -> S * bytes) (limit : Z) (extra : nat) (I : S -> Prop) := {
  enc_limit : 1 <= limit;
  enc_append : forall s p, I s -> zlen p <= limit -> encode s p = Some (append s p);
  enc_state : forall s p, I s -> I (append s p).1;
  enc_len : forall s p, I s -> length (append s p).2 = (extra + length p)%nat;
}.

Definition chunk_of (limit : Z) (p : bytes) : Prop := 1 <= zlen p <= limit.

Section written.
Context {S : Type} {encode : S -> bytes -> option (S * bytes)} {append : S -> bytes -> S * bytes} {limit : Z} {extra : nat} {I : S -> Prop}.
Context `{!EncoderOk encode append limit extra I} (m0 : S) (Hm0 : I m0).

Lemma state_after_inv ps : I (state_after append m0 ps).
Proof.
  unfold state_after. revert m0 Hm0. induction ps as [| p ps IH]; intros m Hm; [done |]. cbn [foldl]. by apply IH, enc_state.
Qed.

(** What was written are the chunks [ps], the pending record included. *)
Definition rw_wrote (w : RecWriter S) (ps : list bytes) : Prop :=
  rw_sent w ++ (match rw_pending w with Some (rec, _) => rec | None => [] end) = wire_of append m0 ps
  /\ rw_enc w = state_after append m0 ps.

(** The state of a writer that is given [buf] and has told that [ps] is written. *)
Definition rw_at (w : RecWriter S) (ps : list bytes) (buf : bytes) : Prop :=
  match rw_pending w with
  | None => rw_wrote w ps
  | Some (_, n) => n = chunk_len limit buf /\ rw_wrote w (ps ++ [take (Z.to_nat n) buf])
  end.

Lemma rw_drain_ok w rec n ps :
  rw_wrote (mkRecWriter (rw_sink w) (rw_sent w) (rw_enc w) (Some (rec, n))) ps ->
  match rw_drain w rec n with
  | (w', Ready n') => n' = n /\ rw_pending w' = None /\ rw_wrote w' ps
  | (w', _) => rw_wrote w' ps /\ exists rec', rw_pending w' = Some (rec', n)
  end.
Proof.
  intros [Hw He]. cbn [rw_sent rw_pending rw_enc] in *. unfold rw_drain.
  destruct (drain _ _ _) as [[[sink buf] sent] r] eqn:E. pose proof (drain_ok _ _ _ _ _ _ _ E) as Hd.
  destruct r; cbn [rw_pending]; [split_and!; [done | done |] | split; [| by eexists].. ];
    (split; cbn [rw_sent rw_pending rw_enc]; [| done]); [| by rewrite Hd..].
  by rewrite <- (drain_empty _ _ _ _ _ _ E), Hd.
Qed.

Lemma rw_poll_write_ok w ps buf :
  buf <> [] -> rw_at w ps buf ->
  match rw_poll_write encode limit buf w with
  | (w', Ready n) => n = chunk_len limit buf /\ rw_pending w' = None /\ rw_wrote w' (ps ++ [take (Z.to_nat n) buf])
  | (w', _) => rw_at w' ps buf
  end.
Proof.
  intros Hne Hat. unfold rw_poll_write, rw_at in *. destruct (rw_pending w) as [[rec n] |] eqn:Hp.
  - destruct Hat as [Hn Hw].
    assert (Hw' : rw_wrote (mkRecWriter (rw_sink w) (rw_sent w) (rw_enc w) (Some (rec, n))) (ps ++ [take (Z.to_nat n) buf])).
    { unfold rw_wrote in *. cbn. by rewrite Hp in Hw. }
    pose proof (rw_drain_ok _ _ _ _ Hw') as Hd. destruct (rw_drain w rec n) as [w' []];
      [by destruct Hd as (-> & ? & ?) | by destruct Hd as (? & ? & ->)..].
  - destruct buf as [| b buf0] eqn:Hb; [done |]. rewrite <- Hb in *. set (n := chunk_len limit buf).
    set (p := take (Z.to_nat n) buf).
    assert (Hl : zlen p <= limit) by (pose proof enc_limit; unfold p, n, chunk_len, zlen; rewrite length_take; lia).
    destruct Hat as [Hw He]. rewrite Hp, app_nil_r in Hw.
    assert (Hi : I (rw_enc w)) by (rewrite He; apply state_after_inv). rewrite (enc_append _ p Hi Hl), (surjective_pairing (append _ p)).
    match goal with |- context [rw_drain (mkRecWriter _ _ ?m _) ?r n] => set (mac := m); set (rec := r) end.
    assert (Hw' : rw_wrote (mkRecWriter (rw_sink w) (rw_sent w) mac (Some (rec, n))) (ps ++ [p])).
    { unfold rw_wrote. cbn [rw_sent rw_pending rw_enc]. rewrite wire_of_snoc, Hw. unfold state_after in *.
      rewrite foldl_app, <- He. done. }
    pose proof (rw_drain_ok (mkRecWriter (rw_sink w) (rw_sent w) mac None) rec n _ Hw') as Hd.
    destruct (rw_drain _ rec n) as [w' []]; [by destruct Hd as (-> & ? & ?) | by destruct Hd as (? & ? & ->)..].
Qed.

Lemma rw_write_all_ok fuel : forall buf w ps w',
  rw_at w ps buf -> (buf = [] -> rw_pending w = None) -> rw_write_all encode limit fuel buf w = (w', Ok ()) ->
  exists qs, rw_wrote w' (ps ++ qs) /\ rw_pending w' = None /\ concat qs = buf /\ Forall (chunk_of limit) qs
    /\ (buf <> [] -> head qs = Some (take (Z.to_nat (chunk_len limit buf)) buf)).
Proof.
  induction fuel as [| fuel IH]; intros buf w ps w' Hat Hp; cbn [rw_write_all].
  all: destruct buf as [| b buf0] eqn:Hb.
  1,3: intros [= <-]; exists []; unfold rw_at in Hat; rewrite Hp in Hat by done; rewrite app_nil_r; by split_and!; auto.
  { done. }
  rewrite <- Hb in *. assert (Hne : buf <> []) by (by subst). pose proof (rw_poll_write_ok w ps buf Hne Hat) as Hw.
  destruct (rw_poll_write encode limit buf w) as [w1 [n | |]]; [| by apply IH | done].
  destruct (n <=? 0); [done |]. destruct Hw as (-> & Hp1 & Hw1). intros H.
  destruct (IH _ _ (ps ++ [take (Z.to_nat (chunk_len limit buf)) buf]) _ ltac:(by unfold rw_at; rewrite Hp1) ltac:(done) H)
    as (qs & H1 & H2 & H3 & H4 & _).
  exists (take (Z.to_nat (chunk_len limit buf)) buf :: qs). rewrite <- app_assoc in H1. split_and!; [done | done | | | done].
  - cbn [concat]. by rewrite H3, take_drop.
  - constructor; [| done]. unfold chunk_of, chunk_len, zlen. rewrite length_take. pose proof enc_limit.
    destruct buf; [done |]. simpl length. lia.
Qed.

(** ** It ends *)

(** Answers enough for what is pending and the chunks to come, of [extra] bytes more each. *)
Definition rw_enough (w : RecWriter S) (buf : bytes) : Prop :=
  Forall willing (rw_sink w) /\ I (rw_enc w) /\
  match rw_pending w with
  | None => ((1 + extra) * length buf <= accepts (rw_sink w))%nat
  | Some (rec, n) => 1 <= n <= zlen buf /\ (length rec + (1 + extra) * (length buf - Z.to_nat n) <= accepts (rw_sink w))%nat
  end.

Lemma rw_drain_live w rec n buf :
  1 <= n <= zlen buf -> Forall willing (rw_sink w) -> I (rw_enc w) ->
  (length rec + (1 + extra) * (length buf - Z.to_nat n) <= accepts (rw_sink w))%nat ->
  match rw_drain w rec n with
  | (w', Ready n') => n' = n /\ rw_enough w' (drop (Z.to_nat n) buf) /\ (length (rw_sink w') <= length (rw_sink w))%nat
  | (w', Pending) => rw_enough w' buf /\ (length (rw_sink w') < length (rw_sink w))%nat
  | (_, Failed _) => False
  end.
Proof.
  intros Hn Hw Hi Ha. unfold rw_drain.
  destruct (drain_live _ Hw rec (rw_sent w) ltac:(nia)) as (evs' & buf' & sent' & r & E & H1 & H2 & [[-> H3] | [-> H3]]); rewrite E.
  - cbn [rw_sink]. split_and!; [done | | done]. do 2 (split; [done |]). cbn [rw_pending rw_sink]. rewrite length_drop. lia.
  - cbn [rw_sink]. split; [| done]. do 2 (split; [done |]). cbn [rw_pending rw_sink]. split; [done | lia].
Qed.

Lemma rw_poll_write_live w buf :
  buf <> [] -> rw_enough w buf ->
  match rw_poll_write encode limit buf w with
  | (w', Ready n) => 1 <= n <= zlen buf /\ rw_enough w' (drop (Z.to_nat n) buf) /\ (length (rw_sink w') <= length (rw_sink w))%nat
  | (w', Pending) => rw_enough w' buf /\ (length (rw_sink w') < length (rw_sink w))%nat
  | (_, Failed _) => False
  end.
Proof.
  intros Hne (Hw & Hi & He). unfold rw_poll_write. destruct (rw_pending w) as [[rec n] |].
  - destruct He as [Hn Ha]. pose proof (rw_drain_live w rec n buf Hn Hw Hi Ha) as Hd.
    destruct (rw_drain w rec n) as [w' [n' | |]]; [by destruct Hd as (-> & ?) | done | done].
  - destruct buf as [| b buf0] eqn:Hb; [done |]. rewrite <- Hb in *.
    assert (Hn : 1 <= chunk_len limit buf <= zlen buf /\ chunk_len limit buf <= limit).
    { pose proof enc_limit. unfold chunk_len, zlen. rewrite Hb. simpl length. lia. }
    set (n := chunk_len limit buf) in *. set (p := take _ buf).
    assert (Hp : length p = Z.to_nat n) by (unfold p; rewrite length_take; unfold zlen in *; lia).
    rewrite (enc_append _ p Hi) by (unfold zlen; lia). rewrite (surjective_pairing (append _ p)).
    pose proof (enc_len (rw_enc w) p Hi) as Hal.
    pose proof (rw_drain_live (mkRecWriter (rw_sink w) (rw_sent w) (append (rw_enc w) p).1 None) (append (rw_enc w) p).2 n buf
      (proj1 Hn) Hw (enc_state _ _ Hi)) as Hd. cbn [rw_sink] in Hd. specialize (Hd ltac:(unfold zlen in *; nia)).
    destruct (rw_drain _ _ n) as [w' [n' | |]]; [destruct Hd as (-> & ?); split; [lia | done] | done | done].
Qed.

Lemma rw_write_all_live fuel : forall buf w,
  rw_enough w buf -> (length (rw_sink w) + length buf <= fuel)%nat ->
  exists w', rw_write_all encode limit fuel buf w = (w', Ok ()).
Proof.
  induction fuel as [| fuel IH]; intros buf w He Hf; cbn [rw_write_all].
  all: destruct buf as [| b buf0] eqn:Hb; [by eexists |].
  { simpl in Hf. lia. }
  rewrite <- Hb in *. pose proof (rw_poll_write_live w buf ltac:(by subst) He) as Hp.
  destruct (rw_poll_write encode limit buf w) as [w1 [n | |]]; [| | done].
  - destruct Hp as (Hn & He1 & Hl). rewrite (proj2 (Z.leb_gt _ _)) by lia. apply IH; [done |].
    rewrite length_drop. unfold zlen in *. lia.
  - destruct Hp as (He1 & Hl). apply IH; [done | lia].
Qed.

(** All of [buf] is written, in chunks. *)
Lemma rw_write_all_delivers sink buf :
  Forall willing sink -> ((1 + extra) * length buf <= accepts sink)%nat ->
  exists w qs, rw_write_all encode limit (length sink + length buf) buf (rw_new sink m0) = (w, Ok ())
    /\ rw_sent w = wire_of append m0 qs /\ concat qs = buf /\ Forall (chunk_of limit) qs
    /\ (buf <> [] -> head qs = Some (take (Z.to_nat (chunk_len limit buf)) buf)).
Proof.
  intros Hw Ha. destruct (rw_write_all_live (length sink + length buf) buf (rw_new sink m0)) as [w E]; [by split_and! | done |].
  destruct (rw_write_all_ok _ buf (rw_new sink m0) [] w ltac:(by split) ltac:(done) E) as (qs & [Hs _] & Hp & Hqs & Hsz & Hh).
  rewrite Hp, app_nil_r in Hs. by exists w, qs.
Qed.

End written.
