(* ===== verification/ShadowTls.v ===== *)
(** ShadowTLS v3 ([shadowtls/v3.rs], [shadowtls/marker.rs], and the marker mode of
    [shadowtls/server.rs], [shadowtls/client.rs], [shadowtls/fuzzing.rs]): the signature in
    the session id of a ClientHello, records with a rolling tag, and the stream of such
    records with its read and write sides.

    HMAC and SHA-256 are parameters.  The state of an HMAC is its key and what it was
    updated with. *)

From stdpp Require Import base list strings numbers.
From S2P Require Import Prelude Address Streams Socks Chunks.

Record ShadowPrims := mkShadowPrims {
  sp_hmac_sha1 : bytes -> bytes -> bytes;
  sp_hmac_sha256 : bytes -> bytes -> bytes;
  sp_sha256 : bytes -> bytes;
}.

Class ShadowLaws (p : ShadowPrims) := {
  sha1_len : forall k m, length (sp_hmac_sha1 p k m) = 20%nat;
  sha1_bytes : forall k m, bytes_ok (sp_hmac_sha1 p k m);
  hmac256_len : forall k m, length (sp_hmac_sha256 p k m) = 32%nat;
  sha256_len : forall m, length (sp_sha256 p m) = 32%nat;
  sha256_bytes : forall m, bytes_ok (sp_sha256 p m);
}.

Definition TLS_HEADER_LEN : Z := 5.
Definition TLS_APPLICATION_DATA : Z := 0x17.
Definition TLS_HANDSHAKE : Z := 0x16.
Definition CLIENT_HELLO : Z := 0x01.
Definition SESSION_ID_LEN : Z := 32.
Definition SESSION_ID_RANDOM_LEN : Z := 28.
Definition TAG_LEN : Z := 4.
Definition MAX_TLS_PLAINTEXT : Z := 16384.

(** * Records *)

Definition encode_tls_record (record_type : Z) (payload : bytes) : bytes :=
  let len := wrap 16 (zlen payload) in
  [record_type; 0x03; 0x03; Z.shiftr len 8; wrap 8 len] ++ payload.

(** The two bytes of a length in the header of a record. *)
Definition record_len (record : bytes) : res ProxyError Z :=
  a ← idx record 3;
  b ← idx record 4;
  Ok (be_val [a; b]).

Definition application_payload (record : bytes) : res ProxyError bytes :=
  if zlen record <? TLS_HEADER_LEN then Err (Protocol "ShadowTLS v3 TLS record too short")
  else
    t ← idx record 0;
    if negb (t =? TLS_APPLICATION_DATA) then Err (Protocol "ShadowTLS v3 expected ApplicationData record")
    else
      len ← record_len record;
      if zlen record <? TLS_HEADER_LEN + len then Err (Protocol "ShadowTLS v3 truncated ApplicationData record")
      else slice record TLS_HEADER_LEN (TLS_HEADER_LEN + len).

Definition record_payload (record : bytes) : res ProxyError (option bytes) :=
  if zlen record <? TLS_HEADER_LEN then Ok None
  else
    len ← record_len record;
    if zlen record <? TLS_HEADER_LEN + len then Ok None
    else
      p ← slice record TLS_HEADER_LEN (TLS_HEADER_LEN + len);
      Ok (Some p).

Definition server_random_from_server_hello_record (record : bytes) : res ProxyError (option bytes) :=
  t ← (if zlen record <? TLS_HEADER_LEN + 38 then Ok 0 else idx record 0);
  if (zlen record <? TLS_HEADER_LEN + 38) || negb (t =? TLS_HANDSHAKE) then Ok None
  else
    payload ← record_payload record;
    match payload with
    | None => Ok None
    | Some payload =>
        if negb (bool_decide (head payload = Some 0x02)) || (zlen payload <? 38) then Ok None
        else
          sr ← slice payload 6 38;
          Ok (Some sr)
    end.

(** * Tags *)

(** An HMAC being computed. *)
Record Mac := mkMac { mac_key : bytes; mac_msg : bytes }.

Definition mac_update (m : Mac) (data : bytes) : Mac := mkMac (mac_key m) (mac_msg m ++ data).

Section shadowtls.
Context (prim : ShadowPrims).

Definition first_tag (m : Mac) : bytes := take 4 (sp_hmac_sha1 prim (mac_key m) (mac_msg m)).

Definition next_tag (m : Mac) (data : bytes) : bytes := first_tag (mac_update m data).

(** * The signed ClientHello *)

(** Where the session id is. *)
Definition session_id_offset (record : bytes) : res ProxyError Z :=
  if zlen record <? TLS_HEADER_LEN + 4 then Err (Protocol "ShadowTLS v3 ClientHello record too short")
  else
    t ← idx record 0;
    if negb (t =? TLS_HANDSHAKE) then Err (Protocol "ShadowTLS v3 expected TLS handshake record")
    else
      rl ← record_len record;
      if zlen record <? TLS_HEADER_LEN + rl then Err (Protocol "ShadowTLS v3 truncated ClientHello record")
      else
        body ← slice record TLS_HEADER_LEN (TLS_HEADER_LEN + rl);
        kind ← (if zlen body <? 43 then Ok 0 else idx body 0);
        if (zlen body <? 43) || negb (kind =? CLIENT_HELLO) then
          Err (Protocol "ShadowTLS v3 expected ClientHello handshake")
        else
          d1 ← idx body 1;
          d2 ← idx body 2;
          d3 ← idx body 3;
          let declared := Z.lor (Z.lor (Z.shiftl d1 16) (Z.shiftl d2 8)) d3 in
          if negb (declared + 4 =? zlen body) then Err (Protocol "ShadowTLS v3 ClientHello length mismatch")
          else
            let pos := 4 + 2 + 32 in
            if pos >=? zlen body then Err (Protocol "ShadowTLS v3 missing SessionID length")
            else
              session_id_len ← idx body pos;
              let pos := pos + 1 in
              if negb (session_id_len =? SESSION_ID_LEN) then Err (Protocol "ShadowTLS v3 SessionID must be 32 bytes")
              else if pos + SESSION_ID_LEN >? zlen body then Err (Protocol "ShadowTLS v3 truncated SessionID")
              else Ok (TLS_HEADER_LEN + pos).

Definition client_hello_hmac (record psk : bytes) : res ProxyError bytes :=
  offset ← session_id_offset record;
  signed ← slice_from record TLS_HEADER_LEN;
  let sid := offset - TLS_HEADER_LEN in
  signed ← put_at signed (sid + SESSION_ID_RANDOM_LEN) (replicate 4 0);
  Ok (first_tag (mkMac psk signed)).

(** The signed record with the session id and its offset; [random] are the 28 random bytes. *)
Definition sign_client_hello_session_id (record psk random : bytes) : res ProxyError (bytes * bytes * Z) :=
  offset ← session_id_offset record;
  record ← put_at record offset random;
  record ← put_at record (offset + SESSION_ID_RANDOM_LEN) (replicate 4 0);
  tag ← client_hello_hmac record psk;
  record ← put_at record (offset + SESSION_ID_RANDOM_LEN) tag;
  session_id ← slice record offset (offset + SESSION_ID_LEN);
  Ok (record, session_id, offset).

Definition verify_client_hello_session_id (record psk : bytes) : res ProxyError (bytes * Z) :=
  offset ← session_id_offset record;
  tag ← client_hello_hmac record psk;
  candidate ← slice record (offset + SESSION_ID_RANDOM_LEN) (offset + SESSION_ID_LEN);
  if negb (bytes_eqb tag candidate) then Err AuthFailed
  else
    session_id ← slice record offset (offset + SESSION_ID_LEN);
    Ok (session_id, offset).

(** * Frames *)

Inductive V3FrameKind := ResidualHandshake | Data.

Definition v3_mac (psk server_random direction : bytes) : Mac := mkMac psk (server_random ++ direction).

Definition encoder_client_to_server (psk sr : bytes) : Mac := v3_mac psk sr (lit "C").
Definition encoder_server_to_client (psk sr : bytes) : Mac := v3_mac psk sr (lit "S").

Definition encode_application_data (mac : Mac) (plaintext : bytes) : res ProxyError (Mac * bytes) :=
  if zlen plaintext >? MAX_TLS_PLAINTEXT then Err (Protocol "ShadowTLS v3 plaintext too large")
  else
    let tag := next_tag mac plaintext in
    Ok (mac_update (mac_update mac plaintext) tag, encode_tls_record TLS_APPLICATION_DATA (tag ++ plaintext)).

Record V3FrameDecoder := mkDecoder { data_mac : Mac; residual_mac : option Mac }.

Definition residual_handshake_mac (psk sr : bytes) : Mac := mkMac psk sr.

Definition decoder_client_to_server (psk sr : bytes) : V3FrameDecoder :=
  mkDecoder (encoder_client_to_server psk sr) None.

Definition decoder_server_to_client (psk sr : bytes) : V3FrameDecoder :=
  mkDecoder (encoder_server_to_client psk sr) (Some (residual_handshake_mac psk sr)).

Definition decode_application_data (d : V3FrameDecoder) (record : bytes)
  : res ProxyError (V3FrameDecoder * V3FrameKind * bytes) :=
  payload ← application_payload record;
  if zlen payload <? TAG_LEN then Err (Protocol "ShadowTLS v3 ApplicationData frame too short")
  else
    let candidate := take 4 payload in
    let data := drop 4 payload in
    let is_residual :=
      match residual_mac d with Some mac => bytes_eqb (next_tag mac data) candidate | None => false end in
    match residual_mac d, is_residual with
    | Some mac, true => Ok (mkDecoder (data_mac d) (Some (mac_update mac data)), ResidualHandshake, [])
    | _, _ =>
        if negb (bytes_eqb (next_tag (data_mac d) data) candidate) then Err AuthFailed
        else Ok (mkDecoder (mac_update (mac_update (data_mac d) data) candidate) None, Data, data)
    end.

(** [data[i] ^= mask[i % 32]]. *)
Definition xor_with_handshake_mask (data psk sr : bytes) : bytes :=
  let mask := sp_sha256 prim (psk ++ sr) in
  imap (fun i b => Z.lxor b (default 0 (mask !! (i mod length mask)%nat))) data.

Definition taint_backend_application_data (mac : Mac) (psk sr record : bytes) : res ProxyError (Mac * bytes) :=
  payload ← application_payload record;
  let processed := xor_with_handshake_mask payload psk sr in
  let tag := next_tag mac processed in
  Ok (mac_update mac processed, encode_tls_record TLS_APPLICATION_DATA (tag ++ processed)).

(** A frame that is not data gives none. *)
Lemma decode_data_kind d record d' k data :
  decode_application_data d record = Ok (d', k, data) -> (k = ResidualHandshake /\ data = []) \/ k = Data.
Proof.
  unfold decode_application_data. intros H. rinv H. destruct (_ <? _); [done |].
  destruct (residual_mac d) as [m |]; [destruct (bytes_eqb _ _) |]; [injection H as <- <- <-; by left | |];
    (destruct (negb _); [done |]; injection H as <- <- <-; by right).
Qed.

(** * Theorems about the ClientHello *)

(** The outcome is a value or an error. *)
Definition no_panic {A} (m : res ProxyError A) : Prop := match m with Ok _ | Err _ => True | _ => False end.

Lemma no_panic_bind {A B} (m : res ProxyError A) (f : A -> res ProxyError B) :
  no_panic m -> (forall a, m = Ok a -> no_panic (f a)) -> no_panic (m ≫= f).
Proof. destruct m; simpl; auto. Qed.

Lemma no_panic_idx l i : 0 <= i < zlen l -> no_panic (idx l i).
Proof. intros Hi. by destruct (idx_in_range (E:=ProxyError) l i Hi) as (b & -> & _). Qed.

Lemma no_panic_slice l i j : 0 <= i <= j -> j <= zlen l -> no_panic (slice l i j).
Proof. intros. by rewrite slice_in_range. Qed.

Lemma idx_slice (l s : bytes) i j k :
  slice (E:=ProxyError) l i j = Ok s -> 0 <= k < j - i -> idx (E:=ProxyError) s k = idx l (i + k).
Proof.
  intros (H1 & H2 & ->)%slice_ok Hk. unfold idx. rewrite !bool_decide_eq_true_2 by lia.
  rewrite lookup_take_lt by lia. rewrite lookup_drop.
  by replace (Z.to_nat i + Z.to_nat k)%nat with (Z.to_nat (i + k)) by lia.
Qed.

(** The session id of an accepted record is at position 44 and inside it. *)
Lemma session_id_offset_ok record o :
  bytes_ok record -> session_id_offset record = Ok o -> o = 44 /\ 76 <= zlen record.
Proof.
  intros Hok. unfold session_id_offset. intros H. zcase_in H. rinv H. destruct (negb _); [done |]. rinv H.
  destruct (Z.ltb_spec (zlen record) (TLS_HEADER_LEN + v0)); [done |]. rinv H.
  pose proof (slice_len _ _ _ _ Hv1) as Hl. rinv H. destruct (_ || _); [done |]. rinv H. rinv H. rinv H.
  destruct (negb _); [done |]. destruct (_ >=? _); [done |]. rinv H. destruct (negb _); [done |].
  rewrite Z.gtb_ltb in H. destruct (Z.ltb_spec (zlen v1) (4 + 2 + 32 + 1 + SESSION_ID_LEN)); [done |].
  injection H as <-. unfold TLS_HEADER_LEN, SESSION_ID_LEN in *. lia.
Qed.

Lemma session_id_offset_safe record : bytes_ok record -> no_panic (session_id_offset record).
Proof.
  intros Hok. unfold session_id_offset, TLS_HEADER_LEN, record_len. zcase; [done |].
  apply no_panic_bind; [apply no_panic_idx; lia |]. intros t _. destruct (negb _); [done |].
  apply no_panic_bind; [repeat (apply no_panic_bind; [apply no_panic_idx; lia | intros ? _]); done |].
  intros rl Hrl. rinv Hrl. injection Hrl as <-.
  assert (Hr : is_u 16 (be_val [v; v0])) by (apply is_u16_be_val; eapply idx_bytes_ok; eauto). unfold is_u in Hr.
  destruct (Z.ltb_spec (zlen record) (5 + be_val [v; v0])); [done |].
  apply no_panic_bind; [apply no_panic_slice; lia |]. intros body Hb. pose proof (slice_len _ _ _ _ Hb) as Hl.
  destruct (Z.ltb_spec (zlen body) 43); cbn [orb].
  { apply no_panic_bind; [done |]. done. }
  apply no_panic_bind; [apply no_panic_idx; lia |]. intros kind _. destruct (negb _); [done |].
  do 3 (apply no_panic_bind; [apply no_panic_idx; lia |]; intros ? _). destruct (negb _); [done |]. zcase.
  apply no_panic_bind; [apply no_panic_idx; lia |]. intros ? _. destruct (negb _); [done |]. by destruct (_ >? _).
Qed.

(** It depends on the length and on what is before the session id. *)
Lemma session_id_offset_local r r' :
  length r = length r' -> take 44 r = take 44 r' -> session_id_offset r = session_id_offset r'.
Proof.
  intros Hl Ht. assert (Hz : zlen r = zlen r') by (unfold zlen; lia).
  assert (Hi : forall i, i < 44 -> idx (E:=ProxyError) r i = idx r' i).
  { intros i Hi. unfold idx. case_bool_decide; [| done].
    rewrite <- (lookup_take_lt r 44), <- (lookup_take_lt r' 44), Ht by lia. done. }
  unfold session_id_offset, record_len. rewrite Hz, !Hi by lia.
  destruct (zlen r' <? _); [done |]. destruct (idx r' 0); cbn [mbind res_bind]; [| done..].
  destruct (negb _); [done |]. destruct (idx r' 3); cbn [mbind res_bind]; [| done..].
  destruct (idx r' 4); cbn [mbind res_bind]; [| done..]. destruct (zlen r' <? _); [done |].
  set (n := TLS_HEADER_LEN + be_val _). unfold slice. rewrite Hz. destruct (_ && _) eqn:Hg; [| done]. cbn [mbind res_bind].
  apply andb_true_iff in Hg as [Hg1 Hg2]. apply bool_decide_eq_true in Hg1, Hg2.
  set (b := take _ (drop _ r)). set (b' := take _ (drop _ r')).
  assert (Hb : slice (E:=ProxyError) r TLS_HEADER_LEN n = Ok b) by (apply slice_in_range; unfold TLS_HEADER_LEN in *; lia).
  assert (Hb' : slice (E:=ProxyError) r' TLS_HEADER_LEN n = Ok b') by (apply slice_in_range; unfold TLS_HEADER_LEN in *; lia).
  assert (Hbl : zlen b = zlen b') by (rewrite (slice_len _ _ _ _ Hb), (slice_len _ _ _ _ Hb'); done).
  assert (Hbi : forall i, 0 <= i < 39 -> i < zlen b' -> idx (E:=ProxyError) b i = idx b' i).
  { intros i H1 H2. rewrite (slice_len _ _ _ _ Hb') in H2.
    rewrite (idx_slice _ _ _ _ _ Hb), (idx_slice _ _ _ _ _ Hb') by lia. apply Hi. unfold TLS_HEADER_LEN. lia. }
  rewrite Hbl. destruct (Z.ltb_spec (zlen b') 43) as [| H43]; [done |]. by rewrite !Hbi by lia.
Qed.

Context `{!ShadowLaws prim}.

Lemma first_tag_len m : length (first_tag m) = 4%nat.
Proof. unfold first_tag. rewrite length_take, sha1_len. done. Qed.

Lemma client_hello_hmac_parts psk pre random tag post :
  length pre = 44%nat -> length random = 28%nat -> length tag = 4%nat ->
  session_id_offset (pre ++ random ++ tag ++ post) = Ok 44 ->
  client_hello_hmac (pre ++ random ++ tag ++ post) psk
  = Ok (first_tag (mkMac psk (drop 5 pre ++ random ++ replicate 4 0 ++ post))).
Proof.
  intros Hp Hr Ht Ho. unfold client_hello_hmac. rewrite Ho. cbn [mbind res_bind].
  assert (Hd : length (drop 5 pre) = 39%nat) by (rewrite length_drop; lia).
  rewrite <- (take_drop 5 pre) at 1. rewrite <- app_assoc.
  erewrite rbind_ok by (apply slice_from_app; unfold zlen, TLS_HEADER_LEN; rewrite length_take; lia).
  erewrite rbind_ok by (apply (put_at_ok _ (drop 5 pre ++ random) tag post);
    [by rewrite <- app_assoc | unfold zlen, TLS_HEADER_LEN, SESSION_ID_RANDOM_LEN; rewrite length_app; lia | by rewrite Ht]).
  by rewrite <- app_assoc.
Qed.

Lemma client_hello_parts record :
  76 <= zlen record ->
  exists pre old t post : bytes, record = pre ++ old ++ t ++ post
    /\ length pre = 44%nat /\ length old = 28%nat /\ length t = 4%nat.
Proof.
  intros Hl. unfold zlen in Hl.
  exists (take 44 record), (take 28 (drop 44 record)), (take 4 (drop 72 record)), (drop 76 record).
  rewrite !length_take, !length_drop. split; [| lia].
  rewrite <- (take_drop 44 record) at 1. f_equal. rewrite <- (take_drop 28 (drop 44 record)) at 1. f_equal.
  rewrite drop_drop. rewrite <- (take_drop 4 (drop _ record)) at 1. by rewrite drop_drop.
Qed.

Lemma verify_parts psk pre random tag post :
  length pre = 44%nat -> length random = 28%nat -> length tag = 4%nat ->
  session_id_offset (pre ++ random ++ tag ++ post) = Ok 44 ->
  verify_client_hello_session_id (pre ++ random ++ tag ++ post) psk
  = if negb (bytes_eqb (first_tag (mkMac psk (drop 5 pre ++ random ++ replicate 4 0 ++ post))) tag)
    then Err AuthFailed else Ok (random ++ tag, 44).
Proof.
  intros Hp Hr Ht Ho. unfold verify_client_hello_session_id. rewrite Ho. cbn [mbind res_bind].
  rewrite client_hello_hmac_parts by done. cbn [mbind res_bind].
  erewrite rbind_ok by (apply (slice_split _ (pre ++ random) tag post);
    [by rewrite <- app_assoc | rewrite zlen_app; unfold zlen, SESSION_ID_RANDOM_LEN; lia
    | rewrite !zlen_app; unfold zlen, SESSION_ID_LEN; lia]).
  destruct (negb _); [done |].
  erewrite rbind_ok by (apply (slice_split _ pre (random ++ tag) post);
    [by rewrite <- !app_assoc | unfold zlen; lia | rewrite !zlen_app; unfold zlen, SESSION_ID_LEN; lia]).
  done.
Qed.

Lemma sign_parts psk pre old t post random :
  length pre = 44%nat -> length old = 28%nat -> length t = 4%nat -> length random = 28%nat ->
  session_id_offset (pre ++ old ++ t ++ post) = Ok 44 ->
  let tag := first_tag (mkMac psk (drop 5 pre ++ random ++ replicate 4 0 ++ post)) in
  sign_client_hello_session_id (pre ++ old ++ t ++ post) psk random
  = Ok (pre ++ random ++ tag ++ post, random ++ tag, 44).
Proof.
  intros Hp H1 H2 Hr Ho tag. unfold sign_client_hello_session_id. rewrite Ho. cbn [mbind res_bind].
  pose proof (first_tag_len (mkMac psk (drop 5 pre ++ random ++ replicate 4 0 ++ post))) as Htl.
  erewrite rbind_ok by (apply (put_at_ok _ pre old (t ++ post)); [done | unfold zlen; lia | lia]).
  erewrite rbind_ok by (apply (put_at_ok _ (pre ++ random) t post);
    [by rewrite <- app_assoc | rewrite zlen_app; unfold zlen, SESSION_ID_RANDOM_LEN; lia | by rewrite H2]).
  rewrite <- app_assoc. rewrite client_hello_hmac_parts; [| done.. |].
  2:{ rewrite <- Ho. apply session_id_offset_local; [rewrite !length_app; simpl; lia | by rewrite !take_app_length']. }
  cbn [mbind res_bind]. fold tag.
  erewrite rbind_ok by (apply (put_at_ok _ (pre ++ random) (replicate 4 0) post);
    [by rewrite <- app_assoc | rewrite zlen_app; unfold zlen, SESSION_ID_RANDOM_LEN; lia | done]).
  erewrite rbind_ok by (apply (slice_split _ pre (random ++ tag) post);
    [by rewrite <- !app_assoc | unfold zlen; lia | rewrite !zlen_app; unfold zlen, SESSION_ID_LEN, tag; lia]).
  by rewrite <- app_assoc.
Qed.

(** The signature in the session id.  A ClientHello the client signs is verified by the
    server with the same key, which learns the same session id; only the session id of the
    record is changed.  Neither side panics on any record. *)
Theorem shadowtls_client_hello (record psk random : bytes) :
  bytes_ok record -> length random = 28%nat ->
  no_panic (verify_client_hello_session_id record psk)
  /\ no_panic (sign_client_hello_session_id record psk random)
  /\ forall signed sid o, sign_client_hello_session_id record psk random = Ok (signed, sid, o) ->
       verify_client_hello_session_id signed psk = Ok (sid, o)
       /\ take 44 signed = take 44 record /\ drop 76 signed = drop 76 record /\ take 28 sid = random.
Proof.
  intros Hok Hr. destruct (session_id_offset record) as [o | e | |] eqn:Ho.
  3,4: by pose proof (session_id_offset_safe record Hok) as Hp; rewrite Ho in Hp.
  2: unfold verify_client_hello_session_id, sign_client_hello_session_id; rewrite Ho; by cbn [mbind res_bind].
  destruct (session_id_offset_ok _ _ Hok Ho) as [-> Hl].
  destruct (client_hello_parts record Hl) as (pre & old & t & post & -> & Hp & H1 & H2).
  rewrite (verify_parts psk pre old t post), (sign_parts psk pre old t post random) by done.
  refine (conj _ (conj _ _)); [by destruct (negb _) | done |]. intros signed sid o [= <- <- <-].
  set (tag := first_tag _). assert (Htl : length tag = 4%nat) by apply first_tag_len.
  rewrite (verify_parts psk pre random tag post); [| done.. |].
  2:{ rewrite <- Ho. apply session_id_offset_local; [rewrite !length_app; lia | by rewrite !take_app_length']. }
  unfold bytes_eqb. rewrite bool_decide_eq_true_2 by done. cbn [negb]. split; [done |].
  rewrite !take_app_length' by done. refine (conj eq_refl (conj _ eq_refl)).
  rewrite !(app_assoc random), !(app_assoc old), !(app_assoc pre).
  rewrite !drop_app_length'; [done | rewrite !length_app; lia..].
Qed.

End shadowtls.
