(* ===== verification/ShadowStream.v ===== *)
(** The stream of ShadowTLS v3 records ([V3Stream] of [shadowtls/v3.rs]): [poll_read] with
    its three phases and [poll_write] with its pending record, and what one side reads of
    what the other writes. *)

From stdpp Require Import base list strings numbers.
From S2P Require Import Prelude Address Streams Chunks Crypto RecordIo ShadowTls.

(** * The read side *)

(** [plain] is [plain_buf[plain_pos..]], [header] and [body] what has arrived of the two
    buffers ([header_buf[..header_pos]], [body_buf[..body_pos]]), [body_len] the length of
    [body_buf]. *)
Record V3Reader := mkV3Reader {
  v3_inner : list PollEvent;
  v3_decoder : V3FrameDecoder;
  v3_plain : bytes;
  v3_header : bytes;
  v3_body_len : nat;
  v3_body : bytes;
  v3_phase : ReadPhase;
}.

Definition v3_reader_new (evs : list PollEvent) (d : V3FrameDecoder) : V3Reader :=
  mkV3Reader evs d [] [] 0 [] PhHeader.

(** The checks of a complete header, and its length. *)
Definition v3_check_header (h : bytes) : res ProxyError Z :=
  t ← idx h 0;
  if negb (t =? TLS_APPLICATION_DATA) then Err (Io InvalidData)
  else
    body_len ← record_len h;
    if body_len >? MAX_TLS_PLAINTEXT + TAG_LEN then Err (Io InvalidData) else Ok body_len.

Abbreviation chunk_size := (chunk_of MAX_TLS_PLAINTEXT).
Abbreviation next_chunk := (chunk_len MAX_TLS_PLAINTEXT).

(** What a phase of the loop does: goes on, returns from [poll_read], or does not end. *)
Inductive Turn := Next (s : V3Reader) | Return (s : V3Reader) (p : poll bytes) | Lost.

Section v3.
Context (prim : ShadowPrims).

Definition v3_read_header (s : V3Reader) : Turn :=
  match fill 5 5 5 (v3_header s) (v3_inner s) with
  | None => Lost
  | Some (evs, h, r) =>
      let s := mkV3Reader evs (v3_decoder s) (v3_plain s) h (v3_body_len s) (v3_body s) PhHeader in
      match r with
      | Pending => Return s Pending
      | Failed e => Return s (Failed e)
      | Ready _ =>
          match v3_check_header h with
          | Ok n => Next (mkV3Reader evs (v3_decoder s) (v3_plain s) h (Z.to_nat n) [] PhBody)
          | Err e => Return s (Failed e)
          | _ => Lost
          end
      end
  end.

Definition v3_read_body (s : V3Reader) : Turn :=
  match fill (v3_body_len s) (v3_body_len s) 2048 (v3_body s) (v3_inner s) with
  | None => Lost
  | Some (evs, b, r) =>
      match r with
      | Pending => Return (mkV3Reader evs (v3_decoder s) (v3_plain s) (v3_header s) (v3_body_len s) b PhBody) Pending
      | Failed e => Return (mkV3Reader evs (v3_decoder s) (v3_plain s) (v3_header s) (v3_body_len s) b PhBody) (Failed e)
      | Ready _ =>
          let reset d := mkV3Reader evs d (v3_plain s) [] (v3_body_len s) [] PhHeader in
          match decode_application_data prim (v3_decoder s) (v3_header s ++ b) with
          | Ok (d, ResidualHandshake, _) => Next (reset d)
          | Ok (d, Data, []) => Next (reset d)
          | Ok (d, Data, data) => Next (mkV3Reader evs d data [] (v3_body_len s) [] PhPlaintext)
          | Err e => Return (reset (v3_decoder s)) (Failed (Io InvalidData))
          | _ => Lost
          end
      end
  end.

Definition v3_give (cap : Z) (s : V3Reader) : V3Reader * poll bytes :=
  let n := Z.to_nat (Z.min (zlen (v3_plain s)) cap) in
  (mkV3Reader (v3_inner s) (v3_decoder s) (drop n (v3_plain s)) (v3_header s) (v3_body_len s) (v3_body s) PhPlaintext,
   Ready (take n (v3_plain s))).

Fixpoint v3_loop (fuel : nat) (cap : Z) (s : V3Reader) : option (V3Reader * poll bytes) :=
  match fuel with
  | O => None
  | S fuel =>
      match v3_phase s, v3_plain s with
      | PhPlaintext, _ :: _ => Some (v3_give cap s)
      | _, _ =>
          let turn :=
            match v3_phase s with
            | PhPlaintext =>
                v3_read_header (mkV3Reader (v3_inner s) (v3_decoder s) (v3_plain s) [] (v3_body_len s) (v3_body s) PhHeader)
            | PhHeader => v3_read_header s
            | PhBody => Next s
            end in
          match turn with
          | Lost => None
          | Return s p => Some (s, p)
          | Next s =>
              match v3_read_body s with
              | Lost => None
              | Return s p => Some (s, p)
              | Next s => v3_loop fuel cap s
              end
          end
      end
  end.

(** A turn consumes the record it reads; the last one gives out. *)
Definition v3_poll_read (cap : Z) (s : V3Reader) : option (V3Reader * poll bytes) :=
  v3_loop (events_size (v3_inner s) + 3) cap s.

(** A reader that is polled until it fails; the flag tells that it did, with the error. *)
Fixpoint v3_collect (caps : list Z) (s : V3Reader) : option (V3Reader * bytes * option ProxyError) :=
  match caps with
  | [] => Some (s, [], None)
  | cap :: caps =>
      match v3_poll_read cap s with
      | None => None
      | Some (s, Failed e) => Some (s, [], Some e)
      | Some (s, Pending) => v3_collect caps s
      | Some (s, Ready out) =>
          match v3_collect caps s with
          | Some (s, d, e) => Some (s, out ++ d, e)
          | None => None
          end
      end
  end.

(** * The write side *)

Abbreviation V3Writer := (RecWriter Mac).

Definition v3_encode (m : Mac) (chunk : bytes) : option (Mac * bytes) :=
  match encode_application_data prim m chunk with Ok r => Some r | _ => None end.

Definition v3_poll_write (buf : bytes) (w : V3Writer) : V3Writer * poll Z := rw_poll_write v3_encode MAX_TLS_PLAINTEXT buf w.

Definition v3_write_all (fuel : nat) (buf : bytes) (w : V3Writer) : V3Writer * res ProxyError unit :=
  rw_write_all v3_encode MAX_TLS_PLAINTEXT fuel buf w.

(** * What the read side reads *)

(** [v3_frames d w ps]: a decoder in state [d] finds in [w] records with the payloads [ps];
    residual and empty ones give none. *)
Inductive v3_frames : V3FrameDecoder -> bytes -> list bytes -> Prop :=
| VF_end d : v3_frames d [] []
| VF_record d d' k data h body w ps :
    length h = 5%nat -> v3_check_header h = Ok (zlen body) ->
    decode_application_data prim d (h ++ body) = Ok (d', k, data) ->
    v3_frames d' w ps ->
    v3_frames d (h ++ body ++ w) (match data with [] => ps | _ => data :: ps end).

(** What the state still has to give out. *)
Definition v3_carries (s : V3Reader) (data : bytes) : Prop :=
  exists ps, data = v3_plain s ++ concat ps /\
  match v3_phase s with
  | PhPlaintext => v3_frames (v3_decoder s) (incoming (v3_inner s)) ps
  | PhHeader =>
      v3_plain s = [] /\ (length (v3_header s) <= 5)%nat
      /\ v3_frames (v3_decoder s) (v3_header s ++ incoming (v3_inner s)) ps
  | PhBody =>
      v3_plain s = [] /\ length (v3_header s) = 5%nat /\ (length (v3_body s) <= v3_body_len s)%nat
      /\ v3_check_header (v3_header s) = Ok (Z.of_nat (v3_body_len s))
      /\ v3_frames (v3_decoder s) (v3_header s ++ v3_body s ++ incoming (v3_inner s)) ps
  end.

(** What a poll must give: some of the data, a wait, or, when all is given, the error that
    the end of the stream makes. *)
Definition v3_post (cap : Z) (n : nat) (d : bytes) (r : option (V3Reader * poll bytes)) : Prop :=
  match r with
  | Some (s, Ready out) =>
      clean (v3_inner s) /\ waits (v3_inner s) = n /\ zlen out <= cap /\ out <> []
      /\ exists d', d = out ++ d' /\ v3_carries s d'
  | Some (s, Pending) => clean (v3_inner s) /\ n = S (waits (v3_inner s)) /\ v3_carries s d
  | Some (_, Failed e) => e = Io UnexpectedEof /\ d = []
  | None => False
  end.

(** A turn goes on in a state that carries the same, further along, or returns as it must. *)
Definition turn_post (cap : Z) (n m : nat) (d : bytes) (P : V3Reader -> Prop) (t : Turn) : Prop :=
  match t with
  | Next s => clean (v3_inner s) /\ waits (v3_inner s) = n /\ (events_size (v3_inner s) <= m)%nat
              /\ v3_carries s d /\ P s
  | Return s p => v3_post cap n d (Some (s, p))
  | Lost => False
  end.

Lemma v3_frames_short d w ps : v3_frames d w ps -> (length w < 5)%nat -> w = [] /\ ps = [].
Proof. intros H. destruct H; [done |]. rewrite !length_app. lia. Qed.

Lemma v3_frames_head d h w ps :
  length h = 5%nat -> v3_frames d (h ++ w) ps ->
  exists d' k data body w' ps', w = body ++ w' /\ v3_check_header h = Ok (zlen body)
    /\ decode_application_data prim d (h ++ body) = Ok (d', k, data) /\ v3_frames d' w' ps'
    /\ ps = match data with [] => ps' | _ => data :: ps' end.
Proof.
  intros Hh H. remember (h ++ w) as x eqn:E. destruct H as [d | d d' k data h' body w' ps' Hh' Hc Hd Hf].
  { apply (f_equal length) in E. rewrite length_app in E. simpl in E. lia. }
  apply app_inj_1 in E as [-> <-]; [| lia]. by exists d', k, data, body, w', ps'.
Qed.

Lemma v3_read_header_ok cap s d :
  clean (v3_inner s) -> v3_carries s d -> v3_phase s = PhHeader ->
  turn_post cap (waits (v3_inner s)) (events_size (v3_inner s)) d
    (fun s' => v3_phase s' = PhBody
       /\ (events_size (v3_inner s') + (5 - length (v3_header s)) <= events_size (v3_inner s))%nat)
    (v3_read_header s).
Proof.
  intros Hc (ps & -> & Hd) Hph. rewrite Hph in Hd. destruct Hd as (Hp & Hl & Hf). rewrite Hp. cbn [app].
  unfold v3_read_header.
  destruct (fill_reads 5 5 ltac:(lia) 5 (v3_header s) (v3_inner s) Hc Hl ltac:(lia))
    as (evs & h & r & -> & Hc' & Hi & Hl' & Hs & Hr). rewrite <- Hi in Hf.
  destruct r as [[] | | e].
  - destruct Hr as [Hh Hw].
    destruct (v3_frames_head _ _ _ _ Hh Hf) as (d' & k & data & body & w' & ps' & Ew & Hck & Hdec & Hf' & ->).
    rewrite Hck. cbn [turn_post v3_inner v3_phase v3_decoder v3_plain]. split_and!; [done | done | lia | | done | lia].
    exists (match data with [] => ps' | _ => data :: ps' end). cbn [v3_plain v3_phase v3_header v3_body v3_body_len v3_inner v3_decoder].
    rewrite Hp. cbn [app]. unfold zlen. rewrite Nat2Z.id. by split_and!; try done; simpl; try lia.
  - cbn [turn_post v3_post v3_inner]. split_and!; [done | done |]. exists ps.
    cbn [v3_plain v3_phase v3_header v3_inner v3_decoder]. rewrite Hp. by split_and!.
  - destruct Hr as (-> & Hn & Hlt). cbn [turn_post v3_post]. split; [done |].
    rewrite Hn, app_nil_r in Hf. by destruct (v3_frames_short _ _ _ Hf Hlt) as [_ ->].
Qed.

Lemma v3_read_body_ok cap s d :
  clean (v3_inner s) -> v3_carries s d -> v3_phase s = PhBody ->
  turn_post cap (waits (v3_inner s)) (events_size (v3_inner s)) d
    (fun s' => match v3_phase s' with
               | PhPlaintext => v3_plain s' <> []
               | PhHeader => v3_header s' = []
               | PhBody => False end)
    (v3_read_body s).
Proof.
  intros Hc (ps & -> & Hd) Hph. rewrite Hph in Hd. destruct Hd as (Hp & Hh & Hl & Hck & Hf). rewrite Hp. cbn [app].
  unfold v3_read_body.
  destruct (fill_reads (v3_body_len s) 2048 ltac:(lia) (v3_body_len s) (v3_body s) (v3_inner s) Hc Hl ltac:(lia))
    as (evs & b & r & -> & Hc' & Hi & Hl' & Hs & Hr). rewrite <- Hi in Hf.
  destruct (v3_frames_head _ _ _ _ Hh Hf) as (d' & k & data & body & w' & ps' & Ew & Hck' & Hdec & Hf' & Hps).
  rewrite Hck in Hck'. injection Hck' as Hbl. unfold zlen in Hbl. apply Nat2Z.inj in Hbl.
  destruct r as [[] | | e].
  - destruct Hr as [Hb Hw]. apply app_inj_1 in Ew as [-> <-]; [| lia]. rewrite Hdec.
    destruct (decode_data_kind prim _ _ _ _ _ Hdec) as [[-> ->] | ->].
    + subst ps. cbn [turn_post v3_inner v3_phase v3_plain v3_header]. split_and!; [done | done | lia | | done].
      exists ps'. cbn [v3_plain v3_phase v3_header v3_inner v3_decoder]. rewrite Hp. split_and!; [done | done | simpl; lia | done].
    + subst ps. destruct data as [| x data]; cbn [turn_post v3_inner v3_phase v3_plain v3_header];
        (split_and!; [done | done | lia | | done]); exists ps';
        cbn [v3_plain v3_phase v3_header v3_inner v3_decoder]; [rewrite Hp; split_and!; [done | done | simpl; lia | done] | done].
  - cbn [turn_post v3_post v3_inner]. split_and!; [done | done |]. exists ps.
    cbn [v3_plain v3_phase v3_header v3_inner v3_decoder v3_body v3_body_len]. rewrite Hp. by split_and!.
  - destruct Hr as (-> & Hn & Hlt). apply (f_equal length) in Ew. rewrite Hn, !length_app in Ew. simpl in Ew. lia.
Qed.

Definition v3_bonus (s : V3Reader) : nat :=
  match v3_phase s, v3_plain s, v3_header s with
  | PhPlaintext, _ :: _, _ => 0%nat
  | PhPlaintext, [], _ => 1%nat
  | PhHeader, _, [] => 1%nat
  | _, _, _ => 2%nat
  end.

Lemma v3_give_ok cap s d :
  1 <= cap -> clean (v3_inner s) -> v3_carries s d -> v3_phase s = PhPlaintext -> v3_plain s <> [] ->
  v3_post cap (waits (v3_inner s)) d (Some (v3_give cap s)).
Proof.
  intros Hcap Hc (ps & -> & Hd) Hph Hne. rewrite Hph in Hd. unfold v3_give. set (n := Z.to_nat _).
  assert (Hn : (1 <= n <= length (v3_plain s))%nat /\ Z.of_nat n <= cap).
  { unfold n, zlen. destruct (v3_plain s); [done |]. simpl length. lia. }
  cbn [v3_post v3_inner]. split_and!; [done | done | | |].
  - unfold zlen. rewrite length_take. lia.
  - intros E. apply (f_equal length) in E. rewrite length_take in E. simpl in E. lia.
  - exists (drop n (v3_plain s) ++ concat ps). split; [by rewrite app_assoc, take_drop |]. by exists ps.
Qed.

(** The rest of a turn from a header or a body. *)
Lemma v3_turn_ok cap fuel s d t :
  (forall s, clean (v3_inner s) -> v3_carries s d -> (events_size (v3_inner s) + v3_bonus s < fuel)%nat ->
     v3_post cap (waits (v3_inner s)) d (v3_loop fuel cap s)) ->
  turn_post cap (waits (v3_inner s)) (events_size (v3_inner s)) d
    (fun s' => v3_phase s' = PhBody /\ (events_size (v3_inner s') + 2 <= fuel)%nat) t ->
  v3_post cap (waits (v3_inner s)) d
    (match t with
     | Lost => None
     | Return s p => Some (s, p)
     | Next s => match v3_read_body s with
                 | Lost => None
                 | Return s p => Some (s, p)
                 | Next s => v3_loop fuel cap s
                 end
     end).
Proof.
  intros IH Ht. destruct t as [s1 | s1 p | ]; [| done | done]. cbn [turn_post] in Ht.
  destruct Ht as (Hc1 & <- & _ & Hd1 & Hph & Hf1). pose proof (v3_read_body_ok cap s1 d Hc1 Hd1 Hph) as Hb.
  destruct (v3_read_body s1) as [s2 | s2 p | ]; [| done | done]. cbn [turn_post] in Hb.
  destruct Hb as (Hc2 & <- & Hm2 & Hd2 & HP). apply IH; [done.. |].
  assert (v3_bonus s2 <= 1)%nat; [| lia]. unfold v3_bonus.
  destruct (v3_phase s2); [by destruct (v3_plain s2); lia | rewrite HP; lia | done].
Qed.

Lemma v3_loop_ok cap fuel : 1 <= cap -> forall s d,
  clean (v3_inner s) -> v3_carries s d -> (events_size (v3_inner s) + v3_bonus s < fuel)%nat ->
  v3_post cap (waits (v3_inner s)) d (v3_loop fuel cap s).
Proof.
  intros Hcap. induction fuel as [| fuel IH]; intros s d Hc Hd Hf; [lia |]. cbn [v3_loop].
  assert (Hheader : forall s', v3_phase s' = PhHeader -> v3_inner s' = v3_inner s -> v3_carries s' d ->
    (events_size (v3_inner s) + (match v3_header s' with [] => 1 | _ => 2 end) < S fuel)%nat ->
    turn_post cap (waits (v3_inner s)) (events_size (v3_inner s)) d
      (fun s' => v3_phase s' = PhBody /\ (events_size (v3_inner s') + 2 <= fuel)%nat) (v3_read_header s')).
  { intros s' Hph Hi Hd' Hf'. rewrite <- Hi in *. pose proof (v3_read_header_ok cap s' d Hc Hd' Hph) as Ht.
    destruct (v3_read_header s'); [| done | done]. cbn [turn_post] in *.
    destruct Ht as (H1 & H2 & H3 & H4 & H5 & H6). split_and!; [done.. |]. destruct (v3_header s'); simpl in *; lia. }
  unfold v3_bonus in Hf. destruct (v3_phase s) eqn:Hph.
  - destruct (v3_plain s) as [| b pl] eqn:Hp; [| by apply v3_give_ok; rewrite ?Hp].
    apply v3_turn_ok; [by intros; apply IH |]. apply Hheader; [done | done | | cbn [v3_header]; lia].
    destruct Hd as (ps & -> & Hd). rewrite Hph in Hd. exists ps.
    cbn [v3_plain v3_phase v3_header v3_inner v3_decoder]. rewrite Hp. split_and!; [done | done | simpl; lia | done].
  - apply v3_turn_ok; [by intros; apply IH |]. apply Hheader; [done | done | done |]. destruct (v3_header s); lia.
  - apply (v3_turn_ok cap fuel s d (Next s)); [by intros; apply IH |]. cbn [turn_post]. split_and!; [done | done | lia | done | done | lia].
Qed.

Lemma v3_poll_read_ok cap s d :
  1 <= cap -> clean (v3_inner s) -> v3_carries s d ->
  v3_post cap (waits (v3_inner s)) d (v3_poll_read cap s).
Proof.
  intros. apply v3_loop_ok; [done.. |]. unfold v3_bonus. destruct (v3_phase s), (v3_plain s), (v3_header s); lia.
Qed.

Lemma v3_collect_ok caps : Forall (Z.le 1) caps -> forall s d,
  clean (v3_inner s) -> v3_carries s d ->
  exists s' out e, v3_collect caps s = Some (s', out, e) /\ out `prefix_of` d
    /\ (e = None \/ e = Some (Io UnexpectedEof) /\ out = d)
    /\ ((waits (v3_inner s) + length d < length caps)%nat -> e <> None).
Proof.
  induction caps as [| cap caps IH]; intros Hcaps s d Hc Hd; cbn [v3_collect].
  { exists s, [], None. split_and!; [done | apply prefix_nil | by left | simpl; lia]. }
  apply Forall_cons_iff in Hcaps as [Hcap Hcaps]. pose proof (v3_poll_read_ok cap s d Hcap Hc Hd) as Hp.
  destruct (v3_poll_read cap s) as [[s1 [out | | e]] |]; cbn [v3_post] in Hp; [| | | done].
  - destruct Hp as (Hc1 & Hw & _ & Hne & d' & -> & Hd1).
    destruct (IH Hcaps s1 d' Hc1 Hd1) as (s2 & o & e & -> & Hpre & He & Hall).
    exists s2, (out ++ o), e. split_and!; [done | by apply prefix_app | |].
    + destruct He as [-> | [-> ->]]; [by left | by right].
    + cbn [length]. rewrite length_app. intros Hl. apply Hall. rewrite Hw. destruct out; [done |]. simpl in Hl. lia.
  - destruct Hp as (Hc1 & Hw & Hd1). destruct (IH Hcaps s1 d Hc1 Hd1) as (s2 & o & e & -> & Hpre & He & Hall).
    exists s2, o, e. split_and!; [done | done | done |]. cbn [length]. intros Hl. apply Hall. lia.
  - destruct Hp as [-> ->]. exists s1, [], (Some (Io UnexpectedEof)). split_and!; [done | done | by right | done].
Qed.

(** * What the write side writes *)

(** The encoder on a chunk that is not too large. *)
Definition v3_append (m : Mac) (p : bytes) : Mac * bytes :=
  (mac_update (mac_update m p) (next_tag prim m p),
   encode_tls_record TLS_APPLICATION_DATA (next_tag prim m p ++ p)).

Abbreviation v3_wire := (wire_of v3_append).

Context `{!ShadowLaws prim}.

Lemma v3_append_len m p : length (v3_append m p).2 = (9 + length p)%nat.
Proof. cbn. rewrite !length_app. unfold next_tag. rewrite first_tag_len by done. simpl. lia. Qed.

#[local] Instance v3_encoder_ok : EncoderOk v3_encode v3_append MAX_TLS_PLAINTEXT 9 (fun _ => True).
Proof.
  split; [done | | done | intros; apply v3_append_len]. intros m p _ Hp. unfold v3_encode, encode_application_data.
  rewrite Z.gtb_ltb. by rewrite (proj2 (Z.ltb_ge _ _)) by lia.
Qed.

Definition v3_writer_new (sink : list WriteEvent) (m : Mac) : V3Writer := rw_new sink m.

Lemma v3_writes sink m buf :
  Forall willing sink -> (10 * length buf <= accepts sink)%nat ->
  exists w qs, v3_write_all (length sink + length buf) buf (v3_writer_new sink m) = (w, Ok ())
    /\ rw_sent w = v3_wire m qs /\ concat qs = buf /\ Forall chunk_size qs
    /\ (buf <> [] -> head qs = Some (take (Z.to_nat (next_chunk buf)) buf)).
Proof. exact (rw_write_all_delivers (EncoderOk0 := v3_encoder_ok) m Logic.I sink buf). Qed.

(** ** Records are read back *)

Lemma record_parts payload :
  zlen payload <= MAX_TLS_PLAINTEXT + TAG_LEN ->
  exists h, encode_tls_record TLS_APPLICATION_DATA payload = h ++ payload /\ length h = 5%nat
    /\ v3_check_header h = Ok (zlen payload) /\ application_payload (h ++ payload) = Ok payload.
Proof.
  unfold MAX_TLS_PLAINTEXT, TAG_LEN. intros Hl. pose proof (zlen_nonneg payload) as H0.
  assert (Hw : wrap 16 (zlen payload) = zlen payload) by (unfold wrap; apply Z.mod_small; lia).
  unfold encode_tls_record. rewrite Hw. eexists. split; [done |]. split; [done |].
  assert (Hb : be_val [Z.shiftr (zlen payload) 8; wrap 8 (zlen payload)] = zlen payload).
  { rewrite !be_val_cons, be_val_nil, Z.shiftr_div_pow2 by lia. unfold wrap. change (2 ^ 8) with 256.
    change (256 ^ zlen [_]) with 256. change (256 ^ zlen []) with 1. pose proof (Z.div_mod (zlen payload) 256). lia. }
  split.
  - unfold v3_check_header, record_len. cbn [idx bool_decide decide_rel lookup list_lookup mbind res_bind].
    change (idx _ 0) with (Ok (E:=ProxyError) TLS_APPLICATION_DATA). change (idx _ 3) with (Ok (E:=ProxyError) (Z.shiftr (zlen payload) 8)).
    change (idx _ 4) with (Ok (E:=ProxyError) (wrap 8 (zlen payload))). cbn [mbind res_bind]. rewrite Hb.
    rewrite Z.eqb_refl. cbn [negb]. rewrite Z.gtb_ltb, (proj2 (Z.ltb_ge _ _)); [done |]. unfold MAX_TLS_PLAINTEXT, TAG_LEN. lia.
  - unfold application_payload, record_len. unfold TLS_HEADER_LEN.
    assert (Hz : forall a b c d e : Z, zlen ([a; b; c; d; e] ++ payload) = 5 + zlen payload)
      by (intros; rewrite zlen_app; reflexivity). rewrite !Hz.
    rewrite (proj2 (Z.ltb_ge _ _)) by lia. change (idx _ 0) with (Ok (E:=ProxyError) TLS_APPLICATION_DATA).
    change (idx _ 3) with (Ok (E:=ProxyError) (Z.shiftr (zlen payload) 8)).
    change (idx _ 4) with (Ok (E:=ProxyError) (wrap 8 (zlen payload))). cbn [mbind res_bind]. rewrite Hb.
    rewrite Z.eqb_refl. cbn [negb]. rewrite (proj2 (Z.ltb_ge _ _)) by lia.
    eapply (slice_split _ [_; _; _; _; _] payload []); [by rewrite app_nil_r | done | done].
Qed.

(** The decoder when data is the next to come: no residual tag, or another one. *)
Definition takes_data (d : V3FrameDecoder) (p : bytes) : Prop :=
  match residual_mac d with Some m => next_tag prim m p <> next_tag prim (data_mac d) p | None => True end.

Lemma tag_split (t p : bytes) : length t = 4%nat -> take 4 (t ++ p) = t /\ drop 4 (t ++ p) = p.
Proof. intros H. split; [by apply take_app_length' | by apply drop_app_length']. Qed.

Lemma decode_append d p :
  chunk_size p -> takes_data d p ->
  exists h t, (v3_append (data_mac d) p).2 = h ++ t ++ p /\ length h = 5%nat /\ v3_check_header h = Ok (zlen (t ++ p))
    /\ decode_application_data prim d (h ++ t ++ p) = Ok (mkDecoder (v3_append (data_mac d) p).1 None, Data, p).
Proof.
  intros [H1 H2] Ht. cbn [v3_append fst snd] in *. set (t := next_tag prim (data_mac d) p) in *.
  assert (Hl : length t = 4%nat) by (by apply first_tag_len).
  destruct (record_parts (t ++ p)) as (h & -> & Hh & Hck & Hap).
  { rewrite zlen_app. unfold zlen in *. rewrite Hl. unfold TAG_LEN. lia. }
  exists h, t. split_and!; [done | done | done |]. destruct (tag_split t p Hl) as [Et Ed].
  unfold decode_application_data. rewrite Hap. cbn [mbind res_bind]. rewrite Et, Ed.
  rewrite (proj2 (Z.ltb_ge _ _)) by (rewrite zlen_app; unfold zlen, TAG_LEN; lia). unfold takes_data in Ht.
  unfold bytes_eqb. rewrite (bool_decide_eq_true_2 (next_tag prim (data_mac d) p = t)) by done. cbn [negb].
  destruct (residual_mac d); [by rewrite bool_decide_eq_false_2 | done].
Qed.

Lemma frames_data d p w ps :
  chunk_size p -> takes_data d p ->
  v3_frames (mkDecoder (v3_append (data_mac d) p).1 None) w ps ->
  v3_frames d ((v3_append (data_mac d) p).2 ++ w) (p :: ps).
Proof.
  intros Hp Ht Hf. destruct (decode_append d p Hp Ht) as (h & t & -> & Hh & Hck & Hdec). rewrite <- !app_assoc, (app_assoc t).
  replace (p :: ps) with (match p with [] => ps | _ => p :: ps end) by (destruct Hp; by destruct p).
  by eapply VF_record.
Qed.

Lemma frames_wire ps : Forall chunk_size ps -> forall m, v3_frames (mkDecoder m None) (v3_wire m ps) ps.
Proof.
  induction 1 as [| p ps Hp Hps IH]; intros m; cbn [wire_of]; [constructor |].
  by apply (frames_data (mkDecoder m None)).
Qed.

(** Records of the backend, tainted one after the other. *)
Fixpoint taint_all (mac : Mac) (psk sr : bytes) (records : list bytes) : res ProxyError (Mac * bytes) :=
  match records with
  | [] => Ok (mac, [])
  | r :: records =>
      '(mac, out) ← taint_backend_application_data prim mac psk sr r;
      '(mac, rest) ← taint_all mac psk sr records;
      Ok (mac, out ++ rest)
  end.

Definition backend_record (record : bytes) : Prop :=
  match application_payload record with Ok p => zlen p <= MAX_TLS_PLAINTEXT | _ => False end.

Lemma xor_mask_len data psk sr : length (xor_with_handshake_mask prim data psk sr) = length data.
Proof. apply length_imap. Qed.

Lemma frames_tainted psk sr records : Forall backend_record records -> forall m r out r' w ps,
  taint_all r psk sr records = Ok (r', out) ->
  v3_frames (mkDecoder m (Some r')) w ps -> v3_frames (mkDecoder m (Some r)) (out ++ w) ps.
Proof.
  induction 1 as [| rec records Hrec Hrecs IH]; intros m r out r' w ps; cbn [taint_all].
  { by intros [= -> <-]. }
  unfold backend_record in Hrec. intros H. rinv H. destruct v as [r1 o1]. rinv H. destruct v as [r2 o2].
  injection H as -> <-. unfold taint_backend_application_data in Hv. destruct (application_payload rec) as [p | | |]; [| done..].
  cbn [mbind res_bind] in Hv. injection Hv as <- <-. set (x := xor_with_handshake_mask prim p psk sr) in *.
  set (t := next_tag prim r x). intros Hf. assert (Hl : length t = 4%nat) by (by apply first_tag_len).
  destruct (record_parts (t ++ x)) as (h & -> & Hh & Hck & Hap).
  { rewrite zlen_app. unfold zlen in *. unfold x. rewrite Hl, xor_mask_len. unfold TAG_LEN. lia. }
  destruct (tag_split t x Hl) as [Et Ed]. rewrite <- !app_assoc, (app_assoc t).
  apply (VF_record _ (mkDecoder m (Some (mac_update r x))) ResidualHandshake [] h (t ++ x) (o2 ++ w) ps); [done | done | | by eapply IH].
  unfold decode_application_data. rewrite Hap. cbn [mbind res_bind residual_mac]. rewrite Et, Ed.
  rewrite (proj2 (Z.ltb_ge _ _)) by (rewrite zlen_app; unfold zlen, TAG_LEN; lia).
  unfold bytes_eqb. by rewrite bool_decide_eq_true_2.
Qed.

(** A stream of bytes is written and read: the write side takes all of [buf], and polls of
    the other side, after the bytes [before], give [buf] and then the end. *)
Definition v3_delivers (sink : list WriteEvent) (m : Mac) (before buf : bytes) (d : V3FrameDecoder) (caps : list Z) : Prop :=
  exists w, v3_write_all (length sink + length buf) buf (v3_writer_new sink m) = (w, Ok ()) /\
  forall evs, clean evs -> incoming evs = before ++ rw_sent w ->
  exists s got e, v3_collect caps (v3_reader_new evs d) = Some (s, got, e) /\ got `prefix_of` buf
    /\ (e = None \/ e = Some (Io UnexpectedEof) /\ got = buf)
    /\ ((waits evs + length buf < length caps)%nat -> e <> None).

Lemma v3_delivers_ok sink m before buf d caps :
  Forall willing sink -> (10 * length buf <= accepts sink)%nat -> Forall (Z.le 1) caps ->
  (forall ps, Forall chunk_size ps -> (buf <> [] -> head ps = Some (take (Z.to_nat (next_chunk buf)) buf)) -> concat ps = buf ->
     v3_frames d (before ++ v3_wire m ps) ps) ->
  v3_delivers sink m before buf d caps.
Proof.
  intros Hw Ha Hcaps Hf.
  destruct (v3_writes sink m buf Hw Ha) as (w & qs & E & Hs & Hqs & Hsz & Hh).
  exists w. split; [exact E |]. intros evs Hc Hi.
  apply (v3_collect_ok caps Hcaps (v3_reader_new evs d)); [done |]. exists qs. split; [by rewrite <- Hqs |].
  cbn [v3_phase v3_reader_new]. split_and!; [done | simpl; lia |]. change (v3_frames d (incoming evs) qs). rewrite Hi, Hs. by apply Hf.
Qed.

(** Data of the server after tainted records, from a state of the residual tag. *)
Lemma v3_delivers_after psk sr records mac0 mac out sink buf caps :
  Forall willing sink -> (10 * length buf <= accepts sink)%nat -> Forall (Z.le 1) caps ->
  Forall backend_record records -> taint_all mac0 psk sr records = Ok (mac, out) ->
  (let p := take (Z.to_nat (next_chunk buf)) buf in
   next_tag prim mac p <> next_tag prim (encoder_server_to_client psk sr) p) ->
  v3_delivers sink (encoder_server_to_client psk sr) out buf (mkDecoder (encoder_server_to_client psk sr) (Some mac0)) caps.
Proof.
  intros Hw Ha Hcaps Hr Ht Hne. apply v3_delivers_ok; [done.. |]. intros ps Hps Hh Hc.
  apply (frames_tainted _ _ _ Hr _ _ _ _ _ _ Ht). destruct ps as [| p ps]; [constructor |].
  apply Forall_cons_iff in Hps as [Hp Hps]. cbn [wire_of].
  apply (frames_data (mkDecoder (encoder_server_to_client psk sr) (Some mac))); [done | | by apply frames_wire].
  unfold takes_data. cbn [residual_mac data_mac]. assert (Hb : buf <> []).
  { intros ->. destruct Hp as [Hp _]. destruct p; [done |]. by cbn in Hc. }
  specialize (Hh Hb). injection Hh as ->. done.
Qed.

(** C14. The ShadowTLS v3 stream.  From the client to the server, [write_all] of any bytes ends
    when the stream underneath takes bytes, and the server's polls give exactly those bytes, in
    every way the records are cut by reads and waits, and then the error of the end of the
    stream.  From the server to the client the same holds after any number of backend records
    that the server has tainted, which the client drops, unless the tag of the first data
    record is also a residual tag. *)
Theorem shadowtls_stream (psk sr buf : bytes) (sink : list WriteEvent) (caps : list Z) :
  Forall willing sink -> (10 * length buf <= accepts sink)%nat -> Forall (Z.le 1) caps ->
  v3_delivers sink (encoder_client_to_server psk sr) [] buf (decoder_client_to_server psk sr) caps
  /\ forall records mac out,
       Forall backend_record records ->
       taint_all (residual_handshake_mac psk sr) psk sr records = Ok (mac, out) ->
       (let p := take (Z.to_nat (next_chunk buf)) buf in
        next_tag prim mac p <> next_tag prim (encoder_server_to_client psk sr) p) ->
       v3_delivers sink (encoder_server_to_client psk sr) out buf (decoder_server_to_client psk sr) caps.
Proof.
  intros Hw Ha Hcaps. split.
  - apply v3_delivers_ok; [done.. |]. intros ps Hps _ _. by apply frames_wire.
  - intros records mac out Hr Ht Hne. by eapply v3_delivers_after.
Qed.

End v3.

(** Keyed sums in place of the hash functions. *)
Definition toy_shadow : ShadowPrims := mkShadowPrims
  (fun k m => [byte_sum k; byte_sum m] ++ replicate 18 0)
  (fun k m => [byte_sum k; byte_sum m] ++ replicate 30 0)
  (fun m => byte_sum m :: replicate 31 0).

#[export] Instance toy_shadow_laws : ShadowLaws toy_shadow.
Proof.
  split; intros; try reflexivity; cbn; bok; apply byte_sum_u8.
Qed.

(** Two backend records and three bytes, with waits and small writes. *)
Lemma shadowtls_stream_witness :
  let rec := encode_tls_record TLS_APPLICATION_DATA [7; 8; 9] in
  let sink := WPending :: replicate 40 (WAccept 2) in
  v3_delivers toy_shadow sink (encoder_client_to_server [1] (replicate 32 5)) [] [1; 2; 3]
    (decoder_client_to_server [1] (replicate 32 5)) (replicate 6 2)
  /\ exists mac out, taint_all toy_shadow (residual_handshake_mac [1] (replicate 32 5)) [1] (replicate 32 5) [rec; rec] = Ok (mac, out)
     /\ v3_delivers toy_shadow sink (encoder_server_to_client [1] (replicate 32 5)) out [1; 2; 3]
          (decoder_server_to_client [1] (replicate 32 5)) (replicate 6 2).
Proof.
  pose proof (shadowtls_stream toy_shadow [1] (replicate 32 5) [1; 2; 3] (WPending :: replicate 40 (WAccept 2)) (replicate 6 2)
    ltac:(decided) ltac:(decided) ltac:(decided)) as [H1 H2].
  split; [exact H1 |]. destruct (taint_all _ _ _ _ _) as [[mac out] | | |] eqn:E; [| by vm_compute in E..].
  exists mac, out. split; [done |]. apply (H2 _ mac out) in E as H; [exact H | |].
  - repeat constructor; vm_compute; intros [=].
  - vm_compute in E. injection E as <- _. vm_compute. intros [=].
Defined.

(** A write that is given up while it waits and followed by another one: the second is
    answered with the length of the first, and none of its bytes is written. *)
Theorem v3_write_given_up :
  let first := replicate 100 1 in
  let '(w1, r1) := v3_poll_write toy_shadow first (v3_writer_new [WPending; WAccept 200] (encoder_client_to_server [1] [2])) in
  let '(w2, r2) := v3_poll_write toy_shadow [9; 9; 9] w1 in
  r1 = Pending /\ r2 = Ready 100 /\ rw_sent w2 = (v3_append toy_shadow (encoder_client_to_server [1] [2]) first).2
  /\ rw_pending w2 = None.
Proof. vm_compute. done. Qed.

Definition toy_client_hello : bytes :=
  [22; 3; 1; 0; 71; 1; 0; 0; 67; 3; 3] ++ replicate 32 4 ++ [32] ++ replicate 32 0.

Lemma shadowtls_client_hello_witness :
  exists signed sid o, sign_client_hello_session_id toy_shadow toy_client_hello [1] (replicate 28 7) = Ok (signed, sid, o)
    /\ verify_client_hello_session_id toy_shadow signed [1] = Ok (sid, o).
Proof.
  destruct (shadowtls_client_hello toy_shadow toy_client_hello [1] (replicate 28 7) ltac:(decided) eq_refl) as (_ & _ & H).
  eexists _, _, _. split; [vm_compute; reflexivity |]. eapply H. vm_compute. reflexivity.
Defined.
