(* ===== verification/ShadowRelay.v ===== *)
(** The handshakes of ShadowTLS ([shadowtls/handshake.rs], [shadowtls/client.rs],
    [shadowtls/server.rs], [shadowtls/marker.rs], [shadowtls/fuzzing.rs]): the relay of the
    TLS handshake between the client and the backend, record by record and as the two reads
    that [tokio::select!] races; the client's side; the two composed with the stream; the
    marker mode. *)

From stdpp Require Import base list strings numbers.
From S2P Require Import Prelude Text Address Streams Socks Chunks Crypto RecordIo ShadowTls ShadowStream.

(** * Records *)

(** Content type, version and payload of a TLS record. *)
Record TlsRecord := mkTls { tls_type : Z; tls_version : bytes; tls_payload : bytes }.

Definition TLS_RECORD_APPLICATION_DATA : Z := 23.
Definition TLS_RECORD_HANDSHAKE : Z := 22.
Definition TLS_HANDSHAKE_SERVER_HELLO : Z := 0x02.

(** [read_exact] with [map_err] to a transport error. *)
Definition read_or (msg : string) (n : Z) : parser ProxyError bytes := fun s =>
  if bool_decide (n <= zlen s) then Ok (take (Z.to_nat n) s, drop (Z.to_nat n) s) else Err (Transport msg).

Definition read_tls_record : parser ProxyError TlsRecord :=
  header ← read_or "ShadowTLS: read record header" 5;
  record_type ← plift (idx header 0);
  version ← plift (slice header 1 3);
  length ← plift (record_len header);
  if length >? 16384 + 2048 then pfail (Protocol "ShadowTLS: TLS record too large")
  else
    payload ← read_or "ShadowTLS: read record payload" length;
    mret (mkTls record_type version payload).

(** What [write_tls_record] writes, and [encode_tls_record] of [handshake.rs] builds. *)
Definition tls_record_bytes (r : TlsRecord) : bytes :=
  let len := wrap 16 (zlen (tls_payload r)) in
  [tls_type r] ++ tls_version r ++ [wrap 8 (Z.shiftr len 8); wrap 8 len] ++ tls_payload r.

Definition extract_server_random (payload : bytes) : option bytes :=
  if zlen payload <? 38 then None
  else if negb (bool_decide (head payload = Some TLS_HANDSHAKE_SERVER_HELLO)) then None
  else Some (take 32 (drop 6 payload)).

(** A record is a ServerHello: the test before [extract_server_random]. *)
Definition server_hello_random (r : TlsRecord) : option bytes :=
  if (tls_type r =? TLS_RECORD_HANDSHAKE) && bool_decide (head (tls_payload r) = Some TLS_HANDSHAKE_SERVER_HELLO)
  then extract_server_random (tls_payload r) else None.

(** * The relay, record by record *)

(** [server_random] with [found_server_random], [residual_mac], [client_switch_decoder]. *)
Record RelayState := mkRelay {
  found_server_random : option bytes;
  relay_residual : option Mac;
  client_switch_decoder : option V3FrameDecoder;
}.

Definition relay_start : RelayState := mkRelay None None None.

Section relay.
Context (prim : ShadowPrims) (psk : bytes).

(** A record of the client goes to the backend, or is the first of the data. *)
Inductive ClientStep := ToBackend (data : bytes) | Switch (sr record : bytes).

Definition relay_client_record (st : RelayState) (r : TlsRecord) : RelayState * res ProxyError ClientStep :=
  let record := tls_record_bytes r in
  if tls_type r =? TLS_RECORD_APPLICATION_DATA then
    match found_server_random st with
    | None => (st, Err (Protocol "ShadowTLS v3 client ApplicationData before ServerHello"))
    | Some sr =>
        let decoder := default (decoder_client_to_server psk sr) (client_switch_decoder st) in
        match decode_application_data prim decoder record with
        | Ok _ => (st, Ok (Switch sr record))
        | Err _ => (mkRelay (Some sr) (relay_residual st) (Some decoder), Ok (ToBackend record))
        | Panic => (st, Panic)
        | NoFuel => (st, NoFuel)
        end
    end
  else (st, Ok (ToBackend record)).

(** A record of the backend, and what is written to the client. *)
Definition relay_backend_record (st : RelayState) (r : TlsRecord) : RelayState * res ProxyError bytes :=
  let record := tls_record_bytes r in
  let st :=
    match found_server_random st, server_hello_random r with
    | None, Some sr => mkRelay (Some sr) (Some (residual_handshake_mac psk sr)) (client_switch_decoder st)
    | _, _ => st
    end in
  match found_server_random st with
  | Some sr =>
      if tls_type r =? TLS_RECORD_APPLICATION_DATA then
        match relay_residual st with
        | None => (st, Err (Protocol "ShadowTLS v3 residual HMAC not initialized"))
        | Some mac =>
            match taint_backend_application_data prim mac psk sr record with
            | Ok (mac, out) => (mkRelay (Some sr) (Some mac) (client_switch_decoder st), Ok out)
            | Err e => (st, Err e)
            | Panic => (st, Panic)
            | NoFuel => (st, NoFuel)
            end
        end
      else (st, Ok record)
  | None => (st, Ok record)
  end.

(** * The relay as it reads *)

Inductive Peer := Client | Backend.

(** A connection of the relay: what the pending [read_tls_record] has taken from the socket,
    and what is in the socket. *)
Record Conn := mkConn { partial : bytes; socket : bytes }.

(** What is wrong with a connection: its peer has closed it; it takes only so many more bytes before a write fails. *)
Record Fault := mkFault { closed : bool; room : option nat }.

Definition sound : Fault := mkFault false None.

(** [write_all] and [flush] of [d] behind what was written before, and whether they succeed. *)
Definition write_to (f : Fault) (out d : bytes) : Fault * bytes * bool :=
  match room f with
  | None => (f, out ++ d, true)
  | Some k =>
      if (length d <=? k)%nat then (mkFault (closed f) (Some (k - length d)%nat), out ++ d, true)
      else (mkFault (closed f) (Some 0%nat), out ++ take k d, false)
  end.

(** What a poll of [read_tls_record] gives. *)
Inductive ReadPoll := ReadPending (c : Conn) | ReadDone (r : TlsRecord) (c : Conn) | ReadFailed (e : ProxyError).

(** With too few bytes for a record the read waits, or fails if there will be no more. *)
Definition poll_tls_record (closed : bool) (c : Conn) : ReadPoll :=
  let have := partial c ++ socket c in
  match read_tls_record have with
  | Ok (r, rest) => ReadDone r (mkConn [] rest)
  | Err (Transport m) => if closed then ReadFailed (Transport m) else ReadPending (mkConn have [])
  | Err e => ReadFailed e
  | _ => ReadFailed (Protocol "unreachable")
  end.

Inductive RelayEnd := Switched (sr record : bytes) | RelayFailed (e : ProxyError).

Record RelayRun := mkRun {
  run_state : RelayState;
  run_client : Conn;
  run_backend : Conn;
  to_client : bytes;
  to_backend : bytes;
  run_end : option RelayEnd;
  client_fault : Fault;
  backend_fault : Fault;
}.

(** Bytes arrive at a socket, a branch of the [select!] is polled, a peer closes its connection, a connection breaks after [k] more
    bytes are written to it, or [HANDSHAKE_TIMEOUT] is over. *)
Inductive RelayEvent := Arrives (p : Peer) (data : bytes) | Polled (p : Peer) | Closes (p : Peer) | Breaks (p : Peer) (k : nat) | TimesOut.

(** Both reads are dropped when one completes, and start afresh. *)
Definition dropped (c : Conn) : Conn := mkConn [] (socket c).

Definition relay_step (run : RelayRun) (ev : RelayEvent) : RelayRun :=
  let '(mkRun st c b oc ob e fc fb) := run in
  match e with
  | Some _ => run
  | None =>
      match ev with
      | Arrives Client d => mkRun st (mkConn (partial c) (socket c ++ d)) b oc ob None fc fb
      | Arrives Backend d => mkRun st c (mkConn (partial b) (socket b ++ d)) oc ob None fc fb
      | Closes Client => mkRun st c b oc ob None (mkFault true (room fc)) fb
      | Closes Backend => mkRun st c b oc ob None fc (mkFault true (room fb))
      | Breaks Client k => mkRun st c b oc ob None (mkFault (closed fc) (Some k)) fb
      | Breaks Backend k => mkRun st c b oc ob None fc (mkFault (closed fb) (Some k))
      | TimesOut => mkRun st c b oc ob (Some (RelayFailed Timeout)) fc fb
      | Polled Client =>
          match poll_tls_record (closed fc) c with
          | ReadPending c => mkRun st c b oc ob None fc fb
          | ReadFailed e => mkRun st c b oc ob (Some (RelayFailed e)) fc fb
          | ReadDone r c =>
              match relay_client_record st r with
              | (st, Ok (ToBackend d)) =>
                  let '(fb, ob, ok) := write_to fb ob d in
                  mkRun st c (dropped b) oc ob (if ok then None else Some (RelayFailed (Transport "ShadowTLS: write record"))) fc fb
              | (st, Ok (Switch sr record)) => mkRun st c (dropped b) oc ob (Some (Switched sr record)) fc fb
              | (st, Err e) => mkRun st c (dropped b) oc ob (Some (RelayFailed e)) fc fb
              | (st, _) => mkRun st c (dropped b) oc ob (Some (RelayFailed (Protocol "unreachable"))) fc fb
              end
          end
      | Polled Backend =>
          match poll_tls_record (closed fb) b with
          | ReadPending b => mkRun st c b oc ob None fc fb
          | ReadFailed e => mkRun st c b oc ob (Some (RelayFailed e)) fc fb
          | ReadDone r b =>
              match relay_backend_record st r with
              | (st, Ok d) =>
                  let '(fc, oc, ok) := write_to fc oc d in
                  mkRun st (dropped c) b oc ob (if ok then None else Some (RelayFailed (Transport "ShadowTLS: write client record"))) fc fb
              | (st, Err e) => mkRun st (dropped c) b oc ob (Some (RelayFailed e)) fc fb
              | (st, _) => mkRun st (dropped c) b oc ob (Some (RelayFailed (Protocol "unreachable"))) fc fb
              end
          end
      end
  end.

Definition relay_run (run : RelayRun) (evs : list RelayEvent) : RelayRun := foldl relay_step run evs.

(** [relay_v3_handshake] up to the relay: what is written to the backend and what of the
    client's bytes is left. *)
Definition relay_v3_accept (input : bytes) : res ProxyError (bytes * bytes) :=
  '(r, rest) ← read_tls_record input;
  if negb (tls_type r =? TLS_RECORD_HANDSHAKE) || negb (bool_decide (head (tls_payload r) = Some 0x01))
  then Err (Protocol "ShadowTLS v3 expected ClientHello as first record")
  else
    _ ← verify_client_hello_session_id prim (tls_record_bytes r) psk;
    Ok (tls_record_bytes r, rest).

Definition relay_v3_start (rest : bytes) (hello : bytes) : RelayRun :=
  mkRun relay_start (mkConn [] rest) (mkConn [] []) [] hello None sound sound.

(** [V3Stream::server_after_first_client_record]: the decoder, and the bytes that are given
    out first. *)
Definition server_after_first_client_record (sr record : bytes) : res ProxyError (V3FrameDecoder * bytes) :=
  '(decoder, kind, first) ← decode_application_data prim (decoder_client_to_server psk sr) record;
  match kind with
  | ResidualHandshake => Err (Protocol "ShadowTLS v3 expected first client data frame")
  | Data => Ok (decoder, first)
  end.

(** * The client *)

Definition client_read_tls_record : parser ProxyError bytes :=
  header ← read_or "ShadowTLS v3: read record header" 5;
  len ← plift (record_len header);
  if len >? 16384 + 2048 then pfail (Protocol "ShadowTLS v3 TLS record too large")
  else
    payload ← read_or "ShadowTLS v3: read record payload" len;
    mret (header ++ payload).

(** The loop of [shadowtls_v3_connect]: the server random, the decoder and the bytes that are
    given out first. *)
Fixpoint connect_loop (fuel : nat) (sr : option (bytes * V3FrameDecoder)) : parser ProxyError (bytes * V3FrameDecoder * bytes) :=
  match fuel with
  | O => fun _ => NoFuel
  | S fuel =>
      record ← client_read_tls_record;
      match sr with
      | None =>
          found ← plift (server_random_from_server_hello_record record);
          connect_loop fuel (match found with Some sr => Some (sr, decoder_server_to_client psk sr) | None => None end)
      | Some (sr, decoder) =>
          if negb (bool_decide (head record = Some 0x17)) then connect_loop fuel (Some (sr, decoder))
          else
            '(decoder, kind, data) ← plift (decode_application_data prim decoder record);
            match kind with
            | ResidualHandshake => mret (sr, decoder, [])
            | Data => mret (sr, decoder, data)
            end
      end
  end.

(** Each record has at least five bytes. *)
Definition connect_read (input : bytes) : res ProxyError (bytes * V3FrameDecoder * bytes * bytes) :=
  connect_loop (S (length input)) None input.

(** The bytes the client writes first; [hello] is the ClientHello the builder makes and
    [random] the 28 bytes drawn for the session id. *)
Definition connect_hello (hello random : bytes) : res ProxyError bytes :=
  '(signed, _, _) ← sign_client_hello_session_id prim hello psk random;
  Ok signed.

Definition shadowtls_sni_from_dest (dest : bytes) : res ProxyError bytes :=
  let host := trim (match rsplit_once 64 dest with Some (_, host) => host | None => dest end) in
  let bracketed :=
    match strip_prefix [91] host with
    | Some s => match split_once 93 s with Some (inside, _) => Some inside | None => None end
    | None => None
    end in
  let host' :=
    match bracketed with
    | Some h => h
    | None => match rsplit_once 58 host with Some (name, _) => name | None => host end
    end in
  let host' := trim host' in
  match host' with
  | [] => Err (Protocol "ShadowTLS v3 dest must include a handshake server name")
  | _ => Ok host'
  end.

(** * The marker mode *)

Definition MARKER_LEN : Z := 8.

Definition compute_marker (server_random : bytes) : bytes := take 8 (sp_hmac_sha256 prim psk server_random).

Definition markers_equal (expected candidate : bytes) : bool := bytes_eqb expected candidate.

Definition pseudo_server_random (dest : bytes) : bytes :=
  sp_sha256 prim (lit "blackwire-rs-shadowtls-marker-v1" ++ dest).

Definition validate_first_application_record (expected first : bytes) : res ProxyError bytes :=
  if zlen first <? TLS_HEADER_LEN then Err (Protocol "ShadowTLS: truncated Application Data header")
  else
    t ← idx first 0;
    if negb (t =? 23) then Err (Protocol "ShadowTLS: expected Application Data (23)")
    else
      payload_len ← record_len first;
      let total_len := TLS_HEADER_LEN + payload_len in
      if zlen first <? total_len then Err (Protocol "ShadowTLS: truncated Application Data payload")
      else if payload_len <? MARKER_LEN then
        Err (Protocol "ShadowTLS: first Application Data too short to contain marker")
      else
        payload ← slice first TLS_HEADER_LEN total_len;
        candidate ← slice payload 0 MARKER_LEN;
        if negb (markers_equal expected candidate) then Err AuthFailed
        else slice_from payload MARKER_LEN.

(** What [write_marker_record] writes. *)
Definition write_marker_record (marker : bytes) : bytes := [0x17; 0x03; 0x03; 0x00; 0x08] ++ marker.

Definition shadowtls_connect (server_random : bytes) : bytes := write_marker_record (compute_marker server_random).

Definition shadowtls_marker_connect (dest : bytes) : bytes := shadowtls_connect (pseudo_server_random dest).

(** The bytes the accepted stream gives out: the prefix and the rest. *)
Definition shadowtls_marker_accept (dest : bytes) : parser ProxyError bytes :=
  header ← read_or "ShadowTLS marker: read header" 5;
  payload_len ← plift (record_len header);
  payload ← read_or "ShadowTLS marker: read payload" payload_len;
  plift (validate_first_application_record (compute_marker (pseudo_server_random dest)) (header ++ payload)).

(** * Theorems about records *)

(** A record of a size that is relayed. *)
Definition rec_ok (r : TlsRecord) : Prop := length (tls_version r) = 2%nat /\ zlen (tls_payload r) <= 16384 + 2048.

Lemma len_bytes n : 0 <= n < 65536 -> be_val [wrap 8 (Z.shiftr (wrap 16 n) 8); wrap 8 (wrap 16 n)] = n.
Proof.
  intros Hn. unfold wrap. rewrite (Z.mod_small n) by lia. rewrite Z.shiftr_div_pow2 by lia.
  change (2 ^ 8) with 256. rewrite (Z.mod_small (n / 256)) by zdiv.
  rewrite !be_val_cons, be_val_nil. change (256 ^ zlen [_]) with 256. change (256 ^ zlen []) with 1.
  pose proof (Z.div_mod n 256). lia.
Qed.

(** The bytes of a record, its header apart. *)
Definition record_header (r : TlsRecord) (h : bytes) : Prop :=
  tls_record_bytes r = h ++ tls_payload r /\ length h = 5%nat
  /\ record_len (h ++ tls_payload r) = Ok (zlen (tls_payload r)) /\ record_len h = Ok (zlen (tls_payload r))
  /\ (forall k, idx (E:=ProxyError) (h ++ k) 0 = Ok (tls_type r))
  /\ slice (E:=ProxyError) h 1 3 = Ok (tls_version r).

Lemma tls_record_header r : length (tls_version r) = 2%nat -> zlen (tls_payload r) < 65536 -> exists h, record_header r h.
Proof.
  destruct r as [t v p]. intros Hv Hp. cbn [tls_version tls_payload] in *.
  destruct v as [| a [| b [| ? ?]]]; try done. pose proof (zlen_nonneg p).
  assert (Hl := len_bytes (zlen p) ltac:(lia)).
  exists [t; a; b; wrap 8 (Z.shiftr (wrap 16 (zlen p)) 8); wrap 8 (wrap 16 (zlen p))].
  split; [done |]. split; [done |]. split_and!; [| | done | done].
  all: unfold record_len; cbn [app];
    change (idx _ 3) with (Ok (E:=ProxyError) (wrap 8 (Z.shiftr (wrap 16 (zlen p)) 8)));
    change (idx _ 4) with (Ok (E:=ProxyError) (wrap 8 (wrap 16 (zlen p)))); cbn [mbind res_bind]; by rewrite Hl.
Qed.

Lemma tls_record_parts r : rec_ok r -> exists h, record_header r h.
Proof. intros [Hv Hp]. apply tls_record_header; [done | lia]. Qed.

Lemma read_or_app msg a k n : n = zlen a -> read_or msg n (a ++ k) = Ok (a, k).
Proof.
  intros ->. unfold read_or. rewrite bool_decide_eq_true_2 by len_solve. unfold zlen.
  by rewrite Nat2Z.id, take_app_length, drop_app_length.
Qed.

Lemma read_tls_record_bytes r k : rec_ok r -> read_tls_record (tls_record_bytes r ++ k) = Ok (r, k).
Proof.
  intros Hr. destruct (tls_record_parts r Hr) as (h & -> & Hh & _ & Hlen & Hi & Hs). specialize (Hi []). rewrite app_nil_r in Hi.
  rewrite <- app_assoc. unfold read_tls_record. erewrite pbind_ok by (apply read_or_app; unfold zlen; lia).
  erewrite pbind_ok by (unfold plift; by rewrite Hi). erewrite pbind_ok by (unfold plift; by rewrite Hs).
  erewrite pbind_ok by (unfold plift; by rewrite Hlen). rewrite Z.gtb_ltb, (proj2 (Z.ltb_ge _ _)) by apply Hr.
  erewrite pbind_ok by (by apply read_or_app). by destruct r.
Qed.

Lemma client_read_bytes r k : rec_ok r -> client_read_tls_record (tls_record_bytes r ++ k) = Ok (tls_record_bytes r, k).
Proof.
  intros Hr. destruct (tls_record_parts r Hr) as (h & -> & Hh & _ & Hlen & Hi & Hs).
  rewrite <- app_assoc. unfold client_read_tls_record. erewrite pbind_ok by (apply read_or_app; unfold zlen; lia).
  erewrite pbind_ok by (unfold plift; by rewrite Hlen). rewrite Z.gtb_ltb, (proj2 (Z.ltb_ge _ _)) by apply Hr.
  by erewrite pbind_ok by (by apply read_or_app).
Qed.

Lemma record_slice h p :
  length h = 5%nat -> slice (E:=ProxyError) (h ++ p) TLS_HEADER_LEN (TLS_HEADER_LEN + zlen p) = Ok p.
Proof.
  intros Hh. apply (slice_split _ h p []); [by rewrite app_nil_r | unfold zlen, TLS_HEADER_LEN; lia..].
Qed.

Lemma record_application_payload r :
  rec_ok r -> tls_type r = TLS_RECORD_APPLICATION_DATA -> application_payload (tls_record_bytes r) = Ok (tls_payload r).
Proof.
  intros Hr Ht. destruct (tls_record_parts r Hr) as (h & -> & Hh & Hlen & _ & Hi & _). unfold application_payload.
  assert (Hz : zlen (h ++ tls_payload r) = TLS_HEADER_LEN + zlen (tls_payload r))
    by (rewrite zlen_app; unfold zlen, TLS_HEADER_LEN; lia).
  pose proof (zlen_nonneg (tls_payload r)). rewrite (proj2 (Z.ltb_ge _ _)) by lia.
  rewrite Hi, Ht, Hlen. cbn [mbind res_bind]. rewrite Hz, Z.ltb_irrefl. cbn [negb].
  change (TLS_RECORD_APPLICATION_DATA =? TLS_APPLICATION_DATA) with true. cbn [negb]. by apply record_slice.
Qed.

(** The client and the relay take the same record for the ServerHello, and the same random. *)
Lemma server_random_agree r :
  rec_ok r -> server_random_from_server_hello_record (tls_record_bytes r) = Ok (server_hello_random r).
Proof.
  intros Hr. destruct (tls_record_parts r Hr) as (h & -> & Hh & Hlen & _ & Hi & _).
  unfold server_random_from_server_hello_record, server_hello_random, extract_server_random, record_payload.
  set (p := tls_payload r) in *.
  assert (Hz : zlen (h ++ p) = TLS_HEADER_LEN + zlen p) by (rewrite zlen_app; unfold zlen, TLS_HEADER_LEN; lia).
  rewrite Hz. pose proof (zlen_nonneg p). destruct (Z.ltb_spec (TLS_HEADER_LEN + zlen p) (TLS_HEADER_LEN + 38)); cbn [mbind res_bind orb].
  { rewrite (proj2 (Z.ltb_lt (zlen p) 38)) by lia. by destruct (_ && _). }
  rewrite Hi. cbn [mbind res_bind]. change TLS_HANDSHAKE with TLS_RECORD_HANDSHAKE.
  destruct (tls_type r =? TLS_RECORD_HANDSHAKE); cbn [negb andb]; [| done].
  rewrite (proj2 (Z.ltb_ge _ _)) by lia. rewrite Hlen. cbn [mbind res_bind]. rewrite Z.ltb_irrefl, record_slice by done. cbn [mbind res_bind].
  unfold TLS_HANDSHAKE_SERVER_HELLO. rewrite (proj2 (Z.ltb_ge (zlen p) 38)) by lia.
  destruct (bool_decide _); cbn [negb orb]; [| done]. by rewrite slice_in_range by lia.
Qed.

(** * The relay *)

(** Without a server random nothing is derived from it; with one the residual tag is ready,
    and the decoder of the client's data is as it was made. *)
Definition relay_inv (st : RelayState) : Prop :=
  match found_server_random st with
  | None => relay_residual st = None /\ client_switch_decoder st = None
  | Some sr =>
      is_Some (relay_residual st)
      /\ (client_switch_decoder st = None \/ client_switch_decoder st = Some (decoder_client_to_server psk sr))
  end.

Lemma inv_decoder st sr :
  relay_inv st -> found_server_random st = Some sr ->
  default (decoder_client_to_server psk sr) (client_switch_decoder st) = decoder_client_to_server psk sr.
Proof. unfold relay_inv. intros H E. rewrite E in H. by destruct H as [_ [-> | ->]]. Qed.

(** A decoder gives a value or an error on every record that is long enough for its header. *)
Lemma decode_safe d r :
  rec_ok r -> tls_type r = TLS_RECORD_APPLICATION_DATA -> no_panic (decode_application_data prim d (tls_record_bytes r)).
Proof.
  intros Hr Ht. unfold decode_application_data. rewrite record_application_payload by done. cbn [mbind res_bind].
  destruct (_ <? _); [done |]. destruct (residual_mac d); [destruct (bytes_eqb _ _) |]; try done; by destruct (negb _).
Qed.

Lemma relay_client_ok st r :
  rec_ok r -> relay_inv st ->
  relay_inv (relay_client_record st r).1 /\ found_server_random (relay_client_record st r).1 = found_server_random st
  /\ match (relay_client_record st r).2 with
     | Ok (ToBackend d) => d = tls_record_bytes r
     | Ok (Switch sr record) => found_server_random st = Some sr /\ record = tls_record_bytes r
     | Err e => e = Protocol "ShadowTLS v3 client ApplicationData before ServerHello" /\ found_server_random st = None
     | _ => False
     end.
Proof.
  intros Hr Hi. unfold relay_client_record. destruct (Z.eqb_spec (tls_type r) TLS_RECORD_APPLICATION_DATA) as [Ht |]; [| done].
  destruct (found_server_random st) as [sr |] eqn:Ef; [| by rewrite <- Ef].
  rewrite (inv_decoder st sr Hi Ef). pose proof (decode_safe (decoder_client_to_server psk sr) r Hr Ht) as Hs.
  destruct (decode_application_data _ _ _); [by split_and! | | done | done]. cbn [fst snd]. split_and!; [| done | done].
  unfold relay_inv in *. rewrite Ef in Hi. cbn. split; [apply Hi | by right].
Qed.

Lemma relay_backend_ok st r :
  rec_ok r -> relay_inv st ->
  relay_inv (relay_backend_record st r).1 /\ exists d, (relay_backend_record st r).2 = Ok d.
Proof.
  intros Hr Hi. unfold relay_backend_record.
  match goal with |- context [match found_server_random ?s with Some _ => _ | None => _ end] =>
    match s with match _ with _ => _ end => set (st' := s) end end.
  assert (Hi' : relay_inv st').
  { unfold st'. destruct (found_server_random st) eqn:Ef; [done |]. destruct (server_hello_random r) as [sr |]; [| done].
    unfold relay_inv in *. rewrite Ef in Hi. cbn. split; [by eexists | left; by destruct Hi]. }
  clearbody st'. destruct (found_server_random st') as [sr |] eqn:Ef; [| by eauto].
  destruct (Z.eqb_spec (tls_type r) TLS_RECORD_APPLICATION_DATA) as [Ht |]; [| by eauto].
  pose proof Hi' as Hi2. unfold relay_inv in Hi2. rewrite Ef in Hi2. destruct Hi2 as [[mac Hm] Hsw]. rewrite Hm.
  unfold taint_backend_application_data. rewrite record_application_payload by done. cbn [mbind res_bind fst snd].
  split; [| by eexists]. unfold relay_inv. cbn. split; [by eexists | done].
Qed.



(** ** Runs *)


Definition event_ok (ev : RelayEvent) : Prop := match ev with Arrives _ d => bytes_ok d | _ => True end.












(** When the read of one side completes, what the other read has taken from its socket is
    gone: the run goes on as if those bytes had never been sent. *)
Theorem shadowtls_select_drops (run : RelayRun) (pre d : bytes) (c : Conn) (r : TlsRecord) (b : Conn) :
  run_end run = None -> run_client run = mkConn [] [] ->
  poll_tls_record (closed (client_fault run)) (mkConn [] pre) = ReadPending c ->
  poll_tls_record (closed (backend_fault run)) (mkConn (partial (run_backend run)) (socket (run_backend run) ++ d)) = ReadDone r b ->
  relay_run run [Arrives Client pre; Polled Client; Arrives Backend d; Polled Backend]
  = relay_run run [Arrives Backend d; Polled Backend].
Proof.
  destruct run as [st c0 b0 oc ob e fc fb]. cbn [run_end run_client run_backend client_fault backend_fault]. intros -> -> Hp Hb.
  assert (Hc : socket c = []).
  { unfold poll_tls_record in Hp. destruct (read_tls_record _) as [[] | [] | |]; try done. destruct (closed fc); [done |]. by injection Hp as <-. }
  unfold relay_run. cbn [foldl relay_step partial socket app]. rewrite Hp. cbn [relay_step]. rewrite Hb.
  unfold dropped. rewrite Hc. done.
Qed.

(** ** The backend's records on their way to the client *)

(** The server random and the state of the residual tag, once there is a ServerHello. *)
Definition relay_core (st : RelayState) : option (bytes * Mac) :=
  match found_server_random st, relay_residual st with Some sr, Some mac => Some (sr, mac) | _, _ => None end.

Definition core_after (c : option (bytes * Mac)) (r : TlsRecord) : option (bytes * Mac) :=
  match c, server_hello_random r with None, Some sr => Some (sr, residual_handshake_mac psk sr) | _, _ => c end.

(** What becomes of a record: it is passed on, or tainted. *)
Definition core_step (c : option (bytes * Mac)) (r : TlsRecord) : option (bytes * Mac) * bytes :=
  match core_after c r with
  | Some (sr, mac) =>
      if tls_type r =? TLS_RECORD_APPLICATION_DATA then
        let x := xor_with_handshake_mask prim (tls_payload r) psk sr in
        (Some (sr, mac_update mac x), encode_tls_record TLS_APPLICATION_DATA (next_tag prim mac x ++ x))
      else (Some (sr, mac), tls_record_bytes r)
  | None => (None, tls_record_bytes r)
  end.

Fixpoint core_all (c : option (bytes * Mac)) (bs : list TlsRecord) : option (bytes * Mac) * bytes :=
  match bs with
  | [] => (c, [])
  | r :: bs => let '(c, out) := core_step c r in let '(c, rest) := core_all c bs in (c, out ++ rest)
  end.

Lemma relay_backend_core st r :
  rec_ok r -> relay_inv st ->
  relay_core (relay_backend_record st r).1 = (core_step (relay_core st) r).1
  /\ (relay_backend_record st r).2 = Ok (core_step (relay_core st) r).2.
Proof.
  intros Hr Hi. unfold relay_backend_record, core_step, core_after.
  destruct st as [[sr |] m sw]; unfold relay_inv in Hi; cbn [found_server_random relay_residual] in Hi.
  - destruct Hi as [[mac ->] _]. cbn [relay_core found_server_random relay_residual].
    destruct (Z.eqb_spec (tls_type r) TLS_RECORD_APPLICATION_DATA) as [Ht |]; [| done].
    unfold taint_backend_application_data. by rewrite record_application_payload.
  - destruct Hi as [-> ->]. cbn [relay_core found_server_random relay_residual].
    destruct (server_hello_random r) as [sr |]; [| done]. cbn [found_server_random relay_residual].
    destruct (Z.eqb_spec (tls_type r) TLS_RECORD_APPLICATION_DATA) as [Ht |]; [| done].
    unfold taint_backend_application_data. by rewrite record_application_payload.
Qed.

(** Records that arrive whole, each read before the next one arrives. *)
Definition whole (items : list (Peer * TlsRecord)) : list RelayEvent :=
  concat ((fun '(p, r) => [Arrives p (tls_record_bytes r); Polled p]) <$> items).

Definition records_of (p : Peer) (items : list (Peer * TlsRecord)) : list TlsRecord :=
  concat ((fun '(q, r) => match p, q with Client, Client | Backend, Backend => [r] | _, _ => [] end) <$> items).

Definition idle (run : RelayRun) : Prop :=
  run_client run = mkConn [] [] /\ run_backend run = mkConn [] [] /\ run_end run = None /\ relay_inv (run_state run)
  /\ client_fault run = sound /\ backend_fault run = sound.

Lemma poll_whole eof r : rec_ok r -> poll_tls_record eof (mkConn [] (tls_record_bytes r)) = ReadDone r (mkConn [] []).
Proof.
  intros Hr. unfold poll_tls_record. cbn [partial socket app]. rewrite <- (app_nil_r (tls_record_bytes r)).
  by rewrite read_tls_record_bytes.
Qed.

Lemma relay_ended run evs : run_end run <> None -> relay_run run evs = run.
Proof.
  intros H. induction evs as [| ev evs IH]; [done |]. unfold relay_run. cbn [foldl].
  replace (relay_step run ev) with run; [exact IH |]. destruct run as [st c b oc ob [e |] fc fb]; done.
Qed.

Lemma relay_not_ended run evs : run_end (relay_run run evs) = None -> run_end run = None.
Proof. destruct (run_end run) eqn:E; [| done]. rewrite relay_ended by (by rewrite E). by rewrite E. Qed.

Lemma relay_client_core st r : relay_core (relay_client_record st r).1 = relay_core st.
Proof.
  unfold relay_client_record. destruct (_ =? _); [| done]. destruct (found_server_random st) eqn:Ef; [| done].
  destruct (decode_application_data _ _ _); try done. unfold relay_core. by rewrite Ef.
Qed.

Lemma relay_whole_one p r run :
  rec_ok r -> idle run ->
  let run' := relay_run run [Arrives p (tls_record_bytes r); Polled p] in
  run_end run' = None ->
  idle run' /\
  match p with
  | Client => relay_core (run_state run') = relay_core (run_state run)
              /\ to_client run' = to_client run /\ to_backend run' = to_backend run ++ tls_record_bytes r
  | Backend => relay_core (run_state run') = (core_step (relay_core (run_state run)) r).1
               /\ to_client run' = to_client run ++ (core_step (relay_core (run_state run)) r).2
               /\ to_backend run' = to_backend run
  end.
Proof.
  intros Hr (Hc & Hb & He & Hi & Hfc & Hfb). destruct run as [st c b oc ob e fc fb].
  cbn [run_client run_backend run_end run_state client_fault backend_fault] in *. subst c b e fc fb.
  unfold relay_run. destruct p; cbn [foldl relay_step partial socket app]; rewrite poll_whole by done.
  - destruct (relay_client_ok st r Hr Hi) as (H1 & _ & H3). pose proof (relay_client_core st r) as H2.
    destruct (relay_client_record st r) as [st' [[d | sr rec] | e | |]]; cbn [fst snd] in *; try done.
    intros _. subst d. by split_and!.
  - destruct (relay_backend_ok st r Hr Hi) as (H1 & _). destruct (relay_backend_core st r Hr Hi) as [H2 H3].
    destruct (relay_backend_record st r) as [st' m]. cbn [fst snd] in *. rewrite H3. intros _. by split_and!.
Qed.

Lemma relay_whole items : Forall (fun i => rec_ok i.2) items -> forall run,
  idle run -> run_end (relay_run run (whole items)) = None ->
  let run' := relay_run run (whole items) in
  idle run'
  /\ relay_core (run_state run') = (core_all (relay_core (run_state run)) (records_of Backend items)).1
  /\ to_client run' = to_client run ++ (core_all (relay_core (run_state run)) (records_of Backend items)).2
  /\ to_backend run' = to_backend run ++ concat (tls_record_bytes <$> records_of Client items).
Proof.
  induction 1 as [| [p r] items Hr Hrs IH]; intros run Hidle Hend run'.
  { split_and!; [done | done | |]; cbn; by rewrite app_nil_r. }
  cbn [snd] in Hr. set (run1 := relay_run run [Arrives p (tls_record_bytes r); Polled p]).
  assert (E : run' = relay_run run1 (whole items)) by (unfold run', run1, relay_run; by rewrite <- foldl_app).
  fold run' in Hend. rewrite E in Hend. pose proof (relay_not_ended _ _ Hend) as H1.
  destruct (relay_whole_one p r run Hr Hidle H1) as [Hidle1 H]. fold run1 in Hidle1, H.
  destruct (IH run1 Hidle1 Hend) as (H2 & H3 & H4 & H5). rewrite E. split; [done |]. rewrite H3, H4, H5.
  destruct p, H as (-> & -> & ->); cbn [records_of fmap list_fmap concat app].
  - split_and!; [done | done |]. by rewrite <- app_assoc.
  - fold (records_of Backend items). cbn [core_all]. destruct (core_step _ r) as [c1 o1]. cbn [fst snd].
    destruct (core_all c1 _) as [c2 o2]. cbn [fst snd]. split_and!; [done | by rewrite <- app_assoc | done].
Qed.

(** ** What the client makes of them *)

Lemma encode_as_record t p : encode_tls_record t p = tls_record_bytes (mkTls t [3; 3] p).
Proof.
  unfold encode_tls_record, tls_record_bytes. cbn [tls_type tls_version tls_payload app]. do 4 f_equal.
  assert (H : 0 <= wrap 16 (zlen p) < 65536) by (unfold wrap; apply Z.mod_pos_bound; lia).
  unfold wrap at 2. rewrite Z.mod_small; [done |]. rewrite Z.shiftr_div_pow2 by lia. change (2 ^ 8) with 256. zdiv.
Qed.

Lemma head_record r k : head (tls_record_bytes r ++ k) = Some (tls_type r).
Proof. done. Qed.

Lemma connect_step fuel sr r k :
  rec_ok r -> connect_loop (S fuel) sr (tls_record_bytes r ++ k)
  = match sr with
    | None => connect_loop fuel (match server_hello_random r with Some sr => Some (sr, decoder_server_to_client psk sr) | None => None end) k
    | Some (sr, decoder) =>
        if negb (tls_type r =? TLS_RECORD_APPLICATION_DATA) then connect_loop fuel (Some (sr, decoder)) k
        else
          match decode_application_data prim decoder (tls_record_bytes r) with
          | Ok (decoder, ResidualHandshake, _) => Ok (sr, decoder, [], k)
          | Ok (decoder, Data, data) => Ok (sr, decoder, data, k)
          | Err e => Err e
          | Panic => Panic
          | NoFuel => NoFuel
          end
    end.
Proof.
  intros Hr. cbn [connect_loop]. erewrite pbind_ok by (by apply client_read_bytes). destruct sr as [[sr d] |].
  - replace (bool_decide (head (tls_record_bytes r) = Some 0x17)) with (tls_type r =? TLS_RECORD_APPLICATION_DATA).
    2:{ rewrite <- (app_nil_r (tls_record_bytes r)), head_record. destruct (Z.eqb_spec (tls_type r) TLS_RECORD_APPLICATION_DATA) as [-> |].
        - by rewrite bool_decide_eq_true_2.
        - rewrite bool_decide_eq_false_2; [done |]. by intros [=]. }
    destruct (tls_type r =? _); cbn [negb]; [| done]. unfold mbind, parser_bind, plift.
    by destruct (decode_application_data _ _ _) as [[[? []] ?] | | |].
  - erewrite pbind_ok by (unfold plift; by rewrite server_random_agree). by destruct (server_hello_random r).
Qed.

Context `{!ShadowLaws prim}.

(** A tainted record at the client. *)
Lemma decode_tainted m sr mac r :
  zlen (tls_payload r) <= 16384 + 2044 ->
  let x := xor_with_handshake_mask prim (tls_payload r) psk sr in
  let t := mkTls TLS_APPLICATION_DATA [3; 3] (next_tag prim mac x ++ x) in
  rec_ok t /\ decode_application_data prim (mkDecoder m (Some mac)) (tls_record_bytes t)
              = Ok (mkDecoder m (Some (mac_update mac x)), ResidualHandshake, []).
Proof.
  intros Hl x t. assert (Ht : length (next_tag prim mac x) = 4%nat) by (by apply first_tag_len).
  assert (Hr : rec_ok t).
  { split; [done |]. cbn [tls_payload t]. unfold zlen in *. rewrite length_app, Ht. unfold x. rewrite xor_mask_len. lia. }
  split; [done |]. unfold decode_application_data. rewrite record_application_payload by done. cbn [mbind res_bind].
  cbn [tls_payload t]. destruct (tag_split (next_tag prim mac x) x Ht) as [-> ->].
  rewrite (proj2 (Z.ltb_ge _ _)) by (unfold zlen, TAG_LEN; rewrite length_app; lia).
  cbn [residual_mac]. unfold bytes_eqb. by rewrite bool_decide_eq_true_2.
Qed.

(** The client after the ServerHello: it skips to the first tainted record. *)
Lemma connect_residual sr m mac bs ar bs3 more : Forall rec_ok bs ->
  Forall (fun r => tls_type r <> TLS_RECORD_APPLICATION_DATA) bs ->
  tls_type ar = TLS_RECORD_APPLICATION_DATA -> zlen (tls_payload ar) <= 16384 + 2044 ->
  exists mac1, forall fuel, (length bs < fuel)%nat ->
    connect_loop fuel (Some (sr, mkDecoder m (Some mac))) ((core_all (Some (sr, mac)) (bs ++ ar :: bs3)).2 ++ more)
    = Ok (sr, mkDecoder m (Some mac1), [], (core_all (Some (sr, mac1)) bs3).2 ++ more)
    /\ (core_all (Some (sr, mac)) (bs ++ ar :: bs3)).1 = (core_all (Some (sr, mac1)) bs3).1.
Proof.
  intros Hbs Hty Happ Hl. set (x := xor_with_handshake_mask prim (tls_payload ar) psk sr).
  exists (mac_update mac x). induction bs as [| r bs IH]; intros fuel Hf; (destruct fuel as [| fuel]; [lia |]).
  - cbn [app core_all]. unfold core_step, core_after. rewrite Happ. cbn [Z.eqb]. rewrite Z.eqb_refl. fold x.
    destruct (core_all _ bs3) as [c2 o2]. cbn [fst snd]. rewrite encode_as_record.
    destruct (decode_tainted m sr mac ar Hl) as [Hr Hd]. fold x in Hr, Hd. rewrite <- app_assoc, connect_step by done.
    cbn [tls_type]. rewrite Z.eqb_refl. cbn [negb]. by rewrite Hd.
  - apply Forall_cons_iff in Hbs as [Hr Hbs], Hty as [Hn Hty]. cbn [length] in Hf.
    destruct (IH Hbs Hty fuel ltac:(lia)) as [IH1 IH2].
    cbn [app core_all]. unfold core_step, core_after. rewrite (proj2 (Z.eqb_neq _ _)) by done.
    destruct (core_all (Some (sr, mac)) (bs ++ ar :: bs3)) as [c2 o2] eqn:E. cbn [fst snd] in *.
    rewrite <- app_assoc, connect_step by done. by rewrite (proj2 (Z.eqb_neq _ _)) by done.
Qed.

Lemma connect_hello_found bs1 sh sr rest more : Forall rec_ok bs1 -> rec_ok sh ->
  Forall (fun r => server_hello_random r = None) bs1 -> server_hello_random sh = Some sr ->
  forall fuel, (length bs1 < fuel)%nat ->
    connect_loop fuel None ((core_all None (bs1 ++ sh :: rest)).2 ++ more)
    = connect_loop (fuel - S (length bs1)) (Some (sr, decoder_server_to_client psk sr))
        ((core_all (Some (sr, residual_handshake_mac psk sr)) rest).2 ++ more)
    /\ (core_all None (bs1 ++ sh :: rest)).1 = (core_all (Some (sr, residual_handshake_mac psk sr)) rest).1.
Proof.
  intros Hbs Hsh Hn Hs. induction bs1 as [| r bs IH]; intros fuel Hf; (destruct fuel as [| fuel]; [lia |]).
  - assert (Ht : (tls_type sh =? TLS_RECORD_APPLICATION_DATA) = false).
    { unfold server_hello_random in Hs. destruct (Z.eqb_spec (tls_type sh) TLS_RECORD_HANDSHAKE) as [-> |]; done. }
    cbn [app core_all length]. unfold core_step, core_after. rewrite Hs, Ht. destruct (core_all _ rest) as [c2 o2]. cbn [fst snd].
    rewrite <- app_assoc, connect_step, Hs by done. by rewrite Nat.sub_succ, Nat.sub_0_r.
  - apply Forall_cons_iff in Hbs as [Hr Hbs], Hn as [Hr0 Hn]. cbn [length] in Hf.
    destruct (IH Hbs Hn fuel ltac:(lia)) as [IH1 IH2].
    cbn [app core_all]. unfold core_step, core_after. rewrite Hr0.
    destruct (core_all None (bs ++ sh :: rest)) as [c2 o2] eqn:E. cbn [fst snd] in *.
    by rewrite <- app_assoc, connect_step, Hr0 by done.
Qed.

Lemma core_all_len bs : forall c, (length bs <= length (core_all c bs).2)%nat.
Proof.
  induction bs as [| r bs IH]; intros c; [done |]. cbn [core_all].
  assert (H : (1 <= length (core_step c r).2)%nat).
  { unfold core_step. destruct (core_after c r) as [[sr mac] |]; [destruct (_ =? _) |]; cbn; lia. }
  destruct (core_step c r) as [c1 o1]. specialize (IH c1). destruct (core_all c1 bs) as [c2 o2]. cbn [fst snd length] in *.
  rewrite length_app. lia.
Qed.

(** Records that are all data become the tainted ones the stream drops. *)
Lemma core_all_tainted bs sr : Forall (fun r => rec_ok r /\ tls_type r = TLS_RECORD_APPLICATION_DATA) bs -> forall mac,
  exists mac', (core_all (Some (sr, mac)) bs).1 = Some (sr, mac')
    /\ taint_all prim mac psk sr (tls_record_bytes <$> bs) = Ok (mac', (core_all (Some (sr, mac)) bs).2).
Proof.
  induction 1 as [| r bs [Hr Ht] Hbs IH]; intros mac; [by exists mac |].
  cbn [core_all fmap list_fmap taint_all]. unfold core_step, core_after. rewrite Ht, Z.eqb_refl.
  unfold taint_backend_application_data. rewrite record_application_payload by done. cbn [mbind res_bind].
  destruct (IH (mac_update mac (xor_with_handshake_mask prim (tls_payload r) psk sr))) as (mac' & H1 & H2).
  exists mac'. destruct (core_all _ bs) as [c o]. cbn [fst snd] in *. by rewrite H2.
Qed.

Lemma flight_data bs : Forall rec_ok bs ->
  Forall (fun r => tls_type r = TLS_RECORD_APPLICATION_DATA /\ zlen (tls_payload r) <= MAX_TLS_PLAINTEXT) bs ->
  Forall (fun r => rec_ok r /\ tls_type r = TLS_RECORD_APPLICATION_DATA) bs
  /\ Forall backend_record (tls_record_bytes <$> bs).
Proof.
  induction 1 as [| r bs Hr Hbs IH]; intros H; [by split; constructor |].
  apply Forall_cons_iff in H as [[Ht Hl] H]. destruct (IH H) as [H1 H2]. split; constructor; [done | done | | done].
  unfold backend_record. by rewrite record_application_payload.
Qed.

(** What the backend sends: records before the ServerHello, the ServerHello, others, the
    first encrypted record and the rest of the flight, of records with at most 16384 bytes. *)
Record backend_flight (bs bs1 : list TlsRecord) (sh : TlsRecord) (sr : bytes) (bs2 : list TlsRecord)
    (ar : TlsRecord) (bs3 : list TlsRecord) : Prop := {
  bf_split : bs = bs1 ++ sh :: bs2 ++ ar :: bs3;
  bf_ok : Forall rec_ok bs;
  bf_before : Forall (fun r => server_hello_random r = None) bs1;
  bf_hello : server_hello_random sh = Some sr;
  bf_between : Forall (fun r => tls_type r <> TLS_RECORD_APPLICATION_DATA) bs2;
  bf_data : Forall (fun r => tls_type r = TLS_RECORD_APPLICATION_DATA /\ zlen (tls_payload r) <= MAX_TLS_PLAINTEXT) (ar :: bs3);
}.

(** C27. The ShadowTLS v3 handshake.  While records arrive whole, in any interleaving of the two
    sides, and the backend sends a ServerHello and then encrypted records, the client finds
    the server random that the server has found, and takes the first encrypted record as
    proof of the key; its decoder is then in step with the server's tags: what the server
    writes after the rest of the flight, the client reads, unless the tag of its first record
    is also a residual tag.  All records of the client before its data go to the backend
    unchanged. *)
Theorem shadowtls_handshake (items : list (Peer * TlsRecord)) hello bs1 sh sr bs2 ar bs3 more :
  Forall (fun i => rec_ok i.2) items ->
  backend_flight (records_of Backend items) bs1 sh sr bs2 ar bs3 ->
  let run := relay_run (relay_v3_start [] hello) (whole items) in
  run_end run = None ->
  to_backend run = hello ++ concat (tls_record_bytes <$> records_of Client items)
  /\ exists mac d out,
    found_server_random (run_state run) = Some sr /\ relay_residual (run_state run) = Some mac
    /\ connect_read (to_client run ++ more) = Ok (sr, d, [], out ++ more)
    /\ forall sink buf caps,
         Forall willing sink -> (10 * length buf <= accepts sink)%nat -> Forall (Z.le 1) caps ->
         (let p := take (Z.to_nat (next_chunk buf)) buf in
          next_tag prim mac p <> next_tag prim (encoder_server_to_client psk sr) p) ->
         v3_delivers prim sink (encoder_server_to_client psk sr) out buf d caps.
Proof.
  intros Hitems [Es Hok Hb1 Hsh Hb2 Hb3] run Hend.
  destruct (relay_whole items Hitems (relay_v3_start [] hello) ltac:(by split_and!) Hend) as (Hidle & Hcore & Hout & Hback).
  fold run in Hidle, Hcore, Hout, Hback. split; [exact Hback |].
  cbn [relay_v3_start to_client run_state app] in Hout, Hcore. change (relay_core relay_start) with (@None (bytes * Mac)) in *.
  pose proof (core_all_len (records_of Backend items) None) as Hlen. rewrite <- Hout in Hlen.
  rewrite Es in *. apply Forall_app in Hok as [Hok1 Hok]. apply Forall_cons_iff in Hok as [Hoks Hok].
  apply Forall_app in Hok as [Hok2 Hok3]. apply Forall_cons_iff in Hok3 as [Hoka Hok3], Hb3 as [[Hta Hla] Hb3].
  unfold MAX_TLS_PLAINTEXT in Hla.
  destruct (connect_residual sr (encoder_server_to_client psk sr) (residual_handshake_mac psk sr) bs2 ar bs3 more Hok2 Hb2 Hta ltac:(lia))
    as (mac1 & Hres).
  rewrite !length_app in Hlen. cbn [length] in Hlen. rewrite length_app in Hlen. cbn [length] in Hlen.
  destruct (connect_hello_found bs1 sh sr (bs2 ++ ar :: bs3) more Hok1 Hoks Hb1 Hsh (S (length (to_client run ++ more)))) as [E1 E2];
    [rewrite length_app; lia |].
  destruct (Hres (S (length (to_client run ++ more)) - S (length bs1))%nat) as [E3 E4]; [rewrite length_app; lia |].
  destruct (flight_data bs3 Hok3 Hb3) as [Hd3 Hr3]. destruct (core_all_tainted bs3 sr Hd3 mac1) as (mac & H1 & H2).
  rewrite E2, E4, H1 in Hcore. exists mac, (mkDecoder (encoder_server_to_client psk sr) (Some mac1)), (core_all (Some (sr, mac1)) bs3).2.
  unfold relay_core in Hcore. destruct (found_server_random _), (relay_residual _); try done. injection Hcore as -> ->.
  split_and!; [done | done | unfold connect_read; rewrite Hout at 2; rewrite E1; exact E3 |].
  intros sink buf caps Hw Ha Hcaps Hne. by apply (v3_delivers_after prim psk sr _ mac1 mac _ _ _ _ Hw Ha Hcaps Hr3 H2 Hne).
Qed.

(** The switch to data.  Once the relay has found the server random, whatever records of
    the client it has passed on before, the first record that the client's stream writes is
    the one the relay stops at; the server's stream accepts it, and gives out its payload and
    then all that follows. *)
Theorem shadowtls_switch (st : RelayState) (sr buf : bytes) (sink : list WriteEvent) (caps : list Z) :
  relay_inv st -> found_server_random st = Some sr -> buf <> [] ->
  Forall willing sink -> (10 * length buf <= accepts sink)%nat -> Forall (Z.le 1) caps ->
  exists w r record tail d p,
    v3_write_all prim (length sink + length buf) buf (v3_writer_new sink (encoder_client_to_server psk sr)) = (w, Ok ())
    /\ poll_tls_record false (mkConn [] (rw_sent w)) = ReadDone r (mkConn [] tail)
    /\ (relay_client_record st r).2 = Ok (Switch sr record)
    /\ server_after_first_client_record sr record = Ok (d, p)
    /\ forall evs, clean evs -> incoming evs = tail ->
       exists s got e, v3_collect prim caps (v3_reader_new evs d) = Some (s, got, e) /\ (p ++ got) `prefix_of` buf
         /\ (e = None \/ e = Some (Io UnexpectedEof) /\ p ++ got = buf)
         /\ ((waits evs + length buf < length caps)%nat -> e <> None).
Proof.
  intros Hi Hf Hne Hw Ha Hcaps. set (m := encoder_client_to_server psk sr).
  destruct (v3_writes prim sink m buf Hw Ha) as (w & qs & E & Hs & Hqs & Hsz & _).
  destruct qs as [| p qs]; [by cbn in Hqs |]. cbn [wire_of] in Hs.
  apply Forall_cons_iff in Hsz as [Hp1 Hsz].
  destruct (decode_append prim (mkDecoder m None) p Hp1 I) as (h & t & Eh & _ & _ & Hdec). cbn [data_mac] in *.
  set (record := (v3_append prim m p).2) in *. set (r := mkTls TLS_APPLICATION_DATA [3; 3] (next_tag prim m p ++ p)).
  assert (Hrec : record = tls_record_bytes r) by apply encode_as_record.
  assert (Hr : rec_ok r).
  { split; [done |]. cbn [tls_payload r]. unfold next_tag. destruct Hp1 as [_ Hp1]. unfold zlen, MAX_TLS_PLAINTEXT in *.
    rewrite length_app, first_tag_len by done. lia. }
  rewrite <- Eh in Hdec.
  exists w, r, record, (wire_of (v3_append prim) (v3_append prim m p).1 qs), (mkDecoder (v3_append prim m p).1 None), p. split_and!; [done | | | |].
  - unfold poll_tls_record. cbn [partial socket app]. by rewrite Hs, Hrec, read_tls_record_bytes.
  - unfold relay_client_record. change (tls_type r =? TLS_RECORD_APPLICATION_DATA) with true. cbn match.
    rewrite Hf, (inv_decoder st sr Hi Hf), <- Hrec. unfold decoder_client_to_server. fold m. by rewrite Hdec.
  - unfold server_after_first_client_record, decoder_client_to_server. fold m. by rewrite Hdec.
  - intros evs Hc Hinc. cbn [concat] in Hqs. rewrite <- Hqs.
    destruct (v3_collect_ok prim caps Hcaps (v3_reader_new evs (mkDecoder (v3_append prim m p).1 None)) (concat qs) Hc)
      as (s & got & e & H1 & H2 & H3 & H4).
    { exists qs. split; [done |]. cbn [v3_phase v3_reader_new]. split_and!; [done | simpl; lia |].
      change (v3_frames prim (mkDecoder (v3_append prim m p).1 None) (incoming evs) qs). rewrite Hinc. by apply frames_wire. }
    exists s, got, e. split_and!; [done | by apply prefix_app | | ].
    + destruct H3 as [-> | [-> ->]]; [by left | by right].
    + rewrite length_app. intros Hl. apply H4. cbn [v3_inner v3_reader_new]. lia.
Qed.

(** An encrypted record of the backend with more than 16384 bytes, which the relay passes on
    and TLS allows, ends the stream of a client that has switched. *)
Theorem shadowtls_residual_too_large (r : TlsRecord) (mac : Mac) (sr k : bytes) (d : V3FrameDecoder) (cap : Z) :
  rec_ok r -> tls_type r = TLS_RECORD_APPLICATION_DATA -> MAX_TLS_PLAINTEXT < zlen (tls_payload r) ->
  exists mac' out s,
    taint_backend_application_data prim mac psk sr (tls_record_bytes r) = Ok (mac', out)
    /\ v3_poll_read prim cap (v3_reader_new [PData (out ++ k)] d) = Some (s, Failed (Io InvalidData)).
Proof.
  intros Hr Ht Hl. unfold taint_backend_application_data. rewrite record_application_payload by done. cbn [mbind res_bind].
  set (x := xor_with_handshake_mask prim (tls_payload r) psk sr). set (t := next_tag prim mac x).
  assert (Htl : length t = 4%nat) by (by apply first_tag_len).
  assert (Hz : zlen (t ++ x) = 4 + zlen (tls_payload r)).
  { unfold x, zlen. rewrite length_app, Htl, xor_mask_len. lia. }
  unfold MAX_TLS_PLAINTEXT in Hl. destruct Hr as [_ Hr].
  destruct (tls_record_header (mkTls TLS_APPLICATION_DATA [3; 3] (t ++ x)) eq_refl ltac:(cbn [tls_payload]; lia))
    as (h & Eh & Hh & _ & Hlen & Hi & _). cbn [tls_payload tls_type] in *.
  rewrite <- encode_as_record in Eh. rewrite Eh. set (evs := [PData ((h ++ t ++ x) ++ k)]).
  assert (Hc : clean evs).
  { constructor; [| constructor]. intros E. apply (f_equal length) in E. rewrite !length_app in E. simpl in E. lia. }
  destruct (fill_reads 5 5 ltac:(lia) 5 [] evs Hc ltac:(simpl; lia) ltac:(simpl; lia)) as (evs' & h' & res & Ef & _ & Hinc & _ & _ & Hres).
  change (incoming evs) with (((h ++ t ++ x) ++ k) ++ []) in Hinc. cbn [app] in Hinc. rewrite app_nil_r, <- app_assoc in Hinc.
  destruct res as [[] | | e]; [| done |].
  2:{ destruct Hres as (_ & E & Hlt). rewrite E, app_nil_r in Hinc. apply (f_equal length) in Hinc. rewrite length_app in Hinc. lia. }
  destruct Hres as [Hh' _]. apply app_inj_1 in Hinc as [-> _]; [| lia].
  eexists _, _, _. split; [done |]. change [PData ((h ++ t ++ x) ++ k)] with evs. unfold v3_poll_read.
  replace (_ + 3)%nat with (S (events_size evs + 2)) by (cbn [v3_inner v3_reader_new]; lia). cbn [v3_loop v3_phase v3_reader_new v3_plain].
  unfold v3_read_header, v3_reader_new. cbn [v3_header v3_inner]. rewrite Ef. unfold v3_check_header. specialize (Hi []). rewrite app_nil_r in Hi.
  rewrite Hi, Hlen. cbn [mbind res_bind]. rewrite Z.eqb_refl. cbn [negb]. rewrite Z.gtb_ltb.
  rewrite (proj2 (Z.ltb_lt _ _)); [done |]. rewrite Hz. unfold MAX_TLS_PLAINTEXT, TAG_LEN. lia.
Qed.

(** The marker mode: the accepting side takes the marker record of the connecting side off
    the stream, and refuses one of another key or destination. *)
Theorem shadowtls_marker_mode (dest marker k : bytes) :
  length marker = 8%nat ->
  shadowtls_marker_accept dest (write_marker_record marker ++ k)
  = (if bool_decide (compute_marker (pseudo_server_random dest) = marker) then Ok ([], k) else Err AuthFailed)
  /\ shadowtls_marker_accept dest (shadowtls_marker_connect dest ++ k) = Ok ([], k).
Proof.
  intros Hm. assert (H : forall marker, length marker = 8%nat ->
    shadowtls_marker_accept dest (write_marker_record marker ++ k)
    = (if bool_decide (compute_marker (pseudo_server_random dest) = marker) then Ok ([], k) else Err AuthFailed)).
  { clear marker Hm. intros marker Hm. do 9 (destruct marker as [| ? marker]; try done). vm_compute (write_marker_record _).
    unfold shadowtls_marker_accept. cbn [app].
    erewrite pbind_ok by (apply (read_or_app _ [23; 3; 3; 0; 8]); reflexivity).
    erewrite pbind_ok by reflexivity. erewrite pbind_ok by (apply (read_or_app _ [_; _; _; _; _; _; _; _]); reflexivity).
    unfold plift. cbn [app]. unfold validate_first_application_record.
    match goal with |- context [slice ?l TLS_HEADER_LEN] => set (rec := l) end.
    change (zlen rec <? TLS_HEADER_LEN) with false. change (idx rec 0) with (Ok (E:=ProxyError) 23).
    change (record_len rec) with (Ok (E:=ProxyError) 8). cbn [mbind res_bind].
    change (zlen rec <? TLS_HEADER_LEN + 8) with false. change (negb (23 =? 23)) with false. change (8 <? MARKER_LEN) with false. cbn match.
    change (slice rec TLS_HEADER_LEN (TLS_HEADER_LEN + 8)) with (Ok (E:=ProxyError) [z; z0; z1; z2; z3; z4; z5; z6]). cbn [mbind res_bind].
    change (slice [z; z0; z1; z2; z3; z4; z5; z6] 0 MARKER_LEN) with (Ok (E:=ProxyError) [z; z0; z1; z2; z3; z4; z5; z6]). cbn [mbind res_bind].
    unfold markers_equal, bytes_eqb. by case_bool_decide. }
  split; [by apply H |]. unfold shadowtls_marker_connect, shadowtls_connect. rewrite H.
  - by rewrite bool_decide_eq_true_2.
  - unfold compute_marker. by rewrite length_take, hmac256_len.
Qed.

End relay.

(** ** Witnesses *)

Definition toy_hello_record : TlsRecord := mkTls 22 [3; 3] ([2; 0; 0; 34; 3; 3] ++ replicate 32 9).
Definition toy_app (x : Z) : TlsRecord := mkTls 23 [3; 3] [x; x; x].
Definition toy_items : list (Peer * TlsRecord) :=
  [(Backend, toy_hello_record); (Client, mkTls 20 [3; 3] [1]); (Backend, mkTls 20 [3; 3] [1]);
   (Backend, toy_app 1); (Client, toy_app 5); (Backend, toy_app 2)].

#[export] Instance rec_ok_dec r : Decision (rec_ok r).
Proof. unfold rec_ok. apply _. Defined.

#[export] Instance event_ok_dec ev : Decision (event_ok ev).
Proof. destruct ev; simpl; apply _. Defined.


Lemma toy_flight :
  backend_flight (records_of Backend toy_items) [] toy_hello_record (replicate 32 9) [mkTls 20 [3; 3] [1]] (toy_app 1) [toy_app 2].
Proof. split; try decided; repeat constructor; vm_compute; intros [=]. Qed.

Lemma shadowtls_handshake_witness :
  let run := relay_run toy_shadow [1] (relay_v3_start [] toy_client_hello) (whole toy_items) in
  found_server_random (run_state run) = Some (replicate 32 9)
  /\ is_Some (relay_residual (run_state run)) /\ is_ok (connect_read toy_shadow [1] (to_client run)) = true.
Proof.
  destruct (shadowtls_handshake toy_shadow [1] toy_items toy_client_hello _ _ _ _ _ _ [] ltac:(decided) toy_flight eq_refl)
    as (_ & mac & d & out & H1 & H2 & H3 & _).
  cbn zeta. rewrite app_nil_r in H3. rewrite H1, H2, H3. split_and!; [reflexivity | by eexists | reflexivity].
Defined.

Lemma shadowtls_switch_witness :
  let st := run_state (relay_run toy_shadow [1] (relay_v3_start [] toy_client_hello) (whole toy_items)) in
  exists (w : RecWriter Mac) r record, poll_tls_record false (mkConn [] (rw_sent w)) = r
    /\ match r with ReadDone r _ => (relay_client_record toy_shadow [1] st r).2 = Ok (Switch (replicate 32 9) record) | _ => False end.
Proof.
  intros st. destruct (shadowtls_switch toy_shadow [1] st (replicate 32 9) [1; 2; 3] (replicate 40 (WAccept 2)) (replicate 6 2))
    as (w & r & record & tail & d & p & _ & H1 & H2 & _).
  { vm_compute. split; [by eexists | by right]. }
  { by vm_compute. }
  { done. }
  1-3: decided.
  exists w, (ReadDone r (mkConn [] tail)), record. by split.
Defined.

(** Three bytes of a record of the client, then a record of the backend. *)
Lemma shadowtls_select_drops_witness :
  let run := relay_v3_start [] toy_client_hello in
  relay_run toy_shadow [1] run [Arrives Client [20; 3; 3]; Polled Client; Arrives Backend (tls_record_bytes toy_hello_record); Polled Backend]
  = relay_run toy_shadow [1] run [Arrives Backend (tls_record_bytes toy_hello_record); Polled Backend].
Proof.
  apply (shadowtls_select_drops toy_shadow [1] (relay_v3_start [] toy_client_hello) [20; 3; 3] (tls_record_bytes toy_hello_record)
    (mkConn [20; 3; 3] []) toy_hello_record (mkConn [] [])); by vm_compute.
Defined.
