(* ===== verification/Balancer.v ===== *)
(** Health checks and the balancer ([blackwire-app/src/health.rs], [balancer.rs]): the table
    of health snapshots that the probes update, the probe's URL, and the choice of a member
    outbound under the four strategies with the state of the adaptive one.

    Scores and latencies are IEEE 754 double-precision numbers, with the executable
    definitions of [SpecFloat].  Time is a number of nanoseconds. *)

From Stdlib Require Import SpecFloat Znumtheory Sorted.
From stdpp Require Import base list gmap strings numbers.
From S2P Require Import Prelude Text Address.

(** * Floating-point numbers *)

Abbreviation f64 := spec_float.

Definition f64_of (m e : Z) : f64 := binary_normalize 53 1024 m e false.
Definition f64_of_int (n : Z) : f64 := f64_of n 0.
Definition f64_add : f64 -> f64 -> f64 := SFadd 53 1024.
Definition f64_sub : f64 -> f64 -> f64 := SFsub 53 1024.
Definition f64_mul : f64 -> f64 -> f64 := SFmul 53 1024.
Definition f64_div : f64 -> f64 -> f64 := SFdiv 53 1024.

(** [f64::clamp]. *)
Definition f64_clamp (x lo hi : f64) : f64 :=
  let x := if SFltb x lo then lo else x in if SFltb hi x then hi else x.

Definition f64_is_finite (x : f64) : bool :=
  match x with S754_zero _ | S754_finite _ _ _ => true | _ => false end.

(** The literals 0.01, 0.15, 0.2, 0.3 and 0.5. *)
Definition f_0_01 : f64 := f64_of 5764607523034235 (-59).
Definition f_0_15 : f64 := f64_of 5404319552844595 (-55).
Definition f_0_20 : f64 := f64_of 3602879701896397 (-54).
Definition f_0_30 : f64 := f64_of 5404319552844595 (-54).
Definition f_0_50 : f64 := f64_of 1 (-1).
Definition f_0 : f64 := f64_of_int 0.
Definition f_1 : f64 := f64_of_int 1.
Definition f_1000 : f64 := f64_of_int 1000.
Definition f_5000 : f64 := f64_of_int 5000.

(** [Duration::as_secs_f64]. *)
Definition as_secs_f64 (nanos : Z) : f64 :=
  f64_add (f64_of_int (nanos / 1000000000)) (f64_div (f64_of_int (nanos mod 1000000000)) (f64_of_int 1000000000)).

(** * Health *)

Record OutboundState := mkHealth {
  alive : bool;
  latency_ms : Z;
  h_consecutive_failures : Z;
  last_check : Z;
}.

Definition u64_MAX : Z := 2 ^ 64 - 1.

Definition health_default (now : Z) : OutboundState := mkHealth true u64_MAX 0 now.

Abbreviation HealthStates := (gmap bytes OutboundState).

Record HealthCheckConfig := mkHealthConfig {
  hc_url : bytes;
  interval_secs : Z;
  timeout_secs : Z;
  max_failures : Z;
}.

(** The end of a probe that began at [start]. *)
Definition probe_update (max_failures start now : Z) (success : bool) (e : OutboundState) : OutboundState :=
  if success then mkHealth true (wrap 64 ((now - start) / 1000000)) 0 now
  else
    let failures := wrap 32 (h_consecutive_failures e + 1) in
    mkHealth (if (max_failures <=? failures) && alive e then false else alive e) (latency_ms e) failures now.

(** [entry(tag).or_default()] and its update. *)
Definition probe (cfg : HealthCheckConfig) (tag : bytes) (start now : Z) (success : bool) (states : HealthStates) : HealthStates :=
  <[tag := probe_update (max_failures cfg) start now success (default (health_default now) (states !! tag))]> states.

(** What the connection of a probe gives: [None] when the timeout cuts it. *)
Record ProbeIo := mkProbeIo { connects : bool; writes : bool; reads : option bytes }.

(** The answer is read once, into a buffer of 32 bytes. *)
Definition run_probe (io : option ProbeIo) : bool :=
  match io with
  | None => false
  | Some io =>
      if negb (connects io) then false
      else if negb (writes io) then false
      else
        match reads io with
        | None => false
        | Some d =>
            let d := take 32 d in
            if zlen d =? 0 then false else is_prefix (lit "HTTP") (d ++ replicate (32 - length d) 0)
        end
  end.

(** The table with an entry for each outbound. *)
Definition checker_new (tags : list bytes) (now : Z) : HealthStates :=
  foldl (fun states tag => <[tag := health_default now]> states) ∅ tags.

Definition parse_port (port : bytes) : res ProxyError Z :=
  ok_or (parse_u16 port) (Protocol "invalid health check URL port").

Definition parse_authority (authority : bytes) : res ProxyError (bytes * Z) :=
  match strip_prefix [91] authority with
  | Some host =>
      '(host, rest) ← ok_or (split_once 93 host) (Protocol "health check IPv6 host is missing closing ']'");
      port ← match strip_prefix [58] rest with
             | Some port => parse_port port
             | None => if zlen rest =? 0 then Ok 80 else Err (Protocol "invalid health check IPv6 authority")
             end;
      Ok (host, port)
  | None =>
      match rsplit_once 58 authority with
      | Some (host, port) =>
          if negb (bool_decide (58 ∈ host)) then
            port ← parse_port port;
            Ok (host, port)
          else Err (Protocol "IPv6 health check hosts must use brackets")
      | None => Ok (authority, 80)
      end
  end.

(** The destination of the probe and its request. *)
Definition health_probe_parse (url : bytes) : res ProxyError (Address * bytes) :=
  rest ← ok_or (strip_prefix (lit "http://") url) (Protocol "health check only supports http:// URLs");
  let '(authority, path) := default (rest, []) (split_once 47 rest) in
  if zlen authority =? 0 then Err (Protocol "health check URL is missing a host")
  else
    '(host, port) ← parse_authority authority;
    let host_header := if port =? 80 then host else host ++ [58] ++ u64_to_string port in
    Ok (Domain host port,
        lit "GET " ++ [47] ++ path ++ lit " HTTP/1.1" ++ [13; 10] ++ lit "Host: " ++ host_header
        ++ [13; 10] ++ lit "Connection: close" ++ [13; 10; 13; 10]).

(** * The balancer *)

Inductive Strategy := Latency | RoundRobin | Random | Adaptive.

#[global] Instance Strategy_eq_dec : EqDecision Strategy.
Proof. solve_decision. Defined.

Definition strategy_from (s : bytes) : Strategy :=
  if bytes_eqb s (lit "roundRobin") then RoundRobin
  else if bytes_eqb s (lit "random") then Random
  else if bytes_eqb s (lit "adaptive") then Adaptive
  else Latency.

Record BalancerMember := mkMember { profile : bytes; outbound_tag : bytes }.

Record AdaptiveState := mkAdaptive {
  attempts : Z;
  successes : Z;
  consecutive_failures : Z;
  ewma_latency_ms : option f64;
  last_selected : option Z;
  cooldown_until : option Z;
}.

Definition adaptive_new : AdaptiveState := mkAdaptive 0 0 0 None None None.

Definition success_rate (s : AdaptiveState) : f64 :=
  if attempts s =? 0 then f_1 else f64_div (f64_of_int (successes s)) (f64_of_int (attempts s)).

Definition is_in_cooldown (s : AdaptiveState) (now : Z) : bool :=
  match cooldown_until s with Some until => now <? until | None => false end.

Record AdaptiveBalancerConfig := mkAdaptiveConfig {
  failure_threshold : Z;
  cooldown_secs : Z;
  ewma_alpha : f64;
  switch_margin : f64;
}.

Definition adaptive_config_default : AdaptiveBalancerConfig := mkAdaptiveConfig 2 30 f_0_20 f_0_15.

(** The increments of the counters of a member. *)
Inductive BalancerStat := StatSelected (i : nat) | StatCooldown (i : nat) | StatSuccess (i : nat) | StatFailure (i : nat).

(** The fields of a balancer that do not change. *)
Record BalancerSetup := mkBalancerSetup {
  members : list BalancerMember;
  strategy : Strategy;
  adaptive_config : AdaptiveBalancerConfig;
}.

(** The fields that do: [adaptive] behind its mutex, [rr_counter], and the statistics. *)
Record BalancerState := mkBalancer {
  b_adaptive : list AdaptiveState;
  b_current : option nat;
  rr_counter : Z;
  b_stats : list BalancerStat;
}.

(** [Balancer::new] for the tags of the member outbounds and the profiles of the
    configuration (name, outbound tag). *)
Definition member_of (profiles : list (bytes * bytes)) (tag : bytes) : BalancerMember :=
  mkMember (match List.find (fun p => bytes_eqb p.2 tag) profiles with Some (name, _) => name | None => tag end) tag.

Definition balancer_new (strat : bytes) (profiles : list (bytes * bytes)) (adaptive : option AdaptiveBalancerConfig)
    (tags : list bytes) : BalancerSetup * BalancerState :=
  (mkBalancerSetup (member_of profiles <$> tags) (strategy_from strat) (default adaptive_config_default adaptive),
   mkBalancer (replicate (length tags) adaptive_new) None 0 []).

Section balancer.
Context (b : BalancerSetup) (states : HealthStates).

Definition is_alive (tag : bytes) : bool := match states !! tag with Some s => alive s | None => true end.

Definition first_member_index : option nat := match members b with [] => None | _ => Some 0%nat end.

Definition alive_count : nat := length (List.filter (fun m => is_alive (outbound_tag m)) (members b)).

(** The loop of [nth_alive_index]: [i] is [member_idx], [n] what is left to skip. *)
Fixpoint nth_alive_loop (ms : list BalancerMember) (i n : nat) : option nat :=
  match ms with
  | [] => None
  | m :: ms =>
      if negb (is_alive (outbound_tag m)) then nth_alive_loop ms (S i) n
      else match n with O => Some i | S n => nth_alive_loop ms (S i) n end
  end.

Definition nth_alive_index (n : nat) : option nat := nth_alive_loop (members b) 0 n.

Definition latency_of (m : BalancerMember) : Z :=
  match states !! outbound_tag m with Some s => latency_ms s | None => u64_MAX end.

Fixpoint pick_latency_loop (ms : list BalancerMember) (i : nat) (best : option (Z * nat)) : option (Z * nat) :=
  match ms with
  | [] => best
  | m :: ms =>
      if negb (is_alive (outbound_tag m)) then pick_latency_loop ms (S i) best
      else
        let latency := latency_of m in
        pick_latency_loop ms (S i)
          (match best with
           | Some (best_lat, j) => if latency <? best_lat then Some (latency, i) else Some (best_lat, j)
           | None => Some (latency, i)
           end)
  end.

Definition pick_latency_index : option nat :=
  match pick_latency_loop (members b) 0 None with Some (_, i) => Some i | None => first_member_index end.

(** ** The adaptive strategy *)

Definition probe_failures (m : BalancerMember) : Z :=
  match states !! outbound_tag m with Some s => h_consecutive_failures s | None => 0 end.

Fixpoint cooldowns_loop (now : Z) (ms : list BalancerMember) (st : list AdaptiveState) (i : nat) : list AdaptiveState * list nat :=
  match ms, st with
  | m :: ms, s :: st =>
      let hit := (failure_threshold (adaptive_config b) <=? probe_failures m) && negb (is_in_cooldown s now) in
      let s := if hit then mkAdaptive (attempts s) (successes s) (consecutive_failures s) (ewma_latency_ms s)
                             (last_selected s) (Some (now + cooldown_secs (adaptive_config b) * 1000000000))
               else s in
      let '(st, cs) := cooldowns_loop now ms st (S i) in
      (s :: st, if hit then i :: cs else cs)
  | _, _ => (st, [])
  end.

Definition apply_probe_cooldowns (now : Z) (st : list AdaptiveState) : list AdaptiveState * list nat :=
  cooldowns_loop now (members b) st 0.

Definition adaptive_score (m : BalancerMember) (s : AdaptiveState) : f64 :=
  let health := states !! outbound_tag m in
  let latency :=
    match (match ewma_latency_ms s with
           | Some l => Some l
           | None => (fun h => f64_of_int (latency_ms h)) <$> health
           end) with
    | Some l => if f64_is_finite l && SFltb l (f64_of_int u64_MAX) then l else f_5000
    | None => f_5000
    end in
  let latency_score := f64_sub f_1 (f64_clamp (f64_div latency f_5000) f_0 f_1) in
  let failures := wrap 32 (probe_failures m + consecutive_failures s) in
  let failure_budget := f64_of_int (Z.max (failure_threshold (adaptive_config b)) 1) in
  let stability_score := f64_sub f_1 (f64_clamp (f64_div (f64_of_int failures) failure_budget) f_0 f_1) in
  f64_add (f64_add (f64_mul f_0_50 (success_rate s)) (f64_mul f_0_30 latency_score)) (f64_mul f_0_20 stability_score).

(** The member and its state can be chosen now. *)
Definition available (now : Z) (m : BalancerMember) (s : AdaptiveState) : bool :=
  is_alive (outbound_tag m) && negb (is_in_cooldown s now).

(** The first of the available members with the best score. *)
Fixpoint best_loop (now : Z) (ms : list BalancerMember) (st : list AdaptiveState) (i : nat) (best : option (nat * f64)) : option (nat * f64) :=
  match ms, st with
  | m :: ms, s :: st =>
      let score := adaptive_score m s in
      best_loop now ms st (S i)
        (if available now m s then
           match best with
           | Some (j, best_score) => if SFltb best_score score then Some (i, score) else Some (j, best_score)
           | None => Some (i, score)
           end
         else best)
  | _, _ => best
  end.

Definition selected_index (now : Z) (st : list AdaptiveState) (current : option nat) : nat :=
  match best_loop now (members b) st 0 None with
  | None => 0%nat
  | Some (best_idx, best_score) =>
      match current with
      | None => best_idx
      | Some i =>
          match members b !! i, st !! i with
          | Some m, Some s =>
              if available now m s && SFleb best_score (f64_add (adaptive_score m s) (switch_margin (adaptive_config b)))
              then i else best_idx
          | _, _ => best_idx
          end
      end
  end.

Definition mark_selected (now : Z) (s : AdaptiveState) : AdaptiveState :=
  mkAdaptive (attempts s) (successes s) (consecutive_failures s) (ewma_latency_ms s) (Some now) (cooldown_until s).

Definition pick_adaptive_index (now : Z) (r : BalancerState) : BalancerState * option nat :=
  let '(st, cooled) := apply_probe_cooldowns now (b_adaptive r) in
  let selected := selected_index now st (b_current r) in
  let stats := (StatCooldown <$> cooled) ++ (if (selected <? length (members b))%nat then [StatSelected selected] else []) in
  let '(st, current) :=
    if (selected <? length st)%nat then (alter (mark_selected now) selected st, Some selected) else (st, b_current r) in
  (mkBalancer st current (rr_counter r) (b_stats r ++ stats),
   if (selected <? length (members b))%nat then Some selected else None).

(** ** All strategies *)

Definition next_counter (r : BalancerState) : BalancerState :=
  mkBalancer (b_adaptive r) (b_current r) (wrap 64 (rr_counter r + 1)) (b_stats r).

Definition pick_member_index (now : Z) (r : BalancerState) : BalancerState * option nat :=
  match strategy b with
  | Latency => (r, pick_latency_index)
  | RoundRobin =>
      if (alive_count =? 0)%nat then (r, first_member_index)
      else (next_counter r, nth_alive_index (Z.to_nat (rr_counter r mod Z.of_nat alive_count)))
  | Random =>
      if (alive_count =? 0)%nat then (r, first_member_index)
      else (next_counter r,
            nth_alive_index (Z.to_nat (wrap 64 (rr_counter r * 0x9E3779B97F4A7C15) mod Z.of_nat alive_count)))
  | Adaptive => pick_adaptive_index now r
  end.

(** The end of a connection attempt that took [elapsed] nanoseconds. *)
Definition observe_entry (now elapsed : Z) (ok : bool) (e : AdaptiveState) : AdaptiveState :=
  let tries := Z.min (attempts e + 1) u64_MAX in
  if ok then
    let sample := f64_mul (as_secs_f64 elapsed) f_1000 in
    let alpha := f64_clamp (ewma_alpha (adaptive_config b)) f_0_01 f_1 in
    let ewma := match ewma_latency_ms e with
                | Some prev => f64_add (f64_mul alpha sample) (f64_mul (f64_sub f_1 alpha) prev)
                | None => sample
                end in
    mkAdaptive tries (Z.min (successes e + 1) u64_MAX) 0 (Some ewma) (last_selected e) (cooldown_until e)
  else
    let failures := Z.min (consecutive_failures e + 1) (2 ^ 32 - 1) in
    mkAdaptive tries (successes e) failures (ewma_latency_ms e) (last_selected e)
      (if failure_threshold (adaptive_config b) <=? failures
       then Some (now + cooldown_secs (adaptive_config b) * 1000000000) else cooldown_until e).

Definition observe_connect_result (now : Z) (i : nat) (elapsed : Z) (ok : bool) (r : BalancerState) : BalancerState :=
  if negb (bool_decide (strategy b = Adaptive)) then r
  else
    match members b !! i, b_adaptive r !! i with
    | Some _, Some e =>
        let e' := observe_entry now elapsed ok e in
        let stats :=
          if ok then [StatSuccess i]
          else StatFailure i :: (if failure_threshold (adaptive_config b) <=? consecutive_failures e' then [StatCooldown i] else []) in
        mkBalancer (<[i := e']> (b_adaptive r)) (b_current r) (rr_counter r) (b_stats r ++ stats)
    | _, _ => r
    end.

End balancer.

(** * Health as a function of the past *)

(** Probes of one outbound, the latest last: start, end and outcome. *)
Definition probes := list (Z * Z * bool).

Definition after_probes (mx now0 : Z) (ps : probes) : OutboundState :=
  foldl (fun e '(start, now, ok) => probe_update mx start now ok e) (health_default now0) ps.

(** Failures since the last success. *)
Fixpoint failures_in_row (ps : probes) : Z :=
  match ps with [] => 0 | (_, _, ok) :: ps => if (ok : bool) then 0 else 1 + failures_in_row ps end.

(** The first successful one of a list. *)
Definition first_success (ps : probes) : option (Z * Z) :=
  match List.find snd ps with Some (start, now, _) => Some (start, now) | None => None end.

Lemma failures_in_row_bound ps : 0 <= failures_in_row ps <= zlen ps.
Proof. induction ps as [| [[s n] []] ps IH]; cbn [failures_in_row]; len_solve. Qed.

Lemma after_probes_ok mx now0 ps : zlen ps < 2 ^ 32 ->
  let e := after_probes mx now0 ps in
  h_consecutive_failures e = failures_in_row (reverse ps)
  /\ alive e = (failures_in_row (reverse ps) =? 0) || (failures_in_row (reverse ps) <? mx)
  /\ latency_ms e = match first_success (reverse ps) with
                    | Some (start, now) => wrap 64 ((now - start) / 1000000) | None => u64_MAX end.
Proof.
  induction ps as [| [[start now] ok] ps IH] using rev_ind; intros Hl e; [done |].
  unfold e, after_probes in *. rewrite foldl_app, reverse_snoc. cbn [foldl failures_in_row]. rewrite zlen_app in Hl.
  change (zlen [_]) with 1 in Hl. destruct (IH ltac:(lia)) as (H1 & H2 & H3). set (e0 := foldl _ _ ps) in *.
  pose proof (failures_in_row_bound (reverse ps)) as Hb. unfold zlen in Hb, Hl. rewrite length_reverse in Hb.
  unfold probe_update. destruct ok; [done |]. cbn [h_consecutive_failures alive latency_ms].
  rewrite H1. unfold wrap at 1 2. rewrite Z.mod_small by lia.
  rewrite (Z.add_comm (failures_in_row (reverse ps)) 1). split_and!; [done | | exact H3].
  rewrite H2. set (t := failures_in_row (reverse ps)) in *. rewrite (proj2 (Z.eqb_neq (1 + t) 0)) by lia. cbn [orb].
  destruct (Z.leb_spec mx (1 + t)), (Z.eqb_spec t 0), (Z.ltb_spec t mx), (Z.ltb_spec (1 + t) mx); cbn; lia.
Qed.

Definition run_probes (cfg : HealthCheckConfig) (tag : bytes) (states : HealthStates) (ps : probes) : HealthStates :=
  foldl (fun states '(start, now, ok) => probe cfg tag start now ok states) states ps.

Lemma run_probes_lookup cfg tag ps : forall states e0,
  states !! tag = Some e0 ->
  run_probes cfg tag states ps !! tag
  = Some (foldl (fun e '(start, now, ok) => probe_update (max_failures cfg) start now ok e) e0 ps).
Proof.
  induction ps as [| [[start now] ok] ps IH]; intros states e0 Hs; [done |]. unfold run_probes. cbn [foldl]. apply IH.
  unfold probe. by rewrite lookup_insert_eq, Hs.
Qed.

Lemma run_probes_other cfg tag tag' ps : tag' <> tag -> forall states, run_probes cfg tag states ps !! tag' = states !! tag'.
Proof.
  intros Hne. induction ps as [| [[start now] ok] ps IH]; intros states; [done |]. unfold run_probes. cbn [foldl].
  unfold run_probes in IH. rewrite IH. unfold probe. by rewrite lookup_insert_ne.
Qed.

(** The test on the buffer of 32 bytes, of which some are read. *)
Lemma http_prefix d :
  (if zlen (take 32 d) =? 0 then false else is_prefix (lit "HTTP") (take 32 d ++ replicate (32 - length (take 32 d)) 0)) = true
  <-> take 4 d = lit "HTTP".
Proof.
  change (lit "HTTP") with [72; 84; 84; 80]. destruct d as [| a [| b [| c [| e d]]]]; try by (split; [by vm_compute; repeat case_match | done]).
  all: cbn [take]; rewrite (proj2 (Z.eqb_neq _ 0)) by len_solve; cbn [app is_prefix length replicate Nat.sub take]; rewrite ?andb_true_iff, ?Z.eqb_eq.
  all: split; [naive_solver lia | intros [=]; subst; naive_solver].
Qed.

(** Health checking.  The snapshot of an outbound is what its past probes say: the failures
    since the last success, alive unless these have reached the limit, and the latency of the
    last success; probes of one outbound leave the others alone, and a probe succeeds exactly
    when its first read gives at least four bytes and these are [HTTP]. *)
Theorem health_tracks_probes (cfg : HealthCheckConfig) (tag : bytes) (states : HealthStates) (now0 : Z) (ps : probes) :
  states !! tag = Some (health_default now0) -> zlen ps < 2 ^ 32 ->
  let states' := run_probes cfg tag states ps in
  let row := failures_in_row (reverse ps) in
  (exists e, states' !! tag = Some e /\ h_consecutive_failures e = row
     /\ (alive e = false <-> 0 < row /\ max_failures cfg <= row)
     /\ latency_ms e = match first_success (reverse ps) with
                       | Some (start, now) => wrap 64 ((now - start) / 1000000) | None => u64_MAX end)
  /\ (forall tag', tag' <> tag -> states' !! tag' = states !! tag')
  /\ forall io, run_probe (Some io) = true <->
       connects io = true /\ writes io = true /\ exists d, reads io = Some d /\ take 4 d = lit "HTTP".
Proof.
  intros Hs Hl states' row. refine (conj _ (conj _ _)).
  - destruct (after_probes_ok (max_failures cfg) now0 ps Hl) as (H1 & H2 & H3).
    exists (after_probes (max_failures cfg) now0 ps). split_and!; [by apply run_probes_lookup | done | | done].
    pose proof (failures_in_row_bound (reverse ps)) as Hb. fold row in Hb, H2. rewrite H2.
    destruct (Z.eqb_spec row 0), (Z.ltb_spec row (max_failures cfg)); cbn; split; intros; try done; lia.
  - intros tag' Hne. by apply run_probes_other.
  - intros [c w rd]. cbn [run_probe connects writes reads]. destruct c, w; cbn [negb]; try (split; [done | naive_solver]).
    destruct rd as [d |]; [| split; [done | naive_solver]]. rewrite http_prefix. naive_solver.
Qed.

Lemma health_tracks_probes_witness :
  exists e, run_probes (mkHealthConfig [] 30 5 2) [1] (checker_new [[1]] 0) [(0, 5000000, true); (10, 20, false); (30, 40, false)] !! [1] = Some e
    /\ alive e = false.
Proof.
  destruct (health_tracks_probes (mkHealthConfig [] 30 5 2) [1] (checker_new [[1]] 0) 0
    [(0, 5000000, true); (10, 20, false); (30, 40, false)] eq_refl eq_refl)
    as [(e & H1 & _ & H2 & _) _].
  exists e. split; [exact H1 |]. apply H2. vm_compute. split; [reflexivity | discriminate].
Defined.

(** ** The URL of the probe *)

Definition probe_request (path host_header : bytes) : bytes :=
  lit "GET " ++ [47] ++ path ++ lit " HTTP/1.1" ++ [13; 10] ++ lit "Host: " ++ host_header
  ++ [13; 10] ++ lit "Connection: close" ++ [13; 10; 13; 10].

Lemma strip_prefix_app k s : strip_prefix k (k ++ s) = Some s.
Proof.
  unfold strip_prefix. rewrite drop_app_length. assert (H : is_prefix k (k ++ s) = true); [| by rewrite H].
  induction k as [| a k IH]; [done |]. cbn. by rewrite Z.eqb_refl.
Qed.

Lemma strip_prefix_one_none a s : head s <> Some a -> strip_prefix [a] s = None.
Proof.
  intros H. unfold strip_prefix. destruct s as [| b s]; [done |]. cbn. destruct (Z.eqb_spec a b) as [-> |]; [done | done].
Qed.

(** The URL of a name and a port, and of an IPv6 address: the request names the host as it
    stands in the URL, an IPv6 address however without its brackets. *)
Theorem health_probe_parse_spec (host path : bytes) (port : Z) :
  host <> [] -> head host <> Some 91 -> 47 ∉ host -> is_u 16 port ->
  (58 ∉ host ->
   health_probe_parse (lit "http://" ++ host ++ [58] ++ u64_to_string port ++ [47] ++ path)
   = Ok (Domain host port, probe_request path (if port =? 80 then host else host ++ [58] ++ u64_to_string port))
   /\ health_probe_parse (lit "http://" ++ host ++ [47] ++ path) = Ok (Domain host 80, probe_request path host))
  /\ (93 ∉ host ->
      health_probe_parse (lit "http://" ++ [91] ++ host ++ [93; 58] ++ u64_to_string port ++ [47] ++ path)
      = Ok (Domain host port, probe_request path (if port =? 80 then host else host ++ [58] ++ u64_to_string port))).
Proof.
  intros Hne Hb Hslash Hp.
  assert (Hdig : Forall (fun b => 48 <= b <= 57) (u64_to_string port)) by (apply u64_to_string_chars; apply Hp).
  assert (Hnot : forall c, c < 48 \/ 57 < c -> c ∉ u64_to_string port).
  { intros c Hc Hin. pose proof (proj1 (list.Forall_forall _ _) Hdig c Hin) as H. cbn in H. lia. }
  assert (Hparse : parse_port (u64_to_string port) = Ok port).
  { unfold parse_port, parse_u16. by rewrite parse_uint_to_string. }
  unfold health_probe_parse. rewrite !strip_prefix_app. cbn [ok_or mbind res_bind]. split.
  - intros Hc. split.
    + replace (host ++ [58] ++ u64_to_string port ++ [47] ++ path) with ((host ++ [58] ++ u64_to_string port) ++ 47 :: path)
        by (by rewrite <- !app_assoc).
      rewrite split_once_app. 2:{ rewrite !elem_of_app, list_elem_of_singleton. intros [? | [? | H]]; [done | done |]. by apply (Hnot 47); [lia |]. }
      cbn [default from_option id]. rewrite (proj2 (Z.eqb_neq _ 0)) by (destruct host; [done |]; len_solve).
      unfold parse_authority. rewrite strip_prefix_one_none by (by destruct host).
      change (host ++ [58] ++ u64_to_string port) with (host ++ 58 :: u64_to_string port).
      rewrite (rsplit_once_app 58 host) by (apply Hnot; lia). rewrite bool_decide_eq_false_2 by done. cbn [negb].
      rewrite Hparse. by cbn [mbind res_bind].
    + change (host ++ [47] ++ path) with (host ++ 47 :: path). rewrite split_once_app by done. cbn [default from_option id]. rewrite (proj2 (Z.eqb_neq _ 0)) by (destruct host; [done |]; len_solve).
      unfold parse_authority. rewrite strip_prefix_one_none by done. unfold rsplit_once.
      rewrite split_once_none by (by rewrite elem_of_reverse). by cbn [mbind res_bind].
  - intros Hc. replace ([91] ++ host ++ [93; 58] ++ u64_to_string port ++ [47] ++ path)
      with (([91] ++ host ++ 93 :: [58] ++ u64_to_string port) ++ 47 :: path) by (by rewrite <- !app_assoc).
    rewrite split_once_app.
    2:{ rewrite !elem_of_app, !elem_of_cons, elem_of_nil, elem_of_app, list_elem_of_singleton.
        intros [[? | ?] | [? | [? | [? | H]]]]; try done. by apply (Hnot 47); [lia |]. }
    cbn [default from_option id]. rewrite (proj2 (Z.eqb_neq _ 0)) by len_solve. unfold parse_authority. rewrite strip_prefix_app.
    change (host ++ 93 :: [58] ++ u64_to_string port) with (host ++ 93 :: ([58] ++ u64_to_string port)).
    rewrite split_once_app by done. cbn [ok_or mbind res_bind]. rewrite strip_prefix_app, Hparse. by cbn [mbind res_bind].
Qed.

(** * The choice of a member *)

Section choice.
Context (b : BalancerSetup) (states : HealthStates).

(** The positions of the members that are alive. *)
Fixpoint alive_from (ms : list BalancerMember) (i : nat) : list nat :=
  match ms with
  | [] => []
  | m :: ms => if is_alive states (outbound_tag m) then i :: alive_from ms (S i) else alive_from ms (S i)
  end.

Definition alive_indices : list nat := alive_from (members b) 0.

Lemma alive_from_spec ms : forall i j,
  j ∈ alive_from ms i <-> exists k m, j = (i + k)%nat /\ ms !! k = Some m /\ is_alive states (outbound_tag m) = true.
Proof.
  induction ms as [| m ms IH]; intros i j; cbn [alive_from].
  { rewrite elem_of_nil. split; [done | by intros (k & m & _ & H & _)]. }
  assert (H : (exists k m', j = (S i + k)%nat /\ ms !! k = Some m' /\ is_alive states (outbound_tag m') = true)
    <-> exists k m', j = (i + S k)%nat /\ (m :: ms) !! S k = Some m' /\ is_alive states (outbound_tag m') = true).
  { split; intros (k & m' & -> & ? & ?); exists k, m'; (split; [lia | done]). }
  destruct (is_alive states (outbound_tag m)) eqn:E; rewrite ?elem_of_cons, IH, H.
  - split; [intros [-> | (k & m' & ? & ? & ?)]; [by exists 0%nat, m; split; [lia |] | by exists (S k), m'] |].
    intros ([| k] & m' & -> & Hk & ?); [left; lia | right; by exists k, m'].
  - split; [intros (k & m' & ? & ? & ?); by exists (S k), m' |].
    intros ([| k] & m' & -> & Hk & ?); [cbn in Hk; simplify_eq; congruence | by exists k, m'].
Qed.

Lemma alive_indices_spec j :
  j ∈ alive_indices <-> exists m, members b !! j = Some m /\ is_alive states (outbound_tag m) = true.
Proof. unfold alive_indices. rewrite alive_from_spec. naive_solver. Qed.

Lemma alive_from_nodup ms : forall i, NoDup (alive_from ms i).
Proof.
  induction ms as [| m ms IH]; intros i; cbn [alive_from]; [constructor |].
  destruct (is_alive _ _); [| done]. constructor; [| done]. rewrite alive_from_spec. intros (k & _ & E & _). lia.
Qed.

Lemma nth_alive_spec ms : forall i n, nth_alive_loop states ms i n = alive_from ms i !! n.
Proof.
  induction ms as [| m ms IH]; intros i n; [done |]. cbn [nth_alive_loop alive_from].
  destruct (is_alive _ _); cbn [negb]; [| by rewrite IH]. destruct n; [done |]. cbn. by rewrite IH.
Qed.

Lemma alive_count_spec : alive_count b states = length alive_indices.
Proof.
  unfold alive_count, alive_indices. generalize 0%nat. induction (members b) as [| m ms IH]; intros i; [done |]. cbn.
  destruct (is_alive _ _); cbn; by rewrite (IH (S i)).
Qed.

(** ** Rotation *)

(** Connections one after the other. *)
Fixpoint picks (now : Z) (n : nat) (r : BalancerState) : list (option nat) :=
  match n with
  | O => []
  | S n => let '(r, p) := pick_member_index b states now r in p :: picks now n r
  end.

(** A sequence of slots that hits every one once hits every alive member once. *)
Lemma slots_perm (f : nat -> nat) :
  (forall j, (j < length alive_indices)%nat -> (f j < length alive_indices)%nat) ->
  (forall j k, (j < length alive_indices)%nat -> (k < length alive_indices)%nat -> f j = f k -> j = k) ->
  ((fun j => alive_indices !! f j) <$> seq 0 (length alive_indices)) ≡ₚ (Some <$> alive_indices).
Proof.
  intros Hlt Hinj. set (a := length alive_indices) in *.
  assert (Hn : NoDup (f <$> seq 0 a)).
  { apply NoDup_fmap_2_strong; [| apply NoDup_seq]. intros x y Hx Hy. apply Hinj; apply elem_of_seq in Hx, Hy; lia. }
  assert (Hp : (f <$> seq 0 a) ≡ₚ seq 0 a).
  { symmetry. apply submseteq_length_Permutation; [| by rewrite length_fmap].
    apply NoDup_submseteq; [apply NoDup_seq |]. intros x Hx. apply elem_of_seq in Hx.
    destruct (decide (x ∈ f <$> seq 0 a)) as [| Hni]; [done | exfalso].
    assert (Hsub : (x :: (f <$> seq 0 a)) ⊆+ seq 0 a).
    { apply NoDup_submseteq; [by constructor |]. intros y [-> | Hy]%elem_of_cons; [apply elem_of_seq; lia |].
      apply list_elem_of_fmap in Hy as (z & -> & Hz). apply elem_of_seq in Hz. apply elem_of_seq. specialize (Hlt z). lia. }
    apply submseteq_length in Hsub. cbn in Hsub. rewrite length_fmap, length_seq in Hsub. lia. }
  change ((fun j => alive_indices !! f j) <$> seq 0 a) with (((fun i => alive_indices !! i) ∘ f) <$> seq 0 a).
  rewrite list_fmap_compose, Hp.
  replace ((fun i => alive_indices !! i) <$> seq 0 a) with (Some <$> alive_indices); [done |].
  symmetry. apply list_eq. intros i. rewrite !list_lookup_fmap. destruct (decide (i < a)%nat) as [Hi | Hi].
  - rewrite lookup_seq_lt by done. cbn. destruct (lookup_lt_is_Some_2 alive_indices i Hi) as [x Hx]. by rewrite Hx.
  - rewrite lookup_seq_ge by lia. by rewrite lookup_ge_None_2 by lia.
Qed.

Lemma picks_slots now K r :
  (forall r, is_u 64 (rr_counter r) -> pick_member_index b states now r
     = (next_counter r, nth_alive_index b states (Z.to_nat (wrap 64 (rr_counter r * K) mod Z.of_nat (alive_count b states))))) ->
  forall n, 0 <= rr_counter r -> rr_counter r + Z.of_nat n <= 2 ^ 64 ->
  picks now n r
  = (fun j => alive_indices !! Z.to_nat (wrap 64 ((rr_counter r + Z.of_nat j) * K) mod Z.of_nat (length alive_indices))) <$> seq 0 n.
Proof.
  intros Hpick n. revert r. induction n as [| n IH]; intros r H0 Hc; [done |]. cbn [picks]. rewrite Hpick by (unfold is_u; lia). cbn [seq fmap list_fmap].
  f_equal; [by unfold nth_alive_index; rewrite nth_alive_spec, alive_count_spec, Z.add_0_r |].
  destruct n as [| n']; [done |]. set (n := S n') in *.
  assert (Hn : rr_counter (next_counter r) = rr_counter r + 1) by (cbn; unfold wrap; apply Z.mod_small; lia).
  rewrite IH by (rewrite Hn; lia). rewrite Hn.
  rewrite <- fmap_S_seq, <- list_fmap_compose. apply list_fmap_ext. intros i x _. cbn [compose]. by replace (rr_counter r + 1 + Z.of_nat x) with (rr_counter r + Z.of_nat (S x)) by lia.
Qed.

Lemma slots_inj_of_divide (a K c i j : Z) :
  0 <= i < a -> 0 <= j < a -> Z.coprime a K -> ((c + i) * K) mod a = ((c + j) * K) mod a -> i = j.
Proof.
  intros Hi Hj Hco E. assert (Hdiv : (a | K * (i - j))).
  { apply Z.mod_divide; [lia |]. replace (K * (i - j)) with ((c + i) * K - (c + j) * K) by lia.
    rewrite Zminus_mod, E, Z.sub_diag. apply Z.mod_0_l. lia. }
  apply Z.gauss in Hdiv as [q Hq]; [| exact Hco]. assert (q = 0) by nia. lia.
Qed.

(** Each turn of as many connections as there are alive members takes every one of them once. *)
Definition rotates (now : Z) (r : BalancerState) : Prop :=
  picks now (length alive_indices) r ≡ₚ (Some <$> alive_indices).

Lemma rotates_ok now K r :
  (forall r, is_u 64 (rr_counter r) -> pick_member_index b states now r
     = (next_counter r, nth_alive_index b states (Z.to_nat (wrap 64 (rr_counter r * K) mod Z.of_nat (alive_count b states))))) ->
  0 <= rr_counter r -> rr_counter r + zlen alive_indices <= 2 ^ 64 -> alive_indices <> [] ->
  (forall i j, 0 <= i < zlen alive_indices -> 0 <= j < zlen alive_indices ->
     wrap 64 ((rr_counter r + i) * K) mod zlen alive_indices = wrap 64 ((rr_counter r + j) * K) mod zlen alive_indices -> i = j) ->
  rotates now r.
Proof.
  intros Hpick H0 Hc Hne Hinj. unfold rotates, zlen in *. rewrite (picks_slots now K r Hpick) by done.
  assert (Hpos : 0 < Z.of_nat (length alive_indices)) by (destruct alive_indices; [done | simpl; lia]).
  apply slots_perm.
  - intros j _. pose proof (Z.mod_pos_bound (wrap 64 ((rr_counter r + Z.of_nat j) * K)) _ Hpos). lia.
  - intros j k Hj Hk E. pose proof (Z.mod_pos_bound (wrap 64 ((rr_counter r + Z.of_nat j) * K)) _ Hpos).
    pose proof (Z.mod_pos_bound (wrap 64 ((rr_counter r + Z.of_nat k) * K)) _ Hpos).
    apply Nat2Z.inj, Hinj; [lia | lia |]. lia.
Qed.

(** ** The lowest latency *)

(** Latencies and positions of the members that are alive. *)
Fixpoint alive_latencies (ms : list BalancerMember) (i : nat) : list (Z * nat) :=
  match ms with
  | [] => []
  | m :: ms =>
      if is_alive states (outbound_tag m) then (latency_of states m, i) :: alive_latencies ms (S i)
      else alive_latencies ms (S i)
  end.

Definition lower (best : option (Z * nat)) (x : Z * nat) : option (Z * nat) :=
  match best with Some y => if x.1 <? y.1 then Some x else Some y | None => Some x end.

Lemma pick_latency_fold ms : forall i best,
  pick_latency_loop states ms i best = foldl lower best (alive_latencies ms i).
Proof.
  induction ms as [| m ms IH]; intros i best; [done |]. cbn [pick_latency_loop alive_latencies].
  destruct (is_alive _ _); cbn [negb foldl]; rewrite IH; [| done]. f_equal. by destruct best as [[]|].
Qed.

Lemma alive_latencies_spec ms : forall i l j,
  (l, j) ∈ alive_latencies ms i <->
  exists k m, j = (i + k)%nat /\ ms !! k = Some m /\ is_alive states (outbound_tag m) = true /\ l = latency_of states m.
Proof.
  induction ms as [| m ms IH]; intros i l j; cbn [alive_latencies].
  { rewrite elem_of_nil. split; [done | by intros (k & m & _ & H & _)]. }
  destruct (is_alive states (outbound_tag m)) eqn:E; rewrite ?elem_of_cons, IH; split.
  - intros [[= -> ->] | (k & m' & -> & ? & ? & ?)]; [exists 0%nat, m | exists (S k), m']; (split_and!; [lia | done..]).
  - intros ([| k] & m' & -> & Hk & Hm & ->); [left; cbn in Hk; simplify_eq; f_equal; lia | right; exists k, m'; split_and!; [lia | done..]].
  - intros (k & m' & -> & ? & ? & ?). exists (S k), m'. split_and!; [lia | done..].
  - intros ([| k] & m' & -> & Hk & Hm & ->); [cbn in Hk; simplify_eq; congruence | exists k, m'; split_and!; [lia | done..]].
Qed.

Lemma alive_latencies_sorted ms : forall i, StronglySorted (fun x y => (x.2 < y.2)%nat) (alive_latencies ms i).
Proof.
  induction ms as [| m ms IH]; intros i; cbn [alive_latencies]; [constructor |]. destruct (is_alive _ _); [| done].
  constructor; [done |]. apply list.Forall_forall. intros [l j] (k & m' & -> & _)%alive_latencies_spec. cbn. lia.
Qed.

Lemma fold_lower l : forall best, StronglySorted (fun x y => (x.2 < y.2)%nat) (best :: l) ->
  exists r, foldl lower (Some best) l = Some r /\ r ∈ best :: l
    /\ forall y, y ∈ best :: l -> r.1 <= y.1 /\ (r.1 = y.1 -> (r.2 <= y.2)%nat).
Proof.
  induction l as [| x l IH]; intros best Hs.
  { exists best. split_and!; [done | by left |]. intros y [-> | H%elem_of_nil]%elem_of_cons; [lia | done]. }
  inversion Hs as [| ? ? Hs' Hb]; subst. inversion Hs' as [| ? ? Hs'' Hx]; subst. inversion Hb as [| ? ? Hbx Hbl]; subst.
  cbn [foldl lower]. destruct (Z.ltb_spec x.1 best.1) as [Hlt | Hge].
  - destruct (IH x ltac:(by constructor)) as (r & E & Hin & Hmin). exists r. split_and!; [done | by right |].
    intros y [-> | Hy]%elem_of_cons; [| by apply Hmin]. specialize (Hmin x ltac:(by left)). lia.
  - destruct (IH best ltac:(by constructor)) as (r & E & Hin & Hmin). exists r. split_and!; [done | |].
    + apply elem_of_cons in Hin as [-> | Hin]; [by left | by right; right].
    + intros y [-> | [-> | Hy]%elem_of_cons]%elem_of_cons; [apply Hmin; by left | | apply Hmin; by right].
      specialize (Hmin best ltac:(by left)). lia.
Qed.

Lemma pick_latency_ok :
  match pick_latency_index b states with
  | Some i =>
      if decide (alive_indices = []) then i = 0%nat /\ members b <> []
      else exists m, members b !! i = Some m /\ is_alive states (outbound_tag m) = true
             /\ forall j m', members b !! j = Some m' -> is_alive states (outbound_tag m') = true ->
                 latency_of states m <= latency_of states m' /\ (latency_of states m = latency_of states m' -> (i <= j)%nat)
  | None => members b = []
  end.
Proof.
  unfold pick_latency_index. rewrite pick_latency_fold. pose proof (alive_latencies_sorted (members b) 0) as Hs.
  destruct (alive_latencies (members b) 0) as [| best l] eqn:El; cbn [foldl lower].
  - unfold first_member_index. destruct (members b) as [| m ms] eqn:Em; [done |]. rewrite decide_True; [done |].
    destruct alive_indices as [| j js] eqn:Ea; [done |]. exfalso.
    assert (Hj : j ∈ alive_indices) by (rewrite Ea; by left). apply alive_indices_spec in Hj as (m' & Hm & Hal).
    assert (Hx : (latency_of states m', j) ∈ alive_latencies (m :: ms) 0).
    { apply alive_latencies_spec. exists j, m'. rewrite <- Em. by split_and!. }
    rewrite El in Hx. by apply elem_of_nil in Hx.
  - destruct (fold_lower l best Hs) as ([lat i] & -> & Hin & Hmin). rewrite <- El in Hin.
    apply alive_latencies_spec in Hin as (k & m & Hk & Hm & Hal & ->). cbn in Hk. subst i.
    rewrite decide_False. 2:{ intros E. assert (H : k ∈ alive_indices) by (apply alive_indices_spec; eauto). rewrite E in H. by apply elem_of_nil in H. }
    exists m. split_and!; [done | done |]. intros j m' Hj Hal'.
    assert (Hy : (latency_of states m', j) ∈ best :: l) by (rewrite <- El; apply alive_latencies_spec; exists j, m'; by split_and!).
    apply (Hmin _ Hy).
Qed.

(** The strategies without state of their own.  Latency takes the alive member with the
    lowest latency, the first of them on a tie.  Round robin rotates: as many connections as
    there are alive members take each of them exactly once.  So does Random whenever the
    number of alive members is a power of two.  With no member alive all of them take the
    first one. *)
Theorem balancer_choice (now : Z) (r : BalancerState) :
  0 <= rr_counter r -> rr_counter r + zlen alive_indices <= 2 ^ 64 ->
  match strategy b with
  | Latency =>
      match (pick_member_index b states now r).2 with
      | Some i =>
          if decide (alive_indices = []) then i = 0%nat /\ members b <> []
          else exists m, members b !! i = Some m /\ is_alive states (outbound_tag m) = true
                 /\ forall j m', members b !! j = Some m' -> is_alive states (outbound_tag m') = true ->
                     latency_of states m <= latency_of states m' /\ (latency_of states m = latency_of states m' -> (i <= j)%nat)
      | None => members b = []
      end
  | RoundRobin => if decide (alive_indices = []) then (pick_member_index b states now r).2 = first_member_index b else rotates now r
  | Random =>
      if decide (alive_indices = []) then (pick_member_index b states now r).2 = first_member_index b
      else forall k, 0 <= k <= 64 -> zlen alive_indices = 2 ^ k -> rotates now r
  | Adaptive => True
  end.
Proof.
  intros H0 Hc. unfold pick_member_index at 1 2 3. destruct (strategy b) eqn:Es; [| | | done].
  - cbn [snd]. by apply pick_latency_ok.
  - destruct (decide _) as [He | Hne].
    { by rewrite alive_count_spec, He. }
    apply (rotates_ok now 1); [| done | done | done |].
    + intros r' Hr. unfold pick_member_index. rewrite Es, Z.mul_1_r. unfold wrap. rewrite (Z.mod_small _ (2 ^ 64)) by apply Hr.
      by rewrite (proj2 (Nat.eqb_neq _ _)) by (rewrite alive_count_spec; by destruct alive_indices).
    + intros i j Hi Hj. rewrite !Z.mul_1_r. unfold wrap. rewrite !(Z.mod_small _ (2 ^ 64)) by lia.
      rewrite <- (Z.mul_1_r (_ + i)), <- (Z.mul_1_r (_ + j)). apply slots_inj_of_divide; [done | done | apply Z.gcd_1_r].
  - destruct (decide _) as [He | Hne].
    { by rewrite alive_count_spec, He. }
    intros k Hk Ha. apply (rotates_ok now 0x9E3779B97F4A7C15); [| done | done | done |].
    + intros r' _. unfold pick_member_index. rewrite Es.
      by rewrite (proj2 (Nat.eqb_neq _ _)) by (rewrite alive_count_spec; by destruct alive_indices).
    + rewrite Ha. intros i j Hi Hj E. unfold wrap in E.
      assert (Hd : (2 ^ k | 2 ^ 64)) by (exists (2 ^ (64 - k)); rewrite <- Z.pow_add_r by lia; f_equal; lia).
      rewrite !(Z.mod_mod_divide _ (2 ^ 64) (2 ^ k) Hd) in E. revert E. apply slots_inj_of_divide; [done | done |].
      apply Z.coprime_pow_l; [lia | by vm_compute].
Qed.

End choice.

(** ** The order of floating-point numbers *)

(** The place of a number in the order: sign and kind, exponent, mantissa. *)
Definition f64_key (x : f64) : option (Z * Z * Z) :=
  match x with
  | S754_nan => None
  | S754_zero _ => Some (0, 0, 0)
  | S754_infinity s => Some (if s then -2 else 2, 0, 0)
  | S754_finite s m e => if s then Some (-1, - e, Z.neg m) else Some (1, e, Z.pos m)
  end.

Definition key_lt (k l : Z * Z * Z) : Prop :=
  let '(a, b, c) := k in let '(a', b', c') := l in a < a' \/ (a = a' /\ (b < b' \/ (b = b' /\ c < c'))).

Lemma key_compare x y kx ky :
  f64_key x = Some kx -> f64_key y = Some ky ->
  match SFcompare x y with
  | Some Lt => key_lt kx ky
  | Some Eq => kx = ky
  | Some Gt => key_lt ky kx
  | None => False
  end.
Proof.
  destruct x as [s | s | | s m e], y as [s' | s' | | s' m' e']; intros Hx Hy; try discriminate; cbn [SFcompare];
    try (destruct s); try (destruct s'); cbn [f64_key] in Hx, Hy; injection Hx as <-; injection Hy as <-; unfold key_lt;
    try reflexivity; try lia.
  all: change (Pos.compare_cont Eq m m') with (Pos.compare m m').
  all: destruct (Z.compare_spec e e') as [-> | |]; [destruct (Pos.compare_spec m m') as [-> | |]; cbn [CompOpp] | |]; try reflexivity; lia.
Qed.

Lemma f64_key_none x : f64_key x = None -> x = S754_nan.
Proof. by destruct x as [| | | []]. Qed.

Lemma f64_lt_trans x y z : SFltb x y = true -> SFltb y z = true -> SFltb x z = true.
Proof.
  unfold SFltb. destruct (f64_key x) as [[[a1 a2] a3] |] eqn:Hx, (f64_key y) as [[[b1 b2] b3] |] eqn:Hy, (f64_key z) as [[[c1 c2] c3] |] eqn:Hz;
    try (apply f64_key_none in Hx as ->); try (apply f64_key_none in Hy as ->); try (apply f64_key_none in Hz as ->);
    try (by destruct x); try (by destruct y); try (by destruct x, y); try done.
  pose proof (key_compare _ _ _ _ Hx Hy) as H1. pose proof (key_compare _ _ _ _ Hy Hz) as H2. pose proof (key_compare _ _ _ _ Hx Hz) as H3.
  destruct (SFcompare x y) as [[] |], (SFcompare y z) as [[] |], (SFcompare x z) as [[] |]; try done; unfold key_lt in *; simplify_eq; lia.
Qed.

Lemma f64_le_lt_trans x y z : SFleb x y = true -> SFltb y z = true -> SFltb x z = true.
Proof.
  unfold SFltb, SFleb. destruct (f64_key x) as [[[a1 a2] a3] |] eqn:Hx, (f64_key y) as [[[b1 b2] b3] |] eqn:Hy, (f64_key z) as [[[c1 c2] c3] |] eqn:Hz;
    try (apply f64_key_none in Hx as ->); try (apply f64_key_none in Hy as ->); try (apply f64_key_none in Hz as ->);
    try (by destruct x); try (by destruct y); try (by destruct x, y); try done.
  pose proof (key_compare _ _ _ _ Hx Hy) as H1. pose proof (key_compare _ _ _ _ Hy Hz) as H2. pose proof (key_compare _ _ _ _ Hx Hz) as H3.
  destruct (SFcompare x y) as [[] |], (SFcompare y z) as [[] |], (SFcompare x z) as [[] |]; try done; unfold key_lt in *; simplify_eq; lia.
Qed.

Lemma f64_lt_irrefl x : SFltb x x = false.
Proof.
  unfold SFltb. destruct (f64_key x) as [[[a1 a2] a3] |] eqn:Hx; [| by apply f64_key_none in Hx as ->].
  pose proof (key_compare _ _ _ _ Hx Hx) as H. destruct (SFcompare x x) as [[] |]; try done. unfold key_lt in H. lia.
Qed.

Lemma f64_lt_asym x y : SFltb x y = true -> SFltb y x = false.
Proof. intros H. destruct (SFltb y x) eqn:E; [| done]. pose proof (f64_lt_trans _ _ _ H E). by rewrite f64_lt_irrefl in *. Qed.

(** ** The adaptive strategy *)

Section adaptive.
Context (b : BalancerSetup) (states : HealthStates) (now : Z).

(** Member [j] of the balancer can be chosen and has the score [x]. *)
Definition candidate (ms : list BalancerMember) (st : list AdaptiveState) (j : nat) (x : f64) : Prop :=
  exists m s, ms !! j = Some m /\ st !! j = Some s /\ available states now m s = true /\ x = adaptive_score b states m s.

Lemma best_loop_ok ms : forall st i best,
  match best_loop b states now ms st i best with
  | Some (j, x) =>
      (best = Some (j, x) \/ exists k, j = (i + k)%nat /\ candidate ms st k x)
      /\ (forall j' y, best = Some (j', y) -> x = y \/ SFltb y x = true)
      /\ (forall k y, candidate ms st k y -> SFltb x y = false)
  | None => best = None /\ forall k y, ~ candidate ms st k y
  end.
Proof.
  induction ms as [| m ms IH]; intros st i best; [| destruct st as [| s st]]; cbn [best_loop].
  1,2: assert (Hno : forall st k y, ~ candidate [] st k y) by (by intros ? ? ? (? & ? & ? & _));
       assert (Hno' : forall ms k y, ~ candidate ms [] k y) by (by intros ? ? ? (? & ? & _ & ? & _)).
  1,2: destruct best as [[j x] |]; [| split; naive_solver]; split_and!; [by left | | naive_solver];
       intros j' y [= <- <-]; by left.
  assert (Hc : forall k y, candidate (m :: ms) (s :: st) k y <->
     match k with O => available states now m s = true /\ y = adaptive_score b states m s | S k => candidate ms st k y end).
  { intros [| k] y; unfold candidate; cbn; naive_solver. }
  set (sc := adaptive_score b states m s) in *.
  set (best' := if available states now m s then _ else best). specialize (IH st (S i) best').
  destruct (best_loop b states now ms st (S i) best') as [[j x] |].
  - destruct IH as (H1 & H2 & H3). split_and!.
    + destruct H1 as [E | (k & -> & Hk)]; [| right; exists (S k); split; [lia |]; by apply Hc].
      unfold best' in E. destruct (available states now m s) eqn:Ea; [| by left].
      destruct best as [[j' y] |]; [destruct (SFltb y _); [right | by left] | right]; injection E as <- <-; exists 0%nat;
        (split; [lia |]; by apply Hc).
    + intros j' y ->. unfold best' in H2. destruct (available states now m s); [| by eapply H2].
      destruct (SFltb y sc) eqn:El; [| by eapply H2]. right.
      destruct (H2 _ _ eq_refl) as [-> | Hx]; [done | by eapply f64_lt_trans].
    + intros k y Hk. apply Hc in Hk. destruct k as [| k]; [| by eapply H3]. destruct Hk as [Ea ->].
      unfold best' in H2. rewrite Ea in H2. destruct best as [[j' y'] |]; [destruct (SFltb y' sc) eqn:El |];
        destruct (H2 _ _ eq_refl) as [-> | Hx]; try done; try (by apply f64_lt_irrefl); try (by apply f64_lt_asym).
      destruct (SFltb x sc) eqn:Ex; [| done]. by rewrite (f64_lt_trans _ _ _ Hx Ex) in El.
  - destruct IH as [E H]. unfold best' in E.
    destruct (available states now m s) eqn:Ea; [destruct best as [[j' y] |]; [by destruct (SFltb y _) | done] |].
    split; [done |]. intros k y Hk. apply Hc in Hk. destruct k; [naive_solver congruence | by eapply H].
Qed.

Lemma cooldowns_len ms : forall st i, length (cooldowns_loop b states now ms st i).1 = length st.
Proof.
  induction ms as [| m ms IH]; intros [| s st] i; try done. cbn [cooldowns_loop].
  specialize (IH st (S i)). destruct (cooldowns_loop b states now ms st (S i)) as [st' cs]. cbn in *. by rewrite IH.
Qed.

Lemma candidate_lt st i x : candidate (members b) st i x -> (i < length (members b))%nat.
Proof. intros (m & s & H & _). by eapply lookup_lt_Some. Qed.

(** What is selected: a candidate that no other beats, or the current one within the margin,
    or the first member when there is no candidate. *)
Lemma selected_ok st current :
  let i := selected_index b states now st current in
  let cand := candidate (members b) st in
  (exists x, cand i x /\ ((forall j y, cand j y -> SFltb x y = false)
     \/ (current = Some i /\ forall j y, cand j y -> SFltb (f64_add x (switch_margin (adaptive_config b))) y = false)))
  \/ (i = 0%nat /\ forall j y, ~ cand j y).
Proof.
  intros i cand. unfold i, selected_index. pose proof (best_loop_ok (members b) st 0 None) as Hb.
  destruct (best_loop b states now (members b) st 0 None) as [[k x] |]; [left | right; split; [done | apply Hb]].
  destruct Hb as ([? | (k' & -> & Hk)] & _ & Hbest); [done |]. cbn [Nat.add].
  assert (Hd : exists x, cand k' x /\ ((forall j y, cand j y -> SFltb x y = false)
     \/ (current = Some k' /\ forall j y, cand j y -> SFltb (f64_add x (switch_margin (adaptive_config b))) y = false))).
  { exists x. split; [done | by left]. }
  destruct current as [c |]; [| done]. destruct (members b !! c) as [m |] eqn:Em; [| done]. destruct (st !! c) as [s |] eqn:Es; [| done].
  destruct (available states now m s) eqn:Ea; cbn [andb]; [| done].
  destruct (SFleb x _) eqn:El; [| done]. exists (adaptive_score b states m s). split; [by exists m, s |]. right. split; [done |].
  intros j y Hy. destruct (SFltb _ y) eqn:Ey; [| done]. rewrite <- (Hbest j y Hy). symmetry. by eapply f64_le_lt_trans.
Qed.

Lemma selected_range st current :
  (length (members b) <= selected_index b states now st current)%nat -> members b = [].
Proof.
  intros Hi. destruct (selected_ok st current) as [(x & Hc & _) | [E _]]; [apply candidate_lt in Hc; lia |].
  destruct (members b); [done | cbn in Hi; lia].
Qed.

Lemma pick_adaptive_range r :
  match (pick_adaptive_index b states now r).2 with Some i => (i < length (members b))%nat | None => members b = [] end.
Proof.
  unfold pick_adaptive_index. destruct (apply_probe_cooldowns b states now (b_adaptive r)) as [st cs].
  set (i := selected_index _ _ _ _ _). destruct (if (_ <? length st)%nat then _ else _) as [st' cur]. cbn [snd].
  destruct (Nat.ltb_spec i (length (members b))) as [| Hi]; [done | by eapply selected_range].
Qed.

(** C29. The adaptive strategy.  When members are alive and not in cooldown, one of them is
    chosen: one whose score no other of them exceeds, or the one chosen before as long as none
    exceeds its score by more than the switch margin.  Otherwise the first member is taken.
    The choice becomes the current one. *)
Theorem balancer_adaptive (r : BalancerState) :
  strategy b = Adaptive -> length (b_adaptive r) = length (members b) ->
  let st := (apply_probe_cooldowns b states now (b_adaptive r)).1 in
  let cand := candidate (members b) st in
  let r' := (pick_member_index b states now r).1 in
  match (pick_member_index b states now r).2 with
  | None => members b = [] /\ b_current r' = b_current r
  | Some i =>
      (i < length (members b))%nat /\ b_current r' = Some i
      /\ ((exists x, cand i x /\ ((forall j y, cand j y -> SFltb x y = false)
             \/ (b_current r = Some i /\ forall j y, cand j y -> SFltb (f64_add x (switch_margin (adaptive_config b))) y = false)))
          \/ (i = 0%nat /\ forall j y, ~ cand j y))
  end.
Proof.
  intros Hs Hl st cand. unfold pick_member_index. rewrite Hs. unfold pick_adaptive_index.
  pose proof (cooldowns_len (members b) (b_adaptive r) 0) as Hlen. fold (apply_probe_cooldowns b states now (b_adaptive r)) in Hlen.
  destruct (apply_probe_cooldowns b states now (b_adaptive r)) as [st' cs] eqn:Ec. cbn [fst] in *. unfold st in cand. clear st.
  pose proof (selected_ok st' (b_current r)) as Hsel. cbn zeta in Hsel. set (i := selected_index _ _ _ _ _) in *. fold cand in Hsel.
  destruct (Nat.ltb_spec i (length (members b))) as [Hi | Hi].
  - rewrite (proj2 (Nat.ltb_lt i (length st'))) by lia. done.
  - rewrite (proj2 (Nat.ltb_ge i (length st'))) by lia. split; [by eapply selected_range | done].
Qed.

End adaptive.

(** ** Connections that interleave *)

(** A connection picks a member, with the health table of that moment, or one ends. *)
Inductive BalancerEvent :=
| EPick (states : HealthStates) (now : Z)
| EObserve (now : Z) (i : nat) (elapsed : Z) (ok : bool).

Definition balancer_step (b : BalancerSetup) (r : BalancerState) (ev : BalancerEvent) : BalancerState :=
  match ev with
  | EPick states now => (pick_member_index b states now r).1
  | EObserve now i elapsed ok => observe_connect_result b now i elapsed ok r
  end.

Definition count_stat (P : BalancerStat -> bool) (l : list BalancerStat) : Z := zlen (List.filter P l).

Definition is_success (i : nat) (s : BalancerStat) : bool := match s with StatSuccess j => (i =? j)%nat | _ => false end.
Definition is_failure (i : nat) (s : BalancerStat) : bool := match s with StatFailure j => (i =? j)%nat | _ => false end.

(** The state of a member against the statistics. *)
Definition entry_ok (stats : list BalancerStat) (i : nat) (s : AdaptiveState) : Prop :=
  attempts s = Z.min u64_MAX (count_stat (is_success i) stats + count_stat (is_failure i) stats)
  /\ successes s = Z.min u64_MAX (count_stat (is_success i) stats)
  /\ 0 <= consecutive_failures s < 2 ^ 32.

Definition balancer_inv (b : BalancerSetup) (r : BalancerState) : Prop :=
  length (b_adaptive r) = length (members b)
  /\ is_u 64 (rr_counter r)
  /\ (forall i, b_current r = Some i -> (i < length (members b))%nat)
  /\ forall i s, b_adaptive r !! i = Some s -> entry_ok (b_stats r) i s.

Lemma count_stat_app P l k : count_stat P (l ++ k) = count_stat P l + count_stat P k.
Proof. unfold count_stat. by rewrite List.filter_app, zlen_app. Qed.

(** What the counts depend on. *)
Definition same_counts (s s' : AdaptiveState) : Prop :=
  attempts s = attempts s' /\ successes s = successes s' /\ consecutive_failures s = consecutive_failures s'.

Lemma entry_ok_same stats stats' i s s' :
  same_counts s s' -> count_stat (is_success i) stats' = count_stat (is_success i) stats ->
  count_stat (is_failure i) stats' = count_stat (is_failure i) stats -> entry_ok stats i s -> entry_ok stats' i s'.
Proof. unfold entry_ok. intros (-> & -> & ->) -> ->. done. Qed.

Lemma cooldowns_same b states now ms : forall st n i s',
  (cooldowns_loop b states now ms st n).1 !! i = Some s' -> exists s, st !! i = Some s /\ same_counts s s'.
Proof.
  induction ms as [| m ms IH]; intros [| s st] n i s'; try by (intros H; exists s').
  cbn [cooldowns_loop]. destruct (cooldowns_loop b states now ms st (S n)) as [st' cs] eqn:E. cbn [fst].
  destruct i as [| i]; cbn.
  - intros [= <-]. exists s. split; [done |]. by destruct (_ && _).
  - intros H. apply (IH st (S n) i). by rewrite E.
Qed.

Lemma count_cooldowns (i : nat) (cs : list nat) (o : list BalancerStat) :
  (forall x, x ∈ o -> exists j, x = StatSelected j) ->
  count_stat (is_success i) ((StatCooldown <$> cs) ++ o) = 0 /\ count_stat (is_failure i) ((StatCooldown <$> cs) ++ o) = 0.
Proof.
  intros Ho. rewrite !count_stat_app.
  assert (H1 : forall P, (forall j, P (StatCooldown j) = false) -> count_stat P (StatCooldown <$> cs) = 0).
  { intros P HP. unfold count_stat. induction cs as [| c cs IH]; [done |]. cbn. by rewrite HP. }
  assert (H2 : forall P, (forall j, P (StatSelected j) = false) -> count_stat P o = 0).
  { intros P HP. unfold count_stat. induction o as [| x o IH]; [done |]. cbn.
    destruct (Ho x ltac:(by left)) as [j ->]. rewrite HP. apply IH. intros y Hy. apply Ho. by right. }
  rewrite !H1, !H2 by done. done.
Qed.

Lemma pick_adaptive_inv b states now r :
  balancer_inv b r -> balancer_inv b (pick_adaptive_index b states now r).1.
Proof.
  intros (Hl & Hc & Hcur & He). unfold pick_adaptive_index.
  pose proof (cooldowns_len b states now (members b) (b_adaptive r) 0) as Hlen.
  pose proof (cooldowns_same b states now (members b) (b_adaptive r) 0) as Hsame.
  fold (apply_probe_cooldowns b states now (b_adaptive r)) in *.
  destruct (apply_probe_cooldowns b states now (b_adaptive r)) as [st cs]. cbn [fst] in *.
  set (sel := selected_index _ _ _ _ _). set (o := if (sel <? length (members b))%nat then [StatSelected sel] else []).
  assert (Ho : forall x, x ∈ o -> exists j, x = StatSelected j).
  { unfold o. destruct (_ <? _)%nat; intros x Hx; [apply list_elem_of_singleton in Hx; by eexists | by apply elem_of_nil in Hx]. }
  assert (Hst : forall i s', st !! i = Some s' -> entry_ok (b_stats r ++ (StatCooldown <$> cs) ++ o) i s').
  { intros i s' H. destruct (Hsame i s' H) as (s & Hs & Hsm). destruct (count_cooldowns i cs o Ho) as [H1 H2].
    eapply entry_ok_same; [done | | | by apply He]; rewrite count_stat_app; lia. }
  destruct (Nat.ltb_spec sel (length st)) as [Hsel | Hsel]; cbn [fst]; (split_and!; cbn [b_adaptive rr_counter b_current b_stats]).
  1: rewrite length_alter; lia. 1: done. 1: intros i [= <-]; lia. 2: lia. 2,3: done. 2: done.
  intros i s' H. destruct (decide (i = sel)) as [-> |].
  - rewrite list_lookup_alter_eq in H. destruct (st !! sel) as [s |] eqn:Es; [| done]. injection H as <-.
    eapply entry_ok_same; [| done | done | by apply Hst]. done.
  - rewrite list_lookup_alter_ne in H by done. by apply Hst.
Qed.

Lemma observe_inv b now i elapsed ok r : balancer_inv b r -> balancer_inv b (observe_connect_result b now i elapsed ok r).
Proof.
  intros (Hl & Hc & Hcur & He). unfold observe_connect_result. destruct (negb _); [by split_and! |].
  destruct (members b !! i) as [m |]; [| by split_and!]. destruct (b_adaptive r !! i) as [e |] eqn:Ee; [| by split_and!].
  split_and!; cbn [b_adaptive rr_counter b_current b_stats]; [by rewrite length_insert | done | done |].
  destruct (He i e Ee) as (H1 & H2 & H3). assert (Hlt : (i < length (b_adaptive r))%nat) by (by eapply lookup_lt_Some).
  intros j s Hj. destruct (decide (j = i)) as [-> | Hne].
  - rewrite list_lookup_insert_eq in Hj by done. injection Hj as <-. unfold entry_ok, observe_entry.
    rewrite !count_stat_app. assert (H0 : 0 <= count_stat (is_success i) (b_stats r)) by apply zlen_nonneg.
    assert (H0' : 0 <= count_stat (is_failure i) (b_stats r)) by apply zlen_nonneg.
    destruct ok; cbn [attempts successes consecutive_failures].
    + change (count_stat (is_success i) [StatSuccess i]) with (zlen (if (i =? i)%nat then [StatSuccess i] else [])).
      change (count_stat (is_failure i) [StatSuccess i]) with 0. rewrite Nat.eqb_refl. change (zlen [_]) with 1. lia.
    + set (o := if _ <=? _ then [StatCooldown i] else []).
      assert (Hs : count_stat (is_success i) (StatFailure i :: o) = 0) by (unfold o; by destruct (_ <=? _)).
      assert (Hf : count_stat (is_failure i) (StatFailure i :: o) = 1).
      { unfold o, count_stat. cbn. rewrite Nat.eqb_refl. by destruct (_ <=? _). }
      rewrite Hs, Hf. lia.
  - rewrite list_lookup_insert_ne in Hj by done. eapply entry_ok_same; [by split_and! | | | by apply He];
      rewrite count_stat_app; destruct ok; unfold count_stat; cbn; rewrite ?(proj2 (Nat.eqb_neq j i)) by done;
      try (destruct (_ <=? _)); cbn; by rewrite ?Z.add_0_r.
Qed.

Lemma pick_in_range b states now r :
  balancer_inv b r ->
  match (pick_member_index b states now r).2 with Some i => (i < length (members b))%nat | None => members b = [] end.
Proof.
  intros Hinv.
  assert (Hfirst : match first_member_index b with Some i => (i < length (members b))%nat | None => members b = [] end).
  { unfold first_member_index. destruct (members b); [done | simpl; lia]. }
  assert (Hnth : forall n, alive_count b states <> 0%nat ->
    match nth_alive_index b states (Z.to_nat (n mod Z.of_nat (alive_count b states))) with
    | Some i => (i < length (members b))%nat | None => members b = [] end).
  { intros n Ha. unfold nth_alive_index. rewrite nth_alive_spec, alive_count_spec in *. fold (alive_indices b states).
    pose proof (Z.mod_pos_bound n (Z.of_nat (length (alive_indices b states))) ltac:(lia)) as Hb.
    destruct (lookup_lt_is_Some_2 (alive_indices b states) (Z.to_nat (n mod Z.of_nat (length (alive_indices b states))))) as [i Hi]; [lia |].
    rewrite Hi. apply list_elem_of_lookup_2 in Hi. apply alive_indices_spec in Hi as (m & Hm & _). by eapply lookup_lt_Some. }
  unfold pick_member_index. destruct (strategy b) eqn:Es.
  - cbn [snd]. pose proof (pick_latency_ok b states) as Hl. destruct (pick_latency_index b states) as [i |]; [| done].
    destruct (decide _); [destruct Hl as [-> Hne]; destruct (members b); [done | simpl; lia] | destruct Hl as (m & Hm & _); by eapply lookup_lt_Some].
  - destruct (Nat.eqb_spec (alive_count b states) 0); [done | by apply Hnth].
  - destruct (Nat.eqb_spec (alive_count b states) 0); [done | by apply Hnth].
  - by apply pick_adaptive_range.
Qed.

(** The balancer over all interleavings.  Whatever connections pick and end in whatever
    order, with any health tables: every member has its entry, the current member exists, the
    attempts and successes of a member are what its statistics counted, and a pick gives a
    member of the list, or none exactly when the list is empty, so [connect] never indexes
    outside it. *)
Theorem balancer_invariant (strat : bytes) profiles adaptive tags (evs : list BalancerEvent) states now :
  let '(b, r0) := balancer_new strat profiles adaptive tags in
  let r := foldl (balancer_step b) r0 evs in
  balancer_inv b r
  /\ match (pick_member_index b states now r).2 with
     | Some i => (i < length (members b))%nat
     | None => members b = []
     end.
Proof.
  destruct (balancer_new strat profiles adaptive tags) as [b r0] eqn:E.
  assert (H0 : balancer_inv b r0).
  { injection E as <- <-. split_and!; cbn; [by rewrite length_replicate, length_fmap | unfold is_u; lia | done |].
    intros i s (-> & _)%lookup_replicate. by split_and!. }
  assert (Hinv : balancer_inv b (foldl (balancer_step b) r0 evs)).
  { clear E. revert r0 H0. induction evs as [| ev evs IH]; intros r0 H0; [done |]. cbn [foldl]. apply IH.
    destruct ev as [st n | n i el ok]; cbn [balancer_step]; [| by apply observe_inv]. unfold pick_member_index.
    assert (Hn : balancer_inv b (next_counter r0)).
    { destruct H0 as (? & ? & ? & ?). split_and!; try done. unfold is_u, wrap. cbn. apply Z.mod_pos_bound. lia. }
    destruct (strategy b); [done | by destruct (_ =? _)%nat | by destruct (_ =? _)%nat | by apply pick_adaptive_inv]. }
  split; [done |]. set (r := foldl _ _ _) in *. clearbody r. by apply pick_in_range.
Qed.

(** Two members, the first of them slow. *)
Definition toy_balancer (s : string) : BalancerSetup := (balancer_new (lit s) [] None [[1]; [2]]).1.
Definition toy_states : HealthStates := <[[1] := mkHealth true 900 0 0]> (<[[2] := mkHealth true 20 0 0]> ∅).
Definition toy_balancer_state : BalancerState := (balancer_new [] [] None [[1]; [2]]).2.

Lemma balancer_choice_witness :
  (pick_member_index (toy_balancer "latency") toy_states 0 toy_balancer_state).2 = Some 1%nat
  /\ rotates (toy_balancer "roundRobin") toy_states 0 toy_balancer_state
  /\ rotates (toy_balancer "random") toy_states 0 toy_balancer_state.
Proof.
  split; [reflexivity |]. split.
  - exact (balancer_choice (toy_balancer "roundRobin") toy_states 0 toy_balancer_state ltac:(by vm_compute) ltac:(by vm_compute)).
  - refine (balancer_choice (toy_balancer "random") toy_states 0 toy_balancer_state _ _ 1 _ _); by vm_compute.
Defined.

Lemma balancer_adaptive_witness :
  (pick_member_index (toy_balancer "adaptive") toy_states 0 toy_balancer_state).2 = Some 1%nat
  /\ forall j y, candidate (toy_balancer "adaptive") toy_states 0 (members (toy_balancer "adaptive")) (replicate 2 adaptive_new) j y ->
       SFltb (adaptive_score (toy_balancer "adaptive") toy_states (mkMember [2] [2]) adaptive_new) y = false.
Proof.
  assert (E : (pick_member_index (toy_balancer "adaptive") toy_states 0 toy_balancer_state).2 = Some 1%nat) by (vm_compute; reflexivity).
  split; [exact E |].
  pose proof (balancer_adaptive (toy_balancer "adaptive") toy_states 0 toy_balancer_state eq_refl eq_refl) as H.
  cbn zeta in H. rewrite E in H. destruct H as (_ & _ & [(x & (m & s & Hm & Hs & _ & ->) & [H | [H _]]) | [H _]]); [| discriminate H..].
  assert (Est : (apply_probe_cooldowns (toy_balancer "adaptive") toy_states 0 (b_adaptive toy_balancer_state)).1 = replicate 2 adaptive_new)
    by (vm_compute; reflexivity).
  rewrite Est in *. injection Hm as <-. injection Hs as <-. exact H.
Defined.
