(* ===== verification/HttpConnect.v ===== *)
(** HTTP CONNECT ([http_connect.rs]): the request line, the header block and the tunnel that
    is handed on; before it, how the standard library reads IP addresses. *)

From stdpp Require Import base list strings numbers.
From S2P Require Import Prelude Text Address Socks.

(** * Textual IP addresses *)

(** [Ipv4Addr] and [Ipv6Addr] as [str::parse] reads them: each reader takes characters from
    the front, or none. *)
Definition reader (A : Type) : Type := bytes -> option (A * bytes).

Definition to_digit (radix b : Z) : option Z :=
  let d := if (48 <=? b) && (b <=? 57) then Some (b - 48)
           else if (97 <=? b) && (b <=? 122) then Some (b - 87)
           else if (65 <=? b) && (b <=? 90) then Some (b - 55) else None in
  match d with Some d => if d <? radix then Some d else None | None => None end.

(** The digits at the front: value, number of digits, rest. *)
Fixpoint take_digits (radix : Z) (s : bytes) (acc : Z) (n : nat) : Z * nat * bytes :=
  match s with
  | b :: s' => match to_digit radix b with Some d => take_digits radix s' (acc * radix + d) (S n) | None => (acc, n, s) end
  | [] => (acc, n, s)
  end.

Definition read_number (radix : Z) (max_digits : nat) (allow_zero_prefix : bool) (bound : Z) : reader Z := fun s =>
  let '(v, n, rest) := take_digits radix s 0 0 in
  if (max_digits <? n)%nat then None
  else if (n =? 0)%nat then None
  else if negb allow_zero_prefix && bool_decide (head s = Some 48) && (1 <? n)%nat then None
  else if v <? bound then Some (v, rest) else None.

Definition read_char (c : Z) : reader unit := fun s =>
  match s with b :: s => if b =? c then Some (tt, s) else None | [] => None end.

(** [read_separator(c, index, inner)]. *)
Definition read_separator {A} (c : Z) (first : bool) (inner : reader A) : reader A := fun s =>
  if first then inner s else match read_char c s with Some (_, s) => inner s | None => None end.

Definition read_octet (first : bool) : reader Z := read_separator 46 first (read_number 10 3 false 256).

Definition read_ipv4_addr : reader bytes := fun s =>
  '(a, s) ← read_octet true s;
  '(b, s) ← read_octet false s;
  '(c, s) ← read_octet false s;
  '(d, s) ← read_octet false s;
  Some ([a; b; c; d], s).

Definition parse_ipv4 (s : bytes) : option bytes :=
  if 15 <? zlen s then None
  else match read_ipv4_addr s with Some (ip, []) => Some ip | _ => None end.

(** [read_groups]: the bytes of the groups read, whether an IPv4 address ended them, and the
    rest; [left] groups may be read. *)
Fixpoint read_groups (left : nat) (first : bool) (s : bytes) : bytes * bool * bytes :=
  match left with
  | O => ([], false, s)
  | S left' =>
      let v4 := if (1 <? left)%nat then read_separator 58 first read_ipv4_addr s else None in
      match v4 with
      | Some (ip, s) => (ip, true, s)
      | None =>
          match read_separator 58 first (read_number 16 4 true 65536) s with
          | Some (g, s) => let '(gs, v4, s) := read_groups left' false s in (be_bytes 2 g ++ gs, v4, s)
          | None => ([], false, s)
          end
      end
  end.

Definition read_ipv6_addr : reader bytes := fun s =>
  let '(hd, v4, s) := read_groups 8 true s in
  if (length hd =? 16)%nat then Some (hd, s)
  else if (v4 : bool) then None
  else
    '(_, s) ← read_char 58 s;
    '(_, s) ← read_char 58 s;
    let '(tl, _, s) := read_groups (7 - length hd / 2) true s in
    Some (hd ++ replicate (16 - length hd - length tl) 0 ++ tl, s).

Definition parse_ipv6 (s : bytes) : option bytes :=
  match read_ipv6_addr s with Some (ip, []) => Some ip | _ => None end.

(** [Display] of an IPv4 address. *)
Definition ipv4_to_string (ip : bytes) : bytes :=
  match ip with
  | [a; b; c; d] => u64_to_string a ++ [46] ++ u64_to_string b ++ [46] ++ u64_to_string c ++ [46] ++ u64_to_string d
  | _ => []
  end.

(** * The request *)

Definition MAX_HEADER_BYTES : Z := 8192.

(** A line with its end, and the rest. *)
Fixpoint split_line (s : bytes) : bytes * bytes :=
  match s with
  | [] => ([], [])
  | b :: s => if b =? 10 then ([b], s) else let '(l, r) := split_line s in (b :: l, r)
  end.

(** [AsyncBufReadExt::read_line]: up to and with the next line feed, or the end. *)
Definition read_line : parser ProxyError bytes := fun s =>
  let '(line, rest) := split_line s in
  if utf8_valid line then Ok (line, rest) else Err (Io InvalidData).

(** Reads header lines until the blank one; [total] are the bytes read so far. *)
Fixpoint drain_headers (fuel : nat) (total : Z) : parser ProxyError unit :=
  match fuel with
  | O => fun _ => NoFuel
  | S fuel =>
      line ← read_line;
      if zlen line =? 0 then pfail (Protocol "HTTP CONNECT: unexpected EOF in headers")
      else
        let total := total + zlen line in
        if total >? MAX_HEADER_BYTES then pfail (Protocol "HTTP CONNECT: headers too large")
        else if bytes_eqb line [13; 10] || bytes_eqb line [10] then mret tt
        else drain_headers fuel total
  end.

Definition eq_ignore_ascii_case (a b : bytes) : bool := bytes_eqb (to_ascii_lowercase a) (to_ascii_lowercase b).

(** [trim_matches] for the two brackets. *)
Definition is_bracket (b : Z) : bool := (b =? 91) || (b =? 93).

Fixpoint trim_brackets_start (s : bytes) : bytes :=
  match s with b :: s' => if is_bracket b then trim_brackets_start s' else s | [] => [] end.

Definition trim_brackets (s : bytes) : bytes :=
  reverse (trim_brackets_start (reverse (trim_brackets_start s))).

Definition parse_host (host : bytes) (port : Z) : Address :=
  match parse_ipv4 host with
  | Some ip => Ipv4 ip port
  | None => match parse_ipv6 host with Some ip => Ipv6 ip port | None => Domain host port end
  end.

Definition parse_request_line (line : bytes) : res ProxyError Address :=
  let parts := split_on 32 line in
  let method := default [] (head parts) in
  if negb (eq_ignore_ascii_case method (lit "CONNECT")) then
    Err (Protocol "HTTP CONNECT: expected CONNECT method")
  else
    target ← ok_or (parts !! 1%nat) (Protocol "HTTP CONNECT: missing target");
    '(host, port_str) ← ok_or (rsplit_once 58 target) (Protocol "HTTP CONNECT: malformed target (no port)");
    port ← ok_or (parse_u16 port_str) (Protocol "HTTP CONNECT: invalid port");
    let host := trim_brackets host in
    if zlen host =? 0 then Err (Protocol "HTTP CONNECT: empty host in target")
    else Ok (parse_host host port).

(** What is left of the stream, buffered bytes first, is the tunnel. *)
Definition parse_connect_request : parser ProxyError Address := fun s =>
  (first_line ← read_line;
   if zlen first_line =? 0 then pfail (Protocol "HTTP CONNECT: unexpected EOF")
   else
     _ ← drain_headers (S (length s)) (zlen first_line);
     plift (parse_request_line (trim first_line))) s.

Definition CONNECT_OK : bytes := lit "HTTP/1.1 200 Connection established" ++ [13; 10; 13; 10].

(** [handle], up to the dispatcher: the destination that is dispatched. *)
Definition http_connect_handle : duplexM Address :=
  dest ← recv parse_connect_request;
  _ ← write_all CONNECT_OK;
  mret dest.

(** * IPv4 addresses are read back *)

Lemma take_digits_app l s : forall acc n, Forall (fun b => 48 <= b <= 57) l ->
  take_digits 10 (l ++ s) acc n = take_digits 10 s (foldl (fun acc b => acc * 10 + (b - 48)) acc l) (n + length l).
Proof.
  induction l as [| b l IH]; intros acc n Hl; cbn [app take_digits foldl length]; [by rewrite Nat.add_0_r |].
  apply Forall_cons_iff in Hl as [Hb Hl]. unfold to_digit.
  replace ((48 <=? b) && (b <=? 57)) with true by lia. replace (b - 48 <? 10) with true by lia.
  rewrite IH by done. f_equal. lia.
Qed.

(** The text of an octet, for all of them. *)
Lemma octet_text n : 0 <= n < 256 ->
  let s := u64_to_string n in
  foldl (fun acc b => acc * 10 + (b - 48)) 0 s = n /\ (1 <= length s <= 3)%nat /\ (head s = Some 48 -> length s = 1%nat).
Proof.
  intros Hn. assert (Hall : forallb (fun i => let s := u64_to_string (Z.of_nat i) in
    (foldl (fun acc b => acc * 10 + (b - 48)) 0 s =? Z.of_nat i) && (1 <=? length s)%nat && (length s <=? 3)%nat
    && (negb (bool_decide (head s = Some 48)) || (length s =? 1)%nat)) (seq 0 256) = true) by (vm_compute; reflexivity).
  rewrite forallb_forall in Hall. specialize (Hall (Z.to_nat n)). rewrite in_seq in Hall. specialize (Hall ltac:(lia)).
  cbn zeta in Hall. rewrite Z2Nat.id in Hall by lia. rewrite !andb_true_iff, orb_true_iff, negb_true_iff in Hall.
  destruct Hall as [[[H1 H2] H3] H4]. apply Z.eqb_eq in H1. apply Nat.leb_le in H2, H3. split_and!; [done | done | done |].
  intros Hh. destruct H4 as [H4 | H4]; [by rewrite bool_decide_eq_false in H4 | by apply Nat.eqb_eq].
Qed.

Lemma read_octet_text first n s :
  0 <= n < 256 -> match s with b :: _ => b = 46 | [] => True end ->
  read_octet first ((if first then [] else [46]) ++ u64_to_string n ++ s) = Some (n, s).
Proof.
  intros Hn Hs. destruct (octet_text n Hn) as (H1 & H2 & H3).
  assert (H : read_number 10 3 false 256 (u64_to_string n ++ s) = Some (n, s)).
  { unfold read_number. rewrite take_digits_app by (apply u64_to_string_chars; lia). rewrite H1.
    replace (take_digits 10 s n (0 + length (u64_to_string n))) with (n, length (u64_to_string n), s) by (by destruct s; [| subst]).
    rewrite (proj2 (Nat.ltb_ge _ _)) by lia. rewrite (proj2 (Nat.eqb_neq _ _)) by lia. cbn [negb andb].
    rewrite (proj2 (Z.ltb_lt n 256)) by lia. case_bool_decide as Hh; [| done]. rewrite H3; [done |].
    destruct (u64_to_string n); [simpl in H2; lia | done]. }
  unfold read_octet, read_separator. destruct first; cbn [app]; [done |]. cbn [read_char]. done.
Qed.

Lemma read_octet_first n s :
  0 <= n < 256 -> match s with b :: _ => b = 46 | [] => True end -> read_octet true (u64_to_string n ++ s) = Some (n, s).
Proof. apply (read_octet_text true). Qed.

Lemma read_octet_next n s :
  0 <= n < 256 -> match s with b :: _ => b = 46 | [] => True end -> read_octet false ([46] ++ u64_to_string n ++ s) = Some (n, s).
Proof. apply (read_octet_text false). Qed.

Lemma parse_ipv4_to_string ip : length ip = 4%nat -> bytes_ok ip -> parse_ipv4 (ipv4_to_string ip) = Some ip.
Proof.
  intros Hl Hok. do 5 (destruct ip as [| ? ip]; try done). unfold bytes_ok in Hok. rewrite !Forall_cons_iff in Hok.
  destruct Hok as (Ha & Hb & Hc & Hd & _). unfold is_u in *. change (2 ^ 8) with 256 in *. unfold parse_ipv4, ipv4_to_string.
  destruct (octet_text z Ha) as (_ & L1 & _), (octet_text z0 Hb) as (_ & L2 & _), (octet_text z1 Hc) as (_ & L3 & _), (octet_text z2 Hd) as (_ & L4 & _).
  rewrite (proj2 (Z.ltb_ge _ _)) by (unfold zlen; rewrite !length_app; cbn [length]; lia). unfold read_ipv4_addr.
  rewrite read_octet_first by done. cbn [mbind option_bind]. do 2 (rewrite read_octet_next by done; cbn [mbind option_bind]).
  rewrite <- (app_nil_r (u64_to_string z2)). by rewrite read_octet_next.
Qed.

(** * The request of a client *)

Lemma split_line_app l r : 10 ∉ l -> split_line (l ++ 10 :: r) = (l ++ [10], r).
Proof.
  induction l as [| b l IH]; intros Hn; [done |]. cbn [app split_line]. apply not_elem_of_cons in Hn as [Hb Hn].
  rewrite (proj2 (Z.eqb_neq b 10)) by done. by rewrite IH.
Qed.

Lemma read_line_crlf l r :
  10 ∉ l -> utf8_valid (l ++ [13; 10]) = true -> read_line (l ++ [13; 10] ++ r) = Ok (l ++ [13; 10], r).
Proof.
  intros Hn Hu. unfold read_line. replace (l ++ [13; 10] ++ r) with ((l ++ [13]) ++ 10 :: r) by (by rewrite <- app_assoc).
  rewrite split_line_app.
  - rewrite <- app_assoc. cbn [app]. by rewrite Hu.
  - rewrite elem_of_app, list_elem_of_singleton. naive_solver.
Qed.

Definition header_ok (l : bytes) : Prop := l <> [] /\ (10 ∉ l) /\ utf8_valid (l ++ [13; 10]) = true.

#[global] Instance header_ok_dec l : Decision (header_ok l).
Proof. unfold header_ok. apply _. Defined.

Definition header_block (ls : list bytes) : bytes := concat ((fun l => l ++ [13; 10]) <$> ls) ++ [13; 10].

Lemma header_block_len ls : (length ls <= length (header_block ls))%nat.
Proof.
  unfold header_block. rewrite length_app. induction ls as [| l ls IH]; [simpl; lia |].
  cbn [fmap list_fmap concat]. rewrite !length_app. cbn [length] in *. lia.
Qed.

Lemma drain_headers_ok ls k : Forall header_ok ls -> forall fuel total,
  (length ls < fuel)%nat ->
  drain_headers fuel total (header_block ls ++ k)
  = if total + zlen (header_block ls) >? MAX_HEADER_BYTES then Err (Protocol "HTTP CONNECT: headers too large") else Ok (tt, k).
Proof.
  induction 1 as [| l ls (Hne & Hn & Hu) Hls IH]; intros fuel total Hf; (destruct fuel as [| fuel]; [simpl in Hf; lia |]); cbn [drain_headers].
  - unfold header_block. cbn [fmap list_fmap concat app].
    erewrite pbind_ok by (apply (read_line_crlf [] k); [by apply not_elem_of_nil | done]). cbn [app].
    change (zlen [13; 10] =? 0) with false. change (bytes_eqb [13; 10] [13; 10] || _) with true. by destruct (_ >? _).
  - unfold header_block. cbn [fmap list_fmap concat]. rewrite <- !app_assoc.
    erewrite pbind_ok by (by apply read_line_crlf). fold (header_block ls). rewrite app_assoc. fold (header_block ls).
    rewrite (proj2 (Z.eqb_neq _ 0)) by len_solve.
    assert (Hz : zlen (l ++ [13; 10] ++ header_block ls) = zlen (l ++ [13; 10]) + zlen (header_block ls)) by (rewrite app_assoc, zlen_app; done).
    rewrite Hz. pose proof (zlen_nonneg (header_block ls)). rewrite !Z.gtb_ltb.
    destruct (Z.ltb_spec MAX_HEADER_BYTES (total + zlen (l ++ [13; 10]))).
    { rewrite (proj2 (Z.ltb_lt _ _)) by lia. done. }
    replace (bytes_eqb (l ++ [13; 10]) [13; 10] || bytes_eqb (l ++ [13; 10]) [10]) with false.
    2:{ symmetry. apply orb_false_iff. unfold bytes_eqb. split; apply bool_decide_eq_false_2; intros E; apply (f_equal length) in E;
          rewrite length_app in E; simpl in E; destruct l; simpl in E; (done || lia). }
    rewrite IH by (simpl in Hf; lia). rewrite Z.gtb_ltb. by replace (total + zlen (l ++ [13; 10]) + zlen (header_block ls))
      with (total + (zlen (l ++ [13; 10]) + zlen (header_block ls))) by lia.
Qed.

Lemma connect_split_on_app c l r : c ∉ l -> split_on c (l ++ c :: r) = l :: split_on c r.
Proof.
  induction l as [| b l IH]; intros Hn; cbn [app split_on]; [by rewrite Z.eqb_refl |].
  apply not_elem_of_cons in Hn as [Hb Hn]. by rewrite (proj2 (Z.eqb_neq b c)), IH by done.
Qed.

(** A line from its first visible character to its last, with its end. *)
Lemma trim_line b s c : 33 <= b <= 126 -> 33 <= c <= 126 -> trim (b :: s ++ [c; 13; 10]) = b :: s ++ [c].
Proof.
  intros Hb Hc. unfold trim, trim_start. cbn [length trim_with]. rewrite ws_len_graphic by done. unfold trim_end.
  change (b :: s ++ [c; 13; 10]) with ((b :: s) ++ [c] ++ [13; 10]). rewrite !length_app, !reverse_app.
  change (reverse [13; 10]) with [10; 13]. change (reverse [c]) with [c]. cbn [length]. rewrite Nat.add_comm. cbn [Nat.add app trim_with].
  change (ws_len (reverse <$> ws_chars) (10 :: 13 :: c :: reverse (b :: s))) with (Some 1%nat).
  cbn [drop]. change (ws_len (reverse <$> ws_chars) (13 :: c :: reverse (b :: s))) with (Some 1%nat). cbn [drop].
  rewrite ws_len_graphic_rev by done. rewrite reverse_cons, reverse_involutive. done.
Qed.

Definition connect_request (host : bytes) (port : Z) (headers : list bytes) : bytes :=
  lit "CONNECT " ++ host ++ [58] ++ u64_to_string port ++ lit " HTTP/1.1" ++ [13; 10] ++ header_block headers.

Lemma first_line_parse host port :
  graphic host -> is_u 16 port ->
  parse_request_line (trim (lit "CONNECT " ++ host ++ [58] ++ u64_to_string port ++ lit " HTTP/1.1" ++ [13; 10]))
  = if zlen (trim_brackets host) =? 0 then Err (Protocol "HTTP CONNECT: empty host in target")
    else Ok (parse_host (trim_brackets host) port).
Proof.
  intros Hg Hp. set (target := host ++ [58] ++ u64_to_string port).
  assert (Hdig : Forall (fun b => 48 <= b <= 57) (u64_to_string port)) by (apply u64_to_string_chars; apply Hp).
  assert (Ht : 32 ∉ target).
  { intros H. unfold target in H. rewrite !elem_of_app, list_elem_of_singleton in H. destruct H as [H | [H | H]]; [| done |].
    - pose proof (proj1 (list.Forall_forall _ _) Hg _ H) as Hx. cbn in Hx. lia.
    - pose proof (proj1 (list.Forall_forall _ _) Hdig _ H) as Hx. cbn in Hx. lia. }
  replace (lit "CONNECT " ++ host ++ [58] ++ u64_to_string port ++ lit " HTTP/1.1" ++ [13; 10])
    with (67 :: (lit "ONNECT " ++ target ++ lit " HTTP/1.") ++ [49; 13; 10]).
  2:{ unfold target. rewrite <- !app_assoc. done. }
  rewrite trim_line by lia.
  replace (67 :: (lit "ONNECT " ++ target ++ lit " HTTP/1.") ++ [49]) with (lit "CONNECT" ++ 32 :: target ++ 32 :: lit "HTTP/1.1")
    by (rewrite <- !app_assoc; done).
  unfold parse_request_line. rewrite connect_split_on_app by (vm_compute; intros H; repeat (apply elem_of_cons in H as [? | H]; [done |]); by apply elem_of_nil in H).
  rewrite connect_split_on_app by done. cbn [head default from_option id lookup list_lookup].
  change (eq_ignore_ascii_case (lit "CONNECT") (lit "CONNECT")) with true. cbn [negb ok_or mbind res_bind].
  unfold target. change (host ++ [58] ++ u64_to_string port) with (host ++ 58 :: u64_to_string port).
  rewrite rsplit_once_app. 2:{ intros H. pose proof (proj1 (list.Forall_forall _ _) Hdig _ H) as Hx. cbn in Hx. lia. }
  cbn [ok_or mbind res_bind]. unfold parse_u16. rewrite parse_uint_to_string by done. done.
Qed.

(** HTTP CONNECT.  A request for a host and port with any headers, of at most 8192 bytes in
    all, is answered with 200 and dispatched to that destination, an address when the host is
    one, and the tunnel begins exactly after the header block; a longer one is refused and
    nothing is written. *)
Theorem http_connect_ok (host : bytes) (port : Z) (headers : list bytes) (payload out : bytes) :
  graphic host -> trim_brackets host <> [] -> is_u 16 port -> Forall header_ok headers ->
  let req := connect_request host port headers in
  http_connect_handle (mkDuplex (req ++ payload) out)
  = if zlen req >? MAX_HEADER_BYTES
    then (mkDuplex (req ++ payload) out, Err (Protocol "HTTP CONNECT: headers too large"))
    else (mkDuplex payload (out ++ CONNECT_OK), Ok (parse_host (trim_brackets host) port)).
Proof.
  intros Hg Hne Hp Hh req. set (l0 := lit "CONNECT " ++ host ++ [58] ++ u64_to_string port ++ lit " HTTP/1.1").
  assert (Hasc : is_ascii (l0 ++ [13; 10])).
  { unfold l0. unfold is_ascii. rewrite !Forall_app. split_and!; [decided | | decided | | decided | decided].
    - revert Hg. apply Forall_impl. lia.
    - assert (H := u64_to_string_chars port ltac:(apply Hp)). revert H. apply Forall_impl. lia. }
  assert (Hnl : 10 ∉ l0).
  { unfold l0. rewrite !elem_of_app. intros [H | [H | [H | [H | H]]]].
    1,3,5: vm_compute in H; repeat (apply elem_of_cons in H as [? | H]; [done |]); by apply elem_of_nil in H.
    - pose proof (proj1 (list.Forall_forall _ _) Hg _ H) as Hx. cbn in Hx. lia.
    - pose proof (proj1 (list.Forall_forall _ _) (u64_to_string_chars port ltac:(apply Hp)) _ H) as Hx. cbn in Hx. lia. }
  assert (Er : req = l0 ++ [13; 10] ++ header_block headers) by (unfold req, connect_request, l0; by rewrite <- !app_assoc).
  assert (Eparse : parse_connect_request (req ++ payload)
    = if zlen req >? MAX_HEADER_BYTES then Err (Protocol "HTTP CONNECT: headers too large") else Ok (parse_host (trim_brackets host) port, payload)).
  { unfold parse_connect_request. replace (req ++ payload) with (l0 ++ [13; 10] ++ header_block headers ++ payload)
      by (rewrite Er, <- !app_assoc; done).
    erewrite pbind_ok by (apply read_line_crlf; [done | by apply utf8_valid_ascii]).
    rewrite (proj2 (Z.eqb_neq _ 0)) by len_solve. unfold mbind at 1, parser_bind at 1. rewrite drain_headers_ok; [| done |].
    2:{ rewrite !length_app. pose proof (header_block_len headers). lia. }
    replace (zlen (l0 ++ [13; 10]) + zlen (header_block headers)) with (zlen req) by (rewrite Er, app_assoc, zlen_app; done).
    destruct (_ >? _); [done |]. unfold plift.
    assert (El : l0 ++ [13; 10] = lit "CONNECT " ++ host ++ [58] ++ u64_to_string port ++ lit " HTTP/1.1" ++ [13; 10])
      by (unfold l0; by rewrite <- !app_assoc).
    rewrite El, first_line_parse by done.
    by rewrite (proj2 (Z.eqb_neq _ 0)) by (destruct (trim_brackets host); [done |]; len_solve). }
  unfold http_connect_handle, mbind, stE_bind, recv. cbn [input]. rewrite Eparse. by destruct (_ >? _).
Qed.

Lemma http_connect_ok_witness :
  http_connect_handle (mkDuplex (connect_request (lit "10.0.0.1") 443 [lit "Host: x"] ++ [22; 3; 1]) [])
  = (mkDuplex [22; 3; 1] CONNECT_OK, Ok (Ipv4 [10; 0; 0; 1] 443)).
Proof.
  exact (http_connect_ok (lit "10.0.0.1") 443 [lit "Host: x"] [22; 3; 1] [] ltac:(decided) ltac:(by vm_compute) ltac:(decided) ltac:(decided)).
Defined.

(** * Every input *)

Lemma to_digit_bound radix b d : to_digit radix b = Some d -> 0 <= d < radix.
Proof.
  unfold to_digit. destruct ((48 <=? b) && (b <=? 57)) eqn:E1; [| destruct ((97 <=? b) && (b <=? 122)) eqn:E2;
    [| destruct ((65 <=? b) && (b <=? 90)) eqn:E3; [| done]]]; intros H;
    (match type of H with (if ?c then _ else _) = _ => destruct c eqn:E end; [injection H as <- | done]; lia).
Qed.

Lemma take_digits_nonneg radix s : 0 < radix -> forall acc n, 0 <= acc -> 0 <= (take_digits radix s acc n).1.1.
Proof.
  intros Hr. induction s as [| b s IH]; intros acc n Ha; cbn [take_digits]; [done |].
  destruct (to_digit radix b) as [d |] eqn:E; [| done]. apply IH. apply to_digit_bound in E. nia.
Qed.

Lemma read_number_bound radix k z bound s v r : 0 < radix -> read_number radix k z bound s = Some (v, r) -> 0 <= v < bound.
Proof.
  intros Hr. unfold read_number. pose proof (take_digits_nonneg radix s Hr 0 0 ltac:(lia)) as H.
  destruct (take_digits radix s 0 0) as [[v' n] r']. cbn [fst] in H. destruct (k <? n)%nat, (n =? 0)%nat; try done. destruct (negb z && _ && _); try done.
  destruct (Z.ltb_spec v' bound); [| done]. intros [= <- <-]. lia.
Qed.

Lemma read_ipv4_ok s ip r : read_ipv4_addr s = Some (ip, r) -> length ip = 4%nat /\ bytes_ok ip.
Proof.
  assert (Ho : forall f s v r, read_octet f s = Some (v, r) -> is_u 8 v).
  { intros f s' v r'. unfold read_octet, read_separator. destruct f; [intros H; by eapply read_number_bound in H |].
    destruct (read_char 46 s') as [[] |]; [| done]. intros H. by eapply read_number_bound in H. }
  unfold read_ipv4_addr. destruct (read_octet true s) as [[a s1] |] eqn:E1; cbn [mbind option_bind]; [| discriminate].
  destruct (read_octet false s1) as [[b s2] |] eqn:E2; cbn [mbind option_bind]; [| discriminate].
  destruct (read_octet false s2) as [[c s3] |] eqn:E3; cbn [mbind option_bind]; [| discriminate].
  destruct (read_octet false s3) as [[d s4] |] eqn:E4; cbn [mbind option_bind]; [| discriminate].
  intros [= <- <-]. split; [reflexivity |]. apply Ho in E1, E2, E3, E4. do 4 (apply bytes_ok_cons; split; [done |]). constructor.
Qed.

Lemma read_groups_ok left : forall first s,
  let gs := (read_groups left first s).1.1 in
  (length gs <= 2 * left)%nat /\ bytes_ok gs /\ (length gs mod 2 = 0)%nat.
Proof.
  induction left as [| left IH]; intros first s gs; [split_and!; [simpl; lia | constructor | done] |].
  unfold gs. clear gs. cbn [read_groups].
  destruct (if (1 <? S left)%nat then read_separator 58 first read_ipv4_addr s else None) as [[ip r] |] eqn:Ev.
  - destruct (Nat.ltb_spec 1 (S left)); [| done].
    assert (Hip : exists s', read_ipv4_addr s' = Some (ip, r)).
    { unfold read_separator in Ev. destruct first; [by eexists |]. destruct (read_char 58 s) as [[] |]; [by eexists | done]. }
    destruct Hip as [s' Hip]. apply read_ipv4_ok in Hip as [Hl Hb]. cbn [fst]. rewrite Hl. split_and!; [lia | done | done].
  - destruct (read_separator 58 first (read_number 16 4 true 65536) s) as [[g r] |].
    + destruct (IH false r) as (H1 & H2 & H3). destruct (read_groups left false r) as [[gs v4] r']. cbn [fst] in *.
      rewrite length_app, length_be_bytes. split_and!; [lia | apply bytes_ok_app; split; [apply be_bytes_ok | done] |].
      by rewrite Nat.Div0.add_mod, H3.
    + cbn [fst]. split_and!; [simpl; lia | constructor | done].
Qed.

Lemma read_ipv6_ok s ip r : read_ipv6_addr s = Some (ip, r) -> length ip = 16%nat /\ bytes_ok ip.
Proof.
  unfold read_ipv6_addr. pose proof (read_groups_ok 8 true s) as H. destruct (read_groups 8 true s) as [[hd v4] s1].
  destruct H as (H1 & H2 & H3). cbn [fst] in *. destruct (Nat.eqb_spec (length hd) 16); [by intros [= <- <-] |]. destruct v4; [done |].
  destruct (read_char 58 s1) as [[[] s2] |]; cbn [mbind option_bind]; [| done].
  destruct (read_char 58 s2) as [[[] s3] |]; cbn [mbind option_bind]; [| done].
  pose proof (read_groups_ok (7 - length hd / 2) true s3) as Ht. destruct (read_groups (7 - length hd / 2) true s3) as [[tl v] s4].
  destruct Ht as (T1 & T2 & T3). cbn [fst] in *. intros [= <- <-].
  assert (Hh : (length hd = 2 * (length hd / 2))%nat) by (pose proof (Nat.div_mod (length hd) 2 ltac:(lia)); lia).
  rewrite !length_app, length_replicate. split; [lia |]. rewrite !bytes_ok_app. split_and!; [done | | done].
  apply Forall_replicate. unfold is_u. lia.
Qed.

(** An address as it is parsed: octets that fit, a name that is not empty. *)
Definition parsed_ok (a : Address) : Prop :=
  match a with
  | Ipv4 ip p => zlen ip = 4 /\ bytes_ok ip /\ is_u 16 p
  | Ipv6 ip p => zlen ip = 16 /\ bytes_ok ip /\ is_u 16 p
  | Domain n p => n <> [] /\ is_u 16 p
  end.

Lemma parse_host_ok host port : host <> [] -> is_u 16 port -> parsed_ok (parse_host host port).
Proof.
  intros Hne Hp. unfold parse_host, parse_ipv4, parse_ipv6. destruct (15 <? zlen host).
  2: destruct (read_ipv4_addr host) as [[ip [|]] |] eqn:E;
    [apply read_ipv4_ok in E as [Hl Hb]; by split_and!; [unfold zlen; lia | |] | |].
  all: destruct (read_ipv6_addr host) as [[ip6 [|]] |] eqn:E6;
    [apply read_ipv6_ok in E6 as [Hl Hb]; by split_and!; [unfold zlen; lia | |] | done | done].
Qed.

Lemma split_line_spec s : forall l r, split_line s = (l, r) -> s = l ++ r /\ (l = [] -> s = []).
Proof.
  induction s as [| b s IH]; intros l r; cbn [split_line]; [by intros [= <- <-] |].
  destruct (b =? 10); [by intros [= <- <-] |]. destruct (split_line s) as [l' r']. intros [= <- <-].
  destruct (IH l' r' eq_refl) as [-> _]. done.
Qed.

Lemma read_line_spec s l r : read_line s = Ok (l, r) -> s = l ++ r.
Proof. unfold read_line. destruct (split_line s) as [l' r'] eqn:E. destruct (utf8_valid l'); [| done]. intros [= <- <-]. by apply split_line_spec in E as [-> _]. Qed.

Lemma drain_headers_safe fuel : forall total s, (length s < fuel)%nat ->
  match drain_headers fuel total s with
  | Ok (_, r) => exists l, s = l ++ r
  | Err _ => True
  | _ => False
  end.
Proof.
  induction fuel as [| fuel IH]; intros total s Hf; [lia |]. cbn [drain_headers]. unfold mbind at 1, parser_bind at 1.
  destruct (read_line s) as [[l r] | | |] eqn:E; [| done | |]; [| by unfold read_line in E; destruct (split_line s), (utf8_valid _)..].
  apply read_line_spec in E as ->. destruct (Z.eqb_spec (zlen l) 0) as [| Hz]; [done |]. destruct (_ >? _); [done |].
  destruct (_ || _); [by eexists |]. rewrite length_app in Hf. unfold zlen in Hz.
  specialize (IH (total + zlen l) r ltac:(lia)). destruct (drain_headers _ _ r) as [[? r'] | | |]; try done.
  destruct IH as [l' ->]. exists (l ++ l'). by rewrite app_assoc.
Qed.

(** The parser returns on every input, without a panic; an accepted request gives a
    well-formed destination, and the tunnel is a rest of the input. *)
Theorem http_connect_total (s : bytes) :
  match parse_connect_request s with
  | Ok (dest, rest) => parsed_ok dest /\ exists l, s = l ++ rest
  | Err _ => True
  | _ => False
  end.
Proof.
  unfold parse_connect_request, mbind at 1, parser_bind at 1.
  destruct (read_line s) as [[l r] | | |] eqn:E; [| done | |]; [| by unfold read_line in E; destruct (split_line s), (utf8_valid _)..].
  apply read_line_spec in E as ->. destruct (zlen l =? 0); [done |]. unfold mbind at 1, parser_bind at 1.
  pose proof (drain_headers_safe (S (length (l ++ r))) (zlen l) r) as Hd. rewrite length_app in *. specialize (Hd ltac:(lia)).
  destruct (drain_headers _ _ r) as [[[] r'] | | |]; try done. destruct Hd as [l' ->]. unfold plift.
  assert (Hp : match parse_request_line (trim l) with Ok a => parsed_ok a | Err _ => True | _ => False end).
  { unfold parse_request_line. destruct (negb _); [done |]. destruct (_ !! 1%nat) as [t |]; cbn [ok_or mbind res_bind]; [| done].
    destruct (rsplit_once 58 t) as [[h ps] |]; cbn [ok_or mbind res_bind]; [| done].
    destruct (parse_u16 ps) as [port |] eqn:Ep; cbn [ok_or mbind res_bind]; [| done].
    destruct (Z.eqb_spec (zlen (trim_brackets h)) 0) as [| Hz]; [done |]. apply parse_host_ok; [intros E; apply Hz; by rewrite E |].
    unfold parse_u16 in Ep. by apply parse_uint_range in Ep. }
  destruct (parse_request_line (trim l)); try done. split; [done |]. exists (l ++ l'). by rewrite app_assoc.
Qed.
