(* ===== verification/HttpUpgrade.v ===== *)
(** The HTTPUpgrade transport ([httpupgrade.rs]): the request of the client, the acceptance at the server, and the tunnel behind them.

    A connection is a duplex stream as in [Socks.v]; the client reads the answer with one read, whose length is an argument. *)

From stdpp Require Import base list strings numbers.
From S2P Require Import Prelude Text Address Socks HttpConnect.

Definition MAX_HEADER_BYTES : Z := 8192.

(** The settings the transport looks at; the headers in the order in which the map gives them. *)
Record WsConfig := mkWsConfig { ws_path : bytes; ws_headers : list (bytes * bytes) }.

Record StreamSettings := mkStreamSettings {
  httpupgrade_settings : option WsConfig;
  ws_settings : option WsConfig;
  tls_server_name : option bytes;
}.

Definition upgrade_settings (st : StreamSettings) : option WsConfig :=
  match httpupgrade_settings st with Some c => Some c | None => ws_settings st end.

Definition httpupgrade_path_host (st : StreamSettings) (dest_domain : bytes) : bytes * bytes :=
  let cfg := upgrade_settings st in
  let path := match cfg with Some c => ws_path c | None => lit "/" end in
  let from_headers := c ← cfg; kv ← List.find (fun kv => eq_ignore_ascii_case kv.1 (lit "host")) (ws_headers c); Some kv.2 in
  let from_tls := name ← tls_server_name st; if zlen name =? 0 then None else Some name in
  let host := match from_headers with Some h => h | None => match from_tls with Some h => h | None => dest_domain end end in
  (path, host).

Definition httpupgrade_listen_path (st : StreamSettings) : option bytes := ws_path <$> upgrade_settings st.

Definition EOL : bytes := [13; 10].

Definition upgrade_request (path host : bytes) : bytes :=
  lit "GET " ++ path ++ lit " HTTP/1.1" ++ EOL ++ lit "Host: " ++ host ++ EOL ++ lit "Connection: Upgrade" ++ EOL ++ lit "Upgrade: websocket" ++ EOL ++ EOL.

(** [dial_httpupgrade] on a connection: what is written, and the bytes the returned stream still gives.  [n] is what the one read of at most
    4096 bytes returns. *)
Definition dial_httpupgrade (st : StreamSettings) (dest_domain : bytes) (n : nat) (answer : bytes) : res ProxyError (bytes * bytes) :=
  let '(path, host) := httpupgrade_path_host st dest_domain in
  let response := take n answer in
  if negb (utf8_valid response) then Err (Protocol "HTTPUpgrade response not UTF-8")
  else if negb (is_prefix (lit "HTTP/1.1 101") response) && negb (is_prefix (lit "HTTP/1.0 101") response) then Err (Protocol "HTTPUpgrade expected 101")
  else Ok (upgrade_request path host, drop n answer).

(** [splitn(3, ' ')]: method, path, and the rest of the line. *)
Definition parse_get_line (line : bytes) : res ProxyError (bytes * bytes) :=
  match split_once 32 line with
  | None => Err (Protocol "HTTPUpgrade: missing path")
  | Some (method, rest) =>
      let path := match split_once 32 rest with Some (p, _) => p | None => rest end in
      if zlen path =? 0 then Err (Protocol "HTTPUpgrade: missing path")
      else
        match split_once 32 rest with
        | None => Err (Protocol "HTTPUpgrade: missing HTTP version")
        | Some _ => Ok (method, path)
        end
  end.

(** The header lines until the blank one: whether one of them starts with [upgrade:]. *)
Fixpoint upgrade_headers (fuel : nat) (total_bytes : Z) (has_upgrade : bool) : parser ProxyError bool :=
  match fuel with
  | O => fun _ => NoFuel
  | S fuel =>
      line ← read_line;
      if zlen line =? 0 then pfail (Protocol "HTTPUpgrade: unexpected EOF in headers")
      else
        let total_bytes := total_bytes + zlen line in
        if total_bytes >? MAX_HEADER_BYTES then pfail (Protocol "HTTPUpgrade: headers too large")
        else if bytes_eqb line [13; 10] || bytes_eqb line [10] then mret has_upgrade
        else upgrade_headers fuel total_bytes (has_upgrade || is_prefix (lit "upgrade:") (to_ascii_lowercase line))
  end.

Definition path_expected (expected_path : option bytes) (path : bytes) : bool :=
  match expected_path with
  | Some want => bytes_eqb (before_sep 63 path) (before_sep 63 want)
  | None => true
  end.

(** The request, up to the answer; what is left, buffered bytes first, is the tunnel. *)
Definition read_upgrade (expected_path : option bytes) : parser ProxyError unit := fun s =>
  (first_line ← read_line;
   if zlen first_line =? 0 then pfail (Protocol "HTTPUpgrade: unexpected EOF")
   else
     '(method, path) ← plift (parse_get_line (trim first_line));
     if negb (path_expected expected_path path) then pfail (Protocol "HTTPUpgrade: path mismatch")
     else
       has_upgrade ← upgrade_headers (S (length s)) (zlen first_line) false;
       if negb (eq_ignore_ascii_case method (lit "GET")) then pfail (Protocol "HTTPUpgrade: expected GET")
       else if negb has_upgrade then pfail (Protocol "HTTPUpgrade: missing Upgrade header")
       else mret tt) s.

Definition UPGRADE_OK : bytes := lit "HTTP/1.1 101 Switching Protocols" ++ EOL ++ lit "Connection: upgrade" ++ EOL ++ lit "Upgrade: websocket" ++ EOL ++ EOL.

Definition accept_httpupgrade (expected_path : option bytes) : duplexM unit :=
  _ ← recv (read_upgrade expected_path);
  write_all UPGRADE_OK.

(** * The tunnel *)

Definition has_upgrade_line (ls : list bytes) : bool := existsb (fun l => is_prefix (lit "upgrade:") (to_ascii_lowercase (l ++ EOL))) ls.

Lemma header_block_cons l ls : header_block (l :: ls) = (l ++ [13; 10]) ++ header_block ls.
Proof. unfold header_block. cbn [fmap list_fmap concat]. by rewrite <- !app_assoc. Qed.

Lemma not_blank l : l <> [] -> bytes_eqb (l ++ [13; 10]) [13; 10] || bytes_eqb (l ++ [13; 10]) [10] = false.
Proof.
  intros Hne. apply orb_false_iff. unfold bytes_eqb.
  split; apply bool_decide_eq_false_2; intros E; apply (f_equal length) in E; rewrite length_app in E; cbn in E; destruct l; cbn in E; (done || lia).
Qed.

Lemma upgrade_headers_ok ls k : Forall header_ok ls -> forall fuel total b, (length ls < fuel)%nat -> total + zlen (header_block ls) <= MAX_HEADER_BYTES ->
  upgrade_headers fuel total b (header_block ls ++ k) = Ok (b || has_upgrade_line ls, k).
Proof.
  induction 1 as [| l ls (Hne & Hn & Hu) Hls IH]; intros fuel total b Hf Ht; (destruct fuel as [| fuel]; [cbn in Hf; lia |]); cbn [upgrade_headers].
  - unfold header_block in *. cbn [fmap list_fmap concat app] in *. erewrite pbind_ok by (apply (read_line_crlf [] k); [by apply not_elem_of_nil | done]). cbn [app].
    change (zlen [13; 10] =? 0) with false. change (zlen [13; 10]) with 2 in *. destruct (Z.gtb_spec (total + 2) MAX_HEADER_BYTES); [lia |].
    change (bytes_eqb [13; 10] [13; 10] || bytes_eqb [13; 10] [10]) with true. unfold has_upgrade_line. cbn [existsb]. by rewrite orb_false_r.
  - rewrite header_block_cons in *. rewrite <- !app_assoc. erewrite pbind_ok by (by apply read_line_crlf).
    rewrite (proj2 (Z.eqb_neq _ 0)) by len_solve. pose proof (zlen_nonneg (header_block ls)). rewrite zlen_app in Ht.
    destruct (Z.gtb_spec (total + zlen (l ++ [13; 10])) MAX_HEADER_BYTES); [lia |]. rewrite not_blank by done. rewrite IH; [| cbn in Hf; lia | lia].
    do 2 f_equal. symmetry. apply orb_assoc.
Qed.

(** A character that a literal text does not have. *)
Ltac not_in_lit H := vm_compute in H; repeat (apply elem_of_cons in H as [? | H]; [done |]); by apply elem_of_nil in H.

(** The lines the client sends behind the first. *)
Definition upgrade_lines (host : bytes) : list bytes := [lit "Host: " ++ host; lit "Connection: Upgrade"; lit "Upgrade: websocket"].

Definition get_line (path : bytes) : bytes := lit "GET " ++ path ++ lit " HTTP/1.1".

Lemma upgrade_request_block path host : upgrade_request path host = get_line path ++ [13; 10] ++ header_block (upgrade_lines host).
Proof. unfold upgrade_request, get_line, header_block, upgrade_lines, EOL. cbn [fmap list_fmap concat]. rewrite <- !app_assoc. done. Qed.

(** A path a request line can hold, and a host a header line can hold. *)
Definition path_ok (path : bytes) : Prop := graphic path /\ path <> [].
Definition host_ok (host : bytes) : Prop := Forall (fun b => 32 <= b <= 126) host.

Lemma get_line_read path : path_ok path -> (10 ∉ get_line path) /\ is_ascii (get_line path ++ [13; 10]) /\ parse_get_line (trim (get_line path ++ [13; 10])) = Ok (lit "GET", path).
Proof.
  intros [Hg Hne]. assert (Hx : forall b, b ∈ path -> 33 <= b <= 126) by (intros b Hb; exact (proj1 (list.Forall_forall _ _) Hg _ Hb)). split_and!.
  - unfold get_line. rewrite !elem_of_app. intros [H | [H | H]]; [not_in_lit H | | not_in_lit H].
    specialize (Hx _ H). lia.
  - unfold get_line, is_ascii. rewrite !Forall_app. split_and!; [decided | | decided | decided]. eapply Forall_impl; [| exact Hg]. cbn. lia.
  - replace (get_line path ++ [13; 10]) with (71 :: (lit "ET " ++ path ++ lit " HTTP/1.") ++ [49; 13; 10]) by (unfold get_line; by rewrite <- !app_assoc).
    rewrite trim_line by lia. replace (71 :: (lit "ET " ++ path ++ lit " HTTP/1.") ++ [49]) with (lit "GET" ++ 32 :: path ++ 32 :: lit "HTTP/1.1") by (rewrite <- !app_assoc; done).
    unfold parse_get_line. rewrite split_once_app by (intros H; not_in_lit H).
    rewrite split_once_app by (intros H; specialize (Hx _ H); lia). by rewrite (proj2 (Z.eqb_neq _ 0)) by (destruct path; [done | len_solve]).
Qed.

Lemma upgrade_lines_ok host : host_ok host -> Forall header_ok (upgrade_lines host).
Proof.
  intros Hh. repeat constructor; try done; try (apply (bool_decide_unpack _); vm_compute; exact I).
  - rewrite elem_of_app. intros [H | H]; [not_in_lit H |].
    pose proof (proj1 (list.Forall_forall _ _) Hh _ H) as Hx. cbn in Hx. lia.
  - apply utf8_valid_ascii. unfold is_ascii. rewrite !Forall_app. split_and!; [decided | | decided]. eapply Forall_impl; [| exact Hh]. cbn. lia.
Qed.

Lemma upgrade_read expected path host payload :
  path_ok path -> host_ok host -> zlen (upgrade_request path host) <= MAX_HEADER_BYTES -> path_expected expected path = true ->
  read_upgrade expected (upgrade_request path host ++ payload) = Ok (tt, payload).
Proof.
  intros Hp Hh Hl He. destruct (get_line_read path Hp) as (H1 & H2 & H3). rewrite upgrade_request_block in *. unfold read_upgrade. rewrite <- !app_assoc in *.
  erewrite pbind_ok by (apply read_line_crlf; [done | by apply utf8_valid_ascii]). rewrite (proj2 (Z.eqb_neq _ 0)) by len_solve.
  unfold mbind at 1, parser_bind at 1, plift. rewrite H3, He. cbn [negb].
  erewrite pbind_ok by (apply upgrade_headers_ok; [by apply upgrade_lines_ok | rewrite !length_app; pose proof (header_block_len (upgrade_lines host)); lia |];
    rewrite app_assoc, zlen_app in Hl; exact Hl).
  change (has_upgrade_line (upgrade_lines host)) with (false || (has_upgrade_line [lit "Connection: Upgrade"; lit "Upgrade: websocket"])). done.
Qed.

Lemma listen_path_expected st dest_domain : path_expected (httpupgrade_listen_path st) (httpupgrade_path_host st dest_domain).1 = true.
Proof. unfold path_expected, httpupgrade_listen_path, httpupgrade_path_host. destruct (upgrade_settings st); cbn; [| done]. unfold bytes_eqb. by apply bool_decide_eq_true_2. Qed.

(** C35. HTTPUpgrade from end to end, with the same settings on both sides.  The server accepts the request of the client, answers, and its tunnel starts
    exactly behind the request.  The client accepts the answer, and its tunnel starts exactly behind it if and only if its one read returns
    the answer and nothing more: bytes of the tunnel in the same read are lost, and the rest of an answer that comes in pieces is taken for
    the tunnel, or for a refusal. *)
Theorem httpupgrade_tunnel (st : StreamSettings) (dest_domain path host payload reply out : bytes) :
  httpupgrade_path_host st dest_domain = (path, host) -> path_ok path -> host_ok host -> zlen (upgrade_request path host) <= MAX_HEADER_BYTES ->
  accept_httpupgrade (httpupgrade_listen_path st) (mkDuplex (upgrade_request path host ++ payload) out) = (mkDuplex payload (out ++ UPGRADE_OK), Ok tt)
  /\ forall n, (n <= length (UPGRADE_OK ++ reply))%nat ->
       (dial_httpupgrade st dest_domain n (UPGRADE_OK ++ reply) = Ok (upgrade_request path host, reply) <-> n = length UPGRADE_OK).
Proof.
  intros Hs Hp Hh Hl. split.
  - unfold accept_httpupgrade, mbind, stE_bind, recv. cbn [input]. rewrite upgrade_read; [done | done | done | done |].
    pose proof (listen_path_expected st dest_domain) as He. by rewrite Hs in He.
  - intros n Hn. unfold dial_httpupgrade. rewrite Hs. split.
    + revert Hn. generalize UPGRADE_OK as w. intros w Hn H. destruct (negb (utf8_valid _)); [done |]. destruct (negb _ && _); [done |]. injection H as H. apply (f_equal length) in H.
      rewrite length_drop in H. rewrite !length_app in *. lia.
    + intros ->. rewrite take_app_length, drop_app_length. done.
Qed.

(** * Any client *)

Lemma upgrade_headers_safe fuel : forall total b s, (length s < fuel)%nat ->
  match upgrade_headers fuel total b s with Ok (_, r) => exists l, s = l ++ r | Err _ => True | _ => False end.
Proof.
  induction fuel as [| fuel IH]; intros total b s Hf; [lia |]. cbn [upgrade_headers]. unfold mbind at 1, parser_bind at 1.
  destruct (read_line s) as [[l r] | | |] eqn:E; [| done | |]; [| by unfold read_line in E; destruct (split_line s), (utf8_valid _)..].
  apply read_line_spec in E as ->. destruct (Z.eqb_spec (zlen l) 0) as [| Hz]; [done |]. destruct (_ >? _); [done |].
  destruct (_ || _); [by eexists |]. rewrite length_app in Hf. unfold zlen in Hz.
  match goal with |- context [upgrade_headers fuel ?t ?b r] => specialize (IH t b r ltac:(lia)); destruct (upgrade_headers fuel t b r) as [[? r'] | | |]; try done end.
  destruct IH as [l' ->]. exists (l ++ l'). by rewrite app_assoc.
Qed.

Lemma parse_get_line_safe line : match parse_get_line line with Ok (m, p) => p <> [] | Err _ => True | _ => False end.
Proof.
  unfold parse_get_line. destruct (split_once 32 line) as [[m r] |]; [| done]. destruct (split_once 32 r) as [[p v] |]; [| by destruct (_ =? 0)].
  by destruct p.
Qed.

(** Whatever a client sends, the server ends without a panic.  It answers only to a request for its path, and then what follows the request is the
    tunnel; otherwise nothing is written. *)
Theorem httpupgrade_accept_total (expected : option bytes) (s out : bytes) :
  match accept_httpupgrade expected (mkDuplex s out) with
  | (d, Ok _) => output d = out ++ UPGRADE_OK /\ exists first header path, s = first ++ header ++ input d /\ path_expected expected path = true
                   /\ exists method, parse_get_line (trim first) = Ok (method, path) /\ eq_ignore_ascii_case method (lit "GET") = true
  | (d, Err _) => output d = out
  | (_, _) => False
  end.
Proof.
  unfold accept_httpupgrade, mbind, stE_bind, recv. cbn [input]. unfold read_upgrade. unfold mbind at 1, parser_bind at 1.
  destruct (read_line s) as [[l r] | | |] eqn:E; [| done | |]; [| by unfold read_line in E; destruct (split_line s), (utf8_valid _)..].
  apply read_line_spec in E as ->. destruct (zlen l =? 0); [done |]. unfold mbind at 1, parser_bind at 1, plift.
  pose proof (parse_get_line_safe (trim l)) as Hp. destruct (parse_get_line (trim l)) as [[m p] | | |] eqn:Ep; [| done | done | done].
  destruct (path_expected expected p) eqn:He; [| done]. cbn [negb]. unfold mbind, parser_bind.
  pose proof (upgrade_headers_safe (S (length (l ++ r))) (zlen l) false r ltac:(rewrite length_app; lia)) as Hh.
  destruct (upgrade_headers _ _ _ r) as [[b r'] | | |]; [| done | done | done]. destruct Hh as [h ->].
  destruct (eq_ignore_ascii_case m (lit "GET")) eqn:Em; [| done]. destruct b; [| done]. cbn. split; [done |]. exists l, h, p. eauto.
Qed.

Definition example_settings : StreamSettings := mkStreamSettings (Some (mkWsConfig (lit "/tunnel?ed=1") [(lit "Host", lit "example.com")])) None None.

Lemma httpupgrade_tunnel_witness :
  accept_httpupgrade (Some (lit "/tunnel?ed=1")) (mkDuplex (upgrade_request (lit "/tunnel?ed=1") (lit "example.com") ++ [1; 2]) []) = (mkDuplex [1; 2] UPGRADE_OK, Ok tt).
Proof.
  refine (proj1 (httpupgrade_tunnel example_settings (lit "x") (lit "/tunnel?ed=1") (lit "example.com") [1; 2] [] [] _ _ _ _)); [reflexivity | split; [decided | done] | decided | by vm_compute].
Defined.
