(* ===== verification/Vision.v ===== *)
(** XTLS Vision padding ([VisionUnpaddingState], [VisionStream] of
    [blackwire-common/src/stream.rs]); the other wrappers of that file are in [Boxed]. *)

From stdpp Require Import base list strings numbers.
From S2P Require Import Prelude Address Streams Chunks.

(** * Unpadding *)

Definition VISION_INITIAL : Z := -1.
Definition VISION_COMMAND_PADDING_CONTINUE : Z := 0.
Definition VISION_COMMAND_PADDING_END : Z := 1.
Definition VISION_COMMAND_PADDING_DIRECT : Z := 2.
Definition TLS_APPLICATION_DATA_START : bytes := [0x17; 0x03; 0x03].

Record VisionUnpaddingState := mkUnpad {
  remaining_command : Z;
  remaining_content : Z;
  remaining_padding : Z;
  current_command : Z;
}.

Definition unpad_new : VisionUnpaddingState := mkUnpad VISION_INITIAL VISION_INITIAL VISION_INITIAL 0.

Definition is_initial (st : VisionUnpaddingState) : bool :=
  (remaining_command st =? VISION_INITIAL) && (remaining_content st =? VISION_INITIAL) && (remaining_padding st =? VISION_INITIAL).

(** A byte of a frame header. *)
Definition command_byte (st : VisionUnpaddingState) (b : Z) : VisionUnpaddingState :=
  let '(mkUnpad rc co pa cu) := st in
  let '(co, pa, cu) :=
    if rc =? 5 then (co, pa, b)
    else if rc =? 4 then (Z.shiftl b 8, pa, cu)
    else if rc =? 3 then (Z.lor co b, pa, cu)
    else if rc =? 2 then (co, Z.shiftl b 8, cu)
    else if rc =? 1 then (co, Z.lor pa b, cu)
    else (co, pa, cu) in
  mkUnpad (rc - 1) co pa cu.

(** One part of a frame: the state, what is left of the input, and what is given out. *)
Definition feed_part (st : VisionUnpaddingState) (input : bytes) : VisionUnpaddingState * bytes * bytes :=
  if 0 <? remaining_command st then
    match input with b :: input => (command_byte st b, input, []) | [] => (st, [], []) end
  else if 0 <? remaining_content st then
    let n := Z.min (remaining_content st) (zlen input) in
    (mkUnpad (remaining_command st) (remaining_content st - n) (remaining_padding st) (current_command st),
     drop (Z.to_nat n) input, take (Z.to_nat n) input)
  else if 0 <? remaining_padding st then
    let n := Z.min (remaining_padding st) (zlen input) in
    (mkUnpad (remaining_command st) (remaining_content st) (remaining_padding st - n) (current_command st),
     drop (Z.to_nat n) input, [])
  else (st, input, []).

(** [feed]: the state, the bytes given out, and whether to switch to direct copy. *)
Fixpoint feed_loop (fuel : nat) (uuid : bytes) (st : VisionUnpaddingState) (input out : bytes)
  : option (VisionUnpaddingState * bytes * bool) :=
  match input with
  | [] => Some (st, out, false)
  | _ =>
      match fuel with
      | O => None
      | S fuel =>
          let framed := (21 <=? zlen input) && bytes_eqb (take 16 input) uuid in
          if is_initial st && negb framed then Some (st, out ++ input, false)
          else
            let '(st, input) :=
              if is_initial st then (mkUnpad 5 (remaining_content st) (remaining_padding st) (current_command st), drop 16 input)
              else (st, input) in
            let '(st, input, o) := feed_part st input in
            let out := out ++ o in
            if (remaining_command st <=? 0) && (remaining_content st <=? 0) && (remaining_padding st <=? 0) then
              if current_command st =? VISION_COMMAND_PADDING_CONTINUE then
                feed_loop fuel uuid (mkUnpad 5 (remaining_content st) (remaining_padding st) (current_command st)) input out
              else
                Some (mkUnpad VISION_INITIAL VISION_INITIAL VISION_INITIAL (current_command st), out ++ input,
                      current_command st =? VISION_COMMAND_PADDING_DIRECT)
            else feed_loop fuel uuid st input out
      end
  end.

(** Every turn but one takes a byte. *)
Definition feed (uuid : bytes) (st : VisionUnpaddingState) (input : bytes) : option (VisionUnpaddingState * bytes * bool) :=
  feed_loop (S (length input)) uuid st input [].

(** * The stream *)

Record VisionStream := mkVision {
  vs_inner : list PollEvent;
  vs_uuid : bytes;
  read_state : VisionUnpaddingState;
  read_buf : bytes;
  read_direct_copy : bool;
  vs_sink : list WriteEvent;
  vs_sent : bytes;
  write_uuid_once : bool;
  write_direct_copy : bool;
  write_buf : bytes;
}.

Definition vision_new (inner : list PollEvent) (sink : list WriteEvent) (uuid : bytes) : VisionStream :=
  mkVision inner uuid unpad_new [] false sink [] true false [].

Definition is_direct_copy_ready (v : VisionStream) : bool :=
  read_direct_copy v && write_direct_copy v && (zlen (read_buf v) =? 0) && (zlen (write_buf v) =? 0).

Definition set_read (v : VisionStream) (inner : list PollEvent) (st : VisionUnpaddingState) (buf : bytes) (direct : bool) : VisionStream :=
  mkVision inner (vs_uuid v) st buf direct (vs_sink v) (vs_sent v) (write_uuid_once v) (write_direct_copy v) (write_buf v).

(** The size of the buffer for reads from below. *)
Definition READ_TMP : nat := Z.to_nat 8192.

Fixpoint vision_read_loop (fuel : nat) (cap : Z) (v : VisionStream) : option (VisionStream * poll bytes) :=
  match fuel with
  | O => None
  | S fuel =>
      if negb (zlen (read_buf v) =? 0) then
        let n := Z.to_nat (Z.min cap (zlen (read_buf v))) in
        Some (set_read v (vs_inner v) (read_state v) (drop n (read_buf v)) (read_direct_copy v), Ready (take n (read_buf v)))
      else
        match inner_read READ_TMP (vs_inner v) with
        | (evs, Pending) => Some (set_read v evs (read_state v) (read_buf v) (read_direct_copy v), Pending)
        | (evs, Failed e) => Some (set_read v evs (read_state v) (read_buf v) (read_direct_copy v), Failed e)
        | (evs, Ready []) => Some (set_read v evs (read_state v) (read_buf v) (read_direct_copy v), Ready [])
        | (evs, Ready x) =>
            match feed (vs_uuid v) (read_state v) x with
            | None => None
            | Some (st, scratch, switch) =>
                let direct := switch || read_direct_copy v in
                if zlen scratch =? 0 then vision_read_loop fuel cap (set_read v evs st (read_buf v) direct)
                else
                  let n := Z.to_nat (Z.min cap (zlen scratch)) in
                  Some (set_read v evs st (read_buf v ++ drop n scratch) direct, Ready (take n scratch))
            end
        end
  end.

(** Each turn reads from below. *)
Definition vision_poll_read (cap : Z) (v : VisionStream) : option (VisionStream * poll bytes) :=
  if read_direct_copy v then
    let '(evs, p) := inner_read (Z.to_nat cap) (vs_inner v) in
    Some (set_read v evs (read_state v) (read_buf v) true, p)
  else vision_read_loop (events_size (vs_inner v) + 2) cap v.

(** ** Writing *)

Definition vision_pad_chunk (uuid content : bytes) (command : Z) (include_uuid : bool) : bytes :=
  let cl := zlen content in
  (if include_uuid then uuid else []) ++ [command; wrap 8 (Z.shiftr cl 8); Z.land cl 0xff; 0; 0] ++ content.

Definition looks_like_tls_application_data (buf : bytes) : bool :=
  (6 <=? zlen buf) && bytes_eqb (take 3 buf) TLS_APPLICATION_DATA_START.

Fixpoint complete_loop (fuel : nat) (buf : bytes) : bool :=
  match buf with
  | [] => true
  | _ =>
      match fuel with
      | O => false
      | S fuel =>
          if zlen buf <? 5 then false
          else if negb (bytes_eqb (take 3 buf) TLS_APPLICATION_DATA_START) then false
          else
            let record_len := be_val (take 2 (drop 3 buf)) in
            let buf := drop 5 buf in
            if zlen buf <? record_len then false else complete_loop fuel (drop (Z.to_nat record_len) buf)
      end
  end.

(** Each turn takes five bytes at least. *)
Definition is_complete_tls_record (buf : bytes) : bool := complete_loop (length buf) buf.

Definition set_write (v : VisionStream) (sink : list WriteEvent) (sent : bytes) (once direct : bool) (buf : bytes) : VisionStream :=
  mkVision (vs_inner v) (vs_uuid v) (read_state v) (read_buf v) (read_direct_copy v) sink sent once direct buf.

Definition poll_drain_write_buf (v : VisionStream) : VisionStream * poll unit :=
  let '(sink, buf, sent, r) := drain (vs_sink v) (write_buf v) (vs_sent v) in
  let v := set_write v sink sent (write_uuid_once v) (write_direct_copy v) buf in
  match r with Empty => (v, Ready tt) | Waiting => (v, Pending) | Broken e => (v, Failed e) end.

(** [poll_write] of the stream underneath. *)
Definition inner_write (v : VisionStream) (buf : bytes) : VisionStream * poll Z :=
  match vs_sink v with
  | [] => (v, Pending)
  | WPending :: sink => (set_write v sink (vs_sent v) (write_uuid_once v) (write_direct_copy v) (write_buf v), Pending)
  | WFail :: sink =>
      (set_write v sink (vs_sent v) (write_uuid_once v) (write_direct_copy v) (write_buf v), Failed (Io ConnectionReset))
  | WAccept n :: sink =>
      let n := Z.min (Z.max n 0) (zlen buf) in
      (set_write v sink (vs_sent v ++ take (Z.to_nat n) buf) (write_uuid_once v) (write_direct_copy v) (write_buf v), Ready n)
  end.

Definition vision_command (buf : bytes) : Z :=
  if looks_like_tls_application_data buf && is_complete_tls_record buf then VISION_COMMAND_PADDING_DIRECT else VISION_COMMAND_PADDING_END.

Definition vision_poll_write (buf : bytes) (v : VisionStream) : VisionStream * poll Z :=
  match (if zlen (write_buf v) =? 0 then (v, Ready tt) else poll_drain_write_buf v) with
  | (v, Pending) => (v, Pending)
  | (v, Failed e) => (v, Failed e)
  | (v, Ready _) =>
      if write_direct_copy v then inner_write v buf
      else if zlen buf =? 0 then inner_write v buf
      else
        let command := vision_command buf in
        let v' := set_write v (vs_sink v) (vs_sent v) false (write_direct_copy v)
                    (vision_pad_chunk (vs_uuid v) buf command (write_uuid_once v)) in
        match poll_drain_write_buf v' with
        | (v, Ready _) =>
            (set_write v (vs_sink v) (vs_sent v) (write_uuid_once v)
               (if command =? VISION_COMMAND_PADDING_DIRECT then true else write_direct_copy v) (write_buf v),
             Ready (zlen buf))
        | (v, Pending) => (v, Pending)
        | (v, Failed e) => (v, Failed e)
        end
  end.

Definition vision_poll_flush (v : VisionStream) : VisionStream * poll unit := poll_drain_write_buf v.

(** * What is unpadded *)

(** A frame: command, content and padding. *)
Record VisionFrame := mkFrame { vf_command : Z; vf_content : bytes; vf_padding : bytes }.

Definition frame_header (f : VisionFrame) : bytes :=
  [vf_command f; Z.shiftr (zlen (vf_content f)) 8; Z.land (zlen (vf_content f)) 0xff;
   Z.shiftr (zlen (vf_padding f)) 8; Z.land (zlen (vf_padding f)) 0xff].

Definition frame_bytes (f : VisionFrame) : bytes := frame_header f ++ vf_content f ++ vf_padding f.

Section unpad.
Context (uuid : bytes) (cmds : Z -> Prop).

(** Lengths of two bytes, and a command of the given ones. *)
Definition frame_ok (f : VisionFrame) : Prop :=
  zlen (vf_content f) < 65536 /\ zlen (vf_padding f) < 65536 /\ cmds (vf_command f).

(** Frames that end with the first command other than to continue. *)
Fixpoint chain_ok (fs : list VisionFrame) : Prop :=
  match fs with
  | [] => False
  | [f] => frame_ok f /\ vf_command f <> VISION_COMMAND_PADDING_CONTINUE
  | f :: fs => frame_ok f /\ vf_command f = VISION_COMMAND_PADDING_CONTINUE /\ chain_ok fs
  end.

Definition no_uuid (w : bytes) : Prop := forall a b, w <> a ++ uuid ++ b.

(** After the current frame: the next ones, or the bytes that follow. *)
Definition later_ok (cmd : Z) (fs : list VisionFrame) (raw : bytes) : Prop :=
  no_uuid raw /\ (if cmd =? VISION_COMMAND_PADDING_CONTINUE then chain_ok fs else fs = []).

Definition chain_bytes (fs : list VisionFrame) : bytes := concat (frame_bytes <$> fs).
Definition chain_content (fs : list VisionFrame) : bytes := concat (vf_content <$> fs).

(** Inside the header of [f], with [k] bytes of it to come. *)
Definition in_header (k : nat) (f : VisionFrame) (st : VisionUnpaddingState) : Prop :=
  (1 <= k <= 5)%nat /\ remaining_command st = Z.of_nat k
  /\ ((k <= 4)%nat -> current_command st = vf_command f)
  /\ (if (3 <? k)%nat then remaining_content st <= 0
      else if (k =? 3)%nat then remaining_content st = Z.shiftl (Z.shiftr (zlen (vf_content f)) 8) 8
      else remaining_content st = zlen (vf_content f))
  /\ (if (1 <? k)%nat then remaining_padding st <= 0
      else remaining_padding st = Z.shiftl (Z.shiftr (zlen (vf_padding f)) 8) 8).

(** The state on a stream of which [w] is to come and [d] is to be given out. *)
Definition unpads (st : VisionUnpaddingState) (w d : bytes) : Prop :=
  (is_initial st = true /\ w = d /\ no_uuid w)
  \/ (exists k f fs raw, in_header k f st /\ frame_ok f /\ later_ok (vf_command f) fs raw
       /\ w = drop (5 - k) (frame_header f) ++ vf_content f ++ vf_padding f ++ chain_bytes fs ++ raw
       /\ d = vf_content f ++ chain_content fs ++ raw)
  \/ (exists c p fs raw, remaining_command st = 0 /\ remaining_content st = zlen c /\ remaining_padding st = zlen p
       /\ 0 < zlen c + zlen p /\ cmds (current_command st) /\ later_ok (current_command st) fs raw
       /\ w = c ++ p ++ chain_bytes fs ++ raw /\ d = c ++ chain_content fs ++ raw).

Lemma split_len n : 0 <= n < 65536 -> Z.lor (Z.shiftl (Z.shiftr n 8) 8) (Z.land n 0xff) = n.
Proof.
  intros Hn. change 0xff with (Z.ones 8). rewrite Z.land_ones by lia.
  apply Z.bits_inj'. intros i Hi. rewrite Z.lor_spec, Z.shiftl_spec by done.
  destruct (Z.ltb_spec i 8) as [Hl | Hl].
  - rewrite Z.testbit_neg_r by lia. rewrite Z.mod_pow2_bits_low by lia. done.
  - rewrite Z.shiftr_spec by lia. rewrite Z.mod_pow2_bits_high by lia. rewrite orb_false_r. f_equal. lia.
Qed.

Lemma no_uuid_app a b : no_uuid (a ++ b) -> no_uuid b.
Proof. intros H x y E. apply (H (a ++ x) y). by rewrite E, <- app_assoc. Qed.

(** Nothing of the frame is left. *)
Definition at_end (st : VisionUnpaddingState) : bool :=
  (remaining_command st <=? 0) && (remaining_content st <=? 0) && (remaining_padding st <=? 0).

(** What a part of a frame must leave. *)
Definition part_post (st : VisionUnpaddingState) (w d : bytes) : Prop :=
  if at_end st then
    if current_command st =? VISION_COMMAND_PADDING_CONTINUE
    then unpads (mkUnpad 5 (remaining_content st) (remaining_padding st) (current_command st)) w d
    else w = d /\ no_uuid w /\ cmds (current_command st)
  else unpads st w d.

Lemma chain_split fs : chain_ok fs ->
  exists f fs', fs = f :: fs' /\ frame_ok f /\ if vf_command f =? VISION_COMMAND_PADDING_CONTINUE then chain_ok fs' else fs' = [].
Proof.
  destruct fs as [| f [| f' fs]]; [done | |]; cbn [chain_ok].
  - intros [H1 H2]. exists f, []. by rewrite (proj2 (Z.eqb_neq _ _)).
  - intros (H1 & H2 & H3). exists f, (f' :: fs). by rewrite H2.
Qed.

Lemma settle st c p fs raw :
  remaining_command st = 0 -> remaining_content st = zlen c -> remaining_padding st = zlen p ->
  cmds (current_command st) -> later_ok (current_command st) fs raw ->
  part_post st (c ++ p ++ chain_bytes fs ++ raw) (c ++ chain_content fs ++ raw).
Proof.
  intros H1 H2 H3 Hcmd [Hraw Hl]. pose proof (zlen_nonneg c). pose proof (zlen_nonneg p).
  unfold part_post, at_end. rewrite H1, H2, H3. destruct (Z.leb_spec (zlen c) 0) as [Hc | Hc], (Z.leb_spec (zlen p) 0) as [Hp | Hp];
    cbn [andb Z.leb]; change (0 <=? 0) with true; cbn [andb].
  2-4: right; right; exists c, p, fs, raw; split_and!; [done | done | done | lia | done | by split | done | done].
  assert (Ec : c = []) by (destruct c; [done | len_solve]). assert (Ep : p = []) by (destruct p; [done | len_solve]). subst c p. cbn [app].
  destruct (current_command st =? VISION_COMMAND_PADDING_CONTINUE).
  - destruct (chain_split fs Hl) as (f & fs' & -> & Hf & Hl'). right. left. exists 5%nat, f, fs', raw.
    split_and!; [| done | by split | |].
    + unfold in_header. cbn. split_and!; try lia; done.
    + unfold chain_bytes, frame_bytes. cbn [fmap list_fmap concat Nat.sub drop]. by rewrite <- !app_assoc.
    + unfold chain_content. cbn [fmap list_fmap concat]. by rewrite <- !app_assoc.
  - subst fs. cbn. by split_and!.
Qed.

(** The bytes of a header, one after the other. *)
Lemma header_byte k f st x y rest :
  in_header k f st -> frame_ok f -> x <> [] -> x ++ y = drop (5 - k) (frame_header f) ++ rest ->
  exists b x', x = b :: x' /\ x' ++ y = drop (6 - k) (frame_header f) ++ rest
    /\ if (k =? 1)%nat then remaining_command (command_byte st b) = 0
         /\ remaining_content (command_byte st b) = zlen (vf_content f)
         /\ remaining_padding (command_byte st b) = zlen (vf_padding f)
         /\ current_command (command_byte st b) = vf_command f
       else in_header (k - 1) f (command_byte st b).
Proof.
  intros (Hk & H1 & H2 & H3 & H4) (Hc & Hp & _) Hne E. pose proof (zlen_nonneg (vf_content f)). pose proof (zlen_nonneg (vf_padding f)).
  destruct st as [rc co pa cu]. cbn [remaining_command remaining_content remaining_padding current_command] in *. subst rc.
  destruct x as [| b x']; [done |]. exists b, x'. split; [done |].
  assert (Hcases : k = 1%nat \/ k = 2%nat \/ k = 3%nat \/ k = 4%nat \/ k = 5%nat) by lia. unfold frame_header in *.
  destruct Hcases as [-> | [-> | [-> | [-> | ->]]]]; cbn [Nat.sub drop app Nat.eqb Nat.ltb Nat.leb] in *; injection E as -> E; (split; [exact E |]);
    cbn [command_byte remaining_command remaining_content remaining_padding current_command Z.of_nat Pos.of_succ_nat Pos.succ Z.eqb Pos.eqb Z.sub Z.add Z.opp Z.pos_sub Pos.pred_double].
  - split_and!; [done | done | subst pa; by rewrite split_len by lia | auto].
  - unfold in_header. cbn. split_and!; try lia; try done; auto.
  - unfold in_header. cbn. split_and!; try lia; try done; auto. subst co. by rewrite split_len by lia.
  - unfold in_header. cbn. split_and!; try lia; try done; auto.
  - unfold in_header. cbn. split_and!; try lia; try done; auto.
Qed.

Lemma part_ok st x y d :
  unpads st (x ++ y) d -> is_initial st = false -> x <> [] ->
  exists d1, d = (feed_part st x).2 ++ d1 /\ (length (feed_part st x).1.2 < length x)%nat
    /\ part_post (feed_part st x).1.1 ((feed_part st x).1.2 ++ y) d1.
Proof.
  intros [(Hi & _) | [(k & f & fs & raw & Hh & Hf & Hl & E & ->) | (c & p & fs & raw & H1 & H2 & H3 & Hpos & Hcmd & Hl & E & ->)]] Hni Hne.
  - congruence.
  - pose proof Hh as (Hk & Hrc & _). unfold feed_part. rewrite Hrc, (proj2 (Z.ltb_lt 0 _)) by lia.
    destruct (header_byte k f st x y _ Hh Hf Hne E) as (b & x' & -> & E' & Hb). cbn [fst snd app length].
    eexists. split; [reflexivity |]. split; [lia |]. rewrite E'. destruct (Nat.eqb_spec k 1) as [-> | Hk1].
    + destruct Hb as (B1 & B2 & B3 & B4). cbn [Nat.sub]. change (drop 5 (frame_header f)) with (@nil Z). cbn [app].
      destruct Hf as (_ & _ & Hc). apply settle; rewrite ?B4; done.
    + pose proof Hb as (_ & Hrc' & _). unfold part_post, at_end. rewrite Hrc', (proj2 (Z.leb_gt _ 0)) by lia. cbn [andb].
      right. left. exists (k - 1)%nat, f, fs, raw. split_and!; try done. by replace (5 - (k - 1))%nat with (6 - k)%nat by lia.
  - unfold feed_part. rewrite H1, H2, H3. change (0 <? 0) with false. cbn match. pose proof (zlen_nonneg c). pose proof (zlen_nonneg p).
    assert (0 < zlen x) by (destruct x; [done | len_solve]).
    destruct (Z.ltb_spec 0 (zlen c)) as [Hc | Hc]; cbn [fst snd].
    + set (n := Z.to_nat (Z.min (zlen c) (zlen x))). assert (Hn : (n <= length c)%nat /\ (0 < n <= length x)%nat) by (unfold n, zlen in *; lia).
      assert (Et : take n x = take n c) by (rewrite <- (take_app_le x y n), E, take_app_le by lia; done).
      assert (Ed : drop n x ++ y = drop n c ++ p ++ chain_bytes fs ++ raw) by (rewrite <- drop_app_le, E, drop_app_le by lia; done).
      exists (drop n c ++ chain_content fs ++ raw). split_and!.
      * by rewrite Et, (app_assoc (take n c)), take_drop.
      * rewrite length_drop. lia.
      * rewrite Ed. apply settle; cbn [remaining_command remaining_content remaining_padding current_command]; try done.
        unfold n, zlen in *. rewrite length_drop. lia.
    + assert (c = []) as -> by (destruct c; [done | len_solve]). cbn [app] in *.
      rewrite (proj2 (Z.ltb_lt 0 (zlen p))) by len_solve. cbn [fst snd app].
      set (n := Z.to_nat (Z.min (zlen p) (zlen x))). assert (Hn : (n <= length p)%nat /\ (0 < n <= length x)%nat) by (unfold n, zlen in *; simpl in *; lia).
      assert (Ed : drop n x ++ y = drop n p ++ chain_bytes fs ++ raw) by (rewrite <- drop_app_le, E, drop_app_le by lia; done).
      exists (chain_content fs ++ raw). split_and!; [done | rewrite length_drop; lia |].
      rewrite Ed. apply (settle _ [] (drop n p)); cbn [remaining_command remaining_content remaining_padding current_command]; try done.
      unfold n, zlen in *. simpl in *. rewrite length_drop. lia.
Qed.

(** A chunk of the stream gives its part of what is to be given out. *)
Definition feeds (r : option (VisionUnpaddingState * bytes * bool)) (out y d : bytes) : Prop :=
  match r with
  | Some (st', out', switch) =>
      exists o d', out' = out ++ o /\ d = o ++ d' /\ unpads st' y d'
        /\ (switch = true -> is_initial st' = true /\ cmds VISION_COMMAND_PADDING_DIRECT)
  | None => False
  end.

Lemma unpads_initial st w d : is_initial st = true -> unpads st w d -> w = d /\ no_uuid w.
Proof.
  intros Hi Hu. apply andb_prop in Hi as [Hi _]. apply andb_prop in Hi as [Hi _]. apply Z.eqb_eq in Hi. unfold VISION_INITIAL in Hi.
  destruct Hu as [(_ & ? & ?) | [(k & f & fs & raw & (? & ? & _) & _) | (c & p & fs & raw & ? & _)]]; [done | lia | lia].
Qed.

(** Past the frames the bytes are given out as they are. *)
Lemma feed_loop_raw fuel st x y out d :
  is_initial st = true -> unpads st (x ++ y) d -> x <> [] -> feed_loop (S fuel) uuid st x out = Some (st, out ++ x, false).
Proof.
  intros Hi Hu Hne. destruct (unpads_initial st _ _ Hi Hu) as [_ Hno].
  assert (Hx : x = hd 0 x :: tl x) by by destruct x. rewrite Hx at 1. cbn [feed_loop]. rewrite <- Hx, Hi.
  assert (bytes_eqb (take 16 x) uuid = false) as ->; [| by rewrite andb_false_r].
  apply not_true_is_false. intros E. apply bool_decide_eq_true in E. apply (Hno [] (drop 16 x ++ y)). cbn [app].
  by rewrite <- E, (app_assoc (take 16 x)), take_drop.
Qed.

Lemma feed_loop_ok fuel : forall st x y out d, (length x <= fuel)%nat ->
  unpads st (x ++ y) d -> feeds (feed_loop fuel uuid st x out) out y d.
Proof.
  induction fuel as [| fuel IH]; intros st x y out d Hf Hu; (destruct (decide (x = [])) as [-> | Hne];
    [exists [], d; rewrite app_nil_r; split_and!; done |]).
  { destruct x; [done | simpl in Hf; lia]. }
  destruct (is_initial st) eqn:Hi.
  { rewrite (feed_loop_raw _ _ _ y _ d) by done. destruct (unpads_initial _ _ _ Hi Hu) as [<- Hno].
    exists x, y. split_and!; [done | done | left; split_and!; [done | done | by apply no_uuid_app in Hno] | done]. }
  assert (Hx : x = hd 0 x :: tl x) by by destruct x. rewrite Hx at 1. cbn [feed_loop]. rewrite <- Hx, Hi. cbn [andb].
  destruct (part_ok st x y d Hu Hi Hne) as (d1 & -> & Hlt & Hp). destruct (feed_part st x) as [[st1 x1] o]. cbn [fst snd] in *.
  unfold part_post, at_end in Hp. destruct (_ && _ && _).
  - destruct (current_command st1 =? VISION_COMMAND_PADDING_CONTINUE).
    + apply (IH _ _ _ (out ++ o)) in Hp; [| lia]. unfold feeds in *. destruct (feed_loop _ _ _ _ _) as [[[st' o'] sw] |]; [| done].
      destruct Hp as (o2 & d2 & -> & -> & Hu' & Hs). exists (o ++ o2), d2. by rewrite !app_assoc.
    + destruct Hp as (Ed & Hno & Hc). exists (o ++ x1), y. rewrite <- Ed, !app_assoc. split_and!; [done | done | |].
      * left. split_and!; [done | done | by apply no_uuid_app in Hno].
      * intros Hs. split; [done |]. apply Z.eqb_eq in Hs. by rewrite Hs in Hc.
  - apply (IH _ _ _ (out ++ o)) in Hp; [| lia]. unfold feeds in *. destruct (feed_loop _ _ _ _ _) as [[[st' o'] sw] |]; [| done].
    destruct Hp as (o2 & d2 & -> & -> & Hu' & Hs). exists (o ++ o2), d2. by rewrite !app_assoc.
Qed.

(** The first chunk: it must hold the user's id and the first header. *)
Lemma feed_start x y fs raw :
  zlen uuid = 16 -> 21 <= zlen x -> chain_ok fs -> no_uuid raw -> x ++ y = uuid ++ chain_bytes fs ++ raw ->
  feeds (feed uuid unpad_new x) [] y (chain_content fs ++ raw).
Proof.
  intros Hu Hx Hfs Hraw E. unfold zlen in *.
  assert (Ht : take 16 x = uuid) by (rewrite <- (take_app_le x y), E, take_app_le, take_ge by lia; done).
  assert (Hd : drop 16 x ++ y = chain_bytes fs ++ raw).
  { rewrite <- drop_app_le, E by lia. rewrite drop_app_ge by lia. by replace (16 - length uuid)%nat with 0%nat by lia. }
  assert (Heq : feed uuid unpad_new x = feed_loop (S (length x)) uuid (mkUnpad 5 (-1) (-1) 0) (drop 16 x) []).
  { unfold feed. pose proof (length_drop x 16) as Hl. destruct x as [| b x]; [simpl in Hx; lia |].
    destruct (drop 16 (b :: x)) as [| b' x'] eqn:Ed; [simpl in Hl, Hx; lia |].
    cbn [feed_loop]. rewrite Ed, Ht. unfold bytes_eqb. rewrite bool_decide_true by done.
    rewrite (proj2 (Z.leb_le _ _)) by (unfold zlen; lia). reflexivity. }
  rewrite Heq. apply feed_loop_ok; [rewrite length_drop; lia |]. rewrite Hd.
  destruct (chain_split fs Hfs) as (f & fs' & -> & Hf & Hl). right. left. exists 5%nat, f, fs', raw.
  split_and!; [| done | by split | |].
  - unfold in_header. cbn. split_and!; try lia; done.
  - unfold chain_bytes, frame_bytes. cbn [fmap list_fmap concat Nat.sub drop]. by rewrite <- !app_assoc.
  - unfold chain_content. cbn [fmap list_fmap concat]. by rewrite <- !app_assoc.
Qed.

(** The first bytes come in one read of at least 21. *)
Fixpoint opening (evs : list PollEvent) : Prop :=
  match evs with
  | PPending :: evs => opening evs
  | PData x :: _ => 21 <= zlen x
  | _ => False
  end.

Definition starts (evs : list PollEvent) (d : bytes) : Prop :=
  opening evs /\ exists fs raw, chain_ok fs /\ no_uuid raw /\ incoming evs = uuid ++ chain_bytes fs ++ raw /\ d = chain_content fs ++ raw.

Definition expects (st : VisionUnpaddingState) (evs : list PollEvent) (d : bytes) : Prop :=
  unpads st (incoming evs) d \/ (st = unpad_new /\ starts evs d).

Lemma opening_pending size evs evs' : opening evs -> inner_read size evs = (evs', Pending) -> opening evs'.
Proof. destruct evs as [| [x | |] evs]; cbn [inner_read opening]; [done | destruct (_ <=? _)%nat; done | by intros H [= <-] | done]. Qed.

Lemma opening_data evs evs' x : opening evs -> inner_read READ_TMP evs = (evs', Ready x) -> 21 <= zlen x.
Proof.
  destruct evs as [| [x' | |] evs]; cbn [inner_read opening]; [done | | done | done]. intros H.
  destruct (Nat.leb_spec (length x') READ_TMP); intros [= <- <-]; [done |].
  unfold zlen, READ_TMP in *. rewrite length_take. lia.
Qed.

Lemma expects_feed st evs evs' x d :
  zlen uuid = 16 -> expects st evs d -> inner_read READ_TMP evs = (evs', Ready x) -> incoming evs = x ++ incoming evs' ->
  feeds (feed uuid st x) [] (incoming evs') d.
Proof.
  intros Hu [H | (-> & Ho & fs & raw & Hfs & Hraw & Hi & ->)] Hr E.
  - rewrite E in H. apply feed_loop_ok; [lia | done].
  - apply feed_start; try done; [by apply (opening_data evs evs') | congruence].
Qed.

(** ** Reads *)

Definition vision_carries (v : VisionStream) (d : bytes) : Prop :=
  vs_uuid v = uuid /\ exists d', d = read_buf v ++ d' /\
  if read_direct_copy v
  then read_buf v = [] /\ cmds VISION_COMMAND_PADDING_DIRECT /\ is_initial (read_state v) = true
       /\ unpads (read_state v) (incoming (vs_inner v)) d'
  else expects (read_state v) (vs_inner v) d'.

Context (lo : Z) (Hlo : 1 <= lo) (Hu : zlen uuid = 16) (Hdirect : cmds VISION_COMMAND_PADDING_DIRECT -> 8192 <= lo).

Lemma chain_shorter fs : (length (chain_content fs) <= length (chain_bytes fs))%nat.
Proof.
  unfold chain_content, chain_bytes. induction fs as [| f fs IH]; [done |]. cbn [fmap list_fmap concat].
  unfold frame_bytes at 1. rewrite !length_app. lia.
Qed.

Lemma expects_shorter st evs d : expects st evs d -> (length d <= length (incoming evs))%nat.
Proof.
  intros [[(_ & -> & _) | [(k & f & fs & raw & _ & _ & _ & -> & ->) | (c & p & fs & raw & _ & _ & _ & _ & _ & _ & -> & ->)]]
    | (_ & _ & fs & raw & _ & _ & -> & ->)]; [done | ..]; rewrite !length_app; pose proof (chain_shorter fs); lia.
Qed.

(** A read from below and its feed. *)
Lemma vision_turn v d evs' x :
  vision_carries v d -> read_buf v = [] -> inner_read READ_TMP (vs_inner v) = (evs', Ready x) -> x <> [] ->
  incoming (vs_inner v) = x ++ incoming evs' ->
  exists st o sw d', feed (vs_uuid v) (read_state v) x = Some (st, o, sw) /\ d = o ++ d'
    /\ (sw || read_direct_copy v = true -> cmds VISION_COMMAND_PADDING_DIRECT /\ (length o <= length x)%nat)
    /\ forall buf, (sw || read_direct_copy v = true -> buf = []) ->
       vision_carries (set_read v evs' st buf (sw || read_direct_copy v)) (buf ++ d').
Proof.
  intros (Eu & d1 & -> & Hv) Hb Hr Hne E. rewrite Hb, Eu. cbn [app]. unfold vision_carries, set_read.
  cbn [vs_uuid read_buf read_direct_copy read_state vs_inner]. destruct (read_direct_copy v).
  - destruct Hv as (_ & Hc & Hi & Hw). rewrite E in Hw. exists (read_state v), x, false, (incoming evs').
    unfold feed. rewrite (feed_loop_raw _ _ _ (incoming evs') _ d1) by done. destruct (unpads_initial _ _ _ Hi Hw) as [<- Hno].
    split_and!; [done | done | done |]. intros buf Hbuf. split; [done |]. exists (incoming evs'). cbn [orb] in *.
    split_and!; [done | by apply Hbuf | done | done |]. left. split_and!; [done | done | by apply no_uuid_app in Hno].
  - pose proof (expects_feed _ _ _ _ _ Hu Hv Hr E) as Hf. unfold feeds in Hf. destruct (feed uuid (read_state v) x) as [[[st o] sw] |]; [| done].
    destruct Hf as (o' & d' & -> & -> & Hw & Hs). cbn [app] in *. exists st, o', sw, d'. rewrite orb_false_r.
    split_and!; [done | done | |].
    + intros ->. destruct (Hs eq_refl) as [Hi Hc]. split; [done |]. destruct (unpads_initial _ _ _ Hi Hw) as [<- _].
      pose proof (expects_shorter _ _ _ Hv) as H1. rewrite E, !length_app in H1. lia.
    + intros buf Hbuf. split; [done |]. exists d'. split; [done |]. destruct sw; [| by left].
      destruct (Hs eq_refl). split_and!; [by apply Hbuf | done | done | done].
Qed.

Lemma vision_give cap v d :
  1 <= cap -> clean (vs_inner v) -> vision_carries v d -> read_buf v <> [] ->
  let n := Z.to_nat (Z.min cap (zlen (read_buf v))) in
  read_post vs_inner vision_carries cap (waits (vs_inner v)) d
    (Some (set_read v (vs_inner v) (read_state v) (drop n (read_buf v)) (read_direct_copy v), Ready (take n (read_buf v)))).
Proof.
  intros Hcap Hc (Eu & d' & -> & Hv) Hne n. cbn [read_post set_read vs_inner].
  assert (0 < zlen (read_buf v)) by (destruct (read_buf v); [done | len_solve]).
  split_and!; [done | done | unfold n, zlen in *; rewrite length_take; lia |].
  exists (drop n (read_buf v) ++ d'). split_and!; [by rewrite app_assoc, take_drop | |].
  - split; [done |]. exists d'. cbn [read_buf read_direct_copy read_state vs_inner]. split; [done |].
    destruct (read_direct_copy v); [| done]. by destruct Hv.
  - intros E. apply (f_equal length) in E. unfold n, zlen in *. rewrite length_take in E. simpl in E. lia.
Qed.

(** A poll that reads nothing. *)
Lemma vision_same v d evs' :
  vision_carries v d -> incoming evs' = incoming (vs_inner v) -> (opening (vs_inner v) -> opening evs') ->
  vision_carries (set_read v evs' (read_state v) (read_buf v) (read_direct_copy v)) d.
Proof.
  intros (Eu & d' & -> & Hv) Hi Ho. split; [done |]. exists d'. split; [done |]. unfold set_read.
  cbn [read_buf read_direct_copy read_state vs_inner]. unfold expects, starts in *. rewrite Hi.
  destruct (read_direct_copy v); [done |]. naive_solver.
Qed.

Lemma vision_nothing v d : vision_carries v d -> read_buf v = [] -> incoming (vs_inner v) = [] -> d = [].
Proof.
  intros (Eu & d' & -> & Hv) Hb Hi. rewrite Hb. cbn [app]. destruct (read_direct_copy v).
  - destruct Hv as (_ & _ & Hin & Hw). rewrite Hi in Hw. by destruct (unpads_initial _ _ _ Hin Hw) as [<- _].
  - pose proof (expects_shorter _ _ _ Hv) as Hl. rewrite Hi in Hl. destruct d'; [done | simpl in Hl; lia].
Qed.

Lemma vision_read_loop_ok cap fuel : lo <= cap -> forall v d,
  clean (vs_inner v) -> vision_carries v d -> (events_size (vs_inner v) < fuel)%nat ->
  read_post vs_inner vision_carries cap (waits (vs_inner v)) d (vision_read_loop fuel cap v).
Proof.
  intros Hcap. induction fuel as [| fuel IH]; intros v d Hc Hv Hf; [lia |]. cbn [vision_read_loop].
  destruct (Z.eqb_spec (zlen (read_buf v)) 0) as [Hz | Hz]; cbn [negb];
    [| apply vision_give; [lia | done | done | by intros E; rewrite E in Hz]].
  assert (Hb : read_buf v = []) by (destruct (read_buf v); [done | exfalso; revert Hz; len_solve]).
  destruct (decide (incoming (vs_inner v) = [])) as [Hi | Hi].
  - assert (d = []) as -> by by apply (vision_nothing v).
    destruct (inner_read_end READ_TMP (vs_inner v) Hc Hi) as [[E Hnil] | (evs & E & Hc' & Hinc & Hwt)]; rewrite E; cbn [read_post set_read vs_inner].
    + rewrite Hnil. split_and!; [constructor | done | len_solve; lia |]. exists []. split_and!; [done | | done]. apply (vision_same v []); rewrite ?Hnil; done.
    + split_and!; [done | done |]. apply (vision_same v []); [done | congruence | intros Ho; by apply (opening_pending _ _ _ Ho E)].
  - destruct (inner_read_ok READ_TMP (vs_inner v) ltac:(unfold READ_TMP; lia) Hc Hi)
      as (evs' & Hc' & [(E & Hinc & Hwt & Hl) | (b & x & E & Hinc & Hwt & Hl)]); rewrite E.
    + cbn [read_post set_read vs_inner]. split_and!; [done | done |]. apply (vision_same v d); [done | congruence | intros Ho; by apply (opening_pending _ _ _ Ho E)].
    + destruct (vision_turn v d evs' (b :: x) Hv Hb E ltac:(done) Hinc) as (st & o & sw & d' & -> & -> & Hs & Hcar).
      destruct (Z.eqb_spec (zlen o) 0) as [Ho | Ho].
      * assert (o = []) as -> by (destruct o; [done | exfalso; revert Ho; len_solve]). rewrite Hb, <- Hwt.
        apply (IH (set_read v evs' st [] (sw || read_direct_copy v))); [done | by apply Hcar | cbn [set_read vs_inner]; lia].
      * rewrite Hb. cbn [read_post app]. set (n := Z.to_nat (Z.min cap (zlen o))). pose proof (zlen_nonneg o).
        split_and!; [done | done | unfold n, zlen in *; rewrite length_take; lia |].
        exists (drop n o ++ d'). split_and!; [by rewrite app_assoc, take_drop | |].
        -- apply Hcar. intros Hsw. destruct (Hs Hsw) as [Hcm Hle]. apply Hdirect in Hcm. apply inner_read_size in E.
           apply drop_ge. unfold n, zlen, READ_TMP in *. lia.
        -- intros En. apply (f_equal length) in En. unfold n, zlen in *. rewrite length_take in En. simpl in En. lia.
Qed.

Lemma vision_poll_read_ok cap v d :
  lo <= cap -> clean (vs_inner v) -> vision_carries v d ->
  read_post vs_inner vision_carries cap (waits (vs_inner v)) d (vision_poll_read cap v).
Proof.
  intros Hcap Hc Hv. unfold vision_poll_read. destruct (read_direct_copy v) eqn:Hd; [| apply vision_read_loop_ok; [done | done | done | lia]].
  destruct (decide (incoming (vs_inner v) = [])) as [Hi | Hi].
  - assert (Hb : read_buf v = []) by (destruct Hv as (_ & d' & _ & Hv); rewrite Hd in Hv; by destruct Hv).
    assert (d = []) as -> by by apply (vision_nothing v).
    destruct (inner_read_end (Z.to_nat cap) (vs_inner v) Hc Hi) as [[E Hnil] | (evs & E & Hc' & Hinc & Hwt)]; rewrite E, <- Hd; cbn [read_post set_read vs_inner].
    + rewrite Hnil. split_and!; [constructor | done | len_solve; lia |]. exists []. split_and!; [done | | done]. apply (vision_same v []); rewrite ?Hnil; done.
    + split_and!; [done | done |]. apply (vision_same v []); [done | congruence | intros Ho; by apply (opening_pending _ _ _ Ho E)].
  - destruct (inner_read_ok (Z.to_nat cap) (vs_inner v) ltac:(lia) Hc Hi)
      as (evs' & Hc' & [(E & Hinc & Hwt & Hl) | (b & x & E & Hinc & Hwt & Hl)]); rewrite E.
    + rewrite <- Hd. cbn [read_post set_read vs_inner]. split_and!; [done | done |].
      apply (vision_same v d); [done | congruence | intros Ho; by apply (opening_pending _ _ _ Ho E)].
    + destruct Hv as (Eu & d' & -> & Hv). rewrite Hd in Hv. destruct Hv as (Hb & Hcm & Hin & Hw). rewrite Hinc in Hw.
      destruct (unpads_initial _ _ _ Hin Hw) as [<- Hno]. rewrite Hb. cbn [read_post set_read vs_inner app]. apply inner_read_size in E.
      split_and!; [done | done | unfold zlen; lia |]. exists (incoming evs'). split_and!; [done | | done].
      split; [done |]. exists (incoming evs'). cbn [set_read read_buf read_direct_copy read_state vs_inner]. split_and!; [done | done | done | done |].
      left. split_and!; [done | done |]. by apply (no_uuid_app (b :: x)).
Qed.

End unpad.

Lemma chain_ok_impl (P : Z -> Prop) fs :
  chain_ok (fun _ => True) fs -> Forall (fun f => P (vf_command f)) fs -> chain_ok P fs.
Proof.
  induction fs as [| f fs IH]; [done |]. intros H Hf. apply Forall_cons_iff in Hf as [Hf1 Hf].
  assert (frame_ok (fun _ => True) f -> frame_ok P f) by (unfold frame_ok; naive_solver).
  destruct fs as [| f' fs]; cbn [chain_ok] in *; naive_solver.
Qed.

#[global] Instance vision_reader : AsyncReader VisionStream := {| rd_poll := vision_poll_read; rd_inner := vs_inner |}.

(** Frames in any pieces are read as their contents, for buffers that take a whole read or when no frame announces direct copy. *)
Lemma vision_reads (uuid : bytes) (fs : list VisionFrame) (raw : bytes) (evs : list PollEvent) (sink : list WriteEvent) (caps : list Z) :
  zlen uuid = 16 -> chain_ok (fun _ => True) fs -> no_uuid uuid raw -> clean evs -> opening evs ->
  incoming evs = uuid ++ chain_bytes fs ++ raw -> Forall (Z.le 1) caps ->
  Forall (Z.le 8192) caps \/ Forall (fun f => vf_command f <> VISION_COMMAND_PADDING_DIRECT) fs ->
  reads_all caps (vision_new evs sink uuid) (chain_content fs ++ raw).
Proof.
  intros Hu Hfs Hraw Hc Ho Hi Hcaps Hsel.
  assert (exists cmds lo, chain_ok cmds fs /\ 1 <= lo /\ (cmds VISION_COMMAND_PADDING_DIRECT -> 8192 <= lo) /\ Forall (Z.le lo) caps)
    as (cmds & lo & Hfs' & Hlo & Hd & Hcaps').
  { destruct Hsel as [H | H]; [exists (fun _ => True), 8192; split_and!; [done | lia | done | done] |].
    exists (fun c => c <> VISION_COMMAND_PADDING_DIRECT), 1. split_and!; [| done | done | done].
    by apply chain_ok_impl. }
  destruct (@polls_ok_from VisionStream vision_reader (vision_carries uuid cmds) lo (vision_poll_read_ok uuid cmds lo Hlo Hu Hd) caps Hcaps' (vision_new evs sink uuid) (chain_content fs ++ raw))
    as (v' & out & d' & Hp & E & _ & _ & Hall); [done | |].
  - split; [done |]. exists (chain_content fs ++ raw). split; [done |]. right. split; [done |]. split; [done |]. by exists fs, raw.
  - exists v', out. split_and!; [done | by exists d' |]. intros Hl. rewrite E, (Hall Hl). by rewrite app_nil_r.
Qed.

(** ** Writes *)

#[global] Instance vision_writer : AsyncWriter VisionStream := {| wr_write := vision_poll_write; wr_flush := vision_poll_flush |}.

Lemma vision_pad_frame uuid content command once :
  zlen content < 65536 ->
  vision_pad_chunk uuid content command once = (if once then uuid else []) ++ frame_bytes (mkFrame command content []).
Proof.
  intros H. unfold vision_pad_chunk, frame_bytes, frame_header. cbn [vf_command vf_content vf_padding]. rewrite app_nil_r.
  unfold wrap. rewrite Z.mod_small; [done |]. rewrite Z.shiftr_div_pow2 by lia. pose proof (zlen_nonneg content).
  split; [apply Z.div_pos; lia | apply Z.div_lt_upper_bound; lia].
Qed.

(** A write that is accepted before the switch to direct copy sends one frame. *)
Lemma vision_framed_write buf v v' n :
  buf <> [] -> zlen buf < 65536 -> write_buf v = [] -> write_direct_copy v = false ->
  vision_poll_write buf v = (v', Ready n) ->
  n = zlen buf /\ write_buf v' = [] /\ write_uuid_once v' = false
  /\ write_direct_copy v' = (vision_command buf =? VISION_COMMAND_PADDING_DIRECT)
  /\ vs_uuid v' = vs_uuid v
  /\ vs_sent v' = vs_sent v ++ (if write_uuid_once v then vs_uuid v else []) ++ frame_bytes (mkFrame (vision_command buf) buf []).
Proof.
  intros Hne Hl Hb Hd. unfold vision_poll_write. rewrite Hb. change (zlen [] =? 0) with true. cbn match. rewrite Hd.
  rewrite (proj2 (Z.eqb_neq _ _)) by (destruct buf; [done | len_solve]). unfold poll_drain_write_buf.
  cbn [set_write vs_sink vs_sent write_buf write_uuid_once write_direct_copy].
  destruct (drain _ _ _) as [[[sink left] sent] [| | e]] eqn:E; [| intros [=] | intros [=]].
  pose proof (drain_empty _ _ _ _ _ _ E) as ->. apply drain_ok in E. rewrite app_nil_r in E.
  intros [= <- <-]. cbn. split_and!; try done.
  - by destruct (_ =? _).
  - by rewrite E, vision_pad_frame.
Qed.

(** After the switch the bytes go through as they are. *)
Lemma vision_direct_run ops : forall v acc v' acc',
  write_buf v = [] -> write_direct_copy v = true -> write_run ops v acc = Some (v', acc') ->
  exists x, acc' = acc ++ x /\ vs_sent v' = vs_sent v ++ x.
Proof.
  induction ops as [| [buf |] ops IH]; intros v acc v' acc' Hb Hd; cbn [write_run].
  - intros [= <- <-]. exists []. by rewrite !app_nil_r.
  - cbn [wr_write vision_writer]. unfold vision_poll_write. rewrite Hb. change (zlen [] =? 0) with true. cbn match. rewrite Hd.
    unfold inner_write. destruct (vs_sink v) as [| [n | |] sink]; [by apply IH | | intros H; by apply IH in H | done].
    intros H. apply IH in H as (x & -> & ->); [| done | done]. eexists. cbn [set_write vs_sent]. by rewrite <- !app_assoc.
  - cbn [wr_flush vision_writer]. unfold vision_poll_flush, poll_drain_write_buf. rewrite Hb. unfold drain at 1.
    destruct (vs_sink v); (intros H; apply IH in H; [done | done | done]).
Qed.

(** C26. XTLS Vision, both sides.  Read: a peer sends the user's id, frames of which all but the last say to continue, then bytes
    without framing in which the id does not occur; the connection delivers them in pieces of any sizes with waits between them,
    the first of at least 21 bytes.  A client with buffers of at least 8192 bytes, or of any sizes when no frame announces direct
    copy, reads the contents of the frames and the bytes after them, and nothing else.  Written by this side: when the first
    write is complete TLS records and is accepted at once, the peer reads exactly what all the writes together accepted. *)
Theorem vision_stream (uuid : bytes) (evs : list PollEvent) (sink sink' : list WriteEvent) (caps : list Z) (fs : list VisionFrame)
    (raw tls : bytes) (n : Z) (v0 v : VisionStream) (ops : list WriteOp) (acc : bytes) :
  zlen uuid = 16 -> clean evs -> opening evs -> Forall (Z.le 1) caps ->
  (chain_ok (fun _ => True) fs -> no_uuid uuid raw -> incoming evs = uuid ++ chain_bytes fs ++ raw ->
   Forall (Z.le 8192) caps \/ Forall (fun f => vf_command f <> VISION_COMMAND_PADDING_DIRECT) fs ->
   reads_all caps (vision_new evs sink uuid) (chain_content fs ++ raw))
  /\ (tls <> [] -> zlen tls < 65536 -> vision_command tls = VISION_COMMAND_PADDING_DIRECT ->
      vision_poll_write tls (vision_new [] sink' uuid) = (v0, Ready n) -> write_run ops v0 [] = Some (v, acc) ->
      no_uuid uuid acc -> incoming evs = vs_sent v -> Forall (Z.le 8192) caps ->
      reads_all caps (vision_new evs sink uuid) (tls ++ acc)).
Proof.
  intros Hu Hc Ho Hcaps. split; [intros; by apply vision_reads |].
  intros Hne Hl Hcmd Hw Hr Hno Hi Hbig.
  destruct (vision_framed_write tls (vision_new [] sink' uuid) v0 n Hne Hl eq_refl eq_refl Hw) as (_ & Hb & _ & Hd & _ & Hs). rewrite Hcmd in *.
  destruct (vision_direct_run ops v0 [] v acc Hb Hd Hr) as (x & -> & Hx). cbn [app] in *.
  assert (E : tls = chain_content [mkFrame VISION_COMMAND_PADDING_DIRECT tls []]) by (unfold chain_content; cbn; by rewrite app_nil_r).
  rewrite E. apply vision_reads; try done; [| by left].
  rewrite Hi, Hx, Hs. unfold chain_bytes. cbn [vision_new vs_sent vs_uuid write_uuid_once fmap list_fmap concat app].
  by rewrite app_nil_r, <- app_assoc.
Qed.

(** The write side puts each write in a frame that says padding ends, but the peer stops looking for frames at the first one: the
    five bytes of the header of a second write are read as data. *)
Theorem vision_second_write (uuid b1 b2 : bytes) (evs : list PollEvent) (sink sink' : list WriteEvent) (caps : list Z) (n1 n2 : Z) (v1 v2 : VisionStream) :
  zlen uuid = 16 -> clean evs -> opening evs -> Forall (Z.le 1) caps ->
  b1 <> [] -> zlen b1 < 65536 -> vision_command b1 = VISION_COMMAND_PADDING_END -> b2 <> [] -> zlen b2 < 65536 ->
  vision_poll_write b1 (vision_new [] sink' uuid) = (v1, Ready n1) -> vision_poll_write b2 v1 = (v2, Ready n2) ->
  let h := frame_header (mkFrame (vision_command b2) b2 []) in
  no_uuid uuid (h ++ b2) -> incoming evs = vs_sent v2 ->
  reads_all caps (vision_new evs sink uuid) (b1 ++ h ++ b2).
Proof.
  intros Hu Hc Ho Hcaps Hne1 Hl1 Hc1 Hne2 Hl2 Hw1 Hw2 h Hno Hi.
  destruct (vision_framed_write b1 (vision_new [] sink' uuid) v1 n1 Hne1 Hl1 eq_refl eq_refl Hw1) as (_ & Hb & Ho1 & Hd & Eu & Hs1). rewrite Hc1 in *.
  destruct (vision_framed_write _ _ _ _ Hne2 Hl2 Hb Hd Hw2) as (_ & _ & _ & _ & _ & Hs2). rewrite Ho1, Hs1 in Hs2.
  assert (E : b1 = chain_content [mkFrame VISION_COMMAND_PADDING_END b1 []]) by (unfold chain_content; cbn; by rewrite app_nil_r).
  rewrite E. apply vision_reads; try done; [| by right; repeat constructor].
  rewrite Hi, Hs2. unfold chain_bytes, h. cbn [vision_new vs_sent vs_uuid write_uuid_once fmap list_fmap concat app].
  unfold frame_bytes. cbn [vf_content vf_padding vf_command]. by rewrite !app_nil_r, <- !app_assoc.
Qed.

(** A write that has to wait is sent again by the retry that follows: the frame twice, the second without the user's id. *)
Theorem vision_retried_write (buf : bytes) (v v1 v2 : VisionStream) (n : Z) :
  buf <> [] -> zlen buf < 65536 -> write_buf v = [] -> write_direct_copy v = false ->
  vision_poll_write buf v = (v1, Pending) -> vision_poll_write buf v1 = (v2, Ready n) ->
  let f := frame_bytes (mkFrame (vision_command buf) buf []) in
  vs_sent v2 = vs_sent v ++ (if write_uuid_once v then vs_uuid v else []) ++ f ++ f.
Proof.
  intros Hne Hl Hb Hd H1 H2 f. unfold vision_poll_write in H1. rewrite Hb in H1. change (zlen [] =? 0) with true in H1. cbn match in H1.
  rewrite Hd, (proj2 (Z.eqb_neq (zlen buf) 0)) in H1 by (destruct buf; [done | len_solve]).
  unfold poll_drain_write_buf in H1. cbn [set_write vs_sink vs_sent write_buf write_uuid_once write_direct_copy] in H1.
  destruct (drain (vs_sink v) _ _) as [[[sink left] sent] [| | e]] eqn:E; [discriminate H1 | | discriminate H1].
  injection H1 as <-. apply drain_ok in E. rewrite vision_pad_frame in E by done. fold f in E.
  assert (H3 : exists sink', vision_poll_write buf (set_write v sink' (sent ++ left) false false []) = (v2, Ready n)).
  { revert H2. unfold vision_poll_write at 1. cbn [set_write write_buf vs_sink vs_sent write_uuid_once write_direct_copy].
    destruct (Z.eqb_spec (zlen left) 0) as [Hz | Hz].
    - assert (left = []) as -> by (destruct left; [done | exfalso; revert Hz; len_solve]). rewrite app_nil_r. intros H2. by exists sink.
    - unfold poll_drain_write_buf at 1. cbn [set_write write_buf vs_sink vs_sent].
      destruct (drain sink left sent) as [[[sink' left'] sent'] [| | e]] eqn:E2; [| by intros [=] | by intros [=]].
      pose proof (drain_empty _ _ _ _ _ _ E2) as ->. apply drain_ok in E2. rewrite app_nil_r in E2. subst sent'. intros H2. by exists sink'. }
  destruct H3 as (sink' & H3). destruct (vision_framed_write buf (set_write v sink' (sent ++ left) false false []) v2 n Hne Hl eq_refl eq_refl H3) as (_ & _ & _ & _ & _ & Hs).
  rewrite Hs. cbn [set_write vs_sent write_uuid_once app]. fold f. by rewrite E, <- !app_assoc.
Qed.

(** When the frame that announces direct copy holds more than the caller's buffer, the rest stays in the read buffer and is never
    given out: the reads that follow go to the stream underneath. *)
Example vision_direct_loses :
  let uuid := replicate 16 7 in
  polls [2; 2; 2; 2] (vision_new [PData (uuid ++ [2; 0; 3; 0; 0; 97; 98; 99]); PData [100]] [] uuid)
  = Some (mkVision [] uuid (mkUnpad (-1) (-1) (-1) 2) [99] true [] [] true false [], [97; 98; 100]).
Proof. vm_compute. reflexivity. Qed.

(** A first read shorter than the id and the header is given out as it is, framing included. *)
Example vision_short_first_read :
  let uuid := replicate 16 7 in
  let '(st, p) := default (vision_new [] [] uuid, [])
    (polls [8192; 8192] (vision_new [PData uuid; PData [1; 0; 1; 0; 0; 97]] [] uuid)) in
  p = uuid ++ [1; 0; 1; 0; 0; 97].
Proof. vm_compute. reflexivity. Qed.

Lemma no_uuid_short uuid w : zlen w < zlen uuid -> no_uuid uuid w.
Proof. intros H a b ->. unfold zlen in H. rewrite !length_app in H. lia. Qed.

(** Two frames of a peer in three pieces with a wait, and a TLS record of this side with two more writes. *)
Lemma vision_stream_witness :
  let uuid := replicate 16 7 in
  reads_all [5; 5; 5; 5; 5; 5; 5] (vision_new [PData (uuid ++ [0; 0; 2; 0; 1]); PPending; PData [97; 98; 0; 1]; PData [0; 1; 0; 0; 99; 100]] [] uuid)
    [97; 98; 99; 100]
  /\ reads_all (replicate 40 8192) (vision_new [PData (uuid ++ [2; 0; 6; 0; 0; 0x17; 3; 3; 0; 1; 9; 50; 51])] [] uuid)
       [0x17; 3; 3; 0; 1; 9; 50; 51].
Proof.
  intros uuid. split.
  - apply (proj1 (vision_stream uuid [PData (uuid ++ [0; 0; 2; 0; 1]); PPending; PData [97; 98; 0; 1]; PData [0; 1; 0; 0; 99; 100]] [] []
      [5; 5; 5; 5; 5; 5; 5] [mkFrame 0 [97; 98] [0]; mkFrame 1 [99] []] [100] [] 0 (vision_new [] [] uuid) (vision_new [] [] uuid) [] []
      eq_refl ltac:(by decided) ltac:(done) ltac:(by decided))).
    + cbn. unfold frame_ok. cbn. by split_and!.
    + by apply no_uuid_short.
    + reflexivity.
    + right. repeat constructor; done.
  - eapply (proj2 (vision_stream uuid [PData (uuid ++ [2; 0; 6; 0; 0; 0x17; 3; 3; 0; 1; 9; 50; 51])] [] [WAccept 100; WAccept 1; WPending; WAccept 1]
      (replicate 40 8192) [] [] [0x17; 3; 3; 0; 1; 9] 6 _ _ [WWrite [50; 51]; WFlush; WWrite [51]; WWrite [51]] [50; 51]
      eq_refl ltac:(by decided) ltac:(done) ltac:(by decided)) ltac:(done) eq_refl eq_refl eq_refl eq_refl).
    + by apply no_uuid_short.
    + reflexivity.
    + by decided.
Defined.
