(* ===== verification/Boxed.v ===== *)
(** Boxed streams of [blackwire-common/src/stream.rs]: [PrependedStream], [PooledStream],
    [ReunionStream], and the recovery of a TCP socket from a boxed stream
    ([try_into_tcp_stream], [try_into_tcp_stream_with_prefix]).

    A boxed stream is its concrete type with the sockets underneath; the dynamic type test of
    the code is the match on the constructor. *)

From stdpp Require Import base list strings numbers.
From S2P Require Import Prelude Address Streams Chunks.

(** A connection: what its reads give, what its writes answer, the bytes it took, and
    whether its writing half was shut down. *)
Record TcpStream := mkTcp {
  tcp_in : list PollEvent;
  tcp_out : list WriteEvent;
  tcp_sent : bytes;
  tcp_closed : bool;
}.

Record PrependedStream (S : Type) := mkPrepended { prefix : bytes; prefix_pos : Z; pr_inner : S }.
Arguments mkPrepended {S} _ _ _.
Arguments prefix {S} _.
Arguments prefix_pos {S} _.
Arguments pr_inner {S} _.

Scheme All for PrependedStream.

Record PooledStream (S : Type) := mkPooled { po_inner : S; pool_tag : option String.string; peer_addr : option SocketAddr }.
Arguments mkPooled {S} _ _ _.
Arguments po_inner {S} _.
Arguments pool_tag {S} _.
Arguments peer_addr {S} _.

(** [PrependedStream::new] and [into_parts]. *)
Definition prepended_new {S} (inner : S) (pre : bytes) : PrependedStream S := mkPrepended pre 0 inner.

Definition prepended_into_parts {S} (p : PrependedStream S) : S * bytes :=
  (pr_inner p, if zlen (prefix p) <=? prefix_pos p then [] else drop (Z.to_nat (prefix_pos p)) (prefix p)).

(** [poll_read], over the [poll_read] of the stream inside. *)
Definition prepended_poll_read {S} (inner_poll : Z -> S -> option (S * poll bytes)) (cap : Z) (p : PrependedStream S)
  : option (PrependedStream S * poll bytes) :=
  if prefix_pos p <? zlen (prefix p) then
    let remaining := drop (Z.to_nat (prefix_pos p)) (prefix p) in
    let n := Z.min (zlen remaining) cap in
    Some (mkPrepended (prefix p) (prefix_pos p + n) (pr_inner p), Ready (take (Z.to_nat n) remaining))
  else
    match inner_poll cap (pr_inner p) with
    | Some (s, r) => Some (mkPrepended (prefix p) (prefix_pos p) s, r)
    | None => None
    end.

Definition pooled_poll_read {S} (inner_poll : Z -> S -> option (S * poll bytes)) (cap : Z) (p : PooledStream S)
  : option (PooledStream S * poll bytes) :=
  match inner_poll cap (po_inner p) with
  | Some (s, r) => Some (mkPooled s (pool_tag p) (peer_addr p), r)
  | None => None
  end.

Definition pooled_into_metadata_parts {S} (p : PooledStream S) : S * option String.string * option SocketAddr :=
  (po_inner p, pool_tag p, peer_addr p).

(** The writes of both go to the stream inside. *)
Definition tcp_read (cap : Z) (t : TcpStream) : TcpStream * poll bytes :=
  let '(evs, r) := inner_read (Z.to_nat cap) (tcp_in t) in
  (mkTcp evs (tcp_out t) (tcp_sent t) (tcp_closed t), r).

Definition tcp_poll_read (cap : Z) (t : TcpStream) : option (TcpStream * poll bytes) := Some (tcp_read cap t).

(** ** Boxed streams *)

(** Any other stream (TLS, WebSocket, ...) by the bytes its reads give and its sink.  The relay takes a path of its own for an
    inbound XTLS Vision stream, which is not modelled; no constructor stands for one. *)
Inductive BoxedStream :=
| BTcp (t : TcpStream)
| BPrependedTcp (p : PrependedStream TcpStream)
| BPooledTcp (p : PooledStream TcpStream)
| BPrependedBoxed (p : PrependedStream BoxedStream)
| BOther (t : TcpStream).

(** [try_into_tcp_stream_with_prefix]. *)
Fixpoint try_into_tcp_stream_with_prefix (stream : BoxedStream) : (TcpStream * bytes) + BoxedStream :=
  match stream with
  | BTcp t => inl (t, [])
  | BPrependedTcp p => inl (prepended_into_parts p)
  | BPooledTcp p => let '(t, _, _) := pooled_into_metadata_parts p in inl (t, [])
  | BPrependedBoxed p =>
      let '(inner, pre) := prepended_into_parts p in
      match try_into_tcp_stream_with_prefix inner with
      | inl (tcp, inner_prefix) =>
          if zlen pre =? 0 then inl (tcp, inner_prefix)
          else if zlen inner_prefix =? 0 then inl (tcp, pre)
          else inl (tcp, pre ++ inner_prefix)
      | inr inner => inr (BPrependedBoxed (prepended_new inner pre))
      end
  | BOther t => inr stream
  end.

Definition try_into_tcp_stream (stream : BoxedStream) : TcpStream + BoxedStream :=
  match try_into_tcp_stream_with_prefix stream with
  | inl (tcp, pre) => if zlen pre =? 0 then inl tcp else inr (BPrependedTcp (prepended_new tcp pre))
  | inr stream => inr stream
  end.

Definition boxed_stream_is_tcp_like (stream : BoxedStream) : bool :=
  match stream with
  | BTcp _ | BPrependedTcp _ | BPooledTcp _ | BPrependedBoxed _ => true
  | BOther _ => false
  end.

Fixpoint boxed_poll_read (cap : Z) (stream : BoxedStream) : option (BoxedStream * poll bytes) :=
  match stream with
  | BTcp t => '(t, r) ← tcp_poll_read cap t; Some (BTcp t, r)
  | BOther t => '(t, r) ← tcp_poll_read cap t; Some (BOther t, r)
  | BPrependedTcp p => '(p, r) ← prepended_poll_read tcp_poll_read cap p; Some (BPrependedTcp p, r)
  | BPooledTcp p => '(p, r) ← pooled_poll_read tcp_poll_read cap p; Some (BPooledTcp p, r)
  | BPrependedBoxed p => '(p, r) ← prepended_poll_read boxed_poll_read cap p; Some (BPrependedBoxed p, r)
  end.

(** * What a boxed stream still gives *)

(** The socket at the bottom. *)
Fixpoint bottom (stream : BoxedStream) : TcpStream :=
  match stream with
  | BTcp t | BOther t => t
  | BPrependedTcp p => pr_inner p
  | BPooledTcp p => po_inner p
  | BPrependedBoxed p => bottom (pr_inner p)
  end.

Definition unread (pre : bytes) (pos : Z) : bytes := drop (Z.to_nat pos) pre.

(** Prefixes not read yet, outermost first. *)
Fixpoint pending_prefix (stream : BoxedStream) : bytes :=
  match stream with
  | BPrependedTcp p => unread (prefix p) (prefix_pos p)
  | BPrependedBoxed p => unread (prefix p) (prefix_pos p) ++ pending_prefix (pr_inner p)
  | _ => []
  end.

Definition to_come (stream : BoxedStream) : bytes := pending_prefix stream ++ incoming (tcp_in (bottom stream)).

(** Positions stay inside the prefixes. *)
Fixpoint boxed_ok (stream : BoxedStream) : Prop :=
  match stream with
  | BPrependedTcp p => 0 <= prefix_pos p
  | BPrependedBoxed p => 0 <= prefix_pos p /\ boxed_ok (pr_inner p)
  | _ => True
  end.

(** Nothing but prefixes above a socket. *)
Fixpoint over_tcp (stream : BoxedStream) : bool :=
  match stream with BOther _ => false | BPrependedBoxed p => over_tcp (pr_inner p) | _ => true end.

(** ** Reads *)

Section prepended.
Context {S : Type} (inner : S -> list PollEvent) (carries : S -> bytes -> Prop) (inner_poll : Z -> S -> option (S * poll bytes)).

Definition prepended_carries (p : PrependedStream S) (d : bytes) : Prop :=
  0 <= prefix_pos p /\ exists d', d = unread (prefix p) (prefix_pos p) ++ d' /\ carries (pr_inner p) d'.

Abbreviation prepended_inner := (fun p : PrependedStream S => inner (pr_inner p)).

Lemma prepended_poll_read_ok cap p d :
  1 <= cap -> clean (inner (pr_inner p)) -> prepended_carries p d ->
  (forall d', carries (pr_inner p) d' -> read_post inner carries cap (waits (inner (pr_inner p))) d' (inner_poll cap (pr_inner p))) ->
  read_post prepended_inner prepended_carries cap (waits (inner (pr_inner p))) d (prepended_poll_read inner_poll cap p).
Proof.
  intros Hcap Hc (Hpos & d' & -> & Hd) Hin. unfold prepended_poll_read, unread. destruct (Z.ltb_spec (prefix_pos p) (zlen (prefix p))) as [Hl | Hl].
  - cbn [read_post pr_inner]. set (rem := drop _ _). set (n := Z.to_nat (Z.min (zlen rem) cap)).
    assert (Hr : 0 < zlen rem) by (unfold rem, zlen in *; rewrite length_drop; lia).
    split_and!; [done | done | unfold n, zlen in *; rewrite length_take; lia |].
    exists (drop n rem ++ d'). split_and!; [by rewrite app_assoc, take_drop | |].
    + split; [cbn [prefix_pos]; lia |]. exists d'. split; [| done]. cbn [prefix prefix_pos]. unfold unread, rem, n. rewrite drop_drop.
      fold rem. do 2 f_equal. unfold zlen in *. lia.
    + intros E. apply (f_equal length) in E. unfold n, zlen in *. rewrite length_take in E. simpl in E. lia.
  - rewrite drop_ge by (unfold zlen in Hl; lia). cbn [app]. specialize (Hin d' Hd).
    assert (Hnil : unread (prefix p) (prefix_pos p) = []) by (apply drop_ge; unfold zlen in Hl; lia).
    destruct (inner_poll cap (pr_inner p)) as [[s [out | |]] |]; cbn [read_post pr_inner] in *; [| | done | done].
    + destruct Hin as (H1 & H2 & H3 & d1 & E & H4 & H5). split_and!; [done | done | done |]. exists d1.
      split_and!; [done | | done]. split; [done |]. exists d1. cbn [prefix prefix_pos pr_inner]. by rewrite Hnil.
    + destruct Hin as (H1 & H2 & H3). split_and!; [done | done |]. split; [done |]. exists d'. cbn [prefix prefix_pos pr_inner]. by rewrite Hnil.
Qed.

End prepended.

(** The wrapper keeps the promise of the reader inside. *)
#[global] Instance prepended_reader {S} `{AsyncReader S} : AsyncReader (PrependedStream S) :=
  {| rd_poll := prepended_poll_read rd_poll; rd_inner := fun p => rd_inner (pr_inner p) |}.

#[global] Instance prepended_spec {S} `{ReaderSpec S carries} : ReaderSpec (PrependedStream S) (prepended_carries carries).
Proof. intros cap p d Hcap Hc Hd. apply prepended_poll_read_ok; [done | done | done |]. intros d' Hd'. by apply rd_ok. Qed.

#[global] Instance tcp_reader : AsyncReader TcpStream := {| rd_poll := tcp_poll_read; rd_inner := tcp_in |}.

Definition tcp_carries (t : TcpStream) (d : bytes) : Prop := incoming (tcp_in t) = d.

#[global] Instance tcp_spec : ReaderSpec TcpStream tcp_carries.
Proof.
  intros cap t d Hcap Hc <-. cbn [rd_poll rd_inner tcp_reader] in *. unfold tcp_poll_read, tcp_read.
  destruct (decide (incoming (tcp_in t) = [])) as [Hi | Hi].
  - destruct (inner_read_end (Z.to_nat cap) (tcp_in t) Hc Hi) as [[E Hnil] | (evs & E & Hc' & Hinc & Hwt)]; rewrite E; cbn [read_post tcp_in].
    + rewrite Hnil in *. split_and!; [done | done | len_solve; lia |]. by exists [].
    + split_and!; [done | done |]. unfold tcp_carries. cbn [tcp_in]. congruence.
  - destruct (inner_read_ok (Z.to_nat cap) (tcp_in t) ltac:(lia) Hc Hi)
      as (evs' & Hc' & [(E & Hinc & Hwt & Hl) | (b & x & E & Hinc & Hwt & Hl)]); rewrite E; cbn [read_post tcp_in].
    + split_and!; [done | done |]. unfold tcp_carries. cbn [tcp_in]. congruence.
    + apply inner_read_size in E. split_and!; [done | done | unfold zlen; lia |]. by exists (incoming evs').
Qed.

#[global] Instance boxed_reader : AsyncReader BoxedStream := {| rd_poll := boxed_poll_read; rd_inner := fun b => tcp_in (bottom b) |}.

Definition boxed_carries (b : BoxedStream) (d : bytes) : Prop := boxed_ok b /\ d = to_come b.

Lemma boxed_poll_read_ok b : forall cap d,
  1 <= cap -> clean (tcp_in (bottom b)) -> boxed_carries b d ->
  read_post rd_inner boxed_carries cap (waits (tcp_in (bottom b))) d (boxed_poll_read cap b).
Proof.
  assert (Hlift : forall {S} (I : S -> list PollEvent) (C : S -> bytes -> Prop) (mk : S -> BoxedStream) cap n d r,
    (forall s, I s = tcp_in (bottom (mk s))) -> (forall s d', C s d' -> boxed_carries (mk s) d') ->
    read_post I C cap n d r -> read_post rd_inner boxed_carries cap n d ('(s, x) ← r; Some (mk s, x))).
  { intros S I C mk cap n d r HI HC H. destruct r as [[s [out | |]] |]; cbn [mbind option_bind read_post rd_inner boxed_reader] in *; try done.
    - rewrite <- HI. destruct H as (H1 & H2 & H3 & d' & H4 & H5 & H6). split_and!; try done. exists d'. auto.
    - rewrite <- HI. destruct H as (H1 & H2 & H3). auto. }
  induction b as [t | p | p | p IH | t]; intros cap d Hcap Hc [Hok ->]; cbn [boxed_poll_read bottom] in *.
  - apply (Hlift _ tcp_in tcp_carries); [done | by intros s d' <- | by apply tcp_spec].
  - apply (Hlift _ (fun p => tcp_in (pr_inner p)) (prepended_carries tcp_carries)); [done | |].
    + intros s d' (Hp & d1 & -> & <-). by split.
    + refine (prepended_spec (carries := tcp_carries) cap p _ Hcap Hc _). split; [done |]. by exists (incoming (tcp_in (pr_inner p))).
  - unfold pooled_poll_read. pose proof (tcp_spec cap (po_inner p) (incoming (tcp_in (po_inner p))) Hcap Hc eq_refl) as H.
    apply (Hlift _ tcp_in tcp_carries (fun t => BPooledTcp (mkPooled t (pool_tag p) (peer_addr p)))) in H; [| done | by intros s d' <-].
    cbn [rd_poll tcp_reader] in H. unfold to_come. cbn [pending_prefix bottom app]. by destruct (tcp_poll_read cap (po_inner p)) as [[]|].
  - destruct Hok as [Hp Hok]. inversion IH as [pre pos inner Hinner]. subst p. cbn [prefix_pos pr_inner prefix] in *.
    apply (Hlift _ (fun p => tcp_in (bottom (pr_inner p))) (prepended_carries boxed_carries)); [done | |].
    + intros s d' (Hs & d1 & -> & Hd1 & ->). split; [by split |]. unfold to_come. cbn [pending_prefix bottom]. by rewrite app_assoc.
    + apply (prepended_poll_read_ok (fun b => tcp_in (bottom b))); [done | done | |].
      * split; [done |]. exists (to_come inner). split; [| by split]. unfold to_come. cbn [pending_prefix bottom prefix prefix_pos pr_inner]. by rewrite app_assoc.
      * intros d' Hd'. by apply Hinner.
  - apply (Hlift _ tcp_in tcp_carries); [done | by intros s d' <- | by apply tcp_spec].
Qed.

#[global] Instance boxed_spec : ReaderSpec BoxedStream boxed_carries.
Proof. intros cap b d Hcap Hc Hd. by apply boxed_poll_read_ok. Qed.

(** ** Recovery of the socket *)

Lemma into_parts_unread {S} (p : PrependedStream S) : prepended_into_parts p = (pr_inner p, unread (prefix p) (prefix_pos p)).
Proof.
  unfold prepended_into_parts, unread. destruct (Z.leb_spec (zlen (prefix p)) (prefix_pos p)); [| done].
  by rewrite drop_ge by (unfold zlen in *; lia).
Qed.

Lemma try_into_with_prefix_ok b : boxed_ok b ->
  match try_into_tcp_stream_with_prefix b with
  | inl (tcp, pre) => over_tcp b = true /\ tcp = bottom b /\ pre = pending_prefix b
  | inr b' => over_tcp b = false /\ bottom b' = bottom b /\ pending_prefix b' = pending_prefix b /\ boxed_ok b'
  end.
Proof.
  induction b as [t | p | p | p IH | t]; intros Hok; cbn [try_into_tcp_stream_with_prefix over_tcp bottom pending_prefix]; try done.
  - by rewrite into_parts_unread.
  - destruct Hok as [Hp Hok]. inversion IH as [pre pos inner Hinner]. subst p. rewrite into_parts_unread. cbn [prefix_pos pr_inner prefix] in *.
    specialize (Hinner Hok). destruct (try_into_tcp_stream_with_prefix inner) as [[tcp q] | b'].
    + destruct Hinner as (H1 & -> & ->). destruct (Z.eqb_spec (zlen (unread pre pos)) 0) as [Hz | Hz].
      { apply zlen_0_nil in Hz. by rewrite Hz. }
      destruct (Z.eqb_spec (zlen (pending_prefix inner)) 0) as [Hz' | Hz']; [| done].
      apply zlen_0_nil in Hz'. by rewrite Hz', app_nil_r.
    + destruct Hinner as (H1 & H2 & H3 & H4). cbn [bottom pending_prefix boxed_ok prepended_new pr_inner prefix prefix_pos].
      rewrite H2, H3. split_and!; done.
Qed.

(** Boxed streams lose no byte.  A stream with bytes read ahead and put back in front of it, at any depth, gives those bytes
    first and then what its socket delivers, whatever the sizes of the reads and the waits.  Taking the socket out succeeds
    exactly when nothing but such wrappers lies above it, and gives the socket itself with the bytes still to be read first, in
    order; otherwise the caller gets a stream back that still reads as the one it gave. *)
Theorem boxed_stream_bytes (b : BoxedStream) (caps : list Z) :
  boxed_ok b -> clean (tcp_in (bottom b)) -> Forall (Z.le 1) caps ->
  reads_all caps b (to_come b)
  /\ match try_into_tcp_stream_with_prefix b with
     | inl (tcp, pre) => over_tcp b = true /\ tcp = bottom b /\ to_come b = pre ++ incoming (tcp_in tcp)
     | inr b' => over_tcp b = false /\ reads_all caps b' (to_come b)
     end
  /\ match try_into_tcp_stream b with
     | inl tcp => tcp = bottom b /\ to_come b = incoming (tcp_in tcp)
     | inr b' => reads_all caps b' (to_come b)
     end.
Proof.
  intros Hok Hc Hcaps. pose proof (try_into_with_prefix_ok b Hok) as H. split; [by apply (carries_reads_all (carries := boxed_carries)) |].
  assert (Hback : forall b', bottom b' = bottom b -> pending_prefix b' = pending_prefix b -> boxed_ok b' -> reads_all caps b' (to_come b)).
  { intros b' H1 H2 H3. apply (carries_reads_all (carries := boxed_carries)); [done | cbn; by rewrite H1 |].
    split; [done |]. unfold to_come. by rewrite H1, H2. }
  unfold try_into_tcp_stream. destruct (try_into_tcp_stream_with_prefix b) as [[tcp pre] | b'].
  - destruct H as (H1 & -> & ->). split; [done |]. destruct (Z.eqb_spec (zlen (pending_prefix b)) 0) as [Hz | Hz].
    + split; [done |]. unfold to_come. by rewrite (zlen_0_nil _ Hz).
    + by apply Hback.
  - destruct H as (H1 & H2 & H3 & H4). split; [split; [done |] |]; by apply Hback.
Qed.

Lemma boxed_stream_bytes_witness :
  let t := mkTcp [PData [3; 4]; PPending; PData [5]] [] [] false in
  reads_all [1; 4; 1; 1; 1; 1] (BPrependedBoxed (mkPrepended [9; 1] 1 (BPrependedTcp (prepended_new t [2])))) [1; 2; 3; 4; 5].
Proof.
  exact (proj1 (boxed_stream_bytes (BPrependedBoxed (mkPrepended [9; 1] 1 (BPrependedTcp (prepended_new (mkTcp [PData [3; 4]; PPending; PData [5]] [] [] false) [2]))))
    [1; 4; 1; 1; 1; 1] ltac:(by cbn) ltac:(by decided) ltac:(by decided))).
Defined.

(** [boxed_stream_is_tcp_like] answers for the outermost wrapper only. *)
Lemma tcp_like_not_recoverable t pre :
  boxed_stream_is_tcp_like (BPrependedBoxed (prepended_new (BOther t) pre)) = true
  /\ exists b, try_into_tcp_stream_with_prefix (BPrependedBoxed (prepended_new (BOther t) pre)) = inr b.
Proof. split; [done |]. eexists. reflexivity. Qed.
