(* ===== verification/VlessProxy.v ===== *)
(** The VLESS handlers: [vless/inbound.rs] and [vless/outbound.rs], and their composition
    with the codec, the user registry and XTLS Vision.

    A stream is the bytes still to come from the peer; what a handler writes before the
    relay starts is part of its result, with what the stream is handed to. *)

From stdpp Require Import base gmap list strings numbers.
From S2P Require Import Prelude Address Streams Chunks Vless Mux Vision Boxed.

Definition VISION_FLOW : bytes := lit "xtls-rprx-vision".

Record VlessInbound := mkInbound {
  vi_tag : bytes;
  vi_registry : VlessUserRegistry;
  vi_fallback : option SocketAddr;
}.

(** The context given to the dispatcher. *)
Record VlessContext := mkContext { cx_inbound : bytes; cx_user : bytes; cx_vision : bool }.

Definition has_fallback (v : VlessInbound) : bool := bool_decide (is_Some (vi_fallback v)).

(** What a connection is handed to; for the fallback, the stream with the bytes put back in front of it. *)
Inductive Handed :=
| Dropped
| ToUdpRelay (rest : bytes)
| ToMux (ctx : VlessContext) (vision : option bytes) (rest : bytes)
| ToDispatcher (ctx : VlessContext) (dest : Address) (vision : option bytes) (rest : bytes)
| ToFallback (addr : SocketAddr) (stream : PrependedStream bytes).

(** [do_fallback], up to the relay. *)
Definition do_fallback (v : VlessInbound) (rest header : bytes) : Handed :=
  match vi_fallback v with
  | Some addr => ToFallback addr (prepended_new rest header)
  | None => Dropped
  end.

(** [handle]: what is written to the client, and what the stream is handed to.  [stopped] is the number of bytes the decoder had read
    when it failed, or when the time for the handshake ran out ([timed_out]); [RecordingReader] keeps what was read when there is a
    fallback. *)
Definition vless_handle (fuel : nat) (v : VlessInbound) (timed_out : bool) (stopped : nat) (input : bytes) : res ProxyError (bytes * Handed) :=
  let recorded n := if has_fallback v then take n input else [] in
  match (if timed_out then Err Timeout else decode_request fuel input) with
  | Ok (req, rest) =>
      match validate (vi_registry v) (uuid req) with
      | Some user =>
          if negb (zlen (flow req) =? 0) && negb (bytes_eqb (flow req) (vu_flow user)) then Ok ([], Dropped)
          else
            let vision := bytes_eqb (flow req) VISION_FLOW in
            let wrap_with := if vision then Some (uuid req) else None in
            let ctx := mkContext (vi_tag v) (vu_email user) vision in
            Ok (encode_response,
                if bool_decide (command req = CUdp) then ToUdpRelay rest
                else if is_mux_request (command req) (dest req) then ToMux ctx wrap_with rest
                else ToDispatcher ctx (dest req) wrap_with rest)
      | None =>
          if has_fallback v then Ok ([], do_fallback v rest (recorded (length input - length rest)%nat)) else Ok ([], Dropped)
      end
  | Err _ => Ok ([], do_fallback v (drop stopped input) (recorded stopped))
  | Panic => Panic
  | NoFuel => NoFuel
  end.

(** The client's reading of the response header. *)
Definition read_vless_response : parser ProxyError unit :=
  ver ← read_u8;
  if negb (ver =? 0) then pfail (Protocol "VLESS server responded with unexpected version")
  else
    addons_len ← read_u8;
    if addons_len >? 0 then _ ← read_exact addons_len; mret () else mret ().

(** [connect_vless_on_stream]: what is written, and, on the bytes of the server, whether the stream is wrapped and what it still gives.
    The handler of the outbound does the same on a connection of its own. *)
Definition connect_vless_on_stream (uid flow : bytes) (cmd : Command) (d : Address) (answer : bytes) : res ProxyError (bytes * option bytes * bytes) :=
  header ← encode_request uid flow cmd d;
  '(_, rest) ← read_vless_response answer;
  Ok (header, if bytes_eqb flow VISION_FLOW then Some uid else None, rest).

(** * The handshake *)

(** A reader that leaves a tail of what it was given. *)
Class Consumes {E A} (p : parser E A) : Prop := consumes : forall s a r, p s = Ok (a, r) -> exists q, s = q ++ r.

#[local] Instance consumes_ret {E A} (a : A) : Consumes (mret a : parser E A).
Proof. intros s b r [= <- <-]. by exists []. Qed.

#[local] Instance consumes_fail {E A} (e : E) : Consumes (pfail e : parser E A).
Proof. by intros s b r [=]. Qed.

#[local] Instance consumes_lift {E A} (m : res E A) : Consumes (plift m).
Proof. intros s b r. unfold plift. destruct m; intros [= <- <-]. by exists []. Qed.

#[local] Instance consumes_u8 {E} `{EofError E} : Consumes (read_u8 (E := E)).
Proof. intros [| b s] a r [= <- <-]. by exists [b]. Qed.

#[local] Instance consumes_exact {E} `{EofError E} n : Consumes (read_exact (E := E) n).
Proof. intros s a r. unfold read_exact. case_bool_decide; intros [= <- <-]. exists (take (Z.to_nat n) s). by rewrite take_drop. Qed.

#[local] Instance consumes_bind {E A B} (p : parser E A) (f : A -> parser E B) : Consumes p -> (forall a, Consumes (f a)) -> Consumes (p ≫= f).
Proof.
  intros Hp Hf s b r. unfold mbind, parser_bind. destruct (p s) as [[a s'] | | |] eqn:Ep; try done. intros H.
  destruct (Hp s a s' Ep) as [q1 ->], (Hf a s' b r H) as [q2 ->]. exists (q1 ++ q2). by rewrite app_assoc.
Qed.

#[local] Instance consumes_if {E A} (b : bool) (p q : parser E A) : Consumes p -> Consumes q -> Consumes (if b then p else q).
Proof. by destruct b. Qed.

Lemma decode_request_suffix fuel input req rest : decode_request fuel input = Ok (req, rest) -> exists p, input = p ++ rest.
Proof. unfold decode_request, read_address, read_u16. apply consumes. Qed.

(** C1. A VLESS connection from end to end.  The client's request, with any payload behind it, is recognised by a server that has the
    user, if the client asks for no flow or for the flow of that user: the server answers with the response header and hands the
    payload, untouched, to the UDP relay, the demultiplexer or the dispatcher, as the command says, with the destination the client
    named and the email of the user; the client reads the answer and hands on what follows it; and both sides agree on Vision and on
    the id it uses. *)
Theorem vless_tunnel (v : VlessInbound) (user : VlessUser) (uid fl hdr payload reply : bytes) (cmd : Command) (d : Address) (fuel stopped : nat) :
  zlen uid = 16 -> utf8_valid fl = true -> wf_address d -> validate (vi_registry v) uid = Some user -> fl = [] \/ fl = vu_flow user ->
  encode_request uid fl cmd d = Ok hdr ->
  let vision := if bytes_eqb fl VISION_FLOW then Some uid else None in
  let ctx := mkContext (vi_tag v) (vu_email user) (bytes_eqb fl VISION_FLOW) in
  vless_handle (S fuel) v false stopped (hdr ++ payload)
  = Ok (encode_response,
        match cmd with
        | CUdp => ToUdpRelay payload
        | CMux => ToMux ctx vision payload
        | CTcp => if is_mux_cool_dest d then ToMux ctx vision payload else ToDispatcher ctx d vision payload
        end)
  /\ connect_vless_on_stream uid fl cmd d (encode_response ++ reply) = Ok (hdr, vision, reply).
Proof.
  intros Hu Hf Hd Hv Hfl He vision ctx. split.
  - unfold vless_handle. rewrite (vless_request_roundtrip uid fl hdr payload cmd d fuel Hu Hf Hd He). cbn [Vless.uuid Vless.flow Vless.command Vless.dest]. rewrite Hv.
    assert (Hok : negb (zlen fl =? 0) && negb (bytes_eqb fl (vu_flow user)) = false).
    { destruct Hfl as [-> | ->]; [done |]. unfold bytes_eqb. rewrite bool_decide_true by done. apply andb_false_r. }
    rewrite Hok. unfold vision, ctx. by destruct cmd.
  - unfold connect_vless_on_stream. rewrite He. done.
Qed.

(** A user with Vision, and one with none. *)
Definition sample_inbound : VlessInbound :=
  mkInbound (lit "in") (add_user (add_user registry_new (mkVlessUser (lit "a") (replicate 16 1) VISION_FLOW)) (mkVlessUser (lit "b") (replicate 16 2) []))
    (Some (mkSocketAddr (V4 [127; 0; 0; 1]) 80)).

Lemma vless_tunnel_witness :
  let uid := replicate 16 1 in
  vless_handle 1 sample_inbound false 0 ((0 :: uid ++ [18; 10; 16] ++ VISION_FLOW ++ [1; 1; 187; 1; 1; 2; 3; 4]) ++ [9])
  = Ok (encode_response, ToDispatcher (mkContext (lit "in") (lit "a") true) (Ipv4 [1; 2; 3; 4] 443) (Some uid) [9]).
Proof.
  exact (proj1 (vless_tunnel sample_inbound (mkVlessUser (lit "a") (replicate 16 1) VISION_FLOW) (replicate 16 1) VISION_FLOW
    (0 :: replicate 16 1 ++ [18; 10; 16] ++ VISION_FLOW ++ [1; 1; 187; 1; 1; 2; 3; 4]) [9] [] CTcp (Ipv4 [1; 2; 3; 4] 443) 0 0
    eq_refl ltac:(vm_compute; reflexivity) ltac:(by repeat constructor) ltac:(vm_compute; reflexivity) ltac:(by right) ltac:(vm_compute; reflexivity))).
Defined.

(** The addons block of a request, as far as it has arrived. *)
Definition addons_of (input : bytes) : bytes := take (Z.to_nat (default 0 (input !! 17%nat))) (drop 18 input).

(** Outside of its addons the decoder never panics, and there is nothing in it that could go on for ever. *)
Lemma decode_request_ends input fuel :
  bytes_ok input -> (head input = Some VLESS_VERSION -> lengths_fit (addons_of input)) -> (255 < fuel)%nat ->
  match decode_request fuel input with Ok _ | Err _ => True | Panic | NoFuel => False end.
Proof.
  intros Hok Hfit Hfuel. unfold decode_request. destruct input as [| ver s]; [done |]. cbn [read_u8 mbind parser_bind].
  unfold mbind at 1, parser_bind at 1. cbn [read_u8]. destruct (Z.eqb_spec ver VLESS_VERSION) as [-> |]; cbn [negb]; [| done]. specialize (Hfit eq_refl).
  unfold mbind at 1, parser_bind at 1, read_exact at 1. case_bool_decide as H16; [| done].
  assert (Hdrop : drop (Z.to_nat 16) s = drop 17 (VLESS_VERSION :: s)) by done. rewrite Hdrop.
  unfold mbind at 1, parser_bind at 1. destruct (drop 17 (VLESS_VERSION :: s)) as [| n rest] eqn:Er; [done |]. cbn [read_u8].
  assert (Hn : (VLESS_VERSION :: s) !! 17%nat = Some n /\ drop 18 (VLESS_VERSION :: s) = rest).
  { split; [rewrite <- (Nat.add_0_r 17), <- lookup_drop, Er; done |]. replace 18%nat with (17 + 1)%nat by done. by rewrite <- drop_drop, Er. }
  destruct Hn as [Hn Hrest]. unfold addons_of in Hfit. rewrite Hn, Hrest in Hfit. cbn [default] in Hfit.
  assert (Hn8 : is_u 8 n) by (unfold bytes_ok in Hok; rewrite Forall_lookup in Hok; by apply (Hok 17%nat)).
  unfold mbind at 1, parser_bind at 1.
  assert (Htail : forall u fl r, match (cmd_byte ← read_u8;
      command ← (if cmd_byte =? CMD_TCP then mret CTcp else if cmd_byte =? CMD_UDP then mret CUdp else if cmd_byte =? CMD_MUX then mret CMux
                 else pfail (Protocol "unknown VLESS CMD"));
      dest ← (if bool_decide (command = CMux) then mret (Domain MUX_COOL_DOMAIN 0) else port ← read_u16; atyp ← read_u8; read_address atyp port);
      mret (mkVlessRequest u command dest fl)) r with Ok _ | Err _ => True | Panic | NoFuel => False end).
  { intros u fl r. match goal with |- match ?p r with _ => _ end => assert (Hr : Reads p) by (unfold read_address, read_u16; apply _) end.
    specialize (Hr r). revert Hr. match goal with |- match ?x with _ => _ end -> _ => by destruct x as [[] | | |] end. }
  destruct (Z.gtb_spec n 0) as [Hpos | Hzero]; [| apply Htail].
  unfold mbind at 1, parser_bind at 1, read_exact at 1. case_bool_decide as Hlen; [| done].
  destruct (parse_flow_total (take (Z.to_nat n) rest) fuel Hfit) as [fl Hfl]; [unfold zlen, is_u in *; rewrite length_take; lia |].
  unfold plift. rewrite Hfl. apply Htail.
Qed.

(** C36. What a server with a fallback shows to a stranger.  Whatever the client sends, and wherever the decoder failed or the time ran
    out: if the user is not known, or the header is not understood, nothing is written to the client, and the backend gets the
    connection from its first byte on; the server drops a connection only for a known user that asks for another flow.  This for inputs
    whose addons, if they start like a request, announce no length past the end of the address space; C39 is about the others. *)
Theorem vless_fallback_transparent (v : VlessInbound) (addr : SocketAddr) (fuel stopped : nat) (timed_out : bool) (input : bytes) :
  vi_fallback v = Some addr -> bytes_ok input -> (head input = Some VLESS_VERSION -> lengths_fit (addons_of input)) -> (255 < fuel)%nat ->
  match vless_handle fuel v timed_out stopped input with
  | Ok (out, ToFallback addr' stream) =>
      addr' = addr /\ out = [] /\ (prepended_into_parts stream).2 ++ (prepended_into_parts stream).1 = input
  | Ok (out, Dropped) =>
      exists req rest user, decode_request fuel input = Ok (req, rest) /\ validate (vi_registry v) (uuid req) = Some user
        /\ flow req <> [] /\ flow req <> vu_flow user /\ out = []
  | Ok (out, _) => out = encode_response /\ exists req rest, decode_request fuel input = Ok (req, rest) /\ is_Some (validate (vi_registry v) (uuid req))
  | Err _ | Panic | NoFuel => False
  end.
Proof.
  intros Hf Hok Hfit Hfuel. pose proof (decode_request_ends input fuel Hok Hfit Hfuel) as Hends.
  unfold vless_handle, has_fallback, do_fallback. rewrite Hf, bool_decide_true by done.
  assert (Hback : forall n, (prepended_into_parts (prepended_new (drop n input) (take n input))).2 ++ (prepended_into_parts (prepended_new (drop n input) (take n input))).1 = input).
  { intros n. rewrite into_parts_unread. cbn. apply take_drop. }
  destruct timed_out; [by split_and! |]. destruct (decode_request fuel input) as [[req rest] | e | |] eqn:Ed; [| by split_and! | done | done].
  destruct (validate (vi_registry v) (uuid req)) as [user |] eqn:Ev.
  - destruct (Z.eqb_spec (zlen (flow req)) 0) as [Hz | Hz]; cbn [negb andb]; [by repeat case_match; eauto |].
    unfold bytes_eqb at 1. case_bool_decide as Hfl; cbn [negb]; [by repeat case_match; eauto |].
    exists req, rest, user. split_and!; try done. intros E. apply Hz. by rewrite E.
  - split_and!; [done | done |]. destruct (decode_request_suffix _ _ _ _ Ed) as [p ->].
    rewrite into_parts_unread. cbn. unfold unread. cbn. rewrite length_app. replace (length p + length rest - length rest)%nat with (length p) by lia.
    by rewrite take_app_length.
Qed.

(** A browser, and a request of a user nobody knows. *)
Definition stranger_request : bytes := [0] ++ replicate 16 9 ++ [2; 0x0B; 0x00; 1; 0; 80; 1; 1; 2; 3; 4; 77].

Lemma vless_fallback_transparent_witness :
  match vless_handle 256 sample_inbound false 3 [71; 69; 84; 32], vless_handle 256 sample_inbound false 0 stranger_request with
  | Ok (_, ToFallback _ s1), Ok (_, ToFallback _ s2) =>
      (prepended_into_parts s1).2 ++ (prepended_into_parts s1).1 = [71; 69; 84; 32]
      /\ (prepended_into_parts s2).2 ++ (prepended_into_parts s2).1 = stranger_request
  | _, _ => False
  end.
Proof.
  split.
  - refine (proj2 (proj2 (vless_fallback_transparent sample_inbound (mkSocketAddr (V4 [127; 0; 0; 1]) 80) 256 3 false [71; 69; 84; 32] eq_refl ltac:(by decided) _ _))); [done | lia].
  - refine (proj2 (proj2 (vless_fallback_transparent sample_inbound (mkSocketAddr (V4 [127; 0; 0; 1]) 80) 256 0 false stranger_request eq_refl ltac:(by decided) _ _))); [| lia].
    intros _. exact lengths_fit_unknown_field.
Defined.
