(* ===== verification/Relay.v ===== *)
(** Copying between two streams: [blackwire-common/src/relay.rs], the buffer pool of
    [blackwire-common/src/buf.rs] and the relay of [blackwire-app/src/relay.rs].

    A copy runs over any reader and any writer that keep the promises of [ReaderSpec] and
    [SinkSpec]; the two directions of a relay share nothing but the buffer pool, so the
    result of [join!] is the pair of their results.  An await is the loop of polls that ends
    it, with fuel; [None] means still waiting. *)

From stdpp Require Import base list strings numbers.
From S2P Require Import Prelude Address Streams Chunks Boxed.

(** * The buffer pool *)

Definition SMALL_PER_CPU : Z := 8.
Definition MEDIUM_PER_CPU : Z := 4.
Definition LARGE_PER_CPU : Z := 2.
Definition SMALL_SIZE : Z := 4 * 1024.
Definition MEDIUM_SIZE : Z := 16 * 1024.
Definition LARGE_SIZE : Z := 64 * 1024.

(** A buffer: its content and its capacity. *)
Record BytesMut := mkBytesMut { bm_data : bytes; bm_capacity : Z }.

(** A bounded queue. *)
Record ArrayQueue := mkQueue { q_bound : Z; q_items : list BytesMut }.

Definition q_pop (q : ArrayQueue) : ArrayQueue * option BytesMut :=
  match q_items q with [] => (q, None) | b :: items => (mkQueue (q_bound q) items, Some b) end.

Definition q_push (q : ArrayQueue) (b : BytesMut) : ArrayQueue :=
  if zlen (q_items q) <? q_bound q then mkQueue (q_bound q) (q_items q ++ [b]) else q.

Record BufferPool := mkPool { bp_small : ArrayQueue; bp_medium : ArrayQueue; bp_large : ArrayQueue }.

Definition pool_new (cpus : Z) : BufferPool :=
  mkPool (mkQueue (cpus * SMALL_PER_CPU) []) (mkQueue (cpus * MEDIUM_PER_CPU) []) (mkQueue (cpus * LARGE_PER_CPU) []).

(** [pool_for]: the queue, and the pool with it replaced. *)
Definition pool_for (p : BufferPool) (size : Z) : ArrayQueue * (ArrayQueue -> BufferPool) :=
  if size <=? SMALL_SIZE then (bp_small p, fun q => mkPool q (bp_medium p) (bp_large p))
  else if size <=? MEDIUM_SIZE then (bp_medium p, fun q => mkPool (bp_small p) q (bp_large p))
  else (bp_large p, fun q => mkPool (bp_small p) (bp_medium p) q).

Definition capacity_for (hint : Z) : Z :=
  if hint <=? SMALL_SIZE then SMALL_SIZE else if hint <=? MEDIUM_SIZE then MEDIUM_SIZE else LARGE_SIZE.

Definition acquire (p : BufferPool) (hint : Z) : BufferPool * BytesMut :=
  let '(q, put) := pool_for p hint in
  let '(q, b) := q_pop q in
  (put q, default (mkBytesMut [] (capacity_for hint)) b).

Definition release (p : BufferPool) (b : BytesMut) : BufferPool :=
  let b := mkBytesMut [] (bm_capacity b) in
  let '(q, put) := pool_for p (bm_capacity b) in
  put (q_push q b).

(** Buffers of a class are empty and have its capacity. *)
Definition queue_ok (size bound : Z) (q : ArrayQueue) : Prop :=
  q_bound q = bound /\ zlen (q_items q) <= bound /\ Forall (fun b => b = mkBytesMut [] size) (q_items q).

Definition pool_ok (cpus : Z) (p : BufferPool) : Prop :=
  queue_ok SMALL_SIZE (cpus * SMALL_PER_CPU) (bp_small p) /\ queue_ok MEDIUM_SIZE (cpus * MEDIUM_PER_CPU) (bp_medium p)
  /\ queue_ok LARGE_SIZE (cpus * LARGE_PER_CPU) (bp_large p).

Inductive PoolOp := PAcquire (hint : Z) | PRelease (data : bytes) (class : Z).

(** Buffers given back with the capacity they were taken with. *)
Fixpoint pool_run (ops : list PoolOp) (p : BufferPool) : BufferPool :=
  match ops with
  | [] => p
  | PAcquire hint :: ops => pool_run ops (acquire p hint).1
  | PRelease data class :: ops => pool_run ops (release p (mkBytesMut data (capacity_for class)))
  end.

Lemma queue_pop_ok size bound q :
  queue_ok size bound q -> queue_ok size bound (q_pop q).1 /\ from_option (fun b => b = mkBytesMut [] size) True (q_pop q).2.
Proof.
  destruct q as [n items]. intros (H1 & H2 & H3). unfold q_pop. destruct items as [| b items]; [by cbn |]. cbn [q_items q_bound fst snd] in *.
  apply Forall_cons_iff in H3 as [Hb H3]. split; [| done]. split_and!; [done | | done]. cbn [q_items]. revert H2. len_solve.
Qed.

Lemma queue_push_ok size bound q : queue_ok size bound q -> queue_ok size bound (q_push q (mkBytesMut [] size)).
Proof.
  destruct q as [n items]. intros (H1 & H2 & H3). unfold q_push. cbn [q_items q_bound] in *.
  destruct (Z.ltb_spec (zlen items) n); [| done]. split_and!; [done | |]; cbn [q_items].
  - rewrite zlen_app. change (zlen [mkBytesMut [] size]) with 1. lia.
  - apply Forall_app. by repeat constructor.
Qed.

Lemma acquire_ok cpus p hint :
  pool_ok cpus p -> pool_ok cpus (acquire p hint).1 /\ (acquire p hint).2 = mkBytesMut [] (capacity_for hint).
Proof.
  intros (H1 & H2 & H3). unfold acquire, pool_for, capacity_for.
  destruct (hint <=? SMALL_SIZE); [| destruct (hint <=? MEDIUM_SIZE)].
  - apply queue_pop_ok in H1 as [H1 Hb]. destruct (q_pop (bp_small p)) as [q [b |]]; (split; [by split_and! | done]).
  - apply queue_pop_ok in H2 as [H2 Hb]. destruct (q_pop (bp_medium p)) as [q [b |]]; (split; [by split_and! | done]).
  - apply queue_pop_ok in H3 as [H3 Hb]. destruct (q_pop (bp_large p)) as [q [b |]]; (split; [by split_and! | done]).
Qed.

Lemma release_ok cpus p data class : pool_ok cpus p -> pool_ok cpus (release p (mkBytesMut data (capacity_for class))).
Proof.
  intros (H1 & H2 & H3). unfold release, pool_for, capacity_for. cbn [bm_capacity].
  destruct (class <=? SMALL_SIZE); [| destruct (class <=? MEDIUM_SIZE)]; cbn; (split_and!; try done; by apply queue_push_ok).
Qed.

(** The pool stays bounded, and a buffer taken from it after any use is empty and has room for what was asked, up to the largest
    class. *)
Theorem buffer_pool_ok (cpus hint : Z) (ops : list PoolOp) :
  0 <= cpus ->
  let p := pool_run ops (pool_new cpus) in
  zlen (q_items (bp_small p)) <= 8 * cpus /\ zlen (q_items (bp_medium p)) <= 4 * cpus /\ zlen (q_items (bp_large p)) <= 2 * cpus
  /\ bm_data (acquire p hint).2 = [] /\ bm_capacity (acquire p hint).2 = capacity_for hint
  /\ (hint <= LARGE_SIZE -> hint <= bm_capacity (acquire p hint).2).
Proof.
  intros Hc p. assert (Hp : pool_ok cpus p).
  { unfold p. assert (H0 : pool_ok cpus (pool_new cpus)) by (unfold pool_ok, queue_ok, SMALL_PER_CPU, MEDIUM_PER_CPU, LARGE_PER_CPU; cbn; change (zlen (@nil BytesMut)) with 0; split_and!; done || lia).
    revert H0. generalize (pool_new cpus). induction ops as [| [h | d c] ops IH]; intros q Hq; cbn [pool_run]; [done | |]; apply IH.
    - by apply acquire_ok.
    - by apply release_ok. }
  destruct (acquire_ok cpus p hint Hp) as [_ ->]. destruct Hp as ((_ & H1 & _) & (_ & H2 & _) & (_ & H3 & _)).
  unfold SMALL_PER_CPU, MEDIUM_PER_CPU, LARGE_PER_CPU in *. cbn [bm_data bm_capacity]. split_and!; [lia | lia | lia | done | done |].
  unfold capacity_for, SMALL_SIZE, MEDIUM_SIZE, LARGE_SIZE. intros Hh. destruct (Z.leb_spec hint (4 * 1024)); [done |]. destruct (Z.leb_spec hint (16 * 1024)); [done | done].
Qed.

(** * Writers *)

(** What copying asks of a writer: [wrote w d] when the writer took [d]. *)
Class SinkSpec (W : Type) `{AsyncWriter W} (wrote : W -> bytes -> Prop) := {
  sink_write_ok : forall buf w d, buf <> [] -> wrote w d ->
    match wr_write buf w with
    | (w', Ready n) => 0 <= n /\ wrote w' (d ++ take (Z.to_nat n) buf)
    | (w', Pending) => wrote w' d
    | (_, Failed _) => True
    end;
  sink_flush_ok : forall w d, wrote w d ->
    match wr_flush w with (_, Failed _) => True | (w', _) => wrote w' d end;
}.

(** A writer of encrypted chunks is one. *)
Definition wrote_bytes {W} (mx : Z) (wrote : W -> list bytes -> Prop) (w : W) (d : bytes) : Prop :=
  exists ps, wrote w ps /\ Forall (fun p => 1 <= zlen p <= mx) ps /\ d = concat ps.

#[global] Instance chunk_sink {W} `{WriterSpec W mx wrote} : SinkSpec W (wrote_bytes mx wrote).
Proof.
  split.
  - intros buf w d Hb (ps & Hw & Hps & ->). pose proof (wr_write_ok buf w ps Hb Hw) as H1. destruct (wr_write buf w) as [w' [n | |]]; [| by exists ps | done].
    destruct H1 as (p & Hp & Hl & Ep). split.
    + destruct (Z.ltb_spec n 0); [| done]. replace (Z.to_nat n) with 0%nat in Ep by lia. rewrite Ep in Hl. revert Hl. cbn. len_solve.
    + exists (ps ++ [p]). split_and!; [done | by apply Forall_app; split; [| constructor] | rewrite concat_app; cbn; by rewrite Ep, app_nil_r].
  - intros w d (ps & Hw & Hps & ->). pose proof (wr_flush_ok w ps Hw) as H1. destruct (wr_flush w) as [w' []]; try done; by exists ps.
Qed.

(** A socket. *)
Definition tcp_poll_write (buf : bytes) (t : TcpStream) : TcpStream * poll Z :=
  match tcp_out t with
  | [] => (t, Pending)
  | WPending :: out => (mkTcp (tcp_in t) out (tcp_sent t) (tcp_closed t), Pending)
  | WFail :: out => (mkTcp (tcp_in t) out (tcp_sent t) (tcp_closed t), Failed (Io ConnectionReset))
  | WAccept n :: out =>
      let n := Z.min (Z.max n 0) (zlen buf) in
      (mkTcp (tcp_in t) out (tcp_sent t ++ take (Z.to_nat n) buf) (tcp_closed t), Ready n)
  end.

#[global] Instance tcp_writer : AsyncWriter TcpStream := {| wr_write := tcp_poll_write; wr_flush := fun t => (t, Ready tt) |}.

Definition tcp_wrote (t : TcpStream) (d : bytes) : Prop := tcp_sent t = d.

#[global] Instance tcp_sink : SinkSpec TcpStream tcp_wrote.
Proof.
  split; [| by intros]. intros buf w d Hb <-. cbn [wr_write tcp_writer]. unfold tcp_poll_write.
  destruct (tcp_out w) as [| [n | |] out]; [done | split; [| done] | done | done]. pose proof (zlen_nonneg buf). lia.
Qed.

(** * Copying one way *)

Section copy.
Context {St W : Type} `{AsyncReader St, AsyncWriter W}.

(** [reader.read(buf).await] *)
Fixpoint await_read (fuel : nat) (cap : Z) (r : St) : option (St * (bytes + ProxyError)) :=
  match fuel with
  | O => None
  | S fuel =>
      match rd_poll cap r with
      | None => None
      | Some (r, Pending) => await_read fuel cap r
      | Some (r, Ready d) => Some (r, inl d)
      | Some (r, Failed e) => Some (r, inr e)
      end
  end.

(** [writer.write_all(buf).await] *)
Fixpoint write_all (fuel : nat) (buf : bytes) (w : W) : option (W * option ProxyError) :=
  match buf with
  | [] => Some (w, None)
  | _ =>
      match fuel with
      | O => None
      | S fuel =>
          match wr_write buf w with
          | (w, Pending) => write_all fuel buf w
          | (w, Failed e) => Some (w, Some e)
          | (w, Ready n) => if n =? 0 then Some (w, Some (Io OtherIo)) else write_all fuel (drop (Z.to_nat n) buf) w
          end
      end
  end.

(** [writer.flush().await] *)
Fixpoint flush_all (fuel : nat) (w : W) : option (W * option ProxyError) :=
  match fuel with
  | O => None
  | S fuel =>
      match wr_flush w with
      | (w, Pending) => flush_all fuel w
      | (w, Failed e) => Some (w, Some e)
      | (w, Ready _) => Some (w, None)
      end
  end.

Definition BUF_SIZE : Z := 16 * 1024.

(** The loop of [copy_one_pooled], up to the shutdown of the writer: the ends, the count, and
    the error if there was one. *)
Fixpoint copy_loop (fuel : nat) (r : St) (w : W) (total : Z) : option (St * W * Z * option ProxyError) :=
  match fuel with
  | O => None
  | S fuel =>
      '(r, x) ← await_read fuel BUF_SIZE r;
      match x with
      | inl [] => Some (r, w, total, None)
      | inr e => Some (r, w, total, Some e)
      | inl d =>
          '(w, e) ← write_all fuel d w;
          match e with
          | Some e => Some (r, w, total, Some e)
          | None =>
              '(w, e) ← flush_all fuel w;
              match e with
              | Some e => Some (r, w, total, Some e)
              | None => copy_loop fuel r w (wrap 64 (total + zlen d))
              end
          end
      end
  end.

End copy.

Section pooled.
Context {A W : Type} `{AsyncReader A, AsyncWriter W} (shutdown : W -> W).

(** The writer is shut down however the loop ends. *)
Definition copy_one_pooled (fuel : nat) (r : A) (w : W) : option (A * W * (Z + ProxyError)) :=
  '(r, w, total, e) ← copy_loop fuel r w 0;
  Some (r, shutdown w, match e with Some e => inr e | None => inl total end).

End pooled.

(** [copy_bidirectional_pooled] over the halves of both streams. *)
Definition copy_bidirectional_pooled {A B WA WB} `{AsyncReader A, AsyncReader B, AsyncWriter WA, AsyncWriter WB}
    (shut_a : WA -> WA) (shut_b : WB -> WB) (fuel : nat) (a_rx : A) (a_tx : WA) (b_rx : B) (b_tx : WB)
  : option (A * WA * B * WB * ((Z * Z) + ProxyError)) :=
  '(a_rx, b_tx, r_up) ← copy_one_pooled shut_b fuel a_rx b_tx;
  '(b_rx, a_tx, r_down) ← copy_one_pooled shut_a fuel b_rx a_tx;
  Some (a_rx, a_tx, b_rx, b_tx,
        match r_up, r_down with
        | inl up, inl down => inl (up, down)
        | inr e, _ => inr e
        | inl _, inr e => inr e
        end).

(** ** What a copy does *)

Section copy_ok.
Context {A W : Type} `{ReaderSpec A carries} `{SinkSpec W wrote}.

Lemma await_read_ok fuel : forall cap r d r' x, 1 <= cap -> clean (rd_inner r) -> carries r d ->
  await_read fuel cap r = Some (r', x) ->
  exists o d', x = inl o /\ d = o ++ d' /\ carries r' d' /\ clean (rd_inner r') /\ (o = [] -> d = []) /\ zlen o <= cap.
Proof.
  induction fuel as [| fuel IH]; intros cap r d r' x Hcap Hc Hd; cbn [await_read]; [done |].
  pose proof (rd_ok cap r d Hcap Hc Hd) as Hp. destruct (rd_poll cap r) as [[r1 [o | |]] |]; cbn [read_post] in Hp; [| | done | done].
  - intros [= <- <-]. destruct Hp as (P1 & P2 & P3 & d' & P4 & P5 & P6). by exists o, d'.
  - destruct Hp as (P1 & P2 & P3). by apply IH.
Qed.

Lemma write_all_ok fuel : forall buf w d w' e, wrote w d -> write_all fuel buf w = Some (w', e) ->
  match e with None => wrote w' (d ++ buf) | Some _ => True end.
Proof.
  induction fuel as [| fuel IH]; intros buf w d w' e Hw; (destruct buf as [| b buf]; cbn [write_all];
    [intros [= <- <-]; by rewrite app_nil_r |]); [done |].
  pose proof (sink_write_ok (b :: buf) w d ltac:(done) Hw) as P3. destruct (wr_write (b :: buf) w) as [w1 [n | |]].
  - destruct P3 as [Hn P3]. destruct (n =? 0); [by intros [= <- <-] |]. intros E.
    apply (IH _ _ _ _ _ P3) in E. destruct e; [done |]. by rewrite <- app_assoc, take_drop in E.
  - by apply IH.
  - by intros [= <- <-].
Qed.

Lemma flush_all_ok fuel : forall w d w' e, wrote w d -> flush_all fuel w = Some (w', e) -> match e with None => wrote w' d | Some _ => True end.
Proof.
  induction fuel as [| fuel IH]; intros w d w' e Hw; cbn [flush_all]; [done |].
  pose proof (sink_flush_ok w d Hw) as P3. destruct (wr_flush w) as [w1 [[] | |]]; [by intros [= <- <-] | by apply IH | by intros [= <- <-]].
Qed.

(** A copy that ends without an error has written all that the reader carried, and counted it; the reader never is the cause of
    an error. *)
Lemma copy_loop_ok fuel : forall r w d sent total r' w' n e,
  clean (rd_inner r) -> carries r d -> wrote w sent -> 0 <= total -> total + zlen d < 2 ^ 64 ->
  copy_loop fuel r w total = Some (r', w', n, e) ->
  match e with None => wrote w' (sent ++ d) /\ n = total + zlen d | Some _ => True end.
Proof.
  induction fuel as [| fuel IH]; intros r w d sent total r' w' n e Hc Hd Hw Ht Hm; cbn [copy_loop]; [done |].
  destruct (await_read fuel BUF_SIZE r) as [[r1 x] |] eqn:Er; cbn [mbind option_bind]; [| done].
  destruct (await_read_ok fuel BUF_SIZE r d r1 x ltac:(done) Hc Hd Er) as (o & d' & -> & -> & Hd' & Hc' & Hnil & _).
  destruct o as [| b o].
  { intros [= <- <- <- <-]. rewrite (Hnil eq_refl), app_nil_r. change (zlen []) with 0. split; [done | lia]. }
  destruct (write_all fuel (b :: o) w) as [[w1 e1] |] eqn:Ew; cbn [mbind option_bind]; [| done].
  pose proof (write_all_ok _ _ _ _ _ _ Hw Ew) as Hw1. destruct e1; [by intros [= <- <- <- <-] |].
  destruct (flush_all fuel w1) as [[w2 e2] |] eqn:Ef; cbn [mbind option_bind]; [| done].
  pose proof (flush_all_ok _ _ _ _ _ Hw1 Ef) as Hw2. destruct e2; [by intros [= <- <- <- <-] |].
  rewrite zlen_app in *. pose proof (zlen_nonneg d'). pose proof (zlen_nonneg (b :: o)).
  unfold wrap. rewrite Z.mod_small by lia. intros E. apply (IH _ _ _ _ _ _ _ _ _ Hc' Hd' Hw2) in E; [| lia | lia].
  destruct e; [done |]. destruct E as [E1 ->]. rewrite <- app_assoc in E1. split; [done | lia].
Qed.

End copy_ok.

(** ** Copies end *)

Section copy_live.
Context {A : Type} `{ReaderSpec A carries}.

Lemma await_read_live fuel : forall cap r d, 1 <= cap -> clean (rd_inner r) -> carries r d -> (waits (rd_inner r) < fuel)%nat ->
  exists r' x, await_read fuel cap r = Some (r', x) /\ (waits (rd_inner r') <= waits (rd_inner r))%nat.
Proof.
  induction fuel as [| fuel IH]; intros cap r d Hcap Hc Hd Hf; [lia |]. cbn [await_read].
  pose proof (rd_ok cap r d Hcap Hc Hd) as Hp. destruct (rd_poll cap r) as [[r1 [o | |]] |]; cbn [read_post] in Hp; [| | done | done].
  - exists r1, (inl o). destruct Hp as (_ & P2 & _). split; [done | lia].
  - destruct Hp as (P1 & P2 & P3). destruct (IH cap r1 d Hcap P1 P3 ltac:(lia)) as (r' & x & E & Hw). exists r', x. split; [done | lia].
Qed.

(** Answers enough to take [n] bytes one by one. *)
Definition takes (n : nat) (t : TcpStream) : Prop := Forall willing (tcp_out t) /\ (n <= accepts (tcp_out t))%nat.

Lemma write_all_live fuel : forall buf t k, takes (length buf + k) t -> (length (tcp_out t) <= fuel)%nat ->
  exists t', write_all fuel buf t = Some (t', None) /\ takes k t' /\ (length (tcp_out t') <= length (tcp_out t))%nat
    /\ tcp_sent t' = tcp_sent t ++ buf /\ tcp_closed t' = tcp_closed t /\ tcp_in t' = tcp_in t.
Proof.
  induction fuel as [| fuel IH]; intros buf t k [Hw Ha] Hf; (destruct buf as [| b buf]; cbn [write_all];
    [exists t; rewrite app_nil_r; split_and!; done |]); unfold accepts in Ha; destruct t as [tin out sent cl]; cbn [tcp_out] in *.
  - destruct out; simpl in *; lia.
  - destruct out as [| ev out]; [simpl in Ha; lia |]. apply Forall_cons_iff in Hw as [Hev Hw]. cbn [length] in *.
    destruct ev as [n | |]; cbn [willing] in Hev; [| | done]; cbn [wr_write tcp_writer tcp_poll_write tcp_out tcp_in tcp_sent tcp_closed].
    + set (m := Z.min _ _). assert (Hm : 1 <= m <= zlen (b :: buf)) by (unfold m; rewrite zlen_cons; pose proof (zlen_nonneg buf); lia).
      rewrite (proj2 (Z.eqb_neq m 0)) by lia. unfold zlen in Hm. cbn [List.filter length] in *.
      destruct (IH (drop (Z.to_nat m) (b :: buf)) (mkTcp tin out (sent ++ take (Z.to_nat m) (b :: buf)) cl) k) as (t' & E & H1 & H2 & H3 & H4 & H5).
      * split; [done |]. cbn [tcp_out]. unfold accepts. rewrite length_drop. cbn [length] in *. lia.
      * cbn [tcp_out]. lia.
      * exists t'. cbn [tcp_in tcp_out tcp_sent tcp_closed] in *. rewrite H3, <- app_assoc, take_drop. split_and!; [done | done | lia | done | done | done].
    + destruct (IH (b :: buf) (mkTcp tin out sent cl) k) as (t' & E & H1 & H2 & H3 & H4 & H5); [by split | cbn [tcp_out]; lia |].
      exists t'. cbn [tcp_in tcp_out tcp_sent tcp_closed] in *. split_and!; [done | done | lia | done | done | done].
Qed.

Lemma copy_loop_live fuel : forall r t d total,
  clean (rd_inner r) -> carries r d -> takes (length d) t -> 0 <= total -> total + zlen d < 2 ^ 64 ->
  (waits (rd_inner r) + length d + length (tcp_out t) + 1 < fuel)%nat ->
  exists r' t', copy_loop fuel r t total = Some (r', t', total + zlen d, None)
    /\ tcp_sent t' = tcp_sent t ++ d /\ tcp_closed t' = tcp_closed t.
Proof.
  induction fuel as [| fuel IH]; intros r t d total Hc Hd Ht H0t Hm Hf; [lia |]. cbn [copy_loop].
  destruct (await_read_live fuel BUF_SIZE r d ltac:(done) Hc Hd ltac:(lia)) as (r1 & x & Er & Hwt). rewrite Er. cbn [mbind option_bind].
  destruct (await_read_ok fuel BUF_SIZE r d r1 x ltac:(done) Hc Hd Er) as (o & d' & -> & -> & Hd' & Hc' & Hnil & _).
  destruct o as [| b o].
  { exists r1, t. rewrite (Hnil eq_refl), app_nil_r. change (zlen []) with 0. by rewrite Z.add_0_r. }
  rewrite length_app in *. rewrite zlen_app in *.
  destruct (write_all_live fuel (b :: o) t (length d') Ht ltac:(lia)) as (t1 & Ew & Ht1 & Hl & Hs & Hcl & _). rewrite Ew. cbn [mbind option_bind].
  destruct fuel as [| fuel]; [lia |]. cbn [flush_all wr_flush tcp_writer mbind option_bind].
  pose proof (zlen_nonneg d'). pose proof (zlen_nonneg (b :: o)). unfold wrap. rewrite Z.mod_small by lia.
  destruct (IH r1 t1 d' (total + zlen (b :: o)) Hc' Hd' Ht1 ltac:(lia) ltac:(lia)) as (r' & t' & E & Hs' & Hcl'); [simpl in Hf; lia |].
  exists r', t'. rewrite E, Hs', Hs, Hcl', <- app_assoc, Z.add_assoc. done.
Qed.

End copy_live.

Definition tcp_shutdown (t : TcpStream) : TcpStream := mkTcp (tcp_in t) (tcp_out t) (tcp_sent t) true.

(** The bidirectional copy.  Between two readers that keep their promise (sockets, boxed streams, decrypting streams) and two
    sockets that take bytes in pieces of any sizes with waits, the copy ends; each side got exactly the bytes the other carried,
    after what had been written to it before; the counts returned are their numbers; both writers are shut down.  With any writer
    that keeps its promise, encrypting ones included, a copy that ends without an error has written and counted all. *)
Theorem relay_copies {A B} `{ReaderSpec A ca} `{ReaderSpec B cb} (a_rx : A) (b_rx : B) (da db : bytes) (ta tb : TcpStream) (fuel : nat) :
  clean (rd_inner a_rx) -> clean (rd_inner b_rx) -> ca a_rx da -> cb b_rx db -> zlen da < 2 ^ 64 -> zlen db < 2 ^ 64 ->
  (takes (length da) tb -> takes (length db) ta ->
   (waits (rd_inner a_rx) + length da + length (tcp_out tb) + 1 < fuel)%nat ->
   (waits (rd_inner b_rx) + length db + length (tcp_out ta) + 1 < fuel)%nat ->
   exists a' b' ta' tb', copy_bidirectional_pooled tcp_shutdown tcp_shutdown fuel a_rx ta b_rx tb = Some (a', ta', b', tb', inl (zlen da, zlen db))
     /\ tcp_sent tb' = tcp_sent tb ++ da /\ tcp_sent ta' = tcp_sent ta ++ db /\ tcp_closed ta' = true /\ tcp_closed tb' = true)
  /\ (forall W (HW : AsyncWriter W) wrote (HS : SinkSpec W wrote) shut (w w' : W) sent a' n,
        wrote w sent -> copy_one_pooled shut fuel a_rx w = Some (a', w', inl n) ->
        n = zlen da /\ exists w1, w' = shut w1 /\ wrote w1 (sent ++ da)).
Proof.
  intros Ha Hb Hca Hcb Hla Hlb. split.
  - intros Hta Htb Hfa Hfb. unfold copy_bidirectional_pooled, copy_one_pooled.
    destruct (copy_loop_live fuel a_rx tb da 0 Ha Hca Hta ltac:(lia) ltac:(lia) Hfa) as (a' & tb' & Ea & Sa & _). rewrite Ea. cbn [mbind option_bind].
    destruct (copy_loop_live fuel b_rx ta db 0 Hb Hcb Htb ltac:(lia) ltac:(lia) Hfb) as (b' & ta' & Eb & Sb & _). rewrite Eb. cbn [mbind option_bind].
    eexists _, _, _, _. rewrite !Z.add_0_l. split; [reflexivity |]. by split_and!.
  - intros W HW wrote HS shut w w' sent a' n Hw. unfold copy_one_pooled.
    destruct (copy_loop fuel a_rx w 0) as [[[[r1 w1] total] e] |] eqn:E; cbn [mbind option_bind]; [| done].
    pose proof (copy_loop_ok fuel a_rx w da sent 0 r1 w1 total e Ha Hca Hw ltac:(lia) ltac:(lia) E) as Hok.
    destruct e; intros [= <- <- <-]. destruct Hok as [H3 ->]. split; [lia |]. by exists w1.
Qed.

Lemma relay_copies_witness :
  let ta := mkTcp [PData [1; 2; 3]; PPending; PData [4]] [WAccept 1; WPending; WAccept 1] [] false in
  let tb := mkTcp [PData [8; 9]] [WAccept 2; WPending; WAccept 5; WAccept 1; WAccept 9] [7] false in
  exists a' b' ta' tb', copy_bidirectional_pooled tcp_shutdown tcp_shutdown 20 (BTcp ta) ta (BTcp tb) tb = Some (a', ta', b', tb', inl (4, 2))
    /\ tcp_sent tb' = [7; 1; 2; 3; 4] /\ tcp_sent ta' = [8; 9] /\ tcp_closed ta' = true /\ tcp_closed tb' = true.
Proof.
  intros ta tb.
  refine (proj1 (relay_copies (BTcp ta) (BTcp tb) [1; 2; 3; 4] [8; 9] ta tb 20 _ _ _ _ _ _) _ _ _ _);
    try done; try (by decided); try (unfold takes; split; [by decided | cbn; lia]); cbn; lia.
Defined.

(** * The relay with an idle limit *)

(** [sleep_until_idle]: the time at which it returns.  [act t] is what [last_activity] holds at time [t]; a sleep ends at its
    deadline. *)
Fixpoint sleep_until_idle (fuel : nat) (act : Z -> Z) (idle now : Z) : option Z :=
  match fuel with
  | O => None
  | S fuel =>
      let last := act now in
      let deadline := Z.min (last + idle) (2 ^ 64 - 1) in
      if deadline <=? now then Some now
      else if act deadline =? last then Some deadline
      else sleep_until_idle fuel act idle deadline
  end.

(** It returns at the first moment at which nothing moved for [idle]: never while something moved more recently, and it does
    return when nothing moves any more. *)
Theorem idle_exact (act : Z -> Z) (idle now : Z) :
  0 <= now -> 0 <= idle -> (forall s t, s <= t -> act s <= act t) -> (forall t, 0 <= act t <= Z.max t 0) ->
  (forall fuel T, T < 2 ^ 64 - 1 -> sleep_until_idle fuel act idle now = Some T ->
     now <= T /\ act T + idle <= T /\ forall t, now <= t < T -> t < act t + idle)
  /\ (forall H, (forall t, act t <= H) -> H + idle < 2 ^ 64 - 1 ->
      exists T, sleep_until_idle (S (Z.to_nat (H - act now))) act idle now = Some T /\ T <= Z.max now (H + idle)).
Proof.
  intros Hnow Hidle Hmono Hact. split.
  - intros fuel T HT. revert now Hnow. induction fuel as [| fuel IH]; intros now Hnow; cbn [sleep_until_idle]; [done |].
    destruct (Z.leb_spec (Z.min (act now + idle) (2 ^ 64 - 1)) now) as [Hd | Hd].
    { intros [= <-]. split_and!; [lia | lia | lia]. }
    assert (Hsleep : forall t, now <= t < Z.min (act now + idle) (2 ^ 64 - 1) -> t < act t + idle) by (intros t Ht; specialize (Hmono now t); lia).
    destruct (Z.eqb_spec (act (Z.min (act now + idle) (2 ^ 64 - 1))) (act now)) as [He | He].
    + intros [= <-]. split_and!; [lia | rewrite He; lia | done].
    + intros E. apply IH in E as (E1 & E2 & E3); [| lia]. split_and!; [lia | done |]. intros t Ht.
      destruct (Z.ltb_spec t (Z.min (act now + idle) (2 ^ 64 - 1))); [apply Hsleep; lia | apply E3; lia].
  - intros H HH Hb. assert (Hgen : forall fuel now, 0 <= now -> (Z.to_nat (H - act now) < fuel)%nat ->
      exists T, sleep_until_idle fuel act idle now = Some T /\ T <= Z.max now (H + idle)); [| apply Hgen; [done | lia]].
    induction fuel as [| fuel IH]; intros n Hn Hf; [lia |]. cbn [sleep_until_idle].
    pose proof (HH n). rewrite Z.min_l by lia.
    destruct (Z.leb_spec (act n + idle) n) as [Hd | Hd]; [exists n; split; [done | lia] |].
    destruct (Z.eqb_spec (act (act n + idle)) (act n)) as [He | He]; [exists (act n + idle); split; [done | lia] |].
    pose proof (Hmono n (act n + idle) ltac:(lia)). pose proof (HH (act n + idle)).
    destruct (IH (act n + idle)) as (T & -> & HT); [lia | lia |]. exists T. split; [done | lia].
Qed.

Lemma idle_exact_witness :
  let act := fun t => if 10 <=? t then 10 else 0 in sleep_until_idle 11 act 30 5 = Some 40 /\ act 40 + 30 <= 40.
Proof.
  intros act. split; [reflexivity |].
  apply (proj1 (idle_exact act 30 5 ltac:(lia) ltac:(lia)
    ltac:(intros s t; unfold act; destruct (Z.leb_spec 10 s), (Z.leb_spec 10 t); lia)
    ltac:(intros t; unfold act; destruct (Z.leb_spec 10 t); lia)) 11%nat 40 ltac:(lia) eq_refl).
Defined.

(** [copy_one_way_with_idle]; at each wait for the reader, [fired] tells whether the idle limit is reached. *)
Section idle.
Context {A W : Type} `{AsyncReader A, AsyncWriter W}.

Fixpoint read_or_idle (fuel : nat) (fired : list bool) (r : A) : option (list bool * A * option bytes) :=
  match fuel with
  | O => None
  | S fuel =>
      match rd_poll BUF_SIZE r with
      | None => None
      | Some (r, Ready []) | Some (r, Failed _) => Some (fired, r, None)
      | Some (r, Ready d) => Some (fired, r, Some d)
      | Some (r, Pending) =>
          match fired with
          | true :: fired => Some (fired, r, None)
          | false :: fired => read_or_idle fuel fired r
          | [] => read_or_idle fuel [] r
          end
      end
  end.

Fixpoint copy_one_way_with_idle (fuel : nat) (fired : list bool) (r : A) (w : W) : option (A * W) :=
  match fuel with
  | O => None
  | S fuel =>
      '(fired, r, d) ← read_or_idle fuel fired r;
      match d with
      | None => Some (r, w)
      | Some d =>
          '(w, e) ← write_all fuel d w;
          match e with
          | Some _ => Some (r, w)
          | None =>
              '(w, e) ← flush_all fuel w;
              match e with Some _ => Some (r, w) | None => copy_one_way_with_idle fuel fired r w end
          end
      end
  end.

End idle.

Lemma write_all_open fuel : forall buf (t t' : TcpStream) e, write_all fuel buf t = Some (t', e) -> tcp_closed t' = tcp_closed t.
Proof.
  induction fuel as [| fuel IH]; intros buf t t' e; (destruct buf as [| b buf]; cbn [write_all]; [by intros [= <- <-] |]); [done |].
  cbn [wr_write tcp_writer]. unfold tcp_poll_write. destruct (tcp_out t) as [| [n | |] out].
  - apply IH.
  - destruct (_ =? 0); [by intros [= <- <-] |]. intros E. by apply IH in E.
  - intros E. by apply IH in E.
  - by intros [= <- <-].
Qed.

(** The copy with an idle limit does not forward the end of a stream: however it ends, the other side is not told. *)
Theorem idle_relay_never_shuts {A} `{AsyncReader A} (fuel : nat) (fired : list bool) (r r' : A) (t t' : TcpStream) :
  copy_one_way_with_idle fuel fired r t = Some (r', t') -> tcp_closed t' = tcp_closed t.
Proof.
  revert fired r t. induction fuel as [| fuel IH]; intros fired r t; cbn [copy_one_way_with_idle]; [done |].
  destruct (read_or_idle fuel fired r) as [[[f1 r1] [d |]] |]; cbn [mbind option_bind]; [| by intros [= <- <-] | done].
  destruct (write_all fuel d t) as [[t1 e] |] eqn:E; cbn [mbind option_bind]; [| done]. apply write_all_open in E. rewrite <- E.
  destruct e; [by intros [= <- <-] |]. destruct fuel as [| fuel]; [done |]. cbn [flush_all wr_flush tcp_writer mbind option_bind]. apply IH.
Qed.

Lemma idle_relay_never_shuts_witness :
  tcp_closed (default (mkTcp [] [] [] true) (snd <$> copy_one_way_with_idle 9 [] (BTcp (mkTcp [PData [5]] [] [] false)) (mkTcp [] [WAccept 9] [] false))) = false.
Proof.
  exact (idle_relay_never_shuts 9 [] (BTcp (mkTcp [PData [5]] [] [] false)) (BTcp (mkTcp [] [] [] false)) (mkTcp [] [WAccept 9] [] false)
    (mkTcp [] [] [5] false) eq_refl).
Defined.
