(* ===== verification/Splice.v ===== *)
(** The zero-copy relay of [blackwire-common/src/splice.rs]: the io_uring loop
    ([UringBidir::run]) as a state machine against a kernel that completes the submitted
    operations in any order, and the epoll loop ([splice_one_direction],
    [splice_bidirectional_epoll]).

    The code treats the two directions in two copies of the same arms; here an arm takes its
    direction.  The kernel moves the bytes: a socket is the bytes still to come from it and
    the bytes it got, a pipe its content. *)

From Stdlib Require Import List.
From stdpp Require Import base list strings numbers relations.
From S2P Require Import Prelude Address.

(** * io_uring *)

Definition PIPE_CAPACITY : Z := 256 * 1024.
Definition ECANCELED : Z := 125.
Definition EAGAIN : Z := 11.

(** [a] to [b], and back. *)
Inductive Dir := AB | BA.

#[global] Instance dir_eq_dec : EqDecision Dir.
Proof. solve_decision. Defined.

(** [TAG_AB_IN], [TAG_AB_OUT], [TAG_BA_IN], [TAG_BA_OUT] and [TAG_POLL]. *)
Inductive Tag := TAG_IN (d : Dir) | TAG_OUT (d : Dir) | TAG_POLL.

(** What is submitted: [push_in], [push_out] and [push_out_guarded]. *)
Inductive Op := PushIn (d : Dir) | PushOut (d : Dir) (len : Z) (guarded : bool).

Definition op_tag (o : Op) : Tag := match o with PushIn d => TAG_IN d | PushOut d _ _ => TAG_OUT d end.
(** With a poll linked in front of it. *)
Definition op_polls (o : Op) : bool := match o with PushIn _ => true | PushOut _ _ g => g end.
Definition op_dir (o : Op) : Dir := match o with PushIn d => d | PushOut d _ _ => d end.

(** Half of [State], and the flag for the deferred shutdown of the receiving side. *)
Record DirState := mkDir { in_pipe : Z; eof : bool; pending : Z; total : Z; shut_flag : bool }.

Record State := mkState { st_ab : DirState; st_ba : DirState }.

Definition dir_of (d : Dir) (s : State) : DirState := match d with AB => st_ab s | BA => st_ba s end.
Definition set_dir (d : Dir) (x : DirState) (s : State) : State :=
  match d with AB => mkState x (st_ba s) | BA => mkState (st_ab s) x end.

Definition is_done (s : State) : bool :=
  eof (st_ab s) && eof (st_ba s) && (pending (st_ab s) =? 0) && (pending (st_ba s) =? 0).

(** [TAG_AB_IN] and [TAG_BA_IN]: the new state with what is pushed, or the error number. *)
Definition handle_in (d : Dir) (n : Z) (s : DirState) : (DirState * list Op) + Z :=
  let p := pending s - 1 in
  if (n =? 0) || (n =? - ECANCELED) then inl (mkDir (in_pipe s) true p (total s) true, [])
  else if n <? 0 then inr (- n)
  else
    let k := in_pipe s + n in
    inl (mkDir k (eof s) (p + 1) (total s) (shut_flag s), [PushOut d k false]).

(** [TAG_AB_OUT] and [TAG_BA_OUT]. *)
Definition handle_out (d : Dir) (n : Z) (s : DirState) : DirState * list Op :=
  let p := pending s - 1 in
  if n =? - EAGAIN then (mkDir (in_pipe s) (eof s) (p + 1) (total s) (shut_flag s), [PushOut d (in_pipe s) true])
  else if 0 <? n then
    let k := in_pipe s - Z.min n (in_pipe s) in
    let t := total s + n in
    if 0 <? k then (mkDir k (eof s) (p + 1) t (shut_flag s), [PushOut d k false])
    else if negb (eof s) then (mkDir k (eof s) (p + 1) t (shut_flag s), [PushIn d])
    else (mkDir k (eof s) p t (shut_flag s), [])
  else (mkDir (in_pipe s) true p (total s) (shut_flag s), []).

Definition handle_cqe (cqe : Tag * Z) (s : State) : (State * list Op) + Z :=
  match cqe with
  | (TAG_POLL, _) => inl (s, [])
  | (TAG_IN d, n) =>
      match handle_in d n (dir_of d s) with
      | inl (x, ops) => inl (set_dir d x s, ops)
      | inr e => inr e
      end
  | (TAG_OUT d, n) => let '(x, ops) := handle_out d n (dir_of d s) in inl (set_dir d x s, ops)
  end.

(** The completions of a batch, up to the first error. *)
Fixpoint handle_cqes (cqes : list (Tag * Z)) (s : State) (ops : list Op) : (State * list Op) + Z :=
  match cqes with
  | [] => inl (s, ops)
  | cqe :: cqes =>
      match handle_cqe cqe s with
      | inl (s, more) => handle_cqes cqes s (ops ++ more)
      | inr e => inr e
      end
  end.

(** ** The kernel's side *)

(** One direction: what the source has left, the pipe, what the destination got, and whether its writing half was shut down. *)
Record Flow := mkFlow { f_src : bytes; f_pipe : bytes; f_sent : bytes; f_shut : bool }.

(** The relay: its variables, the flows, operations submitted, completions not yet seen, whether the drain timer runs, and the
    result once it has returned. *)
Record Uring := mkUring {
  u_state : State;
  u_ab : Flow;
  u_ba : Flow;
  u_ops : list Op;
  u_cq : list (Tag * Z);
  u_drain : bool;
  u_exit : option ((Z * Z) + Z);
}.

Definition flow (d : Dir) (u : Uring) : Flow := match d with AB => u_ab u | BA => u_ba u end.

(** Both sources, nothing moved, the first operations submitted. *)
Definition uring_start (a b : bytes) : Uring :=
  mkUring (mkState (mkDir 0 false 1 0 false) (mkDir 0 false 1 0 false)) (mkFlow a [] [] false) (mkFlow b [] [] false)
    [PushIn AB; PushIn BA] [] false None.

Definition shut_flow (s : DirState) (f : Flow) : Flow := mkFlow (f_src f) (f_pipe f) (f_sent f) (f_shut f || shut_flag s).
Definition clear_flag (s : DirState) : DirState := mkDir (in_pipe s) (eof s) (pending s) (total s) false.

(** A turn of the loop on the completions that are there, sixteen at most. *)
Definition uring_turn (u : Uring) : Uring :=
  match handle_cqes (take 16 (u_cq u)) (u_state u) [] with
  | inr e => mkUring (u_state u) (u_ab u) (u_ba u) (u_ops u) [] (u_drain u) (Some (inr e))
  | inl (s, ops) =>
      let ab := shut_flow (st_ab s) (u_ab u) in
      let ba := shut_flow (st_ba s) (u_ba u) in
      let s := mkState (clear_flag (st_ab s)) (clear_flag (st_ba s)) in
      if is_done s then mkUring s ab ba (u_ops u ++ ops) [] (u_drain u) (Some (inl (total (st_ab s), total (st_ba s))))
      else mkUring s ab ba (u_ops u ++ ops) [] (u_drain u || eof (st_ab s) || eof (st_ba s)) None
  end.

(** The result of an operation and what it moved.  Without faults a splice from a socket moves some of its bytes or reports its
    end, and a splice into a socket moves some bytes of the pipe or reports that it would block; with faults any of them may
    report an error, and move nothing. *)
Inductive completes (faults : bool) : Op -> Z -> Flow -> Flow -> Prop :=
| in_moves d n f : 0 < n <= zlen (f_src f) -> n <= PIPE_CAPACITY ->
    completes faults (PushIn d) n f (mkFlow (drop (Z.to_nat n) (f_src f)) (f_pipe f ++ take (Z.to_nat n) (f_src f)) (f_sent f) (f_shut f))
| in_eof d f : f_src f = [] -> completes faults (PushIn d) 0 f f
| in_fails d n f : faults = true -> n < 0 -> completes faults (PushIn d) n f f
| out_moves d len g n f : 0 < n <= Z.min len (zlen (f_pipe f)) ->
    completes faults (PushOut d len g) n f (mkFlow (f_src f) (drop (Z.to_nat n) (f_pipe f)) (f_sent f ++ take (Z.to_nat n) (f_pipe f)) (f_shut f))
| out_again d len g f : completes faults (PushOut d len g) (- EAGAIN) f f
| out_fails d len g n f : faults = true -> n <= 0 -> completes faults (PushOut d len g) n f f.

Definition set_flow (d : Dir) (f : Flow) (u : Uring) : Uring :=
  match d with
  | AB => mkUring (u_state u) f (u_ba u) (u_ops u) (u_cq u) (u_drain u) (u_exit u)
  | BA => mkUring (u_state u) (u_ab u) f (u_ops u) (u_cq u) (u_drain u) (u_exit u)
  end.

Definition set_rings (ops : list Op) (cq : list (Tag * Z)) (u : Uring) : Uring :=
  mkUring (u_state u) (u_ab u) (u_ba u) ops cq (u_drain u) (u_exit u).

Inductive ustep (faults : bool) : Uring -> Uring -> Prop :=
| kernel_completes u l o r n f :
    u_exit u = None -> u_ops u = l ++ o :: r -> completes faults o n (flow (op_dir o) u) f ->
    ustep faults u (set_rings (l ++ r) (u_cq u ++ [(op_tag o, n)]) (set_flow (op_dir o) f u))
| poll_fails u l o r e :
    faults = true -> u_exit u = None -> u_ops u = l ++ o :: r -> op_polls o = true ->
    ustep faults u (set_rings (l ++ r) (u_cq u ++ [(TAG_POLL, - e); (op_tag o, - ECANCELED)]) u)
| user_turn u : u_exit u = None -> u_cq u <> [] -> ustep faults u (uring_turn u)
| drain_expires u : faults = true -> u_exit u = None -> u_drain u = true ->
    ustep faults u (mkUring (u_state u) (u_ab u) (u_ba u) (u_ops u) (u_cq u) (u_drain u)
                      (Some (inl (total (st_ab (u_state u)), total (st_ba (u_state u)))))).

(** ** Where a direction can be *)

Definition whole (data : bytes) (f : Flow) : Prop := f_sent f ++ f_pipe f ++ f_src f = data.

(** The state of a direction with its operation in flight or its completion to be seen. *)
Inductive phase (faults : bool) (d : Dir) : DirState -> Flow -> list Op -> list (Tag * Z) -> Prop :=
| ph_in f : f_pipe f = [] ->
    phase faults d (mkDir 0 false 1 (zlen (f_sent f)) false) f [PushIn d] []
| ph_in_done f n : (0 < n -> zlen (f_pipe f) = n) -> (n <= 0 -> f_pipe f = []) -> (faults = false -> 0 <= n /\ (n = 0 -> f_src f = [])) ->
    phase faults d (mkDir 0 false 1 (zlen (f_sent f)) false) f [] [(TAG_IN d, n)]
| ph_out f g : f_pipe f <> [] ->
    phase faults d (mkDir (zlen (f_pipe f)) false 1 (zlen (f_sent f)) false) f [PushOut d (zlen (f_pipe f)) g] []
| ph_out_done f n : 0 < n <= zlen (f_sent f) ->
    phase faults d (mkDir (zlen (f_pipe f) + n) false 1 (zlen (f_sent f) - n) false) f [] [(TAG_OUT d, n)]
| ph_out_stuck f n : n <= 0 -> f_pipe f <> [] -> (faults = false -> n = - EAGAIN) ->
    phase faults d (mkDir (zlen (f_pipe f)) false 1 (zlen (f_sent f)) false) f [] [(TAG_OUT d, n)]
| ph_end f fl : (faults = false -> f_pipe f = [] /\ f_src f = [] /\ f_shut f || fl = true) ->
    phase faults d (mkDir (zlen (f_pipe f)) true 0 (zlen (f_sent f)) fl) f [] [].

Lemma completes_whole faults o n f f' data : completes faults o n f f' -> whole data f -> whole data f'.
Proof.
  unfold whole. intros H <-. destruct H; cbn [f_sent f_pipe f_src]; try done.
  - by rewrite <- (app_assoc (f_pipe f)), take_drop.
  - by rewrite <- (app_assoc (f_sent f)), (app_assoc (take _ _)), take_drop.
Qed.

Lemma phase_completes faults d s f o n f' :
  phase faults d s f [o] [] -> completes faults o n f f' -> phase faults d s f' [] [(op_tag o, n)].
Proof.
  intros Hp Hc. inversion Hp as [f0 Hpipe | | f0 g Hpipe | | |]; subst; clear Hp; inversion Hc; subst; clear Hc; cbn [op_tag].
  - apply (ph_in_done faults d (mkFlow _ _ _ _)); cbn [f_pipe f_src].
    + intros _. rewrite Hpipe. cbn [app]. unfold zlen in *. rewrite length_take. lia.
    + lia.
    + intros _. split; lia.
  - by apply ph_in_done.
  - apply ph_in_done; [lia | done | intros E; congruence].
  - rewrite Z.min_id in *. set (k := Z.to_nat n). assert (E : zlen (f_pipe f) = zlen (drop k (f_pipe f)) + n /\ zlen (f_sent f ++ take k (f_pipe f)) = zlen (f_sent f) + n).
    { unfold k, zlen in *. rewrite length_app, length_drop, length_take. lia. }
    destruct E as [E1 E2]. rewrite E1. replace (zlen (f_sent f)) with (zlen (f_sent f ++ take k (f_pipe f)) - n) by lia.
    apply (ph_out_done faults d (mkFlow (f_src f) (drop k (f_pipe f)) (f_sent f ++ take k (f_pipe f)) (f_shut f))). cbn [f_sent]. pose proof (zlen_nonneg (f_sent f)). lia.
  - apply ph_out_stuck; [done | done | done].
  - apply ph_out_stuck; [done | done | intros E; congruence].
Qed.

Lemma phase_cancelled d s f o : phase true d s f [o] [] -> phase true d s f [] [(op_tag o, - ECANCELED)].
Proof. intros Hp. inversion Hp; subst; cbn [op_tag]; [by apply ph_in_done | by apply ph_out_stuck]. Qed.

(** The arms of the loop. *)
Lemma handle_in_ok faults d s f n :
  phase faults d s f [] [(TAG_IN d, n)] ->
  match handle_in d n s with inl (s', ops) => phase faults d s' f ops [] | inr _ => faults = true end.
Proof.
  intros Hp. inversion Hp as [| f' n' Hpos Hneg Hok | | | |]; subst. unfold handle_in. cbn [pending in_pipe total eof shut_flag].
  destruct (Z.eqb_spec n 0) as [-> | Hn]; [| destruct (Z.eqb_spec n (- ECANCELED)) as [-> | Hc]]; cbn [orb].
  - rewrite <- (zlen_nil (A := Z)), <- (Hneg ltac:(lia)). apply ph_end. intros E. destruct (Hok E) as [_ Hs]. rewrite orb_true_r. auto with lia.
  - rewrite <- (zlen_nil (A := Z)), <- (Hneg ltac:(done)). apply ph_end. intros E. destruct (Hok E) as [Hs _]. unfold ECANCELED in Hs. lia.
  - destruct (Z.ltb_spec n 0) as [Hl | Hl].
    + destruct faults; [done |]. destruct (Hok eq_refl). lia.
    + assert (E : zlen (f_pipe f) = n) by (apply Hpos; lia). clear Hpos. subst n. cbn. apply ph_out. intros E. apply Hn. by rewrite E.
Qed.

Lemma handle_out_ok faults d s f n :
  phase faults d s f [] [(TAG_OUT d, n)] -> phase faults d (handle_out d n s).1 f (handle_out d n s).2 [].
Proof.
  intros Hp. inversion Hp as [| | | f' n' Hn | f' n' Hn Hne Hok |]; subst; unfold handle_out; cbn [pending in_pipe total eof shut_flag].
  - rewrite (proj2 (Z.eqb_neq _ _)) by (unfold EAGAIN; lia). rewrite (proj2 (Z.ltb_lt _ _)) by lia. pose proof (zlen_nonneg (f_pipe f)).
    replace (zlen (f_pipe f) + n - Z.min n (zlen (f_pipe f) + n)) with (zlen (f_pipe f)) by lia.
    replace (zlen (f_sent f) - n + n) with (zlen (f_sent f)) by lia.
    destruct (Z.ltb_spec 0 (zlen (f_pipe f))) as [Hl | Hl]; cbn.
    + apply ph_out. intros E. by rewrite E in Hl.
    + replace (zlen (f_pipe f)) with 0 by lia. apply ph_in. apply zlen_0_nil. lia.
  - destruct (Z.eqb_spec n (- EAGAIN)) as [-> | He]; cbn; [by apply ph_out |].
    rewrite (proj2 (Z.ltb_ge _ _)) by lia. cbn. apply ph_end. intros E. by specialize (Hok E).
Qed.

(** ** Both directions *)

Definition tag_dir (t : Tag) : option Dir := match t with TAG_IN d | TAG_OUT d => Some d | TAG_POLL => None end.

Definition ops_dir (d : Dir) (ops : list Op) : list Op := filter (fun o => op_dir o = d) ops.
Definition cq_dir (d : Dir) (cq : list (Tag * Z)) : list (Tag * Z) := filter (fun c => tag_dir c.1 = Some d) cq.

Definition other (d : Dir) : Dir := match d with AB => BA | BA => AB end.

(** Each direction is in one of its phases. *)
Definition phases (faults : bool) (s : State) (ab ba : Flow) (ops : list Op) (cq : list (Tag * Z)) : Prop :=
  phase faults AB (st_ab s) ab (ops_dir AB ops) (cq_dir AB cq) /\ phase faults BA (st_ba s) ba (ops_dir BA ops) (cq_dir BA cq).

Definition phase_of (faults : bool) (d : Dir) (s : State) (ab ba : Flow) (ops : list Op) (cq : list (Tag * Z)) : Prop :=
  phase faults d (dir_of d s) (match d with AB => ab | BA => ba end) (ops_dir d ops) (cq_dir d cq).

Lemma phases_iff faults s ab ba ops cq d :
  phases faults s ab ba ops cq <-> phase_of faults d s ab ba ops cq /\ phase_of faults (other d) s ab ba ops cq.
Proof. destruct d; unfold phases, phase_of; cbn; tauto. Qed.

Lemma phase_one faults d s f ops cq c : phase faults d s f ops (c :: cq) -> ops = [] /\ cq = [].
Proof. by inversion 1. Qed.

Lemma phase_op faults d s f o ops cq : phase faults d s f (o :: ops) cq -> ops = [] /\ cq = [].
Proof. by inversion 1. Qed.

Lemma ops_dir_same d more : Forall (fun o => op_dir o = d) more -> ops_dir d more = more /\ ops_dir (other d) more = [].
Proof.
  unfold ops_dir. induction 1 as [| o more Ho H IH]; [done |]. destruct IH as [IH1 IH2].
  rewrite filter_cons_True, filter_cons_False, IH1, IH2 by (rewrite Ho; by destruct d). done.
Qed.

Lemma handle_pushes d n s :
  match handle_in d n s with inl (_, more) => Forall (fun o => op_dir o = d) more | inr _ => True end
  /\ Forall (fun o => op_dir o = d) (handle_out d n s).2.
Proof. unfold handle_in, handle_out. split; repeat case_match; simplify_eq; by repeat constructor. Qed.

Lemma handle_cqe_ok faults s ab ba ops c cq :
  phases faults s ab ba ops (c :: cq) ->
  match handle_cqe c s with inl (s', more) => phases faults s' ab ba (ops ++ more) cq | inr _ => faults = true end.
Proof.
  assert (Hset : forall d s x, dir_of d (set_dir d x s) = x) by by intros [].
  assert (Hoth : forall d s x, dir_of (other d) (set_dir d x s) = dir_of (other d) s) by by intros [].
  assert (Hput : forall d n x more t, tag_dir t = Some d -> Forall (fun o => op_dir o = d) more ->
    phase faults d x (match d with AB => ab | BA => ba end) more [] -> ops_dir d ops = [] -> cq_dir d cq = [] ->
    phase_of faults (other d) s ab ba ops ((t, n) :: cq) -> phases faults (set_dir d x s) ab ba (ops ++ more) cq).
  { intros d n x more t Et Hm H1 E1 E2 H2. destruct (ops_dir_same d more Hm) as [M1 M2]. apply (phases_iff _ _ _ _ _ _ d). unfold phase_of in *.
    rewrite Hset, Hoth. unfold ops_dir, cq_dir in *. rewrite !filter_app, M1, M2, E1, E2, app_nil_r. split; [done |].
    rewrite filter_cons_False in H2; [done |]. cbn. rewrite Et. intros [= E]. by destruct d. }
  destruct c as [[d | d |] n]; cbn [handle_cqe].
  1, 2: intros H; apply (phases_iff _ _ _ _ _ _ d) in H as [H1 H2]; unfold phase_of, cq_dir in H1; rewrite filter_cons_True in H1 by done;
    destruct (phase_one _ _ _ _ _ _ _ H1) as [E1 E2]; rewrite E1, E2 in H1; destruct (handle_pushes d n (dir_of d s)) as [Hin Hout].
  - apply handle_in_ok in H1. destruct (handle_in d n (dir_of d s)) as [[x more] | e]; [| done]. by apply (Hput d n x more (TAG_IN d)).
  - apply handle_out_ok in H1. destruct (handle_out d n (dir_of d s)) as [x more]. by apply (Hput d n x more (TAG_OUT d)).
  - intros H. by rewrite app_nil_r.
Qed.

Lemma handle_cqes_ok faults ab ba base cqes : forall s pushed,
  phases faults s ab ba (base ++ pushed) cqes ->
  match handle_cqes cqes s pushed with inl (s', pushed') => phases faults s' ab ba (base ++ pushed') [] | inr _ => faults = true end.
Proof.
  induction cqes as [| c cqes IH]; intros s pushed H; cbn [handle_cqes]; [done |].
  apply handle_cqe_ok in H. destruct (handle_cqe c s) as [[s' more] | e]; [| done]. rewrite <- app_assoc in H. by apply IH.
Qed.

(** The deferred shutdown. *)
Lemma phase_cleared faults d s f ops cq : phase faults d s f ops cq -> phase faults d (clear_flag s) (shut_flow s f) ops cq.
Proof.
  assert (E : forall k, shut_flow (mkDir k false 1 (zlen (f_sent f)) false) f = f) by (intros k; unfold shut_flow; cbn; rewrite orb_false_r; by destruct f).
  destruct 1; unfold clear_flag; cbn [in_pipe eof pending total shut_flag].
  1-3, 5: rewrite E; by constructor.
  - unfold shut_flow. cbn [shut_flag]. rewrite orb_false_r. destruct f. by apply (ph_out_done faults d (mkFlow _ _ _ _)).
  - apply (ph_end faults d (shut_flow _ f)). intros Ef. cbn. rewrite orb_false_r. auto.
Qed.

Lemma phase_facts faults d s f ops cq :
  phase faults d s f ops cq ->
  total s <= zlen (f_sent f) /\ (length ops <= 1)%nat
  /\ (eof s = true -> pending s = 0 /\ total s = zlen (f_sent f) /\ (faults = false -> f_pipe f = [] /\ f_src f = [] /\ f_shut f || shut_flag s = true))
  /\ (eof s = false -> ops <> [] \/ cq <> []).
Proof. destruct 1; cbn; (split_and!; [lia | lia | try done; auto | try done; auto]). Qed.

Lemma ops_split ops : length ops = (length (ops_dir AB ops) + length (ops_dir BA ops))%nat.
Proof.
  unfold ops_dir. induction ops as [| o ops IH]; [done |]. cbn [length].
  destruct (op_dir o) eqn:E; [rewrite filter_cons_True, filter_cons_False by (rewrite E; done) | rewrite filter_cons_False, filter_cons_True by (rewrite E; done)]; cbn [length]; lia.
Qed.

Definition uinv (faults : bool) (a b : bytes) (u : Uring) : Prop :=
  whole a (u_ab u) /\ whole b (u_ba u) /\
  match u_exit u with
  | None => phases faults (u_state u) (u_ab u) (u_ba u) (u_ops u) (u_cq u) /\ (length (u_cq u) + 2 * length (u_ops u) <= 4)%nat
            /\ is_done (u_state u) = false
  | Some (inl (x, y)) =>
      x <= zlen (f_sent (u_ab u)) /\ y <= zlen (f_sent (u_ba u))
      /\ (faults = false -> x = zlen a /\ y = zlen b /\ f_sent (u_ab u) = a /\ f_sent (u_ba u) = b /\ f_shut (u_ab u) = true /\ f_shut (u_ba u) = true)
  | Some (inr _) => faults = true
  end.

Lemma whole_shut data s f : whole data f -> whole data (shut_flow s f).
Proof. done. Qed.

(** A direction that has ended without faults has delivered everything. *)
Lemma phase_ended d s f ops cq data :
  phase false d s f ops cq -> whole data f -> eof s = true ->
  total s = zlen data /\ f_sent f = data /\ f_shut f || shut_flag s = true.
Proof.
  intros Hp Hw He. destruct (phase_facts _ _ _ _ _ _ Hp) as (_ & _ & H & _). destruct (H He) as (_ & Ht & Hf). destruct (Hf eq_refl) as (E1 & E2 & E3).
  unfold whole in Hw. rewrite E1, E2, !app_nil_r in Hw. by rewrite Ht, Hw.
Qed.

Lemma uring_turn_ok faults a b u : uinv faults a b u -> u_exit u = None -> uinv faults a b (uring_turn u).
Proof.
  intros (Wa & Wb & H) He. rewrite He in H. destruct H as (Hp & Hl & _). unfold uring_turn.
  rewrite (take_ge (u_cq u)) by lia.
  pose proof (handle_cqes_ok faults (u_ab u) (u_ba u) (u_ops u) (u_cq u) (u_state u) []) as H. rewrite app_nil_r in H. specialize (H Hp).
  destruct (handle_cqes (u_cq u) (u_state u) []) as [[s ops] | e]; [| split_and!; done].
  destruct H as [H1 H2]. apply phase_cleared in H1, H2.
  set (s' := mkState (clear_flag (st_ab s)) (clear_flag (st_ba s))).
  destruct (is_done s') eqn:Hd; unfold uinv; cbn [u_ab u_ba u_exit u_state u_ops u_cq].
  - destruct (phase_facts _ _ _ _ _ _ H1) as (T1 & _), (phase_facts _ _ _ _ _ _ H2) as (T2 & _).
    split_and!; [done | done | done | done |]. intros ->. unfold is_done in Hd. apply andb_prop in Hd as [Hd _]. apply andb_prop in Hd as [Hd _]. apply andb_prop in Hd as [D1 D2].
    destruct (phase_ended _ _ _ _ _ a H1 Wa D1) as (A1 & A2 & A3), (phase_ended _ _ _ _ _ b H2 Wb D2) as (B1 & B2 & B3).
    cbn [clear_flag shut_flag] in A3, B3. rewrite orb_false_r in A3, B3. by split_and!.
  - split_and!; [done | done | by split | | done]. rewrite ops_split.
    destruct (phase_facts _ _ _ _ _ _ H1) as (_ & L1 & _), (phase_facts _ _ _ _ _ _ H2) as (_ & L2 & _). simpl. lia.
Qed.

Lemma uinv_start faults a b : uinv faults a b (uring_start a b).
Proof.
  unfold uinv, uring_start. cbn [u_ab u_ba u_exit u_state u_ops u_cq]. split_and!; [done | done | | simpl; lia | done].
  split; apply (ph_in faults _ (mkFlow _ [] [] false)); done.
Qed.

(** The operation that completes is the only one of its direction. *)
Lemma phases_take faults s ab ba l o r cq d :
  phases faults s ab ba (l ++ o :: r) cq -> op_dir o = d ->
  phase faults d (dir_of d s) (match d with AB => ab | BA => ba end) [o] [] /\ ops_dir d (l ++ r) = [] /\ cq_dir d cq = []
  /\ ops_dir (other d) (l ++ r) = ops_dir (other d) (l ++ o :: r).
Proof.
  intros H Ed. apply (phases_iff _ _ _ _ _ _ d) in H as [H _]. unfold phase_of, ops_dir in *. rewrite !filter_app in *.
  rewrite (filter_cons_True _ o) in H by done. rewrite (filter_cons_False _ o) by (rewrite Ed; by destruct d).
  assert (Hnil : filter (fun o => op_dir o = d) l = []).
  { destruct (filter (fun o => op_dir o = d) l) as [| x l'] eqn:El; [done |]. apply phase_op in H as [H _]. by destruct l'. }
  rewrite Hnil in *. cbn [app] in *. destruct (phase_op _ _ _ _ _ _ _ H) as [E1 E2]. rewrite E1, E2 in *. by split_and!.
Qed.

Lemma phases_put faults s ab ba ops cq d f t n extra :
  phase faults d (dir_of d s) f [] [(t, n)] -> tag_dir t = Some d -> ops_dir d ops = [] -> cq_dir d cq = [] ->
  Forall (fun c => tag_dir c.1 = None) extra ->
  phase_of faults (other d) s ab ba ops cq ->
  phases faults s (match d with AB => f | BA => ab end) (match d with AB => ba | BA => f end) ops (cq ++ extra ++ [(t, n)]).
Proof.
  intros H1 Et E1 E2 He H2. apply (phases_iff _ _ _ _ _ _ d). unfold phase_of, cq_dir in *. rewrite !filter_app, E1, E2.
  assert (Hx : forall d', filter (fun c : Tag * Z => tag_dir c.1 = Some d') extra = []).
  { intros d'. clear - He. induction He as [| c extra Hc He IH]; [done |]. rewrite filter_cons_False; [done |]. rewrite Hc. done. }
  rewrite !Hx, filter_cons_True by done. rewrite filter_cons_False by (cbn; rewrite Et; intros [= E]; by destruct d).
  change (filter _ []) with (@nil (Tag * Z)). rewrite !app_nil_r. by destruct d.
Qed.

Lemma ustep_ok faults a b u u' : ustep faults u u' -> uinv faults a b u -> uinv faults a b u'.
Proof.
  destruct 1 as [u l o r n f He Eo Hc | u l o r e Hf He Eo Hpoll | u He Hq | u Hf He Hd]; intros Hinv.
  - destruct Hinv as (Wa & Wb & H). rewrite He in H. destruct H as (Hp & Hl & Hdone). rewrite Eo in *.
    destruct (phases_take _ _ _ _ _ _ _ _ (op_dir o) Hp eq_refl) as (H1 & E1 & E2 & E3).
    apply (phases_iff _ _ _ _ _ _ (op_dir o)) in Hp as [_ H2]. unfold phase_of in H2. rewrite <- E3 in H2.
    assert (Hw : whole (match op_dir o with AB => a | BA => b end) f) by (eapply completes_whole; [exact Hc |]; by destruct (op_dir o)).
    assert (Hph : phase faults (op_dir o) (dir_of (op_dir o) (u_state u)) f [] [(op_tag o, n)])
      by (eapply phase_completes; [| exact Hc]; by destruct (op_dir o)).
    pose proof (phases_put faults (u_state u) (u_ab u) (u_ba u) (l ++ r) (u_cq u) (op_dir o) f (op_tag o) n [] Hph
      ltac:(by destruct o) E1 E2 ltac:(constructor) H2) as Hput. cbn [app] in Hput.
    unfold uinv, set_rings, set_flow. rewrite length_app in *. cbn [length] in Hl.
    destruct (op_dir o); cbn [u_ab u_ba u_exit u_state u_ops u_cq]; rewrite He; (split_and!; try done; rewrite !length_app; simpl; lia).
  - destruct Hinv as (Wa & Wb & H). rewrite He in H. destruct H as (Hp & Hl & Hdone). rewrite Eo in *. subst faults.
    destruct (phases_take _ _ _ _ _ _ _ _ (op_dir o) Hp eq_refl) as (H1 & E1 & E2 & E3).
    apply (phases_iff _ _ _ _ _ _ (op_dir o)) in Hp as [_ H2]. unfold phase_of in H2. rewrite <- E3 in H2. apply phase_cancelled in H1.
    pose proof (phases_put true (u_state u) (u_ab u) (u_ba u) (l ++ r) (u_cq u) (op_dir o) _ (op_tag o) (- ECANCELED) [(TAG_POLL, - e)] H1
      ltac:(by destruct o) E1 E2 ltac:(by repeat constructor) H2) as Hput. cbn [app] in Hput.
    unfold uinv, set_rings. rewrite length_app in *. cbn [length] in Hl. cbn [u_ab u_ba u_exit u_state u_ops u_cq]. rewrite He.
    split_and!; try done; [by destruct (op_dir o) | rewrite !length_app; simpl; lia].
  - by apply uring_turn_ok.
  - destruct Hinv as (Wa & Wb & H). rewrite He in H. destruct H as ([H1 H2] & _). unfold uinv. cbn [u_ab u_ba u_exit].
    apply phase_facts in H1 as (T1 & _). apply phase_facts in H2 as (T2 & _). split_and!; try done. intros E. congruence.
Qed.

(** While the relay has not returned something can happen: it never waits with nothing submitted. *)
Lemma uring_progress faults a b u : uinv faults a b u -> u_exit u = None -> exists u', ustep false u u'.
Proof.
  intros (_ & _ & H) He. rewrite He in H. destruct H as (Hp & _ & Hd).
  destruct (decide (u_cq u = [])) as [Hq | Hq]; [| eexists; by apply user_turn].
  assert (Hop : exists d s f o ops, phase faults d s f (o :: ops) [] /\ f = flow d u /\ ops_dir d (u_ops u) = o :: ops).
  { destruct Hp as [H1 H2]. rewrite Hq in *. unfold is_done in Hd.
    destruct (phase_facts _ _ _ _ _ _ H1) as (_ & _ & P1 & N1), (phase_facts _ _ _ _ _ _ H2) as (_ & _ & P2 & N2).
    destruct (eof (st_ab (u_state u))) eqn:Ea.
    - destruct (eof (st_ba (u_state u))) eqn:Eb.
      + destruct (P1 eq_refl) as [X1 _], (P2 eq_refl) as [X2 _]. by rewrite X1, X2 in Hd.
      + destruct (N2 eq_refl) as [N | N]; [| done]. destruct (ops_dir BA (u_ops u)) as [| o ops] eqn:Eo; [done |]. by exists BA, (st_ba (u_state u)), (u_ba u), o, ops.
    - destruct (N1 eq_refl) as [N | N]; [| done]. destruct (ops_dir AB (u_ops u)) as [| o ops] eqn:Eo; [done |]. by exists AB, (st_ab (u_state u)), (u_ab u), o, ops. }
  destruct Hop as (d & s & f & o & ops & Hph & -> & Eo). assert (Hin : o ∈ u_ops u /\ op_dir o = d).
  { assert (Hx : o ∈ ops_dir d (u_ops u)) by (rewrite Eo; left). apply list_elem_of_filter in Hx as [? ?]. done. }
  destruct Hin as [Hin Ed]. apply list_elem_of_split in Hin as (l & r & El). rewrite <- Ed in Hph.
  assert (Hc : exists n f', completes false o n (flow (op_dir o) u) f').
  { destruct o as [d' | d' len g]; [| eexists _, _; apply out_again]. destruct (f_src (flow (op_dir (PushIn d')) u)) as [| b0 src] eqn:Es.
    - eexists _, _. by apply in_eof.
    - eexists 1, _. apply in_moves; [rewrite Es; len_solve | done]. }
  destruct Hc as (n & f' & Hc). eexists. by eapply kernel_completes.
Qed.

Lemma uring_run_inv faults a b u : rtc (ustep faults) (uring_start a b) u -> uinv faults a b u.
Proof.
  generalize (uinv_start faults a b). generalize (uring_start a b). intros u0 H0 Hr. induction Hr as [| u0 u1 u2 Hs _ IH]; [done |].
  apply IH. by apply (ustep_ok faults a b u0).
Qed.

(** C12. The io_uring relay.  Whatever the kernel does with the operations submitted, in any order: each side has got, in order, a
    beginning of what the other sent, and nothing else; the counts returned never exceed what was delivered; and the relay never
    waits with nothing submitted.  If no operation fails and the drain timer does not run out, a relay that returns has delivered
    everything both ways, counted it exactly, and shut both sides down. *)
Theorem splice_uring_safe (faults : bool) (a b : bytes) (u : Uring) :
  rtc (ustep faults) (uring_start a b) u ->
  f_sent (u_ab u) `prefix_of` a /\ f_sent (u_ba u) `prefix_of` b
  /\ match u_exit u with
     | None => exists u', ustep false u u'
     | Some (inl (x, y)) =>
         x <= zlen (f_sent (u_ab u)) /\ y <= zlen (f_sent (u_ba u))
         /\ (faults = false -> x = zlen a /\ y = zlen b /\ f_sent (u_ab u) = a /\ f_sent (u_ba u) = b
             /\ f_shut (u_ab u) = true /\ f_shut (u_ba u) = true)
     | Some (inr _) => faults = true
     end.
Proof.
  intros Hr. pose proof (uring_run_inv _ _ _ _ Hr) as Hinv. pose proof Hinv as (Wa & Wb & H). split; [by eexists |]. split; [by eexists |].
  destruct (u_exit u) as [[[x y] | e] |] eqn:He; [done | done | by apply (uring_progress faults a b)].
Qed.

(** ** Runs *)

(** One thing that happens: the [i]-th submitted operation completes with a result, the poll in front of it fails, the loop takes a
    turn, or the drain timer runs out. *)
Inductive Happens := Completes (i : nat) (n : Z) | PollFails (i : nat) (e : Z) | Turn | Expires.

Definition complete (faults : bool) (o : Op) (n : Z) (f : Flow) : option Flow :=
  match o with
  | PushIn _ =>
      if (0 <? n) && (n <=? zlen (f_src f)) && (n <=? PIPE_CAPACITY) then
        Some (mkFlow (drop (Z.to_nat n) (f_src f)) (f_pipe f ++ take (Z.to_nat n) (f_src f)) (f_sent f) (f_shut f))
      else if (n =? 0) && (zlen (f_src f) =? 0) then Some f
      else if faults && (n <? 0) then Some f else None
  | PushOut _ len _ =>
      if (0 <? n) && (n <=? Z.min len (zlen (f_pipe f))) then
        Some (mkFlow (f_src f) (drop (Z.to_nat n) (f_pipe f)) (f_sent f ++ take (Z.to_nat n) (f_pipe f)) (f_shut f))
      else if n =? - EAGAIN then Some f
      else if faults && (n <=? 0) then Some f else None
  end.

Definition happens (faults : bool) (x : Happens) (u : Uring) : option Uring :=
  match u_exit u, x with
  | Some _, _ => None
  | None, Completes i n =>
      o ← u_ops u !! i;
      f ← complete faults o n (flow (op_dir o) u);
      Some (set_rings (take i (u_ops u) ++ drop (S i) (u_ops u)) (u_cq u ++ [(op_tag o, n)]) (set_flow (op_dir o) f u))
  | None, PollFails i e =>
      o ← u_ops u !! i;
      if faults && op_polls o then
        Some (set_rings (take i (u_ops u) ++ drop (S i) (u_ops u)) (u_cq u ++ [(TAG_POLL, - e); (op_tag o, - ECANCELED)]) u)
      else None
  | None, Turn => match u_cq u with [] => None | _ => Some (uring_turn u) end
  | None, Expires =>
      if faults && u_drain u then
        Some (mkUring (u_state u) (u_ab u) (u_ba u) (u_ops u) (u_cq u) (u_drain u)
                (Some (inl (total (st_ab (u_state u)), total (st_ba (u_state u))))))
      else None
  end.

Fixpoint play (faults : bool) (xs : list Happens) (u : Uring) : option Uring :=
  match xs with [] => Some u | x :: xs => u ← happens faults x u; play faults xs u end.

Lemma complete_ok faults o n f f' : complete faults o n f = Some f' -> completes faults o n f f'.
Proof.
  destruct o as [d | d len g]; cbn [complete].
  - destruct (Z.ltb_spec 0 n), (Z.leb_spec n (zlen (f_src f))), (Z.leb_spec n PIPE_CAPACITY); cbn [andb]; try (intros [= <-]; apply in_moves; lia);
      destruct (Z.eqb_spec n 0) as [-> | ?]; cbn [andb]; try lia;
      try (destruct (Z.eqb_spec (zlen (f_src f)) 0) as [Hz | ?]; [intros [= <-]; apply in_eof; by apply zlen_0_nil |]);
      destruct faults; cbn [andb]; try done; (destruct (Z.ltb_spec n 0); [| done]; intros [= <-]; by apply in_fails).
  - destruct (Z.ltb_spec 0 n), (Z.leb_spec n (Z.min len (zlen (f_pipe f)))); cbn [andb]; try (intros [= <-]; apply out_moves; lia);
      (destruct (Z.eqb_spec n (- EAGAIN)) as [-> | ?]; [intros [= <-]; apply out_again |]);
      destruct faults; cbn [andb]; try done; (destruct (Z.leb_spec n 0); [| done]; intros [= <-]; by apply out_fails).
Qed.

Lemma happens_ok faults x u u' : happens faults x u = Some u' -> ustep faults u u'.
Proof.
  unfold happens. destruct (u_exit u) eqn:He; [done |]. destruct x as [i n | i e | |].
  - destruct (u_ops u !! i) as [o |] eqn:Eo; cbn [mbind option_bind]; [| done].
    destruct (complete faults o n (flow (op_dir o) u)) as [f |] eqn:Ec; cbn [mbind option_bind]; [| done]. intros [= <-].
    apply kernel_completes; [done | | by apply complete_ok]. symmetry. by apply take_drop_middle.
  - destruct (u_ops u !! i) as [o |] eqn:Eo; cbn [mbind option_bind]; [| done].
    destruct faults; cbn [andb]; [| done]. destruct (op_polls o) eqn:Ep; [| done]. intros [= <-].
    apply poll_fails; [done | done | | done]. symmetry. by apply take_drop_middle.
  - destruct (u_cq u) eqn:Eq; [done |]. intros [= <-]. apply user_turn; [done | congruence].
  - destruct faults; cbn [andb]; [| done]. destruct (u_drain u) eqn:Ed; [| done]. intros [= <-]. rewrite <- Ed at 2. by apply drain_expires.
Qed.

Lemma play_ok faults xs : forall u u', play faults xs u = Some u' -> rtc (ustep faults) u u'.
Proof.
  induction xs as [| x xs IH]; intros u u'; cbn [play]; [by intros [= <-]; apply rtc_refl |].
  destruct (happens faults x u) as [u1 |] eqn:E; cbn [mbind option_bind]; [| done]. intros H. apply happens_ok in E. eapply rtc_l; [exact E | by apply IH].
Qed.

(** Three bytes one way and none back: read, written in two pieces with a full send buffer between them, then both ends. *)
Definition sample_run : list Happens :=
  [Completes 0 3; Completes 0 0; Turn; Completes 0 2; Turn; Completes 0 (- EAGAIN); Turn; Completes 0 1; Turn; Completes 0 0; Turn].

Lemma splice_uring_safe_witness :
  exists u, play false sample_run (uring_start [1; 2; 3] []) = Some u /\ u_exit u = Some (inl (3, 0)) /\ f_sent (u_ab u) `prefix_of` [1; 2; 3].
Proof.
  destruct (play false sample_run (uring_start [1; 2; 3] [])) as [u |] eqn:E; [| vm_compute in E; discriminate E].
  exists u. split; [done |]. split; [| exact (proj1 (splice_uring_safe false [1; 2; 3] [] u (play_ok _ _ _ _ E)))].
  vm_compute in E. injection E as <-. reflexivity.
Defined.

(** When one direction fails while the other has bytes in its pipe, the relay returns the error and the pipe is dropped with them:
    they were taken from the source and never reach the destination, yet the callers go on copying the same two sockets. *)
Theorem splice_error_loses (a b : bytes) :
  a <> [] -> zlen a <= PIPE_CAPACITY ->
  exists u, rtc (ustep true) (uring_start a b) u /\ u_exit u = Some (inr 104) /\ f_sent (u_ab u) = [] /\ f_src (u_ab u) = [].
Proof.
  intros Ha Hc. assert (0 < zlen a) by (destruct a; [done | len_solve]).
  exists (uring_turn (set_rings [] [(TAG_IN AB, zlen a); (TAG_IN BA, -104)] (set_flow AB (mkFlow [] a [] false) (uring_start a b)))).
  assert (Hturn : forall u, u_cq u = [(TAG_IN AB, zlen a); (TAG_IN BA, -104)] -> u_state u = u_state (uring_start a b) -> u_exit (uring_turn u) = Some (inr 104)
    /\ u_ab (uring_turn u) = u_ab u).
  { intros u E1 E2. unfold uring_turn. rewrite E1, E2. change (take 16 ?l) with l. cbn [handle_cqes handle_cqe]. unfold handle_in.
    rewrite (proj2 (Z.eqb_neq (zlen a) 0)), (proj2 (Z.eqb_neq (zlen a) (- ECANCELED))), (proj2 (Z.ltb_ge (zlen a) 0)) by (unfold ECANCELED; lia). done. }
  split; [| by destruct (Hturn (set_rings [] [(TAG_IN AB, zlen a); (TAG_IN BA, -104)] (set_flow AB (mkFlow [] a [] false) (uring_start a b))) eq_refl eq_refl) as [-> ->]].
  eapply rtc_l; [apply (kernel_completes true (uring_start a b) [] (PushIn AB) [PushIn BA] (zlen a)); [done | done | apply in_moves; cbn; lia] |].
  eapply rtc_l; [eapply (kernel_completes true _ [] (PushIn BA) [] (-104)); [done | done | by apply in_fails] |].
  cbn [flow set_rings set_flow op_dir op_tag u_ab u_ba u_state u_ops u_cq u_drain u_exit app uring_start f_src f_pipe f_sent f_shut].
  rewrite (drop_ge a (Z.to_nat (zlen a))), (take_ge a (Z.to_nat (zlen a))) by (unfold zlen; lia). apply rtc_once, user_turn; done.
Qed.

Lemma splice_error_loses_witness :
  exists u, rtc (ustep true) (uring_start [1; 2] [3]) u /\ u_exit u = Some (inr 104) /\ f_sent (u_ab u) = [] /\ f_src (u_ab u) = [].
Proof. exact (splice_error_loses [1; 2] [3] ltac:(done) ltac:(done)). Defined.

(** A client that ends its side and waits for the answer is cut off when the answer takes longer than the drain time, with nothing
    of it relayed. *)
Theorem splice_half_close (b : bytes) :
  exists u, rtc (ustep true) (uring_start [] b) u /\ u_exit u = Some (inl (0, 0)) /\ f_src (u_ba u) = b /\ f_sent (u_ba u) = [].
Proof.
  eexists. split; [| split_and!]; [apply (play_ok true [Completes 0 0; Turn; Expires]); reflexivity | done | done | done].
Qed.

(** * epoll *)

(** What a call of [splice] answers: a number of bytes it can move, would block, or an error. *)
Inductive Sys := SysOk (n : Z) | SysAgain | SysErr (e : Z).

(** Phase A: the bytes moved into the pipe, or the end; [None] while it waits. *)
Fixpoint splice_in_loop (ins : list Sys) (f : Flow) : list Sys * Flow * option (Z + Z) :=
  match ins with
  | [] => ([], f, None)
  | SysAgain :: ins => splice_in_loop ins f
  | SysErr e :: ins => (ins, f, Some (inr e))
  | SysOk n :: ins =>
      let n := Z.min (Z.min (Z.max n 1) PIPE_CAPACITY) (zlen (f_src f)) in
      (ins, mkFlow (drop (Z.to_nat n) (f_src f)) (f_pipe f ++ take (Z.to_nat n) (f_src f)) (f_sent f) (f_shut f), Some (inl n))
  end.

(** Phase B: the pipe into the destination; an answer of zero waits and tries again. *)
Fixpoint splice_out_loop (outs : list Sys) (f : Flow) (remaining total : Z) : list Sys * Flow * option (Z + Z) :=
  if remaining <=? 0 then (outs, f, Some (inl total))
  else
    match outs with
    | [] => ([], f, None)
    | SysAgain :: outs => splice_out_loop outs f remaining total
    | SysErr e :: outs => (outs, f, Some (inr e))
    | SysOk n :: outs =>
        let n := Z.min (Z.max n 0) (Z.min remaining (zlen (f_pipe f))) in
        splice_out_loop outs
          (mkFlow (f_src f) (drop (Z.to_nat n) (f_pipe f)) (f_sent f ++ take (Z.to_nat n) (f_pipe f)) (f_shut f)) (remaining - n) (total + n)
    end.

(** [splice_one_direction]: what it moved, with the count or the error; [None] while it waits for an answer.  A turn takes an
    answer of the first list, so its length and one more is enough fuel. *)
Fixpoint splice_direction_loop (fuel : nat) (ins outs : list Sys) (f : Flow) (total : Z) : Flow * option (Z + Z) :=
  match fuel with
  | O => (f, None)
  | S fuel =>
      match splice_in_loop ins f with
      | (_, f, None) => (f, None)
      | (_, f, Some (inr e)) => (f, Some (inr e))
      | (ins, f, Some (inl in_bytes)) =>
          if in_bytes =? 0 then (mkFlow (f_src f) (f_pipe f) (f_sent f) true, Some (inl total))
          else
            match splice_out_loop outs f in_bytes total with
            | (_, f, None) => (f, None)
            | (_, f, Some (inr e)) => (f, Some (inr e))
            | (outs, f, Some (inl total)) => splice_direction_loop fuel ins outs f total
            end
      end
  end.

Definition splice_one_direction (ins outs : list Sys) (data : bytes) : Flow * option (Z + Z) :=
  splice_direction_loop (S (length ins)) ins outs (mkFlow data [] [] false) 0.

(** [splice_bidirectional_epoll]: the direction that finishes first, and what the other gave within the drain time, if it did. *)
Definition splice_bidirectional_epoll (first : Dir) (res : Z + Z) (peer : option (Z + Z)) : (Z * Z) + Z :=
  match res with
  | inr e => inr e
  | inl n =>
      match default (inl 0) peer with
      | inr e => inr e
      | inl m => inl (match first with AB => (n, m) | BA => (m, n) end)
      end
  end.

Definition no_error (s : Sys) : bool := match s with SysErr _ => false | _ => true end.

Lemma splice_out_whole data outs : forall f remaining total outs' f' r,
  whole data f -> remaining = zlen (f_pipe f) -> total = zlen (f_sent f) ->
  splice_out_loop outs f remaining total = (outs', f', r) ->
  whole data f' /\ f_src f' = f_src f /\ f_shut f' = f_shut f
  /\ match r with
     | Some (inl t) => t = zlen (f_sent f') /\ f_pipe f' = [] /\ (forallb no_error outs = true -> forallb no_error outs' = true)
     | Some (inr _) => forallb no_error outs = false
     | None => True
     end.
Proof.
  induction outs as [| o outs IH]; intros f remaining total outs' f' r Hw -> ->; cbn [splice_out_loop];
    (destruct (Z.leb_spec (zlen (f_pipe f)) 0) as [Hz | Hz];
     [intros [= <- <- <-]; split_and!; [done | done | done | done | | done]; apply zlen_0_nil; pose proof (zlen_nonneg (f_pipe f)); lia |]);
    [by intros [= <- <- <-] |].
  destruct o as [n | | e]; [| by apply IH | by intros [= <- <- <-]].
  set (k := Z.min _ _). assert (Hk : 0 <= k <= zlen (f_pipe f)) by (unfold k; lia).
  apply (IH (mkFlow (f_src f) (drop (Z.to_nat k) (f_pipe f)) (f_sent f ++ take (Z.to_nat k) (f_pipe f)) (f_shut f))).
  - unfold whole in *. cbn [f_sent f_pipe f_src]. by rewrite <- app_assoc, (app_assoc (take _ _)), take_drop.
  - cbn [f_pipe]. unfold zlen in *. rewrite length_drop. lia.
  - cbn [f_sent]. unfold zlen in *. rewrite length_app, length_take. lia.
Qed.

Lemma splice_in_whole data ins : forall f ins' f' r,
  whole data f -> f_pipe f = [] -> splice_in_loop ins f = (ins', f', r) ->
  whole data f' /\ f_sent f' = f_sent f /\ f_shut f' = f_shut f
  /\ match r with
     | Some (inl k) => zlen (f_pipe f') = k /\ (k = 0 -> f_src f' = []) /\ (forallb no_error ins = true -> forallb no_error ins' = true)
     | Some (inr _) => forallb no_error ins = false
     | None => True
     end.
Proof.
  induction ins as [| i ins IH]; intros f ins' f' r Hw Hp; [by intros [= <- <- <-] |]. cbn [splice_in_loop].
  destruct i as [m | | e]; [| by apply IH | by intros [= <- <- <-]].
  intros [= <- <- <-]. pose proof (zlen_nonneg (f_src f)). set (k := Z.min _ _). assert (Hk : 0 <= k <= zlen (f_src f)) by (unfold k, PIPE_CAPACITY; lia).
  unfold whole in *. cbn [f_pipe f_src f_sent]. rewrite Hp in *. cbn [app] in *.
  split_and!; [by rewrite take_drop | done | done | unfold zlen in *; rewrite length_take; lia | | done].
  intros Ek. assert (Hz : zlen (f_src f) = 0) by (unfold k, PIPE_CAPACITY in Ek; lia). by rewrite (zlen_0_nil _ Hz), drop_nil.
Qed.

Lemma splice_direction_loop_ok data fuel : forall ins outs f0 total f r,
  whole data f0 -> f_pipe f0 = [] -> total = zlen (f_sent f0) ->
  splice_direction_loop fuel ins outs f0 total = (f, r) ->
  whole data f
  /\ match r with
     | Some (inl n) => f_sent f = data /\ n = zlen data /\ f_shut f = true /\ f_src f = []
     | Some (inr _) => forallb no_error ins && forallb no_error outs = false
     | None => True
     end.
Proof.
  induction fuel as [| fuel IH]; intros ins outs f0 total f r Hw Hp Ht; cbn [splice_direction_loop]; [by intros [= <- <-] |].
  destruct (splice_in_loop ins f0) as [[ins' f1] ri] eqn:Ei.
  destruct (splice_in_whole data ins f0 ins' f1 ri Hw Hp Ei) as (Hw1 & Hs & _ & Hin).
  destruct ri as [[k | e] |]; [| intros [= <- <-]; by rewrite Hin | by intros [= <- <-]].
  destruct Hin as (Hk & Hend & Hi). destruct (Z.eqb_spec k 0) as [Hz | Hz].
  - intros [= <- <-]. unfold whole in *. cbn [f_sent f_pipe f_src f_shut].
    assert (E : f_sent f1 = data) by (rewrite <- Hw1, (Hend Hz), (zlen_0_nil (f_pipe f1)), !app_nil_r by lia; done).
    split; [done |]. rewrite Ht, <- Hs, E, (Hend Hz). done.
  - destruct (splice_out_loop outs f1 k total) as [[outs' f2] r2] eqn:Eo.
    destruct (splice_out_whole data outs f1 k total outs' f2 r2 Hw1) as (Hw2 & _ & _ & H2); [lia | by rewrite Hs | done |].
    destruct r2 as [[t2 | e] |]; [| intros [= <- <-]; by rewrite H2, andb_false_r | by intros [= <- <-]].
    destruct H2 as (Ht2 & Hp2 & Ho). intros E. apply (IH ins' outs' f2 t2 f r Hw2 Hp2 Ht2) in E as [? E]. split; [done |].
    destruct r as [[n | e] |]; [done | | done]. apply andb_false_iff in E.
    destruct (forallb no_error ins); [| done]. destruct (forallb no_error outs); [| done]. destruct E; [by rewrite Hi in * | by rewrite Ho in *].
Qed.

(** A direction that ends well has delivered everything, counted it and shut the destination down. *)
Theorem splice_epoll_direction (ins outs : list Sys) (data : bytes) (f : Flow) (n : Z) :
  splice_one_direction ins outs data = (f, Some (inl n)) -> f_sent f = data /\ n = zlen data /\ f_shut f = true.
Proof. intros H. by apply splice_direction_loop_ok with (data := data) in H as (_ & ? & ? & ? & _). Qed.

Example splice_epoll_sample :
  splice_one_direction [SysAgain; SysOk 2; SysOk 9; SysOk 1] [SysOk 1; SysAgain; SysOk 0; SysOk 1; SysOk 1] [1; 2; 3]
  = (mkFlow [] [] [1; 2; 3] true, Some (inl 3)).
Proof. vm_compute. reflexivity. Qed.
