(* ===== verification/SpliceTcp.v ===== *)
(** [splice_bidirectional] of [blackwire-common/src/splice.rs] on two sockets: the choice
    between the io_uring relay and the epoll relay of [Splice], the cached probe, and what the
    sockets are afterwards.

    What the kernel does during a call is a value ([Kernel]): the order and the results of the
    operations of the io_uring relay, the answers to the splice calls of the epoll relay, and
    whether the drain time runs out. *)

From stdpp Require Import base list strings numbers relations.
From S2P Require Import Prelude Address Streams Chunks Boxed Relay Splice.

(** ** Sockets *)

(** The reads of a socket after [n] of its bytes were taken by the kernel. *)
Fixpoint consume (n : nat) (evs : list PollEvent) : list PollEvent :=
  match n, evs with
  | O, _ => evs
  | _, [] => []
  | _, PData d :: evs => if (length d <=? n)%nat then consume (n - length d) evs else PData (drop n d) :: evs
  | _, _ :: evs => consume n evs
  end.

(** A socket after a relay: [from] is the flow that read it, [into] the flow that wrote it.  A half that was shut down takes no
    more writes. *)
Definition after_splice (t : TcpStream) (from into : Flow) : TcpStream :=
  mkTcp (consume (length (incoming (tcp_in t)) - length (f_src from)) (tcp_in t))
    (if f_shut into then [WFail] else tcp_out t) (tcp_sent t ++ f_sent into) (tcp_closed t || f_shut into).

(** ** The relays *)

Record Kernel := mkKernel {
  k_avail : option bool;              (* the probe, as this call finds it *)
  k_ring : bool;                      (* the ring and its pipes can be made *)
  k_faults : bool;                    (* operations may fail, the drain time may run out *)
  k_uring : list Happens;
  k_ab : list Sys * list Sys;         (* answers of the splice calls into and out of the pipe *)
  k_ba : list Sys * list Sys;
  k_first : Dir;                      (* the direction that ends first *)
  k_cut : bool;                       (* the other does not end within the drain time *)
}.

(** Sockets and result of a relay; [None] while it runs. *)
Abbreviation spliced := (option (TcpStream * TcpStream * ((Z * Z) + Z))).

(** [splice_bidirectional_uring]. *)
Definition splice_bidirectional_uring (k : Kernel) (a b : TcpStream) : spliced :=
  if k_ring k then
    u ← play (k_faults k) (k_uring k) (uring_start (incoming (tcp_in a)) (incoming (tcp_in b)));
    r ← u_exit u;
    Some (after_splice a (u_ab u) (u_ba u), after_splice b (u_ba u) (u_ab u), r)
  else Some (a, b, inr 38).

(** [splice_bidirectional_epoll] on sockets. *)
Definition splice_epoll (k : Kernel) (a b : TcpStream) : spliced :=
  let '(fab, rab) := splice_one_direction (k_ab k).1 (k_ab k).2 (incoming (tcp_in a)) in
  let '(fba, rba) := splice_one_direction (k_ba k).1 (k_ba k).2 (incoming (tcp_in b)) in
  let a' := after_splice a fab fba in
  let b' := after_splice b fba fab in
  res ← (match k_first k with AB => rab | BA => rba end);
  let peer := match k_first k with AB => rba | BA => rab end in
  match res, k_cut k, peer with
  | inl _, false, None => None
  | _, cut, _ => Some (a', b', splice_bidirectional_epoll (k_first k) res (if cut then None else peer))
  end.

(** [splice_bidirectional], with the probe as it leaves it. *)
Definition splice_bidirectional (k : Kernel) (a b : TcpStream) : option (option bool * TcpStream * TcpStream * ((Z * Z) + Z)) :=
  match k_avail k with
  | Some true => '(a, b, r) ← splice_bidirectional_uring k a b; Some (Some true, a, b, r)
  | Some false => '(a, b, r) ← splice_epoll k a b; Some (Some false, a, b, r)
  | None =>
      '(a, b, r) ← splice_bidirectional_uring k a b;
      match r with
      | inl counts => Some (Some true, a, b, inl counts)
      | inr _ => '(a, b, r) ← splice_epoll k a b; Some (Some false, a, b, r)
      end
  end.

(** ** What a call does *)

(** No operation fails, and the drain time does not run out. *)
Definition unfailing (k : Kernel) : Prop :=
  k_faults k = false /\ k_cut k = false
  /\ Forall (fun l => forallb no_error l = true) [(k_ab k).1; (k_ab k).2; (k_ba k).1; (k_ba k).2].

(** Splicing is refused at once: no ring can be made, and the first call of each direction fails. *)
Definition refusing (k : Kernel) : Prop :=
  k_ring k = false /\ (exists e, head (k_ab k).1 = Some (SysErr e)) /\ (exists e, head (k_ba k).1 = Some (SysErr e)).

(** From [src] to [dst]: what [dst] got and what [src] still has are, in order, among what [src] had. *)
Definition moved (src dst src' dst' : TcpStream) : Prop :=
  exists x, tcp_sent dst' = tcp_sent dst ++ x /\ x ++ incoming (tcp_in src') `sublist_of` incoming (tcp_in src).

Lemma moved_refl src dst : moved src dst src dst.
Proof. exists []. by rewrite app_nil_r. Qed.

Lemma moved_trans src dst src1 dst1 src2 dst2 :
  moved src dst src1 dst1 -> moved src1 dst1 src2 dst2 -> moved src dst src2 dst2.
Proof.
  intros (x & Hx & Sx) (y & Hy & Sy). exists (x ++ y). split; [by rewrite Hy, Hx, app_assoc |].
  etransitivity; [| exact Sx]. rewrite <- app_assoc. by apply sublist_app.
Qed.

Lemma consume_ok evs : forall n,
  clean evs -> (n <= length (incoming evs))%nat -> incoming (consume n evs) = drop n (incoming evs) /\ clean (consume n evs).
Proof.
  induction evs as [| ev evs IH]; intros n Hc Hn; [by destruct n |]. apply Forall_cons_iff in Hc as Hc'. destruct Hc' as [Hev Hc'].
  destruct n as [| n]; [done |]. destruct ev as [d | |]; cbn [consume]; [| | done].
  - change (incoming (PData d :: evs)) with (d ++ incoming evs) in *. rewrite length_app in Hn.
    destruct (Nat.leb_spec (length d) (S n)) as [Hl | Hl].
    + destruct (IH (S n - length d)%nat Hc' ltac:(lia)) as [-> ?]. split; [| done]. by rewrite drop_app_ge by lia.
    + change (incoming (PData (drop (S n) d) :: evs)) with (drop (S n) d ++ incoming evs). rewrite drop_app_le by lia. split; [done |].
      constructor; [| done]. cbn [clean_event]. intros E. apply (f_equal length) in E. rewrite length_drop in E. cbn in E. lia.
  - by apply (IH (S n)).
Qed.

(** What is left in a socket the flow [f] read. *)
Lemma after_splice_in t f g :
  clean (tcp_in t) -> whole (incoming (tcp_in t)) f -> incoming (tcp_in (after_splice t f g)) = f_src f /\ clean (tcp_in (after_splice t f g)).
Proof.
  intros Hc Hw. unfold after_splice. cbn [tcp_in]. unfold whole in Hw. set (n := (_ - _)%nat).
  assert (Hn : n = length (f_sent f ++ f_pipe f)) by (unfold n; rewrite <- Hw, !length_app; lia).
  destruct (consume_ok (tcp_in t) n Hc ltac:(lia)) as [-> ?]. split; [| done].
  rewrite <- Hw, app_assoc, Hn. by rewrite drop_app_length.
Qed.

Lemma after_splice_moved a b fab fba :
  clean (tcp_in a) -> whole (incoming (tcp_in a)) fab -> moved a b (after_splice a fab fba) (after_splice b fba fab).
Proof.
  intros Hc Hw. exists (f_sent fab). split; [done |]. destruct (after_splice_in a fab fba Hc Hw) as [-> _].
  unfold whole in Hw. rewrite <- Hw. apply sublist_app; [done |]. by apply sublist_inserts_l.
Qed.

(** Both ways, with sockets that still can be read. *)
Definition moved_both (a b a' b' : TcpStream) : Prop :=
  moved a b a' b' /\ moved b a b' a' /\ clean (tcp_in a') /\ clean (tcp_in b').

(** Everything, counted, and both ends told. *)
Definition moved_all (a b a' b' : TcpStream) (counts : Z * Z) : Prop :=
  counts = (zlen (incoming (tcp_in a)), zlen (incoming (tcp_in b)))
  /\ tcp_sent b' = tcp_sent b ++ incoming (tcp_in a) /\ tcp_sent a' = tcp_sent a ++ incoming (tcp_in b)
  /\ tcp_closed a' = true /\ tcp_closed b' = true.

Section calls.
Context (k : Kernel) (a b : TcpStream).
Context (Ca : clean (tcp_in a)) (Cb : clean (tcp_in b)).

Lemma flows_moved fab fba :
  whole (incoming (tcp_in a)) fab -> whole (incoming (tcp_in b)) fba ->
  moved_both a b (after_splice a fab fba) (after_splice b fba fab).
Proof.
  intros Wa Wb. split_and!; [by apply after_splice_moved | by apply after_splice_moved | by apply after_splice_in | by apply after_splice_in].
Qed.

Lemma flows_all fab fba x y :
  f_sent fab = incoming (tcp_in a) -> f_sent fba = incoming (tcp_in b) -> f_shut fab = true -> f_shut fba = true ->
  x = zlen (incoming (tcp_in a)) -> y = zlen (incoming (tcp_in b)) ->
  moved_all a b (after_splice a fab fba) (after_splice b fba fab) (x, y).
Proof.
  intros Sa Sb Ha Hb -> ->. unfold moved_all, after_splice. cbn [tcp_sent tcp_closed]. rewrite Sa, Sb, Ha, Hb, !orb_true_r. done.
Qed.

Lemma splice_uring_moves a' b' r :
  splice_bidirectional_uring k a b = Some (a', b', r) ->
  moved_both a b a' b'
  /\ (k_ring k = false -> a' = a /\ b' = b)
  /\ (k_faults k = false -> match r with inl counts => moved_all a b a' b' counts | inr _ => a' = a /\ b' = b end).
Proof.
  unfold splice_bidirectional_uring. destruct (k_ring k).
  - destruct (play _ _ _) as [u |] eqn:Hp; cbn [mbind option_bind]; [| done].
    destruct (u_exit u) as [r' |] eqn:He; cbn [mbind option_bind]; [| done]. intros [= <- <- <-].
    apply play_ok, uring_run_inv in Hp as (Wa & Wb & Hx). rewrite He in Hx. split; [by apply flows_moved |]. split; [done |].
    intros Hf. destruct r' as [[x y] | e]; [| congruence]. destruct Hx as (_ & _ & Hx).
    destruct (Hx Hf) as (? & ? & ? & ? & ? & ?). by apply flows_all.
  - intros [= <- <- <-]. split; [split_and!; try done; apply moved_refl | done].
Qed.

Lemma splice_epoll_moves a' b' r :
  splice_epoll k a b = Some (a', b', r) ->
  moved_both a b a' b' /\ (unfailing k -> exists counts, r = inl counts /\ moved_all a b a' b' counts).
Proof.
  unfold splice_epoll.
  destruct (splice_one_direction (k_ab k).1 (k_ab k).2 (incoming (tcp_in a))) as [fab rab] eqn:Hab.
  destruct (splice_one_direction (k_ba k).1 (k_ba k).2 (incoming (tcp_in b))) as [fba rba] eqn:Hba.
  apply splice_direction_loop_ok with (data := incoming (tcp_in a)) in Hab as [Wa Ha]; [| done | done | done].
  apply splice_direction_loop_ok with (data := incoming (tcp_in b)) in Hba as [Wb Hb]; [| done | done | done].
  pose proof (flows_moved fab fba Wa Wb) as Hm.
  destruct (match k_first k with AB => rab | BA => rba end) as [res |] eqn:Hres; cbn [mbind option_bind]; [| done].
  intros Hs. assert (E : a' = after_splice a fab fba /\ b' = after_splice b fba fab
    /\ r = splice_bidirectional_epoll (k_first k) res (if k_cut k then None else match k_first k with AB => rba | BA => rab end)
    /\ (forall n, k_cut k = false -> res = inl n -> is_Some (match k_first k with AB => rba | BA => rab end))).
  { destruct res as [n | e], (k_cut k), (match k_first k with AB => rba | BA => rab end) as [p |]; try done;
      injection Hs as <- <- <-; split_and!; done. }
  destruct E as (-> & -> & -> & Hpeer). split; [done |]. intros (_ & Hcut & Herr). rewrite Hcut in *.
  repeat (apply Forall_cons_iff in Herr as [? Herr]).
  assert (Ha' : forall e, rab <> Some (inr e)) by (intros e ->; by rewrite H, H0 in Ha).
  assert (Hb' : forall e, rba <> Some (inr e)) by (intros e ->; by rewrite H1, H2 in Hb).
  destruct (k_first k).
  - subst rab. destruct res as [n | e]; [| by destruct (Ha' e)]. destruct (Hpeer n eq_refl eq_refl) as [[m | e] ->]; [| by destruct (Hb' e)].
    destruct Ha as (? & ? & ? & _), Hb as (? & ? & ? & _). eexists. split; [done |]. by apply flows_all.
  - subst rba. destruct res as [n | e]; [| by destruct (Hb' e)]. destruct (Hpeer n eq_refl eq_refl) as [[m | e] ->]; [| by destruct (Ha' e)].
    destruct Ha as (? & ? & ? & _), Hb as (? & ? & ? & _). eexists. split; [done |]. by apply flows_all.
Qed.

End calls.

Lemma after_splice_none t f g :
  f_src f = incoming (tcp_in t) -> f_sent g = [] -> f_shut g = false -> after_splice t f g = t.
Proof.
  intros Hf Hs Hg. unfold after_splice. rewrite Hf, Hs, Hg, Nat.sub_diag, app_nil_r, orb_false_r. by destruct t as [[] ? ? ?].
Qed.

Lemma splice_epoll_refused k a b : refusing k -> exists e, splice_epoll k a b = Some (a, b, inr e).
Proof.
  intros (_ & [e1 H1] & [e2 H2]). unfold splice_epoll, splice_one_direction. destruct (k_ab k) as [[| s1 i1] o1]; [done |]. destruct (k_ba k) as [[| s2 i2] o2]; [done |].
  cbn in H1, H2. injection H1 as ->. injection H2 as ->. cbn.
  destruct (k_first k); cbn; (eexists; rewrite !after_splice_none by done; done).
Qed.

(** What [splice_bidirectional] does on two sockets, whatever the kernel does: bytes move in order, none is made up or doubled.
    Without failures a call that returns has moved everything; and a call that is refused leaves the sockets as they were. *)
Lemma splice_bidirectional_moves k a b av a' b' r :
  clean (tcp_in a) -> clean (tcp_in b) -> splice_bidirectional k a b = Some (av, a', b', r) ->
  moved_both a b a' b'
  /\ (unfailing k -> match r with inl counts => moved_all a b a' b' counts | inr _ => a' = a /\ b' = b end).
Proof.
  intros Ca Cb. unfold splice_bidirectional. destruct (k_avail k) as [[|] |].
  - destruct (splice_bidirectional_uring k a b) as [[[a1 b1] r1] |] eqn:E; cbn [mbind option_bind]; [| done]. intros [= <- <- <- <-].
    apply splice_uring_moves in E as (Hm & _ & Hu); [| done | done]. split; [done |]. intros (Hf & _). by apply Hu.
  - destruct (splice_epoll k a b) as [[[a1 b1] r1] |] eqn:E; cbn [mbind option_bind]; [| done]. intros [= <- <- <- <-].
    apply splice_epoll_moves in E as [Hm Hu]; [| done | done]. split; [done |]. intros Hf. by destruct (Hu Hf) as (counts & -> & ?).
  - destruct (splice_bidirectional_uring k a b) as [[[a1 b1] r1] |] eqn:E; cbn [mbind option_bind]; [| done].
    apply splice_uring_moves in E as (Hm & Hring & Hu); [| done | done].
    destruct r1 as [counts | e]; [intros [= <- <- <- <-]; split; [done |]; intros (Hf & _); by apply Hu |].
    destruct (splice_epoll k a1 b1) as [[[a2 b2] r2] |] eqn:E2; cbn [mbind option_bind]; [| done]. intros [= <- <- <- <-].
    destruct Hm as (M1 & M2 & C1 & C2). apply splice_epoll_moves in E2 as [(N1 & N2 & D1 & D2) Hu2]; [| done | done]. split.
    + split_and!; [by eapply moved_trans | by eapply moved_trans | done | done].
    + intros Hf. destruct (Hu (proj1 Hf)) as [-> ->]. by destruct (Hu2 Hf) as (counts & -> & ?).
Qed.

Lemma splice_bidirectional_refused k a b :
  refusing k -> exists av e, splice_bidirectional k a b = Some (av, a, b, inr e).
Proof.
  intros Hk. destruct (splice_epoll_refused k a b Hk) as [e He]. destruct Hk as (Hr & _).
  unfold splice_bidirectional, splice_bidirectional_uring. rewrite Hr. destruct (k_avail k) as [[|] |]; cbn; rewrite ?He; cbn; eauto.
Qed.

(** A direction cut off by the drain time counts as nothing, whatever it moved; and an error of the very first relay turns io_uring
    off for all relays after it. *)
Theorem splice_epoll_counts (n : Z) (k later : Kernel) (a b a' b' : TcpStream) (av : option bool) (r : (Z * Z) + Z) :
  splice_bidirectional_epoll AB (inl n) None = inl (n, 0)
  /\ (forall e a1 b1, k_avail k = None -> splice_bidirectional_uring k a b = Some (a1, b1, inr e) ->
      splice_bidirectional k a b = Some (av, a', b', r) ->
      av = Some false
      /\ (k_avail later = av -> forall c d, splice_bidirectional later c d = ('(c, d, x) ← splice_epoll later c d; Some (Some false, c, d, x)))).
Proof.
  split; [done |]. intros e a1 b1 Hk Hu. unfold splice_bidirectional at 1. rewrite Hk, Hu. cbn [mbind option_bind].
  destruct (splice_epoll k a1 b1) as [[[a2 b2] r2] |]; cbn [mbind option_bind]; [| done]. intros [= <- _ _ _]. split; [done |].
  intros Hl c d. unfold splice_bidirectional. by rewrite Hl.
Qed.
