(* ===== verification/RelayPolicy.v ===== *)
(** The relay of [blackwire-app/src/relay.rs]: the choice between splicing in the kernel and
    copying, the adaptive policy, and what is delivered and counted.

    A splice between two sockets is that of [SpliceTcp]: what the kernel does during each call
    is an argument, given the number of turns left and the sockets as the call finds them.
    Inbound streams wrapped for XTLS Vision ([try_into_vision_stream] and
    [relay_vision_inbound_with_splice_policy]) are not modelled: the boxed streams here are
    those of [Boxed], none of which is one. *)

From stdpp Require Import base list strings numbers.
From S2P Require Import Prelude Address Streams Chunks Boxed Relay Splice SpliceTcp.

Inductive FastSplicePolicy := Always | Adaptive | Disabled.

Definition ADAPTIVE_SPLICE_MIN_BYTES : Z := 256 * 1024.
(** In milliseconds. *)
Definition ADAPTIVE_SPLICE_LONG_STREAM_AFTER : Z := 30.
Definition ADAPTIVE_COPY_BUFFER_BYTES : Z := 64 * 1024.
Definition ADAPTIVE_SPLICE_FULL_READ_STREAK : Z := 4.
Definition ADAPTIVE_SPLICE_FULL_READ_MIN_BYTES : Z := 64 * 1024.

Definition adaptive_splice_ready (copied_total elapsed full_read_streak : Z) : bool :=
  let bulk_reads := ADAPTIVE_SPLICE_FULL_READ_STREAK <=? full_read_streak in
  bulk_reads
  && ((ADAPTIVE_SPLICE_MIN_BYTES <=? copied_total)
      || ((ADAPTIVE_SPLICE_FULL_READ_MIN_BYTES <=? copied_total) && (ADAPTIVE_SPLICE_LONG_STREAM_AFTER <=? elapsed))).

Definition adaptive_splice_ready_for_directions (up_copied down_copied elapsed up_streak down_streak : Z) : bool :=
  adaptive_splice_ready up_copied elapsed up_streak || adaptive_splice_ready down_copied elapsed down_streak.

(** [saturating_add] on [u8]. *)
Definition update_full_read_streak (current read_len buf_len : Z) : Z :=
  if read_len =? buf_len then Z.min (current + 1) 255 else 0.

Definition vision_splice_policy_ready (policy : FastSplicePolicy) (up down elapsed up_streak down_streak : Z) : bool :=
  match policy with
  | Disabled => false
  | Always => true
  | Adaptive => adaptive_splice_ready_for_directions up down elapsed up_streak down_streak
  end.

(** ** The adaptive relay *)

(** What [select! { biased; ... }] takes: the outbound read is polled first. *)
Inductive Selected := SDown (x : bytes + ProxyError) | SUp (x : bytes + ProxyError) | SWait.

Definition select_up (up_eof : bool) (inb outb : TcpStream) : TcpStream * TcpStream * Selected :=
  match (if up_eof then (inb, Pending) else tcp_read ADAPTIVE_COPY_BUFFER_BYTES inb) with
  | (inb, Ready d) => (inb, outb, SUp (inl d))
  | (inb, Failed e) => (inb, outb, SUp (inr e))
  | (inb, Pending) => (inb, outb, SWait)
  end.

Definition select_read (down_eof up_eof : bool) (inb outb : TcpStream) : TcpStream * TcpStream * Selected :=
  match (if down_eof then (outb, Pending) else tcp_read ADAPTIVE_COPY_BUFFER_BYTES outb) with
  | (outb, Ready d) => (inb, outb, SDown (inl d))
  | (outb, Failed e) => (inb, outb, SDown (inr e))
  | (outb, Pending) => select_up up_eof inb outb
  end.

Section relay.
Context (kernel : nat -> TcpStream -> TcpStream -> Kernel).

(** The variables of the loop. *)
Record Adaptive_state := mkAdaptive {
  ad_up : Z; ad_down : Z; ad_up_eof : bool; ad_down_eof : bool; ad_up_streak : Z; ad_down_streak : Z;
}.

Definition adaptive_new : Adaptive_state := mkAdaptive 0 0 false false 0 0.

(** The branches of the [select!].  A wait polls again. *)
Definition handle_selected (fuel : nat) (loop : TcpStream -> TcpStream -> Adaptive_state -> option (TcpStream * TcpStream * ((Z * Z) + ProxyError)))
    (s : Adaptive_state) (x : TcpStream * TcpStream * Selected) : option (TcpStream * TcpStream * ((Z * Z) + ProxyError)) :=
  match x with
  | (inb, outb, SWait) => loop inb outb s
  | (inb, outb, SDown (inr e)) | (inb, outb, SUp (inr e)) => Some (inb, outb, inr e)
  | (inb, outb, SDown (inl [])) =>
      loop (tcp_shutdown inb) outb (mkAdaptive (ad_up s) (ad_down s) (ad_up_eof s) true (ad_up_streak s) (ad_down_streak s))
  | (inb, outb, SDown (inl d)) =>
      '(inb, e) ← write_all fuel d inb;
      match e with
      | Some e => Some (inb, outb, inr e)
      | None =>
          loop inb outb
            (mkAdaptive (ad_up s) (wrap 64 (ad_down s + zlen d)) (ad_up_eof s) (ad_down_eof s) (ad_up_streak s)
               (update_full_read_streak (ad_down_streak s) (zlen d) ADAPTIVE_COPY_BUFFER_BYTES))
      end
  | (inb, outb, SUp (inl [])) =>
      loop inb (tcp_shutdown outb) (mkAdaptive (ad_up s) (ad_down s) true (ad_down_eof s) (ad_up_streak s) (ad_down_streak s))
  | (inb, outb, SUp (inl d)) =>
      '(outb, e) ← write_all fuel d outb;
      match e with
      | Some e => Some (inb, outb, inr e)
      | None =>
          loop inb outb
            (mkAdaptive (wrap 64 (ad_up s + zlen d)) (ad_down s) (ad_up_eof s) (ad_down_eof s)
               (update_full_read_streak (ad_up_streak s) (zlen d) ADAPTIVE_COPY_BUFFER_BYTES) (ad_down_streak s))
      end
  end.

(** A turn after the splice was not taken: the end of both, or one read and its write. *)
Definition adaptive_turn (fuel : nat) (loop : TcpStream -> TcpStream -> Adaptive_state -> option (TcpStream * TcpStream * ((Z * Z) + ProxyError)))
    (inb outb : TcpStream) (pu pd : Z) (s : Adaptive_state) : option (TcpStream * TcpStream * ((Z * Z) + ProxyError)) :=
  if ad_up_eof s && ad_down_eof s then Some (inb, outb, inl (wrap 64 (ad_up s + pu), wrap 64 (ad_down s + pd)))
  else handle_selected fuel loop s (select_read (ad_down_eof s) (ad_up_eof s) inb outb).

(** [elapsed] gives the time passed at each turn. *)
Fixpoint adaptive_loop (fuel : nat) (elapsed : list Z) (inb outb : TcpStream) (pu pd : Z) (s : Adaptive_state)
  : option (TcpStream * TcpStream * ((Z * Z) + ProxyError)) :=
  match fuel with
  | O => None
  | S fuel =>
      let loop inb outb s := adaptive_loop fuel (tl elapsed) inb outb pu pd s in
      if negb (ad_up_eof s) && negb (ad_down_eof s)
         && adaptive_splice_ready_for_directions (wrap 64 (pu + ad_up s)) (wrap 64 (pd + ad_down s)) (hd 0 elapsed) (ad_up_streak s) (ad_down_streak s)
      then
        '(_, inb, outb, r) ← splice_bidirectional (kernel fuel inb outb) inb outb;
        match r with
        | inl (more_up, more_down) => Some (inb, outb, inl (wrap 64 (wrap 64 (ad_up s + more_up) + pu), wrap 64 (wrap 64 (ad_down s + more_down) + pd)))
        | inr _ => adaptive_turn fuel loop inb outb pu pd s
        end
      else adaptive_turn fuel loop inb outb pu pd s
  end.

Definition adaptive_copy_then_splice (fuel : nat) (elapsed : list Z) (inb outb : TcpStream) (pu pd : Z) :=
  adaptive_loop fuel elapsed inb outb pu pd adaptive_new.

(** ** The relay *)

(** [tokio_copy_bidirectional]: writes go to the bottom of the boxed streams. *)
Definition tokio_copy_bidirectional (fuel : nat) (inb outb : BoxedStream) : option (TcpStream * TcpStream * ((Z * Z) + ProxyError)) :=
  '(_, win, _, wout, r) ← copy_bidirectional_pooled tcp_shutdown tcp_shutdown fuel inb (bottom inb) outb (bottom outb);
  Some (win, wout, r).

Definition add_counts (pu pd : Z) (r : (Z * Z) + ProxyError) : (Z * Z) + ProxyError :=
  match r with inl (up, down) => inl (wrap 64 (up + pu), wrap 64 (down + pd)) | inr e => inr e end.

(** The writing ends after the relay, and its result. *)
Definition relay_bidirectional_with_splice_policy (fuel : nat) (elapsed : list Z) (inb outb : BoxedStream) (policy : FastSplicePolicy)
  : option (TcpStream * TcpStream * ((Z * Z) + ProxyError)) :=
  match try_into_tcp_stream_with_prefix inb with
  | inr inb => tokio_copy_bidirectional fuel inb outb
  | inl (ti, inbound_prefix) =>
      match try_into_tcp_stream_with_prefix outb with
      | inr outb =>
          tokio_copy_bidirectional fuel (if zlen inbound_prefix =? 0 then BTcp ti else BPrependedTcp (prepended_new ti inbound_prefix)) outb
      | inl (to, outbound_prefix) =>
          let pu := zlen inbound_prefix in
          let pd := zlen outbound_prefix in
          '(to, e) ← (if zlen inbound_prefix =? 0 then Some (to, None) else write_all fuel inbound_prefix to);
          match e with
          | Some e => Some (ti, to, inr e)
          | None =>
              '(ti, e) ← (if zlen outbound_prefix =? 0 then Some (ti, None) else write_all fuel outbound_prefix ti);
              match e with
              | Some e => Some (ti, to, inr e)
              | None =>
                  match policy with
                  | Disabled => '(ti, to, r) ← tokio_copy_bidirectional fuel (BTcp ti) (BTcp to); Some (ti, to, add_counts pu pd r)
                  | Adaptive => adaptive_copy_then_splice fuel elapsed ti to pu pd
                  | Always =>
                      '(_, ti, to, r) ← splice_bidirectional (kernel fuel ti to) ti to;
                      match r with
                      | inl r => Some (ti, to, add_counts pu pd (inl r))
                      | inr _ => '(ti, to, r) ← tokio_copy_bidirectional fuel (BTcp ti) (BTcp to); Some (ti, to, add_counts pu pd r)
                      end
                  end
              end
          end
      end
  end.

End relay.

(** * What is delivered *)

(** One direction of a relay: from [src] to [dst], at the end of [src] or not. *)
Definition side (src dst : TcpStream) (eof : bool) : Prop :=
  clean (tcp_in src) /\ takes (length (incoming (tcp_in src))) dst /\ (eof = true -> incoming (tcp_in src) = [] /\ tcp_closed dst = true).

(** Turns it may still take. *)
Definition work (src : TcpStream) (eof : bool) : nat :=
  (waits (tcp_in src) + length (incoming (tcp_in src)) + (if eof then 0 else 1))%nat.

Lemma side_ext src src' dst dst' eof :
  side src dst eof -> tcp_in src' = tcp_in src -> tcp_out dst' = tcp_out dst -> tcp_closed dst' = tcp_closed dst -> side src' dst' eof.
Proof. intros (H1 & H2 & H3) E1 E2 E3. unfold side, takes in *. by rewrite E1, E2, E3. Qed.

Lemma tcp_read_ok cap t :
  1 <= cap -> clean (tcp_in t) ->
  let '(t', r) := tcp_read cap t in
  tcp_out t' = tcp_out t /\ tcp_sent t' = tcp_sent t /\ tcp_closed t' = tcp_closed t /\ clean (tcp_in t') /\
  match r with
  | Ready d => waits (tcp_in t') = waits (tcp_in t) /\ incoming (tcp_in t) = d ++ incoming (tcp_in t') /\ (d = [] -> incoming (tcp_in t) = [])
  | Pending => waits (tcp_in t) = S (waits (tcp_in t')) /\ incoming (tcp_in t') = incoming (tcp_in t)
  | Failed _ => False
  end.
Proof.
  intros Hcap Hc. pose proof (tcp_spec cap t (incoming (tcp_in t)) Hcap Hc eq_refl) as H. cbn [rd_poll tcp_reader rd_inner] in H. unfold tcp_poll_read in H.
  assert (Ht : tcp_out (tcp_read cap t).1 = tcp_out t /\ tcp_sent (tcp_read cap t).1 = tcp_sent t /\ tcp_closed (tcp_read cap t).1 = tcp_closed t)
    by (unfold tcp_read; by destruct (inner_read _ _)).
  destruct (tcp_read cap t) as [t' [d | |]]; cbn [read_post fst] in *; [| | done].
  - destruct H as (H1 & H2 & _ & d' & H3 & H4 & H5). unfold tcp_carries in H4. subst d'. destruct Ht as (? & ? & ?). by split_and!.
  - destruct H as (H1 & H2 & H3). destruct Ht as (? & ? & ?). by split_and!.
Qed.

(** A read of one direction with the write that follows. *)
Lemma side_read fuel src dst :
  side src dst false -> (length (tcp_out dst) <= fuel)%nat ->
  let '(src', r) := tcp_read ADAPTIVE_COPY_BUFFER_BYTES src in
  tcp_out src' = tcp_out src /\ tcp_sent src' = tcp_sent src /\ tcp_closed src' = tcp_closed src /\
  match r with
  | Ready [] => incoming (tcp_in src) = [] /\ side src' (tcp_shutdown dst) true /\ (work src' true < work src false)%nat
      /\ incoming (tcp_in src') = []
  | Ready d => incoming (tcp_in src) = d ++ incoming (tcp_in src') /\ (work src' false < work src false)%nat
      /\ exists dst', write_all fuel d dst = Some (dst', None) /\ side src' dst' false /\ tcp_sent dst' = tcp_sent dst ++ d
           /\ (length (tcp_out dst') <= length (tcp_out dst))%nat /\ tcp_in dst' = tcp_in dst /\ tcp_closed dst' = tcp_closed dst
  | Pending => incoming (tcp_in src') = incoming (tcp_in src) /\ side src' dst false /\ (work src' false < work src false)%nat
  | Failed _ => False
  end.
Proof.
  intros (Hc & Ht & _) Hf. pose proof (tcp_read_ok ADAPTIVE_COPY_BUFFER_BYTES src ltac:(done) Hc) as H. unfold work, side.
  destruct (tcp_read ADAPTIVE_COPY_BUFFER_BYTES src) as [src' [d | |]]; destruct H as (H1 & H2 & H3 & Hc' & H4); [| | done]; do 3 (split; [done |]).
  - destruct H4 as (Hw & Hi & Hn). destruct d as [| b d].
    + specialize (Hn eq_refl). cbn [app] in Hi. rewrite <- Hi, Hn in *. split_and!; try done. simpl. lia.
    + rewrite Hi, length_app in *. destruct (write_all_live fuel (b :: d) dst _ Ht Hf) as (dst' & E & Ht' & Hl & Hs & Hcl & Hin).
      split_and!; [done | simpl; lia |]. exists dst'. by split_and!.
  - destruct H4 as (Hw & Hi). rewrite Hi. split_and!; try done. lia.
Qed.

(** A kernel that lets every splice go through to its end, or refuses it at once. *)
Definition obliging (kernel : nat -> TcpStream -> TcpStream -> Kernel) : Prop :=
  forall n a b, clean (tcp_in a) -> clean (tcp_in b) ->
    unfailing (kernel n a b) /\ is_Some (splice_bidirectional (kernel n a b) a b) \/ refusing (kernel n a b).

Lemma splice_obliged kernel n a b :
  obliging kernel -> clean (tcp_in a) -> clean (tcp_in b) ->
  exists av a' b' r, splice_bidirectional (kernel n a b) a b = Some (av, a', b', r)
    /\ match r with inl counts => moved_all a b a' b' counts | inr _ => a' = a /\ b' = b end.
Proof.
  intros Hk Ca Cb. destruct (Hk n a b Ca Cb) as [[Hu [[[[av a'] b'] r] Hs]] | Hr].
  - exists av, a', b', r. split; [done |]. by apply splice_bidirectional_moves in Hs as [_ Hs]; [apply Hs | |].
  - destruct (splice_bidirectional_refused _ a b Hr) as (av & e & Hs). by exists av, a, b, (inr e).
Qed.

(** Everything delivered, counted with what was before. *)
Definition delivered (ti to : TcpStream) (pu pd : Z) (r : option (TcpStream * TcpStream * ((Z * Z) + ProxyError))) : Prop :=
  exists ti' to', r = Some (ti', to', inl (pu + zlen (incoming (tcp_in ti)), pd + zlen (incoming (tcp_in to))))
    /\ tcp_sent to' = tcp_sent to ++ incoming (tcp_in ti) /\ tcp_sent ti' = tcp_sent ti ++ incoming (tcp_in to)
    /\ tcp_closed ti' = true /\ tcp_closed to' = true.

(** The state of an adaptive relay with work left. *)
Definition adaptive_inv (n : nat) (inb outb : TcpStream) (pu pd : Z) (s : Adaptive_state) : Prop :=
  side inb outb (ad_up_eof s) /\ side outb inb (ad_down_eof s) /\ 0 <= pu /\ 0 <= pd /\ 0 <= ad_up s /\ 0 <= ad_down s
  /\ ad_up s + pu + zlen (incoming (tcp_in inb)) < 2 ^ 64 /\ ad_down s + pd + zlen (incoming (tcp_in outb)) < 2 ^ 64
  /\ (work inb (ad_up_eof s) + work outb (ad_down_eof s) + length (tcp_out inb) + length (tcp_out outb) < n)%nat.

Abbreviation delivers_rest inb outb pu pd s r := (delivered inb outb (ad_up s + pu) (ad_down s + pd) r).

(** A step that took [u] and [d] from the two sides and wrote them. *)
Lemma delivered_step ti to ti1 to1 u d pu pd pu1 pd1 r :
  incoming (tcp_in ti) = u ++ incoming (tcp_in ti1) -> incoming (tcp_in to) = d ++ incoming (tcp_in to1) ->
  tcp_sent to1 = tcp_sent to ++ u -> tcp_sent ti1 = tcp_sent ti ++ d -> pu1 = pu + zlen u -> pd1 = pd + zlen d ->
  delivered ti1 to1 pu1 pd1 r -> delivered ti to pu pd r.
Proof.
  intros E1 E2 S1 S2 -> -> (ti' & to' & -> & H1 & H2 & H3 & H4). exists ti', to'. rewrite E1, E2, H1, H2, S1, S2, !zlen_app, <- !app_assoc, !Z.add_assoc. done.
Qed.

Section turn.
Context (fuel : nat) (loop : TcpStream -> TcpStream -> Adaptive_state -> option (TcpStream * TcpStream * ((Z * Z) + ProxyError))) (pu pd : Z).
Hypothesis Hloop : forall inb outb s, adaptive_inv fuel inb outb pu pd s -> delivers_rest inb outb pu pd s (loop inb outb s).

(** The outbound side had something: its end, or bytes that are written to the inbound side. *)
Lemma turn_down inb outb s :
  adaptive_inv (S fuel) inb outb pu pd s -> ad_down_eof s = false ->
  match tcp_read ADAPTIVE_COPY_BUFFER_BYTES outb with
  | (outb', Ready []) =>
      delivers_rest inb outb pu pd s
        (loop (tcp_shutdown inb) outb' (mkAdaptive (ad_up s) (ad_down s) (ad_up_eof s) true (ad_up_streak s) (ad_down_streak s)))
  | (outb', Ready d) =>
      exists inb', write_all fuel d inb = Some (inb', None) /\ forall k1 k2,
      delivers_rest inb outb pu pd s (loop inb' outb' (mkAdaptive (ad_up s) (wrap 64 (ad_down s + zlen d)) (ad_up_eof s) false k1 k2))
  | (outb', Pending) =>
      adaptive_inv fuel inb outb' pu pd s /\ forall r, delivers_rest inb outb' pu pd s r -> delivers_rest inb outb pu pd s r
  | (_, Failed _) => False
  end.
Proof.
  intros (Hu & Hd & P1 & P2 & P3 & P4 & P5 & P6 & Hm) He. rewrite He in *.
  pose proof (side_read fuel outb inb Hd ltac:(lia)) as H. destruct (tcp_read ADAPTIVE_COPY_BUFFER_BYTES outb) as [outb' [[| b d] | |]];
    destruct H as (O1 & O2 & O3 & H); [| | | done].
  - destruct H as (Hi & Hs & Hw & Hi').
    apply (delivered_step inb outb (tcp_shutdown inb) outb' [] [] (ad_up s + pu) (ad_down s + pd) (ad_up s + pu) (ad_down s + pd));
      [done | by rewrite Hi, Hi' | by rewrite app_nil_r | by rewrite app_nil_r | rewrite zlen_nil; lia | rewrite zlen_nil; lia |].
    apply (Hloop (tcp_shutdown inb) outb' (mkAdaptive (ad_up s) (ad_down s) (ad_up_eof s) true (ad_up_streak s) (ad_down_streak s))).
    split_and!; cbn [ad_up ad_down ad_up_eof ad_down_eof]; try done; [by apply (side_ext inb (tcp_shutdown inb) outb outb') | by rewrite Hi', <- Hi |].
    rewrite O1. unfold work in *. cbn [tcp_shutdown tcp_in tcp_out]. lia.
  - destruct H as (Hi & Hw & inb' & Ew & Hs & Hsent & Hl & Hin & Hcl). exists inb'. split; [done |]. intros k1 k2.
    rewrite Hi, zlen_app in P6. pose proof (zlen_nonneg (b :: d)). pose proof (zlen_nonneg (incoming (tcp_in outb'))).
    assert (Ewr : wrap 64 (ad_down s + zlen (b :: d)) = ad_down s + zlen (b :: d)) by (unfold wrap; apply Z.mod_small; lia). rewrite Ewr.
    apply (delivered_step inb outb inb' outb' [] (b :: d) (ad_up s + pu) (ad_down s + pd) (ad_up s + pu) (ad_down s + zlen (b :: d) + pd));
      [by rewrite Hin | done | by rewrite app_nil_r | done | rewrite zlen_nil; lia | lia |].
    eapply (Hloop inb' outb' (mkAdaptive (ad_up s) (ad_down s + zlen (b :: d)) (ad_up_eof s) false k1 k2)).
    split_and!; cbn [ad_up ad_down ad_up_eof ad_down_eof]; try done; try lia; [by apply (side_ext inb inb' outb outb') | by rewrite Hin |].
    rewrite O1. unfold work in *. rewrite Hin. lia.
  - destruct H as (Hi & Hs & Hw). split.
    + split_and!; rewrite ?He; try done; [by apply (side_ext inb inb outb outb') | by rewrite Hi | rewrite O1; lia].
    + intros r H. unfold delivered in *. by rewrite Hi, O2 in H.
Qed.

(** The inbound side likewise. *)
Lemma turn_up inb outb s :
  adaptive_inv (S fuel) inb outb pu pd s -> ad_up_eof s = false ->
  match tcp_read ADAPTIVE_COPY_BUFFER_BYTES inb with
  | (inb', Ready []) =>
      delivers_rest inb outb pu pd s
        (loop inb' (tcp_shutdown outb) (mkAdaptive (ad_up s) (ad_down s) true (ad_down_eof s) (ad_up_streak s) (ad_down_streak s)))
  | (inb', Ready d) =>
      exists outb', write_all fuel d outb = Some (outb', None) /\ forall k1 k2,
      delivers_rest inb outb pu pd s (loop inb' outb' (mkAdaptive (wrap 64 (ad_up s + zlen d)) (ad_down s) false (ad_down_eof s) k1 k2))
  | (inb', Pending) =>
      adaptive_inv fuel inb' outb pu pd s /\ forall r, delivers_rest inb' outb pu pd s r -> delivers_rest inb outb pu pd s r
  | (_, Failed _) => False
  end.
Proof.
  intros (Hu & Hd & P1 & P2 & P3 & P4 & P5 & P6 & Hm) He. rewrite He in *.
  pose proof (side_read fuel inb outb Hu ltac:(lia)) as H. destruct (tcp_read ADAPTIVE_COPY_BUFFER_BYTES inb) as [inb' [[| b d] | |]];
    destruct H as (O1 & O2 & O3 & H); [| | | done].
  - destruct H as (Hi & Hs & Hw & Hi').
    apply (delivered_step inb outb inb' (tcp_shutdown outb) [] [] (ad_up s + pu) (ad_down s + pd) (ad_up s + pu) (ad_down s + pd));
      [by rewrite Hi, Hi' | done | by rewrite app_nil_r | by rewrite app_nil_r | rewrite zlen_nil; lia | rewrite zlen_nil; lia |].
    apply (Hloop inb' (tcp_shutdown outb) (mkAdaptive (ad_up s) (ad_down s) true (ad_down_eof s) (ad_up_streak s) (ad_down_streak s))).
    split_and!; cbn [ad_up ad_down ad_up_eof ad_down_eof]; try done; [by apply (side_ext outb (tcp_shutdown outb) inb inb') | by rewrite Hi', <- Hi |].
    rewrite O1. unfold work in *. cbn [tcp_shutdown tcp_in tcp_out]. lia.
  - destruct H as (Hi & Hw & outb' & Ew & Hs & Hsent & Hl & Hin & Hcl). exists outb'. split; [done |]. intros k1 k2.
    rewrite Hi, zlen_app in P5. pose proof (zlen_nonneg (b :: d)). pose proof (zlen_nonneg (incoming (tcp_in inb'))).
    assert (Ewr : wrap 64 (ad_up s + zlen (b :: d)) = ad_up s + zlen (b :: d)) by (unfold wrap; apply Z.mod_small; lia). rewrite Ewr.
    apply (delivered_step inb outb inb' outb' (b :: d) [] (ad_up s + pu) (ad_down s + pd) (ad_up s + zlen (b :: d) + pu) (ad_down s + pd));
      [done | by rewrite Hin | done | by rewrite app_nil_r | lia | rewrite zlen_nil; lia |].
    apply (Hloop inb' outb' (mkAdaptive (ad_up s + zlen (b :: d)) (ad_down s) false (ad_down_eof s) k1 k2)).
    split_and!; cbn [ad_up ad_down ad_up_eof ad_down_eof]; try done; try lia; [by apply (side_ext outb outb' inb inb') | by rewrite Hin |].
    rewrite O1. unfold work in *. rewrite Hin. lia.
  - destruct H as (Hi & Hs & Hw). split.
    + split_and!; rewrite ?He; try done; [by apply (side_ext outb outb inb inb') | by rewrite Hi | rewrite O1; lia].
    + intros r H. unfold delivered in *. by rewrite Hi, O2 in H.
Qed.

Lemma adaptive_inv_mono n m inb outb s : (n <= m)%nat -> adaptive_inv n inb outb pu pd s -> adaptive_inv m inb outb pu pd s.
Proof. unfold adaptive_inv. intros H Hi. destruct_and! Hi. split_and!; try done. lia. Qed.

(** With nothing from the outbound side. *)
Lemma turn_select_up inb outb s :
  adaptive_inv (S fuel) inb outb pu pd s -> (ad_up_eof s = true -> adaptive_inv fuel inb outb pu pd s) ->
  delivers_rest inb outb pu pd s (handle_selected fuel loop s (select_up (ad_up_eof s) inb outb)).
Proof.
  intros H1 H2. unfold select_up. destruct (ad_up_eof s) eqn:Eu; [apply Hloop; by apply H2 |].
  pose proof (turn_up inb outb s H1 Eu) as Ht. destruct (tcp_read ADAPTIVE_COPY_BUFFER_BYTES inb) as [inb' [[| b d] | |]]; [done | | | done].
  - destruct Ht as (o & Ew & Ht). cbn [handle_selected]. rewrite Ew. cbn [mbind option_bind]. rewrite Eu. apply Ht.
  - destruct Ht as [Ht1 Ht2]. by apply Ht2, Hloop.
Qed.

Lemma adaptive_turn_ok inb outb s :
  adaptive_inv (S fuel) inb outb pu pd s -> delivers_rest inb outb pu pd s (adaptive_turn fuel loop inb outb pu pd s).
Proof.
  intros Hinv. unfold adaptive_turn, select_read. destruct (ad_up_eof s && ad_down_eof s) eqn:Hends.
  { apply andb_prop in Hends as [Eu Ed]. destruct Hinv as ((_ & _ & Hu) & (_ & _ & Hd) & P1 & P2 & P3 & P4 & P5 & P6 & _).
    destruct (Hu Eu) as [Hi1 Hc1], (Hd Ed) as [Hi2 Hc2]. exists inb, outb. rewrite Hi1, Hi2 in *. rewrite zlen_nil in *. unfold wrap. rewrite !Z.mod_small by lia.
    by rewrite !app_nil_r, !Z.add_0_r. }
  destruct (ad_down_eof s) eqn:Ed; [apply turn_select_up; [done |]; by destruct (ad_up_eof s) |].
  pose proof (turn_down inb outb s Hinv Ed) as Ht. destruct (tcp_read ADAPTIVE_COPY_BUFFER_BYTES outb) as [outb' [[| b d] | |]]; [done | | | done].
  - destruct Ht as (i & Ew & Ht). cbn [handle_selected]. rewrite Ew. cbn [mbind option_bind]. rewrite Ed. apply Ht.
  - destruct Ht as [Ht1 Ht2]. apply Ht2, turn_select_up; [| done]. by apply (adaptive_inv_mono fuel (S fuel)); [lia |].
Qed.

End turn.

Section relay_ok.
Context (kernel : nat -> TcpStream -> TcpStream -> Kernel) (Hkernel : obliging kernel).

Lemma adaptive_loop_ok fuel : forall elapsed inb outb pu pd s,
  adaptive_inv fuel inb outb pu pd s -> delivers_rest inb outb pu pd s (adaptive_loop kernel fuel elapsed inb outb pu pd s).
Proof.
  induction fuel as [| fuel IH]; intros elapsed inb outb pu pd s Hinv; [destruct Hinv; lia |]. cbn [adaptive_loop].
  pose proof (adaptive_turn_ok fuel (fun inb outb s => adaptive_loop kernel fuel (tl elapsed) inb outb pu pd s) pu pd
    (fun i o t H => IH (tl elapsed) i o pu pd t H) inb outb s Hinv) as Hturn.
  destruct (_ && _ && _) eqn:Hready; [| done]. apply andb_prop in Hready as [Hready _]. apply andb_prop in Hready as [Hu Hd].
  apply negb_true_iff in Hu, Hd. destruct Hinv as (Su & Sd & P1 & P2 & P3 & P4 & P5 & P6 & _). rewrite Hu in Su. rewrite Hd in Sd.
  destruct (splice_obliged kernel fuel inb outb Hkernel (proj1 Su) (proj1 Sd)) as (av & i & o & r & -> & Hs). cbn [mbind option_bind].
  destruct r as [[u d] | e].
  - destruct Hs as ([= -> ->] & S1 & S2 & C1 & C2). exists i, o. pose proof (zlen_nonneg (incoming (tcp_in inb))). pose proof (zlen_nonneg (incoming (tcp_in outb))).
    unfold wrap. rewrite (Z.mod_small (ad_up s + _)), (Z.mod_small (ad_down s + _)), !Z.mod_small by lia.
    split; [do 3 f_equal; f_equal; lia | done].
  - by destruct Hs as [-> ->].
Qed.

(** The streams of a relay: their wrappers, and sockets that deliver and take. *)
Definition relay_fit (fuel : nat) (inb outb : BoxedStream) : Prop :=
  boxed_ok inb /\ clean (tcp_in (bottom inb)) /\ takes (length (to_come inb)) (bottom outb) /\ zlen (to_come inb) < 2 ^ 64
  /\ (waits (tcp_in (bottom inb)) + length (to_come inb) + length (tcp_out (bottom outb)) + 2 < fuel)%nat.

Definition relay_delivers (inb outb : BoxedStream) (r : option (TcpStream * TcpStream * ((Z * Z) + ProxyError))) : Prop :=
  exists wi wo, r = Some (wi, wo, inl (zlen (to_come inb), zlen (to_come outb)))
    /\ tcp_sent wo = tcp_sent (bottom outb) ++ to_come inb /\ tcp_sent wi = tcp_sent (bottom inb) ++ to_come outb
    /\ tcp_closed wi = true /\ tcp_closed wo = true.

Lemma tokio_copy_ok fuel inb outb :
  relay_fit fuel inb outb -> relay_fit fuel outb inb -> relay_delivers inb outb (tokio_copy_bidirectional fuel inb outb).
Proof.
  intros (B1 & C1 & T1 & L1 & F1) (B2 & C2 & T2 & L2 & F2). unfold tokio_copy_bidirectional, copy_bidirectional_pooled, copy_one_pooled.
  destruct (@copy_loop_live BoxedStream boxed_reader boxed_carries boxed_spec fuel inb (bottom outb) (to_come inb) 0 C1 ltac:(by split) T1 ltac:(lia) ltac:(lia) ltac:(cbn [rd_inner boxed_reader]; lia)) as (a' & tb' & Ea & Sa & _).
  destruct (@copy_loop_live BoxedStream boxed_reader boxed_carries boxed_spec fuel outb (bottom inb) (to_come outb) 0 C2 ltac:(by split) T2 ltac:(lia) ltac:(lia) ltac:(cbn [rd_inner boxed_reader]; lia)) as (b' & ta' & Eb & Sb & _).
  rewrite Ea. cbn [mbind option_bind]. rewrite Eb. cbn [mbind option_bind]. eexists _, _. rewrite !Z.add_0_l. split; [reflexivity |]. by split_and!.
Qed.

(** Two sockets with bytes read ahead: those bytes are written first, then the rest is relayed. *)
Lemma relay_tcp_ok fuel ti to :
  (2 * (waits (tcp_in ti) + waits (tcp_in to) + length (incoming (tcp_in ti)) + length (incoming (tcp_in to)) + length (tcp_out ti) + length (tcp_out to)) + 8 < fuel)%nat ->
  clean (tcp_in ti) -> clean (tcp_in to) -> takes (length (incoming (tcp_in ti))) to -> takes (length (incoming (tcp_in to))) ti ->
  forall elapsed policy pu pd, 0 <= pu -> 0 <= pd -> pu + zlen (incoming (tcp_in ti)) < 2 ^ 64 -> pd + zlen (incoming (tcp_in to)) < 2 ^ 64 ->
  delivered ti to pu pd
    match policy with
    | Disabled => '(ti, to, r) ← tokio_copy_bidirectional fuel (BTcp ti) (BTcp to); Some (ti, to, add_counts pu pd r)
    | Adaptive => adaptive_copy_then_splice kernel fuel elapsed ti to pu pd
    | Always =>
        '(_, ti, to, r) ← splice_bidirectional (kernel fuel ti to) ti to;
        match r with
        | inl r => Some (ti, to, add_counts pu pd (inl r))
        | inr _ => '(ti, to, r) ← tokio_copy_bidirectional fuel (BTcp ti) (BTcp to); Some (ti, to, add_counts pu pd r)
        end
    end.
Proof.
  intros Hf C1 C2 T1 T2 elapsed policy pu pd Hpu Hpd Hu Hd. pose proof (zlen_nonneg (incoming (tcp_in ti))). pose proof (zlen_nonneg (incoming (tcp_in to))).
  assert (Hcopy : delivered ti to pu pd ('(ti, to, r) ← tokio_copy_bidirectional fuel (BTcp ti) (BTcp to); Some (ti, to, add_counts pu pd r))).
  { destruct (tokio_copy_ok fuel (BTcp ti) (BTcp to)) as (wi & wo & -> & S1 & S2 & Hc); [split_and!; try done; cbn; lia | split_and!; try done; cbn; lia |].
    exists wi, wo. cbn [mbind option_bind add_counts]. change (to_come (BTcp ti)) with (incoming (tcp_in ti)) in *. change (to_come (BTcp to)) with (incoming (tcp_in to)) in *.
    unfold wrap. rewrite !Z.mod_small by lia. rewrite (Z.add_comm pu), (Z.add_comm pd). done. }
  destruct policy; [| | done].
  - destruct (splice_obliged kernel fuel ti to Hkernel C1 C2) as (av & i & o & r & -> & Hs). cbn [mbind option_bind].
    destruct r as [[u d] | e]; cbn [add_counts].
    + destruct Hs as ([= -> ->] & Hs). exists i, o. unfold wrap. rewrite !Z.mod_small by lia. rewrite (Z.add_comm pu), (Z.add_comm pd). done.
    + by destruct Hs as [-> ->].
  - apply (adaptive_loop_ok fuel elapsed ti to pu pd adaptive_new). unfold adaptive_inv, side, work. cbn [adaptive_new ad_up ad_down ad_up_eof ad_down_eof]. split_and!; try done; lia.
Qed.

Lemma prefix_write fuel p t k :
  takes (length p + k) t -> (length (tcp_out t) <= fuel)%nat ->
  exists t', (if zlen p =? 0 then Some (t, None) else write_all fuel p t) = Some (t', None) /\ takes k t' /\ (length (tcp_out t') <= length (tcp_out t))%nat
    /\ tcp_sent t' = tcp_sent t ++ p /\ tcp_in t' = tcp_in t.
Proof.
  intros Ht Hf. destruct (Z.eqb_spec (zlen p) 0) as [Hz | Hz].
  - apply zlen_0_nil in Hz as ->. exists t. rewrite app_nil_r. by split_and!.
  - destruct (write_all_live fuel p t k Ht Hf) as (t' & E & H1 & H2 & H3 & _ & H5). by exists t'.
Qed.

End relay_ok.


(** ** Whatever fails *)

Lemma prefix_sublist (l k : bytes) : l `prefix_of` k -> l `sublist_of` k.
Proof. intros [r ->]. by apply sublist_inserts_r. Qed.

(** A write that ended, with an error or not, passed a beginning of its bytes. *)
Lemma write_all_some fuel : forall buf (t t' : TcpStream) e, write_all fuel buf t = Some (t', e) ->
  exists x, tcp_sent t' = tcp_sent t ++ x /\ x `prefix_of` buf /\ tcp_in t' = tcp_in t /\ (e = None -> x = buf).
Proof.
  induction fuel as [| fuel IH]; intros buf t t' e; (destruct buf as [| b buf]; cbn [write_all];
    [intros [= <- <-]; exists []; by rewrite app_nil_r |]); [done |].
  cbn [wr_write tcp_writer]. unfold tcp_poll_write. destruct (tcp_out t) as [| [n | |] out].
  - apply IH.
  - set (k := Z.min _ _). destruct (k =? 0) eqn:Hk.
    + intros [= <- <-]. exists []. replace k with 0 by lia. cbn [tcp_sent tcp_in]. split_and!; try done. apply prefix_nil.
    + intros H. apply IH in H as (x & Hx & Hp & Hin & He). exists (take (Z.to_nat k) (b :: buf) ++ x). cbn [tcp_sent tcp_in] in *.
      rewrite Hx, app_assoc. split_and!; [done | | done |].
      * rewrite <- (take_drop (Z.to_nat k) (b :: buf)) at 2. by apply prefix_app.
      * intros E. by rewrite (He E), take_drop.
  - intros H. apply IH in H. done.
  - intros [= <- <-]. exists []. rewrite app_nil_r. cbn [tcp_sent tcp_in]. split_and!; try done. apply prefix_nil.
Qed.

Lemma copy_loop_some fuel : forall (r : BoxedStream) (t : TcpStream) d total r' t' n e,
  clean (rd_inner r) -> boxed_carries r d -> copy_loop fuel r t total = Some (r', t', n, e) ->
  exists x, tcp_sent t' = tcp_sent t ++ x /\ x `prefix_of` d.
Proof.
  induction fuel as [| fuel IH]; intros r t d total r' t' n e Hc Hd; cbn [copy_loop]; [done |].
  destruct (await_read fuel BUF_SIZE r) as [[r1 x] |] eqn:Er; cbn [mbind option_bind]; [| done].
  destruct (await_read_ok fuel BUF_SIZE r d r1 x ltac:(done) Hc Hd Er) as (o & d' & -> & -> & Hd' & Hc' & _ & _).
  assert (Hnone : exists x, tcp_sent t = tcp_sent t ++ x /\ x `prefix_of` o ++ d') by (exists []; rewrite app_nil_r; split; [done | apply prefix_nil]).
  destruct o as [| b o]; [by intros [= <- <- <- <-] |].
  destruct (write_all fuel (b :: o) t) as [[w1 e1] |] eqn:Ew; cbn [mbind option_bind]; [| done].
  apply write_all_some in Ew as (x & Hx & Hp & _ & He). destruct e1.
  { intros [= <- <- <- <-]. exists x. split; [done |]. by apply prefix_app_r. }
  rewrite (He eq_refl) in *. destruct fuel as [| fuel']; [done |]. cbn [flush_all wr_flush tcp_writer mbind option_bind].
  intros H. apply (IH r1 w1 d') in H as (y & Hy & Hpy); [| done | done]. exists ((b :: o) ++ y). rewrite Hy, Hx, app_assoc. split; [done |].
  by apply prefix_app.
Qed.

Lemma tokio_copy_some fuel inb outb wi wo r :
  boxed_ok inb -> boxed_ok outb -> clean (tcp_in (bottom inb)) -> clean (tcp_in (bottom outb)) ->
  tokio_copy_bidirectional fuel inb outb = Some (wi, wo, r) ->
  (exists x, tcp_sent wo = tcp_sent (bottom outb) ++ x /\ x `prefix_of` to_come inb)
  /\ (exists y, tcp_sent wi = tcp_sent (bottom inb) ++ y /\ y `prefix_of` to_come outb).
Proof.
  intros B1 B2 C1 C2. unfold tokio_copy_bidirectional, copy_bidirectional_pooled, copy_one_pooled.
  destruct (copy_loop fuel inb (bottom outb) 0) as [[[[a' tb] n] e] |] eqn:E1; cbn [mbind option_bind]; [| done].
  destruct (copy_loop fuel outb (bottom inb) 0) as [[[[b' ta] m] e'] |] eqn:E2; cbn [mbind option_bind]; [| done].
  intros [= <- <- _]. by apply copy_loop_some with (d := to_come inb) in E1; [apply copy_loop_some with (d := to_come outb) in E2 | |].
Qed.

Lemma tokio_copy_moves fuel ti to wi wo r :
  clean (tcp_in ti) -> clean (tcp_in to) -> tokio_copy_bidirectional fuel (BTcp ti) (BTcp to) = Some (wi, wo, r) ->
  (exists x, tcp_sent wo = tcp_sent to ++ x /\ x `sublist_of` incoming (tcp_in ti))
  /\ (exists y, tcp_sent wi = tcp_sent ti ++ y /\ y `sublist_of` incoming (tcp_in to)).
Proof.
  intros C1 C2 E. apply tokio_copy_some in E as [(x & Hx & Px) (y & Hy & Py)]; [| done..].
  split; [exists x | exists y]; (split; [done |]); by apply prefix_sublist.
Qed.

(** The outcome of a relay between two sockets: in each direction some of the bytes, in order. *)
Definition passed (ti to : TcpStream) (o : option (TcpStream * TcpStream * ((Z * Z) + ProxyError))) : Prop :=
  forall ti' to' r, o = Some (ti', to', r) ->
    (exists x, tcp_sent to' = tcp_sent to ++ x /\ x `sublist_of` incoming (tcp_in ti))
    /\ (exists y, tcp_sent ti' = tcp_sent ti ++ y /\ y `sublist_of` incoming (tcp_in to)).

Lemma passed_step ti to ti1 to1 o : moved ti to ti1 to1 -> moved to ti to1 ti1 -> passed ti1 to1 o -> passed ti to o.
Proof.
  intros (x & Hx & Sx) (y & Hy & Sy) Hp ti' to' r E. destruct (Hp ti' to' r E) as [(x' & Hx' & Sx') (y' & Hy' & Sy')].
  split; [exists (x ++ x') | exists (y ++ y')]; (split; [by rewrite ?Hx', ?Hy', ?Hx, ?Hy, app_assoc |]); etransitivity; [| exact Sx | | exact Sy];
    by apply sublist_app.
Qed.

Lemma passed_now ti to ti' to' r : moved ti to ti' to' -> moved to ti to' ti' -> passed ti to (Some (ti', to', r)).
Proof.
  intros (x & Hx & Sx) (y & Hy & Sy) a b r' [= <- <- _].
  split; [exists x | exists y]; (split; [done |]); (etransitivity; [| first [exact Sx | exact Sy]]); by apply sublist_inserts_r.
Qed.

(** A read with the write that follows it. *)
Lemma read_write_moved fuel src dst src' d dst' e :
  clean (tcp_in src) -> tcp_read ADAPTIVE_COPY_BUFFER_BYTES src = (src', Ready d) -> write_all fuel d dst = Some (dst', e) ->
  moved src dst src' dst' /\ moved dst src dst' src' /\ clean (tcp_in src') /\ tcp_in dst' = tcp_in dst.
Proof.
  intros Hc Hr Hw. pose proof (tcp_read_ok ADAPTIVE_COPY_BUFFER_BYTES src ltac:(done) Hc) as H. rewrite Hr in H.
  destruct H as (_ & Hs & _ & Hc' & _ & Hi & _). apply write_all_some in Hw as (x & Hx & Px & Hin & _). split_and!; [| | done | done].
  - exists x. split; [done |]. rewrite Hi. apply sublist_app; [by apply prefix_sublist | done].
  - exists []. rewrite app_nil_r, Hs, Hin. done.
Qed.

(** A read alone. *)
Lemma read_moved src dst src' p :
  clean (tcp_in src) -> tcp_read ADAPTIVE_COPY_BUFFER_BYTES src = (src', p) ->
  moved src dst src' dst /\ moved dst src dst src' /\ clean (tcp_in src').
Proof.
  intros Hc Hr. pose proof (tcp_read_ok ADAPTIVE_COPY_BUFFER_BYTES src ltac:(done) Hc) as H. rewrite Hr in H.
  destruct H as (_ & Hs & _ & Hc' & H). split_and!; [| | done].
  - exists []. rewrite app_nil_r. split; [done |]. destruct p as [d | |]; [| | done].
    + destruct H as (_ & -> & _). by apply sublist_inserts_l.
    + destruct H as [_ ->]. done.
  - exists []. by rewrite app_nil_r, Hs.
Qed.

Section any_turn.
Context (fuel : nat) (loop : TcpStream -> TcpStream -> Adaptive_state -> option (TcpStream * TcpStream * ((Z * Z) + ProxyError))) (pu pd : Z).
Hypothesis Hloop : forall inb outb s, clean (tcp_in inb) -> clean (tcp_in outb) -> passed inb outb (loop inb outb s).

Lemma handle_selected_passed_down s inb outb outb' p :
  clean (tcp_in inb) -> clean (tcp_in outb) -> tcp_read ADAPTIVE_COPY_BUFFER_BYTES outb = (outb', p) ->
  match p with
  | Ready d => passed inb outb (handle_selected fuel loop s (inb, outb', SDown (inl d)))
  | Failed e => passed inb outb (handle_selected fuel loop s (inb, outb', SDown (inr e)))
  | Pending => True
  end.
Proof.
  intros C1 C2 Hr. destruct (read_moved outb inb outb' p C2 Hr) as (M1 & M2 & C3). destruct p as [[| b d] | | e]; [| | done |].
  - by apply (passed_step inb outb (tcp_shutdown inb) outb'); [| | apply Hloop].
  - cbn [handle_selected]. destruct (write_all fuel (b :: d) inb) as [[inb' e] |] eqn:Ew; cbn [mbind option_bind]; [| done].
    destruct (read_write_moved fuel outb inb outb' (b :: d) inb' e C2 Hr Ew) as (N1 & N2 & _ & Hin).
    destruct e; [by apply passed_now |]. apply (passed_step inb outb inb' outb'); [done | done |]. apply Hloop; [by rewrite Hin | done].
  - by apply passed_now.
Qed.

Lemma handle_selected_passed_up s inb outb inb' p :
  clean (tcp_in inb) -> clean (tcp_in outb) -> tcp_read ADAPTIVE_COPY_BUFFER_BYTES inb = (inb', p) ->
  match p with
  | Ready d => passed inb outb (handle_selected fuel loop s (inb', outb, SUp (inl d)))
  | Failed e => passed inb outb (handle_selected fuel loop s (inb', outb, SUp (inr e)))
  | Pending => passed inb outb (loop inb' outb s)
  end.
Proof.
  intros C1 C2 Hr. destruct (read_moved inb outb inb' p C1 Hr) as (M1 & M2 & C3). destruct p as [[| b d] | | e].
  - by apply (passed_step inb outb inb' (tcp_shutdown outb)); [| | apply Hloop].
  - cbn [handle_selected]. destruct (write_all fuel (b :: d) outb) as [[outb' e] |] eqn:Ew; cbn [mbind option_bind]; [| done].
    destruct (read_write_moved fuel inb outb inb' (b :: d) outb' e C1 Hr Ew) as (N1 & N2 & _ & Hin).
    destruct e; [by apply passed_now |]. apply (passed_step inb outb inb' outb'); [done | done |]. apply Hloop; [done | by rewrite Hin].
  - by apply (passed_step inb outb inb' outb); [| | apply Hloop].
  - by apply passed_now.
Qed.

Lemma select_up_passed s inb outb :
  clean (tcp_in inb) -> clean (tcp_in outb) -> passed inb outb (handle_selected fuel loop s (select_up (ad_up_eof s) inb outb)).
Proof.
  intros C1 C2. unfold select_up. destruct (ad_up_eof s); [by apply Hloop |].
  destruct (tcp_read ADAPTIVE_COPY_BUFFER_BYTES inb) as [inb' p] eqn:Er. pose proof (handle_selected_passed_up s inb outb inb' p C1 C2 Er) as H.
  by destruct p.
Qed.

Lemma adaptive_turn_passed s inb outb :
  clean (tcp_in inb) -> clean (tcp_in outb) -> passed inb outb (adaptive_turn fuel loop inb outb pu pd s).
Proof.
  intros C1 C2. unfold adaptive_turn, select_read.
  destruct (ad_up_eof s && ad_down_eof s); [apply passed_now; apply moved_refl |].
  destruct (ad_down_eof s); [by apply select_up_passed |].
  destruct (tcp_read ADAPTIVE_COPY_BUFFER_BYTES outb) as [outb' p] eqn:Er. pose proof (handle_selected_passed_down s inb outb outb' p C1 C2 Er) as H.
  destruct (read_moved outb inb outb' p C2 Er) as (M1 & M2 & C3). destruct p; [done | | done].
  apply (passed_step inb outb inb outb'); [done | done |]. by apply select_up_passed.
Qed.

End any_turn.

Section any_kernel.
Context (kernel : nat -> TcpStream -> TcpStream -> Kernel).

Lemma adaptive_loop_passed fuel : forall elapsed inb outb pu pd s,
  clean (tcp_in inb) -> clean (tcp_in outb) -> passed inb outb (adaptive_loop kernel fuel elapsed inb outb pu pd s).
Proof.
  induction fuel as [| fuel IH]; intros elapsed inb outb pu pd s C1 C2; cbn [adaptive_loop]; [done |].
  destruct (_ && _ && _); [| by apply adaptive_turn_passed; [intros; apply IH | |]].
  destruct (splice_bidirectional (kernel fuel inb outb) inb outb) as [[[[av i] o] r] |] eqn:Es; cbn [mbind option_bind]; [| done].
  apply splice_bidirectional_moves in Es as [(M1 & M2 & C3 & C4) _]; [| done | done]. apply (passed_step inb outb i o); [done | done |].
  destruct r as [[u d] | e]; [apply passed_now; apply moved_refl |]. by apply adaptive_turn_passed; [intros; apply IH | |].
Qed.

(** Two sockets under a policy. *)
Lemma relay_tcp_passed fuel elapsed policy pu pd ti to :
  clean (tcp_in ti) -> clean (tcp_in to) ->
  passed ti to
    match policy with
    | Disabled => '(ti, to, r) ← tokio_copy_bidirectional fuel (BTcp ti) (BTcp to); Some (ti, to, add_counts pu pd r)
    | Adaptive => adaptive_copy_then_splice kernel fuel elapsed ti to pu pd
    | Always =>
        '(_, ti, to, r) ← splice_bidirectional (kernel fuel ti to) ti to;
        match r with
        | inl r => Some (ti, to, add_counts pu pd (inl r))
        | inr _ => '(ti, to, r) ← tokio_copy_bidirectional fuel (BTcp ti) (BTcp to); Some (ti, to, add_counts pu pd r)
        end
    end.
Proof.
  intros C1 C2. assert (Hcopy : forall ti to, clean (tcp_in ti) -> clean (tcp_in to) ->
    passed ti to ('(ti, to, r) ← tokio_copy_bidirectional fuel (BTcp ti) (BTcp to); Some (ti, to, add_counts pu pd r))).
  { intros a b Ca Cb a' b' r. destruct (tokio_copy_bidirectional fuel (BTcp a) (BTcp b)) as [[[x y] r'] |] eqn:E; cbn [mbind option_bind]; [| done].
    intros [= <- <- <-]. by eapply tokio_copy_moves. }
  destruct policy; [| by apply adaptive_loop_passed | by apply Hcopy].
  destruct (splice_bidirectional (kernel fuel ti to) ti to) as [[[[av i] o] r] |] eqn:Es; cbn [mbind option_bind]; [| done].
  apply splice_bidirectional_moves in Es as [(M1 & M2 & C3 & C4) _]; [| done | done]. apply (passed_step ti to i o); [done | done |].
  destruct r; [apply passed_now; apply moved_refl | by apply Hcopy].
Qed.

(** What each side of a relay got of what was to come from the other. *)
Definition relay_passes (inb outb : BoxedStream) (o : option (TcpStream * TcpStream * ((Z * Z) + ProxyError))) : Prop :=
  forall wi wo r, o = Some (wi, wo, r) ->
    (exists x, tcp_sent wo = tcp_sent (bottom outb) ++ x /\ x `sublist_of` to_come inb)
    /\ (exists y, tcp_sent wi = tcp_sent (bottom inb) ++ y /\ y `sublist_of` to_come outb).

Lemma prefix_write_some fuel p t t' e :
  (if zlen p =? 0 then Some (t, None) else write_all fuel p t) = Some (t', e) ->
  exists x, tcp_sent t' = tcp_sent t ++ x /\ x `prefix_of` p /\ tcp_in t' = tcp_in t.
Proof.
  destruct (zlen p =? 0).
  - intros [= <- <-]. exists []. rewrite app_nil_r. split_and!; [done | apply prefix_nil | done].
  - intros H. apply write_all_some in H as (x & ? & ? & ? & _). by exists x.
Qed.

Lemma relay_any_kernel fuel elapsed policy inb outb :
  boxed_ok inb -> boxed_ok outb -> clean (tcp_in (bottom inb)) -> clean (tcp_in (bottom outb)) ->
  relay_passes inb outb (relay_bidirectional_with_splice_policy kernel fuel elapsed inb outb policy).
Proof.
  intros B1 B2 C1 C2. unfold relay_bidirectional_with_splice_policy.
  assert (Hcopy : forall i o, bottom i = bottom inb -> bottom o = bottom outb -> pending_prefix i = pending_prefix inb -> pending_prefix o = pending_prefix outb ->
    boxed_ok i -> boxed_ok o -> relay_passes inb outb (tokio_copy_bidirectional fuel i o)).
  { intros i o E1 E2 E3 E4 O1 O2 wi wo r E. apply tokio_copy_some in E as [(x & Hx & Px) (y & Hy & Py)]; [| done | done | by rewrite E1 | by rewrite E2].
    unfold to_come in *. rewrite E1, E2, E3, E4 in *. split; [exists x | exists y]; (split; [done |]); by apply prefix_sublist. }
  pose proof (try_into_with_prefix_ok inb B1) as Hi. pose proof (try_into_with_prefix_ok outb B2) as Ho.
  destruct (try_into_tcp_stream_with_prefix inb) as [[ti pi] | inb']; [| destruct Hi as (_ & E1 & E2 & E3); by apply Hcopy].
  destruct Hi as (_ & -> & ->). destruct (try_into_tcp_stream_with_prefix outb) as [[to po] | outb'].
  2: { destruct Ho as (_ & E1 & E2 & E3). destruct (Z.eqb_spec (zlen (pending_prefix inb)) 0) as [Hz | Hz]; apply Hcopy; try done.
       cbn. by rewrite (zlen_0_nil _ Hz). }
  destruct Ho as (_ & -> & ->). intros wi wo r.
  destruct (if zlen (pending_prefix inb) =? 0 then _ else _) as [[to1 e1] |] eqn:E1; cbn [mbind option_bind]; [| done].
  apply prefix_write_some in E1 as (x & Hx & Px & I1). unfold to_come. destruct e1 as [e1 |].
  { intros [= <- <- _]. split; [exists x | exists []].
    - split; [done |]. by apply sublist_inserts_r, prefix_sublist.
    - rewrite app_nil_r. split; [done | apply sublist_nil_l]. }
  destruct (if zlen (pending_prefix outb) =? 0 then _ else _) as [[ti1 e2] |] eqn:E2; cbn [mbind option_bind]; [| done].
  apply prefix_write_some in E2 as (y & Hy & Py & I2). destruct e2 as [e2 |].
  { intros [= <- <- _]. split; [exists x | exists y]; (split; [done |]); by apply sublist_inserts_r, prefix_sublist. }
  intros E. apply (relay_tcp_passed fuel elapsed policy _ _ ti1 to1) in E as [(x' & Hx' & Sx) (y' & Hy' & Sy)]; [| by rewrite I2 | by rewrite I1].
  rewrite I1, I2 in *. split; [exists (x ++ x') | exists (y ++ y')].
  - split; [by rewrite Hx', Hx, app_assoc |]. apply sublist_app; [by apply prefix_sublist | done].
  - split; [by rewrite Hy', Hy, app_assoc |]. apply sublist_app; [by apply prefix_sublist | done].
Qed.

End any_kernel.

(** C11. The relay of the dispatcher, with any policy, over streams that are not Vision streams.  Whatever the kernel does during
    the splices and however the writes end, each side has got, when the relay returns, bytes that were to come from the other, in
    their order, none made up and none twice.  If the sockets take what they are given, in pieces of any sizes and with waits, and
    the kernel lets every splice go through or refuses it at once, the relay returns, and each side got exactly the bytes that
    were to come from the other, those read ahead by a protocol handler first and once; the counts returned are their numbers,
    whichever path was taken; and both sides are told the end. *)
Theorem relay_with_policy (kernel : nat -> TcpStream -> TcpStream -> Kernel) (policy : FastSplicePolicy) (elapsed : list Z)
    (inb outb : BoxedStream) (fuel : nat) :
  boxed_ok inb -> boxed_ok outb -> clean (tcp_in (bottom inb)) -> clean (tcp_in (bottom outb)) ->
  let outcome := relay_bidirectional_with_splice_policy kernel fuel elapsed inb outb policy in
  relay_passes inb outb outcome
  /\ (obliging kernel ->
      takes (length (to_come inb)) (bottom outb) -> takes (length (to_come outb)) (bottom inb) ->
      zlen (to_come inb) < 2 ^ 64 -> zlen (to_come outb) < 2 ^ 64 ->
      (2 * (waits (tcp_in (bottom inb)) + waits (tcp_in (bottom outb)) + length (to_come inb) + length (to_come outb)
            + length (tcp_out (bottom inb)) + length (tcp_out (bottom outb))) + 8 < fuel)%nat ->
      relay_delivers inb outb outcome).
Proof.
  intros B1 B2 C1 C2 outcome. split; [by apply relay_any_kernel |].
  intros Hk T1 T2 L1 L2 Hf. unfold outcome, relay_bidirectional_with_splice_policy.
  assert (Hcopy : forall i o, bottom i = bottom inb -> bottom o = bottom outb -> pending_prefix i = pending_prefix inb -> pending_prefix o = pending_prefix outb ->
    boxed_ok i -> boxed_ok o -> relay_delivers inb outb (tokio_copy_bidirectional fuel i o)).
  { intros i o E1 E2 E3 E4 O1 O2. pose proof (tokio_copy_ok fuel i o) as H. unfold relay_fit, relay_delivers, to_come in *.
    rewrite E1, E2, E3, E4 in H. apply H; split_and!; try done; lia. }
  pose proof (try_into_with_prefix_ok inb B1) as Hi. pose proof (try_into_with_prefix_ok outb B2) as Ho.
  destruct (try_into_tcp_stream_with_prefix inb) as [[ti pi] | inb']; [| destruct Hi as (_ & E1 & E2 & E3); by apply Hcopy].
  destruct Hi as (_ & -> & ->). destruct (try_into_tcp_stream_with_prefix outb) as [[to po] | outb'].
  2: { destruct Ho as (_ & E1 & E2 & E3). destruct (Z.eqb_spec (zlen (pending_prefix inb)) 0) as [Hz | Hz]; apply Hcopy; try done.
       cbn. by rewrite (zlen_0_nil _ Hz). }
  destruct Ho as (_ & -> & ->). unfold relay_delivers, to_come in *. rewrite !length_app, !zlen_app in *.
  destruct (prefix_write fuel _ _ _ T1 ltac:(lia)) as (to1 & -> & T1' & F1 & S1 & I1). cbn [mbind option_bind].
  destruct (prefix_write fuel _ _ _ T2 ltac:(lia)) as (ti1 & -> & T2' & F2 & S2 & I2). cbn [mbind option_bind].
  destruct (relay_tcp_ok kernel Hk fuel ti1 to1) with (elapsed := elapsed) (policy := policy) (pu := zlen (pending_prefix inb)) (pd := zlen (pending_prefix outb))
    as (wi & wo & E & D1 & D2 & D3); rewrite ?I1, ?I2; try done; try lia; [apply zlen_nonneg | apply zlen_nonneg |].
  exists wi, wo. rewrite I1, I2 in *. split; [exact E |]. rewrite D1, D2, S1, S2, <- !app_assoc. done.
Qed.

(** ** Kernels *)

(** One that has no ring and moves what it can, and one that refuses to splice. *)
Definition answers (data : bytes) : list Sys * list Sys :=
  (repeat (SysOk PIPE_CAPACITY) (S (length data)), repeat (SysOk PIPE_CAPACITY) (length data)).

Definition epoll_kernel (a b : TcpStream) : Kernel :=
  mkKernel None false false [] (answers (incoming (tcp_in a))) (answers (incoming (tcp_in b))) AB false.

Definition refusing_kernel : Kernel := mkKernel None false true [] ([SysErr 22], []) ([SysErr 22], []) AB false.

(** The first calls go through, later ones are refused. *)
Definition sample_kernel (n : nat) (a b : TcpStream) : Kernel := if (40 <? n)%nat then epoll_kernel a b else refusing_kernel.

Lemma answers_end fuel : forall n m f total,
  f_pipe f = [] -> (length (f_src f) < n <= fuel)%nat -> (length (f_src f) <= m)%nat ->
  exists f' t, splice_direction_loop fuel (repeat (SysOk PIPE_CAPACITY) n) (repeat (SysOk PIPE_CAPACITY) m) f total = (f', Some (inl t)).
Proof.
  induction fuel as [| fuel IH]; intros n m f total Hp Hn Hm; [lia |]. destruct n as [| n]; [lia |]. cbn [repeat splice_direction_loop splice_in_loop].
  set (k := Z.min (Z.min _ _) _). destruct (Z.eqb_spec k 0) as [Hk | Hk]; [eauto |].
  assert (Hk' : 0 < k <= zlen (f_src f) /\ k <= PIPE_CAPACITY) by (pose proof (zlen_nonneg (f_src f)); unfold k, PIPE_CAPACITY in *; lia).
  destruct m as [| m]; [unfold zlen in *; lia |]. cbn [repeat splice_out_loop]. rewrite (proj2 (Z.leb_gt k 0)) by lia. cbn [f_pipe f_src f_sent f_shut].
  rewrite Hp. cbn [app]. assert (Hl : zlen (take (Z.to_nat k) (f_src f)) = k) by (unfold zlen in *; rewrite length_take; lia). rewrite Hl.
  replace (Z.min (Z.max PIPE_CAPACITY 0) (Z.min k k)) with k by lia. rewrite Z.sub_diag.
  assert (Hd : drop (Z.to_nat k) (take (Z.to_nat k) (f_src f)) = []) by (apply drop_ge; rewrite length_take; lia).
  assert (Hlen : (S (length (drop (Z.to_nat k) (f_src f))) <= length (f_src f))%nat) by (rewrite length_drop; unfold zlen in *; lia).
  destruct m; cbn [splice_out_loop repeat]; change (0 <=? 0) with true; cbv iota; [apply (IH n 0%nat) | apply (IH n (S m))]; cbn [f_pipe f_src]; rewrite ?Hd; try done; lia.
Qed.

Lemma answers_no_error n : forallb no_error (repeat (SysOk PIPE_CAPACITY) n) = true.
Proof. by induction n. Qed.

Lemma sample_kernel_obliging : obliging sample_kernel.
Proof.
  intros n a b _ _. unfold sample_kernel. destruct (40 <? n)%nat; [left | right; split_and!; by eauto]. split.
  - split_and!; [done | done |]. repeat (constructor; [apply answers_no_error |]). constructor.
  - unfold splice_bidirectional, splice_epoll, splice_one_direction. cbn [epoll_kernel k_avail k_ring splice_bidirectional_uring mbind option_bind k_ab k_ba k_first k_cut].
    unfold splice_bidirectional_uring. cbn [k_ring epoll_kernel mbind option_bind]. unfold answers. cbn [fst snd]. rewrite !repeat_length.
    destruct (answers_end (S (S (length (incoming (tcp_in a))))) (S (length (incoming (tcp_in a)))) (length (incoming (tcp_in a)))
      (mkFlow (incoming (tcp_in a)) [] [] false) 0) as (f1 & t1 & ->); [done | cbn [f_src]; lia | done |].
    destruct (answers_end (S (S (length (incoming (tcp_in b))))) (S (length (incoming (tcp_in b)))) (length (incoming (tcp_in b)))
      (mkFlow (incoming (tcp_in b)) [] [] false) 0) as (f2 & t2 & ->); [done | cbn [f_src]; lia | done |].
    cbn. eauto.
Qed.

Lemma relay_with_policy_witness :
  let ti := mkTcp [PData [2; 3]; PPending] [WAccept 4; WPending; WAccept 1] [] false in
  let to := mkTcp [PData [9]] [WAccept 1; WPending; WAccept 5; WAccept 1] [] false in
  let inb := BPrependedTcp (prepended_new ti [1]) in
  let outcome := relay_bidirectional_with_splice_policy sample_kernel 80 [] inb (BTcp to) Always in
  relay_passes inb (BTcp to) outcome /\ relay_delivers inb (BTcp to) outcome.
Proof.
  intros ti to inb.
  destruct (relay_with_policy sample_kernel Always [] inb (BTcp to) 80) as [Hp Hd]; try done; try (by decided).
  split; [exact Hp |].
  apply Hd; [exact sample_kernel_obliging | split; by decided | split; by decided | done | done |].
  apply (bool_decide_unpack _). vm_compute. exact I.
Defined.
