(* ===== verification/ClientHello.v ===== *)
(** The TLS ClientHello: the builder of crate [blackwire-tls] ([client_hello.rs],
    [client_hello/extensions.rs], [client_hello/wire.rs], [grease.rs], [profile.rs]) and the parser of
    the REALITY server ([reality/parser.rs]).

    The random numbers of the builder are arguments: the two draws of GREASE values and the key that
    is generated when none is given.  A [BytesMut] that is written to is the list of its bytes. *)

From stdpp Require Import base list strings numbers.
From S2P Require Import Prelude Address.

(** * GREASE *)

Definition GREASE_VALUES_U16 : list Z :=
  [0x0A0A; 0x1A1A; 0x2A2A; 0x3A3A; 0x4A4A; 0x5A5A; 0x6A6A; 0x7A7A; 0x8A8A; 0x9A9A; 0xAAAA; 0xBABA;
   0xCACA; 0xDADA; 0xEAEA; 0xFAFA].

Definition GREASE_VALUES_U8 : list Z :=
  [0x0A; 0x1A; 0x2A; 0x3A; 0x4A; 0x5A; 0x6A; 0x7A; 0x8A; 0x9A; 0xAA; 0xBA; 0xCA; 0xDA; 0xEA; 0xFA].

(** [draw] is what the generator gives for [random_range(0..16)]. *)
Definition grease_u16 (draw : Z) : res ProxyError Z := idx GREASE_VALUES_U16 draw.
Definition grease_u8 (draw : Z) : res ProxyError Z := idx GREASE_VALUES_U8 draw.
Definition is_grease_u16 (v : Z) : bool := bool_decide (v ∈ GREASE_VALUES_U16).

(** * Profiles *)

Record FingerprintProfile := mkProfile {
  cipher_suites : list Z;
  extensions : list Z;
  supported_groups : list Z;
  alpn : list bytes;
  signature_algorithms : list Z;
}.

Definition chrome_131 : FingerprintProfile := {|
  cipher_suites := [0x1301; 0x1302; 0x1303; 0xC02B; 0xC02F; 0xC02C; 0xC030; 0xCCA9; 0xCCA8; 0xC013; 0xC014; 0x009C; 0x009D; 0x002F; 0x0035];
  extensions := [0x0000; 0x0017; 0xFF01; 0x000A; 0x000B; 0x0023; 0x0010; 0x0005; 0x000D; 0x0012; 0x0033; 0x002D; 0x002B; 0x001B; 0x0015];
  supported_groups := [29; 23; 24];
  alpn := [lit "h2"; lit "http/1.1"];
  signature_algorithms := [0x0403; 0x0804; 0x0401; 0x0503; 0x0805; 0x0501; 0x0806; 0x0601];
|}.

(** * The builder *)

(** [put_u8(v as u8)], [put_u16(v as u16)] and [put_u24] write the low bytes of [v]. *)
Definition put_u16 (buf : bytes) (v : Z) : bytes := buf ++ be_bytes 2 v.

Definition put_u24 (buf : bytes) (v : Z) : bytes :=
  buf ++ [wrap 8 (Z.shiftr v 16); wrap 8 (Z.shiftr v 8); wrap 8 v].

Definition put_extension (buf : bytes) (ext_type : Z) (data : bytes) : bytes :=
  put_u16 (put_u16 buf ext_type) (zlen data) ++ data.

Section builder.
Context (profile : FingerprintProfile).

Definition ext_server_name (buf sni : bytes) : bytes :=
  let inner_len := 1 + 2 + zlen sni in
  let data := put_u16 [] inner_len in
  let data := data ++ [0x00] in
  let data := put_u16 data (zlen sni) in
  put_extension buf 0x0000 (data ++ sni).

Definition ext_extended_master_secret (buf : bytes) : bytes := put_extension buf 0x0017 [].

Definition ext_renegotiation_info (buf : bytes) : bytes := put_extension buf 0xFF01 [0x00].

Definition ext_supported_groups (buf : bytes) (grease_group : Z) : bytes :=
  let total_groups := 1 + zlen (supported_groups profile) in
  let data := put_u16 (put_u16 [] (total_groups * 2)) grease_group in
  put_extension buf 0x000A (foldl put_u16 data (supported_groups profile)).

Definition ext_ec_point_formats (buf : bytes) : bytes := put_extension buf 0x000B [0x01; 0x00].

Definition ext_session_ticket (buf : bytes) : bytes := put_extension buf 0x0023 [].

Definition ext_alpn (buf : bytes) : bytes :=
  let inner := foldl (fun inner p => inner ++ [wrap 8 (zlen p)] ++ p) [] (alpn profile) in
  put_extension buf 0x0010 (put_u16 [] (zlen inner) ++ inner).

Definition ext_status_request (buf : bytes) : bytes := put_extension buf 0x0005 [0x01; 0x00; 0x00; 0x00; 0x00].

Definition ext_signature_algorithms (buf : bytes) : bytes :=
  let data := put_u16 [] (zlen (signature_algorithms profile) * 2) in
  put_extension buf 0x000D (foldl put_u16 data (signature_algorithms profile)).

Definition ext_signed_cert_timestamp (buf : bytes) : bytes := put_extension buf 0x0012 [].

Definition ext_key_share (buf : bytes) (grease_group : Z) (x25519_pub : bytes) (secp256r1_pub : option bytes) : bytes :=
  let client_shares := put_u16 (put_u16 [] grease_group) 1 ++ [0x00] in
  let client_shares := put_u16 (put_u16 client_shares 29) 32 ++ x25519_pub in
  let client_shares :=
    match secp256r1_pub with
    | Some pubkey => put_u16 (put_u16 client_shares 23) (zlen pubkey) ++ pubkey
    | None => client_shares
    end in
  put_extension buf 0x0033 (put_u16 [] (zlen client_shares) ++ client_shares).

Definition ext_psk_key_exchange_modes (buf : bytes) : bytes := put_extension buf 0x002D [0x01; 0x01].

Definition ext_supported_versions (buf : bytes) : bytes :=
  put_extension buf 0x002B [0x08; 0x7A; 0x7A; 0x03; 0x04; 0x03; 0x03; 0x03; 0x02].

Definition ext_compress_certificate (buf : bytes) : bytes := put_extension buf 0x001B [0x02; 0x00; 0x02].

Definition ext_padding (buf : bytes) : bytes := put_extension buf 0x0015 [0x00].

(** One turn of the loop over the extensions of the profile. *)
Definition add_extension (sni : bytes) (grease_group : Z) (x25519_pub : bytes) (secp256r1_pub : option bytes)
    (buf : bytes) (ext_type : Z) : bytes :=
  if ext_type =? 0x0000 then ext_server_name buf sni
  else if ext_type =? 0x0017 then ext_extended_master_secret buf
  else if ext_type =? 0xFF01 then ext_renegotiation_info buf
  else if ext_type =? 0x000A then ext_supported_groups buf grease_group
  else if ext_type =? 0x000B then ext_ec_point_formats buf
  else if ext_type =? 0x0023 then ext_session_ticket buf
  else if ext_type =? 0x0010 then ext_alpn buf
  else if ext_type =? 0x0005 then ext_status_request buf
  else if ext_type =? 0x000D then ext_signature_algorithms buf
  else if ext_type =? 0x0012 then ext_signed_cert_timestamp buf
  else if ext_type =? 0x0033 then ext_key_share buf grease_group x25519_pub secp256r1_pub
  else if ext_type =? 0x002D then ext_psk_key_exchange_modes buf
  else if ext_type =? 0x002B then ext_supported_versions buf
  else if ext_type =? 0x001B then ext_compress_certificate buf
  else if ext_type =? 0x0015 then ext_padding buf
  else put_extension buf ext_type [].

Definition build_extensions (sni : bytes) (grease_group grease_ext : Z) (x25519_pub : bytes) (secp256r1_pub : option bytes) : bytes :=
  let buf := foldl (add_extension sni grease_group x25519_pub secp256r1_pub) [] (extensions profile) in
  put_extension buf grease_ext [0x00; 0x00].

Definition build_client_hello_body (sni random session_id : bytes) (grease_cipher grease_ext : Z)
    (x25519_pub : bytes) (secp256r1_pub : option bytes) : bytes :=
  let buf := put_u16 [] 0x0303 ++ random ++ [0x20] ++ session_id in
  let cipher_count := 1 + zlen (cipher_suites profile) in
  let buf := put_u16 (put_u16 buf (cipher_count * 2)) grease_cipher in
  let buf := foldl put_u16 buf (cipher_suites profile) in
  let buf := buf ++ [0x01; 0x00] in
  let exts := build_extensions sni grease_cipher grease_ext x25519_pub secp256r1_pub in
  put_u16 buf (zlen exts) ++ exts.

(** [draw_cipher] and [draw_ext] are the two draws, [generated] the key made when none is given. *)
Definition build_with_additional_key_share (sni random session_id : bytes) (x25519_pub secp256r1_pub : option bytes)
    (draw_cipher draw_ext : Z) (generated : bytes) : res ProxyError bytes :=
  grease_cipher ← grease_u16 draw_cipher;
  grease_ext ← grease_u16 draw_ext;
  let key_bytes := match x25519_pub with Some k => k | None => generated end in
  let body := build_client_hello_body sni random session_id grease_cipher grease_ext key_bytes secp256r1_pub in
  let handshake := put_u24 [0x01] (zlen body) ++ body in
  Ok (put_u16 [0x16; 0x03; 0x01] (zlen handshake) ++ handshake).

Definition build (sni random session_id : bytes) (x25519_pub : option bytes) (draw_cipher draw_ext : Z) (generated : bytes) : res ProxyError bytes :=
  build_with_additional_key_share sni random session_id x25519_pub None draw_cipher draw_ext generated.

End builder.

(** * The parser *)

Record ClientHelloFields := mkFields {
  f_random : bytes;
  f_session_id : bytes;
  f_x25519_key_share : bytes;
  f_sni : bytes;
}.

Definition CLIENT_HELLO_SESSION_ID_LEN_OFFSET : Z := 38.

Definition GROUP_X25519 : Z := 29.
Definition GROUP_X25519_MLKEM768 : Z := 0x11ec.

(** [u16::from_be_bytes([body[pos], body[pos + 1]])]. *)
Definition u16_at (body : bytes) (pos : Z) : res ProxyError Z :=
  a ← idx body pos;
  b ← idx body (pos + 1);
  Ok (be_val [a; b]).

Definition skip_cipher_suites (body : bytes) (pos : Z) : res ProxyError Z :=
  if pos + 2 >? zlen body then Err (Protocol "truncated at cipher_suites_len")
  else
    cs_len ← u16_at body pos;
    let pos := pos + (2 + cs_len) in
    if pos >? zlen body then Err (Protocol "truncated cipher_suites") else Ok pos.

Definition skip_compression_methods (body : bytes) (pos : Z) : res ProxyError Z :=
  if pos >=? zlen body then Err (Protocol "truncated at compression_methods_len")
  else
    comp_len ← idx body pos;
    let pos := pos + (1 + comp_len) in
    if pos >? zlen body then Err (Protocol "truncated compression_methods") else Ok pos.

Definition parse_sni (ext_data : bytes) : res ProxyError bytes :=
  if zlen ext_data <? 5 then Ok []
  else
    name_len ← u16_at ext_data 3;
    if zlen ext_data <? 5 + name_len then Ok []
    else
      name ← slice ext_data 5 (5 + name_len);
      Ok (utf8_lossy name).

(** The loop over the key shares, with the two keys found so far. *)
Fixpoint collect_loop (fuel : nat) (ext_data : bytes) (shares_len pos : Z) (standalone mlkem : option bytes)
  : res ProxyError (option bytes * option bytes) :=
  if (pos + 4 <=? 2 + shares_len) && (pos + 4 <=? zlen ext_data) then
    match fuel with
    | O => NoFuel
    | S fuel =>
        group ← u16_at ext_data pos;
        key_len ← u16_at ext_data (pos + 2);
        let pos := pos + 4 in
        if pos + key_len >? zlen ext_data then Ok (standalone, mlkem)
        else if (group =? GROUP_X25519) && (key_len =? 32) then
          key ← slice ext_data pos (pos + 32);
          collect_loop fuel ext_data shares_len (pos + key_len) (Some key) mlkem
        else if (group =? GROUP_X25519_MLKEM768) && (key_len >=? 32) then
          key ← slice ext_data (pos + key_len - 32) (pos + key_len);
          collect_loop fuel ext_data shares_len (pos + key_len) standalone (Some key)
        else collect_loop fuel ext_data shares_len (pos + key_len) standalone mlkem
    end
  else Ok (standalone, mlkem).

Definition collect_x25519_auth_keys (ext_data : bytes) : res ProxyError (list bytes) :=
  if zlen ext_data <? 2 then Ok []
  else
    shares_len ← u16_at ext_data 0;
    '(standalone, mlkem) ← collect_loop (length ext_data) ext_data shares_len 2 None None;
    Ok (option_list standalone ++
        match mlkem with
        | Some k => if bool_decide (standalone <> Some k) then [k] else []
        | None => []
        end).

Definition first_x25519_key_share (ext_data : bytes) : res ProxyError (option bytes) :=
  keys ← collect_x25519_auth_keys ext_data;
  Ok (head keys).

(** The loop over the extensions, with the key share and the name found so far. *)
Fixpoint extension_loop (fuel : nat) (body : bytes) (pos : Z) (key_share : option bytes) (sni : bytes)
  : res ProxyError (option bytes * bytes) :=
  if pos + 4 <=? zlen body then
    match fuel with
    | O => NoFuel
    | S fuel =>
        ext_type ← u16_at body pos;
        ext_len ← u16_at body (pos + 2);
        let pos := pos + 4 in
        if pos + ext_len >? zlen body then Err (Protocol "truncated extension data")
        else
          ext_data ← slice body pos (pos + ext_len);
          let pos := pos + ext_len in
          if ext_type =? 0x0000 then
            sni ← parse_sni ext_data;
            extension_loop fuel body pos key_share sni
          else if ext_type =? 0x0033 then
            key_share ← first_x25519_key_share ext_data;
            extension_loop fuel body pos key_share sni
          else extension_loop fuel body pos key_share sni
    end
  else Ok (key_share, sni).

Definition parse_client_hello (body : bytes) : res ProxyError ClientHelloFields :=
  if zlen body <? 71 then Err (Protocol "ClientHello body too short")
  else
    kind ← idx body 0;
    if negb (kind =? 0x01) then Err (Protocol "expected ClientHello (0x01)")
    else
      random ← slice body 6 38;
      sid_len ← idx body 38;
      if negb (sid_len =? 32) then Err (Protocol "session_id_len must be 32")
      else
        session_id ← slice body 39 71;
        pos ← skip_cipher_suites body 71;
        pos ← skip_compression_methods body pos;
        if pos + 2 >? zlen body then Err (Protocol "truncated at extensions_len")
        else
          '(key_share, sni) ← extension_loop (length body) body (pos + 2) None [];
          key ← ok_or key_share (Protocol "no x25519 key share found in ClientHello");
          Ok (mkFields random session_id key sni).

Definition client_hello_session_id (body : bytes) : res ProxyError bytes :=
  if zlen body <? CLIENT_HELLO_SESSION_ID_LEN_OFFSET + 1 then Err (Protocol "ClientHello too short for session_id")
  else
    sid_len ← idx body CLIENT_HELLO_SESSION_ID_LEN_OFFSET;
    let start := CLIENT_HELLO_SESSION_ID_LEN_OFFSET + 1 in
    if start + sid_len >? zlen body then Err (Protocol "ClientHello session_id truncated")
    else slice body start (start + sid_len).

Definition client_hello_cipher_suites (body : bytes) : res ProxyError bytes :=
  if zlen body <? CLIENT_HELLO_SESSION_ID_LEN_OFFSET + 1 then Err (Protocol "ClientHello too short")
  else
    sid_len ← idx body CLIENT_HELLO_SESSION_ID_LEN_OFFSET;
    let pos := CLIENT_HELLO_SESSION_ID_LEN_OFFSET + 1 + sid_len in
    if pos + 2 >? zlen body then Err (Protocol "ClientHello: cipher_suites_len")
    else
      cs_len ← u16_at body pos;
      let pos := pos + 2 in
      if pos + cs_len >? zlen body then Err (Protocol "ClientHello: cipher_suites")
      else slice body pos (pos + cs_len).

(** The loop of [key_share_extension_data]. *)
Fixpoint key_share_loop (fuel : nat) (body : bytes) (ext_end pos : Z) : res ProxyError (option bytes) :=
  if pos + 4 <=? ext_end then
    match fuel with
    | O => NoFuel
    | S fuel =>
        ext_type ← u16_at body pos;
        ext_len ← u16_at body (pos + 2);
        let pos := pos + 4 in
        if pos + ext_len >? zlen body then Ok None
        else if ext_type =? 0x0033 then
          data ← slice body pos (pos + ext_len);
          Ok (Some data)
        else key_share_loop fuel body ext_end (pos + ext_len)
    end
  else Ok None.

Definition key_share_extension_data (body : bytes) : res ProxyError (option bytes) :=
  kind ← (if zlen body <? CLIENT_HELLO_SESSION_ID_LEN_OFFSET + 1 then Ok 0 else idx body 0);
  if negb (kind =? 0x01) then Ok None
  else
    sid_len ← idx body CLIENT_HELLO_SESSION_ID_LEN_OFFSET;
    let pos := CLIENT_HELLO_SESSION_ID_LEN_OFFSET + 1 + sid_len in
    if pos + 2 >? zlen body then Ok None
    else
      cs_len ← u16_at body pos;
      let pos := pos + (2 + cs_len) in
      if pos >=? zlen body then Ok None
      else
        comp_len ← idx body pos;
        let pos := pos + (1 + comp_len) in
        if pos + 2 >? zlen body then Ok None
        else
          ext_total ← u16_at body pos;
          let pos := pos + 2 in
          key_share_loop (length body) body (Z.min (pos + ext_total) (zlen body)) pos.

Definition reality_auth_peer_public_keys (body : bytes) : res ProxyError (list bytes) :=
  ext ← key_share_extension_data body;
  match ext with
  | None => Ok []
  | Some ext_data => collect_x25519_auth_keys ext_data
  end.

(** * The parser is total *)

(** [m] does not panic and comes to an end; what it gives satisfies [P]. *)
Definition safely {E A} (m : res E A) (P : A -> Prop) : Prop :=
  match m with Ok a => P a | Err _ => True | _ => False end.

Lemma safely_bind {E A B} (m : res E A) (f : A -> res E B) Q P :
  safely m Q -> (forall a, Q a -> safely (f a) P) -> safely (m ≫= f) P.
Proof. destruct m; cbn; auto. Qed.

Lemma safely_mono {E A} (m : res E A) (P Q : A -> Prop) : safely m P -> (forall a, P a -> Q a) -> safely m Q.
Proof. destruct m; cbn; auto. Qed.

Lemma safely_idx {E} (l : bytes) i : bytes_ok l -> 0 <= i < zlen l -> safely (idx (E:=E) l i) (is_u 8).
Proof.
  intros Hl Hi. destruct (idx_in_range (E:=E) l i Hi) as (b & Hb & _). rewrite Hb. by eapply idx_bytes_ok.
Qed.

Lemma safely_u16_at (l : bytes) i : bytes_ok l -> 0 <= i -> i + 2 <= zlen l -> safely (u16_at l i) (is_u 16).
Proof.
  intros Hl Hi Hn. unfold u16_at. eapply safely_bind; [apply safely_idx; [done | lia] |]. intros a Ha.
  eapply safely_bind; [apply safely_idx; [done | lia] |]. intros b Hb. by apply is_u16_be_val.
Qed.

Lemma safely_slice {E} (l : bytes) i j :
  bytes_ok l -> 0 <= i <= j -> j <= zlen l -> safely (slice (E:=E) l i j)
    (fun s => bytes_ok s /\ zlen s = j - i /\ s = take (Z.to_nat (j - i)) (drop (Z.to_nat i) l)).
Proof.
  intros Hl Hi Hj. destruct (slice (E:=E) l i j) as [s | | |] eqn:Es; [| by rewrite slice_in_range in Es by lia..].
  cbn. split_and!; [by eapply slice_bytes_ok | by eapply slice_len |]. by apply slice_ok in Es as (_ & _ & ->).
Qed.

Lemma safely_put_at {E} (l : bytes) i d : 0 <= i -> i + zlen d <= zlen l -> safely (put_at (E:=E) l i d) (fun r => zlen r = zlen l).
Proof.
  intros Hi Hl. unfold put_at. rewrite (proj2 (Z.leb_le 0 i)), (proj2 (Z.leb_le (i + zlen d) _)) by lia. cbn [andb safely].
  rewrite !zlen_app. unfold zlen in *. rewrite length_take, length_drop. lia.
Qed.

(** One step of code that reads a buffer within its bounds. *)
Ltac sread :=
  match goal with
  | |- safely (if ?b then _ else _) _ => zdestruct b; cbn [negb andb orb]; try done
  | |- safely (u16_at _ _ ≫= _) _ => eapply safely_bind; [apply safely_u16_at; [done | unfold is_u in *; lia..] | intros ? ?]
  | |- safely (idx _ _ ≫= _) _ => eapply safely_bind; [apply safely_idx; [done | unfold is_u in *; lia] | intros ? ?]
  | |- safely (slice _ _ _ ≫= _) _ => eapply safely_bind; [apply safely_slice; [done | unfold is_u in *; lia..] | intros ? (? & ? & ?)]
  end.

Definition key_ok (o : option bytes) : Prop := match o with Some k => zlen k = 32 | None => True end.

Lemma collect_loop_safe ext_data shares_len : bytes_ok ext_data -> forall fuel pos s m,
  0 <= pos -> zlen ext_data - pos <= Z.of_nat fuel -> key_ok s -> key_ok m ->
  safely (collect_loop fuel ext_data shares_len pos s m) (fun '(s, m) => key_ok s /\ key_ok m).
Proof.
  intros Hd. induction fuel as [| fuel IH]; intros pos s m Hp Hf Hs Hm; cbn [collect_loop].
  all: destruct (Z.leb_spec (pos + 4) (2 + shares_len)); cbn [andb]; [| done].
  all: destruct (Z.leb_spec (pos + 4) (zlen ext_data)); [| done].
  { lia. }
  do 2 sread. sread. sread.
  - destruct (Z.eqb_spec a0 32) as [-> |]; cbn [andb].
    + sread. apply IH; [unfold is_u in *; lia.. | cbn; lia | done].
    + subst a. apply IH; [unfold is_u in *; lia.. | done | done].
  - destruct (Z.eqb_spec a GROUP_X25519_MLKEM768); cbn [andb]; [| apply IH; [unfold is_u in *; lia.. | done | done]].
    sread; [| apply IH; [unfold is_u in *; lia.. | done | done]].
    sread. apply IH; [unfold is_u in *; lia.. | done | cbn; lia].
Qed.

Lemma collect_keys_safe ext_data : bytes_ok ext_data -> safely (collect_x25519_auth_keys ext_data) (Forall (fun k => zlen k = 32)).
Proof.
  intros Hd. unfold collect_x25519_auth_keys. sread; [by apply Forall_nil_2 |]. sread.
  eapply safely_bind; [apply collect_loop_safe; [done | lia | unfold zlen; lia | done | done] |].
  intros [[s |] [m |]] [Hs Hm]; cbn in *; repeat case_bool_decide; repeat constructor; done.
Qed.

Lemma parse_sni_safe ext_data : bytes_ok ext_data -> safely (parse_sni ext_data) (fun _ => True).
Proof. intros Hd. unfold parse_sni. sread. sread. sread. sread. done. Qed.

Lemma extension_loop_safe body : bytes_ok body -> forall fuel pos k sni,
  0 <= pos -> zlen body - pos <= Z.of_nat fuel -> key_ok k ->
  safely (extension_loop fuel body pos k sni) (fun '(k, _) => key_ok k).
Proof.
  intros Hd. induction fuel as [| fuel IH]; intros pos k sni Hp Hf Hk; cbn [extension_loop].
  all: destruct (Z.leb_spec (pos + 4) (zlen body)); [| done].
  { lia. }
  do 2 sread. sread. sread. sread.
  - eapply safely_bind; [by apply parse_sni_safe |]. intros name _. apply IH; [unfold is_u in *; lia.. | done].
  - sread; [| apply IH; [unfold is_u in *; lia.. | done]]. unfold first_x25519_key_share.
    eapply (safely_bind _ _ key_ok); [| intros k' Hk'; apply IH; [unfold is_u in *; lia.. | done]].
    eapply safely_bind; [by apply collect_keys_safe |]. intros keys Hkeys. destruct Hkeys; done.
Qed.

Lemma parse_client_hello_safe body : bytes_ok body ->
  safely (parse_client_hello body) (fun f => f_random f = take 32 (drop 6 body) /\ f_session_id f = take 32 (drop 39 body)
    /\ zlen (f_x25519_key_share f) = 32 /\ 71 <= zlen body).
Proof.
  intros Hd. unfold parse_client_hello. sread. sread. sread. sread. sread. sread. sread.
  apply (safely_bind _ _ (fun pos => 0 <= pos <= zlen body)); [unfold skip_cipher_suites; sread; sread; sread; unfold is_u in *; cbn; lia |].
  intros pos Hpos. apply (safely_bind _ _ (fun pos => 0 <= pos <= zlen body)).
  { unfold skip_compression_methods. sread. sread. sread. unfold is_u in *. cbn. lia. }
  intros pos' Hpos'. sread. eapply safely_bind; [apply extension_loop_safe; [done | lia | unfold zlen; lia | done] |].
  intros [[k |] sni] Hk; cbn; [by split_and!; try lia | done].
Qed.

Lemma key_share_loop_safe body ext_end : bytes_ok body -> ext_end <= zlen body -> forall fuel pos,
  0 <= pos -> zlen body - pos <= Z.of_nat fuel -> safely (key_share_loop fuel body ext_end pos) (fun o => match o with Some d => bytes_ok d | None => True end).
Proof.
  intros Hd He. induction fuel as [| fuel IH]; intros pos Hp Hf; cbn [key_share_loop].
  all: destruct (Z.leb_spec (pos + 4) ext_end); [| done].
  { lia. }
  do 2 sread. sread. sread; [sread; done |]. apply IH; unfold is_u in *; lia.
Qed.

Lemma peer_keys_safe body : bytes_ok body -> safely (reality_auth_peer_public_keys body) (Forall (fun k => zlen k = 32)).
Proof.
  intros Hd. unfold reality_auth_peer_public_keys.
  apply (safely_bind _ _ (fun o => match o with Some d => bytes_ok d | None => True end)).
  2: { intros [d |] Ho; [by apply collect_keys_safe | cbn; constructor]. }
  unfold key_share_extension_data, CLIENT_HELLO_SESSION_ID_LEN_OFFSET. destruct (Z.ltb_spec (zlen body) (38 + 1)); cbn [mbind res_bind]; [done |].
  sread. sread. sread. sread. sread. sread. sread. sread. sread.
  apply key_share_loop_safe; [done | lia | unfold is_u in *; lia | unfold zlen, is_u in *; lia].
Qed.

Lemma session_id_safe body : bytes_ok body -> safely (client_hello_session_id body) (fun s => zlen s <= 255).
Proof.
  intros Hd. unfold client_hello_session_id, CLIENT_HELLO_SESSION_ID_LEN_OFFSET. sread. sread. sread.
  eapply safely_mono; [apply safely_slice; [done | unfold is_u in *; lia..] |]. unfold is_u in *. intros s (_ & -> & _). lia.
Qed.

Lemma cipher_suites_safe body : bytes_ok body -> safely (client_hello_cipher_suites body) bytes_ok.
Proof.
  intros Hd. unfold client_hello_cipher_suites, CLIENT_HELLO_SESSION_ID_LEN_OFFSET. sread. sread. sread. sread. sread.
  eapply safely_mono; [apply safely_slice; [done | unfold is_u in *; lia..] |]. by intros s (? & _).
Qed.

(** * What the builder writes *)

Definition ext_bytes (e : Z * bytes) : bytes := be_bytes 2 e.1 ++ be_bytes 2 (zlen e.2) ++ e.2.

Definition exts_bytes (l : list (Z * bytes)) : bytes := concat (ext_bytes <$> l).

Definition u16s (l : list Z) : bytes := concat (be_bytes 2 <$> l).

Lemma put_extension_eq buf t d : put_extension buf t d = buf ++ ext_bytes (t, d).
Proof. unfold put_extension, put_u16, ext_bytes. cbn [fst snd]. by rewrite <- !app_assoc. Qed.

Lemma foldl_put_u16 l : forall buf, foldl put_u16 buf l = buf ++ u16s l.
Proof.
  induction l as [| v l IH]; intros buf; cbn [foldl]; [by rewrite app_nil_r |]. rewrite IH. unfold put_u16, u16s. cbn. by rewrite <- app_assoc.
Qed.

Section layout.
Context (profile : FingerprintProfile) (sni : bytes) (g : Z) (x25519_pub : bytes) (secp256r1_pub : option bytes).

(** The data of the extension of a type. *)
Definition ext_data (t : Z) : bytes := drop 4 (add_extension profile sni g x25519_pub secp256r1_pub [] t).

Definition shares : bytes :=
  be_bytes 2 g ++ be_bytes 2 1 ++ [0] ++ be_bytes 2 29 ++ be_bytes 2 32 ++ x25519_pub
  ++ match secp256r1_pub with Some k => be_bytes 2 23 ++ be_bytes 2 (zlen k) ++ k | None => [] end.

Lemma ext_data_name : ext_data 0x0000 = be_bytes 2 (1 + 2 + zlen sni) ++ [0] ++ be_bytes 2 (zlen sni) ++ sni.
Proof.
  unfold ext_data, add_extension, ext_server_name. cbn [Z.eqb]. rewrite put_extension_eq. unfold ext_bytes. cbn [fst snd app].
  rewrite !be_bytes_2. cbn [app drop]. unfold put_u16. cbn [app]. by rewrite <- !app_assoc.
Qed.

Lemma ext_data_shares : ext_data 0x0033 = be_bytes 2 (zlen shares) ++ shares.
Proof.
  unfold ext_data, add_extension, ext_key_share. cbn [Z.eqb Pos.eqb]. rewrite put_extension_eq. unfold ext_bytes. cbn [fst snd app].
  rewrite (be_bytes_2 51), (be_bytes_2 (zlen _)). cbn [app drop]. unfold put_u16. cbn [app].
  assert (E : match secp256r1_pub with
              | Some pubkey => ((((((be_bytes 2 g ++ be_bytes 2 1) ++ [0]) ++ be_bytes 2 29) ++ be_bytes 2 32) ++ x25519_pub) ++ be_bytes 2 23) ++ be_bytes 2 (zlen pubkey) ++ pubkey
              | None => ((((be_bytes 2 g ++ be_bytes 2 1) ++ [0]) ++ be_bytes 2 29) ++ be_bytes 2 32) ++ x25519_pub
              end = shares).
  { unfold shares. destruct secp256r1_pub; rewrite <- ?app_assoc, ?app_nil_r; done. }
  rewrite <- E. destruct secp256r1_pub; rewrite <- ?app_assoc; done.
Qed.

Lemma add_extension_eq buf t :
  add_extension profile sni g x25519_pub secp256r1_pub buf t = buf ++ ext_bytes (t, ext_data t).
Proof.
  assert (Hp : forall d, drop 4 (put_extension [] t d) = d).
  { intros d. rewrite put_extension_eq. unfold ext_bytes. cbn [fst snd app]. by rewrite !be_bytes_2. }
  rewrite <- put_extension_eq. unfold ext_data, add_extension.
  repeat match goal with |- context [t =? ?c] => destruct (Z.eqb_spec t c); [subst t; symmetry; f_equal; apply Hp |] end.
  by rewrite Hp.
Qed.

Definition exts_of (types : list Z) : list (Z * bytes) := (fun t => (t, ext_data t)) <$> types.

Lemma add_extensions_eq types : forall buf,
  foldl (add_extension profile sni g x25519_pub secp256r1_pub) buf types = buf ++ exts_bytes (exts_of types).
Proof.
  induction types as [| t types IH]; intros buf; cbn [foldl]; [unfold exts_bytes; cbn; by rewrite app_nil_r |].
  rewrite IH, add_extension_eq. unfold exts_of, exts_bytes. cbn [fmap list_fmap concat]. by rewrite <- app_assoc.
Qed.

Definition all_exts (ge : Z) : list (Z * bytes) := exts_of (extensions profile) ++ [(ge, [0; 0])].

Lemma build_extensions_eq ge : build_extensions profile sni g ge x25519_pub secp256r1_pub = exts_bytes (all_exts ge).
Proof.
  unfold build_extensions, all_exts, exts_bytes. rewrite put_extension_eq, add_extensions_eq. unfold exts_bytes. rewrite fmap_app, concat_app. cbn [app fmap list_fmap concat].
  by rewrite app_nil_r.
Qed.

(** The bytes of the handshake message up to the length of the session id, and behind it. *)
Definition hello_head (len : Z) (random : bytes) : bytes := put_u24 [0x01] len ++ be_bytes 2 0x0303 ++ random.

Definition hello_tail (ge : Z) : bytes :=
  be_bytes 2 ((1 + zlen (cipher_suites profile)) * 2) ++ u16s (g :: cipher_suites profile) ++ [0x01; 0x00]
  ++ be_bytes 2 (zlen (exts_bytes (all_exts ge))) ++ exts_bytes (all_exts ge).

Lemma build_body_eq random session_id ge :
  build_client_hello_body profile sni random session_id g ge x25519_pub secp256r1_pub
  = be_bytes 2 0x0303 ++ random ++ [0x20] ++ session_id ++ hello_tail ge.
Proof.
  unfold build_client_hello_body, hello_tail. rewrite foldl_put_u16, build_extensions_eq. unfold put_u16, u16s.
  cbn [fmap list_fmap concat app]. rewrite <- !app_assoc. cbn [app]. by rewrite <- ?app_assoc.
Qed.

(** A handshake message with the given session id. *)
Definition hello_message (random session_id : bytes) (ge : Z) : bytes :=
  let body := be_bytes 2 0x0303 ++ random ++ [0x20] ++ session_id ++ hello_tail ge in
  put_u24 [0x01] (zlen body) ++ body.

End layout.

(** Where the loops go over extensions that are written one after the other. *)
Fixpoint scan (exts : list (Z * bytes)) (key_share : option bytes) (sni : bytes) : res ProxyError (option bytes * bytes) :=
  match exts with
  | [] => Ok (key_share, sni)
  | (t, d) :: exts =>
      if t =? 0x0000 then sni ← parse_sni d; scan exts key_share sni
      else if t =? 0x0033 then key_share ← first_x25519_key_share d; scan exts key_share sni
      else scan exts key_share sni
  end.

Definition ext_ok (e : Z * bytes) : Prop := is_u 16 e.1 /\ is_u 16 (zlen e.2).

Lemma u16_at_ok body pre v post pos :
  body = pre ++ be_bytes 2 v ++ post -> pos = zlen pre -> is_u 16 v -> u16_at body pos = Ok v.
Proof.
  intros -> -> Hv. unfold u16_at. rewrite be_bytes_2. cbn [app].
  rewrite (idx_app_mid pre (v mod 256 :: post) (v / 256 mod 256) (zlen pre) eq_refl). cbn [mbind res_bind].
  replace (pre ++ v / 256 mod 256 :: v mod 256 :: post) with ((pre ++ [v / 256 mod 256]) ++ v mod 256 :: post) by (by rewrite <- app_assoc).
  rewrite idx_app_mid by (rewrite zlen_app; done). cbn [mbind res_bind]. rewrite <- be_bytes_2. by rewrite be_val_be_bytes.
Qed.

Lemma ext_bytes_len e : zlen (ext_bytes e) = 4 + zlen e.2.
Proof. unfold ext_bytes. rewrite !zlen_app, !zlen_be_bytes. lia. Qed.

(** The header and the data of the extension at a position. *)
Lemma ext_at body pre t d post pos :
  body = pre ++ ext_bytes (t, d) ++ post -> pos = zlen pre -> ext_ok (t, d) ->
  zlen body = pos + 4 + zlen d + zlen post /\ u16_at body pos = Ok t /\ u16_at body (pos + 2) = Ok (zlen d)
  /\ slice (E:=ProxyError) body (pos + 4) (pos + 4 + zlen d) = Ok d.
Proof.
  intros -> -> [Ht Hd]. cbn [fst snd] in *. split_and!.
  - rewrite !zlen_app, ext_bytes_len. cbn [snd]. lia.
  - eapply (u16_at_ok _ pre t (be_bytes 2 (zlen d) ++ d ++ post)); [| done | done]. unfold ext_bytes. cbn [fst snd]. by rewrite <- !app_assoc.
  - eapply (u16_at_ok _ (pre ++ be_bytes 2 t) (zlen d) (d ++ post)); [| by rewrite zlen_app, zlen_be_bytes | done].
    unfold ext_bytes. cbn [fst snd]. by rewrite <- !app_assoc.
  - eapply (slice_split _ (pre ++ be_bytes 2 t ++ be_bytes 2 (zlen d)) d post).
    + unfold ext_bytes. cbn [fst snd]. by rewrite <- !app_assoc.
    + rewrite !zlen_app, !zlen_be_bytes. lia.
    + rewrite !zlen_app, !zlen_be_bytes. lia.
Qed.

Lemma extension_loop_scan exts : Forall ext_ok exts -> forall fuel pre pos k sni,
  pos = zlen pre -> (length exts <= fuel)%nat ->
  extension_loop fuel (pre ++ exts_bytes exts) pos k sni = scan exts k sni.
Proof.
  induction 1 as [| [t d] exts He Hes IH]; intros fuel pre pos k sni Hp Hf.
  { assert (E : (pos + 4 <=? zlen (pre ++ exts_bytes [])) = false) by (unfold exts_bytes; cbn; rewrite app_nil_r; lia).
    by destruct fuel; cbn [extension_loop]; rewrite E. }
  destruct fuel as [| fuel]; [simpl in Hf; lia |]. cbn [extension_loop].
  set (body := pre ++ _). destruct (ext_at body pre t d (exts_bytes exts) pos eq_refl Hp He) as (Hl & H1 & H2 & H3).
  pose proof (zlen_nonneg d). pose proof (zlen_nonneg (exts_bytes exts)).
  rewrite (proj2 (Z.leb_le _ _)) by lia. rewrite H1, H2. cbn [mbind res_bind]. rewrite Z.gtb_ltb, (proj2 (Z.ltb_ge _ _)) by lia. rewrite H3.
  cbn [mbind res_bind scan]. pose proof (zlen_nonneg pre).
  assert (IH' : forall k sni, extension_loop fuel body (pos + 4 + zlen d) k sni = scan exts k sni).
  { intros k' sni'. replace body with ((pre ++ ext_bytes (t, d)) ++ exts_bytes exts) by (unfold body, exts_bytes; cbn; by rewrite <- app_assoc).
    apply IH; [rewrite zlen_app, ext_bytes_len; cbn [snd]; lia | simpl in Hf; lia]. }
  destruct (t =? 0); [destruct (parse_sni d); [apply IH' | done..] |].
  destruct (t =? 51); [destruct (first_x25519_key_share d); [apply IH' | done..] | apply IH'].
Qed.

Lemma key_share_loop_scan exts : Forall ext_ok exts -> forall fuel pre pos d,
  pos = zlen pre -> (length exts <= fuel)%nat -> (51, d) ∈ exts -> (forall d', (51, d') ∈ exts -> d' = d) ->
  key_share_loop fuel (pre ++ exts_bytes exts) (zlen (pre ++ exts_bytes exts)) pos = Ok (Some d).
Proof.
  induction 1 as [| [t d0] exts He Hes IH]; intros fuel pre pos d Hp Hf Hin Hu; [by apply not_elem_of_nil in Hin |].
  destruct fuel as [| fuel]; [simpl in Hf; lia |]. cbn [key_share_loop].
  set (body := pre ++ _). destruct (ext_at body pre t d0 (exts_bytes exts) pos eq_refl Hp He) as (Hl & H1 & H2 & H3).
  pose proof (zlen_nonneg d0). pose proof (zlen_nonneg (exts_bytes exts)).
  rewrite (proj2 (Z.leb_le _ _)) by lia. rewrite H1, H2. cbn [mbind res_bind]. rewrite Z.gtb_ltb, (proj2 (Z.ltb_ge _ _)) by lia.
  destruct (Z.eqb_spec t 51) as [-> | Hne].
  - rewrite H3. cbn [mbind res_bind]. do 2 f_equal. apply Hu. by left.
  - replace body with ((pre ++ ext_bytes (t, d0)) ++ exts_bytes exts) by (unfold body, exts_bytes; cbn; by rewrite <- app_assoc).
    apply IH; [rewrite zlen_app, ext_bytes_len; cbn [snd]; lia | simpl in Hf; lia | | by intros; apply Hu; right].
    apply elem_of_cons in Hin as [[= <- _] | Hin]; [done | done].
Qed.

(** The keys of shares that are written one after the other. *)
Fixpoint scan_keys (entries : list (Z * bytes)) (s m : option bytes) : option bytes * option bytes :=
  match entries with
  | [] => (s, m)
  | (t, d) :: entries =>
      if (t =? GROUP_X25519) && (zlen d =? 32) then scan_keys entries (Some d) m
      else if (t =? GROUP_X25519_MLKEM768) && (zlen d >=? 32) then scan_keys entries s (Some (drop (Z.to_nat (zlen d - 32)) d))
      else scan_keys entries s m
  end.

(** The last 32 bytes of a share. *)
Lemma share_tail body pre t d post pos :
  body = pre ++ ext_bytes (t, d) ++ post -> pos = zlen pre -> 32 <= zlen d ->
  slice (E:=ProxyError) body (pos + 4 + zlen d - 32) (pos + 4 + zlen d) = Ok (drop (Z.to_nat (zlen d - 32)) d).
Proof.
  intros -> -> Hd. set (n := Z.to_nat (zlen d - 32)).
  assert (Ht : zlen (take n d) = zlen d - 32) by (unfold n, zlen in *; rewrite length_take; lia).
  assert (Hr : zlen (drop n d) = 32) by (unfold n, zlen in *; rewrite length_drop; lia).
  eapply (slice_split _ (pre ++ be_bytes 2 t ++ be_bytes 2 (zlen d) ++ take n d) (drop n d) post).
  - unfold ext_bytes. cbn [fst snd]. rewrite <- (take_drop n d) at 2. by rewrite <- !app_assoc.
  - rewrite !zlen_app, !zlen_be_bytes, Ht. lia.
  - rewrite !zlen_app, !zlen_be_bytes, Ht, Hr. lia.
Qed.

Lemma collect_loop_scan entries : Forall ext_ok entries -> forall fuel pre pos n s m,
  pos = zlen pre -> 2 + n = zlen (pre ++ exts_bytes entries) -> (length entries <= fuel)%nat ->
  collect_loop fuel (pre ++ exts_bytes entries) n pos s m = Ok (scan_keys entries s m).
Proof.
  induction 1 as [| [t d] entries He Hes IH]; intros fuel pre pos n s m Hp Hn Hf.
  { assert (E : (pos + 4 <=? 2 + n) = false) by (revert Hn; unfold exts_bytes; cbn; rewrite app_nil_r; lia).
    by destruct fuel; cbn [collect_loop]; rewrite E. }
  destruct fuel as [| fuel]; [simpl in Hf; lia |]. cbn [collect_loop]. rewrite Hn.
  set (body := pre ++ _) in *. destruct (ext_at body pre t d (exts_bytes entries) pos eq_refl Hp He) as (Hl & H1 & H2 & H3).
  pose proof (zlen_nonneg d). pose proof (zlen_nonneg (exts_bytes entries)).
  rewrite (proj2 (Z.leb_le _ _)) by lia. cbn [andb]. rewrite H1, H2. cbn [mbind res_bind]. rewrite Z.gtb_ltb, (proj2 (Z.ltb_ge _ _)) by lia.
  assert (IH' : forall s m, collect_loop fuel body n (pos + 4 + zlen d) s m = Ok (scan_keys entries s m)).
  { intros s' m'. assert (Eb : body = (pre ++ ext_bytes (t, d)) ++ exts_bytes entries) by (unfold body, exts_bytes; cbn; by rewrite <- app_assoc).
    rewrite Eb in *. apply IH; [rewrite zlen_app, ext_bytes_len; cbn [snd]; lia | done | simpl in Hf; lia]. }
  assert (Hm : (if zlen d >=? 32 then
                  key ← slice body (pos + 4 + zlen d - 32) (pos + 4 + zlen d);
                  collect_loop fuel body n (pos + 4 + zlen d) s (Some key)
                else collect_loop fuel body n (pos + 4 + zlen d) s m)
    = Ok (if zlen d >=? 32 then scan_keys entries s (Some (drop (Z.to_nat (zlen d - 32)) d)) else scan_keys entries s m)).
  { destruct (Z.geb_spec (zlen d) 32) as [Hd |]; [| apply IH']. rewrite (share_tail body pre t d (exts_bytes entries) pos eq_refl Hp Hd). apply IH'. }
  cbn [scan_keys]. destruct (t =? GROUP_X25519), (Z.eqb_spec (zlen d) 32) as [E |]; cbn [andb].
  { rewrite E in H3. rewrite H3. cbn [mbind res_bind]. apply IH'. }
  all: destruct (t =? GROUP_X25519_MLKEM768); cbn [andb]; [| apply IH']; rewrite Hm; by destruct (_ >=? _).
Qed.

(** * The parser reads what the builder wrote *)

Section roundtrip.
Context (profile : FingerprintProfile) (sni random session_id x25519_pub : bytes) (secp256r1_pub : option bytes) (g ge : Z).
Hypothesis (Hx : zlen x25519_pub = 32) (Hg : g ∈ GREASE_VALUES_U16) (Hge : ge ∈ GREASE_VALUES_U16).

Lemma grease_is_u v : v ∈ GREASE_VALUES_U16 -> is_u 16 v /\ v <> 0 /\ v <> 51 /\ v <> 29 /\ v <> 0x11ec.
Proof.
  intros Hv. assert (H : forallb (fun v => bool_decide (is_u 16 v /\ v <> 0 /\ v <> 51 /\ v <> 29 /\ v <> 0x11ec)) GREASE_VALUES_U16 = true) by done.
  rewrite forallb_forall in H. specialize (H v (proj1 (list_elem_of_In _ _) Hv)). by apply bool_decide_eq_true in H.
Qed.

Definition share_entries : list (Z * bytes) :=
  [(g, [0]); (29, x25519_pub)] ++ match secp256r1_pub with Some k => [(23, k)] | None => [] end.

Lemma shares_entries : shares g x25519_pub secp256r1_pub = exts_bytes share_entries.
Proof.
  unfold shares, share_entries, exts_bytes, ext_bytes. cbn [app fmap list_fmap concat fst snd]. rewrite Hx, <- !app_assoc.
  destruct secp256r1_pub; cbn; rewrite ?app_nil_r, <- ?app_assoc; done.
Qed.

Lemma share_entries_ok : is_u 16 (zlen (exts_bytes share_entries)) -> Forall ext_ok share_entries.
Proof.
  unfold share_entries. destruct (grease_is_u g Hg) as (Hgu & _). cbn [app]. intros Hs.
  apply Forall_cons_iff. split; [by split |]. apply Forall_cons_iff. split; [split; cbn [fst snd]; unfold is_u; lia |].
  destruct secp256r1_pub as [k |]; [| constructor]. apply Forall_cons_iff. split; [| constructor]. split; [done |]. cbn [snd].
  revert Hs. unfold exts_bytes. cbn [app fmap list_fmap concat]. rewrite !zlen_app, !ext_bytes_len. cbn [snd]. unfold is_u.
  pose proof (zlen_nonneg k). len_solve.
Qed.

Lemma exts_bytes_fuel es : (length es <= length (exts_bytes es))%nat.
Proof.
  induction es as [| e es IH]; [done |]. unfold exts_bytes in *. cbn [fmap list_fmap concat length]. rewrite length_app.
  pose proof (ext_bytes_len e). pose proof (zlen_nonneg e.2). unfold zlen in *. lia.
Qed.

Lemma scan_share_entries : scan_keys share_entries None None = (Some x25519_pub, None).
Proof.
  unfold share_entries. cbn [app scan_keys]. unfold GROUP_X25519, GROUP_X25519_MLKEM768. destruct (grease_is_u g Hg) as (_ & _ & _ & H29 & Hm).
  rewrite (proj2 (Z.eqb_neq g 29)), (proj2 (Z.eqb_neq g 0x11ec)) by done. cbn [andb]. rewrite Hx. by destruct secp256r1_pub.
Qed.

Lemma collect_built :
  is_u 16 (zlen (shares g x25519_pub secp256r1_pub)) ->
  collect_x25519_auth_keys (ext_data profile sni g x25519_pub secp256r1_pub 0x0033) = Ok [x25519_pub].
Proof.
  rewrite ext_data_shares, shares_entries. set (es := share_entries). intros Hs. unfold collect_x25519_auth_keys.
  assert (H2 : zlen (be_bytes 2 (zlen (exts_bytes es)) ++ exts_bytes es) = 2 + zlen (exts_bytes es)) by (by rewrite zlen_app, zlen_be_bytes).
  pose proof (zlen_nonneg (exts_bytes es)). rewrite H2, (proj2 (Z.ltb_ge _ _)) by lia.
  rewrite (u16_at_ok _ [] (zlen (exts_bytes es)) (exts_bytes es)) by done. cbn [mbind res_bind].
  rewrite (collect_loop_scan es (share_entries_ok Hs)); [| by rewrite zlen_be_bytes | by rewrite H2 |].
  - unfold es. by rewrite scan_share_entries.
  - rewrite length_app. pose proof (exts_bytes_fuel es). lia.
Qed.

Lemma parse_sni_built :
  is_u 16 (zlen sni) -> utf8_valid sni = true -> parse_sni (ext_data profile sni g x25519_pub secp256r1_pub 0x0000) = Ok sni.
Proof.
  intros Hs Hu. rewrite ext_data_name. unfold parse_sni. pose proof (zlen_nonneg sni).
  assert (Hl : zlen (be_bytes 2 (1 + 2 + zlen sni) ++ [0] ++ be_bytes 2 (zlen sni) ++ sni) = 5 + zlen sni)
    by len_solve.
  rewrite Hl, (proj2 (Z.ltb_ge _ _)) by lia.
  rewrite (u16_at_ok _ (be_bytes 2 (1 + 2 + zlen sni) ++ [0]) (zlen sni) sni); [| by rewrite <- app_assoc | by rewrite zlen_app, zlen_be_bytes | done].
  cbn [mbind res_bind]. rewrite (proj2 (Z.ltb_ge _ _)) by lia.
  rewrite (slice_split _ (be_bytes 2 (1 + 2 + zlen sni) ++ [0] ++ be_bytes 2 (zlen sni)) sni []).
  - cbn [mbind res_bind]. by rewrite (utf8_lossy_valid (length sni)).
  - by rewrite app_nil_r, <- !app_assoc.
  - len_solve.
  - len_solve.
Qed.

Hypothesis (Hr : zlen random = 32) (Hs : zlen session_id = 32) (Hu : utf8_valid sni = true)
  (Hk : 51 ∈ extensions profile) (Ht : Forall (is_u 16) (extensions profile)).

Abbreviation exts := (all_exts profile sni g x25519_pub secp256r1_pub ge).
Abbreviation tail := (hello_tail profile sni g x25519_pub secp256r1_pub ge).
Abbreviation message := (hello_message profile sni g x25519_pub secp256r1_pub random session_id ge).
Abbreviation data_of := (ext_data profile sni g x25519_pub secp256r1_pub).

Hypothesis (Hfit : is_u 16 (zlen message)).

Lemma exts_bytes_in e es : e ∈ es -> zlen (ext_bytes e) <= zlen (exts_bytes es).
Proof.
  unfold exts_bytes. induction 1 as [e es | e e' es Hin IH]; cbn [fmap list_fmap concat]; rewrite zlen_app.
  - pose proof (zlen_nonneg (concat (ext_bytes <$> es))). lia.
  - pose proof (zlen_nonneg (ext_bytes e')). lia.
Qed.

Lemma u16s_len l : zlen (u16s l) = 2 * zlen l.
Proof.
  unfold u16s. induction l as [| v l IH]; [done |]. cbn [fmap list_fmap concat]. rewrite zlen_app, zlen_be_bytes, IH, zlen_cons. lia.
Qed.

Lemma head_len n : zlen (hello_head n random) = 38.
Proof. unfold hello_head, put_u24. rewrite !zlen_app, zlen_be_bytes, Hr. reflexivity. Qed.

Lemma tail_len : zlen tail = 4 + 2 * (1 + zlen (cipher_suites profile)) + 2 + zlen (exts_bytes exts).
Proof. unfold hello_tail. rewrite !zlen_app, !zlen_be_bytes, u16s_len. len_solve. Qed.

Definition hello_len : Z := zlen (be_bytes 2 0x0303 ++ random ++ [0x20] ++ session_id ++ tail).

Lemma message_eq : message = hello_head hello_len random ++ 0x20 :: session_id ++ tail.
Proof. unfold hello_message, hello_head. fold hello_len. rewrite <- !app_assoc. done. Qed.

Lemma message_len : zlen message = 71 + zlen tail.
Proof. rewrite message_eq, zlen_app, head_len, zlen_cons, zlen_app, Hs. lia. Qed.

Lemma exts_small : zlen (exts_bytes exts) + 79 + 2 * zlen (cipher_suites profile) < 65536.
Proof. unfold is_u in Hfit. rewrite message_len, tail_len in Hfit. lia. Qed.

Lemma data_small t : t ∈ extensions profile -> zlen (data_of t) < 65536 - 4.
Proof.
  intros Hin. assert (He : (t, data_of t) ∈ exts).
  { apply elem_of_app. left. unfold exts_of. apply list_elem_of_fmap. by exists t. }
  apply exts_bytes_in in He. rewrite ext_bytes_len in He. cbn [snd] in He.
  pose proof exts_small. pose proof (zlen_nonneg (cipher_suites profile)). lia.
Qed.

Lemma exts_ok : Forall ext_ok exts.
Proof.
  apply Forall_app. split.
  - unfold exts_of. apply Forall_fmap, Forall_forall. intros t Hin%list_elem_of_In. split; cbn [fst snd].
    + by eapply Forall_forall in Ht; [| by apply list_elem_of_In].
    + pose proof (data_small t Hin). pose proof (zlen_nonneg (data_of t)). unfold is_u. lia.
  - constructor; [| constructor]. split; [by destruct (grease_is_u ge Hge) | done].
Qed.

Lemma data_shares : collect_x25519_auth_keys (data_of 51) = Ok [x25519_pub].
Proof.
  apply collect_built. pose proof (data_small 51 Hk) as H. rewrite ext_data_shares, zlen_app, zlen_be_bytes in H.
  pose proof (zlen_nonneg (shares g x25519_pub secp256r1_pub)). unfold is_u. lia.
Qed.

Lemma data_name : 0 ∈ extensions profile -> parse_sni (data_of 0) = Ok sni.
Proof.
  intros H0. apply parse_sni_built; [| done]. pose proof (data_small 0 H0) as H. rewrite ext_data_name in H. unfold is_u. len_solve.
Qed.

Lemma elem_skip (c t : Z) types : t <> c -> bool_decide (c ∈ t :: types) = bool_decide (c ∈ types).
Proof. intros Hne. apply bool_decide_ext. rewrite elem_of_cons. naive_solver. Qed.

Lemma scan_built types : (forall t, t ∈ types -> t ∈ extensions profile) -> forall k s,
  scan (exts_of profile sni g x25519_pub secp256r1_pub types ++ [(ge, [0; 0])]) k s
  = Ok (if bool_decide (51 ∈ types) then Some x25519_pub else k, if bool_decide (0 ∈ types) then sni else s).
Proof.
  induction types as [| t types IH]; intros Hin k s.
  { cbn [exts_of fmap list_fmap app scan]. destruct (grease_is_u ge Hge) as (_ & H0 & H51 & _).
    rewrite (proj2 (Z.eqb_neq ge 0)), (proj2 (Z.eqb_neq ge 51)) by done. rewrite !bool_decide_eq_false_2 by apply not_elem_of_nil. done. }
  unfold exts_of. cbn [fmap list_fmap app scan].
  assert (IH' := IH ltac:(intros; apply Hin; by right)). unfold exts_of in IH'.
  destruct (Z.eqb_spec t 0) as [-> | Hn0].
  - rewrite data_name by (apply Hin; by left). cbn [mbind res_bind]. rewrite IH', (bool_decide_eq_true_2 (0 ∈ 0 :: types)), (elem_skip 51) by (done || left).
    by destruct (bool_decide (0 ∈ types)).
  - destruct (Z.eqb_spec t 51) as [-> | Hn51].
    + unfold first_x25519_key_share. rewrite data_shares. cbn [mbind res_bind head].
      rewrite IH', (bool_decide_eq_true_2 (51 ∈ 51 :: types)), (elem_skip 0) by (done || left). by destruct (bool_decide (51 ∈ types)).
    + by rewrite IH', !elem_skip.
Qed.

(** Where the cipher suites, the compression methods and the extensions are. *)
Definition ciphers_len : Z := (1 + zlen (cipher_suites profile)) * 2.

Lemma message_facts :
  zlen message = 77 + ciphers_len + zlen (exts_bytes exts)
  /\ idx (E:=ProxyError) message 0 = Ok 1 /\ idx (E:=ProxyError) message 38 = Ok 32
  /\ slice (E:=ProxyError) message 6 38 = Ok random /\ slice (E:=ProxyError) message 39 71 = Ok session_id
  /\ u16_at message 71 = Ok ciphers_len /\ slice (E:=ProxyError) message 73 (73 + ciphers_len) = Ok (u16s (g :: cipher_suites profile))
  /\ idx (E:=ProxyError) message (73 + ciphers_len) = Ok 1 /\ u16_at message (75 + ciphers_len) = Ok (zlen (exts_bytes exts)).
Proof.
  pose proof exts_small as Hsm. pose proof (zlen_nonneg (exts_bytes exts)) as H0. pose proof (zlen_nonneg (cipher_suites profile)) as H1.
  assert (Hc : zlen (u16s (g :: cipher_suites profile)) = ciphers_len) by (rewrite u16s_len, zlen_cons; unfold ciphers_len; lia).
  set (cs := u16s (g :: cipher_suites profile)) in *.
  assert (Em : message = hello_head hello_len random ++ 0x20 :: session_id ++ be_bytes 2 ciphers_len ++ cs ++ [1; 0]
    ++ be_bytes 2 (zlen (exts_bytes exts)) ++ exts_bytes exts) by apply message_eq.
  pose proof (head_len hello_len) as Hh. set (h := hello_head hello_len random) in *.
  assert (Hl : zlen message = 77 + ciphers_len + zlen (exts_bytes exts)) by (rewrite Em; len_solve).
  split; [done |]. rewrite Em. split_and!.
  - done.
  - by apply idx_app_mid.
  - unfold h, hello_head. rewrite <- !app_assoc. eapply (slice_split _ (put_u24 [1] hello_len ++ be_bytes 2 771) random); [by rewrite <- !app_assoc | |].
    + unfold put_u24. len_solve.
    + unfold put_u24. len_solve.
  - eapply (slice_split _ (h ++ [0x20]) session_id); [by rewrite <- !app_assoc | len_solve..].
  - eapply (u16_at_ok _ (h ++ 0x20 :: session_id) ciphers_len); [by rewrite <- !app_assoc | len_solve | unfold is_u, ciphers_len; lia].
  - eapply (slice_split _ (h ++ 0x20 :: session_id ++ be_bytes 2 ciphers_len) cs); [rewrite <- !app_assoc; cbn [app]; by rewrite <- !app_assoc | len_solve..].
  - match goal with |- idx ?m _ = _ => replace m with ((h ++ 0x20 :: session_id ++ be_bytes 2 ciphers_len ++ cs) ++ 1 :: 0 :: be_bytes 2 (zlen (exts_bytes exts)) ++ exts_bytes exts)
      by (rewrite <- !app_assoc; cbn [app]; by rewrite <- !app_assoc) end. apply idx_app_mid. len_solve.
  - eapply (u16_at_ok _ (h ++ 0x20 :: session_id ++ be_bytes 2 ciphers_len ++ cs ++ [1; 0]) (zlen (exts_bytes exts)));
      [rewrite <- !app_assoc; cbn [app]; by rewrite <- !app_assoc | len_solve | unfold is_u; lia].
Qed.

(** The extensions end the message. *)
Lemma message_exts : exists pre, message = pre ++ exts_bytes exts /\ zlen pre = 77 + ciphers_len.
Proof.
  destruct message_facts as (Hl & _). rewrite message_eq in *. unfold hello_tail in *.
  eexists. split; [rewrite !app_comm_cons, !app_assoc; reflexivity |]. revert Hl. rewrite !app_comm_cons, !app_assoc, zlen_app. lia.
Qed.

Lemma exts_fuel : (length exts <= length message)%nat.
Proof. destruct message_exts as (pre & -> & _). rewrite length_app. pose proof (exts_bytes_fuel exts). lia. Qed.

Lemma parse_built : parse_client_hello message = Ok (mkFields random session_id x25519_pub (if bool_decide (0 ∈ extensions profile) then sni else [])).
Proof.
  destruct message_facts as (Hl & H1 & H2 & H3 & H4 & H5 & _ & H7 & H8). destruct message_exts as (pre & Em & Hp).
  pose proof (zlen_nonneg (exts_bytes exts)). assert (0 <= ciphers_len) by (unfold ciphers_len; pose proof (zlen_nonneg (cipher_suites profile)); lia).
  unfold parse_client_hello, skip_cipher_suites, skip_compression_methods. rewrite (proj2 (Z.ltb_ge _ _)) by lia.
  rewrite H1, H2, H3, H4, H5. cbn [mbind res_bind negb Z.eqb Pos.eqb]. rewrite !Z.gtb_ltb, !(proj2 (Z.ltb_ge (zlen message) _)) by lia.
  cbn [mbind res_bind]. replace (71 + (2 + ciphers_len)) with (73 + ciphers_len) by lia. rewrite H7, Z.geb_leb, (proj2 (Z.leb_gt _ _)) by lia.
  cbn [mbind res_bind]. rewrite Z.gtb_ltb, (proj2 (Z.ltb_ge (zlen message) _)) by lia. cbn [mbind res_bind].
  rewrite Z.gtb_ltb, (proj2 (Z.ltb_ge (zlen message) _)) by lia. pose proof exts_fuel as Hf.
  rewrite Em in Hf |- *. rewrite (extension_loop_scan exts exts_ok) by (done || lia). unfold all_exts. rewrite scan_built by done.
  rewrite bool_decide_eq_true_2 by done. done.
Qed.

Lemma peer_keys_built : reality_auth_peer_public_keys message = Ok [x25519_pub].
Proof.
  destruct message_facts as (Hl & H1 & H2 & _ & _ & H5 & _ & H7 & H8). destruct message_exts as (pre & Em & Hp).
  pose proof (zlen_nonneg (exts_bytes exts)). assert (0 <= ciphers_len) by (unfold ciphers_len; pose proof (zlen_nonneg (cipher_suites profile)); lia).
  unfold reality_auth_peer_public_keys, key_share_extension_data, CLIENT_HELLO_SESSION_ID_LEN_OFFSET. rewrite (proj2 (Z.ltb_ge _ _)) by lia.
  rewrite H1, H2. cbn [mbind res_bind negb Z.eqb Pos.eqb]. change (38 + 1 + 32) with 71. rewrite H5, !Z.gtb_ltb, (proj2 (Z.ltb_ge (zlen message) _)) by lia.
  cbn [mbind res_bind]. replace (71 + (2 + ciphers_len)) with (73 + ciphers_len) by lia. rewrite H7, Z.geb_leb, (proj2 (Z.leb_gt _ _)) by lia.
  cbn [mbind res_bind]. replace (73 + ciphers_len + (1 + 1)) with (75 + ciphers_len) by lia. rewrite Z.gtb_ltb, (proj2 (Z.ltb_ge (zlen message) _)) by lia.
  rewrite H8. cbn [mbind res_bind]. rewrite Z.min_r by lia. pose proof exts_fuel as Hf. rewrite Em in Hf |- *.
  rewrite (key_share_loop_scan exts exts_ok _ _ _ (data_of 51)); [cbn [mbind res_bind]; apply data_shares | lia | done | |].
  - apply elem_of_app. left. unfold exts_of. apply list_elem_of_fmap. by exists 51.
  - intros d [Hin | Hin]%elem_of_app.
    + unfold exts_of in Hin. apply list_elem_of_fmap in Hin as (t & [= <- ->] & _). done.
    + apply list_elem_of_singleton in Hin as [= E _]. by destruct (grease_is_u ge Hge) as (_ & _ & H51 & _).
Qed.

Lemma session_id_built : client_hello_session_id message = Ok session_id.
Proof.
  destruct message_facts as (Hl & _ & H2 & _ & H4 & _). pose proof (zlen_nonneg (exts_bytes exts)).
  assert (0 <= ciphers_len) by (unfold ciphers_len; pose proof (zlen_nonneg (cipher_suites profile)); lia).
  unfold client_hello_session_id, CLIENT_HELLO_SESSION_ID_LEN_OFFSET. rewrite (proj2 (Z.ltb_ge _ _)) by lia. rewrite H2. cbn [mbind res_bind].
  by rewrite Z.gtb_ltb, (proj2 (Z.ltb_ge (zlen message) _)) by lia.
Qed.

Lemma cipher_suites_built : client_hello_cipher_suites message = Ok (u16s (g :: cipher_suites profile)).
Proof.
  destruct message_facts as (Hl & _ & H2 & _ & _ & H5 & H6 & _). pose proof (zlen_nonneg (exts_bytes exts)).
  assert (0 <= ciphers_len) by (unfold ciphers_len; pose proof (zlen_nonneg (cipher_suites profile)); lia).
  unfold client_hello_cipher_suites, CLIENT_HELLO_SESSION_ID_LEN_OFFSET. rewrite (proj2 (Z.ltb_ge _ _)) by lia. rewrite H2. cbn [mbind res_bind].
  rewrite Z.gtb_ltb, (proj2 (Z.ltb_ge (zlen message) _)) by lia. change (38 + 1 + 32) with 71. rewrite H5. cbn [mbind res_bind].
  by rewrite Z.gtb_ltb, (proj2 (Z.ltb_ge (zlen message) _)) by lia.
Qed.

End roundtrip.

(** A draw of the generator gives a GREASE value. *)
Lemma grease_draw d : 0 <= d < 16 -> exists v, grease_u16 d = Ok v /\ v ∈ GREASE_VALUES_U16.
Proof. intros Hd. apply idx_in_range. exact Hd. Qed.

(** The record the builder makes: its header and the message. *)
Definition hello_record (message : bytes) : bytes := [0x16; 0x03; 0x01] ++ be_bytes 2 (zlen message) ++ message.

Lemma build_record profile sni random session_id key secp dc de generated g ge :
  grease_u16 dc = Ok g -> grease_u16 de = Ok ge ->
  build_with_additional_key_share profile sni random session_id key secp dc de generated
  = Ok (hello_record (hello_message profile sni g (match key with Some k => k | None => generated end) secp random session_id ge)).
Proof.
  intros Hg Hge. unfold build_with_additional_key_share. rewrite Hg, Hge. cbn [mbind res_bind]. rewrite build_body_eq.
  unfold put_u16, hello_record, hello_message. by rewrite <- app_assoc.
Qed.

(** The session id is at its place in the record, whatever it is. *)
Lemma set_session_id profile sni g key secp random sid sid' ge :
  zlen random = 32 -> zlen sid = 32 -> zlen sid' = 32 ->
  put_at (E:=ProxyError) (hello_record (hello_message profile sni g key secp random sid ge)) 44 sid'
  = Ok (hello_record (hello_message profile sni g key secp random sid' ge)).
Proof.
  intros Hr Hs Hs'.
  assert (Hb : forall s, zlen s = 32 -> zlen (be_bytes 2 0x0303 ++ random ++ [0x20] ++ s ++ hello_tail profile sni g key secp ge)
    = 67 + zlen (hello_tail profile sni g key secp ge)) by (intros; len_solve).
  unfold hello_record, hello_message, put_u24. rewrite !Hb by done. cbv zeta. rewrite !zlen_app, !zlen_be_bytes, Hr, Hs, Hs'.
  set (n := 67 + _). set (len := zlen [1] + _ + _).
  erewrite (put_at_ok _ ([0x16; 3; 1] ++ be_bytes 2 len ++ ([1] ++ [wrap 8 (Z.shiftr n 16); wrap 8 (Z.shiftr n 8); wrap 8 n]) ++ be_bytes 2 0x0303 ++ random ++ [0x20])
    sid (hello_tail profile sni g key secp ge) sid'); [| by rewrite <- !app_assoc | len_solve | unfold zlen in *; lia].
  by rewrite <- !app_assoc.
Qed.

(** The same in the body of the record. *)
Lemma set_message_id profile sni g key secp random sid sid' ge :
  zlen random = 32 -> zlen sid = 32 -> zlen sid' = 32 ->
  put_at (E:=ProxyError) (hello_message profile sni g key secp random sid ge) 39 sid' = Ok (hello_message profile sni g key secp random sid' ge).
Proof.
  intros Hr Hs Hs'.
  assert (Hb : forall s, zlen s = 32 -> zlen (be_bytes 2 0x0303 ++ random ++ [0x20] ++ s ++ hello_tail profile sni g key secp ge)
    = 67 + zlen (hello_tail profile sni g key secp ge)) by (intros; len_solve).
  unfold hello_message, put_u24. rewrite !Hb by done. cbv zeta. set (n := 67 + _).
  erewrite (put_at_ok _ (([1] ++ [wrap 8 (Z.shiftr n 16); wrap 8 (Z.shiftr n 8); wrap 8 n]) ++ be_bytes 2 0x0303 ++ random ++ [0x20])
    sid (hello_tail profile sni g key secp ge) sid'); [| by rewrite <- !app_assoc | len_solve | unfold zlen in *; lia].
  by rewrite <- !app_assoc.
Qed.

(** The size of the message with the profile the REALITY client uses. *)
Lemma chrome_len sni g key secp random sid ge :
  zlen key = 32 -> zlen random = 32 -> zlen sid = 32 ->
  zlen (hello_message chrome_131 sni g key (Some secp) random sid ge) = 292 + zlen sni + zlen secp.
Proof.
  intros Hk Hr Hs. rewrite message_len, tail_len by done. unfold exts_bytes, all_exts, exts_of.
  cbn [chrome_131 extensions fmap list_fmap app concat]. rewrite !zlen_app, !ext_bytes_len. cbn [snd]. rewrite ext_data_name, ext_data_shares.
  unfold shares. autorewrite with zlen. rewrite Hk.
  repeat match goal with |- context [zlen (ext_data ?p ?s ?g ?k ?x ?t)] =>
    let n := eval vm_compute in (zlen (ext_data p [] 0 [] None t)) in replace (zlen (ext_data p s g k x t)) with n by (unfold ext_data, add_extension; cbn; reflexivity) end.
  cbn [chrome_131 cipher_suites]. change (zlen [_; _; _; _; _; _; _; _; _; _; _; _; _; _; _]) with 15. lia.
Qed.

(** The ClientHello parser of the REALITY server on bytes of a stranger: none of its functions panics
    or runs without end; what it takes for the random bytes and the session id is at the places where
    the authentication expects them, and every key it gives has 32 bytes. *)
Theorem client_hello_parser_safe (body : bytes) :
  bytes_ok body ->
  safely (parse_client_hello body) (fun f => f_random f = take 32 (drop 6 body) /\ f_session_id f = take 32 (drop 39 body)
    /\ zlen (f_x25519_key_share f) = 32 /\ 71 <= zlen body)
  /\ safely (reality_auth_peer_public_keys body) (Forall (fun k => zlen k = 32))
  /\ safely (client_hello_session_id body) (fun s => zlen s <= 255)
  /\ safely (client_hello_cipher_suites body) bytes_ok.
Proof.
  intros Hb. split_and!; [by apply parse_client_hello_safe | by apply peer_keys_safe | by apply session_id_safe | by apply cipher_suites_safe].
Qed.

Lemma client_hello_parser_safe_witness : safely (parse_client_hello (replicate 80 1)) (fun f => zlen (f_x25519_key_share f) = 32).
Proof.
  pose proof (proj1 (client_hello_parser_safe (replicate 80 1) ltac:(decided))) as H.
  destruct (parse_client_hello (replicate 80 1)); cbn in *; [by destruct H as (_ & _ & ? & _) | done..].
Defined.

(** The ClientHello builder and the parser agree, for every profile that lists the key share and every
    random choice: the record has its length in its header, and the parser finds in its body the random
    bytes, the session id, the X25519 key and, if the profile lists it, the server name that were put
    in; the key for the authentication is this one alone, and the cipher suites are the GREASE value
    and those of the profile. *)
Theorem client_hello_roundtrip (profile : FingerprintProfile) (sni random session_id key generated : bytes)
    (secp : option bytes) (dc de : Z) :
  0 <= dc < 16 -> 0 <= de < 16 -> zlen random = 32 -> zlen session_id = 32 -> zlen key = 32 -> utf8_valid sni = true ->
  0x0033 ∈ extensions profile -> Forall (is_u 16) (extensions profile) ->
  exists message g, build_with_additional_key_share profile sni random session_id (Some key) secp dc de generated = Ok (hello_record message)
    /\ grease_u16 dc = Ok g
    /\ (zlen message < 65536 ->
        be_val (take 2 (drop 3 (hello_record message))) = zlen message
        /\ parse_client_hello message = Ok (mkFields random session_id key (if bool_decide (0x0000 ∈ extensions profile) then sni else []))
        /\ reality_auth_peer_public_keys message = Ok [key]
        /\ client_hello_session_id message = Ok session_id
        /\ client_hello_cipher_suites message = Ok (u16s (g :: cipher_suites profile))).
Proof.
  intros Hdc Hde Hr Hs Hk Hu H51 Ht. destruct (grease_draw dc Hdc) as (g & Eg & Hg), (grease_draw de Hde) as (ge & Ege & Hge).
  eexists _, g. split; [by apply build_record | split; [done |]]. intros Hfit.
  pose proof (conj (zlen_nonneg _) Hfit : is_u 16 (zlen (hello_message profile sni g key secp random session_id ge))) as Hf.
  split_and!; [| by apply parse_built | by apply peer_keys_built | by apply session_id_built | by apply cipher_suites_built].
  set (m := hello_message _ _ _ _ _ _ _ _) in *. change (drop 3 (hello_record m)) with (be_bytes 2 (zlen m) ++ m).
  rewrite (take_app_length' (be_bytes 2 (zlen m)) m 2) by (by rewrite length_be_bytes). by apply be_val_be_bytes.
Qed.

Lemma client_hello_roundtrip_witness :
  exists message, build_with_additional_key_share chrome_131 (lit "a.b") (replicate 32 7) (replicate 32 9) (Some (replicate 32 5)) None 3 4 [] = Ok (hello_record message)
    /\ parse_client_hello message = Ok (mkFields (replicate 32 7) (replicate 32 9) (replicate 32 5) (lit "a.b")).
Proof.
  destruct (client_hello_roundtrip chrome_131 (lit "a.b") (replicate 32 7) (replicate 32 9) (replicate 32 5) [] None 3 4
    ltac:(lia) ltac:(lia) eq_refl eq_refl eq_refl eq_refl ltac:(decided) ltac:(decided)) as (m & g & E & _ & H).
  exists m. split; [exact E |]. apply H.
  assert (Hz : match build_with_additional_key_share chrome_131 (lit "a.b") (replicate 32 7) (replicate 32 9) (Some (replicate 32 5)) None 3 4 [] with
               | Ok h => zlen h <? 1000 | _ => false end = true) by (vm_compute; reflexivity).
  rewrite E in Hz. apply Z.ltb_lt in Hz. unfold hello_record in Hz. len_solve.
Defined.
