(* ===== verification/Reality.v ===== *)
(** REALITY authentication ([reality/client.rs] up to the TLS handshake, [reality/server.rs]): the token in
    the session id of a ClientHello, its check by the server, and the connection to the cover site of
    everybody else.

    X25519, HKDF-SHA256 and AES-256-GCM are parameters.  The clock is read once per authentication; random
    bytes and the ephemeral secret are arguments. *)

From stdpp Require Import base list strings numbers.
From S2P Require Import Prelude Address Streams Chunks Crypto Boxed ClientHello.

(** [StaticSecret]/[PublicKey] of x25519-dalek, [Hkdf<Sha256>] (salt, key material, info and length), and
    [Aes256Gcm]. *)
Record RealityPrims := mkRealityPrims {
  rp_public : bytes -> bytes;
  rp_dh : bytes -> bytes -> bytes;
  rp_hkdf : bytes -> bytes -> bytes -> Z -> option bytes;
  rp_gcm : Aead;
}.

(** Both sides of a key exchange get the same secret; expansion fails only beyond 255 blocks. *)
Class RealityLaws (p : RealityPrims) := {
  rl_gcm :: AeadLaws (rp_gcm p);
  dh_agrees : forall a b, rp_dh p a (rp_public p b) = rp_dh p b (rp_public p a);
  dh_len : forall a b, zlen (rp_dh p a b) = 32;
  public_len : forall a, zlen (rp_public p a) = 32;
  hkdf_ok : forall salt ikm info n, 0 <= n <= 255 * 32 -> exists k, rp_hkdf p salt ikm info n = Some k /\ zlen k = n;
}.

Definition REALITY_HKDF_INFO : bytes := lit "REALITY".
Definition REALITY_TOKEN_PLAINTEXT_LEN : Z := 16.
Definition MAX_TIME_DIFF_SECS : Z := 120.
Definition SESSION_ID_OFFSET_IN_HANDSHAKE_BODY : Z := 39.

(** [output.try_into()] to an array of 32 bytes. *)
Definition into_32 (output : bytes) (e : ProxyError) : res ProxyError bytes := if zlen output =? 32 then Ok output else Err e.

Section reality.
Context (prim : RealityPrims).

(** * The client *)

Record RealityClientConfig := mkClientConfig {
  cc_server_public_key : bytes;
  cc_short_id : bytes;
  cc_sni : bytes;
}.

(** [derive_auth_key] of the client: [random] are the bytes it draws. *)
Definition client_auth_key (shared_secret random : bytes) : res ProxyError bytes :=
  ok_or (rp_hkdf prim (take 20 random) shared_secret REALITY_HKDF_INFO 32) (Protocol "HKDF expand failed").

(** The plaintext of the token, at the Unix time [now]. *)
Definition reality_token (short_id : bytes) (now : Z) : bytes :=
  let sid := take 8 short_id in
  replicate 4 0 ++ be_bytes 4 (wrap 32 now) ++ sid ++ replicate (8 - length sid) 0.

Definition encrypt_reality_token (short_id random auth_key aad : bytes) (now : Z) : res ProxyError bytes :=
  into_32 (seal (rp_gcm prim) auth_key (drop 20 random) aad (reality_token short_id now)) (Protocol "REALITY token encryption length mismatch").

(** What [dial] sends, with the key it derives: [secret] is the ephemeral X25519 secret, [secp] the public
    P-256 key, [dc] and [de] the draws of the builder. *)
Definition dial_hello (cfg : RealityClientConfig) (secret secp random : bytes) (dc de now : Z) : res ProxyError (bytes * bytes) :=
  let shared_secret := rp_dh prim secret (cc_server_public_key cfg) in
  auth_key ← client_auth_key shared_secret random;
  hello ← build_with_additional_key_share chrome_131 (cc_sni cfg) random (replicate 32 0) (Some (rp_public prim secret)) (Some secp) dc de [];
  aad ← slice_from hello 5;
  token ← encrypt_reality_token (cc_short_id cfg) random auth_key aad now;
  final_hello ← put_at hello (5 + SESSION_ID_OFFSET_IN_HANDSHAKE_BODY) token;
  Ok (final_hello, auth_key).

(** * The server *)

Record RealityServerConfig := mkServerConfig {
  sc_private_key : bytes;
  sc_short_ids : list bytes;
  sc_fallback : SocketAddr;
  sc_max_time_diff : Z;
}.

(** [RealityServer::new]. *)
Definition server_new (cfg : RealityServerConfig) : RealityServerConfig :=
  if sc_max_time_diff cfg <=? 0 then mkServerConfig (sc_private_key cfg) (sc_short_ids cfg) (sc_fallback cfg) MAX_TIME_DIFF_SECS
  else cfg.

Definition derive_reality_auth_key (private_key peer_pub client_random : bytes) : res ProxyError bytes :=
  let shared_secret := rp_dh prim private_key peer_pub in
  ok_or (rp_hkdf prim (take 20 client_random) shared_secret REALITY_HKDF_INFO 32) (Protocol "HKDF expand failed").

(** [Iterator::rposition]: the last index of an element with the property. *)
Fixpoint rposition (p : Z -> bool) (l : bytes) : option nat :=
  match l with
  | [] => None
  | b :: l =>
      match rposition p l with
      | Some i => Some (S i)
      | None => if p b then Some 0%nat else None
      end
  end.

Definition strip_zero_padding (short_id : bytes) : bytes :=
  let last_nonzero := match rposition (fun b => negb (b =? 0)) short_id with Some i => S i | None => 0%nat end in
  take last_nonzero short_id.

Definition validate_reality_token (plaintext : bytes) (allowed_short_ids : list bytes) (max_time_diff now : Z) : res ProxyError unit :=
  if zlen plaintext <? 16 then Err (Protocol "decrypted token too short")
  else
    ts ← slice plaintext 4 8;
    short_id ← slice plaintext 8 16;
    let diff := Z.abs (now - be_val ts) in
    if diff >? max_time_diff then Err (Protocol "timestamp skew too large")
    else
      let effective_short_id := strip_zero_padding short_id in
      if existsb (bytes_eqb effective_short_id) allowed_short_ids then Ok ()
      else Err (Protocol "short_id not in allowed list").

Definition xray_zeroed_session_id_aad (handshake_body : bytes) : res ProxyError bytes :=
  if zlen handshake_body <? SESSION_ID_OFFSET_IN_HANDSHAKE_BODY + 32 then Err (Protocol "handshake body too short to contain session_id")
  else put_at handshake_body SESSION_ID_OFFSET_IN_HANDSHAKE_BODY (replicate 32 0).

Definition xray_plaintext_session_id_aad (handshake_body plaintext16 : bytes) : res ProxyError bytes :=
  if zlen handshake_body <? SESSION_ID_OFFSET_IN_HANDSHAKE_BODY + 32 then Err (Protocol "handshake body too short to contain session_id")
  else if negb (zlen plaintext16 =? 16) then Err (Protocol "REALITY token plaintext must be 16 bytes")
  else
    aad ← put_at handshake_body SESSION_ID_OFFSET_IN_HANDSHAKE_BODY plaintext16;
    put_at aad (SESSION_ID_OFFSET_IN_HANDSHAKE_BODY + 16) (replicate 16 0).

Definition decrypt_reality_session_id (fields : ClientHelloFields) (auth_key aad : bytes) : res ProxyError bytes :=
  ok_or (open (rp_gcm prim) auth_key (drop 20 (f_random fields)) aad (f_session_id fields)) (Protocol "AES-256-GCM decryption failed (bad client?)").

Definition encrypt_session_id (fields : ClientHelloFields) (auth_key aad plaintext16 : bytes) : res ProxyError bytes :=
  into_32 (seal (rp_gcm prim) auth_key (drop 20 (f_random fields)) aad plaintext16) (Protocol "REALITY token encryption length mismatch").

Definition reality_auth_roundtrip_matches (fields : ClientHelloFields) (auth_key aad plaintext : bytes) : bool :=
  if zlen plaintext <? 16 then false
  else
    match encrypt_session_id fields auth_key aad (take 16 plaintext) with
    | Ok enc => bytes_eqb enc (f_session_id fields)
    | _ => false
    end.

(** [None] when a check fails ([.ok()?]). *)
Definition decrypt_and_validate_reality_token (fields : ClientHelloFields) (auth_key aad : bytes) (short_ids : list bytes) (max_time_diff now : Z)
  : res ProxyError (option bytes) :=
  match decrypt_reality_session_id fields auth_key aad with
  | Ok plaintext =>
      match validate_reality_token plaintext short_ids max_time_diff now with
      | Ok _ => if reality_auth_roundtrip_matches fields auth_key aad plaintext then Ok (Some plaintext) else Ok None
      | Err _ => Ok None
      | Panic => Panic
      | NoFuel => NoFuel
      end
  | Err _ => Ok None
  | Panic => Panic
  | NoFuel => NoFuel
  end.

Definition VERSION_PREFIXES : list (bytes * Z) := [([1; 8; 1], 0); ([26; 3; 27], 0); ([1; 8; 0], 0); ([0; 0; 0], 0)].

Definition candidate_reality_tokens (short_ids : list bytes) (max_time_diff now : Z) : list bytes :=
  let window := Z.max 1 (Z.min max_time_diff 600) in
  short_id ← short_ids;
  let sid := take 8 short_id in
  let sid8 := sid ++ replicate (8 - length sid) 0 in
  '(prefix, p3) ← VERSION_PREFIXES;
  let b3_end := if bytes_eqb prefix [1; 8; 1] then 1 else p3 in
  b3 ← seqZ 0 (b3_end + 1);
  dt ← seqZ (- window) (2 * window + 1);
  [prefix ++ [b3] ++ be_bytes 4 (wrap 32 (now + dt)) ++ sid8].

Definition reality_auth_peer_public_keys_or_fallback (fields : ClientHelloFields) (handshake_body : bytes) : res ProxyError (list bytes) :=
  peer_keys ← reality_auth_peer_public_keys handshake_body;
  Ok (match peer_keys with [] => [f_x25519_key_share fields] | _ => peer_keys end).

Section derive.
Context (cfg : RealityServerConfig) (fields : ClientHelloFields) (handshake_body : bytes) (now : Z).

(** Whether the session id holds a valid token under one of the associated data. *)
Fixpoint try_aads (auth_key : bytes) (aads : list bytes) : res ProxyError bool :=
  match aads with
  | [] => Ok false
  | aad :: aads =>
      token ← decrypt_and_validate_reality_token fields auth_key aad (sc_short_ids cfg) (sc_max_time_diff cfg) now;
      match token with Some _ => Ok true | None => try_aads auth_key aads end
  end.

Fixpoint try_candidates (auth_key : bytes) (candidates : list bytes) : res ProxyError bool :=
  match candidates with
  | [] => Ok false
  | plaintext16 :: candidates =>
      match xray_plaintext_session_id_aad handshake_body plaintext16 with
      | Ok seal_aad =>
          token ← decrypt_and_validate_reality_token fields auth_key seal_aad (sc_short_ids cfg) (sc_max_time_diff cfg) now;
          match token with Some _ => Ok true | None => try_candidates auth_key candidates end
      | Err _ => try_candidates auth_key candidates
      | Panic => Panic
      | NoFuel => NoFuel
      end
  end.

(** The loop over the keys of the client. *)
Fixpoint try_peers (zeroed_aad : bytes) (peer_keys : list bytes) : res ProxyError bytes :=
  match peer_keys with
  | [] => Err (Protocol "REALITY authentication failed")
  | peer_pub :: peer_keys =>
      match derive_reality_auth_key (sc_private_key cfg) peer_pub (f_random fields) with
      | Ok auth_key =>
          found ← try_aads auth_key [zeroed_aad; handshake_body];
          if found : bool then Ok auth_key
          else
            found ← try_candidates auth_key (candidate_reality_tokens (sc_short_ids cfg) (sc_max_time_diff cfg) now);
            if found : bool then Ok auth_key else try_peers zeroed_aad peer_keys
      | Err _ => try_peers zeroed_aad peer_keys
      | Panic => Panic
      | NoFuel => NoFuel
      end
  end.

(** [derive_auth_key] of the server. *)
Definition server_auth_key : res ProxyError bytes :=
  peer_keys ← reality_auth_peer_public_keys_or_fallback fields handshake_body;
  zeroed_aad ← xray_zeroed_session_id_aad handshake_body;
  try_peers zeroed_aad peer_keys.

End derive.

Inductive ReplayMode := PrependClientHello | ConsumeClientHello.

(** What [accept_inner] comes to: the stream for the next protocol with the key, the cover site that
    gets the stream with the bytes put back in front of it ([FallbackRequired] to the caller), or an error. *)
Inductive RealityOutcome :=
| Authenticated (stream : PrependedStream bytes) (auth_key : bytes)
| ToCover (addr : SocketAddr) (stream : PrependedStream bytes)
| Closed (e : ProxyError).

(** The connection to the cover site can be made and takes the bytes put back, or not. *)
Inductive CoverIo := CoverUp | CoverRefused | CoverBroken.

Definition join_record (record_header handshake_body : bytes) : bytes := record_header ++ handshake_body.

Definition reality_fallback (cfg : RealityServerConfig) (io : CoverIo) (rest already_read : bytes) : RealityOutcome :=
  match io with
  | CoverUp => ToCover (sc_fallback cfg) (prepended_new rest already_read)
  | CoverRefused => Closed (Transport "fallback connect")
  | CoverBroken => Closed (Io BrokenPipe)
  end.

(** What follows a complete record. *)
Definition accept_hello (cfg : RealityServerConfig) (mode : ReplayMode) (io : CoverIo) (now : Z) (record_header handshake_body rest : bytes)
  : res ProxyError RealityOutcome :=
  let all_bytes := join_record record_header handshake_body in
  match parse_client_hello handshake_body with
  | Ok fields =>
      match server_auth_key cfg fields handshake_body now with
      | Ok auth_key =>
          Ok (Authenticated
                (match mode with
                 | PrependClientHello => prepended_new rest all_bytes
                 | ConsumeClientHello => prepended_new rest []
                 end) auth_key)
      | Err _ => Ok (reality_fallback cfg io rest all_bytes)
      | Panic => Panic
      | NoFuel => NoFuel
      end
  | Err _ => Ok (reality_fallback cfg io rest all_bytes)
  | Panic => Panic
  | NoFuel => NoFuel
  end.

(** [input] are all the bytes of the client; [late_header] and [late_body] tell that the time ran out in
    the read of the record header and of its body.  A stream that is handed on as it is has nothing in
    front of it. *)
Definition accept_inner (cfg : RealityServerConfig) (mode : ReplayMode) (io : CoverIo) (late_header late_body : bool) (now : Z) (input : bytes)
  : res ProxyError RealityOutcome :=
  match (if late_header then Err Timeout else read_exact 5 input) with
  | Ok (record_header, rest) =>
      kind ← idx record_header 0;
      if negb (kind =? 0x16) then Ok (reality_fallback cfg io rest record_header)
      else
        record_len ← u16_at record_header 3;
        if record_len >? 16384 then Ok (reality_fallback cfg io rest record_header)
        else
          match (if late_body then Err Timeout else read_exact record_len rest) with
          | Ok (handshake_body, rest) => accept_hello cfg mode io now record_header handshake_body rest
          | Err e => Ok (Closed e)
          | Panic => Panic
          | NoFuel => NoFuel
          end
  | Err e => Ok (Closed e)
  | Panic => Panic
  | NoFuel => NoFuel
  end.

(** * The client is recognised *)

Lemma rposition_zeros k l : rposition (fun b => negb (b =? 0)) (l ++ replicate k 0) = rposition (fun b => negb (b =? 0)) l.
Proof.
  induction l as [| b l IH]; cbn [app rposition]; [| by rewrite IH]. induction k as [| k IH]; [done |]. cbn [replicate rposition]. by rewrite IH.
Qed.

Lemma rposition_snoc l b : b <> 0 -> rposition (fun b => negb (b =? 0)) (l ++ [b]) = Some (length l).
Proof.
  intros Hb. induction l as [| a l IH]; cbn [app rposition]; [| by rewrite IH]. by rewrite (proj2 (Z.eqb_neq b 0)).
Qed.

Lemma rposition_lt p l i : rposition p l = Some i -> exists b, l !! i = Some b /\ p b = true.
Proof.
  revert i. induction l as [| b l IH]; intros i; cbn [rposition]; [done |]. destruct (rposition p l) as [j |].
  - intros [= <-]. by apply IH.
  - destruct (p b) eqn:E; intros [= <-]. by exists b.
Qed.

(** A short id that padding makes ambiguous. *)
Definition ends_in_zero (sid : bytes) : bool := match reverse sid with b :: _ => b =? 0 | [] => false end.

Lemma ends_in_zero_snoc l b : ends_in_zero (l ++ [b]) = (b =? 0).
Proof. unfold ends_in_zero. by rewrite reverse_snoc. Qed.

(** Padding is undone unless the id itself ends in a zero. *)
Lemma strip_padded sid k : ends_in_zero sid = false -> strip_zero_padding (sid ++ replicate k 0) = sid.
Proof.
  intros Hl. unfold strip_zero_padding. rewrite rposition_zeros. destruct sid as [| b sid] using rev_ind; [done |].
  rewrite ends_in_zero_snoc in Hl. rewrite rposition_snoc by (by apply Z.eqb_neq). apply take_app_length'. rewrite length_app. simpl. lia.
Qed.

Lemma strip_last l : ends_in_zero (strip_zero_padding l) = false.
Proof.
  unfold strip_zero_padding. destruct (rposition _ l) as [i |] eqn:E; [| done].
  apply rposition_lt in E as (b & Hb & Hz). rewrite (take_S_r _ _ _ Hb), ends_in_zero_snoc. by apply negb_true_iff.
Qed.

Lemma token_len sid now : zlen (reality_token sid now) = 16.
Proof.
  unfold reality_token, zlen. rewrite !length_app, length_be_bytes, !length_replicate, length_take. lia.
Qed.

Lemma token_parts sid now :
  slice (E:=ProxyError) (reality_token sid now) 4 8 = Ok (be_bytes 4 (wrap 32 now))
  /\ slice (E:=ProxyError) (reality_token sid now) 8 16 = Ok (take 8 sid ++ replicate (8 - length (take 8 sid)) 0).
Proof.
  unfold reality_token. split.
  - eapply (slice_split _ (replicate 4 0)); [done | done | by rewrite zlen_be_bytes].
  - eapply (slice_split _ (replicate 4 0 ++ be_bytes 4 (wrap 32 now)) _ []); [by rewrite app_nil_r, <- !app_assoc | by rewrite zlen_app, zlen_be_bytes |].
    rewrite !zlen_app, zlen_be_bytes. unfold zlen. rewrite !length_replicate, length_take. lia.
Qed.

Lemma validate_token sid ids max_diff now_c now_s :
  zlen sid <= 8 -> ends_in_zero sid = false -> sid ∈ ids -> 0 <= now_c < 2 ^ 32 -> Z.abs (now_s - now_c) <= max_diff ->
  validate_reality_token (reality_token sid now_c) ids max_diff now_s = Ok ().
Proof.
  intros Hl Hz Hin Hc Hd. unfold validate_reality_token. rewrite token_len. destruct (token_parts sid now_c) as [-> ->]. cbn [mbind res_bind Z.ltb Z.compare Pos.compare Pos.compare_cont].
  assert (Hw : wrap 32 now_c = now_c) by (unfold wrap; by apply Z.mod_small).
  rewrite Hw, be_val_be_bytes by done. rewrite Z.gtb_ltb, (proj2 (Z.ltb_ge _ _)) by done.
  rewrite (take_ge sid) by (unfold zlen in Hl; lia). rewrite strip_padded by done.
  assert (existsb (bytes_eqb sid) ids = true) as ->; [| done].
  apply existsb_exists. exists sid. split; [by apply list_elem_of_In |]. unfold bytes_eqb. by rewrite bool_decide_eq_true_2.
Qed.

Context `{!RealityLaws prim}.

Lemma into_32_seal k n aad m e : zlen m = 16 -> into_32 (seal (rp_gcm prim) k n aad m) e = Ok (seal (rp_gcm prim) k n aad m).
Proof. intros Hm. unfold into_32. by rewrite seal_len, Hm. Qed.

(** The server opens and accepts what the client sealed under the same key and data. *)
Lemma token_accepted sid random key aad ids max_diff now_c now_s fields token :
  zlen sid <= 8 -> ends_in_zero sid = false -> sid ∈ ids -> 0 <= now_c < 2 ^ 32 -> Z.abs (now_s - now_c) <= max_diff ->
  encrypt_reality_token sid random key aad now_c = Ok token -> f_random fields = random -> f_session_id fields = token ->
  zlen token = 32 /\ decrypt_and_validate_reality_token fields key aad ids max_diff now_s = Ok (Some (reality_token sid now_c)).
Proof.
  intros Hl Hz Hin Hc Hd. unfold encrypt_reality_token. rewrite into_32_seal by apply token_len. intros [= <-] Hr Hs.
  split; [by rewrite seal_len, token_len |].
  unfold decrypt_and_validate_reality_token, decrypt_reality_session_id. rewrite Hr, Hs, open_seal. cbn [ok_or].
  rewrite (validate_token sid ids max_diff now_c now_s) by done.
  unfold reality_auth_roundtrip_matches, encrypt_session_id. rewrite token_len. cbn [Z.ltb Z.compare Pos.compare Pos.compare_cont].
  rewrite (take_ge (reality_token sid now_c)) by (pose proof (token_len sid now_c); unfold zlen in *; lia).
  rewrite into_32_seal, Hr, Hs by apply token_len. unfold bytes_eqb. by rewrite bool_decide_eq_true_2.
Qed.

Lemma derived secret private random :
  exists key, client_auth_key (rp_dh prim secret (rp_public prim private)) random = Ok key
    /\ derive_reality_auth_key private (rp_public prim secret) random = Ok key /\ zlen key = 32.
Proof.
  unfold client_auth_key, derive_reality_auth_key. rewrite (dh_agrees private secret).
  destruct (hkdf_ok (take 20 random) (rp_dh prim secret (rp_public prim private)) REALITY_HKDF_INFO 32 ltac:(lia)) as (k & -> & Hk). by exists k.
Qed.

(** The record of a client, as the server reads it. *)
Lemma record_read (message rest : bytes) :
  zlen message <= 16384 ->
  exists hdr, hello_record message = hdr ++ message /\ read_exact (E:=ProxyError) 5 (hello_record message ++ rest) = Ok (hdr, message ++ rest)
    /\ idx (E:=ProxyError) hdr 0 = Ok 0x16 /\ u16_at hdr 3 = Ok (zlen message).
Proof.
  intros Hl. pose proof (zlen_nonneg message). exists ([0x16; 3; 1] ++ be_bytes 2 (zlen message)).
  split_and!; [done | | done |].
  - replace (hello_record message ++ rest) with (([0x16; 3; 1] ++ be_bytes 2 (zlen message)) ++ message ++ rest) by (unfold hello_record; by rewrite <- !app_assoc).
    apply read_exact_app. by rewrite zlen_app, zlen_be_bytes.
  - eapply (u16_at_ok _ [0x16; 3; 1] (zlen message) []); [by rewrite app_nil_r | done | unfold is_u; lia].
Qed.

Lemma record_body message : slice_from (E:=ProxyError) (hello_record message) 5 = Ok message.
Proof. unfold hello_record. rewrite app_assoc. apply slice_from_app. by rewrite zlen_app, zlen_be_bytes. Qed.

(** Who is recognised, and how the next protocol sees the connection. *)
Definition replayed (mode : ReplayMode) (hello rest : bytes) : PrependedStream bytes :=
  prepended_new rest (match mode with PrependClientHello => hello | ConsumeClientHello => [] end).

(** REALITY recognises its clients.  A client that has the public key of the server, the current time
    within the tolerance and an allowed short id of at most eight bytes that does not end in a zero
    byte sends a ClientHello after which the server has the same key as the client; the server hands
    on the connection, with the ClientHello put back in front of it or without it, as the mode says. *)
Lemma reality_authenticates (ccfg : RealityClientConfig) (scfg : RealityServerConfig) (secret secp random : bytes) (dc de now_c now_s : Z) :
  cc_server_public_key ccfg = rp_public prim (sc_private_key scfg) ->
  cc_short_id ccfg ∈ sc_short_ids scfg -> zlen (cc_short_id ccfg) <= 8 -> ends_in_zero (cc_short_id ccfg) = false ->
  utf8_valid (cc_sni ccfg) = true -> zlen (cc_sni ccfg) + zlen secp <= 16000 -> zlen random = 32 ->
  0 <= dc < 16 -> 0 <= de < 16 -> 0 <= now_c < 2 ^ 32 -> Z.abs (now_s - now_c) <= sc_max_time_diff scfg ->
  exists hello auth_key, dial_hello ccfg secret secp random dc de now_c = Ok (hello, auth_key) /\ zlen auth_key = 32
    /\ (exists g ge token, hello = hello_record (hello_message chrome_131 (cc_sni ccfg) g (rp_public prim secret) (Some secp) random token ge)
          /\ g ∈ GREASE_VALUES_U16 /\ ge ∈ GREASE_VALUES_U16 /\ zlen token = 32)
    /\ forall mode io rest, accept_inner scfg mode io false false now_s (hello ++ rest) = Ok (Authenticated (replayed mode hello rest) auth_key).
Proof.
  intros Hpub Hin Hsl Hz Hu Hsz Hr Hdc Hde Hc Hd.
  destruct (grease_draw dc Hdc) as (g & Eg & Hg), (grease_draw de Hde) as (ge & Ege & Hge).
  destruct (derived secret (sc_private_key scfg) random) as (key & Hck & Hsk & Hkl).
  pose proof (public_len secret) as Hpl. set (msg := fun sid => hello_message chrome_131 (cc_sni ccfg) g (rp_public prim secret) (Some secp) random sid ge).
  assert (Hml : forall sid, zlen sid = 32 -> zlen (msg sid) = 292 + zlen (cc_sni ccfg) + zlen secp) by (intros sid Hsid; exact (chrome_len (cc_sni ccfg) g (rp_public prim secret) secp random sid ge Hpl Hr Hsid)).
  set (token := seal (rp_gcm prim) key (drop 20 random) (msg (replicate 32 0)) (reality_token (cc_short_id ccfg) now_c)).
  assert (Htok : encrypt_reality_token (cc_short_id ccfg) random key (msg (replicate 32 0)) now_c = Ok token)
    by (unfold encrypt_reality_token; by rewrite into_32_seal by apply token_len).
  destruct (token_accepted (cc_short_id ccfg) random key (msg (replicate 32 0)) (sc_short_ids scfg) (sc_max_time_diff scfg) now_c now_s
    (mkFields random token (rp_public prim secret) (cc_sni ccfg)) token Hsl Hz Hin Hc Hd Htok eq_refl eq_refl) as [Htl Hacc].
  exists (hello_record (msg token)), key. split; [| split; [done | split; [by exists g, ge, token |]]].
  - unfold dial_hello. rewrite Hpub, Hck. cbn [mbind res_bind]. rewrite (build_record _ _ _ _ _ _ _ _ _ g ge Eg Ege). cbn [mbind res_bind].
    fold (msg (replicate 32 0)). rewrite record_body.
    cbn [mbind res_bind]. rewrite Htok. cbn [mbind res_bind]. unfold msg. change (5 + SESSION_ID_OFFSET_IN_HANDSHAKE_BODY) with 44.
    by rewrite set_session_id.
  - intros mode io rest. specialize (Hml token Htl). destruct (record_read (msg token) rest ltac:(lia)) as (hdr & Eh & Er & Ei & El).
    unfold accept_inner. rewrite Er, Ei. cbn [mbind res_bind]. rewrite Z.eqb_refl. cbn [negb]. rewrite El. cbn [mbind res_bind].
    rewrite Z.gtb_ltb, (proj2 (Z.ltb_ge _ _)) by lia. rewrite read_exact_app by done.
    assert (Hfit : is_u 16 (zlen (msg token))) by (unfold is_u; pose proof (zlen_nonneg (msg token)); lia).
    assert (H51 : 51 ∈ extensions chrome_131) by decided. assert (Ht : Forall (is_u 16) (extensions chrome_131)) by decided.
    unfold accept_hello, msg in *. rewrite parse_built by done. rewrite (bool_decide_eq_true_2 (0 ∈ extensions chrome_131)) by decided.
    unfold server_auth_key, reality_auth_peer_public_keys_or_fallback. rewrite peer_keys_built by done. cbn [mbind res_bind].
    unfold xray_zeroed_session_id_aad, SESSION_ID_OFFSET_IN_HANDSHAKE_BODY. rewrite (proj2 (Z.ltb_ge _ _)) by (pose proof (zlen_nonneg (cc_sni ccfg)); pose proof (zlen_nonneg secp); lia).
    rewrite set_message_id by done. cbn [mbind res_bind try_peers f_random]. rewrite Hsk. cbn [try_aads]. rewrite Hacc. cbn [mbind res_bind].
    unfold join_record. rewrite <- Eh. by destruct mode.
Qed.

(** * Everybody else *)

(** A token that the server accepts: sealed under the key, with an allowed id and a time within the tolerance. *)
Definition valid_token (cfg : RealityServerConfig) (now : Z) (fields : ClientHelloFields) (auth_key token : bytes) : Prop :=
  (exists aad, open (rp_gcm prim) auth_key (drop 20 (f_random fields)) aad (f_session_id fields) = Some token)
  /\ 16 <= zlen token /\ Z.abs (now - be_val (take 4 (drop 4 token))) <= sc_max_time_diff cfg
  /\ strip_zero_padding (take 8 (drop 8 token)) ∈ sc_short_ids cfg.

Lemma validate_sound token ids max_diff now :
  safely (validate_reality_token token ids max_diff now) (fun _ => 16 <= zlen token /\ Z.abs (now - be_val (take 4 (drop 4 token))) <= max_diff
    /\ strip_zero_padding (take 8 (drop 8 token)) ∈ ids).
Proof.
  unfold validate_reality_token. destruct (Z.ltb_spec (zlen token) 16); [done |]. rewrite !slice_in_range by lia. cbn [mbind res_bind].
  change (Z.to_nat (8 - 4)) with 4%nat. change (Z.to_nat 4) with 4%nat. change (Z.to_nat (16 - 8)) with 8%nat. change (Z.to_nat 8) with 8%nat.
  destruct (Z.gtb_spec (Z.abs (now - be_val (take 4 (drop 4 token)))) max_diff); [done |]. destruct (existsb _ ids) eqn:E; [| done]. cbn.
  split_and!; [done | done |]. apply existsb_exists in E as (x & Hx & E). apply bool_decide_eq_true in E. rewrite E. by apply list_elem_of_In.
Qed.

Lemma decrypt_sound cfg now fields key aad :
  safely (decrypt_and_validate_reality_token fields key aad (sc_short_ids cfg) (sc_max_time_diff cfg) now)
    (fun o => match o with Some t => valid_token cfg now fields key t | None => True end).
Proof.
  unfold decrypt_and_validate_reality_token, decrypt_reality_session_id.
  destruct (open _ key _ aad _) as [t |] eqn:E; cbn [ok_or]; [| done].
  pose proof (validate_sound t (sc_short_ids cfg) (sc_max_time_diff cfg) now) as Hv.
  destruct (validate_reality_token t _ _ _); [| done | done | done]. destruct (reality_auth_roundtrip_matches _ _ _ _); [| done].
  cbn in *. split; [by exists aad | done].
Qed.

Lemma try_aads_sound cfg fields now key aads :
  safely (try_aads cfg fields now key aads) (fun b => b = true -> exists t, valid_token cfg now fields key t).
Proof.
  induction aads as [| aad aads IH]; cbn [try_aads]; [done |]. eapply safely_bind; [apply decrypt_sound |].
  intros [t |] Ht; [by cbn; exists t | exact IH].
Qed.

Lemma plaintext_aad_safe body p : safely (xray_plaintext_session_id_aad body p) (fun _ => True).
Proof.
  unfold xray_plaintext_session_id_aad, SESSION_ID_OFFSET_IN_HANDSHAKE_BODY. destruct (Z.ltb_spec (zlen body) (39 + 32)); [done |].
  destruct (Z.eqb_spec (zlen p) 16) as [Hp |]; cbn [negb]; [| done]. eapply safely_bind; [apply safely_put_at; lia |].
  intros aad Hl. cbn in Hl. eapply safely_mono; [apply safely_put_at; change (zlen (replicate 16 0)) with 16; lia | done].
Qed.

Lemma try_candidates_sound cfg fields body now key cs :
  safely (try_candidates cfg fields body now key cs) (fun b => b = true -> exists t, valid_token cfg now fields key t).
Proof.
  induction cs as [| c cs IH]; cbn [try_candidates]; [done |]. pose proof (plaintext_aad_safe body c) as Hs.
  destruct (xray_plaintext_session_id_aad body c); [| exact IH | done | done]. eapply safely_bind; [apply decrypt_sound |].
  intros [t |] Ht; [by cbn; exists t | exact IH].
Qed.

Lemma derive_safe private peer random : safely (derive_reality_auth_key private peer random) (fun _ => True).
Proof. unfold derive_reality_auth_key. by destruct (rp_hkdf _ _ _ _ _). Qed.

(** The key is one the server shares with a key of the client, and the session id holds a valid token. *)
Definition authentic (cfg : RealityServerConfig) (now : Z) (fields : ClientHelloFields) (peers : list bytes) (key : bytes) : Prop :=
  exists peer token, peer ∈ peers /\ derive_reality_auth_key (sc_private_key cfg) peer (f_random fields) = Ok key /\ valid_token cfg now fields key token.

Lemma try_peers_sound cfg fields body now zeroed peers :
  safely (try_peers cfg fields body now zeroed peers) (authentic cfg now fields peers).
Proof.
  induction peers as [| peer peers IH]; cbn [try_peers]; [done |].
  assert (IH' : safely (try_peers cfg fields body now zeroed peers) (authentic cfg now fields (peer :: peers))).
  { eapply safely_mono; [exact IH |]. intros key (p & t & Hin & H). exists p, t. split; [by right | done]. }
  pose proof (derive_safe (sc_private_key cfg) peer (f_random fields)) as Hds.
  destruct (derive_reality_auth_key _ peer _) as [key | e | |] eqn:Ed; [| exact IH' | done | done].
  assert (Hok : (exists t, valid_token cfg now fields key t) -> authentic cfg now fields (peer :: peers) key).
  { intros [t Ht]. exists peer, t. split; [by left | done]. }
  eapply safely_bind; [apply try_aads_sound |]. intros [] Hf; [by cbn; apply Hok, Hf |].
  eapply safely_bind; [apply try_candidates_sound |]. intros [] Hf'; [by cbn; apply Hok, Hf' | exact IH'].
Qed.

Lemma server_auth_key_sound cfg fields body now :
  bytes_ok body -> 71 <= zlen body ->
  safely (server_auth_key cfg fields body now) (fun key => exists peers, reality_auth_peer_public_keys_or_fallback fields body = Ok peers /\ authentic cfg now fields peers key).
Proof.
  intros Hb Hl. unfold server_auth_key. unfold reality_auth_peer_public_keys_or_fallback. pose proof (peer_keys_safe body Hb) as Hp.
  destruct (reality_auth_peer_public_keys body) as [ks | | |]; [| done | done | done]. cbn [mbind res_bind].
  unfold xray_zeroed_session_id_aad, SESSION_ID_OFFSET_IN_HANDSHAKE_BODY. rewrite (proj2 (Z.ltb_ge _ _)) by lia.
  eapply safely_bind; [apply safely_put_at; change (zlen (replicate 32 0)) with 32; lia |]. intros zeroed _.
  eapply safely_mono; [apply try_peers_sound |]. intros key Hk. by eexists.
Qed.

(** All the bytes of the stream that the backend gets. *)
Definition stream_bytes (s : PrependedStream bytes) : bytes := (prepended_into_parts s).2 ++ (prepended_into_parts s).1.

Lemma stream_bytes_new rest pre : stream_bytes (prepended_new rest pre) = pre ++ rest.
Proof. unfold stream_bytes, prepended_into_parts, prepended_new. cbn. destruct (Z.leb_spec (zlen pre) 0) as [Hl |]; [| done].
  assert (pre = []) as -> by (apply zlen_0_nil; pose proof (zlen_nonneg pre); lia). done. Qed.

(** The first record is not complete in the input. *)
Definition short_of_record (input : bytes) : Prop := zlen input < 5 \/ exists len, u16_at input 3 = Ok len /\ zlen input < 5 + len.

Lemma u16_at_range l i : 0 <= i -> i + 2 <= zlen l -> exists v, u16_at l i = Ok v.
Proof.
  intros Hi Hl. unfold u16_at. destruct (idx_in_range (E:=ProxyError) l i ltac:(lia)) as (a & -> & _).
  destruct (idx_in_range (E:=ProxyError) l (i + 1) ltac:(lia)) as (b & -> & _). by eexists.
Qed.

Lemma u16_at_prefix hdr rest i v : u16_at hdr i = Ok v -> u16_at (hdr ++ rest) i = Ok v.
Proof.
  unfold u16_at. intros H. rinv H. apply idx_lookup in Hv as [H1 H2], Hv0 as [H3 H4].
  erewrite !(proj2 (idx_lookup _ _ _)); [exact H | |]; (split; [done | by apply lookup_app_l_Some]).
Qed.

(** What an outcome must be when all bytes of the client are [input]. *)
Definition outcome_ok (cfg : RealityServerConfig) (mode : ReplayMode) (io : CoverIo) (late : bool) (now : Z) (input : bytes) (o : RealityOutcome) : Prop :=
  match o with
  | Authenticated s key =>
      exists hdr body rest fields peers, input = hdr ++ body ++ rest /\ zlen hdr = 5 /\ parse_client_hello body = Ok fields
        /\ reality_auth_peer_public_keys_or_fallback fields body = Ok peers /\ authentic cfg now fields peers key
        /\ stream_bytes s = match mode with PrependClientHello => input | ConsumeClientHello => rest end
  | ToCover addr s => addr = sc_fallback cfg /\ stream_bytes s = input
  | Closed e => (e = Timeout /\ late = true) \/ (e = Io UnexpectedEof /\ short_of_record input) \/ io <> CoverUp
  end.

Lemma fallback_ok cfg mode io late now pre rest : outcome_ok cfg mode io late now (pre ++ rest) (reality_fallback cfg io rest pre).
Proof. unfold reality_fallback. destruct io; cbn [outcome_ok]; [by rewrite stream_bytes_new | by right; right | by right; right]. Qed.

Lemma accept_hello_ok cfg mode io late now hdr body rest :
  zlen hdr = 5 -> bytes_ok body ->
  match accept_hello cfg mode io now hdr body rest with Ok o => outcome_ok cfg mode io late now (hdr ++ body ++ rest) o | _ => False end.
Proof.
  intros Hh Hb. unfold accept_hello. pose proof (parse_client_hello_safe body Hb) as Hp.
  assert (Hfb : outcome_ok cfg mode io late now (hdr ++ body ++ rest) (reality_fallback cfg io rest (join_record hdr body))).
  { rewrite app_assoc. apply fallback_ok. }
  destruct (parse_client_hello body) as [fields | e | |] eqn:Ep; [| done | done | done]. cbn in Hp.
  pose proof (server_auth_key_sound cfg fields body now Hb ltac:(tauto)) as Hs.
  destruct (server_auth_key cfg fields body now) as [key | e | |]; [| done | done | done]. destruct Hs as (peers & Epk & Ha).
  exists hdr, body, rest, fields, peers. do 5 (split; [done |]). destruct mode; rewrite stream_bytes_new; [| done]. unfold join_record. by rewrite <- app_assoc.
Qed.

(** C7. What the REALITY server shows to a stranger.  On every input it ends without a panic.  It recognises
    only a client whose session id opens, under the key the server shares with a key of that very ClientHello,
    to a token with an allowed short id and a time within the tolerance.  All others reach the cover
    site, which gets the connection from its first byte on; only when the time runs out, the client closes
    before its first record is complete, or the cover site cannot be reached, the connection is closed. *)
Theorem reality_stranger (cfg : RealityServerConfig) (mode : ReplayMode) (io : CoverIo) (late_header late_body : bool) (now : Z) (input : bytes) :
  bytes_ok input ->
  match accept_inner cfg mode io late_header late_body now input with
  | Ok o => outcome_ok cfg mode io (late_header || late_body) now input o
  | Err _ | Panic | NoFuel => False
  end.
Proof.
  intros Hok. unfold accept_inner. destruct late_header; [by left |]. cbn [orb].
  unfold read_exact at 1. case_bool_decide as H5; [| right; left; split; [done | left; lia]].
  set (hdr := take (Z.to_nat 5) input). set (rest := drop (Z.to_nat 5) input).
  assert (Ein : input = hdr ++ rest) by (unfold hdr, rest; by rewrite take_drop).
  assert (Hh : zlen hdr = 5) by (unfold hdr, zlen in *; rewrite length_take; lia).
  assert (Hoks : bytes_ok hdr /\ bytes_ok rest) by (by apply take_drop_bytes_ok). destruct Hoks as [Hokh Hokr].
  clearbody hdr rest. subst input.
  destruct (idx_in_range (E:=ProxyError) hdr 0 ltac:(lia)) as (kind & -> & _).
  cbn [mbind res_bind]. destruct (negb (kind =? 22)); [apply fallback_ok |].
  destruct (u16_at_range hdr 3 ltac:(lia) ltac:(lia)) as (len & El). rewrite El.
  cbn [mbind res_bind]. destruct (len >? 16384); [apply fallback_ok |].
  destruct late_body; [by left |]. unfold read_exact. case_bool_decide as Hlen.
  - pose proof (accept_hello_ok cfg mode io false now hdr (take (Z.to_nat len) rest) (drop (Z.to_nat len) rest) Hh (proj1 (take_drop_bytes_ok _ _ Hokr))) as H.
    by rewrite (take_drop (Z.to_nat len) rest) in H.
  - right. left. split; [done |]. right. exists len. split; [| rewrite zlen_app; lia]. by apply u16_at_prefix.
Qed.

End reality.

(** Keyed sums in place of the primitives. *)
Definition toy_reality : RealityPrims := mkRealityPrims
  (fun a => byte_sum a :: replicate 31 0)
  (fun a b => (byte_sum a * default 0 (head b)) mod 256 :: replicate 31 0)
  (fun salt ikm info n => if n <=? 255 * 32 then Some (replicate (Z.to_nat n) (byte_sum (salt ++ ikm ++ info))) else None)
  toy_aead.

#[export] Instance toy_reality_laws : RealityLaws toy_reality.
Proof.
  split; cbn [toy_reality rp_gcm rp_dh rp_public rp_hkdf]; [apply _ | | done | done |].
  - intros a b. cbn [head default]. by rewrite Z.mul_comm.
  - intros salt ikm info n Hn. rewrite (proj2 (Z.leb_le n _)) by lia. eexists. split; [done |]. unfold zlen. rewrite length_replicate. lia.
Qed.

Definition toy_client : RealityClientConfig := mkClientConfig (rp_public toy_reality [5]) [1; 2; 3] (lit "a.b").
Definition toy_server : RealityServerConfig := server_new (mkServerConfig [5] [[]; [1; 2; 3]] (mkSocketAddr (V4 [127; 0; 0; 1]) 443) 0).

Lemma reality_stranger_witness :
  match accept_inner toy_reality toy_server PrependClientHello CoverUp false false 1100 (lit "GET / HTTP/1.1") with
  | Ok (ToCover addr s) => stream_bytes s = lit "GET / HTTP/1.1"
  | _ => False
  end.
Proof. exact (proj2 (reality_stranger toy_reality toy_server PrependClientHello CoverUp false false 1100 (lit "GET / HTTP/1.1") ltac:(decided))). Defined.

(** A short id that ends in a zero byte, or has more than eight bytes, is never recognised, even when
    it is the very id the client sends. *)
Theorem reality_short_id_lost (sid : bytes) (max_diff now_c now_s : Z) :
  ends_in_zero sid = true \/ 8 < zlen sid -> validate_reality_token (reality_token sid now_c) [sid] max_diff now_s <> Ok ().
Proof.
  intros Hbad H. pose proof (validate_sound (reality_token sid now_c) [sid] max_diff now_s) as Hs. rewrite H in Hs. cbn [safely] in Hs.
  destruct Hs as (_ & _ & Hin). apply list_elem_of_singleton in Hin. destruct Hbad as [Hz | Hl].
  - rewrite <- Hin, strip_last in Hz. done.
  - apply (f_equal zlen) in Hin. unfold strip_zero_padding in Hin. unfold zlen in *. rewrite !length_take in Hin. lia.
Qed.

Lemma reality_short_id_lost_witness : validate_reality_token (reality_token [170; 187; 0] 1000) [[170; 187; 0]] 120 1000 <> Ok ().
Proof. apply reality_short_id_lost. by left. Defined.
