(* ===== verification/RealityCert.v ===== *)
(** The certificate of the REALITY server ([reality/cert.rs]): an Ed25519 certificate that is made once
    for a server name, whose signature is replaced, for each connection, by an HMAC under the key the two
    sides share; and the Certificate message of TLS 1.3 that carries it ([reality/tls13_server.rs]).

    HMAC-SHA512, the X.509 parser and the generator of certificates are parameters. *)

From stdpp Require Import base gmap list strings numbers.
From S2P Require Import Prelude Address ClientHello.

(** What the code reads of a parsed certificate: the algorithm and the bits of the public key, and the signature. *)
Record X509 := mkX509 { x_algorithm : bytes; x_spki : bytes; x_signature : bytes }.

(** [Hmac<Sha512>] and [X509Certificate::from_der]. *)
Record CertPrims := mkCertPrims {
  cp_hmac_sha512 : bytes -> bytes -> bytes;
  cp_x509 : bytes -> option X509;
}.

Class CertLaws (p : CertPrims) := hmac512_len : forall k m, zlen (cp_hmac_sha512 p k m) = 64.

Record CertTemplate := mkTemplate {
  ct_signing_key : bytes;
  ct_verifying_key : bytes;
  ct_cert_der : bytes;
}.

(** [cert_cache()]. *)
Abbreviation CertCache := (gmap bytes CertTemplate).

Definition cache_key (sni : bytes) (mlkem : bool) : bytes := if mlkem then sni ++ lit ":mlkem768" else sni.

Definition normalize_sni (cover_sni : bytes) : bytes := match cover_sni with [] => lit "localhost" | _ => cover_sni end.

(** The range of the last 64 bytes. *)
Definition go_reality_signature_range (der : bytes) : res ProxyError (Z * Z) :=
  if zlen der <? 64 then Err (Tls "REALITY cert DER too short") else Ok (zlen der - 64, zlen der).

(** [entry(key).or_insert_with(...)]. *)
Definition cache_entry (cache : CertCache) (key : bytes) (t : CertTemplate) : CertCache * CertTemplate :=
  match cache !! key with
  | Some t' => (cache, t')
  | None => (<[key := t]> cache, t)
  end.

(** [cache] is the cache at the first look, [later] what other connections have made of it when the new
    template is entered; [generated] is what the libraries make for the name, or their error. *)
Definition get_template (cache later : CertCache) (generated : option CertTemplate) (sni : bytes) (mlkem_client : bool)
  : CertCache * res ProxyError CertTemplate :=
  let key := cache_key sni mlkem_client in
  match cache !! key with
  | Some template => (cache, Ok template)
  | None =>
      match generated with
      | None => (later, Err (Tls "REALITY cert params"))
      | Some template =>
          match go_reality_signature_range (ct_cert_der template) with
          | Ok _ => let '(later, t) := cache_entry later key template in (later, Ok t)
          | Err e => (later, Err e)
          | Panic => (later, Panic)
          | NoFuel => (later, NoFuel)
          end
      end
  end.

Section cert.
Context (prim : CertPrims).

Definition reality_cert_hmac (auth_key ed25519_public_key : bytes) : bytes := cp_hmac_sha512 prim auth_key ed25519_public_key.

Definition patch_cert_der (template : CertTemplate) (auth_key : bytes) : res ProxyError bytes :=
  let signature := reality_cert_hmac auth_key (ct_verifying_key template) in
  '(start, _) ← go_reality_signature_range (ct_cert_der template);
  put_at (ct_cert_der template) start signature.

(** The certificate and the signing key of a template. *)
Definition tls_cert_for_auth_key (template : CertTemplate) (auth_key : bytes) : res ProxyError (bytes * bytes) :=
  cert_der ← patch_cert_der template auth_key;
  Ok (cert_der, ct_signing_key template).

(** The object identifier of Ed25519 as text. *)
Definition ED25519_OID : bytes := lit "1.3.101.112".

Definition ed25519_public_key_from_cert (cert : X509) : res ProxyError bytes :=
  if negb (bytes_eqb (x_algorithm cert) ED25519_OID) then Err (Tls "REALITY cert: expected ed25519 subject public key")
  else
    let key := x_spki cert in
    if zlen key =? 32 then Ok key
    else if (zlen key =? 33) && bool_decide (head key = Some 0) then Ok (drop 1 key)
    else Err (Tls "REALITY cert: unexpected ed25519 SPKI length").

Definition signature_matches_go_hmac (signature_field hmac : bytes) : bool :=
  let n := zlen signature_field in
  if n =? 64 then bytes_eqb signature_field hmac
  else if (n =? 65) && bool_decide (head signature_field = Some 0) then bytes_eqb (drop 1 signature_field) hmac
  else if n >? 64 then bytes_eqb (drop (Z.to_nat (n - 64)) signature_field) hmac
  else false.

Definition verify_reality_cert_hmac (auth_key cert_der : bytes) : res ProxyError unit :=
  cert ← ok_or (cp_x509 prim cert_der) (Tls "REALITY cert parse");
  pubkey ← ed25519_public_key_from_cert cert;
  let expected := reality_cert_hmac auth_key pubkey in
  if signature_matches_go_hmac (x_signature cert) expected then Ok ()
  else Err (Tls "REALITY cert signature does not match HMAC-SHA512(auth_key, public_key)").

End cert.

(** * The Certificate message *)

Definition HS_CERTIFICATE : Z := 0x0b.

Definition read_u24 (b : bytes) : res ProxyError Z :=
  if zlen b <? 3 then Err (Tls "TLS uint24: truncated")
  else
    b0 ← idx b 0;
    b1 ← idx b 1;
    b2 ← idx b 2;
    Ok (Z.lor (Z.lor (Z.shiftl b0 16) (Z.shiftl b1 8)) b2).

Definition parse_certificate_message_der (msg : bytes) : res ProxyError bytes :=
  if negb (bool_decide (head msg = Some HS_CERTIFICATE)) then Err (Tls "TLS Certificate message: bad handshake type")
  else if zlen msg <? 4 + 1 + 3 + 3 then Err (Tls "TLS Certificate message: truncated header")
  else
    ctx_len ← idx msg 4;
    let pos := 5 in
    if pos + ctx_len + 3 >? zlen msg then Err (Tls "TLS Certificate message: truncated context")
    else
      let pos := pos + ctx_len in
      b ← slice msg pos (pos + 3);
      list_len ← read_u24 b;
      let pos := pos + 3 in
      if pos + list_len >? zlen msg then Err (Tls "TLS Certificate message: certificate_list truncated")
      else
        let list_end := pos + list_len in
        if pos + 3 >? list_end then Err (Tls "TLS Certificate message: empty certificate_list")
        else
          b ← slice msg pos (pos + 3);
          cert_data_len ← read_u24 b;
          let pos := pos + 3 in
          if pos + cert_data_len >? list_end then Err (Tls "TLS Certificate message: cert_data truncated")
          else slice msg pos (pos + cert_data_len).

Definition build_certificate (cert_der : bytes) : bytes :=
  let entry := put_u24 [] (zlen cert_der) ++ cert_der ++ [0x00; 0x00] in
  let cert_list := put_u24 [] (zlen entry) ++ entry in
  let payload_len := 1 + zlen cert_list in
  put_u24 [HS_CERTIFICATE] payload_len ++ [0] ++ cert_list.

(** * Lemmas *)

(** A 24-bit length and its reading. *)
Definition u24 (v : Z) : bytes := put_u24 [] v.

Lemma u24_len v : zlen (u24 v) = 3.
Proof. done. Qed.

Lemma u24_val v : 0 <= v < 2 ^ 24 ->
  Z.lor (Z.lor (Z.shiftl (wrap 8 (Z.shiftr v 16)) 16) (Z.shiftl (wrap 8 (Z.shiftr v 8)) 8)) (wrap 8 v) = v.
Proof.
  intros Hv. unfold wrap. change (2 ^ 8) with 256. rewrite !Z.shiftr_div_pow2 by lia. change (2 ^ 16) with 65536. change (2 ^ 8) with 256.
  assert (H2 : 0 <= v / 65536 < 256) by (split; [apply Z.div_pos; lia | apply Z.div_lt_upper_bound; lia]).
  rewrite (Z.mod_small (v / 65536)) by done.
  rewrite (Z.lor_comm (Z.lor _ _)), (Z.lor_comm (Z.shiftl (v / 65536) 16)), Z.lor_assoc.
  rewrite (lor_shiftl_add (v mod 256) (v / 256 mod 256) 8); [| lia | apply Z.mod_pos_bound; lia | apply Z.mod_pos_bound; lia].
  change (2 ^ 8) with 256. pose proof (Z.mod_pos_bound v 256). pose proof (Z.mod_pos_bound (v / 256) 256).
  rewrite lor_shiftl_add; [| lia | change (2 ^ 16) with 65536; lia | lia]. change (2 ^ 16) with 65536. zdiv.
Qed.

Lemma read_u24_ok v : 0 <= v < 2 ^ 24 -> read_u24 (u24 v) = Ok v.
Proof.
  intros Hv. unfold read_u24. rewrite u24_len. unfold u24, put_u24. cbn [app Z.ltb Z.compare Pos.compare Pos.compare_cont].
  set (a := wrap 8 (Z.shiftr v 16)). set (b := wrap 8 (Z.shiftr v 8)). set (c := wrap 8 v).
  change (idx [a; b; c] 0) with (Ok (E:=ProxyError) a). change (idx [a; b; c] 1) with (Ok (E:=ProxyError) b). change (idx [a; b; c] 2) with (Ok (E:=ProxyError) c).
  cbn [mbind res_bind]. f_equal. by apply u24_val.
Qed.

Lemma put_u24_app buf v : put_u24 buf v = buf ++ u24 v.
Proof. done. Qed.

(** The certificate comes out of the message. *)
Lemma certificate_message_ok der :
  zlen der < 2 ^ 24 - 16 -> parse_certificate_message_der (build_certificate der) = Ok der.
Proof.
  intros Hd. pose proof (zlen_nonneg der) as H0. unfold build_certificate. rewrite !put_u24_app. cbn [app]. set (entry := u24 (zlen der) ++ der ++ [0; 0]).
  assert (He : zlen entry = zlen der + 5) by (unfold entry; rewrite !zlen_app, u24_len; change (zlen [0; 0]) with 2; lia).
  set (p := u24 (1 + zlen (u24 (zlen entry) ++ entry))). set (msg := HS_CERTIFICATE :: p ++ 0 :: u24 (zlen entry) ++ entry).
  assert (Hl : zlen msg = 8 + zlen entry) by (unfold msg; rewrite zlen_cons, zlen_app, zlen_cons, zlen_app, u24_len; change (zlen p) with 3; lia).
  unfold parse_certificate_message_der. cbn [head]. rewrite bool_decide_eq_true_2 by done. cbn [negb]. rewrite Hl, (proj2 (Z.ltb_ge _ _)) by lia.
  change (idx msg 4) with (Ok (E:=ProxyError) 0). cbn [mbind res_bind]. rewrite Z.gtb_ltb, (proj2 (Z.ltb_ge _ _)) by lia. change (5 + 0) with 5.
  rewrite (slice_split msg (HS_CERTIFICATE :: p ++ [0]) (u24 (zlen entry)) entry 5 (5 + 3)); [| by unfold msg; cbn [app]; rewrite <- app_assoc | done | done].
  cbn [mbind res_bind]. rewrite read_u24_ok by lia. cbn [mbind res_bind]. rewrite Z.gtb_ltb, (proj2 (Z.ltb_ge _ _)) by lia.
  rewrite Z.gtb_ltb, (proj2 (Z.ltb_ge _ _)) by lia.
  rewrite (slice_split msg (HS_CERTIFICATE :: p ++ 0 :: u24 (zlen entry)) (u24 (zlen der)) (der ++ [0; 0]) (5 + 3) (5 + 3 + 3)); [| | done | done].
  2: { unfold msg. cbn [app]. by rewrite <- app_assoc. }
  cbn [mbind res_bind]. rewrite read_u24_ok by lia. cbn [mbind res_bind]. rewrite Z.gtb_ltb, (proj2 (Z.ltb_ge _ _)) by lia.
  apply (slice_split msg ((HS_CERTIFICATE :: p ++ 0 :: u24 (zlen entry)) ++ u24 (zlen der)) der [0; 0]); [| done | done].
  unfold msg, entry. cbn [app]. by rewrite <- !app_assoc.
Qed.

(** A template of a self-signed certificate: the signature is its last 64 bytes, and other bytes there
    make a certificate with the same key and those bytes for a signature. *)
Definition template_ok (prim : CertPrims) (t : CertTemplate) : Prop :=
  zlen (ct_verifying_key t) = 32 /\ 64 <= zlen (ct_cert_der t)
  /\ forall sig, zlen sig = 64 ->
       cp_x509 prim (take (Z.to_nat (zlen (ct_cert_der t) - 64)) (ct_cert_der t) ++ sig) = Some (mkX509 ED25519_OID (ct_verifying_key t) sig).

(** The client accepts the certificate that is made for its connection. *)
Lemma patched_verifies prim `{!CertLaws prim} t key :
  template_ok prim t ->
  exists der, tls_cert_for_auth_key prim t key = Ok (der, ct_signing_key t) /\ zlen der = zlen (ct_cert_der t) /\ verify_reality_cert_hmac prim key der = Ok ().
Proof.
  intros (Hv & Hl & Hx). set (sig := reality_cert_hmac prim key (ct_verifying_key t)). set (n := Z.to_nat (zlen (ct_cert_der t) - 64)).
  assert (Hs : zlen sig = 64) by apply hmac512_len. exists (take n (ct_cert_der t) ++ sig).
  assert (Ht : zlen (take n (ct_cert_der t)) = zlen (ct_cert_der t) - 64) by (unfold n, zlen in *; rewrite length_take; lia). split_and!.
  - unfold tls_cert_for_auth_key, patch_cert_der, go_reality_signature_range. rewrite (proj2 (Z.ltb_ge _ _)) by lia. cbn [mbind res_bind]. fold sig.
    erewrite (put_at_ok _ (take n (ct_cert_der t)) (drop n (ct_cert_der t)) [] sig); [by rewrite app_nil_r | by rewrite app_nil_r, take_drop | lia |].
    unfold n, zlen in *. rewrite length_drop. lia.
  - rewrite zlen_app. lia.
  - unfold verify_reality_cert_hmac. unfold n. rewrite Hx by done. cbn [ok_or mbind res_bind]. unfold ed25519_public_key_from_cert. cbn [x_algorithm x_spki x_signature].
    unfold bytes_eqb at 1. rewrite bool_decide_eq_true_2 by done. cbn [negb]. rewrite Hv. cbn [Z.eqb Pos.eqb mbind res_bind]. fold sig.
    unfold signature_matches_go_hmac. rewrite Hs. cbn [Z.eqb Pos.eqb]. unfold bytes_eqb. by rewrite bool_decide_eq_true_2.
Qed.

(** ** The cache *)

(** What the cache has for a name stays, whoever asks for whatever in between. *)
Lemma cache_entry_keeps cache k t k' t' : cache !! k' = Some t' -> (cache_entry cache k t).1 !! k' = Some t'.
Proof.
  intros H. unfold cache_entry. destruct (cache !! k) as [t0 |] eqn:E; [done |]. cbn. rewrite lookup_insert_ne; [done |]. by intros ->; rewrite E in H.
Qed.

(** The template that is given is the one the cache has afterwards. *)
Lemma get_template_entered cache later gen sni mlkem t :
  (get_template cache later gen sni mlkem).2 = Ok t -> (get_template cache later gen sni mlkem).1 !! cache_key sni mlkem = Some t.
Proof.
  unfold get_template. destruct (cache !! cache_key sni mlkem) as [t0 |] eqn:E; [by intros [= <-] |]. destruct gen as [g |]; [| done].
  destruct (go_reality_signature_range _); [| done..]. unfold cache_entry. destruct (later !! cache_key sni mlkem) as [t1 |] eqn:E1; intros [= <-]; cbn [fst]; [done |].
  by rewrite lookup_insert_eq.
Qed.

(** Two connections for the same name present the same key, even when both find no template at first:
    what the first one gets is in the cache it leaves, and every later one, whose look at the cache came
    before or after, gets it too. *)
Theorem cert_cache_agrees (cache later : CertCache) (gen : option CertTemplate) (sni : bytes) (mlkem : bool) (t : CertTemplate) :
  (get_template cache later gen sni mlkem).2 = Ok t ->
  forall c1 c2 gen' t', (get_template cache later gen sni mlkem).1 ⊆ c2 -> c1 ⊆ c2 -> (get_template c1 c2 gen' sni mlkem).2 = Ok t' -> t' = t.
Proof.
  intros Ht c1 c2 gen' t' Hc2 Hc1. pose proof (lookup_weaken _ _ _ _ (get_template_entered _ _ _ _ _ _ Ht) Hc2) as H2.
  unfold get_template. destruct (c1 !! cache_key sni mlkem) as [t1 |] eqn:E1.
  - intros [= <-]. pose proof (lookup_weaken _ _ _ _ E1 Hc1). congruence.
  - destruct gen' as [g' |]; [| done]. destruct (go_reality_signature_range (ct_cert_der g')); [| done..]. unfold cache_entry. rewrite H2. by intros [= <-].
Qed.
