(* ===== verification/Tls13.v ===== *)
(** TLS 1.3 behind REALITY ([reality/tls13.rs] up to the stream, [reality/tls13_server.rs]): the key
    schedule, protected records, the ServerHello and its parser, and the handshakes of both sides.

    Hash functions, HKDF, HMAC, AES-GCM, P-256 and Ed25519 are parameters.  A handshake reads the bytes of its peer
    and writes to it ([hio]); awaits do not show. *)

From stdpp Require Import base gmap list strings numbers.
From S2P Require Import Prelude Address Crypto ClientHello Reality RealityCert.

Definition RT_CHANGE_CIPHER_SPEC : Z := 0x14.
Definition RT_ALERT : Z := 0x15.
Definition RT_HANDSHAKE : Z := 0x16.
Definition RT_APPLICATION_DATA : Z := 0x17.

Definition HS_CLIENT_HELLO : Z := 0x01.
Definition HS_SERVER_HELLO : Z := 0x02.
Definition HS_ENCRYPTED_EXTENSIONS : Z := 0x08.
Definition HS_CERTIFICATE_VERIFY : Z := 0x0f.
Definition HS_FINISHED : Z := 0x14.

Inductive CipherSuite := Aes128GcmSha256 | Aes256GcmSha384.

#[global] Instance CipherSuite_eq_dec : EqDecision CipherSuite.
Proof. solve_decision. Defined.

Definition cs_from_u16 (v : Z) : res ProxyError CipherSuite :=
  if v =? 0x1301 then Ok Aes128GcmSha256
  else if v =? 0x1302 then Ok Aes256GcmSha384
  else Err (Protocol "unsupported TLS 1.3 cipher suite").

Definition cs_to_u16 (cs : CipherSuite) : Z := match cs with Aes128GcmSha256 => 0x1301 | Aes256GcmSha384 => 0x1302 end.
Definition hash_len (cs : CipherSuite) : Z := match cs with Aes128GcmSha256 => 32 | Aes256GcmSha384 => 48 end.
Definition key_len (cs : CipherSuite) : Z := match cs with Aes128GcmSha256 => 16 | Aes256GcmSha384 => 32 end.

(** The functions of a suite, AES-GCM, the key agreements and the signature. *)
Record TlsPrims := mkTlsPrims {
  tp_hash : CipherSuite -> bytes -> bytes;
  tp_extract : CipherSuite -> bytes -> bytes -> bytes;
  tp_expand : CipherSuite -> bytes -> bytes -> Z -> option bytes;
  tp_hmac : CipherSuite -> bytes -> bytes -> bytes;
  tp_gcm : CipherSuite -> Aead;
  tp_p256_dh : bytes -> bytes -> option bytes;
  tp_sign : bytes -> bytes -> bytes;
  tp_x25519 : RealityPrims;
  tp_cert : CertPrims;
}.

Class TlsLaws (p : TlsPrims) := {
  tl_hash : forall cs m, zlen (tp_hash p cs m) = hash_len cs;
  tl_extract : forall cs s m, zlen (tp_extract p cs s m) = hash_len cs;
  tl_expand : forall cs k i n, 0 <= n <= 255 * hash_len cs -> exists o, tp_expand p cs k i n = Some o /\ zlen o = n;
  tl_hmac : forall cs k m, zlen (tp_hmac p cs k m) = hash_len cs;
  tl_gcm :: forall cs, AeadLaws (tp_gcm p cs);
  tl_sign : forall k m, zlen (tp_sign p k m) = 64;
  tl_x25519 :: RealityLaws (tp_x25519 p);
  tl_cert :: CertLaws (tp_cert p);
}.

(** * Reading and writing *)

(** The bytes still to come from the peer, and those written to it. *)
Abbreviation hio := (stE (bytes * bytes) ProxyError).

Definition recv_exact (n : Z) : hio bytes := fun '(inp, out) =>
  match read_exact n inp with
  | Ok (b, rest) => ((rest, out), Ok b)
  | Err e => ((inp, out), Err e)
  | Panic => ((inp, out), Panic)
  | NoFuel => ((inp, out), NoFuel)
  end.

Definition write_all (b : bytes) : hio unit := fun '(inp, out) => ((inp, out ++ b), Ok ()).

(** [read_record] and [read_record_stream]. *)
Definition read_record : hio (bytes * bytes) :=
  header ← recv_exact 5;
  body_len ← st_lift (u16_at header 3);
  body ← recv_exact body_len;
  mret (header, body).

Definition write_handshake_record (body : bytes) : bytes := [RT_HANDSHAKE; 0x03; 0x03] ++ be_bytes 2 (zlen body) ++ body.

Definition CCS_RECORD : bytes := [RT_CHANGE_CIPHER_SPEC; 0x03; 0x03; 0x00; 0x01; 0x01].

Section tls13.
Context (prim : TlsPrims).

(** * Key schedule *)

Definition expand_label (cs : CipherSuite) (prk label context : bytes) (len : Z) : res ProxyError bytes :=
  let full_label := lit "tls13 " ++ label in
  let info := be_bytes 2 (wrap 16 len) ++ [wrap 8 (zlen full_label)] ++ full_label ++ [wrap 8 (zlen context)] ++ context in
  if zlen prk <? hash_len cs then Err (Tls "TLS 1.3 HKDF-Expand: invalid PRK")
  else ok_or (tp_expand prim cs prk info len) (Tls "TLS 1.3 HKDF-Expand: output length").

Definition derive_secret (cs : CipherSuite) (prk label transcript_hash : bytes) : res ProxyError bytes :=
  expand_label cs prk label transcript_hash (hash_len cs).

Definition iv_from_label (cs : CipherSuite) (traffic_secret : bytes) : res ProxyError bytes :=
  raw ← expand_label cs traffic_secret (lit "iv") [] 12;
  if zlen raw =? 12 then Ok raw else Err (Tls "TLS 1.3 IV derivation length mismatch").

Record HsKeys := mkHsKeys {
  hk_client_key : bytes;
  hk_client_iv : bytes;
  hk_client_finished_key : bytes;
  hk_server_key : bytes;
  hk_server_iv : bytes;
  hk_server_finished_key : bytes;
  hk_master_secret : bytes;
}.

Record AppKeys := mkAppKeys {
  ak_cs : CipherSuite;
  ak_client_key : bytes;
  ak_client_iv : bytes;
  ak_server_key : bytes;
  ak_server_iv : bytes;
}.

Definition derive_handshake_keys (cs : CipherSuite) (dhe transcript_hash : bytes) : res ProxyError HsKeys :=
  let zero := replicate (Z.to_nat (hash_len cs)) 0 in
  let early_secret := tp_extract prim cs zero zero in
  let empty_hash := tp_hash prim cs [] in
  derived ← derive_secret cs early_secret (lit "derived") empty_hash;
  let hs_secret := tp_extract prim cs derived dhe in
  c_hs_traffic ← derive_secret cs hs_secret (lit "c hs traffic") transcript_hash;
  s_hs_traffic ← derive_secret cs hs_secret (lit "s hs traffic") transcript_hash;
  derived2 ← derive_secret cs hs_secret (lit "derived") empty_hash;
  let master_secret := tp_extract prim cs derived2 zero in
  c_key ← expand_label cs c_hs_traffic (lit "key") [] (key_len cs);
  c_iv ← iv_from_label cs c_hs_traffic;
  s_key ← expand_label cs s_hs_traffic (lit "key") [] (key_len cs);
  s_iv ← iv_from_label cs s_hs_traffic;
  c_fin ← expand_label cs c_hs_traffic (lit "finished") [] (hash_len cs);
  s_fin ← expand_label cs s_hs_traffic (lit "finished") [] (hash_len cs);
  Ok (mkHsKeys c_key c_iv c_fin s_key s_iv s_fin master_secret).

Definition derive_app_keys (cs : CipherSuite) (master_secret transcript_hash : bytes) : res ProxyError AppKeys :=
  c_app ← derive_secret cs master_secret (lit "c ap traffic") transcript_hash;
  s_app ← derive_secret cs master_secret (lit "s ap traffic") transcript_hash;
  c_key ← expand_label cs c_app (lit "key") [] (key_len cs);
  c_iv ← iv_from_label cs c_app;
  s_key ← expand_label cs s_app (lit "key") [] (key_len cs);
  s_iv ← iv_from_label cs s_app;
  Ok (mkAppKeys cs c_key c_iv s_key s_iv).

(** * Protected records *)

(** The last eight bytes of the IV are combined with the sequence number. *)
Definition compute_nonce (iv : bytes) (seq : Z) : bytes := take 4 iv ++ zip_with Z.lxor (drop 4 iv) (be_bytes 8 seq).

Definition decrypt_app_record (cs : CipherSuite) (key iv : bytes) (seq : Z) (ciphertext header : bytes) : res ProxyError (bytes * Z) :=
  let nonce := compute_nonce iv seq in
  if negb (zlen key =? key_len cs) then Err (Protocol "bad AES-GCM key len")
  else
    plaintext ← ok_or (open (tp_gcm prim cs) key nonce header ciphertext) (Protocol "AES-GCM decrypt failed");
    if zlen plaintext =? 0 then Err (Protocol "decrypted TLS record is empty (no content-type byte)")
    else
      inner_type ← idx plaintext (zlen plaintext - 1);
      inner ← slice plaintext 0 (zlen plaintext - 1);
      Ok (inner, inner_type).

(** The header of a protected record. *)
Definition app_header (ct_len : Z) : bytes := [RT_APPLICATION_DATA; 0x03; 0x03; wrap 8 (Z.shiftr ct_len 8); wrap 8 ct_len].

Definition encrypt_app_record (cs : CipherSuite) (key iv : bytes) (seq : Z) (inner_plaintext : bytes) (inner_type : Z) : res ProxyError bytes :=
  let msg := inner_plaintext ++ [inner_type] in
  let ct_len := zlen msg + 16 in
  let header := app_header ct_len in
  let nonce := compute_nonce iv seq in
  if negb (zlen key =? key_len cs) then Err (Protocol "bad AES-GCM key")
  else Ok (header ++ seal (tp_gcm prim cs) key nonce header msg).

(** * Handshake messages *)

(** The loop of [parse_server_hello] over the extensions. *)
Fixpoint server_ext_loop (fuel : nat) (hs_body : bytes) (ext_end pos : Z) (share : option (Z * bytes)) : res ProxyError (option (Z * bytes)) :=
  if pos + 4 <=? ext_end then
    match fuel with
    | O => NoFuel
    | S fuel =>
        ext_type ← u16_at hs_body pos;
        ext_len ← u16_at hs_body (pos + 2);
        let pos := pos + 4 in
        if pos + ext_len >? zlen hs_body then Ok share
        else
          ext_data ← slice hs_body pos (pos + ext_len);
          let pos := pos + ext_len in
          if (ext_type =? 0x0033) && (zlen ext_data >=? 4) then
            group ← u16_at ext_data 0;
            key_len ← u16_at ext_data 2;
            if zlen ext_data >=? 4 + key_len then
              key ← slice ext_data 4 (4 + key_len);
              server_ext_loop fuel hs_body ext_end pos (Some (group, key))
            else server_ext_loop fuel hs_body ext_end pos share
          else server_ext_loop fuel hs_body ext_end pos share
    end
  else Ok share.

(** The text of the error without a key share, which tells a HelloRetryRequest apart, is not modelled. *)
Definition parse_server_hello (hs_body : bytes) : res ProxyError (CipherSuite * Z * bytes) :=
  if zlen hs_body <? 4 then Err (Protocol "ServerHello body too short")
  else
    kind ← idx hs_body 0;
    if negb (kind =? HS_SERVER_HELLO) then Err (Protocol "expected ServerHello (0x02)")
    else
      _ ← slice hs_body 6 38;
      let pos := 38 in
      if pos >=? zlen hs_body then Err (Protocol "ServerHello: truncated at session_id")
      else
        sid_len ← idx hs_body pos;
        let pos := pos + (1 + sid_len) in
        if pos + 3 >? zlen hs_body then Err (Protocol "ServerHello: truncated at cipher_suite")
        else
          raw_cs ← u16_at hs_body pos;
          cs ← cs_from_u16 raw_cs;
          let pos := pos + 2 + 1 in
          if pos + 2 >? zlen hs_body then Err (Protocol "ServerHello: no extensions length")
          else
            ext_total ← u16_at hs_body pos;
            let pos := pos + 2 in
            share ← server_ext_loop (length hs_body) hs_body (Z.min (pos + ext_total) (zlen hs_body)) pos None;
            '(group, key) ← ok_or share (Protocol "ServerHello: no usable key_share");
            Ok (cs, group, key).

Fixpoint split_loop (fuel : nat) (data : bytes) (pos : Z) : res ProxyError (list (Z * bytes)) :=
  if pos + 4 <=? zlen data then
    match fuel with
    | O => NoFuel
    | S fuel =>
        hs_type ← idx data pos;
        b1 ← idx data (pos + 1);
        b2 ← idx data (pos + 2);
        b3 ← idx data (pos + 3);
        let hs_len := be_val [0; b1; b2; b3] in
        let msg_end := pos + 4 + hs_len in
        if msg_end >? zlen data then Ok []
        else
          msg ← slice data pos msg_end;
          rest ← split_loop fuel data msg_end;
          Ok ((hs_type, msg) :: rest)
    end
  else Ok [].

Definition split_handshake_messages (data : bytes) : res ProxyError (list (Z * bytes)) := split_loop (length data) data 0.

(** A message of a type: the type, the length and the payload. *)
Definition hs_message (t : Z) (payload : bytes) : bytes := put_u24 [t] (zlen payload) ++ payload.

Definition build_server_hello (cs : CipherSuite) (server_pub session_id random : bytes) : bytes :=
  let exts := [0x00; 0x2b; 0x00; 0x02; 0x03; 0x04] ++ [0x00; 0x33; 0x00; 0x24] ++ be_bytes 2 29 ++ be_bytes 2 32 ++ server_pub in
  let body_len := 2 + 32 + 1 + zlen session_id + 2 + 1 + 2 + zlen exts in
  put_u24 [HS_SERVER_HELLO] body_len ++ [0x03; 0x03] ++ random ++ [wrap 8 (zlen session_id)] ++ session_id
  ++ be_bytes 2 (cs_to_u16 cs) ++ [0] ++ be_bytes 2 (zlen exts) ++ exts.

Definition build_encrypted_extensions : bytes := hs_message HS_ENCRYPTED_EXTENSIONS [0; 0].

Definition SIG_ED25519 : Z := 0x0807.
Definition TLS13_SERVER_CERT_VERIFY_CONTEXT : bytes := lit "TLS 1.3, server CertificateVerify" ++ [0].

Definition build_certificate_verify (cs : CipherSuite) (signing_key transcript : bytes) : bytes :=
  let content := replicate 64 0x20 ++ TLS13_SERVER_CERT_VERIFY_CONTEXT ++ tp_hash prim cs transcript in
  let sig_bytes := tp_sign prim signing_key content in
  hs_message HS_CERTIFICATE_VERIFY (be_bytes 2 SIG_ED25519 ++ be_bytes 2 (zlen sig_bytes) ++ sig_bytes).

Definition build_finished (verify_data : bytes) : bytes := hs_message HS_FINISHED verify_data.

(** * The client *)

(** The loop over the messages of a record: the transcript, and whether Finished was among them. *)
Fixpoint client_messages (cs : CipherSuite) (keys : HsKeys) (auth_key : bytes) (msgs : list (Z * bytes)) (transcript : bytes) (found : bool)
  : res ProxyError (bytes * bool) :=
  match msgs with
  | [] => Ok (transcript, found)
  | (hs_type, msg) :: msgs =>
      if hs_type =? HS_CERTIFICATE then
        cert_der ← parse_certificate_message_der msg;
        _ ← verify_reality_cert_hmac (tp_cert prim) auth_key cert_der;
        client_messages cs keys auth_key msgs (transcript ++ msg) found
      else if (hs_type =? HS_ENCRYPTED_EXTENSIONS) || (hs_type =? HS_CERTIFICATE_VERIFY) then
        client_messages cs keys auth_key msgs (transcript ++ msg) found
      else if hs_type =? HS_FINISHED then
        let expected := tp_hmac prim cs (hk_server_finished_key keys) (tp_hash prim cs transcript) in
        verify_data ← slice_from msg 4;
        if negb (bytes_eqb verify_data expected) then Err (Protocol "server Finished HMAC mismatch")
        else client_messages cs keys auth_key msgs (transcript ++ msg) true
      else client_messages cs keys auth_key msgs transcript found
  end.

(** [while !found_finished]; the transcript at the end. *)
Fixpoint client_loop (fuel : nat) (cs : CipherSuite) (keys : HsKeys) (auth_key : bytes) (srv_seq : Z) (transcript : bytes) : hio bytes :=
  match fuel with
  | O => st_lift NoFuel
  | S fuel =>
      '(header, body) ← read_record;
      kind ← st_lift (idx header 0);
      if kind =? RT_CHANGE_CIPHER_SPEC then client_loop fuel cs keys auth_key srv_seq transcript
      else if kind =? RT_ALERT then st_fail (Protocol "TLS alert from server during handshake")
      else if kind =? RT_APPLICATION_DATA then
        '(inner, inner_type) ← st_lift (decrypt_app_record cs (hk_server_key keys) (hk_server_iv keys) srv_seq body header);
        let srv_seq := srv_seq + 1 in
        if negb (inner_type =? RT_HANDSHAKE) then client_loop fuel cs keys auth_key srv_seq transcript
        else
          msgs ← st_lift (split_handshake_messages inner);
          '(transcript, found) ← st_lift (client_messages cs keys auth_key msgs transcript false);
          if found : bool then mret transcript else client_loop fuel cs keys auth_key srv_seq transcript
      else st_fail (Protocol "unexpected TLS record type during handshake")
  end.

(** The shared secret for the group the server chose. *)
Definition client_dhe (x25519_secret : bytes) (p256_secret : option bytes) (selected_group : Z) (server_pub : bytes) : res ProxyError bytes :=
  dhe ← (if selected_group =? 29 then
           if negb (zlen server_pub =? 32) then Err (Protocol "ServerHello x25519 key_share length mismatch")
           else Ok (rp_dh (tp_x25519 prim) x25519_secret server_pub)
         else if selected_group =? 23 then
           match p256_secret with
           | None => Err (Protocol "ServerHello selected secp256r1 but client has no P-256 key share")
           | Some s => ok_or (tp_p256_dh prim s server_pub) (Protocol "invalid secp256r1 ServerHello key_share")
           end
         else Err (Protocol "unsupported ServerHello key_share group"));
  into_32 dhe (Protocol "TLS key agreement secret length mismatch").

(** Every record takes at least five bytes of the input, which bounds the turns of the loops. *)
Definition record_fuel : hio nat := fun '(inp, out) => ((inp, out), Ok (S (length inp))).

(** The client from its ServerHello [sh_body] on. *)
Definition client_after_hello (client_hello_hs_body x25519_secret : bytes) (p256_secret : option bytes) (auth_key sh_body : bytes) : hio AppKeys :=
  '(cs, selected_group, server_pub) ← st_lift (parse_server_hello sh_body);
  let transcript := client_hello_hs_body ++ sh_body in
  tls_dhe ← st_lift (client_dhe x25519_secret p256_secret selected_group server_pub);
  hs_keys ← st_lift (derive_handshake_keys cs tls_dhe (tp_hash prim cs transcript));
  fuel ← record_fuel;
  transcript ← client_loop fuel cs hs_keys auth_key 0 transcript;
  let app_transcript_hash := tp_hash prim cs transcript in
  app_keys ← st_lift (derive_app_keys cs (hk_master_secret hs_keys) app_transcript_hash);
  _ ← write_all CCS_RECORD;
  let client_finished_data := tp_hmac prim cs (hk_client_finished_key hs_keys) app_transcript_hash in
  record ← st_lift (encrypt_app_record cs (hk_client_key hs_keys) (hk_client_iv hs_keys) 0 (build_finished client_finished_data) RT_HANDSHAKE);
  _ ← write_all record;
  mret app_keys.

Definition complete_tls13_handshake (client_hello_hs_body x25519_secret : bytes) (p256_secret : option bytes) (auth_key : bytes) : hio AppKeys :=
  '(sh_header, sh_body) ← read_record;
  kind ← st_lift (idx sh_header 0);
  if negb (kind =? RT_HANDSHAKE) then st_fail (Protocol "expected TLS Handshake (0x16)")
  else client_after_hello client_hello_hs_body x25519_secret p256_secret auth_key sh_body.

(** * The server *)

(** [chunks_exact(2)]. *)
Fixpoint u16_chunks (l : bytes) : list Z :=
  match l with
  | a :: b :: l => be_val [a; b] :: u16_chunks l
  | _ => []
  end.

Definition pick_cipher_suite (ch_body : bytes) : res ProxyError CipherSuite :=
  suites ← client_hello_cipher_suites ch_body;
  if existsb (Z.eqb 0x1301) (u16_chunks suites) then cs_from_u16 0x1301
  else if existsb (Z.eqb 0x1302) (u16_chunks suites) then cs_from_u16 0x1302
  else Err (Protocol "ClientHello offers no supported TLS 1.3 cipher suite").

Definition write_encrypted_hs (cs : CipherSuite) (keys : HsKeys) (seq : Z) (hs_msg : bytes) : hio Z :=
  record ← st_lift (encrypt_app_record cs (hk_server_key keys) (hk_server_iv keys) seq hs_msg RT_HANDSHAKE);
  _ ← write_all record;
  mret (seq + 1).

(** The first Finished among the messages of a record. *)
Fixpoint find_finished (cs : CipherSuite) (keys : HsKeys) (app_transcript_hash : bytes) (msgs : list (Z * bytes)) : res ProxyError bool :=
  match msgs with
  | [] => Ok false
  | (hs_type, msg) :: msgs =>
      if hs_type =? HS_FINISHED then
        verify_data ← slice_from msg 4;
        let expected := tp_hmac prim cs (hk_client_finished_key keys) app_transcript_hash in
        if negb (bytes_eqb verify_data expected) then Err (Protocol "client Finished HMAC mismatch") else Ok true
      else find_finished cs keys app_transcript_hash msgs
  end.

Fixpoint finished_loop (fuel : nat) (cs : CipherSuite) (keys : HsKeys) (app_transcript_hash : bytes) (cli_seq : Z) : hio unit :=
  match fuel with
  | O => st_lift NoFuel
  | S fuel =>
      '(header, body) ← read_record;
      kind ← st_lift (idx header 0);
      if kind =? RT_CHANGE_CIPHER_SPEC then finished_loop fuel cs keys app_transcript_hash cli_seq
      else if kind =? RT_ALERT then st_fail (Protocol "TLS alert from client during handshake")
      else if kind =? RT_APPLICATION_DATA then
        '(inner, inner_type) ← st_lift (decrypt_app_record cs (hk_client_key keys) (hk_client_iv keys) cli_seq body header);
        let cli_seq := cli_seq + 1 in
        if negb (inner_type =? RT_HANDSHAKE) then finished_loop fuel cs keys app_transcript_hash cli_seq
        else
          msgs ← st_lift (split_handshake_messages inner);
          found ← st_lift (find_finished cs keys app_transcript_hash msgs);
          if found : bool then mret () else finished_loop fuel cs keys app_transcript_hash cli_seq
      else st_fail (Protocol "unexpected TLS record waiting for client Finished")
  end.

Definition read_client_finished (cs : CipherSuite) (keys : HsKeys) (app_transcript_hash : bytes) : hio unit :=
  fuel ← record_fuel;
  finished_loop fuel cs keys app_transcript_hash 0.

(** [template] is what [get_template] gives for the cover name; [server_secret] and [random] are drawn. *)
Definition complete_tls13_server_handshake (template : CertTemplate) (auth_key server_secret random : bytes) : hio AppKeys :=
  '(ch_header, ch_body) ← read_record;
  kind ← st_lift (idx ch_header 0);
  if negb (kind =? RT_HANDSHAKE) || negb (bool_decide (head ch_body = Some HS_CLIENT_HELLO)) then st_fail (Protocol "REALITY server TLS: expected ClientHello record")
  else
    cs ← st_lift (pick_cipher_suite ch_body);
    fields ← st_lift (parse_client_hello ch_body);
    let client_share := f_x25519_key_share fields in
    '(cert_der, signing_key) ← st_lift (tls_cert_for_auth_key (tp_cert prim) template auth_key);
    _ ← st_lift (map_err (fun _ => Tls "REALITY cert self-check before send") (verify_reality_cert_hmac (tp_cert prim) auth_key cert_der));
    let server_pub := rp_public (tp_x25519 prim) server_secret in
    session_id ← st_lift (client_hello_session_id ch_body);
    let sh_body := build_server_hello cs server_pub session_id random in
    _ ← write_all (write_handshake_record sh_body);
    let transcript := ch_body ++ sh_body in
    tls_dhe ← st_lift (into_32 (rp_dh (tp_x25519 prim) server_secret client_share) (Protocol "TLS DHE secret length mismatch"));
    hs_keys ← st_lift (derive_handshake_keys cs tls_dhe (tp_hash prim cs transcript));
    _ ← write_all CCS_RECORD;
    let ee_msg := build_encrypted_extensions in
    let transcript := transcript ++ ee_msg in
    seq ← write_encrypted_hs cs hs_keys 0 ee_msg;
    let cert_msg := build_certificate cert_der in
    let transcript := transcript ++ cert_msg in
    seq ← write_encrypted_hs cs hs_keys seq cert_msg;
    let cv_msg := build_certificate_verify cs signing_key transcript in
    let transcript := transcript ++ cv_msg in
    seq ← write_encrypted_hs cs hs_keys seq cv_msg;
    let server_finished_data := tp_hmac prim cs (hk_server_finished_key hs_keys) (tp_hash prim cs transcript) in
    let finished_msg := build_finished server_finished_data in
    let transcript := transcript ++ finished_msg in
    _ ← write_encrypted_hs cs hs_keys seq finished_msg;
    let app_transcript_hash := tp_hash prim cs transcript in
    app_keys ← st_lift (derive_app_keys cs (hk_master_secret hs_keys) app_transcript_hash);
    _ ← read_client_finished cs hs_keys app_transcript_hash;
    mret app_keys.

(** * Steps of a handshake *)

Lemma lift_ok {A B} (m : res ProxyError A) (f : A -> hio B) a s : m = Ok a -> (st_lift m ≫= f) s = f a s.
Proof. by intros ->. Qed.

(** A record in front of the input. *)
Lemma read_record_ok h body rest out :
  zlen h = 5 -> u16_at h 3 = Ok (zlen body) -> read_record (h ++ body ++ rest, out) = ((rest, out), Ok (h, body)).
Proof.
  intros Hh Hu. unfold read_record. erewrite sbind_ok; [| unfold recv_exact; by rewrite read_exact_app by done].
  rewrite (lift_ok _ _ _ _ Hu). erewrite sbind_ok; [done |]. unfold recv_exact. by rewrite read_exact_app by done.
Qed.

Lemma read_record_step {B} h body rest out (f : bytes * bytes -> hio B) :
  zlen h = 5 -> u16_at h 3 = Ok (zlen body) -> (read_record ≫= f) (h ++ body ++ rest, out) = f (h, body) (rest, out).
Proof. intros Hh Hu. apply sbind_ok. by apply read_record_ok. Qed.

Lemma handshake_header body : zlen body < 65536 ->
  exists h, write_handshake_record body = h ++ body /\ zlen h = 5 /\ u16_at h 3 = Ok (zlen body) /\ idx (E:=ProxyError) h 0 = Ok RT_HANDSHAKE.
Proof.
  intros Hl. pose proof (zlen_nonneg body). exists ([RT_HANDSHAKE; 3; 3] ++ be_bytes 2 (zlen body)). split_and!; [done | by rewrite zlen_app, zlen_be_bytes | | done].
  eapply (u16_at_ok _ [RT_HANDSHAKE; 3; 3] (zlen body) []); [by rewrite app_nil_r | done | unfold is_u; lia].
Qed.

Lemma app_header_len n : 0 <= n < 65536 -> zlen (app_header n) = 5 /\ u16_at (app_header n) 3 = Ok n /\ idx (E:=ProxyError) (app_header n) 0 = Ok RT_APPLICATION_DATA.
Proof.
  intros Hn. split_and!; [done | | done]. unfold u16_at, app_header.
  set (a := wrap 8 (Z.shiftr n 8)). set (b := wrap 8 n).
  change (idx _ 3) with (Ok (E:=ProxyError) a). change (idx _ (3 + 1)) with (Ok (E:=ProxyError) b). cbn [mbind res_bind]. f_equal.
  rewrite !be_val_cons, be_val_nil. change (256 ^ zlen [b]) with 256. change (256 ^ zlen []) with 1. unfold a, b, wrap. rewrite Z.shiftr_div_pow2 by lia.
  change (2 ^ 8) with 256. rewrite (Z.mod_small (n / 256)); [pose proof (Z.div_mod n 256); lia |].
  split; [apply Z.div_pos; lia | apply Z.div_lt_upper_bound; lia].
Qed.

(** One message is found in the data of its own. *)
Lemma split_message t payload : is_u 24 (zlen payload) -> split_handshake_messages (hs_message t payload) = Ok [(t, hs_message t payload)].
Proof.
  intros Hp. unfold split_handshake_messages, hs_message. rewrite put_u24_app. cbn [app]. set (u := u24 (zlen payload)). set (data := t :: u ++ payload).
  assert (Hl : zlen data = 4 + zlen payload) by (unfold data; rewrite zlen_cons, zlen_app; change (zlen u) with 3; lia).
  assert (Hn : length data = S (S (S (S (length payload))))) by (unfold data, u, u24, put_u24; by rewrite length_cons).
  rewrite Hn. remember (S (S (S (length payload)))) as fuel eqn:Ef. cbn [split_loop]. pose proof (zlen_nonneg payload). rewrite Hl, (proj2 (Z.leb_le _ _)) by lia.
  unfold data, u, u24, put_u24. cbn [app]. set (a := wrap 8 (Z.shiftr (zlen payload) 16)). set (b := wrap 8 (Z.shiftr (zlen payload) 8)). set (c := wrap 8 (zlen payload)).
  change (idx _ 0) with (Ok (E:=ProxyError) t). change (idx _ (0 + 1)) with (Ok (E:=ProxyError) a). change (idx _ (0 + 2)) with (Ok (E:=ProxyError) b).
  change (idx _ (0 + 3)) with (Ok (E:=ProxyError) c). cbn [mbind res_bind].
  assert (Hv : be_val [0; a; b; c] = zlen payload).
  { rewrite !be_val_cons, be_val_nil. change (256 ^ zlen [a; b; c]) with (256 ^ 3). change (256 ^ zlen [b; c]) with (256 ^ 2). change (256 ^ zlen [c]) with 256. change (256 ^ zlen []) with 1.
    unfold a, b, c, wrap, is_u in *. rewrite !Z.shiftr_div_pow2 by lia. change (2 ^ 8) with 256. change (2 ^ 16) with 65536. zdiv. }
  rewrite Hv, Z.gtb_ltb, (proj2 (Z.ltb_ge _ _)) by lia.
  rewrite (slice_split _ [] (t :: a :: b :: c :: payload) [] 0 (0 + 4 + zlen payload)); [| by rewrite app_nil_r | done | rewrite !zlen_cons; change (zlen []) with 0; lia].
  cbn [mbind res_bind]. assert (Hd : zlen (t :: a :: b :: c :: payload) = 4 + zlen payload) by (rewrite !zlen_cons; lia).
  subst fuel. cbn [split_loop]. by rewrite Hd, (proj2 (Z.leb_gt _ _)) by lia.
Qed.

Lemma message_payload t payload : slice_from (E:=ProxyError) (hs_message t payload) 4 = Ok payload.
Proof. by apply slice_from_app. Qed.

(** ** The ServerHello *)

Lemma server_exts_read pre pub fuel :
  zlen pub = 32 -> (2 <= fuel)%nat ->
  let es := [(0x2b, [3; 4]); (0x33, be_bytes 2 29 ++ be_bytes 2 32 ++ pub)] in
  server_ext_loop fuel (pre ++ exts_bytes es) (zlen (pre ++ exts_bytes es)) (zlen pre) None = Ok (Some (29, pub)).
Proof.
  intros Hp Hf es. destruct fuel as [| [| fuel]]; [lia | lia |]. cbn [server_ext_loop].
  set (d := be_bytes 2 29 ++ be_bytes 2 32 ++ pub). assert (Hd : zlen d = 36) by (unfold d; rewrite !zlen_app, !zlen_be_bytes, Hp; lia).
  assert (Ho1 : ext_ok (0x2b, [3; 4])) by done. assert (Ho2 : ext_ok (0x33, d)) by (split; cbn [fst snd]; [done | rewrite Hd; done]).
  set (body := pre ++ exts_bytes es).
  destruct (ext_at body pre 0x2b [3; 4] (exts_bytes [(0x33, d)]) (zlen pre) eq_refl eq_refl Ho1) as (L1 & A1 & B1 & C1).
  assert (Eb : body = (pre ++ ext_bytes (0x2b, [3; 4])) ++ ext_bytes (0x33, d) ++ []) by (unfold body, exts_bytes, es; cbn [fmap list_fmap concat]; by rewrite <- app_assoc).
  assert (Hp2 : zlen pre + 4 + zlen [3; 4] = zlen (pre ++ ext_bytes (0x2b, [3; 4]))) by (rewrite zlen_app, ext_bytes_len; cbn [snd]; lia).
  destruct (ext_at body _ 0x33 d [] _ Eb Hp2 Ho2) as (L2 & A2 & B2 & C2). change (zlen [3; 4]) with 2 in *. change (zlen []) with 0 in L2. rewrite Hd in *.
  rewrite (proj2 (Z.leb_le (zlen pre + 4) _)) by lia. rewrite A1, B1. cbn [mbind res_bind]. rewrite !Z.gtb_ltb, (proj2 (Z.ltb_ge (zlen body) (zlen pre + 4 + 2))) by lia.
  rewrite C1. cbn [mbind res_bind Z.eqb Pos.eqb andb]. rewrite (proj2 (Z.leb_le (zlen pre + 4 + 2 + 4) _)) by lia. rewrite A2, B2. cbn [mbind res_bind].
  rewrite Z.gtb_ltb, (proj2 (Z.ltb_ge (zlen body) _)) by lia. rewrite C2. cbn [mbind res_bind Z.eqb Pos.eqb andb]. rewrite Hd.
  cbn [Z.geb Z.compare Pos.compare Pos.compare_cont].
  rewrite (u16_at_ok d [] 29 (be_bytes 2 32 ++ pub) 0) by done. rewrite (u16_at_ok d (be_bytes 2 29) 32 pub 2) by (done || by rewrite zlen_be_bytes). cbn [mbind res_bind].
  cbn [Z.geb Z.compare Pos.compare Pos.compare_cont Z.add Pos.add].
  rewrite (slice_split d (be_bytes 2 29 ++ be_bytes 2 32) pub [] 4 36); [| unfold d; by rewrite app_nil_r, <- app_assoc | by rewrite zlen_app, !zlen_be_bytes | by rewrite zlen_app, !zlen_be_bytes, Hp].
  cbn [mbind res_bind]. rewrite L2. destruct fuel; cbn [server_ext_loop]; by rewrite (proj2 (Z.leb_gt _ _)) by lia.
Qed.

Lemma server_hello_ok cs pub sid random :
  zlen pub = 32 -> zlen random = 32 -> zlen sid <= 255 ->
  parse_server_hello (build_server_hello cs pub sid random) = Ok (cs, 29, pub) /\ zlen (build_server_hello cs pub sid random) = 90 + zlen sid.
Proof.
  intros Hp Hr Hs. pose proof (zlen_nonneg sid) as H0. unfold build_server_hello.
  set (es := [(0x2b, [3; 4]); (0x33, be_bytes 2 29 ++ be_bytes 2 32 ++ pub)]).
  assert (Ee : [0; 43; 0; 2; 3; 4] ++ [0; 51; 0; 36] ++ be_bytes 2 29 ++ be_bytes 2 32 ++ pub = exts_bytes es).
  { unfold es, exts_bytes, ext_bytes. cbn [fmap list_fmap concat fst snd]. rewrite zlen_app, zlen_app, !zlen_be_bytes, Hp, app_nil_r.
    change (Z.of_nat 2 + (Z.of_nat 2 + 32)) with 36. rewrite <- !app_assoc. change (zlen [3; 4]) with 2. by rewrite !be_bytes_2. }
  rewrite Ee. assert (Hel : zlen (exts_bytes es) = 46) by (rewrite <- Ee; rewrite !zlen_app, !zlen_be_bytes, Hp; done). rewrite Hel.
  rewrite put_u24_app. set (head := [HS_SERVER_HELLO] ++ u24 (2 + 32 + 1 + zlen sid + 2 + 1 + 2 + 46)). assert (Hh : zlen head = 4) by done.
  assert (Hw : wrap 8 (zlen sid) = zlen sid) by (unfold wrap; apply Z.mod_small; change (2 ^ 8) with 256; lia). rewrite Hw.
  set (body := head ++ [3; 3] ++ random ++ [zlen sid] ++ sid ++ be_bytes 2 (cs_to_u16 cs) ++ [0] ++ be_bytes 2 46 ++ exts_bytes es).
  assert (Hl : zlen body = 90 + zlen sid) by (unfold body; len_solve). split; [| done].
  assert (Hc : is_u 16 (cs_to_u16 cs)) by (by destruct cs).
  assert (A1 : idx (E:=ProxyError) body 38 = Ok (zlen sid)).
  { unfold body. replace (head ++ [3; 3] ++ random ++ [zlen sid] ++ sid ++ be_bytes 2 (cs_to_u16 cs) ++ [0] ++ be_bytes 2 46 ++ exts_bytes es)
      with ((head ++ [3; 3] ++ random) ++ zlen sid :: sid ++ be_bytes 2 (cs_to_u16 cs) ++ [0] ++ be_bytes 2 46 ++ exts_bytes es) by (by rewrite <- !app_assoc).
    apply idx_app_mid. len_solve. }
  assert (A2 : u16_at body (38 + (1 + zlen sid)) = Ok (cs_to_u16 cs)).
  { eapply (u16_at_ok _ (head ++ [3; 3] ++ random ++ [zlen sid] ++ sid)); [unfold body; by rewrite <- !app_assoc | len_solve | done]. }
  assert (A3 : u16_at body (38 + (1 + zlen sid) + 2 + 1) = Ok 46).
  { eapply (u16_at_ok _ (head ++ [3; 3] ++ random ++ [zlen sid] ++ sid ++ be_bytes 2 (cs_to_u16 cs) ++ [0])); [unfold body; by rewrite <- !app_assoc | len_solve | done]. }
  unfold parse_server_hello. rewrite Hl, (proj2 (Z.ltb_ge _ _)) by lia. change (idx body 0) with (Ok (E:=ProxyError) HS_SERVER_HELLO). cbn [mbind res_bind].
  rewrite Z.eqb_refl. cbn [negb]. rewrite (slice_in_range body 6 38) by lia. cbn [mbind res_bind]. rewrite Z.geb_leb, (proj2 (Z.leb_gt _ _)) by lia.
  rewrite A1. cbn [mbind res_bind]. rewrite !Z.gtb_ltb, (proj2 (Z.ltb_ge _ _)) by lia. rewrite A2. cbn [mbind res_bind].
  assert (Ecs : cs_from_u16 (cs_to_u16 cs) = Ok cs) by (by destruct cs). rewrite Ecs. cbn [mbind res_bind]. rewrite ?Z.gtb_ltb, (proj2 (Z.ltb_ge _ _)) by lia.
  rewrite A3. cbn [mbind res_bind].
  set (pre := head ++ [3; 3] ++ random ++ [zlen sid] ++ sid ++ be_bytes 2 (cs_to_u16 cs) ++ [0] ++ be_bytes 2 46).
  assert (Eb : body = pre ++ exts_bytes es) by (unfold body, pre; by rewrite <- !app_assoc).
  assert (Hpre : 38 + (1 + zlen sid) + 2 + 1 + 2 = zlen pre) by (unfold pre; len_solve). rewrite Hpre.
  assert (Hmin : Z.min (zlen pre + 46) (90 + zlen sid) = zlen body) by lia. rewrite Hmin.
  assert (Hfu : (2 <= length body)%nat) by (unfold zlen in Hl; lia). revert Hfu. rewrite Eb. intros Hfu.
  pose proof (server_exts_read pre pub _ Hp Hfu) as H. cbv zeta in H. fold es in H. by rewrite H.
Qed.

Context `{!TlsLaws prim}.

(** ** Keys *)

Lemma expand_label_ok cs prk label context n :
  zlen prk = hash_len cs -> 0 <= n <= 255 * hash_len cs -> exists o, expand_label cs prk label context n = Ok o /\ zlen o = n.
Proof.
  intros Hp Hn. unfold expand_label. rewrite Hp, Z.ltb_irrefl.
  match goal with |- context [tp_expand prim cs prk ?i n] => destruct (tl_expand cs prk i n Hn) as (o & -> & Ho) end. by exists o.
Qed.

Lemma derive_secret_ok cs prk label h : zlen prk = hash_len cs -> exists o, derive_secret cs prk label h = Ok o /\ zlen o = hash_len cs.
Proof. intros Hp. apply expand_label_ok; [done |]. destruct cs; cbn; lia. Qed.

Lemma iv_ok cs secret : zlen secret = hash_len cs -> exists o, iv_from_label cs secret = Ok o /\ zlen o = 12.
Proof.
  intros Hs. unfold iv_from_label. destruct (expand_label_ok cs secret (lit "iv") [] 12 Hs) as (o & -> & Ho); [destruct cs; cbn; lia |].
  cbn [mbind res_bind]. rewrite Ho. by exists o.
Qed.

Lemma key_ok_label cs secret : zlen secret = hash_len cs -> exists o, expand_label cs secret (lit "key") [] (key_len cs) = Ok o /\ zlen o = key_len cs.
Proof. intros Hs. apply expand_label_ok; [done |]. destruct cs; cbn; lia. Qed.

Definition hs_keys_ok (cs : CipherSuite) (k : HsKeys) : Prop :=
  zlen (hk_client_key k) = key_len cs /\ zlen (hk_server_key k) = key_len cs /\ zlen (hk_master_secret k) = hash_len cs.

Lemma handshake_keys_ok cs dhe h : exists k, derive_handshake_keys cs dhe h = Ok k /\ hs_keys_ok cs k.
Proof.
  unfold derive_handshake_keys. set (zero := replicate _ 0). set (early := tp_extract prim cs zero zero). set (eh := tp_hash prim cs []).
  destruct (derive_secret_ok cs early (lit "derived") eh (tl_extract _ _ _)) as (d & -> & Hd). cbn [mbind res_bind].
  set (hs := tp_extract prim cs d dhe). assert (Hhs : zlen hs = hash_len cs) by apply tl_extract.
  destruct (derive_secret_ok cs hs (lit "c hs traffic") h Hhs) as (c & -> & Hc). cbn [mbind res_bind].
  destruct (derive_secret_ok cs hs (lit "s hs traffic") h Hhs) as (s & -> & Hs). cbn [mbind res_bind].
  destruct (derive_secret_ok cs hs (lit "derived") eh Hhs) as (d2 & -> & Hd2). cbn [mbind res_bind].
  destruct (key_ok_label cs c Hc) as (ck & -> & Hck). destruct (iv_ok cs c Hc) as (ci & -> & _). cbn [mbind res_bind].
  destruct (key_ok_label cs s Hs) as (sk & -> & Hsk). destruct (iv_ok cs s Hs) as (si & -> & _). cbn [mbind res_bind].
  destruct (derive_secret_ok cs c (lit "finished") [] Hc) as (cf & Ecf & _). destruct (derive_secret_ok cs s (lit "finished") [] Hs) as (sf & Esf & _).
  unfold derive_secret in Ecf, Esf. rewrite Ecf, Esf. cbn [mbind res_bind]. eexists. split; [done |]. split_and!; [done | done | apply tl_extract].
Qed.

Definition app_keys_ok (k : AppKeys) : Prop :=
  zlen (ak_client_key k) = key_len (ak_cs k) /\ zlen (ak_server_key k) = key_len (ak_cs k) /\ zlen (ak_client_iv k) = 12 /\ zlen (ak_server_iv k) = 12.

Lemma derived_app_keys_ok cs master h : zlen master = hash_len cs -> exists k, derive_app_keys cs master h = Ok k /\ app_keys_ok k /\ ak_cs k = cs.
Proof.
  intros Hm. unfold derive_app_keys.
  destruct (derive_secret_ok cs master (lit "c ap traffic") h Hm) as (c & -> & Hc). cbn [mbind res_bind].
  destruct (derive_secret_ok cs master (lit "s ap traffic") h Hm) as (s & -> & Hs). cbn [mbind res_bind].
  destruct (key_ok_label cs c Hc) as (ck & -> & Hck). destruct (iv_ok cs c Hc) as (ci & -> & Hci). cbn [mbind res_bind].
  destruct (key_ok_label cs s Hs) as (sk & -> & Hsk). destruct (iv_ok cs s Hs) as (si & -> & Hsi). cbn [mbind res_bind].
  eexists. split; [done |]. by split.
Qed.

(** ** Records *)

(** A sealed record, as it is read and opened. *)
Lemma record_roundtrip cs key iv seq inner t :
  zlen key = key_len cs -> zlen inner + 17 < 65536 ->
  exists h ct, encrypt_app_record cs key iv seq inner t = Ok (h ++ ct) /\ zlen h = 5 /\ u16_at h 3 = Ok (zlen ct)
    /\ idx (E:=ProxyError) h 0 = Ok RT_APPLICATION_DATA /\ decrypt_app_record cs key iv seq ct h = Ok (inner, t) /\ zlen ct = zlen inner + 17.
Proof.
  intros Hk Hl. unfold encrypt_app_record. rewrite Hk, Z.eqb_refl. cbn [negb]. set (msg := inner ++ [t]).
  assert (Hm : zlen msg = zlen inner + 1) by (unfold msg; rewrite zlen_app; done). set (h := app_header (zlen msg + 16)).
  set (ct := seal _ _ _ h msg). assert (Hct : zlen ct = zlen msg + 16) by apply seal_len. pose proof (zlen_nonneg inner).
  destruct (app_header_len (zlen msg + 16) ltac:(lia)) as (H1 & H2 & H3). exists h, ct. split_and!; [done | done | by rewrite Hct | done | | lia].
  unfold decrypt_app_record. rewrite Hk, Z.eqb_refl. cbn [negb]. unfold ct. rewrite open_seal. cbn [ok_or mbind res_bind].
  rewrite Hm, (proj2 (Z.eqb_neq _ 0)) by lia. unfold msg. rewrite (idx_app_mid inner [] t) by lia. cbn [mbind res_bind].
  rewrite (slice_split (inner ++ [t]) [] inner [t]); [done | done | done | rewrite zlen_nil; lia].
Qed.

(** ** The loops *)

Lemma ccs_header : zlen (take 5 CCS_RECORD) = 5 /\ u16_at (take 5 CCS_RECORD) 3 = Ok (zlen [1]) /\ idx (E:=ProxyError) (take 5 CCS_RECORD) 0 = Ok RT_CHANGE_CIPHER_SPEC.
Proof. vm_compute. done. Qed.

Lemma client_ccs fuel cs keys auth seq tr rest out :
  client_loop (S fuel) cs keys auth seq tr (CCS_RECORD ++ rest, out) = client_loop fuel cs keys auth seq tr (rest, out).
Proof.
  destruct ccs_header as (H1 & H2 & H3). cbn [client_loop]. change (CCS_RECORD ++ rest) with (take 5 CCS_RECORD ++ [1] ++ rest).
  rewrite (read_record_step _ _ _ _ _ H1 H2). by rewrite (lift_ok _ _ _ _ H3).
Qed.

Lemma finished_ccs fuel cs keys th seq rest out :
  finished_loop (S fuel) cs keys th seq (CCS_RECORD ++ rest, out) = finished_loop fuel cs keys th seq (rest, out).
Proof.
  destruct ccs_header as (H1 & H2 & H3). cbn [finished_loop]. change (CCS_RECORD ++ rest) with (take 5 CCS_RECORD ++ [1] ++ rest).
  rewrite (read_record_step _ _ _ _ _ H1 H2). by rewrite (lift_ok _ _ _ _ H3).
Qed.

(** A record of the server with the message [msg]: what is written and what the client makes of it. *)
Definition server_record (cs : CipherSuite) (keys : HsKeys) (seq : Z) (msg rec : bytes) : Prop :=
  encrypt_app_record cs (hk_server_key keys) (hk_server_iv keys) seq msg RT_HANDSHAKE = Ok rec.

Lemma client_message fuel cs keys auth seq tr t payload rec rest out tr' found :
  hs_keys_ok cs keys -> zlen payload + 21 < 65536 -> server_record cs keys seq (hs_message t payload) rec ->
  client_messages cs keys auth [(t, hs_message t payload)] tr false = Ok (tr', found) ->
  client_loop (S fuel) cs keys auth seq tr (rec ++ rest, out)
  = if found then ((rest, out), Ok tr') else client_loop fuel cs keys auth (seq + 1) tr' (rest, out).
Proof.
  intros (_ & Hk & _) Hp Hr Hm. assert (Hl : zlen (hs_message t payload) = 4 + zlen payload) by (unfold hs_message, put_u24; rewrite zlen_app; done).
  pose proof (zlen_nonneg payload). destruct (record_roundtrip cs (hk_server_key keys) (hk_server_iv keys) seq (hs_message t payload) RT_HANDSHAKE Hk ltac:(lia))
    as (h & ct & E & H1 & H2 & H3 & H4 & _). unfold server_record in Hr. rewrite Hr in E. injection E as ->.
  cbn [client_loop]. rewrite <- app_assoc, (read_record_step _ _ _ _ _ H1 H2), (lift_ok _ _ _ _ H3).
  cbn [Z.eqb Pos.eqb RT_CHANGE_CIPHER_SPEC RT_ALERT RT_APPLICATION_DATA]. rewrite (lift_ok _ _ _ _ H4). cbn [Z.eqb Pos.eqb RT_HANDSHAKE negb].
  rewrite (lift_ok _ _ _ _ (split_message t payload ltac:(unfold is_u; lia))), (lift_ok _ _ _ _ Hm). by destruct found.
Qed.

Lemma finished_message fuel cs keys th payload rec rest out :
  hs_keys_ok cs keys -> zlen payload + 21 < 65536 -> payload = tp_hmac prim cs (hk_client_finished_key keys) th ->
  encrypt_app_record cs (hk_client_key keys) (hk_client_iv keys) 0 (build_finished payload) RT_HANDSHAKE = Ok rec ->
  finished_loop (S fuel) cs keys th 0 (rec ++ rest, out) = ((rest, out), Ok ()).
Proof.
  intros (Hk & _) Hp Ep Hr. assert (Hl : zlen (hs_message HS_FINISHED payload) = 4 + zlen payload) by (unfold hs_message, put_u24; rewrite zlen_app; done).
  pose proof (zlen_nonneg payload). destruct (record_roundtrip cs (hk_client_key keys) (hk_client_iv keys) 0 (build_finished payload) RT_HANDSHAKE Hk ltac:(unfold build_finished; lia))
    as (h & ct & E & H1 & H2 & H3 & H4 & _). rewrite Hr in E. injection E as ->.
  cbn [finished_loop]. rewrite <- app_assoc, (read_record_step _ _ _ _ _ H1 H2), (lift_ok _ _ _ _ H3).
  cbn [Z.eqb Pos.eqb RT_CHANGE_CIPHER_SPEC RT_ALERT RT_APPLICATION_DATA]. rewrite (lift_ok _ _ _ _ H4). cbn [Z.eqb Pos.eqb RT_HANDSHAKE negb].
  rewrite (lift_ok _ _ _ _ (split_message HS_FINISHED payload ltac:(unfold is_u; lia))).
  assert (Hf : find_finished cs keys th [(HS_FINISHED, hs_message HS_FINISHED payload)] = Ok true); [| by rewrite (lift_ok _ _ _ _ Hf)].
  cbn [find_finished]. rewrite Z.eqb_refl, message_payload. cbn [mbind res_bind]. rewrite Ep. unfold bytes_eqb.
  by rewrite bool_decide_eq_true_2.
Qed.

Lemma seal_exists cs key iv seq msg : zlen key = key_len cs -> exists r, encrypt_app_record cs key iv seq msg RT_HANDSHAKE = Ok r.
Proof. intros Hk. unfold encrypt_app_record. rewrite Hk, Z.eqb_refl. by eexists. Qed.

(** The secret of the client for a key of X25519. *)
Lemma client_dhe_ok x_secret p256_secret server_secret :
  client_dhe x_secret p256_secret 29 (rp_public (tp_x25519 prim) server_secret) = Ok (rp_dh (tp_x25519 prim) server_secret (rp_public (tp_x25519 prim) x_secret)).
Proof.
  unfold client_dhe. rewrite (@public_len (tp_x25519 prim) _ server_secret). cbn [Z.eqb Pos.eqb negb mbind res_bind].
  rewrite (@dh_agrees (tp_x25519 prim) _ x_secret server_secret). unfold into_32. by rewrite (@dh_len (tp_x25519 prim) _).
Qed.

Lemma client_finished cs keys auth tr vd :
  vd = tp_hmac prim cs (hk_server_finished_key keys) (tp_hash prim cs tr) ->
  client_messages cs keys auth [(HS_FINISHED, hs_message HS_FINISHED vd)] tr false = Ok (tr ++ hs_message HS_FINISHED vd, true).
Proof.
  intros Ev. cbn [client_messages]. cbn [Z.eqb Pos.eqb HS_CERTIFICATE HS_FINISHED HS_ENCRYPTED_EXTENSIONS HS_CERTIFICATE_VERIFY orb].
  rewrite message_payload. cbn [mbind res_bind]. rewrite Ev. unfold bytes_eqb. by rewrite bool_decide_eq_true_2.
Qed.

(** ** Both sides *)

Section agree.
Context (ch x_secret auth_key server_secret random sid cert_der : bytes) (p256_secret : option bytes) (template : CertTemplate) (cs : CipherSuite) (fields : ClientHelloFields).
Context (hk : HsKeys) (keys : AppKeys) (r0 r1 r2 r3 r4 : bytes).
Hypothesis (Hcs : pick_cipher_suite ch = Ok cs) (Hf : parse_client_hello ch = Ok fields)
  (Hx : f_x25519_key_share fields = rp_public (tp_x25519 prim) x_secret)
  (Hsid : client_hello_session_id ch = Ok sid) (Hsl : zlen sid <= 255) (Hhd : head ch = Some HS_CLIENT_HELLO) (Hcl : zlen ch < 65536)
  (Hr : zlen random = 32) (Hcert : tls_cert_for_auth_key (tp_cert prim) template auth_key = Ok (cert_der, ct_signing_key template))
  (Hver : verify_reality_cert_hmac (tp_cert prim) auth_key cert_der = Ok ()) (Hcd : zlen cert_der <= 60000).

Let pub := rp_public (tp_x25519 prim) server_secret.
Let sh := build_server_hello cs pub sid random.
Let tr0 := ch ++ sh.
Let dhe := rp_dh (tp_x25519 prim) server_secret (rp_public (tp_x25519 prim) x_secret).
Let ee := build_encrypted_extensions.
Let cert_msg := build_certificate cert_der.
Let tr2 := (tr0 ++ ee) ++ cert_msg.
Let cv := build_certificate_verify cs (ct_signing_key template) tr2.
Let tr3 := tr2 ++ cv.
Let fin := build_finished (tp_hmac prim cs (hk_server_finished_key hk) (tp_hash prim cs tr3)).
Let tr4 := tr3 ++ fin.
Let th := tp_hash prim cs tr4.

Hypothesis (Hhk : derive_handshake_keys cs dhe (tp_hash prim cs tr0) = Ok hk) (Hhko : hs_keys_ok cs hk)
  (Hak : derive_app_keys cs (hk_master_secret hk) th = Ok keys)
  (H0 : server_record cs hk 0 ee r0) (H1 : server_record cs hk 1 cert_msg r1) (H2 : server_record cs hk 2 cv r2) (H3 : server_record cs hk 3 fin r3)
  (H4 : encrypt_app_record cs (hk_client_key hk) (hk_client_iv hk) 0 (build_finished (tp_hmac prim cs (hk_client_finished_key hk) th)) RT_HANDSHAKE = Ok r4).

Definition server_flight : bytes := ((((write_handshake_record sh ++ CCS_RECORD) ++ r0) ++ r1) ++ r2) ++ r3.
Definition client_reply : bytes := CCS_RECORD ++ r4.

Lemma send_record {B} seq msg rec (f : Z -> hio B) inp out :
  server_record cs hk seq msg rec -> (write_encrypted_hs cs hk seq msg ≫= f) (inp, out) = f (seq + 1) (inp, out ++ rec).
Proof. intros Hs. apply sbind_ok. unfold write_encrypted_hs. by rewrite (lift_ok _ _ _ _ Hs). Qed.

Lemma write_step {B} b (f : unit -> hio B) inp out : (write_all b ≫= f) (inp, out) = f () (inp, out ++ b).
Proof. done. Qed.

Lemma server_runs inp :
  complete_tls13_server_handshake template auth_key server_secret random (hello_record ch ++ inp, [])
  = (read_client_finished cs hk th ≫= fun _ => mret keys) (inp, server_flight).
Proof.
  unfold complete_tls13_server_handshake. pose proof (zlen_nonneg ch).
  assert (Eh : hello_record ch ++ inp = ([0x16; 3; 1] ++ be_bytes 2 (zlen ch)) ++ ch ++ inp) by (unfold hello_record; by rewrite <- !app_assoc). rewrite Eh.
  rewrite read_record_step; [| by rewrite zlen_app, zlen_be_bytes | eapply (u16_at_ok _ [0x16; 3; 1] (zlen ch) []); [by rewrite app_nil_r | done | unfold is_u; lia]].
  rewrite (lift_ok _ _ RT_HANDSHAKE) by done. rewrite Z.eqb_refl, bool_decide_eq_true_2 by done. cbn [negb orb].
  rewrite (lift_ok _ _ _ _ Hcs), (lift_ok _ _ _ _ Hf), (lift_ok _ _ _ _ Hcert). rewrite (lift_ok _ _ ()) by (by rewrite Hver).
  rewrite (lift_ok _ _ _ _ Hsid), write_step. fold pub sh tr0. rewrite Hx. fold dhe.
  rewrite (lift_ok _ _ dhe) by (unfold into_32, dhe; by rewrite dh_len). rewrite (lift_ok _ _ _ _ Hhk), write_step. fold ee. rewrite (send_record _ _ _ _ _ _ H0).
  fold cert_msg tr2. rewrite (send_record _ _ _ _ _ _ H1). fold cv tr3. rewrite (send_record _ _ _ _ _ _ H2). fold fin tr4. rewrite (send_record _ _ _ _ _ _ H3).
  fold th. by rewrite (lift_ok _ _ _ _ Hak).
Qed.

Lemma record_fuel_step {B} (f : nat -> hio B) inp out : (record_fuel ≫= f) (inp, out) = f (S (length inp)) (inp, out).
Proof. done. Qed.

Lemma server_accepts rest :
  (read_client_finished cs hk th ≫= fun _ => mret keys) (client_reply ++ rest, server_flight) = ((rest, server_flight), Ok keys).
Proof.
  unfold read_client_finished, client_reply. erewrite sbind_ok; [done |]. rewrite record_fuel_step.
  rewrite <- app_assoc. set (n := length (CCS_RECORD ++ r4 ++ rest)). assert (Hn : exists m, n = S m) by (by eexists). destruct Hn as [m ->].
  rewrite finished_ccs. apply (finished_message m cs hk th (tp_hmac prim cs (hk_client_finished_key hk) th) r4 rest server_flight Hhko); [| done | exact H4]. rewrite tl_hmac. destruct cs; cbn; lia.
Qed.

Lemma hash_len_small : 0 <= hash_len cs <= 48.
Proof. destruct cs; cbn; lia. Qed.

Let cert_payload := [0] ++ u24 (zlen cert_der + 5) ++ u24 (zlen cert_der) ++ cert_der ++ [0; 0].

Lemma cert_msg_eq : cert_msg = hs_message HS_CERTIFICATE cert_payload /\ zlen cert_payload = 9 + zlen cert_der.
Proof.
  assert (He : zlen (u24 (zlen cert_der) ++ cert_der ++ [0; 0]) = zlen cert_der + 5) by (rewrite !zlen_app, u24_len; change (zlen [0; 0]) with 2; lia).
  assert (Hp : zlen cert_payload = 9 + zlen cert_der) by (unfold cert_payload; rewrite zlen_app, zlen_app, He, u24_len; change (zlen [0]) with 1; lia).
  split; [| done]. unfold cert_msg, build_certificate, hs_message. rewrite !put_u24_app. cbn [app]. rewrite Hp. fold (u24 (zlen cert_der)). rewrite He.
  unfold cert_payload. rewrite zlen_app, He, u24_len. replace (1 + (3 + (zlen cert_der + 5))) with (9 + zlen cert_der) by lia. done.
Qed.

Let cv_payload := be_bytes 2 SIG_ED25519 ++ be_bytes 2 (zlen (tp_sign prim (ct_signing_key template) (replicate 64 0x20 ++ TLS13_SERVER_CERT_VERIFY_CONTEXT ++ tp_hash prim cs tr2)))
  ++ tp_sign prim (ct_signing_key template) (replicate 64 0x20 ++ TLS13_SERVER_CERT_VERIFY_CONTEXT ++ tp_hash prim cs tr2).

(** The client takes the four messages of the server. *)
Lemma client_takes fuel rest : (5 <= fuel)%nat ->
  client_loop fuel cs hk auth_key 0 tr0 (CCS_RECORD ++ r0 ++ r1 ++ r2 ++ r3 ++ rest, []) = ((rest, []), Ok tr4).
Proof.
  intros Hfu. destruct fuel as [| [| [| [| [| fuel]]]]]; [lia.. |]. rewrite client_ccs. pose proof hash_len_small as Hhl. pose proof (zlen_nonneg cert_der).
  rewrite (client_message _ cs hk auth_key 0 tr0 HS_ENCRYPTED_EXTENSIONS [0; 0] r0 _ _ (tr0 ++ ee) false); [| done | done | exact H0 | done].
  destruct cert_msg_eq as [Ecm Hcl'].
  rewrite (client_message _ cs hk auth_key (0 + 1) (tr0 ++ ee) HS_CERTIFICATE cert_payload r1 _ _ tr2 false); [| done | lia | by rewrite <- Ecm |].
  2: { cbn [client_messages]. rewrite Z.eqb_refl, <- Ecm.
       assert (parse_certificate_message_der cert_msg = Ok cert_der) as -> by (apply certificate_message_ok; lia). cbn [mbind res_bind]. by rewrite Hver. }
  rewrite (client_message _ cs hk auth_key (0 + 1 + 1) tr2 HS_CERTIFICATE_VERIFY cv_payload r2 _ _ tr3 false); [| done | | exact H2 | done].
  2: { unfold cv_payload. rewrite !zlen_app, !zlen_be_bytes, tl_sign. lia. }
  apply (client_message _ cs hk auth_key (0 + 1 + 1 + 1) tr3 HS_FINISHED (tp_hmac prim cs (hk_server_finished_key hk) (tp_hash prim cs tr3)) r3 rest [] tr4 true);
    [done | rewrite tl_hmac; lia | exact H3 | by apply client_finished].
Qed.

Lemma client_runs rest :
  complete_tls13_handshake ch x_secret p256_secret auth_key (server_flight ++ rest, []) = ((rest, client_reply), Ok keys).
Proof.
  unfold complete_tls13_handshake, client_after_hello, server_flight. pose proof (@public_len (tp_x25519 prim) _ server_secret) as Hpl. fold pub in Hpl.
  destruct (server_hello_ok cs pub sid random Hpl Hr Hsl) as [Hps Hshl]. fold sh in Hps, Hshl.
  destruct (handshake_header sh ltac:(lia)) as (h & -> & Hh1 & Hh2 & Hh3). rewrite <- !app_assoc.
  rewrite (read_record_step _ _ _ _ _ Hh1 Hh2), (lift_ok _ _ _ _ Hh3). rewrite Z.eqb_refl. cbn [negb]. rewrite (lift_ok _ _ _ _ Hps).
  rewrite (lift_ok _ _ _ _ (client_dhe_ok x_secret p256_secret server_secret)). fold tr0 dhe. rewrite (lift_ok _ _ _ _ Hhk), record_fuel_step.
  rewrite (sbind_ok _ _ _ _ _ (client_takes (S (length (CCS_RECORD ++ r0 ++ r1 ++ r2 ++ r3 ++ rest))) rest ltac:(rewrite length_app; simpl; lia))).
  fold th. rewrite (lift_ok _ _ _ _ Hak), write_step, (lift_ok _ _ _ _ H4), write_step. done.
Qed.

End agree.

(** Client and server, whatever comes after the handshake; what the server writes does not depend on the answer. *)
Lemma tls13_agrees ch x_secret auth_key server_secret random sid p256_secret template cs fields :
  pick_cipher_suite ch = Ok cs -> parse_client_hello ch = Ok fields -> f_x25519_key_share fields = rp_public (tp_x25519 prim) x_secret ->
  client_hello_session_id ch = Ok sid -> zlen sid <= 255 -> head ch = Some HS_CLIENT_HELLO -> zlen ch < 65536 -> zlen random = 32 ->
  template_ok (tp_cert prim) template -> zlen (ct_cert_der template) <= 60000 ->
  exists flight reply keys, app_keys_ok keys
    /\ (complete_tls13_server_handshake template auth_key server_secret random (hello_record ch, [])).1.2 = flight
    /\ (forall rest, complete_tls13_handshake ch x_secret p256_secret auth_key (flight ++ rest, []) = ((rest, reply), Ok keys))
    /\ (forall rest, complete_tls13_server_handshake template auth_key server_secret random (hello_record ch ++ reply ++ rest, []) = ((rest, flight), Ok keys)).
Proof.
  intros Hcs Hf Hx Hsid Hsl Hhd Hcl Hr Ht Htl. destruct (patched_verifies (tp_cert prim) template auth_key Ht) as (der & Hcert & Hdl & Hver).
  set (sh := build_server_hello cs (rp_public (tp_x25519 prim) server_secret) sid random).
  set (dhe := rp_dh (tp_x25519 prim) server_secret (rp_public (tp_x25519 prim) x_secret)).
  destruct (handshake_keys_ok cs dhe (tp_hash prim cs (ch ++ sh))) as (hk & Hhk & Hhko). destruct Hhko as (Hck & Hsk & Hms).
  set (tr2 := ((ch ++ sh) ++ build_encrypted_extensions) ++ build_certificate der).
  set (cv := build_certificate_verify cs (ct_signing_key template) tr2).
  set (fin := build_finished (tp_hmac prim cs (hk_server_finished_key hk) (tp_hash prim cs (tr2 ++ cv)))).
  set (th := tp_hash prim cs ((tr2 ++ cv) ++ fin)).
  destruct (derived_app_keys_ok cs (hk_master_secret hk) th Hms) as (keys & Hak & Hako & _).
  destruct (seal_exists cs _ (hk_server_iv hk) 0 build_encrypted_extensions Hsk) as (r0 & H0), (seal_exists cs _ (hk_server_iv hk) 1 (build_certificate der) Hsk) as (r1 & H1),
    (seal_exists cs _ (hk_server_iv hk) 2 cv Hsk) as (r2 & H2), (seal_exists cs _ (hk_server_iv hk) 3 fin Hsk) as (r3 & H3),
    (seal_exists cs _ (hk_client_iv hk) 0 (build_finished (tp_hmac prim cs (hk_client_finished_key hk) th)) Hck) as (r4 & H4).
  assert (Hok : hs_keys_ok cs hk) by done. rewrite <- Hdl in Htl.
  assert (Hrun : forall inp, complete_tls13_server_handshake template auth_key server_secret random (hello_record ch ++ inp, [])
    = (read_client_finished cs hk th ≫= fun _ => mret keys) (inp, server_flight server_secret random sid cs r0 r1 r2 r3)) by (intros; by eapply server_runs).
  exists (server_flight server_secret random sid cs r0 r1 r2 r3), (client_reply r4), keys. split_and!; [done | | | ].
  - rewrite <- (app_nil_r (hello_record ch)), Hrun. done.
  - intros rest. by eapply client_runs.
  - intros rest. rewrite Hrun. by eapply server_accepts.
Qed.

(** * REALITY and TLS together *)

Lemma u16_chunks_u16s l : Forall (is_u 16) l -> u16_chunks (u16s l) = l.
Proof.
  unfold u16s. induction 1 as [| v l Hv Hl IH]; [done |]. cbn [fmap list_fmap concat]. rewrite be_bytes_2. cbn [app u16_chunks]. rewrite IH. f_equal.
  rewrite <- be_bytes_2. by apply be_val_be_bytes.
Qed.

Lemma pick_chrome sni g key secp random sid ge :
  g ∈ GREASE_VALUES_U16 -> zlen random = 32 -> zlen sid = 32 -> is_u 16 (zlen (hello_message chrome_131 sni g key secp random sid ge)) ->
  pick_cipher_suite (hello_message chrome_131 sni g key secp random sid ge) = Ok Aes128GcmSha256.
Proof.
  intros Hg Hr Hs Hfit. unfold pick_cipher_suite. rewrite cipher_suites_built by done. cbn [mbind res_bind].
  rewrite u16_chunks_u16s; [| constructor; [by destruct (grease_is_u g Hg) | decided]]. cbn [existsb chrome_131 cipher_suites]. by rewrite Z.eqb_refl, orb_true_r.
Qed.

(** A REALITY connection up to its keys.  A client that has the public key of the server, the current time within
    the tolerance and an allowed short id of at most eight bytes that does not end in a zero byte is
    recognised: the server puts its ClientHello back and completes TLS 1.3 on the same bytes.  What the
    server then writes is accepted by the client, the answer of the client by the server, both end
    with the same keys, and neither consumes a byte of what follows the handshake. *)
Lemma reality_handshake (ccfg : RealityClientConfig) (scfg : RealityServerConfig) (template : CertTemplate)
    (secret secp random server_secret server_random : bytes) (p256_secret : option bytes) (dc de now_c now_s : Z) (io : CoverIo) :
  cc_server_public_key ccfg = rp_public (tp_x25519 prim) (sc_private_key scfg) ->
  cc_short_id ccfg ∈ sc_short_ids scfg -> zlen (cc_short_id ccfg) <= 8 -> ends_in_zero (cc_short_id ccfg) = false ->
  utf8_valid (cc_sni ccfg) = true -> zlen (cc_sni ccfg) + zlen secp <= 16000 -> zlen random = 32 ->
  0 <= dc < 16 -> 0 <= de < 16 -> 0 <= now_c < 2 ^ 32 -> Z.abs (now_s - now_c) <= sc_max_time_diff scfg ->
  template_ok (tp_cert prim) template -> zlen (ct_cert_der template) <= 60000 -> zlen server_random = 32 ->
  exists hello auth_key flight reply keys,
    dial_hello (tp_x25519 prim) ccfg secret secp random dc de now_c = Ok (hello, auth_key) /\ app_keys_ok keys
    /\ (complete_tls13_server_handshake template auth_key server_secret server_random (hello, [])).1.2 = flight
    /\ (forall rest, complete_tls13_handshake (drop 5 hello) secret p256_secret auth_key (flight ++ rest, []) = ((rest, reply), Ok keys))
    /\ forall rest, exists stream,
         accept_inner (tp_x25519 prim) scfg PrependClientHello io false false now_s (hello ++ reply ++ rest) = Ok (Authenticated stream auth_key)
         /\ complete_tls13_server_handshake template auth_key server_secret server_random (stream_bytes stream, []) = ((rest, flight), Ok keys).
Proof.
  intros Hpub Hin Hsl Hz Hu Hsz Hr Hdc Hde Hc Hd Ht Htl Hsr.
  destruct (reality_authenticates (tp_x25519 prim) ccfg scfg secret secp random dc de now_c now_s Hpub Hin Hsl Hz Hu Hsz Hr Hdc Hde Hc Hd)
    as (hello & key & Hdial & _ & (g & ge & token & -> & Hg & Hge & Htok) & Hacc).
  set (msg := hello_message _ _ _ _ _ _ _ _) in *. pose proof (@public_len (tp_x25519 prim) _ secret) as Hpl.
  assert (Hml : zlen msg = 292 + zlen (cc_sni ccfg) + zlen secp) by exact (chrome_len (cc_sni ccfg) g _ secp random token ge Hpl Hr Htok).
  assert (Hfit : is_u 16 (zlen msg)) by (unfold is_u; pose proof (zlen_nonneg msg); lia).
  assert (H51 : 51 ∈ extensions chrome_131) by decided. assert (Hty : Forall (is_u 16) (extensions chrome_131)) by decided.
  destruct (tls13_agrees msg secret key server_secret server_random token p256_secret template Aes128GcmSha256
    (mkFields random token (rp_public (tp_x25519 prim) secret) (if bool_decide (0 ∈ extensions chrome_131) then cc_sni ccfg else [])))
    as (flight & reply & keys & Hko & Hfl & Hcr & Hsv); [by apply pick_chrome | by apply parse_built | done | by apply session_id_built | lia | done | unfold is_u in Hfit; lia | done | done | done |].
  exists (hello_record msg), key, flight, reply, keys. do 3 (split; [done |]). split.
  - change (drop 5 (hello_record msg)) with (drop 5 (([0x16; 3; 1] ++ be_bytes 2 (zlen msg)) ++ msg)).
    rewrite (drop_app_length' ([0x16; 3; 1] ++ be_bytes 2 (zlen msg)) msg 5) by (by rewrite length_app, length_be_bytes). exact Hcr.
  - intros rest. eexists. split; [apply Hacc |]. unfold replayed. rewrite stream_bytes_new. apply Hsv.
Qed.

(** What someone on the way answers to a ClientHello [ch] with the public key [client_pub], with a secret of his own
    and no other key, and the keys he then has. *)
Definition impostor (cs : CipherSuite) (ch client_pub own_secret random sid : bytes) : res ProxyError (bytes * AppKeys) :=
  let sh := build_server_hello cs (rp_public (tp_x25519 prim) own_secret) sid random in
  hk ← derive_handshake_keys cs (rp_dh (tp_x25519 prim) own_secret client_pub) (tp_hash prim cs (ch ++ sh));
  let fin := build_finished (tp_hmac prim cs (hk_server_finished_key hk) (tp_hash prim cs (ch ++ sh))) in
  rec ← encrypt_app_record cs (hk_server_key hk) (hk_server_iv hk) 0 fin RT_HANDSHAKE;
  keys ← derive_app_keys cs (hk_master_secret hk) (tp_hash prim cs ((ch ++ sh) ++ fin));
  Ok (write_handshake_record sh ++ rec, keys).

(** The client of REALITY does not insist on a certificate.  Whoever answers its ClientHello with a ServerHello of his own
    and a Finished message, and knows neither the private key of the server nor the key of the client, completes
    the handshake with the client and has the keys of the connection. *)
Theorem tls13_accepts_without_certificate (ch x_secret own_secret random sid : bytes) (p256_secret : option bytes) (cs : CipherSuite) :
  zlen random = 32 -> zlen sid <= 255 ->
  exists flight keys, impostor cs ch (rp_public (tp_x25519 prim) x_secret) own_secret random sid = Ok (flight, keys)
    /\ forall auth_key rest, exists reply,
         complete_tls13_handshake ch x_secret p256_secret auth_key (flight ++ rest, []) = ((rest, reply), Ok keys).
Proof.
  intros Hr Hsl. set (pub := rp_public (tp_x25519 prim) own_secret). pose proof (@public_len (tp_x25519 prim) _ own_secret) as Hpl. fold pub in Hpl.
  destruct (server_hello_ok cs pub sid random Hpl Hr Hsl) as [Hps Hshl]. unfold impostor. fold pub. set (sh := build_server_hello cs pub sid random) in *.
  set (dhe := rp_dh (tp_x25519 prim) own_secret (rp_public (tp_x25519 prim) x_secret)). destruct (handshake_keys_ok cs dhe (tp_hash prim cs (ch ++ sh))) as (hk & Hhk & Hhko).
  rewrite Hhk. cbn [mbind res_bind]. destruct Hhko as (Hck & Hsk & Hms). set (vd := tp_hmac prim cs (hk_server_finished_key hk) (tp_hash prim cs (ch ++ sh))).
  assert (Hvd : zlen vd <= 48) by (unfold vd; rewrite tl_hmac; destruct cs; cbn; lia).
  destruct (seal_exists cs (hk_server_key hk) (hk_server_iv hk) 0 (build_finished vd) Hsk) as (rec & Hrec). rewrite Hrec. cbn [mbind res_bind].
  set (th := tp_hash prim cs ((ch ++ sh) ++ build_finished vd)). destruct (derived_app_keys_ok cs (hk_master_secret hk) th Hms) as (keys & Hak & _).
  rewrite Hak. cbn [mbind res_bind]. exists (write_handshake_record sh ++ rec), keys. split; [done |]. intros auth_key rest.
  destruct (seal_exists cs (hk_client_key hk) (hk_client_iv hk) 0 (build_finished (tp_hmac prim cs (hk_client_finished_key hk) th)) Hck) as (rec' & Hrec').
  exists (CCS_RECORD ++ rec'). pose proof (zlen_nonneg sid).
  unfold complete_tls13_handshake, client_after_hello. destruct (handshake_header sh ltac:(lia)) as (hh & -> & Hh1 & Hh2 & Hh3). rewrite <- !app_assoc.
  rewrite (read_record_step _ _ _ _ _ Hh1 Hh2), (lift_ok _ _ _ _ Hh3). rewrite Z.eqb_refl. cbn [negb]. rewrite (lift_ok _ _ _ _ Hps).
  rewrite (lift_ok _ _ _ _ (client_dhe_ok x_secret p256_secret own_secret)), (lift_ok _ _ _ _ Hhk), record_fuel_step.
  erewrite (sbind_ok _ _ _ (rest, []) ((ch ++ sh) ++ build_finished vd)).
  2: { apply (client_message _ cs hk auth_key 0 (ch ++ sh) HS_FINISHED vd rec rest [] _ true); [done | lia | exact Hrec |]. by apply client_finished. }
  fold th. by rewrite (lift_ok _ _ _ _ Hak), write_step, (lift_ok _ _ _ _ Hrec'), write_step.
Qed.

(** * Every peer *)

(** On the input [inp] the code does not panic and comes to an end; what it gives and leaves satisfies [P]. *)
Definition hsafe {A} (m : hio A) (inp : bytes) (P : A -> bytes -> Prop) : Prop :=
  forall out, safely (m (inp, out)).2 (fun a => P a (m (inp, out)).1.1).

Lemma hsafe_bind {A B} (m : hio A) (f : A -> hio B) inp Q P :
  hsafe m inp Q -> (forall a inp', Q a inp' -> hsafe (f a) inp' P) -> hsafe (m ≫= f) inp P.
Proof.
  intros Hm Hf out. specialize (Hm out). unfold mbind, stE_bind. destruct (m (inp, out)) as [[inp' out'] [a | e | |]]; cbn in *; try done. by apply Hf.
Qed.

Lemma hsafe_lift {A} (m : res ProxyError A) inp Q : safely m Q -> hsafe (st_lift m) inp (fun a inp' => Q a /\ inp' = inp).
Proof. intros Hm out. cbn. by destruct m. Qed.

Lemma hsafe_lift_bind {A B} (m : res ProxyError A) (f : A -> hio B) inp Q P :
  safely m Q -> (forall a, Q a -> hsafe (f a) inp P) -> hsafe (st_lift m ≫= f) inp P.
Proof. intros Hm Hf. eapply hsafe_bind; [by apply hsafe_lift |]. intros a inp' [Ha ->]. by apply Hf. Qed.

Lemma hsafe_fail {A} e inp P : hsafe (A := A) (st_fail e) inp P.
Proof. by intros out. Qed.

Lemma hsafe_write {B} b (f : unit -> hio B) inp P : hsafe (f ()) inp P -> hsafe (write_all b ≫= f) inp P.
Proof. intros Hf out. rewrite write_step. apply Hf. Qed.

Lemma hsafe_recv n inp : bytes_ok inp -> 0 <= n ->
  hsafe (recv_exact n) inp (fun b inp' => inp = b ++ inp' /\ zlen b = n /\ bytes_ok b /\ bytes_ok inp').
Proof.
  intros Hi Hn out. unfold recv_exact. destruct (read_exact n inp) as [[b rest] | | |] eqn:E; cbn [fst snd safely]; [| done | |].
  - apply read_exact_inv in E as [-> Hl]; [| done]. apply bytes_ok_app in Hi as [? ?]. by split_and!.
  - by unfold read_exact in E; case_bool_decide.
  - by unfold read_exact in E; case_bool_decide.
Qed.

Lemma hsafe_record inp : bytes_ok inp ->
  hsafe read_record inp (fun '(h, body) inp' => inp = h ++ body ++ inp' /\ zlen h = 5 /\ u16_at h 3 = Ok (zlen body) /\ bytes_ok h /\ bytes_ok body /\ bytes_ok inp').
Proof.
  intros Hi. unfold read_record. eapply hsafe_bind; [by apply hsafe_recv |]. intros h inp1 (-> & Hh & Hokh & Hok1).
  destruct (u16_at_range h 3 ltac:(lia) ltac:(lia)) as (n & Hn). pose proof (safely_u16_at h 3 Hokh ltac:(lia) ltac:(lia)) as Hu. rewrite Hn in Hu.
  eapply (hsafe_lift_bind _ _ _ (fun v => v = n)); [by rewrite Hn |]. intros v ->. eapply hsafe_bind; [apply hsafe_recv; [done | unfold is_u in Hu; cbn in Hu; lia] |].
  intros body inp2 (-> & Hb & Hokb & Hok2). intros out. cbn. rewrite Hb. by split_and!.
Qed.

Lemma decrypt_safe cs key iv seq ct h : bytes_ok ct -> safely (decrypt_app_record cs key iv seq ct h) (fun '(inner, _) => bytes_ok inner).
Proof.
  intros Hc. unfold decrypt_app_record. destruct (negb _); [done |]. destruct (open _ key _ h ct) as [p |] eqn:E; cbn [ok_or mbind res_bind]; [| done].
  apply open_bytes in E; [| done]. pose proof (zlen_nonneg p). destruct (Z.eqb_spec (zlen p) 0); [done |].
  eapply safely_bind; [apply safely_idx; [done | lia] |]. intros t _. eapply safely_bind; [apply safely_slice; [done | lia | lia] |]. by intros s (? & _).
Qed.

Lemma split_safe data : bytes_ok data -> forall fuel pos, 0 <= pos -> zlen data - pos <= Z.of_nat fuel ->
  safely (split_loop fuel data pos) (Forall (fun '(_, m) => bytes_ok m /\ 4 <= zlen m)).
Proof.
  intros Hd. induction fuel as [| fuel IH]; intros pos Hp Hf; cbn [split_loop]; (destruct (Z.leb_spec (pos + 4) (zlen data)); [| by apply Forall_nil_2]); [lia |].
  do 4 (eapply safely_bind; [apply safely_idx; [done | lia] | intros ? ?]).
  assert (Hb : 0 <= be_val [0; a0; a1; a2]). { apply be_val_bound. repeat constructor; try done; unfold is_u in *; lia. }
  destruct (Z.gtb_spec (pos + 4 + be_val [0; a0; a1; a2]) (zlen data)); [by apply Forall_nil_2 |].
  eapply safely_bind; [apply safely_slice; [done | lia | lia] |]. intros msg (Hm & Hml & _). eapply safely_bind; [apply IH; lia |].
  intros msgs Hms. cbn. constructor; [split; [done | lia] | done].
Qed.

Lemma split_messages_safe data : bytes_ok data -> safely (split_handshake_messages data) (Forall (fun '(_, m) => bytes_ok m /\ 4 <= zlen m)).
Proof. intros Hd. apply split_safe; [done | lia | unfold zlen; lia]. Qed.

Lemma read_u24_safe b : bytes_ok b -> safely (read_u24 b) (Z.le 0).
Proof.
  intros Hb. unfold read_u24. destruct (Z.ltb_spec (zlen b) 3); [done |]. do 3 (eapply safely_bind; [apply safely_idx; [done | lia] | intros ? ?]).
  cbn. unfold is_u in *. apply Z.lor_nonneg. split; [| lia]. apply Z.lor_nonneg. rewrite !Z.shiftl_nonneg. lia.
Qed.

Lemma parse_cert_safe msg : bytes_ok msg -> safely (parse_certificate_message_der msg) (fun _ => True).
Proof.
  intros Hm. unfold parse_certificate_message_der. destruct (negb _); [done |]. destruct (Z.ltb_spec (zlen msg) (4 + 1 + 3 + 3)); [done |]. sread.
  destruct (Z.gtb_spec (5 + a + 3) (zlen msg)); [done |]. sread. eapply safely_bind; [by apply read_u24_safe |]. intros n Hn.
  destruct (Z.gtb_spec (5 + a + 3 + n) (zlen msg)); [done |]. destruct (Z.gtb_spec (5 + a + 3 + 3) (5 + a + 3 + n)); [done |]. sread.
  eapply safely_bind; [by apply read_u24_safe |]. intros n' Hn'. destruct (Z.gtb_spec (5 + a + 3 + 3 + n') (5 + a + 3 + n)); [done |].
  eapply safely_mono; [apply safely_slice; [done | unfold is_u in *; lia | lia] | done].
Qed.

Lemma expand_label_safe cs prk label ctx len : 0 <= len <= 255 * hash_len cs -> safely (expand_label cs prk label ctx len) (fun o => zlen o = len).
Proof.
  intros Hn. unfold expand_label. destruct (zlen prk <? hash_len cs); [done |]. by edestruct tl_expand as (o & -> & Ho); [done |].
Qed.

Lemma derive_secret_safe cs prk label th : safely (derive_secret cs prk label th) (fun o => zlen o = hash_len cs).
Proof. apply expand_label_safe. destruct cs; cbn; lia. Qed.

Lemma iv_safe cs s : safely (iv_from_label cs s) (fun _ => True).
Proof.
  unfold iv_from_label. eapply safely_bind; [apply expand_label_safe; destruct cs; cbn; lia |]. intros raw _. by destruct (_ =? _).
Qed.

(** One step of the key schedule. *)
Ltac kstep :=
  first [ eapply safely_bind; [apply derive_secret_safe | intros ? _]
        | eapply safely_bind; [apply iv_safe | intros ? _]
        | eapply safely_bind; [apply expand_label_safe; match goal with cs : CipherSuite |- _ => destruct cs; cbn; lia end | intros ? _] ].

Lemma handshake_keys_safe cs dhe th : safely (derive_handshake_keys cs dhe th) (fun _ => True).
Proof. unfold derive_handshake_keys. by repeat kstep. Qed.

Lemma app_keys_safe cs ms th : safely (derive_app_keys cs ms th) (fun _ => True).
Proof. unfold derive_app_keys. by repeat kstep. Qed.

Lemma encrypt_safe cs key iv seq p t : safely (encrypt_app_record cs key iv seq p t) (fun _ => True).
Proof. unfold encrypt_app_record. by destruct (negb _). Qed.

Lemma verify_cert_safe auth_key der : safely (verify_reality_cert_hmac (tp_cert prim) auth_key der) (fun _ => True).
Proof.
  unfold verify_reality_cert_hmac. destruct (cp_x509 _ der); cbn [ok_or mbind res_bind]; [| done]. unfold ed25519_public_key_from_cert.
  destruct (negb _); [done |]. destruct (zlen _ =? 32); [cbn [mbind res_bind]; by destruct (signature_matches_go_hmac _ _) |].
  destruct (_ && _); [| done]. cbn [mbind res_bind]. by destruct (signature_matches_go_hmac _ _).
Qed.

Lemma tls_cert_safe template auth_key : safely (tls_cert_for_auth_key (tp_cert prim) template auth_key) (fun _ => True).
Proof.
  unfold tls_cert_for_auth_key, patch_cert_der, go_reality_signature_range. destruct (Z.ltb_spec (zlen (ct_cert_der template)) 64); [done |]. cbn [mbind res_bind].
  eapply safely_bind; [apply safely_put_at; [lia |]; unfold reality_cert_hmac; rewrite (hmac512_len (CertLaws := tl_cert)); lia |]. done.
Qed.

Lemma verify_data_safe msg : 4 <= zlen msg -> exists d, slice_from (E:=ProxyError) msg 4 = Ok d.
Proof. intros Hl. unfold slice_from. eexists. by rewrite slice_in_range by lia. Qed.

Lemma client_messages_safe cs keys auth_key msgs : Forall (fun '(_, m) => bytes_ok m /\ 4 <= zlen m) msgs -> forall tr found,
  safely (client_messages cs keys auth_key msgs tr found) (fun _ => True).
Proof.
  induction 1 as [| [t m] msgs [Hm Hl] _ IH]; intros tr found; cbn [client_messages]; [done |].
  destruct (t =? HS_CERTIFICATE).
  { eapply safely_bind; [by apply parse_cert_safe |]. intros der _. eapply safely_bind; [apply verify_cert_safe |]. intros _ _. apply IH. }
  destruct (_ || _); [apply IH |]. destruct (t =? HS_FINISHED); [| apply IH]. destruct (verify_data_safe m Hl) as (d & ->). cbn [mbind res_bind].
  destruct (negb _); [done | apply IH].
Qed.

Lemma find_finished_safe cs keys th msgs : Forall (fun '(_, m) => bytes_ok m /\ 4 <= zlen m) msgs ->
  safely (find_finished cs keys th msgs) (fun _ => True).
Proof.
  induction 1 as [| [t m] msgs [Hm Hl] _ IH]; cbn [find_finished]; [done |]. destruct (t =? HS_FINISHED); [| apply IH].
  destruct (verify_data_safe m Hl) as (d & ->). cbn [mbind res_bind]. by destruct (negb _).
Qed.

Lemma hsafe_record_fuel {B} (f : nat -> hio B) inp P : hsafe (f (S (length inp))) inp P -> hsafe (record_fuel ≫= f) inp P.
Proof. intros Hf out. apply Hf. Qed.

(** A loop over the records: each takes at least five bytes. *)
Lemma client_loop_safe cs keys auth_key : forall fuel seq tr inp, bytes_ok inp -> (length inp < fuel)%nat ->
  hsafe (client_loop fuel cs keys auth_key seq tr) inp (fun _ _ => True).
Proof.
  induction fuel as [| fuel IH]; intros seq tr inp Hi Hf; [lia |]. cbn [client_loop]. eapply hsafe_bind; [by apply hsafe_record |].
  intros [h body] inp' (-> & Hh & _ & Hoh & Hob & Hoi). rewrite !length_app in Hf. unfold zlen in Hh. eapply hsafe_lift_bind; [apply safely_idx; [done | unfold zlen; lia] |].
  intros kind _. destruct (kind =? RT_CHANGE_CIPHER_SPEC); [apply IH; [done | lia] |]. destruct (kind =? RT_ALERT); [apply hsafe_fail |].
  destruct (kind =? RT_APPLICATION_DATA); [| apply hsafe_fail]. eapply hsafe_lift_bind; [by apply decrypt_safe |]. intros [inner t] Hin.
  destruct (negb _); [apply IH; [done | lia] |]. eapply hsafe_lift_bind; [by apply split_messages_safe |]. intros msgs Hms.
  eapply hsafe_lift_bind; [by apply client_messages_safe |]. intros [tr' found] _. destruct found; [by intros out | apply IH; [done | lia]].
Qed.

Lemma finished_loop_safe cs keys th : forall fuel seq inp, bytes_ok inp -> (length inp < fuel)%nat ->
  hsafe (finished_loop fuel cs keys th seq) inp (fun _ _ => True).
Proof.
  induction fuel as [| fuel IH]; intros seq inp Hi Hf; [lia |]. cbn [finished_loop]. eapply hsafe_bind; [by apply hsafe_record |].
  intros [h body] inp' (-> & Hh & _ & Hoh & Hob & Hoi). rewrite !length_app in Hf. unfold zlen in Hh. eapply hsafe_lift_bind; [apply safely_idx; [done | unfold zlen; lia] |].
  intros kind _. destruct (kind =? RT_CHANGE_CIPHER_SPEC); [apply IH; [done | lia] |]. destruct (kind =? RT_ALERT); [apply hsafe_fail |].
  destruct (kind =? RT_APPLICATION_DATA); [| apply hsafe_fail]. eapply hsafe_lift_bind; [by apply decrypt_safe |]. intros [inner t] Hin.
  destruct (negb _); [apply IH; [done | lia] |]. eapply hsafe_lift_bind; [by apply split_messages_safe |]. intros msgs Hms.
  eapply hsafe_lift_bind; [by apply find_finished_safe |]. intros found _. destruct found; [by intros out | apply IH; [done | lia]].
Qed.

Lemma server_ext_loop_safe body ext_end : bytes_ok body -> ext_end <= zlen body -> forall fuel pos share, 0 <= pos -> zlen body - pos <= Z.of_nat fuel ->
  safely (server_ext_loop fuel body ext_end pos share) (fun _ => True).
Proof.
  intros Hb He. induction fuel as [| fuel IH]; intros pos share Hp Hf; cbn [server_ext_loop]; (destruct (Z.leb_spec (pos + 4) ext_end); [| done]); [lia |].
  do 2 sread. destruct (Z.gtb_spec (pos + 4 + a0) (zlen body)); [done |]. sread.
  destruct ((a =? 0x33) && (zlen a1 >=? 4)) eqn:E; [| apply IH; unfold is_u in *; lia]. apply andb_true_iff in E as [_ E]. rewrite Z.geb_leb in E. apply Z.leb_le in E.
  do 2 sread. destruct (Z.geb_spec (zlen a1) (4 + a3)); [sread |]; apply IH; unfold is_u in *; lia.
Qed.

(** Apart from a message that is cut off within the random bytes. *)
Lemma server_hello_safe body : bytes_ok body -> ~ (4 <= zlen body < 38 /\ head body = Some HS_SERVER_HELLO) -> safely (parse_server_hello body) (fun _ => True).
Proof.
  intros Hb Hs. unfold parse_server_hello. destruct (Z.ltb_spec (zlen body) 4); [done |].
  destruct body as [| b body']; [done |]. change (idx (b :: body') 0) with (Ok (E:=ProxyError) b). cbn [mbind res_bind]. set (body := b :: body') in *.
  destruct (Z.eqb_spec b HS_SERVER_HELLO) as [-> |]; cbn [negb]; [| done]. assert (38 <= zlen body) by (destruct (Z.lt_ge_cases (zlen body) 38); [by destruct Hs | done]).
  sread. destruct (Z.geb_spec 38 (zlen body)); [done |]. sread. destruct (Z.gtb_spec (38 + (1 + a0) + 3) (zlen body)); [done |]. sread.
  eapply (safely_bind _ _ (fun _ => True)); [unfold cs_from_u16; by repeat destruct (_ =? _) |]. intros cs _.
  destruct (Z.gtb_spec (38 + (1 + a0) + 2 + 1 + 2) (zlen body)); [done |]. sread.
  eapply safely_bind; [apply server_ext_loop_safe; [done | lia | unfold is_u in *; lia | unfold is_u, zlen in *; lia] |]. by intros [[g k] |] _.
Qed.

Lemma pick_safe body : bytes_ok body -> safely (pick_cipher_suite body) (fun _ => True).
Proof.
  intros Hb. unfold pick_cipher_suite. eapply safely_bind; [by apply cipher_suites_safe |]. intros suites _. by repeat destruct (existsb _ _).
Qed.

Lemma into_32_safe b e : safely (into_32 b e) (fun _ => True).
Proof. unfold into_32. by destruct (_ =? _). Qed.

Lemma client_dhe_safe x p g pub : safely (client_dhe x p g pub) (fun _ => True).
Proof.
  unfold client_dhe. eapply (safely_bind _ _ (fun _ => True)); [| intros; apply into_32_safe].
  destruct (g =? 29); [by destruct (negb _) |]. destruct (g =? 23); [| done]. destruct p; [| done]. by destruct (tp_p256_dh _ _ _).
Qed.

Lemma write_encrypted_safe {B} cs keys seq msg (f : Z -> hio B) inp P : (forall s, hsafe (f s) inp P) -> hsafe (write_encrypted_hs cs keys seq msg ≫= f) inp P.
Proof.
  intros Hf out. unfold write_encrypted_hs. pose proof (encrypt_safe cs (hk_server_key keys) (hk_server_iv keys) seq msg RT_HANDSHAKE) as He.
  unfold mbind, stE_bind, st_lift. destruct (encrypt_app_record _ _ _ _ _ _); try done. apply Hf.
Qed.

(** After its first record the client comes to an end with keys or an error. *)
Lemma client_after_safe ch x p ak body inp : bytes_ok body -> bytes_ok inp -> ~ (4 <= zlen body < 38 /\ head body = Some HS_SERVER_HELLO) ->
  hsafe (client_after_hello ch x p ak body) inp (fun _ _ => True).
Proof.
  intros Hb Hi Hn. unfold client_after_hello. eapply hsafe_lift_bind; [by apply server_hello_safe |]. intros [[cs g] pub] _.
  eapply hsafe_lift_bind; [apply client_dhe_safe |]. intros dhe _. eapply hsafe_lift_bind; [apply handshake_keys_safe |]. intros hk _.
  apply hsafe_record_fuel. eapply hsafe_bind; [apply client_loop_safe; [done | lia] |]. intros tr inp' _.
  eapply hsafe_lift_bind; [apply app_keys_safe |]. intros keys _. apply hsafe_write. eapply hsafe_lift_bind; [apply encrypt_safe |]. intros record _.
  by apply hsafe_write.
Qed.

Lemma server_handshake_safe template ak secret random inp : bytes_ok inp ->
  hsafe (complete_tls13_server_handshake template ak secret random) inp (fun _ _ => True).
Proof.
  intros Hi. unfold complete_tls13_server_handshake. eapply hsafe_bind; [by apply hsafe_record |]. intros [h body] inp' (-> & Hh & _ & Hoh & Hob & Hoi).
  eapply hsafe_lift_bind; [apply safely_idx; [done | lia] |]. intros kind _. destruct (_ || _); [apply hsafe_fail |].
  eapply hsafe_lift_bind; [by apply pick_safe |]. intros cs _. eapply hsafe_lift_bind; [by apply parse_client_hello_safe |]. intros fields _.
  eapply hsafe_lift_bind; [apply tls_cert_safe |]. intros [der key] _.
  eapply (hsafe_lift_bind _ _ _ (fun _ => True)); [pose proof (verify_cert_safe ak der); by destruct (verify_reality_cert_hmac _ _ _) |]. intros _ _.
  eapply hsafe_lift_bind; [by apply session_id_safe |]. intros sid _. apply hsafe_write. eapply hsafe_lift_bind; [apply into_32_safe |]. intros dhe _.
  eapply hsafe_lift_bind; [apply handshake_keys_safe |]. intros hk _. apply hsafe_write. do 4 (apply write_encrypted_safe; intros ?).
  eapply hsafe_lift_bind; [apply app_keys_safe |]. intros keys _. unfold read_client_finished.
  eapply hsafe_bind; [apply hsafe_record_fuel, finished_loop_safe; [done | lia] |]. by intros [] inp2 _ out.
Qed.

(** The first record is a ServerHello that ends within its random bytes. *)
Definition short_server_hello (inp : bytes) : bool :=
  match (read_record (inp, [])).2 with
  | Ok (h, body) => bool_decide (head h = Some RT_HANDSHAKE) && bool_decide (4 <= zlen body < 38) && bool_decide (head body = Some HS_SERVER_HELLO)
  | _ => false
  end.

Lemma short_hello_panics body : 4 <= zlen body < 38 -> head body = Some HS_SERVER_HELLO -> parse_server_hello body = Panic.
Proof.
  intros Hl Hh. unfold parse_server_hello. rewrite (proj2 (Z.ltb_ge _ _)) by lia. destruct body as [| b body]; [done |]. injection Hh as ->.
  change (idx (HS_SERVER_HELLO :: body) 0) with (Ok (E:=ProxyError) HS_SERVER_HELLO). cbn [mbind res_bind]. rewrite Z.eqb_refl. cbn [negb]. unfold slice.
  rewrite (bool_decide_eq_false_2 (38 <= _)) by lia. by rewrite andb_false_r.
Qed.

(** C13. The TLS 1.3 handshakes of REALITY with any peer, whatever bytes it sends and wherever it stops: the server
    ends with keys or an error.  So does the client, with one exception: it panics exactly on a first record with a
    ServerHello of at least four bytes that ends before the end of its random bytes. *)
Theorem tls13_handshakes_end (template : CertTemplate) (auth_key server_secret random ch x_secret : bytes) (p256_secret : option bytes) (inp : bytes) :
  bytes_ok inp ->
  safely (complete_tls13_server_handshake template auth_key server_secret random (inp, [])).2 (fun _ => True)
  /\ (if short_server_hello inp then (complete_tls13_handshake ch x_secret p256_secret auth_key (inp, [])).2 = Panic
      else safely (complete_tls13_handshake ch x_secret p256_secret auth_key (inp, [])).2 (fun _ => True)).
Proof.
  intros Hi. split; [exact (server_handshake_safe template auth_key server_secret random inp Hi []) |].
  unfold short_server_hello, complete_tls13_handshake. pose proof (hsafe_record inp Hi []) as Hrec.
  destruct (read_record (inp, [])) as [[inp' out] [[h body] | e | |]] eqn:Er; cbn [fst snd safely] in Hrec; [| unfold mbind, stE_bind; by rewrite Er | done | done].
  rewrite !(sbind_ok _ _ _ _ _ Er). cbn [fst snd].
  destruct Hrec as (_ & Hh & _ & Hoh & Hob & Hoi). destruct h as [| k h]; [done |]. cbn [head].
  rewrite !(lift_ok (idx (k :: h) 0) _ k _ eq_refl).
  destruct (Z.eqb_spec k RT_HANDSHAKE) as [-> |]; cbn [negb]; [| by rewrite bool_decide_eq_false_2 by congruence].
  rewrite bool_decide_eq_true_2 by done. cbn [andb]. destruct (bool_decide (4 <= zlen body < 38) && bool_decide (head body = Some HS_SERVER_HELLO)) eqn:E.
  - apply andb_true_iff in E as [E1%bool_decide_eq_true E2%bool_decide_eq_true]. unfold client_after_hello, mbind, stE_bind, st_lift. by rewrite short_hello_panics.
  - apply (client_after_safe ch x_secret p256_secret auth_key body inp' Hob Hoi). intros [E1 E2]. by rewrite !bool_decide_eq_true_2 in E by done.
Qed.

End tls13.

(** Keyed sums in place of the primitives; a certificate is a key and a signature. *)
Definition toy_cert : CertPrims := mkCertPrims
  (fun k m => byte_sum (k ++ m) :: replicate 63 0)
  (fun der => if zlen der =? 96 then Some (mkX509 ED25519_OID (take 32 der) (drop 32 der)) else None).

Definition sum_of (n : Z) (m : bytes) : bytes := replicate (Z.to_nat n) (byte_sum m).

Definition toy_tls : TlsPrims := {|
  tp_hash cs m := sum_of (hash_len cs) m;
  tp_extract cs s m := sum_of (hash_len cs) (s ++ m);
  tp_expand cs k i n := if n <=? 255 * hash_len cs then Some (sum_of n (k ++ i)) else None;
  tp_hmac cs k m := sum_of (hash_len cs) (k ++ m);
  tp_gcm _ := toy_aead;
  tp_p256_dh _ _ := None;
  tp_sign k m := sum_of 64 (k ++ m);
  tp_x25519 := toy_reality;
  tp_cert := toy_cert;
|}.

Lemma sum_of_len n m : 0 <= n -> zlen (sum_of n m) = n.
Proof. intros Hn. unfold sum_of, zlen. rewrite length_replicate. lia. Qed.

#[export] Instance toy_tls_laws : TlsLaws toy_tls.
Proof.
  split; cbn [toy_tls tp_hash tp_extract tp_expand tp_hmac tp_gcm tp_sign tp_x25519 tp_cert]; try apply _; intros.
  1, 2, 4, 5: apply sum_of_len; try destruct cs; cbn; lia.
  - rewrite (proj2 (Z.leb_le _ _)) by lia. eexists. split; [done |]. apply sum_of_len. lia.
  - by intros k m.
Qed.

Definition toy_template : CertTemplate := mkTemplate [1] (replicate 32 3) (replicate 32 3 ++ replicate 64 0).

Lemma toy_template_ok : template_ok toy_cert toy_template.
Proof.
  split; [done |]. split; [done |]. intros sig Hs. change (take _ (ct_cert_der toy_template)) with (replicate 32 3). cbn [toy_cert cp_x509].
  rewrite zlen_app, Hs. change (zlen (replicate 32 3) + 64 =? 96) with true. cbn iota.
  rewrite take_app_length', drop_app_length' by (by rewrite length_replicate). done.
Qed.

Lemma tls13_accepts_without_certificate_witness :
  exists flight keys, impostor toy_tls Aes256GcmSha384 [1; 2; 3] (rp_public toy_reality [9]) [66] (replicate 32 1) [] = Ok (flight, keys)
    /\ exists reply, complete_tls13_handshake toy_tls [1; 2; 3] [9] None (replicate 32 77) (flight ++ [5], []) = (([5], reply), Ok keys).
Proof.
  destruct (tls13_accepts_without_certificate toy_tls [1; 2; 3] [9] [66] (replicate 32 1) [] None Aes256GcmSha384 eq_refl ltac:(decided)) as (flight & keys & H1 & H2).
  exists flight, keys. split; [exact H1 | exact (H2 (replicate 32 77) [5])].
Defined.

Lemma tls13_handshakes_end_witness :
  (complete_tls13_handshake toy_tls [1] [2] None [3] ([0x16; 3; 3; 0; 4; 2; 0; 0; 0], [])).2 = Panic
  /\ safely (complete_tls13_handshake toy_tls [1] [2] None [3] ([0x16; 3; 3; 0; 4; 1; 0; 0; 0], [])).2 (fun _ => True).
Proof.
  split.
  - exact (proj2 (tls13_handshakes_end toy_tls toy_template [3] [] [] [1] [2] None [0x16; 3; 3; 0; 4; 2; 0; 0; 0] ltac:(decided))).
  - exact (proj2 (tls13_handshakes_end toy_tls toy_template [3] [] [] [1] [2] None [0x16; 3; 3; 0; 4; 1; 0; 0; 0] ltac:(decided))).
Defined.
