(* ===== verification/Tls13Stream.v ===== *)
(** The application-data stream of TLS 1.3 behind REALITY ([Tls13Stream] of [reality/tls13.rs]): [poll_read] with its three
    phases, [poll_write] with its pending record, and the whole tunnel from the ClientHello to the bytes of both sides. *)

From stdpp Require Import base gmap list strings numbers.
From S2P Require Import Prelude Address Streams Chunks Crypto RecordIo ClientHello Reality RealityCert Tls13.

(** The keys of one direction: [client_key], [client_iv], [client_seq] or [server_key], [server_iv], [server_seq]. *)
Record Half := mkHalf { h_cs : CipherSuite; h_key : bytes; h_iv : bytes; h_seq : Z }.

Definition next_half (h : Half) : Half := mkHalf (h_cs h) (h_key h) (h_iv h) (h_seq h + 1).

Definition client_half (k : AppKeys) : Half := mkHalf (ak_cs k) (ak_client_key k) (ak_client_iv k) 0.
Definition server_half (k : AppKeys) : Half := mkHalf (ak_cs k) (ak_server_key k) (ak_server_iv k) 0.

(** The fields [poll_read] uses.  [plain] is [plain_buf[plain_pos..]], [header] and [body] what has arrived of the two buffers
    ([header_buf[..header_pos]], [body_buf[..body_pos]]), [body_len] the length of [body_buf]. *)
Record TlsReader := mkTlsReader {
  tr_inner : list PollEvent;
  tr_half : Half;
  tr_plain : bytes;
  tr_header : bytes;
  tr_body_len : nat;
  tr_body : bytes;
  tr_phase : ReadPhase;
}.

(** The fields [poll_write] uses are those of a [RecWriter]. *)
Abbreviation TlsWriter := (RecWriter Half).

(** [Tls13Stream]: the two halves share no field. *)
Definition with_role (evs : list PollEvent) (sink : list WriteEvent) (keys : AppKeys) (is_server : bool) : TlsReader * TlsWriter :=
  let reads := if is_server then client_half keys else server_half keys in
  let writes := if is_server then server_half keys else client_half keys in
  (mkTlsReader evs reads [] [] 0 [] PhHeader, rw_new sink writes).

Definition tls_stream_new evs sink keys := with_role evs sink keys false.
Definition tls_stream_new_server evs sink keys := with_role evs sink keys true.

(** What a part of the loop does: goes on, returns from [poll_read], or does not end. *)
Inductive TlsTurn := TNext (s : TlsReader) | TReturn (s : TlsReader) (p : poll bytes) | TLost.

Definition is_close_notify (alert : bytes) : bool :=
  match alert with a :: b :: _ => (a =? 1) && (b =? 0) | _ => false end.

(** A close_notify ends the stream; the phase stays what it is. *)
Definition on_alert (s : TlsReader) (alert : bytes) : TlsTurn :=
  TReturn s (if is_close_notify alert then Ready [] else Failed (Io ConnectionReset)).

Definition set_phase (s : TlsReader) (h : Half) (plain : bytes) (p : ReadPhase) : TlsReader :=
  mkTlsReader (tr_inner s) h plain (match p with PhHeader => [] | _ => tr_header s end) (tr_body_len s) (tr_body s) p.

Section stream.
Context (prim : TlsPrims).

Definition half_decrypt (h : Half) (body header : bytes) : res ProxyError (bytes * Z) :=
  decrypt_app_record prim (h_cs h) (h_key h) (h_iv h) (h_seq h) body header.

(** * Reading *)

(** Step 1, the header. *)
Definition tls_read_header (s : TlsReader) : TlsTurn :=
  match fill 5 5 5 (tr_header s) (tr_inner s) with
  | None => TLost
  | Some (evs, h, r) =>
      let s := mkTlsReader evs (tr_half s) (tr_plain s) h (tr_body_len s) (tr_body s) PhHeader in
      match r with
      | Pending => TReturn s Pending
      | Failed e => TReturn s (Failed e)
      | Ready _ =>
          match u16_at h 3 with
          | Ok n => TNext (mkTlsReader evs (tr_half s) (tr_plain s) h (Z.to_nat n) [] PhBody)
          | _ => TLost
          end
      end
  end.

(** A record is complete. *)
Definition tls_process (s : TlsReader) : TlsTurn :=
  match idx (E:=ProxyError) (tr_header s) 0 with
  | Ok rec_type =>
      if rec_type =? RT_APPLICATION_DATA then
        match half_decrypt (tr_half s) (tr_body s) (tr_header s) with
        | Ok (inner, inner_type) =>
            let h := next_half (tr_half s) in
            if inner_type =? RT_APPLICATION_DATA then TNext (set_phase s h inner PhPlaintext)
            else if inner_type =? RT_ALERT then on_alert (set_phase s h (tr_plain s) PhBody) inner
            else TNext (set_phase s h (tr_plain s) PhHeader)
        | Err e => TReturn s (Failed (Io InvalidData))
        | _ => TLost
        end
      else if rec_type =? RT_CHANGE_CIPHER_SPEC then TNext (set_phase s (tr_half s) (tr_plain s) PhHeader)
      else if rec_type =? RT_ALERT then on_alert s (tr_body s)
      else TReturn s (Failed (Io InvalidData))
  | _ => TLost
  end.

(** Step 2, the body; a read takes as much as is missing. *)
Definition tls_read_body (s : TlsReader) : TlsTurn :=
  match fill (tr_body_len s) (tr_body_len s) (S (tr_body_len s)) (tr_body s) (tr_inner s) with
  | None => TLost
  | Some (evs, b, r) =>
      let s := mkTlsReader evs (tr_half s) (tr_plain s) (tr_header s) (tr_body_len s) b PhBody in
      match r with
      | Pending => TReturn s Pending
      | Failed e => TReturn s (Failed e)
      | Ready _ => tls_process s
      end
  end.

(** Step 0, decrypted bytes. *)
Definition tls_give (cap : Z) (s : TlsReader) : TlsReader * poll bytes :=
  let n := Z.to_nat (Z.min (zlen (tr_plain s)) cap) in
  (set_phase s (tr_half s) (drop n (tr_plain s)) PhPlaintext, Ready (take n (tr_plain s))).

Fixpoint tls_loop (fuel : nat) (cap : Z) (s : TlsReader) : option (TlsReader * poll bytes) :=
  match fuel with
  | O => None
  | S fuel =>
      match tr_phase s, tr_plain s with
      | PhPlaintext, _ :: _ => Some (tls_give cap s)
      | _, _ =>
          let turn :=
            match tr_phase s with
            | PhPlaintext => tls_read_header (set_phase s (tr_half s) (tr_plain s) PhHeader)
            | PhHeader => tls_read_header s
            | PhBody => TNext s
            end in
          match turn with
          | TLost => None
          | TReturn s p => Some (s, p)
          | TNext s =>
              match tls_read_body s with
              | TLost => None
              | TReturn s p => Some (s, p)
              | TNext s => tls_loop fuel cap s
              end
          end
      end
  end.

(** A turn consumes the record it reads; the last one gives out. *)
Definition tls_poll_read (cap : Z) (s : TlsReader) : option (TlsReader * poll bytes) :=
  tls_loop (events_size (tr_inner s) + 3) cap s.

(** How a reader that is polled again and again ends up. *)
Inductive ReadEnd := StillOpen | Eof | BrokeWith (e : ProxyError).

Fixpoint tls_collect (caps : list Z) (s : TlsReader) : option (TlsReader * bytes * ReadEnd) :=
  match caps with
  | [] => Some (s, [], StillOpen)
  | cap :: caps =>
      match tls_poll_read cap s with
      | None => None
      | Some (s, Failed e) => Some (s, [], BrokeWith e)
      | Some (s, Pending) => tls_collect caps s
      | Some (s, Ready []) => Some (s, [], Eof)
      | Some (s, Ready out) =>
          match tls_collect caps s with
          | Some (s, d, e) => Some (s, out ++ d, e)
          | None => None
          end
      end
  end.

(** * Writing *)

Definition half_encode (h : Half) (chunk : bytes) : option (Half * bytes) :=
  match encrypt_app_record prim (h_cs h) (h_key h) (h_iv h) (h_seq h) chunk RT_APPLICATION_DATA with
  | Ok record => Some (next_half h, record)
  | _ => None
  end.

Definition MAX_CHUNK : Z := 16384.

Definition tls_poll_write (buf : bytes) (w : TlsWriter) : TlsWriter * poll Z := rw_poll_write half_encode MAX_CHUNK buf w.

Definition tls_write_all (fuel : nat) (buf : bytes) (w : TlsWriter) : TlsWriter * res ProxyError unit :=
  rw_write_all half_encode MAX_CHUNK fuel buf w.

(** * What the read side reads *)

(** What a complete record gives: the keys after it and its data, or nothing when it ends the stream. *)
Definition record_data (h : Half) (header body : bytes) : option (Half * bytes) :=
  match idx (E:=ProxyError) header 0 with
  | Ok t =>
      if t =? RT_APPLICATION_DATA then
        match half_decrypt h body header with
        | Ok (inner, it) =>
            if it =? RT_APPLICATION_DATA then Some (next_half h, inner) else if it =? RT_ALERT then None else Some (next_half h, [])
        | _ => None
        end
      else if t =? RT_CHANGE_CIPHER_SPEC then Some (h, []) else None
  | _ => None
  end.

(** A protected close_notify. *)
Definition record_closes (h : Half) (header body : bytes) : Prop :=
  idx (E:=ProxyError) header 0 = Ok RT_APPLICATION_DATA /\ exists alert, half_decrypt h body header = Ok (alert, RT_ALERT) /\ is_close_notify alert = true.

(** [tls_frames h w ps e]: a reader with the keys [h] finds in [w] records with the data [ps] and ends up as [e]. *)
Inductive tls_frames : Half -> bytes -> list bytes -> ReadEnd -> Prop :=
| TF_end h : tls_frames h [] [] (BrokeWith (Io UnexpectedEof))
| TF_close h hd body w :
    length hd = 5%nat -> u16_at hd 3 = Ok (zlen body) -> record_closes h hd body -> tls_frames h (hd ++ body ++ w) [] Eof
| TF_record h h' hd body data w ps e :
    length hd = 5%nat -> u16_at hd 3 = Ok (zlen body) -> record_data h hd body = Some (h', data) ->
    tls_frames h' w ps e -> tls_frames h (hd ++ body ++ w) (data :: ps) e.

(** What the state still has to give out. *)
Definition tls_carries (s : TlsReader) (data : bytes) (e : ReadEnd) : Prop :=
  exists ps, data = tr_plain s ++ concat ps /\
  match tr_phase s with
  | PhPlaintext => tls_frames (tr_half s) (incoming (tr_inner s)) ps e
  | PhHeader =>
      tr_plain s = [] /\ (length (tr_header s) <= 5)%nat /\ tls_frames (tr_half s) (tr_header s ++ incoming (tr_inner s)) ps e
  | PhBody =>
      tr_plain s = [] /\ length (tr_header s) = 5%nat /\ (length (tr_body s) <= tr_body_len s)%nat
      /\ u16_at (tr_header s) 3 = Ok (Z.of_nat (tr_body_len s))
      /\ tls_frames (tr_half s) (tr_header s ++ tr_body s ++ incoming (tr_inner s)) ps e
  end.

(** What a poll must give: some of the data, a wait, or, when all is given, the end. *)
Definition tls_post (cap : Z) (n : nat) (d : bytes) (e : ReadEnd) (r : option (TlsReader * poll bytes)) : Prop :=
  match r with
  | Some (s, Ready []) => d = [] /\ e = Eof
  | Some (s, Ready out) =>
      clean (tr_inner s) /\ waits (tr_inner s) = n /\ zlen out <= cap /\ exists d', d = out ++ d' /\ tls_carries s d' e
  | Some (s, Pending) => clean (tr_inner s) /\ n = S (waits (tr_inner s)) /\ tls_carries s d e
  | Some (_, Failed x) => d = [] /\ e = BrokeWith x
  | None => False
  end.

Definition tls_turn_post (cap : Z) (n m : nat) (d : bytes) (e : ReadEnd) (P : TlsReader -> Prop) (t : TlsTurn) : Prop :=
  match t with
  | TNext s => clean (tr_inner s) /\ waits (tr_inner s) = n /\ (events_size (tr_inner s) <= m)%nat /\ tls_carries s d e /\ P s
  | TReturn s p => tls_post cap n d e (Some (s, p))
  | TLost => False
  end.

Lemma tls_frames_short h w ps e : tls_frames h w ps e -> (length w < 5)%nat -> w = [] /\ ps = [] /\ e = BrokeWith (Io UnexpectedEof).
Proof. intros H. destruct H; [done | rewrite !length_app; lia..]. Qed.

(** The record at the front. *)
Definition front (h : Half) (hd body w : bytes) (ps : list bytes) (e : ReadEnd) : Prop :=
  u16_at hd 3 = Ok (zlen body)
  /\ (record_closes h hd body /\ ps = [] /\ e = Eof
      \/ exists h' data ps', record_data h hd body = Some (h', data) /\ tls_frames h' w ps' e /\ ps = data :: ps').

Lemma tls_frames_head h hd w ps e :
  length hd = 5%nat -> tls_frames h (hd ++ w) ps e -> exists body w', w = body ++ w' /\ front h hd body w' ps e.
Proof.
  intros Hh H. remember (hd ++ w) as x eqn:E. destruct H as [h | h hd' body w' Hh' Hl Hc | h h' hd' body data w' ps e Hh' Hl Hd Hf].
  { apply (f_equal length) in E. rewrite length_app in E. simpl in E. lia. }
  all: apply app_inj_1 in E as [-> <-]; [| lia]; exists body, w'; split; [done |]; split; [done |].
  - by left.
  - right. by exists h', data, ps.
Qed.

Lemma tls_read_header_ok cap s d e :
  clean (tr_inner s) -> tls_carries s d e -> tr_phase s = PhHeader ->
  tls_turn_post cap (waits (tr_inner s)) (events_size (tr_inner s)) d e
    (fun s' => tr_phase s' = PhBody /\ (events_size (tr_inner s') + (5 - length (tr_header s)) <= events_size (tr_inner s))%nat)
    (tls_read_header s).
Proof.
  intros Hc (ps & -> & Hd) Hph. rewrite Hph in Hd. destruct Hd as (Hp & Hl & Hf). rewrite Hp. cbn [app]. unfold tls_read_header.
  destruct (fill_reads 5 5 ltac:(lia) 5 (tr_header s) (tr_inner s) Hc Hl ltac:(lia)) as (evs & h & r & -> & Hc' & Hi & Hl' & Hs & Hr). rewrite <- Hi in Hf.
  destruct r as [[] | | x].
  - destruct Hr as [Hh Hw]. destruct (tls_frames_head _ _ _ _ _ Hh Hf) as (body & w' & Ew & Hu & _). rewrite Hu.
    cbn [tls_turn_post tr_inner tr_phase]. split_and!; [done | done | lia | | done | lia]. exists ps.
    cbn [tr_plain tr_phase tr_header tr_body tr_body_len tr_inner tr_half]. rewrite Hp. unfold zlen in *. rewrite Nat2Z.id. by split_and!; try done; simpl; try lia.
  - cbn [tls_turn_post tls_post tr_inner]. split_and!; [done | done |]. exists ps. cbn [tr_plain tr_phase tr_header tr_inner tr_half]. rewrite Hp. by split_and!.
  - destruct Hr as (-> & Hn & Hlt). cbn [tls_turn_post tls_post]. rewrite Hn, app_nil_r in Hf.
    by destruct (tls_frames_short _ _ _ _ Hf Hlt) as (_ & -> & ->).
Qed.

(** A complete record is processed as [front] says. *)
Lemma tls_process_ok cap s ps e m :
  clean (tr_inner s) -> (events_size (tr_inner s) <= m)%nat -> tr_phase s = PhBody -> tr_plain s = [] ->
  front (tr_half s) (tr_header s) (tr_body s) (incoming (tr_inner s)) ps e ->
  tls_turn_post cap (waits (tr_inner s)) m (concat ps) e
    (fun s' => match tr_phase s' with PhPlaintext => True | PhHeader => tr_header s' = [] | PhBody => False end) (tls_process s).
Proof.
  intros Hc Hm Hph Hp (Hu & [((H0 & alert & Hd & Ha) & -> & ->) | (h' & data & ps' & Hr & Hf & ->)]); unfold tls_process.
  { rewrite H0. cbn [Z.eqb]. rewrite Z.eqb_refl, Hd. unfold on_alert. by rewrite Ha. }
  unfold record_data in Hr. destruct (idx (tr_header s) 0) as [t | | |]; [| done..].
  assert (Hskip : forall h, tls_frames h (incoming (tr_inner s)) ps' e -> tls_turn_post cap (waits (tr_inner s)) m (concat ([] :: ps')) e
    (fun s' => match tr_phase s' with PhPlaintext => True | PhHeader => tr_header s' = [] | PhBody => False end) (TNext (set_phase s h (tr_plain s) PhHeader))).
  { intros h Hfh. cbn. split_and!; [done | done | done | | done]. exists ps'. cbn. rewrite Hp. split_and!; [done | done | lia | done]. }
  destruct (t =? RT_APPLICATION_DATA).
  - destruct (half_decrypt _ _ _) as [[inner it] | | |]; [| done..]. destruct (it =? RT_APPLICATION_DATA).
    + injection Hr as <- <-. cbn. split_and!; [done | done | done | | done]. by exists ps'.
    + destruct (it =? RT_ALERT); [done |]. injection Hr as <- <-. by apply Hskip.
  - destruct (t =? RT_CHANGE_CIPHER_SPEC); [| done]. injection Hr as <- <-. by apply Hskip.
Qed.

Lemma tls_read_body_ok cap s d e :
  clean (tr_inner s) -> tls_carries s d e -> tr_phase s = PhBody ->
  tls_turn_post cap (waits (tr_inner s)) (events_size (tr_inner s)) d e
    (fun s' => match tr_phase s' with PhPlaintext => True | PhHeader => tr_header s' = [] | PhBody => False end) (tls_read_body s).
Proof.
  intros Hc (ps & -> & Hd) Hph. rewrite Hph in Hd. destruct Hd as (Hp & Hh & Hl & Hu & Hf). rewrite Hp. cbn [app]. unfold tls_read_body.
  destruct (fill_reads (tr_body_len s) (S (tr_body_len s)) ltac:(lia) (tr_body_len s) (tr_body s) (tr_inner s) Hc Hl ltac:(lia))
    as (evs & b & r & -> & Hc' & Hi & Hl' & Hs & Hr). rewrite <- Hi in Hf.
  destruct (tls_frames_head _ _ _ _ _ Hh Hf) as (body & w' & Ew & Hfr). pose proof (proj1 Hfr) as Hu'. rewrite Hu in Hu'. injection Hu' as Hbl.
  unfold zlen in Hbl. apply Nat2Z.inj in Hbl. destruct r as [[] | | x].
  - destruct Hr as [Hb Hw]. apply app_inj_1 in Ew as [-> <-]; [| lia]. rewrite <- Hw.
    by apply (tls_process_ok cap (mkTlsReader evs (tr_half s) (tr_plain s) (tr_header s) (tr_body_len s) body PhBody)); [done | cbn [tr_inner]; lia | done.. ].
  - cbn [tls_turn_post tls_post tr_inner]. split_and!; [done | done |]. exists ps.
    cbn [tr_plain tr_phase tr_header tr_inner tr_half tr_body tr_body_len]. rewrite Hp. by split_and!.
  - destruct Hr as (-> & Hn & Hlt). apply (f_equal length) in Ew. rewrite Hn, !length_app in Ew. simpl in Ew. lia.
Qed.

Definition tls_bonus (s : TlsReader) : nat :=
  match tr_phase s, tr_plain s, tr_header s with
  | PhPlaintext, _ :: _, _ => 0%nat
  | PhPlaintext, [], _ => 1%nat
  | PhHeader, _, [] => 1%nat
  | _, _, _ => 2%nat
  end.

Lemma tls_give_ok cap s d e :
  1 <= cap -> clean (tr_inner s) -> tls_carries s d e -> tr_phase s = PhPlaintext -> tr_plain s <> [] ->
  tls_post cap (waits (tr_inner s)) d e (Some (tls_give cap s)).
Proof.
  intros Hcap Hc (ps & -> & Hd) Hph Hne. rewrite Hph in Hd. unfold tls_give. set (n := Z.to_nat _).
  assert (Hn : (1 <= n <= length (tr_plain s))%nat /\ Z.of_nat n <= cap) by (unfold n, zlen; destruct (tr_plain s); [done |]; simpl length; lia).
  assert (Hlen : zlen (take n (tr_plain s)) <= cap) by (unfold zlen; rewrite length_take; lia).
  assert (Heq : take n (tr_plain s) ++ drop n (tr_plain s) = tr_plain s) by apply take_drop. cbn [tls_post].
  destruct (take n (tr_plain s)) as [| b out] eqn:E; [apply (f_equal length) in E; rewrite length_take in E; simpl in E; lia |].
  cbn [set_phase tr_inner]. split_and!; [done | done | done |]. exists (drop n (tr_plain s) ++ concat ps). split; [by rewrite app_assoc, Heq |]. by exists ps.
Qed.

(** The rest of a turn from a header or a body. *)
Lemma tls_turn_ok cap fuel s d e t :
  (forall s, clean (tr_inner s) -> tls_carries s d e -> (events_size (tr_inner s) + tls_bonus s < fuel)%nat ->
     tls_post cap (waits (tr_inner s)) d e (tls_loop fuel cap s)) ->
  tls_turn_post cap (waits (tr_inner s)) (events_size (tr_inner s)) d e
    (fun s' => tr_phase s' = PhBody /\ (events_size (tr_inner s') + 2 <= fuel)%nat) t ->
  tls_post cap (waits (tr_inner s)) d e
    (match t with
     | TLost => None
     | TReturn s p => Some (s, p)
     | TNext s => match tls_read_body s with
                  | TLost => None
                  | TReturn s p => Some (s, p)
                  | TNext s => tls_loop fuel cap s
                  end
     end).
Proof.
  intros IH Ht. destruct t as [s1 | s1 p | ]; [| done | done]. cbn [tls_turn_post] in Ht.
  destruct Ht as (Hc1 & <- & _ & Hd1 & Hph & Hf1). pose proof (tls_read_body_ok cap s1 d e Hc1 Hd1 Hph) as Hb.
  destruct (tls_read_body s1) as [s2 | s2 p | ]; [| done | done]. cbn [tls_turn_post] in Hb.
  destruct Hb as (Hc2 & <- & Hm2 & Hd2 & HP). apply IH; [done.. |]. assert (tls_bonus s2 <= 1)%nat; [| lia]. unfold tls_bonus.
  destruct (tr_phase s2); [by destruct (tr_plain s2); lia | rewrite HP; lia | done].
Qed.

Lemma tls_loop_ok cap fuel : 1 <= cap -> forall s d e,
  clean (tr_inner s) -> tls_carries s d e -> (events_size (tr_inner s) + tls_bonus s < fuel)%nat ->
  tls_post cap (waits (tr_inner s)) d e (tls_loop fuel cap s).
Proof.
  intros Hcap. induction fuel as [| fuel IH]; intros s d e Hc Hd Hf; [lia |]. cbn [tls_loop].
  assert (Hheader : forall s', tr_phase s' = PhHeader -> tr_inner s' = tr_inner s -> tls_carries s' d e ->
    (events_size (tr_inner s) + (match tr_header s' with [] => 1 | _ => 2 end) < S fuel)%nat ->
    tls_turn_post cap (waits (tr_inner s)) (events_size (tr_inner s)) d e
      (fun s' => tr_phase s' = PhBody /\ (events_size (tr_inner s') + 2 <= fuel)%nat) (tls_read_header s')).
  { intros s' Hph Hi Hd' Hf'. rewrite <- Hi in *. pose proof (tls_read_header_ok cap s' d e Hc Hd' Hph) as Ht.
    destruct (tls_read_header s'); [| done | done]. cbn [tls_turn_post] in *.
    destruct Ht as (H1 & H2 & H3 & H4 & H5 & H6). split_and!; [done.. |]. destruct (tr_header s'); simpl in *; lia. }
  unfold tls_bonus in Hf. destruct (tr_phase s) eqn:Hph.
  - destruct (tr_plain s) as [| b pl] eqn:Hp; [| by apply tls_give_ok; rewrite ?Hp].
    apply tls_turn_ok; [by intros; apply IH |]. apply Hheader; [done | done | | cbn [set_phase tr_header]; lia].
    destruct Hd as (ps & -> & Hd). rewrite Hph in Hd. exists ps.
    cbn [set_phase tr_plain tr_phase tr_header tr_inner tr_half]. rewrite Hp. split_and!; [done | done | simpl; lia | done].
  - apply tls_turn_ok; [by intros; apply IH |]. apply Hheader; [done | done | done |]. destruct (tr_header s); lia.
  - apply (tls_turn_ok cap fuel s d e (TNext s)); [by intros; apply IH |]. cbn [tls_turn_post]. split_and!; [done | done | lia | done | done | lia].
Qed.

Lemma tls_poll_read_ok cap s d e :
  1 <= cap -> clean (tr_inner s) -> tls_carries s d e -> tls_post cap (waits (tr_inner s)) d e (tls_poll_read cap s).
Proof.
  intros. apply tls_loop_ok; [done.. |]. unfold tls_bonus. destruct (tr_phase s), (tr_plain s), (tr_header s); lia.
Qed.

Lemma tls_collect_ok caps : Forall (Z.le 1) caps -> forall s d e,
  clean (tr_inner s) -> tls_carries s d e ->
  exists s' out e', tls_collect caps s = Some (s', out, e') /\ out `prefix_of` d
    /\ (e' = StillOpen \/ e' = e /\ out = d)
    /\ ((waits (tr_inner s) + length d < length caps)%nat -> e' = e /\ out = d).
Proof.
  induction caps as [| cap caps IH]; intros Hcaps s d e Hc Hd; cbn [tls_collect].
  { exists s, [], StillOpen. split_and!; [done | apply prefix_nil | by left | simpl; lia]. }
  apply Forall_cons_iff in Hcaps as [Hcap Hcaps]. pose proof (tls_poll_read_ok cap s d e Hcap Hc Hd) as Hp.
  destruct (tls_poll_read cap s) as [[s1 [out | | x]] |]; cbn [tls_post] in Hp; [| | | done].
  - destruct out as [| b out]; [destruct Hp as [-> ->]; exists s1, [], Eof; split_and!; auto |].
    destruct Hp as (Hc1 & Hw & _ & d' & -> & Hd1). destruct (IH Hcaps s1 d' e Hc1 Hd1) as (s2 & o & e' & -> & Hpre & He & Hall).
    exists s2, ((b :: out) ++ o), e'. split_and!; [done | by apply prefix_app | |].
    + destruct He as [-> | [-> ->]]; [by left | by right].
    + cbn [length app]. rewrite length_app. intros Hl. destruct Hall as [-> ->]; [lia | done].
  - destruct Hp as (Hc1 & Hw & Hd1). destruct (IH Hcaps s1 d e Hc1 Hd1) as (s2 & o & e' & -> & Hpre & He & Hall).
    exists s2, o, e'. split_and!; [done | done | done |]. cbn [length]. intros Hl. apply Hall. lia.
  - destruct Hp as [-> ->]. exists s1, [], (BrokeWith x). split_and!; auto.
Qed.

(** * Records of the write side *)

Context `{!TlsLaws prim}.

Definition half_ok (h : Half) : Prop := zlen (h_key h) = key_len (h_cs h).

(** The record of a chunk and the keys after it. *)
Definition half_append (h : Half) (p : bytes) : Half * bytes :=
  let header := app_header (zlen (p ++ [RT_APPLICATION_DATA]) + 16) in
  (next_half h, header ++ seal (tp_gcm prim (h_cs h)) (h_key h) (compute_nonce (h_iv h) (h_seq h)) header (p ++ [RT_APPLICATION_DATA])).

Lemma half_encode_ok h p : half_ok h -> half_encode h p = Some (half_append h p).
Proof. intros Hk. unfold half_encode, encrypt_app_record. by rewrite Hk, Z.eqb_refl. Qed.

#[local] Instance half_encoder_ok : EncoderOk half_encode half_append MAX_CHUNK 22 half_ok.
Proof.
  split; [done | by intros; apply half_encode_ok | done |]. intros h p Hk. cbn [half_append snd]. rewrite length_app.
  apply Nat2Z.inj. rewrite Nat2Z.inj_add. fold (zlen (seal (tp_gcm prim (h_cs h)) (h_key h) (compute_nonce (h_iv h) (h_seq h))
    (app_header (zlen (p ++ [RT_APPLICATION_DATA]) + 16)) (p ++ [RT_APPLICATION_DATA]))).
  rewrite seal_len, zlen_app. change (zlen [RT_APPLICATION_DATA]) with 1. unfold zlen, TAG_LEN. simpl length. lia.
Qed.

Lemma tls_writes sink h buf :
  half_ok h -> Forall willing sink -> (23 * length buf <= accepts sink)%nat ->
  exists w qs, tls_write_all (length sink + length buf) buf (rw_new sink h) = (w, Ok ())
    /\ rw_sent w = wire_of half_append h qs /\ concat qs = buf /\ Forall (chunk_of MAX_CHUNK) qs.
Proof.
  intros Hk Hw Ha. destruct (rw_write_all_delivers (EncoderOk0 := half_encoder_ok) h Hk sink buf Hw Ha) as (w & qs & H1 & H2 & H3 & H4 & _).
  by exists w, qs.
Qed.

(** A protected record in front: its data if it is application data, nothing if it is another type than an alert. *)
Lemma frames_sealed h p t rec w ps e :
  half_ok h -> zlen p + 17 < 65536 -> t <> RT_ALERT ->
  encrypt_app_record prim (h_cs h) (h_key h) (h_iv h) (h_seq h) p t = Ok rec ->
  tls_frames (next_half h) w ps e -> tls_frames h (rec ++ w) ((if t =? RT_APPLICATION_DATA then p else []) :: ps) e.
Proof.
  intros Hk Hl Ht Hr Hf. destruct (record_roundtrip prim (h_cs h) (h_key h) (h_iv h) (h_seq h) p t Hk Hl) as (hd & ct & E & H1 & H2 & H3 & H4 & _).
  rewrite Hr in E. injection E as ->. rewrite <- app_assoc. apply (TF_record h (next_half h)); [unfold zlen in H1; lia | done | | done].
  unfold record_data, half_decrypt. rewrite H3, Z.eqb_refl, H4. destruct (Z.eqb_spec t RT_APPLICATION_DATA); [done |].
  by rewrite (proj2 (Z.eqb_neq t RT_ALERT)).
Qed.

(** A protected close_notify in front. *)
Lemma frames_close h rec w :
  half_ok h -> encrypt_app_record prim (h_cs h) (h_key h) (h_iv h) (h_seq h) [1; 0] RT_ALERT = Ok rec -> tls_frames h (rec ++ w) [] Eof.
Proof.
  intros Hk Hr. destruct (record_roundtrip prim (h_cs h) (h_key h) (h_iv h) (h_seq h) [1; 0] RT_ALERT Hk ltac:(done)) as (hd & ct & E & H1 & H2 & H3 & H4 & _).
  rewrite Hr in E. injection E as ->. rewrite <- app_assoc. apply TF_close; [unfold zlen in H1; lia | done |]. split; [done |]. by exists [1; 0].
Qed.

Lemma frames_chunks ps : Forall (chunk_of MAX_CHUNK) ps -> forall h w qs e, half_ok h ->
  tls_frames (state_after half_append h ps) w qs e -> tls_frames h (wire_of half_append h ps ++ w) (ps ++ qs) e.
Proof.
  induction 1 as [| p ps [_ Hp] Hps IH]; intros h w qs e Hk Hf; [done |]. cbn [wire_of app]. rewrite <- app_assoc. unfold MAX_CHUNK in Hp.
  pose proof (half_encode_ok h p Hk) as He. unfold half_encode in He. destruct (encrypt_app_record _ _ _ _ _ _ _) as [rec | | |] eqn:E; [| done..].
  assert (Hrec : half_append h p = (next_half h, rec)) by congruence. unfold state_after in Hf. cbn [foldl] in Hf. rewrite Hrec in *. cbn [fst snd] in *.
  apply (frames_sealed h p RT_APPLICATION_DATA); [done | lia | done | done |]. by apply IH.
Qed.

(** Polls of the reader [s] give [d] and then end as [e]. *)
Definition tls_gives (caps : list Z) (s : TlsReader) (d : bytes) (e : ReadEnd) : Prop :=
  exists s' got e', tls_collect caps s = Some (s', got, e') /\ got `prefix_of` d /\ (e' = StillOpen \/ e' = e /\ got = d)
    /\ ((waits (tr_inner s) + length d < length caps)%nat -> e' = e /\ got = d).

Lemma tls_new_gives caps evs h ps e :
  Forall (Z.le 1) caps -> clean evs -> tls_frames h (incoming evs) ps e ->
  tls_gives caps (mkTlsReader evs h [] [] 0 [] PhHeader) (concat ps) e.
Proof.
  intros Hcaps Hc Hf. apply tls_collect_ok; [done | done |]. exists ps. split; [done |]. cbn. split_and!; [done | lia | done].
Qed.

(** One direction: what is written is read. *)
Lemma tls_delivers sink h buf :
  half_ok h -> Forall willing sink -> (23 * length buf <= accepts sink)%nat ->
  exists w, tls_write_all (length sink + length buf) buf (rw_new sink h) = (w, Ok ())
    /\ forall caps evs, Forall (Z.le 1) caps -> clean evs -> incoming evs = rw_sent w ->
       tls_gives caps (mkTlsReader evs h [] [] 0 [] PhHeader) buf (BrokeWith (Io UnexpectedEof)).
Proof.
  intros Hk Hw Ha. destruct (tls_writes sink h buf Hk Hw Ha) as (w & qs & E & Hs & <- & Hq). exists w. split; [done |].
  intros caps evs Hcaps Hc Hi. apply tls_new_gives; [done | done |]. rewrite Hi, Hs.
  pose proof (frames_chunks qs Hq h [] [] _ Hk (TF_end _)) as Hf. by rewrite !app_nil_r in Hf.
Qed.

(** C2. A REALITY tunnel from its first byte on.  A client that has the public key of the server, the current time within
    the tolerance and an allowed short id of at most eight bytes that does not end in a zero byte is recognised; both
    sides complete TLS 1.3 with the same keys on what the other sends, and no byte that follows the handshake is lost.
    All that the client then writes is read by the server, and all that the server writes by the client, however the
    streams underneath cut it; a stream that ends without a close_notify is an error of the reader. *)
Theorem reality_tunnel (ccfg : RealityClientConfig) (scfg : RealityServerConfig) (template : CertTemplate)
    (secret secp random server_secret server_random : bytes) (p256_secret : option bytes) (dc de now_c now_s : Z) (io : CoverIo)
    (up down : bytes) (csink ssink : list WriteEvent) (caps : list Z) :
  cc_server_public_key ccfg = rp_public (tp_x25519 prim) (sc_private_key scfg) ->
  cc_short_id ccfg ∈ sc_short_ids scfg -> zlen (cc_short_id ccfg) <= 8 -> ends_in_zero (cc_short_id ccfg) = false ->
  utf8_valid (cc_sni ccfg) = true -> zlen (cc_sni ccfg) + zlen secp <= 16000 -> zlen random = 32 ->
  0 <= dc < 16 -> 0 <= de < 16 -> 0 <= now_c < 2 ^ 32 -> Z.abs (now_s - now_c) <= sc_max_time_diff scfg ->
  template_ok (tp_cert prim) template -> zlen (ct_cert_der template) <= 60000 -> zlen server_random = 32 ->
  Forall willing csink -> (23 * length up <= accepts csink)%nat -> Forall willing ssink -> (23 * length down <= accepts ssink)%nat ->
  Forall (Z.le 1) caps ->
  exists hello auth_key flight reply keys wup wdown,
    dial_hello (tp_x25519 prim) ccfg secret secp random dc de now_c = Ok (hello, auth_key)
    /\ complete_tls13_handshake prim (drop 5 hello) secret p256_secret auth_key (flight ++ rw_sent wdown, []) = ((rw_sent wdown, reply), Ok keys)
    /\ (exists stream,
         accept_inner (tp_x25519 prim) scfg PrependClientHello io false false now_s (hello ++ reply ++ rw_sent wup) = Ok (Authenticated stream auth_key)
         /\ complete_tls13_server_handshake prim template auth_key server_secret server_random (stream_bytes stream, []) = ((rw_sent wup, flight), Ok keys))
    /\ tls_write_all (length csink + length up) up (tls_stream_new [] csink keys).2 = (wup, Ok ())
    /\ tls_write_all (length ssink + length down) down (tls_stream_new_server [] ssink keys).2 = (wdown, Ok ())
    /\ (forall evs sink, clean evs -> incoming evs = rw_sent wup ->
         tls_gives caps (tls_stream_new_server evs sink keys).1 up (BrokeWith (Io UnexpectedEof)))
    /\ forall evs sink, clean evs -> incoming evs = rw_sent wdown ->
         tls_gives caps (tls_stream_new evs sink keys).1 down (BrokeWith (Io UnexpectedEof)).
Proof.
  intros H1 H2 H3 H4 H5 H6 H7 H8 H9 H10 H11 H12 H13 H14 Hcw Hca Hsw Hsa Hcaps.
  destruct (reality_handshake prim ccfg scfg template secret secp random server_secret server_random p256_secret dc de now_c now_s io
    H1 H2 H3 H4 H5 H6 H7 H8 H9 H10 H11 H12 H13 H14) as (hello & ak & flight & reply & keys & Hd & (Hck & Hsk & _) & _ & Hc & Hs).
  destruct (tls_delivers csink (client_half keys) up Hck Hcw Hca) as (wup & Ew & Hu).
  destruct (tls_delivers ssink (server_half keys) down Hsk Hsw Hsa) as (wdown & Ew' & Hdn).
  exists hello, ak, flight, reply, keys, wup, wdown. split_and!; [done | apply Hc | apply Hs | exact Ew | exact Ew' | |].
  - intros evs sink Hcl Hi. by apply Hu.
  - intros evs sink Hcl Hi. by apply Hdn.
Qed.

(** Records with padding (RFC 8446, 5.4) are lost.  A peer that puts zeros behind the content type of a record of application data,
    as every peer may, has the data of this record dropped without an error: the reader gives what comes before
    it and what comes after it, and then the end that a close_notify makes. *)
Theorem tls13_padding_lost (h : Half) (before after : list bytes) (data : bytes) (k : nat) (padded close : bytes) (caps : list Z) (evs : list PollEvent) :
  half_ok h -> Forall (chunk_of MAX_CHUNK) before -> Forall (chunk_of MAX_CHUNK) after -> zlen data + Z.of_nat k + 18 < 65536 ->
  (let h1 := state_after half_append h before in
   encrypt_app_record prim (h_cs h1) (h_key h1) (h_iv h1) (h_seq h1) (data ++ [RT_APPLICATION_DATA] ++ replicate k 0) 0 = Ok padded
   /\ let h2 := state_after half_append (next_half h1) after in
      encrypt_app_record prim (h_cs h2) (h_key h2) (h_iv h2) (h_seq h2) [1; 0] RT_ALERT = Ok close
      /\ incoming evs = wire_of half_append h before ++ padded ++ wire_of half_append (next_half h1) after ++ close) ->
  Forall (Z.le 1) caps -> clean evs ->
  tls_gives caps (mkTlsReader evs h [] [] 0 [] PhHeader) (concat before ++ concat after) Eof.
Proof.
  intros Hk Hb Ha Hl (Hp & Hcl & Hi) Hcaps Hc. set (h1 := state_after half_append h before) in *.
  assert (Hk1 : half_ok h1) by exact (state_after_inv (EncoderOk0 := half_encoder_ok) h Hk before).
  assert (Hk2 : half_ok (state_after half_append (next_half h1) after)) by exact (state_after_inv (EncoderOk0 := half_encoder_ok) (next_half h1) Hk1 after).
  replace (concat before ++ concat after) with (concat (before ++ [] :: after)) by (by rewrite concat_app).
  apply tls_new_gives; [done | done |]. rewrite Hi. apply frames_chunks; [done | done |].
  eapply (frames_sealed h1 (data ++ [RT_APPLICATION_DATA] ++ replicate k 0) 0); [done | | done | done |].
  { rewrite !zlen_app. unfold zlen in *. rewrite length_replicate. simpl length. lia. }
  rewrite <- (app_nil_r after) at 2. apply frames_chunks; [done | done |]. rewrite <- (app_nil_r close). by apply frames_close.
Qed.

End stream.

Lemma reality_tunnel_witness :
  exists hello auth_key flight reply keys wup (wdown : TlsWriter),
    dial_hello toy_reality toy_client [9] (replicate 65 4) (replicate 32 7) 3 4 1000 = Ok (hello, auth_key)
    /\ complete_tls13_handshake toy_tls (drop 5 hello) [9] None auth_key (flight ++ rw_sent wdown, []) = ((rw_sent wdown, reply), Ok keys)
    /\ tls_write_all toy_tls 83 [1; 2; 3] (tls_stream_new [] (replicate 80 (WAccept 2)) keys).2 = (wup, Ok ())
    /\ forall evs, clean evs -> incoming evs = rw_sent wup -> tls_gives toy_tls (replicate 5 2) (tls_stream_new_server evs [] keys).1 [1; 2; 3] (BrokeWith (Io UnexpectedEof)).
Proof.
  destruct (reality_tunnel toy_tls toy_client toy_server toy_template [9] (replicate 65 4) (replicate 32 7) [8] (replicate 32 6) None 3 4 1000 1100 CoverUp
    [1; 2; 3] [4] (replicate 80 (WAccept 2)) (replicate 30 (WAccept 1)) (replicate 5 2)
    eq_refl ltac:(decided) ltac:(decided) eq_refl eq_refl ltac:(decided) eq_refl ltac:(lia) ltac:(lia) ltac:(lia) ltac:(decided) toy_template_ok ltac:(decided) eq_refl
    ltac:(decided) ltac:(decided) ltac:(decided) ltac:(decided) ltac:(decided))
    as (hello & key & flight & reply & keys & wup & wdown & H1 & H2 & _ & H3 & _ & H4 & _). exists hello, key, flight, reply, keys, wup, wdown.
  split; [exact H1 | split; [exact H2 | split; [exact H3 |]]]. intros evs Hc Hi. exact (H4 evs [] Hc Hi).
Defined.

Definition toy_half : Half := mkHalf Aes128GcmSha256 (replicate 16 1) (replicate 12 2) 0.

(** A padded record between two others. *)
Definition toy_padded : res ProxyError bytes :=
  let h1 := next_half toy_half in
  let h2 := next_half (next_half h1) in
  padded ← encrypt_app_record toy_tls (h_cs h1) (h_key h1) (h_iv h1) 1 ([5; 6] ++ [RT_APPLICATION_DATA] ++ replicate 3 0) 0;
  close ← encrypt_app_record toy_tls (h_cs h2) (h_key h2) (h_iv h2) 3 [1; 0] RT_ALERT;
  Ok ((half_append toy_tls toy_half [1; 2]).2 ++ padded ++ (half_append toy_tls (next_half h1) [7]).2 ++ close).

Lemma tls13_padding_lost_witness :
  match toy_padded with
  | Ok w => tls_gives toy_tls (replicate 8 1) (mkTlsReader [PData w] toy_half [] [] 0 [] PhHeader) [1; 2; 7] Eof
  | _ => False
  end.
Proof.
  destruct toy_padded as [w | | |] eqn:E; [| by vm_compute in E..].
  apply (tls13_padding_lost toy_tls toy_half [[1; 2]] [[7]] [5; 6] 3
    (match encrypt_app_record toy_tls Aes128GcmSha256 (replicate 16 1) (replicate 12 2) 1 ([5; 6] ++ [RT_APPLICATION_DATA] ++ replicate 3 0) 0 with Ok r => r | _ => [] end)
    (match encrypt_app_record toy_tls Aes128GcmSha256 (replicate 16 1) (replicate 12 2) 3 [1; 0] RT_ALERT with Ok r => r | _ => [] end) (replicate 8 1) [PData w]).
  - reflexivity.
  - decided.
  - decided.
  - decided.
  - vm_compute in E. injection E as <-. vm_compute. do 2 (split; [reflexivity |]). reflexivity.
  - decided.
  - vm_compute in E. injection E as <-. decided.
Defined.
