(* ===== verification/FreedomPool.v ===== *)
(** The freedom outbound and its adaptive pool of connections ([freedom.rs]).

    Connections to the same destination share a [DestPool] with idle sockets; refill tasks run in the background, and
    the counter [global_idle] bounds the idle and the coming sockets of all destinations.  Every access to shared
    state (a lock, an atomic operation, an operation of the map) is one step of a thread or of a task, and a run is any
    interleaving of them.  The pools are a heap: a destination that is evicted from the map is still held by the threads
    and the tasks that have a pointer to it.

    Sockets, their liveness and time come from the environment; the resolver and the operating system's lookup are parameters. *)

From stdpp Require Import base list strings numbers.
From S2P Require Import Prelude Address.

(** Durations and instants in nanoseconds. *)
Definition SECOND : Z := 1000000000.

Record PoolConfig := mkPoolConfig {
  max_per_dest : Z;
  max_global_idle : Z;
  max_dests : Z;
  idle_ttl : Z;
  hotness_window : Z;
  min_hotness_for_pool : Z;
}.

Definition pool_default : PoolConfig := mkPoolConfig 4 128 256 (5 * SECOND) (10 * SECOND) 32.

Definition fast_profile : PoolConfig := mkPoolConfig 8 256 512 (8 * SECOND) (12 * SECOND) 8.

Definition pool_fixed (per_dest : Z) : PoolConfig :=
  mkPoolConfig per_dest (Z.max (Z.min (per_dest * 64) (2 ^ 64 - 1)) per_dest) 512 (8 * SECOND) (12 * SECOND) 1.

(** * Hotness *)

Record HotnessMeter := mkMeter { hm_current : Z; hm_previous : Z; hm_window_start : Z }.

Definition meter_new (now : Z) : HotnessMeter := mkMeter 0 0 now.

Definition sat_add (a b : Z) : Z := Z.min (a + b) (2 ^ 64 - 1).

Definition record_and_get (window now : Z) (m : HotnessMeter) : HotnessMeter * Z :=
  let elapsed := Z.max 0 (now - hm_window_start m) in
  let m :=
    if elapsed >=? window * 2 then mkMeter 1 0 now
    else if elapsed >=? window then mkMeter 1 (hm_current m) now
    else mkMeter (hm_current m + 1) (hm_previous m) (hm_window_start m) in
  (m, sat_add (hm_previous m) (hm_current m)).

Definition estimate (window now : Z) (m : HotnessMeter) : Z :=
  let elapsed := Z.max 0 (now - hm_window_start m) in
  if elapsed >=? window * 2 then 0
  else if elapsed >=? window then hm_current m
  else sat_add (hm_previous m) (hm_current m).

Definition tier_from_count (count max min_hotness : Z) : Z :=
  if count <? min_hotness then 0
  else
    let tier :=
      if count =? 0 then 0
      else if count <=? 3 then 1
      else if count <=? 7 then 2
      else if count <=? 15 then 4
      else if count <=? 31 then 8
      else if count <=? 63 then 16
      else max in
    Z.min tier max.

(** * The pools *)

(** A socket: a name of its own, and the address it is connected to. *)
Record Socket := mkSocket { so_id : nat; so_peer : SocketAddr }.

Record DestPool := mkDestPool {
  dp_addr : SocketAddr;
  dp_hotness : HotnessMeter;
  dp_in_flight : Z;
  dp_idle : list (Socket * Z);
  dp_last_used : Z;
}.

(** Milliseconds since [POOL_EPOCH]; instants count from there. *)
Definition now_ms (now : Z) : Z := now / 1000000.

Definition dest_pool_new (addr : SocketAddr) (now : Z) : DestPool := mkDestPool addr (meter_new now) 0 [] (now_ms now).

Definition set_hotness (h : HotnessMeter) (p : DestPool) : DestPool := mkDestPool (dp_addr p) h (dp_in_flight p) (dp_idle p) (dp_last_used p).
Definition set_in_flight (n : Z) (p : DestPool) : DestPool := mkDestPool (dp_addr p) (dp_hotness p) n (dp_idle p) (dp_last_used p).
Definition set_idle (l : list (Socket * Z)) (p : DestPool) : DestPool := mkDestPool (dp_addr p) (dp_hotness p) (dp_in_flight p) l (dp_last_used p).
Definition set_last_used (t : Z) (p : DestPool) : DestPool := mkDestPool (dp_addr p) (dp_hotness p) (dp_in_flight p) (dp_idle p) t.

(** The loop of [try_take]: what is left, the socket with its age, and how many were stale.  [alive] is the answer of the two probes. *)
Fixpoint take_loop (idle_ttl now : Z) (alive : Socket -> bool) (idle : list (Socket * Z)) (stale : Z)
  : list (Socket * Z) * option (Socket * Z) * Z :=
  match idle with
  | [] => ([], None, stale)
  | (stream, last_use) :: idle =>
      let age := Z.max 0 (now - last_use) in
      if age >? idle_ttl then take_loop idle_ttl now alive idle (stale + 1)
      else if alive stream then (idle, Some (stream, age), stale)
      else take_loop idle_ttl now alive idle (stale + 1)
  end.

(** What all threads and tasks share: the heap of pools, the map of destinations, [global_idle], and the name of the next socket. *)
Record Shared := mkShared {
  sh_pools : list DestPool;
  sh_dests : list (SocketAddr * nat);
  sh_global : Z;
  sh_next : nat;
}.

Fixpoint dest_of (dests : list (SocketAddr * nat)) (addr : SocketAddr) : option nat :=
  match dests with
  | [] => None
  | (a, pid) :: dests => if decide (a = addr) then Some pid else dest_of dests addr
  end.

Definition remove_dest (dests : list (SocketAddr * nat)) (addr : SocketAddr) : list (SocketAddr * nat) :=
  base.filter (fun e => e.1 <> addr) dests.

Definition on_pool (pid : nat) (f : DestPool -> DestPool) (sh : Shared) : Shared :=
  mkShared (alter f pid (sh_pools sh)) (sh_dests sh) (sh_global sh) (sh_next sh).

Definition add_global (d : Z) (sh : Shared) : Shared := mkShared (sh_pools sh) (sh_dests sh) (sh_global sh + d) (sh_next sh).
Definition set_dests (d : list (SocketAddr * nat)) (sh : Shared) : Shared := mkShared (sh_pools sh) d (sh_global sh) (sh_next sh).

(** [min_by_key] over the map: [key] is one with the least time of use; the order of the map decides between equals. *)
Definition last_used (sh : Shared) (pid : nat) : Z := match sh_pools sh !! pid with Some p => dp_last_used p | None => 0 end.

Definition is_lru (sh : Shared) (key : SocketAddr) : bool :=
  match dest_of (sh_dests sh) key with
  | Some pid => forallb (fun e => last_used sh pid <=? last_used sh e.2) (sh_dests sh)
  | None => false
  end.

(** * Connections *)

(** What a thread of [connect] does next once it has its pool. *)
Inductive Work :=
| WRecord
| WTouch
| WTake
| WStale (stale : Z)
| WCap
| WSizes (cap : Z)
| WBudget (cap idle_len in_flight : Z)
| WLoad (needed : Z)
| WCas (needed cur : Z)
| WSpawn (n : nat)
| WLease.

Inductive Served := Pooled (s : Socket) (age : Z) | Fresh (s : Socket) | Refused.

Inductive Pc :=
| PGet (addr : SocketAddr)
| PLen (addr : SocketAddr)
| PEvict (addr : SocketAddr)
| PRemove (addr key : SocketAddr)
| PCount (addr : SocketAddr) (pid : nat)
| PReturn (addr : SocketAddr) (k : Z)
| PInsert (addr : SocketAddr)
| PServe (addr : SocketAddr) (pid : nat) (taken : option (Socket * Z)) (w : Work)
| PDial (addr : SocketAddr)
| PDone (addr : SocketAddr) (r : Served).

(** A refill task: connecting, about to give back its reservation, about to leave [in_flight]. *)
Inductive Task := TConnect (pid : nat) | TRelease (pid : nat) | TLeave (pid : nat).

(** What the environment answers in a step: the time, the entry the map gives first, the probes, and whether a connection succeeds. *)
Record Env := mkEnv { ev_now : Z; ev_key : SocketAddr; ev_alive : Socket -> bool; ev_ok : bool }.

Section pool.
Context (cfg : PoolConfig).

Definition current_cap (p : DestPool) (now : Z) : Z :=
  tier_from_count (estimate (hotness_window cfg) now (dp_hotness p)) (max_per_dest cfg) (min_hotness_for_pool cfg).

(** [replenish] before its reservation: how many sockets are missing and within the budget. *)
Definition needed_of (cap idle_len in_flight committed : Z) : Z :=
  Z.min (Z.max 0 (cap - (idle_len + in_flight))) (Z.max 0 (max_global_idle cfg - committed)).

Definition want_of (needed cur : Z) : Z := Z.min needed (Z.max 0 (max_global_idle cfg - cur)).

(** [get_or_create] and [evict_lru]. *)
Definition find_step (env : Env) (sh : Shared) (pc : Pc) : option (Shared * Pc) :=
  match pc with
  | PGet addr =>
      match dest_of (sh_dests sh) addr with
      | Some pid => Some (sh, PServe addr pid None WRecord)
      | None => Some (sh, PLen addr)
      end
  | PLen addr => if zlen (sh_dests sh) >=? max_dests cfg then Some (sh, PEvict addr) else Some (sh, PInsert addr)
  | PEvict addr =>
      match sh_dests sh with
      | [] => Some (sh, PInsert addr)
      | _ => if is_lru sh (ev_key env) then Some (sh, PRemove addr (ev_key env)) else None
      end
  | PRemove addr key =>
      match dest_of (sh_dests sh) key with
      | Some pid => Some (set_dests (remove_dest (sh_dests sh) key) sh, PCount addr pid)
      | None => Some (sh, PInsert addr)
      end
  | PCount addr pid =>
      p ← sh_pools sh !! pid;
      Some (sh, PReturn addr (zlen (dp_idle p)))
  | PReturn addr k => Some (if 0 <? k then add_global (- k) sh else sh, PInsert addr)
  | PInsert addr =>
      match dest_of (sh_dests sh) addr with
      | Some pid => Some (sh, PServe addr pid None WRecord)
      | None =>
          let pid := length (sh_pools sh) in
          Some (mkShared (sh_pools sh ++ [dest_pool_new addr (ev_now env)]) (sh_dests sh ++ [(addr, pid)]) (sh_global sh) (sh_next sh),
                PServe addr pid None WRecord)
      end
  | _ => None
  end.

(** The rest of [connect] with a pool: [record_and_cap], [try_take], the stale slots, [replenish], the lease. *)
Definition serve_step (env : Env) (sh : Shared) (addr : SocketAddr) (pid : nat) (p : DestPool) (taken : option (Socket * Z)) (w : Work)
  : Shared * Pc * list Task :=
  let go sh w := (sh, PServe addr pid taken w, []) in
  match w with
  | WRecord => go (on_pool pid (set_hotness (record_and_get (hotness_window cfg) (ev_now env) (dp_hotness p)).1) sh) WTouch
  | WTouch => go (on_pool pid (set_last_used (now_ms (ev_now env))) sh) WTake
  | WTake =>
      let '(idle, taken, stale) := take_loop (idle_ttl cfg) (ev_now env) (ev_alive env) (dp_idle p) 0 in
      (on_pool pid (set_idle idle) sh, PServe addr pid taken (WStale stale), [])
  | WStale stale => go (if 0 <? stale then add_global (- stale) sh else sh) WCap
  | WCap => go sh (WSizes (current_cap p (ev_now env)))
  | WSizes cap => go sh (WBudget cap (zlen (dp_idle p)) (dp_in_flight p))
  | WBudget cap idle_len in_flight =>
      let needed := needed_of cap idle_len in_flight (sh_global sh) in
      if needed =? 0 then go sh WLease else go sh (WLoad needed)
  | WLoad needed => if want_of needed (sh_global sh) =? 0 then go sh WLease else go sh (WCas needed (sh_global sh))
  | WCas needed cur =>
      if sh_global sh =? cur then go (add_global (want_of needed cur) sh) (WSpawn (Z.to_nat (want_of needed cur)))
      else go sh (WLoad needed)
  | WSpawn O => go sh WLease
  | WSpawn (S n) => (on_pool pid (set_in_flight (dp_in_flight p + 1)) sh, PServe addr pid taken (WSpawn n), [TConnect pid])
  | WLease =>
      match taken with
      | Some (s, age) => (add_global (-1) sh, PDone addr (Pooled s age), [])
      | None => (sh, PDial addr, [])
      end
  end.

Definition fresh (peer : SocketAddr) (sh : Shared) : Shared * Socket :=
  (mkShared (sh_pools sh) (sh_dests sh) (sh_global sh) (S (sh_next sh)), mkSocket (sh_next sh) peer).

Definition thread_step (env : Env) (sh : Shared) (pc : Pc) : option (Shared * Pc * list Task) :=
  match pc with
  | PServe addr pid taken w =>
      p ← sh_pools sh !! pid;
      Some (serve_step env sh addr pid p taken w)
  | PDial addr =>
      if ev_ok env then let '(sh, s) := fresh addr sh in Some (sh, PDone addr (Fresh s), []) else Some (sh, PDone addr Refused, [])
  | PDone _ _ => None
  | _ => '(sh, pc) ← find_step env sh pc; Some (sh, pc, [])
  end.

(** A step of a refill task; what is left of it. *)
Definition task_step (env : Env) (sh : Shared) (t : Task) : option (Shared * option Task) :=
  match t with
  | TConnect pid =>
      p ← sh_pools sh !! pid;
      if ev_ok env then
        let '(sh, s) := fresh (dp_addr p) sh in
        if zlen (dp_idle p) <? max_per_dest cfg then Some (on_pool pid (set_idle (dp_idle p ++ [(s, ev_now env)])) sh, Some (TLeave pid))
        else Some (sh, Some (TRelease pid))
      else Some (sh, Some (TRelease pid))
  | TRelease pid => Some (add_global (-1) sh, Some (TLeave pid))
  | TLeave pid =>
      p ← sh_pools sh !! pid;
      Some (on_pool pid (set_in_flight (dp_in_flight p - 1)) sh, None)
  end.

(** * Runs *)

Record Sys := mkSys { sy_shared : Shared; sy_threads : list Pc; sy_tasks : list Task }.

Definition sys_new : Sys := mkSys (mkShared [] [] 0 0) [] [].

Inductive Event := Connect (addr : SocketAddr) | RunThread (i : nat) (env : Env) | RunTask (j : nat) (env : Env).

Definition step (s : Sys) (ev : Event) : option Sys :=
  match ev with
  | Connect addr => Some (mkSys (sy_shared s) (sy_threads s ++ [PGet addr]) (sy_tasks s))
  | RunThread i env =>
      pc ← sy_threads s !! i;
      '(sh, pc, new) ← thread_step env (sy_shared s) pc;
      Some (mkSys sh (<[i := pc]> (sy_threads s)) (sy_tasks s ++ new))
  | RunTask j env =>
      t ← sy_tasks s !! j;
      '(sh, rest) ← task_step env (sy_shared s) t;
      Some (mkSys sh (sy_threads s) (match rest with Some t => <[j := t]> (sy_tasks s) | None => delete j (sy_tasks s) end))
  end.

Fixpoint run (s : Sys) (evs : list Event) : option Sys :=
  match evs with
  | [] => Some s
  | ev :: evs => s ← step s ev; run s evs
  end.

End pool.

(** [FreedomOutbound::resolve]: [dns] is the module if there is one, [lookup_host] the resolver of the operating system. *)
Definition freedom_resolve (dns : option (bytes -> res ProxyError (list IpAddr))) (lookup_host : bytes -> Z -> option (list SocketAddr)) (dest : Address)
  : res ProxyError SocketAddr :=
  match dest with
  | Ipv4 ip port => Ok (mkSocketAddr (V4 ip) port)
  | Ipv6 ip port => Ok (mkSocketAddr (V6 ip) port)
  | Domain name port =>
      match dns with
      | Some resolve =>
          ips ← resolve name;
          ip ← ok_or (head ips) (DnsResolutionFailed "no records returned");
          Ok (mkSocketAddr ip port)
      | None =>
          addrs ← ok_or (lookup_host name port) (DnsResolutionFailed "lookup failed");
          ok_or (head addrs) (DnsResolutionFailed "no address")
      end
  end.

(** * Sums over the threads, tasks and pools *)

Definition zsum {A} (f : A -> Z) (l : list A) : Z := foldr (fun x a => f x + a) 0 l.

Lemma zsum_app {A} (f : A -> Z) l k : zsum f (l ++ k) = zsum f l + zsum f k.
Proof. induction l as [| x l IH]; cbn; [done |]. unfold zsum in *. lia. Qed.

Lemma zsum_alter {A} (f : A -> Z) g l i x : l !! i = Some x -> zsum f (alter g i l) = zsum f l - f x + f (g x).
Proof.
  revert i. induction l as [| y l IH]; intros [| i]; cbn; [done | done | |].
  - intros [= ->]. unfold zsum. lia.
  - intros Hi. specialize (IH i Hi). unfold zsum in *. cbn in *. lia.
Qed.

Lemma zsum_insert {A} (f : A -> Z) l i x y : l !! i = Some x -> zsum f (<[i := y]> l) = zsum f l - f x + f y.
Proof.
  intros Hi. rewrite <- (zsum_alter f (fun _ => y) l i x Hi). f_equal. apply list_eq. intros j. destruct (decide (i = j)) as [<- |].
  - rewrite list_lookup_insert_eq by (by eapply lookup_lt_Some). by rewrite list_lookup_alter_eq, Hi.
  - by rewrite list_lookup_insert_ne, list_lookup_alter_ne.
Qed.

Lemma zsum_delete {A} (f : A -> Z) l i x : l !! i = Some x -> zsum f (delete i l) = zsum f l - f x.
Proof.
  intros Hi. rewrite <- (take_drop_middle l i x Hi) at 2. rewrite delete_take_drop, !zsum_app. unfold zsum. cbn. lia.
Qed.

Lemma zsum_nonneg {A} (f : A -> Z) l : (forall x, 0 <= f x) -> 0 <= zsum f l.
Proof. intros Hf. induction l as [| x l IH]; cbn; [done |]. specialize (Hf x). unfold zsum in *. lia. Qed.

Lemma zsum_lookup {A} (f : A -> Z) l i x : (forall x, 0 <= f x) -> l !! i = Some x -> f x <= zsum f l.
Proof. intros Hf Hi. pose proof (zsum_nonneg f (delete i l) Hf). rewrite (zsum_delete f l i x Hi) in H. lia. Qed.

Lemma zsum_two {A} (f : A -> Z) l i j x y : (forall x, 0 <= f x) -> l !! i = Some x -> l !! j = Some y -> i <> j -> f x + f y <= zsum f l.
Proof.
  intros Hf. revert i j. induction l as [| z l IH]; intros [| i] [| j] Hi Hj Hne; cbn [lookup list_lookup] in *; try done.
  - injection Hi as ->. pose proof (zsum_lookup f l j y Hf Hj). unfold zsum in *. cbn. lia.
  - injection Hj as ->. pose proof (zsum_lookup f l i x Hf Hi). unfold zsum in *. cbn. lia.
  - assert (f x + f y <= zsum f l) by (apply (IH i j); [done | done | lia]). specialize (Hf z). unfold zsum in *. cbn. lia.
Qed.

(** * The sockets *)

Definition holds (id : nat) (s : Socket) : Z := if decide (so_id s = id) then 1 else 0.

(** How often the socket [id] is in a pool, and how often a thread has it. *)
Definition occ_pool (id : nat) (p : DestPool) : Z := zsum (fun e => holds id e.1) (dp_idle p).

Definition occ_pc (id : nat) (pc : Pc) : Z :=
  match pc with
  | PServe _ _ (Some (s, _)) _ | PDone _ (Pooled s _) | PDone _ (Fresh s) => holds id s
  | _ => 0
  end.

Definition occ (id : nat) (s : Sys) : Z := zsum (occ_pool id) (sh_pools (sy_shared s)) + zsum (occ_pc id) (sy_threads s).

Lemma holds_nonneg id s : 0 <= holds id s.
Proof. unfold holds. by destruct (decide _). Qed.

Lemma occ_pool_nonneg id p : 0 <= occ_pool id p.
Proof. apply zsum_nonneg. intros. apply holds_nonneg. Qed.

Lemma occ_pc_nonneg id pc : 0 <= occ_pc id pc.
Proof. unfold occ_pc. repeat case_match; try done; apply holds_nonneg. Qed.

Definition in_flight_of (pid : nat) (t : Task) : Z :=
  match t with TConnect q | TRelease q | TLeave q => if decide (q = pid) then 1 else 0 end.

Definition task_pid (t : Task) : nat := match t with TConnect q | TRelease q | TLeave q => q end.

(** [take_loop] splits the queue: stale ones, the one that is taken, the rest. *)
Lemma take_loop_split ttl now alive idle : forall stale rest taken stale',
  take_loop ttl now alive idle stale = (rest, taken, stale') ->
  exists pre, stale' = stale + zlen pre
    /\ match taken with
       | Some (s, age) => 0 <= age <= ttl /\ exists t, idle = pre ++ (s, t) :: rest
       | None => idle = pre /\ rest = []
       end.
Proof.
  induction idle as [| [s t] idle IH]; intros stale rest taken stale'; cbn [take_loop].
  - intros [= <- <- <-]. exists []. rewrite zlen_nil. split; [lia | done].
  - destruct (Z.gtb_spec (Z.max 0 (now - t)) ttl) as [Hg | Hg]; [| destruct (alive s)].
    2: { intros [= <- <- <-]. exists []. rewrite zlen_nil. split; [lia |]. split; [lia |]. by exists t. }
    all: intros H; apply IH in H as (pre & -> & H); exists ((s, t) :: pre); rewrite zlen_cons; split; [lia |].
    all: destruct taken as [[s' age] |]; [destruct H as [Ha (t' & ->)]; split; [done | by exists t'] | by destruct H as [-> ->]].
Qed.

Definition taken_count (taken : option (Socket * Z)) : Z := match taken with Some _ => 1 | None => 0 end.
Definition taken_occ (id : nat) (taken : option (Socket * Z)) : Z := match taken with Some (s, _) => holds id s | None => 0 end.

Lemma take_loop_counts ttl now alive idle rest taken stale id :
  take_loop ttl now alive idle 0 = (rest, taken, stale) ->
  0 <= stale /\ zlen idle = stale + taken_count taken + zlen rest
  /\ zsum (fun e => holds id e.1) rest + taken_occ id taken <= zsum (fun e => holds id e.1) idle.
Proof.
  intros H. apply take_loop_split in H as (pre & -> & H). pose proof (zlen_nonneg pre).
  assert (Hp : 0 <= zsum (fun e : Socket * Z => holds id e.1) pre) by (apply zsum_nonneg; intros; apply holds_nonneg).
  destruct taken as [[s age] |]; cbn [taken_count taken_occ].
  - destruct H as [_ (t & ->)]. rewrite zlen_app, zlen_cons, zsum_app. split_and!; [lia | lia |]. unfold zsum in *. cbn. lia.
  - destruct H as [-> ->]. change (zlen (@nil (Socket * Z))) with 0. split_and!; [lia | lia |]. unfold zsum in *. cbn. lia.
Qed.

Section safety.
Context (cfg : PoolConfig).

Definition pool_ok (tasks : list Task) (pid : nat) (p : DestPool) : Prop :=
  zlen (dp_idle p) <= Z.max 0 (max_per_dest cfg) /\ Forall (fun e => so_peer e.1 = dp_addr p) (dp_idle p)
  /\ dp_in_flight p = zsum (in_flight_of pid) tasks.

Definition has_pool (sh : Shared) (addr : SocketAddr) (pid : nat) : Prop := exists p, sh_pools sh !! pid = Some p /\ dp_addr p = addr.

(** Nothing is taken before [try_take]. *)
Definition work_ok (taken : option (Socket * Z)) (w : Work) : Prop :=
  match w with WRecord | WTouch | WTake => taken = None | WStale k | WLoad k | WCas k _ => 0 <= k | _ => True end.

Definition pc_ok (sh : Shared) (pc : Pc) : Prop :=
  match pc with
  | PServe addr pid taken w =>
      has_pool sh addr pid /\ (match taken with Some (s, age) => so_peer s = addr /\ 0 <= age <= idle_ttl cfg | None => True end)
      /\ work_ok taken w
  | PCount _ pid => is_Some (sh_pools sh !! pid)
  | PReturn _ k => 0 <= k
  | PDone addr (Pooled s age) => so_peer s = addr /\ 0 <= age <= idle_ttl cfg
  | PDone addr (Fresh s) => so_peer s = addr
  | _ => True
  end.

Definition dests_ok (sh : Shared) : Prop := Forall (fun e => has_pool sh e.1 e.2) (sh_dests sh).

(** The pools keep their addresses. *)
Definition extends (sh sh' : Shared) : Prop := forall addr pid, has_pool sh addr pid -> has_pool sh' addr pid.

Record inv (s : Sys) : Prop := mkInv {
  i_pools : forall pid p, sh_pools (sy_shared s) !! pid = Some p -> pool_ok (sy_tasks s) pid p;
  i_dests : dests_ok (sy_shared s);
  i_threads : Forall (pc_ok (sy_shared s)) (sy_threads s);
  i_tasks : Forall (fun t => is_Some (sh_pools (sy_shared s) !! task_pid t)) (sy_tasks s);
  i_ids : forall id, occ id s <= if decide (id < sh_next (sy_shared s))%nat then 1 else 0;
}.

Lemma extends_refl sh sh' : sh_pools sh' = sh_pools sh -> extends sh sh'.
Proof. intros E addr pid (p & Hp & Ha). exists p. by rewrite E. Qed.

Lemma extends_alter sh sh' f pid : sh_pools sh' = alter f pid (sh_pools sh) -> (forall p, dp_addr (f p) = dp_addr p) -> extends sh sh'.
Proof.
  intros E Hf addr q (p & Hp & Ha). unfold has_pool. rewrite E. destruct (decide (pid = q)) as [<- |].
  - exists (f p). rewrite list_lookup_alter_eq, Hp. split; [done | by rewrite Hf].
  - exists p. by rewrite list_lookup_alter_ne.
Qed.

Lemma extends_app sh sh' l : sh_pools sh' = sh_pools sh ++ l -> extends sh sh'.
Proof. intros E addr q (p & Hp & Ha). exists p. rewrite E. split; [by apply lookup_app_l_Some | done]. Qed.

Lemma extends_some sh sh' pid : extends sh sh' -> is_Some (sh_pools sh !! pid) -> is_Some (sh_pools sh' !! pid).
Proof. intros He [p Hp]. destruct (He (dp_addr p) pid) as (p' & Hp' & _); [by exists p |]. by exists p'. Qed.

Lemma pc_ok_extends sh sh' pc : extends sh sh' -> pc_ok sh pc -> pc_ok sh' pc.
Proof.
  intros He. destruct pc; cbn; try done.
  - by apply extends_some.
  - intros (H & ? & ?). by split_and!; [apply He |..].
Qed.

Lemma dests_ok_extends sh sh' : extends sh sh' -> sh_dests sh' = sh_dests sh -> dests_ok sh -> dests_ok sh'.
Proof. intros He E H. unfold dests_ok. rewrite E. eapply Forall_impl; [| exact H]. intros e. apply He. Qed.

Lemma dest_of_elem dests addr pid : dest_of dests addr = Some pid -> (addr, pid) ∈ dests.
Proof.
  induction dests as [| [a q] dests IH]; cbn; [done |]. destruct (decide (a = addr)) as [-> |].
  - intros [= ->]. by left.
  - intros H. right. by apply IH.
Qed.

Lemma dest_of_pool sh addr pid : dests_ok sh -> dest_of (sh_dests sh) addr = Some pid -> has_pool sh addr pid.
Proof. intros Hd H%dest_of_elem%list_elem_of_In. unfold dests_ok in Hd. rewrite Forall_forall in Hd. exact (Hd _ H). Qed.

(** What a step of a thread or a task does with the shared state, next to the tasks [tasks], some of which it starts. *)
Record moves (tasks tasks' : list Task) (sh sh' : Shared) : Prop := mkMoves {
  m_extends : extends sh sh';
  m_dests : dests_ok sh -> dests_ok sh';
  m_next : (sh_next sh <= sh_next sh')%nat;
  m_pools : (forall pid p, sh_pools sh !! pid = Some p -> pool_ok tasks pid p) -> forall pid p, sh_pools sh' !! pid = Some p -> pool_ok tasks' pid p;
}.

Definition new_id (id : nat) (sh sh' : Shared) : Z := if decide (sh_next sh <= id < sh_next sh')%nat then 1 else 0.

Lemma moves_same tasks sh sh' : sh_pools sh' = sh_pools sh -> sh_dests sh' = sh_dests sh -> (sh_next sh <= sh_next sh')%nat -> moves tasks tasks sh sh'.
Proof.
  intros E1 E2 En. split; [by apply extends_refl | | done | by rewrite E1]. intros. eapply dests_ok_extends; [by apply extends_refl | done | done].
Qed.

Lemma moves_alter tasks tasks' sh sh' pid p f :
  sh_pools sh !! pid = Some p -> sh_pools sh' = alter f pid (sh_pools sh) -> sh_dests sh' = sh_dests sh -> (sh_next sh <= sh_next sh')%nat ->
  (forall p, dp_addr (f p) = dp_addr p) -> (pool_ok tasks pid p -> pool_ok tasks' pid (f p)) ->
  (forall q, q <> pid -> zsum (in_flight_of q) tasks' = zsum (in_flight_of q) tasks) -> moves tasks tasks' sh sh'.
Proof.
  intros Hp E1 E2 En Hf Hok Hq. assert (He : extends sh sh') by (by eapply extends_alter). split; [done | by apply dests_ok_extends | done |].
  intros Hall q p' Hp'. rewrite E1 in Hp'. destruct (decide (pid = q)) as [<- | Hne].
  - rewrite list_lookup_alter_eq, Hp in Hp'. injection Hp' as <-. by apply Hok, Hall.
  - rewrite list_lookup_alter_ne in Hp' by done. destruct (Hall q p' Hp') as (H1 & H2 & H3). split_and!; [done | done |]. by rewrite H3, Hq.
Qed.

Lemma has_pool_alter sh f pid p : sh_pools sh !! pid = Some p -> (forall p, dp_addr (f p) = dp_addr p) -> has_pool (on_pool pid f sh) (dp_addr p) pid.
Proof. intros Hp Hf. exists (f p). cbn. by rewrite list_lookup_alter_eq, Hp, Hf. Qed.

Definition tasks_ok (sh : Shared) (tasks : list Task) : Prop := Forall (fun t => is_Some (sh_pools sh !! task_pid t)) tasks.

Lemma no_task_yet sh tasks : tasks_ok sh tasks -> zsum (in_flight_of (length (sh_pools sh))) tasks = 0.
Proof.
  induction 1 as [| t tasks [p Hp] _ IH]; [done |]. apply lookup_lt_Some in Hp. unfold zsum in *. cbn [foldr]. rewrite IH.
  destruct t; cbn in *; rewrite decide_False by lia; done.
Qed.

Lemma find_step_ok tasks env sh pc sh' pc' :
  dests_ok sh -> tasks_ok sh tasks -> pc_ok sh pc -> find_step cfg env sh pc = Some (sh', pc') ->
  moves tasks tasks sh sh' /\ pc_ok sh' pc' /\ forall id, zsum (occ_pool id) (sh_pools sh') + occ_pc id pc' <= zsum (occ_pool id) (sh_pools sh) + occ_pc id pc.
Proof.
  intros Hd Ht Hpc H. destruct pc; cbn [find_step] in H; try done.
  - destruct (dest_of _ addr) as [pid |] eqn:E; injection H as <- <-; (split_and!; [by apply moves_same | | done]); [| done].
    split_and!; [by apply dest_of_pool | done | done].
  - destruct (_ >=? _); injection H as <- <-; by split_and!; [apply moves_same | |].
  - destruct (sh_dests sh) eqn:E; [injection H as <- <-; by split_and!; [apply moves_same | |] |].
    destruct (is_lru sh _); [| done]. injection H as <- <-. by split_and!; [apply moves_same | |].
  - destruct (dest_of _ key) as [pid |] eqn:E; injection H as <- <-; [| by split_and!; [apply moves_same | |]].
    pose proof (dest_of_pool _ _ _ Hd E) as (p & Hp & _). split_and!; [| by exists p | done].
    split; [by apply extends_refl | | done | done]. intros _. unfold dests_ok, remove_dest in *. rewrite Forall_forall in *. cbn [set_dests sh_dests].
    intros e He%list_elem_of_In. apply list_elem_of_filter in He as [_ He%list_elem_of_In]. exact (Hd e He).
  - destruct (sh_pools sh !! pid) as [p |] eqn:E; [| done]. injection H as <- <-. split_and!; [by apply moves_same | apply zlen_nonneg | done].
  - injection H as <- <-. destruct (0 <? k); by split_and!; [apply moves_same | |].
  - destruct (dest_of _ addr) as [pid |] eqn:E; injection H as <- <-.
    { split_and!; [by apply moves_same | | done]. split_and!; [by apply dest_of_pool | done | done]. }
    set (p := dest_pool_new addr (ev_now env)). set (sh' := mkShared _ _ _ _).
    assert (He : extends sh sh') by (by eapply extends_app). assert (Hnew : has_pool sh' addr (length (sh_pools sh))).
    { exists p. cbn. by rewrite lookup_app_r, Nat.sub_diag by lia. }
    split_and!; [| by split_and! |]. 2: { intros id. cbn [sh_pools occ_pc sh']. rewrite zsum_app. unfold zsum at 2. cbn. lia. }
    split; [done | | done |].
    + intros _. unfold dests_ok in *. cbn [sh_dests sh']. rewrite Forall_app. split; [| by constructor].
      eapply Forall_impl; [| exact Hd]. intros e. apply He.
    + intros Hall q p'. cbn [sh_pools sh']. intros [Hq | (Hq & E1)]%lookup_app_Some; [by apply Hall |].
      destruct (q - length (sh_pools sh))%nat as [| n] eqn:En; [| done]. injection E1 as <-. assert (q = length (sh_pools sh)) as -> by lia.
      split_and!; [change (0 <= Z.max 0 (max_per_dest cfg)); lia | by constructor | cbn; by rewrite no_task_yet].
Qed.

(** A change of a pool that keeps its sockets and tasks. *)
Lemma keep_pool tasks sh pid p f :
  sh_pools sh !! pid = Some p -> (forall p, dp_addr (f p) = dp_addr p /\ dp_idle (f p) = dp_idle p /\ dp_in_flight (f p) = dp_in_flight p) ->
  moves tasks tasks sh (on_pool pid f sh) /\ forall id, zsum (occ_pool id) (sh_pools (on_pool pid f sh)) = zsum (occ_pool id) (sh_pools sh).
Proof.
  intros Hp Hf. split.
  - eapply moves_alter; [done | done | done | done | intros; apply Hf | | done]. unfold pool_ok. by destruct (Hf p) as (-> & -> & ->).
  - intros id. cbn [on_pool sh_pools]. rewrite (zsum_alter _ _ _ _ _ Hp). unfold occ_pool at 2 3. destruct (Hf p) as (_ & -> & _). lia.
Qed.

Definition serve_post (tasks : list Task) (sh : Shared) (pc : Pc) (r : Shared * Pc * list Task) : Prop :=
  let '(sh', pc', new) := r in
  moves tasks (tasks ++ new) sh sh' /\ pc_ok sh' pc' /\ tasks_ok sh' new
  /\ forall id, zsum (occ_pool id) (sh_pools sh') + occ_pc id pc' <= zsum (occ_pool id) (sh_pools sh) + occ_pc id pc + new_id id sh sh'.

Lemma new_id_nonneg id sh sh' : 0 <= new_id id sh sh'.
Proof. unfold new_id. by destruct (decide _). Qed.

(** A step that leaves the pools as they are. *)
Lemma serve_same tasks sh sh' pc pc' :
  sh_pools sh' = sh_pools sh -> sh_dests sh' = sh_dests sh -> sh_next sh' = sh_next sh -> pc_ok sh' pc' -> (forall id, occ_pc id pc' <= occ_pc id pc) ->
  serve_post tasks sh pc (sh', pc', []).
Proof.
  intros E1 E2 E3 Hpc Ho. unfold serve_post. rewrite app_nil_r. split_and!; [apply moves_same; [done | done | lia] | done | by constructor |].
  intros id. rewrite E1. specialize (Ho id). pose proof (new_id_nonneg id sh sh'). lia.
Qed.

Lemma serve_keep tasks sh addr pid p taken w w' f :
  sh_pools sh !! pid = Some p -> (forall p, dp_addr (f p) = dp_addr p /\ dp_idle (f p) = dp_idle p /\ dp_in_flight (f p) = dp_in_flight p) ->
  pc_ok sh (PServe addr pid taken w) -> work_ok taken w' ->
  serve_post tasks sh (PServe addr pid taken w) (on_pool pid f sh, PServe addr pid taken w', []).
Proof.
  intros Hp Hf (Hpl & Htk & _) Hw. destruct (keep_pool tasks sh pid p f Hp Hf) as [Hm Ho]. unfold serve_post. rewrite app_nil_r.
  split_and!; [done | | by constructor |].
  - split_and!; [apply (m_extends _ _ _ _ Hm), Hpl | done | done].
  - intros id. rewrite Ho. pose proof (new_id_nonneg id sh (on_pool pid f sh)). cbn [occ_pc]. lia.
Qed.

Lemma take_ok tasks env sh addr pid p w rest taken stale :
  sh_pools sh !! pid = Some p -> pool_ok tasks pid p -> has_pool sh addr pid ->
  take_loop (idle_ttl cfg) (ev_now env) (ev_alive env) (dp_idle p) 0 = (rest, taken, stale) ->
  serve_post tasks sh (PServe addr pid None w) (on_pool pid (set_idle rest) sh, PServe addr pid taken (WStale stale), []).
Proof.
  intros Hp (Hlen & Hpeer & Hfl) (p' & Hp' & Ha) Ht. rewrite Hp in Hp'. injection Hp' as <-.
  destruct (take_loop_counts _ _ _ _ _ _ _ 0%nat Ht) as (H0 & Hl & _). pose proof (zlen_nonneg rest). apply take_loop_split in Ht as Hs.
  destruct Hs as (pre & _ & Hs). assert (Hfr : Forall (fun e => so_peer e.1 = dp_addr p) rest /\ match taken with Some (s, age) => so_peer s = addr /\ 0 <= age <= idle_ttl cfg | None => True end).
  { destruct taken as [[s age] |]; [| destruct Hs as [_ ->]; split; [constructor | done]]. destruct Hs as [Hage (t & E)]. rewrite E in Hpeer.
    apply Forall_app in Hpeer as [_ Hpeer]. apply Forall_cons_iff in Hpeer as [Hs' Hr]. cbn in Hs'. split; [done |]. split; [congruence | done]. }
  unfold serve_post. rewrite app_nil_r. split_and!; [| | by constructor |].
  - eapply moves_alter; [exact Hp | done | done | done | done | | done]. intros _. unfold pool_ok. cbn [set_idle dp_idle dp_addr dp_in_flight].
    split_and!; [unfold taken_count in Hl; destruct taken; lia | tauto | done].
  - split_and!; [rewrite <- Ha; by apply has_pool_alter | tauto | done].
  - intros id. cbn [on_pool sh_pools]. rewrite (zsum_alter _ _ _ _ _ Hp). destruct (take_loop_counts _ _ _ _ _ _ _ id Ht) as (_ & _ & Ho).
    pose proof (new_id_nonneg id sh (on_pool pid (set_idle rest) sh)). unfold occ_pool at 2 3. cbn [set_idle dp_idle occ_pc].
    change (match taken with Some (s, _) => holds id s | None => 0 end) with (taken_occ id taken). lia.
Qed.

Lemma spawn_ok tasks sh addr pid p taken n :
  sh_pools sh !! pid = Some p -> pc_ok sh (PServe addr pid taken (WSpawn (S n))) ->
  serve_post tasks sh (PServe addr pid taken (WSpawn (S n))) (on_pool pid (set_in_flight (dp_in_flight p + 1)) sh, PServe addr pid taken (WSpawn n), [TConnect pid]).
Proof.
  intros Hp (Hpl & Htk & _). unfold serve_post. split_and!.
  - eapply moves_alter; [exact Hp | done | done | done | done | |].
    + unfold pool_ok. cbn [set_in_flight dp_idle dp_addr dp_in_flight]. intros (? & ? & ->). split_and!; [done | done |]. rewrite zsum_app. unfold zsum at 3.
      cbn. rewrite decide_True by done. lia.
    + intros q Hq. rewrite zsum_app. unfold zsum at 2. cbn. rewrite decide_False by done. lia.
  - split_and!; [| done | done]. destruct Hpl as (p' & Hp' & Ha). rewrite Hp in Hp'. injection Hp' as <-. rewrite <- Ha. by apply has_pool_alter.
  - constructor; [| constructor]. cbn. rewrite list_lookup_alter_eq, Hp. by eexists.
  - intros id. cbn [on_pool sh_pools occ_pc]. rewrite (zsum_alter _ _ _ _ _ Hp). unfold occ_pool at 2 3. cbn [set_in_flight dp_idle].
    match goal with |- context [new_id id sh ?x] => pose proof (new_id_nonneg id sh x) end. lia.
Qed.

Lemma serve_step_ok tasks env sh addr pid p taken w :
  sh_pools sh !! pid = Some p -> pool_ok tasks pid p -> pc_ok sh (PServe addr pid taken w) ->
  serve_post tasks sh (PServe addr pid taken w) (serve_step cfg env sh addr pid p taken w).
Proof.
  intros Hp Hpok Hpc. pose proof Hpc as (Hpl & Htk & Hw). destruct w; cbn [serve_step].
  - by eapply serve_keep.
  - by eapply serve_keep.
  - cbn in Hw. subst taken. destruct (take_loop _ _ _ _ _) as [[rest tk] st] eqn:E. by eapply take_ok.
  - destruct (0 <? stale); apply serve_same; try done; by split_and!.
  - apply serve_same; try done; by split_and!.
  - apply serve_same; try done; by split_and!.
  - destruct (_ =? 0); apply serve_same; try done; (split; [done | split; [done |]]); unfold work_ok, needed_of; (done || lia).
  - destruct (_ =? 0); apply serve_same; try done; by split_and!.
  - destruct (_ =? cur); apply serve_same; try done; by split_and!.
  - destruct n as [| n]; [apply serve_same; try done; by split_and! | by apply spawn_ok].
  - destruct taken as [[s age] |]; apply serve_same; try done.
Qed.

Definition after_task (tasks : list Task) (j : nat) (rest : option Task) : list Task :=
  match rest with Some t => <[j := t]> tasks | None => delete j tasks end.

Lemma same_tasks tasks j t t' q : tasks !! j = Some t -> task_pid t' = task_pid t -> zsum (in_flight_of q) (<[j := t']> tasks) = zsum (in_flight_of q) tasks.
Proof. intros Hj E. rewrite (zsum_insert _ _ _ _ _ Hj). destruct t, t'; cbn in *; subst; lia. Qed.

Lemma moves_tasks tasks tasks' sh sh' :
  moves tasks tasks sh sh' -> (forall q, zsum (in_flight_of q) tasks' = zsum (in_flight_of q) tasks) -> moves tasks tasks' sh sh'.
Proof.
  intros [H1 H2 H3 H4] Hq. split; [done.. |]. intros Hall q p Hp. destruct (H4 Hall q p Hp) as (? & ? & E). split_and!; [done | done |]. by rewrite E, Hq.
Qed.

Lemma push_ok tasks j sh pid p t :
  tasks !! j = Some (TConnect pid) -> sh_pools sh !! pid = Some p -> zlen (dp_idle p) < max_per_dest cfg ->
  let '(sh1, s) := fresh (dp_addr p) sh in
  let sh' := on_pool pid (set_idle (dp_idle p ++ [(s, t)])) sh1 in
  moves tasks (<[j := TLeave pid]> tasks) sh sh'
  /\ forall id, zsum (occ_pool id) (sh_pools sh') <= zsum (occ_pool id) (sh_pools sh) + new_id id sh sh'.
Proof.
  intros Hj Hp Hl. cbn [fresh]. set (s := mkSocket (sh_next sh) (dp_addr p)). split.
  - apply moves_tasks; [| intros q; by eapply same_tasks]. eapply moves_alter; [exact Hp | done | done | cbn; lia | done | | done].
    unfold pool_ok. cbn [set_idle dp_idle dp_addr dp_in_flight]. intros (_ & Hpeer & Hf). split_and!; [rewrite zlen_app; change (zlen [_]) with 1; lia | | done].
    apply Forall_app. split; [done | by repeat constructor].
  - intros id. cbn [on_pool sh_pools]. rewrite (zsum_alter _ _ _ _ _ Hp). unfold occ_pool at 2 3. cbn [set_idle dp_idle]. rewrite zsum_app.
    unfold zsum at 4. cbn [foldr fst]. unfold holds, new_id. cbn [so_id s on_pool sh_next].
    destruct (decide (sh_next sh = id)) as [<- | Hne]; [rewrite decide_True by lia; lia |]. destruct (decide _); lia.
Qed.

Lemma task_step_ok tasks j env sh t sh' rest :
  tasks_ok sh tasks -> tasks !! j = Some t -> (forall pid p, sh_pools sh !! pid = Some p -> pool_ok tasks pid p) -> task_step cfg env sh t = Some (sh', rest) ->
  moves tasks (after_task tasks j rest) sh sh' /\ (forall t', rest = Some t' -> task_pid t' = task_pid t)
  /\ forall id, zsum (occ_pool id) (sh_pools sh') <= zsum (occ_pool id) (sh_pools sh) + new_id id sh sh'.
Proof.
  intros Ht Hj Hall H. destruct t as [pid | pid | pid]; cbn [task_step] in H.
  - destruct (sh_pools sh !! pid) as [p |] eqn:Hp; [| done]. cbn [mbind option_bind] in H. destruct (ev_ok env).
    + destruct (fresh (dp_addr p) sh) as [sh1 s] eqn:Ef. destruct (Z.ltb_spec (zlen (dp_idle p)) (max_per_dest cfg)) as [Hl | _]; injection H as <- <-.
      * pose proof (push_ok tasks j sh pid p (ev_now env) Hj Hp Hl) as Hpush. rewrite Ef in Hpush. destruct Hpush as [Hm Ho].
        split_and!; [done | by intros t' [= <-] | done].
      * injection Ef as <- <-. split_and!; [| by intros t' [= <-] |].
        -- apply moves_tasks; [by apply moves_same; [| | cbn; lia] | intros q; by eapply same_tasks].
        -- intros id. cbn [sh_pools]. match goal with |- context [new_id id sh ?x] => pose proof (new_id_nonneg id sh x) end. lia.
    + injection H as <- <-. split_and!; [| by intros t' [= <-] | intros id; pose proof (new_id_nonneg id sh sh); lia].
      apply moves_tasks; [by apply moves_same | intros q; by eapply same_tasks].
  - injection H as <- <-. split_and!; [| by intros t' [= <-] | intros id; match goal with |- context [new_id id sh ?x] => pose proof (new_id_nonneg id sh x) end; cbn [add_global sh_pools]; lia].
    apply moves_tasks; [by apply moves_same | intros q; by eapply same_tasks].
  - destruct (sh_pools sh !! pid) as [p |] eqn:Hp; [| done]. injection H as <- <-. split_and!; [| done |].
    + eapply moves_alter; [exact Hp | done | done | done | done | |]; cbn [after_task].
      * unfold pool_ok. cbn [set_in_flight dp_idle dp_addr dp_in_flight]. intros (? & ? & ->). split_and!; [done | done |].
        rewrite (zsum_delete _ _ _ _ Hj). cbn. by rewrite decide_True.
      * intros q Hq. rewrite (zsum_delete _ _ _ _ Hj). cbn. rewrite decide_False by done. lia.
    + intros id. cbn [on_pool sh_pools]. rewrite (zsum_alter _ _ _ _ _ Hp). unfold occ_pool at 2 3. cbn [set_in_flight dp_idle].
      match goal with |- context [new_id id sh ?x] => pose proof (new_id_nonneg id sh x) end. lia.
Qed.

(** ** A step of the whole *)

Lemma thread_step_ok tasks env sh pc :
  dests_ok sh -> tasks_ok sh tasks -> (forall pid p, sh_pools sh !! pid = Some p -> pool_ok tasks pid p) -> pc_ok sh pc ->
  match thread_step cfg env sh pc with Some r => serve_post tasks sh pc r | None => True end.
Proof.
  intros Hd Ht Hall Hpc.
  assert (Hfind : forall r, find_step cfg env sh pc = Some r -> serve_post tasks sh pc (r.1, r.2, [])).
  { intros [sh' pc'] H. destruct (find_step_ok tasks env sh pc sh' pc' Hd Ht Hpc H) as (Hm & Hok & Ho). unfold serve_post. cbn [fst snd]. rewrite app_nil_r.
    split_and!; [done | done | by constructor |]. intros id. specialize (Ho id). pose proof (new_id_nonneg id sh sh'). lia. }
  destruct pc; cbn [thread_step]; try (destruct (find_step cfg env sh _) as [[sh' pc'] |] eqn:E; [exact (Hfind _ eq_refl) | done]).
  - destruct (sh_pools sh !! pid) as [p |] eqn:Hp; [| done]. cbn [mbind option_bind]. apply serve_step_ok; [done | by apply Hall | done].
  - destruct (ev_ok env); [| by apply serve_same]. cbn [fresh]. unfold serve_post. rewrite app_nil_r.
    split_and!; [apply moves_same; [done | done | cbn; lia] | done | by constructor |]. intros id. cbn [sh_pools occ_pc]. unfold holds, new_id. cbn [so_id sh_next].
    destruct (decide (sh_next sh = id)) as [<- | Hne]; [rewrite decide_True by lia; lia |]. destruct (decide _); lia.
  - done.
Qed.

Lemma inv_new : inv sys_new.
Proof. split; [done | by constructor | by constructor | by constructor | done]. Qed.

Lemma tasks_ok_extends sh sh' tasks : extends sh sh' -> tasks_ok sh tasks -> tasks_ok sh' tasks.
Proof. intros He. apply Forall_impl. intros t. by apply extends_some. Qed.

Lemma inv_thread s i pc sh' pc' new :
  inv s -> sy_threads s !! i = Some pc -> serve_post (sy_tasks s) (sy_shared s) pc (sh', pc', new) ->
  inv (mkSys sh' (<[i := pc']> (sy_threads s)) (sy_tasks s ++ new)).
Proof.
  intros [H1 H2 H3 H4 H5] Hi ([Me Md Mn Mp] & Hpc & Hnew & Ho). split; cbn [sy_shared sy_threads sy_tasks].
  - by apply Mp.
  - by apply Md.
  - apply Forall_insert; [| done]. eapply Forall_impl; [| exact H3]. intros q. by apply pc_ok_extends.
  - apply Forall_app. split; [by eapply tasks_ok_extends | done].
  - intros id. unfold occ. cbn [sy_shared sy_threads]. rewrite (zsum_insert _ _ _ _ _ Hi). specialize (H5 id). specialize (Ho id). unfold occ, new_id in *.
    repeat destruct (decide _); lia.
Qed.

Lemma inv_task s j t env sh' rest :
  inv s -> sy_tasks s !! j = Some t -> task_step cfg env (sy_shared s) t = Some (sh', rest) ->
  inv (mkSys sh' (sy_threads s) (after_task (sy_tasks s) j rest)).
Proof.
  intros [H1 H2 H3 H4 H5] Hj H. destruct (task_step_ok _ j env _ t sh' rest H4 Hj H1 H) as ([Me Md Mn Mp] & Hr & Ho). split; cbn [sy_shared sy_threads sy_tasks].
  - by apply Mp.
  - by apply Md.
  - eapply Forall_impl; [| exact H3]. intros q. by apply pc_ok_extends.
  - pose proof (tasks_ok_extends _ _ _ Me H4) as H4'. unfold after_task. destruct rest as [t' |]; [| by apply Forall_delete].
    apply Forall_insert; [done |]. rewrite (Hr t' eq_refl). by apply (Forall_lookup_1 _ _ _ _ H4' Hj).
  - intros id. unfold occ. cbn [sy_shared sy_threads]. specialize (H5 id). specialize (Ho id). unfold occ, new_id in *. repeat destruct (decide _); lia.
Qed.

Lemma inv_step s ev s' : inv s -> step cfg s ev = Some s' -> inv s'.
Proof.
  intros Hinv H. destruct ev as [addr | i env | j env]; cbn [step] in H.
  - injection H as <-. destruct Hinv as [H1 H2 H3 H4 H5]. split; cbn [sy_shared sy_threads sy_tasks]; [done | done | | done |].
    + apply Forall_app. split; [done | by repeat constructor].
    + intros id. unfold occ. cbn [sy_shared sy_threads]. rewrite zsum_app. specialize (H5 id). unfold occ in H5. unfold zsum at 3. cbn. lia.
  - destruct (sy_threads s !! i) as [pc |] eqn:Hi; [| done]. cbn [mbind option_bind] in H.
    pose proof (thread_step_ok (sy_tasks s) env (sy_shared s) pc (i_dests _ Hinv) (i_tasks _ Hinv) (i_pools _ Hinv) (Forall_lookup_1 _ _ _ _ (i_threads _ Hinv) Hi)) as Hs.
    destruct (thread_step cfg env _ pc) as [[[sh' pc'] new] |]; [| done]. injection H as <-. by eapply inv_thread.
  - destruct (sy_tasks s !! j) as [t |] eqn:Hj; [| done]. cbn [mbind option_bind] in H.
    destruct (task_step cfg env _ t) as [[sh' rest] |] eqn:E; [| done]. injection H as <-. by eapply inv_task.
Qed.

Lemma inv_run evs : forall s s', inv s -> run cfg s evs = Some s' -> inv s'.
Proof.
  induction evs as [| ev evs IH]; intros s s' Hi; cbn [run]; [by intros [= <-] |]. destruct (step cfg s ev) as [s1 |] eqn:E; [| done].
  intros H. eapply IH; [| exact H]. by eapply inv_step.
Qed.

(** The socket a connection has got. *)
Definition given (r : Served) : option Socket := match r with Pooled s _ | Fresh s => Some s | Refused => None end.

Lemma given_occ addr r s : given r = Some s -> occ_pc (so_id s) (PDone addr r) = 1.
Proof. destruct r; cbn; intros [= ->]; unfold holds; by rewrite decide_True. Qed.

(** C10. Connections that the freedom outbound takes from its pool, in every interleaving of connections, refill tasks and
    evictions.  A connection gets a socket to the very address it asked for, and one from the pool has been idle for no longer than
    the limit.  No socket is given to two connections, and none that is given is still in a pool.  A destination never holds
    more idle sockets than the limit for one, and its count of refills in flight is the number of its tasks. *)
Theorem freedom_pool_safe (evs : list Event) (s : Sys) :
  run cfg sys_new evs = Some s ->
  (forall i addr r so, sy_threads s !! i = Some (PDone addr r) -> given r = Some so ->
     so_peer so = addr /\ (forall age, r = Pooled so age -> 0 <= age <= idle_ttl cfg)
     /\ (forall j addr' r' so', i <> j -> sy_threads s !! j = Some (PDone addr' r') -> given r' = Some so' -> so_id so' <> so_id so)
     /\ forall pid p e, sh_pools (sy_shared s) !! pid = Some p -> e ∈ dp_idle p -> so_id e.1 <> so_id so)
  /\ forall pid p, sh_pools (sy_shared s) !! pid = Some p ->
       zlen (dp_idle p) <= Z.max 0 (max_per_dest cfg) /\ dp_in_flight p = zlen (base.filter (fun t => task_pid t = pid) (sy_tasks s)).
Proof.
  intros H%inv_run; [| exact inv_new]. destruct H as [H1 H2 H3 H4 H5]. split.
  - intros i addr r so Hi Hg. pose proof (Forall_lookup_1 _ _ _ _ H3 Hi) as Hpc. specialize (H5 (so_id so)).
    assert (Hle : occ (so_id so) s <= 1) by (destruct (decide (so_id so < sh_next (sy_shared s))%nat); lia). unfold occ in Hle.
    pose proof (zsum_nonneg (occ_pool (so_id so)) (sh_pools (sy_shared s)) (occ_pool_nonneg _)) as Hp0. split_and!.
    + destruct r; cbn in *; try done; injection Hg as <-; tauto.
    + intros age ->. apply Hpc.
    + intros j addr' r' so' Hne Hj Hg' Eid. pose proof (zsum_two _ _ _ _ _ _ (occ_pc_nonneg (so_id so)) Hi Hj Hne) as H2s.
      pose proof (given_occ addr r so Hg) as Hg1. pose proof (given_occ addr' r' so' Hg') as Hg2. rewrite Eid in Hg2. rewrite Hg1, Hg2 in H2s. lia.
    + intros pid p e Hp He Eid. pose proof (zsum_lookup _ _ _ _ (occ_pc_nonneg (so_id so)) Hi) as H2s. rewrite (given_occ addr r so Hg) in H2s.
      pose proof (zsum_lookup _ _ _ _ (occ_pool_nonneg (so_id so)) Hp) as H3s. apply list_elem_of_lookup_1 in He as [k He].
      pose proof (zsum_lookup (fun e => holds (so_id so) e.1) _ _ _ (fun e => holds_nonneg _ e.1) He) as H4s. unfold occ_pool at 1 in H3s.
      cbn in H4s. unfold holds at 1 in H4s. rewrite decide_True in H4s by done. lia.
  - intros pid p Hp. destruct (H1 pid p Hp) as (? & _ & ->). split; [done |]. clear. induction (sy_tasks s) as [| t ts IH]; [done |].
    rewrite filter_cons. unfold zsum in *. cbn [foldr]. rewrite IH. destruct t; cbn [in_flight_of task_pid]; repeat destruct (decide _); rewrite ?zlen_cons; done.
Qed.

End safety.

(** * Accounting *)

(** The slots of [global_idle] a thread and a task have to answer for. *)
Definition pend (pc : Pc) : Z :=
  match pc with
  | PServe _ _ taken w => taken_count taken + match w with WStale k => k | WSpawn n => Z.of_nat n | _ => 0 end
  | _ => 0
  end.

Definition reserved (t : Task) : Z := match t with TConnect _ | TRelease _ => 1 | TLeave _ => 0 end.

Definition idle_count (p : DestPool) : Z := zlen (dp_idle p).

Definition pc_addr (pc : Pc) : SocketAddr :=
  match pc with
  | PGet a | PLen a | PEvict a | PRemove a _ | PCount a _ | PReturn a _ | PInsert a | PServe a _ _ _ | PDial a | PDone a _ => a
  end.

Definition evicting (pc : Pc) : bool := match pc with PEvict _ | PRemove _ _ | PCount _ _ | PReturn _ _ => true | _ => false end.

Section accounting.
Context (cfg : PoolConfig) (addrs : list SocketAddr).

Definition calm (pc : Pc) : Prop := evicting pc = false /\ pc_addr pc ∈ addrs.

Definition keys_ok (sh : Shared) : Prop := NoDup ((sh_dests sh).*1) /\ (sh_dests sh).*1 ⊆ addrs.

(** The slots that no idle socket takes. *)
Definition slots (sh : Shared) : Z := sh_global sh - zsum idle_count (sh_pools sh).

Definition balanced (sh : Shared) (pc : Pc) (r : Shared * Pc * list Task) : Prop :=
  let '(sh', pc', new) := r in
  slots sh' - pend pc' - zsum reserved new = slots sh - pend pc /\ (sh_global sh' <= sh_global sh \/ sh_global sh' <= max_global_idle cfg)
  /\ calm pc' /\ keys_ok sh'.

Hypothesis few : zlen addrs < max_dests cfg.

Lemma keys_few sh : keys_ok sh -> zlen (sh_dests sh) < max_dests cfg.
Proof.
  intros [Hn Hs]. pose proof (NoDup_incl_length (l := (sh_dests sh).*1) (l' := addrs)) as H. rewrite length_fmap in H.
  unfold zlen in *. enough (length (sh_dests sh) <= length addrs)%nat by lia. apply H; [by apply NoDup_ListNoDup |]. intros x Hx%list_elem_of_In. apply list_elem_of_In. by apply Hs.
Qed.

Lemma dest_of_none dests addr : dest_of dests addr = None -> addr ∉ dests.*1.
Proof.
  induction dests as [| [a q] dests IH]; cbn; [intros _; apply not_elem_of_nil |]. destruct (decide (a = addr)) as [| Hne]; [done |].
  intros H. apply not_elem_of_cons. split; [congruence | by apply IH].
Qed.

Lemma slots_alter sh pid p f : sh_pools sh !! pid = Some p -> slots (on_pool pid f sh) = slots sh + idle_count p - idle_count (f p).
Proof. intros Hp. unfold slots, on_pool. cbn [sh_global sh_pools]. rewrite (zsum_alter _ _ _ _ _ Hp). lia. Qed.

Lemma find_balanced env sh pc sh' pc' : calm pc -> keys_ok sh -> find_step cfg env sh pc = Some (sh', pc') -> balanced sh pc (sh', pc', []).
Proof.
  intros [He Ha] Hk H. destruct pc; cbn [find_step] in H; try done; cbn [pc_addr] in Ha.
  - destruct (dest_of _ addr) eqn:E; injection H as <- <-; split_and!; cbn; try done; try lia; by left.
  - rewrite Z.geb_leb, (proj2 (Z.leb_gt _ _)) in H by (by apply keys_few). injection H as <- <-. split_and!; cbn; try done; try lia; by left.
  - destruct (dest_of _ addr) eqn:E; injection H as <- <-; [split_and!; cbn; try done; try lia; by left |].
    split_and!; [| by left | done |].
    + unfold slots. cbn [sh_global sh_pools pend]. rewrite zsum_app. change (taken_count None) with 0. change (zsum reserved []) with 0.
      change (zsum idle_count [_]) with (0 + 0). lia.
    + destruct Hk as [Hn Hs]. unfold keys_ok. cbn [sh_dests]. rewrite fmap_app. cbn. split.
      * apply list.NoDup_app. split_and!; [done | | apply NoDup_singleton]. intros x Hx ->%list_elem_of_singleton. by eapply dest_of_none.
      * intros x [Hx | ->%list_elem_of_singleton]%elem_of_app; [by apply Hs | done].
Qed.

(** A step that keeps the sockets of the pools and moves [d] slots between [global_idle] and the thread. *)
Lemma balanced_keep sh sh' pc pc' d :
  slots sh' = slots sh + d -> pend pc' = pend pc + d -> sh_global sh' <= sh_global sh \/ sh_global sh' <= max_global_idle cfg -> calm pc' -> keys_ok sh' ->
  balanced sh pc (sh', pc', []).
Proof. intros H1 H2 H3 H4 H5. split_and!; [rewrite H1, H2; change (zsum reserved []) with 0; lia | done | done | done]. Qed.

Lemma serve_balanced env sh addr pid p taken w :
  sh_pools sh !! pid = Some p -> calm (PServe addr pid taken w) -> keys_ok sh -> pc_ok cfg sh (PServe addr pid taken w) ->
  balanced sh (PServe addr pid taken w) (serve_step cfg env sh addr pid p taken w).
Proof.
  intros Hp [_ Ha] Hk (_ & _ & Hw). cbn [pc_addr] in Ha. cbn [work_ok] in Hw. destruct w; cbn [serve_step].
  - apply (balanced_keep _ _ _ _ 0); [rewrite (slots_alter _ _ _ _ Hp); unfold idle_count; cbn [set_hotness dp_idle]; lia | cbn [pend taken_count]; lia | by left | done | done].
  - apply (balanced_keep _ _ _ _ 0); [rewrite (slots_alter _ _ _ _ Hp); unfold idle_count; cbn [set_last_used dp_idle]; lia | cbn [pend taken_count]; lia | by left | done | done].
  - cbn in Hw. subst taken. destruct (take_loop _ _ _ _ _) as [[rest tk] st] eqn:E. destruct (take_loop_counts _ _ _ _ _ _ _ 0%nat E) as (_ & Hl & _).
    apply (balanced_keep _ _ _ _ (taken_count tk + st)); [| cbn [pend]; change (taken_count None) with 0; lia | by left | done | done]. rewrite (slots_alter _ _ _ _ Hp). unfold idle_count. cbn [set_idle dp_idle]. lia.
  - cbn in Hw. apply (balanced_keep _ _ _ _ (- stale)); [| cbn [pend taken_count]; lia | | done |]; destruct (Z.ltb_spec 0 stale); unfold slots, add_global; cbn [sh_global sh_pools]; try done; try lia; left; lia.
  - apply (balanced_keep _ _ _ _ 0); [lia | cbn [pend taken_count]; lia | by left | done | done].
  - apply (balanced_keep _ _ _ _ 0); [lia | cbn [pend taken_count]; lia | by left | done | done].
  - destruct (_ =? 0); (apply (balanced_keep _ _ _ _ 0); [lia | cbn [pend taken_count]; lia | by left | done | done]).
  - destruct (_ =? 0); (apply (balanced_keep _ _ _ _ 0); [lia | cbn [pend taken_count]; lia | by left | done | done]).
  - cbn in Hw. destruct (Z.eqb_spec (sh_global sh) cur) as [<- |]; [| apply (balanced_keep _ _ _ _ 0); [lia | cbn [pend taken_count]; lia | by left | done | done]].
    apply (balanced_keep _ _ _ _ (want_of cfg needed (sh_global sh))); [unfold slots, add_global; cbn [sh_global sh_pools]; lia | | | done | done].
    + cbn [pend]. rewrite Z2Nat.id by (unfold want_of; lia). lia.
    + cbn [add_global sh_global]. unfold want_of. lia.
  - destruct n as [| n]; [apply (balanced_keep _ _ _ _ 0); [lia | cbn [pend taken_count]; lia | by left | done | done] |].
    split_and!; [| by left | done | done]. rewrite (slots_alter _ _ _ _ Hp). unfold idle_count, zsum. cbn [set_in_flight dp_idle pend foldr reserved]. lia.
  - destruct taken as [[s age] |]; [| apply (balanced_keep _ _ _ _ 0); [lia | cbn [pend taken_count]; lia | by left | done | done]].
    apply (balanced_keep _ _ _ _ (-1)); [unfold slots, add_global; cbn [sh_global sh_pools]; lia | cbn [pend]; change (taken_count (Some (s, age))) with 1; lia | left; cbn; lia | done | done].
Qed.

Record account (s : Sys) : Prop := mkAccount {
  a_inv : inv cfg s;
  a_calm : Forall calm (sy_threads s);
  a_keys : keys_ok (sy_shared s);
  a_sum : slots (sy_shared s) = zsum pend (sy_threads s) + zsum reserved (sy_tasks s);
  a_max : sh_global (sy_shared s) <= max_global_idle cfg;
}.

Lemma thread_balanced env s i pc r :
  account s -> sy_threads s !! i = Some pc -> thread_step cfg env (sy_shared s) pc = Some r -> balanced (sy_shared s) pc r.
Proof.
  intros [Hi Hc Hk _ _] Hpc H. pose proof (Forall_lookup_1 _ _ _ _ Hc Hpc) as Hcp. pose proof (Forall_lookup_1 _ _ _ _ (i_threads _ _ Hi) Hpc) as Hok.
  destruct pc; cbn [thread_step] in H;
    try (destruct (find_step cfg env _ _) as [[sh' pc'] |] eqn:E; [| done]; injection H as <-; by eapply find_balanced).
  - destruct (sh_pools _ !! pid) as [p |] eqn:Hp; [| done]. injection H as <-. by apply serve_balanced.
  - destruct (ev_ok env); [cbn [fresh] in H |]; injection H as <-; (apply (balanced_keep _ _ _ _ 0); [unfold slots; cbn [sh_global sh_pools]; lia | done | by left | done | done]).
  - done.
Qed.

(** A refill task keeps the balance: its slot goes into the pool, or back. *)
Lemma task_balanced env s j t sh' rest :
  account s -> sy_tasks s !! j = Some t -> task_step cfg env (sy_shared s) t = Some (sh', rest) ->
  slots sh' - (match rest with Some t' => reserved t' | None => 0 end) = slots (sy_shared s) - reserved t
  /\ sh_global sh' <= sh_global (sy_shared s) /\ sh_dests sh' = sh_dests (sy_shared s).
Proof.
  intros Hacc Hj H. set (sh := sy_shared s) in *. destruct t as [pid | pid | pid]; cbn [task_step] in H.
  - destruct (sh_pools sh !! pid) as [p |] eqn:Hp; [| done]. cbn [mbind option_bind] in H. destruct (ev_ok env).
    + cbn [fresh] in H. destruct (_ <? _); injection H as <- <-; [| done]. split_and!; [| cbn; lia | done].
      set (sh1 := mkShared _ _ _ _). rewrite (slots_alter sh1 pid p) by done. unfold idle_count. cbn [set_idle dp_idle reserved]. rewrite zlen_app.
      change (zlen [_]) with 1. change (slots sh1) with (slots sh). lia.
    + injection H as <- <-. split_and!; [done | lia | done].
  - injection H as <- <-. split_and!; [unfold slots, add_global; cbn [sh_global sh_pools reserved]; lia | cbn; lia | done].
  - destruct (sh_pools sh !! pid) as [p |] eqn:Hp; [| done]. injection H as <- <-. split_and!; [| cbn; lia | done].
    rewrite (slots_alter sh pid p) by done. unfold idle_count. cbn [set_in_flight dp_idle reserved]. lia.
Qed.

Definition asks_few (ev : Event) : Prop := match ev with Connect a => a ∈ addrs | _ => True end.

Lemma account_step s ev s' : account s -> asks_few ev -> step cfg s ev = Some s' -> account s'.
Proof.
  intros Hacc Hev H. pose proof (inv_step cfg s ev s' (a_inv _ Hacc) H) as Hinv. destruct ev as [addr | i env | j env]; cbn [step] in H.
  - injection H as <-. destruct Hacc as [_ Hc Hk Hs Hm]. split; cbn [sy_shared sy_threads sy_tasks]; [done | | done | | done].
    + apply Forall_app. split; [done | by repeat constructor].
    + rewrite zsum_app. change (zsum pend [PGet addr]) with 0. lia.
  - destruct (sy_threads s !! i) as [pc |] eqn:Hi; [| done]. cbn [mbind option_bind] in H.
    destruct (thread_step cfg env _ pc) as [[[sh' pc'] new] |] eqn:E; [| done]. injection H as <-.
    destruct (thread_balanced env s i pc _ Hacc Hi E) as (Hb & Hg & Hc' & Hk'). destruct Hacc as [_ Hc Hk Hs Hm].
    split; cbn [sy_shared sy_threads sy_tasks]; [done | by apply Forall_insert | done | | lia].
    rewrite (zsum_insert _ _ _ _ _ Hi), zsum_app. lia.
  - destruct (sy_tasks s !! j) as [t |] eqn:Hj; [| done]. cbn [mbind option_bind] in H.
    destruct (task_step cfg env _ t) as [[sh' rest] |] eqn:E; [| done]. injection H as <-.
    destruct (task_balanced env s j t sh' rest Hacc Hj E) as (Hb & Hg & Hd). destruct Hacc as [_ Hc Hk Hs Hm].
    split; cbn [sy_shared sy_threads sy_tasks]; [done | done | unfold keys_ok; by rewrite Hd | | lia].
    destruct rest as [t' |]; [rewrite (zsum_insert _ _ _ _ _ Hj) | rewrite (zsum_delete _ _ _ _ Hj)]; lia.
Qed.

Lemma account_run evs : forall s s', account s -> Forall asks_few evs -> run cfg s evs = Some s' -> account s'.
Proof.
  induction evs as [| ev evs IH]; intros s s' Ha Hf; cbn [run]; [by intros [= <-] |]. apply Forall_cons_iff in Hf as [Hev Hf].
  destruct (step cfg s ev) as [s1 |] eqn:E; [| done]. intros H. eapply IH; [| done | exact H]. by eapply account_step.
Qed.

Lemma account_new : 0 <= max_global_idle cfg -> account sys_new.
Proof. intros H. split; [apply inv_new | by apply Forall_nil_2 | split; [apply base.NoDup_nil_2 | intros x Hx; by apply elem_of_nil in Hx] | done | done]. Qed.

Lemma pend_nonneg s : account s -> 0 <= zsum pend (sy_threads s).
Proof.
  intros Ha. pose proof (i_threads _ _ (a_inv _ Ha)) as Hok. induction Hok as [| pc pcs Hpc _ IH]; [done |]. unfold zsum in *. cbn [foldr].
  enough (0 <= pend pc) by lia. destruct pc; cbn; try done. destruct Hpc as (_ & _ & Hw). destruct taken, w; cbn in *; lia.
Qed.

End accounting.

(** C9. The budget of the pool, as long as fewer destinations are asked for than it may hold: in every interleaving, [global_idle] is the number
    of idle sockets, of refills that are connecting, and of the slots that connections have yet to give back or to fill, and it is never
    more than the limit.  So the pools together never hold more sockets than the limit, and when nothing is under way
    it is exactly the number of idle sockets. *)
Theorem freedom_pool_budget (cfg : PoolConfig) (addrs : list SocketAddr) (evs : list Event) (s : Sys) :
  zlen addrs < max_dests cfg -> 0 <= max_global_idle cfg -> Forall (asks_few addrs) evs -> run cfg sys_new evs = Some s ->
  let g := sh_global (sy_shared s) in
  let idle := zsum idle_count (sh_pools (sy_shared s)) in
  g = idle + zsum reserved (sy_tasks s) + zsum pend (sy_threads s) /\ 0 <= g <= max_global_idle cfg
  /\ idle + zsum reserved (sy_tasks s) <= max_global_idle cfg
  /\ (sy_tasks s = [] -> Forall (fun pc => exists addr r, pc = PDone addr r) (sy_threads s) -> g = idle).
Proof.
  intros Hf Hm He Hr. pose proof (account_run cfg addrs Hf evs _ _ (account_new cfg addrs Hm) He Hr) as Ha. intros g idle.
  pose proof (a_sum _ _ _ Ha) as Hs. unfold slots in Hs. fold g idle in Hs. pose proof (a_max _ _ _ Ha) as Hx. fold g in Hx.
  pose proof (pend_nonneg cfg addrs s Ha) as H1. assert (H2 : 0 <= zsum reserved (sy_tasks s)) by (apply zsum_nonneg; by intros []).
  assert (H3 : 0 <= idle) by (apply zsum_nonneg; intros; apply zlen_nonneg). split_and!; [lia | lia | lia | lia |].
  intros Ht Hd. rewrite Ht in Hs. change (zsum reserved []) with 0 in Hs. enough (zsum pend (sy_threads s) = 0) by lia.
  clear - Hd. induction Hd as [| pc pcs (addr & r & ->) _ IH]; [done |]. unfold zsum in *. cbn [foldr]. rewrite IH. done.
Qed.

(** * After an eviction *)

Section starved.
Context (cfg : PoolConfig).

Definition idle_empty (sh : Shared) (pid : nat) : Prop := forall p, sh_pools sh !! pid = Some p -> dp_idle p = [].

Definition starved_work (w : Work) : Prop :=
  match w with WStale k => k = 0 | WSpawn n => n = 0%nat | WLoad k | WCas k _ => 0 <= k | _ => True end.

Definition pc_starved (sh : Shared) (pc : Pc) : Prop :=
  match pc with
  | PServe _ pid taken w => idle_empty sh pid /\ taken = None /\ starved_work w
  | PCount _ pid => idle_empty sh pid
  | PReturn _ k => k = 0
  | PDone _ (Pooled _ _) => False
  | _ => True
  end.

(** The budget is used up although no pool that can be reached has a socket and no refill is under way. *)
Record starved (s : Sys) : Prop := mkStarved {
  s_global : max_global_idle cfg <= sh_global (sy_shared s);
  s_tasks : sy_tasks s = [];
  s_dests : Forall (fun e => idle_empty (sy_shared s) e.2) (sh_dests (sy_shared s));
  s_threads : Forall (pc_starved (sy_shared s)) (sy_threads s);
}.

(** The pools that were empty still are. *)
Definition stays (sh sh' : Shared) : Prop := forall pid, idle_empty sh pid -> idle_empty sh' pid.

Lemma stays_same sh sh' : sh_pools sh' = sh_pools sh -> stays sh sh'.
Proof. intros E pid H p. rewrite E. apply H. Qed.

Lemma stays_alter sh pid f : idle_empty sh pid -> (forall p, dp_idle p = [] -> dp_idle (f p) = []) -> stays sh (on_pool pid f sh).
Proof.
  intros He Hf q Hq p. cbn [on_pool sh_pools]. destruct (decide (pid = q)) as [<- |]; [| rewrite list_lookup_alter_ne by done; apply Hq].
  rewrite list_lookup_alter_eq. destruct (sh_pools sh !! pid) as [p0 |] eqn:E; [| done]. intros [= <-]. by apply Hf, He.
Qed.

Lemma pc_starved_stays sh sh' pc : stays sh sh' -> pc_starved sh pc -> pc_starved sh' pc.
Proof. intros Hs. destruct pc; cbn; try done; [apply Hs |]. intros (H & ? & ?). by split_and!; [apply Hs |..]. Qed.

(** What a step keeps. *)
Definition starving (sh : Shared) (r : Shared * Pc * list Task) : Prop :=
  let '(sh', pc', new) := r in
  new = [] /\ sh_global sh' = sh_global sh /\ stays sh sh' /\ Forall (fun e => idle_empty sh' e.2) (sh_dests sh') /\ pc_starved sh' pc'.

Lemma starving_same sh sh' pc' : Forall (fun e => idle_empty sh e.2) (sh_dests sh) ->
  sh_pools sh' = sh_pools sh -> sh_dests sh' = sh_dests sh -> sh_global sh' = sh_global sh -> pc_starved sh' pc' -> starving sh (sh', pc', []).
Proof.
  intros Hd E1 E2 E3 Hpc. split_and!; [done | done | by apply stays_same | | done]. rewrite E2. eapply Forall_impl; [| exact Hd]. intros e. by apply stays_same.
Qed.

Lemma starving_alter sh addr pid w f : Forall (fun e => idle_empty sh e.2) (sh_dests sh) ->
  idle_empty sh pid -> (forall p, dp_idle p = [] -> dp_idle (f p) = []) -> starved_work w ->
  starving sh (on_pool pid f sh, PServe addr pid None w, []).
Proof.
  intros Hd He Hf Hw. assert (Hs : stays sh (on_pool pid f sh)) by (by apply stays_alter). split_and!; [done | done | done | | by split_and!; [apply Hs |..]].
  eapply Forall_impl; [| exact Hd]. intros e. apply Hs.
Qed.

Lemma find_starving env sh pc sh' pc' :
  Forall (fun e => idle_empty sh e.2) (sh_dests sh) -> pc_starved sh pc -> find_step cfg env sh pc = Some (sh', pc') -> starving sh (sh', pc', []).
Proof.
  intros Hd Hpc H. assert (Hof : forall a pid, dest_of (sh_dests sh) a = Some pid -> idle_empty sh pid).
  { intros a pid E%dest_of_elem%list_elem_of_In. rewrite Forall_forall in Hd. exact (Hd _ E). }
  destruct pc; cbn [find_step] in H; try done.
  - destruct (dest_of _ addr) as [pid |] eqn:E; injection H as <- <-; apply starving_same; try done. by split_and!; [eapply Hof |..].
  - destruct (_ >=? _); injection H as <- <-; by apply starving_same.
  - destruct (sh_dests sh) eqn:E; [injection H as <- <-; apply starving_same; try done; by rewrite E |].
    destruct (is_lru _ _); [| done]. injection H as <- <-. apply starving_same; try done. by rewrite E.
  - destruct (dest_of _ key) as [pid |] eqn:E; injection H as <- <-; [| by apply starving_same]. split_and!; [done | done | by apply stays_same | | by eapply Hof].
    cbn [set_dests sh_dests]. unfold remove_dest. apply Forall_forall. intros e He%list_elem_of_In. apply list_elem_of_filter in He as [_ He%list_elem_of_In].
    rewrite Forall_forall in Hd. exact (Hd e He).
  - destruct (sh_pools sh !! pid) as [p |] eqn:E; [| done]. injection H as <- <-. apply starving_same; try done. cbn. by rewrite (Hpc p E).
  - cbn in Hpc. subst k. injection H as <- <-. by apply starving_same.
  - destruct (dest_of _ addr) as [pid |] eqn:E; injection H as <- <-; [apply starving_same; try done; by split_and!; [eapply Hof |..] |].
    set (sh' := mkShared _ _ _ _). assert (Hnew : forall q, idle_empty sh q -> idle_empty sh' q).
    { intros q Hq p. cbn [sh_pools sh']. intros [Hp | [_ Hp]]%lookup_app_Some; [by apply Hq |]. by destruct (q - _)%nat; [injection Hp as <- | done]. }
    assert (Hlast : idle_empty sh' (length (sh_pools sh))) by (apply Hnew; intros p Hp%lookup_lt_Some; lia).
    split_and!; [done | done | exact Hnew | | by split_and!]. cbn [sh_dests sh']. apply Forall_app. split; [| by constructor].
    eapply Forall_impl; [| exact Hd]. intros e. apply Hnew.
Qed.

Lemma serve_starving env sh addr pid p taken w :
  sh_pools sh !! pid = Some p -> max_global_idle cfg <= sh_global sh -> Forall (fun e => idle_empty sh e.2) (sh_dests sh) ->
  pc_starved sh (PServe addr pid taken w) -> starving sh (serve_step cfg env sh addr pid p taken w).
Proof.
  intros Hp Hg Hd (He & -> & Hw). destruct w; cbn [serve_step].
  - by apply starving_alter.
  - by apply starving_alter.
  - rewrite (He p Hp). cbn [take_loop]. by apply starving_alter.
  - cbn in Hw. subst stale. by apply starving_same.
  - by apply starving_same.
  - by apply starving_same.
  - destruct (_ =? 0); apply starving_same; try done. split_and!; [done | done |]. unfold starved_work, needed_of. lia.
  - destruct (_ =? 0); by apply starving_same.
  - destruct (Z.eqb_spec (sh_global sh) cur) as [<- |]; [| by apply starving_same].
    cbn in Hw. assert (want_of cfg needed (sh_global sh) = 0) as -> by (unfold want_of; lia). apply starving_same; try done. cbn. lia.
  - cbn in Hw. subst n. by apply starving_same.
  - by apply starving_same.
Qed.

Lemma thread_starving env sh pc r :
  max_global_idle cfg <= sh_global sh -> Forall (fun e => idle_empty sh e.2) (sh_dests sh) -> pc_starved sh pc -> thread_step cfg env sh pc = Some r -> starving sh r.
Proof.
  intros Hg Hd Hpc H.
  destruct pc; cbn [thread_step] in H; try (destruct (find_step cfg env _ _) as [[sh' pc'] |] eqn:E; [| done]; injection H as <-; by eapply find_starving).
  - destruct (sh_pools _ !! pid) as [p |] eqn:Hp; [| done]. injection H as <-. by apply serve_starving.
  - destruct (ev_ok env); [cbn [fresh] in H |]; injection H as <-; by apply starving_same.
  - done.
Qed.

Lemma starved_step s ev s' : starved s -> step cfg s ev = Some s' -> starved s'.
Proof.
  intros [H1 H2 H3 H4] H. destruct ev as [addr | i env | j env]; cbn [step] in H.
  - injection H as <-. split; cbn [sy_shared sy_threads sy_tasks]; [done | done | done |]. apply Forall_app. split; [done | by repeat constructor].
  - destruct (sy_threads s !! i) as [pc |] eqn:Hi; [| done]. cbn [mbind option_bind] in H.
    destruct (thread_step cfg env _ pc) as [[[sh' pc'] new] |] eqn:E; [| done]. injection H as <-.
    destruct (thread_starving env _ pc _ H1 H3 (Forall_lookup_1 _ _ _ _ H4 Hi) E) as (-> & Hg & Hs & Hd & Hpc).
    split; cbn [sy_shared sy_threads sy_tasks]; [lia | by rewrite H2 | done |]. apply Forall_insert; [| done].
    eapply Forall_impl; [| exact H4]. intros q. by apply pc_starved_stays.
  - by rewrite H2 in H.
Qed.

Lemma starved_run evs : forall s s', starved s -> run cfg s evs = Some s' -> starved s'.
Proof.
  induction evs as [| ev evs IH]; intros s s' Hs; cbn [run]; [by intros [= <-] |]. destruct (step cfg s ev) as [s1 |] eqn:E; [| done].
  intros H. eapply IH; [| exact H]. by eapply starved_step.
Qed.

End starved.

Definition addr_a : SocketAddr := mkSocketAddr (V4 [10; 0; 0; 1]) 443.
Definition addr_b : SocketAddr := mkSocketAddr (V4 [10; 0; 0; 2]) 443.

(** A pool for one destination and one socket. *)
Definition one_socket : PoolConfig := mkPoolConfig 1 1 1 (5 * SECOND) (10 * SECOND) 1.

Definition at_once : Env := mkEnv 0 addr_a (fun _ => true) true.

(** Two connections, the second to another destination while the refill for the first is connecting. *)
Definition leak_run : list Event :=
  [Connect addr_a] ++ replicate 16 (RunThread 0 at_once) ++ [Connect addr_b] ++ replicate 16 (RunThread 1 at_once) ++ replicate 2 (RunTask 0 at_once).

(** An eviction while a refill is connecting leaks its slot of the budget.  After one connection and a second one to
    another destination, with a pool for one of each, everything is at rest, no socket is within reach, and from then on, whatever
    happens, no refill is ever started and no connection is ever served from the pool. *)
Theorem freedom_pool_starves :
  exists s, run one_socket sys_new leak_run = Some s /\ sy_tasks s = [] /\ Forall (fun pc => exists a r, pc = PDone a r) (sy_threads s)
    /\ forall evs s', run one_socket s evs = Some s' ->
         sy_tasks s' = [] /\ forall i addr so age, sy_threads s' !! i <> Some (PDone addr (Pooled so age)).
Proof.
  destruct (run one_socket sys_new leak_run) as [s |] eqn:E; [| by vm_compute in E]. exists s. vm_compute in E. injection E as <-.
  split_and!; [done | done | repeat constructor; by eexists _, _ |]. intros evs s' H. apply starved_run in H as [_ Ht _ Hth].
  - split; [done |]. intros i addr so age Hi. by apply (Forall_lookup_1 _ _ _ _ Hth) in Hi.
  - split; cbn; [done | done | | by repeat constructor]. repeat constructor. intros p Hp. by injection Hp as <-.
Qed.

Definition dial_fails : Env := mkEnv 0 addr_a (fun _ => true) false.

(** A connection has its pool and has not yet looked into it when another one evicts the pool. *)
Definition double_run : list Event :=
  [Connect addr_a] ++ replicate 16 (RunThread 0 at_once) ++ replicate 2 (RunTask 0 at_once) ++ [Connect addr_a] ++ replicate 3 (RunThread 1 at_once)
  ++ [Connect addr_b] ++ replicate 6 (RunThread 2 at_once) ++ replicate 10 (RunThread 1 at_once) ++ replicate 3 (RunTask 0 dial_fails).

(** An eviction gives back the slots of the idle sockets, and a connection that still holds the pool takes one of the sockets and gives
    its slot back again: [global_idle] is less than nothing, and the budget of the pools too large by one. *)
Theorem freedom_pool_double_release :
  exists s, run one_socket sys_new double_run = Some s /\ sy_tasks s = [] /\ zsum idle_count (sh_pools (sy_shared s)) = 0 /\ sh_global (sy_shared s) = -1.
Proof. eexists. split; [vm_compute; reflexivity |]. by vm_compute. Qed.

(** * The hotness meter *)

(** The meter after requests at the times [h]. *)
Definition meter_after (w t0 : Z) (h : list Z) : HotnessMeter := foldl (fun m t => (record_and_get w t m).1) (meter_new t0) h.

Definition within (a b t : Z) : Z := if decide (a <= t < b) then 1 else 0.

(** How many requests were in a span of time. *)
Definition hits (a b : Z) (h : list Z) : Z := zsum (within a b) h.

Ltac hits_tac := unfold within; repeat destruct (decide _); lia.

Definition meter_ok (w : Z) (m : HotnessMeter) (h : list Z) : Prop :=
  let ws := hm_window_start m in
  exists ps, hm_current m = hits ws (ws + w) h /\ hm_previous m = hits ps ws h /\ ws - 2 * w < ps <= ws
    /\ Forall (fun t => t < ws + w /\ (ws - w < t < ws -> ps <= t)) h.

Lemma hits_app a b h k : hits a b (h ++ k) = hits a b h + hits a b k.
Proof. apply zsum_app. Qed.

Lemma hits_one a b t : hits a b [t] = within a b t.
Proof. unfold hits, zsum. cbn. lia. Qed.

Lemma hits_same a b a' b' h : Forall (fun t => within a b t = within a' b' t) h -> hits a b h = hits a' b' h.
Proof. induction 1 as [| t h Ht _ IH]; [done |]. unfold hits, zsum in *. cbn [foldr]. lia. Qed.

Lemma meter_ok_record w m h now :
  0 < w -> meter_ok w m h -> Forall (fun t => t <= now) h -> hm_window_start m <= now -> meter_ok w (record_and_get w now m).1 (h ++ [now]).
Proof.
  intros Hw (ps & Hc & Hp & Hps & Hh) Hn Hs. set (ws := hm_window_start m) in *. unfold record_and_get. fold ws. rewrite Z.max_r by lia. cbn [fst].
  assert (Hz : forall a b, ws + w <= a -> hits a b h = 0).
  { intros a b Ha. rewrite (hits_same a b 0 0); [| eapply Forall_impl; [| exact Hh]; cbn; intros t [Ht _]; hits_tac].
    clear. induction h as [| t h IH]; [done |]. unfold hits, zsum in *. cbn [foldr]. rewrite IH. unfold within. destruct (decide _); lia. }
  destruct (Z.geb_spec (now - ws) (w * 2)) as [H2 | H2]; [| destruct (Z.geb_spec (now - ws) w) as [H1 | H1]]; unfold meter_ok; cbn [hm_current hm_previous hm_window_start].
  - exists now. rewrite !hits_app, !hits_one, !Hz by lia. split_and!; [hits_tac | hits_tac | lia | lia |]. apply Forall_app. split; [| repeat constructor; lia].
    eapply Forall_impl; [| exact Hh]. cbn. lia.
  - exists ws. rewrite !hits_app, !hits_one, (Hz now) by lia. split_and!; [hits_tac | | lia | lia |].
    + rewrite Hc, (hits_same ws (ws + w) ws now); [hits_tac |]. eapply Forall_impl; [| exact Hh]. cbn. intros t [Ht _]. hits_tac.
    + apply Forall_app. split; [| repeat constructor; lia]. eapply Forall_impl; [| exact Hh]. cbn. lia.
  - exists ps. rewrite !hits_app, !hits_one, Hc, Hp. fold ws. split_and!; [hits_tac | hits_tac | lia | lia |]. apply Forall_app. split; [done | repeat constructor; lia].
Qed.

(** Times in order, none before [t]. *)
Fixpoint in_order (t : Z) (h : list Z) : Prop := match h with [] => True | x :: h => t <= x /\ in_order x h end.

Lemma meter_fold_ok w now h2 : 0 < w -> forall m h1 t,
  meter_ok w m h1 -> Forall (fun x => x <= t) h1 -> hm_window_start m <= t -> in_order t (h2 ++ [now]) ->
  let m' := foldl (fun m t => (record_and_get w t m).1) m h2 in
  meter_ok w m' (h1 ++ h2) /\ hm_window_start m' <= now /\ Forall (fun x => x <= now) (h1 ++ h2).
Proof.
  intros Hw. induction h2 as [| x h2 IH]; intros m h1 t Hm Hh Hs Ho.
  - cbn in *. rewrite app_nil_r. split_and!; [done | lia |]. eapply Forall_impl; [| exact Hh]. cbn. lia.
  - destruct Ho as [Hx Ho]. cbn [foldl]. assert (Hh' : Forall (fun y => y <= x) h1) by (eapply Forall_impl; [| exact Hh]; cbn; lia).
    rewrite (cons_middle x h1 h2), (assoc_L (++)). apply (IH _ _ x); [by apply meter_ok_record; [| | | lia] | | | exact Ho].
    + apply Forall_app. split; [done | repeat constructor; lia].
    + unfold record_and_get. destruct (_ >=? _); [cbn; lia |]. destruct (_ >=? _); cbn; lia.
Qed.

Lemma meter_after_ok w t0 h now : 0 < w -> in_order t0 (h ++ [now]) ->
  meter_ok w (meter_after w t0 h) h /\ hm_window_start (meter_after w t0 h) <= now /\ Forall (fun x => x <= now) h.
Proof.
  intros Hw Ho. apply (meter_fold_ok w now h Hw (meter_new t0) [] t0); [| by constructor | cbn; lia | done].
  exists t0. cbn. split_and!; [done | done | lia | lia | by constructor].
Qed.

Lemma hits_le a b a' b' h : Forall (fun t => within a b t <= within a' b' t) h -> hits a b h <= hits a' b' h.
Proof. induction 1 as [| t h Ht _ IH]; [done |]. unfold hits, zsum in *. cbn [foldr]. lia. Qed.

Lemma hits_bounds a b h : 0 <= hits a b h <= zlen h.
Proof. induction h as [| t h IH]; [done |]. rewrite zlen_cons. unfold hits, zsum in *. cbn [foldr]. unfold within at 1 3. destruct (decide _); lia. Qed.

Lemma hits_split a b c h : a <= b <= c -> hits a b h + hits b c h = hits a c h.
Proof.
  intros Ho. induction h as [| t h IH]; [done |]. unfold hits, zsum in *. cbn [foldr]. enough (within a b t + within b c t = within a c t) by lia. unfold within. repeat destruct (decide _); lia.
Qed.

(** What a meter in order says at the time [now], as long as it does not saturate. *)
Lemma estimate_counts w m h now : 0 < w -> meter_ok w m h -> Forall (fun t => t <= now) h -> hm_window_start m <= now -> zlen h < 2 ^ 64 ->
  hits (now - w + 1) (now + 1) h <= estimate w now m <= hits (now - 3 * w + 1) (now + 1) h.
Proof.
  intros Hw (ps & Hc & Hp & Hps & Hh) Hn Hs Hl. set (ws := hm_window_start m) in *. unfold estimate. fold ws. rewrite Z.max_r by lia.
  pose proof (proj2 (list.Forall_and _ _) (conj Hh Hn)) as Hall. cbn beta in Hall.
  destruct (Z.geb_spec (now - ws) (w * 2)) as [H2 | H2]; [| destruct (Z.geb_spec (now - ws) w) as [H1 | H1]].
  - split; [| apply hits_bounds]. rewrite (hits_le _ _ 0 0); [| eapply Forall_impl; [| exact Hall]; cbn; intros t [[Ht _] _]; hits_tac].
    clear. induction h as [| t h IH]; [done |]. unfold hits, zsum in *. cbn [foldr]. unfold within at 1. destruct (decide _); lia.
  - rewrite Hc. split; apply hits_le; (eapply Forall_impl; [| exact Hall]); cbn; intros t [[Ht _] Ht']; hits_tac.
  - unfold sat_add. rewrite Hc, Hp, hits_split by lia. pose proof (hits_bounds ps (ws + w) h). rewrite Z.min_l by lia.
    split; apply hits_le; (eapply Forall_impl; [| exact Hall]); cbn; intros t [[Ht Hp'] Ht']; hits_tac.
Qed.

Lemma record_start w now m : hm_window_start m <= now -> hm_window_start (record_and_get w now m).1 <= now.
Proof. intros H. unfold record_and_get. destruct (_ >=? _); [cbn; lia |]. destruct (_ >=? _); cbn; lia. Qed.

(** Right after a request is recorded, reading the meter gives the count that was returned. *)
Lemma estimate_recorded w now m : 0 < w -> hm_window_start m <= now -> estimate w now (record_and_get w now m).1 = (record_and_get w now m).2.
Proof.
  intros Hw Hs. unfold record_and_get. rewrite Z.max_r by lia. destruct (Z.geb_spec (now - hm_window_start m) (w * 2)); [| destruct (Z.geb_spec (now - hm_window_start m) w)];
    unfold estimate; cbn [fst snd hm_window_start hm_current hm_previous];
    repeat match goal with |- context [?a >=? ?b] => destruct (Z.geb_spec a b); [lia |] end; done.
Qed.

Lemma tier_bounds count max min : 0 < max -> 0 < min ->
  (count < min -> tier_from_count count max min = 0) /\ (min <= count -> 0 < tier_from_count count max min) /\ 0 <= tier_from_count count max min <= max.
Proof.
  intros Hx Hm. unfold tier_from_count. destruct (Z.ltb_spec count min); [lia |]. destruct (Z.eqb_spec count 0); [lia |].
  repeat (destruct (_ <=? _); [lia |]). lia.
Qed.

(** The hotness of a destination.  After requests at any times in order, the count that decides on its capacity includes
    every request of the last window and none that is three windows old, both when a request is recorded and when the capacity is read
    without one.  So a destination with fewer requests than the threshold in three windows keeps no sockets, one with enough
    in the last window may keep some, and the capacity never exceeds the limit. *)
Theorem hotness_counts (cfg : PoolConfig) (p : DestPool) (t0 : Z) (h : list Z) (now : Z) :
  let w := hotness_window cfg in
  0 < w -> in_order t0 (h ++ [now]) -> zlen h + 1 < 2 ^ 64 -> 0 < max_per_dest cfg -> 0 < min_hotness_for_pool cfg -> dp_hotness p = meter_after w t0 h ->
  let counted := (record_and_get w now (dp_hotness p)).2 in
  hits (now - w + 1) (now + 1) (h ++ [now]) <= counted <= hits (now - 3 * w + 1) (now + 1) (h ++ [now])
  /\ hits (now - w + 1) (now + 1) h <= estimate w now (dp_hotness p) <= hits (now - 3 * w + 1) (now + 1) h
  /\ (hits (now - 3 * w + 1) (now + 1) h < min_hotness_for_pool cfg -> current_cap cfg p now = 0)
  /\ (min_hotness_for_pool cfg <= hits (now - w + 1) (now + 1) h -> 0 < current_cap cfg p now)
  /\ 0 <= current_cap cfg p now <= max_per_dest cfg.
Proof.
  intros w Hw Ho Hl Hm Hmin E counted. destruct (meter_after_ok w t0 h now Hw Ho) as (Hok & Hs & Hn). rewrite <- E in Hok, Hs.
  pose proof (estimate_counts w _ h now Hw Hok Hn Hs ltac:(lia)) as He. split; [| split; [done |]].
  - pose proof (meter_ok_record w _ h now Hw Hok Hn Hs) as Hr. subst counted. rewrite <- (estimate_recorded w now (dp_hotness p)) by done.
    apply estimate_counts; [done | done | | by apply record_start | rewrite zlen_app; change (zlen [now]) with 1; lia].
    apply Forall_app. split; [done | repeat constructor; lia].
  - unfold current_cap. fold w. destruct (tier_bounds (estimate w now (dp_hotness p)) (max_per_dest cfg) (min_hotness_for_pool cfg)) as (H1 & H2 & H3); [lia | lia |].
    split_and!; [intros; apply H1; lia | intros; apply H2; lia | lia | lia].
Qed.

(** Requests that are almost three windows old are counted: 32 of them at once, one after 19 of 10 seconds, and 9 seconds later. *)
Theorem hotness_keeps_old :
  let w := 10 * SECOND in
  let h := replicate 32 0 ++ [19 * SECOND] in
  estimate w (28 * SECOND) (meter_after w 0 h) = 33 /\ hits (28 * SECOND - w + 1) (28 * SECOND + 1) h = 1.
Proof. by vm_compute. Qed.

(** * Witnesses *)

(** Two destinations at most, so that one may be asked for. *)
Definition two_dests : PoolConfig := mkPoolConfig 1 1 2 (5 * SECOND) (10 * SECOND) 1.

(** A connection whose refill comes back, and a second one that is served from the pool. *)
Definition pooled_run : list Event :=
  [Connect addr_a] ++ replicate 16 (RunThread 0 at_once) ++ replicate 2 (RunTask 0 at_once) ++ [Connect addr_a] ++ replicate 9 (RunThread 1 at_once).

Lemma freedom_pool_safe_witness :
  exists s so, run two_dests sys_new pooled_run = Some s /\ sy_threads s !! 1%nat = Some (PDone addr_a (Pooled so 0)) /\ so_peer so = addr_a
    /\ forall p, sh_pools (sy_shared s) !! 0%nat = Some p -> zlen (dp_idle p) <= 1.
Proof.
  destruct (run two_dests sys_new pooled_run) as [s |] eqn:E; [| by vm_compute in E].
  destruct (freedom_pool_safe two_dests pooled_run s E) as [H1 H2]. exists s, (mkSocket 1 addr_a).
  assert (Hi : sy_threads s !! 1%nat = Some (PDone addr_a (Pooled (mkSocket 1 addr_a) 0))) by (vm_compute in E; by injection E as <-).
  split_and!; [done | done | exact (proj1 (H1 _ _ _ _ Hi eq_refl)) |]. intros p Hp. exact (proj1 (H2 _ _ Hp)).
Defined.

Lemma freedom_pool_budget_witness :
  exists s, run two_dests sys_new pooled_run = Some s /\ sh_global (sy_shared s) = zsum idle_count (sh_pools (sy_shared s)) /\ sh_global (sy_shared s) <= 1.
Proof.
  destruct (run two_dests sys_new pooled_run) as [s |] eqn:E; [| by vm_compute in E]. exists s. split; [done |].
  destruct (freedom_pool_budget two_dests [addr_a] pooled_run s) as (_ & Hb & _ & Hr); [done | done | | done |].
  { unfold pooled_run. repeat (apply Forall_app; split); try apply Forall_replicate; repeat constructor. }
  split; [| exact (proj2 Hb)]. apply Hr; vm_compute in E; injection E as <-; [done |]. by repeat (constructor; [by eexists _, _ |]).
Defined.

Definition short_window : PoolConfig := mkPoolConfig 4 128 256 50 10 2.

Lemma hotness_counts_witness :
  let p := mkDestPool addr_a (meter_after 10 0 [0; 0; 19]) 0 [] 0 in
  1 <= estimate 10 28 (dp_hotness p) <= 3 /\ 0 <= current_cap short_window p 28 <= 4.
Proof.
  intros p. assert (H1 : hits (28 - 10 + 1) (28 + 1) [0; 0; 19] = 1) by (vm_compute; reflexivity).
  assert (H3 : hits (28 - 3 * 10 + 1) (28 + 1) [0; 0; 19] = 3) by (vm_compute; reflexivity).
  destruct (hotness_counts short_window p 0 [0; 0; 19] 28) as (_ & H & _ & _ & Hc); [done | by cbn | done | done | done | done |].
  cbn [hotness_window short_window] in H. rewrite H1, H3 in H. split; [exact H | exact Hc].
Defined.
