(* ===== verification/PoolSettings.v ===== *)
(** The settings of the freedom pool ([blackwire-core/src/instance/mod.rs]): from the JSON of an outbound and the profile to a [PoolConfig], and that every
    configuration they can give is one the pool is proved for. *)

From stdpp Require Import base list strings numbers.
From S2P Require Import Prelude Text Address FreedomPool.

(** What the settings can hold; a number that is no [u64] counts as another value. *)
Inductive Json :=
| JNull
| JBool (b : bool)
| JU64 (n : Z)
| JString (s : bytes)
| JObject (fields : list (bytes * Json))
| JOther.

(** [Value::get] by name. *)
Definition get (v : Json) (key : string) : option Json :=
  match v with
  | JObject fields => kv ← List.find (fun kv => bytes_eqb kv.1 (lit key)) fields; Some kv.2
  | _ => None
  end.

(** [get(a).or_else(|| get(b))]. *)
Definition get_either (v : Json) (a b : string) : option Json := match get v a with Some x => Some x | None => get v b end.

Definition as_u64 (value : option Json) : option Z := match value with Some (JU64 n) => Some n | _ => None end.
Definition as_usize (value : option Json) : option Z := as_u64 value.
Definition as_pool_mode (value : option Json) : option bytes := match value with Some (JString s) => Some (to_ascii_lowercase (trim s)) | _ => None end.

(** A setting that is given replaces the value, and is at least one. *)
Definition override (v : option Z) (scale old : Z) : Z := match v with Some v => scale * Z.max v 1 | None => old end.

Definition MILLISECOND : Z := 1000000.

Definition apply_pool_overrides (cfg : PoolConfig) (source : Json) : PoolConfig :=
  mkPoolConfig
    (override (as_usize (get_either source "maxPerDest" "max_per_dest")) 1 (max_per_dest cfg))
    (override (as_usize (get_either source "maxGlobalIdle" "max_global_idle")) 1 (max_global_idle cfg))
    (override (as_usize (get_either source "maxDests" "max_dests")) 1 (max_dests cfg))
    (override (as_u64 (get_either source "idleTtlMs" "idle_ttl_ms")) MILLISECOND (idle_ttl cfg))
    (override (as_u64 (get_either source "hotnessWindowMs" "hotness_window_ms")) MILLISECOND (hotness_window cfg))
    (override (as_u64 (get_either source "minHotnessForPool" "min_hotness_for_pool")) 1 (min_hotness_for_pool cfg)).

Definition pool_config_from_mode (mode : bytes) : option PoolConfig :=
  if bytes_eqb mode (lit "adaptive") then Some fast_profile
  else if bytes_eqb mode (lit "disabled") || bytes_eqb mode (lit "off") || bytes_eqb mode (lit "none") then None
  else if bytes_eqb mode (lit "fixed") then Some (pool_fixed 8)
  else None.

Inductive FastPoolPolicy := Adaptive | Disabled | Fixed.

(** The profile of the configuration and its policy for the pool, if it has one. *)
Record Profile := mkProfile { profile_fast : bool; fast_pool : option FastPoolPolicy }.

Definition default_policy : FastPoolPolicy := Disabled.

Definition profile_pool (config : Profile) : option PoolConfig :=
  if negb (profile_fast config) then None
  else
    match default default_policy (fast_pool config) with
    | Adaptive => Some fast_profile
    | Disabled => None
    | Fixed => Some (pool_fixed 8)
    end.

(** The last steps, behind [pool] and [poolSize]. *)
Definition pool_enabled (config : Profile) (settings : Json) : option PoolConfig :=
  match get settings "poolEnabled" with Some (JBool false) => None | _ => profile_pool config end.

Definition pool_size (config : Profile) (settings : Json) : option PoolConfig :=
  match get settings "poolSize" with
  | Some JNull => None
  | Some (JU64 size) => Some (pool_fixed (Z.max size 1))
  | Some (JString policy) => pool_config_from_mode (to_ascii_lowercase policy)
  | _ => pool_enabled config settings
  end.

Definition freedom_pool_config (config : Profile) (settings : Json) : option PoolConfig :=
  match get settings "pool" with
  | Some JNull => None
  | Some (JString s) => pool_config_from_mode (to_ascii_lowercase (trim s))
  | Some (JObject _ as pool) =>
      base ← pool_config_from_mode (default (lit "adaptive") (as_pool_mode (get pool "mode")));
      Some (apply_pool_overrides base pool)
  | _ => pool_size config settings
  end.

(** * Every pool that can be configured works *)

(** What the pool relies on: limits of at least one, and a window that is not empty. *)
Definition pool_config_ok (cfg : PoolConfig) : Prop :=
  1 <= max_per_dest cfg /\ 1 <= max_global_idle cfg /\ 1 <= max_dests cfg /\ 0 < idle_ttl cfg /\ 0 < hotness_window cfg /\ 1 <= min_hotness_for_pool cfg.

#[global] Instance pool_config_ok_dec cfg : Decision (pool_config_ok cfg).
Proof. unfold pool_config_ok. apply _. Defined.

Lemma mode_ok mode cfg : pool_config_from_mode mode = Some cfg -> pool_config_ok cfg.
Proof. unfold pool_config_from_mode. repeat destruct (_ : bool); intros [= <-]; decided. Qed.

Lemma override_pos v scale old : 1 <= scale -> 1 <= old -> 1 <= override v scale old.
Proof. intros. unfold override. destruct v; [nia | done]. Qed.

Lemma overrides_ok cfg source : pool_config_ok cfg -> pool_config_ok (apply_pool_overrides cfg source).
Proof.
  intros (H1 & H2 & H3 & H4 & H5 & H6). unfold pool_config_ok, apply_pool_overrides. cbn [max_per_dest max_global_idle max_dests idle_ttl hotness_window min_hotness_for_pool].
  assert (Hl : forall x, 1 <= x -> 0 < x) by lia. split_and!; try apply Hl; apply override_pos; unfold MILLISECOND; lia.
Qed.

(** Every configuration of the pool that settings and profile can give has limits of at least one, a limit for the idle sockets and a window that is not
    empty: what the theorems on the pool and on the hotness ask for. *)
Theorem pool_settings_valid (config : Profile) (settings : Json) (cfg : PoolConfig) : freedom_pool_config config settings = Some cfg -> pool_config_ok cfg.
Proof.
  assert (He : pool_enabled config settings = Some cfg -> pool_config_ok cfg).
  { unfold pool_enabled, profile_pool. destruct (get settings "poolEnabled") as [[| [] | | | |] |]; try done;
      (destruct (profile_fast config); cbn [negb]; [| done]); destruct (default default_policy (fast_pool config)); intros [= <-]; decided. }
  assert (Hs : pool_size config settings = Some cfg -> pool_config_ok cfg).
  { unfold pool_size. destruct (get settings "poolSize") as [[| | n | s | |] |]; try done; [| apply mode_ok].
    intros [= <-]. unfold pool_config_ok, pool_fixed, SECOND. cbn [max_per_dest max_global_idle max_dests idle_ttl hotness_window min_hotness_for_pool]. lia. }
  unfold freedom_pool_config. destruct (get settings "pool") as [[| | | s | fields |] |]; try done; [apply mode_ok |].
  set (pool := JObject fields). intros H. destruct (pool_config_from_mode (default (lit "adaptive") (as_pool_mode (get pool "mode")))) as [base |] eqn:Em; [| done].
  injection H as <-. by apply overrides_ok, (mode_ok _ _ Em).
Qed.

(** A pool size of zero does not turn the pool off: it is a pool of one socket for each destination. *)
Theorem pool_size_zero_pools (config : Profile) : freedom_pool_config config (JObject [(lit "poolSize", JU64 0)]) = Some (pool_fixed 1).
Proof. done. Qed.
