(* ===== verification/Grpc.v ===== *)
(** The gRPC transport ([grpc.rs]): frames with a length in front, messages with one field in them, and [GrpcStream], which coalesces
    what is written into frames and takes what is read out of them.

    The HTTP/2 connection is a library; a stream of it gives pieces of data of any length, and takes as many bytes as it has capacity for.
    The connection under the other variant of the stream ([GrpcInner::Io]) is read in pieces of 64 KiB. *)

From stdpp Require Import base list strings numbers.
From S2P Require Import Prelude Address Streams Chunks Vless.

Definition MAX_MESSAGE_SIZE : Z := 16 * 1024 * 1024.
Definition FRAME_HEADER_LEN : Z := 5.
Definition BRIDGE_READ_CHUNK : nat := 64 * 1024.
Definition COALESCE_TARGET_BYTES : Z := 16 * 1024.

(** * Frames *)

Definition append_grpc_frame_prefix (payload_len : Z) : bytes := 0x00 :: be_bytes 4 (wrap 32 payload_len).

Definition encode_grpc_frame (payload : bytes) : bytes := append_grpc_frame_prefix (zlen payload) ++ payload.

(** A value of 64 bits has at most ten groups. *)
Fixpoint put_varint_loop (fuel : nat) (val : Z) : bytes :=
  match fuel with
  | O => []
  | S fuel =>
      let byte := wrap 8 (Z.land val 0x7F) in
      let val := Z.shiftr val 7 in
      if val =? 0 then [byte] else Z.lor byte 0x80 :: put_varint_loop fuel val
  end.

Definition put_varint (val : Z) : bytes := put_varint_loop 10 val.

Fixpoint get_varint_loop (buf : bytes) (val shift i : Z) : option (Z * Z) :=
  match buf with
  | [] => None
  | byte :: buf =>
      if shift >=? 64 then None
      else
        let val := Z.lor val (wrap 64 (Z.shiftl (Z.land byte 0x7F) shift)) in
        if Z.land byte 0x80 =? 0 then Some (val, i + 1)
        else get_varint_loop buf val (shift + 7) (i + 1)
  end.

Definition get_varint (buf : bytes) : option (Z * Z) := get_varint_loop buf 0 0 0.

Definition append_hunk (data : bytes) : bytes := 0x0A :: put_varint (zlen data) ++ data.

(** The end of the data is computed in [usize]. *)
Definition decode_hunk (payload : bytes) : res ProxyError bytes :=
  match payload with
  | [] => Ok []
  | tag :: body =>
      if negb (tag =? 0x0A) then Err (Protocol "gRPC Gun: expected Hunk field tag 0x0A")
      else
        '(data_len, varint_len) ← ok_or (get_varint body) (Protocol "gRPC Gun: truncated or oversized Hunk varint");
        let offset := 1 + varint_len in
        let end_ := wrap 64 (offset + data_len) in
        if zlen payload <? end_ then Err (Protocol "gRPC Gun: Hunk data extends past message boundary")
        else slice payload offset end_
  end.

(** The payload of the first frame, and the rest of the buffer. *)
Definition decode_grpc_frame (buf : bytes) : res ProxyError (option (bytes * bytes)) :=
  if zlen buf <? FRAME_HEADER_LEN then Ok None
  else
    compressed ← idx buf 0;
    if negb (compressed =? 0x00) then Err (Transport "gRPC: compressed frames not supported")
    else
      len_bytes ← slice buf 1 5;
      let len := be_val len_bytes in
      if len >? MAX_MESSAGE_SIZE then Err (Transport "gRPC: message too large")
      else if zlen buf <? FRAME_HEADER_LEN + len then Ok None
      else
        payload ← slice buf 5 (5 + len);
        Ok (Some (payload, drop (Z.to_nat (5 + len)) buf)).

(** * Reading *)

(** The two variants of [GrpcInner]. *)
Inductive Inner := OverIo | OverH2.

Record GrpcReader := mkGrpcReader { gr_inner : list PollEvent; gr_recv : bytes; gr_read : bytes }.

Definition grpc_reader_new (inner : list PollEvent) : GrpcReader := mkGrpcReader inner [] [].

Inductive Serve := Gave (out : bytes) | MoreData | Undecodable.

(** [serve_decoded_frames] with room for [cap] bytes. *)
Fixpoint serve_decoded_frames (fuel : nat) (cap : Z) (r : GrpcReader) : res ProxyError (GrpcReader * Serve) :=
  match fuel with
  | O => NoFuel
  | S fuel =>
      if negb (zlen (gr_read r) =? 0) then
        let n := Z.to_nat (Z.min (zlen (gr_read r)) cap) in
        Ok (mkGrpcReader (gr_inner r) (gr_recv r) (drop n (gr_read r)), Gave (take n (gr_read r)))
      else
        match decode_grpc_frame (gr_recv r) with
        | Err _ => Ok (r, Undecodable)
        | Ok (Some (payload, recv)) =>
            let r := mkGrpcReader (gr_inner r) recv (gr_read r) in
            if zlen payload =? 0 then Ok (r, MoreData)
            else
              match decode_hunk payload with
              | Ok data => serve_decoded_frames fuel cap (mkGrpcReader (gr_inner r) recv data)
              | Err _ => Ok (r, Undecodable)
              | Panic => Panic
              | NoFuel => NoFuel
              end
        | Ok None => Ok (r, MoreData)
        | Panic => Panic
        | NoFuel => NoFuel
        end
  end.

(** A piece from below, or the end. *)
Definition inner_piece (v : Inner) (evs : list PollEvent) : list PollEvent * poll (option bytes) :=
  match v with
  | OverIo =>
      match inner_read BRIDGE_READ_CHUNK evs with
      | (evs, Ready []) => (evs, Ready None)
      | (evs, Ready d) => (evs, Ready (Some d))
      | (evs, Pending) => (evs, Pending)
      | (evs, Failed e) => (evs, Failed e)
      end
  | OverH2 =>
      match evs with
      | [] => ([], Ready None)
      | PData d :: evs => (evs, Ready (Some d))
      | PPending :: evs => (evs, Pending)
      | PError :: evs => (evs, Failed (Io OtherIo))
      end
  end.

Fixpoint grpc_read_loop (fuel : nat) (v : Inner) (cap : Z) (r : GrpcReader) : res ProxyError (GrpcReader * poll bytes) :=
  match fuel with
  | O => NoFuel
  | S fuel =>
      '(r, s) ← serve_decoded_frames (S (S (length (gr_recv r)))) cap r;
      match s with
      | Gave out => Ok (r, Ready out)
      | Undecodable => Ok (r, Failed (Io InvalidData))
      | MoreData =>
          match inner_piece v (gr_inner r) with
          | (evs, Pending) => Ok (mkGrpcReader evs (gr_recv r) (gr_read r), Pending)
          | (evs, Failed e) => Ok (mkGrpcReader evs (gr_recv r) (gr_read r), Failed e)
          | (evs, Ready None) => Ok (mkGrpcReader evs (gr_recv r) (gr_read r), Ready [])
          | (evs, Ready (Some d)) => grpc_read_loop fuel v cap (mkGrpcReader evs (gr_recv r ++ d) (gr_read r))
          end
      end
  end.

Definition grpc_poll_read (v : Inner) (cap : Z) (r : GrpcReader) : res ProxyError (GrpcReader * poll bytes) :=
  grpc_read_loop (S (events_size (gr_inner r))) v cap r.

(** * Writing *)

(** What the stream underneath answers and has taken, [pending_plain] and [write_buf]. *)
Record GrpcWriter := mkGrpcWriter { gw_sink : list WriteEvent; gw_sent : bytes; gw_plain : bytes; gw_buf : bytes }.

Definition grpc_writer_new (sink : list WriteEvent) : GrpcWriter := mkGrpcWriter sink [] [] [].

(** The length of the varint, as it is counted before the frame is written. *)
Fixpoint varint_len (fuel : nat) (remaining : Z) : Z :=
  match fuel with
  | O => 1
  | S fuel => if remaining >=? 0x80 then varint_len fuel (Z.shiftr remaining 7) + 1 else 1
  end.

Fixpoint encode_pending_loop (fuel : nat) (force : bool) (plain buf : bytes) : bytes * bytes :=
  match fuel with
  | O => (plain, buf)
  | S fuel =>
      if negb (zlen plain =? 0) && (force || (zlen plain >=? COALESCE_TARGET_BYTES)) then
        let payload_len := Z.min (zlen plain) MAX_MESSAGE_SIZE in
        let payload := take (Z.to_nat payload_len) plain in
        let hunk_len := 1 + varint_len 10 payload_len + payload_len in
        encode_pending_loop fuel force (drop (Z.to_nat payload_len) plain) (buf ++ append_grpc_frame_prefix hunk_len ++ append_hunk payload)
      else (plain, buf)
  end.

(** Every turn takes at least a byte. *)
Definition encode_pending_plain_into_frames (force : bool) (w : GrpcWriter) : GrpcWriter :=
  let '(plain, buf) := encode_pending_loop (length (gw_plain w)) force (gw_plain w) (gw_buf w) in
  mkGrpcWriter (gw_sink w) (gw_sent w) plain buf.

(** The loop over [write_buf].  Over HTTP/2 the answers are capacities, and a capacity of zero is a wait. *)
Definition capacity (v : Inner) (ev : WriteEvent) : WriteEvent :=
  match v, ev with OverH2, WAccept n => if n <=? 0 then WPending else ev | _, _ => ev end.

Definition write_out (v : Inner) (w : GrpcWriter) : GrpcWriter * Drained :=
  let '(sink, buf, sent, r) := drain (capacity v <$> gw_sink w) (gw_buf w) (gw_sent w) in
  (mkGrpcWriter sink sent (gw_plain w) buf, r).

Definition grpc_poll_write (v : Inner) (buf : bytes) (w : GrpcWriter) : GrpcWriter * poll Z :=
  let n := Z.min (zlen buf) MAX_MESSAGE_SIZE in
  let w := mkGrpcWriter (gw_sink w) (gw_sent w) (gw_plain w ++ take (Z.to_nat n) buf) (gw_buf w) in
  match write_out v (encode_pending_plain_into_frames false w) with
  | (w, Broken e) => (w, Failed e)
  | (w, _) => (w, Ready n)
  end.

Definition grpc_poll_flush (v : Inner) (w : GrpcWriter) : GrpcWriter * poll unit :=
  match write_out v (encode_pending_plain_into_frames true w) with
  | (w, Empty) => (w, Ready ())
  | (w, Waiting) => (w, Pending)
  | (w, Broken e) => (w, Failed e)
  end.

(** [poll_shutdown]: whether the stream underneath is shut down, with what it has taken by then. *)
Definition grpc_poll_shutdown (v : Inner) (w : GrpcWriter) : GrpcWriter * poll unit :=
  match v with
  | OverIo => (encode_pending_plain_into_frames true w, Ready ())
  | OverH2 => grpc_poll_flush v w
  end.

(** * Varints *)

(** Both varint codecs of the program are the same functions. *)
Lemma get_varint_vless buf : forall val shift i, 0 <= shift < 64 -> get_varint_loop buf val shift i = read_varint_loop buf i val shift.
Proof.
  induction buf as [| b buf IH]; intros val shift i Hs; [done |]. cbn [get_varint_loop read_varint_loop].
  destruct (Z.geb_spec shift 64); [lia |]. destruct (_ =? 0); [done |]. destruct (Z.geb_spec (shift + 7) 64) as [H7 | H7]; [| by apply IH; lia].
  destruct buf as [| c buf]; [done |]. cbn [get_varint_loop]. by rewrite (proj2 (Z.geb_le _ _)).
Qed.

(** The continuation bit covers what the byte has at its place. *)
Lemma group_bits val : Z.lor (wrap 8 val) 128 = Z.lor (wrap 8 (val mod 128)) 128.
Proof.
  apply Z.bits_inj'. intros n Hn. rewrite !Z.lor_spec. change 128 with (2 ^ 7). rewrite Z.pow2_bits_eqb by lia.
  destruct (Z.eqb_spec 7 n) as [<- | H7]; [by rewrite !orb_true_r |]. f_equal. unfold wrap. destruct (Z.lt_ge_cases n 7).
  - rewrite !Z.mod_pow2_bits_low by lia. done.
  - rewrite (Z.mod_small (val mod 2 ^ 7)) by (pose proof (Z.mod_pos_bound val (2 ^ 7) ltac:(lia)); lia). rewrite !Z.mod_pow2_bits_high by lia. done.
Qed.

Lemma put_varint_vless fuel : forall val, 0 <= val < 2 ^ (7 * Z.of_nat fuel) -> (0 < fuel)%nat -> Vless.put_varint_loop fuel val = Ok (put_varint_loop fuel val).
Proof.
  induction fuel as [| fuel IH]; intros val Hv Hf; [lia |]. cbn [put_varint_loop Vless.put_varint_loop]. rewrite Z.shiftr_div_pow2 by lia. change (2 ^ 7) with 128.
  change 0x7F with (Z.ones 7). rewrite Z.land_ones by lia. change (2 ^ 7) with 128. destruct (Z.geb_spec val 128) as [Hg | Hg].
  - assert (Hd : 0 < val / 128) by (apply Z.div_str_pos; lia). rewrite (proj2 (Z.eqb_neq _ 0)) by lia.
    rewrite IH; [| split; [lia |] | destruct fuel; [cbn in Hv; lia | lia]].
    + cbn. f_equal. f_equal. apply group_bits.
    + apply Z.div_lt_upper_bound; [lia |]. replace (7 * Z.of_nat (S fuel)) with (7 + 7 * Z.of_nat fuel) in Hv by lia. rewrite Z.pow_add_r in Hv by lia. change (2 ^ 7) with 128 in Hv. lia.
  - rewrite Z.div_small, Z.mod_small by lia. done.
Qed.

Lemma put_varint_loop_ok fuel v rest : 0 <= v < 2 ^ 64 -> 2 ^ 64 <= 2 ^ (7 * Z.of_nat fuel) -> (0 < fuel)%nat ->
  get_varint (put_varint_loop fuel v ++ rest) = Some (v, zlen (put_varint_loop fuel v)) /\ 0 < zlen (put_varint_loop fuel v) <= Z.of_nat fuel.
Proof.
  intros Hv Hf Hn. destruct (varint_loop_roundtrip fuel v 0 0 0 rest) as (bs & Hp & Hr & Hl & _); [lia | lia | cbn; lia | lia | cbn; lia | lia |].
  rewrite put_varint_vless in Hp by lia. injection Hp as <-. split; [| exact Hl]. unfold get_varint. rewrite get_varint_vless, Hr by lia.
  f_equal. f_equal; lia.
Qed.

Lemma put_varint_ok v rest : 0 <= v < 2 ^ 64 -> get_varint (put_varint v ++ rest) = Some (v, zlen (put_varint v)) /\ 0 < zlen (put_varint v) <= 10.
Proof. intros Hv. by apply (put_varint_loop_ok 10); [| | lia]. Qed.

Lemma varint_len_ok fuel : forall v, 0 <= v < 2 ^ (7 * Z.of_nat fuel) -> (0 < fuel)%nat -> varint_len fuel v = zlen (put_varint_loop fuel v).
Proof.
  induction fuel as [| fuel IH]; intros v Hv Hf; [lia |]. cbn [put_varint_loop varint_len]. rewrite Z.shiftr_div_pow2 by lia. change (2 ^ 7) with 128.
  destruct (Z.geb_spec v 0x80) as [Hg | Hg].
  - assert (Hd : 0 < v / 128) by (apply Z.div_str_pos; lia). rewrite (proj2 (Z.eqb_neq _ 0)) by lia. rewrite zlen_cons.
    rewrite IH; [lia | split; [lia |] | destruct fuel; [cbn in Hv; lia | lia]].
    apply Z.div_lt_upper_bound; [lia |]. replace (7 * Z.of_nat (S fuel)) with (7 + 7 * Z.of_nat fuel) in Hv by lia. rewrite Z.pow_add_r in Hv by lia. change (2 ^ 7) with 128 in Hv. lia.
  - rewrite Z.div_small by lia. done.
Qed.

(** * What a frame is read as *)

(** The frame of one payload. *)
Definition gun_frame (p : bytes) : bytes := encode_grpc_frame (append_hunk p).

Definition frames (ps : list bytes) : bytes := concat (gun_frame <$> ps).

(** A payload whose message is not longer than a reader takes. *)
Definition fits (p : bytes) : Prop := zlen (append_hunk p) <= MAX_MESSAGE_SIZE.

#[global] Instance fits_dec p : Decision (fits p).
Proof. unfold fits. apply _. Defined.

Lemma hunk_len p : zlen p < 2 ^ 64 -> zlen (append_hunk p) = 1 + varint_len 10 (zlen p) + zlen p.
Proof. intros Hp. pose proof (zlen_nonneg p). unfold append_hunk. rewrite zlen_cons, zlen_app, varint_len_ok by (cbn; lia). unfold put_varint. lia. Qed.

Lemma fits_len p : fits p -> zlen p <= MAX_MESSAGE_SIZE.
Proof. unfold fits, append_hunk. rewrite zlen_cons, zlen_app. pose proof (zlen_nonneg (put_varint (zlen p))). lia. Qed.

Lemma decode_hunk_ok p : fits p -> decode_hunk (append_hunk p) = Ok p.
Proof.
  intros Hf%fits_len. pose proof (zlen_nonneg p). unfold MAX_MESSAGE_SIZE in Hf. destruct (put_varint_ok (zlen p) p ltac:(lia)) as [Hg Hl].
  unfold append_hunk, decode_hunk. change (negb (0x0A =? 0x0A)) with false. cbn match. rewrite Hg. cbn [ok_or mbind res_bind]. set (k := zlen (put_varint (zlen p))) in *.
  unfold wrap. rewrite Z.mod_small by lia. rewrite zlen_cons, zlen_app. fold k. destruct (Z.ltb_spec (1 + (k + zlen p)) (1 + k + zlen p)); [lia |].
  replace (1 + k + zlen p) with (1 + k + zlen p) by lia. change (0x0A :: put_varint (zlen p) ++ p) with ((0x0A :: put_varint (zlen p)) ++ p).
  rewrite <- (app_nil_r p) at 2. rewrite (slice_app3 (0x0A :: put_varint (zlen p)) p []); [done | unfold k; by rewrite zlen_cons | unfold k; rewrite zlen_cons; lia].
Qed.

Lemma gun_frame_len p : zlen (gun_frame p) = 5 + zlen (append_hunk p).
Proof. unfold gun_frame, encode_grpc_frame, append_grpc_frame_prefix. rewrite zlen_app, zlen_cons, zlen_be_bytes. lia. Qed.

Lemma app_cut {A} (l1 l2 h t : list A) : l1 ++ l2 = h ++ t -> (length h <= length l1)%nat -> exists r, l1 = h ++ r /\ r ++ l2 = t.
Proof.
  intros E Hl. exists (drop (length h) l1). assert (Ht : take (length h) l1 = h) by (rewrite <- (take_app_le l1 l2) by done; rewrite E; apply take_app_length).
  split; [by rewrite <- Ht at 1; rewrite take_drop |]. rewrite <- (drop_app_le l1 l2) by done. rewrite E. apply drop_app_length.
Qed.

(** A buffer with a whole header. *)
Lemma decode_frame_header len part : 0 <= len < 2 ^ 32 ->
  decode_grpc_frame (append_grpc_frame_prefix len ++ part)
  = if len >? MAX_MESSAGE_SIZE then Err (Transport "gRPC: message too large")
    else if zlen part <? len then Ok None else Ok (Some (take (Z.to_nat len) part, drop (Z.to_nat len) part)).
Proof.
  intros Hlen. unfold append_grpc_frame_prefix, wrap. rewrite Z.mod_small by lia. unfold decode_grpc_frame.
  pose proof (zlen_nonneg part). assert (Hz : zlen ((0 :: be_bytes 4 len) ++ part) = 5 + zlen part) by (rewrite zlen_app, zlen_cons, zlen_be_bytes; lia).
  rewrite Hz. unfold FRAME_HEADER_LEN. destruct (Z.ltb_spec (5 + zlen part) 5); [lia |]. cbn [app].
  change (idx (0 :: be_bytes 4 len ++ part) 0) with (Ok (E := ProxyError) 0). cbn [mbind res_bind]. change (negb (0 =? 0x00)) with false. cbn match.
  change (0 :: be_bytes 4 len ++ part) with ([0] ++ be_bytes 4 len ++ part). rewrite (slice_app3 [0] (be_bytes 4 len) part) by (rewrite ?zlen_be_bytes; done).
  cbn [mbind res_bind]. rewrite be_val_be_bytes by (cbn; lia). destruct (len >? MAX_MESSAGE_SIZE); [done |].
  destruct (Z.ltb_spec (5 + zlen part) (5 + len)), (Z.ltb_spec (zlen part) len); try lia; [done |].
  assert (Hd : forall k, drop (5 + k) ([0] ++ be_bytes 4 len ++ part) = drop k part).
  { intros k. rewrite <- drop_drop. by f_equal. }
  change ((0 :: be_bytes 4 len) ++ part) with ([0] ++ be_bytes 4 len ++ part) in Hz. unfold slice. rewrite !bool_decide_true by lia. cbn [andb mbind res_bind].
  replace (5 + len - 5) with len by lia. rewrite (Hd 0%nat : drop (Z.to_nat 5) _ = part). replace (Z.to_nat (5 + len)) with (5 + Z.to_nat len)%nat by lia.
  rewrite Hd. done.
Qed.

(** A buffer that holds the beginning of a stream of frames. *)
Lemma decode_frame_ok recv inc p ps : fits p -> recv ++ inc = frames (p :: ps) ->
  if zlen recv <? zlen (gun_frame p) then decode_grpc_frame recv = Ok None /\ inc <> []
  else exists rest, decode_grpc_frame recv = Ok (Some (append_hunk p, rest)) /\ rest ++ inc = frames ps /\ (length rest + 5 <= length recv)%nat.
Proof.
  intros Hf E. unfold frames in E. cbn [fmap list_fmap concat] in E. fold (frames ps) in E. pose proof (zlen_nonneg (append_hunk p)) as H0. rewrite gun_frame_len.
  assert (Hinc : zlen recv < 5 + zlen (append_hunk p) -> inc <> []).
  { intros Hl ->. rewrite app_nil_r in E. rewrite E, zlen_app, gun_frame_len in Hl. pose proof (zlen_nonneg (frames ps)). lia. }
  destruct (Z.lt_ge_cases (zlen recv) 5) as [H5 | H5].
  { rewrite (proj2 (Z.ltb_lt _ _)) by lia. split; [| apply Hinc; lia]. unfold decode_grpc_frame, FRAME_HEADER_LEN. by rewrite (proj2 (Z.ltb_lt _ _)). }
  unfold gun_frame, encode_grpc_frame in E. rewrite <- app_assoc in E. unfold fits, MAX_MESSAGE_SIZE in Hf.
  assert (Hh : length (append_grpc_frame_prefix (zlen (append_hunk p))) = 5%nat) by (unfold append_grpc_frame_prefix; cbn [length]; by rewrite length_be_bytes).
  assert (Hz5 : zlen (append_grpc_frame_prefix (zlen (append_hunk p))) = 5) by (unfold zlen at 1; by rewrite Hh).
  destruct (app_cut _ _ _ _ E ltac:(unfold zlen in H5; lia)) as (part & -> & E2). rewrite decode_frame_header by lia.
  destruct (Z.gtb_spec (zlen (append_hunk p)) MAX_MESSAGE_SIZE) as [Hg | _]; [unfold MAX_MESSAGE_SIZE in Hg; lia |]. rewrite zlen_app in Hinc |- *. rewrite Hz5 in Hinc |- *.
  destruct (Z.ltb_spec (zlen part) (zlen (append_hunk p))) as [Hs | Hs]; [rewrite (proj2 (Z.ltb_lt _ _)) by lia; split; [done | apply Hinc; lia] |].
  rewrite (proj2 (Z.ltb_ge _ _)) by lia. destruct (app_cut _ _ _ _ E2 ltac:(unfold zlen in Hs; lia)) as (rest & -> & E3). exists rest.
  unfold zlen at 1 2. rewrite Nat2Z.id, take_app_length, drop_app_length. split_and!; [done | done |]. rewrite !length_app. lia.
Qed.

(** * The reader *)

(** The reader still has to give out [d]. *)
Definition grpc_carries (r : GrpcReader) (d : bytes) : Prop :=
  exists ps, Forall fits ps /\ gr_recv r ++ incoming (gr_inner r) = frames ps /\ d = gr_read r ++ concat ps.

Lemma serve_ok fuel : forall cap r d, 1 <= cap -> grpc_carries r d -> (length (gr_recv r) < fuel)%nat ->
  exists r' s, serve_decoded_frames fuel cap r = Ok (r', s) /\ gr_inner r' = gr_inner r
    /\ match s with
       | Gave out => zlen out <= cap /\ out <> [] /\ exists d', d = out ++ d' /\ grpc_carries r' d'
       | MoreData => grpc_carries r' d /\ gr_read r' = [] /\ (incoming (gr_inner r) = [] -> d = [])
       | Undecodable => False
       end.
Proof.
  induction fuel as [| fuel IH]; intros cap r d Hcap Hd Hf; [lia |]. cbn [serve_decoded_frames].
  destruct (Z.eqb_spec (zlen (gr_read r)) 0) as [Hz | Hz]; cbn [negb].
  - destruct Hd as (ps & Hps & E & ->). assert (Hn : gr_read r = []) by (apply nil_length_inv; unfold zlen in Hz; lia). rewrite Hn. cbn [app].
    destruct ps as [| p ps].
    + apply app_eq_nil in E as [E1 E2]. exists r, MoreData. rewrite E1. split_and!; [done | done | | done | done]. exists []. by rewrite E1, E2, Hn.
    + apply Forall_cons_iff in Hps as [Hp Hps]. pose proof (decode_frame_ok _ _ _ _ Hp E) as Hdec.
      destruct (Z.ltb_spec (zlen (gr_recv r)) (zlen (gun_frame p))).
      * destruct Hdec as [-> Hne]. exists r, MoreData. split_and!; [done | done | | done | done]. exists (p :: ps). rewrite Hn. split; [by constructor | done].
      * destruct Hdec as (rest & -> & E2 & Hl). cbn [gr_inner gr_read]. rewrite (proj2 (Z.eqb_neq _ 0)) by (unfold append_hunk; rewrite zlen_cons; pose proof (zlen_nonneg (put_varint (zlen p) ++ p)); lia).
        rewrite decode_hunk_ok by done. apply (IH cap (mkGrpcReader (gr_inner r) rest p)); [done | | cbn [gr_recv]; lia]. by exists ps.
  - destruct Hd as (ps & Hps & E & ->). eexists _, _. split; [done |]. split; [done |]. cbn beta iota. split_and!.
    + unfold zlen in *. rewrite length_take. lia.
    + intros H%(f_equal length). rewrite length_take in H. unfold zlen in *. cbn in H. lia.
    + eexists. split; [by rewrite app_assoc, take_drop | by exists ps].
Qed.

(** A piece from a stream with bytes to come. *)
Lemma inner_piece_ok v evs : clean evs ->
  exists evs' o, inner_piece v evs = (evs', o) /\ clean evs'
    /\ match o with
       | Ready (Some d) => incoming evs = d ++ incoming evs' /\ waits evs' = waits evs /\ (events_size evs' < events_size evs)%nat
       | Ready None => incoming evs = [] /\ evs' = evs
       | Pending => incoming evs' = incoming evs /\ waits evs = S (waits evs')
       | Failed _ => False
       end.
Proof.
  intros Hc. destruct v; cbn [inner_piece].
  - destruct (decide (incoming evs = [])) as [Hi | Hi].
    + destruct (inner_read_end BRIDGE_READ_CHUNK evs Hc Hi) as [[-> ->] | (evs' & -> & Hc' & Hi' & Hw)]; [by eexists _, _ |].
      eexists _, _. split; [done |]. split; [done |]. by rewrite Hi, Hi'.
    + destruct (inner_read_ok BRIDGE_READ_CHUNK evs ltac:(unfold BRIDGE_READ_CHUNK; lia) Hc Hi) as (evs' & Hc' & [(-> & ? & ? & ?) | (b & x & -> & ? & ? & ?)]); eexists _, _; (split; [done |]); (split; [done |]); cbn beta iota; split_and!; try done. cbn [length] in *. lia.
  - destruct evs as [| [d | |] evs]; [by eexists _, _ | | | by apply Forall_cons_iff in Hc as [[] _]]; apply Forall_cons_iff in Hc as [_ Hc]; eexists _, _; (split; [done |]); (split; [done |]); cbn beta iota; split_and!; try done.
    unfold events_size. cbn [fmap list_fmap sum_list_with event_size id]. lia.
Qed.

Lemma grpc_read_loop_ok v cap fuel : 1 <= cap -> forall r d, clean (gr_inner r) -> grpc_carries r d -> (events_size (gr_inner r) < fuel)%nat ->
  exists r' o, grpc_read_loop fuel v cap r = Ok (r', o) /\ read_post gr_inner grpc_carries cap (waits (gr_inner r)) d (Some (r', o)).
Proof.
  intros Hcap. induction fuel as [| fuel IH]; intros r d Hc Hd Hf; [lia |]. cbn [grpc_read_loop].
  destruct (serve_ok (S (S (length (gr_recv r)))) cap r d Hcap Hd ltac:(lia)) as (r1 & s & -> & Hi & Hs). cbn [mbind res_bind].
  destruct s as [out | |]; [| | done].
  - destruct Hs as (Hl & Hne & d' & -> & Hd'). eexists _, _. split; [done |]. cbn [read_post]. rewrite Hi. split_and!; [done | done | done |]. exists d'. by split_and!.
  - destruct Hs as (Hd1 & Hn & Hend). rewrite <- Hi in *. destruct (inner_piece_ok v (gr_inner r1) Hc) as (evs & o & -> & Hc' & Ho).
    destruct Hd1 as (ps & Hps & E & Ed). destruct o as [[x |] | |]; [| | | done].
    + destruct Ho as (Hinc & Hw & Hsz). rewrite <- Hw. apply (IH (mkGrpcReader evs (gr_recv r1 ++ x) (gr_read r1))); [done | | cbn [gr_inner]; lia].
      exists ps. cbn [gr_recv gr_inner gr_read]. rewrite <- app_assoc, <- Hinc. by split_and!.
    + destruct Ho as [Hinc ->]. eexists _, _. split; [done |]. cbn [read_post gr_inner]. rewrite (Hend Hinc) in *. split_and!; [done | done | len_solve |].
      exists []. split_and!; [done | | done]. by exists ps.
    + destruct Ho as [Hinc Hw]. eexists _, _. split; [done |]. cbn [read_post gr_inner]. split_and!; [done | done |]. exists ps. cbn [gr_recv gr_inner gr_read]. by rewrite Hinc.
Qed.

(** Panics and errors of decoding are no result of a poll. *)
#[global] Instance GrpcReader_reader (v : Inner) : AsyncReader GrpcReader :=
  { rd_poll cap r := match grpc_poll_read v cap r with Ok x => Some x | _ => None end; rd_inner := gr_inner }.

#[global] Instance GrpcReader_spec (v : Inner) : @ReaderSpec GrpcReader (GrpcReader_reader v) grpc_carries.
Proof.
  intros cap r d Hcap Hc Hd. cbn [rd_inner rd_poll GrpcReader_reader] in *. unfold grpc_poll_read.
  destruct (grpc_read_loop_ok v cap (S (events_size (gr_inner r))) Hcap r d Hc Hd ltac:(lia)) as (r' & o & -> & Hp). exact Hp.
Qed.

(** * The writer *)

(** [accepted] is framed, or waits to be framed. *)
Definition grpc_wrote (w : GrpcWriter) (accepted : bytes) : Prop :=
  (exists ps, Forall fits ps /\ gw_sent w ++ gw_buf w = frames ps /\ concat ps ++ gw_plain w = accepted) /\ zlen (gw_plain w) < COALESCE_TARGET_BYTES.

Lemma encode_empty fuel force buf : encode_pending_loop fuel force [] buf = ([], buf).
Proof. by destruct fuel. Qed.

(** All that is pending goes into one frame, unless it waits for more. *)
Lemma encode_small force plain buf : zlen plain + 16 <= MAX_MESSAGE_SIZE ->
  fits plain /\ zlen (gun_frame plain) <= 16 + zlen plain
  /\ encode_pending_loop (length plain) force plain buf
     = if negb (zlen plain =? 0) && (force || (zlen plain >=? COALESCE_TARGET_BYTES)) then ([], buf ++ gun_frame plain) else (plain, buf).
Proof.
  intros Hl. pose proof (zlen_nonneg plain). unfold MAX_MESSAGE_SIZE in Hl. destruct (put_varint_ok (zlen plain) [] ltac:(lia)) as [_ Hv].
  assert (Hh : zlen (append_hunk plain) <= 11 + zlen plain) by (unfold append_hunk; rewrite zlen_cons, zlen_app; lia). split; [unfold fits, MAX_MESSAGE_SIZE; lia |].
  split; [rewrite gun_frame_len; lia |]. destruct (length plain) as [| fuel] eqn:El; [by destruct plain |].
  cbn [encode_pending_loop]. destruct (_ && _); [| done]. rewrite Z.min_l by (unfold MAX_MESSAGE_SIZE; lia). rewrite take_ge, drop_ge by (unfold zlen; lia).
  rewrite encode_empty. do 2 f_equal. unfold gun_frame, encode_grpc_frame. rewrite <- hunk_len by lia. done.
Qed.

Lemma frames_snoc ps p : frames (ps ++ [p]) = frames ps ++ gun_frame p.
Proof. unfold frames. rewrite fmap_app, concat_app. cbn. by rewrite app_nil_r. Qed.

(** The slots of the stream underneath that are needed for what is buffered, pending, and [more]. *)
Definition grpc_enough (w : GrpcWriter) (more : nat) : Prop :=
  Forall willing (gw_sink w) /\ (length (gw_buf w) + 17 * (length (gw_plain w) + more) <= accepts (gw_sink w))%nat.

Lemma encode_wrote force w accepted more :
  (exists ps, Forall fits ps /\ gw_sent w ++ gw_buf w = frames ps /\ concat ps ++ gw_plain w = accepted) -> zlen (gw_plain w) + 16 <= MAX_MESSAGE_SIZE ->
  let w' := encode_pending_plain_into_frames force w in
  grpc_wrote w' accepted /\ gw_sink w' = gw_sink w /\ (force = true -> gw_plain w' = []) /\ (grpc_enough w more -> grpc_enough w' more).
Proof.
  intros (ps & Hps & Es & Ec) Hl. destruct (encode_small force (gw_plain w) (gw_buf w) Hl) as (Hf & Hz & E). unfold encode_pending_plain_into_frames. rewrite E.
  assert (Hf17 : zlen (gw_plain w) <> 0 -> (length (gun_frame (gw_plain w)) <= 17 * length (gw_plain w))%nat) by (unfold zlen in *; lia).
  destruct (Z.eqb_spec (zlen (gw_plain w)) 0) as [H0 | H0]; cbn [negb andb].
  { split_and!; [| done | | done]; [split; [by exists ps | cbn [gw_plain]; rewrite H0; done] |]. intros _. cbn [gw_plain]. apply nil_length_inv. unfold zlen in H0. lia. }
  destruct (force || _) eqn:Ef; cbn [gw_plain gw_sent gw_buf gw_sink].
  - split_and!; [split; [| done] | done | done |].
    + exists (ps ++ [gw_plain w]). cbn [gw_plain gw_sent gw_buf]. rewrite frames_snoc, concat_app, app_assoc, Es. cbn. rewrite !app_nil_r. split_and!; [apply Forall_app; by repeat constructor | done | done].
    + intros [Hw Ha]. split; [done |]. cbn [gw_plain gw_buf gw_sink]. rewrite length_app. cbn [length]. specialize (Hf17 H0). lia.
  - apply orb_false_iff in Ef as [-> Ef]. split_and!; [split; [by exists ps |] | done | done | done]. cbn [gw_plain]. rewrite Z.geb_leb in Ef. apply Z.leb_gt in Ef. done.
Qed.

Lemma capacity_willing v evs : Forall willing evs -> capacity v <$> evs = evs.
Proof.
  induction 1 as [| ev evs Hev _ IH]; [done |]. cbn [fmap list_fmap]. rewrite IH. f_equal. destruct v; [by destruct ev |]. destruct ev as [n | |]; try done.
  cbn in *. by rewrite (proj2 (Z.leb_gt _ _)) by lia.
Qed.

Lemma write_out_wrote v w accepted : grpc_wrote w accepted -> forall w' r, write_out v w = (w', r) -> grpc_wrote w' accepted /\ gw_plain w' = gw_plain w /\ (r = Empty -> gw_buf w' = []).
Proof.
  intros [(ps & Hps & Es & Ec) Hl] w' r. unfold write_out. destruct (drain _ _ _) as [[[sink buf] sent] r'] eqn:E. intros [= <- <-].
  pose proof (drain_ok _ _ _ _ _ _ _ E) as Hd. split_and!; [split; [| done] | done |].
  - exists ps. cbn [gw_sent gw_buf gw_plain]. by rewrite Hd.
  - intros ->. by apply drain_empty in E.
Qed.

Lemma write_out_live v w more : grpc_enough w more ->
  exists w' r, write_out v w = (w', r) /\ grpc_enough w' more
    /\ (r = Empty /\ (length (gw_sink w') <= length (gw_sink w))%nat \/ r = Waiting /\ (length (gw_sink w') < length (gw_sink w))%nat).
Proof.
  intros [Hw Ha]. unfold write_out. rewrite capacity_willing by done.
  destruct (drain_live _ Hw (gw_buf w) (gw_sent w) ltac:(lia)) as (evs & buf & sent & r & -> & H1 & H2 & H3). eexists _, _. split; [done |].
  split; [| exact H3]. split; [done |]. cbn [gw_buf gw_plain gw_sink]. lia.
Qed.

#[global] Instance GrpcWriter_writer (v : Inner) : AsyncWriter GrpcWriter := { wr_write := grpc_poll_write v; wr_flush := grpc_poll_flush v }.

(** The longest write whose frame, with what waits before it, a reader takes. *)
Definition MAX_WRITE : Z := MAX_MESSAGE_SIZE - COALESCE_TARGET_BYTES - 16.

Definition op_small (op : WriteOp) : Prop := match op with WWrite buf => zlen buf <= MAX_WRITE | WFlush => True end.

#[global] Instance op_small_dec op : Decision (op_small op).
Proof. destruct op; cbn; apply _. Defined.

(** What the caller writes. *)
Definition written (ops : list WriteOp) : bytes := concat ((fun op => match op with WWrite buf => buf | WFlush => [] end) <$> ops).

Section runs.
Context (v : Inner).

Lemma grpc_write_ok buf w accepted more : zlen buf <= MAX_WRITE -> grpc_wrote w accepted -> grpc_enough w (length buf + more) ->
  exists w', grpc_poll_write v buf w = (w', Ready (zlen buf)) /\ grpc_wrote w' (accepted ++ buf) /\ grpc_enough w' more /\ (length (gw_sink w') <= length (gw_sink w))%nat.
Proof.
  intros Hb [(ps & Hps & Es & Ec) Hl] [Hw Ha]. unfold grpc_poll_write. unfold MAX_WRITE, COALESCE_TARGET_BYTES in *. pose proof (zlen_nonneg buf). rewrite Z.min_l by lia.
  rewrite take_ge by (unfold zlen; lia). set (w1 := mkGrpcWriter _ _ _ _). destruct (encode_wrote false w1 (accepted ++ buf) more) as (H1 & H2 & _ & H4).
  - exists ps. cbn. by rewrite app_assoc, Ec.
  - cbn [gw_plain w1]. rewrite zlen_app. lia.
  - destruct (write_out_live v _ more (H4 ltac:(split; [done | cbn [gw_plain gw_buf gw_sink w1]; rewrite length_app; lia]))) as (w' & r & E & He & Hr).
    destruct (write_out_wrote v _ _ H1 _ _ E) as (Hwr & _ & _). rewrite E, H2 in *. cbn [gw_sink w1] in Hr. exists w'. destruct Hr as [[-> ?] | [-> ?]]; split_and!; (done || lia).
Qed.

Lemma grpc_flush_ok w accepted more : grpc_wrote w accepted -> grpc_enough w more ->
  exists w' o, grpc_poll_flush v w = (w', o) /\ grpc_wrote w' accepted /\ grpc_enough w' more
    /\ match o with
       | Ready _ => gw_buf w' = [] /\ gw_plain w' = [] /\ (length (gw_sink w') <= length (gw_sink w))%nat
       | Pending => (length (gw_sink w') < length (gw_sink w))%nat
       | Failed _ => False
       end.
Proof.
  intros [Hw Hl] He. unfold grpc_poll_flush. destruct (encode_wrote true w accepted more Hw) as (H1 & H2 & H3 & H4); [unfold COALESCE_TARGET_BYTES, MAX_MESSAGE_SIZE in *; lia |].
  destruct (write_out_live v _ more (H4 He)) as (w' & r & E & He' & Hr). destruct (write_out_wrote v _ _ H1 _ _ E) as (Hwr & Hp & Hb). rewrite E, H2, H3 in * by done.
  destruct Hr as [[-> ?] | [-> ?]]; eexists _, _; (split; [done |]); (split; [done |]); (split; [done |]); [by split_and!; [apply Hb | |] | done].
Qed.

Lemma grpc_run_ok ops : Forall op_small ops -> forall w accepted more, grpc_wrote w accepted -> grpc_enough w (length (written ops) + more) ->
  exists w', write_run (H := GrpcWriter_writer v) ops w accepted = Some (w', accepted ++ written ops) /\ grpc_wrote w' (accepted ++ written ops) /\ grpc_enough w' more
    /\ (length (gw_sink w') <= length (gw_sink w))%nat.
Proof.
  induction 1 as [| op ops Hop _ IH]; intros w accepted more Hw He; cbn [write_run].
  { exists w. change (written []) with (@nil Z). by rewrite app_nil_r. }
  assert (Ew : written (op :: ops) = (match op with WWrite buf => buf | WFlush => [] end) ++ written ops) by done. rewrite Ew, app_assoc. rewrite Ew, length_app in He.
  destruct op as [buf |]; cbn [wr_write wr_flush GrpcWriter_writer].
  - destruct (grpc_write_ok buf w accepted (length (written ops) + more) Hop Hw) as (w1 & -> & H1 & H2 & H3); [by rewrite Nat.add_assoc |].
    rewrite take_ge by (unfold zlen; lia). destruct (IH w1 (accepted ++ buf) more H1 H2) as (w2 & ? & ? & ? & ?). exists w2. split_and!; (done || lia).
  - destruct (grpc_flush_ok w accepted _ Hw He) as (w1 & o & -> & H1 & H2 & H3). rewrite app_nil_r. destruct (IH w1 accepted more H1 H2) as (w2 & ? & ? & ? & ?).
    exists w2. destruct o; [| | done]; split_and!; (done || lia).
Qed.

(** [flush().await]. *)
Fixpoint grpc_flush (fuel : nat) (w : GrpcWriter) : option GrpcWriter :=
  match fuel with
  | O => None
  | S fuel =>
      match grpc_poll_flush v w with
      | (w, Ready _) => Some w
      | (w, Pending) => grpc_flush fuel w
      | (_, Failed _) => None
      end
  end.

Lemma grpc_flush_ends fuel : forall w accepted, grpc_wrote w accepted -> grpc_enough w 0 -> (length (gw_sink w) < fuel)%nat ->
  exists w', grpc_flush fuel w = Some w' /\ grpc_wrote w' accepted /\ gw_buf w' = [] /\ gw_plain w' = [].
Proof.
  induction fuel as [| fuel IH]; intros w accepted Hw He Hf; [lia |]. cbn [grpc_flush]. destruct (grpc_flush_ok w accepted 0 Hw He) as (w1 & o & -> & H1 & H2 & H3).
  destruct o as [[] | |]; [| | done]; [destruct H3 as (? & ? & _); by exists w1 |]. apply IH; [done | done | lia].
Qed.

End runs.

(** C15. The gRPC tunnel from end to end, over HTTP/2 and over any stream.  Whatever is written and flushed in between, with writes of at most 16 MiB less what may
    wait in front of them, and however the stream below takes it: every write is accepted, the flush at the end completes, and a reader at
    the other end, which gets the bytes in any pieces and with any waits, and reads with buffers of any size, gets exactly the
    bytes written. *)
Theorem grpc_stream (v v' : Inner) (ops : list WriteOp) (sink : list WriteEvent) :
  Forall op_small ops -> Forall willing sink -> (17 * length (written ops) <= accepts sink)%nat ->
  exists w w', write_run (H := GrpcWriter_writer v) ops (grpc_writer_new sink) [] = Some (w, written ops)
    /\ grpc_flush v (S (length sink)) w = Some w'
    /\ forall evs caps, clean evs -> incoming evs = gw_sent w' -> Forall (Z.le 1) caps ->
         reads_all (H := GrpcReader_reader v') caps (grpc_reader_new evs) (written ops).
Proof.
  intros Hops Hs Ha. destruct (grpc_run_ok v ops Hops (grpc_writer_new sink) [] 0) as (w & E & Hw & He & Hl).
  - split; [by exists [] | done].
  - split; [done |]. cbn [grpc_writer_new gw_buf gw_plain gw_sink length]. lia.
  - destruct (grpc_flush_ends v (S (length sink)) w _ Hw He ltac:(cbn in Hl; lia)) as (w' & E' & [(ps & Hps & Es & Ec) _] & Hb & Hp). exists w, w'. split_and!; [done | done |].
    intros evs caps Hc Hi Hcaps. apply (carries_reads_all (carries := grpc_carries)); [done | done |]. exists ps. cbn [grpc_reader_new gr_recv gr_inner gr_read app].
    rewrite Hb, Hp, app_nil_r in *. by rewrite Hi.
Qed.

(** * Any peer *)

Lemma decode_frame_total buf : match decode_grpc_frame buf with Ok (Some (_, rest)) => (length rest < length buf)%nat | Ok None | Err _ => True | Panic => ~ bytes_ok buf | NoFuel => False end.
Proof.
  unfold decode_grpc_frame, FRAME_HEADER_LEN. destruct (Z.ltb_spec (zlen buf) 5) as [| H5]; [done |]. destruct buf as [| b0 [| b1 [| b2 [| b3 [| b4 buf]]]]]; try (unfold zlen in H5; cbn in H5; lia).
  change (idx (b0 :: b1 :: b2 :: b3 :: b4 :: buf) 0) with (Ok (E := ProxyError) b0). cbn [mbind res_bind]. destruct (negb _); [done |].
  change (b0 :: b1 :: b2 :: b3 :: b4 :: buf) with ([b0] ++ [b1; b2; b3; b4] ++ buf). rewrite (slice_app3 [b0] [b1; b2; b3; b4] buf) by done. cbn [mbind res_bind].
  destruct (_ >? _); [done |]. destruct (Z.ltb_spec (zlen ([b0] ++ [b1; b2; b3; b4] ++ buf)) (5 + be_val [b1; b2; b3; b4])) as [| Hl]; [done |].
  unfold slice. destruct (decide (0 <= be_val [b1; b2; b3; b4])) as [H0 | H0].
  - rewrite !bool_decide_true by lia. cbn [andb mbind res_bind]. rewrite length_drop. cbn [app length]. lia.
  - rewrite (bool_decide_false (5 <= _)) by lia. cbn [andb mbind res_bind]. rewrite andb_false_r. intros Hb. apply H0. apply be_val_bound. unfold bytes_ok in *. rewrite !Forall_app in Hb. tauto.
Qed.

(** The end of the data does not fit into 64 bits. *)
Definition hunk_overflows (payload : bytes) : Prop :=
  exists body data_len k, payload = 0x0A :: body /\ get_varint body = Some (data_len, k) /\ 2 ^ 64 <= 1 + k + data_len.

Lemma decode_hunk_panics payload : (is_panic (decode_hunk payload) = true -> hunk_overflows payload) /\ decode_hunk payload <> NoFuel.
Proof.
  destruct payload as [| tag body]; [done |]. unfold decode_hunk. destruct (Z.eqb_spec tag 0x0A) as [-> |]; [| done]. cbn [negb].
  destruct (get_varint body) as [[data_len k] |] eqn:E; [| done]. cbn [ok_or mbind res_bind]. unfold get_varint in E. rewrite get_varint_vless in E by lia.
  pose proof (read_varint_loop_nonneg _ _ _ _ _ _ ltac:(done) ltac:(done) E) as H0. pose proof (read_varint_loop_cursor _ _ _ _ _ _ E) as Hk.
  destruct (Z.ltb_spec (zlen (10 :: body)) (wrap 64 (1 + k + data_len))) as [| Hl]; [done |]. unfold slice. split; [| by destruct (_ && _)].
  destruct (decide (1 + k + data_len < 2 ^ 64)) as [Hs | Hs].
  - unfold wrap in *. rewrite Z.mod_small in * by lia. rewrite !bool_decide_true by lia. done.
  - intros _. exists body, data_len, k. unfold get_varint. rewrite get_varint_vless by lia. split_and!; [done | done | lia].
Qed.

(** A message in the bytes of the peer whose length makes the decoder panic. *)
Definition holds_overflow (s : bytes) : Prop := exists l payload k, s = l ++ payload ++ k /\ hunk_overflows payload.

Lemma holds_overflow_app l s k : holds_overflow s -> holds_overflow (l ++ s ++ k).
Proof. intros (a & p & b & -> & Hp). exists (l ++ a), p, (b ++ k). by rewrite <- !app_assoc. Qed.

Lemma decode_frame_cut buf payload rest : decode_grpc_frame buf = Ok (Some (payload, rest)) -> exists hdr, buf = hdr ++ payload ++ rest.
Proof.
  unfold decode_grpc_frame. destruct (_ <? _); [done |]. intros (c & _ & H)%rbind_inv. destruct (negb _); [done |]. apply rbind_inv in H as (lb & _ & H).
  destruct (_ >? _); [done |]. destruct (_ <? _); [done |]. apply rbind_inv in H as (p & Hp & H). injection H as <- <-. unfold slice in Hp. set (n := be_val lb) in *.
  destruct (_ && _) eqn:Eb; [| done]. injection Hp as <-. apply andb_true_iff in Eb as [Eb E3%bool_decide_eq_true_1]. apply andb_true_iff in Eb as [_ E2%bool_decide_eq_true_1].
  exists (take 5 buf). replace (5 + n - 5) with n by lia. replace (Z.to_nat (5 + n)) with (Z.to_nat 5 + Z.to_nat n)%nat by lia.
  rewrite <- drop_drop, take_drop. by rewrite take_drop.
Qed.

Lemma serve_total fuel : forall cap r, bytes_ok (gr_recv r) -> (length (gr_recv r) < fuel)%nat ->
  match serve_decoded_frames fuel cap r with
  | Ok (r', _) => gr_inner r' = gr_inner r /\ exists l, gr_recv r = l ++ gr_recv r'
  | Panic => holds_overflow (gr_recv r)
  | _ => False
  end.
Proof.
  induction fuel as [| fuel IH]; intros cap r Hb Hf; [lia |]. cbn [serve_decoded_frames]. destruct (negb _); [split; [done |]; by exists [] |].
  pose proof (decode_frame_total (gr_recv r)) as Ht. destruct (decode_grpc_frame (gr_recv r)) as [[[payload rest] |] | | |] eqn:E; [| | | done | done].
  2,3: split; [done |]; by exists [].
  destruct (decode_frame_cut _ _ _ E) as [hdr Ec]. cbn [gr_inner gr_recv gr_read]. destruct (zlen payload =? 0).
  { split; [done |]. exists (hdr ++ payload). by rewrite <- app_assoc. }
  destruct (decode_hunk_panics payload) as [Hp Hn]. destruct (decode_hunk payload) as [data | | |]; [| | | done].
  - assert (Hb' : bytes_ok rest) by (rewrite Ec in Hb; unfold bytes_ok in *; rewrite !Forall_app in Hb; tauto).
    specialize (IH cap (mkGrpcReader (gr_inner r) rest data) Hb' ltac:(cbn [gr_recv]; lia)). cbn [gr_recv gr_inner] in IH. rewrite Ec.
    destruct (serve_decoded_frames fuel cap _) as [[r' s] | | |]; try done.
    + destruct IH as [-> [l ->]]. split; [done |]. exists (hdr ++ payload ++ l). by rewrite <- !app_assoc.
    + apply (holds_overflow_app (hdr ++ payload) rest []) in IH. by rewrite app_nil_r, <- app_assoc in IH.
  - split; [done |]. exists (hdr ++ payload). by rewrite <- app_assoc.
  - exists hdr, payload, rest. by split; [| apply Hp].
Qed.

Lemma inner_piece_any v evs evs' d : inner_piece v evs = (evs', Ready (Some d)) -> incoming evs = d ++ incoming evs' /\ (events_size evs' < events_size evs)%nat.
Proof.
  destruct v; cbn [inner_piece].
  - destruct evs as [| [x | |] evs]; cbn [inner_read]; [done | | done | done]. unfold events_size. destruct (Nat.leb_spec (length x) BRIDGE_READ_CHUNK) as [Hl | Hl].
    + destruct x; [done |]. intros [= <- <-]. split; [done |]. cbn [fmap list_fmap sum_list_with event_size id]. lia.
    + destruct (take BRIDGE_READ_CHUNK x) as [| b t] eqn:Et; [done |]. intros [= <- <-]. rewrite <- Et. split.
      * unfold incoming. cbn [fmap list_fmap concat]. by rewrite app_assoc, take_drop.
      * cbn [fmap list_fmap sum_list_with event_size id]. rewrite length_drop. unfold BRIDGE_READ_CHUNK in *. lia.
  - destruct evs as [| [x | |] evs]; [done | | done | done]. intros [= <- <-]. split; [done |]. unfold events_size. cbn [fmap list_fmap sum_list_with event_size id]. lia.
Qed.

Lemma grpc_read_loop_total v cap fuel : forall r, bytes_ok (gr_recv r ++ incoming (gr_inner r)) -> (events_size (gr_inner r) < fuel)%nat ->
  match grpc_read_loop fuel v cap r with Ok _ => True | Panic => holds_overflow (gr_recv r ++ incoming (gr_inner r)) | _ => False end.
Proof.
  induction fuel as [| fuel IH]; intros r Hb Hf; [lia |]. cbn [grpc_read_loop]. pose proof Hb as [Hb1 Hb2]%Forall_app.
  pose proof (serve_total (S (S (length (gr_recv r)))) cap r Hb1 ltac:(lia)) as Hs. destruct (serve_decoded_frames _ cap r) as [[r1 s] | | |]; cbn [mbind res_bind]; try done.
  2:{ by apply (holds_overflow_app [] _ (incoming (gr_inner r))) in Hs. }
  destruct Hs as [Hi [l El]]. destruct s; try done. destruct (inner_piece v (gr_inner r1)) as [evs [[x |] | |]] eqn:E; try done. rewrite Hi in E. destruct (inner_piece_any _ _ _ _ E) as [Einc Hsz].
  assert (Ecut : gr_recv r ++ incoming (gr_inner r) = l ++ (gr_recv r1 ++ x) ++ incoming evs) by (rewrite El, Einc, <- !app_assoc; done).
  specialize (IH (mkGrpcReader evs (gr_recv r1 ++ x) (gr_read r1))). cbn [gr_recv gr_inner] in IH. rewrite Ecut in Hb |- *.
  specialize (IH ltac:(apply Forall_app in Hb; tauto) ltac:(lia)). destruct (grpc_read_loop fuel v cap _) as [| | |]; try done.
  apply (holds_overflow_app l _ []) in IH. by rewrite app_nil_r in IH.
Qed.

(** The gRPC reader against any peer: every poll ends, and it panics only when the bytes of the peer hold a message whose length, with what is in
    front of it, does not fit into 64 bits. *)
Theorem grpc_read_total (v : Inner) (cap : Z) (r : GrpcReader) :
  bytes_ok (gr_recv r ++ incoming (gr_inner r)) ->
  match grpc_poll_read v cap r with Ok _ => True | Panic => holds_overflow (gr_recv r ++ incoming (gr_inner r)) | _ => False end.
Proof. intros Hb. apply grpc_read_loop_total; [done | lia]. Qed.

(** Such a message is 16 bytes long, and the first read of the tunnel panics on it, before anyone is authenticated. *)
Definition overflowing_frame : bytes := encode_grpc_frame (0x0A :: replicate 9 0xFF ++ [0x01]).

Theorem grpc_hunk_panics (v : Inner) : grpc_poll_read v 1 (grpc_reader_new [PData overflowing_frame]) = Panic.
Proof. by destruct v; vm_compute. Qed.

(** An empty message, which is an empty [Hunk] to every protobuf encoder, hides the frames that came with it: the reader waits for more, and at the
    end of the stream it drops them. *)
Theorem grpc_empty_message_loses (v : Inner) :
  let piece := PData (encode_grpc_frame [] ++ gun_frame [65]) in
  (exists r, grpc_poll_read v 1 (grpc_reader_new [piece; PPending]) = Ok (r, Pending))
  /\ exists r, grpc_poll_read v 1 (grpc_reader_new [piece]) = Ok (r, Ready []) /\ gr_recv r = gun_frame [65].
Proof. destruct v; vm_compute; split; eexists; done. Qed.

(** A write of 16 MiB is accepted and becomes one frame, which the reader of the same program refuses as too large. *)
Theorem grpc_large_write (v : Inner) (buf : bytes) : zlen buf = MAX_MESSAGE_SIZE ->
  exists w, grpc_poll_write v buf (grpc_writer_new []) = (w, Ready (zlen buf)) /\ decode_grpc_frame (gw_buf w) = Err (Transport "gRPC: message too large").
Proof.
  intros Hl. unfold grpc_poll_write. rewrite Hl, Z.min_id, take_ge by (unfold zlen in Hl; lia). cbn [grpc_writer_new gw_plain gw_buf gw_sink gw_sent app].
  unfold encode_pending_plain_into_frames. cbn [gw_plain gw_buf gw_sink gw_sent]. destruct (length buf) as [| fuel] eqn:El; [by unfold zlen in Hl; rewrite El in Hl |].
  cbn [encode_pending_loop]. rewrite Hl. change (negb (MAX_MESSAGE_SIZE =? 0) && (false || (MAX_MESSAGE_SIZE >=? COALESCE_TARGET_BYTES))) with true. cbn match.
  rewrite Z.min_id, take_ge, drop_ge, encode_empty by (unfold zlen in Hl; lia). change (varint_len 10 MAX_MESSAGE_SIZE) with 4. cbn [app].
  exists (mkGrpcWriter [] [] [] (append_grpc_frame_prefix (1 + 4 + MAX_MESSAGE_SIZE) ++ append_hunk buf)). cbn [gw_buf]. split; [done |].
  by rewrite decode_frame_header.
Qed.

(** * Witnesses *)

Definition example_ops : list WriteOp := [WWrite [1; 2]; WFlush; WWrite [3]].

Lemma grpc_stream_witness :
  exists w w', write_run (H := GrpcWriter_writer OverH2) example_ops (grpc_writer_new (WPending :: replicate 60 (WAccept 1))) [] = Some (w, [1; 2; 3])
    /\ grpc_flush OverH2 62 w = Some w' /\ reads_all (H := GrpcReader_reader OverIo) [1; 5; 5; 5] (grpc_reader_new [PData (gw_sent w')]) [1; 2; 3].
Proof.
  destruct (grpc_stream OverH2 OverIo example_ops (WPending :: replicate 60 (WAccept 1)) ltac:(decided) ltac:(decided) ltac:(vm_compute; lia)) as (w & w' & E & E' & H).
  exists w, w'. split; [exact E |]. split; [exact E' |]. vm_compute in E. injection E as <-. vm_compute in E'. injection E' as <-.
  apply H; [decided | done | decided].
Defined.

Lemma grpc_read_total_witness : exists r o, grpc_poll_read OverH2 4 (grpc_reader_new [PData [1; 2; 3; 4; 5; 6]]) = Ok (r, o).
Proof.
  pose proof (grpc_read_total OverH2 4 (grpc_reader_new [PData [1; 2; 3; 4; 5; 6]]) ltac:(decided)) as H.
  destruct (grpc_poll_read OverH2 4 _) as [[r o] | | |] eqn:E; [by exists r, o | done | | done]. by vm_compute in E.
Defined.
