(* ===== verification/Ws.v ===== *)
(** The WebSocket transport ([ws.rs]): [WsStream], a byte stream over the messages of a WebSocket connection.

    The connection (handshake, frames, control messages) is a library: a stream of messages to read from, and a sink of messages with its
    [poll_ready], [start_send] and [poll_flush]. *)

From stdpp Require Import base list strings numbers.
From S2P Require Import Prelude Address Streams Chunks.

Definition WS_WRITE_BUFFER_SIZE : Z := 4 * 1024.
Definition WS_DIRECT_FRAME_MIN_SIZE : Z := 16 * 1024.

(** * Reading *)

Inductive Message := MBinary (data : bytes) | MText (data : bytes) | MClose | MPing | MPong | MFrame.

(** What a poll of the connection gives; the empty list is its end. *)
Inductive WsEvent := WsMessage (m : Message) | WsWait | WsError.

Record WsReader := mkWsReader { ws_inner : list WsEvent; ws_read : bytes; ws_closed : bool }.

Definition ws_reader_new (inner : list WsEvent) : WsReader := mkWsReader inner [] false.

(** The loop of [poll_read] with room for [cap] bytes. *)
Fixpoint ws_read_loop (cap : Z) (read_buf : bytes) (closed : bool) (inner : list WsEvent) : WsReader * poll bytes :=
  if negb (zlen read_buf =? 0) then
    let n := Z.to_nat (Z.min (zlen read_buf) cap) in
    (mkWsReader inner (drop n read_buf) closed, Ready (take n read_buf))
  else if closed then (mkWsReader inner read_buf closed, Ready [])
  else
    match inner with
    | [] => (mkWsReader [] read_buf true, Ready [])
    | WsWait :: inner => (mkWsReader inner read_buf closed, Pending)
    | WsError :: inner => (mkWsReader inner read_buf closed, Failed (Io OtherIo))
    | WsMessage (MBinary data) :: inner => ws_read_loop cap data closed inner
    | WsMessage (MText data) :: inner => ws_read_loop cap data closed inner
    | WsMessage MClose :: inner => (mkWsReader inner read_buf true, Ready [])
    | WsMessage _ :: inner => ws_read_loop cap read_buf closed inner
    end.

Definition ws_poll_read (cap : Z) (r : WsReader) : WsReader * poll bytes := ws_read_loop cap (ws_read r) (ws_closed r) (ws_inner r).

(** * Writing *)

(** The answers of the sink to the calls, in order: yes, later, or an error; [start_send] does not wait.  After the last, it waits. *)
Inductive Answer := Yes | Later | No.

Record WsWriter := mkWsWriter {
  ww_sink : list Answer;
  ww_sent : list bytes;
  ww_buf : bytes;
  ww_pending : option bytes;
}.

Definition ws_writer_new (sink : list Answer) : WsWriter := mkWsWriter sink [] [] None.

Definition ask (sink : list Answer) : Answer * list Answer := match sink with a :: sink => (a, sink) | [] => (Later, []) end.

(** [poll_ready], then [start_send] of a message. *)
Definition send_message (msg : bytes) (w : WsWriter) : WsWriter * poll unit :=
  let '(a, sink) := ask (ww_sink w) in
  match a with
  | Later => (mkWsWriter sink (ww_sent w) (ww_buf w) (ww_pending w), Pending)
  | No => (mkWsWriter sink (ww_sent w) (ww_buf w) (ww_pending w), Failed (Io OtherIo))
  | Yes =>
      let '(a, sink) := ask sink in
      match a with
      | No => (mkWsWriter sink (ww_sent w) (ww_buf w) (ww_pending w), Failed (Io OtherIo))
      | _ => (mkWsWriter sink (ww_sent w ++ [msg]) (ww_buf w) (ww_pending w), Ready ())
      end
  end.

Definition sink_flush (w : WsWriter) : WsWriter * poll unit :=
  let '(a, sink) := ask (ww_sink w) in
  (mkWsWriter sink (ww_sent w) (ww_buf w) (ww_pending w), match a with Yes => Ready () | Later => Pending | No => Failed (Io OtherIo) end).

Definition ws_poll_flush (w : WsWriter) : WsWriter * poll unit :=
  let w :=
    match ww_pending w with
    | None => if zlen (ww_buf w) =? 0 then w else mkWsWriter (ww_sink w) (ww_sent w) [] (Some (ww_buf w))
    | Some _ => w
    end in
  match ww_pending w with
  | None => sink_flush w
  | Some msg =>
      match send_message msg (mkWsWriter (ww_sink w) (ww_sent w) (ww_buf w) None) with
      | (w, Ready _) => sink_flush w
      | (w, Pending) => (mkWsWriter (ww_sink w) (ww_sent w) (ww_buf w) (Some msg), Pending)
      | (w, Failed e) => (w, Failed e)
      end
  end.

(** Copying into [write_buf]. *)
Definition buffer_write (buf : bytes) (w : WsWriter) : WsWriter * poll Z :=
  let space := Z.max 0 (WS_WRITE_BUFFER_SIZE - zlen (ww_buf w)) in
  let n := Z.min (zlen buf) space in
  (mkWsWriter (ww_sink w) (ww_sent w) (ww_buf w ++ take (Z.to_nat n) buf) (ww_pending w), Ready n).

Definition ws_poll_write (buf : bytes) (w : WsWriter) : WsWriter * poll Z :=
  if (zlen (ww_buf w) =? 0) && bool_decide (ww_pending w = None) && (zlen buf >=? WS_DIRECT_FRAME_MIN_SIZE) then
    match send_message buf w with
    | (w, Ready _) => (w, Ready (zlen buf))
    | (w, Pending) => (w, Pending)
    | (w, Failed e) => (w, Failed e)
    end
  else if zlen (ww_buf w) >=? WS_WRITE_BUFFER_SIZE then
    match ws_poll_flush w with
    | (w, Ready _) => buffer_write buf w
    | (w, Failed e) => (w, Failed e)
    | (w, Pending) => (w, Pending)
    end
  else buffer_write buf w.

(** [poll_shutdown]: the close of the sink is another call of it. *)
Definition ws_poll_shutdown (w : WsWriter) : WsWriter * poll unit :=
  match ws_poll_flush w with
  | (w, Ready _) => sink_flush w
  | r => r
  end.

(** * The reader *)

(** The pieces of the byte stream that the messages carry, up to a close. *)
Fixpoint pieces (inner : list WsEvent) : list PollEvent :=
  match inner with
  | [] => []
  | WsWait :: inner => PPending :: pieces inner
  | WsError :: inner => PError :: pieces inner
  | WsMessage (MBinary d) :: inner => match d with [] => pieces inner | _ => PData d :: pieces inner end
  | WsMessage (MText d) :: inner => match d with [] => pieces inner | _ => PData d :: pieces inner end
  | WsMessage MClose :: _ => []
  | WsMessage _ :: inner => pieces inner
  end.

Definition ws_coming (r : WsReader) : list PollEvent := if ws_closed r then [] else pieces (ws_inner r).

Definition ws_carries (r : WsReader) (d : bytes) : Prop := d = ws_read r ++ incoming (ws_coming r).

Lemma ws_give_ok cap read_buf closed inner : 1 <= cap -> read_buf <> [] -> clean (ws_coming (mkWsReader inner read_buf closed)) ->
  let n := Z.to_nat (Z.min (zlen read_buf) cap) in
  read_post ws_coming ws_carries cap (waits (ws_coming (mkWsReader inner read_buf closed))) (read_buf ++ incoming (ws_coming (mkWsReader inner read_buf closed)))
    (Some (mkWsReader inner (drop n read_buf) closed, Ready (take n read_buf))).
Proof.
  intros Hcap Hne Hc n. cbn [read_post]. unfold ws_coming in *. cbn [ws_closed ws_inner] in *.
  assert (Hn : (0 < n)%nat) by (unfold n, zlen; destruct read_buf; [done |]; cbn [length]; lia).
  split_and!; [done | done | unfold n, zlen in *; rewrite length_take; lia |]. eexists. split_and!; [by rewrite app_assoc, take_drop | done |].
  intros E%(f_equal length). rewrite length_take in E. destruct read_buf; [done |]. cbn in E. lia.
Qed.

Lemma ws_read_loop_ok cap closed : 1 <= cap -> forall inner read_buf, clean (ws_coming (mkWsReader inner read_buf closed)) ->
  read_post ws_coming ws_carries cap (waits (ws_coming (mkWsReader inner read_buf closed))) (read_buf ++ incoming (ws_coming (mkWsReader inner read_buf closed)))
    (Some (ws_read_loop cap read_buf closed inner)).
Proof.
  intros Hcap. induction inner as [| ev inner IH]; intros read_buf Hc.
  all: destruct read_buf as [| b read_buf]; [| by apply ws_give_ok]; cbn [ws_read_loop]; change (negb (zlen [] =? 0)) with false; cbn match.
  - destruct closed; cbn; split_and!; try done; try len_solve; by exists [].
  - destruct closed; [cbn; split_and!; try done; try len_solve; by exists [] |]. unfold ws_coming in *. cbn [ws_closed ws_inner pieces] in *.
    destruct ev as [[d | d | | | |] | |]; cbn [pieces] in *; try (by apply IH).
    + destruct d as [| b d]; [by apply IH |]. apply Forall_cons_iff in Hc as [_ Hc]. exact (IH (b :: d) Hc).
    + destruct d as [| b d]; [by apply IH |]. apply Forall_cons_iff in Hc as [_ Hc]. exact (IH (b :: d) Hc).
    + cbn. split_and!; try done; try len_solve. by exists [].
    + apply Forall_cons_iff in Hc as [_ Hc]. cbn. by split_and!.
    + by apply Forall_cons_iff in Hc as [[] _].
Qed.

#[global] Instance WsReader_reader : AsyncReader WsReader := { rd_poll cap r := Some (ws_poll_read cap r); rd_inner := ws_coming }.

#[global] Instance WsReader_spec : ReaderSpec WsReader ws_carries.
Proof. intros cap [inner rb closed] d Hcap Hc ->. cbn [rd_inner rd_poll WsReader_reader] in *. by apply ws_read_loop_ok. Qed.

(** * The writer *)

(** [accepted] is sent, or in the message that waits, or in the buffer. *)
Definition ws_wrote (w : WsWriter) (accepted : bytes) : Prop := concat (ww_sent w) ++ default [] (ww_pending w) ++ ww_buf w = accepted.

Lemma send_message_ok msg w :
  match send_message msg w with
  | (w', Ready _) => ww_sent w' = ww_sent w ++ [msg] /\ ww_buf w' = ww_buf w /\ ww_pending w' = ww_pending w
  | (w', Pending) => ww_sent w' = ww_sent w /\ ww_buf w' = ww_buf w /\ ww_pending w' = ww_pending w
  | (_, Failed _) => True
  end.
Proof. unfold send_message. destruct (ask (ww_sink w)) as [[] sink]; [| done | done]. by destruct (ask sink) as [[] ?]. Qed.

(** After a flush that completes no message waits, and the buffer is sent unless one waited before. *)
Lemma ws_flush_ok w accepted : ws_wrote w accepted ->
  match ws_poll_flush w with
  | (w', Ready _) => ws_wrote w' accepted /\ ww_pending w' = None /\ (ww_pending w = None -> ww_buf w' = [])
  | (w', Pending) => ws_wrote w' accepted
  | (_, Failed _) => True
  end.
Proof.
  intros Hw. unfold ws_poll_flush, ws_wrote in *.
  assert (Hs : forall msg w0, ww_pending w0 = Some msg -> concat (ww_sent w0) ++ msg ++ ww_buf w0 = accepted -> (ww_pending w = None -> ww_buf w0 = []) ->
    match (match send_message msg (mkWsWriter (ww_sink w0) (ww_sent w0) (ww_buf w0) None) with
           | (w, Ready _) => sink_flush w
           | (w, Pending) => (mkWsWriter (ww_sink w) (ww_sent w) (ww_buf w) (Some msg), Pending)
           | (w, Failed e) => (w, Failed e)
           end) with
    | (w', Ready _) => concat (ww_sent w') ++ default [] (ww_pending w') ++ ww_buf w' = accepted /\ ww_pending w' = None /\ (ww_pending w = None -> ww_buf w' = [])
    | (w', Pending) => concat (ww_sent w') ++ default [] (ww_pending w') ++ ww_buf w' = accepted
    | (_, Failed _) => True
    end).
  { intros msg w0 Hp He Hb. pose proof (send_message_ok msg (mkWsWriter (ww_sink w0) (ww_sent w0) (ww_buf w0) None)) as Hm.
    destruct (send_message _ _) as [w1 [[] | |]]; [| | done]; cbn [ww_sent ww_buf ww_pending] in Hm; destruct Hm as (E1 & E2 & E3).
    - unfold sink_flush. destruct (ask (ww_sink w1)) as [[] sink]; [| | done]; cbn [ww_sent ww_buf ww_pending]; rewrite E1, E2, E3, concat_app; cbn; rewrite app_nil_r, <- app_assoc; [by split_and! | done].
    - cbn [ww_sent ww_buf ww_pending]. by rewrite E1, E2. }
  destruct (ww_pending w) as [msg |] eqn:Hp; cbn [default from_option id] in Hw; [rewrite Hp; by apply Hs |].
  destruct (Z.eqb_spec (zlen (ww_buf w)) 0) as [H0 | H0]; [| cbn [ww_pending]; apply (Hs (ww_buf w)); cbn; [done | by rewrite app_nil_r | done]].
  rewrite Hp. unfold sink_flush. destruct (ask (ww_sink w)) as [[] sink]; cbn [ww_sent ww_buf ww_pending]; rewrite ?Hp; [| done | done]. split_and!; [done | done |].
  intros _. apply nil_length_inv. unfold zlen in H0. lia.
Qed.

Lemma buffer_write_ok buf w accepted : ws_wrote w accepted ->
  match buffer_write buf w with (w', Ready n) => ws_wrote w' (accepted ++ take (Z.to_nat n) buf) | _ => False end.
Proof. intros Hw. unfold buffer_write, ws_wrote in *. cbn [ww_sent ww_buf ww_pending]. by rewrite <- Hw, <- !app_assoc. Qed.

Lemma ws_write_ok buf w accepted : ws_wrote w accepted ->
  match ws_poll_write buf w with
  | (w', Ready n) => ws_wrote w' (accepted ++ take (Z.to_nat n) buf)
  | (w', Pending) => ws_wrote w' accepted
  | (_, Failed _) => True
  end.
Proof.
  intros Hw. unfold ws_poll_write. destruct (_ && _ && _) eqn:Ed.
  - apply andb_true_iff in Ed as [[H0%Z.eqb_eq Hp%bool_decide_eq_true_1]%andb_true_iff _]. pose proof (send_message_ok buf w) as Hm.
    assert (Hb : ww_buf w = []) by (apply nil_length_inv; unfold zlen in H0; lia). unfold ws_wrote in *. rewrite Hp, Hb in *. cbn [default from_option app] in Hw.
    destruct (send_message buf w) as [w1 [[] | |]]; [| | done]; destruct Hm as (E1 & E2 & E3); rewrite E1, E2, E3; cbn [default from_option app]; [| done].
    rewrite concat_app, take_ge by (unfold zlen; lia). cbn [concat]. by rewrite !app_nil_r, <- Hw, app_nil_r.
  - destruct (zlen (ww_buf w) >=? WS_WRITE_BUFFER_SIZE).
    + pose proof (ws_flush_ok w accepted Hw) as Hf. destruct (ws_poll_flush w) as [w1 [[] | |]]; [| done | done]. destruct Hf as [Hf _].
      pose proof (buffer_write_ok buf w1 accepted Hf) as Hb. by destruct (buffer_write buf w1) as [w2 []].
    + pose proof (buffer_write_ok buf w accepted Hw) as Hb. by destruct (buffer_write buf w) as [w2 []].
Qed.

#[global] Instance WsWriter_writer : AsyncWriter WsWriter := { wr_write := ws_poll_write; wr_flush := ws_poll_flush }.

Lemma ws_run_ok ops : forall w accepted w' accepted', ws_wrote w accepted -> write_run ops w accepted = Some (w', accepted') -> ws_wrote w' accepted'.
Proof.
  induction ops as [| [buf |] ops IH]; intros w accepted w' accepted' Hw; cbn [write_run]; [by intros [= <- <-] | |].
  - pose proof (ws_write_ok buf w accepted Hw) as H. cbn [wr_write WsWriter_writer]. destruct (ws_poll_write buf w) as [w1 [n | |]]; [| | done]; by apply IH.
  - pose proof (ws_flush_ok w accepted Hw) as H. cbn [wr_flush WsWriter_writer]. destruct (ws_poll_flush w) as [w1 [[] | |]]; [| | done]; [apply IH; by destruct H | by apply IH].
Qed.

(** A sink that says yes three times completes a flush. *)
Lemma ws_flush_yes w rest : ww_sink w = Yes :: Yes :: Yes :: rest ->
  exists w' k, ws_poll_flush w = (w', Ready ()) /\ ww_sink w' = drop k [Yes; Yes] ++ rest.
Proof.
  intros E. unfold ws_poll_flush, sink_flush, send_message. destruct (ww_pending w) as [m |] eqn:Hp; [rewrite Hp; cbn; rewrite E; cbn; by exists (mkWsWriter rest (ww_sent w ++ [m]) (ww_buf w) None), 2%nat |].
  destruct (zlen (ww_buf w) =? 0); [rewrite Hp, E; by eexists _, 0%nat |]. cbn [ww_pending ww_sink ww_buf]. rewrite E. cbn. by eexists _, 2%nat.
Qed.

(** C16. The WebSocket tunnel.  Whatever is written and flushed, however the connection makes the writer wait, what has been sent is a beginning of what was
    accepted; after two flushes in a row that complete it is all of it, and a reader that gets these messages, with any control messages and waits
    between them, and reads with buffers of any size, gets exactly the bytes accepted.  A connection that makes no one wait completes both. *)
Theorem ws_stream (ops : list WriteOp) (sink : list Answer) (w : WsWriter) (accepted : bytes) :
  write_run ops (ws_writer_new sink) [] = Some (w, accepted) ->
  concat (ww_sent w) `prefix_of` accepted
  /\ (forall w1 w2, ws_poll_flush w = (w1, Ready ()) -> ws_poll_flush w1 = (w2, Ready ()) ->
        concat (ww_sent w2) = accepted
        /\ forall inner caps, clean (pieces inner) -> incoming (pieces inner) = concat (ww_sent w2) -> Forall (Z.le 1) caps ->
             reads_all caps (ws_reader_new inner) accepted)
  /\ forall rest, ww_sink w = replicate 6 Yes ++ rest -> exists w1 w2, ws_poll_flush w = (w1, Ready ()) /\ ws_poll_flush w1 = (w2, Ready ()).
Proof.
  intros H. assert (Hw : ws_wrote w accepted) by (by eapply ws_run_ok, H). split_and!.
  - rewrite <- Hw. by eexists.
  - intros w1 w2 E1 E2. pose proof (ws_flush_ok w accepted Hw) as H1. rewrite E1 in H1. destruct H1 as (Hw1 & Hp1 & _).
    pose proof (ws_flush_ok w1 accepted Hw1) as H2. rewrite E2 in H2. destruct H2 as (Hw2 & Hp2 & Hb2). unfold ws_wrote in Hw2. rewrite Hp2, Hb2 in Hw2 by done.
    cbn in Hw2. rewrite ?app_nil_r in Hw2. split; [done |]. intros inner caps Hc Hi Hcaps. apply (carries_reads_all (carries := ws_carries)); [done | done |].
    unfold ws_carries, ws_coming. cbn [ws_reader_new ws_closed ws_inner ws_read app]. by rewrite Hi, Hw2.
  - intros rest E. destruct (ws_flush_yes w (replicate 3 Yes ++ rest)) as (w1 & k & E1 & Es); [by rewrite E |]. exists w1.
    destruct k as [| [| [| k]]]; cbn in Es; (destruct (ws_flush_yes w1 _ Es) as (w2 & _ & E2 & _)); by exists w2.
Qed.

(** A flush completes and leaves bytes behind: a message waited when the bytes were written.  Nothing sends them before the next flush. *)
Theorem ws_flush_incomplete :
  let ops := [WWrite [1]; WFlush; WWrite [2]] in
  exists w w', write_run ops (ws_writer_new [Later; Yes; Yes; Yes]) [] = Some (w, [1; 2]) /\ ws_poll_flush w = (w', Ready ()) /\ ww_sent w' = [[1]] /\ ww_buf w' = [2].
Proof. eexists _, _. split_and!; vm_compute; reflexivity. Qed.

(** A full buffer behind a message that waits: the write flushes the message, finds no room, and reports that zero bytes are written, which
    [write_all] takes for a closed connection. *)
Theorem ws_write_zero :
  let ops := [WWrite [1]; WFlush; WWrite (replicate 4096 2)] in
  exists w w', write_run ops (ws_writer_new [Later; Yes; Yes; Yes]) [] = Some (w, 1 :: replicate 4096 2) /\ ws_poll_write [3] w = (w', Ready 0).
Proof. eexists _, _. split; vm_compute; reflexivity. Qed.

Lemma ws_stream_witness :
  exists w, write_run [WWrite [1; 2]; WFlush; WWrite [3]] (ws_writer_new ([Later] ++ replicate 6 Yes)) [] = Some (w, [1; 2; 3])
    /\ exists w1 w2, ws_poll_flush w = (w1, Ready ()) /\ ws_poll_flush w1 = (w2, Ready ()) /\ concat (ww_sent w2) = [1; 2; 3].
Proof.
  eexists. split; [vm_compute; reflexivity |].
  match goal with |- context [ws_poll_flush ?w] => set (w0 := w) end.
  destruct (ws_stream [WWrite [1; 2]; WFlush; WWrite [3]] ([Later] ++ replicate 6 Yes) w0 [1; 2; 3]) as (_ & H2 & H3); [vm_compute; reflexivity |].
  destruct (H3 [] ltac:(vm_compute; reflexivity)) as (w1 & w2 & E1 & E2). exists w1, w2. split; [exact E1 |]. split; [exact E2 |]. exact (proj1 (H2 w1 w2 E1 E2)).
Defined.
