(* ===== verification/Reload.v ===== *)
(** Hot reload ([blackwire-core/src/reload.rs]) and the parts of [instance/helpers.rs] it uses: rules are compiled from the configuration, the router, the
    sniffing settings, the tags and the VLESS users are exchanged while the instance runs, and geo data is cached by the fingerprint of its file.

    The parser of UUIDs and Unicode upper-casing are parameters; so is the disk, which gives fingerprints and geo data by path.  The configuration
    is reduced to what this code reads; what it only compares is a text. *)

From stdpp Require Import base gmap list sets strings numbers.
From S2P Require Import Prelude Text Address Router Vless Sniff.

Abbreviation err := string.

Class ReloadLib := { uuid_parse : bytes -> option bytes; to_uppercase : bytes -> bytes }.

(** * Configuration *)

Record Client := mkClient { c_id : option bytes; c_email : option bytes; c_flow : option bytes }.

(** [in_rest]: the settings that are only compared, without the clients and the sniffing. *)
Record InboundConfig := mkInboundConfig {
  in_tag : bytes;
  in_vless : bool;
  in_listen : bytes;
  in_port : Z;
  in_clients : option (list Client);
  in_sniffing : option SniffingConfig;
  in_rest : bytes;
}.

Record OutboundConfig := mkOutboundConfig { out_tag : bytes; out_rest : bytes }.

Record RoutingRule := mkRoutingRule {
  rr_domain : list bytes;
  rr_ip : list bytes;
  rr_port : option bytes;
  rr_inbound_tag : list bytes;
  rr_protocol : list bytes;
  rr_outbound_tag : bytes;
}.

Record RoutingConfig := mkRoutingConfig {
  rt_domain_strategy : option bytes;
  rt_geoip_file : option bytes;
  rt_geosite_file : option bytes;
  rt_rules : list RoutingRule;
  rt_balancers : list bytes;
}.

Record Config := mkConfigFile {
  inbounds : list InboundConfig;
  outbounds : list OutboundConfig;
  routing : option RoutingConfig;
  metrics_addr : option bytes;
  api : bytes;
  tun : bytes;
}.

(** * Rules *)

Definition parse_port_part (part : bytes) : res err (Z * Z) :=
  let part := trim part in
  match split_once 45 part with
  | Some (lo, hi) =>
      lo ← ok_or (parse_u16 lo) "invalid port";
      hi ← ok_or (parse_u16 hi) "invalid port";
      if lo >? hi then Err "invalid port range: lower bound exceeds upper bound" else Ok (lo, hi)
  | None =>
      p ← ok_or (parse_u16 part) "invalid port";
      Ok (p, p)
  end.

(** The first error ends a [map] that is collected into a result. *)
Fixpoint map_res {A B} (f : A -> res err B) (l : list A) : res err (list B) :=
  match l with
  | [] => Ok []
  | x :: l =>
      y ← f x;
      ys ← map_res f l;
      Ok (y :: ys)
  end.

Definition parse_port_ranges (s : bytes) : res err (list (Z * Z)) :=
  if zlen s =? 0 then Ok [] else map_res parse_port_part (split_on 44 s).

(** One half of [GeoCache]. *)
Record Cached (A : Type) := mkCached { ca_path : option bytes; ca_fingerprint : option (Z * Z); ca_data : A }.
Arguments mkCached {A} _ _ _.
Arguments ca_path {A} _.
Arguments ca_fingerprint {A} _.
Arguments ca_data {A} _.

Definition cache_hit {A} (c : Cached A) (path : option bytes) (fp : option (Z * Z)) : bool :=
  bool_decide (path = ca_path c) && ((bool_decide (is_Some fp) && bool_decide (fp = ca_fingerprint c)) || bool_decide (path = None)).

Section reload.
Context `{IpNetOps} `{PatternLib} `{ReloadLib}.

Abbreviation geoip_db := (gmap bytes GeoIpMatcher).
Abbreviation geosite_db := (gmap bytes DomainMatcher).

(** The patterns of a rule by kind. *)
Record Sorted := mkSorted {
  so_full : list bytes; so_suffix : list bytes; so_keywords : list bytes; so_regexes : list bytes; so_geosite : list bytes
}.

Fixpoint sort_domains (patterns : list bytes) : Sorted :=
  match patterns with
  | [] => mkSorted [] [] [] [] []
  | pattern :: patterns =>
      let '(mkSorted f s k r g) := sort_domains patterns in
      match strip_prefix (lit "domain:") pattern with
      | Some rest => mkSorted (rest :: f) s k r g
      | None =>
          match strip_prefix (lit "suffix:") pattern with
          | Some rest => mkSorted f (rest :: s) k r g
          | None =>
              match strip_prefix (lit "keyword:") pattern with
              | Some rest => mkSorted f s (rest :: k) r g
              | None =>
                  match strip_prefix (lit "regexp:") pattern with
                  | Some rest => mkSorted f s k (rest :: r) g
                  | None =>
                      match strip_prefix (lit "geosite:") pattern with
                      | Some rest => mkSorted f s k r (to_uppercase rest :: g)
                      | None => mkSorted (pattern :: f) s k r g
                      end
                  end
              end
          end
      end
  end.

(** Networks and country codes. *)
Fixpoint sort_ips (patterns : list bytes) : list bytes * list bytes :=
  match patterns with
  | [] => ([], [])
  | pattern :: patterns =>
      let '(nets, codes) := sort_ips patterns in
      match strip_prefix (lit "geoip:") pattern with
      | Some rest => (nets, to_uppercase rest :: codes)
      | None => (pattern :: nets, codes)
      end
  end.

Definition build_rule (outbound_tags : gset bytes) (r : RoutingRule) : res err CompiledRule :=
  if negb (bool_decide (rr_outbound_tag r ∈ outbound_tags)) then Err "routing rule references missing outboundTag"
  else
    let d := sort_domains (rr_domain r) in
    let '(ip_ranges, geoip_codes) := sort_ips (rr_ip r) in
    domain_matcher ← (if is_empty (so_full d) && is_empty (so_suffix d) && is_empty (so_keywords d) && is_empty (so_regexes d) then Ok None
                      else m ← ok_or (DomainMatcher_new (so_full d) (so_suffix d) (so_keywords d) (so_regexes d)) "invalid domain pattern"; Ok (Some m));
    ip_matcher ← (if is_empty ip_ranges then Ok None else m ← ok_or (IpMatcher_new ip_ranges) "invalid network"; Ok (Some m));
    port_ranges ← parse_port_ranges (default [] (rr_port r));
    Ok (mkCompiledRule (rr_outbound_tag r) domain_matcher (so_geosite d) ip_matcher geoip_codes port_ranges (rr_inbound_tag r) (rr_protocol r)).

Definition build_rules (rules : list RoutingRule) (outbound_tags : gset bytes) : res err (list CompiledRule) := map_res (build_rule outbound_tags) rules.

Definition collect_outbound_tags (config : Config) : gset bytes :=
  list_to_set (out_tag <$> outbounds config) ∪ match routing config with Some r => list_to_set (rt_balancers r) | None => ∅ end.

(** * Users *)

Definition client_user (client : Client) : res err VlessUser :=
  id ← ok_or (c_id client) "VLESS client missing id";
  uuid ← ok_or (uuid_parse id) "invalid UUID";
  Ok (mkVlessUser (default [] (c_email client)) uuid (default [] (c_flow client))).

Fixpoint add_clients (registry : VlessUserRegistry) (clients : list Client) : VlessUserRegistry * res err unit :=
  match clients with
  | [] => (registry, Ok ())
  | client :: clients =>
      match client_user client with
      | Ok user => add_clients (add_user registry user) clients
      | Err e => (registry, Err e)
      | Panic => (registry, Panic)
      | NoFuel => (registry, NoFuel)
      end
  end.

(** What is in the registry when it returns, with an error too. *)
Definition populate_vless_registry (registry : VlessUserRegistry) (cfg : InboundConfig) : VlessUserRegistry * res err unit :=
  let registry := registry_clear registry in
  match in_clients cfg with
  | None => (registry, Err "VLESS inbound missing clients array")
  | Some [] => (registry, Err "VLESS inbound has no configured clients")
  | Some clients => add_clients registry clients
  end.

Definition build_sniffing_map (ins : list InboundConfig) : gmap bytes SniffingConfig :=
  foldl (fun m i => match in_sniffing i with Some s => if enabled s then <[in_tag i := s]> m else m | None => m end) ∅ ins.

(** * Geo data *)

(** Size and time of a file, and the data in it. *)
Record Disk := mkDisk {
  file_fingerprint : bytes -> option (Z * Z);
  load_geoip : bytes -> geoip_db;
  load_geosite : bytes -> geosite_db;
}.

Definition load_geo_data (disk : Disk) (routing : option RoutingConfig) : geoip_db * geosite_db :=
  match routing with
  | None => (∅, ∅)
  | Some r => (match rt_geoip_file r with Some p => load_geoip disk p | None => ∅ end, match rt_geosite_file r with Some p => load_geosite disk p | None => ∅ end)
  end.

Record GeoCache := mkGeoCache { gc_geoip : Cached geoip_db; gc_geosite : Cached geosite_db }.

Definition geo_cache_default : GeoCache := mkGeoCache (mkCached None None ∅) (mkCached None None ∅).

Definition load_geo_data_cached (disk : Disk) (routing : option RoutingConfig) (cache : GeoCache) : GeoCache * (geoip_db * geosite_db) :=
  let geoip_path := r ← routing; rt_geoip_file r in
  let geosite_path := r ← routing; rt_geosite_file r in
  let geoip_fp := p ← geoip_path; file_fingerprint disk p in
  let geosite_fp := p ← geosite_path; file_fingerprint disk p in
  let geoip_hit := cache_hit (gc_geoip cache) geoip_path geoip_fp in
  let geosite_hit := cache_hit (gc_geosite cache) geosite_path geosite_fp in
  let '(fresh_ip, fresh_site) := if negb geoip_hit || negb geosite_hit then load_geo_data disk routing else (∅, ∅) in
  let ip := if geoip_hit then gc_geoip cache else mkCached geoip_path geoip_fp fresh_ip in
  let site := if geosite_hit then gc_geosite cache else mkCached geosite_path geosite_fp fresh_site in
  (mkGeoCache ip site, (ca_data ip, ca_data site)).

(** * The reload *)

Record ReloadState := mkReloadState {
  rs_router : RouterInner;
  rs_registries : gmap bytes VlessUserRegistry;
  rs_sniffing : gmap bytes SniffingConfig;
  rs_inbound_tags : list bytes;
  rs_outbound_tags : list bytes;
  rs_geo_cache : GeoCache;
}.

Fixpoint refresh_registries (registries : gmap bytes VlessUserRegistry) (ins : list InboundConfig) : gmap bytes VlessUserRegistry * res err unit :=
  match ins with
  | [] => (registries, Ok ())
  | i :: ins =>
      if negb (in_vless i) then refresh_registries registries ins
      else
        match registries !! in_tag i with
        | None => refresh_registries registries ins
        | Some registry =>
            let '(registry, r) := populate_vless_registry registry i in
            let registries := <[in_tag i := registry]> registries in
            match r with Ok _ => refresh_registries registries ins | e => (registries, e) end
        end
  end.

Definition default_tag_of (config : Config) : bytes := match outbounds config with o :: _ => out_tag o | [] => lit "direct" end.

Definition config_rules (config : Config) : res err (list CompiledRule) :=
  match routing config with Some r => build_rules (rt_rules r) (collect_outbound_tags config) | None => Ok [] end.

(** [ReloadState::apply]; the tags are behind locks that nobody poisons. *)
Definition apply (disk : Disk) (config : Config) (st : ReloadState) : ReloadState * res err unit :=
  match config_rules config with
  | Ok rules =>
      let '(cache, (gi, gs)) := load_geo_data_cached disk (routing config) (rs_geo_cache st) in
      let strategy := r ← routing config; rt_domain_strategy r in
      let router := LiveRouter_swap (rs_router st) rules (default_tag_of config) gi gs strategy in
      let '(registries, r) := refresh_registries (rs_registries st) (inbounds config) in
      (mkReloadState router registries (build_sniffing_map (inbounds config)) (in_tag <$> inbounds config) (out_tag <$> outbounds config) cache, r)
  | Err e => (st, Err e)
  | Panic => (st, Panic)
  | NoFuel => (st, NoFuel)
  end.

(** [vless_registry] and the operations of the management interface on it. *)
Definition vless_registry (st : ReloadState) (tag : bytes) : option VlessUserRegistry :=
  if negb (existsb (fun t => bytes_eqb t tag) (rs_inbound_tags st)) then None else rs_registries st !! tag.

Definition with_registry (st : ReloadState) (tag : bytes) (r : VlessUserRegistry) : ReloadState :=
  mkReloadState (rs_router st) (<[tag := r]> (rs_registries st)) (rs_sniffing st) (rs_inbound_tags st) (rs_outbound_tags st) (rs_geo_cache st).

Definition add_vless_user (st : ReloadState) (tag email uuid_str flow : bytes) : ReloadState * res err unit :=
  match vless_registry st tag with
  | None => (st, Err "inbound has no VLESS user registry")
  | Some registry =>
      match uuid_parse uuid_str with
      | None => (st, Err "invalid UUID")
      | Some uuid => (with_registry st tag (add_user registry (mkVlessUser email uuid flow)), Ok ())
      end
  end.

Definition remove_vless_user (st : ReloadState) (tag email : bytes) : ReloadState * res err unit :=
  match vless_registry st tag with
  | None => (st, Err "inbound has no VLESS user registry")
  | Some registry =>
      let '(registry, removed) := remove_user_by_email registry email in
      (with_registry st tag registry, if (removed : bool) then Ok () else Err "no VLESS user with this email")
  end.

(** * What needs a restart *)

Definition find_inbound (ins : list InboundConfig) (tag : bytes) : option InboundConfig := List.find (fun i => bytes_eqb (in_tag i) tag) ins.

Definition inbound_listener_changes (old new : Config) : list bytes :=
  flat_map (fun i => match find_inbound (inbounds old) (in_tag i) with
                     | None => [in_tag i]
                     | Some o => if negb (bytes_eqb (in_listen o) (in_listen i)) || negb (in_port o =? in_port i) then [in_tag i] else []
                     end) (inbounds new)
  ++ flat_map (fun i => if existsb (fun o => bytes_eqb (in_tag o) (in_tag i)) (inbounds old) then [] else [in_tag i]) (inbounds new).

(** The value that is compared: the clients only where they are not refreshed in place. *)
Definition normalized_inbound_value (i : InboundConfig) : bytes * bool * bytes * Z * option (list Client) * bytes :=
  (in_tag i, in_vless i, in_listen i, in_port i, if in_vless i then None else in_clients i, in_rest i).

#[global] Instance Client_eq_dec : EqDecision Client.
Proof. solve_decision. Defined.

#[global] Instance OutboundConfig_eq_dec : EqDecision OutboundConfig.
Proof. solve_decision. Defined.

Definition requires_instance_restart (old new : Config) : bool :=
  negb (is_empty (inbound_listener_changes old new))
  || negb (bool_decide (metrics_addr old = metrics_addr new)) || negb (bytes_eqb (api old) (api new))
  || negb (bytes_eqb (tun old) (tun new))
  || negb (bool_decide (outbounds old = outbounds new))
  || negb (length (inbounds old) =? length (inbounds new))%nat
  || existsb (fun i => match find_inbound (inbounds old) (in_tag i) with
                       | None => true
                       | Some o => negb (bool_decide (normalized_inbound_value o = normalized_inbound_value i))
                       end) (inbounds new).

End reload.

(** * Compiled rules *)

Lemma map_res_ok {A B} (f : A -> res err B) l ys : map_res f l = Ok ys -> Forall2 (fun x y => f x = Ok y) l ys.
Proof.
  revert ys. induction l as [| x l IH]; intros ys; cbn [map_res]; [intros [= <-]; constructor |].
  intros (y & Hy & H)%rbind_inv. apply rbind_inv in H as (ys' & H & [= <-]). constructor; [done | by apply IH].
Qed.

Lemma parse_port_ranges_ok s rs : parse_port_ranges s = Ok rs -> Forall (fun r => 0 <= r.1 <= r.2 /\ r.2 < 2 ^ 16) rs.
Proof.
  unfold parse_port_ranges. destruct (_ =? 0); [intros [= <-]; constructor |]. intros H%map_res_ok. induction H as [| part r parts rs Hp _ IH]; [constructor |].
  constructor; [| done]. unfold parse_port_part in Hp. assert (Hu : forall t p, parse_u16 t = Some p -> 0 <= p < 2 ^ 16) by (intros t p; unfold parse_u16; by apply parse_uint_range).
  destruct (split_once 45 (trim part)) as [[lo hi] |].
  - apply rbind_inv in Hp as (l & Hl & Hp). apply rbind_inv in Hp as (h & Hh & Hp). destruct (parse_u16 lo) as [l' |] eqn:El; [| done]. destruct (parse_u16 hi) as [h' |] eqn:Eh; [| done].
    injection Hl as ->. injection Hh as ->. apply Hu in El, Eh. destruct (Z.gtb_spec l h); [done |]. injection Hp as <-. cbn. lia.
  - apply rbind_inv in Hp as (p & Hl & [= <-]). destruct (parse_u16 (trim part)) as [p' |] eqn:Ep; [| done]. injection Hl as ->. apply Hu in Ep. cbn. lia.
Qed.

Section applied.
Context `{IpNetOps} `{PatternLib} `{ReloadLib}.

Lemma build_rule_ok tags r c : build_rule tags r = Ok c ->
  outbound_tag c = rr_outbound_tag r /\ rr_outbound_tag r ∈ tags /\ inbound_tags c = rr_inbound_tag r /\ protocols c = rr_protocol r
  /\ Forall (fun r => 0 <= r.1 <= r.2 /\ r.2 < 2 ^ 16) (port_ranges c).
Proof.
  unfold build_rule. case_bool_decide as Ht; [| done]. cbn [negb]. destruct (sort_ips (rr_ip r)) as [nets codes].
  intros (dm & _ & Hc)%rbind_inv. apply rbind_inv in Hc as (im & _ & Hc). apply rbind_inv in Hc as (pr & Hp & [= <-]). cbn. split_and!; try done. by apply parse_port_ranges_ok in Hp.
Qed.

Lemma config_rules_tags config rules : config_rules config = Ok rules -> Forall (fun c => outbound_tag c ∈ collect_outbound_tags config) rules.
Proof.
  unfold config_rules. destruct (routing config) as [r |] eqn:Er; [| intros [= <-]; constructor]. intros Hm%map_res_ok.
  induction Hm as [| x y xs ys Hb _ IH]; constructor; [| done]. apply build_rule_ok in Hb as (-> & Ht & _). done.
Qed.

Lemma map_res_total {A B} (f : A -> res err B) l : (forall x, match f x with Ok _ | Err _ => True | _ => False end) -> match map_res f l with Ok _ | Err _ => True | _ => False end.
Proof.
  intros Hf. induction l as [| x l IH]; cbn [map_res]; [done |]. specialize (Hf x). destruct (f x); cbn; try done. by destruct (map_res f l).
Qed.

Lemma config_rules_total config : match config_rules config with Ok _ | Err _ => True | _ => False end.
Proof.
  unfold config_rules. destruct (routing config) as [r |]; [| done]. apply map_res_total. intros x. unfold build_rule. destruct (negb _); [done |].
  destruct (sort_ips (rr_ip x)) as [nets codes].
  assert (Hp : match parse_port_ranges (default [] (rr_port x)) with Ok _ | Err _ => True | _ => False end).
  { unfold parse_port_ranges. destruct (_ =? 0); [done |]. apply map_res_total. intros part. unfold parse_port_part. destruct (split_once 45 (trim part)) as [[lo hi] |].
    - destruct (parse_u16 lo), (parse_u16 hi); cbn; try done. by destruct (_ >? _).
    - by destruct (parse_u16 (trim part)). }
  destruct (_ && _ && _ && _); [| destruct (DomainMatcher_new _ _ _ _)]; cbn [ok_or mbind res_bind]; try done;
    (destruct (is_empty nets); [| destruct (IpMatcher_new nets)]; cbn [ok_or mbind res_bind]; try done); by destruct (parse_port_ranges _).
Qed.

(** ** Users *)

(** The users of an inbound in the order of its clients. *)
Definition config_users (i : InboundConfig) : res err (list VlessUser) :=
  match in_clients i with
  | None => Err "VLESS inbound missing clients array"
  | Some [] => Err "VLESS inbound has no configured clients"
  | Some clients => map_res client_user clients
  end.

Lemma add_clients_ok clients : forall registry, match add_clients registry clients with
  | (r, Ok _) => exists users, map_res client_user clients = Ok users /\ r = foldl add_user registry users
  | (_, Err _) => True
  | _ => False
  end.
Proof.
  induction clients as [| c clients IH]; intros registry; cbn [add_clients map_res]; [by exists [] |].
  assert (Hc : match client_user c with Ok _ | Err _ => True | _ => False end) by (unfold client_user; destruct (c_id c) as [id |]; [cbn; by destruct (uuid_parse id) | done]).
  destruct (client_user c) as [user | | |]; try done. specialize (IH (add_user registry user)). destruct (add_clients _ clients) as [r [[] | | |]]; try done.
  destruct IH as (users & -> & ->). by exists (user :: users).
Qed.

Lemma populate_ok registry i : match populate_vless_registry registry i with
  | (r, Ok _) => exists users, config_users i = Ok users /\ r = foldl add_user registry_new users
  | (_, Err _) => True
  | _ => False
  end.
Proof. unfold populate_vless_registry, config_users. destruct (in_clients i) as [[| c cs] |]; try done. apply (add_clients_ok (c :: cs)). Qed.

(** The tags of the inbounds whose users are refreshed. *)
Definition vless_tags (ins : list InboundConfig) : list bytes := in_tag <$> base.filter (fun i => in_vless i = true) ins.

Lemma refresh_ok ins : forall registries, NoDup (vless_tags ins) ->
  match refresh_registries registries ins with
  | (r', Ok _) =>
      dom r' = dom registries
      /\ (forall tag, tag ∉ vless_tags ins -> r' !! tag = registries !! tag)
      /\ forall i, i ∈ ins -> in_vless i = true -> is_Some (registries !! in_tag i) ->
           exists users, config_users i = Ok users /\ r' !! in_tag i = Some (foldl add_user registry_new users)
  | (_, Err _) => True
  | _ => False
  end.
Proof.
  induction ins as [| i ins IH]; intros registries Hnd; cbn [refresh_registries]; [split_and!; [done | done |]; intros ? []%elem_of_nil |].
  unfold vless_tags in *. rewrite filter_cons in Hnd |- *. destruct (in_vless i) eqn:Ev; cbn [negb].
  2:{ rewrite decide_False in Hnd |- * by done. specialize (IH registries Hnd). destruct (refresh_registries registries ins) as [r' [[] | | |]]; try done.
      destruct IH as (G1 & G2 & G3). split_and!; [done | done |]. intros j [-> | Hj]%elem_of_cons Hv Hs; [congruence | by apply G3]. }
  rewrite decide_True in Hnd |- * by done. cbn [fmap list_fmap] in Hnd |- *. apply list.NoDup_cons in Hnd as [Hni Hnd].
  assert (Hne : forall j, j ∈ ins -> in_vless j = true -> in_tag j <> in_tag i).
  { intros j Hj Hv E. apply Hni. rewrite <- E. apply list_elem_of_fmap_2, list_elem_of_filter. done. }
  destruct (registries !! in_tag i) as [registry |] eqn:Er.
  - pose proof (populate_ok registry i) as Hp. destruct (populate_vless_registry registry i) as [r1 [[] | | |]]; try done. destruct Hp as (users & Hu & ->).
    specialize (IH (<[in_tag i := foldl add_user registry_new users]> registries) Hnd). destruct (refresh_registries _ ins) as [r' [[] | | |]]; try done.
    destruct IH as (G1 & G2 & G3). split_and!.
    + rewrite G1. apply dom_insert_lookup_L. by eexists.
    + intros tag [Ht1 Ht2]%not_elem_of_cons. rewrite G2 by done. by rewrite lookup_insert_ne.
    + intros j [-> | Hj]%elem_of_cons Hv Hs; [exists users; split; [done |]; rewrite G2 by done; by rewrite lookup_insert_eq |]. apply G3; [done | done |].
      by rewrite lookup_insert_ne by (apply not_eq_sym; by apply Hne).
  - specialize (IH registries Hnd). destruct (refresh_registries registries ins) as [r' [[] | | |]]; try done. destruct IH as (G1 & G2 & G3). split_and!; [done | |].
    + intros tag [Ht1 Ht2]%not_elem_of_cons. by apply G2.
    + intros j [-> | Hj]%elem_of_cons Hv Hs; [by rewrite Er in Hs; destruct Hs | by apply G3].
Qed.

(** C18. A reload.  It ends, and if a rule does not compile nothing has changed.  If it succeeds the router has the rules, the default and the geo data of the
    new configuration, every route leads to one of its outbounds or balancers or to the default, and ports are checked against proper ranges; the
    users of every VLESS inbound are exactly those of its clients, the last for a repeated id, and no other inbound's users are touched. *)
Theorem reload_applies (disk : Disk) (config : Config) (st : ReloadState) :
  NoDup (vless_tags (inbounds config)) ->
  match apply disk config st with
  | (st', Ok _) =>
      (exists rules, config_rules config = Ok rules /\ Router.rules (rs_router st') = rules /\ default_tag (rs_router st') = default_tag_of config
         /\ (geoip (rs_router st'), geosite (rs_router st')) = (load_geo_data_cached disk (routing config) (rs_geo_cache st)).2)
      /\ (forall ctx, (pick_route_match (rs_router st') ctx).1 ∈ {[default_tag_of config]} ∪ collect_outbound_tags config)
      /\ (forall i, i ∈ inbounds config -> in_vless i = true -> is_Some (rs_registries st !! in_tag i) ->
            exists users, config_users i = Ok users /\ rs_registries st' !! in_tag i = Some (foldl add_user registry_new users))
      /\ (forall tag, tag ∉ vless_tags (inbounds config) -> rs_registries st' !! tag = rs_registries st !! tag)
      /\ dom (rs_registries st') = dom (rs_registries st)
      /\ rs_inbound_tags st' = in_tag <$> inbounds config /\ rs_outbound_tags st' = out_tag <$> outbounds config
  | (st', Err _) => (exists e, config_rules config = Err e) -> st' = st
  | (_, _) => False
  end.
Proof.
  intros Hnd. unfold apply. assert (Hr : match config_rules config with Ok _ | Err _ => True | _ => False end) by apply config_rules_total.
  destruct (config_rules config) as [rules | e | |] eqn:Ec; [| done | done | done].
  destruct (load_geo_data_cached disk (routing config) (rs_geo_cache st)) as [cache [gi gs]] eqn:Eg.
  pose proof (refresh_ok (inbounds config) (rs_registries st) Hnd) as Hf. destruct (refresh_registries (rs_registries st) (inbounds config)) as [regs [[] | | |]]; try done;
    [| by intros [e' ?]]. destruct Hf as (G1 & G2 & G3). cbn [rs_router rs_registries rs_inbound_tags rs_outbound_tags].
  split_and!; [by exists rules | | exact G3 | exact G2 | exact G1 | done | done].
  intros ctx. apply config_rules_tags in Ec. unfold pick_route_match. cbn [Router.rules LiveRouter_swap default_tag geoip geosite].
  induction Ec as [| c cs Hc _ IH]; cbn [first_match]; [set_solver |]. destruct (matches_with_geo c ctx gi gs); [cbn; set_solver |]. exact IH.
Qed.

End applied.

(** * The geo cache *)

Section geo.
Context `{IpNetOps} `{PatternLib}.

(** The data of a cached half is that of a disk that was seen with this path and fingerprint. *)
Definition cached_ok {A} (load : Disk -> bytes -> A) (empty : A) (seen : list Disk) (c : Cached A) : Prop :=
  match ca_path c with
  | None => ca_data c = empty
  | Some p => forall f, ca_fingerprint c = Some f -> exists d, d ∈ seen /\ file_fingerprint d p = Some f /\ ca_data c = load d p
  end.

(** Files that have not changed in size and time have not changed. *)
Definition stable {A} (load : Disk -> bytes -> A) (disks : list Disk) : Prop :=
  forall d d' p f, d ∈ disks -> d' ∈ disks -> file_fingerprint d p = Some f -> file_fingerprint d' p = Some f -> load d p = load d' p.

Definition fresh_half {A} (load : Disk -> bytes -> A) (empty : A) (disk : Disk) (path : option bytes) : A := match path with Some p => load disk p | None => empty end.

Lemma cached_half {A} (load : Disk -> bytes -> A) empty seen disk path c : stable load (disk :: seen) -> cached_ok load empty seen c ->
  let fp := p ← path; file_fingerprint disk p in
  let c' := if cache_hit c path fp then c else mkCached path fp (fresh_half load empty disk path) in
  ca_data c' = fresh_half load empty disk path /\ cached_ok load empty (disk :: seen) c'.
Proof.
  intros Hs Hc fp c'. unfold c'. destruct (cache_hit c path fp) eqn:Eh.
  - unfold cache_hit in Eh. apply andb_true_iff in Eh as [->%bool_decide_eq_true_1 Eh]. unfold cached_ok, fresh_half in *. destruct (ca_path c) as [p |]; [| done].
    rewrite (bool_decide_false (Some p = None)), orb_false_r in Eh by done. apply andb_true_iff in Eh as [[f Ef]%bool_decide_eq_true_1 Eq%bool_decide_eq_true_1].
    rewrite Ef in Eq. destruct (Hc f (eq_sym Eq)) as (d & Hd & Hf & Hdata). split.
    + rewrite Hdata. apply (Hs d disk p f); [by right | by left | done | exact Ef].
    + intros g Hg. destruct (Hc g Hg) as (d' & ? & ? & ?). exists d'. split_and!; [by right | done | done].
  - split; [done |]. unfold cached_ok, fresh_half. cbn. destruct path as [p |]; [| done]. intros f Hf. exists disk. split_and!; [by left | exact Hf | done].
Qed.

(** Reloads one after the other, each with the disk it finds: the geo data each uses. *)
Fixpoint geo_loads (cache : GeoCache) (reloads : list (Disk * option RoutingConfig)) : list (gmap bytes GeoIpMatcher * gmap bytes DomainMatcher) :=
  match reloads with
  | [] => []
  | (disk, routing) :: reloads => let '(cache, data) := load_geo_data_cached disk routing cache in data :: geo_loads cache reloads
  end.

Lemma load_cached_eq disk routing cache :
  let ip := r ← routing; rt_geoip_file r in
  let site := r ← routing; rt_geosite_file r in
  let fpi := p ← ip; file_fingerprint disk p in
  let fps := p ← site; file_fingerprint disk p in
  let ci := if cache_hit (gc_geoip cache) ip fpi then gc_geoip cache else mkCached ip fpi (fresh_half load_geoip ∅ disk ip) in
  let cs := if cache_hit (gc_geosite cache) site fps then gc_geosite cache else mkCached site fps (fresh_half load_geosite ∅ disk site) in
  load_geo_data_cached disk routing cache = (mkGeoCache ci cs, (ca_data ci, ca_data cs)).
Proof.
  intros ip site fpi fps. unfold load_geo_data_cached. fold ip site. fold fpi fps.
  assert (E : load_geo_data disk routing = (fresh_half load_geoip ∅ disk ip, fresh_half load_geosite ∅ disk site)) by (unfold load_geo_data, ip, site; by destruct routing).
  rewrite E. by destruct (cache_hit (gc_geoip cache) ip fpi), (cache_hit (gc_geosite cache) site fps).
Qed.

Lemma geo_loads_ok reloads : forall cache seen, stable load_geoip (reverse (fst <$> reloads) ++ seen) -> stable load_geosite (reverse (fst <$> reloads) ++ seen) ->
  cached_ok load_geoip ∅ seen (gc_geoip cache) -> cached_ok load_geosite ∅ seen (gc_geosite cache) ->
  geo_loads cache reloads = (fun e => load_geo_data e.1 e.2) <$> reloads.
Proof.
  induction reloads as [| [disk routing] reloads IH]; intros cache seen Hsi Hss Hci Hcs; [done |]. cbn [geo_loads fmap list_fmap fst snd]. rewrite load_cached_eq.
  cbn [fmap list_fmap fst] in Hsi, Hss. rewrite reverse_cons, <- app_assoc in Hsi, Hss. cbn [app] in Hsi, Hss.
  assert (Hsub : forall A (load : Disk -> bytes -> A), stable load (reverse (fst <$> reloads) ++ disk :: seen) -> stable load (disk :: seen)).
  { intros A load Hst d d' p f Hd Hd'. apply Hst; apply elem_of_app; by right. }
  destruct (cached_half load_geoip ∅ seen disk (r ← routing; rt_geoip_file r) _ (Hsub _ _ Hsi) Hci) as [E1 K1].
  destruct (cached_half load_geosite ∅ seen disk (r ← routing; rt_geosite_file r) _ (Hsub _ _ Hss) Hcs) as [E2 K2].
  cbv zeta. rewrite E1, E2. f_equal; [by destruct routing |]. by apply (IH _ (disk :: seen)).
Qed.

(** C23. The cache of the geo data is invisible: as long as a file that keeps its size and time keeps its contents, every reload of a sequence uses
    what loading the files then would give, whatever paths and disks the reloads before it have seen. *)
Theorem geo_cache_transparent (reloads : list (Disk * option RoutingConfig)) :
  stable load_geoip (reverse (fst <$> reloads)) -> stable load_geosite (reverse (fst <$> reloads)) ->
  geo_loads geo_cache_default reloads = (fun e => load_geo_data e.1 e.2) <$> reloads.
Proof. intros Hi Hs. by apply (geo_loads_ok reloads _ []); rewrite ?app_nil_r. Qed.

End geo.

(** * Restarts *)

Definition listeners (c : Config) : list (bytes * bytes * Z) := (fun i => (in_tag i, in_listen i, in_port i)) <$> inbounds c.

Lemma find_inbound_some ins tag i : find_inbound ins tag = Some i -> i ∈ ins /\ in_tag i = tag.
Proof. intros [Hi Ht]%find_some. split; [by apply list_elem_of_In |]. unfold bytes_eqb in Ht. by apply bool_decide_eq_true_1 in Ht. Qed.

Lemma existsb_none {A} (f : A -> bool) l x : existsb f l = false -> x ∈ l -> f x = false.
Proof. intros He Hx. destruct (f x) eqn:E; [| done]. rewrite <- He. symmetry. apply existsb_exists. exists x. split; [by apply list_elem_of_In | done]. Qed.

(** A change that needs no restart keeps the listeners, the outbounds, and every inbound up to its sniffing and, for VLESS, its users. *)
Theorem no_restart_keeps_listeners (old new : Config) :
  requires_instance_restart old new = false -> NoDup (in_tag <$> inbounds new) ->
  listeners old ≡ₚ listeners new /\ outbounds old = outbounds new
  /\ forall i, i ∈ inbounds new -> exists o, o ∈ inbounds old /\ normalized_inbound_value o = normalized_inbound_value i.
Proof.
  intros Hr Hnd. unfold requires_instance_restart in Hr. repeat (apply orb_false_iff in Hr as [Hr ?]). rewrite !negb_false_iff in *.
  match goal with K : existsb _ _ = false |- _ => rename K into Hex end. match goal with K : (_ =? _)%nat = true |- _ => apply Nat.eqb_eq in K; rename K into Hlen end.
  match goal with K : bool_decide (outbounds old = outbounds new) = true |- _ => apply bool_decide_eq_true_1 in K; rename K into Hout end.
  assert (Hv : forall i, i ∈ inbounds new -> exists o, o ∈ inbounds old /\ normalized_inbound_value o = normalized_inbound_value i).
  { intros i Hi. destruct (find_inbound (inbounds old) (in_tag i)) as [o |] eqn:Ef.
    - exists o. split; [by apply find_inbound_some in Ef as [? _] |].
      pose proof (existsb_none _ _ i Hex Hi) as K. cbn in K. rewrite Ef in K. apply negb_false_iff in K. by apply bool_decide_eq_true_1 in K.
    - pose proof (existsb_none _ _ i Hex Hi) as K. cbn in K. by rewrite Ef in K. }
  split_and!; [| done | done]. symmetry. apply submseteq_length_Permutation; [| unfold listeners; rewrite !length_fmap; lia].
  apply NoDup_submseteq.
  - apply (list.NoDup_fmap_1 (fun x => x.1.1)). unfold listeners. by rewrite <- list_fmap_compose.
  - intros x Hx. unfold listeners in *. apply list_elem_of_fmap_1 in Hx as (i & -> & Hi). destruct (Hv i Hi) as (o & Ho & E). unfold normalized_inbound_value in E.
    injection E as E1 E2 E3 E4 E5 E6. rewrite <- E1, <- E3, <- E4. by apply (list_elem_of_fmap_2 (fun i => (in_tag i, in_listen i, in_port i))).
Qed.

(** * A reload that fails *)

(** UUIDs as 16 bytes, and upper-casing that changes nothing. *)
Definition toy_reload_lib : ReloadLib := {| uuid_parse s := if zlen s =? 16 then Some s else None; to_uppercase s := s |}.

Section examples.
Context `{IpNetOps} `{PatternLib}.

Definition user_a : VlessUser := mkVlessUser (lit "a") (replicate 16 1) [].

Definition example_state : ReloadState :=
  mkReloadState (LiveRouter_new [] (lit "old") ∅ ∅ None) {[ lit "in" := add_user registry_new user_a ]} ∅ [lit "in"] [lit "old"] geo_cache_default.

Definition example_disk : Disk := mkDisk (fun _ => None) (fun _ => ∅) (fun _ => ∅).

Definition example_inbound (clients : list Client) : InboundConfig := mkInboundConfig (lit "in") true (lit "127.0.0.1") 443 (Some clients) None [].

Definition example_config (clients : list Client) : Config := mkConfigFile [example_inbound clients] [mkOutboundConfig (lit "new") []] None None [] [].

(** A configuration with one id that is no UUID, behind a client of before: the reload reports an error, and by then the router is exchanged, the users are
    cleared, and the user of before is refused. *)
Theorem reload_failure_locks_out :
  let config := example_config [mkClient (Some (lit "typo")) None None; mkClient (Some (replicate 16 1)) (Some (lit "a")) None] in
  exists st', apply (H1 := toy_reload_lib) example_disk config example_state = (st', Err "invalid UUID")
    /\ (exists r, rs_registries example_state !! lit "in" = Some r /\ validate r (replicate 16 1) = Some user_a)
    /\ (exists r, rs_registries st' !! lit "in" = Some r /\ validate r (replicate 16 1) = None)
    /\ default_tag (rs_router st') = lit "new".
Proof. eexists. split; [vm_compute; reflexivity |]. split_and!; [eexists; split; vm_compute; reflexivity.. | vm_compute; reflexivity]. Qed.

(** A balancer that is added while the instance runs: no restart is required, the rules that name it compile, and connections are routed to a tag that nothing
    serves. *)
Theorem new_balancer_unserved :
  let old := mkConfigFile [] [mkOutboundConfig (lit "out") []] None None [] [] in
  let rule := mkRoutingRule [] [] None [] [] (lit "balancer") in
  let new := mkConfigFile [] [mkOutboundConfig (lit "out") []] (Some (mkRoutingConfig None None None [rule] [lit "balancer"])) None [] [] in
  requires_instance_restart old new = false
  /\ exists st', apply (H1 := toy_reload_lib) example_disk new example_state = (st', Ok ())
       /\ forall ctx, (pick_route_match (rs_router st') ctx).1 = lit "balancer".
Proof. split; [vm_compute; reflexivity |]. eexists. split; [vm_compute; reflexivity |]. intros ctx. by vm_compute. Qed.

End examples.

Definition new_config : Config := example_config [mkClient (Some (replicate 16 2)) (Some (lit "b")) None].

Definition reloaded := apply (H := cidr_ops) (H0 := substring_patterns) (H1 := toy_reload_lib) example_disk new_config example_state.

Lemma reload_applies_witness :
  reloaded.2 = Ok () /\ exists users, config_users (H1 := toy_reload_lib) (example_inbound [mkClient (Some (replicate 16 2)) (Some (lit "b")) None]) = Ok users
    /\ rs_registries reloaded.1 !! lit "in" = Some (foldl add_user registry_new users).
Proof.
  pose proof (@reload_applies cidr_ops substring_patterns toy_reload_lib example_disk new_config example_state ltac:(decided)) as Hr. fold reloaded in Hr.
  assert (E : reloaded.2 = Ok ()) by (vm_compute; reflexivity). split; [exact E |]. rewrite (surjective_pairing reloaded), E in Hr.
  destruct Hr as (_ & _ & Hu & _). apply (Hu (example_inbound _)); [by apply list_elem_of_singleton | reflexivity | by eexists].
Defined.

Definition unchanged_disk : Disk (H := cidr_ops) (H0 := substring_patterns) := mkDisk (fun _ => Some (1, 1)) (fun _ => {[ lit "US" := mkGeoIpMatcher [] ]}) (fun _ => ∅).

Definition with_geoip : option RoutingConfig := Some (mkRoutingConfig None (Some (lit "geoip.dat")) None [] []).

Definition example_reloads : list (Disk * option RoutingConfig) := [(unchanged_disk, with_geoip); (unchanged_disk, with_geoip); (unchanged_disk, None)].

Lemma geo_cache_transparent_witness : geo_loads geo_cache_default example_reloads = (fun e => load_geo_data e.1 e.2) <$> example_reloads.
Proof.
  assert (Hst : forall A (load : Disk -> bytes -> A), stable load (reverse (fst <$> example_reloads))).
  { intros A load d d' p f Hd Hd' _ _. assert (Hall : forall x, x ∈ reverse (fst <$> example_reloads) -> x = unchanged_disk).
    { intros x Hx. apply elem_of_reverse, list_elem_of_fmap_1 in Hx as ([y o] & -> & Hy). unfold example_reloads in Hy.
      repeat (apply elem_of_cons in Hy as [[= -> _] | Hy]; [done |]). by apply elem_of_nil in Hy. }
    by rewrite (Hall d Hd), (Hall d' Hd'). }
  exact (@geo_cache_transparent cidr_ops substring_patterns example_reloads (Hst _ _) (Hst _ _)).
Defined.
